(* ===== verification/_CoqProject ===== *)
-Q . S2P
Prelude.v
Lapb.v
LapbIn.v
LapbProofs.v
LapbQueue.v
LapbDeliver.v
LapbModule.v
LapbThms.v
UidHash.v
Cred.v
CredProofs.v
CredSys.v
CredRun.v
CredThms.v
Ipc.v
IpcProofs.v
IpcThms.v
Sem.v
SemProofs.v
SemInv.v
SemQueue.v
SemThms.v
Msg.v
MsgInv.v
MsgRun.v
MsgThms.v
Timer.v
TimerProofs.v
TimerRun.v
TimerThms.v
Resource.v
ResourceProofs.v
ResourceOps.v
ResourceRegion.v
ResourceCalls.v
ResourceThms.v
Format.v
FormatProofs.v
Scan.v
ScanProofs.v
FormatThms.v
ResourceList.v
RbTree.v
RbShape.v
RbInsert.v
RbErase.v
RbThms.v
Vma.v
VmaCalls.v
VmaMmap.v
VmaProt.v
VmaShape.v
VmaLink.v
VmaUnmap.v
VmaCount.v
VmaMunmap.v
VmaMerge.v
VmaBrk.v
VmaSys.v
VmaNew.v
VmaEnd.v
VmaSplit.v
VmaLock.v
VmaProtect.v
VmaThms.v
Locks.v
LocksUser.v
LocksOk.v
LocksApply.v
LocksPosix.v
LocksWorld.v
LocksFcntl.v
LocksThms.v
Filter.v
FilterProofs.v
SockFilter.v
SockProofs.v
FilterThms.v
