(* ===== verification/Prelude.v ===== *)
(** A verification library for parts of the Linux 2.4.20 kernel.

    * What is modelled

    The program is a monolithic kernel of some three million lines, most of
    them drivers, file systems and protocols. The library takes the parts
    whose correctness is a matter of their own logic and state, and models each
    whole: every operation that changes the state of the part is a definition.

    - The LAPB link layer, net/lapb. [Lapb]: control block [lapb_cb], frame
      codec (lapb_subr.c), output (lapb_out.c), timers (lapb_timer.c), up-calls;
      [LapbIn]: the five state machines of lapb_in.c, [lapb_data_input], the
      requests and the list of control blocks of lapb_iface.c, and the step
      relation of a registered link. Buffer allocation and the answers of
      the network layer are the class [LapbEnv].
    - The user cache, kernel/user.c. [UidHash]: the hash chains of
      [user_struct]s with their [next] and [pprev] pointers in an explicit heap,
      and reference counts; the slab allocator is the class [UidSlab].
    - Credentials, kernel/sys.c, kernel/capability.c and the helpers of
      include/linux/sched.h. [Cred]: the task table, the set*id calls, capset,
      setgroups, setpgid, setsid, priorities, limits, names and prctl. A change
      of user goes through [UidHash].
    - System V IPC, ipc/. [Ipc]: the id table and [ipcperms] of util.c, over any
      object with a [kern_ipc_perm] (class [IpcObj]), with the running task of
      [Cred]; [Sem]: semaphores (sem.c) and [Msg]: message queues (msg.c), two
      instances of [IpcObj].
    - Kernel timers, kernel/timer.c. [Timer]: the timer wheel with its five
      vectors, the operations on timers and [run_timer_list]; the functions of
      the timers, which make timer calls of their own, are the class [TimerFn].
    - The resource tree, kernel/resource.c. [Resource]: I/O ports and memory
      ranges as structures linked by pointers in an explicit heap, and every
      operation on them; [kmalloc] is the class [ResAlloc].
      [ResourceList] adds the listing for /proc and the [reserve=] option.
    - Text, lib/vsprintf.c, lib/cmdline.c and lib/ctype.c. [Format]: the printf
      family over a memory of characters and the number parsers; [Scan]: sscanf
      and the option parsers.
    - Red-black trees, lib/rbtree.c. [RbTree]: nodes linked by pointers in an
      explicit heap, rotations, insertion and removal.
    - Address spaces, mm/mmap.c, mm/mlock.c and mm/mprotect.c. [Vma]: the areas of an [mm_struct] in their list
      and in a tree of [RbTree], searches, linking and merging; [VmaCalls]: free
      ranges, unmapping and the program break; [VmaMmap]: new mappings, stacks that
      grow, the tree of a copied list and the end of an address space; [VmaProt]:
      locked and protected ranges, with the areas they split and join. The page
      tables, the lists of areas of a file and its counts are a log of events; allocation, limits and the
      operations of files are the class [VmEnv], what they promise is [VmObjects].
    - File locks, fs/locks.c. [Locks]: locks as structures in an explicit heap,
      the list of an inode, the queues of those that wait, conflicts, the search
      for deadlocks and [posix_lock_file]; [LocksUser]: leases, locks on whole
      files, mandatory locks and the calls of fcntl, flock and close. A position in a list is its index. The slab allocator and
      the lock operation of a file system are the class [LockEnv].
    - The socket filter, net/core/filter.c. [Filter]: the BPF machine, the checker
      and the packet accesses of net/core/skbuff.c; [SockFilter]: filters
      attached to sockets, their reference counts and memory charges.

    * How the code is translated

    A C function is a Rocq function of the same name on records with the names
    of the C fields; a function that changes shared state is in the state monad
    [ST] of this file, on a record of all the state of its part. A loop is a
    Fixpoint on the list it walks. Where it is not structural it takes fuel:
    [validate_loop] the modulus (a theorem shows the fuel is never used up), the
    BPF machine the length of the filter (jumps only go forward, so a step is
    never refused for lack of fuel), the loops of [run_timer_list] the number of
    timers of the slot and of ticks to catch up with, the walks of the resource
    tree the number of live structures or its square, the segment loops of messages the
    length of the text (a segment holds at least one byte), the loops over a
    format or an option string its length, the digits of a number 64, and the
    climbs and descents of a red-black tree, and the walks along the areas of an
    address space, the number of live nodes; what is in the way of a new
    mapping is cleared in one round. The loops over the locks of an inode take the
    length of the list, [locks_remove_posix], which begins again after each lock,
    its square; the search for a deadlock takes the number of waiters: a search
    that needs more goes round for ever (C37, [posix_locks_deadlock_correct]).
    Integers are Z with
    the wrap-around of the i386 types written out where the code can reach it.
    Shifts by 32 or more are those of the i386 instructions.

    Memory the caller owns, [copy_from_user], [kmalloc] and the clock are
    arguments of the definitions that use them. A kernel 2.4 task is not
    preempted in the kernel, and the sections the code protects with a spinlock
    or semaphore are atomic here; a call that sleeps is cut where it
    sleeps ([semop_wakeup], [msgsnd_wakeup], [msgrcv_wakeup], [setlk_wakeup] are the
    rest of the call), and the schedules [run_sem] and [run_msg] put the sections of all
    tasks in any order. Calls that may sleep in an allocation or in
    [copy_from_user] are not interrupted there, although the checks the code
    makes afterwards are modelled.

    * What is shown

    - LAPB (C1, C2, C4, C6, C8, C9, [LapbThms]): bounds of the sequence variables in every
      reachable state, the N(R) test, queue discipline and window, in-sequence
      delivery, frame round trips, transitions, retry limit.
    - User cache (C12, [UidHash]): the pointer structure refines a finite map.
    - Credentials (C13, C14, C17, [CredThms]): containment of
      capabilities, confinement of unprivileged tasks, groups within sessions,
      capabilities set for many tasks at once.
    - Timers (C16, C21, [TimerThms]): the wheel refines a map from timers to due
      ticks, and timers run exactly on time.
    - IPC ids (C23, [IpcThms]): an id is accepted exactly until its object
      goes; the table refines a finite map; the permission check.
    - Semaphores (C26-C28, [SemThms]): an operation list is atomic and
      refines its sequential execution; ranges and totals along any schedule;
      no lost wake-up where [alter] is set.
    - Message queues (C33, C39, C40, [MsgThms]): exact counters, no receiver asleep
      beside a message it accepts, no BUG(); msgrcv takes the message the manual
      names; text survives segmentation and hand-over.
    - Resource tree (C29, C32, [ResourceThms]): no wild pointer and nested
      ranges along any sequence of calls; exact conditions for a region and an
      allocation, and the round trip of a region.
    - Text (C11, C25, [FormatThms]): what is printed is the text of a reference
      definition, cut to the buffer; printed numbers are read back.
    - Red-black trees (C20, C30, [RbThms]): insertion and removal at the level of
      pointers keep the tree red-black, so balanced, and change its order by the
      one node only.
    - Address spaces (C3, C5, C7, C10, C15, C18, C19, C24, C31, [VmaThms]):
      mapping, unmapping, moving the break, locking and protecting change the
      pages asked for and no others, or fail for a stated reason; no page gets a
      right it may not have, and locks stay within the limits; no page table of a mapped page is
      freed; the first free range is found; any sequence of calls keeps the areas,
      tree and counts exact; the end releases every area once.
    - File locks (C22, C36, C37, [LocksThms]), for the locks of fcntl and any
      sequence of calls, wake-ups, signals and closes: [LocksOk] says what
      setting a range does to sorted ranges and to each byte, [LocksApply]
      and [LocksPosix] that the loop of [posix_lock_file] does it, [LocksWorld]
      what the search for deadlocks finds and how the tables and their sleepers
      stay well formed, [LocksFcntl] what a call does among all tasks. Locks of two
      owners do not conflict, a sleeper is always queued on a lock that is in its
      way, owners do not wait in a circle, and every call returns. Left out are
      requests to the end of a file that meet locks of the same owner and type:
      there the code goes wrong, which examples show, as three other faults
      where leases and mandatory locks take part.
    - Socket filter (C34, C35, C38, [FilterThms]): accepted filters run safely and
      end; loads do not depend on the layout of the packet; lifetime and
      accounting of attached filters.

    Each part has a file of definitions, files of lemmas (invariants, refinement,
    walks) and a file of properties with witnesses; this file holds the integers,
    the monad with its rules for invariants ([preserves], [hoare], the database
    [kernel]) and the list lemmas they share.

    * What is not modelled

    Drivers, file systems, the memory manager, the scheduler, architecture code
    and the other protocols: their logic is the hardware's, or they are far
    larger than the parts above. Within the parts: printk and /proc output, the
    old layouts of structures copied to user space, and SMP interleavings inside
    a locked section. Of locks on whole files, leases and mandatory locks the
    operations are modelled and nothing but examples is shown; what a file system
    notes in a lock ([fl_u]) is left out. Shared memory segments (ipc/shm.c) are
    mostly calls of the file system that backs them. *)
From Stdlib Require Export ZArith Lia.
From stdpp Require Export base gmap list strings numbers.
From stdpp Require Import options.
#[global] Open Scope Z_scope.

(** * Machine integers

    The i386 ABI of the sources: [unsigned char], [unsigned short],
    [unsigned int] and [unsigned long] are 8, 16, 32 and 32 bits wide,
    [long long] is 64, and the signed types wrap to two's complement. *)

Definition u8 (z : Z) : Z := z mod 2 ^ 8.
Definition u16 (z : Z) : Z := z mod 2 ^ 16.
Definition u32 (z : Z) : Z := z mod 2 ^ 32.
Definition s16 (z : Z) : Z := (z + 2 ^ 15) mod 2 ^ 16 - 2 ^ 15.
Definition s32 (z : Z) : Z := (z + 2 ^ 31) mod 2 ^ 32 - 2 ^ 31.
Definition s64 (z : Z) : Z := (z + 2 ^ 63) mod 2 ^ 64 - 2 ^ 63.

(** Ticks of [jiffies] in a second *)
Definition HZ : Z := 100.

(** A bit mask test, the C condition [x & m]. *)
Definition flag (x m : Z) : bool := negb (Z.land x m =? 0).

(** Clearing a mask, the C statement [x &= ~m]. *)
Definition clear_bits (x m : Z) : Z := Z.land x (Z.lnot m).

Declare Scope cint_scope.
Delimit Scope cint_scope with cint.
Notation "x & m" := (flag x m) (at level 45, no associativity) : cint_scope.
Notation "x &~ m" := (clear_bits x m) (at level 45, no associativity) : cint_scope.

Lemma u8_bound z : 0 <= u8 z < 256.
Proof. unfold u8. apply Z.mod_pos_bound. lia. Qed.

Lemma u16_bound z : 0 <= u16 z < 65536.
Proof. unfold u16. apply Z.mod_pos_bound. lia. Qed.

Lemma u32_bound z : 0 <= u32 z < 4294967296.
Proof. unfold u32. apply Z.mod_pos_bound. lia. Qed.

Lemma s32_bound z : -2147483648 <= s32 z < 2147483648.
Proof.
  unfold s32. pose proof (Z.mod_pos_bound (z + 2 ^ 31) (2 ^ 32)).
  change (2 ^ 31) with 2147483648 in *. change (2 ^ 32) with 4294967296 in *. lia.
Qed.

Lemma u8_small z : 0 <= z < 256 → u8 z = z.
Proof. intros. unfold u8. apply Z.mod_small. lia. Qed.

Lemma u16_small z : 0 <= z < 65536 → u16 z = z.
Proof. intros. unfold u16. apply Z.mod_small. lia. Qed.

Lemma u32_small z : 0 <= z < 4294967296 → u32 z = z.
Proof. intros. unfold u32. apply Z.mod_small. lia. Qed.

Lemma s32_small z : -2147483648 <= z < 2147483648 → s32 z = z.
Proof.
  intros. unfold s32. change (2 ^ 31) with 2147483648. change (2 ^ 32) with 4294967296.
  rewrite Z.mod_small; lia.
Qed.

(** Inner wrap-arounds do not matter. *)
Lemma s32_add a b : s32 (s32 a + b) = s32 (a + b).
Proof.
  unfold s32. replace ((a + 2 ^ 31) mod 2 ^ 32 - 2 ^ 31 + b + 2 ^ 31) with ((a + 2 ^ 31) mod 2 ^ 32 + b) by lia.
  rewrite Zplus_mod_idemp_l. do 2 f_equal. lia.
Qed.

Lemma s32_u32 a b : s32 (a + u32 b) = s32 (a + b).
Proof.
  unfold s32, u32. replace (a + b mod 2 ^ 32 + 2 ^ 31) with (b mod 2 ^ 32 + (a + 2 ^ 31)) by lia.
  rewrite Zplus_mod_idemp_l. do 2 f_equal. lia.
Qed.

Lemma u32_add a b : u32 (u32 a + b) = u32 (a + b).
Proof. unfold u32. apply Zplus_mod_idemp_l. Qed.

(** * Error numbers (include/asm-i386/errno.h) *)

Definition EPERM : Z := 1.
Definition ENOENT : Z := 2.
Definition ESRCH : Z := 3.
Definition EINTR : Z := 4.
Definition E2BIG : Z := 7.
Definition EAGAIN : Z := 11.
Definition ENOMEM : Z := 12.
Definition EACCES : Z := 13.
Definition EFAULT : Z := 14.
Definition EBUSY : Z := 16.
Definition EEXIST : Z := 17.
Definition EINVAL : Z := 22.
Definition EFBIG : Z := 27.
Definition ENOSPC : Z := 28.
Definition ERANGE : Z := 34.
Definition ENOMSG : Z := 42.
Definition EIDRM : Z := 43.

(** * Cyclic distance

    [cdist m a b] is the number of increments modulo [m] that lead from [a] to
    [b]; the sequence-number windows of the protocols are intervals of it. *)
Definition cdist (m a b : Z) : Z := (b - a) mod m.

Lemma cdist_bound m a b : 0 < m → 0 <= cdist m a b < m.
Proof. intros. unfold cdist. by apply Z.mod_pos_bound. Qed.

Lemma cdist_self m a : cdist m a a = 0.
Proof. unfold cdist. by rewrite Z.sub_diag, Zmod_0_l. Qed.

Lemma cdist_zero m a b :
  0 < m → 0 <= a < m → 0 <= b < m → cdist m a b = 0 → a = b.
Proof.
  intros Hm Ha Hb Hd. unfold cdist in Hd.
  apply Z.mod_divide in Hd; [|lia]. destruct Hd as [k Hk].
  assert (k = 0) by nia. lia.
Qed.

Lemma cdist_le m a b : 0 <= a <= b → b < m → cdist m a b = b - a.
Proof. intros. unfold cdist. apply Z.mod_small. lia. Qed.

Lemma cdist_gt m a b : 0 <= b < a → a < m → cdist m a b = b - a + m.
Proof.
  intros. unfold cdist.
  rewrite <-(Z.mod_small (b - a + m) m), <-Z.add_mod_idemp_r, Z.mod_same, Z.add_0_r by lia.
  done.
Qed.

(** Stepping the left end one forward shortens a non-empty distance by one. *)
Lemma cdist_succ_l m a b :
  1 < m → 0 <= a < m → 0 <= b < m → a ≠ b →
  cdist m ((a + 1) mod m) b = cdist m a b - 1.
Proof.
  intros Hm Ha Hb Hne.
  destruct (decide (a + 1 = m)) as [Hw|].
  - rewrite Hw, Z.mod_same by lia. rewrite (cdist_le m 0 b) by lia.
    rewrite cdist_gt by lia. lia.
  - rewrite (Z.mod_small (a + 1)) by lia.
    destruct (decide (a < b)).
    + rewrite !cdist_le by lia. lia.
    + rewrite !cdist_gt by lia. lia.
Qed.

(** Stepping the right end one forward lengthens the distance by one, as long
    as it does not wrap onto the left end. *)
Lemma cdist_succ_r m a b :
  1 < m → 0 <= a < m → 0 <= b < m → cdist m a b < m - 1 →
  cdist m a ((b + 1) mod m) = cdist m a b + 1.
Proof.
  intros Hm Ha Hb Hd.
  destruct (decide (b + 1 = m)) as [Hw|].
  - rewrite Hw, Z.mod_same by lia.
    destruct (decide (a = 0)) as [->|].
    { rewrite cdist_le in Hd by lia. lia. }
    rewrite cdist_gt, cdist_le by lia. lia.
  - rewrite (Z.mod_small (b + 1)) by lia.
    destruct (decide (a <= b)).
    + rewrite !cdist_le by lia. lia.
    + destruct (decide (a = b + 1)) as [->|].
      * rewrite cdist_gt in Hd by lia. lia.
      * rewrite !cdist_gt by lia. lia.
Qed.

(** * A state monad for the code that mutates a shared structure *)

Definition ST (S A : Type) : Type := S → A * S.

#[export] Instance ST_ret {S} : MRet (ST S) := λ A a s, (a, s).
#[export] Instance ST_bind {S} : MBind (ST S) := λ A B f m s, f (m s).1 (m s).2.

Definition gets {S A} (f : S → A) : ST S A := λ s, (f s, s).
Definition modify {S} (f : S → S) : ST S unit := λ s, (tt, f s).
Definition skip {S} : ST S unit := λ s, (tt, s).

(** One step of a program whose result is known. *)
Lemma bind_run {S A B} (m : ST S A) (f : A → ST S B) s a s' : m s = (a, s') → (m ≫= f) s = f a s'.
Proof. intros Hm. unfold mbind, ST_bind. by rewrite Hm. Qed.

(** The same with calls that can go wrong, by an access to what is not there:
    [None]. *)
Definition ES (S A : Type) : Type := S → option (A * S).

#[export] Instance ES_ret {S} : MRet (ES S) := λ A a s, Some (a, s).
#[export] Instance ES_bind {S} : MBind (ES S) := λ A B f m s,
  match m s with
  | None => None
  | Some (a, s) => f a s
  end.

Lemma es_bind {S A B} (m : ES S A) (f : A → ES S B) s a s' : m s = Some (a, s') → (m ≫= f) s = f a s'.
Proof. intros Hm. unfold mbind, ES_bind. by rewrite Hm. Qed.

Lemma es_bind_none {S A B} (m : ES S A) (f : A → ES S B) s : m s = None → (m ≫= f) s = None.
Proof. intros Hm. unfold mbind, ES_bind. by rewrite Hm. Qed.

(** Where an element stands in a list without repetitions. *)
Lemma nodup_split (x : Z) l1 l2 k1 k2 : NoDup (l1 ++ x :: l2) → l1 ++ x :: l2 = k1 ++ x :: k2 → l1 = k1.
Proof.
  revert k1. induction l1 as [|y l1 IH]; intros [|z k1] Hnd Heq; cbn in *; simplify_eq; [done|..].
  - exfalso. apply list.NoDup_cons in Hnd as [Hn _]. apply Hn, elem_of_app. right. left.
  - exfalso. apply list.NoDup_cons in Hnd as [Hn _]. apply Hn, elem_of_app. right. left.
  - f_equal. apply list.NoDup_cons in Hnd as [_ Hnd]. by apply IH.
Qed.

(** Writing keeps what is live. *)
Lemma alter_live {A} (f : A → A) (p q : Z) (h : gmap Z A) : is_Some (h !! p) → is_Some (alter f q h !! p).
Proof. intros [r Hr]. rewrite lookup_alter. destruct (decide (q = p)) as [->|]; rewrite Hr; by eexists. Qed.

(** In a heap, different live addresses are at most as many as it holds. *)
Lemma nodup_size {A} (h : gmap Z A) l : NoDup l → (∀ x, x ∈ l → is_Some (h !! x)) → (length l <= size h)%nat.
Proof.
  intros Hnd Hl. rewrite <-size_dom, <-(size_list_to_set (C := gset Z) l) by done. apply subseteq_size.
  intros x Hx. apply elem_of_list_to_set, Hl in Hx. by apply elem_of_dom.
Qed.

(** [when b m] is the C statement [if (b) m]. *)
Definition when {S} (b : bool) (m : ST S unit) : ST S unit :=
  if b then m else skip.

(** [hoare P m Q]: started in a state satisfying [P], [m] ends in a state and
    with a result satisfying [Q]. All definitions are total, so this is total
    correctness. *)
Definition hoare {S A} (P : S → Prop) (m : ST S A) (Q : A → S → Prop) : Prop :=
  ∀ s, P s → Q (m s).1 (m s).2.

(** [preserves I m]: the invariant [I] survives [m]. *)
Definition preserves {S A} (I : S → Prop) (m : ST S A) : Prop :=
  ∀ s, I s → I (m s).2.

Section hoare.
Context {S : Type}.
Implicit Types I P : S → Prop.

Lemma preserves_ret {A} I (a : A) : preserves I (mret a : ST S A).
Proof. by intros s. Qed.

Lemma preserves_bind {A B} I (m : ST S A) (f : A → ST S B) :
  preserves I m → (∀ a, preserves I (f a)) → preserves I (m ≫= f).
Proof. intros Hm Hf s Hs. apply Hf. by apply Hm. Qed.

Lemma preserves_gets {A} I (f : S → A) : preserves I (gets f).
Proof. by intros s. Qed.

Lemma preserves_skip I : preserves I skip.
Proof. by intros s. Qed.

Lemma preserves_modify I f : (∀ s, I s → I (f s)) → preserves I (modify f).
Proof. by intros Hf s ?; apply Hf. Qed.

Lemma preserves_when I b m : preserves I m → preserves I (when b m).
Proof. by destruct b; [|intros _ s]. Qed.

Lemma preserves_if {A} I (b : bool) (m1 m2 : ST S A) :
  preserves I m1 → preserves I m2 → preserves I (if b then m1 else m2).
Proof. by destruct b. Qed.

Lemma hoare_bind {A B} P (m : ST S A) R (f : A → ST S B) Q :
  hoare P m R → (∀ a, hoare (R a) (f a) Q) → hoare P (m ≫= f) Q.
Proof. intros Hm Hf s Hs. apply Hf. by apply Hm. Qed.

Lemma hoare_pre {A} P P' (m : ST S A) Q :
  (∀ s, P s → P' s) → hoare P' m Q → hoare P m Q.
Proof. intros HP Hm s Hs. apply Hm, HP, Hs. Qed.

Lemma hoare_post {A} P (m : ST S A) Q Q' :
  (∀ a s, Q' a s → Q a s) → hoare P m Q' → hoare P m Q.
Proof. intros HQ Hm s Hs. apply HQ, Hm, Hs. Qed.

Lemma hoare_pure {A} (φ : Prop) P (m : ST S A) Q :
  (φ → hoare P m Q) → hoare (λ s, φ ∧ P s) m Q.
Proof. intros Hm s [Hφ Hs]. by apply Hm. Qed.

Lemma hoare_preserves {A} P (m : ST S A) :
  preserves P m → hoare P m (λ _, P).
Proof. done. Qed.
End hoare.

Create HintDb kernel discriminated.
#[export] Hint Constants Opaque : kernel.
#[export] Hint Resolve preserves_ret preserves_gets preserves_skip
  preserves_when preserves_if : kernel.

(** Split a monadic program along its binds and branches, leaving the basic
    state updates. *)
Ltac preserves_step :=
  first
    [ solve [eauto 3 with kernel nocore]
    | apply preserves_bind; [|intros ?]
    | apply preserves_when
    | apply preserves_if
    | match goal with
      | |- preserves _ (match ?x with _ => _ end) => destruct x eqn:?
      | |- preserves _ (let _ := _ in _) => cbv zeta
      end ].
Ltac preserves_tac := repeat preserves_step.

(** Turn the boolean tests of the code into the propositions they decide. *)
Ltac to_prop :=
  repeat match goal with
  | H : (_ =? _) = true |- _ => apply Z.eqb_eq in H
  | H : (_ =? _) = false |- _ => apply Z.eqb_neq in H
  | H : (_ <? _) = true |- _ => apply Z.ltb_lt in H
  | H : (_ <? _) = false |- _ => apply Z.ltb_ge in H
  | H : (_ <=? _) = true |- _ => apply Z.leb_le in H
  | H : (_ <=? _) = false |- _ => apply Z.leb_gt in H
  | H : (_ >? _) = true |- _ => rewrite Z.gtb_ltb in H
  | H : (_ >? _) = false |- _ => rewrite Z.gtb_ltb in H
  | H : (_ >=? _) = true |- _ => rewrite Z.geb_leb in H
  | H : (_ >=? _) = false |- _ => rewrite Z.geb_leb in H
  | H : (_ && _)%bool = true |- _ => apply andb_prop in H as [??]
  | H : (_ || _)%bool = false |- _ => apply orb_false_elim in H as [??]
  | H : negb _ = true |- _ => apply negb_true_iff in H
  | H : negb _ = false |- _ => apply negb_false_iff in H
  | H : bool_decide _ = true |- _ => apply bool_decide_eq_true in H
  | H : bool_decide _ = false |- _ => apply bool_decide_eq_false in H
  end.

(** * Lists *)

Lemma drop_1_cons {A} (x : A) l : drop 1 (x :: l) = l.
Proof. done. Qed.

(** Sums over the elements of a list. *)
Fixpoint zsum {A} (f : A → Z) (l : list A) : Z :=
  match l with
  | [] => 0
  | x :: l => f x + zsum f l
  end.

Lemma zsum_insert {A} (f : A → Z) l i x y :
  l !! i = Some y → zsum f (<[i := x]> l) = zsum f l + f x - f y.
Proof.
  revert i. induction l as [|z l IH]; intros [|i] Hi; simplify_eq/=; [lia|]. rewrite (IH i) by done. lia.
Qed.

Lemma zsum_app {A} (f : A → Z) l k : zsum f (l ++ k) = zsum f l + zsum f k.
Proof. induction l as [|x l IH]; simpl; lia. Qed.

Lemma zsum_replicate {A} (f : A → Z) n x : zsum f (replicate n x) = Z.of_nat n * f x.
Proof. induction n as [|n IH]; [done|]. cbn [replicate zsum]. rewrite IH. lia. Qed.

Lemma zsum_nonneg {A} (f : A → Z) l : (∀ x, 0 <= f x) → 0 <= zsum f l.
Proof. intros Hf. induction l as [|x l IH]; simpl; [lia|]. specialize (Hf x). lia. Qed.

Lemma zsum_le {A} (f : A → Z) l i x : (∀ x, 0 <= f x) → l !! i = Some x → f x <= zsum f l.
Proof.
  intros Hf. revert i. induction l as [|y l IH]; intros [|i] Hi; simplify_eq/=.
  - pose proof (zsum_nonneg f l Hf). lia.
  - specialize (IH i Hi). specialize (Hf y). lia.
Qed.

(** Insertion of [x] right behind position [i]. *)
Definition insert_after {A} (i : nat) (x : A) (l : list A) : list A :=
  take (S i) l ++ x :: drop (S i) l.

Lemma insert_after_app {A} (l k : list A) (y x : A) :
  insert_after (length l) x (l ++ y :: k) = l ++ y :: x :: k.
Proof.
  unfold insert_after.
  replace (l ++ y :: k) with ((l ++ [y]) ++ k) by by rewrite <-app_assoc.
  replace (S (length l)) with (length (l ++ [y])) by (rewrite length_app; simpl; lia).
  by rewrite take_app_length, drop_app_length, <-app_assoc.
Qed.

(** * Exhaustive checks

    A property of the bytes or sequence numbers below a small bound is decided
    by evaluating it on each of them. *)
Lemma check_below (n : nat) (f : Z → bool) :
  forallb f (map Z.of_nat (seq 0 n)) = true → ∀ v, 0 <= v < Z.of_nat n → f v = true.
Proof.
  intros Hf v Hv. rewrite forallb_forall in Hf. apply Hf.
  apply in_map_iff. exists (Z.to_nat v). split; [lia|]. apply in_seq. lia.
Qed.
