(* ===== verification/Lapb.v ===== *)
(** The LAPB link layer (net/lapb): the control block, the frame codec, the
    transmit queues, the timers and the output side (lapb_subr.c, lapb_out.c,
    lapb_timer.c, and the up-calls of lapb_iface.c). The five state machines and
    the service interface are in the file LapbIn. *)
From S2P Require Import Prelude.
From stdpp Require Import options.
Open Scope cint_scope.
Open Scope Z_scope.

(** * Constants of include/net/lapb.h and include/linux/lapb.h *)

Definition LAPB_ACK_PENDING_CONDITION : Z := 1.
Definition LAPB_REJECT_CONDITION : Z := 2.
Definition LAPB_PEER_RX_BUSY_CONDITION : Z := 4.
Definition LAPB_I : Z := 0x00.
Definition LAPB_S : Z := 0x01.
Definition LAPB_U : Z := 0x03.
Definition LAPB_RR : Z := 0x01.
Definition LAPB_RNR : Z := 0x05.
Definition LAPB_REJ : Z := 0x09.
Definition LAPB_SABM : Z := 0x2F.
Definition LAPB_SABME : Z := 0x6F.
Definition LAPB_DISC : Z := 0x43.
Definition LAPB_DM : Z := 0x0F.
Definition LAPB_UA : Z := 0x63.
Definition LAPB_FRMR : Z := 0x87.
Definition LAPB_ILLEGAL : Z := 0x100.
Definition LAPB_SPF : Z := 0x10.
Definition LAPB_EPF : Z := 0x01.
Definition LAPB_FRMR_W : Z := 0x01.
Definition LAPB_FRMR_Z : Z := 0x08.
Definition LAPB_POLLOFF : Z := 0.
Definition LAPB_POLLON : Z := 1.
Definition LAPB_COMMAND : Z := 1.
Definition LAPB_RESPONSE : Z := 2.
Definition LAPB_ADDR_A : Z := 0x03.
Definition LAPB_ADDR_B : Z := 0x01.
Definition LAPB_ADDR_C : Z := 0x0F.
Definition LAPB_ADDR_D : Z := 0x07.
Definition LAPB_SMODULUS : Z := 8.
Definition LAPB_EMODULUS : Z := 128.
Definition LAPB_EXTENDED : Z := 0x01.
Definition LAPB_MLP : Z := 0x02.
Definition LAPB_DCE : Z := 0x04.
Definition LAPB_OK : Z := 0.
Definition LAPB_BADTOKEN : Z := 1.
Definition LAPB_INVALUE : Z := 2.
Definition LAPB_CONNECTED : Z := 3.
Definition LAPB_NOTCONNECTED : Z := 4.
Definition LAPB_REFUSED : Z := 5.
Definition LAPB_TIMEDOUT : Z := 6.
Definition LAPB_NOMEM : Z := 7.
Definition NET_RX_DROP : Z := 1.
Definition NET_RX_CN_HIGH : Z := 4.

(** The link states of the enum in include/net/lapb.h. *)
Inductive lapb_state :=
  | LAPB_STATE_0 (* disconnected *)
  | LAPB_STATE_1 (* awaiting connection *)
  | LAPB_STATE_2 (* awaiting disconnection *)
  | LAPB_STATE_3 (* data transfer *)
  | LAPB_STATE_4 (* frame reject *).

#[export] Instance lapb_state_eq_dec : EqDecision lapb_state.
Proof. solve_decision. Defined.

(** * Socket buffers

    [skb_data] are the bytes between [data] and [tail]; [skb_slack] are the
    bytes of the linear buffer behind [tail], which the decoder can read since
    it does not test the length. *)
Record sk_buff := mk_skb { skb_data : list Z; skb_slack : list Z }.

(** [skb->data[i]] *)
Definition skb_byte (skb : sk_buff) (i : nat) : Z :=
  nth i (skb_data skb ++ skb_slack skb) 0.

(** [skb_pull] refuses to pull more than the length and then changes nothing. *)
Definition skb_pull (skb : sk_buff) (n : nat) : sk_buff :=
  if decide (length (skb_data skb) < n)%nat then skb
  else mk_skb (drop n (skb_data skb)) (skb_slack skb).

(** [skb_push] followed by the stores to the exposed bytes. *)
Definition skb_push (skb : sk_buff) (bytes : list Z) : sk_buff :=
  mk_skb (bytes ++ skb_data skb) (skb_slack skb).

(** A fresh buffer from [alloc_skb]/[skb_reserve]/[skb_put]. *)
Definition skb_fresh (bytes : list Z) : sk_buff := mk_skb bytes [].

(** * The frame descriptor and the control block *)

Record lapb_frame := mk_frame {
  type : Z;      (* unsigned short *)
  nr : Z;        (* unsigned short *)
  ns : Z;        (* unsigned short *)
  cr : Z;        (* unsigned char *)
  pf : Z;        (* unsigned char *)
  control0 : Z;  (* unsigned char control[0] *)
  control1 : Z   (* unsigned char control[1] *)
}.

(** Which callbacks are non-NULL; what [data_indication] answers is a parameter
    of the environment below. *)
Record lapb_register_struct := mk_callbacks {
  connect_confirmation : bool;
  connect_indication : bool;
  disconnect_confirmation : bool;
  disconnect_indication : bool;
  data_indication : bool;
  data_transmit : bool
}.

Record lapb_cb := mk_cb {
  token : Z;  (* void * *)
  mode : Z;  (* unsigned int *)
  state : lapb_state;
  vs : Z;  (* unsigned short *)
  vr : Z;  (* unsigned short *)
  va : Z;  (* unsigned short *)
  condition : Z;  (* unsigned char *)
  n2 : Z;  (* unsigned short *)
  n2count : Z;  (* unsigned short *)
  t1 : Z;  (* unsigned short *)
  t2 : Z;  (* unsigned short *)
  t1timer : option Z;  (* Some expires while pending *)
  t2timer : option Z;  (* Some expires while pending *)
  write_queue : list sk_buff;
  ack_queue : list sk_buff;
  window : Z;  (* unsigned char *)
  callbacks : lapb_register_struct;
  frmr_data : lapb_frame;
  frmr_type : Z  (* unsigned char *)
}.

(** Field assignments. *)
Definition set_token (x : Z) (c : lapb_cb) : lapb_cb :=
  mk_cb x (mode c) (state c) (vs c) (vr c) (va c) (condition c) (n2 c) (n2count c) (t1 c) (t2 c) (t1timer c) (t2timer c) (write_queue c) (ack_queue c) (window c) (callbacks c) (frmr_data c) (frmr_type c).
Definition set_mode (x : Z) (c : lapb_cb) : lapb_cb :=
  mk_cb (token c) x (state c) (vs c) (vr c) (va c) (condition c) (n2 c) (n2count c) (t1 c) (t2 c) (t1timer c) (t2timer c) (write_queue c) (ack_queue c) (window c) (callbacks c) (frmr_data c) (frmr_type c).
Definition set_state (x : lapb_state) (c : lapb_cb) : lapb_cb :=
  mk_cb (token c) (mode c) x (vs c) (vr c) (va c) (condition c) (n2 c) (n2count c) (t1 c) (t2 c) (t1timer c) (t2timer c) (write_queue c) (ack_queue c) (window c) (callbacks c) (frmr_data c) (frmr_type c).
Definition set_vs (x : Z) (c : lapb_cb) : lapb_cb :=
  mk_cb (token c) (mode c) (state c) x (vr c) (va c) (condition c) (n2 c) (n2count c) (t1 c) (t2 c) (t1timer c) (t2timer c) (write_queue c) (ack_queue c) (window c) (callbacks c) (frmr_data c) (frmr_type c).
Definition set_vr (x : Z) (c : lapb_cb) : lapb_cb :=
  mk_cb (token c) (mode c) (state c) (vs c) x (va c) (condition c) (n2 c) (n2count c) (t1 c) (t2 c) (t1timer c) (t2timer c) (write_queue c) (ack_queue c) (window c) (callbacks c) (frmr_data c) (frmr_type c).
Definition set_va (x : Z) (c : lapb_cb) : lapb_cb :=
  mk_cb (token c) (mode c) (state c) (vs c) (vr c) x (condition c) (n2 c) (n2count c) (t1 c) (t2 c) (t1timer c) (t2timer c) (write_queue c) (ack_queue c) (window c) (callbacks c) (frmr_data c) (frmr_type c).
Definition set_condition (x : Z) (c : lapb_cb) : lapb_cb :=
  mk_cb (token c) (mode c) (state c) (vs c) (vr c) (va c) x (n2 c) (n2count c) (t1 c) (t2 c) (t1timer c) (t2timer c) (write_queue c) (ack_queue c) (window c) (callbacks c) (frmr_data c) (frmr_type c).
Definition set_n2 (x : Z) (c : lapb_cb) : lapb_cb :=
  mk_cb (token c) (mode c) (state c) (vs c) (vr c) (va c) (condition c) x (n2count c) (t1 c) (t2 c) (t1timer c) (t2timer c) (write_queue c) (ack_queue c) (window c) (callbacks c) (frmr_data c) (frmr_type c).
Definition set_n2count (x : Z) (c : lapb_cb) : lapb_cb :=
  mk_cb (token c) (mode c) (state c) (vs c) (vr c) (va c) (condition c) (n2 c) x (t1 c) (t2 c) (t1timer c) (t2timer c) (write_queue c) (ack_queue c) (window c) (callbacks c) (frmr_data c) (frmr_type c).
Definition set_t1 (x : Z) (c : lapb_cb) : lapb_cb :=
  mk_cb (token c) (mode c) (state c) (vs c) (vr c) (va c) (condition c) (n2 c) (n2count c) x (t2 c) (t1timer c) (t2timer c) (write_queue c) (ack_queue c) (window c) (callbacks c) (frmr_data c) (frmr_type c).
Definition set_t2 (x : Z) (c : lapb_cb) : lapb_cb :=
  mk_cb (token c) (mode c) (state c) (vs c) (vr c) (va c) (condition c) (n2 c) (n2count c) (t1 c) x (t1timer c) (t2timer c) (write_queue c) (ack_queue c) (window c) (callbacks c) (frmr_data c) (frmr_type c).
Definition set_t1timer (x : option Z) (c : lapb_cb) : lapb_cb :=
  mk_cb (token c) (mode c) (state c) (vs c) (vr c) (va c) (condition c) (n2 c) (n2count c) (t1 c) (t2 c) x (t2timer c) (write_queue c) (ack_queue c) (window c) (callbacks c) (frmr_data c) (frmr_type c).
Definition set_t2timer (x : option Z) (c : lapb_cb) : lapb_cb :=
  mk_cb (token c) (mode c) (state c) (vs c) (vr c) (va c) (condition c) (n2 c) (n2count c) (t1 c) (t2 c) (t1timer c) x (write_queue c) (ack_queue c) (window c) (callbacks c) (frmr_data c) (frmr_type c).
Definition set_write_queue (x : list sk_buff) (c : lapb_cb) : lapb_cb :=
  mk_cb (token c) (mode c) (state c) (vs c) (vr c) (va c) (condition c) (n2 c) (n2count c) (t1 c) (t2 c) (t1timer c) (t2timer c) x (ack_queue c) (window c) (callbacks c) (frmr_data c) (frmr_type c).
Definition set_ack_queue (x : list sk_buff) (c : lapb_cb) : lapb_cb :=
  mk_cb (token c) (mode c) (state c) (vs c) (vr c) (va c) (condition c) (n2 c) (n2count c) (t1 c) (t2 c) (t1timer c) (t2timer c) (write_queue c) x (window c) (callbacks c) (frmr_data c) (frmr_type c).
Definition set_window (x : Z) (c : lapb_cb) : lapb_cb :=
  mk_cb (token c) (mode c) (state c) (vs c) (vr c) (va c) (condition c) (n2 c) (n2count c) (t1 c) (t2 c) (t1timer c) (t2timer c) (write_queue c) (ack_queue c) x (callbacks c) (frmr_data c) (frmr_type c).
Definition set_callbacks (x : lapb_register_struct) (c : lapb_cb) : lapb_cb :=
  mk_cb (token c) (mode c) (state c) (vs c) (vr c) (va c) (condition c) (n2 c) (n2count c) (t1 c) (t2 c) (t1timer c) (t2timer c) (write_queue c) (ack_queue c) (window c) x (frmr_data c) (frmr_type c).
Definition set_frmr_data (x : lapb_frame) (c : lapb_cb) : lapb_cb :=
  mk_cb (token c) (mode c) (state c) (vs c) (vr c) (va c) (condition c) (n2 c) (n2count c) (t1 c) (t2 c) (t1timer c) (t2timer c) (write_queue c) (ack_queue c) (window c) (callbacks c) x (frmr_type c).
Definition set_frmr_type (x : Z) (c : lapb_cb) : lapb_cb :=
  mk_cb (token c) (mode c) (state c) (vs c) (vr c) (va c) (condition c) (n2 c) (n2count c) (t1 c) (t2 c) (t1timer c) (t2timer c) (write_queue c) (ack_queue c) (window c) (callbacks c) (frmr_data c) x.

(** * The environment

    What the link calls but does not define: whether the n-th buffer allocation
    ([alloc_skb], [skb_clone], [kmalloc]) succeeds, and the congestion level the
    network layer returns for the n-th delivered frame. *)
Class LapbEnv := {
  alloc_ok : nat → bool;
  rx_result : nat → list Z → Z
}.

(** Observable effects: up-calls, transmissions and buffers released. *)
Inductive event :=
  | EvConnectConfirmation (tok reason : Z)
  | EvConnectIndication (tok reason : Z)
  | EvDisconnectConfirmation (tok reason : Z)
  | EvDisconnectIndication (tok reason : Z)
  | EvDataIndication (tok : Z) (payload : list Z)
  | EvDataTransmit (tok : Z) (bytes : list Z)
  | EvFree (bytes : list Z).

(** The state one control block's code runs in: the block, [jiffies], the
    number of environment calls made so far, and the effects in order. *)
Record world := mk_world {
  cb : lapb_cb;
  jiffies : Z;
  tick : nat;
  out : list event
}.

Abbreviation M := (ST world).

Definition upd (f : lapb_cb → lapb_cb) : M unit :=
  modify (λ w, mk_world (f (cb w)) (jiffies w) (tick w) (out w)).
Definition emit (e : event) : M unit :=
  modify (λ w, mk_world (cb w) (jiffies w) (tick w) (out w ++ [e])).
Definition next_tick : M nat :=
  λ w, (tick w, mk_world (cb w) (jiffies w) (S (tick w)) (out w)).
Definition kfree_skb (skb : sk_buff) : M unit := emit (EvFree (skb_data skb)).

(** [(lapb->mode & LAPB_EXTENDED) ? LAPB_EMODULUS : LAPB_SMODULUS] *)
Definition modulus_of (m : Z) : Z :=
  if m & LAPB_EXTENDED then LAPB_EMODULUS else LAPB_SMODULUS.
Abbreviation modulus c := (modulus_of (mode c)).

(** * Timers (lapb_timer.c) *)

Definition lapb_start_t1timer : M unit :=
  w ← gets id; upd (set_t1timer (Some (u32 (jiffies w + t1 (cb w))))).
Definition lapb_start_t2timer : M unit :=
  w ← gets id; upd (set_t2timer (Some (u32 (jiffies w + t2 (cb w))))).
Definition lapb_stop_t1timer : M unit := upd (set_t1timer None).
Definition lapb_stop_t2timer : M unit := upd (set_t2timer None).
Definition lapb_t1timer_running : M bool :=
  c ← gets cb; mret (bool_decide (is_Some (t1timer c))).

(** * Up-calls (lapb_iface.c) *)

Definition lapb_connect_confirmation (reason : Z) : M unit :=
  c ← gets cb;
  when (connect_confirmation (callbacks c)) (emit (EvConnectConfirmation (token c) reason)).
Definition lapb_connect_indication (reason : Z) : M unit :=
  c ← gets cb;
  when (connect_indication (callbacks c)) (emit (EvConnectIndication (token c) reason)).
Definition lapb_disconnect_confirmation (reason : Z) : M unit :=
  c ← gets cb;
  when (disconnect_confirmation (callbacks c)) (emit (EvDisconnectConfirmation (token c) reason)).
Definition lapb_disconnect_indication (reason : Z) : M unit :=
  c ← gets cb;
  when (disconnect_indication (callbacks c)) (emit (EvDisconnectIndication (token c) reason)).

Definition lapb_data_indication `{LapbEnv} (skb : sk_buff) : M Z :=
  c ← gets cb;
  if data_indication (callbacks c) then
    emit (EvDataIndication (token c) (skb_data skb));;
    n ← next_tick;
    mret (rx_result n (skb_data skb))
  else
    kfree_skb skb;;
    mret NET_RX_CN_HIGH.

Definition lapb_data_transmit (skb : sk_buff) : M bool :=
  c ← gets cb;
  if data_transmit (callbacks c) then
    emit (EvDataTransmit (token c) (skb_data skb));; mret true
  else mret false.

(** * Output (lapb_out.c) *)

(** The address byte [lapb_transmit_buffer] stores; a [ty] that is neither
    command nor response leaves the pushed byte as it was, taken as 0. *)
Definition lapb_address (m ty : Z) : Z :=
  if m & LAPB_MLP then
    if m & LAPB_DCE then
      if ty =? LAPB_RESPONSE then LAPB_ADDR_D
      else if ty =? LAPB_COMMAND then LAPB_ADDR_C else 0
    else
      if ty =? LAPB_RESPONSE then LAPB_ADDR_C
      else if ty =? LAPB_COMMAND then LAPB_ADDR_D else 0
  else
    if m & LAPB_DCE then
      if ty =? LAPB_RESPONSE then LAPB_ADDR_B
      else if ty =? LAPB_COMMAND then LAPB_ADDR_A else 0
    else
      if ty =? LAPB_RESPONSE then LAPB_ADDR_A
      else if ty =? LAPB_COMMAND then LAPB_ADDR_B else 0.

Definition lapb_transmit_buffer (skb : sk_buff) (ty : Z) : M unit :=
  c ← gets cb;
  let skb := skb_push skb [lapb_address (mode c) ty] in
  used ← lapb_data_transmit skb;
  when (negb used) (kfree_skb skb).

(** The control bytes [lapb_send_iframe] puts in front of the payload. *)
Definition iframe_control (c : lapb_cb) (poll_bit : Z) : list Z :=
  if mode c & LAPB_EXTENDED then
    [u8 (Z.lor LAPB_I (Z.shiftl (vs c) 1));
     u8 (Z.lor (if poll_bit =? 0 then 0 else LAPB_EPF) (Z.shiftl (vr c) 1))]
  else
    [u8 (Z.lor (Z.lor (Z.lor LAPB_I (if poll_bit =? 0 then 0 else LAPB_SPF))
                      (Z.shiftl (vr c) 5))
               (Z.shiftl (vs c) 1))].

Definition lapb_send_iframe (skb : sk_buff) (poll_bit : Z) : M unit :=
  c ← gets cb;
  lapb_transmit_buffer (skb_push skb (iframe_control c poll_bit)) LAPB_COMMAND.

(** The body of the do-while loop of [lapb_kick], on the dequeued [skb]; the
    recursion is on the rest [wq] of the write queue, which each dequeue
    shortens. *)
Fixpoint kick_loop `{LapbEnv} (end_ : Z) (skb : sk_buff) (wq : list sk_buff) : M unit :=
  n ← next_tick;
  if alloc_ok n then
    lapb_send_iframe skb LAPB_POLLOFF;;
    upd (λ c, set_vs ((vs c + 1) mod modulus c) c);;
    upd (λ c, set_ack_queue (ack_queue c ++ [skb]) c);;
    c ← gets cb;
    if negb (vs c =? end_) then
      match wq with
      | skb' :: wq' => upd (set_write_queue wq');; kick_loop end_ skb' wq'
      | [] => skip
      end
    else skip
  else
    upd (λ c, set_write_queue (skb :: write_queue c) c).

Definition lapb_kick `{LapbEnv} : M unit :=
  c ← gets cb;
  let start := match ack_queue c with [] => va c | _ => vs c end in
  let end_ := (va c + window c) mod modulus c in
  if negb (condition c & LAPB_PEER_RX_BUSY_CONDITION) && negb (start =? end_) then
    match write_queue c with
    | [] => skip
    | skb :: wq =>
        upd (set_vs start);;
        upd (set_write_queue wq);;
        kick_loop end_ skb wq;;
        upd (λ c, set_condition (condition c &~ LAPB_ACK_PENDING_CONDITION) c);;
        running ← lapb_t1timer_running;
        when (negb running) lapb_start_t1timer
    end
  else skip.

(** * Queues and sequence numbers (lapb_subr.c) *)

(** [skb_queue_purge]: free the buffers from the head on. *)
Fixpoint free_all (q : list sk_buff) : M unit :=
  match q with
  | [] => skip
  | skb :: q' => kfree_skb skb;; free_all q'
  end.

Definition lapb_clear_queues : M unit :=
  c ← gets cb;
  free_all (write_queue c);;
  upd (set_write_queue []);;
  free_all (ack_queue c);;
  upd (set_ack_queue []).

(** The while loop of [lapb_frames_acked]: it stops at an empty queue or when
    [va] has reached [n]. *)
Fixpoint frames_acked_loop (n : Z) (q : list sk_buff) : M unit :=
  match q with
  | [] => skip
  | skb :: q' =>
      c ← gets cb;
      if va c =? n then skip
      else
        upd (set_ack_queue q');;
        kfree_skb skb;;
        upd (λ c, set_va ((va c + 1) mod modulus c) c);;
        frames_acked_loop n q'
  end.

Definition lapb_frames_acked (n : Z) : M unit :=
  c ← gets cb;
  when (negb (va c =? n)) (frames_acked_loop n (ack_queue c)).

(** The loop of [lapb_requeue_frames]. [skb_prev] is the position in the write
    queue of the buffer requeued last; [skb_append] links behind it. *)
Fixpoint requeue_loop (skb_prev : option nat) (q : list sk_buff) : M unit :=
  match q with
  | [] => skip
  | skb :: q' =>
      upd (set_ack_queue q');;
      match skb_prev with
      | None => upd (λ c, set_write_queue (skb :: write_queue c) c);; requeue_loop (Some 0%nat) q'
      | Some i =>
          upd (λ c, set_write_queue (insert_after i skb (write_queue c)) c);;
          requeue_loop (Some (S i)) q'
      end
  end.

Definition lapb_requeue_frames : M unit :=
  c ← gets cb; requeue_loop None (ack_queue c).

(** The while loop of [lapb_validate_nr]; [None] means that [fuel] iterations
    did not reach [vs]. *)
Fixpoint validate_loop (fuel : nat) (m vsn n vc : Z) : option bool :=
  match fuel with
  | O => None
  | S fuel =>
      if vc =? vsn then Some (n =? vsn)
      else if n =? vc then Some true
      else validate_loop fuel m vsn n ((vc + 1) mod m)
  end.

(** The loop visits at most [modulus] values before it is back at [va]. *)
Definition validate_fuel (c : lapb_cb) : nat := S (Z.to_nat (modulus c)).

Definition lapb_validate_nr (c : lapb_cb) (n : Z) : option bool :=
  validate_loop (validate_fuel c) (modulus c) (vs c) n (va c).

(** The command/response bit that the address byte [a] stands for; an unknown
    address leaves [frame->cr] as it was. *)
Definition decode_cr (m a cr0 : Z) : Z :=
  if m & LAPB_MLP then
    if m & LAPB_DCE then
      if a =? LAPB_ADDR_C then LAPB_RESPONSE
      else if a =? LAPB_ADDR_D then LAPB_COMMAND else cr0
    else
      if a =? LAPB_ADDR_D then LAPB_RESPONSE
      else if a =? LAPB_ADDR_C then LAPB_COMMAND else cr0
  else
    if m & LAPB_DCE then
      if a =? LAPB_ADDR_A then LAPB_RESPONSE
      else if a =? LAPB_ADDR_B then LAPB_COMMAND else cr0
    else
      if a =? LAPB_ADDR_B then LAPB_RESPONSE
      else if a =? LAPB_ADDR_A then LAPB_COMMAND else cr0.

(** [lapb_decode] on the mode [m]. The descriptor [f0] holds the bytes the stack
    frame had before: fields the frame format does not carry keep them. *)
Definition lapb_decode (m : Z) (skb : sk_buff) (f0 : lapb_frame) : lapb_frame * sk_buff :=
  let cr := decode_cr m (skb_byte skb 0) (cr f0) in
  let skb := skb_pull skb 1 in
  let d0 := skb_byte skb 0 in
  let d1 := skb_byte skb 1 in
  if m & LAPB_EXTENDED then
    if Z.land d0 LAPB_S =? 0 then
      (mk_frame LAPB_I (Z.land (Z.shiftr d1 1) 0x7F) (Z.land (Z.shiftr d0 1) 0x7F) cr
         (Z.land d1 LAPB_EPF) d0 d1, skb_pull skb 2)
    else if Z.land d0 LAPB_U =? 1 then
      (mk_frame (Z.land d0 0x0F) (Z.land (Z.shiftr d1 1) 0x7F) (ns f0) cr
         (Z.land d1 LAPB_EPF) d0 d1, skb_pull skb 2)
    else if Z.land d0 LAPB_U =? 3 then
      (mk_frame (d0 &~ LAPB_SPF) (nr f0) (ns f0) cr
         (Z.land d0 LAPB_SPF) d0 0x00, skb_pull skb 1)
    else
      (mk_frame LAPB_ILLEGAL (nr f0) (ns f0) cr (pf f0) (control0 f0) (control1 f0), skb)
  else
    let f :=
      if Z.land d0 LAPB_S =? 0 then
        mk_frame LAPB_I (Z.land (Z.shiftr d0 5) 0x07) (Z.land (Z.shiftr d0 1) 0x07) cr
          (Z.land d0 LAPB_SPF) d0 (control1 f0)
      else if Z.land d0 LAPB_U =? 1 then
        mk_frame (Z.land d0 0x0F) (Z.land (Z.shiftr d0 5) 0x07) (ns f0) cr
          (Z.land d0 LAPB_SPF) d0 (control1 f0)
      else if Z.land d0 LAPB_U =? 3 then
        mk_frame (d0 &~ LAPB_SPF) (nr f0) (ns f0) cr
          (Z.land d0 LAPB_SPF) d0 (control1 f0)
      else
        mk_frame LAPB_ILLEGAL (nr f0) (ns f0) cr (pf f0) d0 (control1 f0) in
    (f, skb_pull skb 1).

(** The bytes [lapb_send_control] puts in a fresh buffer. *)
Definition control_bytes (c : lapb_cb) (frametype poll_bit : Z) : list Z :=
  if mode c & LAPB_EXTENDED then
    if Z.land frametype LAPB_U =? LAPB_U then
      [u8 (Z.lor frametype (if poll_bit =? 0 then 0 else LAPB_SPF))]
    else
      [u8 frametype;
       u8 (Z.lor (Z.shiftl (vr c) 1) (if poll_bit =? 0 then 0 else LAPB_EPF))]
  else
    [u8 (Z.lor (Z.lor frametype (if poll_bit =? 0 then 0 else LAPB_SPF))
               (if Z.land frametype LAPB_U =? LAPB_S then Z.shiftl (vr c) 5 else 0))].

Definition lapb_send_control `{LapbEnv} (frametype poll_bit ty : Z) : M unit :=
  n ← next_tick;
  if alloc_ok n then
    c ← gets cb;
    lapb_transmit_buffer (skb_fresh (control_bytes c frametype poll_bit)) ty
  else skip.

(** The bytes of a FRMR response. *)
Definition frmr_bytes (c : lapb_cb) : list Z :=
  let f := frmr_data c in
  if mode c & LAPB_EXTENDED then
    [LAPB_FRMR; control0 f; control1 f;
     u8 (Z.land (Z.shiftl (vs c) 1) 0xFE);
     u8 (Z.lor (Z.land (Z.shiftl (vr c) 1) 0xFE) (if cr f =? LAPB_RESPONSE then 0x01 else 0));
     frmr_type c]
  else
    [LAPB_FRMR; control0 f;
     u8 (Z.lor (Z.lor (Z.land (Z.shiftl (vs c) 1) 0x0E) (Z.land (Z.shiftl (vr c) 5) 0xE0))
               (if cr f =? LAPB_RESPONSE then 0x10 else 0));
     frmr_type c].

Definition lapb_transmit_frmr `{LapbEnv} : M unit :=
  n ← next_tick;
  if alloc_ok n then
    c ← gets cb;
    lapb_transmit_buffer (skb_fresh (frmr_bytes c)) LAPB_RESPONSE
  else skip.

(** * Link procedures (lapb_out.c) *)

Definition lapb_establish_data_link `{LapbEnv} : M unit :=
  upd (set_condition 0x00);;
  upd (set_n2count 0);;
  c ← gets cb;
  (if mode c & LAPB_EXTENDED
   then lapb_send_control LAPB_SABME LAPB_POLLON LAPB_COMMAND
   else lapb_send_control LAPB_SABM LAPB_POLLON LAPB_COMMAND);;
  lapb_start_t1timer;;
  lapb_stop_t2timer.

Definition clear_ack_pending : M unit :=
  upd (λ c, set_condition (condition c &~ LAPB_ACK_PENDING_CONDITION) c).

Definition lapb_enquiry_response `{LapbEnv} : M unit :=
  lapb_send_control LAPB_RR LAPB_POLLON LAPB_RESPONSE;;
  clear_ack_pending.

Definition lapb_timeout_response `{LapbEnv} : M unit :=
  lapb_send_control LAPB_RR LAPB_POLLOFF LAPB_RESPONSE;;
  clear_ack_pending.

Definition lapb_check_iframes_acked (n : Z) : M unit :=
  c ← gets cb;
  if vs c =? n then
    lapb_frames_acked n;;
    lapb_stop_t1timer;;
    upd (set_n2count 0)
  else
    when (negb (va c =? n))
      (lapb_frames_acked n;; lapb_start_t1timer).

Definition lapb_check_need_response `{LapbEnv} (ty p : Z) : M unit :=
  when ((ty =? LAPB_COMMAND) && negb (p =? 0)) lapb_enquiry_response.

(** * Timer expiry (lapb_timer.c) *)

Definition lapb_t2timer_expiry `{LapbEnv} : M unit :=
  c ← gets cb;
  when (condition c & LAPB_ACK_PENDING_CONDITION)
    (clear_ack_pending;; lapb_timeout_response).

Definition lapb_t1timer_expiry `{LapbEnv} : M unit :=
  c ← gets cb;
  let bump := upd (λ c, set_n2count (u16 (n2count c + 1)) c) in
  match state c with
  | LAPB_STATE_0 =>
      when (mode c & LAPB_DCE) (lapb_send_control LAPB_DM LAPB_POLLOFF LAPB_RESPONSE);;
      lapb_start_t1timer
  | LAPB_STATE_1 =>
      if n2count c =? n2 c then
        lapb_clear_queues;;
        upd (set_state LAPB_STATE_0);;
        lapb_disconnect_indication LAPB_TIMEDOUT
      else
        bump;;
        (if mode c & LAPB_EXTENDED
         then lapb_send_control LAPB_SABME LAPB_POLLON LAPB_COMMAND
         else lapb_send_control LAPB_SABM LAPB_POLLON LAPB_COMMAND);;
        lapb_start_t1timer
  | LAPB_STATE_2 =>
      if n2count c =? n2 c then
        lapb_clear_queues;;
        upd (set_state LAPB_STATE_0);;
        lapb_disconnect_confirmation LAPB_TIMEDOUT
      else
        bump;;
        lapb_send_control LAPB_DISC LAPB_POLLON LAPB_COMMAND;;
        lapb_start_t1timer
  | LAPB_STATE_3 =>
      if n2count c =? n2 c then
        lapb_clear_queues;;
        upd (set_state LAPB_STATE_0);;
        lapb_stop_t2timer;;
        lapb_disconnect_indication LAPB_TIMEDOUT
      else
        bump;;
        lapb_requeue_frames;;
        lapb_start_t1timer
  | LAPB_STATE_4 =>
      if n2count c =? n2 c then
        lapb_clear_queues;;
        upd (set_state LAPB_STATE_0);;
        lapb_disconnect_indication LAPB_TIMEDOUT
      else
        bump;;
        lapb_transmit_frmr;;
        lapb_start_t1timer
  end.
