(* ===== verification/LapbIn.v ===== *)
(** The LAPB input side and service interface: the five state machines and
    [lapb_data_input] of lapb_in.c, the list of control blocks and the requests
    of lapb_iface.c, and the step relation of a registered link. *)
From S2P Require Import Prelude Lapb.
From stdpp Require Import options.
Open Scope cint_scope.
Open Scope Z_scope.

Section machines.
Context `{LapbEnv}.

(** [condition = 0; n2count = 0; vs = vr = va = 0], which every (re)start of
    the link performs. *)
Definition reset_variables : M unit :=
  upd (set_condition 0x00);;
  upd (set_n2count 0);;
  upd (set_vs 0);;
  upd (set_vr 0);;
  upd (set_va 0).

(** [state = LAPB_STATE_3] and the reset of the variables. *)
Definition link_up : M unit :=
  upd (set_state LAPB_STATE_3);;
  reset_variables.

(** A link set-up accepted in state 0 or 4: UA, timers stopped, state 3. *)
Definition accept_link (f : lapb_frame) : M unit :=
  lapb_send_control LAPB_UA (pf f) LAPB_RESPONSE;;
  lapb_stop_t1timer;;
  lapb_stop_t2timer;;
  link_up;;
  lapb_connect_indication LAPB_OK.

Definition lapb_state0_machine (skb : sk_buff) (f : lapb_frame) : M unit :=
  c ← gets cb;
  (if type f =? LAPB_SABM then
     if mode c & LAPB_EXTENDED
     then lapb_send_control LAPB_DM (pf f) LAPB_RESPONSE
     else accept_link f
   else if type f =? LAPB_SABME then
     if mode c & LAPB_EXTENDED
     then accept_link f
     else lapb_send_control LAPB_DM (pf f) LAPB_RESPONSE
   else if type f =? LAPB_DISC then
     lapb_send_control LAPB_UA (pf f) LAPB_RESPONSE
   else skip);;
  kfree_skb skb.

Definition lapb_state1_machine (skb : sk_buff) (f : lapb_frame) : M unit :=
  c ← gets cb;
  (if type f =? LAPB_SABM then
     if mode c & LAPB_EXTENDED
     then lapb_send_control LAPB_DM (pf f) LAPB_RESPONSE
     else lapb_send_control LAPB_UA (pf f) LAPB_RESPONSE
   else if type f =? LAPB_SABME then
     if mode c & LAPB_EXTENDED
     then lapb_send_control LAPB_UA (pf f) LAPB_RESPONSE
     else lapb_send_control LAPB_DM (pf f) LAPB_RESPONSE
   else if type f =? LAPB_DISC then
     lapb_send_control LAPB_DM (pf f) LAPB_RESPONSE
   else if type f =? LAPB_UA then
     when (negb (pf f =? 0)) (
       lapb_stop_t1timer;;
       lapb_stop_t2timer;;
       link_up;;
       lapb_connect_confirmation LAPB_OK)
   else if type f =? LAPB_DM then
     when (negb (pf f =? 0)) (
       lapb_clear_queues;;
       upd (set_state LAPB_STATE_0);;
       lapb_start_t1timer;;
       lapb_stop_t2timer;;
       lapb_disconnect_indication LAPB_REFUSED)
   else skip);;
  kfree_skb skb.

Definition lapb_state2_machine (skb : sk_buff) (f : lapb_frame) : M unit :=
  (if (type f =? LAPB_SABM) || (type f =? LAPB_SABME) then
     lapb_send_control LAPB_DM (pf f) LAPB_RESPONSE
   else if type f =? LAPB_DISC then
     lapb_send_control LAPB_UA (pf f) LAPB_RESPONSE
   else if type f =? LAPB_UA then
     when (negb (pf f =? 0)) (
       upd (set_state LAPB_STATE_0);;
       lapb_start_t1timer;;
       lapb_stop_t2timer;;
       lapb_disconnect_confirmation LAPB_OK)
   else if type f =? LAPB_DM then
     when (negb (pf f =? 0)) (
       upd (set_state LAPB_STATE_0);;
       lapb_start_t1timer;;
       lapb_stop_t2timer;;
       lapb_disconnect_confirmation LAPB_NOTCONNECTED)
   else if (type f =? LAPB_I) || (type f =? LAPB_REJ)
           || (type f =? LAPB_RNR) || (type f =? LAPB_RR) then
     when (negb (pf f =? 0)) (lapb_send_control LAPB_DM (pf f) LAPB_RESPONSE)
   else skip);;
  kfree_skb skb.

(** ** State 3 *)

(** Entering the frame reject state with the reason [ty]. *)
Definition frame_reject (f : lapb_frame) (ty : Z) : M unit :=
  upd (set_frmr_data f);;
  upd (set_frmr_type ty);;
  lapb_transmit_frmr;;
  lapb_start_t1timer;;
  lapb_stop_t2timer;;
  upd (set_state LAPB_STATE_4);;
  upd (set_n2count 0).

(** A link reset by SABM(E) in state 3. *)
Definition state3_reset (f : lapb_frame) : M unit :=
  lapb_send_control LAPB_UA (pf f) LAPB_RESPONSE;;
  lapb_stop_t1timer;;
  lapb_stop_t2timer;;
  reset_variables;;
  lapb_requeue_frames.

Definition state3_SABM (f : lapb_frame) : M unit :=
  c ← gets cb;
  if mode c & LAPB_EXTENDED
  then lapb_send_control LAPB_DM (pf f) LAPB_RESPONSE
  else state3_reset f.

Definition state3_SABME (f : lapb_frame) : M unit :=
  c ← gets cb;
  if mode c & LAPB_EXTENDED
  then state3_reset f
  else lapb_send_control LAPB_DM (pf f) LAPB_RESPONSE.

Definition state3_DISC (f : lapb_frame) : M unit :=
  lapb_clear_queues;;
  lapb_send_control LAPB_UA (pf f) LAPB_RESPONSE;;
  lapb_start_t1timer;;
  lapb_stop_t2timer;;
  upd (set_state LAPB_STATE_0);;
  lapb_disconnect_indication LAPB_OK.

Definition state3_DM : M unit :=
  lapb_clear_queues;;
  upd (set_state LAPB_STATE_0);;
  lapb_start_t1timer;;
  lapb_stop_t2timer;;
  lapb_disconnect_indication LAPB_NOTCONNECTED.

Definition set_peer_busy : M unit :=
  upd (λ c, set_condition (Z.lor (condition c) LAPB_PEER_RX_BUSY_CONDITION) c).
Definition clear_peer_busy : M unit :=
  upd (λ c, set_condition (condition c &~ LAPB_PEER_RX_BUSY_CONDITION) c).

(** [lapb_validate_nr] on the current block. The loop always ends in state 3
    (theorem [validate_nr_terminates] of LapbProofs), so [None], a loop without
    end, is no reachable outcome; it is mapped to a refusal. *)
Definition nr_valid (n : Z) : M bool :=
  c ← gets cb; mret (default false (lapb_validate_nr c n)).

Definition state3_RNR (f : lapb_frame) : M unit :=
  set_peer_busy;;
  lapb_check_need_response (cr f) (pf f);;
  ok ← nr_valid (nr f);
  if (ok : bool) then lapb_check_iframes_acked (nr f)
  else frame_reject f LAPB_FRMR_Z.

Definition state3_RR (f : lapb_frame) : M unit :=
  clear_peer_busy;;
  lapb_check_need_response (cr f) (pf f);;
  ok ← nr_valid (nr f);
  if (ok : bool) then lapb_check_iframes_acked (nr f)
  else frame_reject f LAPB_FRMR_Z.

Definition state3_REJ (f : lapb_frame) : M unit :=
  clear_peer_busy;;
  lapb_check_need_response (cr f) (pf f);;
  ok ← nr_valid (nr f);
  if (ok : bool) then
    lapb_frames_acked (nr f);;
    lapb_stop_t1timer;;
    upd (set_n2count 0);;
    lapb_requeue_frames
  else frame_reject f LAPB_FRMR_Z.

(** The in-sequence part of an I frame; the buffer is handed to the layer above,
    whose NET_RX_DROP ends the processing. *)
Definition state3_I_accept (skb : sk_buff) (f : lapb_frame) : M unit :=
  cn ← lapb_data_indication skb;
  if cn =? NET_RX_DROP then skip
  else
    upd (λ c, set_vr ((vr c + 1) mod modulus c) c);;
    upd (λ c, set_condition (condition c &~ LAPB_REJECT_CONDITION) c);;
    if negb (pf f =? 0) then lapb_enquiry_response
    else
      c ← gets cb;
      when (negb (condition c & LAPB_ACK_PENDING_CONDITION)) (
        upd (λ c, set_condition (Z.lor (condition c) LAPB_ACK_PENDING_CONDITION) c);;
        lapb_start_t2timer).

(** The out-of-sequence part: one REJ per reject condition. *)
Definition state3_I_reject (f : lapb_frame) : M unit :=
  c ← gets cb;
  if condition c & LAPB_REJECT_CONDITION then
    when (negb (pf f =? 0)) lapb_enquiry_response
  else
    upd (λ c, set_condition (Z.lor (condition c) LAPB_REJECT_CONDITION) c);;
    lapb_send_control LAPB_REJ (pf f) LAPB_RESPONSE;;
    clear_ack_pending.

(** The result says whether the buffer was passed on ([queued]). *)
Definition state3_I (skb : sk_buff) (f : lapb_frame) : M bool :=
  ok ← nr_valid (nr f);
  if negb ok then frame_reject f LAPB_FRMR_Z;; mret false
  else
    c ← gets cb;
    (if condition c & LAPB_PEER_RX_BUSY_CONDITION
     then lapb_frames_acked (nr f)
     else lapb_check_iframes_acked (nr f));;
    c ← gets cb;
    if ns f =? vr c
    then state3_I_accept skb f;; mret true
    else state3_I_reject f;; mret false.

Definition state3_FRMR : M unit :=
  lapb_establish_data_link;;
  lapb_requeue_frames;;
  upd (set_state LAPB_STATE_1).

Definition not_queued (m : M unit) : M bool := m;; mret false.

Definition lapb_state3_machine (skb : sk_buff) (f : lapb_frame) : M unit :=
  queued ←
    (if type f =? LAPB_SABM then not_queued (state3_SABM f)
     else if type f =? LAPB_SABME then not_queued (state3_SABME f)
     else if type f =? LAPB_DISC then not_queued (state3_DISC f)
     else if type f =? LAPB_DM then not_queued state3_DM
     else if type f =? LAPB_RNR then not_queued (state3_RNR f)
     else if type f =? LAPB_RR then not_queued (state3_RR f)
     else if type f =? LAPB_REJ then not_queued (state3_REJ f)
     else if type f =? LAPB_I then state3_I skb f
     else if type f =? LAPB_FRMR then not_queued state3_FRMR
     else if type f =? LAPB_ILLEGAL then not_queued (frame_reject f LAPB_FRMR_W)
     else mret false);
  when (negb queued) (kfree_skb skb).

Definition lapb_state4_machine (skb : sk_buff) (f : lapb_frame) : M unit :=
  c ← gets cb;
  (if type f =? LAPB_SABM then
     if mode c & LAPB_EXTENDED
     then lapb_send_control LAPB_DM (pf f) LAPB_RESPONSE
     else accept_link f
   else if type f =? LAPB_SABME then
     if mode c & LAPB_EXTENDED
     then accept_link f
     else lapb_send_control LAPB_DM (pf f) LAPB_RESPONSE
   else skip);;
  kfree_skb skb.

(** [f0] is the uninitialised frame descriptor on the stack. *)
Definition lapb_data_input (f0 : lapb_frame) (skb : sk_buff) : M unit :=
  c ← gets cb;
  let '(f, skb) := lapb_decode (mode c) skb f0 in
  (match state c with
   | LAPB_STATE_0 => lapb_state0_machine skb f
   | LAPB_STATE_1 => lapb_state1_machine skb f
   | LAPB_STATE_2 => lapb_state2_machine skb f
   | LAPB_STATE_3 => lapb_state3_machine skb f
   | LAPB_STATE_4 => lapb_state4_machine skb f
   end);;
  lapb_kick.

(** ** Requests on one control block (lapb_iface.c, after the token lookup) *)

Record lapb_parms_struct := mk_parms {
  p_t1 : Z; p_t1timer : Z; p_t2 : Z; p_t2timer : Z;
  p_n2 : Z; p_n2count : Z; p_window : Z; p_state : lapb_state; p_mode : Z
}.

Definition timer_left (jif : Z) (t : option Z) : Z :=
  match t with None => 0 | Some e => u32 (e - jif) / HZ end.

Definition do_getparms : M lapb_parms_struct :=
  w ← gets id;
  let c := cb w in
  mret (mk_parms (t1 c / HZ) (timer_left (jiffies w) (t1timer c))
                 (t2 c / HZ) (timer_left (jiffies w) (t2timer c))
                 (n2 c) (n2count c) (window c) (state c) (mode c)).

Definition do_setparms (p : lapb_parms_struct) : M Z :=
  c ← gets cb;
  if p_t1 p <? 1 then mret LAPB_INVALUE
  else if p_t2 p <? 1 then mret LAPB_INVALUE
  else if p_n2 p <? 1 then mret LAPB_INVALUE
  else
    let finish : M Z :=
      upd (set_t1 (u16 (u32 (p_t1 p * HZ))));;
      upd (set_t2 (u16 (u32 (p_t2 p * HZ))));;
      upd (set_n2 (u16 (p_n2 p)));;
      mret LAPB_OK in
    if decide (state c = LAPB_STATE_0) then
      let bound := if p_mode p & LAPB_EXTENDED then 127 else 7 in
      if (p_window p <? 1) || (p_window p >? bound) then mret LAPB_INVALUE
      else
        upd (set_mode (p_mode p));;
        upd (set_window (u8 (p_window p)));;
        finish
    else finish.

Definition do_connect_request : M Z :=
  c ← gets cb;
  match state c with
  | LAPB_STATE_1 => mret LAPB_OK
  | LAPB_STATE_3 | LAPB_STATE_4 => mret LAPB_CONNECTED
  | _ =>
      lapb_establish_data_link;;
      upd (set_state LAPB_STATE_1);;
      mret LAPB_OK
  end.

Definition do_disconnect_request : M Z :=
  c ← gets cb;
  match state c with
  | LAPB_STATE_0 => mret LAPB_NOTCONNECTED
  | LAPB_STATE_1 =>
      lapb_send_control LAPB_DISC LAPB_POLLON LAPB_COMMAND;;
      upd (set_state LAPB_STATE_0);;
      lapb_start_t1timer;;
      mret LAPB_NOTCONNECTED
  | LAPB_STATE_2 => mret LAPB_OK
  | _ =>
      lapb_clear_queues;;
      upd (set_n2count 0);;
      lapb_send_control LAPB_DISC LAPB_POLLON LAPB_COMMAND;;
      lapb_start_t1timer;;
      lapb_stop_t2timer;;
      upd (set_state LAPB_STATE_2);;
      mret LAPB_OK
  end.

Definition do_data_request (skb : sk_buff) : M Z :=
  c ← gets cb;
  match state c with
  | LAPB_STATE_3 | LAPB_STATE_4 =>
      upd (λ c, set_write_queue (write_queue c ++ [skb]) c);;
      lapb_kick;;
      mret LAPB_OK
  | _ => mret LAPB_NOTCONNECTED
  end.

(** * The list of control blocks *)

(** The module state: [lapb_list] in list order, and the shared clock, tick
    counter and effects. *)
Record lapb_module := mk_module {
  lapb_list : list lapb_cb;
  m_jiffies : Z;
  m_tick : nat;
  m_out : list event
}.

(** [lapb_create_cb] after a successful [kmalloc]: memset to zero, then the
    defaults (DEFAULT_MODE is standard, single-link, DTE: 0). *)
Definition lapb_create_cb : lapb_cb :=
  mk_cb 0 0 LAPB_STATE_0 0 0 0 0 20 0 (5 * HZ) (1 * HZ) None None [] [] 7
    (mk_callbacks false false false false false false) (mk_frame 0 0 0 0 0 0 0) 0.

(** [lapb_tokentostruct]: the position of the first block with the token. *)
Definition lapb_tokentostruct (tok : Z) (s : lapb_module) : option (nat * lapb_cb) :=
  list_find (λ c, token c = tok) (lapb_list s).

(** Run [m] on the block at position [i]. *)
Definition on_block {A} (i : nat) (c : lapb_cb) (m : M A) : ST lapb_module A := λ s,
  let r := m (mk_world c (m_jiffies s) (m_tick s) (m_out s)) in
  (r.1, mk_module (<[i := cb r.2]> (lapb_list s)) (m_jiffies s) (tick r.2) (out r.2)).

(** The pattern of every request: look the token up, run on the block. *)
Definition with_token {A} (bad : A) (tok : Z) (m : M A) : ST lapb_module A := λ s,
  match lapb_tokentostruct tok s with
  | None => (bad, s)
  | Some (i, c) => on_block i c m s
  end.

(** [lapb_insert_cb]: at the head of the list. *)
Definition lapb_insert_cb (c : lapb_cb) : ST lapb_module unit :=
  modify (λ s, mk_module (c :: lapb_list s) (m_jiffies s) (m_tick s) (m_out s)).

(** [lapb_remove_cb] of the block at position [i]. *)
Definition lapb_remove_cb (i : nat) : ST lapb_module unit :=
  modify (λ s, mk_module (delete i (lapb_list s)) (m_jiffies s) (m_tick s) (m_out s)).

Definition lapb_register (tok : Z) (cbs : lapb_register_struct) : ST lapb_module Z := λ s,
  match lapb_tokentostruct tok s with
  | Some _ => (LAPB_BADTOKEN, s)
  | None =>
      let s1 := mk_module (lapb_list s) (m_jiffies s) (S (m_tick s)) (m_out s) in
      if alloc_ok (m_tick s) then
        let c := set_callbacks cbs (set_token tok lapb_create_cb) in
        (lapb_insert_cb c;; on_block 0 c lapb_start_t1timer;; mret LAPB_OK) s1
      else (LAPB_NOMEM, s1)
  end.

Definition lapb_unregister (tok : Z) : ST lapb_module Z := λ s,
  match lapb_tokentostruct tok s with
  | None => (LAPB_BADTOKEN, s)
  | Some (i, c) =>
      (on_block i c (lapb_stop_t1timer;; lapb_stop_t2timer;; lapb_clear_queues);;
       lapb_remove_cb i;;
       mret LAPB_OK) s
  end.

Definition lapb_getparms (tok : Z) : ST lapb_module (option lapb_parms_struct) :=
  with_token None tok (p ← do_getparms; mret (Some p)).
Definition lapb_setparms (tok : Z) (p : lapb_parms_struct) : ST lapb_module Z :=
  with_token LAPB_BADTOKEN tok (do_setparms p).
Definition lapb_connect_request (tok : Z) : ST lapb_module Z :=
  with_token LAPB_BADTOKEN tok do_connect_request.
Definition lapb_disconnect_request (tok : Z) : ST lapb_module Z :=
  with_token LAPB_BADTOKEN tok do_disconnect_request.
Definition lapb_data_request (tok : Z) (skb : sk_buff) : ST lapb_module Z :=
  with_token LAPB_BADTOKEN tok (do_data_request skb).
Definition lapb_data_received (tok : Z) (f0 : lapb_frame) (skb : sk_buff) : ST lapb_module Z :=
  with_token LAPB_BADTOKEN tok (lapb_data_input f0 skb;; mret LAPB_OK).

(** * The life of one registered link as a step relation *)

(** Clearing [t1timer]/[t2timer] before the handler runs is what
    [run_timer_list] does when a pending timer expires. *)
Inductive lapb_step : world → world → Prop :=
  | step_connect w : lapb_step w (do_connect_request w).2
  | step_disconnect w : lapb_step w (do_disconnect_request w).2
  | step_setparms p w : lapb_step w (do_setparms p w).2
  | step_data_request skb w : lapb_step w (do_data_request skb w).2
  | step_receive f0 skb w : lapb_step w (lapb_data_input f0 skb w).2
  | step_t1 e w :
      t1timer (cb w) = Some e →
      lapb_step w ((lapb_stop_t1timer;; lapb_t1timer_expiry) w).2
  | step_t2 e w :
      t2timer (cb w) = Some e →
      lapb_step w ((lapb_stop_t2timer;; lapb_t2timer_expiry) w).2
  | step_clock j w : lapb_step w (mk_world (cb w) (u32 j) (tick w) (out w)).

(** A freshly registered link. *)
Definition lapb_initial (w : world) : Prop :=
  ∃ tok cbs e, cb w = set_t1timer (Some e) (set_callbacks cbs (set_token tok lapb_create_cb)).

Definition lapb_reachable (w : world) : Prop :=
  ∃ w0, lapb_initial w0 ∧ rtc lapb_step w0 w.

End machines.
