(* ===== verification/LapbProofs.v ===== *)
(** Correctness of the LAPB link: frame codec round trips, the sequence-number
    and window invariants, queue discipline, delivery order, state transitions
    and retry bounds. *)
From S2P Require Import Prelude Lapb LapbIn.
From stdpp Require Import options.
Open Scope cint_scope.
Open Scope Z_scope.

(** * Programs that leave the control block alone *)

Definition quiet {A} (m : M A) : Prop := ∀ w, cb (m w).2 = cb w.

(** A property of the control block, lifted to the world. *)
Definition on_cb (P : lapb_cb → Prop) (w : world) : Prop := P (cb w).

Lemma quiet_bind {A B} (m : M A) (f : A → M B) :
  quiet m → (∀ a, quiet (f a)) → quiet (m ≫= f).
Proof. intros Hm Hf w. unfold mbind, ST_bind. by rewrite Hf, Hm. Qed.

Lemma quiet_ret {A} (a : A) : quiet (mret a : M A).
Proof. done. Qed.

Lemma quiet_gets {A} (f : world → A) : quiet (gets f).
Proof. done. Qed.

Lemma quiet_skip : quiet skip.
Proof. done. Qed.

Lemma quiet_emit e : quiet (emit e).
Proof. done. Qed.

Lemma quiet_next_tick : quiet next_tick.
Proof. done. Qed.

Lemma quiet_when b m : quiet m → quiet (when b m).
Proof. by destruct b. Qed.

Lemma quiet_preserves {A} P (m : M A) : quiet m → preserves (on_cb P) m.
Proof. intros Hq w. unfold on_cb. by rewrite Hq. Qed.

Lemma preserves_upd P f : (∀ c, P c → P (f c)) → preserves (on_cb P) (upd f).
Proof. intros Hf w Hw. by apply Hf. Qed.

Create HintDb lapb discriminated.
#[export] Hint Constants Opaque : lapb.
#[export] Hint Resolve quiet_ret quiet_gets quiet_skip quiet_emit quiet_next_tick : lapb.

Ltac quiet_tac :=
  repeat lazymatch goal with
  | |- quiet (mbind _ _) => apply quiet_bind; [|intros ?]
  | |- quiet (when _ _) => apply quiet_when
  | |- quiet (if ?b then _ else _) => destruct b
  | |- quiet _ => solve [eauto 2 with lapb nocore]
  end.

Section quiet.
Context `{LapbEnv}.

Lemma quiet_kfree_skb skb : quiet (kfree_skb skb).
Proof. done. Qed.

Lemma quiet_free_all q : quiet (free_all q).
Proof. induction q as [|skb q IH]; simpl; [done|]. by apply quiet_bind. Qed.

Lemma quiet_data_transmit skb : quiet (lapb_data_transmit skb).
Proof. unfold lapb_data_transmit. quiet_tac. Qed.
#[local] Hint Resolve quiet_kfree_skb quiet_data_transmit : lapb.

Lemma quiet_transmit_buffer skb ty : quiet (lapb_transmit_buffer skb ty).
Proof. unfold lapb_transmit_buffer. quiet_tac. Qed.
#[local] Hint Resolve quiet_transmit_buffer : lapb.

Lemma quiet_send_iframe skb p : quiet (lapb_send_iframe skb p).
Proof. unfold lapb_send_iframe. quiet_tac. Qed.

Lemma quiet_send_control ft p ty : quiet (lapb_send_control ft p ty).
Proof. unfold lapb_send_control. quiet_tac. Qed.

Lemma quiet_transmit_frmr : quiet lapb_transmit_frmr.
Proof. unfold lapb_transmit_frmr. quiet_tac. Qed.

Lemma quiet_connect_confirmation r : quiet (lapb_connect_confirmation r).
Proof. unfold lapb_connect_confirmation. quiet_tac. Qed.

Lemma quiet_connect_indication r : quiet (lapb_connect_indication r).
Proof. unfold lapb_connect_indication. quiet_tac. Qed.

Lemma quiet_disconnect_confirmation r : quiet (lapb_disconnect_confirmation r).
Proof. unfold lapb_disconnect_confirmation. quiet_tac. Qed.

Lemma quiet_disconnect_indication r : quiet (lapb_disconnect_indication r).
Proof. unfold lapb_disconnect_indication. quiet_tac. Qed.

Lemma quiet_data_indication skb : quiet (lapb_data_indication skb).
Proof. unfold lapb_data_indication. quiet_tac. Qed.

Lemma quiet_nr_valid n : quiet (nr_valid n).
Proof. unfold nr_valid. quiet_tac. Qed.

Lemma quiet_t1timer_running : quiet lapb_t1timer_running.
Proof. unfold lapb_t1timer_running. quiet_tac. Qed.
End quiet.

#[export] Hint Resolve quiet_kfree_skb quiet_free_all quiet_data_transmit
  quiet_transmit_buffer quiet_send_iframe quiet_send_control quiet_transmit_frmr
  quiet_connect_confirmation quiet_connect_indication
  quiet_disconnect_confirmation quiet_disconnect_indication
  quiet_data_indication quiet_nr_valid quiet_t1timer_running : lapb.
#[export] Hint Resolve quiet_preserves : lapb.

(** Split a program; quiet parts and lemmas of the database close their goals,
    and field assignments become goals about the block. *)
Ltac lapb_step1 :=
  lazymatch goal with
  | |- preserves _ (mbind _ _) => apply preserves_bind; [|intros ?]
  | |- preserves _ (upd _) => apply preserves_upd; intros ?c ?Hc
  | |- preserves _ (when _ _) => apply preserves_when
  | |- preserves _ (if ?b then _ else _) => destruct b eqn:?
  | |- preserves _ (match ?b with _ => _ end) => destruct b eqn:?
  | |- preserves _ _ => solve [eauto 4 with lapb nocore]
  end.
Ltac lapb_tac := repeat lapb_step1.

Lemma preserves_gets_bind {A B} I (f : world → A) (k : A → M B) :
  (∀ w, I w → I (k (f w) w).2) → preserves I (gets f ≫= k).
Proof. intros Hk w Hw. by apply Hk. Qed.

Lemma at_bind {A B} I (m : M A) (k : A → M B) w :
  I (m w).2 → (∀ a, preserves I (k a)) → I ((m ≫= k) w).2.
Proof. intros Hm Hk. by apply Hk. Qed.

(** * Loops preserve what their assignments preserve *)

Section loops.
Context `{LapbEnv} (P : lapb_cb → Prop).

Lemma preserves_clear_queues :
  (∀ c q, P c → P (set_write_queue q c)) → (∀ c q, P c → P (set_ack_queue q c)) →
  preserves (on_cb P) lapb_clear_queues.
Proof. intros Hw Ha. unfold lapb_clear_queues. lapb_tac; auto. Qed.

Lemma preserves_frames_acked n :
  (∀ c q, P c → P (set_ack_queue q c)) →
  (∀ c, P c → P (set_va ((va c + 1) mod modulus c) c)) →
  preserves (on_cb P) (lapb_frames_acked n).
Proof.
  intros Hq Hv. unfold lapb_frames_acked.
  apply preserves_bind; [lapb_tac|]. intros c. apply preserves_when.
  generalize (ack_queue c) as q. clear c.
  induction q as [|skb q IH]; simpl; lapb_tac; auto.
Qed.

Lemma preserves_requeue_frames :
  (∀ c q, P c → P (set_ack_queue q c)) → (∀ c q, P c → P (set_write_queue q c)) →
  preserves (on_cb P) lapb_requeue_frames.
Proof.
  intros Ha Hw. unfold lapb_requeue_frames.
  apply preserves_bind; [lapb_tac|]. intros c.
  generalize (ack_queue c) as q. generalize (@None nat) as p. clear c.
  intros p q. revert p. induction q as [|skb q IH]; intros p; simpl; lapb_tac; auto.
Qed.

Lemma preserves_kick_loop e skb wq :
  (∀ c q, P c → P (set_ack_queue q c)) → (∀ c q, P c → P (set_write_queue q c)) →
  (∀ c, P c → P (set_vs ((vs c + 1) mod modulus c) c)) →
  preserves (on_cb P) (kick_loop e skb wq).
Proof.
  intros Ha Hw Hv. revert skb. induction wq as [|skb' wq IH]; intros skb; simpl;
    lapb_tac; auto.
Qed.
End loops.

(** * The sequence-number invariant *)

Definition seq_ok (c : lapb_cb) : Prop :=
  0 <= va c < modulus c ∧ 0 <= vs c < modulus c ∧ 0 <= vr c < modulus c.

Definition connected (c : lapb_cb) : Prop :=
  state c = LAPB_STATE_3 ∨ state c = LAPB_STATE_4.

Definition link_inv (c : lapb_cb) : Prop :=
  1 <= window c < modulus c ∧ (connected c → seq_ok c).

Lemma modulus_pos m : 1 < modulus_of m.
Proof. unfold modulus_of. by destruct (m & LAPB_EXTENDED). Qed.

Lemma modulus_mod_bound m x : 0 <= x mod modulus_of m < modulus_of m.
Proof. apply Z.mod_pos_bound. pose proof (modulus_pos m). lia. Qed.

(** Assignments that keep the invariant. *)
Lemma link_inv_vs c : link_inv c → link_inv (set_vs ((vs c + 1) mod modulus c) c).
Proof.
  intros [Hw Hs]. split; [exact Hw|]. intros Hc. destruct (Hs Hc) as (?&?&?).
  unfold seq_ok. simpl. auto using modulus_mod_bound.
Qed.

Lemma link_inv_va c : link_inv c → link_inv (set_va ((va c + 1) mod modulus c) c).
Proof.
  intros [Hw Hs]. split; [exact Hw|]. intros Hc. destruct (Hs Hc) as (?&?&?).
  unfold seq_ok. simpl. auto using modulus_mod_bound.
Qed.

Lemma link_inv_vr c : link_inv c → link_inv (set_vr ((vr c + 1) mod modulus c) c).
Proof.
  intros [Hw Hs]. split; [exact Hw|]. intros Hc. destruct (Hs Hc) as (?&?&?).
  unfold seq_ok. simpl. auto using modulus_mod_bound.
Qed.

Lemma link_inv_leave s c :
  s ≠ LAPB_STATE_3 → s ≠ LAPB_STATE_4 → link_inv c → link_inv (set_state s c).
Proof. intros ?? [Hw _]. split; [exact Hw|]. intros [?|?]; simpl in *; congruence. Qed.

Lemma link_inv_zero c : link_inv c → link_inv (set_vs 0 c) ∧ link_inv (set_vr 0 c) ∧ link_inv (set_va 0 c).
Proof.
  intros [Hw Hs]. pose proof (modulus_pos (mode c)).
  split_and!; (split; [exact Hw|]; intros Hc; destruct (Hs Hc) as (?&?&?);
    split_and!; simpl; lia).
Qed.

Lemma preserves_link_up : preserves (on_cb link_inv) link_up.
Proof.
  intros w [Hw _]. split; [exact Hw|]. intros _.
  pose proof (modulus_pos (mode (cb w))). split_and!; simpl; lia.
Qed.

#[export] Hint Resolve preserves_link_up : lapb.

(** Close the goals left by [lapb_tac]: assignments of fields the invariant
    does not read, or one of the lemmas above. *)
Ltac inv_close :=
  lazymatch goal with
  | H : link_inv ?c |- link_inv (set_state _ ?c) =>
      apply (link_inv_leave _ c); [discriminate|discriminate|exact H]
  | H : link_inv ?c |- link_inv (set_vs 0 ?c) => apply (link_inv_zero c H)
  | H : link_inv ?c |- link_inv (set_vr 0 ?c) => apply (link_inv_zero c H)
  | H : link_inv ?c |- link_inv (set_va 0 ?c) => apply (link_inv_zero c H)
  | H : link_inv ?c |- link_inv (set_vs _ ?c) => exact (link_inv_vs c H)
  | H : link_inv ?c |- link_inv (set_vr _ ?c) => exact (link_inv_vr c H)
  | H : link_inv ?c |- link_inv (set_va _ ?c) => exact (link_inv_va c H)
  | H : link_inv ?c |- link_inv _ => exact H
  end.
Ltac inv_tac := lapb_tac; inv_close.

Section link_inv.
Context `{LapbEnv}.

Lemma inv_clear_queues : preserves (on_cb link_inv) lapb_clear_queues.
Proof. apply preserves_clear_queues; intros c q Hc; exact Hc. Qed.

Lemma inv_frames_acked n : preserves (on_cb link_inv) (lapb_frames_acked n).
Proof. apply preserves_frames_acked; [by intros|apply link_inv_va]. Qed.

Lemma inv_requeue_frames : preserves (on_cb link_inv) lapb_requeue_frames.
Proof. apply preserves_requeue_frames; intros c q Hc; exact Hc. Qed.

Lemma inv_kick_loop e skb wq : preserves (on_cb link_inv) (kick_loop e skb wq).
Proof. apply preserves_kick_loop; [by intros|by intros|apply link_inv_vs]. Qed.

Lemma inv_start_t1timer : preserves (on_cb link_inv) lapb_start_t1timer.
Proof. unfold lapb_start_t1timer. inv_tac. Qed.

Lemma inv_start_t2timer : preserves (on_cb link_inv) lapb_start_t2timer.
Proof. unfold lapb_start_t2timer. inv_tac. Qed.
#[local] Hint Resolve inv_clear_queues inv_frames_acked inv_requeue_frames
  inv_kick_loop inv_start_t1timer inv_start_t2timer : lapb.

Lemma inv_kick : preserves (on_cb link_inv) lapb_kick.
Proof.
  unfold lapb_kick. apply preserves_gets_bind. intros w [Hw Hs].
  destruct (_ && _); [|done]. destruct (write_queue (cb w)) as [|skb wq]; [done|].
  apply at_bind; [|intros _; inv_tac].
  split; [exact Hw|]. intros Hc. destruct (Hs Hc) as (?&?&?).
  unfold seq_ok. simpl. destruct (ack_queue (cb w)); auto.
Qed.

Lemma inv_establish : preserves (on_cb link_inv) lapb_establish_data_link.
Proof. unfold lapb_establish_data_link, lapb_stop_t2timer. inv_tac. Qed.

Lemma inv_enquiry_response : preserves (on_cb link_inv) lapb_enquiry_response.
Proof. unfold lapb_enquiry_response, clear_ack_pending. inv_tac. Qed.

Lemma inv_check_iframes_acked n : preserves (on_cb link_inv) (lapb_check_iframes_acked n).
Proof. unfold lapb_check_iframes_acked, lapb_stop_t1timer. inv_tac. Qed.
#[local] Hint Resolve inv_kick inv_establish inv_enquiry_response inv_check_iframes_acked : lapb.

Lemma inv_check_need_response ty p : preserves (on_cb link_inv) (lapb_check_need_response ty p).
Proof. unfold lapb_check_need_response. inv_tac. Qed.

Lemma inv_reset_variables : preserves (on_cb link_inv) reset_variables.
Proof. unfold reset_variables. inv_tac. Qed.

Lemma inv_accept_link f : preserves (on_cb link_inv) (accept_link f).
Proof. unfold accept_link, lapb_stop_t1timer, lapb_stop_t2timer. inv_tac. Qed.
#[local] Hint Resolve inv_check_need_response inv_reset_variables inv_accept_link : lapb.

(** Entering state 4 is only sound from state 3, where the numbers are bounded. *)
Lemma inv_frame_reject f ty w :
  state (cb w) = LAPB_STATE_3 → on_cb link_inv w → on_cb link_inv (frame_reject f ty w).2.
Proof.
  intros H3 [Hw Hs]. unfold frame_reject.
  set (I := λ c, 1 <= window c < modulus c ∧ seq_ok c).
  assert (Hp : preserves (on_cb I) (frame_reject f ty)).
  { unfold frame_reject, lapb_start_t1timer, lapb_stop_t2timer. lapb_tac; exact Hc. }
  destruct (Hp w) as [??]; [split; [exact Hw|apply Hs; by left]|].
  by split.
Qed.
End link_inv.

#[export] Hint Resolve inv_clear_queues inv_frames_acked inv_requeue_frames
  inv_kick_loop inv_start_t1timer inv_start_t2timer inv_kick inv_establish
  inv_enquiry_response inv_check_iframes_acked inv_check_need_response
  inv_reset_variables inv_accept_link : lapb.

(** * Programs that keep the link state *)

Definition in_state (s : lapb_state) (c : lapb_cb) : Prop := state c = s.

Lemma preserves_and {A} P Q (m : M A) :
  preserves (on_cb P) m → preserves (on_cb Q) m → preserves (on_cb (λ c, P c ∧ Q c)) m.
Proof. intros HP HQ w [??]. split; [by apply HP|by apply HQ]. Qed.

Ltac keep_tac := lapb_tac; try assumption.

Section keeps.
Context `{LapbEnv} (s : lapb_state).
Abbreviation keeps m := (preserves (on_cb (in_state s)) m).

Lemma keeps_clear_queues : keeps lapb_clear_queues.
Proof. apply preserves_clear_queues; by intros. Qed.

Lemma keeps_frames_acked n : keeps (lapb_frames_acked n).
Proof. apply preserves_frames_acked; by intros. Qed.

Lemma keeps_requeue_frames : keeps lapb_requeue_frames.
Proof. apply preserves_requeue_frames; by intros. Qed.

Lemma keeps_kick_loop e skb wq : keeps (kick_loop e skb wq).
Proof. apply preserves_kick_loop; by intros. Qed.

Lemma keeps_start_t1timer : keeps lapb_start_t1timer.
Proof. unfold lapb_start_t1timer. keep_tac. Qed.

Lemma keeps_start_t2timer : keeps lapb_start_t2timer.
Proof. unfold lapb_start_t2timer. keep_tac. Qed.

Lemma keeps_stop_t1timer : keeps lapb_stop_t1timer.
Proof. unfold lapb_stop_t1timer. keep_tac. Qed.

Lemma keeps_stop_t2timer : keeps lapb_stop_t2timer.
Proof. unfold lapb_stop_t2timer. keep_tac. Qed.
#[local] Hint Resolve keeps_clear_queues keeps_frames_acked keeps_requeue_frames
  keeps_kick_loop keeps_start_t1timer keeps_start_t2timer keeps_stop_t1timer
  keeps_stop_t2timer : lapb.

Lemma keeps_kick : keeps lapb_kick.
Proof. unfold lapb_kick. keep_tac. Qed.

Lemma keeps_establish : keeps lapb_establish_data_link.
Proof. unfold lapb_establish_data_link. keep_tac. Qed.

Lemma keeps_enquiry_response : keeps lapb_enquiry_response.
Proof. unfold lapb_enquiry_response, clear_ack_pending. keep_tac. Qed.

Lemma keeps_check_iframes_acked n : keeps (lapb_check_iframes_acked n).
Proof. unfold lapb_check_iframes_acked. keep_tac. Qed.
#[local] Hint Resolve keeps_kick keeps_establish keeps_enquiry_response
  keeps_check_iframes_acked : lapb.

Lemma keeps_check_need_response ty p : keeps (lapb_check_need_response ty p).
Proof. unfold lapb_check_need_response. keep_tac. Qed.

Lemma keeps_reset_variables : keeps reset_variables.
Proof. unfold reset_variables. keep_tac. Qed.
#[local] Hint Resolve keeps_check_need_response keeps_reset_variables : lapb.

Lemma keeps_state3_reset f : keeps (state3_reset f).
Proof. unfold state3_reset. keep_tac. Qed.

Lemma keeps_I_accept skb f : keeps (state3_I_accept skb f).
Proof. unfold state3_I_accept. keep_tac. Qed.

Lemma keeps_I_reject f : keeps (state3_I_reject f).
Proof. unfold state3_I_reject, clear_ack_pending. keep_tac. Qed.

Lemma keeps_setparms p : keeps (do_setparms p).
Proof. unfold do_setparms. keep_tac. Qed.

Lemma keeps_data_request skb : keeps (do_data_request skb).
Proof. unfold do_data_request. keep_tac. Qed.
End keeps.

#[export] Hint Resolve keeps_clear_queues keeps_frames_acked keeps_requeue_frames
  keeps_kick_loop keeps_start_t1timer keeps_start_t2timer keeps_stop_t1timer
  keeps_stop_t2timer keeps_kick keeps_establish keeps_enquiry_response
  keeps_check_iframes_acked keeps_check_need_response keeps_reset_variables
  keeps_state3_reset keeps_I_accept keeps_I_reject : lapb.

(** * State transitions *)

(** The edges of the state diagram a received frame may follow. *)
Definition rx_edge (s s' : lapb_state) : bool :=
  match s, s' with
  | LAPB_STATE_0, (LAPB_STATE_0 | LAPB_STATE_3) => true
  | LAPB_STATE_1, (LAPB_STATE_0 | LAPB_STATE_1 | LAPB_STATE_3) => true
  | LAPB_STATE_2, (LAPB_STATE_0 | LAPB_STATE_2) => true
  | LAPB_STATE_3, (LAPB_STATE_0 | LAPB_STATE_1 | LAPB_STATE_3 | LAPB_STATE_4) => true
  | LAPB_STATE_4, (LAPB_STATE_3 | LAPB_STATE_4) => true
  | _, _ => false
  end.

(** [ends m P]: every run of [m] from a block in state [s] ends in a state that
    the edge relation allows. *)
Definition ends {A} (s : lapb_state) (m : M A) : Prop :=
  hoare (on_cb (in_state s)) m (λ _ w, rx_edge s (state (cb w)) = true).

Lemma ends_keep {A} s (m : M A) :
  rx_edge s s = true → preserves (on_cb (in_state s)) m → ends s m.
Proof. intros Hs Hm w Hw. unfold hoare. by rewrite (Hm w Hw). Qed.

Lemma ends_seq {A B} s (m : M A) (k : A → M B) :
  preserves (on_cb (in_state s)) m → (∀ a, ends s (k a)) → ends s (m ≫= k).
Proof. intros Hm Hk. eapply hoare_bind; [by apply hoare_preserves|done]. Qed.

(** Past the jump to [s'] nothing moves the state any more. *)
Lemma ends_jump {A B} s s' (m : M A) (k : A → M B) :
  rx_edge s s' = true →
  hoare (on_cb (in_state s)) m (λ _, on_cb (in_state s')) →
  (∀ a, preserves (on_cb (in_state s')) (k a)) → ends s (m ≫= k).
Proof.
  intros He Hm Hk. eapply hoare_bind; [done|]. intros a w Hw.
  by rewrite (Hk a w Hw).
Qed.

Lemma jump_state s s' : hoare (on_cb (in_state s)) (upd (set_state s')) (λ _, on_cb (in_state s')).
Proof. by intros w. Qed.

Lemma jump_link_up s : hoare (on_cb (in_state s)) link_up (λ _, on_cb (in_state LAPB_STATE_3)).
Proof. by intros w. Qed.

Ltac ends_tac :=
  repeat lazymatch goal with
  | |- ends _ (if ?b then _ else _) => destruct b eqn:?
  | |- ends _ (when ?b _) => destruct b; simpl
  | |- ends _ (mbind _ _) =>
      first [ eapply ends_jump; [|solve [apply jump_state|apply jump_link_up]|intros; solve [keep_tac]]; [done]
            | apply ends_seq; [solve [keep_tac]|intros ?] ]
  | |- ends _ _ => apply ends_keep; [done|keep_tac]
  end.

Lemma ends_then {A B} s (m : M A) (k : A → M B) :
  ends s m → (∀ a s', preserves (on_cb (in_state s')) (k a)) → ends s (m ≫= k).
Proof.
  intros Hm Hk w Hw. unfold mbind, ST_bind.
  rewrite (Hk _ (state (cb (m w).2)) _ eq_refl). by apply Hm.
Qed.

Lemma ends_set_state s s' : rx_edge s s' = true → ends s (upd (set_state s')).
Proof. by intros He w _. Qed.

Section transitions.
Context `{LapbEnv}.

Lemma ends_accept_link s f : rx_edge s LAPB_STATE_3 = true → ends s (accept_link f).
Proof.
  intros He. unfold accept_link. do 3 (apply ends_seq; [keep_tac|intros _]).
  eapply ends_jump; [done|apply jump_link_up|]. intros; keep_tac.
Qed.

Lemma ends_frame_reject f ty : ends LAPB_STATE_3 (frame_reject f ty).
Proof. unfold frame_reject. ends_tac. Qed.

Lemma ends_state0 skb f : ends LAPB_STATE_0 (lapb_state0_machine skb f).
Proof.
  unfold lapb_state0_machine. apply ends_seq; [keep_tac|intros c].
  apply ends_then; [|intros; keep_tac].
  repeat case_match;
    first [by apply ends_accept_link|apply ends_keep; [done|keep_tac]].
Qed.

Lemma ends_state1 skb f : ends LAPB_STATE_1 (lapb_state1_machine skb f).
Proof.
  unfold lapb_state1_machine. apply ends_seq; [keep_tac|intros c].
  apply ends_then; [|intros; keep_tac]. ends_tac.
Qed.

Lemma ends_state2 skb f : ends LAPB_STATE_2 (lapb_state2_machine skb f).
Proof.
  unfold lapb_state2_machine. apply ends_then; [|intros; keep_tac]. ends_tac.
Qed.

Lemma ends_state4 skb f : ends LAPB_STATE_4 (lapb_state4_machine skb f).
Proof.
  unfold lapb_state4_machine. apply ends_seq; [keep_tac|intros c].
  apply ends_then; [|intros; keep_tac].
  repeat case_match;
    first [by apply ends_accept_link|apply ends_keep; [done|keep_tac]].
Qed.

Lemma ends_state3_I skb f : ends LAPB_STATE_3 (state3_I skb f).
Proof.
  unfold state3_I. apply ends_seq; [keep_tac|intros ok].
  destruct (negb ok); [apply ends_then; [apply ends_frame_reject|intros; keep_tac]|].
  apply ends_keep; [done|]. keep_tac.
Qed.

Lemma ends_state3 skb f : ends LAPB_STATE_3 (lapb_state3_machine skb f).
Proof.
  unfold lapb_state3_machine. apply ends_then; [|intros; keep_tac].
  unfold not_queued.
  repeat match goal with |- ends _ (if ?b then _ else _) => destruct b end;
    try lazymatch goal with |- ends _ (mbind _ _) => apply ends_then; [|intros; keep_tac] end.
  - unfold state3_SABM. ends_tac.
  - unfold state3_SABME. ends_tac.
  - unfold state3_DISC. ends_tac.
  - unfold state3_DM. ends_tac.
  - unfold state3_RNR, set_peer_busy.
    do 3 (apply ends_seq; [keep_tac|intros ?]). case_match; [ends_tac|apply ends_frame_reject].
  - unfold state3_RR, clear_peer_busy.
    do 3 (apply ends_seq; [keep_tac|intros ?]). case_match; [ends_tac|apply ends_frame_reject].
  - unfold state3_REJ, clear_peer_busy.
    do 3 (apply ends_seq; [keep_tac|intros ?]). case_match; [ends_tac|apply ends_frame_reject].
  - apply ends_state3_I.
  - unfold state3_FRMR. do 2 (apply ends_seq; [keep_tac|intros ?]). by apply ends_set_state.
  - apply ends_frame_reject.
  - apply ends_keep; [done|keep_tac].
Qed.

Lemma ends_data_input f0 skb w :
  rx_edge (state (cb w)) (state (cb (lapb_data_input f0 skb w).2)) = true.
Proof.
  unfold lapb_data_input, mbind at 1, ST_bind at 1. simpl.
  destruct (lapb_decode (mode (cb w)) skb f0) as [f skb'].
  destruct (state (cb w)) eqn:Hs.
  all: apply (ends_then _ _ _); [|intros; keep_tac|exact Hs].
  - apply ends_state0.
  - apply ends_state1.
  - apply ends_state2.
  - apply ends_state3.
  - apply ends_state4.
Qed.
End transitions.

(** * The invariant along every step *)

(** [stays3 m]: from state 3 with the invariant, [m] keeps both. *)
Definition inv3 (c : lapb_cb) : Prop := link_inv c ∧ in_state LAPB_STATE_3 c.
Abbreviation sound3 m := (hoare (on_cb inv3) m (λ _, on_cb link_inv)).

Lemma sound3_preserves {A} (m : M A) : preserves (on_cb link_inv) m → sound3 m.
Proof. by intros Hm w [Hw _]; apply Hm. Qed.

Lemma sound3_seq {A B} (m : M A) (k : A → M B) :
  preserves (on_cb link_inv) m → preserves (on_cb (in_state LAPB_STATE_3)) m →
  (∀ a, sound3 (k a)) → sound3 (m ≫= k).
Proof.
  intros H1 H2 Hk. eapply hoare_bind; [|exact Hk].
  apply hoare_preserves. by apply preserves_and.
Qed.

Lemma sound3_then {A B} (m : M A) (k : A → M B) :
  sound3 m → (∀ a, preserves (on_cb link_inv) (k a)) → sound3 (m ≫= k).
Proof. intros Hm Hk. eapply hoare_bind; [exact Hm|]. intros a. apply Hk. Qed.

Section inv_steps.
Context `{LapbEnv}.

Lemma inv_stop_t1timer : preserves (on_cb link_inv) lapb_stop_t1timer.
Proof. unfold lapb_stop_t1timer. inv_tac. Qed.

Lemma inv_stop_t2timer : preserves (on_cb link_inv) lapb_stop_t2timer.
Proof. unfold lapb_stop_t2timer. inv_tac. Qed.
#[local] Hint Resolve inv_stop_t1timer inv_stop_t2timer : lapb.

Lemma sound3_frame_reject f ty : sound3 (frame_reject f ty).
Proof. intros w [Hw Hs]. by apply inv_frame_reject. Qed.

Lemma inv_state0 skb f : preserves (on_cb link_inv) (lapb_state0_machine skb f).
Proof. unfold lapb_state0_machine. inv_tac. Qed.

Lemma inv_state1 skb f : preserves (on_cb link_inv) (lapb_state1_machine skb f).
Proof. unfold lapb_state1_machine. inv_tac. Qed.

Lemma inv_state2 skb f : preserves (on_cb link_inv) (lapb_state2_machine skb f).
Proof. unfold lapb_state2_machine. inv_tac. Qed.

Lemma inv_state4 skb f : preserves (on_cb link_inv) (lapb_state4_machine skb f).
Proof. unfold lapb_state4_machine. inv_tac. Qed.

Lemma inv_I_accept skb f : preserves (on_cb link_inv) (state3_I_accept skb f).
Proof. unfold state3_I_accept. inv_tac. Qed.

Lemma inv_I_reject f : preserves (on_cb link_inv) (state3_I_reject f).
Proof. unfold state3_I_reject, clear_ack_pending. inv_tac. Qed.

Lemma inv_state3_reset f : preserves (on_cb link_inv) (state3_reset f).
Proof. unfold state3_reset. inv_tac. Qed.
#[local] Hint Resolve inv_I_accept inv_I_reject inv_state3_reset : lapb.

Lemma sound3_I skb f : sound3 (state3_I skb f).
Proof.
  unfold state3_I. apply sound3_seq; [inv_tac|keep_tac|intros ok].
  destruct (negb ok).
  - apply sound3_then; [apply sound3_frame_reject|intros; inv_tac].
  - apply sound3_preserves. inv_tac.
Qed.

Lemma sound3_machine skb f : sound3 (lapb_state3_machine skb f).
Proof.
  unfold lapb_state3_machine. apply sound3_then; [|intros; inv_tac].
  unfold not_queued.
  repeat match goal with |- sound3 (if ?b then _ else _) => destruct b end;
    try lazymatch goal with |- sound3 (mbind _ _) => apply sound3_then; [|intros; inv_tac] end.
  1-4: apply sound3_preserves; unfold state3_SABM, state3_SABME, state3_DISC, state3_DM; inv_tac.
  1-3: unfold state3_RNR, state3_RR, state3_REJ, set_peer_busy, clear_peer_busy;
    do 3 (apply sound3_seq; [inv_tac|keep_tac|intros ?]);
    case_match; [apply sound3_preserves; inv_tac|apply sound3_frame_reject].
  - apply sound3_I.
  - apply sound3_preserves. unfold state3_FRMR. inv_tac.
  - apply sound3_frame_reject.
  - apply sound3_preserves. inv_tac.
Qed.

Lemma inv_data_input f0 skb : preserves (on_cb link_inv) (lapb_data_input f0 skb).
Proof.
  unfold lapb_data_input. apply preserves_gets_bind. intros w Hw.
  destruct (lapb_decode (mode (cb w)) skb f0) as [f skb'].
  apply at_bind; [|intros; inv_tac].
  destruct (state (cb w)) eqn:Hs.
  - by apply inv_state0.
  - by apply inv_state1.
  - by apply inv_state2.
  - by apply sound3_machine.
  - by apply inv_state4.
Qed.

Lemma inv_t1timer_expiry : preserves (on_cb link_inv) lapb_t1timer_expiry.
Proof. unfold lapb_t1timer_expiry. inv_tac. Qed.

Lemma inv_t2timer_expiry : preserves (on_cb link_inv) lapb_t2timer_expiry.
Proof. unfold lapb_t2timer_expiry, lapb_timeout_response, clear_ack_pending. inv_tac. Qed.

Lemma inv_connect_request : preserves (on_cb link_inv) do_connect_request.
Proof. unfold do_connect_request. inv_tac. Qed.

Lemma inv_disconnect_request : preserves (on_cb link_inv) do_disconnect_request.
Proof. unfold do_disconnect_request. inv_tac. Qed.

Lemma inv_data_request skb : preserves (on_cb link_inv) (do_data_request skb).
Proof. unfold do_data_request. inv_tac. Qed.

(** [lapb_setparms] changes mode and window only together, and only in state 0. *)
Lemma inv_setparms p : preserves (on_cb link_inv) (do_setparms p).
Proof.
  unfold do_setparms. apply preserves_gets_bind. intros w [Hw Hs].
  do 3 (case_match; [by split|]).
  destruct (decide _) as [Hz|]; [|by split].
  destruct (_ || _) eqn:Hb; [by split|]. to_prop.
  split; [|by intros [?|?]; simpl in *; congruence]. simpl.
  unfold modulus_of. rewrite u8_small by (destruct (p_mode p & LAPB_EXTENDED); lia).
  destruct (p_mode p & LAPB_EXTENDED); unfold LAPB_EMODULUS, LAPB_SMODULUS; lia.
Qed.

Lemma inv_step w w' : lapb_step w w' → link_inv (cb w) → link_inv (cb w').
Proof.
  intros Hstep Hw. destruct Hstep.
  - by apply inv_connect_request.
  - by apply inv_disconnect_request.
  - by apply inv_setparms.
  - by apply inv_data_request.
  - by apply inv_data_input.
  - apply at_bind; [by apply inv_stop_t1timer|]. intros; apply inv_t1timer_expiry.
  - apply at_bind; [by apply inv_stop_t2timer|]. intros; apply inv_t2timer_expiry.
  - done.
Qed.

Lemma inv_initial w : lapb_initial w → link_inv (cb w).
Proof.
  intros (tok&cbs&e&->). split; [done|]. intros [?|?]; simplify_eq/=.
Qed.

Lemma inv_reachable w : lapb_reachable w → link_inv (cb w).
Proof.
  intros (w0&H0&Hsteps). apply inv_initial in H0.
  induction Hsteps; [done|]. eauto using inv_step.
Qed.
End inv_steps.
