(* ===== verification/LapbQueue.v ===== *)
(** The LAPB send side: what [lapb_validate_nr], [lapb_frames_acked],
    [lapb_requeue_frames] and [lapb_kick] compute, that no queued frame is lost
    or reordered, and that at most a window of frames is unacknowledged. *)
From S2P Require Import Prelude Lapb LapbIn LapbProofs.
From stdpp Require Import options.
Open Scope cint_scope.
Open Scope Z_scope.

(** * Symbolic execution on a known control block *)

Abbreviation at_cb c := (on_cb (eq c)).

Lemma exec_quiet {A} c (m : M A) : quiet m → hoare (at_cb c) m (λ _, at_cb c).
Proof. intros Hq w Hw. unfold on_cb. by rewrite Hq. Qed.

Lemma exec_upd c f : hoare (at_cb c) (upd f) (λ _, at_cb (f c)).
Proof. by intros w ->. Qed.

Lemma exec_gets_cb {B} c (k : lapb_cb → M B) Q :
  hoare (at_cb c) (k c) Q → hoare (at_cb c) (gets cb ≫= k) Q.
Proof. intros Hk w Hw. unfold mbind, ST_bind. simpl. rewrite <-Hw. by apply Hk. Qed.

Lemma exec_nr_valid {B} c n (k : bool → M B) Q :
  hoare (at_cb c) (k (default false (lapb_validate_nr c n))) Q →
  hoare (at_cb c) (nr_valid n ≫= k) Q.
Proof. intros Hk w Hw. unfold mbind, ST_bind. simpl. rewrite <-Hw. by apply Hk. Qed.

(** Name the block a property speaks about. *)
Lemma exec_at {A} (P : lapb_cb → Prop) (m : M A) Q :
  (∀ c, P c → hoare (at_cb c) m Q) → hoare (on_cb P) m Q.
Proof. intros Hm w Hw. by apply (Hm (cb w)). Qed.

Lemma exec_done {A} c (m : M A) (P : lapb_cb → Prop) :
  quiet m → P c → hoare (at_cb c) m (λ _, on_cb P).
Proof. intros Hq HP w Hw. unfold on_cb in *. by rewrite Hq, <-Hw. Qed.

Lemma exec_upd_done c f (P : lapb_cb → Prop) :
  P (f c) → hoare (at_cb c) (upd f) (λ _, on_cb P).
Proof. by intros HP w ->. Qed.

Lemma exec_start_t1timer c (P : lapb_cb → Prop) :
  (∀ e, P (set_t1timer (Some e) c)) → hoare (at_cb c) lapb_start_t1timer (λ _, on_cb P).
Proof. intros HP w ->. apply HP. Qed.

(** Step over the first instruction of a sequence. *)
Ltac exec :=
  lazymatch goal with
  | |- hoare _ (mbind _ (gets cb)) _ => apply exec_gets_cb
  | |- hoare _ (mbind _ (upd _)) _ => eapply hoare_bind; [apply exec_upd|intros []]
  | |- hoare _ (mbind _ _) _ => eapply hoare_bind; [apply exec_quiet; solve [quiet_tac]|intros ?]
  | |- hoare _ (upd _) _ => apply exec_upd_done
  | |- hoare _ lapb_start_t1timer _ => apply exec_start_t1timer; intros ?
  | |- hoare _ _ _ => apply exec_done; [solve [quiet_tac]|]
  end.

(** * lapb_validate_nr *)

Lemma validate_loop_spec fuel m v n vc :
  1 < m → 0 <= v < m → 0 <= n < m → 0 <= vc < m →
  cdist m vc v < Z.of_nat fuel →
  validate_loop fuel m v n vc = Some (cdist m vc n <=? cdist m vc v).
Proof.
  intros Hm Hv Hn. revert vc. induction fuel as [|fuel IH]; intros vc Hvc Hf.
  { pose proof (cdist_bound m vc v). lia. }
  simpl. destruct (Z.eqb_spec vc v) as [->|Hne].
  - rewrite cdist_self. f_equal. pose proof (cdist_bound m v n).
    destruct (Z.eqb_spec n v) as [->|Hnv].
    + by rewrite cdist_self.
    + symmetry. apply Z.leb_gt.
      assert (cdist m v n ≠ 0); [|lia].
      intros E. apply cdist_zero in E; lia.
  - destruct (Z.eqb_spec n vc) as [->|Hnc].
    + rewrite cdist_self. f_equal. symmetry. apply Z.leb_le.
      apply cdist_bound. lia.
    + rewrite IH.
      * rewrite !cdist_succ_l by lia. f_equal.
        apply eq_bool_prop_intro. rewrite !Is_true_true, !Z.leb_le. lia.
      * apply Z.mod_pos_bound. lia.
      * rewrite cdist_succ_l by lia. lia.
Qed.

(** With bounded variables the loop ends whatever [n] is. *)
Lemma validate_loop_total fuel m v n vc :
  1 < m → 0 <= v < m → 0 <= vc < m → cdist m vc v < Z.of_nat fuel →
  is_Some (validate_loop fuel m v n vc).
Proof.
  intros Hm Hv. revert vc. induction fuel as [|fuel IH]; intros vc Hvc Hf.
  { pose proof (cdist_bound m vc v). lia. }
  simpl. destruct (Z.eqb_spec vc v); [by eexists|].
  destruct (n =? vc); [by eexists|]. apply IH.
  - apply Z.mod_pos_bound. lia.
  - rewrite cdist_succ_l by lia. lia.
Qed.

Lemma validate_fuel_enough c a b : cdist (modulus c) a b < Z.of_nat (validate_fuel c).
Proof.
  pose proof (modulus_pos (mode c)). pose proof (cdist_bound (modulus c) a b).
  unfold validate_fuel. lia.
Qed.

Lemma validate_nr_spec c n :
  seq_ok c → 0 <= n < modulus c →
  lapb_validate_nr c n = Some (cdist (modulus c) (va c) n <=? cdist (modulus c) (va c) (vs c)).
Proof.
  intros (?&?&?) ?. apply validate_loop_spec; try done.
  - apply modulus_pos.
  - apply validate_fuel_enough.
Qed.

(** * lapb_frames_acked *)

(** The number of buffers an acknowledgement up to [n] removes. *)
Definition acked_count (c : lapb_cb) (n : Z) : nat :=
  Nat.min (length (ack_queue c)) (Z.to_nat (cdist (modulus c) (va c) n)).

(** The block after [k] buffers are released. *)
Definition acked (k : nat) (c : lapb_cb) : lapb_cb :=
  set_va ((va c + Z.of_nat k) mod modulus c) (set_ack_queue (drop k (ack_queue c)) c).

Lemma acked_0 c : seq_ok c → acked 0 c = c.
Proof.
  intros (Hva&_&_). unfold acked. rewrite Z.add_0_r, Z.mod_small, drop_0 by done.
  by destruct c.
Qed.

Lemma acked_S k c skb q :
  ack_queue c = skb :: q →
  acked k (set_va ((va c + 1) mod modulus c) (set_ack_queue q c)) = acked (S k) c.
Proof.
  intros Hq. unfold acked. simpl. rewrite Hq. simpl.
  rewrite Z.add_mod_idemp_l by (pose proof (modulus_pos (mode c)); lia).
  by replace (va c + 1 + Z.of_nat k) with (va c + Z.of_nat (S k)) by lia.
Qed.

Lemma frames_acked_loop_spec n q c :
  ack_queue c = q → seq_ok c → 0 <= n < modulus c →
  hoare (at_cb c) (frames_acked_loop n q) (λ _, at_cb (acked (acked_count c n) c)).
Proof.
  revert c. induction q as [|skb q IH]; intros c Hq Hs Hn; simpl.
  { exec. unfold acked_count. rewrite Hq. simpl. by apply acked_0. }
  exec. destruct (Z.eqb_spec (va c) n) as [<-|Hne].
  { exec. unfold acked_count. rewrite cdist_self. rewrite Nat.min_0_r. by apply acked_0. }
  do 3 exec. simpl.
  set (c1 := set_va _ _). pose proof (modulus_pos (mode c)) as Hm.
  pose proof Hs as (Hva&Hvs&Hvr).
  assert (E : acked_count c n = S (acked_count c1 n)).
  { unfold acked_count, c1. cbn [ack_queue set_va set_ack_queue va mode].
    rewrite Hq. cbn [length]. rewrite cdist_succ_l by done. pose proof (cdist_bound (modulus c) (va c) n).
    assert (cdist (modulus c) (va c) n ≠ 0).
    { intros E. apply cdist_zero in E; try done; lia. }
    lia. }
  rewrite E, <-(acked_S _ c skb q) by done. apply (IH c1); [done| |done].
  split; [apply modulus_mod_bound|]. done.
Qed.

Lemma frames_acked_spec n c :
  seq_ok c → 0 <= n < modulus c →
  hoare (at_cb c) (lapb_frames_acked n) (λ _, at_cb (acked (acked_count c n) c)).
Proof.
  intros Hs Hn. unfold lapb_frames_acked. exec.
  destruct (Z.eqb_spec (va c) n) as [<-|Hne]; simpl.
  - exec. unfold acked_count. rewrite cdist_self, Nat.min_0_r. by apply acked_0.
  - by apply frames_acked_loop_spec.
Qed.

(** * lapb_requeue_frames *)

Lemma requeue_loop_spec l y k q c :
  ack_queue c = q → write_queue c = l ++ y :: k →
  hoare (at_cb c) (requeue_loop (Some (length l)) q)
    (λ _, at_cb (set_ack_queue [] (set_write_queue (l ++ y :: q ++ k) c))).
Proof.
  revert l y c. induction q as [|skb q IH]; intros l y c Hq Hw; simpl.
  { exec. rewrite <-Hw, <-Hq. by destruct c. }
  do 2 exec. simpl. set (c1 := set_write_queue _ _).
  replace (S (length l)) with (length (l ++ [y])) by (rewrite length_app; simpl; lia).
  assert (Hw1 : write_queue c1 = (l ++ [y]) ++ skb :: k).
  { unfold c1. simpl. by rewrite Hw, insert_after_app, <-app_assoc. }
  eapply hoare_post; [|apply (IH _ _ c1 eq_refl Hw1)].
  intros [] w Hc. unfold on_cb in *. rewrite <-Hc. unfold c1. by rewrite <-!app_assoc.
Qed.

Lemma requeue_spec c :
  hoare (at_cb c) lapb_requeue_frames
    (λ _, at_cb (set_ack_queue [] (set_write_queue (ack_queue c ++ write_queue c) c))).
Proof.
  unfold lapb_requeue_frames. exec. destruct (ack_queue c) as [|skb q] eqn:Hq; simpl.
  { exec. rewrite <-Hq. by destruct c. }
  do 2 exec. simpl. set (c1 := set_write_queue _ _).
  eapply hoare_post; [|apply (requeue_loop_spec [] skb (write_queue c) q c1 eq_refl eq_refl)].
  intros [] w Hc. unfold on_cb in *. by rewrite <-Hc.
Qed.

(** * lapb_kick *)

(** The frames the link still owes the peer, oldest first. *)
Definition pending (c : lapb_cb) : list sk_buff := ack_queue c ++ write_queue c.

(** The unacknowledged frames are exactly those numbered from [va] up to [vs],
    and there are at most [window] of them. *)
Definition ack_exact (c : lapb_cb) : Prop :=
  Z.of_nat (length (ack_queue c)) = cdist (modulus c) (va c) (vs c) ∧
  Z.of_nat (length (ack_queue c)) <= window c.

(** After a requeue [vs] may run ahead of the empty queue until the next kick. *)
Definition ack_ok (c : lapb_cb) : Prop := ack_queue c = [] ∨ ack_exact c.

(** What no transmission changes. *)
Definition same_link (c c' : lapb_cb) : Prop :=
  token c' = token c ∧ mode c' = mode c ∧ state c' = state c ∧ va c' = va c ∧
  vr c' = vr c ∧ window c' = window c ∧ callbacks c' = callbacks c ∧ n2 c' = n2 c.

Lemma same_link_refl c : same_link c c.
Proof. by repeat split. Qed.

Lemma same_link_trans c1 c2 c3 : same_link c1 c2 → same_link c2 c3 → same_link c1 c3.
Proof. unfold same_link. intros; destruct_and!; split_and!; congruence. Qed.

Section kick.
Context `{LapbEnv}.

(** Sending one more frame below the window keeps the count exact. *)
Lemma ack_exact_send c skb :
  link_inv c → seq_ok c → ack_exact c →
  vs c ≠ (va c + window c) mod modulus c →
  ack_exact (set_ack_queue (ack_queue c ++ [skb]) (set_vs ((vs c + 1) mod modulus c) c)).
Proof.
  intros [Hw _] (Hva&Hvs&Hvr) [Hl Hle] Hne. pose proof (modulus_pos (mode c)) as Hm.
  assert (Hlt : cdist (modulus c) (va c) (vs c) ≠ window c).
  { intros E. apply Hne. rewrite <-E. unfold cdist.
    rewrite Z.add_mod_idemp_r by lia.
    replace (va c + (vs c - va c)) with (vs c) by lia. by rewrite Z.mod_small. }
  unfold ack_exact. cbn [ack_queue set_ack_queue set_vs va vs mode window].
  rewrite length_app. cbn [length].
  rewrite cdist_succ_r by lia. lia.
Qed.

Lemma kick_loop_spec e skb wq c :
  write_queue c = wq → link_inv c → seq_ok c → ack_exact c →
  e = (va c + window c) mod modulus c → vs c ≠ e →
  hoare (at_cb c) (kick_loop e skb wq)
    (λ _, on_cb (λ c', pending c' = ack_queue c ++ skb :: wq ∧ ack_exact c' ∧ same_link c c')).
Proof.
  revert skb c. induction wq as [|skb' wq IH]; intros skb c Hwq Hi Hs Ha He Hne.
  all: simpl; exec; destruct (alloc_ok a).
  2, 4: exec; unfold pending; simpl; by rewrite Hwq.
  all: do 4 exec; cbn beta; set (c1 := set_ack_queue _ _).
  all: assert (Ha1 : ack_exact c1) by (apply (ack_exact_send c skb); congruence).
  all: assert (Hi1 : link_inv c1) by exact (link_inv_vs c Hi).
  all: assert (Hs1 : seq_ok c1)
    by (destruct Hs as (?&?&?); unfold seq_ok; simpl; auto using modulus_mod_bound).
  all: destruct (Z.eqb_spec (vs c1) e) as [He1|He1]; cbn [negb].
  1, 3: exec; split_and!; [|exact Ha1|by repeat split];
    unfold pending; simpl; by rewrite Hwq, <-app_assoc.
  - exec; split_and!; [|exact Ha1|by repeat split];
    unfold pending; simpl; by rewrite Hwq, <-app_assoc.
  - exec. set (c2 := set_write_queue wq c1).
    eapply hoare_post; [|apply (IH skb' c2 eq_refl); done].
    intros [] w (Hp&Hx&Hl). split_and!; [|exact Hx|exact Hl].
    rewrite Hp. unfold c2, c1. simpl. by rewrite <-app_assoc.
Qed.

Lemma kick_spec c :
  link_inv c → seq_ok c → ack_ok c →
  hoare (at_cb c) lapb_kick
    (λ _, on_cb (λ c', pending c' = pending c ∧ ack_ok c' ∧ same_link c c')).
Proof.
  intros Hi Hs Ha. unfold lapb_kick. exec.
  set (start := match ack_queue c with [] => va c | _ => vs c end).
  destruct (negb (condition c & _) && negb (start =? _)) eqn:Hg.
  2: { exec. split_and!; [done|done|by repeat split]. }
  to_prop. destruct (write_queue c) as [|skb wq] eqn:Hwq.
  { exec. split_and!; [done|done|by repeat split]. }
  do 2 exec. set (c1 := set_write_queue wq (set_vs start c)).
  assert (Hs1 : seq_ok c1).
  { destruct Hs as (?&?&?). unfold seq_ok, c1, start. simpl. by destruct (ack_queue c). }
  assert (Ha1 : ack_exact c1).
  { unfold c1, start, ack_exact. simpl. destruct Ha as [->|Ha].
    - rewrite cdist_self. simpl. destruct Hi. lia.
    - destruct (ack_queue c) eqn:Hq; [|by rewrite <-Hq].
      rewrite cdist_self. simpl. destruct Hi. lia. }
  eapply hoare_bind.
  { apply (kick_loop_spec _ skb wq c1); try done. by destruct Hi. }
  intros []. apply (hoare_pre _ (on_cb (λ c', pending c' = pending c ∧ ack_ok c' ∧ same_link c c'))).
  { intros w (Hp&Hx&Hl). split_and!; [|by right|exact Hl].
    rewrite Hp. unfold pending. by rewrite Hwq. }
  apply hoare_preserves. unfold lapb_start_t1timer. lapb_tac; exact Hc.
Qed.
End kick.

(** * Acknowledgements and the queues *)

Lemma cdist_add_l m a b k :
  0 < m → 0 <= k <= cdist m a b → cdist m ((a + k) mod m) b = cdist m a b - k.
Proof.
  intros Hm Hk. pose proof (cdist_bound m a b Hm). unfold cdist in *.
  rewrite Zminus_mod_idemp_r, <-(Z.mod_small ((b - a) mod m - k) m) by lia.
  rewrite Zminus_mod_idemp_l. f_equal. lia.
Qed.

(** What the queues look like after an event in state 3 has released [k] frames. *)
Definition released (k : nat) (c c' : lapb_cb) : Prop :=
  pending c' = drop k (pending c) ∧ ack_ok c'.

Lemma acked_count_le c n : (acked_count c n <= length (ack_queue c))%nat.
Proof. unfold acked_count. lia. Qed.

Lemma released_acked c n :
  ack_ok c → released (acked_count c n) c (acked (acked_count c n) c).
Proof.
  intros Ha. set (k := acked_count c n). pose proof (acked_count_le c n) as Hk.
  fold k in Hk. split.
  - unfold pending, acked. simpl. by rewrite drop_app_le.
  - destruct Ha as [Hq|[Hl Hle]].
    + left. unfold acked. simpl. by rewrite Hq, drop_nil.
    + right. unfold ack_exact, acked. cbn [ack_queue set_ack_queue set_va va vs mode window].
      rewrite length_drop. rewrite cdist_add_l; [lia| |lia].
      pose proof (modulus_pos (mode c)). lia.
Qed.

Section state3_queue.
Context `{LapbEnv}.

Lemma check_iframes_acked_released n c :
  seq_ok c → 0 <= n < modulus c → ack_ok c →
  hoare (at_cb c) (lapb_check_iframes_acked n)
    (λ _, on_cb (λ c', released (acked_count c n) c c' ∧ vr c' = vr c)).
Proof.
  intros Hs Hn Ha. unfold lapb_check_iframes_acked. exec.
  destruct (vs c =? n).
  - eapply hoare_bind; [by apply frames_acked_spec|]. intros [].
    unfold lapb_stop_t1timer. do 2 exec. split; [|done]. by apply released_acked.
  - destruct (Z.eqb_spec (va c) n) as [<-|Hne]; simpl.
    + exec. unfold acked_count. rewrite cdist_self, Nat.min_0_r. done.
    + eapply hoare_bind; [by apply frames_acked_spec|]. intros [].
      exec. split; [|done]. by apply released_acked.
Qed.

Lemma frames_acked_released n c :
  seq_ok c → 0 <= n < modulus c → ack_ok c →
  hoare (at_cb c) (lapb_frames_acked n)
    (λ _, on_cb (λ c', released (acked_count c n) c c' ∧ vr c' = vr c)).
Proof.
  intros Hs Hn Ha. eapply hoare_post; [|by apply frames_acked_spec].
  intros [] w Hw. unfold on_cb in *. rewrite <-Hw. split; [by apply released_acked|done].
Qed.

(** [still3 k c]: if the link is still in state 3, exactly [k] frames went. *)
Definition still3 (k : nat) (c c' : lapb_cb) : Prop :=
  state c' = LAPB_STATE_3 → released k c c'.

Lemma frame_reject_leaves f ty P :
  hoare P (frame_reject f ty) (λ _, on_cb (λ c', state c' = LAPB_STATE_4)).
Proof. intros w _. reflexivity. Qed.

Lemma requeue_released c :
  hoare (at_cb c) lapb_requeue_frames (λ _, on_cb (released 0 c)).
Proof.
  eapply hoare_post; [|apply requeue_spec]. intros [] w Hw. unfold on_cb in *.
  rewrite <-Hw. split; [done|by left].
Qed.

(** The frame types that carry N(R). *)
Definition carries_nr (f : lapb_frame) : bool :=
  (type f =? LAPB_I) || (type f =? LAPB_RR) || (type f =? LAPB_RNR) || (type f =? LAPB_REJ).

(** The frames a received frame acknowledges. *)
Definition acks (c : lapb_cb) (f : lapb_frame) : nat :=
  if carries_nr f then acked_count c (nr f) else 0.

Lemma reject_still3 f ty k c P :
  hoare P (frame_reject f ty) (λ _, on_cb (still3 k c)).
Proof.
  eapply hoare_post; [|apply frame_reject_leaves]. intros [] w Hw.
  unfold on_cb, still3 in *. by rewrite Hw.
Qed.

(** Only the condition changes before the acknowledgement is looked at. *)
Definition recond (c c' : lapb_cb) : Prop := ∃ y, c' = set_condition y c.

Lemma recond_elim {A} c (m : M A) Q :
  (∀ y, hoare (at_cb (set_condition y c)) m Q) → hoare (on_cb (recond c)) m Q.
Proof. intros Hm w [y Hy]. by apply (Hm y). Qed.

Lemma need_response_recond ty p y c :
  hoare (at_cb (set_condition y c)) (lapb_check_need_response ty p) (λ _, on_cb (recond c)).
Proof.
  unfold lapb_check_need_response, lapb_enquiry_response, clear_ack_pending.
  destruct (_ && _); simpl.
  - exec. exec. by eexists.
  - exec. by eexists.
Qed.

(** The common shape of RR, RNR and REJ: [m] acts on the acknowledgement. *)
Lemma supervisory_still3 g f c (m : M unit) :
  (∀ y, hoare (at_cb (set_condition y c)) m (λ _, on_cb (released (acked_count c (nr f)) c))) →
  hoare (at_cb c)
    (upd (λ c, set_condition (g c) c);;
     lapb_check_need_response (cr f) (pf f);;
     ok ← nr_valid (nr f);
     if (ok : bool) then m else frame_reject f LAPB_FRMR_Z)
    (λ _, on_cb (still3 (acked_count c (nr f)) c)).
Proof.
  intros Hm. exec. eapply hoare_bind; [apply need_response_recond|]. intros [].
  apply recond_elim. intros y. exec. destruct a.
  - eapply hoare_post; [|apply Hm]. intros [] w Hw _. exact Hw.
  - apply reject_still3.
Qed.

Lemma still3_released {A} k c P (m : M A) :
  hoare P m (λ _, on_cb (released k c)) → hoare P m (λ _, on_cb (still3 k c)).
Proof. apply hoare_post. by intros a w Hw _. Qed.

Lemma leaves3 {A} k c s P (m : M A) :
  s ≠ LAPB_STATE_3 → hoare P m (λ _, on_cb (in_state s)) → hoare P m (λ _, on_cb (still3 k c)).
Proof. intros Hs. apply hoare_post. intros a w Hw E. unfold on_cb, in_state in Hw. congruence. Qed.

Lemma forget_first {A B} P (m : M A) (k : A → M B) Q :
  (∀ a, hoare (λ _, True) (k a) Q) → hoare P (m ≫= k) Q.
Proof. intros Hk w _. by apply Hk. Qed.

Lemma jump_then {B} s (k : unit → M B) :
  (∀ a, preserves (on_cb (in_state s)) (k a)) →
  hoare (λ _, True) (upd (set_state s) ≫= k) (λ _, on_cb (in_state s)).
Proof. intros Hk w _. by apply Hk. Qed.

Lemma I_still3 skb f c :
  inv3 c → ack_ok c → 0 <= nr f < modulus c →
  hoare (at_cb c) (state3_I skb f) (λ _, on_cb (still3 (acked_count c (nr f)) c)).
Proof.
  intros [[_ Hs] H3] Ha Hn. assert (seq_ok c) by (apply Hs; by left).
  unfold state3_I. exec. destruct (negb a).
  { eapply hoare_bind; [apply reject_still3|]. intros []. apply hoare_preserves. lapb_tac. }
  apply still3_released. exec. eapply (hoare_bind _ _ (λ _, on_cb (released (acked_count c (nr f)) c))).
  - destruct (condition c & _); (eapply hoare_post;
      [|by first [apply frames_acked_released|apply check_iframes_acked_released]]);
      by intros [] w [? _].
  - intros []. apply hoare_preserves.
    unfold state3_I_accept, state3_I_reject, lapb_enquiry_response, clear_ack_pending,
      lapb_start_t2timer. lapb_tac; exact Hc.
Qed.

Lemma state3_reset_still3 f c :
  hoare (at_cb c) (state3_reset f) (λ _, on_cb (still3 0 c)).
Proof.
  unfold state3_reset, lapb_stop_t1timer, lapb_stop_t2timer. do 3 exec.
  eapply (hoare_bind _ _ (λ _, on_cb (λ c', pending c' = pending c))).
  { eapply hoare_pre; [|apply hoare_preserves; unfold reset_variables; lapb_tac; exact Hc].
    intros w Hw. unfold on_cb in *. by rewrite <-Hw. }
  intros [] w Hw. pose proof (requeue_released (cb w) w eq_refl) as [Hp Ha].
  intros _. split; [|done]. rewrite Hp. unfold on_cb in Hw. by rewrite Hw.
Qed.

Lemma state3_machine_queue skb f c :
  inv3 c → ack_ok c → (carries_nr f = true → 0 <= nr f < modulus c) →
  hoare (at_cb c) (lapb_state3_machine skb f) (λ _, on_cb (still3 (acks c f) c)).
Proof.
  intros Hi Ha Hn. assert (seq_ok c) by (destruct Hi as [[_ Hs] H3]; apply Hs; by left).
  assert (Hkeep : ∀ A (m : M A), quiet m → hoare (at_cb c) m (λ _, on_cb (still3 0 c))).
  { intros A m Hq w Hw. unfold on_cb in *. rewrite Hq, <-Hw. by intros _. }
  unfold lapb_state3_machine. eapply (hoare_bind _ _ (λ _, on_cb (still3 (acks c f) c))).
  2: { intros q. apply hoare_preserves. lapb_tac. }
  unfold not_queued, acks, carries_nr in *.
  repeat (match goal with |- hoare _ (if type f =? ?t then _ else _) _ =>
    destruct (Z.eqb_spec (type f) t) as [E|_]; [try rewrite E in *; cbn -[hoare] in *|] end).
  all: try lazymatch goal with |- hoare _ (mbind _ _) _ =>
    eapply hoare_bind; [|intros ?; apply hoare_preserves; lapb_tac] end.
  - unfold state3_SABM. exec. destruct (mode c & _); [apply Hkeep; quiet_tac|].
    apply state3_reset_still3.
  - unfold state3_SABME. exec. destruct (mode c & _); [|apply Hkeep; quiet_tac].
    apply state3_reset_still3.
  - apply (leaves3 _ _ LAPB_STATE_0); [done|]. unfold state3_DISC.
    do 4 (apply forget_first; intros ?). apply jump_then. intros; keep_tac.
  - apply (leaves3 _ _ LAPB_STATE_0); [done|]. unfold state3_DM.
    apply forget_first; intros ?. apply jump_then. intros; keep_tac.
  - apply (supervisory_still3 _ f c). intros y.
    eapply hoare_post; [|by apply check_iframes_acked_released; auto]. by intros [] w [? _].
  - apply (supervisory_still3 _ f c). intros y.
    eapply hoare_post; [|by apply check_iframes_acked_released; auto]. by intros [] w [? _].
  - apply (supervisory_still3 _ f c). intros y.
    eapply hoare_bind; [by apply frames_acked_released; auto|]. intros [].
    unfold lapb_stop_t1timer. intros w [[Hp Hk] _].
    set (w' := mk_world (set_n2count 0 (set_t1timer None (cb w))) (jiffies w) (tick w) (out w)).
    destruct (requeue_released (cb w') w' eq_refl) as [Hp' Hk'].
    split; [|exact Hk']. etrans; [exact Hp'|exact Hp].
  - by apply I_still3; auto.
  - apply (leaves3 _ _ LAPB_STATE_1); [done|]. by intros w _.
  - apply reject_still3.
  - by apply Hkeep.
Qed.
End state3_queue.
