(* ===== verification/LapbDeliver.v ===== *)
(** LAPB delivery: which received frames reach the network layer, in which
    order, and what happens to V(R); state transitions; the retry limit. *)
From S2P Require Import Prelude Lapb LapbIn LapbProofs LapbQueue.
From stdpp Require Import options.
Open Scope cint_scope.
Open Scope Z_scope.

(** The payloads handed to [data_indication], in order. *)
Definition payload_of (e : event) : option (list Z) :=
  match e with EvDataIndication _ p => Some p | _ => None end.
Definition delivered (w : world) : list (list Z) := omap payload_of (out w).

(** Programs that deliver nothing. *)
Definition nodata {A} (m : M A) : Prop := ∀ w, delivered (m w).2 = delivered w.

Lemma nodata_bind {A B} (m : M A) (f : A → M B) :
  nodata m → (∀ a, nodata (f a)) → nodata (m ≫= f).
Proof. intros Hm Hf w. unfold mbind, ST_bind. by rewrite Hf, Hm. Qed.

Lemma nodata_ret {A} (a : A) : nodata (mret a : M A).
Proof. done. Qed.

Lemma nodata_gets {A} (f : world → A) : nodata (gets f).
Proof. done. Qed.

Lemma nodata_skip : nodata skip.
Proof. done. Qed.

Lemma nodata_upd f : nodata (upd f).
Proof. done. Qed.

Lemma nodata_next_tick : nodata next_tick.
Proof. done. Qed.

Lemma nodata_emit e : payload_of e = None → nodata (emit e).
Proof.
  intros He w. unfold delivered. simpl. rewrite omap_app. simpl. rewrite He.
  by rewrite app_nil_r.
Qed.

Create HintDb nodata discriminated.
#[export] Hint Constants Opaque : nodata.
#[export] Hint Resolve nodata_ret nodata_gets nodata_skip nodata_upd nodata_next_tick : nodata.

Ltac nodata_tac :=
  repeat lazymatch goal with
  | |- nodata (mbind _ _) => apply nodata_bind; [|intros ?]
  | |- nodata (when ?b _) => destruct b; simpl
  | |- nodata (emit _) => apply nodata_emit; reflexivity
  | |- nodata (if ?b then _ else _) => destruct b
  | |- nodata (match ?b with _ => _ end) => destruct b
  | |- nodata _ => solve [eauto 2 with nodata nocore]
  end.

Section nodata.
Context `{LapbEnv}.

Lemma nodata_kfree_skb skb : nodata (kfree_skb skb).
Proof. unfold kfree_skb. nodata_tac. Qed.
#[local] Hint Resolve nodata_kfree_skb : nodata.

Lemma nodata_free_all q : nodata (free_all q).
Proof. induction q; simpl; nodata_tac. Qed.

Lemma nodata_start_t1 : nodata lapb_start_t1timer.
Proof. unfold lapb_start_t1timer. nodata_tac. Qed.

Lemma nodata_start_t2 : nodata lapb_start_t2timer.
Proof. unfold lapb_start_t2timer. nodata_tac. Qed.

Lemma nodata_stop_t1 : nodata lapb_stop_t1timer.
Proof. unfold lapb_stop_t1timer. nodata_tac. Qed.

Lemma nodata_stop_t2 : nodata lapb_stop_t2timer.
Proof. unfold lapb_stop_t2timer. nodata_tac. Qed.

Lemma nodata_transmit_buffer skb ty : nodata (lapb_transmit_buffer skb ty).
Proof. unfold lapb_transmit_buffer, lapb_data_transmit. nodata_tac. Qed.
#[local] Hint Resolve nodata_free_all nodata_start_t1 nodata_start_t2 nodata_stop_t1
  nodata_stop_t2 nodata_transmit_buffer : nodata.

Lemma nodata_send_iframe skb p : nodata (lapb_send_iframe skb p).
Proof. unfold lapb_send_iframe. nodata_tac. Qed.

Lemma nodata_send_control ft p ty : nodata (lapb_send_control ft p ty).
Proof. unfold lapb_send_control. nodata_tac. Qed.

Lemma nodata_transmit_frmr : nodata lapb_transmit_frmr.
Proof. unfold lapb_transmit_frmr. nodata_tac. Qed.

Lemma nodata_running : nodata lapb_t1timer_running.
Proof. unfold lapb_t1timer_running. nodata_tac. Qed.
#[local] Hint Resolve nodata_send_iframe nodata_send_control nodata_transmit_frmr nodata_running : nodata.

Lemma nodata_kick_loop e skb wq : nodata (kick_loop e skb wq).
Proof.
  revert skb. induction wq as [|skb' wq IH]; intros skb; simpl; nodata_tac.
Qed.
#[local] Hint Resolve nodata_kick_loop : nodata.

Lemma nodata_kick : nodata lapb_kick.
Proof. unfold lapb_kick. nodata_tac. Qed.

Lemma nodata_clear_queues : nodata lapb_clear_queues.
Proof. unfold lapb_clear_queues. nodata_tac. Qed.

Lemma nodata_frames_acked n : nodata (lapb_frames_acked n).
Proof.
  unfold lapb_frames_acked. apply nodata_bind; [nodata_tac|]. intros c.
  destruct (negb _); simpl; [|nodata_tac]. generalize (ack_queue c) as q.
  induction q as [|skb q IH]; simpl; nodata_tac.
Qed.

Lemma nodata_requeue : nodata lapb_requeue_frames.
Proof.
  unfold lapb_requeue_frames. apply nodata_bind; [nodata_tac|]. intros c.
  generalize (ack_queue c) as q. generalize (@None nat) as p. intros p q. revert p.
  induction q as [|skb q IH]; intros p; simpl; nodata_tac.
Qed.
#[local] Hint Resolve nodata_kick nodata_clear_queues nodata_frames_acked nodata_requeue : nodata.

Lemma nodata_check_iframes_acked n : nodata (lapb_check_iframes_acked n).
Proof. unfold lapb_check_iframes_acked. nodata_tac. Qed.

Lemma nodata_enquiry_response : nodata lapb_enquiry_response.
Proof. unfold lapb_enquiry_response, clear_ack_pending. nodata_tac. Qed.
#[local] Hint Resolve nodata_check_iframes_acked nodata_enquiry_response : nodata.

Lemma nodata_check_need_response ty p : nodata (lapb_check_need_response ty p).
Proof. unfold lapb_check_need_response. nodata_tac. Qed.

Lemma nodata_link_up : nodata link_up.
Proof. unfold link_up, reset_variables. nodata_tac. Qed.

Lemma nodata_disconnect_indication r : nodata (lapb_disconnect_indication r).
Proof. unfold lapb_disconnect_indication. nodata_tac. Qed.

Lemma nodata_disconnect_confirmation r : nodata (lapb_disconnect_confirmation r).
Proof. unfold lapb_disconnect_confirmation. nodata_tac. Qed.

Lemma nodata_nr_valid n : nodata (nr_valid n).
Proof. unfold nr_valid. nodata_tac. Qed.
#[local] Hint Resolve nodata_check_need_response nodata_link_up nodata_disconnect_indication
  nodata_disconnect_confirmation nodata_nr_valid : nodata.

Lemma nodata_accept_link f : nodata (accept_link f).
Proof. unfold accept_link, lapb_connect_indication. nodata_tac. Qed.

Lemma nodata_frame_reject f ty : nodata (frame_reject f ty).
Proof. unfold frame_reject. nodata_tac. Qed.

Lemma nodata_I_reject f : nodata (state3_I_reject f).
Proof. unfold state3_I_reject, clear_ack_pending. nodata_tac. Qed.
#[local] Hint Resolve nodata_accept_link nodata_frame_reject nodata_I_reject : nodata.

Lemma nodata_state0 skb f : nodata (lapb_state0_machine skb f).
Proof. unfold lapb_state0_machine. nodata_tac. Qed.

Lemma nodata_state1 skb f : nodata (lapb_state1_machine skb f).
Proof. unfold lapb_state1_machine, lapb_connect_confirmation. nodata_tac. Qed.

Lemma nodata_state2 skb f : nodata (lapb_state2_machine skb f).
Proof. unfold lapb_state2_machine. nodata_tac. Qed.

Lemma nodata_state4 skb f : nodata (lapb_state4_machine skb f).
Proof. unfold lapb_state4_machine. nodata_tac. Qed.

(** Every frame but an I frame. *)
Lemma nodata_state3_other skb f :
  type f ≠ LAPB_I → nodata (lapb_state3_machine skb f).
Proof.
  intros Hne. unfold lapb_state3_machine. apply nodata_bind; [|intros; nodata_tac].
  unfold not_queued, state3_SABM, state3_SABME, state3_reset, reset_variables, state3_DISC,
    state3_DM, state3_RNR, state3_RR, state3_REJ, set_peer_busy, clear_peer_busy, state3_FRMR,
    lapb_establish_data_link.
  apply Z.eqb_neq in Hne. rewrite Hne. nodata_tac.
Qed.
End nodata.

#[export] Hint Resolve nodata_kfree_skb nodata_start_t1 nodata_start_t2 nodata_stop_t1
  nodata_stop_t2 nodata_send_control nodata_kick nodata_clear_queues nodata_frames_acked
  nodata_requeue nodata_check_iframes_acked nodata_enquiry_response nodata_frame_reject : nodata.

(** * In-sequence delivery *)

(** The conditions under which the code hands the frame on. *)
Definition accepts (c : lapb_cb) (f : lapb_frame) : bool :=
  (type f =? LAPB_I) && default false (lapb_validate_nr c (nr f)) && (ns f =? vr c).

Section delivery.
Context `{LapbEnv}.

Lemma data_indication_delivered skb w :
  delivered (lapb_data_indication skb w).2 =
    delivered w ++ (if data_indication (callbacks (cb w)) then [skb_data skb] else []).
Proof.
  unfold lapb_data_indication, mbind, ST_bind. simpl.
  destruct (data_indication (callbacks (cb w))).
  - unfold delivered. simpl. by rewrite omap_app.
  - rewrite app_nil_r. apply (nodata_kfree_skb skb w).
Qed.

Lemma I_accept_delivered skb f w :
  delivered (state3_I_accept skb f w).2 =
    delivered w ++ (if data_indication (callbacks (cb w)) then [skb_data skb] else []).
Proof.
  unfold state3_I_accept, mbind at 1, ST_bind at 1.
  rewrite <-data_indication_delivered.
  generalize (lapb_data_indication skb w) as r. intros [cn w1]. simpl.
  assert (Hn : nodata (if cn =? NET_RX_DROP then skip else
    upd (λ c, set_vr ((vr c + 1) mod modulus c) c);;
    upd (λ c, set_condition (condition c &~ LAPB_REJECT_CONDITION) c);;
    if negb (pf f =? 0) then lapb_enquiry_response
    else
      c ← gets cb;
      when (negb (condition c & LAPB_ACK_PENDING_CONDITION)) (
        upd (λ c, set_condition (Z.lor (condition c) LAPB_ACK_PENDING_CONDITION) c);;
        lapb_start_t2timer))); [|apply Hn].
  nodata_tac.
Qed.

(** Acknowledgement processing touches neither V(R) nor the callbacks. *)
Lemma ack_part_keeps (b : bool) n c :
  hoare (at_cb c) (if b then lapb_frames_acked n else lapb_check_iframes_acked n)
    (λ _, on_cb (λ c', vr c' = vr c ∧ callbacks c' = callbacks c ∧ mode c' = mode c)).
Proof.
  set (P c' := vr c' = vr c ∧ callbacks c' = callbacks c ∧ mode c' = mode c).
  assert (Hf : preserves (on_cb P) (lapb_frames_acked n)).
  { apply preserves_frames_acked; by intros. }
  assert (Hp : preserves (on_cb P) (if b then lapb_frames_acked n else lapb_check_iframes_acked n)).
  { unfold lapb_check_iframes_acked, lapb_stop_t1timer, lapb_start_t1timer.
    lapb_tac; first [exact Hf|exact Hc]. }
  intros w Hw. apply Hp. unfold on_cb in *. by rewrite <-Hw.
Qed.

Lemma state3_I_delivered skb f w :
  delivered (state3_I skb f w).2 =
    delivered w ++
    (if default false (lapb_validate_nr (cb w) (nr f)) && (ns f =? vr (cb w)) &&
        data_indication (callbacks (cb w)) then [skb_data skb] else []).
Proof.
  unfold state3_I. unfold mbind at 1, ST_bind at 1. unfold nr_valid. simpl.
  destruct (default false _); simpl.
  2: { rewrite app_nil_r. apply (nodata_frame_reject f LAPB_FRMR_Z w). }
  unfold mbind at 1, ST_bind at 1. simpl. unfold mbind at 1, ST_bind at 1.
  set (m := if condition (cb w) & _ then _ else _).
  destruct (ack_part_keeps (condition (cb w) & LAPB_PEER_RX_BUSY_CONDITION) (nr f) (cb w) w eq_refl)
    as (Hvr&Hcb&_).
  assert (Hd : nodata m).
  { unfold m. case_match; [apply nodata_frames_acked|apply nodata_check_iframes_acked]. }
  fold m in Hvr, Hcb. specialize (Hd w). set (w1 := (m w).2) in *.
  unfold mbind at 1, ST_bind at 1. simpl. rewrite Hvr.
  destruct (ns f =? vr (cb w)); cbn [andb].
  - rewrite <-Hd, <-Hcb. apply (I_accept_delivered skb f w1).
  - rewrite app_nil_r, <-Hd. apply (nodata_I_reject f w1).
Qed.

Lemma state3_machine_I skb f w :
  type f = LAPB_I →
  lapb_state3_machine skb f w =
    when (negb (state3_I skb f w).1) (kfree_skb skb) (state3_I skb f w).2.
Proof. intros Ht. unfold lapb_state3_machine. by rewrite Ht. Qed.

Lemma data_input_delivered f0 skb w :
  let r := lapb_decode (mode (cb w)) skb f0 in
  delivered (lapb_data_input f0 skb w).2 =
    delivered w ++
    (if bool_decide (state (cb w) = LAPB_STATE_3) && accepts (cb w) r.1 &&
        data_indication (callbacks (cb w)) then [skb_data r.2] else []).
Proof.
  unfold lapb_data_input, mbind at 1, ST_bind at 1. simpl.
  destruct (lapb_decode (mode (cb w)) skb f0) as [f skb']. simpl.
  unfold mbind at 1, ST_bind at 1. rewrite (nodata_kick _).
  destruct (state (cb w)) eqn:Hs; cbn [bool_decide decide andb]; rewrite ?app_nil_r.
  - exact (nodata_state0 skb' f w).
  - exact (nodata_state1 skb' f w).
  - exact (nodata_state2 skb' f w).
  - unfold accepts. destruct (Z.eqb_spec (type f) LAPB_I) as [Ht|Ht]; simpl.
    + rewrite (state3_machine_I _ _ _ Ht), <-(state3_I_delivered skb' f w).
      destruct (negb _); [apply nodata_kfree_skb|done].
    + rewrite app_nil_r. by apply nodata_state3_other.
  - exact (nodata_state4 skb' f w).
Qed.
(** V(R) follows the accepted frames. *)
Lemma I_accept_vr skb f c :
  (∀ n p, rx_result n p ≠ NET_RX_DROP) →
  hoare (at_cb c) (state3_I_accept skb f) (λ _, on_cb (λ c', vr c' = (vr c + 1) mod modulus c)).
Proof.
  intros Hrx. unfold state3_I_accept.
  eapply (hoare_bind _ _ (λ cn w, cn ≠ NET_RX_DROP ∧ at_cb c w)).
  { intros w Hw. split; [|by apply (exec_quiet c (lapb_data_indication skb)); [apply quiet_data_indication|]].
    unfold lapb_data_indication, mbind, ST_bind. simpl. case_match; [apply Hrx|done]. }
  intros cn. apply hoare_pure. intros Hcn. apply Z.eqb_neq in Hcn. rewrite Hcn. exec. set (P c' := vr c' = (vr c + 1) mod modulus c).
  eapply hoare_pre; [|apply (hoare_preserves (on_cb P))].
  - intros w Hw. unfold on_cb in *. by rewrite <-Hw.
  - unfold lapb_enquiry_response, clear_ack_pending, lapb_start_t2timer. lapb_tac; exact Hc.
Qed.

Lemma state3_I_vr skb f c :
  (∀ n p, rx_result n p ≠ NET_RX_DROP) →
  hoare (at_cb c) (state3_I skb f)
    (λ _, on_cb (λ c', state c' = LAPB_STATE_3 →
       vr c' = if default false (lapb_validate_nr c (nr f)) && (ns f =? vr c)
               then (vr c + 1) mod modulus c else vr c)).
Proof.
  intros Hrx. unfold state3_I. apply exec_nr_valid.
  destruct (default false _); cbn [negb andb].
  2: { eapply hoare_bind; [apply (frame_reject_leaves f LAPB_FRMR_Z)|]. intros [] w Hw E.
       unfold on_cb in Hw. simpl in E. congruence. }
  exec. eapply hoare_bind; [apply ack_part_keeps|]. intros []. apply exec_at.
  intros c1 (Hvr&_&Hm). exec. rewrite Hvr. destruct (ns f =? vr c).
  - eapply hoare_bind; [by apply I_accept_vr|]. intros [] w Hw _. unfold on_cb in *. simpl.
    by rewrite Hw, Hvr, Hm.
  - set (P c' := vr c' = vr c). apply (hoare_post _ _ _ (λ _, on_cb P)); [by intros ? ? ? _|].
    eapply hoare_pre; [|apply (hoare_preserves (on_cb P))].
    + intros w Hw. unfold on_cb in *. by rewrite <-Hw.
    + unfold state3_I_reject, lapb_enquiry_response, clear_ack_pending. lapb_tac; exact Hc.
Qed.

Lemma kick_keeps_vr v : preserves (on_cb (λ c, vr c = v)) lapb_kick.
Proof.
  assert (∀ e skb wq, preserves (on_cb (λ c, vr c = v)) (kick_loop e skb wq)).
  { intros. apply preserves_kick_loop; by intros. }
  unfold lapb_kick, lapb_start_t1timer. lapb_tac; first [assumption|exact Hc|auto].
Qed.
End delivery.
