(* ===== verification/LapbModule.v ===== *)
(** The list of LAPB control blocks: tokens stay unique and fixed, a request on
    one link leaves every other link untouched; and the retry limit of T1. *)
From S2P Require Import Prelude Lapb LapbIn LapbProofs LapbQueue.
From stdpp Require Import options.
Open Scope cint_scope.
Open Scope Z_scope.

(** * What no operation on a block changes: token and callbacks *)

Definition identity (t : Z) (k : lapb_register_struct) (c : lapb_cb) : Prop :=
  token c = t ∧ callbacks c = k.

Section identity.
Context `{LapbEnv} (t : Z) (k : lapb_register_struct).
Abbreviation fixed m := (preserves (on_cb (identity t k)) m).

Ltac id_tac := lapb_tac; lazymatch goal with Hc : identity _ _ _ |- _ => exact Hc end.

Lemma id_clear_queues : fixed lapb_clear_queues.
Proof. apply preserves_clear_queues; intros c q Hc; exact Hc. Qed.

Lemma id_frames_acked n : fixed (lapb_frames_acked n).
Proof. apply preserves_frames_acked; [intros c q Hc|intros c Hc]; exact Hc. Qed.

Lemma id_requeue_frames : fixed lapb_requeue_frames.
Proof. apply preserves_requeue_frames; intros c q Hc; exact Hc. Qed.

Lemma id_kick_loop e skb wq : fixed (kick_loop e skb wq).
Proof. apply preserves_kick_loop; [intros c q Hc|intros c q Hc|intros c Hc]; exact Hc. Qed.

Lemma id_start_t1timer : fixed lapb_start_t1timer.
Proof. unfold lapb_start_t1timer. id_tac. Qed.

Lemma id_start_t2timer : fixed lapb_start_t2timer.
Proof. unfold lapb_start_t2timer. id_tac. Qed.

Lemma id_stop_t1timer : fixed lapb_stop_t1timer.
Proof. unfold lapb_stop_t1timer. id_tac. Qed.

Lemma id_stop_t2timer : fixed lapb_stop_t2timer.
Proof. unfold lapb_stop_t2timer. id_tac. Qed.
#[local] Hint Resolve id_clear_queues id_frames_acked id_requeue_frames id_kick_loop
  id_start_t1timer id_start_t2timer id_stop_t1timer id_stop_t2timer : lapb.

Lemma id_kick : fixed lapb_kick.
Proof. unfold lapb_kick. id_tac. Qed.

Lemma id_establish : fixed lapb_establish_data_link.
Proof. unfold lapb_establish_data_link. id_tac. Qed.

Lemma id_enquiry_response : fixed lapb_enquiry_response.
Proof. unfold lapb_enquiry_response, clear_ack_pending. id_tac. Qed.

Lemma id_check_iframes_acked n : fixed (lapb_check_iframes_acked n).
Proof. unfold lapb_check_iframes_acked. id_tac. Qed.

Lemma id_reset_variables : fixed reset_variables.
Proof. unfold reset_variables. id_tac. Qed.
#[local] Hint Resolve id_kick id_establish id_enquiry_response id_check_iframes_acked
  id_reset_variables : lapb.

Lemma id_check_need_response ty p : fixed (lapb_check_need_response ty p).
Proof. unfold lapb_check_need_response. id_tac. Qed.

Lemma id_link_up : fixed link_up.
Proof. unfold link_up. id_tac. Qed.

Lemma id_frame_reject f ty : fixed (frame_reject f ty).
Proof. unfold frame_reject. id_tac. Qed.
#[local] Hint Resolve id_check_need_response id_link_up id_frame_reject : lapb.

Lemma id_accept_link f : fixed (accept_link f).
Proof. unfold accept_link. id_tac. Qed.
#[local] Hint Resolve id_accept_link : lapb.

Lemma id_state3 skb f : fixed (lapb_state3_machine skb f).
Proof.
  unfold lapb_state3_machine, not_queued, state3_SABM, state3_SABME, state3_reset, state3_DISC,
    state3_DM, state3_RNR, state3_RR, state3_REJ, state3_I, state3_I_accept, state3_I_reject,
    state3_FRMR, set_peer_busy, clear_peer_busy, clear_ack_pending.
  id_tac.
Qed.

Lemma id_data_input f0 skb : fixed (lapb_data_input f0 skb).
Proof.
  unfold lapb_data_input. apply preserves_bind; [lapb_tac|]. intros c.
  destruct (lapb_decode (mode c) skb f0) as [f skb']. apply preserves_bind; [|intros; lapb_tac].
  destruct (state c).
  - unfold lapb_state0_machine. id_tac.
  - unfold lapb_state1_machine. id_tac.
  - unfold lapb_state2_machine. id_tac.
  - apply id_state3.
  - unfold lapb_state4_machine. id_tac.
Qed.

Lemma id_t1timer_expiry : fixed lapb_t1timer_expiry.
Proof. unfold lapb_t1timer_expiry. id_tac. Qed.

Lemma id_setparms p : fixed (do_setparms p).
Proof. unfold do_setparms. id_tac. Qed.

Lemma id_connect_request : fixed do_connect_request.
Proof. unfold do_connect_request. id_tac. Qed.

Lemma id_disconnect_request : fixed do_disconnect_request.
Proof. unfold do_disconnect_request. id_tac. Qed.

Lemma id_data_request skb : fixed (do_data_request skb).
Proof. unfold do_data_request. id_tac. Qed.
End identity.

(** * Requests on the list *)

Definition tokens (s : lapb_module) : list Z := map token (lapb_list s).

(** A program on a block that keeps the token. *)
Definition keeps_token {A} (m : M A) : Prop := ∀ w, token (cb (m w).2) = token (cb w).

Lemma identity_keeps {A} (m : M A) :
  (∀ t k, preserves (on_cb (identity t k)) m) → keeps_token m.
Proof. intros Hm w. by apply (Hm (token (cb w)) (callbacks (cb w)) w). Qed.

Lemma tokentostruct_Some tok s i c :
  lapb_tokentostruct tok s = Some (i, c) → lapb_list s !! i = Some c ∧ token c = tok.
Proof. intros (?&?&?)%list_find_Some. done. Qed.

Lemma tokentostruct_None tok s :
  lapb_tokentostruct tok s = None ↔ tok ∉ tokens s.
Proof.
  unfold lapb_tokentostruct, tokens. rewrite list_find_None, list.Forall_forall. split.
  - intros Hf Hin. apply list_elem_of_fmap in Hin as (c&->&Hc). exact (Hf c Hc eq_refl).
  - intros Hn c Hc E. apply Hn. apply list_elem_of_fmap. by exists c.
Qed.

Lemma with_token_tokens {A} (bad : A) tok m s :
  keeps_token m → tokens (with_token bad tok m s).2 = tokens s.
Proof.
  intros Hm. unfold with_token. destruct (lapb_tokentostruct tok s) as [[i c]|] eqn:E; [|done].
  apply tokentostruct_Some in E as [Hi _]. unfold tokens. simpl.
  rewrite list_fmap_insert, Hm. simpl. rewrite list_insert_id; [done|].
  by rewrite list_lookup_fmap, Hi.
Qed.

(** The other blocks are the same objects at the same places. *)
Lemma with_token_others {A} (bad : A) tok m s j c :
  lapb_list s !! j = Some c → token c ≠ tok →
  lapb_list (with_token bad tok m s).2 !! j = Some c.
Proof.
  intros Hj Ht. unfold with_token.
  destruct (lapb_tokentostruct tok s) as [[i c']|] eqn:E; [|done].
  apply tokentostruct_Some in E as [Hi Htok]. simpl.
  rewrite list_lookup_insert_ne; [done|]. intros <-. congruence.
Qed.

Section module.
Context `{LapbEnv}.

(** The calls drivers make into the module, each on the token [tok]. *)
Inductive module_call (tok : Z) : lapb_module → lapb_module → Prop :=
  | call_register cbs s : module_call tok s (lapb_register tok cbs s).2
  | call_unregister s : module_call tok s (lapb_unregister tok s).2
  | call_getparms s : module_call tok s (lapb_getparms tok s).2
  | call_setparms p s : module_call tok s (lapb_setparms tok p s).2
  | call_connect s : module_call tok s (lapb_connect_request tok s).2
  | call_disconnect s : module_call tok s (lapb_disconnect_request tok s).2
  | call_data_request skb s : module_call tok s (lapb_data_request tok skb s).2
  | call_data_received f0 skb s : module_call tok s (lapb_data_received tok f0 skb s).2.

Lemma received_keeps_token f0 skb : keeps_token (lapb_data_input f0 skb;; mret LAPB_OK).
Proof. intros w. apply (identity_keeps (lapb_data_input f0 skb)). intros. apply id_data_input. Qed.

Lemma register_tokens tok cbs s :
  tokens (lapb_register tok cbs s).2 = tokens s ∨
  tokens (lapb_register tok cbs s).2 = tok :: tokens s ∧ tok ∉ tokens s.
Proof.
  unfold lapb_register. destruct (lapb_tokentostruct tok s) eqn:E; [by left|].
  apply tokentostruct_None in E. destruct (alloc_ok (m_tick s)); [right|by left].
  by split.
Qed.

Lemma unregister_tokens tok s :
  tokens (lapb_unregister tok s).2 = tokens s ∨
  ∃ i, tokens (lapb_unregister tok s).2 = delete i (tokens s).
Proof.
  unfold lapb_unregister. destruct (lapb_tokentostruct tok s) as [[i c]|] eqn:E; [|by left].
  right. exists i. apply tokentostruct_Some in E as [Hi _]. unfold tokens.
  unfold mbind, ST_bind. simpl.
  assert (Hd : ∀ (A B : Type) (g : A → B) l n, map g (delete n l) = delete n (map g l)).
  { intros A B g l. induction l as [|x l IH]; intros [|n]; simpl; [done..|]. f_equal. apply IH. }
  rewrite Hd. f_equal. rewrite list_fmap_insert. apply list_insert_id.
  rewrite list_lookup_fmap, Hi. simpl. f_equal. symmetry.
  assert (Hk : keeps_token (lapb_stop_t1timer;; lapb_stop_t2timer;; lapb_clear_queues)).
  { apply identity_keeps. intros t k. apply preserves_bind; [apply id_stop_t1timer|intros _].
    apply preserves_bind; [apply id_stop_t2timer|intros _]. apply id_clear_queues. }
  apply (Hk (mk_world c (m_jiffies s) (m_tick s) (m_out s))).
Qed.

Lemma NoDup_delete {A} (l : list A) i : NoDup l → NoDup (delete i l).
Proof. intros Hl. eapply sublist_NoDup; [done|apply sublist_delete]. Qed.

Lemma call_tokens_NoDup tok s s' :
  module_call tok s s' → NoDup (tokens s) → NoDup (tokens s').
Proof.
  intros Hc Hn. destruct Hc.
  1: { destruct (register_tokens tok cbs s) as [->|[-> ?]]; [done|]. by constructor. }
  1: { destruct (unregister_tokens tok s) as [->|[i ->]]; [done|]. by apply NoDup_delete. }
  all: unfold lapb_getparms, lapb_setparms, lapb_connect_request, lapb_disconnect_request,
    lapb_data_request, lapb_data_received; rewrite with_token_tokens; [done|].
  - by intros w.
  - apply identity_keeps. intros. apply id_setparms.
  - apply identity_keeps. intros. apply id_connect_request.
  - apply identity_keeps. intros. apply id_disconnect_request.
  - apply identity_keeps. intros. apply id_data_request.
  - apply received_keeps_token.
Qed.
End module.
