(* ===== verification/LapbThms.v ===== *)
(** The LAPB theorems: invariants of every reachable link, termination of the
    N(R) check, queue discipline, the frame codec round trips, in-sequence
    delivery, the retry limit, isolation of links, and the stale acknowledgement
    queue a link reset can leave behind. *)
From S2P Require Import Prelude Lapb LapbIn LapbProofs LapbQueue LapbDeliver LapbModule.
From stdpp Require Import options.
Open Scope cint_scope.
Open Scope Z_scope.

(** * Reachable links *)

(** An environment in which every allocation succeeds and nothing is congested. *)
Definition calm_env : LapbEnv := {| alloc_ok _ := true; rx_result _ _ := 0 |}.

Definition all_callbacks : lapb_register_struct := mk_callbacks true true true true true true.

(** A link right after [lapb_register] with token 1. *)
Definition link0 : world :=
  mk_world (set_t1timer (Some 500) (set_callbacks all_callbacks (set_token 1 lapb_create_cb))) 0 1 [].

Lemma link0_initial : lapb_initial link0.
Proof. by exists 1, all_callbacks, 500. Qed.

Definition stack0 : lapb_frame := mk_frame 0 0 0 0 0 0 0.

(** The link after a SABM from the peer: data transfer state. *)
Definition link3 : world :=
  (@lapb_data_input calm_env stack0 (skb_fresh [LAPB_ADDR_A; 0x3F]) link0).2.

Lemma link3_reachable : @lapb_reachable calm_env link3.
Proof.
  exists link0. split; [apply link0_initial|].
  apply rtc_once. apply (@step_receive calm_env).
Qed.

Lemma link3_connected : state (cb link3) = LAPB_STATE_3.
Proof. vm_compute. reflexivity. Qed.

Section theorems.
Context `{LapbEnv}.

(** C1: in every link state that register, requests, received frames (any bytes),
    timer expiries and parameter changes can reach, the window lies between 1
    and the modulus, and while connected (states 3 and 4) V(A), V(S) and V(R)
    are below the modulus, so that the control bytes carry them unchanged. *)
Theorem lapb_reachable_bounds w :
  lapb_reachable w →
  1 <= window (cb w) < modulus (cb w) ∧
  (connected (cb w) → seq_ok (cb w)).
Proof. apply inv_reachable. Qed.

(** C2: on every reachable connected link the unbounded [while (vc != lapb->vs)]
    loop of [lapb_validate_nr] ends for any N(R), and for an N(R) below the
    modulus it accepts exactly the numbers cyclically between V(A) and V(S). *)
Theorem lapb_validate_nr_correct w n :
  lapb_reachable w → connected (cb w) →
  is_Some (lapb_validate_nr (cb w) n) ∧
  (0 <= n < modulus (cb w) →
   lapb_validate_nr (cb w) n =
     Some (cdist (modulus (cb w)) (va (cb w)) n
           <=? cdist (modulus (cb w)) (va (cb w)) (vs (cb w)))).
Proof.
  intros Hr Hc. apply inv_reachable in Hr as [_ Hs]. specialize (Hs Hc). split.
  - destruct Hs as (?&?&?). apply validate_loop_total; [apply modulus_pos|done|done|].
    apply validate_fuel_enough.
  - intros Hn. by apply validate_nr_spec.
Qed.

(** * Queue discipline *)

Lemma decode_nr_bound m skb f0 :
  carries_nr (lapb_decode m skb f0).1 = true →
  0 <= nr (lapb_decode m skb f0).1 < modulus_of m.
Proof.
  assert (Hm : ∀ x k, 0 <= k → 0 <= Z.land x (2 ^ k - 1) < 2 ^ k).
  { intros x k Hk. replace (2 ^ k - 1) with (Z.ones k) by (rewrite Z.ones_equiv; lia).
    rewrite Z.land_ones by done. by apply Z.mod_pos_bound, Z.pow_pos_nonneg. }
  unfold lapb_decode, modulus_of, LAPB_EMODULUS, LAPB_SMODULUS, carries_nr.
  assert (Hu : ∀ x, (Z.land x LAPB_U =? 3) = true → ∀ t, Z.testbit t 1 = false →
                 (x &~ LAPB_SPF =? t) = false).
  { intros x Hx t Ht. apply Z.eqb_neq. intros <-. apply Z.eqb_eq in Hx.
    apply (f_equal (λ z, Z.testbit z 1)) in Hx. rewrite Z.land_spec in Hx.
    change (Z.testbit LAPB_U 1) with true in Hx. change (Z.testbit 3 1) with true in Hx.
    unfold clear_bits in Ht. rewrite Z.land_spec in Ht.
    change (Z.testbit (Z.lnot LAPB_SPF) 1) with true in Ht.
    rewrite andb_true_r in Hx, Ht. rewrite Ht in Hx. done. }
  destruct (m & LAPB_EXTENDED); simpl.
  all: repeat case_match; simpl; intros Hc;
    try solve [apply (Hm _ 7); lia|apply (Hm _ 3); lia|done].
  all: exfalso; revert Hc; rewrite !Hu by done; done.
Qed.

Lemma data_input_state3 f0 skb w :
  state (cb w) = LAPB_STATE_3 →
  lapb_data_input f0 skb w =
    let r := lapb_decode (mode (cb w)) skb f0 in
    lapb_kick (lapb_state3_machine r.2 r.1 w).2.
Proof.
  intros H3. unfold lapb_data_input, mbind, ST_bind. simpl.
  destruct (lapb_decode (mode (cb w)) skb f0) as [f' skb']. by rewrite H3.
Qed.

Lemma data_input_queue f0 skb w :
  link_inv (cb w) → state (cb w) = LAPB_STATE_3 → ack_ok (cb w) →
  let f := (lapb_decode (mode (cb w)) skb f0).1 in
  let c' := cb (lapb_data_input f0 skb w).2 in
  state c' = LAPB_STATE_3 →
  pending c' = drop (acks (cb w) f) (pending (cb w)) ∧ ack_ok c'.
Proof.
  intros Hi H3 Ha f. pose proof (decode_nr_bound (mode (cb w)) skb f0) as Hn. fold f in Hn.
  rewrite (data_input_state3 f0 skb w H3). fold f.
  set (skb' := (lapb_decode (mode (cb w)) skb f0).2).
  pose proof (state3_machine_queue skb' f (cb w) (conj Hi H3) Ha Hn w eq_refl) as Hq.
  pose proof (sound3_machine skb' f w (conj Hi H3)) as Hi'.
  set (w1 := (lapb_state3_machine skb' f w).2) in *.
  cbv zeta. intros H3'. assert (H31 : state (cb w1) = LAPB_STATE_3).
  { pose proof (keeps_kick (state (cb w1)) w1 eq_refl) as E. unfold on_cb, in_state in E.
    rewrite <-E. exact H3'. }
  destruct (Hq H31) as [Hp Hk].
  destruct (kick_spec (cb w1) Hi' ltac:(apply Hi'; by left) Hk w1 eq_refl) as (Hp'&Hk'&_).
  split; [|exact Hk']. etrans; [exact Hp'|exact Hp].
Qed.

(** A frame received in the data transfer state that leaves the link there
    releases exactly the frames its N(R) acknowledges: the frames still owed to
    the peer are the old ones without that prefix, in order, whatever was
    retransmitted or newly sent meanwhile, and the unacknowledged ones number
    V(S) - V(A) and at most the window. *)
Theorem lapb_data_input_queue f0 skb w :
  link_inv (cb w) → state (cb w) = LAPB_STATE_3 → ack_ok (cb w) →
  let f := (lapb_decode (mode (cb w)) skb f0).1 in
  let c' := cb (lapb_data_input f0 skb w).2 in
  state c' = LAPB_STATE_3 →
  pending c' = drop (acks (cb w) f) (pending (cb w)) ∧ ack_ok c'.
Proof. apply data_input_queue. Qed.

Lemma t1_expiry_ack_ok c :
  state c = LAPB_STATE_3 →
  hoare (at_cb c) lapb_t1timer_expiry (λ _, on_cb (λ c', state c' = LAPB_STATE_3 → ack_ok c')).
Proof.
  intros H3. unfold lapb_t1timer_expiry. exec. rewrite H3.
  destruct (n2count c =? n2 c).
  - eapply hoare_post; [|apply forget_first; intros ?; apply (jump_then LAPB_STATE_0); intros; keep_tac].
    intros a w Hw E. unfold on_cb, in_state in Hw. congruence.
  - exec. eapply hoare_bind; [apply requeue_released|]. intros [].
    eapply hoare_pre; [|apply hoare_preserves; unfold lapb_start_t1timer; lapb_tac; exact Hc].
    by intros w [_ ?] _.
Qed.


(** * The frame codec *)

(** The modes of the two ends of one link: same modulus and procedure, one DCE. *)
Definition peers (m1 m2 : Z) : Prop :=
  (m1 & LAPB_EXTENDED) = (m2 & LAPB_EXTENDED) ∧ (m1 & LAPB_MLP) = (m2 & LAPB_MLP) ∧
  (m1 & LAPB_DCE) = negb (m2 & LAPB_DCE).

Lemma decode_cr_address m1 m2 ty cr0 :
  peers m1 m2 → ty = LAPB_COMMAND ∨ ty = LAPB_RESPONSE →
  decode_cr m2 (lapb_address m1 ty) cr0 = ty.
Proof.
  intros (_&Hm&Hd) Hty. unfold decode_cr, lapb_address. rewrite Hm, Hd.
  destruct (m2 & LAPB_MLP), (m2 & LAPB_DCE), Hty as [->| ->]; done.
Qed.

(** The poll/final bit of a control byte. *)
Definition pbit (poll_bit bit : Z) : Z := if poll_bit =? 0 then 0 else bit.

Lemma pbit_spec p b : b ≠ 0 → pbit p b ≠ 0 ↔ p ≠ 0.
Proof. intros Hb. unfold pbit. destruct (Z.eqb_spec p 0); naive_solver. Qed.

(** Extended mode: the byte [v << 1 | p]. *)
Lemma ext_byte v p :
  0 <= v < 128 →
  let d := u8 (Z.lor (Z.shiftl v 1) (pbit p LAPB_EPF)) in
  Z.land d LAPB_EPF = pbit p LAPB_EPF ∧ Z.land (Z.shiftr d 1) 0x7F = v.
Proof.
  intros Hv. unfold pbit.
  set (chk b v := (Z.land (u8 (Z.lor (Z.shiftl v 1) b)) LAPB_EPF =? b) &&
                  (Z.land (Z.shiftr (u8 (Z.lor (Z.shiftl v 1) b)) 1) 0x7F =? v)).
  assert (chk 0 v = true) by (by apply (check_below 128)).
  assert (chk LAPB_EPF v = true) by (by apply (check_below 128)).
  unfold chk in *. to_prop. by destruct (p =? 0).
Qed.

(** Standard mode: the byte [r << 5 | p << 4 | s << 1 | low]. *)
Lemma std_byte r s p low :
  0 <= r < 8 → 0 <= s < 8 → (low = 0 ∨ s = 0 ∧ (low = 1 ∨ low = 5 ∨ low = 9)) →
  let d := u8 (Z.lor (Z.lor (Z.lor low (pbit p LAPB_SPF)) (Z.shiftl r 5)) (Z.shiftl s 1)) in
  Z.land d LAPB_SPF = pbit p LAPB_SPF ∧ Z.land (Z.shiftr d 5) 0x07 = r ∧
  (low = 0 → Z.land (Z.shiftr d 1) 0x07 = s) ∧ Z.land d LAPB_S = Z.land low LAPB_S ∧
  Z.land d LAPB_U = Z.land (Z.lor low (Z.shiftl s 1)) LAPB_U ∧ (s = 0 → Z.land d 0x0F = low).
Proof.
  intros Hr Hs Hl. unfold pbit.
  assert (r = 0 ∨ r = 1 ∨ r = 2 ∨ r = 3 ∨ r = 4 ∨ r = 5 ∨ r = 6 ∨ r = 7) by lia.
  assert (s = 0 ∨ s = 1 ∨ s = 2 ∨ s = 3 ∨ s = 4 ∨ s = 5 ∨ s = 6 ∨ s = 7) by lia.
  clear Hr Hs. destruct (p =? 0).
  all: repeat (match goal with H : _ ∨ _ |- _ => destruct H as [H|H] | H : _ ∧ _ |- _ => destruct H end);
    subst; try discriminate; vm_compute; split_and!; try done; intros; discriminate || done.
Qed.

Lemma skb_pull_1 a l : skb_pull (skb_fresh (a :: l)) 1 = skb_fresh l.
Proof. unfold skb_pull. case_decide; [simpl in *; lia|done]. Qed.

Lemma skb_pull_2 a b l : skb_pull (skb_fresh (a :: b :: l)) 2 = skb_fresh l.
Proof. unfold skb_pull. case_decide; [simpl in *; lia|done]. Qed.

Lemma skb_byte_0 a l : skb_byte (skb_fresh (a :: l)) 0 = a.
Proof. done. Qed.

Lemma skb_byte_1 a b l : skb_byte (skb_fresh (a :: b :: l)) 1 = b.
Proof. done. Qed.

(** Decide the tests on constant bytes. *)
Ltac const_tests :=
  repeat match goal with |- context [if ?b then _ else _] =>
    let v := eval vm_compute in b in
    lazymatch v with true => change b with true | false => change b with false end; cbv iota
  end.

(** The frame types [lapb_send_control] is called with. *)
Definition control_types : list Z :=
  [LAPB_RR; LAPB_RNR; LAPB_REJ; LAPB_SABM; LAPB_SABME; LAPB_DISC; LAPB_DM; LAPB_UA].

(** A supervisory or unnumbered frame that one end builds with
    [lapb_send_control] is read by the [lapb_decode] of its peer with the same
    type, command/response and poll bits, and, for a supervisory frame, the
    sender's V(R) as N(R); in both moduli, single- and multi-link. *)
Theorem lapb_control_roundtrip c m2 ft poll ty f0 :
  peers (mode c) m2 → 0 <= vr c < modulus c →
  ft ∈ control_types → ty = LAPB_COMMAND ∨ ty = LAPB_RESPONSE →
  let r := lapb_decode m2 (skb_fresh (lapb_address (mode c) ty :: control_bytes c ft poll)) f0 in
  type r.1 = ft ∧ cr r.1 = ty ∧ (pf r.1 ≠ 0 ↔ poll ≠ 0) ∧
  (Z.land ft LAPB_U = LAPB_S → nr r.1 = vr c) ∧ skb_data r.2 = [].
Proof.
  intros Hp Hvr Hft Hty. unfold lapb_decode.
  rewrite skb_byte_0, skb_pull_1, (decode_cr_address _ _ _ _ Hp Hty).
  destruct Hp as (He&_&_). unfold control_bytes. rewrite <-He. unfold modulus_of in Hvr.
  pose proof (pbit_spec poll LAPB_EPF ltac:(done)) as HE.
  pose proof (pbit_spec poll LAPB_SPF ltac:(done)) as HS.
  destruct (mode c & LAPB_EXTENDED).
  - pose proof (ext_byte (vr c) poll Hvr) as [Hb1 Hb2].
    fold (pbit poll LAPB_EPF). fold (pbit poll LAPB_SPF).
    repeat (apply elem_of_cons in Hft as [->|Hft]); [..|by apply not_elem_of_nil in Hft].
    1-3: const_tests; rewrite skb_byte_0, skb_byte_1, skb_pull_2; const_tests;
      rewrite Hb1, Hb2; by split_and!.
    all: const_tests; rewrite skb_byte_0, skb_pull_1; unfold pbit in *;
      destruct (Z.eqb_spec poll 0); const_tests; split_and!; try done; naive_solver.
  - fold (pbit poll LAPB_SPF).
    repeat (apply elem_of_cons in Hft as [->|Hft]); [..|by apply not_elem_of_nil in Hft].
    1-3: match goal with |- context [Z.lor (Z.lor ?low _) (if _ then _ else _)] =>
      pose proof (std_byte (vr c) 0 poll low Hvr ltac:(lia) ltac:(right; split; [done|tauto]))
        as (E1&E2&_&E4&E5&E6) end;
      const_tests; rewrite skb_byte_0, skb_pull_1;
      rewrite Z.shiftl_0_l, Z.lor_0_r in E1, E2, E4, E5, E6; rewrite E4, E5; const_tests;
      rewrite E1, E2, E6 by done; by split_and!.
    all: const_tests; rewrite skb_byte_0, skb_pull_1; unfold pbit in *;
      destruct (Z.eqb_spec poll 0); const_tests; split_and!; try done; naive_solver.
Qed.

(** C6: an information frame built by [lapb_send_iframe] is read by the peer as
    type I with N(S) = V(S) and N(R) = V(R) of the sender, as a command, with
    its poll bit, and with the payload unchanged behind the header. *)
Theorem lapb_iframe_roundtrip c m2 payload poll f0 :
  peers (mode c) m2 → seq_ok c →
  let r := lapb_decode m2 (skb_fresh (lapb_address (mode c) LAPB_COMMAND ::
             iframe_control c poll ++ payload)) f0 in
  type r.1 = LAPB_I ∧ cr r.1 = LAPB_COMMAND ∧ (pf r.1 ≠ 0 ↔ poll ≠ 0) ∧
  ns r.1 = vs c ∧ nr r.1 = vr c ∧ skb_data r.2 = payload.
Proof.
  intros Hp (_&Hvs&Hvr). unfold lapb_decode.
  rewrite skb_byte_0, skb_pull_1, (decode_cr_address _ _ _ _ Hp (or_introl eq_refl)).
  destruct Hp as (He&_&_). unfold iframe_control. rewrite <-He. unfold modulus_of in *.
  pose proof (pbit_spec poll LAPB_EPF ltac:(done)) as HE.
  pose proof (pbit_spec poll LAPB_SPF ltac:(done)) as HS.
  destruct (mode c & LAPB_EXTENDED); cbn [app].
  - fold (pbit poll LAPB_EPF). change (Z.lor LAPB_I) with (Z.lor 0). rewrite Z.lor_0_l.
    pose proof (ext_byte (vs c) 0 Hvs) as [Ha1 Ha2].
    pose proof (ext_byte (vr c) poll Hvr) as [Hb1 Hb2].
    change (pbit 0 LAPB_EPF) with 0 in *. rewrite Z.lor_0_r in Ha1, Ha2.
    rewrite (Z.lor_comm (pbit poll LAPB_EPF)).
    rewrite skb_byte_0, skb_byte_1, skb_pull_2.
    change LAPB_S with LAPB_EPF. rewrite Ha1, Ha2, Hb1, Hb2. const_tests. by split_and!.
  - fold (pbit poll LAPB_SPF).
    pose proof (std_byte (vr c) (vs c) poll 0 Hvr Hvs (or_introl eq_refl)) as (E1&E2&E3&E4&_&_).
    change (Z.lor LAPB_I) with (Z.lor 0). rewrite skb_byte_0, skb_pull_1, E4. const_tests.
    rewrite E1, E2, E3 by done. by split_and!.
Qed.

(** Whatever bytes arrive, a received frame moves the link only along the
    edges of the LAPB state diagram. *)
Theorem lapb_rx_transitions f0 skb w :
  rx_edge (state (cb w)) (state (cb (lapb_data_input f0 skb w).2)) = true.
Proof. apply ends_data_input. Qed.

(** C8: the network layer gets a payload exactly when the link is in the data
    transfer state and the frame is an I frame with a valid N(R) and
    N(S) = V(R); the payload is the received bytes behind the header, appended
    to what was delivered before. Unless the upper layer drops it, V(R) then
    advances by one, and any other I frame that leaves the link connected leaves
    V(R) alone. *)
Theorem lapb_in_sequence_delivery f0 skb w :
  let r := lapb_decode (mode (cb w)) skb f0 in
  let w' := (lapb_data_input f0 skb w).2 in
  delivered w' = delivered w ++
    (if bool_decide (state (cb w) = LAPB_STATE_3) && accepts (cb w) r.1 &&
        data_indication (callbacks (cb w)) then [skb_data r.2] else []) ∧
  ((∀ n p, rx_result n p ≠ NET_RX_DROP) →
   state (cb w) = LAPB_STATE_3 → type r.1 = LAPB_I → state (cb w') = LAPB_STATE_3 →
   vr (cb w') = if accepts (cb w) r.1 then (vr (cb w) + 1) mod modulus (cb w) else vr (cb w)).
Proof.
  cbv zeta. split; [apply data_input_delivered|]. intros Hrx H3 Ht H3'.
  set (r := lapb_decode _ _ _) in *. rewrite (data_input_state3 f0 skb w H3) in H3' |- *.
  fold r in H3' |- *. cbv zeta in *. set (w1 := (lapb_state3_machine r.2 r.1 w).2) in *.
  rewrite (kick_keeps_vr (vr (cb w1)) w1 eq_refl).
  assert (Hs1 : state (cb w1) = LAPB_STATE_3).
  { pose proof (keeps_kick (state (cb w1)) w1 eq_refl) as E. unfold on_cb, in_state in E. congruence. }
  unfold accepts. rewrite Ht. cbn [Z.eqb LAPB_I andb].
  pose proof (state3_I_vr r.2 r.1 (cb w) Hrx w eq_refl) as Hv.
  assert (E : cb w1 = cb (state3_I r.2 r.1 w).2).
  { unfold w1. rewrite (state3_machine_I _ _ _ Ht). by destruct (negb _). }
  rewrite E in Hs1 |- *. by apply Hv.
Qed.

(** * The retry limit *)

(** T1 runs out: the timer is detached and its handler called. *)
Definition t1_fire : M unit := lapb_stop_t1timer;; lapb_t1timer_expiry.

(** Given up: disconnected, nothing queued, T1 idle. *)
Definition given_up (c : lapb_cb) : Prop :=
  state c = LAPB_STATE_0 ∧ write_queue c = [] ∧ ack_queue c = [] ∧ t1timer c = None.

Lemma t1_fire_limit c :
  state c ≠ LAPB_STATE_0 → n2count c = n2 c → hoare (at_cb c) t1_fire (λ _, on_cb given_up).
Proof.
  intros Hs Hn. unfold t1_fire, lapb_stop_t1timer, lapb_t1timer_expiry, lapb_clear_queues.
  exec. exec. simpl. rewrite Hn, Z.eqb_refl.
  assert (Hq : ∀ m : M unit, quiet m →
    hoare (at_cb (set_t1timer None c))
      ((c ← gets cb; free_all (write_queue c);; upd (set_write_queue []);;
        free_all (ack_queue c);; upd (set_ack_queue []));;
       upd (set_state LAPB_STATE_0);; m) (λ _, on_cb given_up)).
  { intros m Hm. eapply (hoare_bind _ _ (λ _, at_cb (set_ack_queue [] (set_write_queue [] (set_t1timer None c))))).
    - do 5 exec. done.
    - intros []. exec. exec. done. }
  destruct (state c); [done| | | |].
  - apply Hq. quiet_tac.
  - apply Hq. quiet_tac.
  - eapply (hoare_bind _ _ (λ _, at_cb (set_ack_queue [] (set_write_queue [] (set_t1timer None c))))).
    + do 5 exec. done.
    + intros []. unfold lapb_stop_t2timer. do 3 exec. done.
  - apply Hq. quiet_tac.
Qed.

(** Below the limit an expiry only counts and stays in its state. *)
Lemma t1_fire_count c :
  n2count c ≠ n2 c → state c ≠ LAPB_STATE_0 →
  hoare (at_cb c) t1_fire (λ _, on_cb (λ c',
    state c' = state c ∧ n2 c' = n2 c ∧ n2count c' = u16 (n2count c + 1))).
Proof.
  intros Hn Hs. apply Z.eqb_neq in Hn. unfold t1_fire, lapb_stop_t1timer, lapb_t1timer_expiry.
  exec. exec. simpl. rewrite Hn.
  set (P c' := state c' = state c ∧ n2 c' = n2 c ∧ n2count c' = u16 (n2count c + 1)).
  assert (Hr : preserves (on_cb P) lapb_requeue_frames).
  { apply preserves_requeue_frames; intros c0 q Hc; exact Hc. }
  destruct (state c) eqn:E; [done| | | |]; exec; simpl;
    (eapply hoare_pre; [|apply (hoare_preserves (on_cb P)); unfold lapb_start_t1timer;
      lapb_tac; first [exact Hr|exact Hc]]);
    intros w Hw; unfold on_cb in *; rewrite <-Hw; unfold P; simpl; by rewrite E.
Qed.


(** * The list of links *)

(** Tokens identify links: through any sequence of calls into the module
    they stay pairwise distinct, and a call on one token leaves every block
    with another token in place and unchanged. *)
Theorem lapb_links_isolated tok s s' :
  module_call tok s s' → NoDup (tokens s) →
  NoDup (tokens s') ∧
  (∀ c, c ∈ lapb_list s → token c ≠ tok → c ∈ lapb_list s').
Proof.
  intros Hc Hn. split; [by eapply call_tokens_NoDup|].
  intros c Hin Ht. apply list_elem_of_lookup in Hin as [j Hj].
  destruct Hc; try (apply list_elem_of_lookup; exists j; by apply with_token_others).
  - unfold lapb_register. destruct (lapb_tokentostruct tok s); [by eapply list_elem_of_lookup_2|].
    destruct (alloc_ok _); [|by eapply list_elem_of_lookup_2].
    apply list_elem_of_lookup. by exists (S j).
  - unfold lapb_unregister. destruct (lapb_tokentostruct tok s) as [[i c']|] eqn:E;
      [|by eapply list_elem_of_lookup_2].
    apply tokentostruct_Some in E as [Hi Htok]. unfold mbind, ST_bind. simpl.
    assert (Hne : i ≠ j) by (intros ->; congruence).
    apply list_elem_of_lookup. destruct (decide (j < i)%nat).
    + exists j. rewrite list_lookup_delete_lt by done. by rewrite list_lookup_insert_ne.
    + exists (pred j). rewrite list_lookup_delete_ge by lia.
      replace (S (pred j)) with j by lia. by rewrite list_lookup_insert_ne.
Qed.
End theorems.

(** * The stale acknowledgement queue *)

(** The send window does not survive every link reset. A FRMR in the data
    transfer state requeues the unacknowledged frames and sends SABM, but the
    kick that ends the same input retransmits them in state 1; the UA then
    zeroes V(S) and V(A) while the frames stay in the acknowledgement queue.
    Such a link is reachable: it is in the data transfer state, V(S) = V(A),
    and yet a frame counts as unacknowledged. *)
Theorem lapb_frmr_recovery_stale_ack :
  ∃ w, @lapb_reachable calm_env w ∧ state (cb w) = LAPB_STATE_3 ∧
    vs (cb w) = va (cb w) ∧ map skb_data (ack_queue (cb w)) = [[0xAA]] ∧ ¬ ack_ok (cb w).
Proof.
  set (w1 := (@do_data_request calm_env (skb_fresh [0xAA]) link3).2).
  set (w2 := (@lapb_data_input calm_env stack0 (skb_fresh [LAPB_ADDR_B; LAPB_FRMR; 0; 0; 0]) w1).2).
  set (w3 := (@lapb_data_input calm_env stack0 (skb_fresh [LAPB_ADDR_B; 0x73]) w2).2).
  exists w3. split_and!.
  - destruct link3_reachable as (w0&H0&Hr). exists w0. split; [done|].
    etrans; [exact Hr|]. apply (rtc_l _ link3 w1); [exact (@step_data_request calm_env _ link3)|].
    apply (rtc_l _ w1 w2); [exact (@step_receive calm_env _ _ w1)|].
    apply (rtc_l _ w2 w3); [exact (@step_receive calm_env _ _ w2)|]. apply rtc_refl.
  - vm_compute. reflexivity.
  - vm_compute. reflexivity.
  - vm_compute. reflexivity.
  - intros [Hq|[Hl _]]; vm_compute in *; discriminate.
Qed.

(** * Concrete instances *)

Lemma lapb_reachable_bounds_witness :
  1 <= window (cb link3) < modulus (cb link3) ∧ (connected (cb link3) → seq_ok (cb link3)).
Proof. exact (@lapb_reachable_bounds calm_env link3 link3_reachable). Defined.

Lemma lapb_validate_nr_correct_witness :
  is_Some (lapb_validate_nr (cb link3) 0) ∧
  (0 <= 0 < modulus (cb link3) →
   lapb_validate_nr (cb link3) 0 =
     Some (cdist (modulus (cb link3)) (va (cb link3)) 0
           <=? cdist (modulus (cb link3)) (va (cb link3)) (vs (cb link3)))).
Proof.
  apply (@lapb_validate_nr_correct calm_env link3 0 link3_reachable).
  left. vm_compute. reflexivity.
Defined.

(** The link of [link3] with one frame sent and not yet acknowledged. *)
Definition link3_sent : world := (@do_data_request calm_env (skb_fresh [0xAA]) link3).2.

(** RR with N(R) = 1, a response from the peer. *)
Definition rr1 : sk_buff := skb_fresh [LAPB_ADDR_B; 0x21].

Lemma link3_sent_inv : link_inv (cb link3_sent).
Proof.
  split; [vm_compute; done|]. intros _. repeat split; vm_compute; done.
Qed.

Lemma lapb_data_input_queue_witness :
  pending (cb (@lapb_data_input calm_env stack0 rr1 link3_sent).2) = [] ∧
  ack_ok (cb (@lapb_data_input calm_env stack0 rr1 link3_sent).2).
Proof.
  destruct (@lapb_data_input_queue calm_env stack0 rr1 link3_sent) as [Hp Ha].
  - apply link3_sent_inv.
  - vm_compute. reflexivity.
  - right. split; vm_compute; done.
  - vm_compute. reflexivity.
  - split; [|exact Ha]. etrans; [exact Hp|]. vm_compute. reflexivity.
Defined.


Lemma lapb_control_roundtrip_witness :
  nr (lapb_decode LAPB_DCE
        (skb_fresh (lapb_address 0 LAPB_RESPONSE :: control_bytes (cb link3_sent) LAPB_RR 1)) stack0).1
  = vr (cb link3_sent).
Proof.
  apply (lapb_control_roundtrip (cb link3_sent) LAPB_DCE LAPB_RR 1 LAPB_RESPONSE stack0).
  - repeat split; vm_compute; reflexivity.
  - split; vm_compute; done.
  - left.
  - by right.
  - reflexivity.
Defined.

Lemma lapb_iframe_roundtrip_witness :
  ns (lapb_decode LAPB_DCE
        (skb_fresh (lapb_address 0 LAPB_COMMAND :: iframe_control (cb link3_sent) 0 ++ [0xAA])) stack0).1
  = vs (cb link3_sent).
Proof.
  apply (lapb_iframe_roundtrip (cb link3_sent) LAPB_DCE [0xAA] 0 stack0).
  - repeat split; vm_compute; reflexivity.
  - repeat split; vm_compute; done.
Defined.


(** Two registered links. *)
Definition two_links : lapb_module :=
  (@lapb_register calm_env 2 all_callbacks
     (@lapb_register calm_env 1 all_callbacks (mk_module [] 0 0 [])).2).2.

Lemma lapb_links_isolated_witness :
  NoDup (tokens (@lapb_connect_request calm_env 1 two_links).2) ∧
  (∀ c, c ∈ lapb_list two_links → token c ≠ 1 →
        c ∈ lapb_list (@lapb_connect_request calm_env 1 two_links).2).
Proof.
  apply (@lapb_links_isolated calm_env 1 two_links).
  - apply call_connect.
  - apply (bool_decide_unpack _). vm_compute. exact I.
Defined.
