(* ===== verification/UidHash.v ===== *)
(** The user cache (kernel/user.c): the hash table of [user_struct]s with its
    intrusive, doubly linked chains, and the reference counts that decide when
    an entry is removed. The pointer operations are proved to implement the
    operations on the lists of entries they represent. *)
From stdpp Require Export functions.
From S2P Require Import Prelude.
From stdpp Require Import list options.
Open Scope Z_scope.

(** * Data

    An address is an integer and 0 is [NULL]. [pprev] points to the pointer
    that points to the entry: the head of a bucket or the [next] field of the
    previous entry. *)
Inductive slot :=
  | HashEnt (n : Z)
  | NextOf (a : Z).

#[export] Instance slot_eq_dec : EqDecision slot.
Proof. solve_decision. Defined.

Record user_struct := mk_user {
  us_count : Z;      (* atomic_t __count *)
  us_processes : Z;  (* atomic_t processes *)
  us_files : Z;      (* atomic_t files *)
  us_next : Z;
  us_pprev : slot;
  us_uid : Z
}.

Definition set_us_count (x : Z) (u : user_struct) : user_struct :=
  mk_user x (us_processes u) (us_files u) (us_next u) (us_pprev u) (us_uid u).
Definition set_us_processes (x : Z) (u : user_struct) : user_struct :=
  mk_user (us_count u) x (us_files u) (us_next u) (us_pprev u) (us_uid u).
Definition set_us_next (x : Z) (u : user_struct) : user_struct :=
  mk_user (us_count u) (us_processes u) (us_files u) x (us_pprev u) (us_uid u).
Definition set_us_pprev (x : slot) (u : user_struct) : user_struct :=
  mk_user (us_count u) (us_processes u) (us_files u) (us_next u) x (us_uid u).

(** The live [user_struct]s by address, and the heads of the hash chains. *)
Record uidhash := mk_uidhash {
  users : gmap Z user_struct;
  uidhash_table : Z → Z
}.

Definition UIDHASH_BITS : Z := 8.
Definition UIDHASH_SZ : Z := Z.shiftl 1 UIDHASH_BITS.
Definition UIDHASH_MASK : Z := UIDHASH_SZ - 1.
Definition uidhashfn (uid : Z) : Z :=
  Z.land (Z.lxor (Z.shiftr uid UIDHASH_BITS) uid) UIDHASH_MASK.
Definition uidhashentry (uid : Z) : slot := HashEnt (uidhashfn uid).

(** The address of the statically allocated entry of uid 0. *)
Definition root_user : Z := 1.

(** [kmem_cache_alloc(uid_cachep, ...)]: fails, or returns an address not in
    use; which one is up to the allocator. *)
Class UidSlab := {
  kmem_cache_alloc : gmap Z user_struct → option Z;
  kmem_cache_alloc_fresh h a :
    kmem_cache_alloc h = Some a → a ≠ 0 ∧ a ≠ root_user ∧ h !! a = None
}.

(** * The pointer operations *)

(** Update of one field through a pointer. *)
Definition upd_user (a : Z) (f : user_struct → user_struct) (h : uidhash) : uidhash :=
  mk_uidhash (alter f a (users h)) (uidhash_table h).

(** [*s] and [*s = v] *)
Definition load_slot (h : uidhash) (s : slot) : Z :=
  match s with
  | HashEnt n => uidhash_table h n
  | NextOf a => match users h !! a with Some u => us_next u | None => 0 end
  end.

Definition store_slot (s : slot) (v : Z) (h : uidhash) : uidhash :=
  match s with
  | HashEnt n => mk_uidhash (users h) (<[n := v]> (uidhash_table h))
  | NextOf a => upd_user a (set_us_next v) h
  end.

Definition uid_hash_insert (up : Z) (hashent : slot) (h : uidhash) : uidhash :=
  let next := load_slot h hashent in
  let h := upd_user up (set_us_next next) h in
  let h := if next =? 0 then h else upd_user next (set_us_pprev (NextOf up)) h in
  let h := upd_user up (set_us_pprev hashent) h in
  store_slot hashent up h.

Definition uid_hash_remove (up : Z) (h : uidhash) : uidhash :=
  match users h !! up with
  | None => h
  | Some u =>
      let next := us_next u in
      let pprev := us_pprev u in
      let h := if next =? 0 then h else upd_user next (set_us_pprev pprev) h in
      store_slot pprev next h
  end.

(** The search loop; a chain is no longer than the number of live entries, so
    that many steps and one for the final [NULL] are enough. *)
Fixpoint uid_hash_walk (fuel : nat) (uid next : Z) (h : uidhash) : option Z :=
  match fuel with
  | O => None
  | S fuel =>
      if next =? 0 then Some 0
      else match users h !! next with
           | None => None
           | Some up => if us_uid up =? uid then Some next
                        else uid_hash_walk fuel uid (us_next up) h
           end
  end.

Definition atomic_inc_count (a : Z) : uidhash → uidhash :=
  upd_user a (λ u, set_us_count (us_count u + 1) u).

(** Returns the address found, 0 for none; [None] marks a wild pointer or a
    loop that does not end, which the invariant below excludes. *)
Definition uid_hash_find (uid : Z) (hashent : slot) (h : uidhash) : option (Z * uidhash) :=
  match uid_hash_walk (S (size (users h))) uid (load_slot h hashent) h with
  | None => None
  | Some up => Some (up, if up =? 0 then h else atomic_inc_count up h)
  end.

(** [atomic_dec_and_lock] and the removal under the lock. *)
Definition free_uid (up : Z) (h : uidhash) : uidhash :=
  match users h !! up with
  | None => h
  | Some u =>
      let h := upd_user up (set_us_count (us_count u - 1)) h in
      if us_count u - 1 =? 0 then
        let h := uid_hash_remove up h in
        mk_uidhash (delete up (users h)) (uidhash_table h)
      else h
  end.

(** The section of [alloc_uid] behind the allocation, under the lock: the
    search is repeated since the user may have been added meanwhile. *)
Definition alloc_uid_insert (uid new : Z) (h : uidhash) : option (Z * uidhash) :=
  let hashent := uidhashentry uid in
  let h := mk_uidhash (<[new := mk_user 1 0 0 0 (HashEnt 0) uid]> (users h))
             (uidhash_table h) in
  match uid_hash_find uid hashent h with
  | None => None
  | Some (up, h) =>
      if negb (up =? 0) then Some (up, mk_uidhash (delete new (users h)) (uidhash_table h))
      else Some (new, uid_hash_insert new hashent h)
  end.

(** The whole of [alloc_uid] where no other task runs inside the allocation;
    the result 0 is the [NULL] of an allocation failure. *)
Definition alloc_uid `{UidSlab} (uid : Z) (h : uidhash) : option (Z * uidhash) :=
  match uid_hash_find uid (uidhashentry uid) h with
  | None => None
  | Some (up, h) =>
      if negb (up =? 0) then Some (up, h)
      else match kmem_cache_alloc (users h) with
           | None => Some (0, h)
           | Some new => alloc_uid_insert uid new h
           end
  end.

(** The table when [uid_cache_init] has run. *)
Definition uid_cache_init : uidhash :=
  uid_hash_insert root_user (uidhashentry 0)
    (mk_uidhash {[ root_user := mk_user 1 1 0 0 (HashEnt 0) 0 ]} (λ _, 0)).

(** * The chains as lists *)

(** What the list operations see of an entry: its two link fields. *)
Definition link (h : uidhash) (a : Z) : option (Z * slot) :=
  (λ u, (us_next u, us_pprev u)) <$> users h !! a.

(** The pointer [a], stored in slot [s], starts the chain [l]. *)
Fixpoint is_chain (h : uidhash) (s : slot) (a : Z) (l : list Z) : Prop :=
  match l with
  | [] => a = 0
  | x :: l => a = x ∧ x ≠ 0 ∧
      ∃ next, link h x = Some (next, s) ∧ is_chain h (NextOf x) next l
  end.

(** Every bucket is a well-linked list of its own, with each live entry in the
    bucket its uid hashes to. [B] gives the lists. *)
Record chains (h : uidhash) (B : Z → list Z) : Prop := {
  ch_chain n : is_chain h (HashEnt n) (uidhash_table h n) (B n);
  ch_nodup n : NoDup (B n);
  ch_hash n a : a ∈ B n → ∃ u, users h !! a = Some u ∧ uidhashfn (us_uid u) = n
}.

Lemma chain_frame h h' s a l :
  (∀ x, x ∈ l → link h' x = link h x) → is_chain h s a l → is_chain h' s a l.
Proof.
  revert s a. induction l as [|x l IH]; intros s a Hf; [done|].
  intros (-> & Hx & next & Hl & Hc). split_and!; [done..|].
  exists next. split; [by rewrite Hf by set_solver|].
  apply IH; [|done]. intros y Hy. apply Hf. set_solver.
Qed.

Lemma chain_live h s a l x : is_chain h s a l → x ∈ l → x ≠ 0 ∧ is_Some (users h !! x).
Proof.
  revert s a. induction l as [|y l IH]; intros s a; [set_solver|].
  intros (-> & Hy & next & Hl & Hc) [->|Hin]%elem_of_cons; [|by eapply IH].
  split; [done|]. unfold link in Hl. destruct (users h !! y); [done|discriminate].
Qed.

Lemma chain_bound h s a l : NoDup l → is_chain h s a l → (length l <= size (users h))%nat.
Proof.
  intros Hnd Hc. rewrite <-size_dom, <-(size_list_to_set (C:=gset Z) l) by done.
  apply subseteq_size. intros x Hx. apply elem_of_list_to_set in Hx.
  apply elem_of_dom. by eapply chain_live.
Qed.

(** The search returns the first entry of the bucket with the uid. *)
Definition chain_find (h : uidhash) (uid : Z) (l : list Z) : option Z :=
  snd <$> list_find (λ a, us_uid <$> users h !! a = Some uid) l.

Lemma chain_find_cons h uid x l u :
  users h !! x = Some u →
  chain_find h uid (x :: l) = if us_uid u =? uid then Some x else chain_find h uid l.
Proof.
  intros Hx. unfold chain_find. simpl. rewrite Hx. simpl.
  destruct (Z.eqb_spec (us_uid u) uid) as [->|Hne].
  - by rewrite decide_True.
  - rewrite decide_False by congruence. by destruct (list_find _ l) as [[]|].
Qed.

Lemma walk_chain h uid s a l fuel :
  is_chain h s a l → (length l < fuel)%nat →
  uid_hash_walk fuel uid a h = Some (default 0 (chain_find h uid l)).
Proof.
  revert s a fuel. induction l as [|x l IH]; intros s a [|fuel] Hc Hf; simpl in Hf; try lia.
  - simpl in *. by subst.
  - destruct Hc as (-> & Hx & next & Hl & Hc). simpl.
    rewrite (proj2 (Z.eqb_neq x 0)) by done.
    unfold link in Hl. destruct (users h !! x) as [u|] eqn:Hu; simplify_eq/=.
    rewrite (chain_find_cons _ _ _ _ u) by done.
    destruct (us_uid u =? uid); [done|]. eapply IH; [done|lia].
Qed.

Lemma find_chains h B uid :
  chains h B →
  uid_hash_find uid (uidhashentry uid) h =
    Some (match chain_find h uid (B (uidhashfn uid)) with
          | Some a => (a, atomic_inc_count a h)
          | None => (0, h)
          end).
Proof.
  intros HB. unfold uid_hash_find. simpl load_slot.
  rewrite (walk_chain _ _ _ _ _ _ (ch_chain _ _ HB (uidhashfn uid))).
  2:{ pose proof (chain_bound _ _ _ _ (ch_nodup _ _ HB (uidhashfn uid)) (ch_chain _ _ HB _)). lia. }
  destruct (chain_find h uid (B (uidhashfn uid))) as [a|] eqn:Hf; [|done]. simpl.
  unfold chain_find in Hf. apply fmap_Some in Hf as ([i x] & Hf & ->).
  apply list_find_Some in Hf as (Hx & _ & _). apply list_elem_of_lookup_2 in Hx. simpl.
  destruct (chain_live _ _ _ _ _ (ch_chain _ _ HB (uidhashfn uid)) Hx) as [H0 _].
  by rewrite (proj2 (Z.eqb_neq x 0)) by done.
Qed.

(** * Links under the pointer operations *)

Lemma users_upd a f h x :
  users (upd_user a f h) !! x = if decide (x = a) then f <$> users h !! x else users h !! x.
Proof.
  simpl. destruct (decide (x = a)) as [->|Hne].
  - by rewrite lookup_alter_eq.
  - by rewrite lookup_alter_ne by congruence.
Qed.

(** Counter updates leave the links, and uids, alone. *)
Lemma link_upd_count a f h x :
  (∀ u, us_next (f u) = us_next u ∧ us_pprev (f u) = us_pprev u) →
  link (upd_user a f h) x = link h x.
Proof.
  intros Hf. unfold link. rewrite users_upd.
  destruct (decide (x = a)) as [->|]; [|done].
  destruct (users h !! a) as [u|]; [|done]. simpl. by destruct (Hf u) as [-> ->].
Qed.

Lemma chains_upd_count a f h B :
  (∀ u, us_next (f u) = us_next u ∧ us_pprev (f u) = us_pprev u ∧ us_uid (f u) = us_uid u) →
  chains h B → chains (upd_user a f h) B.
Proof.
  intros Hf [Hc Hn Hh]. split; [|done|].
  - intros n. eapply chain_frame; [|apply Hc].
    intros x _. apply link_upd_count. intros u. by destruct (Hf u) as (?&?&?).
  - intros n x Hx. rewrite users_upd. destruct (Hh _ _ Hx) as (u & Hu & Hn').
    destruct (decide (x = a)) as [->|]; [|by eauto].
    rewrite Hu. eexists. split; [done|]. by destruct (Hf u) as (_&_&->).
Qed.

(** Slot [s] is the pointer that leads to [x] and [next] is its successor:
    unlinking [x] redirects the one and the back pointer of the other. *)
Lemma link_remove h x u y :
  users h !! x = Some u →
  link (uid_hash_remove x h) y =
    (λ '(n, p), (if decide (us_pprev u = NextOf y) then us_next u else n,
                 if decide (y = us_next u ∧ y ≠ 0) then us_pprev u else p)) <$> link h y.
Proof.
  intros Hx. unfold uid_hash_remove. rewrite Hx. cbv zeta.
  set (h1 := if us_next u =? 0 then h else _).
  assert (Hl1 : link h1 y = (λ '(n, p), (n, if decide (y = us_next u ∧ y ≠ 0)
                                   then us_pprev u else p)) <$> link h y).
  { subst h1. unfold link. destruct (Z.eqb_spec (us_next u) 0) as [H0|H0].
    - destruct (users h !! y) as [v|]; [|done]. simpl.
      by rewrite decide_False by (intros [-> ?]; congruence).
    - rewrite users_upd. destruct (decide (y = us_next u)) as [->|Hne].
      + destruct (users h !! us_next u); [|done]. simpl. by rewrite decide_True.
      + destruct (users h !! y); [|done]. simpl. by rewrite decide_False by (intros [??]; congruence). }
  destruct (us_pprev u) as [n|a]; simpl store_slot.
  - change (link h1 y = (λ '(n0, p), (n0, if decide (y = us_next u ∧ y ≠ 0)
                                   then HashEnt n else p)) <$> link h y). done.
  - transitivity ((λ '(n, p), (if decide (NextOf a = NextOf y) then us_next u else n, p)) <$> link h1 y).
    + unfold link. rewrite users_upd. destruct (decide (y = a)) as [->|Hne].
      * destruct (users h1 !! a); [|done]. simpl. by rewrite decide_True.
      * destruct (users h1 !! y); [|done]. simpl. by rewrite decide_False by congruence.
    + rewrite Hl1. by destruct (link h y) as [[]|].
Qed.

Lemma table_remove h x u n :
  users h !! x = Some u →
  uidhash_table (uid_hash_remove x h) n =
    if decide (us_pprev u = HashEnt n) then us_next u else uidhash_table h n.
Proof.
  intros Hx. unfold uid_hash_remove. rewrite Hx. cbv zeta.
  set (h1 := if us_next u =? 0 then h else _).
  assert (uidhash_table h1 = uidhash_table h) as Ht by by subst h1; destruct (_ =? 0).
  destruct (us_pprev u) as [m|a]; cbn [store_slot upd_user uidhash_table]; rewrite Ht;
    [|by rewrite decide_False].
  destruct (decide (n = m)) as [->|Hne].
  - by rewrite fn_lookup_insert, decide_True.
  - rewrite fn_lookup_insert_ne, decide_False by congruence. done.
Qed.

(** Relinking keeps the uid and the counters of every entry. *)
Definition same_data (h h' : uidhash) : Prop :=
  ∀ y, (λ u, (us_uid u, us_count u, us_processes u, us_files u)) <$> users h' !! y =
       (λ u, (us_uid u, us_count u, us_processes u, us_files u)) <$> users h !! y.

#[export] Instance same_data_preorder : PreOrder same_data.
Proof. split; [done|]. intros h1 h2 h3 H1 H2 y. by rewrite H2, H1. Qed.

Lemma same_data_next a x h : same_data h (upd_user a (set_us_next x) h).
Proof. intros y. rewrite users_upd. destruct (decide _); [|done]. by destruct (users h !! y). Qed.

Lemma same_data_pprev a x h : same_data h (upd_user a (set_us_pprev x) h).
Proof. intros y. rewrite users_upd. destruct (decide _); [|done]. by destruct (users h !! y). Qed.

Lemma same_data_store s x h : same_data h (store_slot s x h).
Proof. destruct s; [done|]. apply same_data_next. Qed.

Lemma same_data_remove x h : same_data h (uid_hash_remove x h).
Proof.
  unfold uid_hash_remove. destruct (users h !! x) as [w|]; [|done]. cbv zeta.
  destruct (us_next w =? 0).
  - apply same_data_store.
  - etransitivity; [apply same_data_pprev|apply same_data_store].
Qed.

Lemma same_data_insert x s h : same_data h (uid_hash_insert x s h).
Proof.
  unfold uid_hash_insert. cbv zeta. etransitivity; [|apply same_data_store].
  etransitivity; [|apply same_data_pprev].
  destruct (load_slot h s =? 0); [apply same_data_next|].
  etransitivity; [apply same_data_next|apply same_data_pprev].
Qed.

Lemma same_data_lookup h h' y v :
  same_data h h' → users h' !! y = Some v →
  ∃ u, users h !! y = Some u ∧ us_uid v = us_uid u ∧ us_count v = us_count u ∧
       us_processes v = us_processes u.
Proof.
  intros Hs Hv. specialize (Hs y). rewrite Hv in Hs.
  destruct (users h !! y) as [u|]; simplify_eq/=. eauto.
Qed.

Lemma same_data_lookup_l h h' y u :
  same_data h h' → users h !! y = Some u →
  ∃ v, users h' !! y = Some v ∧ us_uid v = us_uid u ∧ us_count v = us_count u ∧
       us_processes v = us_processes u.
Proof.
  intros Hs Hv. specialize (Hs y). rewrite Hv in Hs.
  destruct (users h' !! y) as [v|]; simplify_eq/=. eauto.
Qed.

(** The predecessor of an entry in its chain. *)
Lemma chain_split h s a l1 x l2 u :
  is_chain h s a (l1 ++ x :: l2) → users h !! x = Some u →
  is_chain h (NextOf x) (us_next u) l2 ∧
  us_pprev u = match list.last l1 with Some y => NextOf y | None => s end.
Proof.
  intros Hc Hu. revert s a Hc. induction l1 as [|w l1 IH]; intros s a.
  - simpl. intros (-> & _ & next & Hl & Hc). unfold link in Hl.
    rewrite Hu in Hl. by simplify_eq/=.
  - intros (_ & _ & next & _ & Hc). destruct (IH _ _ Hc) as [? Hp]. split; [done|].
    rewrite last_cons. rewrite Hp. by destruct (list.last l1).
Qed.

(** Unlinking [x] leaves the chain without [x]. *)
Lemma chain_remove h s a l1 x l2 u :
  users h !! x = Some u →
  (∀ z, s = NextOf z → z ∉ l1 ++ x :: l2) → NoDup (l1 ++ x :: l2) →
  is_chain h s a (l1 ++ x :: l2) →
  is_chain (uid_hash_remove x h) s (if decide (us_pprev u = s) then us_next u else a) (l1 ++ l2).
Proof.
  intros Hu. revert s a. induction l1 as [|w l1 IH]; intros s a Hs Hnd Hc.
  - destruct (chain_split _ _ _ [] _ _ _ Hc Hu) as [Hc2 Hp]. simpl in Hp.
    rewrite decide_True by done. simpl in *. apply NoDup_cons in Hnd as [Hx Hnd].
    destruct l2 as [|y l2]; [done|]. destruct Hc2 as (Hy & Hy0 & next & Hl & Hc2).
    apply NoDup_cons in Hnd as [Hyl Hnd]. split_and!; [done..|]. exists next. split.
    + rewrite (link_remove _ _ u), Hl by done. simpl.
      rewrite decide_False, decide_True; [by rewrite Hp|by subst|].
      intros Heq. rewrite Hp in Heq. apply (Hs _ Heq). set_solver.
    + eapply chain_frame; [|done]. intros z Hz. rewrite (link_remove _ _ u) by done.
      destruct (link h z) as [[]|]; [|done]. simpl.
      rewrite decide_False by (intros Heq; rewrite Hp in Heq; apply (Hs _ Heq); set_solver).
      rewrite decide_False by (intros [? _]; subst; congruence). done.
  - destruct Hc as (-> & Hw & next & Hl & Hc). simpl in Hnd.
    apply NoDup_cons in Hnd as [Hwl Hnd].
    destruct (chain_split _ _ _ _ _ _ _ Hc Hu) as [Hc2 Hp].
    assert (us_pprev u ≠ s) as Hns.
    { rewrite Hp. destruct (list.last l1) as [y|] eqn:Hlast; intros Heq; symmetry in Heq; apply Hs in Heq.
      - apply last_Some in Hlast as [l' ->]. set_solver.
      - set_solver. }
    rewrite decide_False by done. simpl. split_and!; [done..|].
    exists (if decide (us_pprev u = NextOf w) then us_next u else next). split.
    + rewrite (link_remove _ _ u), Hl by done. simpl. rewrite (decide_False (P := w = _ ∧ _)); [done|].
      intros [Heq _]. destruct l2 as [|y l2]; simpl in Hc2; [congruence|].
      destruct Hc2 as [Hy _]. set_solver.
    + apply IH; [|done..]. intros z Hz. simplify_eq. done.
Qed.

(** * Removal and insertion on the buckets *)

Definition bucket_remove (n x : Z) (B : Z → list Z) : Z → list Z :=
  <[n := filter (.≠ x) (B n)]> B.

Lemma filter_all_id (P : Z → Prop) `{∀ z, Decision (P z)} (l : list Z) :
  (∀ z, z ∈ l → P z) → filter P l = l.
Proof.
  induction l as [|y l IH]; intros Hl; [done|].
  rewrite filter_cons_True by (apply Hl; set_solver). f_equal. apply IH. set_solver.
Qed.

Lemma filter_ne_split (l1 l2 : list Z) x :
  NoDup (l1 ++ x :: l2) → filter (.≠ x) (l1 ++ x :: l2) = l1 ++ l2.
Proof.
  intros (Hd1 & Hdis & Hnd2)%NoDup_app. apply NoDup_cons in Hnd2 as [Hx Hd2].
  rewrite filter_app, filter_cons_False by naive_solver.
  f_equal; apply filter_all_id; set_solver.
Qed.

Lemma remove_chains h B x u :
  chains h B → users h !! x = Some u → x ∈ B (uidhashfn (us_uid u)) →
  chains (uid_hash_remove x h) (bucket_remove (uidhashfn (us_uid u)) x B).
Proof.
  intros HB Hu Hin. set (n := uidhashfn (us_uid u)) in *.
  pose proof (ch_chain _ _ HB n) as Hcn. pose proof (ch_nodup _ _ HB n) as Hnd.
  destruct (list_elem_of_split _ _ Hin) as (l1 & l2 & Hl). rewrite Hl in Hcn, Hnd.
  destruct (chain_split _ _ _ _ _ _ _ Hcn Hu) as [Hc2 Hp].
  assert (∀ z, z ∈ l1 ++ l2 → z ∈ B n) as Hsub by (rewrite Hl; set_solver).
  split.
  - intros m. rewrite (table_remove _ _ u) by done. unfold bucket_remove.
    destruct (decide (m = n)) as [->|Hmn].
    + rewrite fn_lookup_insert, Hl, filter_ne_split by done. by apply chain_remove.
    + rewrite fn_lookup_insert_ne by done. rewrite decide_False.
      2:{ rewrite Hp. destruct (list.last l1); congruence. }
      eapply chain_frame; [|apply (ch_chain _ _ HB)]. intros z Hz.
      assert (z ∉ B n) as Hzn.
      { intros Hzn. destruct (ch_hash _ _ HB _ _ Hz) as (? & ? & ?).
        destruct (ch_hash _ _ HB _ _ Hzn) as (? & ? & ?). congruence. }
      rewrite (link_remove _ _ u) by done. destruct (link h z) as [[]|]; [|done]. simpl.
      rewrite !decide_False; [done|..].
      * intros [-> H0]. apply Hzn. destruct l2; simpl in Hc2; [congruence|].
        destruct Hc2 as [-> _]. apply Hsub. set_solver.
      * intros Hpz. rewrite Hp in Hpz. destruct (list.last l1) eqn:Hlast; simplify_eq.
        apply last_Some in Hlast as [l' ->]. apply Hzn, Hsub. set_solver.
  - intros m. unfold bucket_remove. destruct (decide (m = n)) as [->|].
    + rewrite fn_lookup_insert. apply NoDup_filter, HB.
    + rewrite fn_lookup_insert_ne by done. apply HB.
  - intros m a Ha. assert (a ∈ B m) as HaB.
    { unfold bucket_remove in Ha. destruct (decide (m = n)) as [->|].
      - rewrite fn_lookup_insert in Ha. by apply list_elem_of_filter in Ha as [_ ?].
      - by rewrite fn_lookup_insert_ne in Ha by done. }
    destruct (ch_hash _ _ HB _ _ HaB) as (w & Hw & Hhw).
    destruct (same_data_lookup_l _ _ _ _ (same_data_remove x h) Hw) as (v & Hv & Huid & _).
    exists v. by rewrite Huid.
Qed.

Lemma link_insert h x n y :
  x ≠ uidhash_table h n → is_Some (users h !! x) →
  link (uid_hash_insert x (HashEnt n) h) y =
    if decide (y = x) then Some (uidhash_table h n, HashEnt n)
    else (λ '(m, p), (m, if decide (y = uidhash_table h n ∧ y ≠ 0) then NextOf x else p)) <$> link h y.
Proof.
  intros Hne [u Hu]. unfold uid_hash_insert, link. cbv zeta. cbn [load_slot store_slot users].
  set (next := uidhash_table h n) in *.
  rewrite users_upd. destruct (decide (y = x)) as [->|Hyx].
  - destruct (Z.eqb_spec next 0).
    + rewrite users_upd, decide_True, Hu by done. done.
    + rewrite users_upd, decide_False, users_upd, decide_True, Hu by done. done.
  - destruct (Z.eqb_spec next 0).
    + rewrite users_upd, decide_False by done. destruct (users h !! y); [|done]. simpl.
      by rewrite decide_False by (intros [??]; congruence).
    + rewrite users_upd. destruct (decide (y = next)) as [->|].
      * rewrite users_upd, decide_False by done. destruct (users h !! next); [|done]. simpl.
        by rewrite decide_True.
      * rewrite users_upd, decide_False by done. destruct (users h !! y); [|done]. simpl.
        by rewrite decide_False by (intros [??]; congruence).
Qed.

Lemma table_insert h x n m :
  uidhash_table (uid_hash_insert x (HashEnt n) h) m =
    if decide (m = n) then x else uidhash_table h m.
Proof.
  unfold uid_hash_insert. cbv zeta. simpl load_slot.
  destruct (uidhash_table h n =? 0); simpl;
    (destruct (decide (m = n)) as [->|];
      [by rewrite fn_lookup_insert|by rewrite fn_lookup_insert_ne]).
Qed.

Definition bucket_add (n x : Z) (B : Z → list Z) : Z → list Z := <[n := x :: B n]> B.

Lemma insert_chains h B x u n :
  chains h B → users h !! x = Some u → uidhashfn (us_uid u) = n → x ≠ 0 → (∀ m, x ∉ B m) →
  chains (uid_hash_insert x (HashEnt n) h) (bucket_add n x B).
Proof.
  intros HB Hu Hn Hx0 Hx.
  assert (x ≠ uidhash_table h n) as Hxh.
  { pose proof (ch_chain _ _ HB n) as Hc. specialize (Hx n).
    destruct (B n); simpl in Hc; [congruence|]. destruct Hc as [-> _]. set_solver. }
  assert (∀ y, y ∈ B n → y ≠ x) as Hyx by (intros y Hy ->; by eapply Hx).
  split.
  - intros m. rewrite table_insert. unfold bucket_add. destruct (decide (m = n)) as [->|Hmn].
    + rewrite fn_lookup_insert. split_and!; [done..|]. exists (uidhash_table h n).
      split; [rewrite link_insert by eauto; by rewrite decide_True|].
      pose proof (ch_chain _ _ HB n) as Hc. pose proof (ch_nodup _ _ HB n) as Hnd.
      destruct (B n) as [|y l]; [done|]. destruct Hc as (Hh & Hy0 & next & Hl & Hc).
      apply NoDup_cons in Hnd as [Hyl _]. split_and!; [done..|]. exists next. split.
      * rewrite link_insert, decide_False, Hl by (eauto; apply Hyx; set_solver). simpl.
        by rewrite decide_True.
      * eapply chain_frame; [|done]. intros z Hz.
        rewrite link_insert, decide_False by (eauto; apply Hyx; set_solver).
        destruct (link h z) as [[]|]; [|done]. simpl.
        by rewrite decide_False by (intros [? _]; subst; congruence).
    + rewrite fn_lookup_insert_ne by done. eapply chain_frame; [|apply HB]. intros z Hz.
      rewrite link_insert, decide_False by (eauto; intros ->; by eapply Hx).
      destruct (link h z) as [[]|]; [|done]. simpl. rewrite decide_False; [done|].
      intros [Hz' Hz0]. pose proof (ch_chain _ _ HB n) as Hc.
      assert (z ∈ B n) as Hzn by (destruct (B n); simpl in Hc; [congruence|]; set_solver).
      destruct (ch_hash _ _ HB _ _ Hz) as (? & ? & ?).
      destruct (ch_hash _ _ HB _ _ Hzn) as (? & ? & ?). congruence.
  - intros m. unfold bucket_add. destruct (decide (m = n)) as [->|].
    + rewrite fn_lookup_insert. apply NoDup_cons. split; [apply Hx|apply HB].
    + rewrite fn_lookup_insert_ne by done. apply HB.
  - intros m a Ha. assert ((m = n ∧ a = x) ∨ a ∈ B m) as Hcase.
    { unfold bucket_add in Ha. destruct (decide (m = n)) as [->|].
      - rewrite fn_lookup_insert in Ha. set_solver.
      - rewrite fn_lookup_insert_ne in Ha by done. by right. }
    assert (∃ w, users h !! a = Some w ∧ uidhashfn (us_uid w) = m) as (w & Hw & Hm)
      by (destruct Hcase as [[-> ->]|]; [by eauto|by apply HB]).
    destruct (same_data_lookup_l _ _ _ _ (same_data_insert x (HashEnt n) h) Hw) as (v & Hv & Huid & _).
    exists v. by rewrite Huid.
Qed.

(** * The invariant of the cache *)

Record uid_inv (h : uidhash) : Prop := {
  inv_chains : ∃ B, chains h B ∧
    ∀ a u, users h !! a = Some u → a ∈ B (uidhashfn (us_uid u));
  inv_unique a b u v : users h !! a = Some u → users h !! b = Some v →
    us_uid u = us_uid v → a = b;
  inv_count a u : users h !! a = Some u → 0 < us_count u
}.

(** The counters of an address, 0 when it is not live. *)
Definition count_at (h : uidhash) (a : Z) : Z := from_option us_count 0 (users h !! a).
Definition processes_at (h : uidhash) (a : Z) : Z := from_option us_processes 0 (users h !! a).
Definition uid_at (h : uidhash) (a : Z) : option Z := us_uid <$> users h !! a.

Lemma inv_nonnull h a u : uid_inv h → users h !! a = Some u → a ≠ 0.
Proof.
  intros [(B & HB & Hin) _ _] Hu.
  by destruct (chain_live _ _ _ _ _ (ch_chain _ _ HB _) (Hin _ _ Hu)).
Qed.

Lemma inv_live_count h a : uid_inv h → is_Some (users h !! a) ↔ 0 < count_at h a.
Proof.
  intros Hi. unfold count_at. destruct (users h !! a) as [u|] eqn:Hu; simpl.
  - split; [intros _; by eapply inv_count|eauto].
  - split; [by intros []|lia].
Qed.

Lemma chain_find_Some h B uid a :
  chains h B → chain_find h uid (B (uidhashfn uid)) = Some a →
  a ≠ 0 ∧ uid_at h a = Some uid.
Proof.
  intros HB Hf. unfold chain_find in Hf. apply fmap_Some in Hf as ([i x] & Hf & ->).
  apply list_find_Some in Hf as (Hx & Hp & _). apply list_elem_of_lookup_2 in Hx. simpl in *.
  split; [|done]. by destruct (chain_live _ _ _ _ _ (ch_chain _ _ HB _) Hx).
Qed.

Lemma chain_find_None h B uid a :
  (∀ a u, users h !! a = Some u → a ∈ B (uidhashfn (us_uid u))) →
  chain_find h uid (B (uidhashfn uid)) = None → uid_at h a ≠ Some uid.
Proof.
  intros Hin Hf Ha. unfold chain_find in Hf. apply fmap_None, list_find_None in Hf.
  rewrite Forall_forall in Hf. unfold uid_at in Ha.
  destruct (users h !! a) as [u|] eqn:Hu; simplify_eq/=.
  apply (Hf a); [by apply Hin|]. by rewrite Hu.
Qed.

(** Looking a uid up takes a reference to its one entry, or finds none. *)
Lemma uid_hash_find_spec h uid :
  uid_inv h →
  ∃ a, (uid_hash_find uid (uidhashentry uid) h = Some (a, atomic_inc_count a h) ∧
        a ≠ 0 ∧ uid_at h a = Some uid) ∨
       (uid_hash_find uid (uidhashentry uid) h = Some (0, h) ∧
        ∀ b, uid_at h b ≠ Some uid).
Proof.
  intros [(B & HB & Hin) _ _]. rewrite (find_chains _ B) by done.
  destruct (chain_find h uid (B (uidhashfn uid))) as [a|] eqn:Hf.
  - exists a. left. split; [done|]. by eapply chain_find_Some.
  - exists 0. right. split; [done|]. intros b. by eapply chain_find_None.
Qed.

Lemma uid_inv_upd h a f :
  (∀ u, us_next (f u) = us_next u ∧ us_pprev (f u) = us_pprev u ∧ us_uid (f u) = us_uid u) →
  (∀ u, users h !! a = Some u → 0 < us_count (f u)) →
  uid_inv h → uid_inv (upd_user a f h).
Proof.
  intros Hf Hcnt [(B & HB & Hin) Huq Hc].
  assert (∀ x w, users (upd_user a f h) !! x = Some w →
    ∃ u, users h !! x = Some u ∧ us_uid w = us_uid u ∧ 0 < us_count w) as Hold.
  { intros x w. rewrite users_upd. destruct (decide (x = a)) as [->|]; [|by eauto].
    intros (u & Hu & ->)%fmap_Some. exists u. destruct (Hf u) as (_ & _ & ->). eauto. }
  split.
  - exists B. split; [by apply chains_upd_count|]. intros x w Hw.
    destruct (Hold _ _ Hw) as (u & Hu & -> & _). eauto.
  - intros x y w v Hw Hv Heq. destruct (Hold _ _ Hw) as (u & Hu & Hu1 & _).
    destruct (Hold _ _ Hv) as (u' & Hu' & Hu1' & _). eapply Huq; [done..|congruence].
  - intros x w Hw. by destruct (Hold _ _ Hw) as (u & _ & _ & ?).
Qed.

Lemma count_at_upd h a f x :
  count_at (upd_user a f h) x =
    if decide (x = a) then from_option (us_count ∘ f) 0 (users h !! x) else count_at h x.
Proof.
  unfold count_at. rewrite users_upd. destruct (decide (x = a)); [|done].
  by destruct (users h !! x).
Qed.

(** Removal of the entry [a] and its memory. *)
Lemma uid_inv_delete h a u :
  users h !! a = Some u →
  (∃ B, chains h B ∧ ∀ a u, users h !! a = Some u → a ∈ B (uidhashfn (us_uid u))) →
  (∀ a b u v, users h !! a = Some u → users h !! b = Some v → us_uid u = us_uid v → a = b) →
  (∀ b v, b ≠ a → users h !! b = Some v → 0 < us_count v) →
  let h1 := uid_hash_remove a h in
  uid_inv (mk_uidhash (delete a (users h1)) (uidhash_table h1)).
Proof.
  intros Hu (B & HB & Hin) Huq Hcnt h1.
  pose proof (remove_chains _ _ _ _ HB Hu (Hin _ _ Hu)) as HB1.
  set (B1 := bucket_remove _ a B) in *.
  assert (∀ m, a ∉ B1 m) as Ha.
  { intros m Hm. subst B1. unfold bucket_remove in Hm.
    destruct (decide (m = uidhashfn (us_uid u))) as [->|].
    - rewrite fn_lookup_insert in Hm. by apply list_elem_of_filter in Hm as [? _].
    - rewrite fn_lookup_insert_ne in Hm by done.
      destruct (ch_hash _ _ HB _ _ Hm) as (? & ? & ?). congruence. }
  assert (∀ x w, delete a (users h1) !! x = Some w → x ≠ a ∧ ∃ v, users h !! x = Some v ∧
    us_uid w = us_uid v ∧ us_count w = us_count v) as Hold.
  { intros x w [? Hw]%lookup_delete_Some. split; [done|].
    destruct (same_data_lookup _ _ _ _ (same_data_remove a h) Hw) as (v & ? & ? & ? & ?). eauto. }
  split; simpl.
  - exists B1. split; [split; simpl|].
    + intros n. eapply chain_frame; [|apply HB1]. intros x Hx. unfold link. simpl.
      by rewrite lookup_delete_ne by (intros ->; by eapply Ha).
    + apply HB1.
    + intros n x Hx. rewrite lookup_delete_ne by (intros ->; by eapply Ha). by apply HB1.
    + intros x w Hw. destruct (Hold _ _ Hw) as (Hx & v & Hv & -> & _).
      apply Hin in Hv as Hxb. subst B1. unfold bucket_remove.
      destruct (decide (uidhashfn (us_uid v) = uidhashfn (us_uid u))) as [He|].
      * rewrite He, fn_lookup_insert. apply list_elem_of_filter. by rewrite <-He.
      * by rewrite fn_lookup_insert_ne.
  - intros x y w v Hw Hv Heq. destruct (Hold _ _ Hw) as (_ & w' & ? & ? & _).
    destruct (Hold _ _ Hv) as (_ & v' & ? & ? & _). eapply Huq; [done..|congruence].
  - intros x w Hw. destruct (Hold _ _ Hw) as (? & v & ? & ? & ->). eauto.
Qed.

(** * What the operations do to the counters *)

Lemma same_data_at h h' x :
  same_data h h' →
  count_at h' x = count_at h x ∧ processes_at h' x = processes_at h x ∧ uid_at h' x = uid_at h x.
Proof.
  intros Hs. specialize (Hs x). unfold count_at, processes_at, uid_at.
  destruct (users h !! x), (users h' !! x); simplify_eq/=; intuition congruence.
Qed.

(** One reference more or fewer at one address, everything else as before;
    an entry without references is gone. *)
Record ref_change (a d : Z) (h h' : uidhash) : Prop := {
  rc_count x : count_at h' x = count_at h x + (if decide (x = a) then d else 0);
  rc_other x : x ≠ a → processes_at h' x = processes_at h x ∧ uid_at h' x = uid_at h x;
  rc_self u : users h !! a = Some u → 0 < us_count u + d →
    processes_at h' a = us_processes u ∧ uid_at h' a = Some (us_uid u)
}.

Lemma free_uid_spec h a u :
  uid_inv h → users h !! a = Some u →
  uid_inv (free_uid a h) ∧ ref_change a (-1) h (free_uid a h).
Proof.
  intros Hi Hu. pose proof (inv_count _ Hi _ _ Hu) as Hpos.
  unfold free_uid. rewrite Hu. cbv zeta. set (h1 := upd_user a _ h).
  assert (∀ x, count_at h1 x = count_at h x + (if decide (x = a) then -1 else 0)) as Hc1.
  { intros x. subst h1. rewrite count_at_upd. unfold count_at.
    destruct (decide (x = a)) as [->|]; [rewrite Hu; simpl; lia|lia]. }
  assert (users h1 !! a = Some (set_us_count (us_count u - 1) u)) as Hu1
    by (subst h1; by rewrite users_upd, decide_True, Hu).
  assert (∀ x, x ≠ a → users h1 !! x = users h !! x) as Ho
    by (intros x Hx; subst h1; by rewrite users_upd, decide_False).
  destruct (Z.eqb_spec (us_count u - 1) 0) as [H0|H0].
  - split.
    + apply (uid_inv_delete _ _ _ Hu1).
      * destruct (inv_chains _ Hi) as (B & HB & Hin). exists B. split; [by apply chains_upd_count|].
        intros x w Hw. destruct (decide (x = a)) as [->|Hx].
        { rewrite Hu1 in Hw. simplify_eq. exact (Hin _ _ Hu). }
        apply Hin. by rewrite <-Ho.
      * assert (∀ x w, users h1 !! x = Some w → ∃ v, users h !! x = Some v ∧ us_uid w = us_uid v) as Hold.
        { intros x w Hw. destruct (decide (x = a)) as [->|Hx]; [|rewrite Ho in Hw by done; eauto].
          rewrite Hu1 in Hw. simplify_eq. eauto. }
        intros x y w v Hw Hv Heq. destruct (Hold _ _ Hw) as (? & ? & ?).
        destruct (Hold _ _ Hv) as (? & ? & ?). eapply (inv_unique _ Hi); [done..|congruence].
      * intros b v Hb Hv. rewrite Ho in Hv by done. by eapply inv_count.
    + split.
      * intros x. unfold count_at at 1. simpl. destruct (decide (x = a)) as [->|Hx].
        { rewrite lookup_delete_eq. unfold count_at. rewrite Hu. simpl. lia. }
        rewrite lookup_delete_ne by done.
        destruct (same_data_at _ _ x (same_data_remove a h1)) as [He _].
        unfold count_at at 1 in He. rewrite He, Hc1, decide_False by done. lia.
      * intros x Hx. destruct (same_data_at _ _ x (same_data_remove a h1)) as (_ & Hp & Hd).
        unfold processes_at, uid_at in *. simpl. rewrite lookup_delete_ne by done.
        by rewrite Hp, Hd, Ho.
      * intros v Hv Hp. simplify_eq. lia.
  - split.
    + apply uid_inv_upd; [done| |done]. intros ? ?. simplify_eq/=. lia.
    + split.
      * done.
      * intros x Hx. unfold processes_at, uid_at. by rewrite Ho.
      * intros v Hv _. simplify_eq. unfold processes_at, uid_at. by rewrite Hu1.
Qed.

Lemma atomic_inc_spec h a u :
  uid_inv h → users h !! a = Some u →
  uid_inv (atomic_inc_count a h) ∧ ref_change a 1 h (atomic_inc_count a h).
Proof.
  intros Hi Hu. pose proof (inv_count _ Hi _ _ Hu) as Hpos. split.
  - apply uid_inv_upd; [done| |done]. intros ? ?. simplify_eq/=. lia.
  - unfold atomic_inc_count. split.
    + intros x. rewrite count_at_upd. unfold count_at.
      destruct (decide (x = a)) as [->|]; [rewrite Hu; simpl; lia|lia].
    + intros x Hx. unfold processes_at, uid_at. by rewrite users_upd, decide_False.
    + intros v Hv _. unfold processes_at, uid_at. rewrite users_upd, decide_True, Hv by done. done.
Qed.

(** ** Adding an entry

    The allocated entry is not yet linked while the chain is searched again. *)
Section new_entry.
Context (h : uidhash) (uid new : Z).
Context (Hi : uid_inv h) (Hn0 : new ≠ 0) (Hnew : users h !! new = None).

Let nu := mk_user 1 0 0 0 (HashEnt 0) uid.
Let h1 := mk_uidhash (<[new := nu]> (users h)) (uidhash_table h).

Lemma fresh_other x : x ≠ new → users h1 !! x = users h !! x.
Proof using Type. intros. simpl. by rewrite lookup_insert_ne. Qed.

Lemma fresh_lookup : users h1 !! new = Some nu.
Proof using Type. simpl. by rewrite lookup_insert_eq. Qed.

Lemma fresh_unlinked B m : chains h B → new ∉ B m.
Proof using Hnew. intros HB Hm. destruct (ch_hash _ _ HB _ _ Hm) as (? & ? & _). congruence. Qed.

Lemma fresh_chains B : chains h B → chains h1 B.
Proof using Hnew.
  intros HB. split.
  - intros n. eapply chain_frame; [|apply HB]. intros x Hx. unfold link.
    rewrite fresh_other; [done|]. intros ->. by eapply fresh_unlinked.
  - apply HB.
  - intros n x Hx. rewrite fresh_other by (intros ->; by eapply fresh_unlinked). by apply HB.
Qed.

Lemma fresh_find B :
  chains h B → chain_find h1 uid (B (uidhashfn uid)) = chain_find h uid (B (uidhashfn uid)).
Proof using Hi Hn0 Hnew.
  intros HB. assert (new ∉ B (uidhashfn uid)) as Hx by by apply fresh_unlinked.
  pose proof (ch_hash _ _ HB (uidhashfn uid)) as Hlive.
  induction (B (uidhashfn uid)) as [|x l IH]; [done|].
  destruct (Hlive x) as (u & Hu & _); [set_solver|].
  rewrite (chain_find_cons h _ _ _ u), (chain_find_cons h1 _ _ _ u), IH; [done|set_solver..| |done].
  by rewrite fresh_other by set_solver.
Qed.

(** Taking the existing entry gives the allocated memory back. *)
Lemma fresh_give_back a :
  a ≠ new →
  mk_uidhash (delete new (users (atomic_inc_count a h1))) (uidhash_table (atomic_inc_count a h1))
  = atomic_inc_count a h.
Proof using Hi Hn0 Hnew.
  intros. unfold atomic_inc_count, upd_user, h1. simpl. f_equal.
  by rewrite delete_alter_ne, delete_insert_id by done.
Qed.

Let h2 := uid_hash_insert new (uidhashentry uid) h1.

Lemma added_lookup x w :
  users h2 !! x = Some w →
  (x = new ∧ us_uid w = uid ∧ us_count w = 1) ∨
  (x ≠ new ∧ ∃ v, users h !! x = Some v ∧ us_uid w = us_uid v ∧ us_count w = us_count v).
Proof using Type.
  intros Hw.
  destruct (same_data_lookup _ _ _ _ (same_data_insert new (uidhashentry uid) h1) Hw)
    as (v & Hv & ? & ? & ?).
  destruct (decide (x = new)) as [->|]; [left|right].
  - rewrite fresh_lookup in Hv. by simplify_eq/=.
  - rewrite fresh_other in Hv by done. eauto.
Qed.

Lemma added_inv : (∀ b, uid_at h b ≠ Some uid) → uid_inv h2.
Proof using Hi Hn0 Hnew.
  intros Hno. destruct Hi as [(B & HB & Hin) Huq Hcnt]. split.
  - exists (bucket_add (uidhashfn uid) new B). split.
    { eapply insert_chains; eauto using fresh_chains, fresh_lookup, fresh_unlinked. }
    intros x w Hw. unfold bucket_add.
    destruct (added_lookup _ _ Hw) as [(-> & -> & _)|(Hx & v & Hv & -> & _)].
    { rewrite fn_lookup_insert. set_solver. }
    destruct (decide (uidhashfn (us_uid v) = uidhashfn uid)) as [He|].
    + rewrite He, fn_lookup_insert, <-He. right. by apply Hin.
    + rewrite fn_lookup_insert_ne by done. by apply Hin.
  - intros x y w v Hw Hv Heq.
    destruct (added_lookup _ _ Hw) as [(-> & Hw1 & _)|(Hx & w' & Hw' & Hw1 & _)],
      (added_lookup _ _ Hv) as [(-> & Hv1 & _)|(Hy & v' & Hv' & Hv1 & _)]; [done|..].
    + destruct (Hno y). unfold uid_at. rewrite Hv'. simpl. congruence.
    + destruct (Hno x). unfold uid_at. rewrite Hw'. simpl. congruence.
    + eapply Huq; [done..|congruence].
  - intros x w Hw.
    destruct (added_lookup _ _ Hw) as [(_ & _ & ->)|(_ & v & Hv & _ & ->)]; [lia|by eauto].
Qed.

Lemma added_refs :
  ref_change new 1 h h2 ∧ uid_at h2 new = Some uid ∧ processes_at h2 new = 0.
Proof using Hi Hn0 Hnew.
  assert (same_data h1 h2) as Hsd by apply same_data_insert. split_and!; [split|..].
  - intros x. destruct (same_data_at _ _ x Hsd) as (-> & _ & _). unfold count_at.
    destruct (decide (x = new)) as [->|]; [rewrite fresh_lookup, Hnew; simpl; lia|].
    rewrite fresh_other by done. lia.
  - intros x Hx. destruct (same_data_at _ _ x Hsd) as (_ & -> & ->).
    unfold processes_at, uid_at. by rewrite fresh_other.
  - intros v Hv. congruence.
  - destruct (same_data_at _ _ new Hsd) as (_ & _ & ->). unfold uid_at. by rewrite fresh_lookup.
  - destruct (same_data_at _ _ new Hsd) as (_ & -> & _). unfold processes_at. by rewrite fresh_lookup.
Qed.

(** The locked section behind the allocation ends with a reference to the one
    entry of the uid, found or new. *)
Lemma alloc_uid_insert_spec :
  ∃ a h', alloc_uid_insert uid new h = Some (a, h') ∧ a ≠ 0 ∧ uid_inv h' ∧
    uid_at h' a = Some uid ∧ ref_change a 1 h h' ∧
    (uid_at h a = Some uid ∨ a = new ∧ processes_at h' a = 0 ∧ ∀ b, uid_at h b ≠ Some uid).
Proof using Hi Hn0 Hnew.
  destruct (inv_chains _ Hi) as (B & HB & Hin). unfold alloc_uid_insert. cbv zeta.
  fold nu h1. rewrite (find_chains _ B), fresh_find by (try apply fresh_chains; done).
  destruct (chain_find h uid (B (uidhashfn uid))) as [a|] eqn:Hfind.
  - destruct (chain_find_Some _ _ _ _ HB Hfind) as [Ha0 Ha].
    rewrite (proj2 (Z.eqb_neq a 0)) by done. simpl negb. cbv iota.
    rewrite fresh_give_back by (intros ->; unfold uid_at in Ha; by rewrite Hnew in Ha).
    unfold uid_at in Ha. destruct (users h !! a) as [u|] eqn:Hu; simplify_eq/=.
    destruct (atomic_inc_spec _ _ _ Hi Hu) as [Hi' Hr].
    eexists _, _. split; [done|]. split_and!; [done..| |done|].
    + pose proof (inv_count _ Hi _ _ Hu). apply (rc_self _ _ _ _ Hr _ Hu). lia.
    + left. unfold uid_at. by rewrite Hu.
  - simpl negb. cbv iota. fold h2.
    assert (∀ b, uid_at h b ≠ Some uid) as Hno by (intros b; by eapply chain_find_None).
    destruct added_refs as (Hr & Hu & Hp). exists new, h2.
    split_and!; auto using added_inv.
Qed.
End new_entry.

(** [alloc_uid] ends with a reference to the entry of the uid, or fails for lack
    of memory and then changes nothing. *)
Lemma alloc_uid_spec `{UidSlab} h uid :
  uid_inv h →
  ∃ a h', alloc_uid uid h = Some (a, h') ∧
    ((a = 0 ∧ h' = h) ∨
     (a ≠ 0 ∧ uid_inv h' ∧ uid_at h' a = Some uid ∧ ref_change a 1 h h' ∧
      (uid_at h a = Some uid ∨ users h !! a = None ∧ processes_at h' a = 0))).
Proof.
  intros Hi. unfold alloc_uid.
  destruct (uid_hash_find_spec _ uid Hi) as (a & [(-> & Ha0 & Ha)|(-> & Hno)]).
  - rewrite (proj2 (Z.eqb_neq a 0)) by done. simpl negb. cbv iota.
    eexists _, _. split; [done|]. right. unfold uid_at in Ha.
    destruct (users h !! a) as [u|] eqn:Hu; simplify_eq/=.
    destruct (atomic_inc_spec _ _ _ Hi Hu) as [Hi' Hr]. split_and!; [done..| |done|].
    + pose proof (inv_count _ Hi _ _ Hu). apply (rc_self _ _ _ _ Hr _ Hu). lia.
    + left. unfold uid_at. by rewrite Hu.
  - simpl negb. cbv iota. destruct (kmem_cache_alloc (users h)) as [new|] eqn:Hk; [|by eauto 6].
    apply kmem_cache_alloc_fresh in Hk as (Hn0 & _ & Hn).
    destruct (alloc_uid_insert_spec h uid new Hi Hn0 Hn)
      as (b & h' & -> & Hb0 & Hi' & Hb & Hr & Hor).
    eexists _, _. split; [done|]. right. split_and!; [done..|].
    destruct Hor as [?|(-> & ? & _)]; eauto.
Qed.

Lemma uid_cache_init_lookup x w :
  users uid_cache_init !! x = Some w → x = root_user ∧ us_uid w = 0 ∧ us_count w = 1.
Proof.
  intros Hw. set (h0 := mk_uidhash {[ root_user := mk_user 1 1 0 0 (HashEnt 0) 0 ]} (λ _, 0)).
  destruct (same_data_lookup h0 _ _ _ (same_data_insert _ _ _) Hw) as (v & Hv & -> & -> & _).
  simpl in Hv. by apply lookup_singleton_Some in Hv as [<- <-].
Qed.

Lemma uid_cache_init_inv : uid_inv uid_cache_init.
Proof.
  split.
  - exists (bucket_add (uidhashfn 0) root_user (λ _, [])). split.
    + eapply insert_chains; [|by apply lookup_singleton_eq|done|done|set_solver].
      split; [done|intros; constructor|set_solver].
    + intros a u (-> & -> & _)%uid_cache_init_lookup. unfold bucket_add. rewrite fn_lookup_insert. set_solver.
  - intros a b u v (-> & _)%uid_cache_init_lookup (-> & _)%uid_cache_init_lookup. done.
  - intros a u (_ & _ & ->)%uid_cache_init_lookup. lia.
Qed.

(** * Refinement: the cache is a finite map from uids to reference counts *)

Definition cache_rep (h : uidhash) (M : gmap Z Z) : Prop :=
  uid_inv h ∧ ∀ uid c, M !! uid = Some c ↔ ∃ a, uid_at h a = Some uid ∧ count_at h a = c.

(** The sections that run under [uidhash_lock], in any order: tasks that sleep
    in the allocation of [alloc_uid] let others run between its two searches. *)
Inductive uid_op :=
  | UFind (uid : Z)
  | UInsert (uid new : Z)
  | UFree (a : Z).

Definition exec_op (op : uid_op) (h : uidhash) : option (Z * uidhash) :=
  match op with
  | UFind uid => uid_hash_find uid (uidhashentry uid) h
  | UInsert uid new => alloc_uid_insert uid new h
  | UFree a => Some (0, free_uid a h)
  end.

(** The allocator returns unused memory, and only a live entry is released. *)
Definition op_ok (op : uid_op) (h : uidhash) : Prop :=
  match op with
  | UFind _ => True
  | UInsert _ new => new ≠ 0 ∧ users h !! new = None
  | UFree a => is_Some (users h !! a)
  end.

Definition get_ref (c : option Z) : option Z := Some (default 0 c + 1).
Definition put_ref (c : option Z) : option Z :=
  c ≫= λ c, if c =? 1 then None else Some (c - 1).

Definition spec_op (op : uid_op) (h : uidhash) (M : gmap Z Z) : gmap Z Z :=
  match op with
  | UFind uid => alter (Z.add 1) uid M
  | UInsert uid _ => partial_alter get_ref uid M
  | UFree a => match uid_at h a with
               | Some uid => partial_alter put_ref uid M
               | None => M
               end
  end.

(** What the caller gets: the entry of its uid, or [NULL] from a search for a
    uid that is not in the map. *)
Definition op_result (op : uid_op) (M : gmap Z Z) (r : Z) (h' : uidhash) : Prop :=
  match op with
  | UFind uid => match M !! uid with
                 | Some _ => uid_at h' r = Some uid
                 | None => r = 0
                 end
  | UInsert uid _ => uid_at h' r = Some uid
  | UFree _ => True
  end.

Lemma uid_at_live h a uid : uid_at h a = Some uid → ∃ u, users h !! a = Some u ∧ us_uid u = uid.
Proof. unfold uid_at. destruct (users h !! a); [|done]. intros. simplify_eq/=. eauto. Qed.

Lemma uid_at_unique h a b uid :
  uid_inv h → uid_at h a = Some uid → uid_at h b = Some uid → a = b.
Proof.
  intros Hi (u & Hu & Hu')%uid_at_live (v & Hv & Hv')%uid_at_live.
  eapply (inv_unique _ Hi); [done..|congruence].
Qed.

Lemma rep_lookup h M a uid :
  cache_rep h M → uid_at h a = Some uid → M !! uid = Some (count_at h a).
Proof. intros [_ HM] Ha. apply HM. eauto. Qed.

Lemma rep_None h M uid :
  cache_rep h M → (∀ a, uid_at h a ≠ Some uid) → M !! uid = None.
Proof.
  intros [_ HM] Hno. destruct (M !! uid) eqn:He; [|done].
  apply HM in He as (a & Ha & _). by destruct (Hno a).
Qed.

Lemma rep_get h h' M a uid :
  cache_rep h M → uid_inv h' → ref_change a 1 h h' → uid_at h' a = Some uid →
  (uid_at h a = Some uid ∨ users h !! a = None ∧ ∀ b, uid_at h b ≠ Some uid) →
  cache_rep h' (partial_alter get_ref uid M).
Proof.
  intros HR Hi' Hr Ha Hor. split; [done|]. intros uid' c.
  assert (∀ x, x ≠ a → uid_at h' x = uid_at h x ∧ count_at h' x = count_at h x) as Ho.
  { intros x Hx. destruct (rc_other _ _ _ _ Hr _ Hx) as [_ ->].
    rewrite (rc_count _ _ _ _ Hr), decide_False by done. split; [done|lia]. }
  assert (default 0 (M !! uid) = count_at h a) as Hdef.
  { destruct Hor as [Hua|[Hd Hno]]; [by erewrite rep_lookup by done|].
    erewrite rep_None by done. unfold count_at. by rewrite Hd. }
  destruct (decide (uid' = uid)) as [->|Hne].
  - rewrite lookup_partial_alter_eq. unfold get_ref. rewrite Hdef.
    pose proof (rc_count _ _ _ _ Hr a) as Hc. rewrite decide_True in Hc by done. split.
    + intros [= <-]. eauto.
    + intros (x & Hx & <-). rewrite (uid_at_unique _ _ _ _ Hi' Hx Ha). by rewrite Hc.
  - rewrite lookup_partial_alter_ne by done. destruct HR as [_ HM]. rewrite HM.
    assert (uid_at h a ≠ Some uid').
    { destruct Hor as [->|[Hd _]]; [congruence|]. unfold uid_at. by rewrite Hd. }
    split; intros (x & Hx & Hcx); exists x;
      (destruct (Ho x) as [Hu1 Hc1]; [intros ->; congruence|]; split; congruence).
Qed.

Lemma rep_put h h' M a uid :
  cache_rep h M → uid_inv h' → ref_change a (-1) h h' → uid_at h a = Some uid →
  cache_rep h' (partial_alter put_ref uid M).
Proof.
  intros HR Hi' Hr Ha. split; [done|]. intros uid' c.
  assert (∀ x, x ≠ a → uid_at h' x = uid_at h x ∧ count_at h' x = count_at h x) as Ho.
  { intros x Hx. destruct (rc_other _ _ _ _ Hr _ Hx) as [_ ->].
    rewrite (rc_count _ _ _ _ Hr), decide_False by done. split; [done|lia]. }
  pose proof (rc_count _ _ _ _ Hr a) as Hc. rewrite decide_True in Hc by done.
  destruct (uid_at_live _ _ _ Ha) as (u & Hu & Huu).
  assert (count_at h a = us_count u) as Hcu by (unfold count_at; by rewrite Hu).
  pose proof (inv_count _ (proj1 HR) _ _ Hu).
  destruct (decide (uid' = uid)) as [->|Hne].
  - rewrite lookup_partial_alter_eq, (rep_lookup _ _ _ _ HR Ha), Hcu. simpl.
    assert (∀ x, uid_at h' x = Some uid → x = a) as Hxa.
    { intros x Hx. destruct (decide (x = a)) as [|Hxa]; [done|].
      rewrite (proj1 (Ho _ Hxa)) in Hx. by eapply uid_at_unique, Ha; [apply HR|]. }
    destruct (Z.eqb_spec (us_count u) 1).
    + split; [done|]. intros (x & Hx & _). pose proof (Hxa _ Hx) as ->.
      apply uid_at_live in Hx as (v & Hv & _). pose proof (inv_count _ Hi' _ _ Hv).
      unfold count_at in Hc at 1. rewrite Hv in Hc. simpl in Hc. lia.
    + destruct (rc_self _ _ _ _ Hr _ Hu) as [_ Hs]; [lia|]. split.
      * intros [= <-]. exists a. split; [by rewrite Hs, Huu|]. lia.
      * intros (x & Hx & <-). pose proof (Hxa _ Hx) as ->. f_equal. lia.
  - rewrite lookup_partial_alter_ne by done. destruct HR as [_ HM]. rewrite HM.
    assert (uid_at h' a ≠ Some uid').
    { intros (v & Hv & Hv')%uid_at_live. pose proof (inv_count _ Hi' _ _ Hv).
      unfold count_at in Hc at 1. rewrite Hv in Hc. simpl in Hc.
      destruct (rc_self _ _ _ _ Hr _ Hu) as [_ Hs]; [lia|].
      unfold uid_at in Hs. rewrite Hv in Hs. simpl in Hs. congruence. }
    split; intros (x & Hx & Hcx); exists x;
      (destruct (Ho x) as [Hu1 Hc1]; [intros ->; congruence|]; split; congruence).
Qed.

Lemma cache_step h M op :
  cache_rep h M → op_ok op h →
  ∃ r h', exec_op op h = Some (r, h') ∧ cache_rep h' (spec_op op h M) ∧ op_result op M r h'.
Proof.
  intros HR Hok. pose proof (proj1 HR) as Hi. destruct op as [uid|uid new|a]; simpl.
  - destruct (uid_hash_find_spec _ uid Hi) as (a & [(-> & Ha0 & Ha)|(-> & Hno)]).
    + destruct (uid_at_live _ _ _ Ha) as (u & Hu & Huu).
      destruct (atomic_inc_spec _ _ _ Hi Hu) as [Hi' Hr].
      assert (uid_at (atomic_inc_count a h) a = Some uid) as Ha'.
      { pose proof (inv_count _ Hi _ _ Hu). destruct (rc_self _ _ _ _ Hr _ Hu) as [_ ->]; [lia|].
        by rewrite Huu. }
      eexists _, _. split; [done|]. rewrite (rep_lookup _ _ _ _ HR Ha). split; [|done].
      replace (alter (Z.add 1) uid M) with (partial_alter get_ref uid M); [by eapply rep_get; eauto|].
      apply partial_alter_ext. rewrite (rep_lookup _ _ _ _ HR Ha). intros ? <-.
      unfold get_ref. simpl. f_equal. lia.
    + eexists _, _. split; [done|]. rewrite (rep_None _ _ _ HR Hno). split; [|done].
      replace (alter (Z.add 1) uid M) with M; [done|].
      symmetry. by apply alter_id; intros x Hx; rewrite (rep_None _ _ _ HR Hno) in Hx.
  - destruct Hok as [Hn0 Hn].
    destruct (alloc_uid_insert_spec h uid new Hi Hn0 Hn)
      as (b & h' & -> & Hb0 & Hi' & Hb & Hr & Hor).
    eexists _, _. split; [done|]. split; [|done].
    eapply rep_get; [done..|]. destruct Hor as [?|(-> & _ & ?)]; eauto.
  - destruct Hok as [u Hu]. destruct (free_uid_spec _ _ _ Hi Hu) as [Hi' Hr].
    eexists _, _. split; [done|]. split; [|done].
    unfold uid_at at 1. rewrite Hu. simpl. eapply rep_put; [done..|].
    unfold uid_at. by rewrite Hu.
Qed.

(** The states the cache reaches, with the map the specification predicts. *)
Inductive uid_reach : uidhash → gmap Z Z → Prop :=
  | uid_reach_init : uid_reach uid_cache_init {[ 0 := 1 ]}
  | uid_reach_step h M op r h' :
      uid_reach h M → op_ok op h → exec_op op h = Some (r, h') →
      uid_reach h' (spec_op op h M).

Lemma uid_reach_rep h M : uid_reach h M → cache_rep h M.
Proof.
  induction 1 as [|h M op r h' _ IH Hok Hx].
  - split; [apply uid_cache_init_inv|]. intros uid c.
    rewrite lookup_singleton_Some. split.
    + intros [<- <-]. by exists root_user.
    + intros (a & (u & Hu & <-)%uid_at_live & Hc). unfold count_at in Hc. rewrite Hu in Hc.
      apply uid_cache_init_lookup in Hu as (_ & -> & Hc1). simpl in Hc. split; lia.
  - destruct (cache_step _ _ _ IH Hok) as (r' & h'' & Hx' & HR & _). by simplify_eq.
Qed.

(** C12. The user cache refines a finite map from uids to reference counts. In
    every state reached by interleaving its locked sections, the chains are
    well linked, each uid has at most one entry, whose count is the one the map
    predicts, and the next section ends: a search finds the entry exactly when
    the map has the uid, and [alloc_uid]'s second section returns the entry of
    its uid also when another task added it during the allocation. *)
Theorem uid_cache_refines h M op :
  uid_reach h M → op_ok op h →
  uid_inv h ∧
  (∀ uid c, M !! uid = Some c ↔ ∃ a, uid_at h a = Some uid ∧ count_at h a = c) ∧
  ∃ r h', exec_op op h = Some (r, h') ∧ cache_rep h' (spec_op op h M) ∧ op_result op M r h'.
Proof.
  intros HR Hok. apply uid_reach_rep in HR. destruct HR as [Hi HM] eqn:He.
  split_and!; [done|done|]. by apply cache_step.
Qed.

(** Two tasks miss uid 500 and both allocate: the second one returns the entry
    the first one added. *)
Lemma uid_cache_refines_witness :
  let h1 := default (0, uid_cache_init) (exec_op (UFind 500) uid_cache_init) in
  let h2 := default (0, uid_cache_init) (exec_op (UFind 500) h1.2) in
  let h3 := default (0, uid_cache_init) (exec_op (UInsert 500 10) h2.2) in
  (h1.1, h2.1, h3.1) = (0, 0, 10) ∧
  ∃ r h', exec_op (UInsert 500 20) h3.2 = Some (r, h') ∧
    cache_rep h' (spec_op (UInsert 500 20) h3.2
      (partial_alter get_ref 500 (alter (Z.add 1) 500 (alter (Z.add 1) 500 {[ 0 := 1 ]})))).
Proof.
  intros h1 h2 h3. split; [vm_compute; reflexivity|].
  destruct (uid_cache_refines h3.2
    (partial_alter get_ref 500 (alter (Z.add 1) 500 (alter (Z.add 1) 500 {[ 0 := 1 ]})))
    (UInsert 500 20)) as (_ & _ & r & h' & Hx & HR & _); [| |eauto].
  - apply (uid_reach_step h2.2 _ (UInsert 500 10) h3.1); [|vm_compute; split; [lia|done]|vm_compute; reflexivity].
    apply (uid_reach_step h1.2 _ (UFind 500) h2.1); [|done|vm_compute; reflexivity].
    apply (uid_reach_step uid_cache_init _ (UFind 500) h1.1); [constructor|done|vm_compute; reflexivity].
  - vm_compute. split; [lia|done].
Defined.
