(* ===== verification/Cred.v ===== *)
(** Credentials and the system calls on them (kernel/sys.c,
    kernel/capability.c, and the parts of include/linux/sched.h and
    include/linux/capability.h they use): user and group ids, capability sets,
    process groups and sessions, priorities, resource limits, host name and
    [prctl]. *)
From S2P Require Import Prelude UidHash.
From stdpp Require Import list options.
Open Scope cint_scope.
Open Scope Z_scope.

(** * Constants *)

Definition CAP_SETGID : Z := 6.
Definition CAP_SETUID : Z := 7.
Definition CAP_SETPCAP : Z := 8.
Definition CAP_SYS_ADMIN : Z := 21.
Definition CAP_SYS_NICE : Z := 23.
Definition CAP_SYS_RESOURCE : Z := 24.
Definition CAP_FS_MASK : Z := 0x1f.
Definition PF_SUPERPRIV : Z := 0x100.
Definition NGROUPS : Z := 32.
Definition NR_OPEN : Z := 1048576.
Definition NSIG : Z := 64.
Definition NEW_UTS_LEN : Z := 64.
Definition RLIM_NLIMITS : Z := 11.
Definition RLIMIT_NOFILE : Z := 7.
Definition PRIO_PROCESS : Z := 0.
Definition PRIO_PGRP : Z := 1.
Definition PRIO_USER : Z := 2.
Definition LINUX_CAPABILITY_VERSION : Z := 0x19980330.
Definition S_IRWXUGO : Z := 0x1ff.
Definition SECUREBITS_DEFAULT : Z := 0.
Definition SECURE_NO_SETUID_FIXUP : Z := 2.

(** [(uid_t) -1], "leave this id alone" *)
Definition ID_NONE : Z := 4294967295.

(** * Tasks *)

Record rlimit := mk_rlimit { rlim_cur : Z; rlim_max : Z }.

(** The fields of [struct task_struct] the calls below use. A task is named by
    a number, its address. *)
Record task := mk_task {
  pid : Z;  (* pid_t *)
  pgrp : Z;  (* pid_t *)
  tty_old_pgrp : Z;  (* pid_t *)
  session : Z;  (* pid_t *)
  leader : bool;
  did_exec : bool;
  p_opptr : nat;  (* task_struct * *)
  p_pptr : nat;  (* task_struct * *)
  tty : Z;  (* tty_struct *, 0 for NULL *)
  nice : Z;  (* long *)
  flags : Z;  (* unsigned long *)
  pdeath_signal : Z;  (* int *)
  uid : Z;  (* uid_t *)
  euid : Z;  (* uid_t *)
  suid : Z;  (* uid_t *)
  fsuid : Z;  (* uid_t *)
  gid : Z;  (* gid_t *)
  egid : Z;  (* gid_t *)
  sgid : Z;  (* gid_t *)
  fsgid : Z;  (* gid_t *)
  ngroups : Z;  (* int *)
  groups : list Z;  (* gid_t groups[NGROUPS] *)
  cap_effective : Z;  (* kernel_cap_t *)
  cap_inheritable : Z;  (* kernel_cap_t *)
  cap_permitted : Z;  (* kernel_cap_t *)
  keep_capabilities : bool;
  user : Z;  (* user_struct * *)
  rlim : list rlimit;  (* rlim[RLIM_NLIMITS] *)
  mm : Z;  (* mm_struct * *)
  fs : Z  (* fs_struct * *)
}.

(** Field assignments. *)
Definition set_pgrp (x : Z) (t : task) : task :=
  mk_task (pid t) x (tty_old_pgrp t) (session t) (leader t) (did_exec t) (p_opptr t) (p_pptr t) (tty t) (nice t) (flags t) (pdeath_signal t) (uid t) (euid t) (suid t) (fsuid t) (gid t) (egid t) (sgid t) (fsgid t) (ngroups t) (groups t) (cap_effective t) (cap_inheritable t) (cap_permitted t) (keep_capabilities t) (user t) (rlim t) (mm t) (fs t).
Definition set_tty_old_pgrp (x : Z) (t : task) : task :=
  mk_task (pid t) (pgrp t) x (session t) (leader t) (did_exec t) (p_opptr t) (p_pptr t) (tty t) (nice t) (flags t) (pdeath_signal t) (uid t) (euid t) (suid t) (fsuid t) (gid t) (egid t) (sgid t) (fsgid t) (ngroups t) (groups t) (cap_effective t) (cap_inheritable t) (cap_permitted t) (keep_capabilities t) (user t) (rlim t) (mm t) (fs t).
Definition set_session (x : Z) (t : task) : task :=
  mk_task (pid t) (pgrp t) (tty_old_pgrp t) x (leader t) (did_exec t) (p_opptr t) (p_pptr t) (tty t) (nice t) (flags t) (pdeath_signal t) (uid t) (euid t) (suid t) (fsuid t) (gid t) (egid t) (sgid t) (fsgid t) (ngroups t) (groups t) (cap_effective t) (cap_inheritable t) (cap_permitted t) (keep_capabilities t) (user t) (rlim t) (mm t) (fs t).
Definition set_leader (x : bool) (t : task) : task :=
  mk_task (pid t) (pgrp t) (tty_old_pgrp t) (session t) x (did_exec t) (p_opptr t) (p_pptr t) (tty t) (nice t) (flags t) (pdeath_signal t) (uid t) (euid t) (suid t) (fsuid t) (gid t) (egid t) (sgid t) (fsgid t) (ngroups t) (groups t) (cap_effective t) (cap_inheritable t) (cap_permitted t) (keep_capabilities t) (user t) (rlim t) (mm t) (fs t).
Definition set_tty (x : Z) (t : task) : task :=
  mk_task (pid t) (pgrp t) (tty_old_pgrp t) (session t) (leader t) (did_exec t) (p_opptr t) (p_pptr t) x (nice t) (flags t) (pdeath_signal t) (uid t) (euid t) (suid t) (fsuid t) (gid t) (egid t) (sgid t) (fsgid t) (ngroups t) (groups t) (cap_effective t) (cap_inheritable t) (cap_permitted t) (keep_capabilities t) (user t) (rlim t) (mm t) (fs t).
Definition set_nice (x : Z) (t : task) : task :=
  mk_task (pid t) (pgrp t) (tty_old_pgrp t) (session t) (leader t) (did_exec t) (p_opptr t) (p_pptr t) (tty t) x (flags t) (pdeath_signal t) (uid t) (euid t) (suid t) (fsuid t) (gid t) (egid t) (sgid t) (fsgid t) (ngroups t) (groups t) (cap_effective t) (cap_inheritable t) (cap_permitted t) (keep_capabilities t) (user t) (rlim t) (mm t) (fs t).
Definition set_flags (x : Z) (t : task) : task :=
  mk_task (pid t) (pgrp t) (tty_old_pgrp t) (session t) (leader t) (did_exec t) (p_opptr t) (p_pptr t) (tty t) (nice t) x (pdeath_signal t) (uid t) (euid t) (suid t) (fsuid t) (gid t) (egid t) (sgid t) (fsgid t) (ngroups t) (groups t) (cap_effective t) (cap_inheritable t) (cap_permitted t) (keep_capabilities t) (user t) (rlim t) (mm t) (fs t).
Definition set_pdeath_signal (x : Z) (t : task) : task :=
  mk_task (pid t) (pgrp t) (tty_old_pgrp t) (session t) (leader t) (did_exec t) (p_opptr t) (p_pptr t) (tty t) (nice t) (flags t) x (uid t) (euid t) (suid t) (fsuid t) (gid t) (egid t) (sgid t) (fsgid t) (ngroups t) (groups t) (cap_effective t) (cap_inheritable t) (cap_permitted t) (keep_capabilities t) (user t) (rlim t) (mm t) (fs t).
Definition set_uid (x : Z) (t : task) : task :=
  mk_task (pid t) (pgrp t) (tty_old_pgrp t) (session t) (leader t) (did_exec t) (p_opptr t) (p_pptr t) (tty t) (nice t) (flags t) (pdeath_signal t) x (euid t) (suid t) (fsuid t) (gid t) (egid t) (sgid t) (fsgid t) (ngroups t) (groups t) (cap_effective t) (cap_inheritable t) (cap_permitted t) (keep_capabilities t) (user t) (rlim t) (mm t) (fs t).
Definition set_euid (x : Z) (t : task) : task :=
  mk_task (pid t) (pgrp t) (tty_old_pgrp t) (session t) (leader t) (did_exec t) (p_opptr t) (p_pptr t) (tty t) (nice t) (flags t) (pdeath_signal t) (uid t) x (suid t) (fsuid t) (gid t) (egid t) (sgid t) (fsgid t) (ngroups t) (groups t) (cap_effective t) (cap_inheritable t) (cap_permitted t) (keep_capabilities t) (user t) (rlim t) (mm t) (fs t).
Definition set_suid (x : Z) (t : task) : task :=
  mk_task (pid t) (pgrp t) (tty_old_pgrp t) (session t) (leader t) (did_exec t) (p_opptr t) (p_pptr t) (tty t) (nice t) (flags t) (pdeath_signal t) (uid t) (euid t) x (fsuid t) (gid t) (egid t) (sgid t) (fsgid t) (ngroups t) (groups t) (cap_effective t) (cap_inheritable t) (cap_permitted t) (keep_capabilities t) (user t) (rlim t) (mm t) (fs t).
Definition set_fsuid (x : Z) (t : task) : task :=
  mk_task (pid t) (pgrp t) (tty_old_pgrp t) (session t) (leader t) (did_exec t) (p_opptr t) (p_pptr t) (tty t) (nice t) (flags t) (pdeath_signal t) (uid t) (euid t) (suid t) x (gid t) (egid t) (sgid t) (fsgid t) (ngroups t) (groups t) (cap_effective t) (cap_inheritable t) (cap_permitted t) (keep_capabilities t) (user t) (rlim t) (mm t) (fs t).
Definition set_gid (x : Z) (t : task) : task :=
  mk_task (pid t) (pgrp t) (tty_old_pgrp t) (session t) (leader t) (did_exec t) (p_opptr t) (p_pptr t) (tty t) (nice t) (flags t) (pdeath_signal t) (uid t) (euid t) (suid t) (fsuid t) x (egid t) (sgid t) (fsgid t) (ngroups t) (groups t) (cap_effective t) (cap_inheritable t) (cap_permitted t) (keep_capabilities t) (user t) (rlim t) (mm t) (fs t).
Definition set_egid (x : Z) (t : task) : task :=
  mk_task (pid t) (pgrp t) (tty_old_pgrp t) (session t) (leader t) (did_exec t) (p_opptr t) (p_pptr t) (tty t) (nice t) (flags t) (pdeath_signal t) (uid t) (euid t) (suid t) (fsuid t) (gid t) x (sgid t) (fsgid t) (ngroups t) (groups t) (cap_effective t) (cap_inheritable t) (cap_permitted t) (keep_capabilities t) (user t) (rlim t) (mm t) (fs t).
Definition set_sgid (x : Z) (t : task) : task :=
  mk_task (pid t) (pgrp t) (tty_old_pgrp t) (session t) (leader t) (did_exec t) (p_opptr t) (p_pptr t) (tty t) (nice t) (flags t) (pdeath_signal t) (uid t) (euid t) (suid t) (fsuid t) (gid t) (egid t) x (fsgid t) (ngroups t) (groups t) (cap_effective t) (cap_inheritable t) (cap_permitted t) (keep_capabilities t) (user t) (rlim t) (mm t) (fs t).
Definition set_fsgid (x : Z) (t : task) : task :=
  mk_task (pid t) (pgrp t) (tty_old_pgrp t) (session t) (leader t) (did_exec t) (p_opptr t) (p_pptr t) (tty t) (nice t) (flags t) (pdeath_signal t) (uid t) (euid t) (suid t) (fsuid t) (gid t) (egid t) (sgid t) x (ngroups t) (groups t) (cap_effective t) (cap_inheritable t) (cap_permitted t) (keep_capabilities t) (user t) (rlim t) (mm t) (fs t).
Definition set_ngroups (x : Z) (t : task) : task :=
  mk_task (pid t) (pgrp t) (tty_old_pgrp t) (session t) (leader t) (did_exec t) (p_opptr t) (p_pptr t) (tty t) (nice t) (flags t) (pdeath_signal t) (uid t) (euid t) (suid t) (fsuid t) (gid t) (egid t) (sgid t) (fsgid t) x (groups t) (cap_effective t) (cap_inheritable t) (cap_permitted t) (keep_capabilities t) (user t) (rlim t) (mm t) (fs t).
Definition set_groups (x : list Z) (t : task) : task :=
  mk_task (pid t) (pgrp t) (tty_old_pgrp t) (session t) (leader t) (did_exec t) (p_opptr t) (p_pptr t) (tty t) (nice t) (flags t) (pdeath_signal t) (uid t) (euid t) (suid t) (fsuid t) (gid t) (egid t) (sgid t) (fsgid t) (ngroups t) x (cap_effective t) (cap_inheritable t) (cap_permitted t) (keep_capabilities t) (user t) (rlim t) (mm t) (fs t).
Definition set_cap_effective (x : Z) (t : task) : task :=
  mk_task (pid t) (pgrp t) (tty_old_pgrp t) (session t) (leader t) (did_exec t) (p_opptr t) (p_pptr t) (tty t) (nice t) (flags t) (pdeath_signal t) (uid t) (euid t) (suid t) (fsuid t) (gid t) (egid t) (sgid t) (fsgid t) (ngroups t) (groups t) x (cap_inheritable t) (cap_permitted t) (keep_capabilities t) (user t) (rlim t) (mm t) (fs t).
Definition set_cap_inheritable (x : Z) (t : task) : task :=
  mk_task (pid t) (pgrp t) (tty_old_pgrp t) (session t) (leader t) (did_exec t) (p_opptr t) (p_pptr t) (tty t) (nice t) (flags t) (pdeath_signal t) (uid t) (euid t) (suid t) (fsuid t) (gid t) (egid t) (sgid t) (fsgid t) (ngroups t) (groups t) (cap_effective t) x (cap_permitted t) (keep_capabilities t) (user t) (rlim t) (mm t) (fs t).
Definition set_cap_permitted (x : Z) (t : task) : task :=
  mk_task (pid t) (pgrp t) (tty_old_pgrp t) (session t) (leader t) (did_exec t) (p_opptr t) (p_pptr t) (tty t) (nice t) (flags t) (pdeath_signal t) (uid t) (euid t) (suid t) (fsuid t) (gid t) (egid t) (sgid t) (fsgid t) (ngroups t) (groups t) (cap_effective t) (cap_inheritable t) x (keep_capabilities t) (user t) (rlim t) (mm t) (fs t).
Definition set_keep_capabilities (x : bool) (t : task) : task :=
  mk_task (pid t) (pgrp t) (tty_old_pgrp t) (session t) (leader t) (did_exec t) (p_opptr t) (p_pptr t) (tty t) (nice t) (flags t) (pdeath_signal t) (uid t) (euid t) (suid t) (fsuid t) (gid t) (egid t) (sgid t) (fsgid t) (ngroups t) (groups t) (cap_effective t) (cap_inheritable t) (cap_permitted t) x (user t) (rlim t) (mm t) (fs t).
Definition set_user_ptr (x : Z) (t : task) : task :=
  mk_task (pid t) (pgrp t) (tty_old_pgrp t) (session t) (leader t) (did_exec t) (p_opptr t) (p_pptr t) (tty t) (nice t) (flags t) (pdeath_signal t) (uid t) (euid t) (suid t) (fsuid t) (gid t) (egid t) (sgid t) (fsgid t) (ngroups t) (groups t) (cap_effective t) (cap_inheritable t) (cap_permitted t) (keep_capabilities t) x (rlim t) (mm t) (fs t).
Definition set_rlim (x : list rlimit) (t : task) : task :=
  mk_task (pid t) (pgrp t) (tty_old_pgrp t) (session t) (leader t) (did_exec t) (p_opptr t) (p_pptr t) (tty t) (nice t) (flags t) (pdeath_signal t) (uid t) (euid t) (suid t) (fsuid t) (gid t) (egid t) (sgid t) (fsgid t) (ngroups t) (groups t) (cap_effective t) (cap_inheritable t) (cap_permitted t) (keep_capabilities t) (user t) x (mm t) (fs t).

(** The tasks, the ring of [next_task] behind [init_task], the chains of the pid
    hash, the running task, the [dumpable] bit of each [mm] and the umask of each
    [fs] (both can be shared by tasks), the host names, the user cache and the
    security settings. *)
Record kstate := mk_kstate {
  tasks : nat → task;
  task_list : list nat;
  pidhash : Z → list nat;
  current : nat;
  dumpable : Z → bool;
  umask : Z → Z;
  nodename : list Z;
  domainname : list Z;
  uids : uidhash;
  securebits : Z
}.

Definition set_tasks (x : nat → task) (s : kstate) : kstate :=
  mk_kstate x (task_list s) (pidhash s) (current s) (dumpable s) (umask s) (nodename s) (domainname s) (uids s) (securebits s).
Definition set_dumpable (x : Z → bool) (s : kstate) : kstate :=
  mk_kstate (tasks s) (task_list s) (pidhash s) (current s) x (umask s) (nodename s) (domainname s) (uids s) (securebits s).
Definition set_umask (x : Z → Z) (s : kstate) : kstate :=
  mk_kstate (tasks s) (task_list s) (pidhash s) (current s) (dumpable s) x (nodename s) (domainname s) (uids s) (securebits s).
Definition set_nodename (x : list Z) (s : kstate) : kstate :=
  mk_kstate (tasks s) (task_list s) (pidhash s) (current s) (dumpable s) (umask s) x (domainname s) (uids s) (securebits s).
Definition set_domainname (x : list Z) (s : kstate) : kstate :=
  mk_kstate (tasks s) (task_list s) (pidhash s) (current s) (dumpable s) (umask s) (nodename s) x (uids s) (securebits s).
Definition set_uids (x : uidhash) (s : kstate) : kstate :=
  mk_kstate (tasks s) (task_list s) (pidhash s) (current s) (dumpable s) (umask s) (nodename s) (domainname s) x (securebits s).

Notation K := (ST kstate).

Definition cur (s : kstate) : task := tasks s (current s).

Definition upd_task (p : nat) (f : task → task) : K unit :=
  modify (λ s, set_tasks (<[p := f (tasks s p)]> (tasks s)) s).
Definition upd_cur (f : task → task) : K unit :=
  modify (λ s, set_tasks (<[current s := f (cur s)]> (tasks s)) s).

(** [current->mm->dumpable = b] *)
Definition put_dumpable (b : bool) : K unit :=
  modify (λ s, set_dumpable (<[mm (cur s) := b]> (dumpable s)) s).

(** [b || m], where [m] runs only when [b] is false. *)
Definition orelse (b : bool) (m : K bool) : K bool := if b then mret true else m.

(** * Capabilities (include/linux/capability.h, include/linux/sched.h) *)

Definition CAP_TO_MASK (x : Z) : Z := Z.shiftl 1 x.
Definition cap_raised (c flag : Z) : bool := c & CAP_TO_MASK flag.
Definition cap_combine (a b : Z) : Z := Z.lor a b.
Definition cap_issubset (a set : Z) : bool := negb (a & Z.lnot set).

Definition capable (cap : Z) : K bool :=
  t ← gets cur;
  if (cap_raised (cap_effective t) cap : bool) then
    upd_cur (λ t, set_flags (Z.lor (flags t) PF_SUPERPRIV) t);; mret true
  else mret false.

(** include/linux/securebits.h *)
Definition issecure (x : Z) (s : kstate) : bool :=
  if (Z.shiftl 1 (x + 1) & SECUREBITS_DEFAULT : bool) then Z.shiftl 1 x & SECUREBITS_DEFAULT
  else Z.shiftl 1 x & securebits s.

(** * User ids *)

(** [cap_emulate_setxuid]: the capability sets after a change of the uids. *)
Definition cap_emulate_setxuid (old_ruid old_euid old_suid : Z) : K unit :=
  c ← gets cur;
  when (((old_ruid =? 0) || (old_euid =? 0) || (old_suid =? 0)) &&
        (negb (uid c =? 0) && negb (euid c =? 0) && negb (suid c =? 0)) &&
        negb (keep_capabilities c))
    (upd_cur (λ t, set_cap_effective 0 (set_cap_permitted 0 t)));;
  when ((old_euid =? 0) && negb (euid c =? 0)) (upd_cur (set_cap_effective 0));;
  when (negb (old_euid =? 0) && (euid c =? 0))
    (upd_cur (λ t, set_cap_effective (cap_permitted t) t)).

Section calls.
Context `{UidSlab}.

(** The process count of a user. *)
Definition add_processes (a d : Z) (h : uidhash) : uidhash :=
  upd_user a (λ u, set_us_processes (us_processes u + d) u) h.

Definition set_user (new_ruid : Z) (dumpclear : bool) : K Z := λ s,
  match alloc_uid new_ruid (uids s) with
  | None => (-EAGAIN, s)
  | Some (new_user, h) =>
      if new_user =? 0 then (-EAGAIN, set_uids h s)
      else
        (old_user ← gets (λ s, user (cur s));
         modify (λ s, set_uids (add_processes old_user (-1) (uids s)) s);;
         modify (λ s, set_uids (add_processes new_user 1 (uids s)) s);;
         when dumpclear (put_dumpable false);;
         upd_cur (set_uid new_ruid);;
         upd_cur (set_user_ptr new_user);;
         modify (λ s, set_uids (free_uid old_user (uids s)) s);;
         mret 0) (set_uids h s)
  end.

Definition sys_setreuid (ruid_ euid_ : Z) : K Z :=
  old_ruid ← gets (λ s, uid (cur s));
  old_euid ← gets (λ s, euid (cur s));
  old_suid ← gets (λ s, suid (cur s));
  ok ← (if (ruid_ =? ID_NONE : bool) then mret true
        else orelse ((old_ruid =? ruid_) || (old_euid =? ruid_)) (capable CAP_SETUID));
  if negb ok then mret (-EPERM) else
  let new_ruid := if ruid_ =? ID_NONE then old_ruid else ruid_ in
  ok ← (if (euid_ =? ID_NONE : bool) then mret true
        else orelse ((old_ruid =? euid_) || (old_euid =? euid_) || (old_suid =? euid_))
               (capable CAP_SETUID));
  if negb ok then mret (-EPERM) else
  let new_euid := if euid_ =? ID_NONE then old_euid else euid_ in
  err ← (if negb (new_ruid =? old_ruid) then set_user new_ruid (negb (new_euid =? old_euid))
         else mret 0);
  if (err <? 0 : bool) then mret (-EAGAIN) else
  when (negb (new_euid =? old_euid)) (put_dumpable false);;
  upd_cur (λ t, set_fsuid new_euid (set_euid new_euid t));;
  when (negb (ruid_ =? ID_NONE) || (negb (euid_ =? ID_NONE) && negb (euid_ =? old_ruid)))
    (upd_cur (λ t, set_suid (euid t) t));;
  upd_cur (λ t, set_fsuid (euid t) t);;
  fixup ← gets (issecure SECURE_NO_SETUID_FIXUP);
  when (negb fixup) (cap_emulate_setxuid old_ruid old_euid old_suid);;
  mret 0.

Definition sys_setuid (uid_ : Z) : K Z :=
  old_euid ← gets (λ s, euid (cur s));
  old_ruid ← gets (λ s, uid (cur s));
  old_suid ← gets (λ s, suid (cur s));
  priv ← capable CAP_SETUID;
  err ← (if (priv && negb (uid_ =? old_ruid))%bool then set_user uid_ (negb (old_euid =? uid_))
         else mret 0);
  if (err <? 0 : bool) then mret (-EAGAIN) else
  if (negb priv && (negb (uid_ =? old_ruid) && negb (uid_ =? old_suid)))%bool then mret (-EPERM) else
  let new_suid := if (priv : bool) then uid_ else old_suid in
  when (negb (old_euid =? uid_)) (put_dumpable false);;
  upd_cur (λ t, set_fsuid uid_ (set_euid uid_ t));;
  upd_cur (set_suid new_suid);;
  fixup ← gets (issecure SECURE_NO_SETUID_FIXUP);
  when (negb fixup) (cap_emulate_setxuid old_ruid old_euid old_suid);;
  mret 0.

(** An id a task may switch to without privilege: none, or one it has. *)
Definition id_allowed (x a b c : Z) : bool :=
  (x =? ID_NONE) || (x =? a) || (x =? b) || (x =? c).

Definition sys_setresuid (ruid_ euid_ suid_ : Z) : K Z :=
  c ← gets cur;
  priv ← capable CAP_SETUID;
  if (negb priv && negb (id_allowed ruid_ (uid c) (euid c) (suid c) &&
                         id_allowed euid_ (uid c) (euid c) (suid c) &&
                         id_allowed suid_ (uid c) (euid c) (suid c)))%bool
  then mret (-EPERM) else
  err ← (if (negb (ruid_ =? ID_NONE) && negb (ruid_ =? uid c))%bool
         then set_user ruid_ (negb (euid_ =? euid c)) else mret 0);
  if (err <? 0 : bool) then mret (-EAGAIN) else
  when (negb (euid_ =? ID_NONE))
    (when (negb (euid_ =? euid c)) (put_dumpable false);; upd_cur (set_euid euid_));;
  upd_cur (λ t, set_fsuid (euid t) t);;
  when (negb (suid_ =? ID_NONE)) (upd_cur (set_suid suid_));;
  fixup ← gets (issecure SECURE_NO_SETUID_FIXUP);
  when (negb fixup) (cap_emulate_setxuid (uid c) (euid c) (suid c));;
  mret 0.

Definition sys_setfsuid (uid_ : Z) : K Z :=
  old ← gets cur;
  ok ← orelse ((uid_ =? uid old) || (uid_ =? euid old) || (uid_ =? suid old) || (uid_ =? fsuid old))
         (capable CAP_SETUID);
  when ok
    (when (negb (uid_ =? fsuid old)) (put_dumpable false);; upd_cur (set_fsuid uid_));;
  fixup ← gets (issecure SECURE_NO_SETUID_FIXUP);
  new_fsuid ← gets (λ s, fsuid (cur s));
  when (negb fixup)
    (when ((fsuid old =? 0) && negb (new_fsuid =? 0))
       (upd_cur (λ t, set_cap_effective (cap_effective t &~ CAP_FS_MASK) t));;
     when (negb (fsuid old =? 0) && (new_fsuid =? 0))
       (upd_cur (λ t, set_cap_effective
          (Z.lor (cap_effective t) (Z.land (cap_permitted t) CAP_FS_MASK)) t)));;
  mret (s32 (fsuid old)).
End calls.

(** * Group ids *)

Definition sys_setregid (rgid egid_ : Z) : K Z :=
  c ← gets cur;
  ok ← (if (rgid =? ID_NONE : bool) then mret true
        else orelse ((gid c =? rgid) || (egid c =? rgid)) (capable CAP_SETGID));
  if negb ok then mret (-EPERM) else
  let new_rgid := if rgid =? ID_NONE then gid c else rgid in
  ok ← (if (egid_ =? ID_NONE : bool) then mret true
        else orelse ((gid c =? egid_) || (egid c =? egid_) || (sgid c =? egid_)) (capable CAP_SETGID));
  if negb ok then mret (-EPERM) else
  let new_egid := if egid_ =? ID_NONE then egid c else egid_ in
  when (negb (new_egid =? egid c)) (put_dumpable false);;
  when (negb (rgid =? ID_NONE) || (negb (egid_ =? ID_NONE) && negb (egid_ =? gid c)))
    (upd_cur (set_sgid new_egid));;
  upd_cur (set_fsgid new_egid);;
  upd_cur (set_egid new_egid);;
  upd_cur (set_gid new_rgid);;
  mret 0.

Definition sys_setgid (gid_ : Z) : K Z :=
  c ← gets cur;
  priv ← capable CAP_SETGID;
  if (priv : bool) then
    when (negb (egid c =? gid_)) (put_dumpable false);;
    upd_cur (λ t, set_gid gid_ (set_egid gid_ (set_sgid gid_ (set_fsgid gid_ t))));;
    mret 0
  else if ((gid_ =? gid c) || (gid_ =? sgid c))%bool then
    when (negb (egid c =? gid_)) (put_dumpable false);;
    upd_cur (λ t, set_egid gid_ (set_fsgid gid_ t));;
    mret 0
  else mret (-EPERM).

Definition sys_setresgid (rgid egid_ sgid_ : Z) : K Z :=
  c ← gets cur;
  priv ← capable CAP_SETGID;
  if (negb priv && negb (id_allowed rgid (gid c) (egid c) (sgid c) &&
                         id_allowed egid_ (gid c) (egid c) (sgid c) &&
                         id_allowed sgid_ (gid c) (egid c) (sgid c)))%bool
  then mret (-EPERM) else
  when (negb (egid_ =? ID_NONE))
    (when (negb (egid_ =? egid c)) (put_dumpable false);; upd_cur (set_egid egid_));;
  upd_cur (λ t, set_fsgid (egid t) t);;
  when (negb (rgid =? ID_NONE)) (upd_cur (set_gid rgid));;
  when (negb (sgid_ =? ID_NONE)) (upd_cur (set_sgid sgid_));;
  mret 0.

Definition sys_setfsgid (gid_ : Z) : K Z :=
  old ← gets cur;
  ok ← orelse ((gid_ =? gid old) || (gid_ =? egid old) || (gid_ =? sgid old) || (gid_ =? fsgid old))
         (capable CAP_SETGID);
  when ok
    (when (negb (gid_ =? fsgid old)) (put_dumpable false);; upd_cur (set_fsgid gid_));;
  mret (s32 (fsgid old)).

(** ** Supplementary groups *)

(** A copy from user space over the start of a kernel array: [uc_data] is what
    the copied range holds afterwards, also when the copy faulted on the way
    (the part not copied is then zeroed). *)
Record ucopy := mk_ucopy { uc_data : list Z; uc_fault : bool }.

Definition overlay (n : Z) (data old : list Z) : list Z :=
  let data := take (Z.to_nat n) data in
  take (length old) data ++ drop (length data) old.

Definition sys_setgroups (gidsetsize : Z) (grouplist : ucopy) : K Z :=
  priv ← capable CAP_SETGID;
  if negb priv then mret (-EPERM) else
  if (u32 gidsetsize >? NGROUPS : bool) then mret (-EINVAL) else
  upd_cur (λ t, set_groups (overlay gidsetsize (uc_data grouplist) (groups t)) t);;
  if (uc_fault grouplist : bool) then mret (-EFAULT) else
  upd_cur (set_ngroups gidsetsize);;
  mret 0.

(** The result and the gids written to the caller's buffer; [fault] tells
    whether that buffer is writable. *)
Definition sys_getgroups (gidsetsize : Z) (fault : bool) : K (Z * list Z) :=
  if (gidsetsize <? 0 : bool) then mret (-EINVAL, []) else
  c ← gets cur;
  if (gidsetsize =? 0 : bool) then mret (ngroups c, []) else
  if (ngroups c >? gidsetsize : bool) then mret (-EINVAL, []) else
  if fault then mret (-EFAULT, []) else
  mret (ngroups c, take (Z.to_nat (ngroups c)) (groups c)).

(** The loop over [groups], [i] entries to go. *)
Fixpoint supplemental_loop (i : nat) (l : list Z) (grp : Z) : bool :=
  match i, l with
  | S i, g :: l => if g =? grp then true else supplemental_loop i l grp
  | _, _ => false
  end.

Definition supplemental_group_member (t : task) (grp : Z) : bool :=
  if ngroups t =? 0 then false
  else supplemental_loop (Z.to_nat (ngroups t)) (groups t) grp.

Definition in_group_p (t : task) (grp : Z) : bool :=
  if negb (grp =? fsgid t) then supplemental_group_member t grp else true.

Definition in_egroup_p (t : task) (grp : Z) : bool :=
  if negb (grp =? egid t) then supplemental_group_member t grp else true.

(** * Capability sets *)

(** [hash[pid_hashfn(pid)]] is searched along the chain. *)
Definition PIDHASH_SZ : Z := 1024.
Definition pid_hashfn (x : Z) : Z := Z.land (Z.lxor (Z.shiftr x 8) x) (PIDHASH_SZ - 1).

Definition find_task_by_pid (s : kstate) (p : Z) : option nat :=
  snd <$> list_find (λ i, pid (tasks s i) = p) (pidhash s (pid_hashfn p)).

Record cap_data := mk_cap_data { effective : Z; permitted : Z; inheritable : Z }.

Definition set_caps (d : cap_data) (t : task) : task :=
  set_cap_permitted (permitted d) (set_cap_inheritable (inheritable d)
    (set_cap_effective (effective d) t)).

(** The header's [version] and [pid] are [None] when reading them faults;
    [put_ok] tells whether the supported version can be written back. *)
Definition sys_capget (version : option Z) (put_ok : bool) (hpid : option Z) (copy_ok : bool) :
    K (Z * option cap_data) :=
  match version with
  | None => mret (-EFAULT, None)
  | Some v =>
      if negb (v =? LINUX_CAPABILITY_VERSION)
      then mret (if put_ok then -EINVAL else -EFAULT, None) else
      match hpid with
      | None => mret (-EFAULT, None)
      | Some p =>
          if (p <? 0 : bool) then mret (-EINVAL, None) else
          s ← gets id;
          match (if (negb (p =? 0) && negb (p =? pid (cur s)))%bool
                 then find_task_by_pid s p else Some (current s)) with
          | None => mret (-ESRCH, None)
          | Some target =>
              let t := tasks s target in
              if copy_ok
              then mret (0, Some (mk_cap_data (cap_effective t) (cap_permitted t) (cap_inheritable t)))
              else mret (-EFAULT, None)
          end
      end
  end.

Fixpoint cap_set_pg_loop (l : list nat) (pgrp_ : Z) (d : cap_data) : K unit :=
  match l with
  | [] => skip
  | target :: l =>
      t ← gets (λ s, tasks s target);
      when (pgrp t =? pgrp_) (upd_task target (set_caps d));;
      cap_set_pg_loop l pgrp_ d
  end.

Definition cap_set_pg (pgrp_ : Z) (d : cap_data) : K unit :=
  l ← gets task_list; cap_set_pg_loop l pgrp_ d.

Fixpoint cap_set_all_loop (l : list nat) (d : cap_data) : K unit :=
  match l with
  | [] => skip
  | target :: l =>
      s ← gets id;
      when (negb ((target =? current s)%nat || (pid (tasks s target) =? 1)))
        (upd_task target (set_caps d));;
      cap_set_all_loop l d
  end.

Definition cap_set_all (d : cap_data) : K unit :=
  l ← gets task_list; cap_set_all_loop l d.

(** The three subset tests of [sys_capset]. *)
Definition capset_legal (d : cap_data) (t c : task) : bool :=
  cap_issubset (inheritable d) (cap_combine (cap_inheritable t) (cap_permitted c)) &&
  cap_issubset (permitted d) (cap_combine (cap_permitted t) (cap_permitted c)) &&
  cap_issubset (effective d) (permitted d).

(** [sys_capset] once its arguments are read. *)
Definition capset_apply (p : Z) (d : cap_data) : K Z :=
  s ← gets id;
  match (if ((p >? 0) && negb (p =? pid (cur s)))%bool
         then find_task_by_pid s p else Some (current s)) with
  | None => mret (-ESRCH)
  | Some target =>
      if negb (capset_legal d (tasks s target) (cur s)) then mret (-EPERM) else
      (if (p <? 0 : bool) then
         if (p =? -1 : bool) then cap_set_all d else cap_set_pg (s32 (- p)) d
       else upd_task target (set_caps d));;
      mret 0
  end.

Definition sys_capset (version : option Z) (put_ok : bool) (hpid : option Z)
    (data : option cap_data) : K Z :=
  match version with
  | None => mret (-EFAULT)
  | Some v =>
      if negb (v =? LINUX_CAPABILITY_VERSION)
      then mret (if put_ok then -EINVAL else -EFAULT) else
      match hpid with
      | None => mret (-EFAULT)
      | Some p =>
          ok ← orelse (p =? 0) (capable CAP_SETPCAP);
          if negb ok then mret (-EPERM) else
          match data with
          | None => mret (-EFAULT)
          | Some d => capset_apply p d
          end
      end
  end.

(** * Priorities *)

Definition proc_sel (p : nat) (which who : Z) (s : kstate) : bool :=
  let t := tasks s p in
  if negb (pid t =? 0) then
    if which =? PRIO_PROCESS then
      if (who =? 0) && (p =? current s)%nat then true else pid t =? who
    else if which =? PRIO_PGRP then
      pgrp t =? (if who =? 0 then pgrp (cur s) else who)
    else if which =? PRIO_USER then
      uid t =? u32 (if who =? 0 then s32 (uid (cur s)) else who)
    else false
  else false.

Fixpoint setpriority_loop (l : list nat) (which who niceval error : Z) : K Z :=
  match l with
  | [] => mret error
  | p :: l =>
      sel ← gets (proc_sel p which who);
      if negb sel then setpriority_loop l which who niceval error else
      t ← gets (λ s, tasks s p);
      c ← gets cur;
      ok ← orelse ((uid t =? euid c) || (uid t =? uid c)) (capable CAP_SYS_NICE);
      if negb ok then setpriority_loop l which who niceval (-EPERM) else
      let error := if error =? -ESRCH then 0 else error in
      ok ← (if (niceval <? nice t : bool) then capable CAP_SYS_NICE else mret true);
      if negb ok then setpriority_loop l which who niceval (-EACCES) else
      upd_task p (set_nice niceval);;
      setpriority_loop l which who niceval error
  end.

Definition sys_setpriority (which who niceval : Z) : K Z :=
  if ((which >? 2) || (which <? 0))%bool then mret (-EINVAL) else
  let niceval := if niceval <? -20 then -20 else niceval in
  let niceval := if niceval >? 19 then 19 else niceval in
  l ← gets task_list;
  setpriority_loop l which who niceval (-ESRCH).

Fixpoint getpriority_loop (l : list nat) (which who retval : Z) (s : kstate) : Z :=
  match l with
  | [] => retval
  | p :: l =>
      if negb (proc_sel p which who s) then getpriority_loop l which who retval s else
      let niceval := 20 - nice (tasks s p) in
      getpriority_loop l which who (if niceval >? retval then niceval else retval) s
  end.

Definition sys_getpriority (which who : Z) : K Z :=
  if ((which >? 2) || (which <? 0))%bool then mret (-EINVAL) else
  s ← gets id;
  mret (getpriority_loop (task_list s) which who (-ESRCH) s).

(** * Process groups and sessions *)

(** The end of [sys_setpgid], from the check of the group. *)
Definition setpgid_group (p : nat) (pid_ pgid : Z) : K Z :=
  s ← gets id;
  if (negb (pgid =? pid_) &&
      negb (existsb (λ tmp, (pgrp (tasks s tmp) =? pgid) &&
                            (session (tasks s tmp) =? session (cur s))) (task_list s)))%bool
  then mret (-EPERM)
  else upd_task p (set_pgrp pgid);; mret 0.

Definition sys_setpgid (pid_ pgid : Z) : K Z :=
  s ← gets id;
  let pid_ := if pid_ =? 0 then pid (cur s) else pid_ in
  let pgid := if pgid =? 0 then pid_ else pgid in
  if (pgid <? 0 : bool) then mret (-EINVAL) else
  match find_task_by_pid s pid_ with
  | None => mret (-ESRCH)
  | Some p =>
      let t := tasks s p in
      if ((p_pptr t =? current s)%nat || (p_opptr t =? current s)%nat)%bool then
        if negb (session t =? session (cur s)) then mret (-EPERM) else
        if did_exec t then mret (-EACCES) else
        if leader t then mret (-EPERM) else
        setpgid_group p pid_ pgid
      else if negb (p =? current s)%nat then mret (-ESRCH) else
      if leader t then mret (-EPERM) else
      setpgid_group p pid_ pgid
  end.

Definition sys_getpgid (pid_ : Z) : K Z :=
  s ← gets id;
  if (pid_ =? 0 : bool) then mret (pgrp (cur s)) else
  mret (match find_task_by_pid s pid_ with
        | Some p => pgrp (tasks s p)
        | None => -ESRCH
        end).

Definition sys_getpgrp : K Z := gets (λ s, pgrp (cur s)).

Definition sys_getsid (pid_ : Z) : K Z :=
  s ← gets id;
  if (pid_ =? 0 : bool) then mret (session (cur s)) else
  mret (match find_task_by_pid s pid_ with
        | Some p => session (tasks s p)
        | None => -ESRCH
        end).

Definition sys_setsid : K Z :=
  s ← gets id;
  if existsb (λ p, pgrp (tasks s p) =? pid (cur s)) (task_list s) then mret (-EPERM) else
  upd_cur (set_leader true);;
  upd_cur (λ t, set_session (pid t) (set_pgrp (pid t) t));;
  upd_cur (set_tty 0);;
  upd_cur (set_tty_old_pgrp 0);;
  gets (λ s, pgrp (cur s)).

(** * Host and domain name *)

Definition sys_sethostname (name : ucopy) (len : Z) : K Z :=
  ok ← capable CAP_SYS_ADMIN;
  if negb ok then mret (-EPERM) else
  if ((len <? 0) || (len >? NEW_UTS_LEN))%bool then mret (-EINVAL) else
  modify (λ s, set_nodename (overlay len (uc_data name) (nodename s)) s);;
  if (uc_fault name : bool) then mret (-EFAULT) else
  modify (λ s, set_nodename (<[Z.to_nat len := 0]> (nodename s)) s);;
  mret 0.

Definition sys_setdomainname (name : ucopy) (len : Z) : K Z :=
  ok ← capable CAP_SYS_ADMIN;
  if negb ok then mret (-EPERM) else
  if ((len <? 0) || (len >? NEW_UTS_LEN))%bool then mret (-EINVAL) else
  modify (λ s, set_domainname (overlay len (uc_data name) (domainname s)) s);;
  if (uc_fault name : bool) then mret (-EFAULT) else
  modify (λ s, set_domainname (<[Z.to_nat len := 0]> (domainname s)) s);;
  mret 0.

(** [strlen] *)
Fixpoint strlen (l : list Z) : nat :=
  match l with
  | [] => 0
  | c :: l => if c =? 0 then 0 else S (strlen l)
  end.

(** The bytes written to the caller's buffer. *)
Definition sys_gethostname (len : Z) (fault : bool) : K (Z * list Z) :=
  if (len <? 0 : bool) then mret (-EINVAL, []) else
  s ← gets id;
  let i := 1 + Z.of_nat (strlen (nodename s)) in
  let i := if i >? len then len else i in
  if fault then mret (-EFAULT, []) else
  mret (0, take (Z.to_nat i) (nodename s)).

(** * Resource limits *)

(** [current->rlim + resource], read inside its bounds only. *)
Definition rlim_at (t : task) (resource : Z) : rlimit :=
  nth (Z.to_nat resource) (rlim t) (mk_rlimit 0 0).

Definition sys_getrlimit (resource : Z) (fault : bool) : K (Z * option rlimit) :=
  if (resource >=? RLIM_NLIMITS : bool) then mret (-EINVAL, None) else
  c ← gets cur;
  if fault then mret (-EFAULT, None) else mret (0, Some (rlim_at c resource)).

Definition sys_old_getrlimit (resource : Z) (fault : bool) : K (Z * option rlimit) :=
  if (resource >=? RLIM_NLIMITS : bool) then mret (-EINVAL, None) else
  c ← gets cur;
  let x := rlim_at c resource in
  let x := if rlim_cur x >? 0x7FFFFFFF then mk_rlimit 0x7FFFFFFF (rlim_max x) else x in
  let x := if rlim_max x >? 0x7FFFFFFF then mk_rlimit (rlim_cur x) 0x7FFFFFFF else x in
  if fault then mret (-EFAULT, None) else mret (0, Some x).

Definition sys_setrlimit (resource : Z) (arg : option rlimit) : K Z :=
  if (resource >=? RLIM_NLIMITS : bool) then mret (-EINVAL) else
  match arg with
  | None => mret (-EFAULT)
  | Some new_rlim =>
      c ← gets cur;
      let old_rlim := rlim_at c resource in
      ok ← (if ((rlim_cur new_rlim >? rlim_max old_rlim) || (rlim_max new_rlim >? rlim_max old_rlim))%bool
            then capable CAP_SYS_RESOURCE else mret true);
      if negb ok then mret (-EPERM) else
      if ((resource =? RLIMIT_NOFILE) &&
          ((rlim_cur new_rlim >? NR_OPEN) || (rlim_max new_rlim >? NR_OPEN)))%bool
      then mret (-EPERM) else
      upd_cur (λ t, set_rlim (<[Z.to_nat resource := new_rlim]> (rlim t)) t);;
      mret 0
  end.

(** * umask and prctl *)

Definition sys_umask (mask : Z) : K Z :=
  s ← gets id;
  modify (λ s, set_umask (<[fs (cur s) := Z.land mask S_IRWXUGO]> (umask s)) s);;
  mret (umask s (fs (cur s))).

(** The options of include/linux/prctl.h; on the i386 none of the unaligned
    access and FPU emulation controls exists. *)
Definition sys_prctl (option_ arg2 : Z) (put_ok : bool) : K (Z * option Z) :=
  c ← gets cur;
  dump ← gets (λ s, dumpable s (mm (cur s)));
  if (option_ =? 1 : bool) then (* PR_SET_PDEATHSIG *)
    let sig := s32 arg2 in
    if ((sig <? 0) || (sig >? NSIG))%bool then mret (-EINVAL, None)
    else upd_cur (set_pdeath_signal sig);; mret (0, None)
  else if (option_ =? 2 : bool) then (* PR_GET_PDEATHSIG *)
    if put_ok then mret (0, Some (pdeath_signal c)) else mret (-EFAULT, None)
  else if (option_ =? 3 : bool) then (* PR_GET_DUMPABLE *)
    mret (if (dump : bool) then 1 else 0, None)
  else if (option_ =? 4 : bool) then (* PR_SET_DUMPABLE *)
    if (negb (arg2 =? 0) && negb (arg2 =? 1))%bool then mret (-EINVAL, None)
    else put_dumpable (arg2 =? 1);; mret (0, None)
  else if (option_ =? 7 : bool) then (* PR_GET_KEEPCAPS *)
    mret (if keep_capabilities c then 1 else 0, None)
  else if (option_ =? 8 : bool) then (* PR_SET_KEEPCAPS *)
    if (negb (arg2 =? 0) && negb (arg2 =? 1))%bool then mret (-EINVAL, None)
    else upd_cur (set_keep_capabilities (arg2 =? 1));; mret (0, None)
  else mret (-EINVAL, None).
