(* ===== verification/CredProofs.v ===== *)
(** Proof rules for the credential calls: predicates on single tasks, how
    [capable] behaves under them, and the invariants of the calls that change
    ids, capability sets, groups and limits. *)
From S2P Require Import Prelude UidHash Cred.
From stdpp Require Import list options.
Open Scope cint_scope.
Open Scope Z_scope.

(** * Any call, by any task *)

Inductive syscall :=
  | Ssetreuid (ruid euid : Z)
  | Ssetuid (uid : Z)
  | Ssetresuid (ruid euid suid : Z)
  | Ssetfsuid (uid : Z)
  | Ssetregid (rgid egid : Z)
  | Ssetgid (gid : Z)
  | Ssetresgid (rgid egid sgid : Z)
  | Ssetfsgid (gid : Z)
  | Ssetgroups (n : Z) (l : ucopy)
  | Scapset (version : option Z) (put_ok : bool) (hpid : option Z) (data : option cap_data)
  | Ssetpriority (which who niceval : Z)
  | Ssetpgid (pid pgid : Z)
  | Ssetsid
  | Ssethostname (name : ucopy) (len : Z)
  | Ssetdomainname (name : ucopy) (len : Z)
  | Ssetrlimit (resource : Z) (arg : option rlimit)
  | Sumask (mask : Z)
  | Sprctl (option_ arg2 : Z) (put_ok : bool).

(** The entry of a call: the registers hold 32 bits, read as [int] or as
    [unsigned]. *)
Definition exec `{UidSlab} (c : syscall) : K Z :=
  match c with
  | Ssetreuid r e => sys_setreuid (u32 r) (u32 e)
  | Ssetuid u => sys_setuid (u32 u)
  | Ssetresuid r e s => sys_setresuid (u32 r) (u32 e) (u32 s)
  | Ssetfsuid u => sys_setfsuid (u32 u)
  | Ssetregid r e => sys_setregid (u32 r) (u32 e)
  | Ssetgid g => sys_setgid (u32 g)
  | Ssetresgid r e s => sys_setresgid (u32 r) (u32 e) (u32 s)
  | Ssetfsgid g => sys_setfsgid (u32 g)
  | Ssetgroups n l => sys_setgroups (s32 n) l
  | Scapset v ok p d => sys_capset v ok p d
  | Ssetpriority w who n => sys_setpriority (s32 w) (s32 who) (s32 n)
  | Ssetpgid p g => sys_setpgid (s32 p) (s32 g)
  | Ssetsid => sys_setsid
  | Ssethostname n l => sys_sethostname n (s32 l)
  | Ssetdomainname n l => sys_setdomainname n (s32 l)
  | Ssetrlimit r a => sys_setrlimit (u32 r) a
  | Sumask m => sys_umask (s32 m)
  | Sprctl o a ok => (r ← sys_prctl (s32 o) (u32 a) ok; mret r.1)
  end.

Definition set_current (p : nat) (s : kstate) : kstate :=
  mk_kstate (tasks s) (task_list s) (pidhash s) p (dumpable s) (umask s) (nodename s)
    (domainname s) (uids s) (securebits s).

(** A schedule: which task makes which call. *)
Fixpoint run `{UidSlab} (l : list (nat * syscall)) (s : kstate) : kstate :=
  match l with
  | [] => s
  | (p, c) :: l => run l (exec c (set_current p s)).2
  end.

(** * Predicates on tasks

    [on W T]: every task of the set [W] satisfies [T]. *)
Definition on (W : nat → Prop) (T : task → Prop) (s : kstate) : Prop :=
  ∀ p, W p → T (tasks s p).

Section on.
Context (W : nat → Prop) (T : task → Prop).

Lemma on_upd_task p f :
  (∀ t, T t → T (f t)) → preserves (on W T) (upd_task p f).
Proof.
  intros Hf s Hs q Hq. simpl. destruct (decide (q = p)) as [->|].
  - rewrite fn_lookup_insert. by apply Hf, Hs.
  - rewrite fn_lookup_insert_ne by done. by apply Hs.
Qed.

Lemma on_upd_cur f : (∀ t, T t → T (f t)) → preserves (on W T) (upd_cur f).
Proof. intros Hf s Hs. by apply (on_upd_task (current s) f Hf s Hs). Qed.

(** Steps that leave the tasks alone. *)
Lemma on_same f : (∀ s, tasks (f s) = tasks s) → preserves (on W T) (modify f).
Proof. intros Hf s Hs p Hp. simpl. rewrite Hf. by apply Hs. Qed.

Lemma on_put_dumpable b : preserves (on W T) (put_dumpable b).
Proof. by apply on_same. Qed.
End on.

#[export] Hint Resolve on_put_dumpable : kernel.

(** * Capability sets as sets of bits *)

Lemma cap_issubset_spec a b :
  cap_issubset a b = true ↔ ∀ i, 0 <= i → Z.testbit a i = true → Z.testbit b i = true.
Proof.
  unfold cap_issubset, flag. rewrite negb_involutive, Z.eqb_eq. split.
  - intros H0 i Hi Ha. assert (Z.testbit (Z.land a (Z.lnot b)) i = false) as Ht
      by (rewrite H0; apply Z.bits_0).
    rewrite Z.land_spec, Z.lnot_spec, Ha in Ht by done.
    by destruct (Z.testbit b i).
  - intros Hs. apply Z.bits_inj_0. intros i. destruct (decide (0 <= i)) as [Hi|Hi].
    + rewrite Z.land_spec, Z.lnot_spec by done.
      destruct (Z.testbit a i) eqn:Ha; [|done]. by rewrite (Hs i Hi Ha).
    + apply Z.testbit_neg_r. lia.
Qed.

Definition subset (a b : Z) : Prop := cap_issubset a b = true.

#[export] Instance subset_preorder : PreOrder subset.
Proof.
  split.
  - intros a. by apply cap_issubset_spec.
  - intros a b c Hab Hbc. unfold subset in *. rewrite cap_issubset_spec in *. eauto.
Qed.

Lemma subset_0 a : subset 0 a.
Proof. apply cap_issubset_spec. intros i Hi. by rewrite Z.bits_0. Qed.

Lemma subset_0_inv a : subset a 0 → a = 0.
Proof.
  unfold subset. rewrite cap_issubset_spec. intros Ha. apply Z.bits_inj_0. intros i.
  destruct (Z.testbit a i) eqn:Hi; [|done].
  destruct (decide (0 <= i)); [|by rewrite Z.testbit_neg_r in Hi by lia].
  apply Ha in Hi; [|done]. by rewrite Z.bits_0 in Hi.
Qed.

Lemma subset_lor a b c : subset a c → subset b c → subset (Z.lor a b) c.
Proof.
  unfold subset. rewrite !cap_issubset_spec. intros Ha Hb i Hi.
  rewrite Z.lor_spec, orb_true_iff. naive_solver.
Qed.

Lemma subset_land_l a b : subset (Z.land a b) a.
Proof. apply cap_issubset_spec. intros i Hi. rewrite Z.land_spec, andb_true_iff. naive_solver. Qed.

(** A set without a bit has no subset with it. *)
Lemma cap_raised_subset a b c :
  subset a b → 0 <= c → cap_raised b c = false → cap_raised a c = false.
Proof.
  unfold subset, cap_raised, flag, CAP_TO_MASK. rewrite !negb_false_iff, !Z.eqb_eq.
  rewrite cap_issubset_spec. intros Hs Hc Hb.
  assert (Z.testbit b c = false) as Hbc.
  { assert (Z.testbit (Z.land b (Z.shiftl 1 c)) c = false) as Ht by (rewrite Hb; apply Z.bits_0).
    rewrite Z.land_spec, Z.shiftl_spec, Z.sub_diag in Ht by done. by destruct (Z.testbit b c). }
  apply Z.bits_inj_0. intros i. rewrite Z.land_spec.
  destruct (decide (0 <= i)) as [Hi|]; [|by rewrite (Z.testbit_neg_r a) by lia].
  rewrite Z.shiftl_spec by done. destruct (decide (i = c)) as [->|Hne].
  - destruct (Z.testbit a c) eqn:Ha; [|done]. apply Hs in Ha; [congruence|done].
  - apply andb_false_intro2. change 1 with (2 ^ 0). rewrite Z.pow2_bits_false; [done|lia].
Qed.

(** * Capability containment *)

(** What a task may hold when [P] bounds every capability of the system. *)
Record caps_in (P : Z) (t : task) : Prop := {
  ci_eff : subset (cap_effective t) (cap_permitted t);
  ci_perm : subset (cap_permitted t) P;
  ci_inh : subset (cap_inheritable t) P
}.

Lemma caps_in_same P t t' :
  cap_effective t' = cap_effective t → cap_permitted t' = cap_permitted t →
  cap_inheritable t' = cap_inheritable t → caps_in P t → caps_in P t'.
Proof. intros He Hp Hi []. by split; rewrite ?He, ?Hp, ?Hi. Qed.

Lemma caps_in_clear P t : caps_in P t → caps_in P (set_cap_effective 0 t).
Proof. intros []. split; simpl; auto using subset_0. Qed.

Section containment.
Context (P : Z) (W : nat → Prop).
Notation I := (on W (caps_in P)).

Lemma contain_cur f :
  (∀ t, cap_effective (f t) = cap_effective t ∧ cap_permitted (f t) = cap_permitted t ∧
        cap_inheritable (f t) = cap_inheritable t) → preserves I (upd_cur f).
Proof.
  intros Hf. apply on_upd_cur. intros t. destruct (Hf t) as (?&?&?). by apply caps_in_same.
Qed.

Lemma contain_task p f :
  (∀ t, cap_effective (f t) = cap_effective t ∧ cap_permitted (f t) = cap_permitted t ∧
        cap_inheritable (f t) = cap_inheritable t) → preserves I (upd_task p f).
Proof.
  intros Hf. apply on_upd_task. intros t. destruct (Hf t) as (?&?&?). by apply caps_in_same.
Qed.

Lemma contain_uids f : preserves I (modify (λ s, set_uids (f s) s)).
Proof. by apply on_same. Qed.

Lemma contain_capable c : preserves I (capable c).
Proof.
  unfold capable. preserves_tac. by apply contain_cur.
Qed.

Lemma contain_orelse b m : preserves I m → preserves I (orelse b m).
Proof. intros. unfold orelse. preserves_tac. Qed.

Hint Resolve contain_uids contain_capable contain_orelse : kernel.

Lemma contain_emulate r e s : preserves I (cap_emulate_setxuid r e s).
Proof.
  unfold cap_emulate_setxuid. preserves_tac; apply on_upd_cur.
  - intros t []. split; simpl; auto using subset_0.
  - apply caps_in_clear.
  - intros t []. by split.
Qed.

Hint Resolve contain_emulate : kernel.

Ltac contain_tac :=
  repeat first [ preserves_step | by apply contain_cur | by apply contain_task | by apply on_same ].

Lemma contain_set_user `{UidSlab} r d : preserves I (set_user r d).
Proof.
  intros s Hs. unfold set_user. destruct (alloc_uid r (uids s)) as [[a h]|]; [|done].
  destruct (a =? 0); [done|].
  match goal with |- I (?m _).2 => assert (preserves I m) as Hm by contain_tac end. by apply Hm.
Qed.

Hint Resolve contain_set_user : kernel.

Lemma contain_setfsuid u : preserves I (sys_setfsuid u).
Proof.
  unfold sys_setfsuid. contain_tac; apply on_upd_cur; intros t [He Hp Hi]; split; simpl; try done.
  - etransitivity; [apply subset_land_l|done].
  - apply subset_lor; [done|]. apply subset_land_l.
Qed.

(** A capability set that passed the tests of [sys_capset] lies within [P]. *)
Lemma capset_legal_contain d t c t' :
  caps_in P t → caps_in P c → capset_legal d t c = true → caps_in P (set_caps d t').
Proof.
  intros [_ Htp Hti] [_ Hcp _]. unfold capset_legal, cap_combine. intros Hl. to_prop.
  split; simpl; [done|..]; (etransitivity; [eassumption|]; by apply subset_lor).
Qed.

Lemma contain_set_pg l g d :
  (∀ t, caps_in P (set_caps d t)) → preserves I (cap_set_pg_loop l g d).
Proof.
  intros Hd. induction l; simpl; [preserves_tac|].
  preserves_tac. apply on_upd_task. auto.
Qed.

Lemma contain_set_all l d :
  (∀ t, caps_in P (set_caps d t)) → preserves I (cap_set_all_loop l d).
Proof.
  intros Hd. induction l; simpl; [preserves_tac|].
  preserves_tac. apply on_upd_task. auto.
Qed.

Lemma contain_setpriority_loop l w who n e : preserves I (setpriority_loop l w who n e).
Proof. revert e. induction l as [|p l IH]; intros e; simpl; contain_tac; auto. Qed.

Lemma contain_setpgid_group p a g : preserves I (setpgid_group p a g).
Proof. unfold setpgid_group. contain_tac. Qed.

Hint Resolve contain_setfsuid contain_setpriority_loop contain_setpgid_group : kernel.
End containment.

(** The running task is one of those the bound is about. *)
Lemma contain_capset P W p d :
  (∀ q, W q) → preserves (on W (caps_in P)) (capset_apply p d).
Proof.
  intros HW s Hs. unfold capset_apply. unfold mbind, ST_bind. simpl.
  match goal with |- context [match ?x with Some _ => _ | None => _ end] =>
    destruct x as [target|] end; [|done].
  destruct (capset_legal d (tasks s target) (cur s)) eqn:Hl; [|done]. simpl.
  assert (∀ t, caps_in P (set_caps d t)) as Hd.
  { intros t. eapply capset_legal_contain; [| |done]; by apply Hs. }
  destruct (p <? 0); [destruct (p =? -1)|].
  - by apply contain_set_all.
  - by apply contain_set_pg.
  - by apply (on_upd_task _ _ target (set_caps d)).
Qed.

(** Split a call into its steps and close each by the rule for it. *)
Ltac contain_call :=
  repeat match goal with
  | |- preserves _ (mbind _ _) => apply preserves_bind; [|intros ?]
  | |- preserves _ (mret _) => apply preserves_ret
  | |- preserves _ (gets _) => apply preserves_gets
  | |- preserves _ (when _ _) => apply preserves_when
  | |- preserves _ (put_dumpable _) => apply on_put_dumpable
  | |- preserves _ (capable _) => apply contain_capable
  | |- preserves _ (orelse _ _) => apply contain_orelse
  | |- preserves _ (cap_emulate_setxuid _ _ _) => apply contain_emulate
  | |- preserves _ (set_user _ _) => apply contain_set_user
  | |- preserves _ (setpriority_loop _ _ _ _ _) => apply contain_setpriority_loop
  | |- preserves _ (setpgid_group _ _ _) => apply contain_setpgid_group
  | |- preserves _ (upd_cur _) => by apply contain_cur
  | |- preserves _ (upd_task _ _) => by apply contain_task
  | |- preserves _ (modify _) => by apply on_same
  | |- preserves _ (match ?x with _ => _ end) => destruct x
  | |- preserves _ (let _ := _ in _) => cbv zeta
  end.

Lemma contain_exec `{UidSlab} P W c :
  (∀ q, W q) → preserves (on W (caps_in P)) (exec c).
Proof.
  intros HW. destruct c; cbn [exec].
  - (unfold sys_setreuid; contain_call).
  - (unfold sys_setuid; contain_call).
  - (unfold sys_setresuid; contain_call).
  - apply contain_setfsuid.
  - (unfold sys_setregid; contain_call).
  - (unfold sys_setgid; contain_call).
  - (unfold sys_setresgid; contain_call).
  - (unfold sys_setfsgid; contain_call).
  - (unfold sys_setgroups; contain_call).
  - unfold sys_capset. contain_call; by apply contain_capset.
  - (unfold sys_setpriority; contain_call).
  - (unfold sys_setpgid; contain_call).
  - (unfold sys_setsid; contain_call).
  - (unfold sys_sethostname; contain_call).
  - (unfold sys_setdomainname; contain_call).
  - (unfold sys_setrlimit; contain_call).
  - (unfold sys_umask; contain_call).
  - (unfold sys_prctl; contain_call).
Qed.

Lemma contain_run `{UidSlab} P l s :
  on (λ _, True) (caps_in P) s → on (λ _, True) (caps_in P) (run l s).
Proof.
  revert s. induction l as [|[p c] l IH]; intros s Hs; [done|]. simpl. apply IH.
  by apply contain_exec.
Qed.

(** * Confinement of an unprivileged task *)

(** A task whose ids are among [U] and [G], with the supplementary groups [gr]
    and no capability outside [P]. *)
Record confined (U G : list Z) (gr : Z * list Z) (P : Z) (t : task) : Prop := {
  cf_uid : uid t ∈ U; cf_euid : euid t ∈ U; cf_suid : suid t ∈ U; cf_fsuid : fsuid t ∈ U;
  cf_gid : gid t ∈ G; cf_egid : egid t ∈ G; cf_sgid : sgid t ∈ G; cf_fsgid : fsgid t ∈ G;
  cf_groups : (ngroups t, groups t) = gr;
  cf_eff : subset (cap_effective t) (cap_permitted t);
  cf_perm : subset (cap_permitted t) P
}.

Section confine.
Context `{UidSlab} (me : nat) (U G : list Z) (gr : Z * list Z) (P : Z).
Context (HPu : cap_raised P CAP_SETUID = false) (HPg : cap_raised P CAP_SETGID = false).

Definition J (s : kstate) : Prop := current s = me ∧ confined U G gr P (tasks s me).

Lemma J_cur s : J s → confined U G gr P (cur s).
Proof using Type. intros [<- Hc]. done. Qed.

Lemma J_upd_task p f :
  (∀ t, confined U G gr P t → confined U G gr P (f t)) → hoare J (upd_task p f) (λ _, J).
Proof using Type.
  intros Hf s [Hme Hc]. split; [done|].
  by apply (on_upd_task (λ q, q = me) _ p f Hf s); [intros ? ->|].
Qed.

Lemma J_upd_cur f :
  (∀ t, confined U G gr P t → confined U G gr P (f t)) → hoare J (upd_cur f) (λ _, J).
Proof using Type. intros Hf s Hs. by apply (J_upd_task (current s) f Hf s Hs). Qed.

Lemma J_same f :
  (∀ s, tasks (f s) = tasks s ∧ current (f s) = current s) → hoare J (modify f) (λ _, J).
Proof using Type. intros Hf s [Hme Hc]. destruct (Hf s) as [Ht Hcu]. split; simpl; congruence. Qed.

(** The ids read are among the allowed ones. *)
Lemma J_gets {A} (f : kstate → A) (Q : A → Prop) :
  (∀ s, J s → Q (f s)) → hoare J (gets f) (λ a s, Q a ∧ J s).
Proof using Type. intros Hf s Hs. split; [by apply Hf|done]. Qed.

Lemma J_ret {A} (a : A) : hoare J (mret a) (λ _, J).
Proof using Type. by intros s. Qed.

Lemma J_when b m : (b = true → hoare J m (λ _, J)) → hoare J (when b m) (λ _, J).
Proof using Type. intros Hm. destruct b; [by apply Hm|by intros s]. Qed.

(** Without the capability [capable] answers no and changes nothing. *)
Lemma J_capable_false c s :
  0 <= c → cap_raised P c = false → J s → capable c s = (false, s).
Proof using Type.
  intros Hc HP Hs. unfold capable, mbind, ST_bind. simpl.
  destruct (J_cur _ Hs). rewrite (cap_raised_subset _ P); [done| |done..]. by etransitivity.
Qed.

Lemma J_orelse b c :
  0 <= c → cap_raised P c = false →
  hoare J (orelse b (capable c)) (λ ok s, ok = b ∧ J s).
Proof using Type.
  intros Hc HP s Hs. destruct b; [done|]. simpl. by rewrite J_capable_false.
Qed.

Lemma J_orelse_none b0 b c :
  0 <= c → cap_raised P c = false →
  hoare J (if (b0 : bool) then mret true else orelse b (capable c)) (λ ok s, ok = b0 || b ∧ J s).
Proof using Type. intros. destruct b0; [done|]. by apply J_orelse. Qed.

Lemma J_capable c : hoare J (capable c) (λ _, J).
Proof using Type.
  unfold capable. eapply hoare_bind; [apply (J_gets _ (λ _, True)); done|].
  intros c'. apply hoare_pure. intros _.
  destruct (cap_raised (cap_effective c') c); [|apply J_ret].
  eapply hoare_bind; [|intros; apply J_ret]. apply J_upd_cur. by intros t [].
Qed.

Lemma J_capable_no c :
  0 <= c → cap_raised P c = false → hoare J (capable c) (λ b s, b = false ∧ J s).
Proof using Type. intros Hc HP s Hs. by rewrite J_capable_false. Qed.

Lemma J_set_user r d : r ∈ U → hoare J (set_user r d) (λ _, J).
Proof using Type.
  intros Hr s Hs. unfold set_user. destruct (alloc_uid r (uids s)) as [[a h]|]; [|done].
  assert (J (set_uids h s)) as Hs' by (by destruct Hs).
  destruct (a =? 0); [done|].
  match goal with |- context [?m (set_uids h s)] => assert (hoare J m (λ _, J)) as Hm end;
    [|by apply Hm].
  eapply hoare_bind; [apply (J_gets _ (λ _, True)); done|]. intros old. apply hoare_pure. intros _.
  repeat (eapply hoare_bind; [|intros ?]);
    [by apply J_same..|apply J_when; intros _; by apply J_same| | |by apply J_same|by apply J_ret];
    apply J_upd_cur; intros t []; by split.
Qed.

(** Dropping capabilities is allowed. *)
Lemma J_emulate r e s : hoare J (cap_emulate_setxuid r e s) (λ _, J).
Proof using Type.
  unfold cap_emulate_setxuid.
  eapply hoare_bind; [apply (J_gets _ (λ _, True)); done|]. intros c. apply hoare_pure. intros _.
  repeat (eapply hoare_bind; [|intros ?]); apply J_when; intros _; apply J_upd_cur; intros t []; split; simpl;
    auto using subset_0. done.
Qed.

(** ** The calls *)

(** Close a membership goal from the tests the call made. *)
Ltac in_ids :=
  unfold id_allowed in *; simpl in *;
  repeat match goal with |- context [if ?b then _ else _] => destruct b eqn:? end;
  repeat match goal with
  | H : orb _ _ = true |- _ => apply orb_prop in H as [H|H]
  | H : negb _ = true |- _ => apply negb_true_iff in H
  | H : negb _ = false |- _ => apply negb_false_iff in H
  | H : andb _ _ = true |- _ => apply andb_prop in H as [??]
  | H : andb _ _ = false |- _ => apply andb_false_iff in H as [H|H]
  end;
  to_prop; subst; first [assumption | congruence].

(** Step through a call of the confined task. *)
Ltac confine_call :=
  repeat match goal with
  | |- hoare _ (mbind _ (gets cur)) _ =>
      eapply hoare_bind; [apply (J_gets _ (confined U G gr P)), J_cur|];
      intros c; apply hoare_pure; intros []
  | |- hoare _ (mbind _ (gets (λ s, ?f (cur s)))) _ =>
      eapply hoare_bind; [apply (J_gets _ (λ x, x ∈ U)); intros ? []%J_cur; assumption|];
      intros ?; apply hoare_pure; intros ?
  | |- hoare _ (mbind _ (gets _)) _ =>
      eapply hoare_bind; [apply (J_gets _ (λ _, True)); done|];
      intros ?; apply hoare_pure; intros _
  | |- hoare _ (mbind _ (orelse _ _)) _ =>
      eapply hoare_bind; [apply J_orelse; [done|assumption]|];
      intros ?; apply hoare_pure; intros ->
  | |- hoare _ (mbind _ (if _ then mret true else orelse _ _)) _ =>
      eapply hoare_bind; [apply J_orelse_none; [done|assumption]|];
      intros ?; apply hoare_pure; intros ->
  | |- hoare _ (mbind _ (capable _)) _ =>
      eapply hoare_bind; [apply J_capable_no; [done|assumption]|];
      intros ?; apply hoare_pure; intros ->
  | |- hoare _ (mbind _ _) _ => eapply (hoare_bind _ _ (λ _, J)); [|intros ?]
  | |- hoare _ (mret _) _ => apply J_ret
  | |- hoare _ (when _ _) _ => apply J_when; intros ?
  | |- hoare _ (put_dumpable _) _ => by apply J_same
  | |- hoare _ (modify _) _ => by apply J_same
  | |- hoare _ (cap_emulate_setxuid _ _ _) _ => apply J_emulate
  | |- hoare _ (set_user _ _) _ => apply J_set_user
  | |- hoare _ (if ?b then _ else _) _ => destruct b eqn:?
  | |- hoare _ (let _ := _ in _) _ => cbv zeta
  | |- hoare _ (upd_cur _) _ => apply J_upd_cur; intros ? []; split; simpl; try assumption
  end; try in_ids.

Lemma confine_setreuid r e : hoare J (sys_setreuid r e) (λ _, J).
Proof using HPu HPg. unfold sys_setreuid. confine_call. Qed.

Lemma confine_setuid u : hoare J (sys_setuid u) (λ _, J).
Proof using HPu HPg. unfold sys_setuid. confine_call. Qed.

Lemma confine_setresuid r e s : hoare J (sys_setresuid r e s) (λ _, J).
Proof using HPu HPg. unfold sys_setresuid. confine_call. Qed.

Lemma confine_setfsuid u : hoare J (sys_setfsuid u) (λ _, J).
Proof using HPu HPg. 
  unfold sys_setfsuid. confine_call.
  - etransitivity; [apply subset_land_l|done].
  - apply subset_lor; [done|]. apply subset_land_l.
Qed.

Lemma confine_setregid r e : hoare J (sys_setregid r e) (λ _, J).
Proof using HPu HPg. unfold sys_setregid. confine_call. Qed.

Lemma confine_setgid g : hoare J (sys_setgid g) (λ _, J).
Proof using HPu HPg. unfold sys_setgid. confine_call. Qed.

Lemma confine_setresgid r e s : hoare J (sys_setresgid r e s) (λ _, J).
Proof using HPu HPg. unfold sys_setresgid. confine_call. Qed.

Lemma confine_setfsgid g : hoare J (sys_setfsgid g) (λ _, J).
Proof using HPu HPg. unfold sys_setfsgid. confine_call. Qed.

Lemma confine_setgroups n l : hoare J (sys_setgroups n l) (λ _, J).
Proof using HPu HPg. unfold sys_setgroups. confine_call. Qed.

(** Sets that pass the tests against the task's own sets keep it confined. *)
Lemma J_set_caps d c :
  confined U G gr P c → capset_legal d c c = true →
  ∀ t, confined U G gr P t → confined U G gr P (set_caps d t).
Proof using Type.
  intros [] Hl t []. unfold capset_legal, cap_combine in Hl. to_prop. split; simpl; try done.
  etransitivity; [eassumption|]. by apply subset_lor.
Qed.

Lemma J_set_pg l g d :
  (∀ t, confined U G gr P t → confined U G gr P (set_caps d t)) →
  hoare J (cap_set_pg_loop l g d) (λ _, J).
Proof using Type.
  intros Hd. induction l as [|p l IH]; cbn [cap_set_pg_loop]; [by intros s|].
  eapply hoare_bind; [apply (J_gets _ (λ _, True)); done|]. intros t. apply hoare_pure. intros _.
  eapply hoare_bind; [|intros ?; apply IH]. apply J_when. intros _. by apply J_upd_task.
Qed.

Lemma J_set_all l d : hoare J (cap_set_all_loop l d) (λ _, J).
Proof using Type.
  induction l as [|p l IH]; cbn [cap_set_all_loop]; [by intros s|].
  intros s Hs. unfold mbind, ST_bind. simpl. apply IH. destruct Hs as [Hme Hc].
  destruct (Nat.eqb_spec p (current s)); [done|]. simpl. destruct (pid (tasks s p) =? 1); [done|].
  split; [done|]. simpl. rewrite fn_lookup_insert_ne; [done|]. congruence.
Qed.

Lemma find_task_pid s p i : find_task_by_pid s p = Some i → pid (tasks s i) = p.
Proof using Type.
  unfold find_task_by_pid. intros ([j k] & Hf & ->)%fmap_Some.
  by apply list_find_Some in Hf as (_ & ? & _).
Qed.

Lemma J_capset_apply p d : hoare J (capset_apply p d) (λ _, J).
Proof using Type.
  intros s Hs. pose proof (J_cur _ Hs) as Hc. unfold capset_apply, mbind, ST_bind. simpl.
  destruct ((p >? 0) && negb (p =? pid (cur s))) eqn:Hp.
  - to_prop. destruct (find_task_by_pid s p) as [target|] eqn:Hf; [|done].
    apply find_task_pid in Hf. destruct (capset_legal _ _ _); [|done]. simpl.
    rewrite (proj2 (Z.ltb_ge p 0)) by lia. destruct Hs as [Hme Hcm]. split; [done|]. simpl.
    rewrite fn_lookup_insert_ne; [done|]. unfold cur in *. congruence.
  - destruct (capset_legal d (tasks s (current s)) (cur s)) eqn:Hl; [|done]. simpl.
    pose proof (J_set_caps _ _ Hc Hl) as Hd. destruct (p <? 0); [destruct (p =? -1)|].
    + by apply J_set_all.
    + by apply J_set_pg.
    + by apply (J_upd_task (current s) (set_caps d)).
Qed.

Lemma confine_capset v ok p d : hoare J (sys_capset v ok p d) (λ _, J).
Proof using Type.
  unfold sys_capset. destruct v as [v|]; [|apply J_ret].
  destruct (negb _); [apply J_ret|]. destruct p as [p|]; [|apply J_ret].
  eapply (hoare_bind _ _ (λ _, J)); [destruct (p =? 0); [apply J_ret|apply J_capable]|].
  intros b. destruct (negb b); [apply J_ret|]. destruct d as [d|]; [|apply J_ret].
  apply J_capset_apply.
Qed.

(** The calls that do not touch the credentials. *)
Ltac other_call :=
  repeat match goal with
  | |- hoare _ (mbind _ (gets _)) _ =>
      eapply hoare_bind; [apply (J_gets _ (λ _, True)); done|];
      intros ?; apply hoare_pure; intros _
  | |- hoare _ (mbind _ _) _ => eapply (hoare_bind _ _ (λ _, J)); [|intros ?]
  | |- hoare _ (mret _) _ => apply J_ret
  | |- hoare _ (gets _) _ => by intros ?
  | |- hoare _ (when _ _) _ => apply J_when; intros ?
  | |- hoare _ (capable _) _ => apply J_capable
  | |- hoare _ (orelse _ _) _ => unfold orelse
  | |- hoare _ (put_dumpable _) _ => by apply J_same
  | |- hoare _ (modify _) _ => by apply J_same
  | |- hoare _ (match ?b with _ => _ end) _ => destruct b
  | |- hoare _ (let _ := _ in _) _ => cbv zeta
  | |- hoare _ (upd_cur _) _ => apply J_upd_cur; intros ? []; split; simpl; assumption
  | |- hoare _ (upd_task _ _) _ => apply J_upd_task; intros ? []; split; simpl; assumption
  end.

Lemma confine_setpriority_loop l w who n e : hoare J (setpriority_loop l w who n e) (λ _, J).
Proof using Type.
  revert e. induction l as [|p l IH]; intros e; cbn [setpriority_loop]; other_call; apply IH.
Qed.

Lemma confine_exec c : hoare J (exec c) (λ _, J).
Proof using HPu HPg.
  destruct c; cbn [exec];
    auto using confine_setreuid, confine_setuid, confine_setresuid, confine_setfsuid,
      confine_setregid, confine_setgid, confine_setresgid, confine_setfsgid, confine_setgroups,
      confine_capset.
  - unfold sys_setpriority. other_call; apply confine_setpriority_loop.
  - unfold sys_setpgid, setpgid_group. other_call.
  - unfold sys_setsid. other_call.
  - unfold sys_sethostname. other_call.
  - unfold sys_setdomainname. other_call.
  - unfold sys_setrlimit. other_call.
  - unfold sys_umask. other_call.
  - unfold sys_prctl. other_call.
Qed.

Lemma confine_run l s :
  confined U G gr P (tasks s me) → confined U G gr P (tasks (run (pair me <$> l) s) me).
Proof using HPu HPg.
  revert s. induction l as [|c l IH]; intros s Hs; [done|]. simpl. apply IH.
  by apply (confine_exec c (set_current me s)).
Qed.
End confine.
