(* ===== verification/CredSys.v ===== *)
(** Invariants of the whole task table under the calls of the file Cred: process
    groups within sessions, and the accounting of users. *)
From S2P Require Import Prelude UidHash Cred CredProofs.
From stdpp Require Import list options.
#[local] Set Default Proof Using "Type*".
Open Scope cint_scope.
Open Scope Z_scope.

(** * Invariants that look at some task fields only

    [Keyed I k]: [I] depends on the field selection [k] of the tasks, on the
    list of tasks, on the running task and on the user cache. *)
Class Keyed {A} (I : kstate → Prop) (k : task → A) : Prop :=
  keyed_dep s s' :
    (∀ p, k (tasks s' p) = k (tasks s p)) → task_list s' = task_list s →
    current s' = current s → uids s' = uids s → I s → I s'.

Lemma keyed_orelse (I : kstate → Prop) b m : preserves I m → preserves I (orelse b m).
Proof. destruct b; [intros _; apply preserves_ret|done]. Qed.

Section keyed.
Context {A} (I : kstate → Prop) (k : task → A) `{!Keyed I k}.

Lemma keyed_task p f : (∀ t, k (f t) = k t) → preserves I (upd_task p f).
Proof.
  intros Hf s. apply keyed_dep; [|done..]. intros q. simpl.
  destruct (decide (q = p)) as [->|]; [by rewrite fn_lookup_insert|].
  by rewrite fn_lookup_insert_ne.
Qed.

Lemma keyed_cur f : (∀ t, k (f t) = k t) → preserves I (upd_cur f).
Proof. intros Hf s Hs. by apply (keyed_task (current s) f Hf s Hs). Qed.

Lemma keyed_same f :
  (∀ s, tasks (f s) = tasks s ∧ task_list (f s) = task_list s ∧
        current (f s) = current s ∧ uids (f s) = uids s) → preserves I (modify f).
Proof.
  intros Hf s. destruct (Hf s) as (Ht & ? & ? & ?). by apply keyed_dep; simpl; rewrite ?Ht.
Qed.
End keyed.

(** Step through a call; [leaf] closes the steps that are not keyed. *)
Ltac keyed_walk k leaf :=
  repeat match goal with
  | |- preserves _ (mbind _ _) => apply preserves_bind; [|intros ?]
  | |- preserves _ (mret _) => apply preserves_ret
  | |- preserves _ (gets _) => apply preserves_gets
  | |- preserves _ skip => apply preserves_skip
  | |- preserves _ (when _ _) => apply preserves_when
  | |- preserves _ (capable _) => unfold capable
  | |- preserves _ (orelse _ _) => apply keyed_orelse
  | |- preserves _ (cap_emulate_setxuid _ _ _) => unfold cap_emulate_setxuid
  | |- preserves _ (put_dumpable _) => by apply (keyed_same _ k)
  | |- preserves _ (modify _) => by apply (keyed_same _ k)
  | |- preserves _ (upd_cur _) => apply (keyed_cur _ k); solve [done | intros; auto]
  | |- preserves _ (upd_task _ _) => apply (keyed_task _ k); solve [done | intros; auto]
  | |- preserves _ (match ?x with _ => _ end) => destruct x
  | |- preserves _ (let _ := _ in _) => cbv zeta
  | |- _ => leaf
  end.

Section loops.
Context {A} (I : kstate → Prop) (k : task → A) `{!Keyed I k}.

Lemma keyed_set_pg l g d :
  (∀ t, k (set_caps d t) = k t) → preserves I (cap_set_pg_loop l g d).
Proof. intros. induction l; cbn [cap_set_pg_loop]; keyed_walk k ltac:(assumption). Qed.

Lemma keyed_set_all l d :
  (∀ t, k (set_caps d t) = k t) → preserves I (cap_set_all_loop l d).
Proof. intros. induction l; cbn [cap_set_all_loop]; keyed_walk k ltac:(assumption). Qed.

Lemma keyed_setpriority_loop l w who n e :
  (∀ x t, k (set_nice x t) = k t) → (∀ x t, k (set_flags x t) = k t) →
  preserves I (setpriority_loop l w who n e).
Proof.
  intros Hn Hf. revert e.
  induction l as [|p l IH]; intros e; cbn [setpriority_loop]; keyed_walk k ltac:(apply IH).
Qed.
End loops.

(** * Sessions *)

(** The tasks of one process group are in one session, the session of the task
    the group is named after, and pids are unique. *)
Record sessions_ok (s : kstate) : Prop := {
  so_cur : current s ∈ task_list s;
  so_pids p q : p ∈ task_list s → q ∈ task_list s →
    pid (tasks s p) = pid (tasks s q) → p = q;
  so_group p q : p ∈ task_list s → q ∈ task_list s →
    pgrp (tasks s p) = pgrp (tasks s q) → session (tasks s p) = session (tasks s q);
  so_leader p q : p ∈ task_list s → q ∈ task_list s →
    pgrp (tasks s p) = pid (tasks s q) → session (tasks s p) = session (tasks s q)
}.

Definition session_key (t : task) : Z * Z * Z := (pid t, pgrp t, session t).

#[export] Instance sessions_keyed : Keyed sessions_ok session_key.
Proof.
  intros s s' Hk Hl Hc _ [H1 H2 H3 H4].
  assert (∀ p, pid (tasks s' p) = pid (tasks s p) ∧ pgrp (tasks s' p) = pgrp (tasks s p) ∧
    session (tasks s' p) = session (tasks s p)) as Hk'.
  { intros p. specialize (Hk p). unfold session_key in Hk. by simplify_eq. }
  split; rewrite ?Hl, ?Hc; [done|..]; intros p q;
    destruct (Hk' p) as (E1 & E2 & E3), (Hk' q) as (E4 & E5 & E6);
    rewrite ?E1, ?E2, ?E3, ?E4, ?E5, ?E6; auto.
Qed.

(** Moving a task of the session into a group of that session, or into the group
    named after it. *)
Lemma sessions_set_pgrp p g s :
  sessions_ok s →
  (g = pid (tasks s p) ∨
   ∃ tmp, tmp ∈ task_list s ∧ pgrp (tasks s tmp) = g ∧ session (tasks s tmp) = session (tasks s p)) →
  sessions_ok (set_tasks (<[p := set_pgrp g (tasks s p)]> (tasks s)) s).
Proof.
  intros [H1 H2 H3 H4] Hg.
  assert (∀ q, pid ((<[p := set_pgrp g (tasks s p)]> (tasks s)) q) = pid (tasks s q) ∧
    session ((<[p := set_pgrp g (tasks s p)]> (tasks s)) q) = session (tasks s q) ∧
    pgrp ((<[p := set_pgrp g (tasks s p)]> (tasks s)) q) =
      if decide (q = p) then g else pgrp (tasks s q)) as Hk.
  { intros q. destruct (decide (q = p)) as [->|].
    - by rewrite fn_lookup_insert.
    - by rewrite fn_lookup_insert_ne. }
  assert (∀ q, p ∈ task_list s → q ∈ task_list s → g = pgrp (tasks s q) →
    session (tasks s p) = session (tasks s q)) as Hs1.
  { intros q Hp Hq ->. destruct Hg as [Hg|(tmp & Ht & Hg & <-)]; [symmetry|]; eauto. }
  assert (∀ q, p ∈ task_list s → q ∈ task_list s → g = pid (tasks s q) →
    session (tasks s p) = session (tasks s q)) as Hs2.
  { intros q Hp Hq Hgq. destruct Hg as [Hg|(tmp & Ht & Hg & <-)].
    - by rewrite (H2 p q Hp Hq) by congruence.
    - apply H4; [done..|congruence]. }
  split; simpl; [done|..]; intros a b;
    destruct (Hk a) as (E1 & E2 & E3), (Hk b) as (E4 & E5 & E6);
    rewrite ?E1, ?E2, ?E3, ?E4, ?E5, ?E6.
  - auto.
  - repeat destruct (decide (_ = p)) as [->|]; intros; auto. symmetry. auto.
  - repeat destruct (decide (_ = p)) as [->|]; intros; auto.
Qed.

Lemma sessions_set_uids f : preserves sessions_ok (modify (λ s, set_uids (f s) s)).
Proof. intros s [H1 H2 H3 H4]. by split. Qed.

Lemma sessions_set_user `{UidSlab} r d : preserves sessions_ok (set_user r d).
Proof.
  intros s Hs. unfold set_user. destruct (alloc_uid r (uids s)) as [[a h]|]; [|done].
  pose proof (sessions_set_uids (λ _, h) s Hs) as Hs'. destruct (a =? 0); [done|].
  match goal with |- sessions_ok (?m _).2 => assert (preserves sessions_ok m) as Hm end;
    [|by apply Hm].
  keyed_walk session_key ltac:(apply sessions_set_uids).
Qed.

Lemma sessions_setpgid_group p pid_ g s :
  sessions_ok s → pid (tasks s p) = pid_ → session (tasks s p) = session (cur s) →
  sessions_ok (setpgid_group p pid_ g s).2.
Proof.
  intros Hs Hp Hses. unfold setpgid_group, mbind, ST_bind. cbn [gets fst snd id].
  destruct (negb (g =? pid_) && _) eqn:Hg; [done|].
  apply (sessions_set_pgrp p g s Hs). apply andb_false_iff in Hg as [Hg|Hg].
  - left. to_prop. congruence.
  - right. apply negb_false_iff, existsb_exists in Hg as (tmp & Hin & Ht).
    apply list_elem_of_In in Hin. to_prop. exists tmp. split_and!; [done..|congruence].
Qed.

Lemma sessions_setpgid a g : preserves sessions_ok (sys_setpgid a g).
Proof.
  intros s Hs. unfold sys_setpgid, mbind, ST_bind. cbn [gets fst snd id]. cbv zeta.
  set (pid_ := if a =? 0 then pid (cur s) else a).
  destruct (_ <? 0); [done|]. destruct (find_task_by_pid s pid_) as [p|] eqn:Hf; [|done].
  apply find_task_pid in Hf.
  destruct (_ || _).
  - destruct (Z.eqb_spec (session (tasks s p)) (session (cur s))); [|done]. simpl.
    destruct (did_exec _); [done|]. destruct (leader _); [done|].
    by apply sessions_setpgid_group.
  - destruct (Nat.eqb_spec p (current s)) as [->|]; [|done]. simpl.
    destruct (leader _); [done|]. by apply sessions_setpgid_group.
Qed.

Lemma sessions_setsid : preserves sessions_ok sys_setsid.
Proof.
  intros s [H1 H2 H3 H4]. unfold sys_setsid. unfold mbind, ST_bind at 1. cbn [gets fst snd id].
  destruct (existsb _ _) eqn:He; [by split|].
  assert (∀ q, q ∈ task_list s → pgrp (tasks s q) ≠ pid (cur s)) as Hno.
  { intros q Hq Heq. apply not_true_iff_false in He. apply He, existsb_exists. exists q.
    split; [by apply list_elem_of_In|]. by apply Z.eqb_eq. }
  match goal with |- sessions_ok ?s' => set (s1 := s') end.
  assert (∀ q, pid (tasks s1 q) = pid (tasks s q) ∧
    pgrp (tasks s1 q) = (if decide (q = current s) then pid (cur s) else pgrp (tasks s q)) ∧
    session (tasks s1 q) = (if decide (q = current s) then pid (cur s) else session (tasks s q))) as Hk.
  { intros q. subst s1. unfold upd_cur, cur. simpl. destruct (decide (q = current s)) as [->|].
    - by rewrite !fn_lookup_insert.
    - by rewrite !fn_lookup_insert_ne. }
  split; change (task_list s1) with (task_list s); change (current s1) with (current s); [done|..];
    intros a b Ha Hb; destruct (Hk a) as (E1 & E2 & E3), (Hk b) as (E4 & E5 & E6);
    rewrite ?E1, ?E2, ?E3, ?E4, ?E5, ?E6; [by auto|..];
    repeat destruct (decide (_ = current s)) as [->|]; intros Heq; auto.
  - by destruct (Hno b).
  - by destruct (Hno a).
  - destruct n. by apply H2.
  - by destruct (Hno a).
Qed.

Lemma sessions_exec `{UidSlab} c : preserves sessions_ok (exec c).
Proof.
  destruct c; cbn [exec];
    first [ apply sessions_setpgid | apply sessions_setsid
    | unfold sys_setreuid, sys_setuid, sys_setresuid, sys_setfsuid, sys_setregid, sys_setgid,
        sys_setresgid, sys_setfsgid, sys_setgroups, sys_capset, capset_apply, cap_set_all, cap_set_pg,
        sys_setpriority, sys_sethostname, sys_setdomainname, sys_setrlimit, sys_umask, sys_prctl;
      keyed_walk session_key ltac:(first
        [ apply sessions_set_user
        | by apply (keyed_set_pg _ session_key) | by apply (keyed_set_all _ session_key)
        | by apply (keyed_setpriority_loop _ session_key) ]) ].
Qed.

(** No call adds or removes tasks. *)
#[export] Instance task_list_keyed l : Keyed (λ s, task_list s = l) (λ _, tt).
Proof. intros s s' _ -> _ _. done. Qed.

Lemma task_list_set_user `{UidSlab} l r d : preserves (λ s, task_list s = l) (set_user r d).
Proof.
  intros s Hs. unfold set_user. destruct (alloc_uid r (uids s)) as [[a h]|]; [|done].
  by destruct (a =? 0), d.
Qed.

Lemma task_list_exec `{UidSlab} l c : preserves (λ s, task_list s = l) (exec c).
Proof.
  destruct c; cbn [exec];
    unfold sys_setreuid, sys_setuid, sys_setresuid, sys_setfsuid, sys_setregid, sys_setgid,
      sys_setresgid, sys_setfsgid, sys_setgroups, sys_capset, capset_apply, cap_set_all, cap_set_pg,
      sys_setpriority, sys_setpgid, setpgid_group, sys_setsid, sys_sethostname, sys_setdomainname,
      sys_setrlimit, sys_umask, sys_prctl;
    keyed_walk (λ _ : task, tt) ltac:(first
      [ apply task_list_set_user
      | by apply (keyed_set_pg _ (λ _, tt)) | by apply (keyed_set_all _ (λ _, tt))
      | by apply (keyed_setpriority_loop _ (λ _, tt)) ]).
Qed.

(** An invariant of the calls that does not depend on which task of the list
    runs holds along every schedule. *)
Lemma run_invariant `{UidSlab} (I : kstate → Prop) l s :
  (∀ c, preserves I (exec c)) →
  (∀ p s, p ∈ task_list s → I s → I (set_current p s)) →
  Forall (λ pc, pc.1 ∈ task_list s) l → I s → I (run l s).
Proof.
  intros Hx Hc. revert s. induction l as [|[p c] l IH]; intros s Hl Hs; [done|]. simpl.
  apply Forall_cons in Hl as [Hp Hl]. simpl in Hp. apply IH; [|by apply Hx, Hc].
  rewrite (task_list_exec (task_list s) c (set_current p s) eq_refl). done.
Qed.

(** * User accounting *)

Definition ind (b : bool) : Z := if b then 1 else 0.

(** The tasks of [l] that hold a reference to the entry [a]. *)
Fixpoint refs (f : nat → task) (l : list nat) (a : Z) : Z :=
  match l with
  | [] => 0
  | p :: l => ind (bool_decide (user (f p) = a)) + refs f l a
  end.

(** [init_task], which is not on the list, holds a reference to [root_user]. *)
Definition base_refs (a : Z) : Z := ind (bool_decide (a = root_user)).

(** Every reference is counted, once as a reference and once as a process, and
    the entry of a task is that of its real uid. *)
Record users_ok (s : kstate) : Prop := {
  uo_inv : uid_inv (uids s);
  uo_cur : current s ∈ task_list s;
  uo_nodup : NoDup (task_list s);
  uo_count a : count_at (uids s) a = base_refs a + refs (tasks s) (task_list s) a;
  uo_processes a : processes_at (uids s) a = count_at (uids s) a;
  uo_uid p : p ∈ task_list s → uid_at (uids s) (user (tasks s p)) = Some (uid (tasks s p))
}.

Lemma refs_nonneg f l a : 0 <= refs f l a.
Proof. induction l; simpl; [lia|]. destruct (bool_decide _); simpl; lia. Qed.

Lemma refs_pos f l p : p ∈ l → 0 < refs f l (user (f p)).
Proof.
  induction l as [|q l IH]; [set_solver|]. intros [->|Hin]%elem_of_cons; simpl.
  - rewrite bool_decide_eq_true_2 by done. pose proof (refs_nonneg f l (user (f q))). simpl. lia.
  - specialize (IH Hin). destruct (bool_decide _); simpl; lia.
Qed.

Lemma refs_ext f g l a : (∀ p, p ∈ l → user (f p) = user (g p)) → refs f l a = refs g l a.
Proof.
  induction l as [|q l IH]; intros Hfg; [done|]. simpl. rewrite Hfg by set_solver.
  rewrite IH; [done|]. set_solver.
Qed.

(** One task of the list moves its reference. *)
Lemma refs_move f l c t a :
  NoDup l → c ∈ l →
  refs (<[c := t]> f) l a =
    refs f l a + ind (bool_decide (user t = a)) - ind (bool_decide (user (f c) = a)).
Proof.
  induction l as [|q l IH]; [set_solver|]. intros [Hq Hl]%NoDup_cons Hc. simpl.
  destruct (decide (q = c)) as [->|Hne].
  - rewrite fn_lookup_insert. rewrite (refs_ext _ f l); [lia|].
    intros p Hp. rewrite fn_lookup_insert_ne; [done|]. congruence.
  - rewrite fn_lookup_insert_ne by done. rewrite IH; [lia|done|set_solver].
Qed.

(** The counters after [add_processes]. *)
Lemma add_processes_spec h a d :
  uid_inv h →
  uid_inv (add_processes a d h) ∧
  (∀ x, count_at (add_processes a d h) x = count_at h x) ∧
  (∀ x, uid_at (add_processes a d h) x = uid_at h x) ∧
  (∀ x, is_Some (users h !! x) →
    processes_at (add_processes a d h) x = processes_at h x + (if decide (x = a) then d else 0)).
Proof.
  intros Hi. unfold add_processes. split_and!.
  - apply uid_inv_upd; [done| |done]. intros u Hu. exact (inv_count _ Hi _ _ Hu).
  - intros x. rewrite count_at_upd. destruct (decide (x = a)); [|done].
    unfold count_at. destruct (users h !! x); reflexivity.
  - intros x. unfold uid_at. rewrite users_upd. destruct (decide (x = a)); [|done].
    destruct (users h !! x); reflexivity.
  - intros x [u Hu]. unfold processes_at. rewrite users_upd, Hu.
    destruct (decide (x = a)); simpl; lia.
Qed.

Lemma dead_at h a : uid_inv h → count_at h a <= 0 → users h !! a = None.
Proof.
  intros Hi Hc. destruct (users h !! a) as [u|] eqn:Hu; [|done].
  pose proof (inv_count _ Hi _ _ Hu). unfold count_at in Hc. rewrite Hu in Hc. simpl in Hc. lia.
Qed.

(** The reference of one process moves from the entry [o] to the entry [n]
    that [alloc_uid] returned. *)
Section switch_user.
Context (h h1 : uidhash) (o n uid : Z).
Context (Hi : uid_inv h) (Hp : ∀ a, processes_at h a = count_at h a).
Context (Hi1 : uid_inv h1) (Hn : uid_at h1 n = Some uid) (Hr : ref_change n 1 h h1).
Context (Hold : uid_at h n = Some uid ∨ users h !! n = None ∧ processes_at h1 n = 0).
Context (Ho : is_Some (users h !! o)).

Let h3 := add_processes n 1 (add_processes o (-1) h1).

Lemma switch_processes_h1 a : processes_at h1 a = count_at h a.
Proof using Hi Hp Hr Hold.
  rewrite <-Hp. destruct (decide (a = n)) as [->|Ha].
  - destruct Hold as [Hu|[Hd ->]].
    + apply uid_at_live in Hu as (u & Hu & _). pose proof (inv_count _ Hi _ _ Hu).
      destruct (rc_self _ _ _ _ Hr _ Hu) as [-> _]; [lia|]. unfold processes_at. by rewrite Hu.
    + unfold processes_at. by rewrite Hd.
  - by destruct (rc_other _ _ _ _ Hr _ Ha) as [-> _].
Qed.

Lemma switch_h3 :
  uid_inv h3 ∧ (∀ a, count_at h3 a = count_at h1 a) ∧ (∀ a, uid_at h3 a = uid_at h1 a) ∧
  (∀ a, 0 < count_at h1 a → processes_at h3 a =
     count_at h a - (if decide (a = o) then 1 else 0) + (if decide (a = n) then 1 else 0)).
Proof.
  destruct (add_processes_spec h1 o (-1) Hi1) as (Hi2 & Hc2 & Hu2 & Hp2).
  destruct (add_processes_spec _ n 1 Hi2) as (Hi3 & Hc3 & Hu3 & Hp3).
  split_and!; [done|intros; unfold h3; congruence..|]. intros a Ha. unfold h3.
  rewrite Hp3, Hp2, switch_processes_h1.
  - destruct (decide (a = o)), (decide (a = n)); lia.
  - by apply inv_live_count.
  - apply inv_live_count; [done|]. by rewrite Hc2.
Qed.

Lemma switch_user_spec :
  let h4 := free_uid o h3 in
  uid_inv h4 ∧
  (∀ a, count_at h4 a =
     count_at h a + ind (bool_decide (n = a)) - ind (bool_decide (o = a))) ∧
  (∀ a, processes_at h4 a = count_at h4 a) ∧
  (∀ a, 0 < count_at h4 a → uid_at h4 a = uid_at h1 a).
Proof.
  destruct switch_h3 as (Hi3 & Hc3 & Hu3 & Hp3). intros h4.
  assert (is_Some (users h3 !! o)) as [u3 Ho3].
  { apply inv_live_count; [done|]. rewrite Hc3, (rc_count _ _ _ _ Hr).
    apply inv_live_count in Ho; [|done]. destruct (decide _); lia. }
  destruct (free_uid_spec _ _ _ Hi3 Ho3) as [Hi4 Hr4]. fold h4 in Hi4, Hr4.
  assert (∀ a, count_at h4 a = count_at h a + ind (bool_decide (n = a)) - ind (bool_decide (o = a))) as Hc4.
  { intros a. rewrite (rc_count _ _ _ _ Hr4), Hc3, (rc_count _ _ _ _ Hr).
    repeat case_bool_decide; repeat destruct (decide _); subst; simpl in *; congruence || lia. }
  split_and!; [done|done|..].
  - intros a. destruct (decide (count_at h4 a <= 0)) as [Hd|Hl].
    { pose proof (dead_at _ _ Hi4 Hd) as Hnone. unfold processes_at, count_at. by rewrite Hnone. }
    assert (0 < count_at h1 a) as Hl1.
    { rewrite <-Hc3. pose proof (rc_count _ _ _ _ Hr4 a). destruct (decide (a = o)); lia. }
    rewrite Hc4. transitivity (processes_at h3 a).
    + destruct (decide (a = o)) as [->|Ha].
      * pose proof (rc_count _ _ _ _ Hr4 o) as Hco. rewrite decide_True in Hco by done.
        unfold count_at in Hco at 2. rewrite Ho3 in Hco. simpl in Hco.
        destruct (rc_self _ _ _ _ Hr4 _ Ho3) as [-> _]; [lia|]. unfold processes_at. by rewrite Ho3.
      * by destruct (rc_other _ _ _ _ Hr4 _ Ha) as [-> _].
    + rewrite Hp3 by done.
      repeat case_bool_decide; repeat destruct (decide _); subst; simpl in *; congruence || lia.
  - intros a Ha. rewrite <-Hu3. destruct (decide (a = o)) as [->|Hne].
    + pose proof (rc_count _ _ _ _ Hr4 o) as Hco. rewrite decide_True in Hco by done.
      unfold count_at in Hco at 2. rewrite Ho3 in Hco. simpl in Hco.
      destruct (rc_self _ _ _ _ Hr4 _ Ho3) as [_ ->]; [lia|]. unfold uid_at. by rewrite Ho3.
    + by destruct (rc_other _ _ _ _ Hr4 _ Hne) as [_ ->].
Qed.
End switch_user.

Definition user_key (t : task) : Z * Z := (uid t, user t).

#[export] Instance users_keyed : Keyed users_ok user_key.
Proof.
  intros s s' Hk Hl Hc Hu [H1 H2 H3 H4 H5 H6].
  assert (∀ p, uid (tasks s' p) = uid (tasks s p) ∧ user (tasks s' p) = user (tasks s p)) as Hk'.
  { intros p. specialize (Hk p). unfold user_key in Hk. by simplify_eq. }
  split; rewrite ?Hl, ?Hc, ?Hu; [done..| |done|].
  - intros a. rewrite H4. f_equal. apply refs_ext. intros p _. by destruct (Hk' p) as [_ ->].
  - intros p Hp. destruct (Hk' p) as [-> ->]. auto.
Qed.

(** The running task becomes a process of user [n]. *)
Lemma users_switch s r n h1 :
  users_ok s → uid_inv h1 → uid_at h1 n = Some r → ref_change n 1 (uids s) h1 →
  (uid_at (uids s) n = Some r ∨ users (uids s) !! n = None ∧ processes_at h1 n = 0) →
  let o := user (cur s) in
  users_ok (set_uids (free_uid o (add_processes n 1 (add_processes o (-1) h1)))
    (set_tasks (<[current s := set_user_ptr n (set_uid r (cur s))]> (tasks s)) s)).
Proof.
  intros [Hi Hcur Hnd Hcnt Hpr Huid] Hi1 Hn Hr Hor o.
  assert (is_Some (users (uids s) !! o)) as Ho.
  { destruct (uid_at_live _ _ _ (Huid _ Hcur)) as (u & Hu & _). eauto. }
  destruct (switch_user_spec _ _ o n r Hi Hpr Hi1 Hn Hr Hor Ho) as (Hi4 & Hc4 & Hp4 & Hu4).
  set (h4 := free_uid o _) in *.
  assert (∀ a, count_at h4 a = base_refs a +
    refs (<[current s := set_user_ptr n (set_uid r (cur s))]> (tasks s)) (task_list s) a) as Hcnt4.
  { intros a. rewrite Hc4, Hcnt, refs_move by done. simpl. unfold o, cur. lia. }
  assert (∀ a, 0 <= base_refs a) as Hb by (intros a; unfold base_refs; case_bool_decide; simpl; lia).
  assert (∀ p, p ∈ task_list s →
    let t := (<[current s := set_user_ptr n (set_uid r (cur s))]> (tasks s)) p in
    0 < count_at h4 (user t)) as Hlive.
  { intros p Hin t. rewrite Hcnt4. pose proof (Hb (user t)).
    pose proof (refs_pos (<[current s := set_user_ptr n (set_uid r (cur s))]> (tasks s)) _ _ Hin) as Hpos.
    fold t in Hpos. lia. }
  split; simpl; [done..|]. intros p Hin. specialize (Hlive p Hin). simpl in Hlive.
  rewrite Hu4 by done. destruct (decide (p = current s)) as [->|Hne].
  - by rewrite fn_lookup_insert.
  - rewrite fn_lookup_insert_ne by done. specialize (Huid p Hin).
    destruct (decide (user (tasks s p) = n)) as [Heq|Hn'].
    + rewrite Heq in Huid. rewrite Heq, Hn. destruct Hor as [Hor|[Hd _]]; [congruence|].
      unfold uid_at in Huid. by rewrite Hd in Huid.
    + by destruct (rc_other _ _ _ _ Hr _ Hn') as [_ ->].
Qed.

Lemma users_set_user `{UidSlab} r d : preserves users_ok (set_user r d).
Proof.
  intros s Hs. unfold set_user.
  destruct (alloc_uid_spec (uids s) r (uo_inv _ Hs)) as (n & h1 & -> & Hcase).
  destruct Hcase as [[-> ->]|(Hn0 & Hi1 & Hn & Hr & Hor)].
  { simpl. by eapply (keyed_dep (k:=user_key)); [..|exact Hs]. }
  rewrite (proj2 (Z.eqb_neq n 0)) by done.
  pose proof (users_switch _ _ _ _ Hs Hi1 Hn Hr Hor) as Hfin. simpl in Hfin.
  set (f1 := <[current s := set_uid r (cur s)]> (tasks s)).
  eapply (keyed_dep (k:=user_key)); [..|exact Hfin]; try (destruct d; done). intros p.
  transitivity (user_key ((<[current s := set_user_ptr n (f1 (current s))]> f1) p));
    [by destruct d|]. unfold f1. simpl. destruct (decide (p = current s)) as [->|].
  - by rewrite !fn_lookup_insert.
  - by rewrite !fn_lookup_insert_ne.
Qed.

Lemma users_exec `{UidSlab} c : preserves users_ok (exec c).
Proof.
  destruct c; cbn [exec];
    unfold sys_setreuid, sys_setuid, sys_setresuid, sys_setfsuid, sys_setregid, sys_setgid,
      sys_setresgid, sys_setfsgid, sys_setgroups, sys_capset, capset_apply, cap_set_all, cap_set_pg,
      sys_setpriority, sys_setpgid, setpgid_group, sys_setsid, sys_sethostname, sys_setdomainname,
      sys_setrlimit, sys_umask, sys_prctl;
    keyed_walk user_key ltac:(first
      [ apply users_set_user
      | by apply (keyed_set_pg _ user_key) | by apply (keyed_set_all _ user_key)
      | by apply (keyed_setpriority_loop _ user_key) ]).
Qed.
