(* ===== verification/CredRun.v ===== *)
(** Forward execution of the credential calls on the running task, the priority
    loop and the resource limits. *)
From S2P Require Import Prelude UidHash Cred CredProofs.
From stdpp Require Import list options.
Open Scope cint_scope.
Open Scope Z_scope.

(** * The running task, symbolically *)

(** The running task is [me], its record is [t], the security settings are [b]. *)
Definition at_task (me : nat) (b : Z) (t : task) (s : kstate) : Prop :=
  current s = me ∧ securebits s = b ∧ tasks s me = t.

Section forward.
Context (me : nat) (b : Z).
Notation at_ := (at_task me b).

Lemma at_cur t s : at_ t s → cur s = t.
Proof. intros (<- & _ & <-). done. Qed.

Lemma at_upd_cur t f : hoare (at_ t) (upd_cur f) (λ _, at_ (f t)).
Proof.
  intros s (<- & <- & <-). split_and!; [done..|]. simpl. by rewrite fn_lookup_insert.
Qed.

Lemma at_when t c f :
  hoare (at_ t) (when c (upd_cur f)) (λ _, at_ (if c then f t else t)).
Proof. destruct c; [apply at_upd_cur|by intros s]. Qed.

Lemma at_dumpable t c d : hoare (at_ t) (when c (put_dumpable d)) (λ _, at_ t).
Proof. destruct c; by intros s. Qed.

Lemma at_gets_cur t : hoare (at_ t) (gets cur) (λ c s, c = t ∧ at_ t s).
Proof. intros s Hs. split; [by apply at_cur|done]. Qed.

Lemma at_gets_field {A} t (f : task → A) :
  hoare (at_ t) (gets (λ s, f (cur s))) (λ a s, a = f t ∧ at_ t s).
Proof. intros s Hs. split; [|done]. simpl. by rewrite (at_cur _ _ Hs). Qed.

Lemma at_capable t c :
  hoare (at_ t) (capable c) (λ r s, r = cap_raised (cap_effective t) c ∧
    at_ (if r then set_flags (Z.lor (flags t) PF_SUPERPRIV) t else t) s).
Proof.
  intros s Hs. unfold capable, mbind, ST_bind. cbn [gets fst snd]. rewrite (at_cur _ _ Hs).
  destruct (cap_raised (cap_effective t) c); [|done]. split; [done|].
  by apply (at_upd_cur t (λ t, set_flags (Z.lor (flags t) PF_SUPERPRIV) t)).
Qed.

(** [set_user] fails and changes nothing, or sets the uid and the user entry. *)
Lemma at_set_user `{UidSlab} t r d :
  hoare (at_ t) (set_user r d) (λ e s,
    (e = -EAGAIN ∧ at_ t s) ∨ (e = 0 ∧ ∃ n, at_ (set_user_ptr n (set_uid r t)) s)).
Proof.
  intros s Hs. unfold set_user. destruct (alloc_uid r (uids s)) as [[n h]|]; [|by left].
  destruct (n =? 0); [by left|]. right. split; [by destruct d|]. exists n.
  destruct Hs as (<- & <- & <-).
  split_and!; [by destruct d..|]. destruct d; simpl; by rewrite !fn_lookup_insert.
Qed.

(** [cap_emulate_setxuid] as a function of the task. *)
Definition emulate (r e s : Z) (t : task) : task :=
  let t1 := if ((r =? 0) || (e =? 0) || (s =? 0)) &&
               (negb (uid t =? 0) && negb (euid t =? 0) && negb (suid t =? 0)) &&
               negb (keep_capabilities t)
            then set_cap_effective 0 (set_cap_permitted 0 t) else t in
  let t2 := if (e =? 0) && negb (euid t =? 0) then set_cap_effective 0 t1 else t1 in
  if negb (e =? 0) && (euid t =? 0) then set_cap_effective (cap_permitted t2) t2 else t2.

Lemma at_emulate t r e s :
  hoare (at_ t) (cap_emulate_setxuid r e s) (λ _, at_ (emulate r e s t)).
Proof.
  unfold cap_emulate_setxuid. eapply hoare_bind; [apply at_gets_cur|]. intros c.
  apply hoare_pure. intros ->. unfold emulate. cbv zeta.
  eapply hoare_bind; [apply at_when|]. intros ?.
  eapply hoare_bind; [apply at_when|]. intros ?.
  apply (at_when _ _ (λ t, set_cap_effective (cap_permitted t) t)).
Qed.
End forward.

(** The end of the uid calls when the fixup of the capability sets is on. *)
Lemma at_fixup me t r e s :
  hoare (at_task me 0 t)
    (fixup ← gets (issecure SECURE_NO_SETUID_FIXUP);
     when (negb fixup) (cap_emulate_setxuid r e s);; mret 0)
    (λ res st, res = 0 ∧ at_task me 0 (emulate r e s t) st).
Proof.
  eapply (hoare_bind _ _ (λ f s, f = false ∧ at_task me 0 t s)).
  { intros s0 Hs. split; [|done]. destruct Hs as (_ & Hb & _). simpl. unfold issecure. by rewrite Hb. }
  intros f. apply hoare_pure. intros ->. simpl when.
  eapply hoare_bind; [apply at_emulate|]. intros _ s0 Hs. done.
Qed.

Section setuid.
Context `{UidSlab} (me : nat).

(** What a step on the user and the ids leaves alone. *)
Definition same_rest (t t' : task) : Prop :=
  cap_permitted t' = cap_permitted t ∧ keep_capabilities t' = keep_capabilities t ∧
  (gid t', egid t', sgid t', fsgid t') = (gid t, egid t, sgid t, fsgid t) ∧
  (ngroups t', groups t') = (ngroups t, groups t).

(** The optional change of the real uid, and what follows when it worked. *)
Lemma at_set_user_then t (c : bool) r d (m : K Z) (Q : Z → kstate → Prop) :
  (∀ s, Q (-EAGAIN) s) →
  (∀ n, hoare (at_task me 0 (if c then set_user_ptr n (set_uid r t) else t)) m Q) →
  hoare (at_task me 0 t)
    (err ← (if (c : bool) then set_user r d else mret 0);
     if (err <? 0 : bool) then mret (-EAGAIN) else m) Q.
Proof.
  intros HQ Hm. destruct c.
  - eapply hoare_bind; [apply at_set_user|]. intros e s [(-> & _)|(-> & n & Hs)]; [by apply HQ|].
    by apply (Hm n).
  - intros s Hs. by apply (Hm 0).
Qed.

(** A privileged [setuid] sets all four ids and adjusts the capability sets. *)
Lemma setuid_priv t u :
  cap_raised (cap_effective t) CAP_SETUID = true →
  hoare (at_task me 0 t) (sys_setuid u) (λ r s, r = 0 →
    ∃ t', at_task me 0 (emulate (uid t) (euid t) (suid t) t') s ∧
      uid t' = u ∧ euid t' = u ∧ suid t' = u ∧ fsuid t' = u ∧ same_rest t t').
Proof.
  intros Hcap. unfold sys_setuid.
  do 3 (eapply hoare_bind; [apply at_gets_field|]; intros ?; apply hoare_pure; intros ->).
  eapply hoare_bind; [apply at_capable|]. intros priv. apply hoare_pure. rewrite Hcap. intros ->.
  set (t1 := set_flags _ t). cbn [andb negb].
  apply at_set_user_then; [done|]. intros n. cbv zeta.
  set (t2 := if negb (u =? uid t) then _ else t1).
  eapply hoare_bind; [apply at_dumpable|]. intros ?.
  eapply hoare_bind; [apply at_upd_cur|]. intros ?.
  eapply hoare_bind; [apply at_upd_cur|]. intros ?.
  eapply hoare_post; [|apply at_fixup]. intros r s [-> Hs] _. eexists. split; [exact Hs|].
  subst t2 t1. destruct (Z.eqb_spec u (uid t)) as [->|]; by repeat split.
Qed.

(** [setreuid] between ids the task has, both given. *)
Lemma setreuid_own t r e :
  r ≠ ID_NONE → e ≠ ID_NONE → (uid t =? r) || (euid t =? r) = true →
  (uid t =? e) || (euid t =? e) || (suid t =? e) = true →
  hoare (at_task me 0 t) (sys_setreuid r e) (λ res s, res = 0 →
    ∃ t', at_task me 0 (emulate (uid t) (euid t) (suid t) t') s ∧
      uid t' = r ∧ euid t' = e ∧ suid t' = e ∧ fsuid t' = e ∧ same_rest t t').
Proof.
  intros Hr He Hr1 He1. unfold sys_setreuid.
  do 3 (eapply hoare_bind; [apply at_gets_field|]; intros ?; apply hoare_pure; intros ->).
  rewrite (proj2 (Z.eqb_neq r ID_NONE)), (proj2 (Z.eqb_neq e ID_NONE)) by done.
  rewrite Hr1, He1. cbn [negb orelse].
  do 2 (eapply (hoare_bind _ _ (λ ok s, ok = true ∧ at_task me 0 t s)); [done|];
    intros ok; apply hoare_pure; intros ->; cbn [negb]; cbv zeta).
  apply at_set_user_then; [done|]. intros n.
  set (t2 := if negb (r =? uid t) then _ else t).
  eapply hoare_bind; [apply at_dumpable|]. intros ?.
  eapply hoare_bind; [apply at_upd_cur|]. intros ?.
  eapply hoare_bind; [apply (at_upd_cur _ _ _ (λ t, set_suid (euid t) t))|]. intros ?.
  eapply hoare_bind; [apply (at_upd_cur _ _ _ (λ t, set_fsuid (euid t) t))|]. intros ?.
  eapply hoare_post; [|apply at_fixup]. intros res s [-> Hs] _. eexists. split; [exact Hs|].
  subst t2. destruct (Z.eqb_spec r (uid t)) as [->|]; by repeat split.
Qed.
End setuid.

(** * Priorities *)

(** What the selection and the permission checks look at. *)
Definition prio_key (t : task) : Z * Z * Z * Z * Z := (pid t, pgrp t, uid t, euid t, cap_effective t).

Definition same_prio (s s' : kstate) : Prop :=
  current s' = current s ∧ ∀ p, prio_key (tasks s' p) = prio_key (tasks s p).

(** The caller may touch the task, and may move it to [nv]. *)
Definition prio_owner (s : kstate) (p : nat) : bool :=
  (uid (tasks s p) =? euid (cur s)) || (uid (tasks s p) =? uid (cur s)) ||
  cap_raised (cap_effective (cur s)) CAP_SYS_NICE.
Definition prio_allowed (s : kstate) (p : nat) (nv : Z) : bool :=
  prio_owner s p &&
  (negb (nv <? nice (tasks s p)) || cap_raised (cap_effective (cur s)) CAP_SYS_NICE).

Lemma same_prio_fields s s' p :
  same_prio s s' →
  pid (tasks s' p) = pid (tasks s p) ∧ pgrp (tasks s' p) = pgrp (tasks s p) ∧
  uid (tasks s' p) = uid (tasks s p) ∧ euid (tasks s' p) = euid (tasks s p) ∧
  cap_effective (tasks s' p) = cap_effective (tasks s p).
Proof. intros [_ Hk]. specialize (Hk p). unfold prio_key in Hk. by simplify_eq. Qed.

Lemma same_prio_sel s s' p which who :
  same_prio s s' → proc_sel p which who s' = proc_sel p which who s.
Proof.
  intros Hs. pose proof (proj1 Hs) as Hc. unfold proc_sel, cur. rewrite Hc.
  destruct (same_prio_fields _ _ p Hs) as (-> & -> & -> & _).
  by destruct (same_prio_fields _ _ (current s) Hs) as (_ & -> & -> & _).
Qed.

Lemma same_prio_owner s s' p : same_prio s s' → prio_owner s' p = prio_owner s p.
Proof.
  intros Hs. pose proof (proj1 Hs) as Hc. unfold prio_owner, cur. rewrite Hc.
  destruct (same_prio_fields _ _ p Hs) as (_ & _ & -> & _).
  by destruct (same_prio_fields _ _ (current s) Hs) as (_ & _ & -> & -> & ->).
Qed.

#[export] Instance same_prio_trans : PreOrder same_prio.
Proof.
  split; [done|]. intros s1 s2 s3 [H1 H2] [H3 H4]. split; [congruence|].
  intros p. by rewrite H4, H2.
Qed.

(** [capable] changes the flags only. *)
Lemma capable_spec c s :
  (capable c s).1 = cap_raised (cap_effective (cur s)) c ∧ same_prio s (capable c s).2 ∧
  ∀ p, nice (tasks (capable c s).2 p) = nice (tasks s p).
Proof.
  unfold capable, mbind, ST_bind. cbn [gets fst snd].
  destruct (cap_raised (cap_effective (cur s)) c); [|done]. split; [done|].
  split; [split; [done|]|]; intros p; simpl;
    (destruct (decide (p = current s)) as [->|];
      [by rewrite fn_lookup_insert|by rewrite fn_lookup_insert_ne]).
Qed.

Lemma orelse_spec b c s :
  (orelse b (capable c) s).1 = b || cap_raised (cap_effective (cur s)) c ∧
  same_prio s (orelse b (capable c) s).2 ∧
  ∀ p, nice (tasks (orelse b (capable c) s).2 p) = nice (tasks s p).
Proof. destruct b; [done|]. apply capable_spec. Qed.

(** One round of the loop: the verdict on [p] and the state it leaves. *)
Definition prio_verdict (s : kstate) (p : nat) (which who nv e : Z) : Z :=
  if negb (proc_sel p which who s) then e
  else if negb (prio_owner s p) then -EPERM
  else if negb (prio_allowed s p nv) then -EACCES
  else if e =? -ESRCH then 0 else e.

Lemma setpriority_round p l which who nv e s :
  ∃ s', setpriority_loop (p :: l) which who nv e s =
      setpriority_loop l which who nv (prio_verdict s p which who nv e) s' ∧
    same_prio s s' ∧
    ∀ q, nice (tasks s' q) =
      if decide (q = p) then
        (if proc_sel p which who s && prio_allowed s p nv then nv else nice (tasks s p))
      else nice (tasks s q).
Proof.
  cbn [setpriority_loop]. unfold mbind, ST_bind. cbn [gets fst snd].
  unfold prio_verdict. destruct (proc_sel p which who s) eqn:Hsel; cbn [negb andb].
  2:{ exists s. split_and!; [done..|]. intros q. by destruct (decide _) as [->|]. }
  destruct (orelse_spec ((uid (tasks s p) =? euid (cur s)) || (uid (tasks s p) =? uid (cur s)))
    CAP_SYS_NICE s) as (Hr1 & Hs1 & Hn1).
  set (m1 := orelse _ _ s) in *. fold (prio_owner s p) in Hr1. rewrite Hr1.
  unfold prio_allowed. destruct (prio_owner s p); cbn [negb andb].
  2:{ exists m1.2. split_and!; [done..|]. intros q. rewrite Hn1. by destruct (decide _) as [->|]. }
  destruct (orelse_spec (negb (nv <? nice (tasks s p))) CAP_SYS_NICE m1.2) as (Hr2 & Hs2 & Hn2).
  set (m2 := orelse _ _ m1.2) in *.
  assert (((if (nv <? nice (tasks s p) : bool) then capable CAP_SYS_NICE else mret true) : K bool) m1.2 = m2)
    as -> by (subst m2; by destruct (nv <? _)).
  assert (cap_raised (cap_effective (cur m1.2)) CAP_SYS_NICE =
          cap_raised (cap_effective (cur s)) CAP_SYS_NICE) as Hce.
  { unfold cur. destruct Hs1 as [Hc1 Hk1]. rewrite Hc1.
    by destruct (same_prio_fields _ _ (current s) (conj Hc1 Hk1)) as (_ & _ & _ & _ & ->). }
  rewrite Hr2, Hce.
  destruct (negb (nv <? nice (tasks s p)) || cap_raised (cap_effective (cur s)) CAP_SYS_NICE);
    cbn [negb].
  - eexists. split; [reflexivity|]. split.
    + etransitivity; [exact Hs1|]. etransitivity; [exact Hs2|]. split; [done|]. intros q. simpl.
      destruct (decide (q = p)) as [->|]; [by rewrite fn_lookup_insert|by rewrite fn_lookup_insert_ne].
    + intros q. simpl. destruct (decide (q = p)) as [->|]; [by rewrite fn_lookup_insert|].
      by rewrite fn_lookup_insert_ne, Hn2, Hn1.
  - exists m2.2. split_and!; [done|by etransitivity|]. intros q. rewrite Hn2, Hn1.
    by destruct (decide _) as [->|].
Qed.

(** The whole loop. *)
Lemma setpriority_loop_spec l which who nv e s :
  NoDup l →
  let '(r, s') := setpriority_loop l which who nv e s in
  same_prio s s' ∧
  (∀ q, nice (tasks s' q) =
     if decide (q ∈ l) then
       (if proc_sel q which who s && prio_allowed s q nv then nv else nice (tasks s q))
     else nice (tasks s q)) ∧
  r = foldl (λ e p, prio_verdict s p which who nv e) e l.
Proof.
  revert e s. induction l as [|p l IH]; intros e s Hnd.
  { cbn [setpriority_loop]. split_and!; [done|intros q; by rewrite decide_False by set_solver|done]. }
  apply NoDup_cons in Hnd as [Hp Hnd].
  destruct (setpriority_round p l which who nv e s) as (s1 & -> & Hs1 & Hn1).
  specialize (IH (prio_verdict s p which who nv e) s1 Hnd).
  destruct (setpriority_loop l which who nv _ s1) as [r s']. destruct IH as (Hs' & Hn' & ->).
  assert (∀ q, q ∈ l → prio_allowed s1 q nv = prio_allowed s q nv) as Hall.
  { intros q Hq. unfold prio_allowed. rewrite (same_prio_owner _ _ _ Hs1), Hn1.
    rewrite decide_False by congruence. f_equal. f_equal. unfold cur.
    rewrite (proj1 Hs1). by destruct (same_prio_fields _ _ (current s) Hs1) as (_ & _ & _ & _ & ->). }
  split_and!; [by etransitivity| |].
  - intros q. rewrite Hn'. rewrite (same_prio_sel _ _ _ _ _ Hs1). destruct (decide (q ∈ l)) as [Hq|Hq].
    + rewrite decide_True by set_solver. rewrite Hall, Hn1, decide_False by congruence. done.
    + rewrite Hn1. destruct (decide (q = p)) as [->|].
      * by rewrite decide_True by set_solver.
      * by rewrite decide_False by set_solver.
  - simpl. clear -Hall Hs1. revert e. set (e0 := prio_verdict s p which who nv).
    intros e. generalize (e0 e). clear e e0. induction l as [|q l IH]; intros e; [done|]. simpl.
    rewrite IH by (intros; apply Hall; set_solver). f_equal. unfold prio_verdict.
    by rewrite (same_prio_sel _ _ _ _ _ Hs1), (same_prio_owner _ _ _ Hs1), Hall by set_solver.
Qed.

Lemma elem_of_snoc {A} (q p : A) l : q ∈ l ++ [p] ↔ q ∈ l ∨ q = p.
Proof. rewrite elem_of_app, list_elem_of_singleton. done. Qed.

(** [-ESRCH] is left exactly when no task was selected. *)
Lemma prio_fold_esrch s which who nv l :
  foldl (λ e p, prio_verdict s p which who nv e) (-ESRCH) l = -ESRCH ↔
  ∀ q, q ∈ l → proc_sel q which who s = false.
Proof.
  induction l as [|p l IH] using rev_ind; [simpl; set_solver|]. rewrite foldl_snoc.
  unfold prio_verdict. destruct (proc_sel p which who s) eqn:Hp; simpl.
  - split; [repeat case_match; try done; to_prop; congruence|].
    intros Hq. rewrite Hq in Hp by set_solver. done.
  - rewrite IH. split; [intros Hq q [?| ->]%elem_of_snoc; auto|].
    intros Hq q ?. apply Hq. set_solver.
Qed.

(** The error code: 0 exactly when some task was selected and all selected
    tasks could be changed. *)
Lemma prio_fold_zero s which who nv l :
  foldl (λ e p, prio_verdict s p which who nv e) (-ESRCH) l = 0 ↔
  (∃ p, p ∈ l ∧ proc_sel p which who s = true) ∧
  ∀ p, p ∈ l → proc_sel p which who s = true → prio_allowed s p nv = true.
Proof.
  induction l as [|p l IH] using rev_ind; simpl.
  { split; [done|]. intros [(? & ?%elem_of_nil & _) _]. done. }
  rewrite foldl_snoc. set (e := foldl _ _ l) in *.
  pose proof (prio_fold_esrch s which who nv l) as He2. fold e in He2.
  unfold prio_verdict. destruct (proc_sel p which who s) eqn:Hp; cbn [negb].
  - destruct (prio_owner s p) eqn:Ho; cbn [negb]; [destruct (prio_allowed s p nv) eqn:Ha; cbn [negb]|].
    + destruct (Z.eqb_spec e (-ESRCH)) as [Hes|Hes].
      * split; [intros _|done]. split; [exists p; set_solver|].
        intros q [Hq| ->]%elem_of_snoc Hsel; [|done].
        rewrite (proj1 He2) in Hsel by done. done.
      * rewrite IH. split.
        -- intros [(q & ? & ?) Hall]. split; [exists q; set_solver|].
           intros q' [?| ->]%elem_of_snoc; auto.
        -- intros [_ Hall]. split; [|intros; apply Hall; set_solver].
           destruct (decide (Exists (λ q, proc_sel q which who s = true) l)) as [Hx|Hx].
           { by apply Exists_exists in Hx. }
           destruct Hes. apply He2. intros q Hq. apply not_true_iff_false. intros Hsel.
           apply Hx, Exists_exists. eauto.
    + split; [done|]. intros [_ Hall]. rewrite Hall in Ha by set_solver. done.
    + split; [done|]. intros [_ Hall].
      assert (prio_allowed s p nv = true) as Ha by (apply Hall; set_solver).
      unfold prio_allowed in Ha. by rewrite Ho in Ha.
  - rewrite IH. split.
    + intros [(q & ? & ?) Hall]. split; [exists q; set_solver|].
      intros q' [?| ->]%elem_of_snoc; [auto|congruence].
    + intros [(q & [Hq| ->]%elem_of_snoc & Hsel) Hall]; [|congruence].
      split; [eauto|]. intros; apply Hall; set_solver.
Qed.
