(* ===== verification/CredThms.v ===== *)
(** The properties of the credential calls, with their witnesses. *)
From S2P Require Import Prelude UidHash Cred CredProofs CredSys CredRun.
From stdpp Require Import list options.
Open Scope cint_scope.
Open Scope Z_scope.

(** * Concrete systems for the witnesses *)

(** An allocator that hands out the addresses above those in use. *)
Program Definition bump_slab : UidSlab := {|
  kmem_cache_alloc h := Some (Z.max 1 (map_fold (λ a _ m, Z.max a m) 0 h) + 1)
|}.
Next Obligation.
  intros h a [= <-]. split; [lia|]. split; [unfold root_user; lia|].
  destruct (h !! _) as [u|] eqn:Hu; [|done]. exfalso. revert Hu.
  set (b := map_fold _ 0 h).
  assert (∀ k v, h !! k = Some v → k <= b) as Hb.
  { subst b. apply (map_fold_weak_ind (λ m h, ∀ k v, h !! k = Some v → k <= m)); [set_solver|].
    intros i x m r Hi IH k v [[-> _]|[_ Hk]]%lookup_insert_Some; [lia|].
    specialize (IH _ _ Hk). lia. }
  intros Hu. apply Hb in Hu. lia.
Qed.

Definition demo_task (p u cap : Z) : task :=
  mk_task p p 0 1 false false 0 0 0 0 0 0 u u u u u u u u 0 (replicate 32 0) cap 0 cap false
    root_user (replicate 11 (mk_rlimit 100 200)) 0 0.

(** The user cache when [init] has been forked. *)
Definition boot_users : uidhash :=
  add_processes root_user 1 (atomic_inc_count root_user uid_cache_init).

Definition demo (ts : list task) (c : nat) : kstate :=
  mk_kstate (λ p, nth p ts (demo_task 99 99 0)) (seq 0 (length ts))
    (λ h, filter (λ p, pid_hashfn (pid (nth p ts (demo_task 99 99 0))) = h) (seq 0 (length ts)))
    c (λ _, true) (λ _, 0x12) (replicate 65 0) (replicate 65 0) boot_users 0.

Definition cap_all : Z := 0xFFFFFFFF.

(** * Capabilities *)

(** C13. No sequence of calls, by any tasks, creates a capability: if every
    task's permitted and inheritable sets lie within [P] and its effective set
    within its permitted set, the same holds afterwards. *)
Theorem cap_containment `{UidSlab} P l s :
  (∀ p, let t := tasks s p in subset (cap_effective t) (cap_permitted t) ∧
        subset (cap_permitted t) P ∧ subset (cap_inheritable t) P) →
  ∀ p, let t := tasks (run l s) p in subset (cap_effective t) (cap_permitted t) ∧
        subset (cap_permitted t) P ∧ subset (cap_inheritable t) P.
Proof.
  intros Hs p. destruct (contain_run P l s) with (p := p) as [? ? ?]; [|done|done].
  intros q _. by destruct (Hs q) as (? & ? & ?).
Qed.

(** Task 0, with [CAP_SETPCAP], gives all its capabilities to task 1. *)
Lemma cap_containment_witness :
  let s := demo [demo_task 2 0 0x1FF; demo_task 3 500 0] 0 in
  let l := [(0%nat, Scapset (Some LINUX_CAPABILITY_VERSION) true (Some 3)
                     (Some (mk_cap_data 0x0FF 0x1FF 0)))] in
  cap_effective (tasks (@run bump_slab l s) 1) = 0x0FF ∧
  subset (cap_permitted (tasks (@run bump_slab l s) 1)) 0x1FF.
Proof.
  intros s l. split; [vm_compute; reflexivity|].
  apply (@cap_containment bump_slab 0x1FF l s). intros p. subst s. simpl.
  destruct p as [|[|[|p]]]; repeat split; vm_compute; reflexivity.
Defined.

(** C14. A task without [CAP_SETUID] and [CAP_SETGID] cannot escape: whatever
    calls it makes, its four user ids and four group ids stay among those it
    started with, its supplementary groups stay as they are, and its permitted
    set only shrinks. *)
Theorem unprivileged_confined `{UidSlab} me l s :
  let t := tasks s me in
  subset (cap_effective t) (cap_permitted t) →
  cap_raised (cap_permitted t) CAP_SETUID = false →
  cap_raised (cap_permitted t) CAP_SETGID = false →
  let t' := tasks (run (pair me <$> l) s) me in
  Forall (.∈ [uid t; euid t; suid t; fsuid t]) [uid t'; euid t'; suid t'; fsuid t'] ∧
  Forall (.∈ [gid t; egid t; sgid t; fsgid t]) [gid t'; egid t'; sgid t'; fsgid t'] ∧
  ngroups t' = ngroups t ∧ groups t' = groups t ∧
  subset (cap_effective t') (cap_permitted t') ∧ subset (cap_permitted t') (cap_permitted t).
Proof.
  intros t He Hu Hg.
  destruct (confine_run me [uid t; euid t; suid t; fsuid t] [gid t; egid t; sgid t; fsgid t]
    (ngroups t, groups t) (cap_permitted t) Hu Hg l s) as [];
    [split; fold t; first [done|set_solver]|].
  simplify_eq. split_and!; try done;
    (repeat (apply Forall_cons_2; [assumption|])); apply Forall_nil_2.
Qed.

(** A set-uid program of user 500 run by user 100 switches to and fro. *)
Lemma unprivileged_confined_witness :
  let t := set_euid 500 (set_suid 500 (demo_task 2 100 0)) in
  let s := demo [t] 0 in
  let l := [Ssetreuid 500 100; Ssetuid 0; Ssetresuid 100 100 100; Ssetuid 500] in
  let t' := tasks (@run bump_slab (pair 0%nat <$> l) s) 0 in
  (uid t', euid t', suid t') = (100, 100, 100) ∧
  Forall (.∈ [100; 500; 500; 100]) [uid t'; euid t'; suid t'; fsuid t'].
Proof.
  intros t s l t'. split; [vm_compute; reflexivity|].
  apply (@unprivileged_confined bump_slab 0 l s); vm_compute; reflexivity.
Defined.

(** Dropping root is final: after a successful [setuid(u)] with
    [CAP_SETUID], from a task with some uid 0 that did not ask to keep its
    capabilities, all uids are [u] and no capability is left, whatever calls the
    task makes later. *)
Theorem setuid_drop_final `{UidSlab} s u s1 l :
  let me := current s in let t := cur s in
  u ≠ 0 → 0 <= u < 2 ^ 32 →
  cap_raised (cap_effective t) CAP_SETUID = true →
  (uid t = 0 ∨ euid t = 0 ∨ suid t = 0) → keep_capabilities t = false → securebits s = 0 →
  exec (Ssetuid u) s = (0, s1) →
  let t' := tasks (run (pair me <$> l) s1) me in
  uid t' = u ∧ euid t' = u ∧ suid t' = u ∧ fsuid t' = u ∧
  cap_permitted t' = 0 ∧ cap_effective t' = 0.
Proof.
  intros me t Hu0 Hu Hcap Hroot Hkeep Hsb Hx. simpl in Hx. rewrite u32_small in Hx by lia.
  pose proof (setuid_priv me t u Hcap s) as Hspec. rewrite Hx in Hspec. simpl in Hspec.
  destruct Hspec as (t1 & Hat & H1 & H2 & H3 & H4 & Hp & Hk & Hg & Hgr); [done|done|].
  set (t2 := emulate _ _ _ t1) in Hat.
  assert (cap_permitted t2 = 0 ∧ cap_effective t2 = 0 ∧ uid t2 = u ∧ euid t2 = u ∧ suid t2 = u ∧
    fsuid t2 = u) as (E1 & E2 & E3 & E4 & E5 & E6).
  { subst t2. unfold emulate. rewrite H1, H2, H3, Hk, Hkeep.
    rewrite (proj2 (Z.eqb_neq u 0)) by done.
    assert ((uid t =? 0) || (euid t =? 0) || (suid t =? 0) = true) as ->.
    { rewrite !orb_true_iff, !Z.eqb_eq. tauto. }
    simpl. rewrite andb_false_r. by destruct (euid t =? 0). }
  destruct Hat as (_ & _ & Hat).
  destruct (confine_run me [u] [gid t2; egid t2; sgid t2; fsgid t2] (ngroups t2, groups t2) 0
    eq_refl eq_refl l s1) as [C1 C2 C3 C4 _ _ _ _ _ C5 C6].
  - rewrite Hat. split; rewrite ?E1, ?E2, ?E3, ?E4, ?E5, ?E6; first [reflexivity | set_solver].
  - apply list_elem_of_singleton in C1, C2, C3, C4. apply subset_0_inv in C6.
    rewrite C6 in C5. apply subset_0_inv in C5. done.
Qed.

Lemma setuid_drop_final_witness :
  let s := demo [demo_task 1 0 cap_all] 0 in
  let x := @exec bump_slab (Ssetuid 500) s in
  let t' := tasks (@run bump_slab (pair 0%nat <$> [Ssetuid 0; Ssetreuid 0 0]) x.2) 0 in
  x.1 = 0 ∧ uid t' = 500 ∧ cap_permitted t' = 0.
Proof.
  intros s x t'. split; [vm_compute; reflexivity|].
  destruct (@setuid_drop_final bump_slab s 500 x.2 [Ssetuid 0; Ssetreuid 0 0])
    as (H1 & _ & _ & _ & H2 & _);
    [lia|lia|vm_compute; reflexivity|left; reflexivity|reflexivity|reflexivity|vm_compute; reflexivity|].
  exact (conj H1 H2).
Defined.

(** The swap the comment of [sys_setreuid] describes: a set-uid-root
    program of user [u] drops its privileges with [setreuid(0, u)], which leaves
    no effective capability, and gets them back with [setreuid(u, 0)], which
    needs no capability and restores its ids and its permitted set as the
    effective one. *)
Theorem setreuid_swap `{UidSlab} s u s1 s2 :
  let me := current s in let t := cur s in
  uid t = u → euid t = 0 → u ≠ 0 → 0 <= u < ID_NONE → securebits s = 0 →
  exec (Ssetreuid 0 u) s = (0, s1) →
  exec (Ssetreuid u 0) s1 = (0, s2) →
  (let t1 := tasks s1 me in
   uid t1 = 0 ∧ euid t1 = u ∧ fsuid t1 = u ∧ cap_effective t1 = 0 ∧
   cap_permitted t1 = cap_permitted t) ∧
  (let t2 := tasks s2 me in
   uid t2 = u ∧ euid t2 = 0 ∧ suid t2 = 0 ∧ fsuid t2 = 0 ∧
   cap_effective t2 = cap_permitted t ∧ cap_permitted t2 = cap_permitted t).
Proof.
  intros me t Hu He Hu0 Hur Hsb Hx1 Hx2. unfold ID_NONE in Hur. simpl in Hx1, Hx2.
  rewrite (u32_small u) in Hx1, Hx2 by lia. rewrite (u32_small 0) in Hx1, Hx2 by lia.
  assert (u ≠ ID_NONE) as Hun by (unfold ID_NONE; lia).
  pose proof (setreuid_own me t 0 u ltac:(done) Hun) as Hd.
  rewrite Hu, He, !Z.eqb_refl, ?orb_true_r in Hd.
  specialize (Hd eq_refl eq_refl s ltac:(done)). rewrite Hx1 in Hd.
  destruct (Hd eq_refl) as (t1 & Hat1 & A1 & A2 & A3 & A4 & Hp1 & _). clear Hd.
  set (t1' := emulate _ _ _ t1) in Hat1. simpl in Hat1.
  assert (uid t1' = 0 ∧ euid t1' = u ∧ suid t1' = u ∧ fsuid t1' = u ∧ cap_effective t1' = 0 ∧
    cap_permitted t1' = cap_permitted t) as (E1 & E2 & E3 & E4 & E5 & E6).
  { subst t1'. unfold emulate. rewrite A1, A2, A3, (proj2 (Z.eqb_neq u 0)) by done. simpl.
    by rewrite ?andb_false_r. }
  pose proof (setreuid_own me t1' u 0 Hun ltac:(done)) as Hd.
  rewrite E1, E2, E3, !Z.eqb_refl, ?orb_true_r in Hd.
  specialize (Hd eq_refl eq_refl s1 Hat1). rewrite Hx2 in Hd.
  destruct (Hd eq_refl) as (t2 & Hat2 & B1 & B2 & B3 & B4 & Hp2 & _).
  set (t2' := emulate _ _ _ t2) in Hat2. simpl in Hat2.
  assert (uid t2' = u ∧ euid t2' = 0 ∧ suid t2' = 0 ∧ fsuid t2' = 0 ∧
    cap_effective t2' = cap_permitted t ∧ cap_permitted t2' = cap_permitted t) as HE.
  { subst t2'. unfold emulate. rewrite B1, B2, B3, (proj2 (Z.eqb_neq u 0)) by done. simpl.
    rewrite ?andb_false_r. simpl. rewrite Hp2, E6. done. }
  destruct Hat1 as (_ & _ & ->), Hat2 as (_ & _ & ->). done.
Qed.

Lemma setreuid_swap_witness :
  let s := demo [set_euid 0 (set_suid 0 (demo_task 2 500 cap_all))] 0 in
  let x1 := @exec bump_slab (Ssetreuid 0 500) s in
  let x2 := @exec bump_slab (Ssetreuid 500 0) x1.2 in
  x1.1 = 0 ∧ x2.1 = 0 ∧ cap_effective (tasks x1.2 0) = 0 ∧ cap_effective (tasks x2.2 0) = cap_all.
Proof.
  intros s x1 x2. split; [vm_compute; reflexivity|]. split; [vm_compute; reflexivity|].
  destruct (@setreuid_swap bump_slab s 500 x1.2 x2.2) as [(_ & _ & _ & H1 & _) (_ & _ & _ & _ & H2 & _)];
    [reflexivity|reflexivity|lia|unfold ID_NONE; lia|reflexivity|vm_compute; reflexivity..|].
  exact (conj H1 H2).
Defined.

(** * Sessions, users, priorities, limits *)

(** C17. Process groups do not span sessions, along every sequence of calls by
    the tasks of the list: tasks with the same process group have the same
    session, which is also the session of the task the group is named after. *)
Theorem groups_within_sessions `{UidSlab} l s :
  sessions_ok s → Forall (λ pc, pc.1 ∈ task_list s) l →
  let s' := run l s in
  task_list s' = task_list s ∧
  ∀ p q, p ∈ task_list s → q ∈ task_list s →
    (pgrp (tasks s' p) = pgrp (tasks s' q) ∨ pgrp (tasks s' p) = pid (tasks s' q)) →
    session (tasks s' p) = session (tasks s' q).
Proof.
  intros Hs Hl s'.
  assert (sessions_ok s' ∧ task_list s' = task_list s) as [[H1 H2 H3 H4] Htl].
  { apply (run_invariant (λ s0, sessions_ok s0 ∧ task_list s0 = task_list s)); [..|done|done].
    - intros c s0 [Ha Hb]. split; [by apply sessions_exec|by apply task_list_exec].
    - intros p s0 Hp [[] Hb]. split; [by split|done]. }
  split; [done|]. rewrite Htl in *. intros p q Hp Hq [?|?]; eauto.
Qed.

(** A shell moves its child into a group of its own, which then tries to leave
    the session. *)
Lemma groups_within_sessions_witness :
  let s := demo [demo_task 2 0 0; set_pgrp 2 (demo_task 3 0 0)] 0 in
  let l := [(0%nat, Ssetpgid 3 3); (1%nat, Ssetsid); (0%nat, Ssetpgid 0 3); (0%nat, Ssetsid)] in
  let s' := @run bump_slab l s in
  (pgrp (tasks s' 0), session (tasks s' 0)) = (2, 2) ∧ session (tasks s' 0) ≠ 1 ∧
  task_list s' = task_list s.
Proof.
  intros s l s'. split; [vm_compute; reflexivity|]. split; [vm_compute; discriminate|].
  apply (@groups_within_sessions bump_slab l s).
  - split; [apply (bool_decide_unpack _); vm_compute; exact I|..];
      intros p q Hp Hq; simpl in Hp, Hq;
      repeat match goal with
      | H : _ ∈ _ :: _ |- _ => apply elem_of_cons in H as [->|H]
      | H : _ ∈ [] |- _ => by apply elem_of_nil in H
      end; vm_compute; first [reflexivity | discriminate].
  - apply (bool_decide_unpack _). vm_compute. exact I.
Defined.

(** User accounting: along every sequence of calls by the tasks of the
    list, each task's [user] is the live entry of its real uid, and each entry
    counts exactly the tasks that use it (and [init_task] for root), as
    references and as processes. *)
Theorem user_accounting `{UidSlab} l s :
  users_ok s → Forall (λ pc, pc.1 ∈ task_list s) l →
  let s' := run l s in
  (∀ p, p ∈ task_list s → uid_at (uids s') (user (tasks s' p)) = Some (uid (tasks s' p))) ∧
  (∀ a, count_at (uids s') a = base_refs a + refs (tasks s') (task_list s) a) ∧
  (∀ a, processes_at (uids s') a = count_at (uids s') a).
Proof.
  intros Hs Hl s'.
  assert (users_ok s' ∧ task_list s' = task_list s) as [[H1 H2 H3 H4 H5 H6] Htl].
  { apply (run_invariant (λ s0, users_ok s0 ∧ task_list s0 = task_list s)); [..|done|done].
    - intros c s0 [Ha Hb]. split; [by apply users_exec|by apply task_list_exec].
    - intros p s0 Hp [[] Hb]. split; [by split|done]. }
  rewrite Htl in *. done.
Qed.

Lemma boot_users_inv : uid_inv boot_users.
Proof.
  assert (∃ u, users uid_cache_init !! root_user = Some u) as [u Hu] by (eexists; vm_compute; reflexivity).
  apply add_processes_spec. by apply (atomic_inc_spec _ _ _ uid_cache_init_inv Hu).
Qed.

Lemma boot_users_at a :
  users boot_users !! a = if decide (a = root_user) then Some (mk_user 2 2 0 0 (HashEnt 0) 0) else None.
Proof.
  unfold boot_users, add_processes, atomic_inc_count. rewrite !users_upd.
  destruct (decide (a = root_user)) as [->|Ha]; [vm_compute; reflexivity|].
  destruct (users uid_cache_init !! a) as [w|] eqn:Hw; [|done].
  apply uid_cache_init_lookup in Hw as [-> _]. done.
Qed.

(** [init] becomes user 500 and cannot come back; root's entry keeps the
    reference of [init_task]. *)
Lemma user_accounting_witness :
  let s := demo [demo_task 1 0 cap_all] 0 in
  let l := [(0%nat, Ssetuid 500); (0%nat, Ssetuid 0)] in
  let s' := @run bump_slab l s in
  (count_at (uids s') root_user, count_at (uids s') (user (tasks s' 0))) = (1, 1) ∧
  uid_at (uids s') (user (tasks s' 0)) = Some (uid (tasks s' 0)).
Proof.
  intros s l s'. split; [vm_compute; reflexivity|].
  apply (@user_accounting bump_slab l s).
  - split.
    + exact boot_users_inv.
    + apply (bool_decide_unpack _); vm_compute; exact I.
    + apply (bool_decide_unpack _); vm_compute; exact I.
    + intros a. unfold count_at. simpl uids. rewrite boot_users_at. simpl. unfold base_refs.
      destruct (decide (a = root_user)) as [->|Ha]; [reflexivity|].
      rewrite !bool_decide_eq_false_2 by congruence. reflexivity.
    + intros a. unfold count_at, processes_at. simpl uids. rewrite boot_users_at.
      by destruct (decide _).
    + intros p Hp. simpl in Hp. apply list_elem_of_singleton in Hp as ->. vm_compute. reflexivity.
  - apply (bool_decide_unpack _). vm_compute. exact I.
  - apply (bool_decide_unpack _). vm_compute. exact I.
Defined.

(** [setpriority] moves exactly the selected tasks the caller may move (its
    own or any with [CAP_SYS_NICE]; to a better priority only with it) to the
    requested value cut to -20..19, leaves the others, and returns 0 exactly when
    it selected some task and could move all it selected. *)
Theorem setpriority_correct which who niceval s :
  0 <= which <= 2 → NoDup (task_list s) →
  let nv := Z.max (-20) (Z.min 19 niceval) in
  let '(r, s') := sys_setpriority which who niceval s in
  (∀ p, nice (tasks s' p) =
     if decide (p ∈ task_list s ∧ proc_sel p which who s = true ∧ prio_allowed s p nv = true)
     then nv else nice (tasks s p)) ∧
  (r = 0 ↔ (∃ p, p ∈ task_list s ∧ proc_sel p which who s = true) ∧
     ∀ p, p ∈ task_list s → proc_sel p which who s = true → prio_allowed s p nv = true).
Proof.
  intros Hw Hnd nv. unfold sys_setpriority.
  destruct (Z.gtb_spec which 2); [lia|]. rewrite (proj2 (Z.ltb_ge which 0)) by lia. cbn [orb].
  unfold mbind, ST_bind. cbn [gets fst snd]. cbv zeta.
  match goal with |- context [setpriority_loop _ _ _ ?x _] => replace x with nv end.
  2:{ subst nv. destruct (Z.ltb_spec niceval (-20)); [|destruct (Z.gtb_spec niceval 19)]; simpl; lia. }
  pose proof (setpriority_loop_spec (task_list s) which who nv (-ESRCH) s Hnd) as Hl.
  destruct (setpriority_loop _ _ _ _ _ s) as [r s']. destruct Hl as (_ & Hn & ->).
  split; [|apply prio_fold_zero]. intros p. rewrite Hn.
  destruct (decide (p ∈ task_list s)) as [Hp|Hp]; [|by rewrite decide_False by naive_solver].
  destruct (proc_sel p which who s) eqn:Hs, (prio_allowed s p nv) eqn:Ha; cbn [andb];
    case_decide as Hd; first [done | by destruct Hd as (_ & ? & ?) | by destruct Hd].
Qed.

(** An unprivileged user renices its own tasks upwards. *)
Lemma setpriority_correct_witness :
  let s := demo [demo_task 2 500 0; demo_task 3 600 0; demo_task 4 500 0] 0 in
  let x := sys_setpriority PRIO_USER 0 30 s in
  (nice (tasks x.2 0), nice (tasks x.2 1), nice (tasks x.2 2)) = (19, 0, 19) ∧ x.1 = 0 ∧
  (x.1 = 0 ↔ (∃ p, p ∈ task_list s ∧ proc_sel p PRIO_USER 0 s = true) ∧
     ∀ p, p ∈ task_list s → proc_sel p PRIO_USER 0 s = true → prio_allowed s p 19 = true).
Proof.
  intros s x. split; [vm_compute; reflexivity|]. split; [vm_compute; reflexivity|].
  assert (NoDup (task_list s)) as Hnd by (apply (bool_decide_unpack _); vm_compute; exact I).
  pose proof (setpriority_correct PRIO_USER 0 30 s ltac:(vm_compute; split; discriminate) Hnd) as Hx.
  fold x in Hx. destruct x as [r s']. exact (proj2 Hx).
Defined.

(** [setrlimit] either fails and changes no limit, or stores the new limit
    in its place and leaves the others; without [CAP_SYS_RESOURCE] neither
    limit it stores exceeds the old hard limit, and the limit on open files
    never exceeds [NR_OPEN]. *)
Theorem setrlimit_correct resource arg s :
  0 <= resource → length (rlim (cur s)) = 11%nat →
  let '(r, s') := sys_setrlimit resource arg s in
  if r =? 0 then ∃ new,
    arg = Some new ∧ resource < 11 ∧
    rlim (cur s') = <[Z.to_nat resource := new]> (rlim (cur s)) ∧ rlim_at (cur s') resource = new ∧
    (cap_raised (cap_effective (cur s)) CAP_SYS_RESOURCE = false →
       rlim_cur new <= rlim_max (rlim_at (cur s) resource) ∧
       rlim_max new <= rlim_max (rlim_at (cur s) resource)) ∧
    (resource = RLIMIT_NOFILE → rlim_cur new <= NR_OPEN ∧ rlim_max new <= NR_OPEN)
  else rlim (cur s') = rlim (cur s).
Proof.
  intros Hr Hlen. unfold sys_setrlimit. unfold RLIM_NLIMITS.
  rewrite Z.geb_leb. destruct (Z.leb_spec 11 resource); [done|].
  destruct arg as [new|]; [|done]. unfold mbind, ST_bind. cbn [gets fst snd]. cbv zeta.
  set (old := rlim_at (cur s) resource). set (b := (_ >? rlim_max old) || _).
  assert (∃ ok s1, (if b then capable CAP_SYS_RESOURCE else mret true) s = (ok, s1) ∧
    rlim (cur s1) = rlim (cur s) ∧ (ok = true → b = true →
      cap_raised (cap_effective (cur s)) CAP_SYS_RESOURCE = true)) as (ok & s1 & -> & Hs1 & Hok).
  { destruct b; [|by exists true, s]. unfold capable, mbind, ST_bind. cbn [gets fst snd].
    destruct (cap_raised _ _) eqn:?; [|by exists false, s]. eexists _, _. split; [reflexivity|].
    split; [|done]. unfold cur. simpl. by rewrite fn_lookup_insert. }
  cbn [fst snd]. destruct ok; cbn [negb]; [|done].
  destruct ((resource =? RLIMIT_NOFILE) && _) eqn:Hno; [done|]. simpl.
  exists new. unfold rlim_at, cur. simpl. rewrite !fn_lookup_insert. simpl.
  fold (cur s1). rewrite Hs1. split_and!; [done|done|done|..].
  - rewrite nth_lookup, list_lookup_insert_eq by lia. done.
  - fold (cur s). fold (rlim_at (cur s) resource). fold old. intros Hcap.
    destruct b eqn:Hb; [by rewrite Hok in Hcap|]. subst b. to_prop. lia.
  - intros ->. rewrite Z.eqb_refl in Hno. cbn [andb] in Hno. to_prop. lia.
Qed.

Lemma setrlimit_correct_witness :
  let s := demo [demo_task 2 500 0] 0 in
  let x := sys_setrlimit 3 (Some (mk_rlimit 50 150)) s in
  let y := sys_setrlimit 3 (Some (mk_rlimit 50 201)) s in
  x.1 = 0 ∧ y.1 = -EPERM ∧ rlim (cur y.2) = rlim (cur s).
Proof.
  intros s x y. split; [vm_compute; reflexivity|]. split; [vm_compute; reflexivity|].
  pose proof (setrlimit_correct 3 (Some (mk_rlimit 50 201)) s ltac:(lia) eq_refl) as H.
  exact H.
Defined.

(** [setrlimit] compares the new soft limit with the old hard limit only: any
    task can lower its hard limit below the soft limit it sets with it. *)
Theorem setrlimit_soft_above_hard resource s :
  0 <= resource < 11 → resource ≠ RLIMIT_NOFILE → length (rlim (cur s)) = 11%nat →
  0 < rlim_max (rlim_at (cur s) resource) →
  let '(r, s') := sys_setrlimit resource
                    (Some (mk_rlimit (rlim_max (rlim_at (cur s) resource)) 0)) s in
  r = 0 ∧ rlim_max (rlim_at (cur s') resource) < rlim_cur (rlim_at (cur s') resource).
Proof.
  intros Hr Hnf Hlen Hpos. unfold sys_setrlimit, RLIM_NLIMITS, mbind, ST_bind. cbn [gets fst snd].
  rewrite Z.geb_leb, (proj2 (Z.leb_gt 11 resource)) by lia. cbv zeta. cbn [rlim_cur rlim_max].
  destruct (Z.gtb_spec (rlim_max (rlim_at (cur s) resource)) (rlim_max (rlim_at (cur s) resource))); [lia|].
  destruct (Z.gtb_spec 0 (rlim_max (rlim_at (cur s) resource))); [lia|]. cbn [orb negb].
  rewrite (proj2 (Z.eqb_neq resource RLIMIT_NOFILE)) by done. cbn [andb]. simpl. split; [done|].
  unfold rlim_at, cur. simpl. rewrite !fn_lookup_insert. simpl.
  rewrite nth_lookup, list_lookup_insert_eq by (unfold cur in Hlen; lia). simpl. done.
Qed.

Lemma setrlimit_soft_above_hard_witness :
  let s := demo [demo_task 2 500 0] 0 in
  let x := sys_setrlimit 3 (Some (mk_rlimit 200 0)) s in
  x.1 = 0 ∧ rlim_max (rlim_at (cur x.2) 3) < rlim_cur (rlim_at (cur x.2) 3).
Proof.
  intros s x.
  pose proof (setrlimit_soft_above_hard 3 s ltac:(lia) ltac:(discriminate) eq_refl eq_refl) as Hx.
  exact Hx.
Defined.

(** * Capability sets of all tasks *)

(** The loop of [cap_set_all] treats each task of the list once. *)
Lemma cap_set_all_loop_spec l d s :
  let s' := (cap_set_all_loop l d s).2 in
  current s' = current s ∧
  ∀ p, tasks s' p =
    if decide (p ∈ l ∧ p ≠ current s ∧ pid (tasks s p) ≠ 1) then set_caps d (tasks s p)
    else tasks s p.
Proof.
  revert s. induction l as [|q l IH]; intros s; cbn [cap_set_all_loop].
  { split; [done|]. intros p. by rewrite decide_False by set_solver. }
  unfold mbind, ST_bind. cbn [gets fst snd id]. cbv zeta.
  destruct (Nat.eqb_spec q (current s)) as [->|Hq]; cbn [orb negb when skip snd].
  { destruct (IH s) as [Hc Ht]. split; [done|]. intros p. rewrite Ht.
    repeat case_decide; try done; set_solver. }
  destruct (Z.eqb_spec (pid (tasks s q)) 1) as [H1|H1]; cbn [orb negb when skip snd].
  { destruct (IH s) as [Hc Ht]. split; [done|]. intros p. rewrite Ht.
    repeat case_decide; try done; set_solver. }
  set (s1 := (upd_task q (set_caps d) s).2). destruct (IH s1) as [Hc Ht]. split; [done|].
  intros p. rewrite Ht. change (current s1) with (current s).
  assert (tasks s1 p = if decide (p = q) then set_caps d (tasks s q) else tasks s p) as Hp.
  { subst s1. simpl. destruct (decide (p = q)) as [->|];
      [by rewrite fn_lookup_insert|by rewrite fn_lookup_insert_ne]. }
  rewrite Hp. destruct (decide (p = q)) as [->|Hpq].
  - rewrite (decide_True (P := q ∈ q :: l ∧ _)) by set_solver. by case_decide.
  - repeat case_decide; try done; set_solver.
Qed.

(** [capset] with pid -1 and [CAP_SETPCAP]: it fails with [EPERM] and changes
    no capability set, or gives the new sets to all tasks but the caller and
    [init]. What decides is the caller's own sets alone: unlike the comment
    above [sys_capset] says, a capability the caller may only inherit, and has
    not permitted, becomes inheritable for every task. *)
Theorem capset_all_spec d s :
  cap_raised (cap_effective (cur s)) CAP_SETPCAP = true →
  let '(r, s') := sys_capset (Some LINUX_CAPABILITY_VERSION) true (Some (-1)) (Some d) s in
  if capset_legal d (cur s) (cur s) then
    r = 0 ∧ ∀ p, let t := tasks s p in let t' := tasks s' p in
      (cap_effective t', cap_permitted t', cap_inheritable t') =
      if decide (p ∈ task_list s ∧ p ≠ current s ∧ pid t ≠ 1)
      then (effective d, permitted d, inheritable d)
      else (cap_effective t, cap_permitted t, cap_inheritable t)
  else
    r = -EPERM ∧ ∀ p, let t := tasks s p in let t' := tasks s' p in
      (cap_effective t', cap_permitted t', cap_inheritable t') =
      (cap_effective t, cap_permitted t, cap_inheritable t).
Proof.
  intros Hcap. unfold sys_capset. rewrite Z.eqb_refl. cbn [negb]. unfold mbind, ST_bind.
  change (-1 =? 0) with false. cbn [orelse].
  set (s1 := set_tasks (<[current s := set_flags (Z.lor (flags (cur s)) PF_SUPERPRIV) (cur s)]> (tasks s)) s).
  assert (capable CAP_SETPCAP s = (true, s1)) as -> by
    (unfold capable, mbind, ST_bind; cbn [gets fst snd]; by rewrite Hcap).
  cbn [fst snd negb]. unfold capset_apply, mbind, ST_bind. cbn [gets fst snd id].
  change (-1 >? 0) with false. change (-1 <? 0) with true. change (-1 =? -1) with true. cbn [andb].
  assert (∀ p, tasks s1 p = if decide (p = current s)
    then set_flags (Z.lor (flags (cur s)) PF_SUPERPRIV) (cur s) else tasks s p) as Hs1.
  { intros p. subst s1. simpl. destruct (decide (p = current s)) as [->|];
      [by rewrite fn_lookup_insert|by rewrite fn_lookup_insert_ne]. }
  assert (capset_legal d (tasks s1 (current s1)) (cur s1) = capset_legal d (cur s) (cur s)) as ->.
  { unfold cur at 1. change (current s1) with (current s). by rewrite Hs1, decide_True. }
  destruct (capset_legal d (cur s) (cur s)); cbn [negb].
  - split; [done|]. intros p. cbn [snd mret ST_ret]. unfold cap_set_all, mbind, ST_bind. cbn [gets fst snd].
    destruct (cap_set_all_loop_spec (task_list s) d s1) as [_ ->]. change (current s1) with (current s).
    rewrite Hs1. destruct (decide (p = current s)) as [->|Hp].
    + rewrite !decide_False by tauto. done.
    + by repeat case_decide.
  - split; [done|]. intros p. cbn [snd mret ST_ret]. rewrite Hs1.
    by destruct (decide (p = current s)) as [->|].
Qed.

(** Task 1 gets [CAP_SETUID] as inheritable from a caller that can only inherit it. *)
Lemma capset_all_spec_witness :
  let c := set_cap_inheritable 0x80 (demo_task 2 500 0x100) in
  let s := demo [c; demo_task 3 600 0] 0 in
  let x := sys_capset (Some LINUX_CAPABILITY_VERSION) true (Some (-1)) (Some (mk_cap_data 0 0 0x80)) s in
  cap_raised (cap_permitted c) CAP_SETUID = false ∧
  cap_raised (cap_inheritable (tasks s 1)) CAP_SETUID = false ∧
  x.1 = 0 ∧ cap_raised (cap_inheritable (tasks x.2 1)) CAP_SETUID = true.
Proof.
  intros c s x. split; [vm_compute; reflexivity|]. split; [vm_compute; reflexivity|].
  pose proof (capset_all_spec (mk_cap_data 0 0 0x80) s ltac:(vm_compute; reflexivity)) as Hx.
  fold x in Hx. clearbody x. destruct x as [r s'].
  change (capset_legal _ _ _) with true in Hx. destruct Hx as [-> Hx]. split; [reflexivity|].
  specialize (Hx 1%nat). simpl in Hx. injection Hx as _ _ Hi. simpl. rewrite Hi. vm_compute. reflexivity.
Defined.
