(* ===== verification/Ipc.v ===== *)
(** The common part of System V IPC (ipc/util.c, ipc/util.h): the table that
    maps ids to objects, sequence numbers, and the permission check. The objects
    are those of any type with an embedded [kern_ipc_perm] (class [IpcObj]). *)
From S2P Require Import Prelude Cred.
From stdpp Require Import list options.
#[local] Set Default Proof Using "Type*".
Open Scope cint_scope.
Open Scope Z_scope.

Definition IPC_PRIVATE : Z := 0.
Definition IPC_CREAT : Z := 0x200.
Definition IPC_EXCL : Z := 0x400.
Definition IPC_NOWAIT : Z := 0x800.
Definition IPC_RMID : Z := 0.
Definition IPC_SET : Z := 1.
Definition IPC_STAT : Z := 2.
Definition IPC_INFO : Z := 3.
Definition IPCMNI : Z := 32768.
Definition SEQ_MULTIPLIER : Z := IPCMNI.
Definition USHRT_MAX : Z := 0xffff.
Definition INT_MAX : Z := 2147483647.
Definition S_IRUGO : Z := 0x124.  (* 0444 *)
Definition S_IWUGO : Z := 0x92.   (* 0222 *)
Definition CAP_IPC_OWNER : Z := 15.

Record kern_ipc_perm := mk_perm {
  ip_key : Z;   (* key_t *)
  ip_uid : Z;
  ip_gid : Z;
  ip_cuid : Z;
  ip_cgid : Z;
  ip_mode : Z;
  ip_seq : Z    (* unsigned long *)
}.

(** A kernel object that starts with a [kern_ipc_perm]. *)
Class IpcObj (T : Type) := {
  perm : T → kern_ipc_perm;
  with_perm : kern_ipc_perm → T → T;
  perm_with_perm p t : perm (with_perm p t) = p
}.

(** [struct ipc_ids]; [size] is the length of [entries], a [NULL] entry is
    [None]. *)
Record ipc_ids (T : Type) := mk_ids {
  in_use : Z;
  max_id : Z;
  ids_seq : Z;      (* unsigned short *)
  ids_seq_max : Z;  (* unsigned short *)
  entries : list (option T)
}.
Arguments mk_ids {T}.
Arguments in_use {T}.
Arguments max_id {T}.
Arguments ids_seq {T}.
Arguments ids_seq_max {T}.
Arguments entries {T}.

Section ipc.
Context {T : Type} `{IpcObj T}.
Notation ids := (ipc_ids T).

Definition ids_size (s : ids) : Z := Z.of_nat (length (entries s)).

(** [alloc_ok] tells whether the array can be allocated. *)
Definition ipc_init_ids (size : Z) (alloc_ok : bool) : ids :=
  let size := if size >? IPCMNI then IPCMNI else size in
  let seq_limit := Z.quot INT_MAX SEQ_MULTIPLIER in
  let seq_max := if seq_limit >? USHRT_MAX then USHRT_MAX else seq_limit in
  mk_ids 0 (-1) 0 seq_max (if alloc_ok then replicate (Z.to_nat size) None else []).

(** The loop of [ipc_findkey] from entry [id] on. *)
Fixpoint findkey_loop (l : list (option T)) (id maxid key : Z) : Z :=
  match l with
  | [] => -1
  | p :: l =>
      if id <=? maxid then
        match p with
        | None => findkey_loop l (id + 1) maxid key
        | Some p => if key =? ip_key (perm p) then id else findkey_loop l (id + 1) maxid key
        end
      else -1
  end.

Definition ipc_findkey (s : ids) (key : Z) : Z := findkey_loop (entries s) 0 (max_id s) key.

(** The new table and the size limit it returns. *)
Definition grow_ary (newsize : Z) (alloc_ok : bool) (s : ids) : Z * ids :=
  let newsize := if newsize >? IPCMNI then IPCMNI else newsize in
  if newsize <=? ids_size s then (newsize, s)
  else if negb alloc_ok then (ids_size s, s)
  else (newsize, mk_ids (in_use s) (max_id s) (ids_seq s) (ids_seq_max s)
          (entries s ++ replicate (Z.to_nat (newsize - ids_size s)) None)).

(** The first free entry below [size]. *)
Fixpoint free_loop (l : list (option T)) (id size : Z) : option Z :=
  match l with
  | [] => None
  | p :: l => if id <? size then
                match p with None => Some id | Some _ => free_loop l (id + 1) size end
              else None
  end.

(** [cred] is [current]. Returns the index, or [None] for the result -1; the
    stored object has its permissions and its sequence number filled in. *)
Definition ipc_addid (cred : task) (new : T) (size : Z) (alloc_ok : bool) (s : ids) :
    option (Z * T) * ids :=
  let (size, s) := grow_ary size alloc_ok s in
  match free_loop (entries s) 0 size with
  | None => (None, s)
  | Some id =>
      let p := perm new in
      let new := with_perm (mk_perm (ip_key p) (euid cred) (egid cred) (euid cred) (egid cred)
                              (ip_mode p) (ids_seq s)) new in
      let seq := u16 (ids_seq s + 1) in
      let seq := if seq >? ids_seq_max s then 0 else seq in
      (Some (id, new),
       mk_ids (in_use s + 1) (if id >? max_id s then id else max_id s) seq (ids_seq_max s)
         (<[Z.to_nat id := Some new]> (entries s)))
  end.

(** The loop that lowers [max_id]: the last used entry among the first [n]. *)
Fixpoint last_used (l : list (option T)) (n : nat) : Z :=
  match n with
  | O => -1
  | S n => match l !! n with
           | Some (Some _) => Z.of_nat n
           | _ => last_used l n
           end
  end.

(** [id % SEQ_MULTIPLIER]; the callers have rejected negative ids. *)
Definition lid_of (id : Z) : Z := Z.rem id SEQ_MULTIPLIER.

(** [None] marks the two [BUG()]s. *)
Definition ipc_rmid (id : Z) (s : ids) : option (T * ids) :=
  let lid := lid_of id in
  if lid >=? ids_size s then None
  else match entries s !! Z.to_nat lid with
       | Some (Some p) =>
           let es := <[Z.to_nat lid := None]> (entries s) in
           Some (p, mk_ids (in_use s - 1)
                      (if lid =? max_id s then last_used es (Z.to_nat lid) else max_id s)
                      (ids_seq s) (ids_seq_max s) es)
       | _ => None
       end.

Definition ipc_get (s : ids) (id : Z) : option T :=
  let lid := lid_of id in
  if lid >=? ids_size s then None
  else default None (entries s !! Z.to_nat lid).

(** [ipc_lock]: the entry, now locked, or [NULL] with the lock released. *)
Definition ipc_lock (s : ids) (id : Z) : option T := ipc_get s id.

Definition ipc_buildid (id seq : Z) : Z := s32 (SEQ_MULTIPLIER * seq + id).

(** Non-zero when the id is stale. *)
Definition ipc_checkid (p : T) (uid : Z) : bool :=
  negb (Z.quot uid SEQ_MULTIPLIER =? ip_seq (perm p)).

(** Stores an object back in its entry. *)
Definition ipc_store (id : Z) (p : T) (s : ids) : ids :=
  mk_ids (in_use s) (max_id s) (ids_seq s) (ids_seq_max s)
    (<[Z.to_nat (lid_of id) := Some p]> (entries s)).
End ipc.

(** The permission check of the running task; [flag] is a [short]. *)
Definition ipcperms (p : kern_ipc_perm) (flag_ : Z) : K Z :=
  c ← gets cur;
  let requested_mode := Z.lor (Z.lor (Z.shiftr flag_ 6) (Z.shiftr flag_ 3)) flag_ in
  let granted_mode :=
    if (euid c =? ip_cuid p) || (euid c =? ip_uid p) then Z.shiftr (ip_mode p) 6
    else if in_group_p c (ip_cgid p) || in_group_p c (ip_gid p) then Z.shiftr (ip_mode p) 3
    else ip_mode p in
  if negb (Z.land (Z.land requested_mode (Z.lnot granted_mode)) 7 =? 0) then
    ok ← capable CAP_IPC_OWNER;
    mret (if negb ok then -1 else 0)
  else mret 0.
