(* ===== verification/IpcProofs.v ===== *)
(** The invariant of the id table, what each operation does to it, and the
    validity of ids: the lemmas of the file Ipc and its properties. *)
From S2P Require Import Prelude UidHash Cred CredProofs Ipc.
From stdpp Require Import list options.
#[local] Set Default Proof Using "Type*".
Open Scope cint_scope.
Open Scope Z_scope.

Section ids.
Context {T : Type} `{IpcObj T}.
Notation ids := (ipc_ids T).
Implicit Types (s : ids) (p : T).

(** Entry [i] holds the object [p]. *)
Definition holds s (i : Z) p : Prop := 0 <= i ∧ entries s !! Z.to_nat i = Some (Some p).

Fixpoint used (l : list (option T)) : Z :=
  match l with
  | [] => 0
  | Some _ :: l => 1 + used l
  | None :: l => used l
  end.

Record ids_ok s : Prop := {
  io_size : ids_size s <= IPCMNI;
  io_in_use : in_use s = used (entries s);
  io_max : -1 <= max_id s < ids_size s;
  io_max_used : 0 <= max_id s → ∃ p, holds s (max_id s) p;
  io_above i p : holds s i p → i <= max_id s;
  io_seq : 0 <= ids_seq s <= USHRT_MAX;
  io_seq_max : ids_seq_max s = USHRT_MAX;
  io_perm_seq i p : holds s i p → 0 <= ip_seq (perm p) <= USHRT_MAX
}.

Lemma holds_bound s i p : holds s i p → 0 <= i < ids_size s.
Proof. intros [Hi Hp]. apply lookup_lt_Some in Hp. unfold ids_size. lia. Qed.

Lemma holds_inj s i p q : holds s i p → holds s i q → p = q.
Proof. intros [_ Hp] [_ Hq]. congruence. Qed.

Lemma used_insert l i (o o' : option T) :
  l !! i = Some o' →
  used (<[i := o]> l) = used l + (match o with Some _ => 1 | None => 0 end) -
    (match o' with Some _ => 1 | None => 0 end).
Proof.
  revert i. induction l as [|x l IH]; intros [|i] Hi; simplify_eq/=; [destruct o, o'; lia|].
  rewrite IH by done. destruct x; lia.
Qed.

Lemma used_app l k : used (l ++ k) = used l + used k.
Proof. induction l as [|[] l IH]; simpl; rewrite ?IH; lia. Qed.

Lemma used_replicate n : used (replicate n None) = 0.
Proof. by induction n. Qed.

(** ** Initialisation and growth *)

Lemma init_ok size alloc_ok : 0 <= size → ids_ok (ipc_init_ids size alloc_ok).
Proof.
  intros Hs. unfold ipc_init_ids. cbv zeta.
  assert (∀ i p, ¬ holds (ipc_init_ids size alloc_ok) i p) as Hno.
  { intros i p [_ Hp]. unfold ipc_init_ids in Hp. simpl in Hp. destruct alloc_ok; [|done].
    apply lookup_replicate in Hp as [? _]. done. }
  change (Z.quot INT_MAX SEQ_MULTIPLIER >? USHRT_MAX) with false. cbv iota.
  split; unfold ids_size; simpl.
  - unfold IPCMNI. destruct alloc_ok; simpl; [|lia]. rewrite length_replicate.
    destruct (Z.gtb_spec size 32768); lia.
  - destruct alloc_ok; simpl; by rewrite ?used_replicate.
  - destruct alloc_ok; simpl; lia.
  - lia.
  - intros i p Hp. by destruct (Hno i p).
  - unfold USHRT_MAX. lia.
  - done.
  - intros i p Hp. by destruct (Hno i p).
Qed.

Lemma grow_spec newsize ok s :
  ids_ok s → 0 <= newsize →
  let '(size, s') := grow_ary newsize ok s in
  ids_ok s' ∧ (∀ i p, holds s' i p ↔ holds s i p) ∧ 0 <= size <= ids_size s' ∧
  ids_seq s' = ids_seq s ∧ (∃ n, entries s' = entries s ++ replicate n None).
Proof.
  intros [H1 H2 H3 H4 H5 H6 H7 H8] Hn. unfold grow_ary.
  set (ns := if newsize >? IPCMNI then IPCMNI else newsize).
  assert (0 <= ns <= IPCMNI) as Hns
    by (unfold ns, IPCMNI; destruct (Z.gtb_spec newsize 32768); lia).
  assert (∃ n, entries s = entries s ++ replicate n None) as He
    by (exists 0%nat; simpl; by rewrite app_nil_r).
  destruct (Z.leb_spec ns (ids_size s)); [split_and!; [by split|done|lia|lia|done|done]|].
  destruct ok; cbn [negb]; [|split_and!; [by split|done|unfold ids_size; lia|lia|done|done]].
  assert (∀ i p, holds (mk_ids (in_use s) (max_id s) (ids_seq s) (ids_seq_max s)
    (entries s ++ replicate (Z.to_nat (ns - ids_size s)) None)) i p ↔ holds s i p) as Hh.
  { intros i p. unfold holds. simpl. split; intros [Hi Hp]; (split; [done|]).
    - apply lookup_app_Some in Hp as [Hp|[_ Hp]]; [done|]. by apply lookup_replicate in Hp as [? _].
    - by apply lookup_app_l_Some. }
  assert (ids_size (mk_ids (in_use s) (max_id s) (ids_seq s) (ids_seq_max s)
    (entries s ++ replicate (Z.to_nat (ns - ids_size s)) None)) = ns) as Hsz
    by (unfold ids_size in *; simpl; rewrite length_app, length_replicate; lia).
  split_and!; [split|done|lia|rewrite Hsz; lia|done|eauto].
  - rewrite Hsz. lia.
  - simpl. by rewrite used_app, used_replicate, Z.add_0_r.
  - rewrite Hsz. simpl. lia.
  - simpl. intros Hm. destruct (H4 Hm) as [p Hp]. exists p. by apply Hh.
  - simpl. intros i p Hp%Hh. eauto.
  - done.
  - done.
  - intros i p Hp%Hh. eauto.
Qed.

(** ** Search *)

Lemma findkey_loop_spec l id m key :
  (∀ i p, l !! i = Some (Some p) → id + Z.of_nat i <= m) →
  (findkey_loop l id m key = -1 ∧ ∀ i p, l !! i = Some (Some p) → ip_key (perm p) ≠ key) ∨
  ∃ i p, findkey_loop l id m key = id + Z.of_nat i ∧ l !! i = Some (Some p) ∧ ip_key (perm p) = key ∧
    ∀ j q, (j < i)%nat → l !! j = Some (Some q) → ip_key (perm q) ≠ key.
Proof.
  revert id. induction l as [|o l IH]; intros id Hm; simpl; [by left|].
  destruct (Z.leb_spec id m) as [Hle|Hgt].
  2:{ left. split; [done|]. intros i p Hp. specialize (Hm _ _ Hp). lia. }
  assert (∀ i p, l !! i = Some (Some p) → id + 1 + Z.of_nat i <= m) as Hm'
    by (intros i p Hp; specialize (Hm (S i) p Hp); lia).
  specialize (IH _ Hm').
  assert ((∃ p, o = Some p ∧ ip_key (perm p) = key) ∨ (∀ p, o = Some p → ip_key (perm p) ≠ key)) as Ho.
  { destruct o as [p|]; [|by right]. destruct (decide (ip_key (perm p) = key)); [left; eauto|].
    right. by intros ? [= ->]. }
  destruct Ho as [(p & -> & Hk)|Ho].
  { rewrite (proj2 (Z.eqb_eq key _)) by done. right. exists 0%nat, p. split_and!; [lia|done|done|lia]. }
  assert (match o with None => findkey_loop l (id + 1) m key
          | Some p => if key =? ip_key (perm p) then id else findkey_loop l (id + 1) m key end
          = findkey_loop l (id + 1) m key) as ->.
  { destruct o as [p|]; [|done]. rewrite (proj2 (Z.eqb_neq key _)); [done|].
    intros Hk. by apply (Ho p). }
  destruct IH as [[-> Hno]|(i & p & -> & Hp & Hk & Hb)].
  - left. split; [done|]. intros [|i] p Hp; simpl in Hp; [|eauto]. apply Ho. congruence.
  - right. exists (S i), p. split_and!; [lia|done|done|]. intros [|j] q Hj Hq; simpl in Hq.
    + apply Ho. congruence.
    + eapply Hb; [|done]. lia.
Qed.

(** [ipc_findkey] finds the first object with the key, or there is none. *)
Lemma findkey_spec s key :
  ids_ok s →
  (ipc_findkey s key = -1 ∧ ∀ i p, holds s i p → ip_key (perm p) ≠ key) ∨
  ∃ p, holds s (ipc_findkey s key) p ∧ ip_key (perm p) = key ∧
    ∀ j q, j < ipc_findkey s key → holds s j q → ip_key (perm q) ≠ key.
Proof.
  intros Hok. unfold ipc_findkey.
  destruct (findkey_loop_spec (entries s) 0 (max_id s) key) as [[-> Hno]|(i & p & -> & Hp & Hk & Hb)].
  - intros i p Hp. rewrite Z.add_0_l. apply (io_above _ Hok _ p). split; [lia|]. by rewrite Nat2Z.id.
  - left. split; [done|]. intros i p [_ Hp]. eauto.
  - right. exists p. rewrite Z.add_0_l. split_and!; [split; [lia|by rewrite Nat2Z.id]|done|].
    intros j q Hj [Hj0 Hq]. eapply Hb; [|done]. lia.
Qed.

Lemma free_loop_spec (l : list (option T)) id size :
  match free_loop l id size with
  | Some r => id <= r < size ∧ l !! Z.to_nat (r - id) = Some None
  | None => ∀ i, id + Z.of_nat i < size → l !! i ≠ Some None
  end.
Proof.
  revert id. induction l as [|o l IH]; intros id; simpl; [done|].
  destruct (Z.ltb_spec id size); [|intros; lia].
  destruct o as [p|]; [|split; [lia|by rewrite Z.sub_diag]].
  specialize (IH (id + 1)). destruct (free_loop l (id + 1) size) as [r|].
  - destruct IH as [Hr Hl]. split; [lia|].
    replace (Z.to_nat (r - id)) with (S (Z.to_nat (r - (id + 1)))) by lia. done.
  - intros [|i] Hi; [done|]. simpl. apply IH. lia.
Qed.

(** ** Adding and removing *)

(** What [ipc_addid] returns for a new object. *)
Definition filled (cred : task) (seq : Z) p p' : Prop :=
  p' = with_perm (mk_perm (ip_key (perm p)) (euid cred) (egid cred) (euid cred) (egid cred)
                    (ip_mode (perm p)) seq) p.

Lemma filled_seq cred seq p p' : filled cred seq p p' → ip_seq (perm p') = seq.
Proof. intros ->. by rewrite perm_with_perm. Qed.

(** On success the object is in the first free entry, and the others are as
    before; on failure all entries below the limit are used. *)
Lemma addid_spec cred new size ok s :
  ids_ok s → 0 <= size →
  let '(r, s') := ipc_addid cred new size ok s in
  ids_ok s' ∧
  match r with
  | Some (id, p) => filled cred (ids_seq s) new p ∧ 0 <= id < IPCMNI ∧ (∀ q, ¬ holds s id q) ∧
      (∀ i q, holds s' i q ↔ if decide (i = id) then q = p else holds s i q) ∧
      ids_seq s' = (ids_seq s + 1) mod 65536
  | None => (∀ i q, holds s' i q ↔ holds s i q) ∧ ids_seq s' = ids_seq s
  end.
Proof.
  intros Hok Hsz. unfold ipc_addid. pose proof (grow_spec size ok s Hok Hsz) as Hg.
  destruct (grow_ary size ok s) as [sz s1]. destruct Hg as (Hok1 & Hh & Hb & Hseq & _).
  pose proof (free_loop_spec (entries s1) 0 sz) as Hf.
  destruct (free_loop (entries s1) 0 sz) as [id|]; [|split_and!; [done|by intros; apply Hh|done]].
  destruct Hf as [Hid Hfree]. rewrite Z.sub_0_r in Hfree.
  set (np := with_perm _ new).
  assert (filled cred (ids_seq s) new np) as Hnp by (unfold filled, np; by rewrite Hseq).
  destruct Hok1 as [H1 H2 H3 H4 H5 H6 H7 H8].
  set (s' := mk_ids _ _ _ _ _).
  assert (∀ i q, holds s' i q ↔ if decide (i = id) then q = np else holds s i q) as Hs'.
  { intros i q. unfold holds, s'. simpl. destruct (decide (i = id)) as [->|Hne].
    - rewrite list_lookup_insert_eq by (apply lookup_lt_Some in Hfree; lia). split; [by intros [_ [= ->]]|].
      intros ->. split; [lia|done].
    - split; intros [Hi Hq]; (split; [done|]).
      + rewrite list_lookup_insert_ne in Hq by lia. by apply Hh.
      + rewrite list_lookup_insert_ne by lia. by apply (Hh i q). }
  assert (ids_size s' = ids_size s1) as Hsz' by (unfold ids_size, s'; simpl; by rewrite length_insert).
  assert (ids_seq s' = (ids_seq s + 1) mod 65536) as Hseq'.
  { subst s'. simpl. rewrite H7, Hseq. unfold USHRT_MAX, u16. change (2 ^ 16) with 65536.
    pose proof (Z.mod_pos_bound (ids_seq s + 1) 65536). destruct (Z.gtb_spec ((ids_seq s + 1) mod 65536) 0xffff); lia. }
  split; [|split_and!; [done|lia|unfold IPCMNI in *; lia| |done|done]].
  - split.
    + by rewrite Hsz'.
    + unfold s'. simpl. erewrite used_insert by done. rewrite H2. lia.
    + rewrite Hsz'. unfold s'. simpl. destruct (Z.gtb_spec id (max_id s1)); lia.
    + intros _. unfold s'. simpl max_id. destruct (Z.gtb_spec id (max_id s1)) as [Hgt|Hle].
      * exists np. apply Hs'. by rewrite decide_True.
      * destruct H4 as [p Hp]; [lia|]. destruct (decide (max_id s1 = id)) as [He|Hne].
        -- exists np. apply Hs'. by rewrite decide_True.
        -- exists p. apply Hs'. rewrite decide_False by done. by apply Hh.
    + intros i p Hp%Hs'. unfold s'. simpl.
      destruct (decide (i = id)) as [->|]; [destruct (Z.gtb_spec id (max_id s1)); lia|].
      apply Hh, H5 in Hp. destruct (Z.gtb_spec id (max_id s1)); lia.
    + rewrite Hseq'. pose proof (Z.mod_pos_bound (ids_seq s + 1) 65536). unfold USHRT_MAX. lia.
    + done.
    + intros i p Hp%Hs'. destruct (decide (i = id)) as [->|]; [|by apply Hh, H8 in Hp].
      subst p. rewrite (filled_seq _ _ _ _ Hnp). by rewrite <-Hseq.
  - intros q Hq%Hh. destruct Hq as [_ Hq]. congruence.
Qed.

Lemma lid_of_build id seq :
  0 <= id < IPCMNI → 0 <= seq <= USHRT_MAX →
  lid_of (ipc_buildid id seq) = id ∧ Z.quot (ipc_buildid id seq) SEQ_MULTIPLIER = seq ∧
  0 <= ipc_buildid id seq.
Proof.
  intros Hid Hseq. unfold lid_of, ipc_buildid, SEQ_MULTIPLIER, IPCMNI, USHRT_MAX in *.
  rewrite s32_small by lia.
  rewrite Z.rem_mod_nonneg, Z.quot_div_nonneg by lia.
  replace (32768 * seq + id) with (id + seq * 32768) by lia.
  rewrite Z.mod_add, Z.div_add, Z.mod_small, Z.div_small by lia. lia.
Qed.

Lemma lid_of_bound id : 0 <= id → 0 <= lid_of id < IPCMNI.
Proof.
  intros. unfold lid_of, SEQ_MULTIPLIER, IPCMNI. rewrite Z.rem_mod_nonneg by lia.
  apply Z.mod_pos_bound. lia.
Qed.

Lemma lid_of_small id : 0 <= id < IPCMNI → lid_of id = id.
Proof. intros. unfold lid_of, SEQ_MULTIPLIER. rewrite Z.rem_small by lia. done. Qed.

Lemma get_holds s id p : 0 <= id → ipc_get s id = Some p ↔ holds s (lid_of id) p.
Proof.
  intros Hid. pose proof (lid_of_bound _ Hid). unfold ipc_get, holds.
  rewrite Z.geb_leb. destruct (Z.leb_spec (ids_size s) (lid_of id)) as [Hge|Hlt].
  - split; [done|]. intros [_ Hp]. apply lookup_lt_Some in Hp. unfold ids_size in Hge. lia.
  - split; [|by intros [_ ->]]. intros Hp. split; [lia|].
    by destruct (entries s !! Z.to_nat (lid_of id)) as [[]|]; simplify_eq/=.
Qed.

(** The one valid id of an object. *)
Lemma checkid_spec s id p :
  ids_ok s → 0 <= id → holds s (lid_of id) p →
  ipc_checkid p id = false ↔ id = ipc_buildid (lid_of id) (ip_seq (perm p)).
Proof.
  intros Hok Hid Hp. pose proof (lid_of_bound _ Hid) as Hb.
  destruct (lid_of_build (lid_of id) (ip_seq (perm p)) Hb (io_perm_seq _ Hok _ _ Hp)) as (_ & Hq & _).
  unfold ipc_checkid. rewrite negb_false_iff, Z.eqb_eq. split.
  - intros Heq. unfold ipc_buildid. rewrite <-Heq. unfold lid_of.
    assert (SEQ_MULTIPLIER * (id ÷ SEQ_MULTIPLIER) + Z.rem id SEQ_MULTIPLIER = id) as ->
      by (symmetry; apply Z.quot_rem'). symmetry. apply s32_small.
    pose proof (io_perm_seq _ Hok _ _ Hp) as Hs. rewrite <-Heq in Hs.
    unfold USHRT_MAX, SEQ_MULTIPLIER, IPCMNI in *. rewrite Z.quot_div_nonneg in Hs by lia.
    pose proof (Z.div_mod id 32768). pose proof (Z.mod_pos_bound id 32768). lia.
  - intros ->. by rewrite Hq.
Qed.

Lemma last_used_bound (l : list (option T)) n : -1 <= last_used l n <= Z.of_nat n - 1.
Proof.
  induction n as [|n IH]; [done|]. cbn [last_used]. destruct (l !! n) as [[]|]; lia.
Qed.

Lemma last_used_max (l : list (option T)) n :
  (0 <= last_used l n → ∃ p, l !! Z.to_nat (last_used l n) = Some (Some p)) ∧
  ∀ i p, (i < n)%nat → l !! i = Some (Some p) → Z.of_nat i <= last_used l n.
Proof.
  induction n as [|n [IH1 IH2]]; simpl; [split; [lia|intros; lia]|].
  destruct (l !! n) as [[p|]|] eqn:Hl.
  - split; [intros _; exists p; by rewrite Nat2Z.id|intros; lia].
  - split; [done|]. intros i q Hi Hq. destruct (decide (i = n)) as [->|]; [congruence|].
    eapply IH2; [|done]. lia.
  - split; [done|]. intros i q Hi Hq. destruct (decide (i = n)) as [->|]; [congruence|].
    eapply IH2; [|done]. lia.
Qed.

(** Removing an object frees its entry and nothing else. *)
Lemma rmid_spec id s p :
  ids_ok s → 0 <= id → holds s (lid_of id) p →
  ∃ s', ipc_rmid id s = Some (p, s') ∧ ids_ok s' ∧ ids_seq s' = ids_seq s ∧
    ∀ i q, holds s' i q ↔ i ≠ lid_of id ∧ holds s i q.
Proof.
  intros Hok Hid Hp. pose proof (holds_bound _ _ _ Hp) as Hlid. unfold ipc_rmid.
  rewrite Z.geb_leb, (proj2 (Z.leb_gt (ids_size s) (lid_of id))) by lia.
  rewrite (proj2 Hp). set (es := <[Z.to_nat (lid_of id) := None]> (entries s)).
  eexists. split; [reflexivity|]. set (s' := mk_ids _ _ _ _ _).
  assert (∀ i q, holds s' i q ↔ i ≠ lid_of id ∧ holds s i q) as Hs'.
  { intros i q. unfold holds, s', es. simpl. destruct (decide (i = lid_of id)) as [->|Hne].
    - rewrite list_lookup_insert_eq by (unfold ids_size in *; lia). naive_solver.
    - split.
      + intros [Hi Hq]. rewrite list_lookup_insert_ne in Hq by lia. done.
      + intros (_ & Hi & Hq). by rewrite list_lookup_insert_ne by lia. }
  assert (ids_size s' = ids_size s) as Hsz by (unfold ids_size, s', es; simpl; by rewrite length_insert).
  destruct Hok as [H1 H2 H3 H4 H5 H6 H7 H8]. split_and!; [split|done|done].
  - by rewrite Hsz.
  - unfold s', es. simpl. rewrite (used_insert _ _ _ _ (proj2 Hp)), H2. lia.
  - rewrite Hsz. unfold s'. simpl. destruct (Z.eqb_spec (lid_of id) (max_id s)); [|lia].
    pose proof (last_used_bound es (Z.to_nat (lid_of id))). lia.
  - unfold s'. simpl max_id. destruct (Z.eqb_spec (lid_of id) (max_id s)) as [He|Hne].
    + intros Hm. destruct (last_used_max es (Z.to_nat (lid_of id))) as [Hlast _].
      destruct (Hlast Hm) as [q Hq]. exists q. by split.
    + intros Hm. destruct (H4 Hm) as [q Hq]. exists q. apply Hs'. by split.
  - intros i q Hq. unfold s'. simpl max_id. pose proof (proj1 (Hs' _ _) Hq) as [Hi Hq'].
    pose proof (H5 _ _ Hq') as Hle. destruct (Z.eqb_spec (lid_of id) (max_id s)) as [He|]; [|done].
    destruct (last_used_max es (Z.to_nat (lid_of id))) as [_ Hmax]. destruct Hq as [Hi0 Hq].
    specialize (Hmax (Z.to_nat i) q ltac:(lia) Hq). lia.
  - done.
  - done.
  - intros i q [_ Hq]%Hs'. eauto.
Qed.
(** ** Lookup and update through an id *)

(** The index an id selects (the lid for the ids the callers let through). *)
Definition slot (id : Z) : Z := Z.of_nat (Z.to_nat (lid_of id)).

Lemma slot_lid id : 0 <= id → slot id = lid_of id.
Proof. intros Hid. pose proof (lid_of_bound _ Hid). unfold slot. lia. Qed.

Lemma get_slot s id p : ipc_get s id = Some p → holds s (slot id) p.
Proof.
  unfold ipc_get, holds, slot. rewrite Nat2Z.id. destruct (_ >=? _); [done|].
  destruct (entries s !! _) as [[]|]; intros; simplify_eq/=. split; [lia|done].
Qed.

Lemma get_store s id p q : ipc_get s id = Some p → ipc_get (ipc_store id q s) id = Some q.
Proof.
  unfold ipc_get, ids_size. cbn [ipc_store entries]. rewrite length_insert.
  destruct (_ >=? _); [done|]. intros Hp. rewrite list_lookup_insert_eq; [done|].
  destruct (entries s !! Z.to_nat (lid_of id)) eqn:He; [|done]. by eapply lookup_lt_Some.
Qed.

(** Storing an object with the sequence number of the old one. *)
Lemma store_spec id p q s :
  ids_ok s → holds s (slot id) q → ip_seq (perm p) = ip_seq (perm q) →
  ids_ok (ipc_store id p s) ∧
  ∀ i r, holds (ipc_store id p s) i r ↔ if decide (i = slot id) then r = p else holds s i r.
Proof.
  intros Hok Hq Hseq. pose proof (holds_bound _ _ _ Hq) as Hb.
  assert (Z.to_nat (lid_of id) = Z.to_nat (slot id)) as Hi by (unfold slot; lia).
  assert (∀ i r, holds (ipc_store id p s) i r ↔
    if decide (i = slot id) then r = p else holds s i r) as Hs'.
  { intros i r. unfold holds, ipc_store. cbn [entries]. rewrite Hi.
    destruct (decide (i = slot id)) as [->|Hne].
    - rewrite list_lookup_insert_eq by (unfold ids_size in *; lia). split; [by intros [_ [= ->]]|].
      intros ->. split; [lia|done].
    - split; intros [Hi0 Hr]; (split; [done|]).
      + by rewrite list_lookup_insert_ne in Hr by lia.
      + by rewrite list_lookup_insert_ne by lia. }
  split; [|done]. assert (ids_size (ipc_store id p s) = ids_size s) as Hsz
    by (unfold ids_size, ipc_store; simpl; by rewrite length_insert).
  destruct Hok as [H1 H2 H3 H4 H5 H6 H7 H8]. split; rewrite ?Hsz; try done.
  - unfold ipc_store. cbn [entries in_use]. rewrite Hi, (used_insert _ _ _ _ (proj2 Hq)), H2. lia.
  - intros Hm. destruct (H4 Hm) as [r Hr]. cbn [max_id ipc_store].
    destruct (decide (max_id s = slot id)) as [He|Hne].
    + exists p. apply Hs'. by rewrite decide_True.
    + exists r. apply Hs'. by rewrite decide_False.
  - intros i r Hr%Hs'. cbn [max_id ipc_store]. destruct (decide (i = slot id)) as [->|]; eauto.
  - intros i r Hr%Hs'. destruct (decide (i = slot id)) as [->|]; [|eauto].
    subst. rewrite Hseq. eauto.
Qed.
(** ** Sums over the table *)

(** A new object that counts nothing changes no sum. *)
Lemma addid_sum (g : option T → Z) cred (new : T) size ok (s : ids) :
  ids_ok s → 0 <= size → g None = 0 → (∀ pm, g (Some (with_perm pm new)) = 0) →
  zsum g (entries (ipc_addid cred new size ok s).2) = zsum g (entries s).
Proof.
  intros Hok Hsz Hnone Hn. unfold ipc_addid. pose proof (grow_spec size ok s Hok Hsz) as Hg.
  destruct (grow_ary size ok s) as [sz s1]. destruct Hg as (_ & _ & _ & _ & n & He).
  pose proof (free_loop_spec (entries s1) 0 sz) as Hf.
  assert (zsum g (entries s1) = zsum g (entries s)) as Ht
    by (rewrite He, zsum_app, zsum_replicate, Hnone; lia).
  destruct (free_loop (entries s1) 0 sz) as [id|]; [|done].
  destruct Hf as [_ Hf]. rewrite Z.sub_0_r in Hf. cbn [snd entries].
  rewrite (zsum_insert _ _ _ _ _ Hf), Ht, Hn, Hnone. lia.
Qed.

Lemma rmid_get id (s s' : ids) p : ipc_rmid id s = Some (p, s') → ipc_get s id = Some p.
Proof.
  unfold ipc_rmid, ipc_get. destruct (_ >=? _); [done|].
  destruct (entries s !! _) as [[q|]|]; [|done..]. by intros [= -> _].
Qed.

Lemma rmid_sum (g : option T → Z) id (s s' : ids) p :
  ipc_rmid id s = Some (p, s') → zsum g (entries s') = zsum g (entries s) + g None - g (Some p).
Proof.
  intros Hrm. unfold ipc_rmid in Hrm. destruct (_ >=? _); [done|].
  destruct (entries s !! _) as [[q|]|] eqn:He; [|done..]. injection Hrm as -> <-. cbn [entries].
  by rewrite (zsum_insert _ _ _ _ _ He).
Qed.
End ids.
