(* ===== verification/IpcThms.v ===== *)
(** The properties of the System V IPC id table and permission check, with
    their witnesses. *)
From S2P Require Import Prelude UidHash Cred CredProofs CredRun CredThms Ipc IpcProofs.
From stdpp Require Import list options.
#[local] Set Default Proof Using "Type*".
Open Scope cint_scope.
Open Scope Z_scope.

(** * Sequences of operations *)

Inductive ids_op (T : Type) :=
  | OAdd (cred : task) (new : T) (size : Z) (alloc_ok : bool)
  | ORm (id : Z)
  | OStore (id : Z) (p : T).
Arguments OAdd {T}.
Arguments ORm {T}.
Arguments OStore {T}.

Section ops.
Context {T : Type} `{IpcObj T}.

Definition exec_ids_op (op : ids_op T) (s : ipc_ids T) : ipc_ids T :=
  match op with
  | OAdd cred new size ok => (ipc_addid cred new size ok s).2
  | ORm id => match ipc_rmid id s with Some (_, s) => s | None => s end
  | OStore id p => ipc_store id p s
  end.

(** Objects are removed and updated through ids in use, and an update keeps the
    sequence number. *)
Definition ids_op_ok (op : ids_op T) (s : ipc_ids T) : Prop :=
  match op with
  | OAdd _ _ size _ => 0 <= size
  | ORm id => 0 <= id ∧ ∃ p, holds s (lid_of id) p
  | OStore id p => 0 <= id ∧ ∃ q, holds s (lid_of id) q ∧ ip_seq (perm p) = ip_seq (perm q)
  end.

Fixpoint run_ids (ops : list (ids_op T)) (s : ipc_ids T) : ipc_ids T :=
  match ops with
  | [] => s
  | op :: ops => run_ids ops (exec_ids_op op s)
  end.

Fixpoint run_ids_ok (ops : list (ids_op T)) (s : ipc_ids T) : Prop :=
  match ops with
  | [] => True
  | op :: ops => ids_op_ok op s ∧ run_ids_ok ops (exec_ids_op op s)
  end.

(** How many objects a sequence adds, and whether it removes entry [lid]. *)
Fixpoint adds (ops : list (ids_op T)) : Z :=
  match ops with
  | [] => 0
  | OAdd _ _ _ _ :: ops => 1 + adds ops
  | _ :: ops => adds ops
  end.

Fixpoint removes (lid : Z) (ops : list (ids_op T)) : bool :=
  match ops with
  | [] => false
  | ORm id :: ops => (lid_of id =? lid) || removes lid ops
  | _ :: ops => removes lid ops
  end.

(** The invariant behind the validity of the id of entry [lid] with sequence
    number [q], after [k] more objects were added; [gone] tells whether the
    entry was freed. *)
Record id_history (lid q k : Z) (gone : bool) (s : ipc_ids T) : Prop := {
  ih_ok : ids_ok s;
  ih_seq : ids_seq s = (q + 1 + k) mod 65536;
  ih_here : gone = false → ∃ p, holds s lid p;
  ih_entry p : holds s lid p →
    if gone then ∃ j, 1 <= j <= k ∧ ip_seq (perm p) = (q + j) mod 65536
    else ip_seq (perm p) = q
}.

Lemma history_step lid q k gone op s :
  0 <= k → id_history lid q k gone s → ids_op_ok op s →
  ∃ k', k <= k' <= k + adds [op] ∧
    id_history lid q k' (gone || removes lid [op]) (exec_ids_op op s).
Proof.
  intros Hk [Hok Hseq Hhere Hent] Hop. destruct op as [cred new size ok|id|id p]; simpl.
  - pose proof (addid_spec cred new size ok s Hok Hop) as Ha.
    destruct (ipc_addid cred new size ok s) as [[[id p]|] s']; destruct Ha as [Hok' Ha]; simpl.
    + destruct Ha as (Hfill & Hid & Hfree & Hh & Hs'). rewrite orb_false_r.
      exists (k + 1). split; [lia|]. split; [done|rewrite Hs', Hseq, Zplus_mod_idemp_l; f_equal; lia|..].
      * intros Hg. destruct (Hhere Hg) as [r Hr]. exists r. apply Hh.
        rewrite decide_False; [done|]. intros ->. by apply (Hfree r).
      * intros r Hr%Hh. destruct (decide (lid = id)) as [->|].
        -- subst r. rewrite (filled_seq _ _ _ _ Hfill). destruct gone.
           ++ exists (k + 1). split; [lia|]. rewrite Hseq. f_equal. lia.
           ++ destruct (Hhere eq_refl) as [r Hr]. by destruct (Hfree r).
        -- specialize (Hent _ Hr). destruct gone; [|done].
           destruct Hent as (j & ? & ?). exists j. split; [lia|done].
    + destruct Ha as [Hh Hs']. rewrite orb_false_r. exists k. split; [lia|].
      split; [done|by rewrite Hs'|..].
      * intros Hg. destruct (Hhere Hg) as [r Hr]. exists r. by apply Hh.
      * intros r Hr%Hh. by apply Hent.
  - destruct Hop as [Hid [p Hp]]. destruct (rmid_spec _ _ _ Hok Hid Hp) as (s' & -> & Hok' & Hs' & Hh).
    exists k. split; [lia|]. rewrite orb_false_r. split; [done|by rewrite Hs'|..].
    + intros [Hg Hne]%orb_false_elim. destruct (Hhere Hg) as [r Hr]. exists r. apply Hh.
      split; [|done]. apply Z.eqb_neq in Hne. congruence.
    + intros r [Hne Hr]%Hh. specialize (Hent _ Hr).
      rewrite (proj2 (Z.eqb_neq (lid_of id) lid)) by congruence. by rewrite orb_false_r.
  - destruct Hop as (Hid & r0 & Hr0 & Heq). destruct (store_spec id p r0 s Hok) as [Hok' Hh]; [by rewrite slot_lid|done|].
    rewrite slot_lid in Hh by done.
    exists k. split; [lia|]. rewrite orb_false_r. split; [done|done|..].
    + intros Hg. destruct (Hhere Hg) as [r Hr]. destruct (decide (lid = lid_of id)) as [->|Hne].
      * exists p. apply Hh. by rewrite decide_True.
      * exists r. apply Hh. by rewrite decide_False.
    + intros r Hr%Hh. destruct (decide (lid = lid_of id)) as [->|]; [|by apply Hent].
      subst r. rewrite Heq. by apply Hent.
Qed.

Lemma history_run lid q k gone ops s :
  0 <= k → id_history lid q k gone s → run_ids_ok ops s →
  ∃ k', k <= k' <= k + adds ops ∧ id_history lid q k' (gone || removes lid ops) (run_ids ops s).
Proof.
  revert k gone s. induction ops as [|op ops IH]; intros k gone s Hk Hs.
  { intros _. exists k. simpl. rewrite orb_false_r. split; [lia|done]. }
  intros [Hop Hops]. destruct (history_step _ _ _ _ _ _ Hk Hs Hop) as (k1 & Hk1 & Hs1).
  destruct (IH k1 _ _ ltac:(lia) Hs1 Hops) as (k2 & Hk2 & Hs2). exists k2.
  split; [destruct op; simpl in *; lia|]. simpl run_ids.
  replace (gone || removes lid (op :: ops)) with ((gone || removes lid [op]) || removes lid ops); [done|].
  rewrite <-orb_assoc. f_equal. destruct op; simpl; by rewrite ?orb_false_r.
Qed.

(** C23. Ids do not come back to life: an id given out by [ipc_addid] is accepted
    ([ipc_lock] finds an object and [ipc_checkid] passes it) exactly until its
    object is removed, whatever else is added, updated and removed, as long as
    at most 65535 more objects are added. *)
Theorem ipc_id_valid_until_removed cred new size ok s lid p s1 ops :
  ids_ok s → 0 <= size →
  ipc_addid cred new size ok s = (Some (lid, p), s1) →
  run_ids_ok ops s1 → adds ops <= 65535 →
  let uid := ipc_buildid lid (ip_seq (perm p)) in
  (∃ p', ipc_lock (run_ids ops s1) uid = Some p' ∧ ipc_checkid p' uid = false) ↔
  removes lid ops = false.
Proof.
  intros Hok Hsz Ha Hops Hadds uid. pose proof (addid_spec cred new size ok s Hok Hsz) as Hspec.
  rewrite Ha in Hspec. destruct Hspec as (Hok1 & Hfill & Hlid & Hfree & Hh & Hseq).
  pose proof (io_seq _ Hok) as Hq. set (q := ids_seq s) in *.
  assert (ip_seq (perm p) = q) as Hpq by (by eapply filled_seq).
  destruct (lid_of_build lid q Hlid Hq) as (Hl1 & Hl2 & Hl3).
  assert (id_history lid q 0 false s1) as Hs1.
  { split; [done|by rewrite Hseq, Z.add_0_r|..].
    - intros _. exists p. apply Hh. by rewrite decide_True.
    - intros r Hr%Hh. rewrite decide_True in Hr by done. by subst r. }
  destruct (history_run lid q 0 false ops s1 ltac:(lia) Hs1 Hops) as (k & Hk & [H1 H2 H3 H4]).
  simpl in H3, H4. unfold uid, ipc_lock. rewrite Hpq. split.
  - intros (p' & Hp'%get_holds & Hc); [|done]. rewrite Hl1 in Hp'.
    destruct (removes lid ops); [|done]. destruct (H4 _ Hp') as (j & Hj & Hseqj).
    unfold ipc_checkid in Hc. rewrite Hl2, Hseqj in Hc. to_prop.
    unfold USHRT_MAX in Hq. exfalso.
    assert (cdist 65536 q (q + j) = 0) as Hd.
    { unfold cdist. replace (q + j - q) with j by lia.
      assert ((q + j - q) mod 65536 = 0) as Hz.
      { rewrite Zminus_mod, <-Hc, (Z.mod_small q) by lia. by rewrite Z.sub_diag. }
      by replace (q + j - q) with j in Hz by lia. }
    unfold cdist in Hd. replace (q + j - q) with j in Hd by lia. rewrite Z.mod_small in Hd by lia. lia.
  - intros Hr. rewrite Hr in H3, H4. destruct (H3 eq_refl) as [p' Hp']. exists p'. split.
    + apply get_holds; [done|]. by rewrite Hl1.
    + unfold ipc_checkid. rewrite Hl2, (H4 _ Hp'). apply negb_false_iff, Z.eqb_refl.
Qed.

Lemma run_ids_inv ops s : ids_ok s → run_ids_ok ops s → ids_ok (run_ids ops s).
Proof.
  revert s. induction ops as [|op ops IH]; intros s Hs; [done|]. intros [Hop Hops].
  apply IH; [|done]. destruct op as [cred new size ok|id|id p]; simpl in *.
  - pose proof (addid_spec cred new size ok s Hs Hop) as Ha.
    destruct (ipc_addid cred new size ok s) as [[[]|] s']; by destruct Ha.
  - destruct Hop as [Hid [p Hp]]. by destruct (rmid_spec _ _ _ Hs Hid Hp) as (s' & -> & ? & _).
  - destruct Hop as (Hid & r0 & Hr0 & Heq). apply (store_spec _ _ r0 _ Hs); [by rewrite slot_lid|done].
Qed.

(** In every table reached from [ipc_init_ids], [in_use] counts the objects,
    [max_id] is the highest index in use (-1 for none), and so [ipc_findkey],
    which stops there, returns the first object with the key, or -1 exactly when
    no object has it. *)
Theorem ipc_table_correct size alloc_ok ops key :
  0 <= size → run_ids_ok ops (ipc_init_ids size alloc_ok) →
  let s := run_ids ops (ipc_init_ids size alloc_ok) in
  in_use s = used (entries s) ∧
  (∀ i p, holds s i p → i <= max_id s) ∧ (max_id s = -1 ∨ ∃ p, holds s (max_id s) p) ∧
  (ipc_findkey s key = -1 ↔ ∀ i p, holds s i p → ip_key (perm p) ≠ key) ∧
  (ipc_findkey s key ≠ -1 → ∃ p, holds s (ipc_findkey s key) p ∧ ip_key (perm p) = key ∧
     ∀ j q, j < ipc_findkey s key → holds s j q → ip_key (perm q) ≠ key).
Proof.
  intros Hsz Hops s. assert (ids_ok s) as Hs by (apply run_ids_inv; [by apply init_ok|done]).
  split_and!; [apply Hs|apply Hs|..].
  - pose proof (io_max _ Hs). destruct (decide (max_id s = -1)) as [?|]; [by left|right].
    apply (io_max_used _ Hs). lia.
  - destruct (findkey_spec s key Hs) as [[-> Hno]|(p & Hp & Hk & _)]; [done|]. split.
    + intros He. destruct Hp as [? _]. lia.
    + intros Hno. by destruct (Hno _ _ Hp).
  - intros Hne. destruct (findkey_spec s key Hs) as [[? _]|?]; done.
Qed.
End ops.

(** * Witnesses: objects that are nothing but their permissions *)

#[export] Instance perm_obj : IpcObj kern_ipc_perm := {|
  perm p := p;
  with_perm p _ := p;
  perm_with_perm _ _ := eq_refl
|}.

Definition demo_perm (key : Z) : kern_ipc_perm := mk_perm key 0 0 0 0 0x180 0.

Lemma ipc_id_valid_until_removed_witness :
  let s := ipc_init_ids 4 true in
  let c := demo_task 2 500 0 in
  let r := ipc_addid c (demo_perm 7) 4 true s in
  let ops := [OAdd c (demo_perm 8) 4 true; ORm 0; OAdd c (demo_perm 9) 4 true] in
  (fst <$> r.1) = Some 0 ∧
  (* the new object in entry 0 does not answer to the old id 0 *)
  ipc_findkey (run_ids ops r.2) 9 = 0 ∧
  ¬ ∃ p', ipc_lock (run_ids ops r.2) 0 = Some p' ∧ ipc_checkid p' 0 = false.
Proof.
  intros s c r ops. split; [vm_compute; reflexivity|]. split; [vm_compute; reflexivity|].
  assert (ids_ok s) as Hs by (by apply init_ok).
  assert (run_ids_ok ops r.2) as Hops.
  { split; [by vm_compute|]. split; [|by split; [vm_compute|]].
    split; [lia|]. eexists. split; [done|]. vm_compute. reflexivity. }
  intros Hv.
  pose proof (proj1 (ipc_id_valid_until_removed c (demo_perm 7) 4 true s 0
    (mk_perm 7 500 500 500 500 0x180 0) r.2 ops Hs ltac:(lia) ltac:(vm_compute; reflexivity) Hops
    ltac:(vm_compute; discriminate)) Hv) as Hx.
  vm_compute in Hx. discriminate.
Defined.

Lemma ipc_table_correct_witness :
  let c := demo_task 2 500 0 in
  let ops := [OAdd c (demo_perm 7) 4 true; OAdd c (demo_perm 8) 4 true; ORm 32769] in
  let s := run_ids ops (ipc_init_ids 4 true) in
  max_id s = 0 ∧ ipc_findkey s 7 = 0 ∧
  (ipc_findkey s 8 = -1 ↔ ∀ i p, holds s i p → ip_key (perm p) ≠ 8).
Proof.
  intros c ops s. split; [vm_compute; reflexivity|]. split; [vm_compute; reflexivity|].
  apply (ipc_table_correct 4 true ops 8); [lia|].
  split; [by vm_compute|]. split; [by vm_compute|]. split; [|done].
  split; [lia|]. eexists. split; vm_compute; [discriminate|reflexivity].
Defined.

(** * Permissions *)

(** [ipcperms] grants access exactly when each of the three permissions asked
    for (whichever class of the flag asks) is in the mode bits of the first
    class the task belongs to: owner or creator, then group or creator group
    (through its fsgid or a supplementary group), then others; or when the task
    has [CAP_IPC_OWNER], which it then marks as used. *)
Theorem ipcperms_correct p flag_ s :
  let c := cur s in
  let class := if (euid c =? ip_cuid p) || (euid c =? ip_uid p) then 6
               else if in_group_p c (ip_cgid p) || in_group_p c (ip_gid p) then 3 else 0 in
  let granted := ∀ b, 0 <= b < 3 →
    Z.testbit flag_ b || Z.testbit flag_ (b + 3) || Z.testbit flag_ (b + 6) = true →
    Z.testbit (ip_mode p) (b + class) = true in
  let override := cap_raised (cap_effective c) CAP_IPC_OWNER = true in
  let '(r, s') := ipcperms p flag_ s in
  (r = 0 ∨ r = -1) ∧ (r = 0 ↔ granted ∨ override) ∧
  (granted → s' = s) ∧ (¬ granted → s' = (capable CAP_IPC_OWNER s).2).
Proof.
  intros c class granted override.
  set (req := Z.lor (Z.lor (Z.shiftr flag_ 6) (Z.shiftr flag_ 3)) flag_).
  set (gm := Z.shiftr (ip_mode p) class).
  assert (granted ↔ Z.land (Z.land req (Z.lnot gm)) 7 = 0) as Hg.
  { assert (∀ b, 0 <= b → Z.testbit req b =
      Z.testbit flag_ b || Z.testbit flag_ (b + 3) || Z.testbit flag_ (b + 6)) as Hreq.
    { intros b Hb. unfold req. rewrite !Z.lor_spec, !Z.shiftr_spec by done.
      destruct (Z.testbit flag_ (b + 6)), (Z.testbit flag_ (b + 3)), (Z.testbit flag_ b); done. }
    assert (∀ b, 0 <= b → Z.testbit gm b = Z.testbit (ip_mode p) (b + class)) as Hgm
      by (intros b Hb; unfold gm; by rewrite Z.shiftr_spec).
    split.
    - intros Hgr. apply Z.bits_inj_0. intros b. destruct (decide (0 <= b)) as [Hb|Hb];
        [|apply Z.testbit_neg_r; lia].
      rewrite !Z.land_spec, Z.lnot_spec, Hreq, Hgm by done. change 7 with (Z.ones 3).
      destruct (decide (b < 3)) as [Hb3|Hb3].
      + destruct (Z.testbit flag_ b || Z.testbit flag_ (b + 3) || Z.testbit flag_ (b + 6)) eqn:He; [|done].
        rewrite (Hgr b); [done|lia|done].
      + by rewrite Z.ones_spec_high, andb_false_r by lia.
    - intros Hz b Hb He. assert (Z.testbit (Z.land (Z.land req (Z.lnot gm)) 7) b = false) as Ht
        by (rewrite Hz; apply Z.bits_0).
      rewrite !Z.land_spec, Z.lnot_spec, Hreq, He, Hgm in Ht by lia. change 7 with (Z.ones 3) in Ht.
      rewrite Z.ones_spec_low, andb_true_r in Ht by lia. by destruct (Z.testbit (ip_mode p) _). }
  unfold ipcperms, mbind, ST_bind. cbn [gets fst snd]. cbv zeta. fold c. fold req.
  replace (if (euid c =? ip_cuid p) || (euid c =? ip_uid p) then Z.shiftr (ip_mode p) 6
    else if in_group_p c (ip_cgid p) || in_group_p c (ip_gid p) then Z.shiftr (ip_mode p) 3
    else ip_mode p) with gm.
  2:{ unfold gm, class. repeat case_match; try done; by rewrite Z.shiftr_0_r. }
  destruct (Z.eqb_spec (Z.land (Z.land req (Z.lnot gm)) 7) 0) as [Hz|Hz]; cbn [negb].
  - simpl. split_and!; tauto.
  - destruct (capable_spec CAP_IPC_OWNER s) as [Hc _]. rewrite Hc. simpl.
    unfold override. fold c. destruct (cap_raised (cap_effective c) CAP_IPC_OWNER); simpl;
      split_and!; first [tauto | intuition congruence].
Qed.
