(* ===== verification/Sem.v ===== *)
(** System V semaphores (ipc/sem.c): the sets, the atomic execution of an
    operation list, the queue of sleeping processes, the undo lists, and the
    calls semget, semop, semctl and the exit handler, one definition for each
    section between two points where the set is unlocked. *)
From S2P Require Import Prelude UidHash Cred Ipc.
From stdpp Require Import list options.
#[local] Set Default Proof Using "Type*".
Open Scope cint_scope.
Open Scope Z_scope.

Definition SEM_UNDO : Z := 0x1000.
Definition SEMMNI : Z := 128.
Definition SEMMSL : Z := 250.
Definition SEMMNS : Z := 32000.
Definition SEMOPM : Z := 32.
Definition SEMVMX : Z := 32767.
Definition SEMAEM : Z := SEMVMX.

(** * Data (include/linux/sem.h) *)

Record sem := mk_sem {
  semval : Z;  (* int *)
  sempid : Z   (* int *)
}.

Record sembuf := mk_sembuf {
  sem_num : Z;  (* unsigned short *)
  sem_op : Z;   (* short *)
  sem_flg : Z   (* short *)
}.

Record sem_undo := mk_undo {
  un_semid : Z;
  semadj : list Z  (* short * *)
}.

(** A process sleeping in [sys_semop]; it is named by its task. [q_linked] is
    [prev != NULL]. *)
Record sem_queue := mk_queue {
  q_undo : option Z;
  q_pid : Z;
  q_status : Z;
  q_id : Z;
  q_sops : list sembuf;
  q_alter : bool;
  q_linked : bool
}.

(** A set; [sem_nsems] is the length of [sem_base], [sem_pending] lists the
    sleepers in queue order, [sem_undos] is the list [undo]. [sma_addr] is the
    address of the structure. *)
Record sem_array := mk_sma {
  sem_perm : kern_ipc_perm;
  sem_otime : Z;
  sem_ctime : Z;
  sem_base : list sem;
  sem_pending : list nat;
  sem_undos : list Z;
  sma_addr : Z
}.

Definition sem_nsems (a : sem_array) : Z := Z.of_nat (length (sem_base a)).

Definition set_sem_perm (x : kern_ipc_perm) (a : sem_array) : sem_array :=
  mk_sma x (sem_otime a) (sem_ctime a) (sem_base a) (sem_pending a) (sem_undos a) (sma_addr a).
Definition set_sem_otime (x : Z) (a : sem_array) : sem_array :=
  mk_sma (sem_perm a) x (sem_ctime a) (sem_base a) (sem_pending a) (sem_undos a) (sma_addr a).
Definition set_sem_ctime (x : Z) (a : sem_array) : sem_array :=
  mk_sma (sem_perm a) (sem_otime a) x (sem_base a) (sem_pending a) (sem_undos a) (sma_addr a).
Definition set_sem_base (x : list sem) (a : sem_array) : sem_array :=
  mk_sma (sem_perm a) (sem_otime a) (sem_ctime a) x (sem_pending a) (sem_undos a) (sma_addr a).
Definition set_sem_pending (x : list nat) (a : sem_array) : sem_array :=
  mk_sma (sem_perm a) (sem_otime a) (sem_ctime a) (sem_base a) x (sem_undos a) (sma_addr a).
Definition set_sem_undos (x : list Z) (a : sem_array) : sem_array :=
  mk_sma (sem_perm a) (sem_otime a) (sem_ctime a) (sem_base a) (sem_pending a) x (sma_addr a).

#[export] Instance sem_obj : IpcObj sem_array := {|
  perm := sem_perm;
  with_perm := set_sem_perm;
  perm_with_perm _ _ := eq_refl
|}.

(** The tasks, the table of sets, the undo structures by address, each task's
    list of them, its queue entry and whether [semsleeping] points to it, the
    wake-ups so far and the clock. *)
Record sem_state := mk_sem_state {
  ks : kstate;
  sem_ids : ipc_ids sem_array;
  used_sems : Z;
  undos : gmap Z sem_undo;
  semundo : nat → list Z;
  queues : nat → sem_queue;
  semsleeping : nat → bool;
  woken : list nat;
  now : Z
}.

Definition set_ks (x : kstate) (s : sem_state) : sem_state :=
  mk_sem_state x (sem_ids s) (used_sems s) (undos s) (semundo s) (queues s) (semsleeping s) (woken s) (now s).
Definition set_sem_ids (x : ipc_ids sem_array) (s : sem_state) : sem_state :=
  mk_sem_state (ks s) x (used_sems s) (undos s) (semundo s) (queues s) (semsleeping s) (woken s) (now s).
Definition set_used_sems (x : Z) (s : sem_state) : sem_state :=
  mk_sem_state (ks s) (sem_ids s) x (undos s) (semundo s) (queues s) (semsleeping s) (woken s) (now s).
Definition set_undos (x : gmap Z sem_undo) (s : sem_state) : sem_state :=
  mk_sem_state (ks s) (sem_ids s) (used_sems s) x (semundo s) (queues s) (semsleeping s) (woken s) (now s).
Definition set_semundo (x : nat → list Z) (s : sem_state) : sem_state :=
  mk_sem_state (ks s) (sem_ids s) (used_sems s) (undos s) x (queues s) (semsleeping s) (woken s) (now s).
Definition set_queues (x : nat → sem_queue) (s : sem_state) : sem_state :=
  mk_sem_state (ks s) (sem_ids s) (used_sems s) (undos s) (semundo s) x (semsleeping s) (woken s) (now s).
Definition set_semsleeping (x : nat → bool) (s : sem_state) : sem_state :=
  mk_sem_state (ks s) (sem_ids s) (used_sems s) (undos s) (semundo s) (queues s) x (woken s) (now s).
Definition set_woken (x : list nat) (s : sem_state) : sem_state :=
  mk_sem_state (ks s) (sem_ids s) (used_sems s) (undos s) (semundo s) (queues s) (semsleeping s) x (now s).

Notation S := (ST sem_state).

Definition id_sem (s : sem_state) : sem_state := s.

(** * The atomic execution of an operation list *)

Definition sem_at (l : list sem) (n : Z) : sem := nth (Z.to_nat n) l (mk_sem 0 0).
Definition adj_at (l : list Z) (n : Z) : Z := nth (Z.to_nat n) l 0.

(** [curr->sempid = (curr->sempid << 16) | pid; curr->semval += sem_op] *)
Definition apply_op (op pid : Z) (c : sem) : sem :=
  mk_sem (semval c + op) (s32 (Z.lor (Z.shiftl (sempid c) 16) pid)).

(** One turn of the [undo] loop on a semaphore. *)
Definition revert_op (op : Z) (c : sem) : sem :=
  mk_sem (semval c - op) (Z.shiftr (sempid c) 16).

Definition upd_sem (n : Z) (f : sem → sem) (l : list sem) : list sem :=
  <[Z.to_nat n := f (sem_at l n)]> l.

(** How the forward loop ends. *)
Inductive try_end :=
  | TryDone
  | TryRange
  | TryBlock (nowait : bool).

(** The state the loop works on: the semaphores, the adjustments of the undo
    structure, and the operations up to the current one, last first, whose flags
    it may have changed. *)
Record try_state := mk_try { t_sems : list sem; t_adj : list Z; t_done : list sembuf }.

Fixpoint try_loop (sops : list sembuf) (pid : Z) (t : try_state) : try_end * try_state :=
  match sops with
  | [] => (TryDone, t)
  | sop :: sops =>
      let n := sem_num sop in
      let op := sem_op sop in
      let block := TryBlock (sem_flg sop & IPC_NOWAIT) in
      if (op =? 0) && negb (semval (sem_at (t_sems t) n) =? 0)
      then (block, mk_try (t_sems t) (t_adj t) (sop :: t_done t))
      else
        let sems := upd_sem n (apply_op op pid) (t_sems t) in
        let undo := adj_at (t_adj t) n - op in
        if (sem_flg sop & SEM_UNDO) && ((undo <? - SEMAEM - 1) || (undo >? SEMAEM))
        then (TryRange, mk_try sems (t_adj t)
                (mk_sembuf n op (sem_flg sop &~ SEM_UNDO) :: t_done t))
        else
          let adj := if sem_flg sop & SEM_UNDO then <[Z.to_nat n := s16 undo]> (t_adj t) else t_adj t in
          let t := mk_try sems adj (sop :: t_done t) in
          if semval (sem_at sems n) <? 0 then (block, t)
          else if semval (sem_at sems n) >? SEMVMX then (TryRange, t)
          else try_loop sops pid t
  end.

(** The [undo] loop, from the current operation backwards. *)
Fixpoint undo_loop (done : list sembuf) (sems : list sem) (adj : list Z) : list sem * list Z :=
  match done with
  | [] => (sems, adj)
  | sop :: done =>
      let n := sem_num sop in
      undo_loop done (upd_sem n (revert_op (sem_op sop)) sems)
        (if sem_flg sop & SEM_UNDO then <[Z.to_nat n := s16 (adj_at adj n + sem_op sop)]> adj else adj)
  end.

(** 0 for success, 1 to sleep, or an error; with the semaphores, the adjustments
    and the operation list it leaves. *)
Definition try_atomic_semop (sems : list sem) (sops : list sembuf) (adj : list Z) (pid : Z)
    (do_undo : bool) : Z * list sem * list Z * list sembuf :=
  let '(e, t) := try_loop sops pid (mk_try sems adj []) in
  let sops' := rev (t_done t) ++ drop (length (t_done t)) sops in
  let undo (r : Z) :=
    let (sems, adj) := undo_loop (t_done t) (t_sems t) (t_adj t) in (r, sems, adj, sops') in
  match e with
  | TryDone => if do_undo then undo 0 else (0, t_sems t, t_adj t, sops')
  | TryRange => undo (-ERANGE)
  | TryBlock nowait => undo (if nowait then -EAGAIN else 1)
  end.

(** * Access to the shared structures *)

Definition current_task : S nat := gets (λ s, current (ks s)).

(** Runs a credential check on the task state. *)
Definition lift {A} (m : K A) : S A := λ s, let (a, k) := m (ks s) in (a, set_ks k s).

(** The set behind [semid], if its entry is used. *)
Definition sem_lock (semid : Z) : S (option sem_array) := gets (λ s, ipc_lock (sem_ids s) semid).

Definition upd_sma (semid : Z) (f : sem_array → sem_array) : S unit :=
  modify (λ s, match ipc_get (sem_ids s) semid with
               | Some a => set_sem_ids (ipc_store semid (f a) (sem_ids s)) s
               | None => s
               end).

Definition undo_adj (s : sem_state) (un : option Z) : list Z :=
  match un with Some u => from_option semadj [] (undos s !! u) | None => [] end.

Definition set_undo_adj (un : option Z) (adj : list Z) : S unit :=
  match un with
  | Some u => modify (λ s, set_undos (alter (λ x, mk_undo (un_semid x) adj) u (undos s)) s)
  | None => skip
  end.

Definition upd_queue (i : nat) (f : sem_queue → sem_queue) : S unit :=
  modify (λ s, set_queues (<[i := f (queues s i)]> (queues s)) s).

Definition wake_up_process (i : nat) : S unit := modify (λ s, set_woken (woken s ++ [i]) s).

Definition set_q_status (x : Z) (q : sem_queue) : sem_queue :=
  mk_queue (q_undo q) (q_pid q) x (q_id q) (q_sops q) (q_alter q) (q_linked q).
Definition set_q_sops (x : list sembuf) (q : sem_queue) : sem_queue :=
  mk_queue (q_undo q) (q_pid q) (q_status q) (q_id q) x (q_alter q) (q_linked q).
Definition set_q_linked (x : bool) (q : sem_queue) : sem_queue :=
  mk_queue (q_undo q) (q_pid q) (q_status q) (q_id q) (q_sops q) (q_alter q) x.

(** [try_atomic_semop] on the set [semid]; a success that is kept also sets
    [sem_otime]. *)
Definition try_semop (semid : Z) (sops : list sembuf) (un : option Z) (pid : Z) (do_undo : bool) :
    S (Z * list sembuf) := λ s,
  match ipc_get (sem_ids s) semid with
  | None => ((0, sops), s)
  | Some a =>
      let '(r, sems, adj, sops) := try_atomic_semop (sem_base a) sops (undo_adj s un) pid do_undo in
      (upd_sma semid (set_sem_base sems);;
       set_undo_adj un adj;;
       when ((r =? 0) && negb do_undo) (upd_sma semid (set_sem_otime (now s)));;
       mret (r, sops)) s
  end.

(** * The queue of a set *)

Definition append_to_queue (semid : Z) (i : nat) : S unit :=
  upd_sma semid (λ a, set_sem_pending (sem_pending a ++ [i]) a);;
  upd_queue i (set_q_linked true).

Definition prepend_to_queue (semid : Z) (i : nat) : S unit :=
  upd_sma semid (λ a, set_sem_pending (i :: sem_pending a) a);;
  upd_queue i (set_q_linked true).

Definition remove_from_queue (semid : Z) (i : nat) : S unit :=
  upd_sma semid (λ a, set_sem_pending (filter (.≠ i) (sem_pending a)) a);;
  upd_queue i (set_q_linked false).

(** The loop of [update_queue] from the entry that starts [l]; an entry that is
    removed keeps its [next] pointer, so the walk goes on behind it. *)
Fixpoint update_queue_loop (semid : Z) (l : list nat) : S unit :=
  match l with
  | [] => skip
  | i :: l =>
      q ← gets (λ s, queues s i);
      if (q_status q =? 1 : bool) then update_queue_loop semid l else
      r ← try_semop semid (q_sops q) (q_undo q) (q_pid q) (q_alter q);
      let (error, sops) := (r : Z * list sembuf) in
      upd_queue i (set_q_sops sops);;
      if (error <=? 0 : bool) then
        wake_up_process i;;
        if ((error =? 0) && q_alter q)%bool then upd_queue i (set_q_status 1)
        else
          upd_queue i (set_q_status error);;
          remove_from_queue semid i;;
          update_queue_loop semid l
      else update_queue_loop semid l
  end.

Definition update_queue (semid : Z) : S unit :=
  l ← gets (λ s, from_option sem_pending [] (ipc_get (sem_ids s) semid));
  update_queue_loop semid l.

(** The loops of [count_semncnt] and [count_semzcnt]. *)
Definition count_ops (p : sembuf → bool) (semnum : Z) (sops : list sembuf) : Z :=
  Z.of_nat (length (filter (λ o, (sem_num o =? semnum) && p o && negb (sem_flg o & IPC_NOWAIT)) sops)).

Definition count_semncnt (s : sem_state) (a : sem_array) (semnum : Z) : Z :=
  foldr (λ i n, count_ops (λ o, sem_op o <? 0) semnum (q_sops (queues s i)) + n) 0 (sem_pending a).
Definition count_semzcnt (s : sem_state) (a : sem_array) (semnum : Z) : Z :=
  foldr (λ i n, count_ops (λ o, sem_op o =? 0) semnum (q_sops (queues s i)) + n) 0 (sem_pending a).

(** * Initialisation and semget *)

(** The state when [sem_init] has run. *)
Definition sem_init (k : kstate) (time : Z) : sem_state :=
  mk_sem_state k (ipc_init_ids SEMMNI true) 0 ∅ (λ _, [])
    (λ _, mk_queue None 0 0 0 [] false false) (λ _, false) [] time.

Definition upd_perm (f : kern_ipc_perm → kern_ipc_perm) (a : sem_array) : sem_array :=
  set_sem_perm (f (sem_perm a)) a.

(** [mem] is the result of [ipc_alloc]. *)
Definition newary (key nsems semflg : Z) (mem : option Z) : S Z :=
  s ← gets id;
  if (nsems =? 0 : bool) then mret (-EINVAL) else
  if (used_sems s + nsems >? SEMMNS : bool) then mret (-ENOSPC) else
  match mem with
  | None => mret (-ENOMEM)
  | Some addr =>
      let sma := mk_sma (mk_perm 0 0 0 0 0 0 0) 0 0 [] [] [] addr in
      let (r, ids) := ipc_addid (cur (ks s)) sma SEMMNI true (sem_ids s) in
      modify (set_sem_ids ids);;
      match r with
      | None => mret (-ENOSPC)
      | Some (id, sma) =>
          modify (λ s, set_used_sems (used_sems s + nsems) s);;
          upd_sma id (upd_perm (λ p, mk_perm key (ip_uid p) (ip_gid p) (ip_cuid p) (ip_cgid p)
                                       (Z.land semflg S_IRWXUGO) (ip_seq p)));;
          upd_sma id (λ a, set_sem_ctime (now s)
                             (set_sem_base (replicate (Z.to_nat nsems) (mk_sem 0 0)) a));;
          mret (ipc_buildid id (ip_seq (sem_perm sma)))
      end
  end.

Definition sys_semget (key nsems semflg : Z) (mem : option Z) : S Z :=
  if ((nsems <? 0) || (nsems >? SEMMSL))%bool then mret (-EINVAL) else
  if (key =? IPC_PRIVATE : bool) then newary key nsems semflg mem else
  ids ← gets sem_ids;
  let id := ipc_findkey ids key in
  if (id =? -1 : bool) then
    if negb (semflg & IPC_CREAT) then mret (-ENOENT) else newary key nsems semflg mem
  else if ((semflg & IPC_CREAT) && (semflg & IPC_EXCL))%bool then mret (-EEXIST) else
  sma ← sem_lock id;
  match (sma : option sem_array) with
  | None => mret (-EINVAL) (* BUG() *)
  | Some sma =>
      if (nsems >? sem_nsems sma : bool) then mret (-EINVAL) else
      denied ← lift (ipcperms (sem_perm sma) (s16 semflg));
      if negb (denied =? 0) then mret (-EACCES)
      else mret (ipc_buildid id (ip_seq (sem_perm sma)))
  end.

(** Is [semid] still the set at [sma], seen before it was unlocked? *)
Definition sem_revalidate (semid : Z) (sma : sem_array) (nsems flg : Z) : S Z :=
  smanew ← sem_lock semid;
  match (smanew : option sem_array) with
  | None => mret (-EIDRM)
  | Some a =>
      if (negb (sma_addr a =? sma_addr sma) || ipc_checkid a semid || negb (sem_nsems a =? nsems))%bool
      then mret (-EIDRM)
      else
        denied ← lift (ipcperms (sem_perm a) flg);
        mret (if negb (denied =? 0) then -EACCES else 0)
  end.

(** * semop *)

(** What the checks before the operation find: an error, or whether some
    operation asks for undo, decreases, or alters. *)
Inductive semop_checked :=
  | CheckErr (err : Z)
  | CheckOk (undos decrease alter : bool).

Definition sops_undos (sops : list sembuf) : bool := existsb (λ o, sem_flg o & SEM_UNDO) sops.
Definition sops_decrease (sops : list sembuf) : bool := existsb (λ o, sem_op o <? 0) sops.
Definition sops_alter (sops : list sembuf) : bool :=
  existsb (λ o, sem_op o >? 0) sops || sops_decrease sops.

Definition semop_check (semid : Z) (sops : list sembuf) : S semop_checked :=
  sma ← sem_lock semid;
  match (sma : option sem_array) with
  | None => mret (CheckErr (-EINVAL))
  | Some sma =>
      if ipc_checkid sma semid then mret (CheckErr (-EIDRM)) else
      if existsb (λ o, sem_num o >=? sem_nsems sma) sops then mret (CheckErr (-EFBIG)) else
      let alter := sops_alter sops in
      denied ← lift (ipcperms (sem_perm sma) (if alter then S_IWUGO else S_IRUGO));
      if negb (denied =? 0) then mret (CheckErr (-EACCES))
      else mret (CheckOk (sops_undos sops) (sops_decrease sops) alter)
  end.

(** The walk over [current->semundo]: entries of removed sets that it passes are
    freed ([freeundos]). Returns the structure found and the list left. *)
Fixpoint find_undo_loop (l : list Z) (semid : Z) (us : gmap Z sem_undo) :
    option Z * list Z * gmap Z sem_undo :=
  match l with
  | [] => (None, [], us)
  | u :: l =>
      let id := from_option un_semid 0 (us !! u) in
      if id =? semid then (Some u, u :: l, us)
      else if id =? -1 then find_undo_loop l semid (delete u us)
      else let '(r, l', us') := find_undo_loop l semid us in (r, u :: l', us')
  end.

Definition find_undo (semid : Z) : S (option Z) :=
  me ← current_task;
  s ← gets id;
  let '(r, l, us) := find_undo_loop (semundo s me) semid (undos s) in
  modify (λ s, set_undos us (set_semundo (<[me := l]> (semundo s)) s));;
  mret r.

(** [mem] is the result of [kmalloc], during which the set is not locked. *)
Definition alloc_undo (sma : sem_array) (semid : Z) (alter : bool) (mem : option Z) :
    S (Z * option Z) :=
  let nsems := sem_nsems sma in
  match mem with
  | None => mret (-ENOMEM, None)
  | Some un =>
      error ← sem_revalidate semid sma nsems (if alter then S_IWUGO else S_IRUGO);
      if negb (error =? 0) then mret (error, None) else
      me ← current_task;
      modify (λ s, set_undos (<[un := mk_undo semid (replicate (Z.to_nat nsems) 0)]> (undos s)) s);;
      modify (λ s, set_semundo (<[me := un :: semundo s me]> (semundo s)) s);;
      upd_sma semid (λ a, set_sem_undos (un :: sem_undos a) a);;
      mret (0, Some un)
  end.

Inductive semop_result :=
  | SemRet (err : Z)
  | SemSleep.

(** The start of the sleep: a fresh round of the [for] loop. *)
Definition semop_sleep (me : nat) : S semop_result :=
  upd_queue me (set_q_status (-EINTR));; mret SemSleep.

(** From the first [try_atomic_semop] on. *)
Definition semop_try (semid : Z) (sops : list sembuf) (un : option Z) (decrease alter : bool) :
    S semop_result :=
  me ← current_task;
  pid_ ← gets (λ s, pid (cur (ks s)));
  r ← try_semop semid sops un pid_ false;
  let (error, sops) := (r : Z * list sembuf) in
  if (error <=? 0 : bool) then
    when alter (update_queue semid);; mret (SemRet error)
  else
    upd_queue me (λ q, mk_queue un pid_ (q_status q) semid sops decrease (q_linked q));;
    (if (alter : bool) then append_to_queue semid me else prepend_to_queue semid me);;
    modify (λ s, set_semsleeping (<[me := true]> (semsleeping s)) s);;
    semop_sleep me.

(** The fields of an operation have the widths of [struct sembuf]. *)
Definition sembuf_of (o : sembuf) : sembuf :=
  mk_sembuf (u16 (sem_num o)) (s16 (sem_op o)) (s16 (sem_flg o)).

(** [copied] is [None] when the copy of the operations faults; [mem] and
    [mem_undo] are the results of the two allocations. *)
Definition sys_semop (semid : Z) (nsops : Z) (copied : option (list sembuf)) (mem : bool)
    (mem_undo : option Z) : S semop_result :=
  if ((nsops <? 1) || (semid <? 0))%bool then mret (SemRet (-EINVAL)) else
  if (nsops >? SEMOPM : bool) then mret (SemRet (-E2BIG)) else
  if ((nsops >? 64) && negb mem)%bool then mret (SemRet (-ENOMEM)) else
  match copied with
  | None => mret (SemRet (-EFAULT))
  | Some copied =>
      let sops := sembuf_of <$> copied in
      c ← semop_check semid sops;
      match (c : semop_checked) with
      | CheckErr e => mret (SemRet e)
      | CheckOk undos decrease alter =>
          if negb undos then semop_try semid sops None decrease alter else
          un ← find_undo semid;
          match (un : option Z) with
          | Some u => semop_try semid sops (Some u) decrease alter
          | None =>
              sma ← sem_lock semid;
              match (sma : option sem_array) with
              | None => mret (SemRet (-EIDRM))
              | Some sma =>
                  r ← alloc_undo sma semid alter mem_undo;
                  if negb (r.1 =? 0) then mret (SemRet r.1)
                  else semop_try semid sops r.2 decrease alter
              end
          end
      end
  end.

(** The sleeper is out of [schedule()]. *)
Definition semop_wakeup : S semop_result :=
  me ← current_task;
  q ← gets (λ s, queues s me);
  let semid := q_id q in
  let alter := sops_alter (q_sops q) in
  let awake := modify (λ s, set_semsleeping (<[me := false]> (semsleeping s)) s) in
  tmp ← sem_lock semid;
  match (tmp : option sem_array) with
  | None => awake;; mret (SemRet (-EIDRM))
  | Some _ =>
      if (q_status q =? 1 : bool) then
        r ← try_semop semid (q_sops q) (q_undo q) (q_pid q) false;
        let (error, sops) := (r : Z * list sembuf) in
        upd_queue me (set_q_sops sops);;
        if (error <=? 0 : bool) then
          awake;; remove_from_queue semid me;;
          when alter (update_queue semid);; mret (SemRet error)
        else semop_sleep me
      else if q_linked q then
        awake;; remove_from_queue semid me;;
        when alter (update_queue semid);; mret (SemRet (q_status q))
      else awake;; mret (SemRet (q_status q))
  end.

(** * semctl *)

(** Marks the undo structures of a removed set and wakes its sleepers. *)
Definition freeary (id : Z) : S unit :=
  s ← gets id_sem;
  match ipc_rmid id (sem_ids s) with
  | None => skip (* BUG() *)
  | Some (sma, ids) =>
      modify (set_sem_ids ids);;
      modify (λ s, set_undos (foldr (λ u, alter (λ x, mk_undo (-1) (semadj x)) u) (undos s)
                                (sem_undos sma)) s);;
      modify (λ s, set_queues (foldr (λ i f, <[i := set_q_linked false (set_q_status (-EIDRM) (f i))]> f)
                                 (queues s) (sem_pending sma)) s);;
      modify (λ s, set_woken (woken s ++ sem_pending sma) s);;
      modify (λ s, set_used_sems (used_sems s - sem_nsems sma) s)
  end.

(** What a command hands back to the caller's memory. *)
Inductive sem_out :=
  | ONone
  | OVals (l : list Z)
  | OStat (p : kern_ipc_perm) (otime ctime nsems : Z)
  | OInfo (semusz semaem : Z).

Definition GETPID : Z := 11.
Definition GETVAL : Z := 12.
Definition GETALL : Z := 13.
Definition GETNCNT : Z := 14.
Definition GETZCNT : Z := 15.
Definition SETVAL : Z := 16.
Definition SETALL : Z := 17.
Definition SEM_STAT : Z := 18.
Definition SEM_INFO : Z := 19.
Definition SEMMSL_FAST : Z := 256.
Definition SEMUSZ : Z := 20.

(** [un->semadj[semnum] = 0] for the undo structures of the set. *)
Definition clear_adj (l : list Z) (semnum : Z) (s : sem_state) : sem_state :=
  set_undos (foldr (λ u, alter (λ x, mk_undo (un_semid x) (<[Z.to_nat semnum := 0]> (semadj x))) u)
               (undos s) l) s.

(** The same for all entries. *)
Definition clear_all_adj (l : list Z) (nsems : Z) (s : sem_state) : sem_state :=
  set_undos (foldr (λ u, alter (λ x, mk_undo (un_semid x)
                 (replicate (Z.to_nat nsems) 0 ++ drop (Z.to_nat nsems) (semadj x))) u) (undos s) l) s.

(** [SETALL] once the values are read. *)
Definition setall (semid : Z) (sma : sem_array) (arr : list Z) : S (Z * sem_out) :=
  let nsems := sem_nsems sma in
  let vals := u16 <$> take (Z.to_nat nsems) arr in (* ushort sem_io[nsems] *)
  if existsb (λ v, v >? SEMVMX) vals then mret (-ERANGE, ONone) else
  err ← sem_revalidate semid sma nsems S_IWUGO;
  if negb (err =? 0) then mret (err, ONone) else
  s ← gets id_sem;
  upd_sma semid (λ a, set_sem_base (imap (λ i c, mk_sem (nth i vals 0) (sempid c)) (sem_base a)) a);;
  modify (clear_all_adj (from_option sem_undos [] (ipc_get (sem_ids s) semid)) nsems);;
  upd_sma semid (set_sem_ctime (now s));;
  update_queue semid;;
  mret (0, ONone).

(** The commands on one semaphore. *)
Definition semctl_one (semid semnum cmd val : Z) (sma : sem_array) : S (Z * sem_out) :=
  if ((semnum <? 0) || (semnum >=? sem_nsems sma))%bool then mret (-EINVAL, ONone) else
  let curr := sem_at (sem_base sma) semnum in
  s ← gets id_sem;
  if (cmd =? GETVAL : bool) then mret (semval curr, ONone) else
  if (cmd =? GETPID : bool) then mret (Z.land (sempid curr) 0xffff, ONone) else
  if (cmd =? GETNCNT : bool) then mret (count_semncnt s sma semnum, ONone) else
  if (cmd =? GETZCNT : bool) then mret (count_semzcnt s sma semnum, ONone) else
  if (cmd =? SETVAL : bool) then
    if ((val >? SEMVMX) || (val <? 0))%bool then mret (-ERANGE, ONone) else
    modify (clear_adj (sem_undos sma) semnum);;
    upd_sma semid (λ a, set_sem_base (upd_sem semnum (λ _, mk_sem val (pid (cur (ks s)))) (sem_base a)) a);;
    upd_sma semid (set_sem_ctime (now s));;
    update_queue semid;;
    mret (0, ONone)
  else mret (-EINVAL, ONone).

(** [arr] is what the copy of the caller's array leaves ([None]: it faults),
    [copy_ok] whether results can be copied out, [mem] whether [ipc_alloc]
    succeeds. *)
Definition semctl_main (semid semnum cmd val : Z) (arr : option (list Z)) (copy_ok mem : bool) :
    S (Z * sem_out) :=
  sma ← sem_lock semid;
  match (sma : option sem_array) with
  | None => mret (-EINVAL, ONone)
  | Some sma =>
      let nsems := sem_nsems sma in
      if ipc_checkid sma semid then mret (-EIDRM, ONone) else
      denied ← lift (ipcperms (sem_perm sma)
                       (if (cmd =? SETVAL) || (cmd =? SETALL) then S_IWUGO else S_IRUGO));
      if negb (denied =? 0) then mret (-EACCES, ONone) else
      if (cmd =? GETALL : bool) then
        if ((nsems >? SEMMSL_FAST) && negb mem)%bool then mret (-ENOMEM, ONone) else
        err ← (if (nsems >? SEMMSL_FAST : bool) then sem_revalidate semid sma nsems S_IRUGO else mret 0);
        if negb (err =? 0) then mret (err, ONone) else
        if copy_ok then mret (0, OVals (u16 ∘ semval <$> sem_base sma)) else mret (-EFAULT, ONone)
      else if (cmd =? SETALL : bool) then
        if ((nsems >? SEMMSL_FAST) && negb mem)%bool then mret (-ENOMEM, ONone) else
        match arr with
        | None => mret (-EFAULT, ONone)
        | Some vals => setall semid sma vals
        end
      else if (cmd =? IPC_STAT : bool) then
        if copy_ok then mret (0, OStat (sem_perm sma) (sem_otime sma) (sem_ctime sma) nsems)
        else mret (-EFAULT, ONone)
      else semctl_one semid semnum cmd val sma
  end.

Definition semctl_nolock (semid cmd : Z) (copy_ok : bool) : S (Z * sem_out) :=
  s ← gets id_sem;
  if ((cmd =? IPC_INFO) || (cmd =? SEM_INFO))%bool then
    let out := if cmd =? SEM_INFO then OInfo (in_use (sem_ids s)) (used_sems s) else OInfo SEMUSZ SEMAEM in
    let m := max_id (sem_ids s) in
    if copy_ok then mret (if m <? 0 then 0 else m, out) else mret (-EFAULT, ONone)
  else if (cmd =? SEM_STAT : bool) then
    if (semid >=? ids_size (sem_ids s) : bool) then mret (-EINVAL, ONone) else
    match ipc_lock (sem_ids s) semid with
    | None => mret (-EINVAL, ONone)
    | Some sma =>
        denied ← lift (ipcperms (sem_perm sma) S_IRUGO);
        if negb (denied =? 0) then mret (-EACCES, ONone) else
        if copy_ok then mret (ipc_buildid semid (ip_seq (sem_perm sma)),
                              OStat (sem_perm sma) (sem_otime sma) (sem_ctime sma) (sem_nsems sma))
        else mret (-EFAULT, ONone)
    end
  else mret (-EINVAL, ONone).

Record sem_setbuf := mk_setbuf { sb_uid : Z; sb_gid : Z; sb_mode : Z }.

Definition semctl_down (semid cmd : Z) (buf : option sem_setbuf) : S Z :=
  if ((cmd =? IPC_SET) && match buf with None => true | Some _ => false end)%bool then mret (-EFAULT) else
  sma ← sem_lock semid;
  match (sma : option sem_array) with
  | None => mret (-EINVAL)
  | Some sma =>
      if ipc_checkid sma semid then mret (-EIDRM) else
      c ← gets (λ s, cur (ks s));
      let p := sem_perm sma in
      ok ← lift (orelse ((euid c =? ip_cuid p) || (euid c =? ip_uid p)) (capable CAP_SYS_ADMIN));
      if negb ok then mret (-EPERM) else
      if (cmd =? IPC_RMID : bool) then freeary semid;; mret 0
      else if (cmd =? IPC_SET : bool) then
        match buf with
        | None => mret (-EFAULT)
        | Some b =>
            s ← gets id_sem;
            upd_sma semid (upd_perm (λ p, mk_perm (ip_key p) (sb_uid b) (sb_gid b) (ip_cuid p) (ip_cgid p)
              (Z.lor (ip_mode p &~ S_IRWXUGO) (Z.land (sb_mode b) S_IRWXUGO)) (ip_seq p)));;
            upd_sma semid (set_sem_ctime (now s));;
            mret 0
        end
      else mret (-EINVAL)
  end.

Definition sys_semctl (semid semnum cmd val : Z) (arr : option (list Z)) (buf : option sem_setbuf)
    (copy_ok mem : bool) : S (Z * sem_out) :=
  if (semid <? 0 : bool) then mret (-EINVAL, ONone) else
  let cmd := cmd &~ 0x100 in (* ipc_parse_version *)
  if ((cmd =? IPC_INFO) || (cmd =? SEM_INFO) || (cmd =? SEM_STAT))%bool
  then semctl_nolock semid cmd copy_ok
  else if ((cmd =? GETALL) || (cmd =? GETVAL) || (cmd =? GETPID) || (cmd =? GETNCNT) ||
           (cmd =? GETZCNT) || (cmd =? IPC_STAT) || (cmd =? SETVAL) || (cmd =? SETALL))%bool
  then semctl_main semid semnum cmd val arr copy_ok mem
  else if ((cmd =? IPC_RMID) || (cmd =? IPC_SET))%bool
  then r ← semctl_down semid cmd buf; mret (r, ONone)
  else mret (-EINVAL, ONone).

(** * The exit of a task *)

(** The adjustment of one semaphore; there is no upper bound. *)
Definition exit_adjust (pid_ : Z) (adj : Z) (c : sem) : sem :=
  let v := semval c + adj in
  mk_sem (if v <? 0 then 0 else v) pid_.

(** One undo structure of the exiting task. *)
Definition exit_undo (u : Z) : S unit :=
  s ← gets id_sem;
  match undos s !! u with
  | None => skip
  | Some x =>
      (if (un_semid x =? -1 : bool) then skip else
       match ipc_lock (sem_ids s) (un_semid x) with
       | None => skip
       | Some sma =>
           if ipc_checkid sma (un_semid x) then skip else
           if negb (bool_decide (u ∈ sem_undos sma)) then skip else
           upd_sma (un_semid x) (set_sem_undos (filter (.≠ u) (sem_undos sma)));;
           upd_sma (un_semid x) (λ a, set_sem_base
             (imap (λ i c, exit_adjust (pid (cur (ks s))) (nth i (semadj x) 0) c) (sem_base a)) a);;
           upd_sma (un_semid x) (set_sem_otime (now s));;
           update_queue (un_semid x)
       end);;
      modify (λ s, set_undos (delete u (undos s)) s)
  end.

Fixpoint exit_undos (l : list Z) : S unit :=
  match l with
  | [] => skip
  | u :: l => exit_undo u;; exit_undos l
  end.

Definition sem_exit : S unit :=
  me ← current_task;
  s ← gets id_sem;
  (if semsleeping s me then
     modify (λ s, set_semsleeping (<[me := false]> (semsleeping s)) s);;
     when (q_linked (queues s me)) (remove_from_queue (q_id (queues s me)) me)
   else skip);;
  exit_undos (semundo s me);;
  modify (λ s, set_semundo (<[me := []]> (semundo s)) s).
