(* ===== verification/SemProofs.v ===== *)
(** The lemmas on semaphores: the abstract semantics of an operation list and
    its refinement by [try_atomic_semop], and the bounds it keeps. *)
From S2P Require Import Prelude UidHash Cred CredProofs CredRun Ipc IpcProofs Sem.
From stdpp Require Import list options.
#[local] Set Default Proof Using "Type*".
Open Scope cint_scope.
Open Scope Z_scope.

(** * The semantics of an operation list

    Sequential execution on the values and the adjustments alone. *)
Definition vals (l : list sem) : list Z := semval <$> l.
Definition val_at (v : list Z) (n : Z) : Z := nth (Z.to_nat n) v 0.

Inductive seq_end :=
  | SeqDone (v adj : list Z)
  | SeqRange
  | SeqBlock (nowait : bool).

Fixpoint seq_ops (sops : list sembuf) (v adj : list Z) : seq_end :=
  match sops with
  | [] => SeqDone v adj
  | sop :: sops =>
      let n := sem_num sop in
      let op := sem_op sop in
      if (op =? 0) && negb (val_at v n =? 0) then SeqBlock (sem_flg sop & IPC_NOWAIT) else
      let v' := <[Z.to_nat n := val_at v n + op]> v in
      let undo := adj_at adj n - op in
      if (sem_flg sop & SEM_UNDO) && ((undo <? -32768) || (undo >? 32767)) then SeqRange else
      if val_at v' n <? 0 then SeqBlock (sem_flg sop & IPC_NOWAIT) else
      if val_at v' n >? SEMVMX then SeqRange else
      seq_ops sops v' (if sem_flg sop & SEM_UNDO then <[Z.to_nat n := undo]> adj else adj)
  end.

(** The result code of an outcome. *)
Definition seq_code (e : seq_end) : Z :=
  match e with
  | SeqDone _ _ => 0
  | SeqRange => -ERANGE
  | SeqBlock nowait => if nowait then -EAGAIN else 1
  end.

Definition short_range (x : Z) : Prop := -32768 <= x <= 32767.
Definition val_range (x : Z) : Prop := 0 <= x <= SEMVMX.

Lemma s16_small z : short_range z → s16 z = z.
Proof.
  unfold short_range, s16. intros. change (2 ^ 15) with 32768. change (2 ^ 16) with 65536.
  rewrite Z.mod_small; lia.
Qed.

Lemma nth_vals l n : nth n (vals l) 0 = semval (nth n l (mk_sem 0 0)).
Proof. unfold vals. revert n. induction l as [|x l IH]; intros [|n]; simpl; auto. Qed.

Lemma val_sem_at l n : semval (sem_at l n) = val_at (vals l) n.
Proof. unfold sem_at, val_at. by rewrite nth_vals. Qed.

Lemma vals_upd n f g l :
  (∀ c, semval (f c) = g (semval c)) →
  vals (upd_sem n f l) = <[Z.to_nat n := g (val_at (vals l) n)]> (vals l).
Proof.
  intros Hf. unfold upd_sem, vals at 1. rewrite list_fmap_insert, Hf, val_sem_at. done.
Qed.

Lemma adj_range adj n : Forall short_range adj → short_range (adj_at adj n).
Proof.
  intros Ha. unfold adj_at. destruct (decide (Z.to_nat n < length adj)%nat) as [Hn|Hn].
  - rewrite List.Forall_forall in Ha. apply Ha, nth_In, Hn.
  - rewrite nth_overflow by lia. unfold short_range. lia.
Qed.

(** * Undoing *)

(** The undo loop on the values and on the adjustments. *)
Fixpoint undo_vals (done : list sembuf) (v : list Z) : list Z :=
  match done with
  | [] => v
  | sop :: done => undo_vals done (<[Z.to_nat (sem_num sop) := val_at v (sem_num sop) - sem_op sop]> v)
  end.

Fixpoint undo_adjs (done : list sembuf) (adj : list Z) : list Z :=
  match done with
  | [] => adj
  | sop :: done => undo_adjs done
      (if sem_flg sop & SEM_UNDO
       then <[Z.to_nat (sem_num sop) := s16 (adj_at adj (sem_num sop) + sem_op sop)]> adj else adj)
  end.

Lemma undo_loop_split done sems adj :
  vals (undo_loop done sems adj).1 = undo_vals done (vals sems) ∧
  (undo_loop done sems adj).2 = undo_adjs done adj.
Proof.
  revert sems adj. induction done as [|sop done IH]; intros sems adj; [done|]. simpl.
  destruct (IH (upd_sem (sem_num sop) (revert_op (sem_op sop)) sems)
    (if sem_flg sop & SEM_UNDO
     then <[Z.to_nat (sem_num sop) := s16 (adj_at adj (sem_num sop) + sem_op sop)]> adj else adj))
    as [-> ->].
  by rewrite (vals_upd _ _ (λ x, x - sem_op sop)) by done.
Qed.

(** Writing a value and writing the old one back. *)
Lemma insert_back n x v :
  <[Z.to_nat n := val_at (<[Z.to_nat n := val_at v n + x]> v) n - x]>
    (<[Z.to_nat n := val_at v n + x]> v) = v.
Proof.
  unfold val_at. destruct (decide (Z.to_nat n < length v)%nat) as [Hn|Hn].
  - rewrite list_insert_insert_eq, (nth_lookup (<[_ := _]> v)), list_lookup_insert_eq by done. simpl.
    apply list_insert_id. rewrite nth_lookup.
    destruct (lookup_lt_is_Some_2 v _ Hn) as [y Hy]. rewrite Hy. simpl. f_equal. lia.
  - by rewrite !list_insert_ge by (rewrite ?length_insert; lia).
Qed.

Lemma insert_back_adj n x adj :
  Forall short_range adj → short_range (adj_at adj n - x) →
  <[Z.to_nat n := s16 (adj_at (<[Z.to_nat n := s16 (adj_at adj n - x)]> adj) n + x)]>
    (<[Z.to_nat n := s16 (adj_at adj n - x)]> adj) = adj.
Proof.
  intros Ha Hx. rewrite (s16_small (adj_at adj n - x)) by done.
  pose proof (adj_range adj n Ha) as Hr. unfold adj_at in *.
  destruct (decide (Z.to_nat n < length adj)%nat) as [Hn|Hn].
  - rewrite list_insert_insert_eq, (nth_lookup (<[_ := _]> adj)), list_lookup_insert_eq by done. simpl.
    replace (nth (Z.to_nat n) adj 0 - x + x) with (nth (Z.to_nat n) adj 0) by lia.
    rewrite s16_small by done.
    apply list_insert_id. rewrite nth_lookup.
    destruct (lookup_lt_is_Some_2 adj _ Hn) as [y Hy]. by rewrite Hy.
  - by rewrite !list_insert_ge by (rewrite ?length_insert; lia).
Qed.

Lemma undo_range_test undo :
  true && ((undo <? - SEMAEM - 1) || (undo >? SEMAEM)) = false → short_range undo.
Proof.
  intros Ht. cbn [andb] in Ht. to_prop.
  unfold short_range, SEMAEM, SEMVMX in *. lia.
Qed.

Lemma adj_insert_range n x adj : short_range x → Forall short_range adj → Forall short_range (<[n := x]> adj).
Proof. intros. by apply Forall_insert. Qed.

Lemma undo_flag_cleared flg : ((flg &~ SEM_UNDO) & SEM_UNDO) = false.
Proof.
  unfold flag, clear_bits. rewrite <-Z.land_assoc, Z.land_comm.
  replace (Z.land (Z.lnot SEM_UNDO) SEM_UNDO) with 0 by done. done.
Qed.

(** Whatever way the forward loop ends, undoing from there gives the values and
    adjustments that undoing from its start would have given. *)
Lemma try_undo sops pid t :
  Forall short_range (t_adj t) →
  let '(_, t') := try_loop sops pid t in
  undo_vals (t_done t') (vals (t_sems t')) = undo_vals (t_done t) (vals (t_sems t)) ∧
  undo_adjs (t_done t') (t_adj t') = undo_adjs (t_done t) (t_adj t).
Proof.
  revert t. induction sops as [|sop sops IH]; intros t Ha; [done|]. cbn [try_loop]. cbv zeta.
  set (n := sem_num sop). set (op := sem_op sop).
  destruct ((op =? 0) && _) eqn:Hz.
  { apply andb_prop in Hz as [Hop _]. to_prop. simpl. fold n op. rewrite Hop, Z.sub_0_r, Z.add_0_r.
    split; f_equal.
    - apply list_insert_id'. intros Hn. unfold val_at. rewrite nth_lookup.
      by destruct (lookup_lt_is_Some_2 _ _ Hn) as [y ->].
    - destruct (sem_flg sop & SEM_UNDO); [|done]. rewrite s16_small by (by apply adj_range).
      apply list_insert_id'. intros Hn. unfold adj_at. rewrite nth_lookup.
      by destruct (lookup_lt_is_Some_2 _ _ Hn) as [y ->]. }
  assert (vals (upd_sem n (apply_op op pid) (t_sems t)) =
    <[Z.to_nat n := val_at (vals (t_sems t)) n + op]> (vals (t_sems t))) as Hv
    by (by apply (vals_upd _ _ (λ x, x + op))).
  destruct ((sem_flg sop & SEM_UNDO) && _) eqn:Hu.
  { simpl. fold n op. rewrite undo_flag_cleared, Hv, insert_back. done. }
  set (adj := if sem_flg sop & SEM_UNDO then _ else _).
  set (t1 := mk_try _ adj _).
  assert (undo_vals (t_done t1) (vals (t_sems t1)) = undo_vals (t_done t) (vals (t_sems t)) ∧
    undo_adjs (t_done t1) (t_adj t1) = undo_adjs (t_done t) (t_adj t)) as H1.
  { subst t1 adj. simpl. fold n op. rewrite Hv, insert_back. split; [done|]. f_equal.
    destruct (sem_flg sop & SEM_UNDO) eqn:Hf; [|done].
    apply insert_back_adj; [done|]. exact (undo_range_test _ Hu). }
  destruct (_ <? 0); [done|]. destruct (_ >? SEMVMX); [done|].
  specialize (IH t1). destruct (try_loop sops pid t1) as [e t']. rewrite <-(proj1 H1), <-(proj2 H1).
  apply IH. subst t1 adj. simpl. destruct (sem_flg sop & SEM_UNDO) eqn:Hf; [|done].
  pose proof (undo_range_test _ Hu) as Hr. rewrite s16_small by done. by apply adj_insert_range.
Qed.

(** * Refinement of the sequential semantics *)

Lemma try_loop_seq sops pid t :
  Forall short_range (t_adj t) →
  let '(e, t') := try_loop sops pid t in
  match seq_ops sops (vals (t_sems t)) (t_adj t) with
  | SeqDone v adj => e = TryDone ∧ vals (t_sems t') = v ∧ t_adj t' = adj
  | SeqRange => e = TryRange
  | SeqBlock nowait => e = TryBlock nowait
  end.
Proof.
  revert t. induction sops as [|sop sops IH]; intros t Ha; [done|]. cbn [try_loop seq_ops]. cbv zeta.
  set (n := sem_num sop). set (op := sem_op sop). rewrite val_sem_at.
  destruct ((op =? 0) && _); [done|].
  assert (vals (upd_sem n (apply_op op pid) (t_sems t)) =
    <[Z.to_nat n := val_at (vals (t_sems t)) n + op]> (vals (t_sems t))) as Hv
    by (by apply (vals_upd _ _ (λ x, x + op))).
  change (- SEMAEM - 1) with (-32768). change SEMAEM with 32767.
  destruct ((sem_flg sop & SEM_UNDO) && _) eqn:Hu; [done|].
  rewrite val_sem_at, Hv. destruct (_ <? 0); [done|]. destruct (_ >? SEMVMX); [done|].
  assert ((if sem_flg sop & SEM_UNDO then <[Z.to_nat n:=s16 (adj_at (t_adj t) n - op)]> (t_adj t) else t_adj t)
    = if sem_flg sop & SEM_UNDO then <[Z.to_nat n:=adj_at (t_adj t) n - op]> (t_adj t) else t_adj t) as ->.
  { destruct (sem_flg sop & SEM_UNDO); [|done]. by rewrite s16_small by (by apply undo_range_test). }
  set (t1 := mk_try _ _ _). specialize (IH t1).
  destruct (try_loop sops pid t1) as [e t']. rewrite <-Hv. apply IH.
  subst t1. simpl. destruct (sem_flg sop & SEM_UNDO); [|done].
  apply adj_insert_range; [by apply undo_range_test|done].
Qed.

(** The result code is that of the sequential semantics; a success that is kept
    leaves its values and adjustments, everything else leaves the old ones. *)
Lemma try_atomic_spec sems sops adj pid do_undo :
  Forall short_range adj →
  let '(r, sems', adj', _) := try_atomic_semop sems sops adj pid do_undo in
  let e := seq_ops sops (vals sems) adj in
  r = seq_code e ∧
  (vals sems', adj') = match e with
                       | SeqDone v a => if do_undo then (vals sems, adj) else (v, a)
                       | _ => (vals sems, adj)
                       end.
Proof.
  intros Ha. unfold try_atomic_semop.
  pose proof (try_undo sops pid (mk_try sems adj []) Ha) as Hu.
  pose proof (try_loop_seq sops pid (mk_try sems adj []) Ha) as Hs.
  destruct (try_loop sops pid (mk_try sems adj [])) as [e t]. simpl in Hu, Hs. destruct Hu as [Hu1 Hu2].
  destruct (undo_loop_split (t_done t) (t_sems t) (t_adj t)) as [Hl1 Hl2].
  destruct (undo_loop (t_done t) (t_sems t) (t_adj t)) as [sems' adj']. simpl in Hl1, Hl2.
  rewrite Hu1 in Hl1. rewrite Hu2 in Hl2.
  destruct (seq_ops sops (vals sems) adj) as [v a| |nw].
  - destruct Hs as (-> & Hv & Ha'). destruct do_undo; simpl; split; congruence.
  - subst e. simpl. split; congruence.
  - subst e. simpl. split; congruence.
Qed.

(** Kept values are within their bounds. *)
Lemma seq_ops_range sops v adj v' adj' :
  Forall val_range v → Forall short_range adj → seq_ops sops v adj = SeqDone v' adj' →
  Forall val_range v' ∧ Forall short_range adj' ∧ length v' = length v ∧ length adj' = length adj.
Proof.
  revert v adj. induction sops as [|sop sops IH]; intros v adj Hv Ha; cbn [seq_ops]; cbv zeta.
  { intros [= -> ->]. done. }
  destruct ((sem_op sop =? 0) && _); [done|]. destruct ((sem_flg sop & SEM_UNDO) && _) eqn:Hu; [done|].
  set (n := sem_num sop) in *. set (v1 := <[Z.to_nat n := val_at v n + sem_op sop]> v).
  destruct (val_at v1 n <? 0) eqn:H0; [done|]. destruct (val_at v1 n >? SEMVMX) eqn:H1; [done|].
  to_prop. intros Hseq.
  destruct (IH v1 (if sem_flg sop & SEM_UNDO
    then <[Z.to_nat n:=adj_at adj n - sem_op sop]> adj else adj)) as (A & B & C & D); [..|done|].
  - subst v1. destruct (decide (Z.to_nat n < length v)%nat) as [Hn|Hn].
    + apply Forall_insert; [done|]. unfold val_at in *.
      rewrite nth_lookup, list_lookup_insert_eq in H0, H1 by done. simpl in *. unfold val_range. lia.
    + by rewrite list_insert_ge by lia.
  - destruct (sem_flg sop & SEM_UNDO); [|done]. apply adj_insert_range; [by apply undo_range_test|done].
  - split_and!; [done|done|by rewrite C; subst v1; rewrite length_insert|].
    rewrite D. destruct (sem_flg sop & SEM_UNDO); by rewrite ?length_insert.
Qed.
