(* ===== verification/SemInv.v ===== *)
(** The invariant of the semaphore sets and its preservation by every section
    of semget, semop and semctl. *)
From S2P Require Import Prelude UidHash Cred CredProofs CredRun Ipc IpcProofs Sem SemProofs.
From stdpp Require Import list options.
#[local] Set Default Proof Using "Type*".
Open Scope cint_scope.
Open Scope Z_scope.

(** The semaphores of all sets. *)
Definition nsems_of (o : option sem_array) : Z := from_option sem_nsems 0 o.
Definition sem_total : list (option sem_array) → Z := zsum nsems_of.

Lemma sem_total_insert l i o o' :
  l !! i = Some o' → sem_total (<[i := o]> l) = sem_total l + nsems_of o - nsems_of o'.
Proof. apply zsum_insert. Qed.

(** Every value is between 0 and [SEMVMX], every adjustment is a [short], and
    [used_sems] counts the semaphores of all sets, within the limit. *)
Record sem_inv (s : sem_state) : Prop := {
  si_ids : ids_ok (sem_ids s);
  si_vals i a : holds (sem_ids s) i a → Forall val_range (vals (sem_base a));
  si_adj u x : undos s !! u = Some x → Forall short_range (semadj x);
  si_used : used_sems s = sem_total (entries (sem_ids s));
  si_max : used_sems s <= SEMMNS
}.

(** ** Steps *)

Lemma inv_same f :
  (∀ s, sem_ids (f s) = sem_ids s ∧ undos (f s) = undos s ∧ used_sems (f s) = used_sems s) →
  preserves sem_inv (modify f).
Proof.
  intros Hf s [H1 H2 H3 H4 H5]. destruct (Hf s) as (E1 & E2 & E3).
  split; simpl; rewrite ?E1, ?E2, ?E3; done.
Qed.

Lemma inv_undos f :
  (∀ s u x, (∀ u x, undos s !! u = Some x → Forall short_range (semadj x)) →
     f s !! u = Some x → Forall short_range (semadj x)) →
  preserves sem_inv (modify (λ s, set_undos (f s) s)).
Proof. intros Hf s [H1 H2 H3 H4 H5]. split; simpl; try done. intros u x. by apply Hf. Qed.

(** An update of the set behind an id that keeps its values in range. *)
Lemma inv_upd_sma_at semid f s :
  (∀ a, ipc_get (sem_ids s) semid = Some a →
    Forall val_range (vals (sem_base (f a))) ∧ length (sem_base (f a)) = length (sem_base a) ∧
    ip_seq (sem_perm (f a)) = ip_seq (sem_perm a)) →
  sem_inv s → sem_inv (upd_sma semid f s).2.
Proof.
  intros Hf [H1 H2 H3 H4 H5]. unfold upd_sma. simpl.
  destruct (ipc_get (sem_ids s) semid) as [a|] eqn:Hg; [|done].
  destruct (Hf a eq_refl) as (Hv & Hl & Hs). apply get_slot in Hg as Ha.
  destruct (store_spec semid (f a) a (sem_ids s) H1 Ha Hs) as [Hok Hh].
  split; simpl; [done| |done| |done].
  - intros i r Hr%Hh. destruct (decide (i = slot semid)) as [->|]; [by subst|eauto].
  - pose proof (proj2 Ha) as He. unfold slot in He. rewrite Nat2Z.id in He.
    rewrite H4, (sem_total_insert _ _ _ _ He). simpl. unfold sem_nsems. rewrite Hl. lia.
Qed.

Lemma inv_upd_sma semid f :
  (∀ a, Forall val_range (vals (sem_base a)) →
    Forall val_range (vals (sem_base (f a))) ∧ length (sem_base (f a)) = length (sem_base a) ∧
    ip_seq (sem_perm (f a)) = ip_seq (sem_perm a)) → preserves sem_inv (upd_sma semid f).
Proof.
  intros Hf s Hs. apply inv_upd_sma_at; [|done]. intros a Ha. apply Hf.
  by eapply (si_vals _ Hs), get_slot.
Qed.

Lemma inv_lift {A} (m : K A) : preserves sem_inv (lift m).
Proof. intros s []. unfold lift. destruct (m (ks s)). by split. Qed.

Lemma undo_adj_range s un : sem_inv s → Forall short_range (undo_adj s un).
Proof.
  intros Hs. destruct un as [u|]; [|constructor]. simpl.
  destruct (undos s !! u) as [x|] eqn:Hx; [|constructor]. simpl. by eapply si_adj.
Qed.

Lemma inv_set_undo_adj un adj :
  Forall short_range adj → preserves sem_inv (set_undo_adj un adj).
Proof.
  intros Ha. destruct un as [u|]; [|by intros s]. apply inv_undos. intros s v x Hx.
  rewrite lookup_alter_Some. intros [(-> & y & Hy & ->)|[_ Hy]]; [done|]. eauto.
Qed.

Lemma length_vals l : length (vals l) = length l.
Proof. apply length_fmap. Qed.

(** One attempt of an operation list keeps the invariant. *)
Lemma inv_try_semop semid sops un pid d : preserves sem_inv (try_semop semid sops un pid d).
Proof.
  intros s Hs. unfold try_semop.
  destruct (ipc_get (sem_ids s) semid) as [a|] eqn:Hg; [|done].
  pose proof (undo_adj_range s un Hs) as Hadj.
  assert (Forall val_range (vals (sem_base a))) as Hv by (by eapply (si_vals _ Hs), get_slot).
  pose proof (try_atomic_spec (sem_base a) sops (undo_adj s un) pid d Hadj) as Ht.
  destruct (try_atomic_semop (sem_base a) sops (undo_adj s un) pid d) as [[[r sems] adj] sops'].
  destruct Ht as [_ Ht].
  assert (Forall val_range (vals sems) ∧ Forall short_range adj ∧ length sems = length (sem_base a))
    as (Hv' & Ha' & Hl).
  { rewrite <-(length_vals sems), <-(length_vals (sem_base a)).
    destruct (seq_ops sops (vals (sem_base a)) (undo_adj s un)) as [v adj0| |] eqn:Hq;
      [destruct (seq_ops_range _ _ _ _ _ Hv Hadj Hq) as (? & ? & ? & _); destruct d|..];
      injection Ht as -> ->; done. }
  assert (sem_inv (upd_sma semid (set_sem_base sems) s).2) as H1.
  { apply inv_upd_sma_at; [|done]. intros a' Ha2. rewrite Hg in Ha2. simplify_eq. by split_and!. }
  match goal with |- sem_inv (?m s).2 => change (sem_inv ((set_undo_adj un adj;;
    when ((r =? 0) && negb d) (upd_sma semid (set_sem_otime (now s)));; mret (r, sops'))
    (upd_sma semid (set_sem_base sems) s).2).2) end.
  apply preserves_bind; [by apply inv_set_undo_adj| |done]. intros _.
  apply preserves_bind; [|intros _; apply preserves_ret].
  apply preserves_when, inv_upd_sma. by intros a'.
Qed.

(** Step through a section; [leaf] closes the calls of other sections. *)
Ltac sem_walk leaf :=
  repeat match goal with
  | |- preserves _ (mbind _ _) => apply preserves_bind; [|intros ?]
  | |- preserves _ (mret _) => apply preserves_ret
  | |- preserves _ (gets _) => apply preserves_gets
  | |- preserves _ skip => apply preserves_skip
  | |- preserves _ (when _ _) => apply preserves_when
  | |- preserves _ (lift _) => apply inv_lift
  | |- preserves _ current_task => apply preserves_gets
  | |- preserves _ (sem_lock _) => apply preserves_gets
  | |- preserves _ (upd_queue _ _) => by apply inv_same
  | |- preserves _ (wake_up_process _) => by apply inv_same
  | |- preserves _ (try_semop _ _ _ _ _) => apply inv_try_semop
  | |- preserves _ (append_to_queue _ _) => unfold append_to_queue
  | |- preserves _ (prepend_to_queue _ _) => unfold prepend_to_queue
  | |- preserves _ (remove_from_queue _ _) => unfold remove_from_queue
  | |- preserves _ (modify _) => by apply inv_same
  | |- preserves _ (upd_sma _ _) => by apply inv_upd_sma
  | |- preserves _ (match ?x with _ => _ end) => destruct x
  | |- preserves _ (let _ := _ in _) => cbv zeta
  | |- _ => leaf
  end.

Lemma inv_update_queue semid : preserves sem_inv (update_queue semid).
Proof.
  unfold update_queue. apply preserves_bind; [apply preserves_gets|]. intros l.
  induction l as [|i l IH]; cbn [update_queue_loop]; sem_walk ltac:(assumption).
Qed.

Lemma inv_revalidate semid sma n flg : preserves sem_inv (sem_revalidate semid sma n flg).
Proof. unfold sem_revalidate. sem_walk ltac:(fail). Qed.

Lemma inv_check semid sops : preserves sem_inv (semop_check semid sops).
Proof. unfold semop_check. sem_walk ltac:(fail). Qed.

Lemma find_undo_sub l semid us u x :
  (find_undo_loop l semid us).2 !! u = Some x → us !! u = Some x.
Proof.
  revert us. induction l as [|v l IH]; intros us; simpl; [done|].
  destruct (_ =? semid); [done|]. destruct (_ =? -1).
  - intros Hx%IH. by apply lookup_delete_Some in Hx as [_ ?].
  - specialize (IH us). by destruct (find_undo_loop l semid us) as [[r l'] us'].
Qed.

Lemma inv_find_undo semid : preserves sem_inv (find_undo semid).
Proof.
  unfold find_undo. apply preserves_bind; [apply preserves_gets|]. intros me s Hs.
  unfold mbind, ST_bind. cbn [gets fst snd id].
  pose proof (find_undo_sub (semundo s me) semid (undos s)) as Hsub.
  destruct (find_undo_loop (semundo s me) semid (undos s)) as [[r l] us].
  destruct Hs as [H1 H2 H3 H4 H5]. split; simpl; try done. intros u x Hx%Hsub. eauto.
Qed.

Lemma inv_alloc_undo sma semid alt mem : preserves sem_inv (alloc_undo sma semid alt mem).
Proof.
  unfold alloc_undo. sem_walk ltac:(apply inv_revalidate).
  apply (inv_undos (λ s, <[_ := _]> (undos s))). intros s u x Hs.
  intros [[_ <-]|[_ Hx]]%lookup_insert_Some; [|eauto]. apply Forall_replicate. unfold short_range. lia.
Qed.

Lemma inv_semop_try semid sops un d a : preserves sem_inv (semop_try semid sops un d a).
Proof. unfold semop_try, semop_sleep. sem_walk ltac:(apply inv_update_queue). Qed.

Lemma inv_semop semid n copied mem memu : preserves sem_inv (sys_semop semid n copied mem memu).
Proof.
  unfold sys_semop.
  sem_walk ltac:(first [apply inv_check | apply inv_find_undo | apply inv_alloc_undo | apply inv_semop_try]).
Qed.

Lemma inv_wakeup : preserves sem_inv semop_wakeup.
Proof. unfold semop_wakeup, semop_sleep. sem_walk ltac:(apply inv_update_queue). Qed.

(** ** Creation and removal of sets *)

Lemma addid_total cred new size ok ids :
  ids_ok ids → 0 <= size → sem_nsems new = 0 →
  sem_total (entries (ipc_addid cred new size ok ids).2) = sem_total (entries ids).
Proof.
  intros Hok Hsz Hn. by apply addid_sum.
Qed.

Lemma zero_vals n : Forall val_range (vals (replicate n (mk_sem 0 0))).
Proof. unfold vals. rewrite fmap_replicate. apply Forall_replicate. unfold val_range, SEMVMX. simpl. lia. Qed.

(** An update of a set in use, named by its index. *)
Lemma upd_sma_lid id f a s :
  ids_ok (sem_ids s) → 0 <= id < IPCMNI → holds (sem_ids s) id a →
  ip_seq (sem_perm (f a)) = ip_seq (sem_perm a) →
  ∃ t, (upd_sma id f s).2 = set_sem_ids t s ∧ ids_ok t ∧
    (∀ i q, holds t i q ↔ if decide (i = id) then q = f a else holds (sem_ids s) i q) ∧
    sem_total (entries t) = sem_total (entries (sem_ids s)) + sem_nsems (f a) - sem_nsems a.
Proof.
  intros Hok Hid Ha Hseq.
  assert (lid_of id = id) as Hlid by by apply lid_of_small.
  assert (slot id = id) as Hslot by (rewrite slot_lid; lia).
  unfold upd_sma. cbn [modify snd]. rewrite (proj2 (get_holds _ id a ltac:(lia))) by by rewrite Hlid.
  destruct (store_spec id (f a) a (sem_ids s) Hok) as [Hok' Hh]; [by rewrite Hslot|done|].
  rewrite Hslot in Hh. eexists. split_and!; [reflexivity|done|done|].
  cbn [ipc_store entries]. rewrite Hlid, (sem_total_insert _ _ _ _ (proj2 Ha)). done.
Qed.

(** [newary] fails and changes nothing but the room in the table, or adds one
    set of zeroed semaphores, owned by the caller. *)
Lemma newary_spec key nsems semflg mem s :
  sem_inv s → 0 <= nsems →
  let '(r, s') := newary key nsems semflg mem s in
  sem_inv s' ∧ ks s' = ks s ∧
  ((r < 0 ∧ ∀ i a, holds (sem_ids s') i a ↔ holds (sem_ids s) i a) ∨
   ∃ id a, r = ipc_buildid id (ip_seq (sem_perm a)) ∧
     (let c := cur (ks s) in
      sem_perm a = mk_perm key (euid c) (egid c) (euid c) (egid c) (Z.land semflg S_IRWXUGO)
                     (ids_seq (sem_ids s))) ∧
     sem_base a = replicate (Z.to_nat nsems) (mk_sem 0 0) ∧ sem_pending a = [] ∧ sem_undos a = [] ∧
     0 <= id < IPCMNI ∧ (∀ q, ¬ holds (sem_ids s) id q) ∧
     ∀ i q, holds (sem_ids s') i q ↔ if decide (i = id) then q = a else holds (sem_ids s) i q).
Proof.
  intros Hs Hn. unfold newary, mbind, ST_bind. cbn [gets fst snd id].
  destruct (nsems =? 0); [by split_and!; [| |left]|].
  destruct (used_sems s + nsems >? SEMMNS) eqn:Hmax; [by split_and!; [| |left]|].
  destruct mem as [addr|]; [|by split_and!; [| |left]]. set (na := mk_sma _ _ _ _ _ _ _).
  pose proof (addid_spec (cur (ks s)) na SEMMNI true (sem_ids s) (si_ids _ Hs) ltac:(unfold SEMMNI; lia)) as Ha.
  pose proof (addid_total (cur (ks s)) na SEMMNI true (sem_ids s) (si_ids _ Hs) ltac:(unfold SEMMNI; lia) eq_refl) as Ht.
  destruct (ipc_addid _ na _ _ _) as [[[id p]|] ids]; cbn [snd] in Ht.
  2:{ destruct Ha as (Hok & Hh & _), Hs as [H1 H2 H3 H4 H5]. simpl.
      split; [|split; [done|by left]]. split; simpl; try done; [|congruence]. intros i a Hi%Hh. eauto. }
  destruct Ha as (Hok & Hfill & Hid & Hfree & Hh & _). to_prop. unfold filled in Hfill. simpl in Hfill.
  cbn [modify mret ST_ret fst snd]. set (s1 := set_used_sems _ _).
  match goal with |- context [upd_sma id ?f s1] => set (f1 := f) end.
  destruct (upd_sma_lid id f1 p s1 Hok Hid) as (t1 & -> & Hok1 & Hh1 & Ht1);
    [apply Hh; by rewrite decide_True|done|]. change (sem_ids s1) with ids in Hh1, Ht1.
  match goal with |- context [upd_sma id ?f (set_sem_ids t1 s1)] => set (f2 := f) end.
  destruct (upd_sma_lid id f2 (f1 p) (set_sem_ids t1 s1) Hok1 Hid) as (t2 & -> & Hok2 & Hh2 & Ht2);
    [apply Hh1; by rewrite decide_True|done|].
  assert (∀ i q, holds t2 i q ↔ if decide (i = id) then q = f2 (f1 p) else holds (sem_ids s) i q) as Hall.
  { intros i q. rewrite Hh2. cbn [sem_ids set_sem_ids]. destruct (decide (i = id)) as [->|Hne]; [done|].
    by rewrite Hh1, decide_False, Hh, decide_False. }
  destruct Hs as [H1 H2 H3 H4 H5]. split_and!; [split|done|right].
  - done.
  - intros i a Hi%Hall. destruct (decide (i = id)) as [->|]; [|eauto].
    subst a. unfold f2. simpl. apply zero_vals.
  - done.
  - cbn [used_sems set_sem_ids sem_ids entries]. rewrite Ht2. cbn [sem_ids set_sem_ids]. rewrite Ht1, Ht.
    unfold s1, f2, f1, sem_nsems. rewrite Hfill. simpl. rewrite length_replicate. lia.
  - simpl. lia.
  - exists id, (f2 (f1 p)). split; [done|]. split; [unfold f2, f1; simpl; by rewrite Hfill|].
    split_and!; [done|by rewrite Hfill|by rewrite Hfill|lia|lia|done|done].
Qed.

Lemma inv_newary key nsems semflg mem s :
  sem_inv s → 0 <= nsems → sem_inv (newary key nsems semflg mem s).2.
Proof.
  intros Hs Hn. pose proof (newary_spec key nsems semflg mem s Hs Hn) as H.
  destruct (newary key nsems semflg mem s). by destruct H.
Qed.

Lemma inv_semget key nsems semflg mem : preserves sem_inv (sys_semget key nsems semflg mem).
Proof.
  intros s Hs. unfold sys_semget. destruct ((nsems <? 0) || (nsems >? SEMMSL)) eqn:Hn; [done|].
  to_prop. destruct (key =? IPC_PRIVATE); [by apply inv_newary|].
  unfold mbind at 1, ST_bind at 1. cbn [gets fst snd].
  destruct (_ =? -1); [destruct (negb _); [done|by apply inv_newary]|].
  destruct (_ && _); [done|].
  match goal with |- sem_inv (?m s).2 => assert (preserves sem_inv m) as Hm by sem_walk ltac:(fail) end.
  by apply Hm.
Qed.

(** Updates of the adjustments of a list of undo structures. *)
Lemma foldr_alter_Some (f : sem_undo → sem_undo) l (m : gmap Z sem_undo) u x :
  foldr (λ v, alter f v) m l !! u = Some x → ∃ n y, m !! u = Some y ∧ x = Nat.iter n f y.
Proof.
  revert x. induction l as [|v l IH]; intros x; simpl; [by exists 0%nat, x|].
  rewrite lookup_alter_Some. intros [(-> & y & Hy & ->)|[_ Hx]]; [|by apply IH].
  destruct (IH _ Hy) as (n & z & Hz & ->). by exists (Datatypes.S n), z.
Qed.

Lemma foldr_alter_range (f : sem_undo → sem_undo) l (m : gmap Z sem_undo) u x :
  (∀ y, Forall short_range (semadj y) → Forall short_range (semadj (f y))) →
  (∀ u x, m !! u = Some x → Forall short_range (semadj x)) →
  foldr (λ v, alter f v) m l !! u = Some x → Forall short_range (semadj x).
Proof.
  intros Hf Hm (n & y & Hy & ->)%foldr_alter_Some. apply Hm in Hy. induction n; simpl; auto.
Qed.

Lemma short_0 : short_range 0.
Proof. unfold short_range. lia. Qed.

Lemma inv_clear_adj l n : preserves sem_inv (modify (clear_adj l n)).
Proof.
  apply (inv_undos (λ s, foldr _ _ _)). intros s u x Hs. apply foldr_alter_range; [|done].
  intros y Hy. simpl. apply Forall_insert; [done|apply short_0].
Qed.

Lemma inv_clear_all l n : preserves sem_inv (modify (clear_all_adj l n)).
Proof.
  apply (inv_undos (λ s, foldr _ _ _)). intros s u x Hs. apply foldr_alter_range; [|done].
  intros y Hy. simpl. apply Forall_app. split; [apply Forall_replicate, short_0|by apply Forall_drop].
Qed.

Lemma length_imap' {A B} (f : nat → A → B) l : length (imap f l) = length l.
Proof. apply length_imap. Qed.

Lemma vals_imap (f : nat → sem → sem) l :
  vals (imap f l) = imap (λ i c, semval (f i c)) l.
Proof. unfold vals. by rewrite fmap_imap. Qed.

Lemma Forall_imap {A B} (P : B → Prop) (f : nat → A → B) l :
  (∀ i x, l !! i = Some x → P (f i x)) → Forall P (imap f l).
Proof.
  intros Hf. apply list.Forall_lookup_2. intros i y. rewrite list_lookup_imap, fmap_Some.
  intros (x & Hx & ->). auto.
Qed.

Lemma inv_setall semid sma arr : preserves sem_inv (setall semid sma arr).
Proof.
  unfold setall. cbv zeta. destruct (existsb _ _) eqn:He; [apply preserves_ret|].
  assert (∀ i, val_range (nth i (u16 <$> take (Z.to_nat (sem_nsems sma)) arr) 0)) as Hr.
  { intros i. set (l := u16 <$> _) in *. destruct (decide (i < length l)%nat) as [Hi|Hi].
    - apply nth_In with (d := 0) in Hi. set (x := nth i l 0) in *.
      assert (x <= SEMVMX) as Hx.
      { destruct (Z.leb_spec x SEMVMX); [done|]. apply not_true_iff_false in He. destruct He.
        apply existsb_exists. exists x. split; [done|]. rewrite Z.gtb_ltb. by apply Z.ltb_lt. }
      apply list_elem_of_In in Hi. apply list_elem_of_fmap in Hi as (y & Hy & _).
      pose proof (u16_bound y). unfold val_range. lia.
    - rewrite nth_overflow by lia. unfold val_range, SEMVMX. lia. }
  apply preserves_bind; [apply inv_revalidate|]. intros e. destruct (negb _); [apply preserves_ret|].
  apply preserves_bind; [apply preserves_gets|]. intros s0.
  apply preserves_bind.
  { apply inv_upd_sma. intros a _. simpl. rewrite vals_imap, length_imap. split_and!; [|done|done].
    apply Forall_imap. intros i x _. simpl. apply Hr. }
  intros _. sem_walk ltac:(first [apply inv_clear_all | apply inv_update_queue]).
Qed.

Lemma inv_ctl_one semid semnum cmd val sma : preserves sem_inv (semctl_one semid semnum cmd val sma).
Proof.
  unfold semctl_one. destruct (_ || _); [apply preserves_ret|]. cbv zeta.
  apply preserves_bind; [apply preserves_gets|]. intros s0.
  do 4 (destruct (_ =? _); [apply preserves_ret|]).
  destruct (cmd =? SETVAL); [|apply preserves_ret].
  destruct ((val >? SEMVMX) || (val <? 0)) eqn:Hv; [apply preserves_ret|]. to_prop.
  apply preserves_bind; [apply inv_clear_adj|]. intros _.
  apply preserves_bind.
  { apply inv_upd_sma. intros a Ha. cbn [sem_base sem_perm set_sem_base].
    rewrite (vals_upd _ _ (λ _, val)) by done. split_and!; [|apply length_insert|done].
    apply Forall_insert; [done|]. unfold val_range. lia. }
  intros _. sem_walk ltac:(apply inv_update_queue).
Qed.

Lemma freeary_run semid s a ids :
  ipc_rmid semid (sem_ids s) = Some (a, ids) →
  (freeary semid s).2 =
    mk_sem_state (ks s) ids (used_sems s - sem_nsems a)
      (foldr (λ u, alter (λ x, mk_undo (-1) (semadj x)) u) (undos s) (sem_undos a)) (semundo s)
      (foldr (λ i f, <[i := set_q_linked false (set_q_status (-EIDRM) (f i))]> f) (queues s) (sem_pending a))
      (semsleeping s) (woken s ++ sem_pending a) (now s).
Proof.
  intros Hrm. unfold freeary, mbind, ST_bind. unfold gets, id_sem. cbn [fst snd].
  by rewrite Hrm.
Qed.

Lemma freeary_fail semid s : ipc_rmid semid (sem_ids s) = None → freeary semid s = (tt, s).
Proof. intros Hrm. unfold freeary, mbind, ST_bind. unfold gets, id_sem. cbn [fst snd]. by rewrite Hrm. Qed.

Lemma inv_freeary semid : 0 <= semid → preserves sem_inv (freeary semid).
Proof.
  intros Hid s Hs. destruct (ipc_rmid semid (sem_ids s)) as [[a ids]|] eqn:Hrm;
    [|by rewrite freeary_fail]. rewrite (freeary_run _ _ _ _ Hrm).
  apply rmid_get in Hrm as Ha. apply get_holds in Ha; [|done].
  destruct (rmid_spec _ _ _ (si_ids _ Hs) Hid Ha) as (ids2 & Hrm2 & Hok & _ & Hh).
  rewrite Hrm in Hrm2. injection Hrm2 as <-.
  assert (sem_total (entries ids) = sem_total (entries (sem_ids s)) - sem_nsems a) as Ht.
  { unfold sem_total. rewrite (rmid_sum nsems_of _ _ _ _ Hrm). simpl. lia. }
  destruct Hs as [H1 H2 H3 H4 H5]. split; simpl.
  - done.
  - intros i b [_ Hb]%Hh. eauto.
  - intros u x. apply foldr_alter_range; [done|]. done.
  - lia.
  - unfold sem_nsems. lia.
Qed.

Lemma inv_ctl_down semid cmd buf : 0 <= semid → preserves sem_inv (semctl_down semid cmd buf).
Proof. intros Hid. unfold semctl_down. sem_walk ltac:(by apply inv_freeary). Qed.

Lemma inv_semctl semid semnum cmd val arr buf c m :
  preserves sem_inv (sys_semctl semid semnum cmd val arr buf c m).
Proof.
  intros s Hs. unfold sys_semctl. destruct (semid <? 0) eqn:Hid; [done|]. to_prop. cbv zeta.
  set (cmd' := cmd &~ 0x100). destruct (_ || _).
  { match goal with |- sem_inv (?m s).2 => assert (preserves sem_inv m) as Hm end; [|by apply Hm].
    unfold semctl_nolock. sem_walk ltac:(fail). }
  destruct (_ || _).
  { match goal with |- sem_inv (?m s).2 => assert (preserves sem_inv m) as Hm end; [|by apply Hm].
    unfold semctl_main. sem_walk ltac:(first [apply inv_revalidate | apply inv_setall | apply inv_ctl_one]). }
  destruct (_ || _); [|done]. unfold mbind, ST_bind. cbn [snd mret ST_ret]. by apply inv_ctl_down.
Qed.

(** * Sequences of calls *)

Inductive sem_call :=
  | CGet (key nsems semflg : Z) (mem : option Z)
  | COp (semid nsops : Z) (copied : option (list sembuf)) (mem : bool) (mem_undo : option Z)
  | CWake
  | CCtl (semid semnum cmd val : Z) (arr : option (list Z)) (buf : option sem_setbuf) (copy_ok mem : bool)
  | CExit.

Definition exec_sem (c : sem_call) : S unit :=
  match c with
  | CGet k n f m => sys_semget k n f m;; mret tt
  | COp id n l m u => sys_semop id n l m u;; mret tt
  | CWake => semop_wakeup;; mret tt
  | CCtl id n cmd v a b c m => sys_semctl id n cmd v a b c m;; mret tt
  | CExit => sem_exit
  end.

(** A schedule of sections, each run by the given task. *)
Fixpoint run_sem (l : list (nat * sem_call)) (s : sem_state) : sem_state :=
  match l with
  | [] => s
  | (p, c) :: l => run_sem l (exec_sem c (set_ks (set_current p (ks s)) s)).2
  end.

Definition no_exit (c : sem_call) : bool := match c with CExit => false | _ => true end.

Lemma inv_exec c : no_exit c = true → preserves sem_inv (exec_sem c).
Proof.
  destruct c; simpl; intros Hc; [..|done]; (apply preserves_bind; [|intros ?; apply preserves_ret]);
    [apply inv_semget|apply inv_semop|apply inv_wakeup|apply inv_semctl].
Qed.

Lemma inv_run l s :
  Forall (λ pc, no_exit pc.2 = true) l → sem_inv s → sem_inv (run_sem l s).
Proof.
  revert s. induction l as [|[p c] l IH]; intros s Hl Hs; [done|]. apply Forall_cons in Hl as [Hc Hl].
  simpl. apply IH; [done|]. apply inv_exec; [done|]. by destruct Hs; split.
Qed.

Lemma inv_init k t : sem_inv (sem_init k t).
Proof.
  split.
  - by apply init_ok.
  - intros i a [_ Hp]. unfold sem_init, ipc_init_ids in Hp. cbn [sem_ids entries] in Hp.
    by apply lookup_replicate in Hp as [? _].
  - intros u x Hx. cbn [sem_init undos] in Hx. by rewrite lookup_empty in Hx.
  - done.
  - done.
Qed.
