(* ===== verification/SemQueue.v ===== *)
(** The queue of a semaphore set: what an attempt does to the set, and the walk
    of [update_queue]. *)
From S2P Require Import Prelude UidHash Cred CredProofs CredRun Ipc IpcProofs Sem SemProofs SemInv.
From stdpp Require Import list options.
#[local] Set Default Proof Using "Type*".
Open Scope cint_scope.
Open Scope Z_scope.

(** The values and the sleepers of the set behind an id, and the outcome of the
    operations of sleeper [i]. *)
Definition sma_vals (s : sem_state) (semid : Z) : list Z :=
  from_option (vals ∘ sem_base) [] (ipc_get (sem_ids s) semid).
Definition pending_of (s : sem_state) (semid : Z) : list nat :=
  from_option sem_pending [] (ipc_get (sem_ids s) semid).
Definition outcome (s : sem_state) (semid : Z) (i : nat) : seq_end :=
  seq_ops (q_sops (queues s i)) (sma_vals s semid) (undo_adj s (q_undo (queues s i))).

(** Sleeper [i] has been told to try its operations itself. *)
Definition told (s : sem_state) (i : nat) : Prop := q_status (queues s i) = 1.

(** * Attempts *)

(** An attempt that does not end out of range leaves the operations alone. *)
Lemma try_loop_done sops pid t :
  let '(e, t') := try_loop sops pid t in
  e ≠ TryRange → ∃ k, t_done t' = rev (take k sops) ++ t_done t ∧ (k <= length sops)%nat.
Proof.
  revert t. induction sops as [|sop sops IH]; intros t; cbn [try_loop]; cbv zeta.
  { intros _. by exists 0%nat. }
  assert (∀ e s a, e ≠ TryRange → ∃ k, t_done (mk_try s a (sop :: t_done t)) =
    rev (take k (sop :: sops)) ++ t_done t ∧ (k <= length (sop :: sops))%nat) as H1.
  { intros e s a _. exists 1%nat. simpl. split; [by destruct sops|lia]. }
  destruct (_ && _); [by apply (H1 (TryBlock (sem_flg sop & IPC_NOWAIT)))|].
  destruct (_ && _); [done|].
  destruct (_ <? 0); [by apply (H1 (TryBlock (sem_flg sop & IPC_NOWAIT)))|]. destruct (_ >? SEMVMX); [done|].
  set (t1 := mk_try _ _ _). specialize (IH t1). destruct (try_loop sops pid t1) as [e t'].
  intros (k & -> & Hk)%IH. exists (Datatypes.S k). simpl. rewrite <-app_assoc. split; [done|lia].
Qed.

Lemma try_atomic_sops sems sops adj pid d :
  Forall short_range adj →
  let '(r, _, _, sops') := try_atomic_semop sems sops adj pid d in r = 1 → sops' = sops.
Proof.
  intros Ha. unfold try_atomic_semop. pose proof (try_loop_done sops pid (mk_try sems adj [])) as Hd.
  destruct (try_loop sops pid (mk_try sems adj [])) as [e t]. simpl in Hd.
  destruct (undo_loop (t_done t) (t_sems t) (t_adj t)) as [sems' adj'].
  destruct e; [by destruct d| by destruct (Z.eq_dec 0 1)|].
  intros _. destruct Hd as (k & -> & Hk); [done|].
  rewrite app_nil_r, rev_involutive, length_rev, length_take, Nat.min_l by done. apply take_drop.
Qed.

Lemma seq_noalter sops v adj v' adj' :
  sops_alter sops = false → seq_ops sops v adj = SeqDone v' adj' → v' = v ∧ adj' = adj.
Proof.
  unfold sops_alter, sops_decrease. intros [H1 H2]%orb_false_elim.
  revert v adj H1 H2. induction sops as [|sop sops IH]; intros v adj; [by intros _ _ [= -> ->]|].
  cbn [existsb seq_ops]. cbv zeta. intros [Hp H1]%orb_false_elim [Hn H2]%orb_false_elim. to_prop.
  assert (sem_op sop = 0) as -> by lia. rewrite Z.add_0_r, Z.sub_0_r.
  assert (∀ (l : list Z) n, <[Z.to_nat n := nth (Z.to_nat n) l 0]> l = l) as Hid.
  { intros l n. apply list_insert_id'. intros Hl. rewrite nth_lookup.
    by destruct (lookup_lt_is_Some_2 _ _ Hl) as [y ->]. }
  unfold val_at, adj_at. rewrite !Hid.
  destruct (_ && _); [done|]. destruct (_ && _); [done|]. destruct (_ <? 0); [done|].
  destruct (_ >? SEMVMX); [done|]. destruct (sem_flg sop & SEM_UNDO); by apply IH.
Qed.

(** * Projections of updates *)

Lemma get_upd_sma semid f s :
  ipc_get (sem_ids (upd_sma semid f s).2) semid = f <$> ipc_get (sem_ids s) semid.
Proof.
  unfold upd_sma. simpl. destruct (ipc_get (sem_ids s) semid) as [a|] eqn:Hg; [|by rewrite Hg].
  unfold ipc_get in *. cbn [set_sem_ids sem_ids ipc_store]. unfold ids_size in *.
  cbn [entries ipc_store]. rewrite length_insert. destruct (_ >=? _); [done|].
  rewrite list_lookup_insert_eq; [done|].
  destruct (entries (sem_ids s) !! Z.to_nat (lid_of semid)) eqn:He; [|done]. by eapply lookup_lt_Some.
Qed.

Lemma upd_sma_rest semid f s :
  let s' := (upd_sma semid f s).2 in
  undos s' = undos s ∧ queues s' = queues s ∧ woken s' = woken s ∧ ks s' = ks s.
Proof. unfold upd_sma. simpl. by destruct (ipc_get _ _). Qed.

Lemma set_undo_adj_rest un adj s :
  let s' := (set_undo_adj un adj s).2 in
  sem_ids s' = sem_ids s ∧ queues s' = queues s ∧
  (adj = undo_adj s un → ∀ u, undo_adj s' u = undo_adj s u).
Proof.
  destruct un as [u|]; [|done]. simpl. split_and!; [done..|]. intros -> v.
  destruct v as [v|]; [|done]. simpl. destruct (decide (u = v)) as [->|Hne].
  - rewrite lookup_alter_eq. by destruct (undos s !! v) as [[]|].
  - by rewrite lookup_alter_ne.
Qed.

Lemma upd_queue_ne i j f s : j ≠ i → queues (upd_queue i f s).2 j = queues s j.
Proof. intros. unfold upd_queue. cbn [modify snd queues set_queues]. by rewrite fn_lookup_insert_ne. Qed.

Lemma upd_queue_eq i f s : queues (upd_queue i f s).2 i = f (queues s i).
Proof. unfold upd_queue. cbn [modify snd queues set_queues]. by rewrite fn_lookup_insert. Qed.

(** ** The effect of an attempt *)
Lemma try_semop_spec semid sops un pid d s a :
  ipc_get (sem_ids s) semid = Some a → Forall short_range (undo_adj s un) →
  let '((r, sops'), s') := try_semop semid sops un pid d s in
  r = seq_code (seq_ops sops (sma_vals s semid) (undo_adj s un)) ∧
  queues s' = queues s ∧ (∃ a', ipc_get (sem_ids s') semid = Some a') ∧
  pending_of s' semid = pending_of s semid ∧ (r = 1 → sops' = sops) ∧
  (d = true ∨ r ≠ 0 ∨ sops_alter sops = false →
   sma_vals s' semid = sma_vals s semid ∧ ∀ u, undo_adj s' u = undo_adj s u).
Proof.
  intros Hg Ha. unfold try_semop. rewrite Hg.
  pose proof (try_atomic_spec (sem_base a) sops (undo_adj s un) pid d Ha) as Ht.
  pose proof (try_atomic_sops (sem_base a) sops (undo_adj s un) pid d Ha) as Hs.
  destruct (try_atomic_semop (sem_base a) sops (undo_adj s un) pid d) as [[[r sems] adj] sops'].
  destruct Ht as [Hr Ht].
  assert (sma_vals s semid = vals (sem_base a)) as Hv by (unfold sma_vals; by rewrite Hg).
  unfold mbind, ST_bind.
  set (s1 := (upd_sma semid (set_sem_base sems) s).2).
  assert (ipc_get (sem_ids s1) semid = Some (set_sem_base sems a)) as Hg1
    by (subst s1; by rewrite get_upd_sma, Hg).
  destruct (upd_sma_rest semid (set_sem_base sems) s) as (Hu1 & Hq1 & _ & _). fold s1 in Hu1, Hq1.
  set (s2 := (set_undo_adj un adj s1).2).
  destruct (set_undo_adj_rest un adj s1) as (Hi2 & Hq2 & Ha2). fold s2 in Hi2, Hq2, Ha2.
  set (s3 := (when ((r =? 0) && negb d) (upd_sma semid (set_sem_otime (now s))) s2).2).
  cbn [fst snd mret ST_ret].
  assert (undos s3 = undos s2 ∧ queues s3 = queues s2 ∧ ∃ a3, ipc_get (sem_ids s3) semid = Some a3 ∧
    sem_base a3 = sems ∧ sem_pending a3 = sem_pending a) as (Hu3 & Hq3 & a3 & Hg3 & Hb3 & Hp3).
  { subst s3. rewrite <-Hi2 in Hg1. unfold when. destruct (_ && _); [|by split_and!; [..|eexists]].
    destruct (upd_sma_rest semid (set_sem_otime (now s)) s2) as (-> & -> & _ & _).
    split_and!; [done..|]. rewrite get_upd_sma, Hg1. by eexists. }
  split_and!; [by rewrite Hv|congruence|by exists a3| |done|].
  { unfold pending_of. by rewrite Hg3, Hg. }
  intros Hno.
  assert (vals sems = vals (sem_base a) ∧ adj = undo_adj s un) as [Hvs Hadj].
  { destruct (seq_ops sops (vals (sem_base a)) (undo_adj s un)) as [v' adj'| |nw] eqn:Hq;
      [|by injection Ht as -> ->..].
    destruct d; [by injection Ht as -> ->|]. destruct Hno as [?|[?|Hna]]; [done|by subst r|].
    destruct (seq_noalter _ _ _ _ _ Hna Hq) as [-> ->]. by injection Ht as -> ->. }
  split; [unfold sma_vals; rewrite Hg3, Hg; simpl; by rewrite Hb3|].
  intros u. transitivity (undo_adj s2 u); [unfold undo_adj; by rewrite Hu3|].
  rewrite Ha2; [unfold undo_adj; by rewrite Hu1|]. rewrite Hadj. unfold undo_adj. by rewrite Hu1.
Qed.

(** * The walk *)

Lemma walk_pending_rm semid i s a :
  ipc_get (sem_ids s) semid = Some a →
  let s' := (remove_from_queue semid i s).2 in
  (∃ a', ipc_get (sem_ids s') semid = Some a') ∧ sma_vals s' semid = sma_vals s semid ∧
  pending_of s' semid = filter (.≠ i) (pending_of s semid) ∧
  undos s' = undos s ∧ ∀ j, j ≠ i → queues s' j = queues s j.
Proof.
  intros Hg. unfold remove_from_queue, mbind, ST_bind. cbv zeta.
  set (s1 := (upd_sma semid _ s).2).
  assert (ipc_get (sem_ids s1) semid =
    Some (set_sem_pending (filter (.≠ i) (sem_pending a)) a)) as Hg1 by (subst s1; by rewrite get_upd_sma, Hg).
  destruct (upd_sma_rest semid (λ a, set_sem_pending (filter (.≠ i) (sem_pending a)) a) s) as (Hu & Hq & _ & _).
  fold s1 in Hu, Hq. cbn [upd_queue modify snd set_queues sem_ids undos queues].
  unfold sma_vals, pending_of. cbn [set_queues sem_ids]. rewrite Hg1, Hg, Hq.
  split_and!; [by eexists|done..|].
  intros j Hj. by rewrite fn_lookup_insert_ne.
Qed.

(** What the walk from the entry that starts [l] leaves: other entries are as
    they were, and either a remaining entry of [l] is told to try, or nothing
    was done to the set and the remaining entries of [l] must sleep. *)
Definition walk_done (semid : Z) (l : list nat) (s s' : sem_state) : Prop :=
  (∃ a', ipc_get (sem_ids s') semid = Some a') ∧
  (∀ i, i ∉ l → queues s' i = queues s i ∧ (i ∈ pending_of s' semid ↔ i ∈ pending_of s semid)) ∧
  ((∃ i, i ∈ l ∧ i ∈ pending_of s' semid ∧ told s' i) ∨
   sma_vals s' semid = sma_vals s semid ∧ (∀ u, undo_adj s' u = undo_adj s u) ∧
   ∀ i, i ∈ l → i ∈ pending_of s' semid → outcome s' semid i = SeqBlock false).

Lemma seq_code_block e : seq_code e = 1 ↔ e = SeqBlock false.
Proof. destruct e as [| |[]]; simpl; unfold ERANGE, EAGAIN; split; intros H; try done; exfalso; lia. Qed.

(** A head entry that stays or goes without touching the rest. *)
Lemma walk_cons semid i l s s1 s' :
  i ∉ l → walk_done semid l s1 s' →
  (∀ j, j ≠ i → queues s1 j = queues s j ∧ (j ∈ pending_of s1 semid ↔ j ∈ pending_of s semid)) →
  sma_vals s1 semid = sma_vals s semid → (∀ u, undo_adj s1 u = undo_adj s u) →
  (i ∈ pending_of s1 semid → told s1 i ∨ outcome s1 semid i = SeqBlock false) →
  walk_done semid (i :: l) s s'.
Proof.
  intros Hi (Hg & Hrest & Hor) Hs1 Hv Hu Hhead. split_and!; [done|..].
  { intros j [Hj Hjl]%not_elem_of_cons. destruct (Hrest j Hjl) as [-> ->]. by apply Hs1. }
  destruct (Hrest i Hi) as [Hqi Hpi].
  destruct Hor as [(j & Hj & Hp & Ht)|(Hv' & Hu' & Hb)].
  { left. exists j. split_and!; [set_solver|done|done]. }
  destruct (decide (i ∈ pending_of s1 semid)) as [Hip|Hip].
  - destruct (Hhead Hip) as [Ht|Ho].
    + left. exists i. split_and!; [set_solver|by apply Hpi|]. unfold told. by rewrite Hqi.
    + right. split_and!; [congruence|congruence|]. intros j Hj Hp. apply elem_of_cons in Hj as [->|Hj]; [|auto].
      revert Ho. unfold outcome. by rewrite Hqi, Hv', Hu'.
  - right. split_and!; [congruence|congruence|]. intros j Hj Hp. apply elem_of_cons in Hj as [->|Hj]; [|auto].
    destruct Hip. by apply Hpi.
Qed.

(** [q->alter] says whether the sleeper's operations change a value. *)
Definition alter_ok (s : sem_state) (l : list nat) : Prop :=
  ∀ i, i ∈ l → q_alter (queues s i) = sops_alter (q_sops (queues s i)).

(** The state [s2] after the attempt for the head entry [i], with code [r]. *)
Record head_tried (semid : Z) (i : nat) (s : sem_state) (r : Z) (s2 : sem_state) : Prop := {
  ht_get : ∃ a, ipc_get (sem_ids s2) semid = Some a;
  ht_ne j : j ≠ i → queues s2 j = queues s j;
  ht_pending : pending_of s2 semid = pending_of s semid;
  ht_code : r = seq_code (outcome s semid i);
  ht_same : r = 1 → queues s2 i = queues s i;
  ht_keep : q_alter (queues s i) = true ∨ r ≠ 0 ∨ sops_alter (q_sops (queues s i)) = false →
    sma_vals s2 semid = sma_vals s semid ∧ ∀ u, undo_adj s2 u = undo_adj s u
}.

Lemma try_head semid i s a :
  ipc_get (sem_ids s) semid = Some a → (∀ u, Forall short_range (undo_adj s u)) →
  let q := queues s i in
  let x := try_semop semid (q_sops q) (q_undo q) (q_pid q) (q_alter q) s in
  head_tried semid i s x.1.1 (upd_queue i (set_q_sops x.1.2) x.2).2.
Proof.
  intros Hg Hadj q x.
  pose proof (try_semop_spec semid (q_sops q) (q_undo q) (q_pid q) (q_alter q) s a Hg (Hadj _)) as Ht.
  fold x in Ht. destruct x as [[r sops] s1]. destruct Ht as (Hr & Hq1 & Hg1 & Hp1 & Hsame & Hkeep).
  cbn [fst snd]. split.
  - done.
  - intros j Hj. by rewrite upd_queue_ne, Hq1.
  - done.
  - done.
  - intros Hr1. rewrite upd_queue_eq, Hq1, (Hsame Hr1). subst q. by destruct (queues s i).
  - done.
Qed.

(** The head entry is told to try. *)
Lemma walk_told semid i l s r s2 :
  i ∈ pending_of s semid → head_tried semid i s r s2 →
  walk_done semid (i :: l) s (upd_queue i (set_q_status 1) (wake_up_process i s2).2).2.
Proof.
  intros Hi [[a Hg] Hne Hp _ _ _]. split_and!; [by exists a| |left; exists i; split_and!].
  - intros j [Hj _]%not_elem_of_cons. rewrite upd_queue_ne by done. split; [by apply Hne|].
    change (j ∈ pending_of s2 semid ↔ j ∈ pending_of s semid). by rewrite Hp.
  - set_solver.
  - change (i ∈ pending_of s2 semid). by rewrite Hp.
  - unfold told. by rewrite upd_queue_eq.
Qed.

(** The head entry is done, or has failed, and leaves the queue. *)
Lemma walk_off semid i s r s2 :
  (r = 0 → q_alter (queues s i) = false) →
  q_alter (queues s i) = sops_alter (q_sops (queues s i)) → head_tried semid i s r s2 →
  let s5 := (remove_from_queue semid i (upd_queue i (set_q_status r) (wake_up_process i s2).2).2).2 in
  (∃ a, ipc_get (sem_ids s5) semid = Some a) ∧ (i ∉ pending_of s5 semid) ∧
  (∀ j, j ≠ i → queues s5 j = queues s j ∧ (j ∈ pending_of s5 semid ↔ j ∈ pending_of s semid)) ∧
  sma_vals s5 semid = sma_vals s semid ∧ ∀ u, undo_adj s5 u = undo_adj s u.
Proof.
  intros Hr Halt [[a Hg] Hne Hp _ _ Hkeep]. set (s4 := (upd_queue i _ _).2).
  destruct (walk_pending_rm semid i s4 a) as (Hg5 & Hv5 & Hp5 & Hu5 & Hq5); [done|].
  intros s5. fold s5 in Hg5, Hv5, Hp5, Hu5, Hq5.
  change (pending_of s4 semid) with (pending_of s2 semid) in Hp5. rewrite Hp in Hp5.
  change (sma_vals s4 semid) with (sma_vals s2 semid) in Hv5. change (undos s4) with (undos s2) in Hu5.
  destruct Hkeep as [Hkv Hku].
  { destruct (decide (r = 0)) as [->|]; [|by right; left]. right. right. by rewrite <-Halt, Hr. }
  split_and!; [done|..].
  - rewrite Hp5. intros [? _]%list_elem_of_filter. done.
  - intros j Hj. rewrite Hq5 by done. subst s4. rewrite upd_queue_ne by done. split; [by apply Hne|].
    rewrite Hp5, list_elem_of_filter. tauto.
  - by rewrite Hv5.
  - intros u. rewrite <-Hku. unfold undo_adj. by rewrite Hu5.
Qed.

Lemma walk_spec semid l s :
  (∃ a, ipc_get (sem_ids s) semid = Some a) → (∀ u, Forall short_range (undo_adj s u)) →
  NoDup l → (∀ i, i ∈ l → i ∈ pending_of s semid) → alter_ok s l →
  walk_done semid l s (update_queue_loop semid l s).2.
Proof.
  revert s. induction l as [|i l IH]; intros s [a Hg] Hadj Hnd Hsub Halt.
  { cbn [update_queue_loop skip snd]. split_and!; [by exists a|done|]. right. split_and!; [done..|].
    intros i Hi. by apply elem_of_nil in Hi. }
  apply NoDup_cons in Hnd as [Hil Hnd]. cbn [update_queue_loop]. unfold mbind at 1, ST_bind at 1.
  cbn [gets fst snd]. destruct (q_status (queues s i) =? 1) eqn:Hst; to_prop.
  { eapply walk_cons with (s1 := s); [done| |done..|by left].
    apply IH; [by exists a|done|done|set_solver|]. intros j Hj. apply Halt. set_solver. }
  unfold mbind at 1, ST_bind at 1. pose proof (try_head semid i s a Hg Hadj) as Ht. cbv zeta in Ht.
  destruct (try_semop semid (q_sops (queues s i)) (q_undo (queues s i)) (q_pid (queues s i))
    (q_alter (queues s i)) s) as [[r sops] s1]. cbn [fst snd] in *.
  unfold mbind at 1, ST_bind at 1. set (s2 := (upd_queue i (set_q_sops sops) s1).2) in *.
  assert (∀ s', (∀ j, j ≠ i → queues s' j = queues s j ∧ (j ∈ pending_of s' semid ↔ j ∈ pending_of s semid)) →
    (∃ a, ipc_get (sem_ids s') semid = Some a) → (∀ u, undo_adj s' u = undo_adj s u) →
    walk_done semid l s' (update_queue_loop semid l s').2) as Htail.
  { intros s' Hj' Hg' Hu'. apply IH; [done|intros u; by rewrite Hu'|done|..].
    - intros j Hj. apply Hj'; [set_solver|]. apply Hsub. set_solver.
    - intros j Hj. destruct (Hj' j) as [-> _]; [set_solver|]. apply Halt. set_solver. }
  destruct (r <=? 0) eqn:Hle; to_prop.
  - unfold mbind at 1, ST_bind at 1. destruct ((r =? 0) && q_alter (queues s i)) eqn:Hra.
    { apply walk_told with (r := r); [apply Hsub; set_solver|done]. }
    unfold mbind at 1, ST_bind at 1. unfold mbind at 1, ST_bind at 1.
    destruct (walk_off semid i s r s2) as (Hg5 & Hi5 & H5 & Hv5 & Hu5); [|apply Halt; set_solver|done|].
    { intros ->. by destruct (q_alter (queues s i)). }
    set (s5 := (remove_from_queue semid i _).2) in *.
    apply walk_cons with (s1 := s5); [done|by apply Htail|done..|]. intros ?. by destruct Hi5.
  - destruct Ht as [Hg2 Hne Hp Hr Hsame Hkeep].
    assert (outcome s semid i = SeqBlock false) as Hb.
    { apply seq_code_block. revert Hle. rewrite Hr.
      destruct (outcome s semid i) as [| |[]]; simpl; unfold ERANGE, EAGAIN; lia. }
    rewrite Hb in Hr. simpl in Hr. destruct Hkeep as [Hkv Hku]; [right; left; lia|].
    assert (∀ j, j ≠ i → queues s2 j = queues s j ∧ (j ∈ pending_of s2 semid ↔ j ∈ pending_of s semid)) as H2.
    { intros j Hj. by rewrite Hne, Hp. }
    apply walk_cons with (s1 := s2); [done|by apply Htail|done..|].
    intros _. right. rewrite <-Hb. unfold outcome. by rewrite (Hsame Hr), Hkv, Hku.
Qed.
