(* ===== verification/SemThms.v ===== *)
(** The properties of System V semaphores, with their witnesses. *)
From S2P Require Import Prelude UidHash Cred CredProofs CredRun CredThms Ipc IpcProofs Sem SemProofs SemInv SemQueue.
From stdpp Require Import list options.
#[local] Set Default Proof Using "Type*".
Open Scope cint_scope.
Open Scope Z_scope.

(** * Atomicity *)

(** C26. [try_atomic_semop] is the sequential execution of the list, all or
    nothing: it returns 0, 1, [-EAGAIN] or [-ERANGE] as that execution
    completes, meets an operation that must wait (without or with [IPC_NOWAIT])
    or leaves the range; a success that is kept leaves the final values and
    adjustments, within their bounds, and every other outcome leaves the values
    and adjustments it found. *)
Theorem try_atomic_refines sems sops adj pid do_undo :
  Forall val_range (vals sems) → Forall short_range adj →
  let '(r, sems', adj', _) := try_atomic_semop sems sops adj pid do_undo in
  r = seq_code (seq_ops sops (vals sems) adj) ∧
  Forall val_range (vals sems') ∧ Forall short_range adj' ∧ length sems' = length sems ∧
  match seq_ops sops (vals sems) adj with
  | SeqDone v a => if do_undo then vals sems' = vals sems ∧ adj' = adj else vals sems' = v ∧ adj' = a
  | _ => vals sems' = vals sems ∧ adj' = adj
  end.
Proof.
  intros Hv Ha. pose proof (try_atomic_spec sems sops adj pid do_undo Ha) as Ht.
  destruct (try_atomic_semop sems sops adj pid do_undo) as [[[r sems'] adj'] sops'].
  destruct Ht as [Hr Ht]. split; [done|].
  rewrite <-(length_vals sems'), <-(length_vals sems).
  destruct (seq_ops sops (vals sems) adj) as [v a| |nw] eqn:Hq; [|by injection Ht as -> ->..].
  destruct (seq_ops_range _ _ _ _ _ Hv Ha Hq) as (? & ? & ? & _).
  destruct do_undo; by injection Ht as -> ->.
Qed.

(** The second operation would go below zero, so the first is undone. *)
Lemma try_atomic_refines_witness :
  let sems := [mk_sem 3 0; mk_sem 0 0] in
  let sops := [mk_sembuf 0 (-2) SEM_UNDO; mk_sembuf 1 (-1) SEM_UNDO] in
  let '(r, sems', adj', _) := try_atomic_semop sems sops [0; 5] 7 false in
  r = 1 ∧ vals sems' = [3; 0] ∧ adj' = [0; 5].
Proof.
  pose proof (try_atomic_refines [mk_sem 3 0; mk_sem 0 0]
    [mk_sembuf 0 (-2) SEM_UNDO; mk_sembuf 1 (-1) SEM_UNDO] [0; 5] 7 false) as H.
  assert (Forall val_range (vals [mk_sem 3 0; mk_sem 0 0])) as H1
    by (repeat constructor; done).
  assert (Forall short_range [0; 5]) as H2 by (repeat constructor; done).
  specialize (H H1 H2). vm_compute in H |- *. tauto.
Defined.

(** * The invariant of the sets *)

(** C27. Whatever sequence of semget, semop, wake-ups and semctl any tasks make
    from the initial state: every semaphore of every set is between 0 and
    [SEMVMX], every adjustment in an undo structure is a [short], and
    [used_sems] is the number of semaphores in all sets, at most [SEMMNS]. *)
Theorem sem_values_bounded k t l :
  Forall (λ pc, no_exit pc.2 = true) l →
  let s := run_sem l (sem_init k t) in
  (∀ i a, holds (sem_ids s) i a → Forall val_range (vals (sem_base a))) ∧
  (∀ u x, undos s !! u = Some x → Forall short_range (semadj x)) ∧
  used_sems s = sem_total (entries (sem_ids s)) ∧ used_sems s <= SEMMNS.
Proof.
  intros Hl s. destruct (inv_run l _ Hl (inv_init k t)) as [H1 H2 H3 H4 H5]. by split_and!.
Qed.

Definition two_tasks : kstate := demo [demo_task 10 0 cap_all; demo_task 11 0 cap_all; demo_task 12 0 cap_all] 0.

Definition sem_vals (s : sem_state) (semid : Z) : list Z := sma_vals s semid.

(** A set of two semaphores; one task sets them, another takes with undo. *)
Lemma sem_values_bounded_witness :
  let l := [(0%nat, CGet 5 2 (Z.lor IPC_CREAT 0x180) (Some 0x1000));
            (0%nat, CCtl 0 0 SETALL 0 (Some [4; 32767]) None true true);
            (1%nat, COp 0 2 (Some [mk_sembuf 0 (-3) SEM_UNDO; mk_sembuf 1 (-7) 0]) true (Some 0x2000))] in
  let s := run_sem l (sem_init two_tasks 0) in
  sem_vals s 0 = [1; 32760] ∧ semadj <$> undos s !! 0x2000 = Some [3; 0] ∧ used_sems s <= SEMMNS.
Proof.
  set (l := [_; _; _]). pose proof (sem_values_bounded two_tasks 0 l) as H.
  assert (Forall (λ pc, no_exit pc.2 = true) l) as Hl by (repeat constructor).
  specialize (H Hl). split; [by vm_compute|]. split; [by vm_compute|]. apply H.
Defined.

(** * Wake-ups *)

(** C28. No wake-up is lost: when [alter] of each queued entry says whether its
    operations change a value, then after [update_queue] either some sleeper
    has been told to try its operations (and will run the queue again when it
    succeeds), or every sleeper still queued has operations that must wait. *)
Theorem update_queue_no_lost_wakeup semid s a :
  sem_inv s → ipc_get (sem_ids s) semid = Some a → NoDup (sem_pending a) →
  alter_ok s (sem_pending a) →
  let s' := (update_queue semid s).2 in
  (∃ i, i ∈ pending_of s' semid ∧ told s' i) ∨
  ∀ i, i ∈ pending_of s' semid → outcome s' semid i = SeqBlock false.
Proof.
  intros Hs Hg Hnd Halt. unfold update_queue, mbind, ST_bind. cbn [gets fst snd]. rewrite Hg.
  cbn [from_option].
  assert (pending_of s semid = sem_pending a) as Hp by (unfold pending_of; by rewrite Hg).
  destruct (walk_spec semid (sem_pending a) s) as (_ & Hrest & Hor);
    [by exists a|intros u; by apply undo_adj_range|done|by rewrite Hp|done|].
  destruct Hor as [(i & _ & ? & ?)|(_ & _ & Hb)]; [left; eauto|]. right. intros i Hi.
  destruct (decide (i ∈ sem_pending a)) as [Hia|Hia]; [auto|].
  destruct (Hrest i Hia) as [_ Hx]. rewrite Hp in Hx. tauto.
Qed.

(** Task 1 waits to take 2, task 2 for zero; the value becomes 2. *)
Definition wake_run : list (nat * sem_call) :=
  [(0%nat, CGet 5 1 (Z.lor IPC_CREAT 0x180) (Some 0x1000));
   (0%nat, CCtl 0 0 SETVAL 1 None None true true);
   (1%nat, COp 0 1 (Some [mk_sembuf 0 (-2) 0]) true None);
   (2%nat, COp 0 1 (Some [mk_sembuf 0 0 0]) true None)].

Lemma update_queue_no_lost_wakeup_witness :
  let s := (upd_sma 0 (set_sem_base [mk_sem 2 0]) (run_sem wake_run (sem_init two_tasks 0))).2 in
  let s' := (update_queue 0 s).2 in
  pending_of s' 0 = [2%nat; 1%nat] ∧ woken s' = [1%nat] ∧
  ((∃ i, i ∈ pending_of s' 0 ∧ told s' i) ∨
   ∀ i, i ∈ pending_of s' 0 → outcome s' 0 i = SeqBlock false).
Proof.
  set (s := (upd_sma _ _ _).2). cbv zeta.
  split; [by vm_compute|]. split; [by vm_compute|].
  destruct (ipc_get (sem_ids s) 0) as [a|] eqn:Hg; [|by vm_compute in Hg].
  assert (sem_pending a = [2%nat; 1%nat]) as Hp.
  { assert (from_option sem_pending [] (ipc_get (sem_ids s) 0) = [2%nat; 1%nat]) as H by by vm_compute.
    by rewrite Hg in H. }
  apply (update_queue_no_lost_wakeup 0 s a); [|done|rewrite Hp..].
  - apply inv_upd_sma_at.
    + intros b Hb. split; [by repeat constructor|].
      assert (Z.of_nat <$> (length ∘ sem_base <$> ipc_get (sem_ids (run_sem wake_run (sem_init two_tasks 0))) 0)
        = Some 1) as H by by vm_compute. rewrite Hb in H. simpl in H. injection H as H.
      split; [simpl; lia|done].
    + apply inv_run; [by repeat constructor|apply inv_init].
  - apply (bool_decide_unpack _). by vm_compute.
  - intros i [->|[->|[]%elem_of_nil]%elem_of_cons]%elem_of_cons; by vm_compute.
Defined.

(** Without that condition a wake-up is lost: [sys_semop] queues an entry
    with [alter] set only when its operations {e decrease} a value. Task 1
    waits to take 1 from semaphore 1; task 2 waits for semaphore 0 to be zero and
    then adds 1 to semaphore 1; task 0 takes 1 from semaphore 0. [update_queue]
    performs task 2's operations itself, does not look at task 1 again, and task
    2 does not either when it returns: task 1 sleeps on although its operations
    would succeed. *)
Theorem semop_lost_wakeup :
  let l := [(0%nat, CGet 5 2 (Z.lor IPC_CREAT 0x180) (Some 0x1000));
            (0%nat, CCtl 0 0 SETVAL 1 None None true true);
            (1%nat, COp 0 1 (Some [mk_sembuf 1 (-1) 0]) true None);
            (2%nat, COp 0 2 (Some [mk_sembuf 0 0 0; mk_sembuf 1 1 0]) true None);
            (0%nat, COp 0 1 (Some [mk_sembuf 0 (-1) 0]) true None);
            (2%nat, CWake)] in
  let s := run_sem l (sem_init two_tasks 0) in
  q_alter (queues s 2) ≠ sops_alter (q_sops (queues s 2)) ∧
  woken s = [2%nat] ∧ q_status (queues s 2) = 0 ∧ semsleeping s 2 = false ∧
  pending_of s 0 = [1%nat] ∧ semsleeping s 1 = true ∧ ¬ told s 1 ∧
  sma_vals s 0 = [0; 1] ∧ outcome s 0 1 = SeqDone [0; 0] [].
Proof. unfold told. cbv zeta. split_and!; vm_compute; first [reflexivity | discriminate].
Qed.

(** * semget *)

Lemma lift_fst {A} (m : K A) s : (lift m s).1 = (m (ks s)).1.
Proof. unfold lift. by destruct (m (ks s)). Qed.

(** A set that [semget] created under a key is found under it: the id
    returned is valid and names a set of [nsems] zero semaphores with the mode
    bits asked for, and a later [semget] with the key and no more semaphores
    returns the same id if the permissions allow, or fails with [-EEXIST] if it
    asks for an exclusive creation. *)
Theorem semget_create_find key nsems flg mem s r s' :
  sem_inv s → key ≠ IPC_PRIVATE → ipc_findkey (sem_ids s) key = -1 →
  sys_semget key nsems flg mem s = (r, s') → 0 <= r →
  ∃ a, ipc_lock (sem_ids s') r = Some a ∧ ipc_checkid a r = false ∧
    sem_base a = replicate (Z.to_nat nsems) (mk_sem 0 0) ∧
    ip_mode (sem_perm a) = Z.land flg S_IRWXUGO ∧ ip_uid (sem_perm a) = euid (cur (ks s)) ∧
    ∀ n f m, 0 <= n <= nsems →
      (sys_semget key n f m s').1 =
        if (f & IPC_CREAT) && (f & IPC_EXCL) then -EEXIST
        else if (ipcperms (sem_perm a) (s16 f) (ks s')).1 =? 0 then r else -EACCES.
Proof.
  intros Hs Hkey Hnew Hget Hr. unfold sys_semget in Hget.
  destruct ((nsems <? 0) || (nsems >? SEMMSL)) eqn:Hn; [injection Hget as <- <-; done|]. to_prop.
  rewrite (proj2 (Z.eqb_neq key IPC_PRIVATE) Hkey) in Hget.
  unfold mbind at 1, ST_bind at 1 in Hget. cbn [gets fst snd] in Hget. rewrite Hnew in Hget. simpl in Hget.
  destruct (flg & IPC_CREAT); [|injection Hget as <- <-; done]. simpl in Hget.
  pose proof (newary_spec key nsems flg mem s Hs ltac:(lia)) as Hna. rewrite Hget in Hna.
  destruct Hna as (Hs' & _ & [[? _]|(id & a & Hra & Hperm & Hbase & _ & _ & Hid & Hfree & Hh)]); [lia|].
  assert (holds (sem_ids s') id a) as Ha by (apply Hh; by rewrite decide_True).
  destruct (lid_of_build id (ip_seq (sem_perm a)) Hid) as (Hlid & Hq & _);
    [by apply (io_perm_seq _ (si_ids _ Hs') _ _ Ha)|]. rewrite <-Hra in Hlid, Hq.
  exists a. split_and!.
  - apply get_holds; [done|]. by rewrite Hlid.
  - unfold ipc_checkid. simpl. by rewrite Hq, Z.eqb_refl.
  - done.
  - by rewrite Hperm.
  - by rewrite Hperm.
  - intros n f m Hnn.
    assert (ipc_findkey (sem_ids s') key = id) as Hfind.
    { destruct (findkey_spec _ key (si_ids _ Hs')) as [[_ Hno]|(p & Hp & Hk & _)].
      - exfalso. apply (Hno _ _ Ha). simpl. by rewrite Hperm.
      - destruct (findkey_spec _ key (si_ids _ Hs)) as [[_ Hno]|(p' & Hp' & _)];
          [|rewrite Hnew in Hp'; destruct Hp'; lia].
        apply Hh in Hp. case_decide; [done|]. by destruct (Hno _ _ Hp). }
    unfold sys_semget. replace ((n <? 0) || (n >? SEMMSL)) with false
      by (symmetry; apply orb_false_iff; split; [apply Z.ltb_ge|rewrite Z.gtb_ltb; apply Z.ltb_ge]; lia).
    rewrite (proj2 (Z.eqb_neq key IPC_PRIVATE) Hkey).
    unfold mbind at 1, ST_bind at 1. cbn [gets fst snd]. rewrite Hfind, (proj2 (Z.eqb_neq id (-1))) by lia.
    destruct ((f & IPC_CREAT) && (f & IPC_EXCL)); [done|].
    unfold mbind at 1, ST_bind at 1. unfold sem_lock at 1. cbn [gets fst snd]. unfold ipc_lock.
    assert (lid_of id = id) as Hl2.
    { unfold lid_of. apply Z.rem_small. unfold SEQ_MULTIPLIER, IPCMNI in *. lia. }
    rewrite (proj2 (get_holds (sem_ids s') id a ltac:(lia))) by by rewrite Hl2.
    replace (n >? sem_nsems a) with false
      by (symmetry; rewrite Z.gtb_ltb; apply Z.ltb_ge; unfold sem_nsems; rewrite Hbase, length_replicate; lia).
    unfold mbind, ST_bind. rewrite lift_fst. change ((sem_lock id s').2) with s'.
    destruct ((ipcperms (sem_perm a) (s16 f) (ks s')).1 =? 0); [by rewrite Hra|done].
Qed.

(** Root creates a set with key 5 and looks it up. *)
Lemma semget_create_find_witness :
  let s := sem_init two_tasks 0 in
  let x := sys_semget 5 3 (Z.lor IPC_CREAT 0x180) (Some 0x1000) s in
  x.1 = 0 ∧ (sys_semget 5 2 0x180 None x.2).1 = 0 ∧
  (sys_semget 5 3 (Z.lor IPC_CREAT IPC_EXCL) None x.2).1 = -EEXIST.
Proof.
  intros s x. split; [by vm_compute|]. split; [by vm_compute|].
  destruct (semget_create_find 5 3 (Z.lor IPC_CREAT 0x180) (Some 0x1000) s x.1 x.2)
    as (a & _ & _ & _ & _ & _ & H); [apply inv_init|done|by vm_compute|apply surjective_pairing|by vm_compute|].
  apply (H 3 (Z.lor IPC_CREAT IPC_EXCL) None). lia.
Defined.

(** * The end of a task *)

(** The exit of a task applies each adjustment of an undo structure for a live
    set to its semaphore, stopping at zero, records the task as the last
    to operate on it, runs the queue of the set on the result, and frees the
    structure. *)
Theorem exit_undo_applies u x a s :
  undos s !! u = Some x → 0 <= un_semid x → ipc_lock (sem_ids s) (un_semid x) = Some a →
  ipc_checkid a (un_semid x) = false → u ∈ sem_undos a →
  ∃ s1 a1, ipc_get (sem_ids s1) (un_semid x) = Some a1 ∧
    vals (sem_base a1) = imap (λ i v, Z.max 0 (v + nth i (semadj x) 0)) (vals (sem_base a)) ∧
    Forall (λ c, sempid c = pid (cur (ks s))) (sem_base a1) ∧
    (u ∉ sem_undos a1) ∧ sem_pending a1 = sem_pending a ∧ queues s1 = queues s ∧ undos s1 = undos s ∧
    let s2 := (update_queue (un_semid x) s1).2 in
    (exit_undo u s).2 = set_undos (delete u (undos s2)) s2.
Proof.
  intros Hu Hid Hlock Hck Hin. unfold exit_undo. unfold mbind at 1, ST_bind at 1.
  unfold gets at 1, id_sem at 1. cbn [fst snd]. rewrite Hu.
  rewrite (proj2 (Z.eqb_neq (un_semid x) (-1))) by lia. unfold gets, id_sem. cbn [fst snd].
  rewrite Hlock, Hck, bool_decide_true by done. cbn [negb].
  set (f1 := set_sem_undos _). set (f2 := λ a : sem_array, set_sem_base _ a).
  unfold mbind, ST_bind.
  set (s1 := (upd_sma (un_semid x) f1 s).2). set (s2 := (upd_sma (un_semid x) f2 s1).2).
  set (s3 := (upd_sma (un_semid x) (set_sem_otime (now s)) s2).2).
  unfold ipc_lock in Hlock.
  assert (ipc_get (sem_ids s3) (un_semid x) = Some (set_sem_otime (now s) (f2 (f1 a)))) as Hg3.
  { subst s3 s2 s1. by rewrite !get_upd_sma, Hlock. }
  pose proof (upd_sma_rest (un_semid x) f1 s) as (U1 & Q1 & _ & _). fold s1 in U1, Q1.
  pose proof (upd_sma_rest (un_semid x) f2 s1) as (U2 & Q2 & _ & _). fold s2 in U2, Q2.
  pose proof (upd_sma_rest (un_semid x) (set_sem_otime (now s)) s2) as (U3 & Q3 & _ & _). fold s3 in U3, Q3.
  exists s3, (set_sem_otime (now s) (f2 (f1 a))). split_and!; [done|..].
  - unfold f2, f1. simpl. rewrite vals_imap. unfold vals. rewrite imap_fmap. apply imap_ext. intros i c _. simpl.
    destruct (Z.ltb_spec (semval c + nth i (semadj x) 0) 0); lia.
  - unfold f2. simpl. by apply Forall_imap.
  - unfold f2, f1. simpl. rewrite list_elem_of_filter. tauto.
  - done.
  - congruence.
  - congruence.
  - done.
Qed.

(** Task 1 has taken 3 with undo and left 1. *)
Lemma exit_undo_applies_witness :
  let l := [(0%nat, CGet 5 1 (Z.lor IPC_CREAT 0x180) (Some 0x1000));
            (0%nat, CCtl 0 0 SETVAL 4 None None true true);
            (1%nat, COp 0 1 (Some [mk_sembuf 0 (-3) SEM_UNDO]) true (Some 0x2000));
            (1%nat, CWake)] in
  let s := run_sem l (sem_init two_tasks 0) in
  sma_vals s 0 = [1] ∧ ∃ s1 a1, ipc_get (sem_ids s1) 0 = Some a1 ∧ vals (sem_base a1) = [4] ∧
    (exit_undo 0x2000 s).2 =
      set_undos (delete 0x2000 (undos (update_queue 0 s1).2)) (update_queue 0 s1).2.
Proof.
  intros l s. split; [by vm_compute|].
  assert (undos s !! 0x2000 = Some (mk_undo 0 [3])) as Hu by by vm_compute.
  destruct (ipc_lock (sem_ids s) 0) as [a|] eqn:Ha; [|by vm_compute in Ha].
  assert (∀ {A} (f : sem_array → A) d, f a = from_option f d (ipc_lock (sem_ids s) 0)) as Hf
    by (intros; by rewrite Ha).
  destruct (exit_undo_applies 0x2000 (mk_undo 0 [3]) a s Hu) as (s1 & a1 & H1 & H2 & _ & _ & _ & _ & _ & H3);
    [done|exact Ha| | |].
  - rewrite (Hf _ (λ a, ipc_checkid a 0) true). by vm_compute.
  - rewrite (Hf _ sem_undos []). apply (bool_decide_unpack _). by vm_compute.
  - exists s1, a1. split; [exact H1|]. split; [|exact H3]. rewrite H2, (Hf _ (λ a, vals (sem_base a)) []).
    by vm_compute.
Defined.

(** The exit of a task can leave a value above [SEMVMX], which semop and
    semctl never do: a task takes 5 from a full semaphore with undo, another one
    fills it again, and the exit adds the 5 back. *)
Theorem sem_exit_above_max :
  let l := [(0%nat, CGet 5 1 (Z.lor IPC_CREAT 0x180) (Some 0x1000));
            (0%nat, CCtl 0 0 SETVAL SEMVMX None None true true);
            (1%nat, COp 0 1 (Some [mk_sembuf 0 (-5) SEM_UNDO]) true (Some 0x2000));
            (0%nat, COp 0 1 (Some [mk_sembuf 0 5 0]) true None);
            (1%nat, CExit)] in
  sma_vals (run_sem l (sem_init two_tasks 0)) 0 = [SEMVMX + 5].
Proof. by vm_compute. Qed.

(** A wait for zero that fails or sleeps changes what [GETPID] reports: the
    [undo] loop shifts [sempid] back for the operation that never shifted it,
    so the process recorded last is lost. *)
Theorem wait_for_zero_loses_pid sems n flg_ adj pid_ d :
  0 <= n < Z.of_nat (length sems) → semval (sem_at sems n) ≠ 0 →
  let '(r, sems', _, _) := try_atomic_semop sems [mk_sembuf n 0 flg_] adj pid_ d in
  r = (if flg_ & IPC_NOWAIT then -EAGAIN else 1) ∧
  sempid (sem_at sems' n) = Z.shiftr (sempid (sem_at sems n)) 16 ∧
  (0 <= sempid (sem_at sems n) < 2 ^ 16 → Z.land (sempid (sem_at sems' n)) 0xffff = 0).
Proof.
  intros Hn Hv. unfold try_atomic_semop. cbn [try_loop sem_num sem_op t_sems].
  rewrite (proj2 (Z.eqb_neq _ 0) Hv). cbn [Z.eqb andb negb undo_loop t_done t_sems t_adj sem_num sem_op].
  split; [done|].
  assert (sempid (sem_at (upd_sem n (revert_op 0) sems) n) = Z.shiftr (sempid (sem_at sems n)) 16) as Hp.
  { unfold upd_sem, sem_at at 1. rewrite nth_lookup, list_lookup_insert_eq by lia. done. }
  split; [exact Hp|]. intros Hr. rewrite Hp, Z.shiftr_div_pow2, Z.div_small by lia. done.
Qed.

Lemma wait_for_zero_loses_pid_witness :
  let '(r, sems', _, _) := try_atomic_semop [mk_sem 1 77] [mk_sembuf 0 0 IPC_NOWAIT] [] 80 false in
  r = -EAGAIN ∧ sempid (sem_at sems' 0) = 0.
Proof.
  pose proof (wait_for_zero_loses_pid [mk_sem 1 77] 0 IPC_NOWAIT [] 80 false) as H.
  assert (0 <= 0 < Z.of_nat (length [mk_sem 1 77])) as H1 by (simpl; lia).
  assert (semval (sem_at [mk_sem 1 77] 0) ≠ 0) as H2 by done.
  specialize (H H1 H2). vm_compute in H |- *. tauto.
Defined.
