(* ===== verification/Msg.v ===== *)
(** System V message queues (ipc/msg.c): messages and their segments, the
    queues with their sleeping senders and receivers, and the calls msgget,
    msgsnd, msgrcv and msgctl, with one definition for each section between two
    points where the queue is unlocked. *)
From S2P Require Import Prelude UidHash Cred Ipc.
From stdpp Require Import list options.
#[local] Set Default Proof Using "Type*".
Open Scope cint_scope.
Open Scope Z_scope.

Definition MSG_STAT : Z := 11.
Definition MSG_INFO : Z := 12.
Definition MSG_NOERROR : Z := 0x1000.
Definition MSG_EXCEPT : Z := 0x2000.
Definition msg_ctlmax : Z := 8192.
Definition msg_ctlmnb : Z := 16384.
Definition msg_ctlmni : Z := 16.
Definition DATALEN_MSG : Z := 4096 - 20.  (* PAGE_SIZE-sizeof(struct msg_msg) *)
Definition DATALEN_SEG : Z := 4096 - 4.
Definition LONG_MIN : Z := -0x80000000.

(** The search modes. *)
Definition SEARCH_ANY : Z := 1.
Definition SEARCH_EQUAL : Z := 2.
Definition SEARCH_NOTEQUAL : Z := 3.
Definition SEARCH_LESSEQUAL : Z := 4.

(** * Messages *)

(** The text is the bytes behind the [msg_msg] and those of its segments. *)
Record msg_msg := mk_msg { m_type : Z; m_ts : Z; m_data : list Z; m_segs : list (list Z) }.

(** [alloc_ok] and [copy_ok] give the results of [kmalloc] and
    [copy_from_user] for the parts from number [n] on; [fuel] bounds the loop. *)
Fixpoint load_segs (fuel n : nat) (alloc_ok copy_ok : nat → bool) (src : list Z) (len : Z) : Z + list (list Z) :=
  if len >? 0 then
    match fuel with
    | O => inr []
    | S fuel =>
        let alen := if len >? DATALEN_SEG then DATALEN_SEG else len in
        if negb (alloc_ok n) then inl (- ENOMEM)
        else if negb (copy_ok n) then inl (- EFAULT)
        else match load_segs fuel (S n) alloc_ok copy_ok (drop (Z.to_nat alen) src) (len - alen) with
             | inl e => inl e
             | inr segs => inr (take (Z.to_nat alen) src :: segs)
             end
    end
  else inr [].

(** The message, whose type and size the caller sets, or an error. *)
Definition load_msg (alloc_ok copy_ok : nat → bool) (src : list Z) (len : Z) : Z + msg_msg :=
  let alen := if len >? DATALEN_MSG then DATALEN_MSG else len in
  if negb (alloc_ok 0%nat) then inl (- ENOMEM)
  else if negb (copy_ok 0%nat) then inl (- EFAULT)
  else match load_segs (Z.to_nat len) 1 alloc_ok copy_ok (drop (Z.to_nat alen) src) (len - alen) with
       | inl e => inl e
       | inr segs => inr (mk_msg 0 0 (take (Z.to_nat alen) src) segs)
       end.

(** The bytes stored; [None] when the list of segments is too short. *)
Fixpoint store_segs (fuel : nat) (segs : list (list Z)) (len : Z) : option (list Z) :=
  if len >? 0 then
    match fuel, segs with
    | S fuel, seg :: segs =>
        let alen := if len >? DATALEN_SEG then DATALEN_SEG else len in
        if alen >? Z.of_nat (length seg) then None else
        rest ← store_segs fuel segs (len - alen);
        Some (take (Z.to_nat alen) seg ++ rest)
    | _, _ => None
    end
  else Some [].

Definition store_msg (msg : msg_msg) (len : Z) : option (list Z) :=
  let alen := if len >? DATALEN_MSG then DATALEN_MSG else len in
  if alen >? Z.of_nat (length (m_data msg)) then None else
  rest ← store_segs (Z.to_nat len) (m_segs msg) (len - alen);
  Some (take (Z.to_nat alen) (m_data msg) ++ rest).

Definition testmsg (msg : msg_msg) (type mode : Z) : bool :=
  if mode =? SEARCH_ANY then true
  else if mode =? SEARCH_LESSEQUAL then m_type msg <=? type
  else if mode =? SEARCH_EQUAL then m_type msg =? type
  else if mode =? SEARCH_NOTEQUAL then negb (m_type msg =? type)
  else false.

(** The mode and the new value of [msgtyp], a 32-bit [long]. *)
Definition convert_mode (msgtyp msgflg : Z) : Z * Z :=
  if msgtyp =? 0 then (SEARCH_ANY, msgtyp)
  else if msgtyp <? 0 then (SEARCH_LESSEQUAL, s32 (- msgtyp))
  else if msgflg & MSG_EXCEPT then (SEARCH_NOTEQUAL, msgtyp)
  else (SEARCH_EQUAL, msgtyp).

(** The search of [sys_msgrcv] from position [i] on; [found] is the position of
    [found_msg]. It also returns the last value of [msgtyp]. *)
Fixpoint find_loop (l : list msg_msg) (i : nat) (msgtyp mode : Z) (found : option nat) : option nat * Z :=
  match l with
  | [] => (found, msgtyp)
  | msg :: l =>
      if testmsg msg msgtyp mode then
        if (mode =? SEARCH_LESSEQUAL) && negb (m_type msg =? 1)
        then find_loop l (S i) (m_type msg - 1) mode (Some i)
        else (Some i, msgtyp)
      else find_loop l (S i) msgtyp mode found
  end.

(** * Queues *)

(** [q_messages] lists the messages in order; [q_receivers] and [q_senders]
    list the sleeping tasks. *)
Record msg_queue := mk_msq {
  q_perm : kern_ipc_perm;
  q_stime : Z;
  q_rtime : Z;
  q_ctime : Z;
  q_cbytes : Z;  (* unsigned long *)
  q_qnum : Z;    (* unsigned long *)
  q_qbytes : Z;  (* unsigned long *)
  q_lspid : Z;
  q_lrpid : Z;
  q_messages : list msg_msg;
  q_receivers : list nat;
  q_senders : list nat
}.

Definition set_q_perm (x : kern_ipc_perm) (a : msg_queue) : msg_queue :=
  mk_msq x (q_stime a) (q_rtime a) (q_ctime a) (q_cbytes a) (q_qnum a) (q_qbytes a) (q_lspid a) (q_lrpid a)
    (q_messages a) (q_receivers a) (q_senders a).
Definition set_q_receivers (x : list nat) (a : msg_queue) : msg_queue :=
  mk_msq (q_perm a) (q_stime a) (q_rtime a) (q_ctime a) (q_cbytes a) (q_qnum a) (q_qbytes a) (q_lspid a)
    (q_lrpid a) (q_messages a) x (q_senders a).
Definition set_q_senders (x : list nat) (a : msg_queue) : msg_queue :=
  mk_msq (q_perm a) (q_stime a) (q_rtime a) (q_ctime a) (q_cbytes a) (q_qnum a) (q_qbytes a) (q_lspid a)
    (q_lrpid a) (q_messages a) (q_receivers a) x.

(** The last send, the last receive, and the messages with their counts. *)
Definition set_q_sent (pid_ time : Z) (a : msg_queue) : msg_queue :=
  mk_msq (q_perm a) time (q_rtime a) (q_ctime a) (q_cbytes a) (q_qnum a) (q_qbytes a) pid_ (q_lrpid a)
    (q_messages a) (q_receivers a) (q_senders a).
Definition set_q_received (pid_ time : Z) (a : msg_queue) : msg_queue :=
  mk_msq (q_perm a) (q_stime a) time (q_ctime a) (q_cbytes a) (q_qnum a) (q_qbytes a) (q_lspid a) pid_
    (q_messages a) (q_receivers a) (q_senders a).
Definition set_q_content (l : list msg_msg) (cbytes qnum : Z) (a : msg_queue) : msg_queue :=
  mk_msq (q_perm a) (q_stime a) (q_rtime a) (q_ctime a) cbytes qnum (q_qbytes a) (q_lspid a) (q_lrpid a)
    l (q_receivers a) (q_senders a).
Definition set_q_limits (perm_ : kern_ipc_perm) (qbytes ctime : Z) (a : msg_queue) : msg_queue :=
  mk_msq perm_ (q_stime a) (q_rtime a) ctime (q_cbytes a) (q_qnum a) qbytes (q_lspid a) (q_lrpid a)
    (q_messages a) (q_receivers a) (q_senders a).

#[export] Instance msg_obj : IpcObj msg_queue := {|
  perm := q_perm;
  with_perm := set_q_perm;
  perm_with_perm _ _ := eq_refl
|}.

(** [struct msg_receiver] of a task; [r_msg] is an error or a message. *)
Record msg_receiver := mk_receiver {
  r_msgtype : Z;
  r_mode : Z;
  r_maxsize : Z;
  r_msg : Z + msg_msg
}.

(** What a task sleeps in, with the variables of its call. *)
Inductive msg_sleep :=
  | Awake
  | InSend (msqid msgsz msgflg : Z) (msg : msg_msg)
  | InRecv (msqid msgsz msgflg : Z).

(** The tasks, the table of queues, the global counters, the receiver structure
    and the sleep of each task, whether its sender structure is on a list, the wake-ups
    so far and the clock. *)
Record msg_state := mk_msg_state {
  mks : kstate;
  msg_ids : ipc_ids msg_queue;
  msg_bytes : Z;  (* atomic_t *)
  msg_hdrs : Z;   (* atomic_t *)
  receivers : nat → msg_receiver;
  sleeping : nat → msg_sleep;
  ss_linked : nat → bool;
  mwoken : list nat;
  mnow : Z
}.

Definition set_mks (x : kstate) (s : msg_state) : msg_state :=
  mk_msg_state x (msg_ids s) (msg_bytes s) (msg_hdrs s) (receivers s) (sleeping s) (ss_linked s) (mwoken s) (mnow s).
Definition set_msg_ids (x : ipc_ids msg_queue) (s : msg_state) : msg_state :=
  mk_msg_state (mks s) x (msg_bytes s) (msg_hdrs s) (receivers s) (sleeping s) (ss_linked s) (mwoken s) (mnow s).
Definition set_counters (bytes hdrs : Z) (s : msg_state) : msg_state :=
  mk_msg_state (mks s) (msg_ids s) bytes hdrs (receivers s) (sleeping s) (ss_linked s) (mwoken s) (mnow s).
Definition set_receivers (x : nat → msg_receiver) (s : msg_state) : msg_state :=
  mk_msg_state (mks s) (msg_ids s) (msg_bytes s) (msg_hdrs s) x (sleeping s) (ss_linked s) (mwoken s) (mnow s).
Definition set_sleeping (x : nat → msg_sleep) (s : msg_state) : msg_state :=
  mk_msg_state (mks s) (msg_ids s) (msg_bytes s) (msg_hdrs s) (receivers s) x (ss_linked s) (mwoken s) (mnow s).
Definition set_ss_linked (x : nat → bool) (s : msg_state) : msg_state :=
  mk_msg_state (mks s) (msg_ids s) (msg_bytes s) (msg_hdrs s) (receivers s) (sleeping s) x (mwoken s) (mnow s).
Definition set_mwoken (x : list nat) (s : msg_state) : msg_state :=
  mk_msg_state (mks s) (msg_ids s) (msg_bytes s) (msg_hdrs s) (receivers s) (sleeping s) (ss_linked s) x (mnow s).

Notation G := (ST msg_state).

Definition id_msg (s : msg_state) : msg_state := s.

(** Runs a credential check on the task state. *)
Definition mlift {A} (m : K A) : G A := λ s, let (a, k) := m (mks s) in (a, set_mks k s).

Definition msg_lock (msqid : Z) : G (option msg_queue) := gets (λ s, ipc_lock (msg_ids s) msqid).

Definition upd_msq (msqid : Z) (f : msg_queue → msg_queue) : G unit :=
  modify (λ s, match ipc_get (msg_ids s) msqid with
               | Some a => set_msg_ids (ipc_store msqid (f a) (msg_ids s)) s
               | None => s
               end).

Definition add_counters (bytes hdrs : Z) : G unit :=
  modify (λ s, set_counters (s32 (msg_bytes s + bytes)) (s32 (msg_hdrs s + hdrs)) s).

Definition mwake_up_process (t : nat) : G unit := modify (λ s, set_mwoken (mwoken s ++ [t]) s).

Definition set_r_msg (t : nat) (x : Z + msg_msg) : G unit :=
  modify (λ s, let r := receivers s t in
               set_receivers (<[t := mk_receiver (r_msgtype r) (r_mode r) (r_maxsize r) x]> (receivers s)) s).

Definition set_sleep (t : nat) (x : msg_sleep) : G unit :=
  modify (λ s, set_sleeping (<[t := x]> (sleeping s)) s).

(** ** Lists of sleepers *)

Definition ss_add (msqid : Z) (t : nat) : G unit :=
  upd_msq msqid (λ a, set_q_senders (q_senders a ++ [t]) a);;
  modify (λ s, set_ss_linked (<[t := true]> (ss_linked s)) s).

Definition ss_del (msqid : Z) (t : nat) : G unit :=
  s ← gets id_msg;
  when (ss_linked s t)
    (upd_msq msqid (λ a, set_q_senders (filter (.≠ t) (q_senders a)) a);;
     modify (λ s, set_ss_linked (<[t := false]> (ss_linked s)) s)).

(** The loop of [ss_wakeup]. *)
Fixpoint ss_wakeup (l : list nat) (kill : bool) : G unit :=
  match l with
  | [] => skip
  | t :: l =>
      when kill (modify (λ s, set_ss_linked (<[t := false]> (ss_linked s)) s));;
      mwake_up_process t;;
      ss_wakeup l kill
  end.

(** The loop of [expunge_all]. *)
Fixpoint expunge_all (l : list nat) (res : Z) : G unit :=
  match l with
  | [] => skip
  | t :: l => set_r_msg t (inl res);; mwake_up_process t;; expunge_all l res
  end.

(** The loop of [pipelined_send] from the receiver that starts [l]. *)
Fixpoint pipelined_loop (msqid : Z) (msg : msg_msg) (l : list nat) : G bool :=
  match l with
  | [] => mret false
  | t :: l =>
      s ← gets id_msg;
      let r := receivers s t in
      if testmsg msg (r_msgtype r) (r_mode r) then
        upd_msq msqid (λ a, set_q_receivers (filter (.≠ t) (q_receivers a)) a);;
        if (r_maxsize r <? m_ts msg : bool) then
          set_r_msg t (inl (- E2BIG));;
          mwake_up_process t;;
          pipelined_loop msqid msg l
        else
          set_r_msg t (inr msg);;
          upd_msq msqid (set_q_received (pid (tasks (mks s) t)) (mnow s));;
          mwake_up_process t;;
          mret true
      else pipelined_loop msqid msg l
  end.

Definition pipelined_send (msqid : Z) (msg : msg_msg) : G bool :=
  l ← gets (λ s, from_option q_receivers [] (ipc_get (msg_ids s) msqid));
  pipelined_loop msqid msg l.

(** * Initialisation, msgget and removal *)

Definition msg_init (k : kstate) (time : Z) : msg_state :=
  mk_msg_state k (ipc_init_ids msg_ctlmni true) 0 0 (λ _, mk_receiver 0 0 0 (inl 0)) (λ _, Awake)
    (λ _, false) [] time.

(** [mem] tells whether the structure can be allocated. *)
Definition newque (key msgflg : Z) (mem : bool) : G Z :=
  s ← gets id_msg;
  if negb mem then mret (- ENOMEM) else
  let msq := mk_msq (mk_perm 0 0 0 0 0 0 0) 0 0 0 0 0 0 0 0 [] [] [] in
  let (r, ids) := ipc_addid (cur (mks s)) msq msg_ctlmni true (msg_ids s) in
  modify (set_msg_ids ids);;
  match r with
  | None => mret (- ENOSPC)
  | Some (id, msq) =>
      let p := q_perm msq in
      upd_msq id (λ a, mk_msq
        (mk_perm key (ip_uid p) (ip_gid p) (ip_cuid p) (ip_cgid p) (Z.land msgflg S_IRWXUGO) (ip_seq p))
        0 0 (mnow s) 0 0 msg_ctlmnb 0 0 [] [] []);;
      mret (ipc_buildid id (ip_seq p))
  end.

Definition sys_msgget (key msgflg : Z) (mem : bool) : G Z :=
  if (key =? IPC_PRIVATE : bool) then newque key msgflg mem else
  ids ← gets msg_ids;
  let id := ipc_findkey ids key in
  if (id =? -1 : bool) then
    if negb (msgflg & IPC_CREAT) then mret (- ENOENT) else newque key msgflg mem
  else if ((msgflg & IPC_CREAT) && (msgflg & IPC_EXCL))%bool then mret (- EEXIST) else
  msq ← msg_lock id;
  match (msq : option msg_queue) with
  | None => mret (- EINVAL) (* BUG() *)
  | Some msq =>
      denied ← mlift (ipcperms (q_perm msq) (s16 msgflg));
      mret (if negb (denied =? 0) then - EACCES else ipc_buildid id (ip_seq (q_perm msq)))
  end.

Definition freeque (id : Z) : G unit :=
  s ← gets id_msg;
  match ipc_rmid id (msg_ids s) with
  | None => skip (* BUG() *)
  | Some (msq, ids) =>
      modify (set_msg_ids ids);;
      expunge_all (q_receivers msq) (- EIDRM);;
      ss_wakeup (q_senders msq) true;;
      add_counters 0 (- Z.of_nat (length (q_messages msq)));;
      add_counters (- q_cbytes msq) 0
  end.

(** * msgctl *)

Record msq_setbuf := mk_msq_setbuf { sb_qbytes : Z; sb_uid : Z; sb_gid : Z; sb_mode : Z }.

(** What a command hands back to the caller's memory. *)
Inductive msg_out :=
  | MNone
  | MStat (msq : msg_queue)
  | MInfo (msgpool msgmap msgtql : Z).

Definition MSGPOOL : Z := msg_ctlmni * msg_ctlmnb / 1024.

(** The commands IPC_SET and IPC_RMID. *)
Definition msgctl_down (msqid cmd : Z) (setbuf : msq_setbuf) : G Z :=
  msq ← msg_lock msqid;
  match (msq : option msg_queue) with
  | None => mret (- EINVAL)
  | Some msq =>
      if ipc_checkid msq msqid then mret (- EIDRM) else
      c ← gets (λ s, cur (mks s));
      let p := q_perm msq in
      ok ← mlift (orelse ((euid c =? ip_cuid p) || (euid c =? ip_uid p)) (capable CAP_SYS_ADMIN));
      if negb ok then mret (- EPERM) else
      if (cmd =? IPC_SET : bool) then
        ok ← mlift (orelse (negb (sb_qbytes setbuf >? msg_ctlmnb)) (capable CAP_SYS_RESOURCE));
        if negb ok then mret (- EPERM) else
        s ← gets id_msg;
        upd_msq msqid (λ a, let p := q_perm a in
          set_q_limits (mk_perm (ip_key p) (sb_uid setbuf) (sb_gid setbuf) (ip_cuid p) (ip_cgid p)
            (Z.lor (ip_mode p &~ S_IRWXUGO) (Z.land S_IRWXUGO (sb_mode setbuf))) (ip_seq p))
            (sb_qbytes setbuf) (mnow s) a);;
        expunge_all (q_receivers msq) (- EAGAIN);;
        ss_wakeup (q_senders msq) false;;
        mret 0
      else freeque msqid;; mret 0
  end.

(** [buf] tells that the pointer is not NULL, [setbuf] is what the copy from it
    leaves ([None]: it faults), [copy_ok] whether results can be copied out. *)
Definition sys_msgctl (msqid cmd : Z) (buf : bool) (setbuf : option msq_setbuf) (copy_ok : bool) :
    G (Z * msg_out) :=
  if ((msqid <? 0) || (cmd <? 0))%bool then mret (- EINVAL, MNone) else
  let cmd := cmd &~ 0x100 in (* ipc_parse_version *)
  if ((cmd =? IPC_INFO) || (cmd =? MSG_INFO))%bool then
    if negb buf then mret (- EFAULT, MNone) else
    s ← gets id_msg;
    let out := if cmd =? MSG_INFO then MInfo (in_use (msg_ids s)) (msg_hdrs s) (msg_bytes s)
               else MInfo MSGPOOL msg_ctlmnb msg_ctlmnb in
    if copy_ok then mret (if max_id (msg_ids s) <? 0 then 0 else max_id (msg_ids s), out)
    else mret (- EFAULT, MNone)
  else if ((cmd =? MSG_STAT) || (cmd =? IPC_STAT))%bool then
    if negb buf then mret (- EFAULT, MNone) else
    ids ← gets msg_ids;
    if ((cmd =? MSG_STAT) && (msqid >=? ids_size ids))%bool then mret (- EINVAL, MNone) else
    match ipc_lock ids msqid with
    | None => mret (- EINVAL, MNone)
    | Some msq =>
        if (negb (cmd =? MSG_STAT) && ipc_checkid msq msqid)%bool then mret (- EIDRM, MNone) else
        let success := if cmd =? MSG_STAT then ipc_buildid msqid (ip_seq (q_perm msq)) else 0 in
        denied ← mlift (ipcperms (q_perm msq) S_IRUGO);
        if negb (denied =? 0) then mret (- EACCES, MNone) else
        if copy_ok then mret (success, MStat msq) else mret (- EFAULT, MNone)
    end
  else if (cmd =? IPC_SET : bool) then
    if negb buf then mret (- EFAULT, MNone) else
    match setbuf with
    | None => mret (- EFAULT, MNone)
    | Some b => r ← msgctl_down msqid IPC_SET b; mret (r, MNone)
    end
  else if (cmd =? IPC_RMID : bool) then
    r ← msgctl_down msqid IPC_RMID (mk_msq_setbuf 0 0 0 0); mret (r, MNone)
  else mret (- EINVAL, MNone).

(** * msgsnd *)

(** [MsgBug] marks a [BUG()] or a NULL dereference. *)
Inductive msg_result :=
  | MsgRet (err : Z)
  | MsgGot (n type : Z) (text : list Z)
  | MsgSleep
  | MsgBug.

(** From the label [retry] on, with the queue locked. *)
Definition msgsnd_section (msqid msgsz msgflg : Z) (msg : msg_msg) : G msg_result :=
  l ← msg_lock msqid;
  match (l : option msg_queue) with
  | None => mret MsgBug
  | Some msq =>
      if ipc_checkid msq msqid then mret (MsgRet (- EIDRM)) else
      denied ← mlift (ipcperms (q_perm msq) S_IWUGO);
      if negb (denied =? 0) then mret (MsgRet (- EACCES)) else
      s ← gets id_msg;
      let me := current (mks s) in
      if ((u32 (msgsz + q_cbytes msq) >? q_qbytes msq) || (u32 (1 + q_qnum msq) >? q_qbytes msq))%bool then
        if msgflg & IPC_NOWAIT then mret (MsgRet (- EAGAIN)) else
        ss_add msqid me;;
        set_sleep me (InSend msqid msgsz msgflg msg);;
        mret MsgSleep
      else
        upd_msq msqid (set_q_sent (pid (cur (mks s))) (mnow s));;
        sent ← pipelined_send msqid msg;
        when (negb sent)
          (upd_msq msqid (λ a, set_q_content (q_messages a ++ [msg]) (u32 (q_cbytes a + msgsz))
                                 (u32 (q_qnum a + 1)) a);;
           add_counters msgsz 0;;
           add_counters 0 1);;
        mret (MsgRet 0)
  end.

(** [mtype] is the result of [get_user] ([None]: it faults), [src] the text in
    the caller's memory. *)
Definition sys_msgsnd (msqid msgsz : Z) (mtype : option Z) (src : list Z) (alloc_ok copy_ok : nat → bool)
    (msgflg : Z) : G msg_result :=
  if ((msgsz >? msg_ctlmax) || (s32 msgsz <? 0) || (msqid <? 0))%bool then mret (MsgRet (- EINVAL)) else
  match mtype with
  | None => mret (MsgRet (- EFAULT))
  | Some mtype =>
      if (mtype <? 1 : bool) then mret (MsgRet (- EINVAL)) else
      match load_msg alloc_ok copy_ok src msgsz with
      | inl e => mret (MsgRet e)
      | inr msg =>
          let msg := mk_msg mtype msgsz (m_data msg) (m_segs msg) in
          msq ← msg_lock msqid;
          match (msq : option msg_queue) with
          | None => mret (MsgRet (- EINVAL))
          | Some _ => msgsnd_section msqid msgsz msgflg msg
          end
      end
  end.

(** A sleeping sender is out of [schedule()]; [sig] is [signal_pending]. *)
Definition msgsnd_wakeup (sig : bool) : G msg_result :=
  me ← gets (λ s, current (mks s));
  sl ← gets (λ s, sleeping s me);
  match (sl : msg_sleep) with
  | InSend msqid msgsz msgflg msg =>
      set_sleep me Awake;;
      msq ← msg_lock msqid;
      match (msq : option msg_queue) with
      | None => mret (MsgRet (- EIDRM))
      | Some _ =>
          ss_del msqid me;;
          if (sig : bool) then mret (MsgRet (- EINTR)) else msgsnd_section msqid msgsz msgflg msg
      end
  | _ => mret MsgSleep
  end.

(** * msgrcv *)

(** From the label [out_success] on; [put_ok] tells whether the caller's memory
    can be written. *)
Definition out_success (msg : msg_msg) (msgsz : Z) (put_ok : bool) : msg_result :=
  let msgsz := if msgsz >? m_ts msg then m_ts msg else msgsz in
  match store_msg msg msgsz with
  | None => MsgBug
  | Some text => if put_ok then MsgGot msgsz (m_type msg) text else MsgRet (- EFAULT)
  end.

(** From the label [retry] on, with the queue locked. *)
Definition msgrcv_section (msqid msgsz msgtyp mode msgflg : Z) (put_ok : bool) : G msg_result :=
  l ← msg_lock msqid;
  match (l : option msg_queue) with
  | None => mret MsgBug
  | Some msq =>
      if ipc_checkid msq msqid then mret (MsgRet (- EIDRM)) else
      denied ← mlift (ipcperms (q_perm msq) S_IRUGO);
      if negb (denied =? 0) then mret (MsgRet (- EACCES)) else
      s ← gets id_msg;
      let me := current (mks s) in
      let (found, msgtyp) := find_loop (q_messages msq) 0 msgtyp mode None in
      match found ≫= (λ i, (i,.) <$> q_messages msq !! i) with
      | Some (i, msg) =>
          if ((msgsz <? m_ts msg) && negb (msgflg & MSG_NOERROR))%bool then mret (MsgRet (- E2BIG)) else
          upd_msq msqid (λ a, set_q_content (delete i (q_messages a)) (u32 (q_cbytes a - m_ts msg))
                                (u32 (q_qnum a - 1)) a);;
          upd_msq msqid (set_q_received (pid (cur (mks s))) (mnow s));;
          add_counters (- m_ts msg) 0;;
          add_counters 0 (-1);;
          ss_wakeup (q_senders msq) false;;
          mret (out_success msg msgsz put_ok)
      | None =>
          if msgflg & IPC_NOWAIT then mret (MsgRet (- ENOMSG)) else
          upd_msq msqid (λ a, set_q_receivers (q_receivers a ++ [me]) a);;
          modify (λ s, set_receivers (<[me := mk_receiver msgtyp mode
            (if msgflg & MSG_NOERROR then INT_MAX else msgsz) (inl (- EAGAIN))]> (receivers s)) s);;
          set_sleep me (InRecv msqid msgsz msgflg);;
          mret MsgSleep
      end
  end.

Definition sys_msgrcv (msqid msgsz msgtyp msgflg : Z) (put_ok : bool) : G msg_result :=
  if ((msqid <? 0) || (s32 msgsz <? 0))%bool then mret (MsgRet (- EINVAL)) else
  let (mode, msgtyp) := convert_mode msgtyp msgflg in
  msq ← msg_lock msqid;
  match (msq : option msg_queue) with
  | None => mret (MsgRet (- EINVAL))
  | Some _ => msgrcv_section msqid msgsz msgtyp mode msgflg put_ok
  end.

(** A sleeping receiver is out of [schedule()]; [sig] is [signal_pending]. *)
Definition msgrcv_wakeup (sig put_ok : bool) : G msg_result :=
  me ← gets (λ s, current (mks s));
  sl ← gets (λ s, sleeping s me);
  match (sl : msg_sleep) with
  | InRecv msqid msgsz msgflg =>
      set_sleep me Awake;;
      r ← gets (λ s, receivers s me);
      match r_msg r with
      | inr msg => mret (out_success msg msgsz put_ok)
      | inl err =>
          t ← msg_lock msqid;
          if (err =? - EAGAIN : bool) then
            match (t : option msg_queue) with
            | None => mret MsgBug
            | Some _ =>
                upd_msq msqid (λ a, set_q_receivers (filter (.≠ me) (q_receivers a)) a);;
                if (sig : bool) then mret (MsgRet (- EINTR))
                else msgrcv_section msqid msgsz (r_msgtype r) (r_mode r) msgflg put_ok
            end
          else mret (MsgRet err)
      end
  | _ => mret MsgSleep
  end.
