(* ===== verification/MsgInv.v ===== *)
(** Lemmas on messages: segmentation, the search for a message, and what the
    list walks change; then the invariant of the message queues and its
    preservation by every section. *)
From S2P Require Import Prelude UidHash Cred CredProofs CredRun Ipc IpcProofs Msg.
From stdpp Require Import list options.
#[local] Set Default Proof Using "Type*".
Open Scope cint_scope.
Open Scope Z_scope.

(** * Segments *)

Lemma take_split {A} (l : list A) n m : take n l ++ take m (drop n l) = take (n + m) l.
Proof.
  revert l. induction n as [|n IH]; intros [|x l]; simpl; [done..| |by rewrite IH]. by rewrite take_nil.
Qed.

Lemma load_store_segs fuel k alloc_ok copy_ok src len segs fuel' n :
  load_segs fuel k alloc_ok copy_ok src len = inr segs →
  len <= Z.of_nat (length src) → len <= Z.of_nat fuel → n <= len → n <= Z.of_nat fuel' →
  store_segs fuel' segs n = Some (take (Z.to_nat n) src).
Proof.
  revert k src len segs fuel' n. induction fuel as [|fuel IH]; intros k src len segs fuel' n Hl Hsrc Hf Hn Hf'.
  { assert (store_segs fuel' segs n = Some []) as ->.
    { destruct fuel'; cbn [store_segs]; rewrite Z.gtb_ltb, (proj2 (Z.ltb_ge 0 n)) by lia; done. }
    by replace (Z.to_nat n) with 0%nat by lia. }
  cbn [load_segs] in Hl. destruct (Z.gtb_spec len 0) as [Hp|Hp].
  2:{ assert (store_segs fuel' segs n = Some []) as ->.
      { destruct fuel'; cbn [store_segs]; rewrite Z.gtb_ltb, (proj2 (Z.ltb_ge 0 n)) by lia; done. }
      by replace (Z.to_nat n) with 0%nat by lia. }
  set (alen := if len >? DATALEN_SEG then DATALEN_SEG else len) in *.
  assert (0 < alen <= len ∧ alen <= DATALEN_SEG ∧ (alen < len → alen = DATALEN_SEG)) as (Ha & Ha2 & Ha3).
  { subst alen. unfold DATALEN_SEG. destruct (Z.gtb_spec len (4096 - 4)); lia. }
  destruct (negb (alloc_ok k)); [done|]. destruct (negb (copy_ok k)); [done|].
  destruct (load_segs fuel (S k) _ _ _ _) as [e|segs0] eqn:Hrest; [done|]. injection Hl as <-.
  destruct (Z.gtb_spec n 0) as [Hn0|Hn0].
  2:{ assert (store_segs fuel' (take (Z.to_nat alen) src :: segs0) n = Some []) as ->.
      { destruct fuel'; cbn [store_segs]; rewrite Z.gtb_ltb, (proj2 (Z.ltb_ge 0 n)) by lia; done. }
      by replace (Z.to_nat n) with 0%nat by lia. }
  destruct fuel' as [|fuel']; [lia|]. cbn [store_segs]. rewrite Z.gtb_ltb, (proj2 (Z.ltb_lt 0 n)) by lia.
  set (blen := if n >? DATALEN_SEG then DATALEN_SEG else n).
  assert (0 < blen <= n ∧ blen <= alen ∧ (blen < n → blen = alen)) as (Hb & Hb2 & Hb3).
  { subst blen. unfold DATALEN_SEG in *. destruct (Z.gtb_spec n (4096 - 4)); lia. }
  rewrite length_take, Z.gtb_ltb, (proj2 (Z.ltb_ge _ _)) by lia.
  specialize (IH (S k) (drop (Z.to_nat alen) src) (len - alen) segs0 fuel' (n - blen) Hrest).
  rewrite length_drop in IH. rewrite IH by lia. simpl. f_equal.
  rewrite take_take, Nat.min_l by lia. destruct (decide (blen = n)) as [->|Hne].
  { by rewrite Z.sub_diag, app_nil_r. }
  rewrite Hb3 by lia. rewrite take_split. f_equal. lia.
Qed.

Lemma load_segs_error fuel k alloc_ok copy_ok src len e :
  load_segs fuel k alloc_ok copy_ok src len = inl e → e = - ENOMEM ∨ e = - EFAULT.
Proof.
  revert k src len. induction fuel as [|fuel IH]; intros k src len; cbn [load_segs]; [by destruct (_ >? _)|].
  destruct (_ >? _); [|done]. destruct (negb (alloc_ok k)); [intros [= <-]; by left|].
  destruct (negb (copy_ok k)); [intros [= <-]; by right|].
  destruct (load_segs fuel _ _ _ _ _) eqn:E; [|done]. intros [= <-]. by eapply IH.
Qed.

Lemma load_msg_error alloc_ok copy_ok src len : load_msg alloc_ok copy_ok src len ≠ inl 0.
Proof.
  unfold load_msg. cbv zeta. destruct (negb (alloc_ok 0%nat)); [done|]. destruct (negb (copy_ok 0%nat)); [done|].
  destruct (load_segs _ _ _ _ _ _) eqn:E; [|done]. by apply load_segs_error in E as [->| ->].
Qed.

(** What [load_msg] read, [store_msg] gives back, in full or in part. *)
Lemma load_store_msg alloc_ok copy_ok src len msg n :
  load_msg alloc_ok copy_ok src len = inr msg → 0 <= len <= Z.of_nat (length src) → 0 <= n <= len →
  store_msg msg n = Some (take (Z.to_nat n) src).
Proof.
  intros Hl Hlen Hn. unfold load_msg in Hl. cbv zeta in Hl.
  set (alen := if len >? DATALEN_MSG then DATALEN_MSG else len) in *.
  assert (0 <= alen <= len ∧ (alen < len → alen = DATALEN_MSG) ∧ alen <= DATALEN_MSG) as (Ha & Ha2 & Ha3).
  { subst alen. unfold DATALEN_MSG. destruct (Z.gtb_spec len (4096 - 20)); lia. }
  destruct (negb (alloc_ok 0%nat)); [done|]. destruct (negb (copy_ok 0%nat)); [done|].
  destruct (load_segs (Z.to_nat len) 1 _ _ _ _) as [e|segs] eqn:Hs; [done|]. injection Hl as <-.
  unfold store_msg. cbv zeta. cbn [m_data m_segs].
  set (blen := if n >? DATALEN_MSG then DATALEN_MSG else n).
  assert (0 <= blen <= n ∧ blen <= alen ∧ (blen < n → blen = alen)) as (Hb & Hb2 & Hb3).
  { subst blen. unfold DATALEN_MSG in *. destruct (Z.gtb_spec n (4096 - 20)); lia. }
  rewrite length_take, Z.gtb_ltb, (proj2 (Z.ltb_ge _ _)) by lia.
  rewrite (load_store_segs _ _ _ _ _ _ _ (Z.to_nat n) (n - blen) Hs) by (rewrite ?length_drop; lia).
  simpl. f_equal. rewrite take_take, Nat.min_l by lia. destruct (decide (blen = n)) as [->|Hne].
  { by rewrite Z.sub_diag, app_nil_r. }
  rewrite Hb3 by lia. rewrite take_split. f_equal. lia.
Qed.

(** * The search *)

(** The best match of [l] from position [i] on: [found_msg] as the loop should
    leave it, for the modes that stop at the first match and for the one that
    looks for the least type. *)
Definition best (P : msg_msg → Prop) (least : bool) (l : list msg_msg) (r : option nat) : Prop :=
  match r with
  | None => ∀ j m, l !! j = Some m → ¬ P m
  | Some i => ∃ m, l !! i = Some m ∧ P m ∧
      ∀ j m', l !! j = Some m' → P m' →
        if least then m_type m <= m_type m' ∧ ((j < i)%nat → m_type m < m_type m') else (i <= j)%nat
  end.

Lemma find_first l n typ mode found :
  mode ≠ SEARCH_LESSEQUAL →
  let (r, typ') := find_loop l n typ mode found in
  match r with
  | Some i => (∃ k, i = (n + k)%nat ∧ best (λ m, testmsg m typ mode = true) false l (Some k)) ∨
              (found = Some i ∧ best (λ m, testmsg m typ mode = true) false l None)
  | None => found = None ∧ best (λ m, testmsg m typ mode = true) false l None
  end ∧ typ' = typ.
Proof.
  intros Hm. revert n. induction l as [|x l IH]; intros n; cbn [find_loop].
  { destruct found; (split; [|done]); [right|]; by split. }
  destruct (testmsg x typ mode) eqn:Hx.
  - rewrite (proj2 (Z.eqb_neq mode SEARCH_LESSEQUAL) Hm). cbn [andb]. split; [|done]. left. exists 0%nat.
    split; [lia|]. exists x. split_and!; [done|done|]. intros. lia.
  - specialize (IH (S n)). destruct (find_loop l (S n) typ mode found) as [[i|] typ'];
      destruct IH as [IH ->]; (split; [|done]).
    + destruct IH as [(k & -> & m & Hk & Hmk & Hbest)|[-> Hno]].
      * left. exists (S k). split; [lia|]. exists m. split_and!; [done|done|].
        intros [|j] m' Hj Hm'; simpl in Hj; [simplify_eq; congruence|]. specialize (Hbest j m' Hj Hm'). lia.
      * right. split; [done|]. intros [|j] m Hj; simpl in Hj; [simplify_eq; congruence|by eapply Hno].
    + destruct IH as [-> Hno]. split; [done|].
      intros [|j] m Hj; simpl in Hj; [simplify_eq; congruence|by eapply Hno].
Qed.

(** The loop for the least type: the bound goes down to below the best match so
    far. *)
Lemma find_least l n typ found :
  Forall (λ m, 1 <= m_type m) l →
  let (r, typ') := find_loop l n typ SEARCH_LESSEQUAL found in
  match r with
  | Some i => (∃ k, i = (n + k)%nat ∧ best (λ m, m_type m <= typ) true l (Some k)) ∨
              (found = Some i ∧ best (λ m, m_type m <= typ) true l None)
  | None => found = None ∧ best (λ m, m_type m <= typ) true l None ∧ typ' = typ
  end.
Proof.
  revert n typ found. induction l as [|x l IH]; intros n typ found Hl; cbn [find_loop].
  { destruct found; [right|]; by split_and!. }
  apply Forall_cons in Hl as [Hx1 Hl].
  change (testmsg x typ SEARCH_LESSEQUAL) with (m_type x <=? typ).
  destruct (Z.leb_spec (m_type x) typ) as [Hx|Hx].
  - rewrite Z.eqb_refl. cbn [andb]. destruct (Z.eqb_spec (m_type x) 1) as [H1|H1]; cbn [negb].
    + left. exists 0%nat. split; [lia|]. exists x. split_and!; [done|done|].
      intros j m' Hj Hm'. rewrite H1. split; [|lia].
      eapply (Forall_lookup_1 (λ m, 1 <= m_type m) (x :: l)); [by constructor|done].
    + specialize (IH (S n) (m_type x - 1) (Some n) Hl).
      destruct (find_loop l (S n) (m_type x - 1) SEARCH_LESSEQUAL (Some n)) as [[i|] typ'];
        [|by destruct IH].
      left. destruct IH as [(k & -> & m & Hk & Hmk & Hbest)|[[= ->] Hno]].
      * exists (S k). split; [lia|]. exists m. split_and!; [done|lia|].
        intros [|j] m' Hj Hm'; simpl in Hj; [simplify_eq; lia|].
        destruct (decide (m_type m' <= m_type x - 1)) as [Hle|Hgt]; [|lia].
        destruct (Hbest j m' Hj Hle) as [? ?]. split; [done|]. intros. lia.
      * exists 0%nat. split; [lia|]. exists x. split_and!; [done|done|].
        intros [|j] m' Hj Hm'; simpl in Hj; [simplify_eq; lia|]. specialize (Hno j m' Hj). simpl in Hno. lia.
  - specialize (IH (S n) typ found Hl).
    destruct (find_loop l (S n) typ SEARCH_LESSEQUAL found) as [[i|] typ'].
    + destruct IH as [(k & -> & m & Hk & Hmk & Hbest)|[-> Hno]].
      * left. exists (S k). split; [lia|]. exists m. split_and!; [done|done|].
        intros [|j] m' Hj Hm'; simpl in Hj; [simplify_eq; lia|]. destruct (Hbest j m' Hj Hm'). split; [done|]. lia.
      * right. split; [done|]. intros [|j] m' Hj; simpl in Hj; [simplify_eq; lia|by eapply Hno].
    + destruct IH as (-> & Hno & ->). split_and!; [done| |done].
      intros [|j] m' Hj; simpl in Hj; [simplify_eq; lia|by eapply Hno].
Qed.

(** What [msgtyp] and [MSG_EXCEPT] ask for. *)
Definition wanted (msgtyp msgflg : Z) (m : msg_msg) : Prop :=
  if msgtyp =? 0 then True
  else if msgtyp <? 0 then m_type m <= - msgtyp
  else if msgflg & MSG_EXCEPT then m_type m ≠ msgtyp else m_type m = msgtyp.

Lemma best_iff (P Q : msg_msg → Prop) least l r : (∀ m, P m ↔ Q m) → best P least l r → best Q least l r.
Proof. intros HPQ. destruct r as [i|]; simpl; setoid_rewrite HPQ; done. Qed.

Lemma convert_wanted msgtyp msgflg :
  LONG_MIN < msgtyp < 2 ^ 31 →
  let (mode, typ) := convert_mode msgtyp msgflg in
  (mode =? SEARCH_LESSEQUAL) = (msgtyp <? 0) ∧ ∀ m, testmsg m typ mode = true ↔ wanted msgtyp msgflg m.
Proof.
  intros Hmin. unfold convert_mode, wanted, LONG_MIN in *.
  destruct (Z.eqb_spec msgtyp 0) as [->|H0]; [done|]. destruct (Z.ltb_spec msgtyp 0) as [Hneg|Hpos].
  - assert (s32 (- msgtyp) = - msgtyp) as -> by (apply s32_small; lia).
    split; [done|]. intros m. apply Z.leb_le.
  - destruct (msgflg & MSG_EXCEPT); (split; [done|]); intros m.
    + change (testmsg m msgtyp SEARCH_NOTEQUAL) with (negb (m_type m =? msgtyp)).
      rewrite negb_true_iff. apply Z.eqb_neq.
    + apply Z.eqb_eq.
Qed.

Lemma find_wanted l msgtyp msgflg :
  LONG_MIN < msgtyp < 2 ^ 31 → Forall (λ m, 1 <= m_type m) l →
  let (mode, typ) := convert_mode msgtyp msgflg in
  let (r, typ') := find_loop l 0 typ mode None in
  best (wanted msgtyp msgflg) (msgtyp <? 0) l r ∧ (r = None → typ' = typ).
Proof.
  intros Hmin Hl. pose proof (convert_wanted msgtyp msgflg Hmin) as Hw.
  destruct (convert_mode msgtyp msgflg) as [mode typ]. destruct Hw as [Hm Hw].
  destruct (Z.eqb_spec mode SEARCH_LESSEQUAL) as [->|Hne]; rewrite <-Hm.
  - pose proof (find_least l 0 typ None Hl) as Hf. assert (∀ m, m_type m <= typ ↔ wanted msgtyp msgflg m) as Hw'.
    { intros m. rewrite <-Hw. symmetry. apply Z.leb_le. }
    destruct (find_loop l 0 typ SEARCH_LESSEQUAL None) as [[i|] typ'].
    + split; [|done]. destruct Hf as [(k & -> & Hk)|[? _]]; [|done]. by apply (best_iff _ _ _ _ _ Hw') in Hk.
    + destruct Hf as (_ & Hf & ->). split; [|done]. by apply (best_iff _ _ _ _ _ Hw') in Hf.
  - pose proof (find_first l 0 typ mode None Hne) as Hf.
    destruct (find_loop l 0 typ mode None) as [r typ']; destruct Hf as [Hf ->]; split; [|done].
    destruct r as [i|]; [destruct Hf as [(k & -> & Hk)|[? _]]; [|done]|destruct Hf as [_ Hk]];
      by apply (best_iff _ _ _ _ _ Hw) in Hk.
Qed.

(** * Single steps *)

Lemma mlift_bind {A B} (m : K A) (f : A → G B) s :
  (mlift m ≫= f) s = f (m (mks s)).1 (set_mks (m (mks s)).2 s).
Proof. unfold mbind, ST_bind, mlift. by destruct (m (mks s)). Qed.

Lemma upd_msq_run msqid f a s :
  ipc_get (msg_ids s) msqid = Some a →
  upd_msq msqid f s = (tt, set_msg_ids (ipc_store msqid (f a) (msg_ids s)) s).
Proof. intros Ha. unfold upd_msq, modify. by rewrite Ha. Qed.

(** Waking senders leaves everything but the wake-ups and the links alone. *)
Lemma ss_wakeup_run l kill s :
  ∃ linked, ss_wakeup l kill s = (tt, set_ss_linked linked (set_mwoken (mwoken s ++ l) s)) ∧
    (kill = false → linked = ss_linked s).
Proof.
  revert s. induction l as [|t l IH]; intros s; cbn [ss_wakeup].
  { exists (ss_linked s). rewrite app_nil_r. by destruct s. }
  unfold mbind, ST_bind. destruct s, kill; unfold when, mwake_up_process, modify, skip; cbn -[ss_wakeup insert];
    match goal with |- context [ss_wakeup l _ ?x] => destruct (IH x) as (k & -> & Hk) end;
    exists k; cbn; rewrite <-app_assoc; (split; [done|]); [done|]. intros _. exact (Hk eq_refl).
Qed.

(** The invariant of the message queues and its preservation by every section
    of msgget, msgsnd, msgrcv and msgctl. *)

(** * The invariant *)

(** A message with its whole text. *)
Definition msg_ok (m : msg_msg) : Prop :=
  1 <= m_type m ∧ 0 <= m_ts m ∧ ∀ n, 0 <= n <= m_ts m → ∃ text, store_msg m n = Some text.

Definition asleep_in (x : msg_sleep) (i : Z) : Prop :=
  match x with InRecv msqid _ _ => 0 <= msqid ∧ lid_of msqid = i | _ => False end.

(** A queue in entry [i]: its counters count its messages; its receivers are
    asleep in it, have got nothing yet, and accept none of its messages. *)
Record queue_ok (rcv : nat → msg_receiver) (slp : nat → msg_sleep) (i : Z) (a : msg_queue) : Prop := {
  qo_cbytes : q_cbytes a = u32 (zsum m_ts (q_messages a));
  qo_qnum : q_qnum a = u32 (Z.of_nat (length (q_messages a)));
  qo_msgs : Forall msg_ok (q_messages a);
  qo_nodup : NoDup (q_receivers a);
  qo_asleep t : t ∈ q_receivers a → asleep_in (slp t) i;
  qo_empty t : t ∈ q_receivers a → r_msg (rcv t) = inl (- EAGAIN);
  qo_stuck t m : t ∈ q_receivers a → m ∈ q_messages a → testmsg m (r_msgtype (rcv t)) (r_mode (rcv t)) = false
}.

(** The table and the sleepers: a receiver that has got nothing is on the list
    of its queue, and all messages under way are whole. *)
Record msg_core (ids : ipc_ids msg_queue) (rcv : nat → msg_receiver) (slp : nat → msg_sleep) : Prop := {
  mc_ids : ids_ok ids;
  mc_queue i a : holds ids i a → queue_ok rcv slp i a;
  mc_recv t msqid n f : slp t = InRecv msqid n f →
    0 <= msqid ∧ 0 <= n ∧ (r_msg (rcv t) = inl (- EAGAIN) → ∃ a, holds ids (lid_of msqid) a ∧ t ∈ q_receivers a) ∧
    ∀ m, r_msg (rcv t) = inr m → msg_ok m;
  mc_send t msqid n f m : slp t = InSend msqid n f m → 0 <= msqid ∧ msg_ok m ∧ m_ts m = n
}.

Definition cbytes_of (o : option msg_queue) : Z := from_option q_cbytes 0 o.
Definition hdrs_of (o : option msg_queue) : Z := from_option (λ a, Z.of_nat (length (q_messages a))) 0 o.

Record msg_inv (s : msg_state) : Prop := {
  mi_core : msg_core (msg_ids s) (receivers s) (sleeping s);
  mi_bytes : msg_bytes s = s32 (zsum cbytes_of (entries (msg_ids s)));
  mi_hdrs : msg_hdrs s = s32 (zsum hdrs_of (entries (msg_ids s)))
}.

(** * Stores to a queue *)

Lemma upd_msq_spec msqid f a s :
  ids_ok (msg_ids s) → ipc_get (msg_ids s) msqid = Some a → ip_seq (q_perm (f a)) = ip_seq (q_perm a) →
  ∃ ids, (upd_msq msqid f s).2 = set_msg_ids ids s ∧ ids_ok ids ∧ ipc_get ids msqid = Some (f a) ∧
    (∀ i q, holds ids i q ↔ if decide (i = slot msqid) then q = f a else holds (msg_ids s) i q) ∧
    (∀ g, zsum g (entries ids) = zsum g (entries (msg_ids s)) + g (Some (f a)) - g (Some a)).
Proof.
  intros Hok Hg Hseq. apply get_slot in Hg as Ha. unfold upd_msq. cbn [modify snd]. rewrite Hg.
  destruct (store_spec msqid (f a) a (msg_ids s) Hok Ha Hseq) as [Hok' Hh].
  exists (ipc_store msqid (f a) (msg_ids s)). split_and!; [done|done| |done|].
  - by eapply get_store.
  - intros g. cbn [ipc_store entries]. apply zsum_insert. pose proof (proj2 Ha) as He.
    unfold slot in He. by rewrite Nat2Z.id in He.
Qed.

(** The invariant after a store, with new receivers and sleepers: the new queue
    is well formed, the tasks queued elsewhere are untouched, and so on. *)
Lemma core_store ids rcv slp ids' rcv' slp' i a a' :
  msg_core ids rcv slp → holds ids i a → ids_ok ids' →
  (∀ j q, holds ids' j q ↔ if decide (j = i) then q = a' else holds ids j q) →
  queue_ok rcv' slp' i a' →
  (∀ j q t, j ≠ i → holds ids j q → t ∈ q_receivers q → rcv' t = rcv t ∧ slp' t = slp t) →
  (∀ t msqid n f, slp' t = InRecv msqid n f →
    slp t = InRecv msqid n f ∧ rcv' t = rcv t ∧ (t ∈ q_receivers a → t ∈ q_receivers a') ∨
    0 <= msqid ∧ 0 <= n ∧ (r_msg (rcv' t) = inl (- EAGAIN) → lid_of msqid = i ∧ t ∈ q_receivers a') ∧
      ∀ m, r_msg (rcv' t) = inr m → msg_ok m) →
  (∀ t msqid n f m, slp' t = InSend msqid n f m →
    slp t = InSend msqid n f m ∨ 0 <= msqid ∧ msg_ok m ∧ m_ts m = n) →
  msg_core ids' rcv' slp'.
Proof.
  intros [H1 H2 H3 H4] Ha Hok Hh Hq Hother Hrecv Hsend. split.
  - done.
  - intros j q Hj%Hh. destruct (decide (j = i)) as [->|Hne]; [by subst|].
    destruct (H2 j q Hj) as [A B C D E F G]. split; try done; intros t; [intros Ht..|intros m Ht];
      destruct (Hother j q t Hne Hj Ht) as [E1 E2]; rewrite ?E1, ?E2; auto.
  - intros t msqid n f Ht. destruct (Hrecv t msqid n f Ht) as [(Hs & -> & Hin)|(? & ? & Hin & ?)].
    + destruct (H3 t msqid n f Hs) as (? & ? & Hex & ?). split_and!; try done. intros Hr.
      destruct (Hex Hr) as (q & Hq' & Htq). destruct (decide (lid_of msqid = i)) as [<-|Hne].
      * exists a'. split; [apply Hh; by rewrite decide_True|]. apply Hin. by rewrite (holds_inj _ _ _ _ Ha Hq').
      * exists q. split; [apply Hh; by rewrite decide_False|done].
    + split_and!; try done. intros Hr. destruct (Hin Hr) as [<- Hta]. exists a'.
      split; [apply Hh; by rewrite decide_True|done].
  - intros t msqid n f m Ht. destruct (Hsend t msqid n f m Ht) as [Hs|?]; [by eapply H4|done].
Qed.

(** A task on a list is asleep in the entry of the list. *)
Lemma queued_asleep ids rcv slp i a t :
  msg_core ids rcv slp → holds ids i a → t ∈ q_receivers a → asleep_in (slp t) i.
Proof. intros Hc Ha. by eapply qo_asleep, mc_queue. Qed.

Lemma asleep_inj x i j : asleep_in x i → asleep_in x j → i = j.
Proof. destruct x; simpl; try done. intros [_ <-] [_ <-]. done. Qed.

(** An update that leaves receivers and messages alone. *)
Lemma queue_ok_same rcv slp i a a' :
  q_cbytes a' = q_cbytes a → q_qnum a' = q_qnum a → q_messages a' = q_messages a →
  q_receivers a' = q_receivers a → queue_ok rcv slp i a → queue_ok rcv slp i a'.
Proof. intros E1 E2 E3 E4 []. split; rewrite ?E1, ?E2, ?E3, ?E4; done. Qed.

Lemma inv_upd_same msqid f s :
  (∀ a, q_cbytes (f a) = q_cbytes a ∧ q_qnum (f a) = q_qnum a ∧ q_messages (f a) = q_messages a ∧
        q_receivers (f a) = q_receivers a ∧ ip_seq (q_perm (f a)) = ip_seq (q_perm a)) →
  msg_inv s → msg_inv (upd_msq msqid f s).2.
Proof.
  intros Hf [Hc Hb Hh]. destruct (ipc_get (msg_ids s) msqid) as [a|] eqn:Hg.
  2:{ unfold upd_msq. cbn [modify snd]. by rewrite Hg. }
  destruct (Hf a) as (E1 & E2 & E3 & E4 & E5).
  destruct (upd_msq_spec msqid f a s (mc_ids _ _ _ Hc) Hg E5) as (ids & -> & Hok & _ & Hholds & Hsum).
  pose proof (get_slot _ _ _ Hg) as Ha. split; cbn [msg_ids receivers sleeping set_msg_ids msg_bytes msg_hdrs].
  - eapply core_store; [exact Hc|exact Ha|done|exact Hholds| |done| |].
    + eapply queue_ok_same; [done..|]. by eapply mc_queue.
    + intros t m n g Ht. left. by rewrite E4.
    + intros t m n g x Ht. by left.
  - rewrite Hb, (Hsum cbytes_of). simpl. f_equal. lia.
  - rewrite Hh, (Hsum hdrs_of). simpl. rewrite E3. f_equal. lia.
Qed.

(** * Receivers leave and join *)

Definition with_r_msg (x : Z + msg_msg) (r : msg_receiver) : msg_receiver :=
  mk_receiver (r_msgtype r) (r_mode r) (r_maxsize r) x.

(** A receiver gets a message or an error and leaves the list. *)
Lemma core_hand_over ids rcv slp msqid a ids' t x :
  msg_core ids rcv slp → ipc_get ids msqid = Some a → t ∈ q_receivers a →
  x ≠ inl (- EAGAIN) → (∀ m, x = inr m → msg_ok m) → ids_ok ids' →
  (∀ j q, holds ids' j q ↔ if decide (j = slot msqid) then q = set_q_receivers (filter (.≠ t) (q_receivers a)) a
                           else holds ids j q) →
  msg_core ids' (<[t := with_r_msg x (rcv t)]> rcv) slp.
Proof.
  intros Hc Ha%get_slot Ht Hx Hm Hok Hh. pose proof (queued_asleep _ _ _ _ _ _ Hc Ha Ht) as Hsl.
  eapply core_store; [exact Hc|exact Ha|done|exact Hh|..].
  - destruct (mc_queue _ _ _ Hc _ _ Ha) as [A B C D E F G]. split; try done; cbn [set_q_receivers q_receivers q_messages].
    + by apply NoDup_filter.
    + intros u [_ Hu]%list_elem_of_filter. auto.
    + intros u [Hne Hu]%list_elem_of_filter. rewrite fn_lookup_insert_ne by done. auto.
    + intros u m [Hne Hu]%list_elem_of_filter Hmq. rewrite fn_lookup_insert_ne by done. auto.
  - intros j q u Hne Hj Hu. split; [|done]. apply fn_lookup_insert_ne. intros ->. apply Hne.
    eapply asleep_inj; [by eapply queued_asleep|done].
  - intros u msqid' n f Hu. destruct (decide (u = t)) as [->|Hne].
    + right. destruct (mc_recv _ _ _ Hc _ _ _ _ Hu) as (? & ? & _). rewrite fn_lookup_insert. by split_and!.
    + left. rewrite fn_lookup_insert_ne by done. split_and!; [done..|]. intros Hua. by apply list_elem_of_filter.
  - auto.
Qed.

(** An awake task joins the list: it accepts none of the messages. *)
Lemma core_join ids rcv slp msqid n f a ids' t r :
  msg_core ids rcv slp → ipc_get ids msqid = Some a → 0 <= msqid → 0 <= n → slp t = Awake →
  r_msg r = inl (- EAGAIN) → (∀ m, m ∈ q_messages a → testmsg m (r_msgtype r) (r_mode r) = false) → ids_ok ids' →
  (∀ j q, holds ids' j q ↔ if decide (j = slot msqid) then q = set_q_receivers (q_receivers a ++ [t]) a
                           else holds ids j q) →
  msg_core ids' (<[t := r]> rcv) (<[t := InRecv msqid n f]> slp).
Proof.
  intros Hc Ha%get_slot Hid Hn Ht Hr Htest Hok Hh.
  assert (∀ j q, holds ids j q → t ∉ q_receivers q) as Hno.
  { intros j q Hj Hin. pose proof (queued_asleep _ _ _ _ _ _ Hc Hj Hin) as Hs. by rewrite Ht in Hs. }
  eapply core_store; [exact Hc|exact Ha|done|exact Hh|..].
  - destruct (mc_queue _ _ _ Hc _ _ Ha) as [A B C D E F G]. specialize (Hno _ _ Ha).
    assert (∀ u, u ∈ q_receivers a → t ≠ u) as Hne by (intros u Hu ->; done).
    split; try done; cbn [set_q_receivers q_receivers q_messages].
    + apply NoDup_app. split_and!; [done| |apply NoDup_singleton]. intros u Hu ->%list_elem_of_singleton. done.
    + intros u [Hu| ->%list_elem_of_singleton]%elem_of_app; [rewrite fn_lookup_insert_ne; auto|].
      rewrite fn_lookup_insert. split; [done|]. by rewrite slot_lid.
    + intros u [Hu| ->%list_elem_of_singleton]%elem_of_app; [rewrite fn_lookup_insert_ne; auto|].
      by rewrite fn_lookup_insert.
    + intros u m [Hu| ->%list_elem_of_singleton]%elem_of_app Hm; [rewrite fn_lookup_insert_ne; auto|].
      rewrite fn_lookup_insert. auto.
  - intros j q u Hne Hj Hu. assert (u ≠ t) by (intros ->; by eapply Hno). by rewrite !fn_lookup_insert_ne.
  - intros u msqid' n' f' Hu. destruct (decide (u = t)) as [->|Hne].
    + right. rewrite fn_lookup_insert in Hu. injection Hu as <- <- <-. rewrite fn_lookup_insert, slot_lid, Hr by done.
      split_and!; [done..| |done]. intros _. split; [done|]. set_solver.
    + left. rewrite fn_lookup_insert_ne in Hu by done. rewrite fn_lookup_insert_ne by done. split_and!; [done..|set_solver].
  - intros u msqid' n' f' m Hu. destruct (decide (u = t)) as [->|Hne]; [by rewrite fn_lookup_insert in Hu|].
    left. by rewrite fn_lookup_insert_ne in Hu.
Qed.

(** A receiver wakes up and takes itself off the list. *)
Lemma core_leave ids rcv slp msqid a ids' t :
  msg_core ids rcv slp → ipc_get ids msqid = Some a → asleep_in (slp t) (slot msqid) → ids_ok ids' →
  (∀ j q, holds ids' j q ↔ if decide (j = slot msqid) then q = set_q_receivers (filter (.≠ t) (q_receivers a)) a
                           else holds ids j q) →
  msg_core ids' rcv (<[t := Awake]> slp).
Proof.
  intros Hc Ha%get_slot Hsl Hok Hh. eapply core_store; [exact Hc|exact Ha|done|exact Hh|..].
  - destruct (mc_queue _ _ _ Hc _ _ Ha) as [A B C D E F G]. split; try done; cbn [set_q_receivers q_receivers q_messages].
    + by apply NoDup_filter.
    + intros u [Hne Hu]%list_elem_of_filter. rewrite fn_lookup_insert_ne by done. auto.
    + intros u [Hne Hu]%list_elem_of_filter. auto.
    + intros u m [Hne Hu]%list_elem_of_filter. auto.
  - intros j q u Hne Hj Hu. split; [done|]. apply fn_lookup_insert_ne. intros ->. apply Hne.
    eapply asleep_inj; [by eapply queued_asleep|done].
  - intros u msqid' n f Hu. left. destruct (decide (u = t)) as [->|Hne]; [by rewrite fn_lookup_insert in Hu|].
    rewrite fn_lookup_insert_ne in Hu by done. split_and!; [done..|]. intros Hua. by apply list_elem_of_filter.
  - intros u msqid' n f m Hu. left. destruct (decide (u = t)) as [->|Hne]; [by rewrite fn_lookup_insert in Hu|].
    by rewrite fn_lookup_insert_ne in Hu.
Qed.

(** A task that is on no list goes to sleep in msgsnd or wakes up. *)
Lemma core_sleep ids rcv slp t x :
  msg_core ids rcv slp → (∀ i a, holds ids i a → t ∉ q_receivers a) →
  match x with
  | Awake => True
  | InSend msqid n _ m => 0 <= msqid ∧ msg_ok m ∧ m_ts m = n
  | InRecv _ _ _ => False
  end → msg_core ids rcv (<[t := x]> slp).
Proof.
  intros [H1 H2 H3 H4] Hno Hx. split; [done|..].
  - intros i a Ha. destruct (H2 _ _ Ha) as [A B C D E F G]. split; try done. intros u Hu.
    rewrite fn_lookup_insert_ne; [auto|]. intros <-. by eapply Hno.
  - intros u msqid n f Hu. destruct (decide (u = t)) as [->|Hne]; [rewrite fn_lookup_insert in Hu; by subst|].
    rewrite fn_lookup_insert_ne in Hu by done. eauto.
  - intros u msqid n f m Hu. destruct (decide (u = t)) as [->|Hne]; [rewrite fn_lookup_insert in Hu; by subst|].
    rewrite fn_lookup_insert_ne in Hu by done. eauto.
Qed.

Lemma awake_unqueued ids rcv slp t i a :
  msg_core ids rcv slp → (∀ msqid n f, slp t ≠ InRecv msqid n f) → holds ids i a → t ∉ q_receivers a.
Proof.
  intros Hc Ht Ha Hin. pose proof (queued_asleep _ _ _ _ _ _ Hc Ha Hin) as Hs.
  destruct (slp t) as [| |msqid n f] eqn:E; [done..|]. by destruct (Ht msqid n f).
Qed.

(** A task that got a message or an error is on no list. *)
Lemma served_unqueued ids rcv slp t i a :
  msg_core ids rcv slp → r_msg (rcv t) ≠ inl (- EAGAIN) → holds ids i a → t ∉ q_receivers a.
Proof. intros Hc Ht Ha Hin. apply Ht. by eapply qo_empty; [eapply mc_queue|]. Qed.

(** * Messages come and go *)

Lemma core_content ids rcv slp msqid a ids' l cbytes qnum :
  msg_core ids rcv slp → ipc_get ids msqid = Some a → ids_ok ids' →
  (∀ j q, holds ids' j q ↔ if decide (j = slot msqid) then q = set_q_content l cbytes qnum a else holds ids j q) →
  cbytes = u32 (zsum m_ts l) → qnum = u32 (Z.of_nat (length l)) → Forall msg_ok l →
  (∀ t m, t ∈ q_receivers a → m ∈ l → testmsg m (r_msgtype (rcv t)) (r_mode (rcv t)) = false) →
  msg_core ids' rcv slp.
Proof.
  intros Hc Ha%get_slot Hok Hh Hb Hn Hl Htest. eapply core_store; [exact Hc|exact Ha|done|exact Hh|..].
  - destruct (mc_queue _ _ _ Hc _ _ Ha). by split.
  - done.
  - by left.
  - by left.
Qed.

Lemma zsum_delete {A} (f : A → Z) l i x : l !! i = Some x → zsum f (delete i l) = zsum f l - f x.
Proof. revert i. induction l as [|y l IH]; intros [|i] Hi; simplify_eq/=; [lia|]. rewrite IH by done. lia. Qed.

Lemma s32_swap_u32 a b c : s32 (a + u32 (b + c) - u32 b) = s32 (a + c).
Proof.
  unfold s32, u32. f_equal. replace (a + c + 2 ^ 31) with (a + 2 ^ 31 + (b + c) - b) by lia.
  rewrite (Zminus_mod (a + 2 ^ 31 + (b + c)) b), (Zplus_mod (a + 2 ^ 31)).
  replace (a + (b + c) mod 2 ^ 32 - b mod 2 ^ 32 + 2 ^ 31) with (a + 2 ^ 31 + (b + c) mod 2 ^ 32 - b mod 2 ^ 32) by lia.
  rewrite (Zminus_mod (a + 2 ^ 31 + _)), Z.mod_mod, (Zplus_mod (a + 2 ^ 31)), Z.mod_mod by lia. done.
Qed.

(** New messages [l] in a queue, with the counters moved by the difference. *)
Lemma inv_content msqid a l cbytes qnum db dh s :
  msg_inv s → ipc_get (msg_ids s) msqid = Some a →
  zsum m_ts l = zsum m_ts (q_messages a) + db → Z.of_nat (length l) = Z.of_nat (length (q_messages a)) + dh →
  cbytes = u32 (q_cbytes a + db) → qnum = u32 (q_qnum a + dh) → Forall msg_ok l →
  (∀ t m, t ∈ q_receivers a → m ∈ l → testmsg m (r_msgtype (receivers s t)) (r_mode (receivers s t)) = false) →
  msg_inv (set_counters (s32 (msg_bytes s + db)) (s32 (msg_hdrs s + dh))
    (set_msg_ids (ipc_store msqid (set_q_content l cbytes qnum a) (msg_ids s)) s)).
Proof.
  intros [Hc Hb Hh] Ha Hdb Hdh -> -> Hl Htest. pose proof (get_slot _ _ _ Ha) as Hs.
  pose proof (mc_queue _ _ _ Hc _ _ Hs) as Hq.
  destruct (upd_msq_spec msqid (λ _, set_q_content l (u32 (q_cbytes a + db)) (u32 (q_qnum a + dh)) a) a s
    (mc_ids _ _ _ Hc) Ha eq_refl) as (ids & Hrun & Hok & _ & Hholds & Hsum).
  rewrite (upd_msq_run _ _ _ _ Ha) in Hrun. cbn [snd] in Hrun.
  apply (f_equal msg_ids) in Hrun. cbn [msg_ids set_msg_ids] in Hrun. subst ids.
  split; cbn [msg_ids receivers sleeping set_msg_ids msg_bytes msg_hdrs set_counters].
  - eapply core_content; [done|exact Ha|done|exact Hholds|..]; [| |done|done].
    + rewrite (qo_cbytes _ _ _ _ Hq), u32_add. by f_equal.
    + rewrite (qo_qnum _ _ _ _ Hq), u32_add. by f_equal.
  - rewrite Hb, (Hsum cbytes_of), s32_add. cbn [cbytes_of from_option set_q_content q_cbytes].
    rewrite (qo_cbytes _ _ _ _ Hq), u32_add. symmetry. apply s32_swap_u32.
  - rewrite Hh, (Hsum hdrs_of), s32_add. cbn [hdrs_of from_option set_q_content q_messages]. f_equal. lia.
Qed.

(** * Preservation *)

(** The invariant does not look at the tasks, links, wake-ups and clock. *)
Lemma inv_ext s s' :
  msg_ids s' = msg_ids s → msg_bytes s' = msg_bytes s → msg_hdrs s' = msg_hdrs s →
  receivers s' = receivers s → sleeping s' = sleeping s → msg_inv s → msg_inv s'.
Proof. intros E1 E2 E3 E4 E5 []. split; rewrite ?E1, ?E2, ?E3, ?E4, ?E5; done. Qed.

(** A store that keeps the messages keeps the counters right. *)
Lemma inv_store msqid a a' rcv slp s :
  msg_inv s → ipc_get (msg_ids s) msqid = Some a → ip_seq (q_perm a') = ip_seq (q_perm a) →
  q_cbytes a' = q_cbytes a → q_messages a' = q_messages a →
  (∀ ids', ids_ok ids' →
    (∀ j q, holds ids' j q ↔ if decide (j = slot msqid) then q = a' else holds (msg_ids s) j q) →
    msg_core ids' rcv slp) →
  msg_inv (set_sleeping slp (set_receivers rcv (set_msg_ids (ipc_store msqid a' (msg_ids s)) s))).
Proof.
  intros [Hc Hb Hh] Ha E1 E2 E3 Hcore.
  destruct (upd_msq_spec msqid (λ _, a') a s (mc_ids _ _ _ Hc) Ha E1) as (ids & Hrun & Hok & _ & Hholds & Hsum).
  rewrite (upd_msq_run _ _ _ _ Ha) in Hrun. cbn [snd] in Hrun.
  apply (f_equal msg_ids) in Hrun. cbn [msg_ids set_msg_ids] in Hrun. subst ids.
  split; cbn [msg_ids receivers sleeping set_msg_ids msg_bytes msg_hdrs set_receivers set_sleeping].
  - by apply Hcore.
  - rewrite Hb, (Hsum cbytes_of). cbn [cbytes_of from_option]. f_equal. rewrite E2. lia.
  - rewrite Hh, (Hsum hdrs_of). cbn [hdrs_of from_option]. f_equal. rewrite E3. lia.
Qed.

Lemma inv_hand_over msqid a t x s :
  msg_inv s → ipc_get (msg_ids s) msqid = Some a → t ∈ q_receivers a →
  x ≠ inl (- EAGAIN) → (∀ m, x = inr m → msg_ok m) →
  msg_inv (set_receivers (<[t := with_r_msg x (receivers s t)]> (receivers s))
    (set_msg_ids (ipc_store msqid (set_q_receivers (filter (.≠ t) (q_receivers a)) a) (msg_ids s)) s)).
Proof.
  intros Hs Ha Ht Hx Hm. set (a' := set_q_receivers _ a). set (rcv := <[t := _]> (receivers s)).
  refine (inv_store msqid a a' rcv (sleeping s) s Hs Ha eq_refl eq_refl eq_refl _).
  intros ids' Hok Hh. by eapply core_hand_over; [apply Hs|..].
Qed.

(** [pipelined_send] hands the message to a receiver that accepts it, or none
    of the receivers left accepts it. *)
Definition receiver_accepts (s : msg_state) (t : nat) (msg : msg_msg) : bool :=
  testmsg msg (r_msgtype (receivers s t)) (r_mode (receivers s t)).

Definition pipelined_post (msqid : Z) (msg : msg_msg) (l : list nat) (s : msg_state) (a : msg_queue)
    (sent : bool) (s' : msg_state) : Prop :=
  msg_inv s' ∧ mks s' = mks s ∧ sleeping s' = sleeping s ∧
  if sent then ∃ t, t ∈ l ∧ receivers s' t = with_r_msg (inr msg) (receivers s t) ∧
      receiver_accepts s t msg = true ∧ m_ts msg <= r_maxsize (receivers s t)
  else ∃ a', ipc_get (msg_ids s') msqid = Some a' ∧ q_messages a' = q_messages a ∧
      msg_bytes s' = msg_bytes s ∧ msg_hdrs s' = msg_hdrs s ∧
      ∀ t, t ∈ q_receivers a' → t ∈ q_receivers a ∧ receivers s' t = receivers s t ∧
        (t ∈ l → receiver_accepts s t msg = false).

Lemma pipelined_cons msqid msg t l s a s1 a1 sent s' :
  t ∉ l → mks s1 = mks s → sleeping s1 = sleeping s → msg_bytes s1 = msg_bytes s → msg_hdrs s1 = msg_hdrs s →
  q_messages a1 = q_messages a → (∀ u, u ≠ t → receivers s1 u = receivers s u) →
  (∀ u, u ∈ q_receivers a1 → u ∈ q_receivers a ∧ (u = t → receivers s1 t = receivers s t ∧ receiver_accepts s t msg = false)) →
  pipelined_post msqid msg l s1 a1 sent s' → pipelined_post msqid msg (t :: l) s a sent s'.
Proof.
  intros Htl E1 E2 E5 E6 E3 Hu Hr (Hs' & E4 & ? & Hp). unfold pipelined_post. rewrite <-E1, <-E2.
  assert (∀ u, u ≠ t → receiver_accepts s1 u msg = receiver_accepts s u msg) as Hacc by (intros u Hne; unfold receiver_accepts; by rewrite Hu).
  split_and!; [done..|]. destruct sent.
  - destruct Hp as (u & Hul & Hp). assert (u ≠ t) by (by intros ->). rewrite Hacc, Hu in Hp by done.
    exists u. split; [by right|done].
  - destruct Hp as (a' & ? & Hm & ? & ? & Hp). exists a'. split_and!; [done|congruence..|]. intros u Hua.
    destruct (Hp u Hua) as (Hua1 & Heq & Htest). destruct (Hr u Hua1) as [? Hut]. split; [done|].
    destruct (decide (u = t)) as [->|Hne].
    + destruct (Hut eq_refl) as [<- ?]. done.
    + rewrite Hu, Hacc in * by done. split; [done|]. intros [?|?]%elem_of_cons; auto. done.
Qed.

Lemma pipelined_spec msqid msg l s a :
  msg_inv s → msg_ok msg → ipc_get (msg_ids s) msqid = Some a → NoDup l → (∀ t, t ∈ l → t ∈ q_receivers a) →
  let (sent, s') := pipelined_loop msqid msg l s in pipelined_post msqid msg l s a sent s'.
Proof.
  intros Hs Hmsg. revert s a Hs. induction l as [|t l IH]; intros s a Hs Ha Hnd Hl; cbn [pipelined_loop].
  { split_and!; [done..|]. exists a. split_and!; [done..|]. intros t Ht. split_and!; [done..|]. by intros ?%elem_of_nil. }
  apply NoDup_cons in Hnd as [Htl Hnd]. assert (t ∈ q_receivers a) as Hta by (apply Hl; by left).
  unfold mbind at 1, ST_bind at 1. cbn [gets fst snd]. unfold id_msg.
  change (testmsg msg _ _) with (receiver_accepts s t msg). destruct (receiver_accepts s t msg) eqn:Htest.
  2:{ specialize (IH s a Hs Ha Hnd ltac:(set_solver)). destruct (pipelined_loop msqid msg l s) as [sent s'].
      eapply pipelined_cons; [..|exact IH]; done. }
  erewrite bind_run by by eapply upd_msq_run. cbv beta.
  set (a1 := set_q_receivers (filter (.≠ t) (q_receivers a)) a).
  unfold set_r_msg, mwake_up_process.
  destruct (Z.ltb_spec (r_maxsize (receivers s t)) (m_ts msg)) as [Hlt|Hge].
  - do 2 (erewrite bind_run by reflexivity).
    match goal with |- context [pipelined_loop msqid msg l ?x] => set (s1 := x) end.
    assert (msg_inv s1) as Hs1.
    { eapply inv_ext; [..|apply (inv_hand_over msqid a t (inl (- E2BIG)) s Hs Ha)]; done. }
    specialize (IH s1 a1 Hs1 (get_store _ _ _ _ Ha) Hnd). destruct (pipelined_loop msqid msg l s1) as [sent s'].
    eapply pipelined_cons; [..|apply IH]; try done.
    + intros u Hne. by apply fn_lookup_insert_ne.
    + intros u Hu. apply list_elem_of_filter in Hu as [Hne ?]. split; [done|]. by intros ->.
    + intros u Hul. apply list_elem_of_filter. split; [by intros ->|]. apply Hl. by right.
  - erewrite bind_run by reflexivity. erewrite bind_run by (eapply upd_msq_run; by eapply get_store).
    erewrite bind_run by reflexivity. cbn [mret ST_ret]. split_and!; [|done|done|].
    + pose proof (inv_hand_over msqid a t (inr msg) s Hs Ha Hta ltac:(done) ltac:(by intros ? [= <-])) as Hs1.
      eapply (inv_upd_same msqid (set_q_received (pid (tasks (mks s) t)) (mnow s))) in Hs1; [|done].
      erewrite upd_msq_run in Hs1 by by eapply get_store. eapply inv_ext; [..|exact Hs1]; done.
    + exists t. split_and!; [by left| |done|done]. apply fn_lookup_insert.
Qed.
