(* ===== verification/MsgRun.v ===== *)
(** Every section of msgget, msgsnd, msgrcv and msgctl keeps the invariant of
    the message queues, and so does every schedule of calls. *)
From S2P Require Import Prelude UidHash Cred CredProofs CredRun Ipc IpcProofs Msg MsgInv.
From stdpp Require Import list options.
#[local] Set Default Proof Using "Type*".
Open Scope cint_scope.
Open Scope Z_scope.

(** Task [me] runs a call. *)
Definition busy (me : nat) (s : msg_state) : Prop :=
  msg_inv s ∧ current (mks s) = me ∧ sleeping s me = Awake.

(** How a section ends: within the invariant and without [BUG()]. *)
Definition ends_well {A} (fine : A → Prop) (x : A * msg_state) : Prop := fine x.1 ∧ msg_inv x.2.
Definition no_bug (r : msg_result) : Prop := r ≠ MsgBug.

(** * Permission checks *)

Definition same_current (m : K bool) : Prop := ∀ k, current (m k).2 = current k.

Lemma capable_current c : same_current (capable c).
Proof.
  intros k. unfold capable, mbind, ST_bind. cbn [gets fst snd]. by destruct (cap_raised _ _).
Qed.

Lemma orelse_current b m : same_current m → same_current (orelse b m).
Proof. intros Hm k. unfold orelse. destruct b; [done|apply Hm]. Qed.

Lemma ipcperms_current p f k : current (ipcperms p f k).2 = current k.
Proof.
  unfold ipcperms, mbind at 1, ST_bind at 1. cbn [gets fst snd]. cbv zeta. destruct (negb _); [|done].
  unfold mbind, ST_bind. apply capable_current.
Qed.

(** A check on the task state leaves the calling task busy. *)
Lemma mlift_run {A} (m : K A) me s :
  (∀ k, current (m k).2 = current k) → busy me s →
  ∃ r k, mlift m s = (r, set_mks k s) ∧ busy me (set_mks k s).
Proof.
  intros Hm (Hi & Hc & Hs). unfold mlift. destruct (m (mks s)) as [r k] eqn:E. exists r, k. split; [done|].
  split_and!; [by eapply inv_ext; [..|exact Hi]| |done].
  cbn [mks set_mks]. rewrite <-Hc. pose proof (Hm (mks s)) as H. by rewrite E in H.
Qed.

(** * Queues come and go *)

Lemma core_add ids rcv slp ids' i a :
  msg_core ids rcv slp → (∀ q, ¬ holds ids i q) → ids_ok ids' →
  (∀ j q, holds ids' j q ↔ if decide (j = i) then q = a else holds ids j q) →
  q_messages a = [] → q_receivers a = [] → q_cbytes a = 0 → q_qnum a = 0 → msg_core ids' rcv slp.
Proof.
  intros [H1 H2 H3 H4] Hfree Hok Hh E1 E2 E3 E4. split; [done|..|done].
  - intros j q Hj%Hh. destruct (decide (j = i)) as [->|]; [|eauto]. subst q.
    split; rewrite ?E1, ?E2, ?E3, ?E4; try done; try apply NoDup_nil_2; try constructor;
      intros t; intros; by exfalso; eapply elem_of_nil.
  - intros t msqid n f Ht. destruct (H3 _ _ _ _ Ht) as (? & ? & Hr & ?). split_and!; [done..| |done].
    intros Hm. destruct (Hr Hm) as (q & Hq & ?). exists q. split; [|done]. apply Hh.
    rewrite decide_False; [done|]. intros <-. by eapply Hfree.
Qed.

(** The queue of entry [i] goes, and its receivers get an error. *)
Lemma core_remove ids rcv slp ids' rcv' i a err :
  msg_core ids rcv slp → holds ids i a → ids_ok ids' → (∀ j q, holds ids' j q ↔ j ≠ i ∧ holds ids j q) →
  err ≠ - EAGAIN → (∀ t, rcv' t = if decide (t ∈ q_receivers a) then with_r_msg (inl err) (rcv t) else rcv t) →
  msg_core ids' rcv' slp.
Proof.
  intros Hc Ha Hok Hh Herr Hr. split; [done|..|apply Hc].
  - intros j q [Hne Hj]%Hh. destruct (mc_queue _ _ _ Hc _ _ Hj) as [A B C D E F G].
    assert (∀ t, t ∈ q_receivers q → rcv' t = rcv t) as Hsame.
    { intros t Ht. rewrite Hr, decide_False; [done|]. intros Hta. apply Hne. eapply asleep_inj; by eapply queued_asleep. }
    split; try done; intros t; [intros Ht..|intros m Ht]; rewrite Hsame by done; auto.
  - intros t msqid n f Ht. destruct (mc_recv _ _ _ Hc _ _ _ _ Ht) as (? & ? & Hm & Hx). rewrite Hr.
    destruct (decide (t ∈ q_receivers a)) as [Hta|Hta]; cbn [r_msg with_r_msg].
    { split_and!; [done..|intros [= ?]; done|by intros m [=]]. }
    split_and!; [done..| |done]. intros Hb. destruct (Hm Hb) as (q & Hq & Htq). exists q. split; [|done].
    apply Hh. split; [|done]. intros Heq. apply Hta. rewrite Heq in Hq. by rewrite (holds_inj _ _ _ _ Ha Hq).
Qed.

(** The receivers as functions up to pointwise equality. *)
Lemma core_rcv_ext ids rcv rcv' slp : (∀ t, rcv' t = rcv t) → msg_core ids rcv slp → msg_core ids rcv' slp.
Proof.
  intros E [H1 H2 H3 H4]. split; [done|..|done].
  - intros i a Ha. destruct (H2 _ _ Ha). split; try done; intros; rewrite E; auto.
  - intros t msqid n f Ht. rewrite E. eauto.
Qed.

Lemma expunge_run l res s :
  ∃ rcv, expunge_all l res s = (tt, set_receivers rcv (set_mwoken (mwoken s ++ l) s)) ∧
    ∀ t, rcv t = if decide (t ∈ l) then with_r_msg (inl res) (receivers s t) else receivers s t.
Proof.
  revert s. induction l as [|u l IH]; intros s; cbn [expunge_all].
  { exists (receivers s). rewrite app_nil_r. split; [by destruct s|]. intros t. rewrite decide_False; [done|]. set_solver. }
  unfold set_r_msg, mwake_up_process. do 2 (erewrite bind_run by reflexivity).
  match goal with |- context [expunge_all l res ?x] => destruct (IH x) as (rcv & -> & Hr) end.
  exists rcv. split; [cbn; by rewrite <-app_assoc|]. intros t. rewrite Hr. cbn [receivers set_mwoken set_receivers].
  destruct (decide (t = u)) as [->|Hne].
  - rewrite fn_lookup_insert. rewrite (decide_True (P := u ∈ u :: l)) by (by left).
    by destruct (decide (u ∈ l)).
  - rewrite fn_lookup_insert_ne by done. destruct (decide (t ∈ l)), (decide (t ∈ u :: l)); set_solver.
Qed.

Lemma inv_newque key msgflg mem : preserves msg_inv (newque key msgflg mem).
Proof.
  intros s Hs. unfold newque. unfold mbind at 1, ST_bind at 1. cbn [gets fst snd]. unfold id_msg.
  destruct mem; [|done]. cbn [negb]. cbv zeta. set (nq := mk_msq _ _ _ _ _ _ _ _ _ _ _ _).
  pose proof (addid_spec (cur (mks s)) nq msg_ctlmni true (msg_ids s) (mc_ids _ _ _ (mi_core _ Hs)) ltac:(done)) as Ha.
  pose proof (λ g, addid_sum g (cur (mks s)) nq msg_ctlmni true (msg_ids s) (mc_ids _ _ _ (mi_core _ Hs)) ltac:(done)) as Ht.
  destruct (ipc_addid _ nq _ _ _) as [[[id p]|] ids]; cbn [snd] in Ht; erewrite bind_run by reflexivity;
    destruct Hs as [Hc Hb Hh].
  2:{ destruct Ha as (Hok & Hsame & _). split; cbn [snd mret ST_ret msg_ids set_msg_ids].
      - destruct Hc as [H1 H2 H3 H4]. split; [done|intros i q Hq%Hsame; eauto| |done].
        intros t m n f Hm. destruct (H3 t m n f Hm) as (? & ? & Hr & ?). split_and!; [done..| |done].
        intros Hx. destruct (Hr Hx) as (q & Hq & ?). exists q. by rewrite Hsame.
      - by rewrite Ht.
      - by rewrite Ht. }
  destruct Ha as (Hok & Hfill & Hid & Hfree & Hholds & _).
  pose proof (lid_of_small id Hid) as Hlid. assert (slot id = id) as Hslot by (rewrite slot_lid; lia).
  assert (ipc_get ids id = Some p) as Hget.
  { apply get_holds; [lia|]. rewrite Hlid. apply Hholds. by rewrite decide_True. }
  unfold mbind at 1, ST_bind at 1. cbn [snd mret ST_ret].
  match goal with |- context [upd_msq id ?f (?g s)] =>
    destruct (upd_msq_spec id f p (g s) Hok Hget eq_refl) as (ids2 & -> & Hok2 & _ & Hh2 & Ht2) end.
  cbn [msg_ids set_msg_ids] in Hh2, Ht2. rewrite Hslot in Hh2.
  split; cbn [msg_ids set_msg_ids receivers sleeping msg_bytes msg_hdrs].
  - eapply (core_add _ _ _ _ id); [exact Hc|exact Hfree|done| |..].
    { intros j q. rewrite Hh2. destruct (decide (j = id)) as [->|Hne]; [done|]. by rewrite Hholds, decide_False. }
    all: done.
  - rewrite Ht2, Ht, Hb by done. rewrite Hfill. simpl. f_equal. lia.
  - rewrite Ht2, Ht, Hh by done. rewrite Hfill. simpl. f_equal. lia.
Qed.

Lemma inv_freeque id : 0 <= id → preserves msg_inv (freeque id).
Proof.
  intros Hid s Hs. unfold freeque. unfold mbind at 1, ST_bind at 1. cbn [gets fst snd]. unfold id_msg.
  destruct (ipc_rmid id (msg_ids s)) as [[a ids]|] eqn:Hrm; [|done].
  destruct Hs as [Hc Hb Hh]. apply rmid_get in Hrm as Hget.
  apply get_holds in Hget as Ha; [|done].
  destruct (rmid_spec _ _ _ (mc_ids _ _ _ Hc) Hid Ha) as (ids2 & Hrm2 & Hok & _ & Hholds).
  rewrite Hrm in Hrm2. injection Hrm2 as <-.
  erewrite bind_run by reflexivity.
  destruct (expunge_run (q_receivers a) (- EIDRM) (set_msg_ids ids s)) as (rcv & Hexp & Hr).
  rewrite (bind_run _ _ _ _ _ Hexp).
  match goal with |- context [(ss_wakeup ?l ?b ≫= _) ?x] => destruct (ss_wakeup_run l b x) as (linked & Hss & _) end.
  rewrite (bind_run _ _ _ _ _ Hss). unfold add_counters. erewrite bind_run by reflexivity. cbn [modify snd].
  split; cbn [msg_ids set_msg_ids receivers sleeping msg_bytes msg_hdrs set_counters set_ss_linked set_mwoken set_receivers].
  - by eapply (core_remove _ _ _ _ _ _ _ (- EIDRM)); [exact Hc|exact Ha|done|exact Hholds|done|exact Hr].
  - rewrite Hb, (rmid_sum cbytes_of _ _ _ _ Hrm), !s32_add, <-Z.add_assoc, s32_add. simpl. f_equal. lia.
  - rewrite Hh, (rmid_sum hdrs_of _ _ _ _ Hrm), !s32_add, <-Z.add_assoc, s32_add. simpl. f_equal. lia.
Qed.

(** * msgget and msgctl *)

Lemma inv_mlift {A} (m : K A) : preserves msg_inv (mlift m).
Proof. intros s Hs. unfold mlift. destruct (m (mks s)). by eapply inv_ext; [..|exact Hs]. Qed.

Lemma inv_upd f msqid :
  (∀ a, q_cbytes (f a) = q_cbytes a ∧ q_qnum (f a) = q_qnum a ∧ q_messages (f a) = q_messages a ∧
        q_receivers (f a) = q_receivers a ∧ ip_seq (q_perm (f a)) = ip_seq (q_perm a)) →
  preserves msg_inv (upd_msq msqid f).
Proof. intros Hf s. by apply inv_upd_same. Qed.

Lemma inv_ss_wakeup l kill : preserves msg_inv (ss_wakeup l kill).
Proof. intros s Hs. destruct (ss_wakeup_run l kill s) as (k & -> & _). by eapply inv_ext; [..|exact Hs]. Qed.

(** Step through a section that moves no message and no receiver. *)
Ltac msg_walk leaf :=
  repeat match goal with
  | |- preserves _ (mbind _ _) => apply preserves_bind; [|intros ?]
  | |- preserves _ (mret _) => apply preserves_ret
  | |- preserves _ (gets _) => apply preserves_gets
  | |- preserves _ (msg_lock _) => apply preserves_gets
  | |- preserves _ (mlift _) => apply inv_mlift
  | |- preserves _ (ss_wakeup _ _) => apply inv_ss_wakeup
  | |- preserves _ (match ?x with _ => _ end) => destruct x
  | |- preserves _ (let _ := _ in _) => cbv zeta
  | |- _ => leaf
  end.

Lemma inv_msgget key msgflg mem : preserves msg_inv (sys_msgget key msgflg mem).
Proof. unfold sys_msgget. msg_walk ltac:(apply inv_newque). Qed.

(** Receivers told to try again are left as they were. *)
Lemma inv_expunge_again msqid a s :
  msg_inv s → ipc_get (msg_ids s) msqid = Some a → msg_inv (expunge_all (q_receivers a) (- EAGAIN) s).2.
Proof.
  intros [Hc Hb Hh] Ha%get_slot. destruct (expunge_run (q_receivers a) (- EAGAIN) s) as (rcv & -> & Hr).
  split; [|done..]. cbn. eapply core_rcv_ext; [|exact Hc]. intros t. rewrite Hr.
  destruct (decide (t ∈ q_receivers a)) as [Ht|]; [|done]. unfold with_r_msg.
  rewrite <-(qo_empty _ _ _ _ (mc_queue _ _ _ Hc _ _ Ha) t Ht). by destruct (receivers s t).
Qed.

Lemma inv_ctl_set msqid f a s :
  (∀ a, q_cbytes (f a) = q_cbytes a ∧ q_qnum (f a) = q_qnum a ∧ q_messages (f a) = q_messages a ∧
        q_receivers (f a) = q_receivers a ∧ ip_seq (q_perm (f a)) = ip_seq (q_perm a)) →
  ipc_get (msg_ids s) msqid = Some a → msg_inv s →
  msg_inv ((upd_msq msqid f;; expunge_all (q_receivers a) (- EAGAIN);; ss_wakeup (q_senders a) false;; mret 0) s).2.
Proof.
  intros Hf Ha Hs. pose proof (inv_upd f msqid Hf s Hs) as Hs1.
  rewrite (upd_msq_run _ _ _ _ Ha) in Hs1. rewrite (bind_run _ _ _ _ _ (upd_msq_run _ _ _ _ Ha)).
  unfold mbind at 1, ST_bind at 1. destruct (Hf a) as (_ & _ & _ & <- & _).
  apply (preserves_bind msg_inv (ss_wakeup (q_senders a) false) (λ _, mret 0)); [apply inv_ss_wakeup|by intros ? ?|].
  eapply inv_expunge_again; [exact Hs1|by eapply get_store].
Qed.

Lemma inv_msgctl_down msqid cmd b : 0 <= msqid → preserves msg_inv (msgctl_down msqid cmd b).
Proof.
  intros Hid s Hs. unfold msgctl_down. unfold msg_lock, ipc_lock. unfold mbind at 1, ST_bind at 1. cbn [gets fst snd].
  destruct (ipc_get (msg_ids s) msqid) as [a|] eqn:Ha; [|done]. destruct (ipc_checkid a msqid); [done|].
  unfold mbind at 1, ST_bind at 1. cbn [gets fst snd]. cbv zeta.
  rewrite mlift_bind. destruct (orelse _ _ (mks s)) as [[] k]; cbn [fst snd negb]; [|by eapply inv_ext; [..|exact Hs]].
  assert (msg_inv (set_mks k s)) as Hs1 by (by eapply inv_ext; [..|exact Hs]).
  destruct (cmd =? IPC_SET).
  2:{ revert Hs1. generalize (set_mks k s). apply preserves_bind; [by apply inv_freeque|]. intros []. apply preserves_ret. }
  rewrite mlift_bind. destruct (orelse _ _ (mks (set_mks k s))) as [[] k']; cbn [fst snd negb]; [|by eapply inv_ext; [..|exact Hs]].
  unfold mbind at 1, ST_bind at 1. cbn [gets fst snd]. unfold id_msg.
  apply inv_ctl_set; [done|exact Ha|]. by eapply inv_ext; [..|exact Hs].
Qed.

Lemma inv_msgctl msqid cmd buf b copy_ok : preserves msg_inv (sys_msgctl msqid cmd buf b copy_ok).
Proof.
  unfold sys_msgctl. destruct ((msqid <? 0) || (cmd <? 0))%bool eqn:Hid; [apply preserves_ret|]. to_prop.
  msg_walk ltac:(by apply inv_msgctl_down).
Qed.

(** * msgsnd *)

Lemma inv_sleep t x s :
  msg_inv s → (∀ i a, holds (msg_ids s) i a → t ∉ q_receivers a) →
  match x with
  | Awake => True
  | InSend msqid n _ m => 0 <= msqid ∧ msg_ok m ∧ m_ts m = n
  | InRecv _ _ _ => False
  end → msg_inv (set_sleeping (<[t := x]> (sleeping s)) s).
Proof. intros [Hc Hb Hh] Hno Hx. split; [|done..]. by apply core_sleep. Qed.

Lemma busy_unqueued me s i a : busy me s → holds (msg_ids s) i a → me ∉ q_receivers a.
Proof. intros (Hs & _ & Ha). eapply awake_unqueued; [apply Hs|]. by rewrite Ha. Qed.

Lemma ss_add_run msqid t a s :
  ipc_get (msg_ids s) msqid = Some a →
  ss_add msqid t s = (tt, set_ss_linked (<[t := true]> (ss_linked s))
    (set_msg_ids (ipc_store msqid (set_q_senders (q_senders a ++ [t]) a) (msg_ids s)) s)).
Proof. intros Ha. unfold ss_add. by rewrite (bind_run _ _ _ _ _ (upd_msq_run _ _ _ _ Ha)). Qed.

Lemma inv_ss_add msqid t : preserves msg_inv (ss_add msqid t).
Proof.
  apply preserves_bind; [by apply inv_upd|]. intros _. apply preserves_modify. intros s Hs.
  by eapply inv_ext; [..|exact Hs].
Qed.

(** A message that no receiver takes joins the queue. *)
Lemma inv_enqueue msqid a msg s :
  msg_inv s → ipc_get (msg_ids s) msqid = Some a → msg_ok msg →
  (∀ t, t ∈ q_receivers a → receiver_accepts s t msg = false) →
  msg_inv ((upd_msq msqid (λ a, set_q_content (q_messages a ++ [msg]) (u32 (q_cbytes a + m_ts msg))
                                  (u32 (q_qnum a + 1)) a);;
            add_counters (m_ts msg) 0;; add_counters 0 1) s).2.
Proof.
  intros Hs Ha Hm Htest. rewrite (bind_run _ _ _ _ _ (upd_msq_run _ _ _ _ Ha)).
  unfold add_counters. erewrite bind_run by reflexivity. cbn [modify snd].
  pose proof (mc_queue _ _ _ (mi_core _ Hs) _ _ (get_slot _ _ _ Ha)) as Hq.
  eapply inv_ext; [..|apply (inv_content msqid a (q_messages a ++ [msg]) (u32 (q_cbytes a + m_ts msg)) (u32 (q_qnum a + 1)) (m_ts msg) 1 s Hs Ha)]; try done.
  - cbn. by rewrite s32_add, Z.add_0_r.
  - cbn. by rewrite s32_add, Z.add_0_r.
  - rewrite zsum_app. simpl. lia.
  - rewrite length_app. simpl. lia.
  - apply Forall_app. split; [apply Hq|by constructor].
  - intros t m Ht [Hin| ->%list_elem_of_singleton]%elem_of_app; [by eapply qo_stuck|by apply Htest].
Qed.

(** The start of both sections: the queue is there, the id is checked, and the
    task may go on. *)
Lemma section_start me msqid flag_ (body : msg_queue → G msg_result) (post : msg_result * msg_state → Prop) s a :
  busy me s → ipc_get (msg_ids s) msqid = Some a →
  (∀ err s1, err < 0 → msg_inv s1 → post (MsgRet err, s1)) →
  (∀ k, busy me (set_mks k s) → post (body a (set_mks k s))) →
  post ((l ← msg_lock msqid;
    match (l : option msg_queue) with
    | None => mret MsgBug
    | Some msq =>
        if ipc_checkid msq msqid then mret (MsgRet (- EIDRM)) else
        denied ← mlift (ipcperms (q_perm msq) flag_);
        if negb (denied =? 0) then mret (MsgRet (- EACCES)) else body msq
    end) s).
Proof.
  intros Hs Ha Herr Hbody. unfold msg_lock, ipc_lock. unfold mbind at 1, ST_bind at 1. cbn [gets fst snd].
  rewrite Ha. destruct (ipc_checkid a msqid); [by apply Herr; [|apply Hs]|]. rewrite mlift_bind.
  destruct (mlift_run (ipcperms (q_perm a) flag_) me s (ipcperms_current _ _) Hs) as (r & k & E & Hs1).
  unfold mlift in E. destruct (ipcperms (q_perm a) flag_ (mks s)) as [r' k']. injection E as -> Hk.
  cbn [fst snd]. rewrite Hk. destruct (negb (r =? 0)); [by apply Herr; [|apply Hs1]|]. by apply Hbody.
Qed.

Lemma inv_sender_sleeps me msqid msgsz msgflg msg s a :
  busy me s → ipc_get (msg_ids s) msqid = Some a → 0 <= msqid → msg_ok msg → m_ts msg = msgsz →
  msg_inv ((ss_add msqid me;; set_sleep me (InSend msqid msgsz msgflg msg)) s).2.
Proof.
  intros (Hs & Hc & Hw) Ha Hid Hm Hts. pose proof (inv_ss_add msqid me s Hs) as Hs2.
  rewrite (ss_add_run _ _ _ _ Ha) in Hs2. rewrite (bind_run _ _ _ _ _ (ss_add_run _ _ _ _ Ha)).
  apply inv_sleep; [exact Hs2| |done]. intros i q Hq.
  eapply awake_unqueued; [apply Hs2| |exact Hq]. intros x y z. cbn. by rewrite Hw.
Qed.

(** After a successful msgsnd a receiver has the message, or it is the last of
    its queue. *)
Definition sent_to (s : msg_state) (a : msg_queue) (msg : msg_msg) (s' : msg_state) (msqid : Z) : Prop :=
  (∃ t, t ∈ q_receivers a ∧ receivers s' t = with_r_msg (inr msg) (receivers s t) ∧
     receiver_accepts s t msg = true ∧ m_ts msg <= r_maxsize (receivers s t)) ∨
  (∃ a', ipc_get (msg_ids s') msqid = Some a' ∧ q_messages a' = q_messages a ++ [msg]).

Definition snd_post (s : msg_state) (a : msg_queue) (msg : msg_msg) (msqid : Z) (x : msg_result * msg_state) : Prop :=
  ends_well no_bug x ∧ (x.1 = MsgRet 0 → sent_to s a msg x.2 msqid).

Lemma inv_deliver msqid p t msg s a :
  msg_inv s → ipc_get (msg_ids s) msqid = Some a → msg_ok msg →
  snd_post s a msg msqid ((upd_msq msqid (set_q_sent p t);;
    sent ← pipelined_send msqid msg;
    when (negb sent)
      (upd_msq msqid (λ a, set_q_content (q_messages a ++ [msg]) (u32 (q_cbytes a + m_ts msg)) (u32 (q_qnum a + 1)) a);;
       add_counters (m_ts msg) 0;; add_counters 0 1);;
    mret (MsgRet 0)) s).
Proof.
  intros Hs Ha Hm. pose proof (inv_upd (set_q_sent p t) msqid ltac:(done) s Hs) as Hs2.
  rewrite (upd_msq_run _ _ _ _ Ha) in Hs2. rewrite (bind_run _ _ _ _ _ (upd_msq_run _ _ _ _ Ha)).
  cbn [snd] in Hs2. set (a2 := set_q_sent _ _ a) in *. set (s2 := set_msg_ids _ s) in *.
  assert (ipc_get (msg_ids s2) msqid = Some a2) as Ha2 by by eapply get_store.
  pose proof (mc_queue _ _ _ (mi_core _ Hs2) _ _ (get_slot _ _ _ Ha2)) as Hq.
  pose proof (pipelined_spec msqid msg (q_receivers a2) s2 a2 Hs2 Hm Ha2 (qo_nodup _ _ _ _ Hq) ltac:(done)) as Hp.
  assert (pipelined_send msqid msg s2 = pipelined_loop msqid msg (q_receivers a2) s2) as Hrun.
  { unfold pipelined_send, mbind, ST_bind. cbn [gets fst snd]. by rewrite Ha2. }
  destruct (pipelined_loop msqid msg (q_receivers a2) s2) as [sent s3]. rewrite (bind_run _ _ _ _ _ Hrun).
  destruct Hp as (Hs3 & _ & _ & Hp). destruct sent; cbn [negb when].
  { split; [by split|]. intros _. by left. }
  destruct Hp as (a3 & Ha3 & Hmsgs & _ & _ & Hr). split; [split; [done|]|intros _; right].
  - refine (inv_enqueue msqid a3 msg s3 Hs3 Ha3 Hm _).
    intros u Hu. destruct (Hr u Hu) as (Hin & Heq & Hacc). unfold receiver_accepts. rewrite Heq. by apply Hacc.
  - exists (set_q_content (q_messages a3 ++ [msg]) (u32 (q_cbytes a3 + m_ts msg)) (u32 (q_qnum a3 + 1)) a3).
    split; [|cbn; by rewrite Hmsgs]. unfold mbind at 1, ST_bind at 1.
    rewrite (bind_run _ _ _ _ _ (upd_msq_run _ _ _ _ Ha3)). by eapply get_store.
Qed.

Lemma snd_section me msqid msgsz msgflg msg s a :
  busy me s → ipc_get (msg_ids s) msqid = Some a → 0 <= msqid → msg_ok msg → m_ts msg = msgsz →
  snd_post s a msg msqid (msgsnd_section msqid msgsz msgflg msg s).
Proof.
  intros Hs Ha Hid Hm <-. apply (section_start me _ _ _ _ _ _ Hs Ha).
  { intros err s1 Herr Hs1. split; [by split|]. simpl. intros [= ->]. lia. }
  intros k Hs1. unfold mbind at 1, ST_bind at 1. cbn [gets fst snd]. unfold id_msg. cbv zeta.
  rewrite (proj1 (proj2 Hs1)). destruct ((_ >? _) || (_ >? _))%bool.
  - destruct (msgflg & IPC_NOWAIT); [by split; [split; [|apply Hs1]|]|]. split; [|done]. split; [done|].
    by apply (inv_sender_sleeps me msqid (m_ts msg) msgflg msg (set_mks k s) a).
  - exact (inv_deliver msqid _ _ msg (set_mks k s) a (proj1 Hs1) Ha Hm).
Qed.

(** * msgrcv *)

Lemma out_success_fine m n put_ok : msg_ok m → 0 <= n → no_bug (out_success m n put_ok).
Proof.
  intros (_ & Hts & Hst) Hn. unfold no_bug, out_success. cbv zeta.
  destruct (Hst (if n >? m_ts m then m_ts m else n)) as [text ->]; [destruct (Z.gtb_spec n (m_ts m)); lia|].
  by destruct put_ok.
Qed.

(** What the search finds is a message of the list, and when it finds none it
    has tested them all with the type it keeps. *)
Lemma find_any l typ mode :
  Forall msg_ok l →
  let (r, typ') := find_loop l 0 typ mode None in
  match r with
  | Some i => ∃ m, l !! i = Some m
  | None => typ' = typ ∧ ∀ m, m ∈ l → testmsg m typ mode = false
  end.
Proof.
  intros Hl. assert (Forall (λ m, 1 <= m_type m) l) as Ht by (eapply Forall_impl; [exact Hl|]; by intros m []).
  destruct (decide (mode = SEARCH_LESSEQUAL)) as [->|Hne].
  - pose proof (find_least l 0 typ None Ht) as Hf. destruct (find_loop l 0 typ _ None) as [[i|] typ'].
    + destruct Hf as [(k & -> & m & Hm & _)|[? _]]; [by exists m|done].
    + destruct Hf as (_ & Hno & ->). split; [done|]. intros m [j Hj]%list_elem_of_lookup.
      apply Z.leb_gt. specialize (Hno j m Hj). simpl in Hno. lia.
  - pose proof (find_first l 0 typ mode None Hne) as Hf. destruct (find_loop l 0 typ _ None) as [[i|] typ'].
    + destruct Hf as [[(k & -> & m & Hm & _)|[? _]] _]; [by exists m|done].
    + destruct Hf as [[_ Hno] ->]. split; [done|]. intros m [j Hj]%list_elem_of_lookup.
      specialize (Hno j m Hj). simpl in Hno. by apply not_true_iff_false.
Qed.

(** A message leaves the queue. *)
Lemma inv_take msqid i m p t a s :
  msg_inv s → ipc_get (msg_ids s) msqid = Some a → q_messages a !! i = Some m →
  msg_inv ((upd_msq msqid (λ a, set_q_content (delete i (q_messages a)) (u32 (q_cbytes a - m_ts m))
                                  (u32 (q_qnum a - 1)) a);;
            upd_msq msqid (set_q_received p t);;
            add_counters (- m_ts m) 0;; add_counters 0 (-1);; ss_wakeup (q_senders a) false) s).2.
Proof.
  intros Hs Ha Hm. rewrite (bind_run _ _ _ _ _ (upd_msq_run _ _ _ _ Ha)).
  erewrite bind_run by (eapply upd_msq_run; by eapply get_store).
  unfold add_counters. do 2 (erewrite bind_run by reflexivity). apply inv_ss_wakeup.
  pose proof (mc_queue _ _ _ (mi_core _ Hs) _ _ (get_slot _ _ _ Ha)) as Hq.
  assert (msg_inv (set_counters (s32 (msg_bytes s + - m_ts m)) (s32 (msg_hdrs s + -1))
    (set_msg_ids (ipc_store msqid (set_q_content (delete i (q_messages a)) (u32 (q_cbytes a - m_ts m)) (u32 (q_qnum a - 1)) a)
       (msg_ids s)) s))) as Hs1.
  { apply inv_content; try done.
    - rewrite (zsum_delete _ _ _ _ Hm). lia.
    - apply lookup_lt_Some in Hm as Hlt. rewrite length_delete by (by eexists). lia.
    - apply Forall_delete, Hq.
    - intros u x Hu Hx. eapply qo_stuck; [done..|]. by eapply list_elem_of_delete_inv. }
  eapply (inv_upd (set_q_received p t) msqid ltac:(done)) in Hs1.
  erewrite upd_msq_run in Hs1 by by eapply get_store. eapply inv_ext; [..|exact Hs1]; try done.
  - cbn. by rewrite s32_add, Z.add_0_r.
  - cbn. by rewrite s32_add, Z.add_0_r.
Qed.

(** The task joins the receivers and sleeps. *)
Lemma inv_receiver_sleeps me msqid msgsz msgflg r a s :
  busy me s → ipc_get (msg_ids s) msqid = Some a → 0 <= msqid → 0 <= msgsz →
  r_msg r = inl (- EAGAIN) → (∀ m, m ∈ q_messages a → testmsg m (r_msgtype r) (r_mode r) = false) →
  msg_inv ((upd_msq msqid (λ a, set_q_receivers (q_receivers a ++ [me]) a);;
            modify (λ s, set_receivers (<[me := r]> (receivers s)) s);;
            set_sleep me (InRecv msqid msgsz msgflg)) s).2.
Proof.
  intros (Hs & _ & Hw) Ha Hid Hn Hr Htest. rewrite (bind_run _ _ _ _ _ (upd_msq_run _ _ _ _ Ha)).
  erewrite bind_run by reflexivity. cbn [modify set_sleep snd].
  set (a' := set_q_receivers _ a). set (rcv := <[me := r]> (receivers s)).
  set (slp := <[me := InRecv msqid msgsz msgflg]> (sleeping s)).
  refine (inv_store msqid a a' rcv slp s Hs Ha eq_refl eq_refl eq_refl _).
  intros ids' Hok Hh. by eapply core_join; [apply Hs|exact Ha|..].
Qed.

Lemma rcv_section me msqid msgsz msgtyp mode msgflg put_ok s a :
  busy me s → ipc_get (msg_ids s) msqid = Some a → 0 <= msqid → 0 <= msgsz →
  ends_well no_bug (msgrcv_section msqid msgsz msgtyp mode msgflg put_ok s).
Proof.
  intros Hs Ha Hid Hn. apply (section_start me _ _ _ _ _ _ Hs Ha); [by split|]. clear Hs. intros k Hs.
  change (ipc_get (msg_ids (set_mks k s)) msqid = Some a) in Ha. revert Hs Ha. generalize (set_mks k s).
  clear s k. intros s Hs Ha.
  unfold mbind at 1, ST_bind at 1. cbn [gets fst snd]. unfold id_msg. cbv zeta. rewrite (proj1 (proj2 Hs)).
  pose proof (mc_queue _ _ _ (mi_core _ (proj1 Hs)) _ _ (get_slot _ _ _ Ha)) as Hq.
  pose proof (find_any (q_messages a) msgtyp mode (qo_msgs _ _ _ _ Hq)) as Hf.
  destruct (find_loop (q_messages a) 0 msgtyp mode None) as [[i|] typ']; cbn [mbind option_bind].
  - destruct Hf as [m Hm]. rewrite Hm. cbn [fmap option_fmap option_map].
    destruct (_ && _)%bool; [by split; [|apply Hs]|]. split.
    + apply out_success_fine; [|done]. by eapply (Forall_lookup_1 _ _ _ _ (qo_msgs _ _ _ _ Hq)).
    + exact (inv_take msqid i m _ _ a s (proj1 Hs) Ha Hm).
  - destruct Hf as [-> Hno]. destruct (msgflg & IPC_NOWAIT); [by split; [|apply Hs]|]. split; [done|].
    refine (inv_receiver_sleeps me msqid msgsz msgflg (mk_receiver _ _ _ _) a s Hs Ha Hid Hn eq_refl Hno).
Qed.

(** * The system calls *)

Lemma load_ok alloc_ok copy_ok src len msg type :
  load_msg alloc_ok copy_ok src len = inr msg → 0 <= len <= Z.of_nat (length src) → 1 <= type →
  msg_ok (mk_msg type len (m_data msg) (m_segs msg)).
Proof.
  intros Hl Hlen Ht. split_and!; [done|simpl; lia|]. intros n Hn. simpl in Hn.
  exists (take (Z.to_nat n) src). by apply (load_store_msg _ _ _ _ _ n Hl).
Qed.

Lemma snd_call me msqid msgsz mtype src alloc_ok copy_ok msgflg s :
  busy me s → 0 <= msgsz <= Z.of_nat (length src) →
  ends_well no_bug (sys_msgsnd msqid msgsz mtype src alloc_ok copy_ok msgflg s).
Proof.
  intros Hs Hsz. unfold sys_msgsnd.
  destruct ((msgsz >? msg_ctlmax) || (s32 msgsz <? 0) || (msqid <? 0))%bool eqn:Hb; [by split; [|apply Hs]|]. to_prop.
  destruct mtype as [mtype|]; [|by split; [|apply Hs]].
  destruct (Z.ltb_spec mtype 1); [by split; [|apply Hs]|].
  destruct (load_msg alloc_ok copy_ok src msgsz) as [e|msg] eqn:Hl; [by split; [|apply Hs]|].
  unfold msg_lock, ipc_lock. unfold mbind at 1, ST_bind at 1. cbn [gets fst snd].
  destruct (ipc_get (msg_ids s) msqid) as [a|] eqn:Ha; [|by split; [|apply Hs]].
  eapply (snd_section me); [done|exact Ha|done| |done]. by eapply load_ok.
Qed.

Lemma rcv_call me msqid msgsz msgtyp msgflg put_ok s :
  busy me s → 0 <= msgsz → ends_well no_bug (sys_msgrcv msqid msgsz msgtyp msgflg put_ok s).
Proof.
  intros Hs Hsz. unfold sys_msgrcv.
  destruct ((msqid <? 0) || (s32 msgsz <? 0))%bool eqn:Hb; [by split; [|apply Hs]|]. to_prop.
  destruct (convert_mode msgtyp msgflg) as [mode typ].
  unfold msg_lock, ipc_lock. unfold mbind at 1, ST_bind at 1. cbn [gets fst snd].
  destruct (ipc_get (msg_ids s) msqid) as [a|] eqn:Ha; [|by split; [|apply Hs]].
  by eapply rcv_section.
Qed.

(** A sender takes itself off the list it may still be on. *)
Lemma ss_del_fine me msqid a s :
  busy me s → ipc_get (msg_ids s) msqid = Some a →
  ∃ s' a', ss_del msqid me s = (tt, s') ∧ busy me s' ∧ ipc_get (msg_ids s') msqid = Some a'.
Proof.
  intros (Hs & Hc & Hw) Ha. unfold ss_del. unfold mbind at 1, ST_bind at 1. cbn [gets fst snd]. unfold id_msg.
  destruct (ss_linked s me); cbn [when]; [|by exists s, a].
  pose proof (inv_upd (λ a, set_q_senders (filter (.≠ me) (q_senders a)) a) msqid ltac:(done) s Hs) as Hs1.
  rewrite (upd_msq_run _ _ _ _ Ha) in Hs1. rewrite (bind_run _ _ _ _ _ (upd_msq_run _ _ _ _ Ha)).
  eexists _, _. split; [reflexivity|]. split; [|by eapply get_store].
  split_and!; [by eapply inv_ext; [..|exact Hs1]|done|done].
Qed.

Lemma snd_wakeup me msqid msgsz msgflg msg sig s :
  msg_inv s → current (mks s) = me → sleeping s me = InSend msqid msgsz msgflg msg →
  ends_well no_bug (msgsnd_wakeup sig s).
Proof.
  intros Hs Hc Hw. destruct (mc_send _ _ _ (mi_core _ Hs) _ _ _ _ _ Hw) as (Hid & Hm & Hts).
  unfold msgsnd_wakeup. do 2 (unfold mbind at 1, ST_bind at 1; cbn [gets fst snd]). rewrite Hc, Hw.
  unfold set_sleep. erewrite bind_run by reflexivity. set (s1 := set_sleeping _ s).
  assert (busy me s1) as Hs1.
  { split_and!; [|done|apply fn_lookup_insert]. apply inv_sleep; [done| |done].
    intros i a Ha. eapply awake_unqueued; [apply Hs| |exact Ha]. by rewrite Hw. }
  unfold msg_lock, ipc_lock. unfold mbind at 1, ST_bind at 1. cbn [gets fst snd].
  destruct (ipc_get (msg_ids s1) msqid) as [a|] eqn:Ha; [|by split; [|apply Hs1]].
  destruct (ss_del_fine me msqid a s1 Hs1 Ha) as (s2 & a2 & Hdel & Hs2 & Ha2).
  rewrite (bind_run _ _ _ _ _ Hdel). destruct sig; [by split; [|apply Hs2]|].
  by eapply (snd_section me).
Qed.

(** A receiver that was told to look again is still on the list. *)
Lemma inv_receiver_leaves me msqid n f s :
  msg_inv s → sleeping s me = InRecv msqid n f → r_msg (receivers s me) = inl (- EAGAIN) →
  ∃ a, ipc_get (msg_ids s) msqid = Some a ∧ 0 <= msqid ∧ 0 <= n ∧
    msg_inv (set_msg_ids (ipc_store msqid (set_q_receivers (filter (.≠ me) (q_receivers a)) a) (msg_ids s))
      (set_sleeping (<[me := Awake]> (sleeping s)) s)).
Proof.
  intros Hs Hw Hr. destruct (mc_recv _ _ _ (mi_core _ Hs) _ _ _ _ Hw) as (Hid & Hn & Hex & _).
  destruct (Hex Hr) as (a & Ha & Hin). apply get_holds in Ha; [|done]. exists a. split_and!; [done..|].
  set (a' := set_q_receivers _ a). set (slp := <[me := Awake]> (sleeping s)).
  refine (inv_store msqid a a' (receivers s) slp s Hs Ha eq_refl eq_refl eq_refl _).
  intros ids' Hok Hh. eapply core_leave; [apply Hs|exact Ha| |done|exact Hh]. rewrite Hw. split; [done|]. by rewrite slot_lid.
Qed.

Lemma rcv_wakeup me msqid msgsz msgflg sig put_ok s :
  msg_inv s → current (mks s) = me → sleeping s me = InRecv msqid msgsz msgflg →
  ends_well no_bug (msgrcv_wakeup sig put_ok s).
Proof.
  intros Hs Hc Hw. destruct (mc_recv _ _ _ (mi_core _ Hs) _ _ _ _ Hw) as (Hid & Hn & Hex & Hmsg).
  unfold msgrcv_wakeup. do 2 (unfold mbind at 1, ST_bind at 1; cbn [gets fst snd]). rewrite Hc, Hw.
  unfold set_sleep. erewrite bind_run by reflexivity. set (s1 := set_sleeping _ s).
  unfold mbind at 1, ST_bind at 1. cbn [gets fst snd]. change (receivers s1 me) with (receivers s me).
  assert (r_msg (receivers s me) ≠ inl (- EAGAIN) → msg_inv s1) as Hserved.
  { intros Hr. apply inv_sleep; [done| |done]. intros i a. by eapply served_unqueued; [apply Hs|]. }
  destruct (r_msg (receivers s me)) as [err|m] eqn:Hr.
  2:{ split; [apply out_success_fine; auto|by apply Hserved]. }
  unfold msg_lock, ipc_lock. unfold mbind at 1, ST_bind at 1. cbn [gets fst snd].
  destruct (Z.eqb_spec err (- EAGAIN)) as [->|Hne]; [|split; [done|]; apply Hserved; congruence].
  destruct (inv_receiver_leaves me msqid msgsz msgflg s Hs Hw Hr) as (a & Ha & _ & _ & Hs2).
  change (msg_ids s1) with (msg_ids s). rewrite Ha.
  rewrite (bind_run _ _ _ _ _ (upd_msq_run _ _ _ s1 Ha)).
  destruct sig; [by split|]. eapply rcv_section; [|by eapply get_store|done|done].
  split_and!; [exact Hs2|done|apply fn_lookup_insert].
Qed.

(** * Schedules *)

Inductive msg_call :=
  | MGet (key msgflg : Z) (mem : bool)
  | MSnd (msqid msgsz : Z) (mtype : option Z) (src : list Z) (alloc_ok copy_ok : nat → bool) (msgflg : Z)
  | MRcv (msqid msgsz msgtyp msgflg : Z) (put_ok : bool)
  | MCtl (msqid cmd : Z) (buf : bool) (setbuf : option msq_setbuf) (copy_ok : bool)
  | MWake (sig put_ok : bool).

(** A task that sleeps can only wake up, and the others can only make calls. *)
Definition exec_msg (c : msg_call) : G msg_result :=
  me ← gets (λ s, current (mks s));
  sl ← gets (λ s, sleeping s me);
  match (sl : msg_sleep), c with
  | Awake, MGet key msgflg mem => r ← sys_msgget key msgflg mem; mret (MsgRet r)
  | Awake, MSnd msqid msgsz mtype src alloc_ok copy_ok msgflg =>
      sys_msgsnd msqid msgsz mtype src alloc_ok copy_ok msgflg
  | Awake, MRcv msqid msgsz msgtyp msgflg put_ok => sys_msgrcv msqid msgsz msgtyp msgflg put_ok
  | Awake, MCtl msqid cmd buf setbuf copy_ok =>
      r ← sys_msgctl msqid cmd buf setbuf copy_ok; mret (MsgRet (r : Z * msg_out).1)
  | InSend _ _ _ _, MWake sig _ => msgsnd_wakeup sig
  | InRecv _ _ _, MWake sig put_ok => msgrcv_wakeup sig put_ok
  | _, _ => mret MsgSleep
  end.

(** The results of a schedule and the state it ends in. *)
Fixpoint run_msg (l : list (nat * msg_call)) (s : msg_state) : list msg_result * msg_state :=
  match l with
  | [] => ([], s)
  | (t, c) :: l =>
      let (r, s) := exec_msg c (set_mks (set_current t (mks s)) s) in
      let (rs, s) := run_msg l s in (r :: rs, s)
  end.

(** Sizes are unsigned, and the text lies in the caller's memory. *)
Definition call_ok (c : msg_call) : Prop :=
  match c with
  | MSnd _ msgsz _ src _ _ _ => 0 <= msgsz <= Z.of_nat (length src)
  | MRcv _ msgsz _ _ _ => 0 <= msgsz
  | _ => True
  end.

Lemma exec_fine c s : call_ok c → msg_inv s → ends_well no_bug (exec_msg c s).
Proof.
  intros Hc Hs. unfold exec_msg. do 2 (unfold mbind at 1, ST_bind at 1; cbn [gets fst snd]).
  destruct (sleeping s (current (mks s))) eqn:Hw; [|destruct c; try done; by eapply snd_wakeup|
    destruct c; try done; by eapply rcv_wakeup].
  assert (busy (current (mks s)) s) as Hb by done.
  destruct c; [|by eapply snd_call|by eapply rcv_call| |done].
  - split; [done|]. by apply inv_msgget.
  - split; [done|]. by apply inv_msgctl.
Qed.

Lemma run_fine l s :
  Forall (λ tc, call_ok tc.2) l → msg_inv s → let (rs, s') := run_msg l s in Forall no_bug rs ∧ msg_inv s'.
Proof.
  revert s. induction l as [|[t c] l IH]; intros s Hl Hs; cbn [run_msg]; [by split|].
  apply Forall_cons in Hl as [Hc Hl]. set (s0 := set_mks _ s).
  assert (msg_inv s0) as Hs0 by (by eapply inv_ext; [..|exact Hs]).
  destruct (exec_fine c s0 Hc Hs0) as [Hr Hs1]. destruct (exec_msg c s0) as [r s1].
  specialize (IH s1 Hl Hs1). destruct (run_msg l s1) as [rs s2]. destruct IH. split; [by constructor|done].
Qed.

Lemma inv_msg_init k t : msg_inv (msg_init k t).
Proof.
  assert (∀ i a, ¬ holds (msg_ids (msg_init k t)) i a) as Hno.
  { intros i a [_ Hp]. unfold msg_init, ipc_init_ids in Hp. cbn [msg_ids entries] in Hp.
    by apply lookup_replicate in Hp as [? _]. }
  split; [split|done..].
  - by apply init_ok.
  - intros i a Ha. by destruct (Hno i a).
  - done.
  - done.
Qed.
