(* ===== verification/MsgThms.v ===== *)
(** The properties of System V message queues, with their witnesses. *)
From S2P Require Import Prelude UidHash Cred CredProofs CredRun CredThms Ipc IpcProofs Msg MsgInv MsgRun.
From stdpp Require Import list options.
#[local] Set Default Proof Using "Type*".
Open Scope cint_scope.
Open Scope Z_scope.

(** * The queues along a schedule *)

(** C33. Whatever calls and wake-ups the tasks make from the initial state: no
    [BUG()] and no NULL segment is reached, the byte and message counts of each
    queue and of the system are exact (modulo their width), no receiver sleeps
    on a queue that holds a message it accepts, and every sleeping receiver that
    has been given neither a message nor an error is still on the list of its
    queue. *)
Theorem msg_queues_sound k t l :
  Forall (λ tc, call_ok tc.2) l →
  let (rs, s) := run_msg l (msg_init k t) in
  MsgBug ∉ rs ∧
  (∀ i a, holds (msg_ids s) i a →
     q_cbytes a = u32 (zsum m_ts (q_messages a)) ∧ q_qnum a = u32 (Z.of_nat (length (q_messages a))) ∧
     ∀ u m, u ∈ q_receivers a → m ∈ q_messages a → receiver_accepts s u m = false) ∧
  msg_bytes s = s32 (zsum cbytes_of (entries (msg_ids s))) ∧
  msg_hdrs s = s32 (zsum hdrs_of (entries (msg_ids s))) ∧
  (∀ u msqid n f, sleeping s u = InRecv msqid n f → r_msg (receivers s u) = inl (- EAGAIN) →
     ∃ a, holds (msg_ids s) (lid_of msqid) a ∧ u ∈ q_receivers a).
Proof.
  intros Hl. pose proof (run_fine l _ Hl (inv_msg_init k t)) as H. destruct (run_msg l (msg_init k t)) as [rs s].
  destruct H as [Hrs [Hc Hb Hh]]. split_and!; [|intros i a Ha; split_and!|done|done|].
  - intros Hin. by apply (list.Forall_forall no_bug rs) in Hin.
  - by eapply qo_cbytes, mc_queue.
  - by eapply qo_qnum, mc_queue.
  - intros u m Hu Hm. by eapply qo_stuck; [eapply mc_queue|..].
  - intros u msqid n f Hu. by destruct (mc_recv _ _ _ Hc _ _ _ _ Hu) as (_ & _ & ? & _).
Qed.

Definition msg_tasks : kstate := demo [demo_task 10 0 cap_all; demo_task 11 0 cap_all] 0.

(** Task 1 waits for type 5; a message of type 3 is queued, one of type 5 goes
    straight to the waiting task, which cuts it to two bytes. *)
Definition msg_demo : list (nat * msg_call) :=
  [(0%nat, MGet 7 (Z.lor IPC_CREAT 0x180) true);
   (1%nat, MRcv 0 2 5 MSG_NOERROR true);
   (0%nat, MSnd 0 3 (Some 3) [1; 2; 3] (λ _, true) (λ _, true) 0);
   (0%nat, MSnd 0 4 (Some 5) [4; 5; 6; 7] (λ _, true) (λ _, true) 0);
   (1%nat, MWake false true)].

Lemma msg_demo_ok : Forall (λ tc, call_ok tc.2) msg_demo.
Proof. repeat constructor; simpl; lia. Qed.

Lemma msg_queues_sound_witness :
  (run_msg msg_demo (msg_init msg_tasks 0)).1 =
    [MsgRet 0; MsgSleep; MsgRet 0; MsgRet 0; MsgGot 2 5 [4; 5]] ∧
  msg_bytes (run_msg msg_demo (msg_init msg_tasks 0)).2 = 3 ∧
  MsgBug ∉ (run_msg msg_demo (msg_init msg_tasks 0)).1.
Proof.
  split; [by vm_compute|]. split; [by vm_compute|].
  pose proof (msg_queues_sound msg_tasks 0 msg_demo msg_demo_ok) as H.
  destruct (run_msg msg_demo (msg_init msg_tasks 0)) as [rs s]. apply H.
Defined.

(** * Receiving *)

(** What msgrcv does with the result [r] of the search on the queue [a] that
    [msqid] names; [s] is the state once permission has been granted. *)
Definition received (msqid msgsz msgtyp msgflg : Z) (put_ok : bool) (a : msg_queue) (r : option nat)
    (s : msg_state) (res : msg_result) (s' : msg_state) : Prop :=
  let me := current (mks s) in
  match r with
  | Some i => ∃ m, q_messages a !! i = Some m ∧
      if decide (msgsz < m_ts m ∧ (msgflg & MSG_NOERROR) = false) then res = MsgRet (- E2BIG) ∧ s' = s
      else res = out_success m msgsz put_ok ∧
        ipc_get (msg_ids s') msqid =
          Some (set_q_received (pid (cur (mks s))) (mnow s)
            (set_q_content (delete i (q_messages a)) (u32 (q_cbytes a - m_ts m)) (u32 (q_qnum a - 1)) a)) ∧
        msg_bytes s' = s32 (msg_bytes s - m_ts m) ∧ msg_hdrs s' = s32 (msg_hdrs s - 1) ∧
        mwoken s' = mwoken s ++ q_senders a
  | None =>
      if msgflg & IPC_NOWAIT then res = MsgRet (- ENOMSG) ∧ s' = s
      else res = MsgSleep ∧ sleeping s' me = InRecv msqid msgsz msgflg ∧
        ipc_get (msg_ids s') msqid = Some (set_q_receivers (q_receivers a ++ [me]) a) ∧
        (∀ m, testmsg m (r_msgtype (receivers s' me)) (r_mode (receivers s' me)) = true ↔ wanted msgtyp msgflg m) ∧
        r_msg (receivers s' me) = inl (- EAGAIN)
  end.


(** Two messages of types 9 and 4, and a call for the least type up to 10. *)
Definition two_messages : list (nat * msg_call) :=
  [(0%nat, MGet 7 (Z.lor IPC_CREAT 0x180) true);
   (0%nat, MSnd 0 1 (Some 9) [1] (λ _, true) (λ _, true) 0);
   (0%nat, MSnd 0 1 (Some 4) [2] (λ _, true) (λ _, true) 0)].


(** The least [long] is its own negation, so a call with it accepts nothing. *)
Lemma msgrcv_long_min msgflg m :
  1 <= m_type m → let (mode, typ) := convert_mode LONG_MIN msgflg in testmsg m typ mode = false.
Proof. intros Hm. apply Z.leb_gt. change (LONG_MIN < m_type m). unfold LONG_MIN. lia. Qed.

(** * Text *)

(** C40. Text is carried faithfully: after a successful msgsnd, a waiting receiver
    that accepts the message has it, or it is the last of the queue; and
    whoever takes it with room for [n] bytes gets its type and the first [n]
    bytes of the text that was sent, or all of it when it is shorter, however
    it was cut into segments. *)
Theorem msg_text_roundtrip me msqid msgsz mtype src alloc_ok copy_ok msgflg s s' a n :
  busy me s → ipc_get (msg_ids s) msqid = Some a → 0 <= msgsz <= Z.of_nat (length src) → 0 <= n →
  sys_msgsnd msqid msgsz (Some mtype) src alloc_ok copy_ok msgflg s = (MsgRet 0, s') →
  ∃ msg, sent_to s a msg s' msqid ∧
    out_success msg n true = MsgGot (Z.min n msgsz) mtype (take (Z.to_nat (Z.min n msgsz)) src).
Proof.
  intros Hs Ha Hsz Hn. unfold sys_msgsnd. destruct (_ || _) eqn:Hb; [done|]. to_prop.
  destruct (Z.ltb_spec mtype 1); [done|].
  destruct (load_msg alloc_ok copy_ok src msgsz) as [e|msg] eqn:Hl.
  { intros [= -> _]. exfalso. by eapply load_msg_error. }
  unfold msg_lock, ipc_lock. unfold mbind at 1, ST_bind at 1. cbn [gets fst snd]. rewrite Ha. cbv zeta.
  set (msg' := mk_msg _ _ _ _). intros Hrun.
  assert (msg_ok msg') as Hm by by eapply load_ok.
  destruct (snd_section me msqid msgsz msgflg msg' s a Hs Ha ltac:(done) Hm eq_refl) as [_ Hsent].
  rewrite Hrun in Hsent. exists msg'. split; [by apply Hsent|]. unfold out_success. cbn [m_ts msg'].
  assert ((if n >? msgsz then msgsz else n) = Z.min n msgsz) as -> by (destruct (Z.gtb_spec n msgsz); lia).
  change (store_msg msg' ?x) with (store_msg msg x).
  by rewrite (load_store_msg _ _ _ _ _ _ Hl) by lia.
Qed.

(** A text of 4200 bytes goes into two pieces and comes back. *)
Lemma msg_text_roundtrip_witness :
  let s := (run_msg [(0%nat, MGet 7 (Z.lor IPC_CREAT 0x180) true)] (msg_init msg_tasks 0)).2 in
  let src := replicate 4200 9 in
  let s' := (sys_msgsnd 0 4200 (Some 2) src (λ _, true) (λ _, true) 0 s).2 in
  ∃ a msg, sent_to s a msg s' 0 ∧ out_success msg 8192 true = MsgGot 4200 2 src.
Proof.
  set (s := (run_msg _ _).2). cbv zeta. set (src := replicate 4200 9).
  destruct (ipc_get (msg_ids s) 0) as [a|] eqn:Ha; [|by vm_compute in Ha].
  destruct (msg_text_roundtrip 0 0 4200 2 src (λ _, true) (λ _, true) 0 s
    (sys_msgsnd 0 4200 (Some 2) src (λ _, true) (λ _, true) 0 s).2 a 8192) as (msg & Hsent & Hout).
  - split_and!; [|done|done].
    pose proof (run_fine [(0%nat, MGet 7 (Z.lor IPC_CREAT 0x180) true)] (msg_init msg_tasks 0)) as H.
    destruct (run_msg _ _) as [rs s1]. by apply H; [repeat constructor|apply inv_msg_init].
  - done.
  - split; [done|]. by vm_compute.
  - done.
  - assert ((sys_msgsnd 0 4200 (Some 2) src (λ _, true) (λ _, true) 0 s).1 = MsgRet 0) as <- by by vm_compute.
    by destruct (sys_msgsnd _ _ _ _ _ _ _ _).
  - exists a, msg. split; [done|]. rewrite Hout. by vm_compute.
Defined.
