(* ===== verification/Timer.v ===== *)
(** Kernel timers (kernel/timer.c): the five vectors of the timer wheel, adding,
    changing and deleting timers, the cascade from one vector to the next, and
    [run_timer_list], which calls the functions of the timers that are due. *)
From S2P Require Import Prelude.
From stdpp Require Import list functions options.
#[local] Set Default Proof Using "Type*".
Open Scope Z_scope.

Definition TVN_BITS : Z := 6.
Definition TVR_BITS : Z := 8.
Definition TVN_SIZE : Z := Z.shiftl 1 TVN_BITS.
Definition TVR_SIZE : Z := Z.shiftl 1 TVR_BITS.
Definition TVN_MASK : Z := TVN_SIZE - 1.
Definition TVR_MASK : Z := TVR_SIZE - 1.

(** [struct timer_vec] and [struct timer_vec_root]: each slot is a list. *)
Record timer_vec := mk_tv { tv_index : Z; tv_vec : Z → list nat }.

(** A timer is a number; [expires] and [linked] are its fields (it is linked
    when [list.next] is not NULL). [tvecs 0] to [tvecs 4] are tv1 to tv5, and
    [ran] records the calls of timer functions with the value of
    [timer_jiffies]. *)
Record timer_state := mk_ts {
  tvecs : nat → timer_vec;
  timer_jiffies : Z;  (* unsigned long *)
  run_timer_list_running : option (list nat);
  expires : nat → Z;  (* unsigned long *)
  linked : nat → bool;
  ran : list (nat * Z)
}.

Definition set_tvecs (x : nat → timer_vec) (s : timer_state) : timer_state :=
  mk_ts x (timer_jiffies s) (run_timer_list_running s) (expires s) (linked s) (ran s).
Definition set_jiffies (x : Z) (s : timer_state) : timer_state :=
  mk_ts (tvecs s) x (run_timer_list_running s) (expires s) (linked s) (ran s).
Definition set_running (x : option (list nat)) (s : timer_state) : timer_state :=
  mk_ts (tvecs s) (timer_jiffies s) x (expires s) (linked s) (ran s).
Definition set_expires (t : nat) (x : Z) (s : timer_state) : timer_state :=
  mk_ts (tvecs s) (timer_jiffies s) (run_timer_list_running s) (<[t := x]> (expires s)) (linked s) (ran s).
Definition set_linked (t : nat) (x : bool) (s : timer_state) : timer_state :=
  mk_ts (tvecs s) (timer_jiffies s) (run_timer_list_running s) (expires s) (<[t := x]> (linked s)) (ran s).
Definition set_ran (x : list (nat * Z)) (s : timer_state) : timer_state :=
  mk_ts (tvecs s) (timer_jiffies s) (run_timer_list_running s) (expires s) (linked s) x.

Definition init_timervecs : timer_state :=
  mk_ts (λ _, mk_tv 0 (λ _, [])) 0 None (λ _, 0) (λ _, false) [].

Definition timer_pending (t : nat) (s : timer_state) : bool := linked s t.

(** [list_add] before the head of a slot. *)
Definition vec_add (n : nat) (i : Z) (t : nat) (s : timer_state) : timer_state :=
  let tv := tvecs s n in
  set_tvecs (<[n := mk_tv (tv_index tv) (<[i := tv_vec tv i ++ [t]]> (tv_vec tv))]> (tvecs s)) s.

(** [list_del] takes a timer from the list it is on. *)
Definition list_del (t : nat) (s : timer_state) : timer_state :=
  set_running (filter (.≠ t) <$> run_timer_list_running s)
    (set_tvecs (λ n, mk_tv (tv_index (tvecs s n)) (λ i, filter (.≠ t) (tv_vec (tvecs s n) i))) s).

Definition internal_add_timer (t : nat) (s : timer_state) : timer_state :=
  let expires := expires s t in
  let idx := u32 (expires - timer_jiffies s) in
  set_linked t true
    match run_timer_list_running s with
    | Some queued => set_running (Some (queued ++ [t])) s
    | None =>
        if idx <? TVR_SIZE then vec_add 0 (Z.land expires TVR_MASK) t s
        else if idx <? Z.shiftl 1 (TVR_BITS + TVN_BITS) then
          vec_add 1 (Z.land (Z.shiftr expires TVR_BITS) TVN_MASK) t s
        else if idx <? Z.shiftl 1 (TVR_BITS + 2 * TVN_BITS) then
          vec_add 2 (Z.land (Z.shiftr expires (TVR_BITS + TVN_BITS)) TVN_MASK) t s
        else if idx <? Z.shiftl 1 (TVR_BITS + 3 * TVN_BITS) then
          vec_add 3 (Z.land (Z.shiftr expires (TVR_BITS + 2 * TVN_BITS)) TVN_MASK) t s
        else if s32 idx <? 0 then vec_add 0 (tv_index (tvecs s 0%nat)) t s
        else if idx <=? 0xffffffff then
          vec_add 4 (Z.land (Z.shiftr expires (TVR_BITS + 3 * TVN_BITS)) TVN_MASK) t s
        else s
    end.

(** A timer added twice is only reported. *)
Definition add_timer (t : nat) (s : timer_state) : timer_state :=
  if timer_pending t s then s else internal_add_timer t s.

Definition detach_timer (t : nat) (s : timer_state) : Z * timer_state :=
  if negb (timer_pending t s) then (0, s) else (1, list_del t s).

Definition mod_timer (t : nat) (expires : Z) (s : timer_state) : Z * timer_state :=
  let s := set_expires t expires s in
  let (ret, s) := detach_timer t s in
  (ret, internal_add_timer t s).

Definition del_timer (t : nat) (s : timer_state) : Z * timer_state :=
  let (ret, s) := detach_timer t s in
  (ret, set_linked t false s).

(** ** The functions of the timers

    They are code of drivers and protocols; what matters here is which timer
    calls they make. An [OAdd] is an initialised timer with its [expires] set,
    handed to [add_timer]; callers leave [expires] of a pending timer alone. *)
Inductive timer_op :=
  | OAdd (t : nat) (expires : Z)
  | OMod (t : nat) (expires : Z)
  | ODel (t : nat).

Class TimerFn := timer_fn : list (nat * Z) → nat → list timer_op.

Definition exec_timer_op (op : timer_op) (s : timer_state) : timer_state :=
  match op with
  | OAdd t e => add_timer t (if timer_pending t s then s else set_expires t e s)
  | OMod t e => (mod_timer t e s).2
  | ODel t => (del_timer t s).2
  end.

Definition exec_timer_ops (ops : list timer_op) (s : timer_state) : timer_state :=
  foldl (λ s op, exec_timer_op op s) s ops.

(** ** Running timers *)

Fixpoint cascade_loop (l : list nat) (s : timer_state) : timer_state :=
  match l with
  | [] => s
  | t :: l => cascade_loop l (internal_add_timer t (list_del t s))
  end.

Definition cascade_timers (n : nat) (s : timer_state) : timer_state :=
  let i := tv_index (tvecs s n) in
  let s := cascade_loop (tv_vec (tvecs s n) i) s in
  let tv := tvecs s n in
  set_tvecs (<[n := mk_tv (Z.land (i + 1) TVN_MASK) (<[i := []]> (tv_vec tv))]> (tvecs s)) s.

(** The [do ... while] of [run_timer_list] over the vectors [l]. *)
Fixpoint cascade_from (l : list nat) (s : timer_state) : timer_state :=
  match l with
  | [] => s
  | n :: l =>
      let s := cascade_timers n s in
      if tv_index (tvecs s n) =? 1 then cascade_from l s else s
  end.

(** The final loop over the timers queued by timer functions. *)
Fixpoint requeue (l : list nat) (s : timer_state) : timer_state :=
  match l with
  | [] => s
  | t :: l => requeue l (internal_add_timer t s)
  end.

Section run.
Context `{TimerFn}.

(** From the label [repeat] on; [fuel] bounds the number of timers called. *)
Fixpoint run_slot (fuel : nat) (s : timer_state) : timer_state :=
  match fuel with
  | O => s
  | S fuel =>
      match tv_vec (tvecs s 0%nat) (tv_index (tvecs s 0%nat)) with
      | [] => s
      | t :: _ =>
          let s := set_linked t false (detach_timer t s).2 in
          let s := set_ran (ran s ++ [(t, timer_jiffies s)]) s in
          run_slot fuel (exec_timer_ops (timer_fn (ran s) t) s)
      end
  end.

(** One round of the outer loop. *)
Definition run_tick (s : timer_state) : timer_state :=
  let s := if tv_index (tvecs s 0%nat) =? 0 then cascade_from [1; 2; 3; 4]%nat s else s in
  let s := set_running (Some []) s in
  let s := run_slot (length (tv_vec (tvecs s 0%nat) (tv_index (tvecs s 0%nat)))) s in
  let queued := default [] (run_timer_list_running s) in
  let s := set_running None s in
  let s := set_jiffies (u32 (timer_jiffies s + 1)) s in
  let tv1 := tvecs s 0%nat in
  let s := set_tvecs (<[0%nat := mk_tv (Z.land (tv_index tv1 + 1) TVR_MASK) (tv_vec tv1)]> (tvecs s)) s in
  requeue queued s.

(** [fuel] bounds the rounds of the outer loop. *)
Fixpoint tick_loop (fuel : nat) (jiffies : Z) (s : timer_state) : timer_state :=
  match fuel with
  | O => s
  | S fuel =>
      if s32 (jiffies - timer_jiffies s) >=? 0 then tick_loop fuel jiffies (run_tick s) else s
  end.

Definition run_timer_list (jiffies : Z) (s : timer_state) : timer_state :=
  tick_loop (Z.to_nat (s32 (jiffies - timer_jiffies s) + 1)) jiffies s.
End run.
