(* ===== verification/TimerProofs.v ===== *)
(** The timer wheel as a map from timers to the ticks at which they are due:
    where a timer with a given due tick may lie, and what each operation does
    to that. *)
From S2P Require Import Prelude Timer.
From stdpp Require Import list functions options.
#[local] Set Default Proof Using "Type*".
Open Scope Z_scope.

(** * Slots *)

(** Ticks per slot and slots of the vector [n]. *)
Definition gran (n : nat) : Z :=
  match n with O => 1 | 1%nat => 256 | 2%nat => 16384 | 3%nat => 1048576 | _ => 67108864 end.
Definition lsize (n : nat) : Z := match n with O => 256 | _ => 64 end.

Definition slot_of (n : nat) (D : Z) : Z := (D / gran n) mod lsize n.

(** The first tick of the slot: for a higher vector, when it is cascaded. *)
Definition start (n : nat) (D : Z) : Z := D / gran n * gran n.

(** A timer due at [D] may be in slot [i] of vector [n] at tick [now]: the slot
    comes up at the right time, not before [lo n]. *)
Definition in_slot (lo : nat → Z) (now : Z) (n : nat) (i D : Z) : Prop :=
  i = slot_of n D ∧ lo n <= start n D < now + lsize n * gran n.

(** The due tick of a timer that is set to [e] when [base] is the next tick to
    run: [e], or at once when [e] is past. *)
Definition eff (e base : Z) : Z :=
  let d := u32 (e - base) in base + (if d <? 2 ^ 31 then d else 0).

Lemma gran_pos n : 0 < gran n.
Proof. by destruct n as [|[|[|[|n]]]]. Qed.

Lemma start_bound n D : D - gran n < start n D <= D.
Proof. unfold start. pose proof (gran_pos n). pose proof (Z.div_mod D (gran n)). pose proof (Z.mod_pos_bound D (gran n)). lia. Qed.

Lemma eff_bound e base : base <= eff e base < base + 2 ^ 31.
Proof.
  unfold eff. cbv zeta. pose proof (u32_bound (e - base)). destruct (Z.ltb_spec (u32 (e - base)) (2 ^ 31)); lia.
Qed.

Lemma u32_sub_l a b : u32 (a - u32 b) = u32 (a - b).
Proof. unfold u32. apply Zminus_mod_idemp_r. Qed.

Lemma s32_neg a : 2147483648 <= a < 4294967296 → s32 a = a - 4294967296.
Proof.
  intros Ha. unfold s32. change (2 ^ 31) with 2147483648. change (2 ^ 32) with 4294967296.
  replace (a + 2147483648) with (a - 2147483648 + 1 * 4294967296) by lia.
  rewrite Z.mod_add, Z.mod_small by lia. lia.
Qed.

(** The slot the code computes from [expires] is that of the due tick. *)
Lemma slot_mask e D k m :
  u32 e = u32 D → 0 <= k → 0 <= m → k + m <= 32 →
  Z.land (Z.shiftr e k) (Z.ones m) = (D / 2 ^ k) mod 2 ^ m.
Proof.
  intros He Hk Hm Hkm. rewrite Z.land_ones, Z.shiftr_div_pow2 by lia.
  pose proof (Z.pow_pos_nonneg 2 k ltac:(lia) Hk). pose proof (Z.pow_pos_nonneg 2 m ltac:(lia) Hm).
  pose proof (Z.pow_pos_nonneg 2 (32 - k - m) ltac:(lia) ltac:(lia)).
  assert (2 ^ 32 = 2 ^ k * 2 ^ m * 2 ^ (32 - k - m)) as Hp.
  { rewrite <-!Z.pow_add_r by lia. f_equal. lia. }
  unfold u32 in He. assert (e = D + (e / 2 ^ 32 - D / 2 ^ 32) * 2 ^ m * 2 ^ (32 - k - m) * 2 ^ k) as ->.
  { replace ((e / 2 ^ 32 - D / 2 ^ 32) * 2 ^ m * 2 ^ (32 - k - m) * 2 ^ k) with
      ((e / 2 ^ 32 - D / 2 ^ 32) * 2 ^ 32) by (rewrite Hp; ring).
    pose proof (Z.div_mod e (2 ^ 32) ltac:(lia)). pose proof (Z.div_mod D (2 ^ 32) ltac:(lia)). lia. }
  rewrite Z.div_add by lia.
  replace ((e / 2 ^ 32 - D / 2 ^ 32) * 2 ^ m * 2 ^ (32 - k - m)) with
    ((e / 2 ^ 32 - D / 2 ^ 32) * 2 ^ (32 - k - m) * 2 ^ m) by lia.
  apply Z.mod_add. lia.
Qed.

Lemma u32_eff e base : u32 (e - base) < 2 ^ 31 → u32 e = u32 (eff e base) ∧ eff e base = base + u32 (e - base).
Proof.
  intros Hd. unfold eff. cbv zeta. rewrite (proj2 (Z.ltb_lt _ _) Hd). split; [|done].
  unfold u32. rewrite Zplus_mod_idemp_r. f_equal. lia.
Qed.

(** A timer [d] ticks ahead fits into the first vector that spans [d]. *)
Lemma place_ok n k m e now :
  gran n = 2 ^ k → lsize n = 2 ^ m → 0 <= k → 0 <= m → k + m <= 32 →
  let d := u32 (e - now) in let D := eff e now in
  d < 2 ^ 31 → (n = 0%nat ∨ gran n <= d) → d < lsize n * gran n →
  Z.land (Z.shiftr e k) (Z.ones m) = slot_of n D ∧ now <= start n D < now + lsize n * gran n ∧
  ((0 < n)%nat → now < start n D ∧ u32 e = u32 D) ∧ D = now + d.
Proof.
  intros Hg Hl Hk Hm Hkm d D Hd Hlow Hspan. destruct (u32_eff e now Hd) as [Hu HD]. fold D d in Hu, HD.
  pose proof (start_bound n D). pose proof (u32_bound (e - now)). fold d in H0.
  split; [unfold slot_of; rewrite Hg, Hl; by apply slot_mask|].
  split_and!; [|lia|intros Hn; split; [lia|done]|done].
  destruct Hlow as [->|Hlow]; [|lia]. unfold start. simpl gran. rewrite Z.div_1_r, Z.mul_1_r. lia.
Qed.

(** ** Where [internal_add_timer] puts a timer *)

Definition vecs (s : timer_state) (n : nat) (i : Z) : list nat := tv_vec (tvecs s n) i.

Lemma internal_add_spec t s now :
  run_timer_list_running s = None → timer_jiffies s = u32 now → tv_index (tvecs s 0%nat) = now mod 256 →
  let e := expires s t in let D := eff e now in
  ∃ n i, (n < 5)%nat ∧ internal_add_timer t s = set_linked t true (vec_add n i t s) ∧
    i = slot_of n D ∧ now <= start n D < now + lsize n * gran n ∧
    ((0 < n)%nat → now < start n D ∧ u32 e = u32 D) ∧
    ∀ m, (0 < m)%nat → D - now < gran m → (n < m)%nat.
Proof.
  intros Hr Hj Hi e D. unfold internal_add_timer. rewrite Hr, Hj. cbv zeta. fold e. rewrite u32_sub_l.
  pose proof (u32_bound (e - now)) as Hb.
  change (Z.shiftl 1 (TVR_BITS + TVN_BITS)) with 16384. change (Z.shiftl 1 (TVR_BITS + 2 * TVN_BITS)) with 1048576.
  change (Z.shiftl 1 (TVR_BITS + 3 * TVN_BITS)) with 67108864. change TVR_SIZE with 256.
  change TVN_MASK with (Z.ones 6). change TVR_MASK with (Z.ones 8).
  assert (∀ n k m, gran n = 2 ^ k → lsize n = 2 ^ m → 0 <= k → 0 <= m → k + m <= 32 → (n < 5)%nat →
    u32 (e - now) < 2 ^ 31 → (n = 0%nat ∨ gran n <= u32 (e - now)) → u32 (e - now) < lsize n * gran n →
    ∃ n' i, (n' < 5)%nat ∧ set_linked t true (vec_add n (Z.land (Z.shiftr e k) (Z.ones m)) t s) =
      set_linked t true (vec_add n' i t s) ∧ i = slot_of n' D ∧ now <= start n' D < now + lsize n' * gran n' ∧
      ((0 < n')%nat → now < start n' D ∧ u32 e = u32 D) ∧
      ∀ m, (0 < m)%nat → D - now < gran m → (n' < m)%nat) as Hput.
  { intros n k m Hg Hl Hk Hm Hkm Hn Hd Hlow Hspan.
    destruct (place_ok n k m e now Hg Hl Hk Hm Hkm Hd Hlow Hspan) as (Hs & Hst & Hup & HD).
    exists n, (Z.land (Z.shiftr e k) (Z.ones m)). split_and!; [done|done|exact Hs|apply Hst|apply Hst|exact Hup|].
    intros j Hj0 Hlt. fold D in HD. destruct Hlow as [->|Hlow]; [done|].
    destruct n as [|[|[|[|[|n]]]]], j as [|[|[|[|[|j]]]]]; simpl in *; lia. }
  destruct (Z.ltb_spec (u32 (e - now)) 256).
  { apply (Hput 0%nat 0 8); simpl; lia. }
  destruct (Z.ltb_spec (u32 (e - now)) 16384).
  { apply (Hput 1%nat 8 6); simpl; lia. }
  destruct (Z.ltb_spec (u32 (e - now)) 1048576).
  { apply (Hput 2%nat 14 6); simpl; lia. }
  destruct (Z.ltb_spec (u32 (e - now)) 67108864).
  { apply (Hput 3%nat 20 6); simpl; lia. }
  destruct (Z.ltb_spec (s32 (u32 (e - now))) 0) as [Hneg|Hpos].
  - assert (D = now) as HD.
    { unfold D, eff. cbv zeta. destruct (Z.ltb_spec (u32 (e - now)) (2 ^ 31)); [|lia].
      rewrite s32_small in Hneg; lia. }
    exists 0%nat, (tv_index (tvecs s 0%nat)). rewrite HD. unfold slot_of, start. simpl gran. simpl lsize.
    rewrite Z.div_1_r. split_and!; try done; lia.
  - rewrite (proj2 (Z.leb_le _ _)) by lia. assert (u32 (e - now) < 2 ^ 31).
    { destruct (Z.ltb_spec (u32 (e - now)) (2 ^ 31)) as [|Hge]; [done|]. by rewrite s32_neg in Hpos by lia; lia. }
    apply (Hput 4%nat 26 6); simpl; lia.
Qed.

(** * The wheel and the due ticks *)

(** At tick [now], with [base] the next tick whose timers can still be set, the
    wheel [s] and the timers [rest] that wait to be put back hold exactly the
    timers of [due], each where it is found in time. *)
Record wheel_ok (lo : nat → Z) (now base : Z) (rest : list nat) (due : nat → option Z) (s : timer_state) : Prop := {
  w_slot n i t : t ∈ vecs s n i →
    (n < 5)%nat ∧ ∃ D, due t = Some D ∧ in_slot lo now n i D ∧ ((0 < n)%nat → u32 (expires s t) = u32 D);
  w_rest t : t ∈ rest → due t = Some (eff (expires s t) base);
  w_all t D : due t = Some D → (∃ n i, t ∈ vecs s n i) ∨ t ∈ rest;
  w_linked t : linked s t = true ↔ is_Some (due t)
}.

(** The same while timer [t0] is on no list. *)
Record loose (t0 : nat) (lo : nat → Z) (now base : Z) (rest : list nat) (due : nat → option Z) (s : timer_state) : Prop := {
  l_slot n i t : t ∈ vecs s n i →
    t ≠ t0 ∧ (n < 5)%nat ∧ ∃ D, due t = Some D ∧ in_slot lo now n i D ∧ ((0 < n)%nat → u32 (expires s t) = u32 D);
  l_rest t : t ∈ rest → t ≠ t0 ∧ due t = Some (eff (expires s t) base);
  l_all t D : t ≠ t0 → due t = Some D → (∃ n i, t ∈ vecs s n i) ∨ t ∈ rest;
  l_linked t : t ≠ t0 → linked s t = true ↔ is_Some (due t)
}.

(** What no timer operation changes. *)
Definition same_clock (s s' : timer_state) : Prop :=
  timer_jiffies s' = timer_jiffies s ∧ ran s' = ran s ∧ ∀ n, tv_index (tvecs s' n) = tv_index (tvecs s n).

Lemma same_clock_trans s1 s2 s3 : same_clock s1 s2 → same_clock s2 s3 → same_clock s1 s3.
Proof. intros (E1 & E2 & E3) (F1 & F2 & F3). split_and!; [congruence..|]. intros n. by rewrite F3. Qed.

Lemma vecs_list_del t s n i : vecs (list_del t s) n i = filter (.≠ t) (vecs s n i).
Proof. done. Qed.

Lemma vecs_add n i t s m j :
  vecs (vec_add n i t s) m j = if decide (m = n ∧ j = i) then vecs s n i ++ [t] else vecs s m j.
Proof.
  unfold vecs, vec_add. cbn [tvecs set_tvecs]. destruct (decide (m = n)) as [->|Hm].
  - rewrite fn_lookup_insert. cbn [tv_vec]. destruct (decide (j = i)) as [->|Hj].
    + by rewrite fn_lookup_insert, decide_True.
    + rewrite fn_lookup_insert_ne by congruence. rewrite decide_False; [done|]. by intros [_ ->].
  - rewrite fn_lookup_insert_ne by done. rewrite decide_False; [done|]. by intros [? _].
Qed.

Lemma vec_add_clock n i t s : same_clock s (vec_add n i t s).
Proof.
  split_and!; [done..|]. intros m. unfold vec_add. cbn [tvecs set_tvecs]. destruct (decide (m = n)) as [->|Hm].
  - by rewrite fn_lookup_insert.
  - by rewrite fn_lookup_insert_ne.
Qed.

(** The same state up to the [expires] of one timer. *)
Definition but_expires (t : nat) (s s1 : timer_state) : Prop :=
  tvecs s1 = tvecs s ∧ linked s1 = linked s ∧ run_timer_list_running s1 = run_timer_list_running s ∧
  timer_jiffies s1 = timer_jiffies s ∧ ran s1 = ran s ∧ ∀ u, u ≠ t → expires s1 u = expires s u.

Lemma but_expires_set t e s : but_expires t s (set_expires t e s).
Proof. split_and!; [done..|]. intros u Hu. by apply fn_lookup_insert_ne. Qed.

(** A timer taken off its list; setting its [expires] at the same time does not
    matter. *)
Lemma loose_del t lo now base rest due s s1 :
  wheel_ok lo now base rest due s → but_expires t s s1 →
  loose t lo now base (filter (.≠ t) rest) due (list_del t s1).
Proof.
  intros [H1 H2 H3 H4] (E1 & E2 & _ & _ & _ & E3). split.
  - intros n i u Hu. rewrite vecs_list_del in Hu. apply list_elem_of_filter in Hu as [Hne Hu].
    unfold vecs in Hu. rewrite E1 in Hu. split; [done|].
    destruct (H1 n i u Hu) as (? & D & ? & ? & ?). split; [done|]. exists D. cbn. by rewrite E3.
  - intros u [Hne Hu]%list_elem_of_filter. split; [done|]. cbn. rewrite E3 by done. auto.
  - intros u D Hne HD. destruct (H3 u D HD) as [(n & i & Hu)|Hu].
    + left. exists n, i. rewrite vecs_list_del. unfold vecs. rewrite E1. by apply list_elem_of_filter.
    + right. by apply list_elem_of_filter.
  - intros u _. cbn. rewrite E2. apply H4.
Qed.

(** A timer that is not pending is on no list. *)
Lemma loose_idle t lo now base rest due s s1 :
  wheel_ok lo now base rest due s → due t = None → but_expires t s s1 → loose t lo now base rest due s1.
Proof.
  intros [H1 H2 H3 H4] Ht (E1 & E2 & _ & _ & _ & E3). unfold vecs in *. split; unfold vecs; rewrite ?E1, ?E2.
  - intros n i u Hu. destruct (H1 n i u Hu) as (? & D & HD & ? & ?). assert (u ≠ t) by congruence.
    split; [done|]. split; [done|]. exists D. by rewrite E3.
  - intros u Hu. assert (u ≠ t) by (intros ->; specialize (H2 t Hu); congruence). split; [done|].
    rewrite E3 by done. auto.
  - intros u D _. apply H3.
  - intros u _. apply H4.
Qed.

(** The timer stays off the lists. *)
Lemma loose_gone t lo now base rest due s :
  loose t lo now base rest due s → wheel_ok lo now base rest (<[t := None]> due) (set_linked t false s).
Proof.
  intros [H1 H2 H3 H4]. split.
  - intros n i u Hu. destruct (H1 n i u Hu) as (? & ? & D & HD). split; [done|]. exists D.
    by rewrite fn_lookup_insert_ne by done.
  - intros u Hu. destruct (H2 u Hu). by rewrite fn_lookup_insert_ne by done.
  - intros u D. destruct (decide (u = t)) as [->|]; [by rewrite fn_lookup_insert|].
    rewrite fn_lookup_insert_ne by done. by apply H3.
  - intros u. cbn. destruct (decide (u = t)) as [->|]; [|rewrite !fn_lookup_insert_ne by done; by apply H4].
    rewrite !fn_lookup_insert. split; [done|by intros []].
Qed.

(** The timer joins the list of timers to put back. *)
Lemma add_queued t lo now base rest due s :
  loose t lo now base rest due s → run_timer_list_running s = Some rest →
  let s' := internal_add_timer t s in
  wheel_ok lo now base (rest ++ [t]) (<[t := Some (eff (expires s t) base)]> due) s' ∧
  run_timer_list_running s' = Some (rest ++ [t]) ∧ same_clock s s'.
Proof.
  intros [H1 H2 H3 H4] Hr s'. assert (s' = set_linked t true (set_running (Some (rest ++ [t])) s)) as ->
    by (unfold s', internal_add_timer; by rewrite Hr).
  split; [|by split_and!]. split.
  - intros n i u Hu. destruct (H1 n i u Hu) as (? & ? & D & HD). split; [done|]. exists D.
    by rewrite fn_lookup_insert_ne by done.
  - intros u [Hu| ->%list_elem_of_singleton]%elem_of_app; [|by rewrite fn_lookup_insert].
    destruct (H2 u Hu). by rewrite fn_lookup_insert_ne by done.
  - intros u D. destruct (decide (u = t)) as [->|]; [intros _; right; set_solver|].
    rewrite fn_lookup_insert_ne by done. intros HD. destruct (H3 u D) as [?|?]; [done..|by left|right; set_solver].
  - intros u. cbn. destruct (decide (u = t)) as [->|]; [|rewrite !fn_lookup_insert_ne by done; by apply H4].
    rewrite !fn_lookup_insert. by split.
Qed.

(** The timer joins the wheel: the invariant may miss only that it is there. *)
Record almost (t0 : nat) (lo : nat → Z) (now base : Z) (rest : list nat) (due : nat → option Z) (s : timer_state) : Prop := {
  m_slot n i t : t ∈ vecs s n i →
    (n < 5)%nat ∧ ∃ D, due t = Some D ∧ in_slot lo now n i D ∧ ((0 < n)%nat → u32 (expires s t) = u32 D);
  m_rest t : t ∈ rest → due t = Some (eff (expires s t) base);
  m_all t D : t ≠ t0 → due t = Some D → (∃ n i, t ∈ vecs s n i) ∨ t ∈ rest;
  m_linked t : t ≠ t0 → linked s t = true ↔ is_Some (due t);
  m_due : due t0 = Some (eff (expires s t0) base)
}.

Lemma loose_almost t lo now base rest due s :
  loose t lo now base rest due s → almost t lo now base rest (<[t := Some (eff (expires s t) base)]> due) s.
Proof.
  intros [H1 H2 H3 H4]. split.
  - intros n i u Hu. destruct (H1 n i u Hu) as (? & ? & D & HD). split; [done|]. exists D.
    by rewrite fn_lookup_insert_ne by done.
  - intros u Hu. destruct (H2 u Hu). by rewrite fn_lookup_insert_ne by done.
  - intros u D Hne. rewrite fn_lookup_insert_ne by done. by apply H3.
  - intros u Hne. rewrite fn_lookup_insert_ne by done. by apply H4.
  - apply fn_lookup_insert.
Qed.

Lemma almost_wheel t lo now rest due s :
  almost t lo now now rest due s → run_timer_list_running s = None → timer_jiffies s = u32 now →
  tv_index (tvecs s 0%nat) = now mod 256 → lo 0%nat <= now → (∀ n, (0 < n)%nat → lo n <= now + 1) →
  let s' := internal_add_timer t s in
  wheel_ok lo now now rest due s' ∧ run_timer_list_running s' = None ∧ same_clock s s'.
Proof.
  intros [H1 H2 H3 H4 H5] Hr Hj Hi Hlo0 Hlo s'. destruct (internal_add_spec t s now Hr Hj Hi) as
    (n0 & i0 & Hn0 & Hs' & Hi0 & Hst & Hup & _). unfold s'. rewrite Hs'. clear s' Hs'.
  set (D0 := eff (expires s t) now) in *. split; [|split; [done|apply vec_add_clock]]. split.
  - intros n i u Hu. change (u ∈ vecs (vec_add n0 i0 t s) n i) in Hu. rewrite vecs_add in Hu.
    destruct (decide (n = n0 ∧ i = i0)) as [[-> ->]|Hne]; [|by apply H1].
    apply elem_of_app in Hu as [Hu| ->%list_elem_of_singleton]; [by apply H1|].
    split; [done|]. exists D0. split; [done|]. split; [|by apply Hup].
    split; [done|]. destruct n0 as [|n0]; [lia|]. specialize (Hlo (S n0) ltac:(lia)).
    destruct (Hup ltac:(lia)). lia.
  - done.
  - intros u D HD. destruct (decide (u = t)) as [->|Hne].
    + left. exists n0, i0. change (t ∈ vecs (vec_add n0 i0 t s) n0 i0). rewrite vecs_add, decide_True by done.
      set_solver.
    + destruct (H3 u D Hne HD) as [(n & i & Hu)|?]; [left|by right].
      exists n, i. change (u ∈ vecs (vec_add n0 i0 t s) n i). rewrite vecs_add.
      destruct (decide _) as [[-> ->]|]; [set_solver|done].
  - intros u. cbn. destruct (decide (u = t)) as [->|]; [|rewrite fn_lookup_insert_ne by done; by apply H4].
    rewrite fn_lookup_insert, H5. by split.
Qed.

Lemma add_wheel t lo now rest due s :
  loose t lo now now rest due s → run_timer_list_running s = None → timer_jiffies s = u32 now →
  tv_index (tvecs s 0%nat) = now mod 256 → lo 0%nat <= now → (∀ n, (0 < n)%nat → lo n <= now + 1) →
  let s' := internal_add_timer t s in
  wheel_ok lo now now rest (<[t := Some (eff (expires s t) now)]> due) s' ∧
  run_timer_list_running s' = None ∧ same_clock s s'.
Proof. intros Hl. by apply almost_wheel, loose_almost. Qed.

(** * Timer operations *)

(** What the operations mean for the due ticks. *)
Definition aop (base : Z) (due : nat → option Z) (op : timer_op) : nat → option Z :=
  match op with
  | OAdd t e => match due t with Some _ => due | None => <[t := Some (eff e base)]> due end
  | OMod t e => <[t := Some (eff e base)]> due
  | ODel t => <[t := None]> due
  end.

Definition aops (base : Z) (ops : list timer_op) (due : nat → option Z) : nat → option Z :=
  foldl (aop base) due ops.

(** The wheel between two calls, and while timer functions run: then [base] is
    the next tick and the list [queued] is in use. *)
Record wheel (lo : nat → Z) (now base : Z) (due : nat → option Z) (s : timer_state) : Prop := {
  wh_ok : wheel_ok lo now base (default [] (run_timer_list_running s)) due s;
  wh_jiffies : timer_jiffies s = u32 now;
  wh_index : tv_index (tvecs s 0%nat) = now mod 256;
  wh_lo0 : lo 0%nat <= now;
  wh_lo n : (0 < n)%nat → lo n <= now + 1;
  wh_base : run_timer_list_running s = None → base = now
}.

(** [internal_add_timer] on a timer that is on no list. *)
Lemma wheel_add t lo now base due s :
  loose t lo now base (default [] (run_timer_list_running s)) due s →
  timer_jiffies s = u32 now → tv_index (tvecs s 0%nat) = now mod 256 →
  lo 0%nat <= now → (∀ n, (0 < n)%nat → lo n <= now + 1) → (run_timer_list_running s = None → base = now) →
  wheel lo now base (<[t := Some (eff (expires s t) base)]> due) (internal_add_timer t s) ∧
  same_clock s (internal_add_timer t s) ∧
  (run_timer_list_running (internal_add_timer t s) = None ↔ run_timer_list_running s = None).
Proof.
  intros Hl Hj Hi Hlo0 Hlo Hbase. destruct (run_timer_list_running s) as [rest|] eqn:Hr; cbn [default from_option id] in Hl.
  - destruct (add_queued t lo now base rest due s Hl Hr) as (Hok & Hr' & Hc). destruct Hc as (E1 & E2 & E3).
    split; [|by rewrite Hr']. split; rewrite ?Hr', ?E1, ?E3; try done.
  - specialize (Hbase eq_refl). subst base.
    destruct (add_wheel t lo now [] due s Hl Hr Hj Hi Hlo0 Hlo) as (Hok & Hr' & Hc).
    pose proof Hc as (E1 & E2 & E3). split; [|by rewrite Hr']. split; rewrite ?Hr', ?E1, ?E3; done.
Qed.

Lemma default_fmap_filter t (r : option (list nat)) :
  default [] (filter (.≠ t) <$> r) = filter (.≠ t) (default [] r).
Proof. by destruct r. Qed.

(** A linked timer has a due tick. *)
Lemma wheel_linked t lo now base due s : wheel lo now base due s → linked s t = bool_decide (is_Some (due t)).
Proof.
  intros Hs. apply Bool.eq_iff_eq_true. rewrite bool_decide_eq_true. apply (w_linked _ _ _ _ _ _ (wh_ok _ _ _ _ _ Hs)).
Qed.

(** Taking a timer off its list if it is pending. *)
Lemma detach_loose t lo now base due s s1 :
  wheel lo now base due s → but_expires t s s1 →
  let s' := (detach_timer t s1).2 in
  loose t lo now base (default [] (run_timer_list_running s')) due s' ∧ expires s' = expires s1 ∧ same_clock s s' ∧
  (run_timer_list_running s' = None ↔ run_timer_list_running s = None).
Proof.
  intros Hs Hb. pose proof Hb as (E1 & E2 & E3 & E4 & E5 & E6). pose proof (wheel_linked t _ _ _ _ _ Hs) as Hl.
  cbv zeta. unfold detach_timer, timer_pending. rewrite E2, Hl.
  destruct (due t) as [D|] eqn:Ht; cbn [negb bool_decide is_Some_dec snd].
  - split_and!; [|done| |].
    + cbn [run_timer_list_running list_del set_running set_tvecs]. rewrite default_fmap_filter, E3.
      eapply loose_del; [apply Hs|done].
    + split_and!; cbn; congruence.
    + cbn. rewrite E3. by destruct (run_timer_list_running s).
  - rewrite E3. split_and!; [|done| |done].
    + eapply loose_idle; [apply Hs|done|done].
    + split_and!; congruence.
Qed.

(** Every timer operation, between calls or in a timer function, does to the
    due ticks what [aop] says. *)
Lemma exec_timer_op_ok op lo now base due s :
  wheel lo now base due s →
  wheel lo now base (aop base due op) (exec_timer_op op s) ∧ same_clock s (exec_timer_op op s) ∧
  (run_timer_list_running (exec_timer_op op s) = None ↔ run_timer_list_running s = None).
Proof.
  intros Hs. pose proof Hs as [H1 H2 H3 H4 H5 H6]. destruct op as [t e|t e|t]; cbn [exec_timer_op aop].
  - unfold add_timer, timer_pending. pose proof (wheel_linked t _ _ _ _ _ Hs) as Hl.
    destruct (due t) as [D|] eqn:HD; cbn [bool_decide is_Some_dec] in Hl; rewrite Hl.
    + rewrite Hl. by split_and!.
    + cbn [linked set_expires]. rewrite Hl.
      destruct (wheel_add t lo now base due (set_expires t e s)) as (Hw & Hc & Hr); try done.
      { eapply loose_idle; [done|done|apply but_expires_set]. }
      cbn [expires set_expires] in Hw. rewrite fn_lookup_insert in Hw. by split_and!.
  - destruct (detach_loose t lo now base due s _ Hs (but_expires_set t e s)) as (Hl & He & Hc & Hr). unfold mod_timer.
    destruct (detach_timer t (set_expires t e s)) as [r s1]. cbn [snd] in *. pose proof Hc as (E1 & E2 & E3).
    destruct (wheel_add t lo now base due s1 Hl) as (Hw & Hc' & Hr'); try congruence; try done.
    { intros Hn. by apply H6, Hr. }
    rewrite He in Hw. cbn in Hw. rewrite fn_lookup_insert in Hw.
    split_and!; [done|by eapply same_clock_trans|]. by rewrite Hr'.
  - destruct (detach_loose t lo now base due s s Hs) as (Hl & He & Hc & Hr); [by split_and!|]. unfold del_timer.
    destruct (detach_timer t s) as [r s1]. cbn [snd] in *. pose proof Hc as (E1 & E2 & E3).
    split_and!; [|by eapply same_clock_trans|done].
    split; cbn; try congruence; try done; [by apply loose_gone|]. intros Hn. by apply H6, Hr.
Qed.

Lemma exec_timer_ops_ok ops lo now base due s :
  wheel lo now base due s →
  wheel lo now base (aops base ops due) (exec_timer_ops ops s) ∧ same_clock s (exec_timer_ops ops s) ∧
  (run_timer_list_running (exec_timer_ops ops s) = None ↔ run_timer_list_running s = None).
Proof.
  revert due s. induction ops as [|op ops IH]; intros due s Hs; [by split_and!|].
  destruct (exec_timer_op_ok op lo now base due s Hs) as (Hs1 & Hc1 & Hr1).
  destruct (IH _ _ Hs1) as (Hs2 & Hc2 & Hr2). split_and!; [done|by eapply same_clock_trans|]. by rewrite <-Hr1.
Qed.
