(* ===== verification/TimerRun.v ===== *)
(** A tick of the timer wheel: the cascade brings the timers of a slot down in
    time, and the timers that are due, and only they, are run. *)
From S2P Require Import Prelude Timer TimerProofs.
From stdpp Require Import list functions options.
#[local] Set Default Proof Using "Type*".
Open Scope Z_scope.

(** * Changing the view *)

Lemma wheel_view lo lo' now base due due' s :
  wheel lo now base due s → (∀ t, due' t = due t) →
  (∀ n i t D, t ∈ vecs s n i → due t = Some D → in_slot lo now n i D → lo' n <= start n D) →
  lo' 0%nat <= now → (∀ n, (0 < n)%nat → lo' n <= now + 1) → wheel lo' now base due' s.
Proof.
  intros [[H1 H2 H3 H4] H5 H6 H7 H8 H9] Hd Hlo Hlo0 Hlo1. split; try done. split.
  - intros n i t Ht. destruct (H1 n i t Ht) as (? & D & HD & Hin & ?). split; [done|]. exists D.
    rewrite Hd. split; [done|]. split; [|done]. pose proof (Hlo n i t D Ht HD Hin). destruct Hin as [? ?]. split; [done|lia].
  - intros t Ht. rewrite Hd. auto.
  - intros t D. rewrite Hd. apply H3.
  - intros t. rewrite Hd. apply H4.
Qed.

(** * The cascade *)

Lemma eff_exact e D now : u32 e = u32 D → now <= D < now + 2 ^ 31 → eff e now = D.
Proof.
  intros He HD. assert (u32 (e - now) = D - now) as Hd.
  { unfold u32 in *. rewrite Zminus_mod, He, <-Zminus_mod. apply Z.mod_small. lia. }
  unfold eff. cbv zeta. rewrite Hd. destruct (Z.ltb_spec (D - now) (2 ^ 31)); lia.
Qed.

Lemma gran_le n : (n < 5)%nat → gran n <= 67108864.
Proof. destruct n as [|[|[|[|[|n]]]]]; simpl; lia. Qed.

(** One timer of the slot moves to a lower vector. *)
Lemma cascade_one t n lo now due s D :
  wheel lo now now due s → run_timer_list_running s = None → (0 < n < 5)%nat →
  due t = Some D → now <= D < now + gran n → u32 (expires s t) = u32 D →
  let s' := internal_add_timer t (list_del t s) in
  wheel lo now now due s' ∧ same_clock s s' ∧ run_timer_list_running s' = None ∧ expires s' = expires s ∧
  ∀ m j u, (n <= m)%nat → u ∈ vecs s' m j → u ∈ vecs s m j ∧ u ≠ t.
Proof.
  intros Hs Hr Hn HD Hb He s'. pose proof (gran_le n ltac:(lia)) as Hg. pose proof (eff_exact _ _ now He ltac:(lia)) as Heff.
  pose proof Hs as [H1 H2 H3 H4 H5 H6]. rewrite Hr in H1. cbn [default from_option id] in H1.
  assert (run_timer_list_running (list_del t s) = None) as Hr' by (cbn; by rewrite Hr).
  pose proof (loose_del t lo now now [] due s s H1 ltac:(by split_and!)) as Hl.
  destruct (wheel_add t lo now now due (list_del t s)) as (Hw & Hc & Hn'); try done; [by rewrite Hr'|].
  fold s' in Hw, Hc, Hn'. change (expires (list_del t s) t) with (expires s t) in Hw. rewrite Heff in Hw.
  destruct (internal_add_spec t (list_del t s) now Hr' H2 H3) as (n0 & i0 & _ & Hs' & _ & _ & _ & Hlow).
  change (expires (list_del t s) t) with (expires s t) in Hlow. rewrite Heff in Hlow. fold s' in Hs'.
  assert (n0 < n)%nat as Hlt by (apply Hlow; lia).
  split_and!; [|by eapply same_clock_trans; [|exact Hc]|by apply Hn'|by rewrite Hs'|].
  - eapply wheel_view; [exact Hw| | |done..].
    + intros u. destruct (decide (u = t)) as [->|]; [by rewrite fn_lookup_insert|by rewrite fn_lookup_insert_ne].
    + intros m i u E _ _ [_ Hin]. lia.
  - intros m j u Hm Hu. rewrite Hs' in Hu. change (u ∈ vecs (vec_add n0 i0 t (list_del t s)) m j) in Hu.
    rewrite vecs_add, decide_False in Hu by lia. rewrite vecs_list_del in Hu.
    apply list_elem_of_filter in Hu as [? ?]. done.
Qed.

Lemma cascade_loop_ok l n lo now due s :
  wheel lo now now due s → run_timer_list_running s = None → (0 < n < 5)%nat →
  (∀ t, t ∈ l → ∃ D, due t = Some D ∧ now <= D < now + gran n ∧ u32 (expires s t) = u32 D) →
  let s' := cascade_loop l s in
  wheel lo now now due s' ∧ same_clock s s' ∧ run_timer_list_running s' = None ∧ expires s' = expires s ∧
  ∀ m j u, (n <= m)%nat → u ∈ vecs s' m j → u ∈ vecs s m j ∧ u ∉ l.
Proof.
  revert s. induction l as [|t l IH]; intros s Hs Hr Hn Hl; cbn [cascade_loop].
  { split_and!; [done..|]. intros m j u _ Hu. split; [done|]. by intros ?%elem_of_nil. }
  destruct (Hl t) as (D & HD & Hb & He); [by left|].
  destruct (cascade_one t n lo now due s D Hs Hr Hn HD Hb He) as (Hs1 & Hc1 & Hr1 & He1 & Hv1).
  destruct (IH _ Hs1 Hr1 Hn) as (Hs2 & Hc2 & Hr2 & He2 & Hv2).
  { intros u Hu. rewrite He1. apply Hl. by right. }
  split_and!; [done|by eapply same_clock_trans|done|congruence|].
  intros m j u Hm Hu. destruct (Hv2 m j u Hm Hu) as [Hu1 Hul]. destruct (Hv1 m j u Hm Hu1) as [Hu0 Hne].
  split; [done|]. by intros [?|?]%elem_of_cons.
Qed.

(** The index of vector [n] when the slots up to tick [now] excluded have been
    cascaded. *)
Definition index_at (n : nat) (now : Z) : Z := ((now + gran n - 1) / gran n) mod lsize n.

Lemma index_multiple n now : now mod gran n = 0 → index_at n now = (now / gran n) mod lsize n.
Proof.
  intros Hm. unfold index_at. f_equal. pose proof (gran_pos n). pose proof (Z.div_mod now (gran n) ltac:(lia)) as E.
  symmetry. apply (Z.div_unique _ _ _ (gran n - 1)); lia.
Qed.

Lemma index_next n now : now mod gran n = 0 → index_at n (now + 1) = (now / gran n + 1) mod lsize n.
Proof.
  intros Hm. unfold index_at. f_equal. pose proof (gran_pos n). replace (now + 1 + gran n - 1) with (now + 1 * gran n) by lia.
  by rewrite Z.div_add by lia.
Qed.

Lemma index_same n now : now mod gran n ≠ 0 → index_at n (now + 1) = index_at n now.
Proof.
  intros Hm. unfold index_at. f_equal. pose proof (gran_pos n). replace (now + 1 + gran n - 1) with (now + 1 * gran n) by lia.
  replace (now + gran n - 1) with (now - 1 + 1 * gran n) by lia. rewrite !Z.div_add by lia. f_equal.
  pose proof (Z.div_mod now (gran n) ltac:(lia)). pose proof (Z.mod_pos_bound now (gran n) ltac:(lia)).
  apply (Z.div_unique _ _ _ (now mod gran n - 1)); lia.
Qed.

(** The cascades below vector [n] have been done for tick [now]. *)
Definition half (n : nat) (now : Z) (due : nat → option Z) (s : timer_state) : Prop :=
  wheel (λ m, if decide (0 < m < n)%nat then now + 1 else now) now now due s ∧ run_timer_list_running s = None ∧
  ∀ m, (0 < m < 5)%nat → tv_index (tvecs s m) = index_at m (if decide (m < n)%nat then now + 1 else now).

Lemma lsize_high n : (0 < n)%nat → lsize n = 64.
Proof. destruct n; [lia|done]. Qed.

(** The slot that is cascaded holds just the timers whose slot starts now. *)
Lemma slot_now n now D :
  (0 < n)%nat → now mod gran n = 0 → now <= start n D < now + lsize n * gran n →
  slot_of n D = (now / gran n) mod lsize n → start n D = now.
Proof.
  intros Hn Hm Hst Hsl. unfold start, slot_of in *. rewrite lsize_high in * by done. pose proof (gran_pos n) as Hg.
  pose proof (Z.div_mod now (gran n) ltac:(lia)) as E. rewrite Hm, Z.add_0_r in E.
  set (q := now / gran n) in *. set (p := D / gran n) in *.
  assert (q <= p < q + 64) as Hpq by (split; nia).
  pose proof (Z.div_mod p 64 ltac:(lia)). pose proof (Z.div_mod q 64 ltac:(lia)).
  assert (p = q) as -> by lia. lia.
Qed.

Lemma wheel_set_tvecs lo now base due tv s :
  wheel lo now base due s → (∀ m j u, u ∈ tv_vec (tv m) j ↔ u ∈ vecs s m j) → tv_index (tv 0%nat) = now mod 256 →
  wheel lo now base due (set_tvecs tv s).
Proof.
  intros [[H1 H2 H3 H4] H5 H6 H7 H8 H9] Hv Hi. split; try done. split; try done.
  - intros n i t Ht. apply (H1 n i t). by apply Hv.
  - intros t D HD. destruct (H3 t D HD) as [(n & i & Ht)|?]; [left|by right]. exists n, i. by apply Hv.
Qed.

Lemma cascade_timers_ok n now due s :
  (0 < n < 5)%nat → now mod gran n = 0 → half n now due s →
  let s' := cascade_timers n s in
  half (S n) now due s' ∧ tv_index (tvecs s' n) = (now / gran n + 1) mod 64 ∧ ran s' = ran s.
Proof.
  intros Hn Hm (Hs & Hr & Hidx). pose proof (Hidx n Hn) as Hi. rewrite decide_False in Hi by lia.
  rewrite index_multiple, lsize_high in Hi by (done || lia). pose proof Hs as [H1 H2 H3 _ _ _].
  destruct (cascade_loop_ok (vecs s n (tv_index (tvecs s n))) n _ now due s Hs Hr Hn) as (Hs1 & (E1 & E2 & E3) & Hr1 & He1 & Hv).
  { intros t Ht. destruct (w_slot _ _ _ _ _ _ H1 _ _ _ Ht) as (_ & D & HD & [Hsl Hst] & He). exists D.
    split; [done|]. split; [|apply He; lia]. rewrite decide_False in Hst by lia.
    pose proof (start_bound n D). assert (start n D = now) as Hnow; [|lia].
    apply slot_now; [lia|done|done|]. by rewrite <-Hsl, Hi, lsize_high by lia. }
  unfold cascade_timers. cbv zeta. fold (vecs s n (tv_index (tvecs s n))). set (i := tv_index (tvecs s n)) in *.
  set (s1 := cascade_loop (vecs s n i) s) in *. set (tv := <[n := _]> (tvecs s1)).
  assert (∀ u, u ∉ vecs s1 n i) as Hempty by (intros u Hu; by destruct (Hv n i u ltac:(lia) Hu)).
  assert (∀ m j u, u ∈ tv_vec (tv m) j ↔ u ∈ vecs s1 m j) as Hsame.
  { intros m j u. unfold tv. destruct (decide (m = n)) as [->|Hne]; [|by rewrite fn_lookup_insert_ne].
    rewrite fn_lookup_insert. cbn [tv_vec]. destruct (decide (j = i)) as [->|Hji]; [|by rewrite fn_lookup_insert_ne].
    rewrite fn_lookup_insert. split; [by intros ?%elem_of_nil|]. intros Hu. by destruct (Hempty u). }
  assert (tv_index (tv n) = (now / gran n + 1) mod 64) as Hin.
  { unfold tv. rewrite fn_lookup_insert. cbn [tv_index]. change TVN_MASK with (Z.ones 6).
    rewrite Z.land_ones, Hi by lia. change (2 ^ 6) with 64. apply Zplus_mod_idemp_l. }
  split; [|by split]. split; [|split; [done|]].
  - apply wheel_set_tvecs; [|done|unfold tv; rewrite fn_lookup_insert_ne by lia; by rewrite E3].
    eapply wheel_view; [exact Hs1|done| |by rewrite decide_False by lia|].
    + intros m j u D Hu HD [Hsl Hst]. destruct (decide (0 < m < n)%nat); [by rewrite decide_True by lia; lia|].
      destruct (decide (0 < m < S n)%nat) as [Hmn|]; [|lia]. assert (m = n) as -> by lia.
      destruct (decide (start n D = now)) as [Hnow|]; [|lia]. exfalso. apply (Hempty u).
      replace i with j; [done|]. rewrite Hsl, Hi. unfold slot_of. rewrite lsize_high by lia. f_equal.
      unfold start in Hnow. rewrite <-Hnow. pose proof (gran_pos n). by rewrite Z.div_mul by lia.
    + intros m Hm0. destruct (decide _); lia.
  - intros m Hm5. cbn [tvecs set_tvecs]. destruct (decide (m = n)) as [->|Hne].
    + rewrite decide_True, Hin, index_next, lsize_high by (done || lia). done.
    + unfold tv. rewrite fn_lookup_insert_ne, E3, Hidx by done.
      destruct (decide (m < n)%nat), (decide (m < S n)%nat); try lia; done.
Qed.

Lemma gran_dvd n m now : (0 < n <= m)%nat → (m < 5)%nat → now mod gran m = 0 → now mod gran n = 0.
Proof.
  intros Hn Hm Hz. pose proof (gran_pos n). pose proof (gran_pos m). apply Z.mod_divide in Hz; [|lia].
  apply Z.mod_divide; [lia|]. transitivity (gran m); [|done].
  assert (∃ k, gran m = k * gran n) as [k Hk]; [|by exists k].
  destruct n as [|[|[|[|[|n]]]]], m as [|[|[|[|[|m]]]]]; try lia; simpl;
    first [by exists 1 | by exists 64 | by exists 4096 | by exists 262144].
Qed.

(** Vectors whose slot does not start now need no cascade. *)
Lemma half_skip n now due s : (0 < n)%nat → now mod gran n ≠ 0 → half n now due s → half 5 now due s.
Proof.
  intros Hn Hm (Hs & Hr & Hidx).
  assert (∀ m, (n <= m)%nat → (m < 5)%nat → now mod gran m ≠ 0) as Hall.
  { intros m Hnm Hm5 Hz. apply Hm. eapply gran_dvd; [|exact Hm5|done]. lia. }
  split; [|split; [done|]].
  - eapply wheel_view; [exact Hs|done| |by rewrite decide_False by lia|].
    + intros m j u D Hu HD [_ Hst].
      destruct (w_slot _ _ _ _ _ _ (wh_ok _ _ _ _ _ Hs) _ _ _ Hu) as (Hm5 & _).
      destruct (decide (0 < m < n)%nat); [by rewrite decide_True by lia; lia|].
      destruct (decide (0 < m < 5)%nat); [|lia]. assert (start m D ≠ now); [|lia].
      intros Hnow. apply (Hall m); [lia..|]. rewrite <-Hnow. unfold start. pose proof (gran_pos m). by apply Z.mod_mul; lia.
    + intros m Hm0. destruct (decide _); lia.
  - intros m Hm5. rewrite (decide_True (P := (m < 5)%nat)) by lia. rewrite Hidx by done.
    destruct (decide (m < n)%nat); [done|]. symmetry. apply index_same, Hall; lia.
Qed.

Lemma cascade_from_ok k n now due s :
  (n + k = 5)%nat → (0 < n)%nat → ((n < 5)%nat → now mod gran n = 0) → half n now due s →
  half 5 now due (cascade_from (seq n k) s) ∧ ran (cascade_from (seq n k) s) = ran s.
Proof.
  revert n s. induction k as [|k IH]; intros n s Hk Hn Hm Hs; cbn [cascade_from seq].
  { by replace n with 5%nat in Hs by lia. }
  destruct (cascade_timers_ok n now due s ltac:(lia) (Hm ltac:(lia)) Hs) as (Hs1 & Hi & Hran).
  rewrite Hi, <-Hran. destruct (Z.eqb_spec ((now / gran n + 1) mod 64) 1) as [H1|H1].
  - apply IH; [lia|lia| |done]. intros HS. specialize (Hm ltac:(lia)).
    pose proof (gran_pos n). assert (gran (S n) = 64 * gran n) as -> by (destruct n as [|[|[|[|n]]]]; simpl; lia).
    pose proof (Z.div_mod now (gran n) ltac:(lia)) as E. rewrite Hm in E. set (q := now / gran n) in *.
    pose proof (Z.div_mod (q + 1) 64 ltac:(lia)). apply Z.mod_divide; [lia|]. exists ((q + 1) / 64). nia.
  - split; [|done]. destruct (decide (n = 4)%nat) as [->|Hne]; [done|].
    apply (half_skip (S n)); [lia| |done]. intros Hz. apply H1. specialize (Hm ltac:(lia)). pose proof (gran_pos n).
    assert (gran (S n) = 64 * gran n) as Hg by (destruct n as [|[|[|[|n]]]]; simpl; lia).
    rewrite Hg in Hz. apply Z.mod_divide in Hz as [c Hc]; [|lia].
    rewrite Hc. replace (c * (64 * gran n)) with (c * 64 * gran n) by lia. rewrite Z.div_mul by lia.
    rewrite Z.add_comm, Z.mod_add by lia. done.
Qed.

(** * Timer functions run *)

Section run.
Context `{TimerFn}.

(** What should happen at tick [now]: as long as a timer is due it is run, and
    what its function sets is due at the next tick or later. *)
Inductive fires (now : Z) : list (nat * Z) → (nat → option Z) → list (nat * Z) → (nat → option Z) → Prop :=
  | fires_done lg due : (∀ t, due t ≠ Some now) → fires now lg due lg due
  | fires_step lg due t lg' due' :
      due t = Some now →
      fires now (lg ++ [(t, u32 now)])
        (aops (now + 1) (timer_fn (lg ++ [(t, u32 now)]) t) (<[t := None]> due)) lg' due' →
      fires now lg due lg' due'.

(** While functions run, no slot grows. *)
Definition queueing (s : timer_state) : Prop := is_Some (run_timer_list_running s).
Definition slot_len (s : timer_state) (n : nat) (i : Z) : nat := length (vecs s n i).

Lemma add_queueing t s n i :
  queueing s → queueing (internal_add_timer t s) ∧ slot_len (internal_add_timer t s) n i = slot_len s n i.
Proof. intros [q Hr]. unfold queueing, internal_add_timer. by rewrite Hr. Qed.

Lemma detach_queueing t s n i :
  queueing s → queueing (detach_timer t s).2 ∧ (slot_len (detach_timer t s).2 n i <= slot_len s n i)%nat.
Proof.
  intros [q Hr]. unfold queueing, detach_timer. destruct (negb _); cbn [snd]; [by rewrite Hr|].
  split; [cbn; rewrite Hr; by eexists|]. unfold slot_len. rewrite vecs_list_del. apply length_filter.
Qed.

Lemma exec_timer_op_shrinks op s n i :
  queueing s → queueing (exec_timer_op op s) ∧ (slot_len (exec_timer_op op s) n i <= slot_len s n i)%nat.
Proof.
  intros Hq. destruct op as [t e|t e|t]; cbn [exec_timer_op].
  - unfold add_timer, timer_pending. destruct (linked s t) eqn:Hl; [by rewrite Hl|]. cbn [linked set_expires]. rewrite Hl.
    by destruct (add_queueing t (set_expires t e s) n i Hq) as [? ->].
  - unfold mod_timer. destruct (detach_queueing t (set_expires t e s) n i Hq) as [Hq1 Hle].
    destruct (detach_timer t (set_expires t e s)) as [r s1]. cbn [snd] in *.
    by destruct (add_queueing t s1 n i Hq1) as [? ->].
  - unfold del_timer. destruct (detach_queueing t s n i Hq) as [Hq1 Hle]. by destruct (detach_timer t s) as [r s1].
Qed.

Lemma exec_timer_ops_shrinks ops s n i :
  queueing s → queueing (exec_timer_ops ops s) ∧ (slot_len (exec_timer_ops ops s) n i <= slot_len s n i)%nat.
Proof.
  revert s. induction ops as [|op ops IH]; intros s Hq; [done|].
  destruct (exec_timer_op_shrinks op s n i Hq) as [Hq1 H1]. destruct (IH _ Hq1). split; [done|].
  change (exec_timer_ops (op :: ops) s) with (exec_timer_ops ops (exec_timer_op op s)). lia.
Qed.

Definition lo_tick (now : Z) (m : nat) : Z := if decide (0 < m < 5)%nat then now + 1 else now.

(** The current slot holds the timers that are due, and no other place does. *)
Lemma due_in_slot now due s t :
  wheel (lo_tick now) now (now + 1) due s → due t = Some now ↔ t ∈ vecs s 0%nat (tv_index (tvecs s 0%nat)).
Proof.
  intros [[H1 H2 H3 H4] H5 H6 _ _ _]. rewrite H6. split.
  - intros Ht. destruct (H3 t now Ht) as [(n & i & Hin)|Hin].
    + destruct (H1 n i t Hin) as (Hn & D & HD & [Hi Hst] & _). assert (D = now) as -> by congruence.
      destruct n as [|n]; [unfold slot_of in Hi; simpl in Hi; rewrite Z.div_1_r in Hi; by subst i|].
      pose proof (start_bound (S n) now). unfold lo_tick in Hst. rewrite decide_True in Hst by lia. lia.
    + specialize (H2 t Hin). pose proof (eff_bound (expires s t) (now + 1)). simplify_eq. congruence || lia.
  - intros Hin. destruct (H1 _ _ _ Hin) as (_ & D & HD & [Hi Hst] & _). rewrite HD. f_equal.
    unfold slot_of, start, lo_tick in *. simpl in *. rewrite Z.div_1_r, Z.mul_1_r in *.
    pose proof (Z.div_mod D 256 ltac:(lia)). pose proof (Z.div_mod now 256 ltac:(lia)).
    pose proof (Z.mod_pos_bound D 256). lia.
Qed.

(** One function call. *)
Lemma run_one t now due s :
  wheel (lo_tick now) now (now + 1) due s → queueing s → due t = Some now →
  let s1 := set_linked t false (detach_timer t s).2 in
  let s2 := set_ran (ran s1 ++ [(t, timer_jiffies s1)]) s1 in
  let s' := exec_timer_ops (timer_fn (ran s2) t) s2 in
  let lg := ran s ++ [(t, u32 now)] in
  wheel (lo_tick now) now (now + 1) (aops (now + 1) (timer_fn lg t) (<[t := None]> due)) s' ∧ queueing s' ∧
  ran s' = lg ∧ (∀ n, tv_index (tvecs s' n) = tv_index (tvecs s n)) ∧
  ∀ n i, t ∈ vecs s n i → (slot_len s' n i < slot_len s n i)%nat.
Proof.
  intros Hs Hq Ht s1 s2 s' lg. destruct (detach_loose t _ _ _ _ _ s Hs) as (Hl & _ & (E1 & E2 & E3) & Hr);
    [by split_and!|]. pose proof Hs as [H1 H2 H3 H4 H5 H6].
  assert (wheel (lo_tick now) now (now + 1) (<[t := None]> due) s2) as Hs2.
  { split; cbn; rewrite ?E1, ?E3; try done; [by apply loose_gone in Hl as []; split|].
    intros Hn. by apply H6, Hr. }
  assert (ran s2 = lg) as Hran by (cbn; by rewrite E1, E2, H2).
  assert (queueing s2) as Hq2 by (by apply (detach_queueing t s 0%nat 0)).
  destruct (exec_timer_ops_ok (timer_fn (ran s2) t) _ _ _ _ _ Hs2) as (Hs' & (F1 & F2 & F3) & _). fold s' in Hs', F1, F2, F3.
  rewrite Hran in Hs'. split_and!; [exact Hs'|by apply (exec_timer_ops_shrinks _ _ 0%nat 0)|by rewrite F2| |].
  - intros n. rewrite F3. cbn. by rewrite E3.
  - intros n i Hin. destruct (exec_timer_ops_shrinks (timer_fn (ran s2) t) s2 n i Hq2) as [_ Hle]. fold s' in Hle.
    assert (slot_len s2 n i < slot_len s n i)%nat; [|lia].
    assert (linked s t = true) as Hlk by (rewrite (wheel_linked t _ _ _ _ _ Hs), Ht; done).
    change (slot_len s2 n i) with (slot_len (detach_timer t s).2 n i). unfold detach_timer, timer_pending.
    rewrite Hlk. cbn [negb snd]. unfold slot_len. rewrite vecs_list_del.
    eapply length_filter_lt; [exact Hin|]. by intros [].
Qed.

(** The loop at the label [repeat] runs all timers that are due. *)
Lemma run_slot_ok fuel now due s :
  wheel (lo_tick now) now (now + 1) due s → queueing s →
  (slot_len s 0%nat (tv_index (tvecs s 0%nat)) <= fuel)%nat →
  let s' := run_slot fuel s in
  ∃ due', fires now (ran s) due (ran s') due' ∧ wheel (lo_tick now) now (now + 1) due' s' ∧ queueing s' ∧
    (∀ t, due' t ≠ Some now) ∧ ∀ n, tv_index (tvecs s' n) = tv_index (tvecs s n).
Proof.
  revert due s. induction fuel as [|fuel IH]; intros due s Hs Hq Hlen; cbn [run_slot].
  - assert (∀ t, due t ≠ Some now) as Hno.
    { intros t Ht%(due_in_slot _ _ _ _ Hs). unfold slot_len in Hlen.
      destruct (vecs s 0%nat (tv_index (tvecs s 0%nat))); [by apply elem_of_nil in Ht|simpl in Hlen; lia]. }
    exists due. split_and!; try done. by apply fires_done.
  - change (tv_vec (tvecs s 0%nat) (tv_index (tvecs s 0%nat))) with (vecs s 0%nat (tv_index (tvecs s 0%nat))).
    destruct (vecs s 0%nat (tv_index (tvecs s 0%nat))) as [|t l] eqn:Hv.
    + assert (∀ t, due t ≠ Some now) as Hno.
      { intros t Ht%(due_in_slot _ _ _ _ Hs). rewrite Hv in Ht. by apply elem_of_nil in Ht. }
      exists due. split_and!; try done. by apply fires_done.
    + assert (t ∈ vecs s 0%nat (tv_index (tvecs s 0%nat))) as Hin by (rewrite Hv; by left).
      pose proof (proj2 (due_in_slot _ _ _ _ Hs) Hin) as Ht. cbv zeta.
      destruct (run_one t now due s Hs Hq Ht) as (Hs' & Hq' & Hran & Hidx & Hlt). cbv zeta in *.
      set (s' := exec_timer_ops _ _) in *. specialize (Hlt _ _ Hin).
      destruct (IH _ s' Hs' Hq') as (due' & Hf & Hw & Hq2 & Hno & Hi2); [rewrite Hidx; lia|].
      exists due'. split_and!; try done; [|by intros n; rewrite Hi2].
      rewrite Hran in Hf. by eapply fires_step.
Qed.

(** Timers put back one by one. *)
Lemma requeue_ok l lo now due s :
  wheel_ok lo now now l due s → run_timer_list_running s = None → timer_jiffies s = u32 now →
  tv_index (tvecs s 0%nat) = now mod 256 → lo 0%nat <= now → (∀ n, (0 < n)%nat → lo n <= now + 1) →
  let s' := requeue l s in
  wheel_ok lo now now [] due s' ∧ run_timer_list_running s' = None ∧ same_clock s s'.
Proof.
  revert s. induction l as [|t l IH]; intros s Hs Hr Hj Hi Hlo0 Hlo; cbn [requeue]; [by split_and!|].
  assert (almost t lo now now l due s) as Ha.
  { destruct Hs as [H1 H2 H3 H4]. split; auto.
    - intros u Hu. apply H2. by right.
    - intros u D Hne HD. destruct (H3 u D HD) as [?|[?|?]%elem_of_cons]; [by left|done|by right].
    - apply H2. by left. }
  destruct (almost_wheel t lo now l due s Ha Hr Hj Hi Hlo0 Hlo) as (Hs1 & Hr1 & Hc1). pose proof Hc1 as (E1 & E2 & E3).
  destruct (IH _ Hs1 Hr1) as (Hs2 & Hr2 & Hc2); [congruence|by rewrite E3|done..|].
  split_and!; [done|done|by eapply same_clock_trans].
Qed.

(** * Ticks *)

(** The wheel between two ticks. *)
Definition at_rest (now : Z) (due : nat → option Z) (s : timer_state) : Prop :=
  0 <= now ∧ wheel (λ _, now) now now due s ∧ run_timer_list_running s = None ∧
  ∀ m, (m < 5)%nat → tv_index (tvecs s m) = index_at m now.

Lemma tick_cascade now due s :
  at_rest now due s →
  let s' := if tv_index (tvecs s 0%nat) =? 0 then cascade_from [1; 2; 3; 4]%nat s else s in
  half 5 now due s' ∧ ran s' = ran s.
Proof.
  intros (Hnow & Hs & Hr & Hidx). pose proof (wh_index _ _ _ _ _ Hs) as Hi.
  assert (half 1 now due s) as Hh.
  { split; [|split; [done|]].
    - eapply wheel_view; [exact Hs|done| |by rewrite decide_False by lia|].
      + intros m j u D _ _ [_ Hst]. by rewrite decide_False by lia; lia.
      + intros m _. destruct (decide _); lia.
    - intros m Hm. rewrite decide_False by lia. apply Hidx. lia. }
  cbv zeta. rewrite Hi. destruct (Z.eqb_spec (now mod 256) 0) as [Hz|Hz].
  - by apply (cascade_from_ok 4 1); [lia|lia|intros _|].
  - split; [|done]. by apply (half_skip 1); [lia| |].
Qed.

(** The clock moves on: what is left is due later. *)
Definition clock_tick (s : timer_state) : timer_state :=
  let s := set_jiffies (u32 (timer_jiffies s + 1)) (set_running None s) in
  let tv1 := tvecs s 0%nat in
  set_tvecs (<[0%nat := mk_tv (Z.land (tv_index tv1 + 1) TVR_MASK) (tv_vec tv1)]> (tvecs s)) s.

Lemma clock_tick_index s n : (0 < n)%nat → tv_index (tvecs (clock_tick s) n) = tv_index (tvecs s n).
Proof. intros Hn. cbn. rewrite fn_lookup_insert_ne by lia. done. Qed.

Lemma clock_tick_ok now queued due s :
  wheel (lo_tick now) now (now + 1) due s → run_timer_list_running s = Some queued → (∀ t, due t ≠ Some now) →
  wheel_ok (λ _, now + 1) (now + 1) (now + 1) queued due (clock_tick s) ∧
  timer_jiffies (clock_tick s) = u32 (now + 1) ∧ tv_index (tvecs (clock_tick s) 0%nat) = (now + 1) mod 256.
Proof.
  intros [[H1 H2 H3 H4] H5 H6 _ _ _] Hr Hno. rewrite Hr in *. cbn [default from_option id] in *.
  assert (∀ n i, vecs (clock_tick s) n i = vecs s n i) as Hv.
  { intros n i. unfold vecs. cbn. destruct (decide (n = 0%nat)) as [->|]; [by rewrite fn_lookup_insert|].
    by rewrite fn_lookup_insert_ne. }
  split_and!.
  - split; [|done| |done].
    + intros n i t. rewrite Hv. intros Ht. destruct (H1 n i t Ht) as (Hn & D & HD & [Hi Hst] & He).
      split; [done|]. exists D. split; [done|]. split; [|done]. split; [done|]. unfold lo_tick in Hst.
      destruct n as [|n]; [|rewrite decide_True in Hst by lia; lia]. assert (D ≠ now) by (intros ->; by apply (Hno t)).
      unfold start in *. simpl in *. rewrite Z.div_1_r, Z.mul_1_r in *. lia.
    + intros t D HD. destruct (H3 t D HD) as [(n & i & Ht)|?]; [left|by right]. exists n, i. by rewrite Hv.
  - cbn. rewrite H5. unfold u32. apply Zplus_mod_idemp_l.
  - cbn. rewrite fn_lookup_insert. cbn [tv_index]. change TVR_MASK with (Z.ones 8). rewrite H6, Z.land_ones by lia.
    change (2 ^ 8) with 256. apply Zplus_mod_idemp_l.
Qed.

Lemma run_tick_ok now due s :
  at_rest now due s →
  ∃ due', fires now (ran s) due (ran (run_tick s)) due' ∧ (∀ t, due' t ≠ Some now) ∧ at_rest (now + 1) due' (run_tick s).
Proof.
  intros Hs. destruct (tick_cascade now due s Hs) as [(Hw & Hr & Hidx) Hran]. destruct Hs as (Hnow & _).
  unfold run_tick. set (s1 := if _ =? 0 then _ else s) in *. cbv zeta. set (s2 := set_running (Some []) s1).
  assert (wheel (lo_tick now) now (now + 1) due s2) as Hw2.
  { destruct Hw as [[H1 H2 H3 H4] H5 H6 H7 H8 H9]. rewrite Hr in *. split; try done. split; try done.
    intros t. by intros ?%elem_of_nil. }
  destruct (run_slot_ok (length (vecs s2 0%nat (tv_index (tvecs s2 0%nat)))) now due s2 Hw2) as
    (due' & Hf & Hw3 & Hq3 & Hno & Hi3); [by eexists|done|].
  change (tv_vec (tvecs s2 0%nat) (tv_index (tvecs s2 0%nat))) with (vecs s2 0%nat (tv_index (tvecs s2 0%nat))).
  set (s3 := run_slot _ s2) in *. destruct Hq3 as [queued Hq3]. rewrite Hq3. cbn [default from_option id].
  destruct (clock_tick_ok now queued due' s3 Hw3 Hq3 Hno) as (Hw4 & Hj4 & Hi4).
  destruct (requeue_ok queued _ _ _ _ Hw4 eq_refl Hj4 Hi4) as (Hw5 & Hr5 & (E1 & E2 & E3)); [simpl; lia..|].
  exists due'. match goal with |- context [requeue queued ?x] => change x with (clock_tick s3) end. split_and!.
  - rewrite E2. by rewrite <-Hran.
  - done.
  - split; [lia|]. split; [|split; [done|]].
    + split; try lia; [by rewrite Hr5|by rewrite E3].
    + intros m Hm. rewrite E3. destruct m as [|m].
      * rewrite Hi4. unfold index_at. simpl gran. simpl lsize. by rewrite Z.div_1_r, Z.add_simpl_r.
      * rewrite clock_tick_index, Hi3 by lia. cbn [tvecs set_running s2]. rewrite Hidx by lia. by rewrite decide_True.
Qed.

(** Ticks until [timer_jiffies] has passed [jiffies]. *)
Inductive ticks (jiffies : Z) : Z → list (nat * Z) → (nat → option Z) → Z → list (nat * Z) → (nat → option Z) → Prop :=
  | ticks_done now lg due : s32 (jiffies - u32 now) < 0 → ticks jiffies now lg due now lg due
  | ticks_step now lg due lg1 due1 now' lg' due' :
      0 <= s32 (jiffies - u32 now) → fires now lg due lg1 due1 →
      ticks jiffies (now + 1) lg1 due1 now' lg' due' → ticks jiffies now lg due now' lg' due'.

Lemma s32_sub_u32 a b : s32 (a - u32 b) = s32 (a - b).
Proof.
  unfold s32, u32. f_equal. replace (a - b mod 2 ^ 32 + 2 ^ 31) with (a + 2 ^ 31 - b mod 2 ^ 32) by lia.
  rewrite Zminus_mod_idemp_r. f_equal. lia.
Qed.

Lemma s32_next j now : 0 <= s32 (j - u32 now) → s32 (j - u32 (now + 1)) = s32 (j - u32 now) - 1.
Proof.
  rewrite !s32_sub_u32. intros Hge. replace (j - (now + 1)) with (j - now + -1) by lia. rewrite <-s32_add.
  pose proof (s32_bound (j - now)). rewrite s32_small; lia.
Qed.

Lemma tick_loop_ok fuel jiffies now due s :
  at_rest now due s → s32 (jiffies - u32 now) < Z.of_nat fuel →
  ∃ now' due', ticks jiffies now (ran s) due now' (ran (tick_loop fuel jiffies s)) due' ∧
    at_rest now' due' (tick_loop fuel jiffies s).
Proof.
  revert now due s. induction fuel as [|fuel IH]; intros now due s Hs Hf; cbn [tick_loop].
  { exists now, due. split; [|done]. apply ticks_done. lia. }
  rewrite (wh_jiffies _ _ _ _ _ (proj1 (proj2 Hs))), Z.geb_leb.
  destruct (Z.leb_spec 0 (s32 (jiffies - u32 now))) as [Hge|Hlt].
  - destruct (run_tick_ok now due s Hs) as (due1 & Hf1 & _ & Hs1).
    pose proof (s32_next jiffies now Hge).
    destruct (IH (now + 1) due1 (run_tick s) Hs1) as (now' & due' & Ht & Hr); [lia|].
    exists now', due'. split; [|done]. by eapply ticks_step.
  - exists now, due. split; [|done]. by apply ticks_done.
Qed.
(** * The whole life of a wheel *)

(** What the rest of the kernel does: timer operations, and the interrupt that
    calls [run_timer_list] with the current jiffies. *)
Inductive timer_event :=
  | EOp (op : timer_op)
  | ERun (jiffies : Z).

Definition exec_event (s : timer_state) (e : timer_event) : timer_state :=
  match e with
  | EOp op => exec_timer_op op s
  | ERun jiffies => run_timer_list jiffies s
  end.

Definition run_events (l : list timer_event) : timer_state := foldl exec_event init_timervecs l.

(** What should happen: [now] is the next tick to run, [lg] the calls so far. *)
Inductive wheel_spec : list timer_event → Z → list (nat * Z) → (nat → option Z) → Prop :=
  | spec_init : wheel_spec [] 0 [] (λ _, None)
  | spec_op l now lg due op : wheel_spec l now lg due → wheel_spec (l ++ [EOp op]) now lg (aop now due op)
  | spec_run l now lg due jiffies now' lg' due' :
      wheel_spec l now lg due → ticks jiffies now lg due now' lg' due' →
      wheel_spec (l ++ [ERun jiffies]) now' lg' due'.

Lemma at_rest_init : at_rest 0 (λ _, None) init_timervecs.
Proof.
  split; [done|]. split; [|split; [done|]].
  - split; try done. split; try done; [by intros n i t ?%elem_of_nil|by intros t ?%elem_of_nil].
  - intros m Hm. destruct m as [|[|[|[|[|m]]]]]; [done..|lia].
Qed.

Lemma at_rest_op op now due s :
  at_rest now due s → at_rest now (aop now due op) (exec_timer_op op s) ∧ ran (exec_timer_op op s) = ran s.
Proof.
  intros (Hn & Hs & Hr & Hi). destruct (exec_timer_op_ok op _ _ _ _ _ Hs) as (Hs' & (E1 & E2 & E3) & Hr').
  split; [|done]. split; [done|]. split; [done|]. split; [by apply Hr'|]. intros m Hm. rewrite E3. by apply Hi.
Qed.

(** The wheel follows the specification. *)
Lemma run_events_ok l :
  ∃ now due, wheel_spec l now (ran (run_events l)) due ∧ at_rest now due (run_events l).
Proof.
  induction l as [|e l IH] using rev_ind; [exists 0, (λ _, None); split; [constructor|apply at_rest_init]|].
  destruct IH as (now & due & Hl & Hs). unfold run_events in *. rewrite foldl_app. cbn [foldl].
  set (s := foldl exec_event init_timervecs l) in *. destruct e as [op|j]; cbn [exec_event].
  - destruct (at_rest_op op now due s Hs) as [Hs' Hran]. exists now, (aop now due op). split; [|done].
    rewrite Hran. by apply spec_op.
  - unfold run_timer_list. rewrite (wh_jiffies _ _ _ _ _ (proj1 (proj2 Hs))).
    destruct (tick_loop_ok (Z.to_nat (s32 (j - u32 now) + 1)) j now due s Hs) as (now' & due' & Ht & Hs'); [lia|].
    exists now', due'. split; [|done]. by eapply spec_run.
Qed.
End run.
