(* ===== verification/TimerThms.v ===== *)
(** The properties of kernel timers, with their witnesses. *)
From S2P Require Import Prelude Timer TimerProofs TimerRun.
From stdpp Require Import list functions sorting options.
#[local] Set Default Proof Using "Type*".
Open Scope Z_scope.

(** Nothing linked is overdue. *)
Lemma at_rest_due now due s t D : at_rest now due s → due t = Some D → now <= D.
Proof.
  intros (_ & [Hs Hj _ _ _ _] & Hr & _) HD. rewrite Hr in Hs.
  destruct (w_all _ _ _ _ _ _ Hs t D HD) as [(n & i & Ht)|Ht]; [|by apply elem_of_nil in Ht].
  destruct (w_slot _ _ _ _ _ _ Hs n i t Ht) as (_ & D' & HD' & [_ Hst] & _).
  pose proof (start_bound n D'). assert (D = D') by congruence. lia.
Qed.

(** C16. The timer wheel is a map from timers to due ticks. Whatever timers are
    added, changed and deleted, from outside or by timer functions, and whenever
    [run_timer_list] is called: the calls of timer functions are those of a
    machine that at each tick runs the timers due at that tick, in some order,
    until none is left ([wheel_spec]), where a timer set to [e] is due at
    [e], or at the next tick when [e] is past; the timers linked are those of the
    map, and none of them is overdue. *)
Theorem timer_wheel_refines `{TimerFn} l :
  let s := run_events l in
  ∃ now due, wheel_spec l now (ran s) due ∧ timer_jiffies s = u32 now ∧
    (∀ t, linked s t = true ↔ is_Some (due t)) ∧ ∀ t D, due t = Some D → now <= D.
Proof.
  cbv zeta. destruct (run_events_ok l) as (now & due & Hl & Hs). pose proof Hs as (_ & [Hok Hj _ _ _ _] & _).
  exists now, due. split_and!; [done|done|apply Hok|]. intros t D. by eapply at_rest_due.
Qed.

(** * Timers whose functions set no timer *)

Section passive.
Context `{TimerFn} (Hpassive : ∀ lg t, timer_fn lg t = []).

Definition call_of (x : nat * Z) : nat * Z := (x.1, u32 x.2).

Lemma fires_passive now lg due lg' due' :
  fires now lg due lg' due' →
  ∃ ts, lg' = lg ++ (call_of <$> ((., now) <$> ts)) ∧ NoDup ts ∧ (∀ t, t ∈ ts ↔ due t = Some now) ∧
    ∀ t, due' t = if decide (due t = Some now) then None else due t.
Proof.
  induction 1 as [lg due Hno|lg due t lg' due' Ht _ (ts & -> & Hnd & Hin & Hd)].
  - exists []. split_and!; [by rewrite app_nil_r|constructor| |].
    + intros t. split; [by intros ?%elem_of_nil|]. intros Ht. by destruct (Hno t).
    + intros t. by rewrite decide_False by apply Hno.
  - rewrite Hpassive in Hin, Hd. cbn [aops foldl] in Hin, Hd. exists (t :: ts). split_and!.
    + by rewrite <-app_assoc.
    + constructor; [|done]. rewrite Hin, fn_lookup_insert. done.
    + intros u. rewrite elem_of_cons, Hin. destruct (decide (u = t)) as [->|Hne].
      * rewrite fn_lookup_insert. split; [done|by left].
      * rewrite fn_lookup_insert_ne by done. split; [by intros [?|?]|by right].
    + intros u. rewrite Hd. destruct (decide (u = t)) as [->|Hne].
      * rewrite fn_lookup_insert, (decide_True (P := due t = Some now)) by done. by destruct (decide _).
      * by rewrite fn_lookup_insert_ne by done.
Qed.

(** The calls of a run: each timer due by then once, in the order of time. *)
Definition called (new : list (nat * Z)) (now now' : Z) (due due' : nat → option Z) : Prop :=
  NoDup new.*1 ∧ StronglySorted Z.le new.*2 ∧ (∀ t D, (t, D) ∈ new ↔ due t = Some D ∧ D < now') ∧
  (∀ t D, due' t = Some D ↔ due t = Some D ∧ now' <= D).

Lemma called_now ts new now now' due due1 due' :
  NoDup ts → (∀ t, t ∈ ts ↔ due t = Some now) → now < now' → (∀ t D, due t = Some D → now <= D) →
  (∀ t D, due1 t = Some D ↔ due t = Some D ∧ now + 1 <= D) →
  called new (now + 1) now' due1 due' → called (((., now) <$> ts) ++ new) now now' due due'.
Proof.
  intros Hnd Hin Hlt Hdue Hd1 (Hnd' & Hso & Hin' & Hd'). split_and!.
  - rewrite fmap_app, <-list_fmap_compose. change (fst ∘ (., now)) with (λ t : nat, t). rewrite list_fmap_id.
    apply NoDup_app. split_and!; [done| |done]. intros t Ht%Hin ([u D] & -> & Hn)%list_elem_of_fmap.
    apply Hin' in Hn as [HD _]. apply Hd1 in HD as [HD ?]. simpl in Ht. assert (D = now) by congruence. lia.
  - rewrite fmap_app, <-list_fmap_compose. change (snd ∘ (., now)) with (λ _ : nat, now). clear Hin Hnd.
    induction ts as [|t ts IH]; [done|]. cbn. constructor; [done|]. apply List.Forall_forall. intros D Hd.
    apply list_elem_of_In in Hd. apply elem_of_app in Hd as [(? & -> & _)%list_elem_of_fmap|([u E] & -> & Hn)%list_elem_of_fmap]; [lia|].
    apply Hin' in Hn as [HD _]. apply Hd1 in HD as [_ ?]. simpl. lia.
  - intros t D. rewrite elem_of_app, Hin', Hd1. split.
    + intros [(u & [= -> ->] & Hu%Hin)%list_elem_of_fmap|[[? ?] ?]]; done.
    + intros [HD ?]. destruct (decide (D = now)) as [->|Hne]; [left|right].
      * apply list_elem_of_fmap. exists t. split; [done|]. by apply Hin.
      * specialize (Hdue t D HD). split_and!; [done|lia|done].
  - intros t D. rewrite Hd', Hd1. split; [by intros [[? ?] ?]|]. intros [? ?]. split_and!; [done|lia|done].
Qed.

Lemma ticks_passive j now lg due now' lg' due' :
  ticks j now lg due now' lg' due' → (∀ t D, due t = Some D → now <= D) →
  now' = now + Z.max 0 (s32 (j - u32 now) + 1) ∧
  ∃ new, lg' = lg ++ (call_of <$> new) ∧ called new now now' due due'.
Proof.
  induction 1 as [now lg due Hj|now lg due lg1 due1 now' lg' due' Hj Hf _ IH]; intros Hdue.
  - split; [lia|]. exists []. split; [by rewrite app_nil_r|]. split_and!; [constructor..| |].
    + intros t D. split; [by intros ?%elem_of_nil|]. intros [HD ?]. specialize (Hdue t D HD). lia.
    + intros t D. split; [|by intros []]. intros HD. split; [done|by apply (Hdue t)].
  - destruct (fires_passive _ _ _ _ _ Hf) as (ts & -> & Hnd & Hin & Hd1).
    assert (∀ t D, due1 t = Some D ↔ due t = Some D ∧ now + 1 <= D) as Hd1'.
    { intros t D. rewrite Hd1. destruct (decide (due t = Some now)) as [Ht|Ht].
      - split; [done|]. intros [HD ?]. assert (D = now) by congruence. lia.
      - split; [|by intros []]. intros HD. split; [done|]. assert (D ≠ now) by congruence. specialize (Hdue t D HD). lia. }
    destruct IH as (Hn & new & -> & Hc); [intros t D HD; by apply (Hd1' t)|].
    rewrite s32_next in Hn by done. split; [lia|]. exists (((., now) <$> ts) ++ new).
    split; [by rewrite fmap_app, app_assoc|]. by eapply called_now; [..|exact Hd1'|exact Hc]; try done; lia.
Qed.

(** C21. Timers run exactly on time. When the timer functions set no timers, a call
    of [run_timer_list] with jiffies [j] runs each timer due up to [j] exactly once,
    at its due tick and in the order of the due ticks, runs no other, and
    leaves exactly the others linked, through all cascades and across the
    wrap-around of jiffies. *)
Theorem timers_run_on_time l j :
  let s := run_events l in let s' := run_timer_list j s in
  ∃ now due now' due' new,
    wheel_spec l now (ran s) due ∧ now' = now + Z.max 0 (s32 (j - u32 now) + 1) ∧
    ran s' = ran s ++ (call_of <$> new) ∧ called new now now' due due' ∧
    timer_jiffies s' = u32 now' ∧ ∀ t, linked s' t = true ↔ is_Some (due' t).
Proof.
  cbv zeta. destruct (run_events_ok l) as (now & due & Hl & Hs). set (s := run_events l) in *.
  pose proof (proj1 (proj2 Hs)) as [Hok Hj _ _ _ _]. unfold run_timer_list. rewrite Hj.
  destruct (tick_loop_ok (Z.to_nat (s32 (j - u32 now) + 1)) j now due s Hs) as (now' & due' & Ht & Hs'); [lia|].
  destruct (ticks_passive _ _ _ _ _ _ _ Ht) as (Hn & new & Hran & Hc); [intros t D; by eapply at_rest_due|].
  exists now, due, now', due', new. destruct Hs' as (_ & [Hok' Hj' _ _ _ _] & _).
  split_and!; [done..|apply Hok'].
Qed.
End passive.

(** Timers 1 and 3 are set early and late for the same tick, timer 2 in between,
    timer 4 far ahead, and timer 5 in the past. *)
Definition set_early : list timer_event :=
  [EOp (OAdd 1 300); EOp (OAdd 2 290); EOp (OAdd 4 20000); ERun 99; EOp (OAdd 3 300); EOp (OMod 5 7)].

Definition no_ops : TimerFn := λ _ _, [].

Lemma timers_run_on_time_witness :
  ran (@run_timer_list no_ops 310 (@run_events no_ops set_early)) =
    [(5%nat, 100); (2%nat, 290); (3%nat, 300); (1%nat, 300)] ∧
  ∃ now due now' due' new,
    @wheel_spec no_ops set_early now (ran (@run_events no_ops set_early)) due ∧
    ran (@run_timer_list no_ops 310 (@run_events no_ops set_early)) =
      ran (@run_events no_ops set_early) ++ (call_of <$> new) ∧ called new now now' due due'.
Proof.
  split; [by vm_compute|].
  destruct (@timers_run_on_time no_ops (λ _ _, eq_refl) set_early 310) as
    (now & due & now' & due' & new & H1 & _ & H2 & H3 & _).
  exists now, due, now', due', new. split; [exact H1|]. split; [exact H2|exact H3].
Defined.

(** The comment above [list_add] says that timers are FIFO, but of two timers
    for the same tick the one set later can run first: the earlier one
    waits in tv2 while the later one goes straight into tv1. *)
Lemma timers_not_fifo :
  ran (@run_timer_list no_ops 300 (@run_events no_ops [EOp (OAdd 1 300); ERun 99; EOp (OAdd 2 300)])) =
    [(2%nat, 300); (1%nat, 300)].
Proof. by vm_compute. Qed.
