(* ===== verification/Resource.v ===== *)
(** The tree of I/O ports and memory ranges (kernel/resource.c): [struct
    resource]s in an explicit heap, linked by their [parent], [sibling] and
    [child] pointers. An access through a pointer to no live structure makes the
    whole call [None]. [resource_lock] makes each call atomic. *)
From S2P Require Import Prelude.
From stdpp Require Import list options.
Open Scope cint_scope.
Open Scope Z_scope.

(** * Data *)

Record resource := mk_resource {
  res_name : option string;
  res_start : Z;
  res_end : Z;
  res_flags : Z;
  res_parent : Z;
  res_sibling : Z;
  res_child : Z
}.

Definition set_res_start (x : Z) (r : resource) : resource :=
  mk_resource (res_name r) x (res_end r) (res_flags r) (res_parent r) (res_sibling r) (res_child r).
Definition set_res_end (x : Z) (r : resource) : resource :=
  mk_resource (res_name r) (res_start r) x (res_flags r) (res_parent r) (res_sibling r) (res_child r).
Definition set_res_parent (x : Z) (r : resource) : resource :=
  mk_resource (res_name r) (res_start r) (res_end r) (res_flags r) x (res_sibling r) (res_child r).
Definition set_res_sibling (x : Z) (r : resource) : resource :=
  mk_resource (res_name r) (res_start r) (res_end r) (res_flags r) (res_parent r) x (res_child r).
Definition set_res_child (x : Z) (r : resource) : resource :=
  mk_resource (res_name r) (res_start r) (res_end r) (res_flags r) (res_parent r) (res_sibling r) x.

Definition IORESOURCE_IO : Z := 0x100.
Definition IORESOURCE_MEM : Z := 0x200.
Definition IORESOURCE_BUSY : Z := 0x80000000.
Definition IO_SPACE_LIMIT : Z := 0xffff.


(** The two statically allocated roots and their addresses. *)
Definition ioport_resource : Z := 1.
Definition iomem_resource : Z := 2.
Definition resource_init : gmap Z resource :=
  {[ ioport_resource := mk_resource (Some "PCI IO"%string) 0 IO_SPACE_LIMIT IORESOURCE_IO 0 0 0;
     iomem_resource := mk_resource (Some "PCI mem"%string) 0 0xffffffff IORESOURCE_MEM 0 0 0 ]}.

(** [kmalloc] fails or returns an address not in use. *)
Class ResAlloc := {
  kmalloc_res : gmap Z resource → option Z;
  kmalloc_res_fresh h a : kmalloc_res h = Some a → a ≠ 0 ∧ h !! a = None
}.

(** * Access through pointers *)

Notation RM := (ES (gmap Z resource)).

(** [*p] and [p->field = ...] *)
Definition rd (p : Z) : RM resource := λ h,
  match h !! p with None => None | Some r => Some (r, h) end.
Definition wr (p : Z) (f : resource → resource) : RM unit := λ h,
  match h !! p with None => None | Some r => Some (tt, <[p := f r]> h) end.

(** A [struct resource **]: the address of a [child] or [sibling] field. *)
Inductive rslot :=
  | ChildOf (p : Z)
  | SiblingOf (p : Z).

Definition rload (s : rslot) : RM Z :=
  match s with
  | ChildOf p => r ← rd p; mret (res_child r)
  | SiblingOf p => r ← rd p; mret (res_sibling r)
  end.
Definition rstore (s : rslot) (x : Z) : RM unit :=
  match s with
  | ChildOf p => wr p (set_res_child x)
  | SiblingOf p => wr p (set_res_sibling x)
  end.

(** The loops over a list of siblings visit each live structure at most once. *)
Definition sibling_fuel : RM nat := λ h, Some (S (size h), h).
(** Those that also go down visit so many at each depth. *)
Definition depth_fuel : RM nat := λ h, Some (S (size h) * S (size h), h)%nat.

(** A structure comes to life at an address, or ends its life. *)
Definition place (p : Z) (r : resource) : RM unit := λ h, Some (tt, <[p := r]> h).
Definition kfree (p : Z) : RM unit := λ h, Some (tt, delete p h).

Definition no_fuel {A} : RM A := λ _, None.

(** * Requests and releases *)

(** The result is the conflicting entry, 0 for none. *)
Fixpoint request_loop (fuel : nat) (p : rslot) (start end_ root new : Z) : RM Z :=
  match fuel with
  | O => no_fuel
  | S fuel =>
      tmp ← rload p;
      let link :=
        wr new (set_res_sibling tmp);;
        rstore p new;;
        wr new (set_res_parent root);;
        mret 0 in
      if tmp =? 0 then link
      else r ← rd tmp;
           if res_start r >? end_ then link
           else if res_end r <? start then
                  request_loop fuel (SiblingOf tmp) start end_ root new
                else mret tmp
  end.

Definition __request_resource (root new : Z) : RM Z :=
  n ← rd new;
  let start := res_start n in
  let end_ := res_end n in
  r ← rd root;
  if end_ <? start then mret root
  else if start <? res_start r then mret root
  else if end_ >? res_end r then mret root
  else fuel ← sibling_fuel; request_loop fuel (ChildOf root) start end_ root new.

Fixpoint release_loop (fuel : nat) (p : rslot) (old : Z) : RM Z :=
  match fuel with
  | O => no_fuel
  | S fuel =>
      tmp ← rload p;
      if tmp =? 0 then mret (- EINVAL)
      else if tmp =? old then
             r ← rd tmp;
             rstore p (res_sibling r);;
             wr old (set_res_parent 0);;
             mret 0
           else release_loop fuel (SiblingOf tmp) old
  end.

Definition __release_resource (old : Z) : RM Z :=
  o ← rd old;
  fuel ← sibling_fuel;
  release_loop fuel (ChildOf (res_parent o)) old.

Definition request_resource (root new : Z) : RM Z :=
  conflict ← __request_resource root new;
  mret (if conflict =? 0 then 0 else - EBUSY).

Definition release_resource (old : Z) : RM Z := __release_resource old.

(** [tmp] is the address of the local variable, [garbage] what the stack holds
    there; the variable is gone when the call returns. *)
Definition check_resource (tmp : Z) (garbage : resource) (root start len : Z) : RM Z :=
  place tmp (set_res_end (u32 (start + len - 1)) (set_res_start start garbage));;
  conflict ← __request_resource root tmp;
  (if conflict =? 0 then __release_resource tmp;; mret tt else mret tt);;
  kfree tmp;;
  mret (if conflict =? 0 then 0 else - EBUSY).

(** * Allocation *)

(** The optional callback [alignf] moves the start of a candidate; its other
    argument [alignf_data] is captured by it. *)
Definition alignfn := option (resource → Z → Z → Z).

(** What happens to [new] at one candidate, after its end has been set to
    [limit]. *)
Definition find_fit (limit size min max align : Z) (alignf : alignfn) (new : resource) : resource :=
  let new := set_res_end limit new in
  let new := if res_start new <? min then set_res_start min new else new in
  let new := if res_end new >? max then set_res_end max new else new in
  let new := set_res_start (Z.land (u32 (res_start new + align - 1)) (Z.lnot (align - 1))) new in
  match alignf with
  | None => new
  | Some f => set_res_start (f new size align) new
  end.

Fixpoint find_hole_loop (fuel : nat) (this root new size min max align : Z) (alignf : alignfn) : RM Z :=
  match fuel with
  | O => no_fuel
  | S fuel =>
      limit ← (if negb (this =? 0) then t ← rd this; mret (res_start t)
               else r ← rd root; mret (res_end r));
      wr new (find_fit limit size min max align alignf);;
      n ← rd new;
      if (res_start n <? res_end n) && (u32 (res_end n - res_start n + 1) >=? size) then
        wr new (λ n, set_res_end (u32 (res_start n + size - 1)) n);;
        mret 0
      else if this =? 0 then mret (- EBUSY)
      else t ← rd this;
           wr new (set_res_start (u32 (res_end t + 1)));;
           find_hole_loop fuel (res_sibling t) root new size min max align alignf
  end%bool.

Definition find_resource (root new size min max align : Z) (alignf : alignfn) : RM Z :=
  r ← rd root;
  let this := res_child r in
  wr new (set_res_start (res_start r));;
  fuel ← sibling_fuel;
  find_hole_loop fuel this root new size min max align alignf.

Definition allocate_resource (root new size min max align : Z) (alignf : alignfn) : RM Z :=
  err ← find_resource root new size min max align alignf;
  if err >=? 0 then
    conflict ← __request_resource root new;
    mret (if negb (conflict =? 0) then - EBUSY else err)
  else mret err.

(** The callback the PCI code of arch/i386/kernel/pci-i386.c passes. *)
Definition pcibios_align_resource (res : resource) (size align : Z) : Z :=
  if res_flags res & IORESOURCE_IO then
    let start := res_start res in
    if start & 0x300 then Z.land (u32 (start + 0x3ff)) (Z.lnot 0x3ff) else start
  else res_start res.

(** * Busy regions *)

(** Returns the parent that took the region, 0 for none. *)
Fixpoint region_loop (fuel : nat) (parent res : Z) : RM bool :=
  match fuel with
  | O => no_fuel
  | S fuel =>
      conflict ← __request_resource parent res;
      if conflict =? 0 then mret true
      else if negb (conflict =? parent) then
             c ← rd conflict;
             if negb (res_flags c & IORESOURCE_BUSY) then region_loop fuel conflict res
             else mret false
           else mret false
  end.

(** The new region, 0 for [NULL]. *)
Definition __request_region `{ResAlloc} (parent start n : Z) (name : option string) : RM Z :=
  a ← (λ h, Some (kmalloc_res h, h)) : RM (option Z);
  match a with
  | None => mret 0
  | Some res =>
      place res (mk_resource name start (u32 (start + n - 1)) IORESOURCE_BUSY 0 0 0);;
      fuel ← sibling_fuel;
      ok ← region_loop fuel parent res;
      if (ok : bool) then mret res
      else kfree res;; mret 0
  end.

Definition __check_region `{ResAlloc} (parent start n : Z) : RM Z :=
  res ← __request_region parent start n (Some "check-region"%string);
  if res =? 0 then mret (- EBUSY)
  else release_resource res;;
       kfree res;;
       mret 0.

(** The result tells whether a region was freed; otherwise the code prints a
    complaint. *)
Fixpoint release_region_loop (fuel : nat) (p : rslot) (start end_ : Z) : RM bool :=
  match fuel with
  | O => no_fuel
  | S fuel =>
      res ← rload p;
      if res =? 0 then mret false
      else r ← rd res;
           if (res_start r <=? start) && (res_end r >=? end_) then
             if negb (res_flags r & IORESOURCE_BUSY) then
               release_region_loop fuel (ChildOf res) start end_
             else if negb (res_start r =? start) || negb (res_end r =? end_) then mret false
             else rstore p (res_sibling r);;
                  kfree res;;
                  mret true
           else release_region_loop fuel (SiblingOf res) start end_
  end%bool.

Definition __release_region (parent start n : Z) : RM bool :=
  let end_ := u32 (start + n - 1) in
  fuel ← depth_fuel;
  release_region_loop fuel (ChildOf parent) start end_.
