(* ===== verification/ResourceProofs.v ===== *)
(** The resource tree (Resource.v): the invariant that ties the pointers to the
    lists of children, and what linking and unlinking do to it. *)
From stdpp Require Import functions.
From S2P Require Import Prelude Resource.
From stdpp Require Import list options.
#[local] Set Default Proof Using "Type*".
Open Scope cint_scope.
Open Scope Z_scope.

(** * Running the monad *)

Lemma rd_run p h r : h !! p = Some r → rd p h = Some (r, h).
Proof. unfold rd. by intros ->. Qed.

Lemma wr_run p f h : is_Some (h !! p) → wr p f h = Some (tt, alter f p h).
Proof.
  unfold wr. intros [r Hr]. rewrite Hr. do 2 f_equal. apply map_eq. intros i.
  rewrite lookup_insert, lookup_alter. destruct (decide (p = i)) as [->|]; by rewrite ?Hr.
Qed.

Definition owner (s : rslot) : Z := match s with ChildOf p | SiblingOf p => p end.
Definition slot_get (s : rslot) (r : resource) : Z :=
  match s with ChildOf _ => res_child r | SiblingOf _ => res_sibling r end.
Definition slot_set (s : rslot) (x : Z) : resource → resource :=
  match s with ChildOf _ => set_res_child x | SiblingOf _ => set_res_sibling x end.

Lemma rload_run s h r : h !! owner s = Some r → rload s h = Some (slot_get s r, h).
Proof. destruct s; simpl; intros Hr; by erewrite es_bind by by apply rd_run. Qed.

Lemma rstore_run s x h : is_Some (h !! owner s) → rstore s x h = Some (tt, alter (slot_set s x) (owner s) h).
Proof. destruct s; apply wr_run. Qed.

(** * The invariant *)

(** The pointer [a] starts the list [l] of the children of [par], which are in
    order, disjoint and between [lo] and [hi]. *)
Fixpoint kids (h : gmap Z resource) (par lo hi a : Z) (l : list Z) : Prop :=
  match l with
  | [] => a = 0
  | x :: l => a = x ∧ ∃ r, h !! x = Some r ∧ res_parent r = par ∧
      lo <= res_start r <= res_end r ∧ res_end r <= hi ∧
      kids h par (res_end r + 1) hi (res_sibling r) l
  end.

(** The way up ends. *)
Inductive rooted (h : gmap Z resource) (p : Z) : Prop :=
  | rooted_top r : h !! p = Some r → res_parent r = 0 → rooted h p
  | rooted_step r : h !! p = Some r → rooted h (res_parent r) → rooted h p.

(** [up h q p]: [q] is [p] or above it. *)
Inductive up (h : gmap Z resource) (q : Z) : Z → Prop :=
  | up_refl : up h q q
  | up_step p r : h !! p = Some r → up h q (res_parent r) → up h q p.

Definition res_fits (r : resource) : Prop := 0 <= res_start r < 2 ^ 32 ∧ 0 <= res_end r < 2 ^ 32.

Record res_inv (h : gmap Z resource) (K : Z → list Z) : Prop := {
  ri_null : h !! 0 = None;
  ri_fits p r : h !! p = Some r → res_fits r;
  ri_kids p r : h !! p = Some r → kids h p (res_start r) (res_end r) (res_child r) (K p);
  ri_dead p : h !! p = None → K p = [];
  ri_parent p r : h !! p = Some r → res_parent r ≠ 0 → p ∈ K (res_parent r);
  ri_rooted p : is_Some (h !! p) → rooted h p
}.

Section kids.
Implicit Types (h : gmap Z resource) (l : list Z).

(** What the chain of the children sees of a resource. *)
Definition klink (r : resource) : Z * Z * Z * Z := (res_start r, res_end r, res_parent r, res_sibling r).

Lemma kids_frame h h' par lo hi a l :
  (∀ x, x ∈ l → klink <$> h' !! x = klink <$> h !! x) → kids h par lo hi a l → kids h' par lo hi a l.
Proof.
  revert lo a. induction l as [|x l IH]; intros lo a Hf; [done|].
  intros (-> & r & Hr & Hp & Hlo & Hhi & Hk). split; [done|].
  pose proof (Hf x (list_elem_of_here _ _)) as Hx. rewrite Hr in Hx. cbn in Hx.
  destruct (h' !! x) as [r'|]; [|done]. cbn in Hx. unfold klink in Hx. injection Hx as E1 E2 E3 E4.
  exists r'. rewrite E1, E2, E3, E4. split_and!; [done|done|lia..|].
  apply IH; [|done]. intros y Hy. apply Hf. by right.
Qed.

Lemma kids_lo h par lo lo' hi a l : lo' <= lo → kids h par lo hi a l → kids h par lo' hi a l.
Proof.
  destruct l as [|x l]; [done|]. intros Hle (-> & r & Hr & Hp & Hlo & Hk). split; [done|].
  exists r. split_and!; [done..|lia|lia|apply Hk|apply Hk].
Qed.

Lemma kids_elem h par lo hi a l x :
  kids h par lo hi a l → x ∈ l →
  ∃ r, h !! x = Some r ∧ res_parent r = par ∧ lo <= res_start r <= res_end r ∧ res_end r <= hi.
Proof.
  revert lo a. induction l as [|y l IH]; intros lo a Hk Hx; [set_solver|].
  destruct Hk as (-> & r & Hr & Hp & Hlo & Hhi & Hk). apply elem_of_cons in Hx as [->|Hx]; [by exists r|].
  destruct (IH _ _ Hk Hx) as (r' & ? & ? & ? & ?). exists r'. split_and!; [done..|lia|lia|lia].
Qed.

Lemma kids_nodup h par lo hi a l : kids h par lo hi a l → NoDup l.
Proof.
  revert lo a. induction l as [|y l IH]; intros lo a Hk; [constructor|].
  destruct Hk as (-> & r & Hr & Hp & Hlo & Hhi & Hk). constructor; [|by eapply IH].
  intros Hy. destruct (kids_elem _ _ _ _ _ _ _ Hk Hy) as (r' & Hr' & _ & ? & _). simplify_eq. lia.
Qed.

(** Two different children of a resource have nothing in common. *)
Lemma kids_disjoint h par lo hi a l x y rx ry :
  kids h par lo hi a l → x ∈ l → y ∈ l → x ≠ y → h !! x = Some rx → h !! y = Some ry →
  res_end rx < res_start ry ∨ res_end ry < res_start rx.
Proof.
  revert lo a. induction l as [|z l IH]; intros lo a Hk Hx Hy Hne Hrx Hry; [set_solver|].
  destruct Hk as (-> & r & Hr & Hp & Hlo & Hhi & Hk).
  apply elem_of_cons in Hx as [->|Hx]; apply elem_of_cons in Hy as [->|Hy]; simplify_eq.
  - destruct (kids_elem _ _ _ _ _ _ _ Hk Hy) as (r' & ? & _ & ? & _). simplify_eq. lia.
  - destruct (kids_elem _ _ _ _ _ _ _ Hk Hx) as (r' & ? & _ & ? & _). simplify_eq. lia.
  - by eapply IH.
Qed.

Lemma kids_head h par lo hi a l : kids h par lo hi a l → a = default 0 (head l).
Proof. destruct l; [done|]. by intros [-> _]. Qed.

Lemma kids_app_r h par lo hi a l1 l2 :
  kids h par lo hi a (l1 ++ l2) → ∃ lo', kids h par lo' hi (default 0 (head l2)) l2.
Proof.
  revert lo a. induction l1 as [|x l1 IH]; intros lo a Hk.
  - exists lo. cbn [app] in Hk. by rewrite <-(kids_head _ _ _ _ _ _ Hk).
  - destruct Hk as (_ & r & _ & _ & _ & _ & Hk). by apply IH in Hk.
Qed.

Lemma kids_raise h par lo lo' hi a l :
  (∀ x r, x ∈ l → h !! x = Some r → lo' <= res_start r) → kids h par lo hi a l → kids h par lo' hi a l.
Proof.
  destruct l as [|x l]; [done|]. intros Hlo (-> & r & Hr & Hp & Hse & Hk). split; [done|].
  exists r. specialize (Hlo x r (list_elem_of_here _ _) Hr). split_and!; [done..|lia|lia|apply Hk|apply Hk].
Qed.

Lemma kids_before h par lo hi a l1 l2 x y rx ry :
  kids h par lo hi a (l1 ++ l2) → x ∈ l1 → y ∈ l2 → h !! x = Some rx → h !! y = Some ry → res_end rx < res_start ry.
Proof.
  revert lo a. induction l1 as [|z l1 IH]; intros lo a Hk Hx Hy Hrx Hry; [by apply elem_of_nil in Hx|].
  destruct Hk as (_ & rz & Hrz & _ & _ & _ & Hk). apply elem_of_cons in Hx as [->|Hx]; [|by eapply IH].
  replace rz with rx in Hk by congruence.
  destruct (kids_elem _ _ _ _ _ _ y Hk) as (r & Hr & _ & Hlo & _); [apply elem_of_app; by right|].
  replace r with ry in Hlo by congruence. lia.
Qed.

(** The slot that points behind the children [l1]. *)
Definition slot_after (s : rslot) (l1 : list Z) : rslot :=
  match last l1 with None => s | Some x => SiblingOf x end.

Lemma slot_after_cons s x l1 : slot_after s (x :: l1) = slot_after (SiblingOf x) l1.
Proof. unfold slot_after. destruct l1 as [|y l1]; [done|]. cbn [last]. destruct (last (y :: l1)) eqn:E; [done|]. by apply last_None in E. Qed.

Lemma owner_slot_after s l1 : owner (slot_after s l1) = owner s ∨ owner (slot_after s l1) ∈ l1.
Proof. unfold slot_after. destruct (last l1) as [x|] eqn:E; [|by left]. right. by apply last_Some_elem_of. Qed.

(** A list of children over a heap in which only the slot behind [l1] has
    changed, to a pointer to what follows. *)
Lemma kids_splice h h' par lo mid hi a a' b l1 l2 l2' :
  kids h par lo hi a (l1 ++ l2) →
  (∀ x, x ∈ l1 → Some x ≠ last l1 → h' !! x = h !! x) →
  (∀ x r, last l1 = Some x → h !! x = Some r → h' !! x = Some (set_res_sibling b r)) →
  (∀ x r, last l1 = Some x → h !! x = Some r → res_end r < mid) → lo <= mid →
  (match l1 with [] => a' = b | _ => a' = a end) →
  kids h' par mid hi b l2' → kids h' par lo hi a' (l1 ++ l2').
Proof.
  revert lo a a'. induction l1 as [|x l1 IH]; intros lo a a' Hk Hsame Hlast Hmid Hlo Ha Hk'.
  { subst. cbn [app]. by eapply kids_lo. }
  destruct Hk as (-> & r & Hr & Hp & Hlo' & Hhi & Hk). subst a'. split; [done|].
  destruct l1 as [|y l1].
  - exists (set_res_sibling b r). specialize (Hmid x r eq_refl Hr). cbn.
    split_and!; [by apply Hlast|done|lia|lia|done|]. eapply kids_lo; [|done]. lia.
  - pose proof (kids_nodup _ _ _ _ _ _ Hk) as Hnd.
    exists r. split_and!; [|done|lia|lia|done|].
    + rewrite Hsame; [done|left|]. intros Heq. symmetry in Heq. change (last (y :: l1) = Some x) in Heq. apply last_Some_elem_of in Heq.
      destruct (kids_elem _ _ _ _ _ _ x Hk) as (r' & Hr' & _ & ? & _); [apply elem_of_app; by left|].
      rewrite Hr in Hr'. simplify_eq. lia.
    + eapply IH; [done|..|done|done].
      * intros z Hz Hl. apply Hsame; [by right|done].
      * intros z rz Hl. by apply Hlast.
      * intros z rz Hl. by apply Hmid.
      * destruct (last (y :: l1)) as [z|] eqn:El; [|by apply last_None in El].
        pose proof El as Hz. apply last_Some_elem_of in Hz.
        destruct (kids_elem _ _ _ _ _ _ z Hk) as (rz & Hrz & _ & ? & _); [apply elem_of_app; by left|].
        specialize (Hmid z rz El Hrz). lia.
Qed.
End kids.

(** * Linking *)

Definition overlaps (r : resource) (start end_ : Z) : Prop := res_start r <= end_ ∧ start <= res_end r.

(** The heap when [new] has been linked into the slot [s] before [tmp]. *)
Definition link_at (s : rslot) (tmp new root : Z) (h : gmap Z resource) : gmap Z resource :=
  alter (set_res_parent root) new (alter (slot_set s new) (owner s) (alter (set_res_sibling tmp) new h)).

Lemma link_run s tmp new root h :
  is_Some (h !! owner s) → is_Some (h !! new) →
  (wr new (set_res_sibling tmp);; rstore s new;; wr new (set_res_parent root);; mret 0) h =
    Some (0, link_at s tmp new root h).
Proof.
  intros Hs Hn. erewrite es_bind by by apply wr_run. erewrite es_bind by by apply rstore_run, alter_live.
  erewrite es_bind by by apply wr_run, alter_live, alter_live. reflexivity.
Qed.

Lemma kids_after h par lo hi a l x r : kids h par lo hi a l → x ∈ l → h !! x = Some r → lo <= res_start r.
Proof. intros Hk Hx Hr. destruct (kids_elem _ _ _ _ _ _ _ Hk Hx) as (r' & Hr' & _ & ? & _). rewrite Hr in Hr'. simplify_eq. lia. Qed.

Lemma link_lookup s tmp new root h p n :
  h !! new = Some n → owner s ≠ new →
  link_at s tmp new root h !! p =
    if decide (p = new) then Some (set_res_parent root (set_res_sibling tmp n))
    else if decide (p = owner s) then slot_set s new <$> h !! p else h !! p.
Proof.
  intros Hn Hs. unfold link_at. destruct (decide (p = new)) as [->|Hp].
  - by rewrite lookup_alter_eq, lookup_alter_ne, lookup_alter_eq, Hn.
  - rewrite lookup_alter_ne by done. destruct (decide (p = owner s)) as [->|].
    + by rewrite lookup_alter_eq, lookup_alter_ne.
    + by rewrite !lookup_alter_ne.
Qed.

Lemma request_loop_run fuel s a l lo hi par start end_ root new h :
  kids h par lo hi a l → h !! 0 = None → is_Some (h !! new) → (length l < fuel)%nat →
  (∃ r, h !! owner s = Some r ∧ slot_get s r = a) →
  (∃ l1 l2, l = l1 ++ l2 ∧
    (∀ x r, x ∈ l1 → h !! x = Some r → res_end r < start) ∧
    (∀ x r, x ∈ l2 → h !! x = Some r → end_ < res_start r) ∧
    request_loop fuel s start end_ root new h =
      Some (0, link_at (slot_after s l1) (default 0 (head l2)) new root h)) ∨
  (∃ x r, x ∈ l ∧ h !! x = Some r ∧ overlaps r start end_ ∧
    request_loop fuel s start end_ root new h = Some (x, h)).
Proof.
  intros Hk H0 Hnew Hf. revert fuel s a lo Hk Hf. induction l as [|x l IH]; intros [|fuel] s a lo Hk Hf (o & Ho & Ha); cbn [length] in Hf; [lia| |lia|].
  - left. exists [], []. split_and!; [done|intros x r Hx; by apply elem_of_nil in Hx..|].
    simpl in Hk. cbn [request_loop]. erewrite es_bind by by apply rload_run. rewrite Ha, Hk. cbn [Z.eqb].
    by apply link_run.
  - destruct Hk as (-> & r & Hr & Hp & Hlo & Hhi & Hk).
    assert (x ≠ 0) as Hx0 by (intros ->; by rewrite H0 in Hr).
    cbn [request_loop]. erewrite es_bind by by apply rload_run. rewrite Ha.
    destruct (Z.eqb_spec x 0) as [|_]; [done|]. erewrite es_bind by by apply rd_run.
    destruct (res_start r >? end_) eqn:Hgt; to_prop.
    { left. exists [], (x :: l). split_and!; [done|intros z rz Hz; by apply elem_of_nil in Hz| |by apply link_run].
      intros z rz Hz Hrz. apply elem_of_cons in Hz as [->|Hz]; [rewrite Hr in Hrz; simplify_eq; to_prop; lia|].
      pose proof (kids_after _ _ _ _ _ _ _ _ Hk Hz Hrz). to_prop. lia. }
    destruct (res_end r <? start) eqn:Hlt; to_prop.
    2:{ right. exists x, r. split_and!; [by left|done|unfold overlaps; to_prop; lia|done]. }
    destruct (IH fuel (SiblingOf x) _ _ Hk) as [(l1 & l2 & -> & Hl1 & Hl2 & Hrun)|(y & ry & Hy & Hry & Hov & Hrun)]; [lia|by exists r|..].
    + left. exists (x :: l1), l2. split_and!; [done| |done|by rewrite slot_after_cons].
      intros z rz Hz Hrz. apply elem_of_cons in Hz as [->|Hz]; [rewrite Hr in Hrz; by simplify_eq|by eapply Hl1].
    + right. exists y, ry. by split_and!; [right|..].
Qed.

Section inv.
Context (h : gmap Z resource) (K : Z → list Z) (Hinv : res_inv h K).

Lemma inv_nonzero p : is_Some (h !! p) → p ≠ 0.
Proof. intros [r Hr] ->. by rewrite (ri_null _ _ Hinv) in Hr. Qed.

(** The children of [p] are the resources with parent [p]. *)
Lemma inv_kid p x : x ∈ K p → ∃ r rp, h !! x = Some r ∧ h !! p = Some rp ∧ res_parent r = p ∧ p ≠ 0 ∧
  res_start rp <= res_start r <= res_end r ∧ res_end r <= res_end rp.
Proof.
  intros Hx. destruct (h !! p) as [rp|] eqn:Hp; [|rewrite (ri_dead _ _ Hinv _ Hp) in Hx; by apply elem_of_nil in Hx].
  destruct (kids_elem _ _ _ _ _ _ _ (ri_kids _ _ Hinv _ _ Hp) Hx) as (r & ? & ? & ? & ?).
  exists r, rp. split_and!; [done|done|done|by apply inv_nonzero|lia..].
Qed.

Lemma inv_slot_owner root l1 l2 : is_Some (h !! root) → K root = l1 ++ l2 →
  is_Some (h !! owner (slot_after (ChildOf root) l1)).
Proof.
  intros Hr HK. destruct (owner_slot_after (ChildOf root) l1) as [->|Hin]; [done|].
  destruct (inv_kid root (owner (slot_after (ChildOf root) l1))) as (r & ? & ? & _); [rewrite HK; apply elem_of_app; by left|by eexists].
Qed.
End inv.

(** * Linking keeps the invariant *)

(** The fields that linking never touches. *)
Definition stable (r : resource) := (res_name r, res_start r, res_end r, res_flags r).

(** A change of the children of [root] that leaves ranges and the other chains
    alone. *)
Lemma inv_relink h h' K root r l :
  res_inv h K → h !! root = Some r →
  (∀ p, stable <$> h' !! p = stable <$> h !! p) →
  (∀ p x x', p ≠ root → h !! p = Some x → h' !! p = Some x' → res_child x' = res_child x) →
  (∀ p x, p ≠ root → x ∈ K p → klink <$> h' !! x = klink <$> h !! x) →
  (∃ r', h' !! root = Some r' ∧ kids h' root (res_start r) (res_end r) (res_child r') l) →
  (∀ p x, h' !! p = Some x → res_parent x ≠ 0 → p ∈ (<[root := l]> K) (res_parent x)) →
  (∀ p, is_Some (h' !! p) → rooted h' p) →
  res_inv h' (<[root := l]> K).
Proof.
  intros Hinv Hroot Hrng Hch Hkl (r' & Hr' & Hk) Hpar Hrt.
  assert (∀ p x', h' !! p = Some x' → ∃ x, h !! p = Some x ∧ res_start x' = res_start x ∧ res_end x' = res_end x) as Hold.
  { intros p x' Hx'. specialize (Hrng p). rewrite Hx' in Hrng. destruct (h !! p) as [x|]; [|done].
    exists x. unfold stable in Hrng. cbn in Hrng. split_and!; congruence. }
  split; [| | | |done..].
  - specialize (Hrng 0). rewrite (ri_null _ _ Hinv) in Hrng. by destruct (h' !! 0).
  - intros p x' Hx'. destruct (Hold _ _ Hx') as (x & Hx & Hs & He). unfold res_fits.
    rewrite Hs, He. by apply (ri_fits _ _ Hinv p).
  - intros p x' Hx'. destruct (Hold _ _ Hx') as (x & Hx & Hs & He). rewrite Hs, He.
    destruct (decide (p = root)) as [->|Hpr].
    + rewrite fn_lookup_insert. replace x' with r' by congruence. replace x with r by congruence. done.
    + rewrite fn_lookup_insert_ne, (Hch p x x') by done.
      apply (kids_frame h); [|by apply (ri_kids _ _ Hinv)]. intros y. by apply Hkl.
  - intros p Hp. specialize (Hrng p). rewrite Hp in Hrng. destruct (h !! p) eqn:Hp'; [done|].
    rewrite fn_lookup_insert_ne by (intros ->; by rewrite Hroot in Hp'). by apply (ri_dead _ _ Hinv).
Qed.

(** Whoever is not below [new] is rooted without it. *)
Lemma rooted_off h h' new q :
  (∀ p r, p ≠ new → h !! p = Some r → ∃ r', h' !! p = Some r' ∧ res_parent r' = res_parent r) →
  rooted h q → ¬ up h new q → rooted h' q.
Proof.
  intros Hsame. induction 1 as [p r Hr Hp|p r Hr _ IH]; intros Hup.
  - destruct (Hsame p r) as (r' & Hr' & Hp'); [intros ->; apply Hup; constructor|done|].
    eapply rooted_top; [done|congruence].
  - destruct (Hsame p r) as (r' & Hr' & Hp'); [intros ->; apply Hup; constructor|done|].
    eapply rooted_step; [done|]. rewrite Hp'. apply IH. intros Hn. apply Hup. by eapply up_step.
Qed.

Section link.
Context (h : gmap Z resource) (K : Z → list Z) (Hinv : res_inv h K).
Context (root new : Z) (r n : resource) (l1 l2 : list Z).
Context (Hroot : h !! root = Some r) (Hnew : h !! new = Some n).
Context (Hfree : res_parent n = 0) (Hup : ¬ up h new root).
Context (Hse : res_start n <= res_end n) (Hlo : res_start r <= res_start n) (Hhi : res_end n <= res_end r).
Context (HK : K root = l1 ++ l2).
Context (Hl1 : ∀ x rx, x ∈ l1 → h !! x = Some rx → res_end rx < res_start n).
Context (Hl2 : ∀ x rx, x ∈ l2 → h !! x = Some rx → res_end n < res_start rx).

Local Notation s := (slot_after (ChildOf root) l1).
Notation tmp := (default 0 (head l2)).
Notation h' := (link_at s tmp new root h).

Lemma link_new_not_kid p : new ∉ K p.
Proof. intros Hx. destruct (inv_kid h K Hinv p new Hx) as (rx & rp & Hrx & _ & Hp & Hp0 & _). rewrite Hnew in Hrx. simplify_eq. Qed.

Lemma link_root_not_new : root ≠ new.
Proof. intros ->. apply Hup. constructor. Qed.

Lemma link_owner_not_new : owner s ≠ new.
Proof.
  destruct (owner_slot_after (ChildOf root) l1) as [->|Hin]; [apply link_root_not_new|]. intros Heq.
  rewrite Heq in Hin. apply (link_new_not_kid root). rewrite HK. apply elem_of_app. by left.
Qed.

Lemma link_at_lookup p : h' !! p =
  if decide (p = new) then Some (set_res_parent root (set_res_sibling tmp n))
  else if decide (p = owner s) then slot_set s new <$> h !! p else h !! p.
Proof. apply link_lookup; [done|apply link_owner_not_new]. Qed.

(** The other chains do not notice. *)
Lemma link_chain_same p x : p ≠ root → x ∈ K p → klink <$> h' !! x = klink <$> h !! x.
Proof.
  intros Hp Hx. rewrite link_at_lookup. destruct (decide (x = new)) as [->|]; [by destruct (link_new_not_kid p)|].
  destruct (decide (x = owner s)) as [Ho|]; [|done].
  destruct (inv_kid h K Hinv p x Hx) as (rx & _ & Hrx & _ & Hpx & _). rewrite Hrx. cbn.
  destruct (last l1) as [y|] eqn:El; unfold slot_after in *; rewrite El in *; [|done].
  exfalso. apply last_Some_elem_of in El. cbn in Ho. subst y.
  destruct (inv_kid h K Hinv root x) as (ry & _ & Hry & _ & Hpy & _); [rewrite HK; apply elem_of_app; by left|]. congruence.
Qed.

Lemma link_old_not_new x : x ∈ K root → x ≠ new.
Proof. intros Hx ->. by destruct (link_new_not_kid root). Qed.

Lemma link_in_l1 x : x ∈ l1 → x ∈ K root.
Proof. intros Hx. rewrite HK. apply elem_of_app. by left. Qed.

Lemma link_in_l2 x : x ∈ l2 → x ∈ K root.
Proof. intros Hx. rewrite HK. apply elem_of_app. by right. Qed.

Lemma link_kids_tail : kids h' root (res_start n) (res_end r) new (new :: l2).
Proof.
  pose proof (ri_kids _ _ Hinv _ _ Hroot) as Hk. rewrite HK in Hk.
  pose proof (kids_nodup _ _ _ _ _ _ Hk) as Hnd. apply NoDup_app in Hnd as (_ & Hdis & _).
  split; [done|]. eexists. split; [by rewrite link_at_lookup, decide_True|].
  cbn. split_and!; [done|lia..|]. destruct (kids_app_r _ _ _ _ _ _ _ Hk) as [lo' Hk2].
  apply (kids_frame h); [|eapply kids_raise; [|exact Hk2]; intros x rx Hx Hrx; specialize (Hl2 _ _ Hx Hrx); lia].
  intros x Hx. rewrite link_at_lookup, decide_False by (by apply link_old_not_new, link_in_l2).
  destruct (decide (x = owner s)) as [Ho|_]; [|done]. unfold slot_after in *.
  destruct (last l1) as [y|] eqn:El; cbn in Ho |- *; subst x.
  - destruct (Hdis y); [by apply last_Some_elem_of|done].
  - by destruct (h !! root).
Qed.

Lemma link_kids_root : kids h' root (res_start r) (res_end r)
  (if l1 is [] then new else res_child r) (l1 ++ new :: l2).
Proof.
  pose proof (ri_kids _ _ Hinv _ _ Hroot) as Hk. rewrite HK in Hk.
  apply (kids_splice h h' root (res_start r) (res_start n) (res_end r) (res_child r) _ new l1 l2 (new :: l2) Hk);
    [| | |lia|by destruct l1|apply link_kids_tail].
  - intros x Hx Hl. rewrite link_at_lookup, decide_False by (by apply link_old_not_new, link_in_l1).
    destruct (decide (x = owner s)) as [Ho|_]; [|done]. unfold slot_after in Ho.
    destruct (last l1) eqn:El; [by subst x|]. apply last_None in El as ->. by apply elem_of_nil in Hx.
  - intros x rx Hx Hrx. pose proof (last_Some_elem_of _ _ Hx) as Hin.
    rewrite link_at_lookup, decide_False by (by apply link_old_not_new, link_in_l1).
    unfold slot_after. rewrite Hx. cbn [owner slot_set]. by rewrite decide_True, Hrx.
  - intros x rx Hx. apply Hl1. by apply last_Some_elem_of.
Qed.

(** The fields [link_at] leaves alone. *)
Lemma link_fields p x : h !! p = Some x → ∃ x', h' !! p = Some x' ∧ stable x' = stable x ∧
  res_parent x' = (if decide (p = new) then root else res_parent x) ∧
  res_child x' = (if decide (p = root) then (if l1 is [] then new else res_child x) else res_child x).
Proof.
  intros Hx. rewrite link_at_lookup. pose proof link_root_not_new. destruct (decide (p = new)) as [->|Hp].
  - eexists. split; [done|]. rewrite decide_False by done. replace n with x by congruence. done.
  - rewrite Hx. destruct (decide (p = owner s)) as [->|Ho].
    + eexists. split; [done|]. unfold slot_after. destruct (last l1) as [y|] eqn:El; cbn.
      * split_and!; [done..|]. destruct (decide _); [|done]. by destruct l1.
      * apply last_None in El. rewrite El. by rewrite decide_True.
    + exists x. split_and!; [done..|]. destruct (decide (p = root)) as [->|]; [|done]. unfold slot_after in Ho.
      destruct l1; [|done]. by destruct Ho.
Qed.

Lemma link_live p : stable <$> h' !! p = stable <$> h !! p.
Proof.
  destruct (h !! p) as [x|] eqn:Hx; [destruct (link_fields _ _ Hx) as (x' & -> & Hr & _); cbn; by rewrite Hr|].
  rewrite link_at_lookup. destruct (decide (p = new)) as [->|]; [by rewrite Hnew in Hx|].
  destruct (decide _); by rewrite Hx.
Qed.

Lemma link_old p x' : h' !! p = Some x' → is_Some (h !! p).
Proof. intros Hx. pose proof (link_live p) as Hl. rewrite Hx in Hl. destruct (h !! p); [by eexists|done]. Qed.

Lemma link_rooted p : is_Some (h' !! p) → rooted h' p.
Proof.
  assert (∀ q x, q ≠ new → h !! q = Some x → ∃ x', h' !! q = Some x' ∧ res_parent x' = res_parent x) as Hsame.
  { intros q x Hq Hx. destruct (link_fields _ _ Hx) as (x' & Hx' & _ & Hp & _). rewrite decide_False in Hp by done. by exists x'. }
  intros [x' Hx']. pose proof (ri_rooted _ _ Hinv p (link_old _ _ Hx')) as Hr. clear x' Hx'. induction Hr as [p x Hx Hp|p x Hx _ IH].
  all: destruct (decide (p = new)) as [->|Hpn];
    [eapply rooted_step; [by rewrite link_at_lookup, decide_True|];
     apply (rooted_off h h' new); [done| |done]; apply (ri_rooted _ _ Hinv); by eexists|].
  all: destruct (Hsame p x Hpn Hx) as (x' & Hx' & Heq).
  - eapply rooted_top; [done|congruence].
  - eapply rooted_step; [done|]. by rewrite Heq.
Qed.

Theorem inv_link : res_inv h' (<[root := l1 ++ new :: l2]> K).
Proof.
  apply (inv_relink h h' K root r); [done..| | | | | |apply link_rooted].
  - apply link_live.
  - intros p x x' Hp Hx Hx'. destruct (link_fields _ _ Hx) as (y & Hy & _ & _ & Hc).
    rewrite decide_False in Hc by done. congruence.
  - apply link_chain_same.
  - destruct (link_fields _ _ Hroot) as (r' & Hr' & _ & _ & Hc). rewrite decide_True in Hc by done.
    exists r'. split; [done|]. rewrite Hc. apply link_kids_root.
  - intros p x' Hx' Hp. destruct (link_old _ _ Hx') as [x Hx]. destruct (link_fields _ _ Hx) as (y & Hy & _ & Hpar & _).
    replace y with x' in Hpar by congruence. rewrite Hpar in Hp |- *. destruct (decide (p = new)) as [->|].
    + rewrite fn_lookup_insert. apply elem_of_app. right. left.
    + pose proof (ri_parent _ _ Hinv _ _ Hx Hp) as Hin. destruct (decide (res_parent x = root)) as [Heq|Hne].
      * rewrite Heq, fn_lookup_insert in *. rewrite HK in Hin. apply elem_of_app in Hin.
        apply elem_of_app. destruct Hin; [by left|right; by right].
      * by rewrite fn_lookup_insert_ne.
Qed.
End link.

(** * Unlinking *)

(** The heap when [old] has been taken out of the slot [s]. *)
Definition unlink_at (s : rslot) (next old : Z) (h : gmap Z resource) : gmap Z resource :=
  alter (set_res_parent 0) old (alter (slot_set s next) (owner s) h).

Lemma unlink_lookup s next old h p o :
  h !! old = Some o → owner s ≠ old →
  unlink_at s next old h !! p =
    if decide (p = old) then Some (set_res_parent 0 o)
    else if decide (p = owner s) then slot_set s next <$> h !! p else h !! p.
Proof.
  intros Ho Hs. unfold unlink_at. destruct (decide (p = old)) as [->|Hp].
  - by rewrite lookup_alter_eq, lookup_alter_ne, Ho.
  - rewrite lookup_alter_ne by done. destruct (decide (p = owner s)) as [->|].
    + by rewrite lookup_alter_eq.
    + by rewrite lookup_alter_ne.
Qed.

Lemma release_loop_run fuel s a l1 l2 old lo hi par h o :
  kids h par lo hi a (l1 ++ old :: l2) → h !! 0 = None → h !! old = Some o → (length l1 < fuel)%nat →
  (∃ r, h !! owner s = Some r ∧ slot_get s r = a) →
  release_loop fuel s old h = Some (0, unlink_at (slot_after s l1) (res_sibling o) old h).
Proof.
  intros Hk H0 Hold Hf. revert fuel s a lo Hk Hf.
  induction l1 as [|x l1 IH]; intros [|fuel] s a lo Hk Hf (w & Hw & Ha); cbn [length] in Hf; try lia;
    (cbn [release_loop]; erewrite es_bind by (by apply rload_run); rewrite Ha).
  - destruct Hk as (-> & _). destruct (Z.eqb_spec old 0) as [->|_]; [by rewrite H0 in Hold|].
    rewrite Z.eqb_refl. erewrite es_bind by by apply rd_run. erewrite es_bind by (apply rstore_run; by eexists).
    erewrite es_bind by (apply wr_run, alter_live; by eexists). done.
  - pose proof (kids_nodup _ _ _ _ _ _ Hk) as Hnd. destruct Hk as (-> & r & Hr & Hp & Hlo & Hhi & Hk).
    destruct (Z.eqb_spec x 0) as [->|_]; [by rewrite H0 in Hr|].
    destruct (Z.eqb_spec x old) as [->|_].
    { apply NoDup_cons in Hnd as [[] _]. apply elem_of_app. right. left. }
    rewrite (IH fuel (SiblingOf x) _ _ Hk) by (lia || by exists r). by rewrite slot_after_cons.
Qed.

Section unlink.
Context (h : gmap Z resource) (K : Z → list Z) (Hinv : res_inv h K).
Context (old par : Z) (o r : resource) (l1 l2 : list Z).
Context (Hold : h !! old = Some o) (Hpar : res_parent o = par) (Hroot : h !! par = Some r).
Context (HK : K par = l1 ++ old :: l2).

Local Notation s := (slot_after (ChildOf par) l1).
Notation h' := (unlink_at s (res_sibling o) old h).

Lemma unlink_in_l1 x : x ∈ l1 → x ∈ K par.
Proof. intros Hx. rewrite HK. apply elem_of_app. by left. Qed.

Lemma unlink_nodup : NoDup (l1 ++ old :: l2).
Proof. rewrite <-HK. eapply kids_nodup. by apply (ri_kids _ _ Hinv). Qed.

Lemma unlink_par_nonzero : par ≠ 0.
Proof. apply (inv_nonzero h K Hinv). by eexists. Qed.

Lemma rooted_parent p x : rooted h p → h !! p = Some x → res_parent x ≠ p.
Proof.
  induction 1 as [p y Hy Hp|p y Hy _ IH]; intros Hx Heq; replace y with x in * by congruence.
  - subst p. rewrite Hp in Hx. by rewrite (ri_null _ _ Hinv) in Hx.
  - apply IH; by rewrite Heq.
Qed.

Lemma unlink_par_not_old : par ≠ old.
Proof. intros Heq. apply (rooted_parent old o); [|done|by rewrite Hpar]. apply (ri_rooted _ _ Hinv). by eexists. Qed.

Lemma unlink_owner_not_old : owner s ≠ old.
Proof.
  destruct (owner_slot_after (ChildOf par) l1) as [->|Hin]; [apply unlink_par_not_old|]. intros Heq.
  rewrite Heq in Hin. pose proof unlink_nodup as (_ & Hd & _)%NoDup_app. apply (Hd old Hin). left.
Qed.

Lemma unlink_at_lookup p : h' !! p =
  if decide (p = old) then Some (set_res_parent 0 o)
  else if decide (p = owner s) then slot_set s (res_sibling o) <$> h !! p else h !! p.
Proof. apply unlink_lookup; [done|apply unlink_owner_not_old]. Qed.

Lemma unlink_fields p x : h !! p = Some x → ∃ x', h' !! p = Some x' ∧ stable x' = stable x ∧
  res_parent x' = (if decide (p = old) then 0 else res_parent x) ∧
  res_child x' = (if decide (p = par) then (if l1 is [] then res_sibling o else res_child x) else res_child x).
Proof.
  intros Hx. rewrite unlink_at_lookup. pose proof unlink_par_not_old. destruct (decide (p = old)) as [->|Hp].
  - eexists. split; [done|]. rewrite decide_False by done. replace o with x by congruence. done.
  - rewrite Hx. destruct (decide (p = owner s)) as [->|Ho].
    + eexists. split; [done|]. unfold slot_after. destruct (last l1) as [y|] eqn:El; cbn.
      * split_and!; [done..|]. destruct (decide _); [|done]. by destruct l1.
      * apply last_None in El. rewrite El. by rewrite decide_True.
    + exists x. split_and!; [done..|]. destruct (decide (p = par)) as [->|]; [|done]. unfold slot_after in Ho.
      destruct l1; [|done]. by destruct Ho.
Qed.

Lemma unlink_live p : stable <$> h' !! p = stable <$> h !! p.
Proof.
  destruct (h !! p) as [x|] eqn:Hx; [destruct (unlink_fields _ _ Hx) as (x' & -> & Hr & _); cbn; by rewrite Hr|].
  rewrite unlink_at_lookup. destruct (decide (p = old)) as [->|]; [by rewrite Hold in Hx|].
  destruct (decide _); by rewrite Hx.
Qed.

Lemma unlink_chain_same p x : p ≠ par → x ∈ K p → klink <$> h' !! x = klink <$> h !! x.
Proof.
  intros Hp Hx. destruct (inv_kid h K Hinv p x Hx) as (rx & _ & Hrx & _ & Hpx & _).
  rewrite unlink_at_lookup. destruct (decide (x = old)) as [->|]; [congruence|].
  destruct (decide (x = owner s)) as [Ho|]; [|done]. rewrite Hrx. cbn. unfold slot_after in *.
  destruct (last l1) as [y|] eqn:El; [|done]. exfalso. apply last_Some_elem_of in El. cbn in Ho. subst y.
  destruct (inv_kid h K Hinv par x) as (ry & _ & Hry & _ & Hpy & _); [by apply unlink_in_l1|]. congruence.
Qed.

Lemma unlink_kids_tail : kids h' par (res_end o + 1) (res_end r) (res_sibling o) l2.
Proof.
  pose proof (ri_kids _ _ Hinv _ _ Hroot) as Hk. rewrite HK in Hk. pose proof unlink_nodup as (_ & Hd & Hnd)%NoDup_app.
  apply NoDup_cons in Hnd as [Hold2 _]. destruct (kids_app_r _ _ _ _ _ _ _ Hk) as [lo' (_ & o' & Ho' & _ & _ & _ & Hk2)].
  replace o' with o in Hk2 by congruence. apply (kids_frame h); [|done].
  intros x Hx. rewrite unlink_at_lookup, decide_False by (by intros ->).
  destruct (decide (x = owner s)) as [Ho|_]; [|done]. unfold slot_after in *.
  destruct (last l1) as [y|] eqn:El; cbn in Ho |- *; subst x.
  - destruct (Hd y); [by apply last_Some_elem_of|by right].
  - by destruct (h !! par).
Qed.

Lemma unlink_kids_par : kids h' par (res_start r) (res_end r)
  (if l1 is [] then res_sibling o else res_child r) (l1 ++ l2).
Proof.
  pose proof (ri_kids _ _ Hinv _ _ Hroot) as Hk. rewrite HK in Hk. pose proof unlink_nodup as (_ & Hd & _)%NoDup_app.
  assert (∀ x, x ∈ l1 → x ≠ old) as Hne by (intros x Hx ->; apply (Hd old Hx); left).
  destruct (kids_elem _ _ _ _ _ _ old Hk) as (o' & Ho' & _ & Hlo & _); [apply elem_of_app; right; left|].
  replace o' with o in Hlo by congruence.
  apply (kids_splice h h' par (res_start r) (res_end o + 1) (res_end r) (res_child r) _ (res_sibling o) l1 (old :: l2) l2 Hk);
    [| | |lia|by destruct l1|apply unlink_kids_tail].
  - intros x Hx Hl. rewrite unlink_at_lookup, decide_False by (by apply Hne).
    destruct (decide (x = owner s)) as [Hw|_]; [|done]. unfold slot_after in Hw.
    destruct (last l1) eqn:El; [by subst x|]. apply last_None in El as ->. by apply elem_of_nil in Hx.
  - intros x rx Hx Hrx. rewrite unlink_at_lookup, decide_False by (apply Hne; by apply last_Some_elem_of).
    unfold slot_after. rewrite Hx. cbn [owner slot_set]. by rewrite decide_True, Hrx.
  - intros x rx Hx Hrx. apply last_Some_elem_of in Hx.
    pose proof (kids_before _ _ _ _ _ _ _ x old rx o Hk Hx (list_elem_of_here _ _) Hrx Hold). lia.
Qed.

Lemma unlink_old p x' : h' !! p = Some x' → is_Some (h !! p).
Proof. intros Hx. pose proof (unlink_live p) as Hl. rewrite Hx in Hl. destruct (h !! p); [by eexists|done]. Qed.

Lemma unlink_rooted p : is_Some (h' !! p) → rooted h' p.
Proof.
  intros [x' Hx']. pose proof (ri_rooted _ _ Hinv p (unlink_old _ _ Hx')) as Hr. clear x' Hx'. induction Hr as [p x Hx Hp|p x Hx _ IH].
  all: destruct (unlink_fields _ _ Hx) as (x' & Hx' & _ & Heq & _); destruct (decide (p = old)) as [->|];
    [by eapply rooted_top|].
  - eapply rooted_top; [done|congruence].
  - eapply rooted_step; [done|]. by rewrite Heq.
Qed.

Theorem inv_unlink : res_inv h' (<[par := l1 ++ l2]> K).
Proof.
  apply (inv_relink h h' K par r); [done..| | | | | |apply unlink_rooted].
  - apply unlink_live.
  - intros p x x' Hp Hx Hx'. destruct (unlink_fields _ _ Hx) as (y & Hy & _ & _ & Hc).
    rewrite decide_False in Hc by done. congruence.
  - apply unlink_chain_same.
  - destruct (unlink_fields _ _ Hroot) as (r' & Hr' & _ & _ & Hc). rewrite decide_True in Hc by done.
    exists r'. split; [done|]. rewrite Hc. apply unlink_kids_par.
  - intros p x' Hx' Hp. destruct (unlink_old _ _ Hx') as [x Hx]. destruct (unlink_fields _ _ Hx) as (y & Hy & _ & Hq & _).
    replace y with x' in Hq by congruence. rewrite Hq in Hp |- *. destruct (decide (p = old)) as [->|Hne]; [done|].
    pose proof (ri_parent _ _ Hinv _ _ Hx Hp) as Hin. destruct (decide (res_parent x = par)) as [Heq|].
    + rewrite Heq, fn_lookup_insert in *. rewrite HK in Hin. apply elem_of_app in Hin.
      apply elem_of_app. destruct Hin as [|[->|]%elem_of_cons]; [by left|done|by right].
    + by rewrite fn_lookup_insert_ne.
Qed.
End unlink.

(** * Structures come and go *)

Lemma inv_place h K p x :
  res_inv h K → p ≠ 0 → h !! p = None → res_fits x → res_parent x = 0 → res_child x = 0 →
  res_inv (<[p := x]> h) K.
Proof.
  intros Hinv Hp0 Hp Hfit Hpar Hch.
  assert (∀ q y, y ∈ K q → y ≠ p) as Hkid.
  { intros q y Hy ->. destruct (inv_kid h K Hinv q p Hy) as (? & ? & Hlive & _). by rewrite Hp in Hlive. }
  split.
  - rewrite lookup_insert_ne by done. apply (ri_null _ _ Hinv).
  - intros q y [[-> <-]|[_ Hy]]%lookup_insert_Some; [done|by apply (ri_fits _ _ Hinv q)].
  - intros q y [[-> <-]|[_ Hy]]%lookup_insert_Some.
    + by rewrite (ri_dead _ _ Hinv) by done.
    + apply (kids_frame h); [|by apply (ri_kids _ _ Hinv)]. intros z Hz. by rewrite lookup_insert_ne by (symmetry; by eapply Hkid).
  - intros q [Hq _]%lookup_insert_None. by apply (ri_dead _ _ Hinv).
  - intros q y [[-> <-]|[_ Hy]]%lookup_insert_Some Hq; [done|by apply (ri_parent _ _ Hinv)].
  - intros q Hq. destruct (decide (q = p)) as [->|Hne]; [eapply rooted_top; [apply lookup_insert_eq|done]|].
    rewrite lookup_insert_ne in Hq by done. pose proof (ri_rooted _ _ Hinv q Hq) as Hr. clear Hq Hne.
    induction Hr as [q y Hy Hpy|q y Hy _ IH].
    + eapply rooted_top; [|done]. rewrite lookup_insert_ne by congruence. done.
    + eapply rooted_step; [|done]. rewrite lookup_insert_ne by congruence. done.
Qed.

(** A structure that is not linked and has no children may be freed. *)
Lemma inv_delete h K p x :
  res_inv h K → h !! p = Some x → res_parent x = 0 → res_child x = 0 → res_inv (delete p h) K.
Proof.
  intros Hinv Hp Hpar Hch. pose proof (ri_kids _ _ Hinv _ _ Hp) as HKp. rewrite Hch in HKp.
  assert (K p = []) as Hnil.
  { destruct (K p) as [|y l] eqn:E; [done|]. destruct HKp as (<- & ry & Hry & _). by rewrite (ri_null _ _ Hinv) in Hry. }
  assert (∀ q y, y ∈ K q → y ≠ p) as Hkid.
  { intros q y Hy ->. destruct (inv_kid h K Hinv q p Hy) as (? & ? & Hlive & _ & Hq & Hq0 & _). congruence. }
  split.
  - rewrite lookup_delete_None. right. apply (ri_null _ _ Hinv).
  - intros q y [_ Hy]%lookup_delete_Some. by apply (ri_fits _ _ Hinv q).
  - intros q y [_ Hy]%lookup_delete_Some. apply (kids_frame h); [|by apply (ri_kids _ _ Hinv)].
    intros z Hz. by rewrite lookup_delete_ne by (symmetry; by eapply Hkid).
  - intros q [->|Hq]%lookup_delete_None; [done|by apply (ri_dead _ _ Hinv)].
  - intros q y [_ Hy]%lookup_delete_Some Hq. by apply (ri_parent _ _ Hinv).
  - intros q [y [Hne Hy]%lookup_delete_Some]. pose proof (ri_rooted _ _ Hinv q (mk_is_Some _ _ Hy)) as Hr.
    clear y Hy. induction Hr as [q y Hy Hpy|q y Hy Hr IH].
    + eapply rooted_top; [by rewrite lookup_delete_ne|done].
    + eapply rooted_step; [by rewrite lookup_delete_ne|]. apply IH. intros Heq.
      destruct (decide (res_parent y = 0)) as [H0|H0].
      * rewrite Heq, H0, (ri_null _ _ Hinv) in Hp. done.
      * pose proof (ri_parent _ _ Hinv _ _ Hy H0) as Hin. rewrite <-Heq, Hnil in Hin. by apply elem_of_nil in Hin.
Qed.

(** The owner of an unlinked structure without children may change its range. *)
Lemma inv_assign h K p x x' :
  res_inv h K → h !! p = Some x → res_parent x = 0 → res_child x = 0 →
  res_fits x' → res_parent x' = 0 → res_child x' = 0 → res_inv (<[p := x']> h) K.
Proof.
  intros Hinv Hp Hpar Hch Hf Hpar' Hch'. rewrite <-insert_delete_eq. apply inv_place; [by eapply inv_delete| |apply lookup_delete_eq|done..].
  intros ->. by rewrite (ri_null _ _ Hinv) in Hp.
Qed.
