(* ===== verification/ResourceOps.v ===== *)
(** What the calls on the resource tree do: [request_resource],
    [release_resource] and [check_resource] on every branch. *)
From stdpp Require Import functions.
From S2P Require Import Prelude Resource ResourceProofs.
From stdpp Require Import list options.
#[local] Set Default Proof Using "Type*".
Open Scope cint_scope.
Open Scope Z_scope.

Notation s_after root l1 := (slot_after (ChildOf root) l1).
Notation next_of l2 := (default 0 (head l2)).

Definition inside (r : resource) (start end_ : Z) : Prop := res_start r <= start ∧ end_ <= res_end r.

Lemma kids_size h par lo hi a l : kids h par lo hi a l → (length l <= size h)%nat.
Proof.
  intros Hk. apply nodup_size; [by eapply kids_nodup|]. intros x Hx.
  destruct (kids_elem _ _ _ _ _ _ _ Hk Hx) as (r & ? & _). by eexists.
Qed.

(** * Requests *)

(** The request was refused with the conflicting entry [x]. *)
Definition refused (h : gmap Z resource) (root : Z) (r : resource) (l : list Z) (s e x : Z) : Prop :=
  (x = root ∧ ¬ (s <= e ∧ inside r s e)) ∨
  (s <= e ∧ inside r s e ∧ x ∈ l ∧ ∃ rx, h !! x = Some rx ∧ overlaps rx s e).

(** Where the new entry goes among the children. *)
Definition gap (h : gmap Z resource) (l1 l2 : list Z) (s e : Z) : Prop :=
  (∀ x rx, x ∈ l1 → h !! x = Some rx → res_end rx < s) ∧
  (∀ x rx, x ∈ l2 → h !! x = Some rx → e < res_start rx).

Lemma request_run h root new r n l :
  kids h root (res_start r) (res_end r) (res_child r) l →
  h !! 0 = None → h !! root = Some r → h !! new = Some n →
  (∃ l1 l2, l = l1 ++ l2 ∧ gap h l1 l2 (res_start n) (res_end n) ∧
    res_start n <= res_end n ∧ inside r (res_start n) (res_end n) ∧
    __request_resource root new h = Some (0, link_at (s_after root l1) (next_of l2) new root h)) ∨
  (∃ x, x ≠ 0 ∧ refused h root r l (res_start n) (res_end n) x ∧ __request_resource root new h = Some (x, h)).
Proof.
  intros Hk H0 Hroot Hnew. unfold __request_resource.
  erewrite es_bind by by apply rd_run. erewrite es_bind by by apply rd_run.
  assert (root ≠ 0) as Hr0 by (intros ->; congruence).
  destruct (res_end n <? res_start n) eqn:H1; to_prop.
  { right. exists root. split_and!; [done|left; split; [done|lia]|done]. }
  destruct (res_start n <? res_start r) eqn:H2; to_prop.
  { right. exists root. split_and!; [done|left; split; [done|unfold inside; lia]|done]. }
  destruct (res_end n >? res_end r) eqn:H3; to_prop.
  { right. exists root. split_and!; [done|left; split; [done|unfold inside; to_prop; lia]|done]. }
  to_prop. assert (inside r (res_start n) (res_end n)) as Hin by (split; lia).
  erewrite es_bind by done. destruct (request_loop_run (S (size h)) (ChildOf root) (res_child r) l _ _ root
    (res_start n) (res_end n) root new h Hk H0) as [(l1 & l2 & -> & Hl1 & Hl2 & Hrun)|(x & rx & Hx & Hrx & Hov & Hrun)];
    [by eexists|pose proof (kids_size _ _ _ _ _ _ Hk); lia|by exists r|..].
  - left. exists l1, l2. by split_and!.
  - right. exists x. split_and!; [intros ->; congruence| |done]. right. split_and!; [done|done|done|by exists rx].
Qed.

Section vacant.
Context (h : gmap Z resource) (K : Z → list Z) (Hinv : res_inv h K).
Context (root : Z) (r : resource) (Hroot : h !! root = Some r).

(** No child of [root] has an address of the range. *)
Definition vacant (s e : Z) : Prop :=
  s <= e ∧ inside r s e ∧ ∀ x rx, h !! x = Some rx → res_parent rx = root → ¬ overlaps rx s e.

Lemma gap_vacant l1 l2 s e :
  K root = l1 ++ l2 → gap h l1 l2 s e → s <= e → inside r s e → vacant s e.
Proof.
  intros HK [H1 H2] Hse Hin. split_and!; [done..|]. intros x rx Hx Hp Hov.
  assert (root ≠ 0) as H0 by (apply (inv_nonzero h K Hinv); by eexists).
  assert (x ∈ K root) as Hxl by (rewrite <-Hp; apply (ri_parent _ _ Hinv); [done|by rewrite Hp]).
  rewrite HK in Hxl. apply elem_of_app in Hxl as [Hxl|Hxl]; destruct Hov.
  - specialize (H1 _ _ Hxl Hx). lia.
  - specialize (H2 _ _ Hxl Hx). lia.
Qed.

Lemma refused_vacant s e x : refused h root r (K root) s e x → ¬ vacant s e.
Proof.
  intros [[_ Hn]|(_ & _ & Hx & rx & Hrx & Hov)] (Hse & Hin & Hv); [by apply Hn|].
  destruct (inv_kid h K Hinv root x Hx) as (rx' & _ & Hrx' & _ & Hp & _). apply (Hv x rx'); [done..|congruence].
Qed.

End vacant.

(** [request_resource] links the new resource exactly when its range is in the
    parent and meets no other child, and otherwise changes nothing. *)
Lemma request_resource_run h K root new r n :
  res_inv h K → h !! root = Some r → h !! new = Some n → res_parent n = 0 → ¬ up h new root →
  (vacant h root r (res_start n) (res_end n) ∧ ∃ l1 l2, K root = l1 ++ l2 ∧
    request_resource root new h = Some (0, link_at (s_after root l1) (next_of l2) new root h) ∧
    res_inv (link_at (s_after root l1) (next_of l2) new root h) (<[root := l1 ++ new :: l2]> K)) ∨
  (¬ vacant h root r (res_start n) (res_end n) ∧ request_resource root new h = Some (- EBUSY, h)).
Proof.
  intros Hinv Hroot Hnew Hfree Hup. unfold request_resource.
  destruct (request_run h root new r n (K root)) as [(l1 & l2 & HK & Hg & Hse & Hin & Hrun)|(x & Hx & Href & Hrun)];
    [by apply (ri_kids _ _ Hinv)|apply (ri_null _ _ Hinv)|done|done|left|right].
  - split; [by eapply gap_vacant|]. exists l1, l2. split; [done|]. erewrite es_bind by done. split; [done|].
    destruct Hg, Hin. by apply (inv_link h K Hinv root new r n).
  - split; [by eapply refused_vacant|]. erewrite es_bind by done. by destruct (Z.eqb_spec x 0).
Qed.

(** * Releases *)

Lemma release_resource_run h K old o :
  res_inv h K → h !! old = Some o → res_parent o ≠ 0 →
  ∃ l1 l2, K (res_parent o) = l1 ++ old :: l2 ∧
    release_resource old h = Some (0, unlink_at (s_after (res_parent o) l1) (res_sibling o) old h) ∧
    res_inv (unlink_at (s_after (res_parent o) l1) (res_sibling o) old h) (<[res_parent o := l1 ++ l2]> K).
Proof.
  intros Hinv Hold Hp. pose proof (ri_parent _ _ Hinv _ _ Hold Hp) as Hin.
  destruct (inv_kid h K Hinv _ _ Hin) as (o' & r & _ & Hr & _).
  apply list_elem_of_split in Hin as (l1 & l2 & HK). exists l1, l2. split; [done|].
  pose proof (ri_kids _ _ Hinv _ _ Hr) as Hk. rewrite HK in Hk. split; [|by eapply inv_unlink].
  unfold release_resource, __release_resource. erewrite es_bind by by apply rd_run. erewrite es_bind by done.
  eapply release_loop_run; [done|apply (ri_null _ _ Hinv)|done| |by exists r].
  pose proof (kids_size _ _ _ _ _ _ Hk) as Hl. rewrite length_app in Hl. cbn in Hl. lia.
Qed.

(** * There and back *)

Lemma slot_set_get s w x : slot_set s (slot_get s w) (slot_set s x w) = w.
Proof. by destruct s, w. Qed.

Lemma link_lookup_new s tmp new root h n :
  h !! new = Some n → owner s ≠ new →
  link_at s tmp new root h !! new = Some (set_res_parent root (set_res_sibling tmp n)).
Proof. intros Hn Hs. rewrite (link_lookup _ _ _ _ _ _ n) by done. by rewrite decide_True. Qed.

Lemma unlink_link s h w new root n :
  h !! new = Some n → owner s ≠ new → h !! owner s = Some w →
  unlink_at s (slot_get s w) new (link_at s (slot_get s w) new root h) =
    <[new := set_res_parent 0 (set_res_sibling (slot_get s w) n)]> h.
Proof.
  intros Hn Hs Hw. apply map_eq. intros p.
  rewrite (unlink_lookup _ _ _ _ _ _ (link_lookup_new s (slot_get s w) new root h n Hn Hs)) by done.
  rewrite lookup_insert. destruct (decide (p = new)) as [->|Hp].
  - by rewrite decide_True by done.
  - rewrite (decide_False (P := new = p)) by congruence.
    destruct (decide (p = owner s)) as [->|]; rewrite (link_lookup _ _ _ _ _ _ n), decide_False by done.
    + rewrite decide_True, Hw by done. cbn. by rewrite slot_set_get.
    + by rewrite decide_False.
Qed.

(** The slot behind [l1] points to what follows. *)
Lemma kids_slot h s par lo hi a l1 l2 :
  kids h par lo hi a (l1 ++ l2) → (∃ w, h !! owner s = Some w ∧ slot_get s w = a) →
  ∃ w, h !! owner (slot_after s l1) = Some w ∧ slot_get (slot_after s l1) w = next_of l2.
Proof.
  revert s lo a. induction l1 as [|x l1 IH]; intros s lo a Hk Hs.
  - destruct Hs as (w & Hw & Ha). exists w. split; [done|]. cbn. rewrite Ha. by eapply kids_head.
  - destruct Hk as (_ & r & Hr & _ & _ & _ & Hk). rewrite slot_after_cons. eapply IH; [done|]. by exists r.
Qed.

(** Nothing is below a structure that is not linked. *)
Lemma up_fresh h K new n q : res_inv h K → h !! new = None → new ≠ 0 → up (<[new := n]> h) new q → q = new.
Proof.
  intros Hinv Hnew Hnew0. induction 1 as [|p x Hx Hup IH]; [done|]. destruct (decide (p = new)) as [->|Hp]; [done|].
  rewrite lookup_insert_ne in Hx by done. rewrite IH in Hup.
  destruct (decide (res_parent x = 0)) as [H0|H0]; [by rewrite IH in H0|].
  pose proof (ri_parent _ _ Hinv _ _ Hx H0) as Hk. rewrite IH, (ri_dead _ _ Hinv) in Hk by done. by apply elem_of_nil in Hk.
Qed.

Lemma gap_place h K q new n l1 l2 s e :
  res_inv h K → h !! new = None → K q = l1 ++ l2 → gap (<[new := n]> h) l1 l2 s e ↔ gap h l1 l2 s e.
Proof.
  intros Hinv Hnew HK. assert (∀ x, x ∈ K q → new ≠ x) as Hne.
  { intros x Hx <-. destruct (inv_kid h K Hinv q new Hx) as (rx & _ & Hrx & _). by rewrite Hnew in Hrx. }
  split; intros [Hg1 Hg2]; (split; intros x rx Hx Hrx; [apply (Hg1 x)|apply (Hg2 x)]; [done| |done|]);
    rewrite lookup_insert_ne in * by (apply Hne; rewrite HK; apply elem_of_app; auto); done.
Qed.

(** After a successful request, releasing the new resource takes it out again
    and leaves every other structure as it was. [n] may hold garbage in its
    links. *)
Section back.
Context (h : gmap Z resource) (K : Z → list Z) (Hinv : res_inv h K).
Context (root new : Z) (r n : resource) (l1 l2 : list Z).
Context (Hroot : h !! root = Some r) (Hnew : h !! new = None) (Hnew0 : new ≠ 0) (Hfit : res_fits n).
Context (Hse : res_start n <= res_end n) (Hin : inside r (res_start n) (res_end n)).
Context (HK : K root = l1 ++ l2) (Hgap : gap h l1 l2 (res_start n) (res_end n)).

Local Notation s := (s_after root l1).
Local Notation h2 := (<[new := n]> h).
Local Notation h3 := (link_at s (next_of l2) new root h2).

Lemma back_kid p x : x ∈ K p → x ≠ new ∧ is_Some (h !! x).
Proof.
  intros Hx. destruct (inv_kid h K Hinv p x Hx) as (rx & _ & Hrx & _).
  split; [intros ->; by rewrite Hnew in Hrx|by eexists].
Qed.

Lemma back_root : root ≠ new.
Proof. intros ->. by rewrite Hnew in Hroot. Qed.

Lemma back_owner : ∃ w, h !! owner s = Some w ∧ owner s ≠ new ∧ slot_get s w = next_of l2.
Proof.
  pose proof (ri_kids _ _ Hinv _ _ Hroot) as Hk. rewrite HK in Hk.
  destruct (kids_slot h (ChildOf root) _ _ _ _ l1 l2 Hk) as (w & Hw & Hg); [by exists r|].
  exists w. split_and!; [done| |done]. intros Heq. by rewrite Heq, Hnew in Hw.
Qed.

(** The same call on a structure with clean links. *)
Let clean := set_res_parent 0 (set_res_child 0 n).

Lemma clean_inv : res_inv (<[new := clean]> h) K.
Proof. by apply inv_place. Qed.

Lemma clean_link_inv : res_inv (link_at s (next_of l2) new root (<[new := clean]> h)) (<[root := l1 ++ new :: l2]> K).
Proof.
  destruct Hgap as [Hg1 Hg2], Hin. apply (inv_link _ K clean_inv root new r clean).
  - by rewrite lookup_insert_ne by (symmetry; apply back_root).
  - apply lookup_insert_eq.
  - done.
  - intros Hup. by apply (up_fresh h K new clean root Hinv Hnew Hnew0), back_root in Hup.
  - done.
  - done.
  - done.
  - done.
  - intros x rx Hx. rewrite lookup_insert_ne; [by apply Hg1|]. symmetry. apply (back_kid root). rewrite HK. apply elem_of_app. by left.
  - intros x rx Hx. rewrite lookup_insert_ne; [by apply Hg2|]. symmetry. apply (back_kid root). rewrite HK. apply elem_of_app. by right.
Qed.

Lemma back_kids : ∃ r', h3 !! root = Some r' ∧
  kids h3 root (res_start r') (res_end r') (res_child r') (l1 ++ new :: l2).
Proof.
  pose proof clean_link_inv as Hi. destruct back_owner as (w & Hw & Hne & _).
  assert (∀ p, p ≠ new → h3 !! p = link_at s (next_of l2) new root (<[new := clean]> h) !! p) as Hsame.
  { intros p Hp. rewrite (link_lookup _ _ _ _ _ _ n), (link_lookup _ _ _ _ _ _ clean) by (apply lookup_insert_eq || done).
    by rewrite !(decide_False (P := p = new)), !lookup_insert_ne by done. }
  destruct (link_at s (next_of l2) new root (<[new := clean]> h) !! root) as [r'|] eqn:Hr'.
  - exists r'. split; [by rewrite Hsame by apply back_root|]. pose proof (ri_kids _ _ Hi _ _ Hr') as Hk.
    rewrite fn_lookup_insert in Hk. apply (kids_frame (link_at s (next_of l2) new root (<[new := clean]> h))); [|done].
    intros x _. destruct (decide (x = new)) as [->|]; [|by rewrite Hsame].
    rewrite (link_lookup_new _ _ _ _ _ n), (link_lookup_new _ _ _ _ _ clean) by (apply lookup_insert_eq || done). done.
  - exfalso. erewrite link_lookup in Hr' by (apply lookup_insert_eq || done).
    rewrite decide_False, lookup_insert_ne, Hroot in Hr' by (done || apply back_root || symmetry; apply back_root).
    by destruct (decide _).
Qed.

Lemma back_release : __release_resource new h3 = Some (0, <[new := set_res_parent 0 (set_res_sibling (next_of l2) n)]> h).
Proof.
  destruct back_kids as (r' & Hr' & Hk). destruct back_owner as (w & Hw & Hne & Hg).
  assert (h3 !! new = Some (set_res_parent root (set_res_sibling (next_of l2) n))) as Hn.
  { apply link_lookup_new; [apply lookup_insert_eq|done]. }
  unfold __release_resource. erewrite es_bind by by apply rd_run. erewrite es_bind by done.
  erewrite release_loop_run; [|done| |done| |by exists r'].
  - cbn [res_sibling set_res_parent set_res_sibling]. do 2 f_equal. rewrite <-Hg.
    rewrite (unlink_link s h2 w new root n) by (apply lookup_insert_eq || done || by rewrite lookup_insert_ne by done).
    by rewrite insert_insert_eq.
  - erewrite link_lookup by (apply lookup_insert_eq || done). rewrite decide_False by done.
    rewrite !lookup_insert_ne, (ri_null _ _ Hinv) by done. by destruct (decide _).
  - pose proof (kids_size _ _ _ _ _ _ Hk) as Hl. rewrite length_app in Hl. cbn in Hl. lia.
Qed.
End back.

#[export] Instance vacant_dec h root r s e : Decision (vacant h root r s e).
Proof.
  unfold vacant. apply and_dec; [apply _|]. apply and_dec; [unfold inside; apply _|].
  set (P := λ (_ : Z) rx, res_parent rx = root → ¬ overlaps rx s e).
  assert (∀ x rx, Decision (P x rx)) by (intros; unfold P, overlaps; apply _).
  destruct (decide (map_Forall P h)) as [Hv|Hv]; [left|right].
  - intros x rx Hx. by apply (Hv x).
  - intros Hn. apply Hv. intros x rx Hx Hp. by apply (Hn x).
Defined.

(** [check_resource] tells whether a request would succeed, and leaves the tree
    exactly as it was. *)
Lemma check_resource_run h K tmp g root r start len :
  res_inv h K → h !! root = Some r → h !! tmp = None → tmp ≠ 0 → 0 <= start < 2 ^ 32 →
  check_resource tmp g root start len h =
    Some (if decide (vacant h root r start (u32 (start + len - 1))) then 0 else - EBUSY, h).
Proof.
  intros Hinv Hroot Htmp H0 Hs. unfold check_resource. erewrite es_bind by done.
  set (n := set_res_end (u32 (start + len - 1)) (set_res_start start g)).
  assert (∀ x, x ∈ K root → tmp ≠ x) as Hne.
  { intros x Hx <-. destruct (inv_kid h K Hinv root tmp Hx) as (rx & _ & Hrx & _). by rewrite Htmp in Hrx. }
  pose proof (u32_bound (start + len - 1)) as Hb.
  assert (root ≠ tmp) as Hrt by (intros ->; by rewrite Htmp in Hroot).
  destruct (request_run (<[tmp := n]> h) root tmp r n (K root)) as [(l1 & l2 & HK & Hg & Hse & Hin & Hrun)|(x & Hx & Href & Hrun)].
  - apply (kids_frame h); [|by apply (ri_kids _ _ Hinv)]. intros x Hx. by rewrite lookup_insert_ne by (by apply Hne).
  - rewrite lookup_insert_ne by done. apply (ri_null _ _ Hinv).
  - by rewrite lookup_insert_ne.
  - apply lookup_insert_eq.
  - assert (gap h l1 l2 start (u32 (start + len - 1))) as Hg' by (by eapply gap_place).
    erewrite es_bind by done. cbn [Z.eqb].
    erewrite es_bind; [|erewrite es_bind; [reflexivity|]; by apply (back_release h K Hinv root tmp r n l1 l2)].
    erewrite es_bind by done. rewrite decide_True by (by eapply gap_vacant).
    unfold mret, ES_ret. by rewrite delete_insert_eq, delete_id.
  - erewrite es_bind by done. destruct (Z.eqb_spec x 0) as [|_]; [done|].
    erewrite es_bind by done. erewrite es_bind by done. unfold mret, ES_ret. rewrite delete_insert_id by done.
    rewrite decide_False; [done|]. intros Hv. destruct Href as [[_ Hn]|(_ & _ & Hxl & rx & Hrx & Hov)].
    + apply Hn. by destruct Hv as (? & ? & _).
    + rewrite lookup_insert_ne in Hrx by (by apply Hne). destruct (inv_kid h K Hinv root x Hxl) as (rx' & _ & Hrx' & _ & Hp & _).
      destruct Hv as (_ & _ & Hv). apply (Hv x rx); [done|congruence|done].
Qed.
