(* ===== verification/ResourceRegion.v ===== *)
(** Busy regions of the resource tree: the descent of [__request_region], the
    search of [__release_region], and their bounds. *)
From stdpp Require Import functions.
From S2P Require Import Prelude Resource ResourceProofs ResourceOps.
From stdpp Require Import list options.
#[local] Set Default Proof Using "Type*".
Open Scope cint_scope.
Open Scope Z_scope.

(** * Above and below *)

Lemma up_trans h p q r : up h p q → up h q r → up h p r.
Proof. intros Hpq. induction 1 as [|r x Hx _ IH]; [done|]. by eapply up_step. Qed.

Definition is_busy (r : resource) : bool := res_flags r & IORESOURCE_BUSY.

Section tree.
Context (h : gmap Z resource) (K : Z → list Z) (Hinv : res_inv h K).

Lemma up_zero p : up h p 0 → p = 0.
Proof. inversion 1 as [|? x Hx]; [done|]. by rewrite (ri_null _ _ Hinv) in Hx. Qed.

(** No resource is below itself. *)
Lemma up_acyclic p x : h !! p = Some x → ¬ up h p (res_parent x).
Proof.
  intros Hx. pose proof (ri_rooted _ _ Hinv p (mk_is_Some _ _ Hx)) as Hr. revert x Hx.
  induction Hr as [p y Hy Hp|p y Hy Hr IH]; intros x Hx Hup; replace x with y in * by congruence.
  - rewrite Hp in Hup. apply up_zero in Hup as ->. by rewrite (ri_null _ _ Hinv) in Hy.
  - destruct (decide (res_parent y = p)) as [Heq|Hne].
    + rewrite Heq in IH. apply (IH y Hy). rewrite Heq. constructor.
    + inversion Hup as [|? z Hz Hup']; [congruence|]. apply (IH z Hz).
      eapply up_trans; [|done]. eapply up_step; [done|constructor].
Qed.

(** Whatever is below [p] is below or at one of its children. *)
Lemma up_child p q : up h p q → q ≠ p → is_Some (h !! p) → ∃ x, x ∈ K p ∧ up h x q.
Proof.
  induction 1 as [|q y Hy Hup IH]; intros Hne Hp; [done|].
  destruct (decide (res_parent y = p)) as [Heq|Hpne].
  - exists q. split; [|constructor]. rewrite <-Heq. apply (ri_parent _ _ Hinv); [done|].
    rewrite Heq. by apply (inv_nonzero h K Hinv).
  - destruct (IH Hpne Hp) as (x & Hx & Hxq). exists x. split; [done|]. by eapply up_step.
Qed.

Lemma kid_up p x : x ∈ K p → up h p x.
Proof. intros Hx. destruct (inv_kid h K Hinv p x Hx) as (r & _ & Hr & _ & Hp & _). eapply up_step; [done|]. rewrite Hp. constructor. Qed.

(** Resources lie within those above them. *)
Lemma up_inside p q rp rq : up h p q → h !! p = Some rp → h !! q = Some rq → q ≠ p →
  inside rp (res_start rq) (res_end rq).
Proof.
  intros Hup Hp. revert rq. induction Hup as [|q y Hy Hup IH]; intros rq Hq Hne; [done|].
  replace rq with y by congruence. destruct (decide (res_parent y = p)) as [Heq|Hpne].
  - assert (q ∈ K p) as Hk. { rewrite <-Heq. apply (ri_parent _ _ Hinv); [done|]. rewrite Heq. apply (inv_nonzero h K Hinv). by eexists. }
    destruct (inv_kid h K Hinv p q Hk) as (y' & rp' & Hy' & Hp' & _ & _ & ? & ?). split; simplify_eq; lia.
  - destruct (decide (res_parent y = 0)) as [H0|H0].
    { rewrite H0 in Hup. apply up_zero in Hup. by rewrite Hup, (ri_null _ _ Hinv) in Hp. }
    pose proof (ri_parent _ _ Hinv _ _ Hy H0) as Hk.
    destruct (inv_kid h K Hinv _ q Hk) as (y' & rz & Hy' & Hz & _ & _ & ? & ?).
    destruct (IH rz Hz Hpne). split; simplify_eq; lia.
Qed.

(** Siblings that share an address are equal. *)
Lemma kids_meet p x y rx ry a : x ∈ K p → y ∈ K p → h !! x = Some rx → h !! y = Some ry →
  res_start rx <= a <= res_end rx → res_start ry <= a <= res_end ry → x = y.
Proof.
  intros Hx Hy Hrx Hry Ha Hb. destruct (decide (x = y)) as [|Hne]; [done|].
  destruct (inv_kid h K Hinv p x Hx) as (_ & rp & _ & Hp & _).
  pose proof (kids_disjoint _ _ _ _ _ _ _ _ _ _ (ri_kids _ _ Hinv _ _ Hp) Hx Hy Hne Hrx Hry). lia.
Qed.

Lemma inv_nodup p : NoDup (K p).
Proof.
  destruct (h !! p) as [r|] eqn:Hp; [|rewrite (ri_dead _ _ Hinv p Hp); constructor].
  eapply kids_nodup. by apply (ri_kids _ _ Hinv).
Qed.

(** ** Depth *)

(** Below [p] there are fewer than [n] levels. *)
Fixpoint shallow (n : nat) (p : Z) : Prop :=
  match n with
  | O => False
  | S n => ∀ x, x ∈ K p → shallow n x
  end.

(** A path from the top visits no structure twice, so the heap bounds it. *)
Lemma shallow_path m l p :
  NoDup l → (∀ y, y ∈ l → is_Some (h !! y) ∧ up h y p) → (size h - length l <= m)%nat → p ∈ l → shallow (S m) p.
Proof.
  revert l p. induction m as [|m IH]; intros l p Hnd Hl Hm Hp x Hx;
    destruct (inv_kid h K Hinv p x Hx) as (rx & _ & Hrx & _ & Hpx & _);
    (assert (NoDup (x :: l)) as Hnd'
      by (constructor; [|done]; intros Hin; destruct (Hl x Hin) as [_ Hup]; rewrite <-Hpx in Hup; by apply up_acyclic in Hup));
    (assert (∀ y, y ∈ x :: l → is_Some (h !! y) ∧ up h y x) as Hl'
      by (intros y [->|Hy]%elem_of_cons; [split; [by eexists|constructor]|]; destruct (Hl y Hy) as [? Hup];
          split; [done|]; eapply up_step; [done|]; by rewrite Hpx));
    pose proof (nodup_size h (x :: l) Hnd' (λ y Hy, proj1 (Hl' y Hy))) as Hsz; cbn [length] in Hsz.
  - lia.
  - apply (IH (x :: l)); [done|done|cbn [length]; lia|left].
Qed.

Lemma shallow_live p : is_Some (h !! p) → shallow (S (size h)) p.
Proof.
  intros Hp. apply (shallow_path (size h) [p]); [apply NoDup_singleton| |cbn; lia|left].
  intros y ->%list_elem_of_singleton. split; [done|constructor].
Qed.
End tree.

(** * Requesting a region *)

(** The range is in [p], and of the resources below [p] only those that are not
    busy and contain it share an address with it. *)
Definition grantable (h : gmap Z resource) (p : Z) (r : resource) (s e : Z) : Prop :=
  s <= e ∧ inside r s e ∧
  ∀ q rq, up h p q → q ≠ p → h !! q = Some rq → overlaps rq s e → is_busy rq = false ∧ inside rq s e.

(** The way down to [q], through children that are not busy and contain the
    range. *)
Inductive way (h : gmap Z resource) (K : Z → list Z) (s e q : Z) : Z → Prop :=
  | way_here : way h K s e q q
  | way_down p x rx : x ∈ K p → h !! x = Some rx → is_busy rx = false → inside rx s e →
      way h K s e q x → way h K s e q p.

Section region.
Context (h : gmap Z resource) (K : Z → list Z) (Hinv : res_inv h K) (s e : Z).

Lemma overlaps_sub rx rq : overlaps rq s e → inside rx (res_start rq) (res_end rq) → overlaps rx s e.
Proof. unfold overlaps, inside. lia. Qed.

Lemma vacant_grantable p r : h !! p = Some r → vacant h p r s e → grantable h p r s e.
Proof.
  intros Hp (Hse & Hin & Hv). split_and!; [done..|]. intros q rq Hup Hne Hq Hov. exfalso.
  destruct (up_child h K Hinv p q Hup Hne (mk_is_Some _ _ Hp)) as (x & Hx & Hxq).
  destruct (inv_kid h K Hinv p x Hx) as (rx & _ & Hrx & _ & Hpx & _). apply (Hv x rx Hrx Hpx).
  destruct (decide (q = x)) as [->|Hqx]; [congruence|]. eapply overlaps_sub; [done|].
  by eapply up_inside.
Qed.

(** Going down to the child that meets the range changes nothing. *)
Lemma grantable_child p r x rx :
  h !! p = Some r → x ∈ K p → h !! x = Some rx → s <= e → inside r s e → overlaps rx s e → is_busy rx = false →
  grantable h p r s e ↔ grantable h x rx s e.
Proof.
  intros Hp Hx Hrx Hse Hin Hov Hb. pose proof (kid_up h K Hinv p x Hx) as Hpx.
  destruct (inv_kid h K Hinv p x Hx) as (rx' & _ & Hrx' & _ & Hpar & _). replace rx' with rx in Hpar by congruence.
  assert (x ≠ p) as Hxp. { intros Heq. apply (up_acyclic h K Hinv x rx Hrx). rewrite Hpar, Heq. constructor. }
  split; intros (_ & Hi & Hg).
  - split_and!; [done|by apply (Hg x rx)|]. intros q rq Hup Hne. apply Hg; [by eapply up_trans|].
    intros ->. apply (up_acyclic h K Hinv x rx Hrx). by rewrite Hpar.
  - split_and!; [done..|]. intros q rq Hup Hne Hq Hovq. destruct (decide (q = x)) as [->|Hqx]; [replace rq with rx by congruence; done|].
    destruct (up_child h K Hinv p q Hup Hne (mk_is_Some _ _ Hp)) as (y & Hy & Hyq).
    destruct (decide (y = x)) as [->|Hyx]; [by apply (Hg q)|]. exfalso.
    destruct (inv_kid h K Hinv p y Hy) as (ry & _ & Hry & _). apply Hyx.
    assert (overlaps ry s e) as Hovy.
    { destruct (decide (q = y)) as [Heq|]; [rewrite Heq in Hq; replace ry with rq by congruence; done|]. eapply overlaps_sub; [done|]. by eapply up_inside. }
    destruct (inv_kid h K Hinv p y Hy) as (ry' & rp & Hry' & _ & _ & _ & Hord & _). assert (ry' = ry) as -> by congruence.
    apply (kids_meet h K Hinv p y x ry rx (Z.max s (res_start ry))); try done; unfold overlaps, inside in *; lia.
Qed.

Lemma refused_child p r x :
  h !! p = Some r → x ≠ p → refused h p r (K p) s e x →
  ∃ rx, s <= e ∧ inside r s e ∧ x ∈ K p ∧ h !! x = Some rx ∧ overlaps rx s e.
Proof. intros Hp Hne [[? _]|(? & ? & ? & rx & ? & ?)]; [done|]. by exists rx. Qed.

Lemma region_loop_run n fuel p r new nn :
  h !! new = Some nn → res_parent nn = 0 → res_start nn = s → res_end nn = e →
  shallow K n p → (n <= fuel)%nat → h !! p = Some r → ¬ up h new p →
  (grantable h p r s e ∧ ∃ q rq l1 l2, way h K s e q p ∧ ¬ up h new q ∧ h !! q = Some rq ∧
    K q = l1 ++ l2 ∧ gap h l1 l2 s e ∧ s <= e ∧ inside rq s e ∧
    region_loop fuel p new h = Some (true, link_at (s_after q l1) (next_of l2) new q h)) ∨
  (¬ grantable h p r s e ∧ region_loop fuel p new h = Some (false, h)).
Proof.
  intros Hnew Hfree Hs He. revert fuel p r. induction n as [|n IH]; intros [|fuel] p r Hsh Hf Hp Hup; [done|done|lia|].
  cbn [region_loop]. assert (p ≠ 0) as Hp0 by (apply (inv_nonzero h K Hinv); by eexists).
  destruct (request_run h p new r nn (K p)) as [(l1 & l2 & HK & Hg & Hse & Hin & Hrun)|(x & Hx & Href & Hrun)];
    [by apply (ri_kids _ _ Hinv)|apply (ri_null _ _ Hinv)|done|done|..]; rewrite Hs, He in *; erewrite es_bind by done.
  { left. split; [apply vacant_grantable; [done|by eapply gap_vacant]|]. exists p, r, l1, l2. by split_and!; [constructor|..]. }
  destruct (Z.eqb_spec x 0) as [|_]; [done|]. destruct (Z.eqb_spec x p) as [->|Hxp]; cbn [negb].
  { right. split; [|done]. intros (? & ? & _). destruct Href as [[_ Hn]|(_ & _ & Hk & _)]; [by apply Hn|].
    destruct (inv_kid h K Hinv p p Hk) as (rp & _ & Hrp & _ & Hpp & _). apply (up_acyclic h K Hinv p rp Hrp). rewrite Hpp. constructor. }
  destruct (refused_child p r x Hp Hxp Href) as (rx & Hse & Hin & Hk & Hrx & Hov).
  erewrite es_bind by by apply rd_run. fold (is_busy rx). destruct (is_busy rx) eqn:Hb; cbn [negb].
  { right. split; [|done]. intros (_ & _ & Hg). destruct (inv_kid h K Hinv p x Hk) as (rx' & _ & Hrx' & _ & Hpx & _).
    destruct (Hg x rx) as [? _]; [by apply (kid_up h K Hinv)|done..|]. congruence. }
  assert (¬ up h new x) as Hupx.
  { destruct (inv_kid h K Hinv p x Hk) as (rx' & _ & Hrx' & _ & Hpx & _).
    inversion 1 as [Heq|? z Hz Hup']; [congruence|]. apply Hup. congruence. }
  pose proof (grantable_child p r x rx Hp Hk Hrx Hse Hin Hov Hb) as Hiff.
  destruct (IH fuel x rx) as [(Hg & q & rq & l1 & l2 & Hw & Hrest)|[Hg Hrun']]; [by apply Hsh|lia|done|done|..].
  - left. split; [by apply Hiff|]. exists q, rq, l1, l2. split; [|done]. destruct Hg as (_ & Hix & _). by eapply way_down.
  - right. split; [|done]. intros Hg'. by apply Hg, Hiff.
Qed.
End region.

(** * Releasing a region *)

(** The busy region below [p] that [__release_region] looks for. *)
Definition target (h : gmap Z resource) (K : Z → list Z) (s e p P q : Z) (rq : resource) : Prop :=
  way h K s e P p ∧ q ∈ K P ∧ h !! q = Some rq ∧ is_busy rq = true ∧ res_start rq = s ∧ res_end rq = e.

Lemma slot_after_app s l1 l2 : slot_after s (l1 ++ l2) = slot_after (slot_after s l1) l2.
Proof.
  revert s. induction l1 as [|x l1 IH]; intros s; [done|]. cbn [app]. by rewrite !slot_after_cons.
Qed.

Lemma delete_unlink h s next q w :
  h !! owner s = Some w → owner s ≠ q → delete q (unlink_at s next q h) = delete q (alter (slot_set s next) (owner s) h).
Proof. intros Hw Hs. unfold unlink_at. by rewrite delete_alter_eq. Qed.

Section release.
Context (h : gmap Z resource) (K : Z → list Z) (Hinv : res_inv h K) (s e : Z).

(** What a search from [p] amounts to. *)
Definition searched (p : Z) (run : option (bool * gmap Z resource)) : Prop :=
  (∃ P q rq l1 l2, target h K s e p P q rq ∧ K P = l1 ++ q :: l2 ∧
    run = Some (true, delete q (unlink_at (s_after P l1) (res_sibling rq) q h))) ∨
  ((s <= e → ∀ P q rq, ¬ target h K s e p P q rq) ∧ run = Some (false, h)).

(** The child of [p] that contains the range decides. *)
Lemma search_unique p x y rx ry : s <= e → x ∈ K p → y ∈ K p → h !! x = Some rx → h !! y = Some ry →
  inside rx s e → inside ry s e → x = y.
Proof. intros Hse Hx Hy Hrx Hry [] []. apply (kids_meet h K Hinv p x y rx ry s); try done; lia. Qed.

Lemma target_step p P q rq : target h K s e p P q rq →
  ∃ x rx, x ∈ K p ∧ h !! x = Some rx ∧ inside rx s e ∧
    ((P = p ∧ q = x ∧ is_busy rx = true ∧ res_start rx = s ∧ res_end rx = e) ∨
     (is_busy rx = false ∧ target h K s e x P q rq)).
Proof.
  intros (Hw & Hq & Hrq & Hb & Hs & He). destruct Hw as [|p x rx Hx Hrx Hbx Hix Hw].
  - exists q, rq. split_and!; [done|done|unfold inside; lia|by left].
  - exists x, rx. by split_and!; [..|right].
Qed.

Lemma target_down p x rx P q rq : x ∈ K p → h !! x = Some rx → is_busy rx = false → inside rx s e →
  target h K s e x P q rq → target h K s e p P q rq.
Proof. intros Hx Hrx Hb Hi (Hw & Hrest). split; [by eapply way_down|done]. Qed.

(** A busy resource that contains the range ends the search. *)
Lemma search_here p x rx l1 l2 :
  K p = l1 ++ x :: l2 → h !! x = Some rx → inside rx s e → is_busy rx = true →
  is_Some (h !! owner (s_after p l1)) →
  searched p ((if (negb (res_start rx =? s) || negb (res_end rx =? e))%bool then mret false
               else rstore (s_after p l1) (res_sibling rx);; kfree x;; mret true) h).
Proof.
  intros HK Hrx Hi Hb Hw. assert (x ∈ K p) as Hx by (rewrite HK; apply elem_of_app; right; left).
  destruct (negb _ || _)%bool eqn:Hex; [right|left].
  - split; [|done]. intros Hse P q rq (y & ry & Hy & Hry & Hiy & Hor)%target_step.
    pose proof (search_unique p x y rx ry Hse Hx Hy Hrx Hry Hi Hiy) as <-. replace ry with rx in Hor by congruence.
    destruct Hor as [(_ & _ & _ & Hs & He)|[? _]]; [|congruence]. by rewrite Hs, He, !Z.eqb_refl in Hex.
  - to_prop. exists p, x, rx, l1, l2. split_and!; [|done|].
    { split_and!; [constructor|done..]. }
    erewrite es_bind by by apply rstore_run. erewrite es_bind by done. unfold mret, ES_ret. do 2 f_equal. symmetry.
    destruct Hw as [w Hw]. apply (delete_unlink _ _ _ _ w); [done|].
    destruct (inv_kid h K Hinv p x Hx) as (rx' & rp & Hrx' & Hrp & Hpx & _).
    by apply (unlink_owner_not_old h K Hinv x p rx' rp l1 l2).
Qed.

(** One that is not busy passes the search on to its children. *)
Lemma search_below p x rx run :
  x ∈ K p → h !! x = Some rx → inside rx s e → is_busy rx = false → searched x run → searched p run.
Proof.
  intros Hx Hrx Hi Hb [(P & q & rq & l1 & l2 & Ht & Hl & Hrun)|[Hno Hrun]]; [left|right].
  - exists P, q, rq, l1, l2. split_and!; [by eapply target_down|done..].
  - split; [|done]. intros Hse P q rq (y & ry & Hy & Hry & Hiy & Hor)%target_step.
    pose proof (search_unique p x y rx ry Hse Hx Hy Hrx Hry Hi Hiy) as <-.
    destruct Hor as [(_ & _ & ? & _)|[_ Ht]]; [congruence|]. by apply (Hno Hse P q rq).
Qed.

Lemma release_region_run n : ∀ l fuel done_ a lo hi p,
  kids h p lo hi a l → K p = done_ ++ l → (∀ x, x ∈ l → shallow K n x) →
  (∀ x rx, x ∈ done_ → h !! x = Some rx → ¬ inside rx s e) →
  (∃ w, h !! owner (s_after p done_) = Some w ∧ slot_get (s_after p done_) w = a) →
  (length l + n * S (size h) < fuel)%nat →
  searched p (release_region_loop fuel (s_after p done_) s e h).
Proof.
  induction n as [|n IHn]; induction l as [|x l IHl]; intros [|fuel] dn a lo hi p Hk HK Hsh Hdn (w & Hw & Ha) Hf;
    try (cbn in Hf; lia); cbn [release_region_loop]; erewrite es_bind by (by apply rload_run); rewrite Ha.
  1,3: right; rewrite Hk; cbn [Z.eqb]; (split; [|done]); intros Hse P q rq (x & rx & Hx & Hrx & Hi & _)%target_step;
    rewrite HK, app_nil_r in Hx; by apply (Hdn x rx).
  { destruct (Hsh x). left. }
  destruct Hk as (-> & rx & Hrx & Hpx & Hlo & Hhi & Hk).
  destruct (Z.eqb_spec x 0) as [->|_]; [by rewrite (ri_null _ _ Hinv) in Hrx|].
  erewrite es_bind by by apply rd_run.
  assert (x ∈ K p) as Hx by (rewrite HK; apply elem_of_app; right; left).
  destruct ((res_start rx <=? s) && (res_end rx >=? e))%bool eqn:Hin.
  - assert (inside rx s e) as Hi by (apply andb_prop in Hin as [??]; unfold inside; to_prop; lia). clear Hin.
    fold (is_busy rx). destruct (is_busy rx) eqn:Hb; cbn [negb].
    + apply (search_here p x rx dn l); [done..|by exists w].
    + pose proof (ri_kids _ _ Hinv _ _ Hrx) as Hkx. pose proof (kids_size _ _ _ _ _ _ Hkx) as Hsz.
      apply (search_below p x rx); [done..|]. apply (IHn (K x) fuel [] _ _ _ x Hkx eq_refl).
      * intros y Hy. apply (Hsh x); [left|done].
      * intros y ry Hy. by apply elem_of_nil in Hy.
      * by exists rx.
      * cbn [length] in Hf. lia.
  - assert (¬ inside rx s e) as Hi by (apply andb_false_iff in Hin as [?|?]; unfold inside; to_prop; lia).
    change (SiblingOf x) with (slot_after (s_after p dn) [x]). rewrite <-slot_after_app.
    apply (IHl fuel (dn ++ [x]) _ _ _ p Hk); [by rewrite <-app_assoc| | | |cbn in Hf |- *; lia].
    + intros y Hy. apply Hsh. by right.
    + intros y ry [Hy|Hy%list_elem_of_singleton]%elem_of_app Hry; [by eapply Hdn|]. subst y. by replace ry with rx by congruence.
    + rewrite slot_after_app. by exists rx.
Qed.
End release.
