(* ===== verification/ResourceCalls.v ===== *)
(** The calls on busy regions of the resource tree, [__request_region],
    [__check_region] and [__release_region], as a whole and their round trip;
    [allocate_resource]; and sequences of calls. *)
From S2P Require Import Prelude Resource ResourceProofs ResourceOps ResourceRegion.
From stdpp Require Import functions list relations options.
#[local] Set Default Proof Using "Type*".
Open Scope cint_scope.
Open Scope Z_scope.

(** * Releasing *)

Lemma release_region_searched h K p r start n :
  res_inv h K → h !! p = Some r → searched h K start (u32 (start + n - 1)) p (__release_region p start n h).
Proof.
  intros Hinv Hp. unfold __release_region. erewrite es_bind by done.
  pose proof (ri_kids _ _ Hinv _ _ Hp) as Hk. pose proof (kids_size _ _ _ _ _ _ Hk) as Hsz.
  change (ChildOf p) with (s_after p []). eapply (release_region_run h K Hinv _ _ (size h)); [done|done| | |by exists r|nia].
  - apply (shallow_live h K Hinv). by eexists.
  - intros x rx Hx. by apply elem_of_nil in Hx.
Qed.

(** The invariant after a region without children was freed. *)
Lemma release_region_inv h K s e p P q rq l1 l2 :
  res_inv h K → target h K s e p P q rq → K P = l1 ++ q :: l2 → res_child rq = 0 →
  res_inv (delete q (unlink_at (s_after P l1) (res_sibling rq) q h)) (<[P := l1 ++ l2]> K).
Proof.
  intros Hinv (_ & Hq & Hrq & _) HK Hc. destruct (inv_kid h K Hinv P q Hq) as (rq' & rP & Hrq' & HrP & Hpar & _).
  replace rq' with rq in Hpar by congruence.
  apply (inv_delete _ _ q (set_res_parent 0 rq)); [by eapply inv_unlink| |done|done].
  rewrite (unlink_lookup _ _ _ _ _ rq); [by rewrite decide_True|done|].
  by apply (unlink_owner_not_old h K Hinv q P rq rP l1 l2).
Qed.

Lemma target_unique h K s e p P q rq P' q' rq' :
  res_inv h K → s <= e → target h K s e p P q rq → target h K s e p P' q' rq' → P = P' ∧ q = q'.
Proof.
  intros Hinv Hse (Hw & Hq & Hrq & Hb & Hs & He) Ht'.
  assert (inside rq s e) as Hiq by (unfold inside; lia).
  induction Hw as [|p x rx Hx Hrx Hbx Hix Hw IH].
  - apply (target_step h K Hinv) in Ht' as (y & ry & Hy & Hry & Hiy & Hor).
    pose proof (search_unique h K Hinv s e P q y rq ry Hse Hq Hy Hrq Hry Hiq Hiy) as ->.
    destruct Hor as [(-> & -> & _)|[? _]]; [done|congruence].
  - apply (target_step h K Hinv) in Ht' as (y & ry & Hy & Hry & Hiy & Hor).
    pose proof (search_unique h K Hinv s e p x y rx ry Hse Hx Hy Hrx Hry Hix Hiy) as <-.
    destruct Hor as [(_ & _ & ? & _)|[_ Ht']]; [congruence|]. by apply IH.
Qed.

(** * Requesting *)

(** Whether a range can be granted does not depend on a structure that is not
    linked. *)
Lemma up_place h K p new n q :
  res_inv h K → h !! new = None → new ≠ 0 → res_parent n = 0 → p ≠ new → is_Some (h !! p) →
  up (<[new := n]> h) p q ↔ up h p q.
Proof.
  intros Hinv Hnew Hn0 Hpar Hpn Hp. split; induction 1 as [|q y Hy Hup IH]; try constructor.
  - destruct (decide (q = new)) as [->|Hqn].
    + rewrite lookup_insert_eq in Hy. simplify_eq. rewrite Hpar in IH. apply (up_zero h K Hinv) in IH as ->.
      rewrite (ri_null _ _ Hinv) in Hp. by destruct Hp.
    + rewrite lookup_insert_ne in Hy by done. by eapply up_step.
  - eapply up_step; [|done]. rewrite lookup_insert_ne by congruence. done.
Qed.

Lemma grantable_place h K p r new n s e :
  res_inv h K → h !! new = None → new ≠ 0 → res_parent n = 0 → h !! p = Some r →
  grantable (<[new := n]> h) p r s e ↔ grantable h p r s e.
Proof.
  intros Hinv Hnew Hn0 Hpar Hp. assert (p ≠ new) as Hpn by congruence.
  assert (∀ q, up (<[new := n]> h) p q ↔ up h p q) as Hup by (intros q; eapply up_place; [done..|by eexists]).
  unfold grantable. split; intros (Hse & Hin & Hg); (split_and!; [done..|]); intros q rq Hq Hne Hrq Hov.
  - apply (Hg q rq); [by apply Hup|done| |done]. rewrite lookup_insert_ne by congruence. done.
  - destruct (decide (q = new)) as [->|Hqn].
    + exfalso. apply Hup in Hq. inversion Hq as [|? y Hy]; congruence.
    + rewrite lookup_insert_ne in Hrq by done. apply (Hg q rq); [by apply Hup|done..].
Qed.

Lemma way_place h K s e new n p q :
  res_inv h K → h !! new = None → way (<[new := n]> h) K s e q p → way h K s e q p.
Proof.
  intros Hinv Hnew. induction 1 as [|p x rx Hx Hrx Hb Hi _ IH]; [constructor|].
  destruct (inv_kid h K Hinv p x Hx) as (rx' & _ & Hrx' & _).
  rewrite lookup_insert_ne in Hrx by congruence. by apply (way_down _ _ _ _ _ _ x rx).
Qed.

Section region.
#[local] Set Default Proof Using "All".
Context `{ResAlloc}.
Context (h : gmap Z resource) (K : Z → list Z) (Hinv : res_inv h K).
Context (p : Z) (r : resource) (Hp : h !! p = Some r).
Context (start n : Z) (name : option string) (Hstart : 0 <= start < 2 ^ 32).

Local Notation e := (u32 (start + n - 1)).
Local Notation fresh_region := (mk_resource name start e IORESOURCE_BUSY 0 0 0).

(** The heap after a region was granted below [q]. *)
Definition granted (new q : Z) (l1 l2 : list Z) : gmap Z resource :=
  link_at (s_after q l1) (next_of l2) new q (<[new := fresh_region]> h).

Lemma region_live new : kmalloc_res h = Some new → new ≠ 0 ∧ h !! new = None ∧ p ≠ new.
Proof. intros Ha. destruct (kmalloc_res_fresh _ _ Ha). split_and!; [done..|congruence]. Qed.

Lemma region_inv new : kmalloc_res h = Some new → res_inv (<[new := fresh_region]> h) K.
Proof.
  intros Ha. destruct (region_live new Ha) as (? & ? & _). apply inv_place; try done.
  split; [done|]. apply u32_bound.
Qed.

(** What a granted region looks like. *)
Definition grant (new : Z) (run : option (Z * gmap Z resource)) : Prop :=
  ∃ q rq l1 l2, way h K start e q p ∧ h !! q = Some rq ∧ K q = l1 ++ l2 ∧ gap h l1 l2 start e ∧ start <= e ∧
    inside rq start e ∧ run = Some (new, granted new q l1 l2).

Lemma request_region_run :
  match kmalloc_res h with
  | None => __request_region p start n name h = Some (0, h)
  | Some new =>
      (grantable h p r start e ∧ grant new (__request_region p start n name h)) ∨
      (¬ grantable h p r start e ∧ __request_region p start n name h = Some (0, h))
  end.
Proof.
  unfold __request_region. erewrite es_bind by done. destruct (kmalloc_res h) as [new|] eqn:Ha; [|done].
  destruct (region_live new Ha) as (Hn0 & Hnew & Hpn). pose proof (region_inv new Ha) as Hi.
  erewrite es_bind by done. erewrite es_bind by done.
  rewrite <-(grantable_place h K p r new fresh_region start e) by done.
  destruct (region_loop_run (<[new := fresh_region]> h) K Hi start e (S (size (<[new := fresh_region]> h)))
    (S (size (<[new := fresh_region]> h))) p r new fresh_region) as
    [(Hg & q & rq & l1 & l2 & Hw & Hup & Hq & HK & Hgap & Hse & Hin & Hrun)|[Hg Hrun]]; try done.
  - apply lookup_insert_eq.
  - apply (shallow_live _ K Hi). rewrite lookup_insert_ne by done. by eexists.
  - by rewrite lookup_insert_ne.
  - intros Hup. by apply (up_fresh h K new fresh_region p Hinv Hnew Hn0) in Hup.
  - left. split; [done|]. erewrite es_bind by done. exists q, rq, l1, l2.
    assert (q ≠ new) as Hqn by (intros ->; apply Hup; constructor).
    rewrite lookup_insert_ne in Hq by done. split_and!; [by eapply way_place|done|done|by eapply gap_place|done|done|done].
  - right. split; [done|]. erewrite es_bind by exact Hrun. cbv iota beta. erewrite es_bind by done. unfold mret, ES_ret.
    by rewrite delete_insert_id.
Qed.
Section granted.
Context (new q : Z) (rq : resource) (l1 l2 : list Z).
Context (Ha : kmalloc_res h = Some new) (Hw : way h K start e q p) (Hq : h !! q = Some rq).
Context (HK : K q = l1 ++ l2) (Hgap : gap h l1 l2 start e) (Hse : start <= e) (Hin : inside rq start e).

Local Notation h' := (granted new q l1 l2).
Local Notation K' := (<[q := l1 ++ new :: l2]> K).

Lemma granted_inv : res_inv h' K'.
Proof.
  destruct (region_live new Ha) as (Hn0 & Hnew & _).
  apply (clean_link_inv h K Hinv q new rq fresh_region l1 l2 Hq Hnew Hn0); [|done..].
  split; [done|]. apply u32_bound.
Qed.

Lemma granted_owner : ∃ w, h !! owner (s_after q l1) = Some w ∧ owner (s_after q l1) ≠ new ∧
  slot_get (s_after q l1) w = next_of l2.
Proof.
  destruct (region_live new Ha) as (Hn0 & Hnew & _).
  apply (back_owner h K Hinv q new rq fresh_region l1 l2); try done. split; [done|]. apply u32_bound.
Qed.

Lemma granted_new : h' !! new = Some (set_res_parent q (set_res_sibling (next_of l2) fresh_region)).
Proof. destruct granted_owner as (w & _ & Hne & _). apply link_lookup_new; [apply lookup_insert_eq|done]. Qed.

(** Everything else keeps its range, flags and parent. *)
Lemma granted_old x rx : h !! x = Some rx → ∃ rx', h' !! x = Some rx' ∧ stable rx' = stable rx ∧ res_parent rx' = res_parent rx.
Proof.
  intros Hx. destruct (region_live new Ha) as (Hn0 & Hnew & _). destruct granted_owner as (w & Hw' & Hne & _).
  unfold granted. rewrite (link_lookup _ _ _ _ _ _ fresh_region) by (apply lookup_insert_eq || done).
  rewrite decide_False, lookup_insert_ne, Hx by congruence. destruct (decide _); [|by exists rx].
  eexists. split; [done|]. by destruct (s_after q l1).
Qed.

Lemma granted_way a : way h K start e q a → way h' K' start e q a.
Proof.
  induction 1 as [|a x rx Hx Hrx Hb Hi _ IH]; [constructor|]. destruct (granted_old x rx Hrx) as (rx' & Hrx' & Hst & _).
  unfold stable in Hst. assert (res_flags rx' = res_flags rx ∧ res_start rx' = res_start rx ∧ res_end rx' = res_end rx) as (Ef & Es & Ee) by (split_and!; congruence).
  apply (way_down _ _ _ _ _ a x rx'); [|done|unfold is_busy; by rewrite Ef|unfold inside; by rewrite Es, Ee|done].
  destruct (decide (a = q)) as [->|]; [|by rewrite fn_lookup_insert_ne]. rewrite fn_lookup_insert.
  rewrite HK in Hx.
  apply elem_of_app in Hx as [Hx|Hx]; apply elem_of_app; [by left|right; by right].
Qed.
End granted.
(** Releasing the region that was granted restores the heap. *)
Lemma region_back new h' :
  __request_region p start n name h = Some (new, h') → new ≠ 0 →
  __release_region p start n h' = Some (true, h).
Proof.
  intros Hreq Hn0. pose proof request_region_run as Hrun. destruct (kmalloc_res h) as [new'|] eqn:Ha; [|congruence].
  destruct Hrun as [(_ & q & rq & l1 & l2 & Hw & Hq & HK & Hgap & Hse & Hin & Hrun)|[_ Hrun]]; [|congruence].
  rewrite Hreq in Hrun. injection Hrun as -> ->.
  destruct (region_live new' Ha) as (_ & Hnew & Hpn).
  pose proof (granted_inv new' q rq l1 l2 Ha Hw Hq HK Hgap Hse Hin) as Hi.
  destruct (granted_owner new' q rq l1 l2 Ha Hw Hq HK Hgap Hse Hin) as (w & Hww & Hne & Hg).
  pose proof (granted_new new' q rq l1 l2 Ha Hw Hq HK Hgap Hse Hin) as Hnn.
  destruct (granted_old new' q rq l1 l2 Ha Hw Hq HK Hgap Hse Hin p r Hp) as (r' & Hp' & _).
  assert (target (granted new' q l1 l2) (<[q := l1 ++ new' :: l2]> K) start e p q new'
    (set_res_parent q (set_res_sibling (next_of l2) fresh_region))) as Ht.
  { split_and!; [by eapply granted_way| |done..]. rewrite fn_lookup_insert. apply elem_of_app. right. left. }
  destruct (release_region_searched _ _ p r' start n Hi Hp') as [(P & x & rx & k1 & k2 & Ht' & HP & ->)|[Hno _]];
    [|by destruct (Hno Hse _ _ _ Ht)].
  destruct (target_unique _ _ _ _ _ _ _ _ _ _ _ Hi Hse Ht Ht') as [<- <-].
  destruct Ht' as (_ & _ & Hrx & _). rewrite Hnn in Hrx. injection Hrx as <-.
  rewrite fn_lookup_insert in HP. assert (l1 = k1) as <-.
  { eapply (nodup_split new'); [|exact HP]. pose proof (inv_nodup _ _ Hi q) as Hnd. by rewrite fn_lookup_insert in Hnd. }
  cbn [res_sibling set_res_parent set_res_sibling]. unfold granted. rewrite <-Hg.
  rewrite (unlink_link _ _ w new' q fresh_region) by (apply lookup_insert_eq || done || by rewrite lookup_insert_ne).
  by rewrite insert_insert_eq, delete_insert_id.
Qed.

(** Releasing it through its pointer does, too. *)
Lemma region_release_resource new h' :
  __request_region p start n name h = Some (new, h') → new ≠ 0 →
  ∃ x, release_resource new h' = Some (0, <[new := x]> h) ∧ h !! new = None.
Proof.
  intros Hreq Hn0. pose proof request_region_run as Hrun. destruct (kmalloc_res h) as [new'|] eqn:Ha; [|congruence].
  destruct Hrun as [(_ & q & rq & l1 & l2 & Hw & Hq & HK & Hgap & Hse & Hin & Hrun)|[_ Hrun]]; [|congruence].
  rewrite Hreq in Hrun. injection Hrun as -> ->. destruct (region_live new' Ha) as (_ & Hnew & _).
  eexists. split; [|done]. apply (back_release h K Hinv q new' rq fresh_region l1 l2); try done.
  split; [done|]. apply u32_bound.
Qed.
End region.

Lemma check_region_run `{ResAlloc} h K p r start n :
  res_inv h K → h !! p = Some r → 0 <= start < 2 ^ 32 →
  ∃ x, __check_region p start n h = Some (x, h) ∧
    (x = 0 ∧ is_Some (kmalloc_res h) ∧ grantable h p r start (u32 (start + n - 1)) ∨
     x = - EBUSY ∧ (kmalloc_res h = None ∨ ¬ grantable h p r start (u32 (start + n - 1)))).
Proof.
  intros Hinv Hp Hs. unfold __check_region.
  pose proof (request_region_run h K Hinv p r Hp start n (Some "check-region"%string) Hs) as Hrun.
  destruct (kmalloc_res h) as [new|] eqn:Ha.
  - destruct Hrun as [[Hg (q & rq & l1 & l2 & _ & _ & _ & _ & _ & _ & Hrun)]|[Hg Hrun]].
    + destruct (kmalloc_res_fresh _ _ Ha) as [Hn0 Hnew]. exists 0. erewrite es_bind by exact Hrun.
      destruct (Z.eqb_spec new 0) as [|_]; [done|].
      destruct (region_release_resource h K Hinv p r Hp start n _ Hs new _ Hrun Hn0) as (x & Hrel & _).
      erewrite es_bind by exact Hrel. erewrite es_bind by done. unfold mret, ES_ret. rewrite delete_insert_id by done.
      split; [done|left]. by split_and!.
    + exists (- EBUSY). erewrite es_bind by exact Hrun. split; [done|right]. split; [done|by right].
  - exists (- EBUSY). erewrite es_bind by exact Hrun. split; [done|right]. split; [done|by left].
Qed.

(** [allocate_resource]: the search for a place in the resource tree. *)

(** * Alignment *)

(** Clearing the low bits of [x]. *)
Lemma align_down x k : 0 <= k → Z.land x (Z.lnot (2 ^ k - 1)) = x - x mod 2 ^ k.
Proof.
  intros Hk. rewrite <-Z.sub_land_same_l, <-Z.land_ones by done. by rewrite Z.ones_equiv, Z.sub_1_r.
Qed.

(** Rounding up to a multiple of [2 ^ k], where the sum does not wrap. *)
Lemma align_up x k : 0 <= k → 0 <= x → x + 2 ^ k <= 2 ^ 32 →
  x <= Z.land (u32 (x + 2 ^ k - 1)) (Z.lnot (2 ^ k - 1)) ∧
  Z.land (u32 (x + 2 ^ k - 1)) (Z.lnot (2 ^ k - 1)) mod 2 ^ k = 0.
Proof.
  intros Hk Hx Hw. pose proof (Z.pow_pos_nonneg 2 k ltac:(lia) Hk) as Hp.
  rewrite u32_small by (change 4294967296 with (2 ^ 32); lia). rewrite align_down by done.
  set (y := x + 2 ^ k - 1). pose proof (Z.mod_pos_bound y (2 ^ k) Hp). split; [lia|].
  rewrite (Z.div_mod y (2 ^ k)) at 1 by lia.
  replace (2 ^ k * (y / 2 ^ k) + y mod 2 ^ k - y mod 2 ^ k) with (y / 2 ^ k * 2 ^ k) by lia. apply Z_mod_mult.
Qed.

Lemma land_lnot_bound x y : 0 <= x < 2 ^ 32 → 0 <= Z.land x (Z.lnot y) < 2 ^ 32.
Proof.
  intros Hx. rewrite <-Z.sub_land_same_l. assert (0 <= Z.land x y) by (apply Z.land_nonneg; lia).
  assert (0 <= Z.land x (Z.lnot y)) as Hn by (apply Z.land_nonneg; lia). rewrite <-Z.sub_land_same_l in Hn. lia.
Qed.

(** * The search *)

Definition set_span (s e : Z) (n : resource) : resource := set_res_end e (set_res_start s n).

(** What the callback must not do: leave the range of the type. *)
Definition alignf_ok (alignf : alignfn) : Prop :=
  ∀ f n size align, alignf = Some f → 0 <= f n size align < 2 ^ 32.

(** The place found: [size] addresses that end at [max] at the latest, and
    without a callback an aligned start at [min] at the earliest, provided the
    rounding cannot wrap in a space that ends at [hi]. *)
Definition found (size min max align hi : Z) (alignf : alignfn) (s e : Z) : Prop :=
  s <= e ∧ e = s + size - 1 ∧ e <= max ∧
  (alignf = None → ∀ k, 0 <= k → align = 2 ^ k → hi + align < 2 ^ 32 → min + align <= 2 ^ 32 →
   min <= s ∧ s mod align = 0).

Lemma clamp_start n m : (if res_start n <? m then set_res_start m n else n) = set_res_start (Z.max m (res_start n)) n.
Proof. destruct n. cbn. destruct (Z.ltb_spec res_start m); unfold set_res_start; cbn; f_equal; lia. Qed.

Lemma clamp_end n m : (if res_end n >? m then set_res_end m n else n) = set_res_end (Z.min m (res_end n)) n.
Proof. destruct n. cbn. rewrite Z.gtb_ltb. destruct (Z.ltb_spec m res_end); unfold set_res_end; cbn; f_equal; lia. Qed.

Section find.
Context (size min max align : Z) (alignf : alignfn) (Hf : alignf_ok alignf).
Context (Hsize : 0 < size < 2 ^ 32) (Hmin : 0 <= min < 2 ^ 32) (Hmax : 0 <= max < 2 ^ 32).

Lemma find_fit_span limit n :
  0 <= limit < 2 ^ 32 → 0 <= res_start n < 2 ^ 32 →
  ∃ s e, find_fit limit size min max align alignf n = set_span s e n ∧ 0 <= s < 2 ^ 32 ∧ 0 <= e < 2 ^ 32 ∧ e <= max ∧
    (alignf = None → s = Z.land (u32 (Z.max min (res_start n) + align - 1)) (Z.lnot (align - 1))).
Proof.
  intros Hl Hs. unfold find_fit. cbv zeta. rewrite clamp_start, clamp_end. cbn [res_start res_end set_res_start set_res_end].
  pose proof (u32_bound (Z.max min (res_start n) + align - 1)) as Hb.
  destruct alignf as [f|].
  - eexists (f _ size align), (Z.min max limit). split; [by destruct n|]. split; [by apply (Hf f)|]. split_and!; [lia|lia|lia|done].
  - exists (Z.land (u32 (Z.max min (res_start n) + align - 1)) (Z.lnot (align - 1))), (Z.min max limit).
    split; [by destruct n|]. split; [by apply land_lnot_bound|]. split_and!; [lia|lia|lia|done].
Qed.
(** One candidate: its limits and whether it is taken. *)
Lemma candidate_found limit hi n s e :
  0 <= limit < 2 ^ 32 → 0 <= res_start n < 2 ^ 32 → 0 <= hi → res_start n <= hi + 1 →
  find_fit limit size min max align alignf n = set_span s e n → 0 <= s < 2 ^ 32 → 0 <= e < 2 ^ 32 → e <= max →
  (alignf = None → s = Z.land (u32 (Z.max min (res_start n) + align - 1)) (Z.lnot (align - 1))) →
  s < e → u32 (e - s + 1) >= size →
  found size min max align hi alignf s (u32 (s + size - 1)).
Proof.
  intros Hl Hs Hhi Hle Hfit Hs' He' Hem Hal Hlt Hsz.
  assert (size <= e - s + 1) as Hge.
  { destruct (decide (e - s + 1 = 2 ^ 32)) as [Heq|]; [rewrite Heq in Hsz; change (u32 (2 ^ 32)) with 0 in Hsz; lia|].
    rewrite u32_small in Hsz by (change 4294967296 with (2 ^ 32); lia). lia. }
  rewrite u32_small by (change 4294967296 with (2 ^ 32); lia). split_and!; [lia|done|lia|].
  intros Hn k Hk -> Hw1 Hw2. rewrite (Hal Hn).
  destruct (align_up (Z.max min (res_start n)) k) as [H1 H2]; [done|lia|lia|]. split; [lia|done].
Qed.

Lemma wr_insert p f h x : h !! p = Some x → wr p f h = Some (tt, <[p := f x]> h).
Proof. unfold wr. by intros ->. Qed.

(** Trying one candidate, with [rest] if it does not do. *)
Lemma try_candidate h new n limit hi (rest : RM Z) :
  h !! new = Some n → 0 <= limit < 2 ^ 32 → 0 <= res_start n < 2 ^ 32 → 0 <= hi → res_start n <= hi + 1 →
  ∃ s e, 0 <= s < 2 ^ 32 ∧ 0 <= e < 2 ^ 32 ∧
    ((found size min max align hi alignf s (u32 (s + size - 1)) ∧
      (wr new (find_fit limit size min max align alignf);;
       n ← rd new;
       if (res_start n <? res_end n) && (u32 (res_end n - res_start n + 1) >=? size) then
         wr new (λ n, set_res_end (u32 (res_start n + size - 1)) n);; mret 0
       else rest) h = Some (0, <[new := set_span s (u32 (s + size - 1)) n]> h)) ∨
     (wr new (find_fit limit size min max align alignf);;
       n ← rd new;
       if (res_start n <? res_end n) && (u32 (res_end n - res_start n + 1) >=? size) then
         wr new (λ n, set_res_end (u32 (res_start n + size - 1)) n);; mret 0
       else rest) h = rest (<[new := set_span s e n]> h))%bool.
Proof.
  intros Hnew Hl Hs Hhi Hle. destruct (find_fit_span limit n Hl Hs) as (s & e & Hfit & Hs' & He' & Hem & Hal).
  exists s, e. split; [done|]. split; [done|].
  erewrite es_bind by by apply wr_insert. erewrite es_bind by (apply rd_run, lookup_insert_eq).
  rewrite Hfit. cbn [res_start res_end set_span set_res_start set_res_end].
  destruct ((s <? e) && (u32 (e - s + 1) >=? size))%bool eqn:Hc; [left|by right].
  apply andb_prop in Hc as [H1 H2]. split; [to_prop; by apply (candidate_found limit hi n s e); try lia|].
  erewrite es_bind by (apply wr_insert, lookup_insert_eq). rewrite insert_insert_eq. by destruct n.
Qed.

Lemma find_hole_loop_run fuel h root r l lo hi this new n :
  kids h root lo hi this l → h !! 0 = None → (∀ p x, h !! p = Some x → res_fits x) →
  h !! root = Some r → res_end r = hi → root ≠ new → new ∉ l → h !! new = Some n → res_start n <= hi + 1 →
  (length l < fuel)%nat →
  ∃ err s e, find_hole_loop fuel this root new size min max align alignf h = Some (err, <[new := set_span s e n]> h) ∧
    0 <= s < 2 ^ 32 ∧ 0 <= e < 2 ^ 32 ∧
    (err = 0 ∧ found size min max align hi alignf s e ∨ err = - EBUSY).
Proof.
  intros Hk H0 Hfits Hroot Hend Hrn Hnl Hnew Hle Hfuel.
  revert fuel h lo this n Hk H0 Hfits Hroot Hnew Hle Hfuel.
  induction l as [|x l IH]; intros [|fuel] h lo this n Hk H0 Hfits Hroot Hnew Hle Hfuel; try (cbn in Hfuel; lia);
    cbn [find_hole_loop]; pose proof (Hfits _ _ Hroot) as [_ Hhi]; pose proof (Hfits _ _ Hnew) as [Hns _]; rewrite Hend in Hhi.
  - cbn in Hk. subst this. cbn [Z.eqb negb]. erewrite es_bind by (erewrite es_bind by (by apply rd_run); reflexivity).
    destruct (try_candidate h new n (res_end r) hi (mret (- EBUSY))) as (s & e & Hs & He & [[Hfd ->]| ->]); [done|lia|lia|lia|lia|..].
    + exists 0, s, (u32 (s + size - 1)). pose proof (u32_bound (s + size - 1)). split_and!; [done|lia..|by left].
    + exists (- EBUSY), s, e. split_and!; [done|lia..|by right].
  - destruct Hk as (-> & t & Ht & Hp & Hlo & Hthi & Hk). pose proof (Hfits _ _ Ht) as [Hts Hte].
    assert (x ≠ new) as Hxn by (intros ->; apply Hnl; left).
    destruct (Z.eqb_spec x 0) as [->|_]; [by rewrite H0 in Ht|]. cbn [negb].
    erewrite es_bind by (erewrite es_bind by (by apply rd_run); reflexivity).
    edestruct (try_candidate h new n (res_start t) hi) as (s & e & Hs & He & [[Hfd ->]| ->]); [done|lia|lia|lia|lia|..].
    + exists 0, s, (u32 (s + size - 1)). pose proof (u32_bound (s + size - 1)). split_and!; [done|lia..|by left].
    + erewrite es_bind by (apply rd_run; by rewrite lookup_insert_ne by done).
      erewrite es_bind by (apply wr_insert, lookup_insert_eq). rewrite insert_insert_eq.
      set (n2 := set_res_start (u32 (res_end t + 1)) (set_span s e n)).
      pose proof (u32_bound (res_end t + 1)).
      assert (∀ y, y ≠ new → <[new := n2]> h !! y = h !! y) as Hsame by (intros; by rewrite lookup_insert_ne).
      destruct (IH ltac:(intros Hin; apply Hnl; by right) fuel (<[new := n2]> h) (res_end t + 1) (res_sibling t) n2)
        as (err & s' & e' & Hrun & Hrest).
      * apply (kids_frame h); [|done]. intros y Hy. rewrite Hsame; [done|]. intros ->. apply Hnl. by right.
      * rewrite Hsame; [done|]. intros <-. by rewrite H0 in Hnew.
      * intros p y [[<- <-]|[_ Hy]]%lookup_insert_Some; [split; cbn; lia|by apply (Hfits p)].
      * by rewrite Hsame.
      * apply lookup_insert_eq.
      * cbn. unfold u32. pose proof (Z.mod_le (res_end t + 1) (2 ^ 32)). lia.
      * cbn in Hfuel. lia.
      * exists err, s', e'. split; [|done]. rewrite Hrun, insert_insert_eq. by destruct n.
Qed.
End find.

(** * The allocation *)

Lemma up_assign h new n n' q p :
  h !! new = Some n → res_parent n' = res_parent n → up (<[new := n']> h) q p → up h q p.
Proof.
  intros Hnew Hpar. induction 1 as [|p x Hx _ IH]; [constructor|].
  apply lookup_insert_Some in Hx as [[<- <-]|[_ Hx]]; [|by eapply up_step].
  eapply up_step; [done|]. by rewrite <-Hpar.
Qed.

Section allocate.
Context (h : gmap Z resource) (K : Z → list Z) (Hinv : res_inv h K).
Context (root new : Z) (r n : resource) (Hroot : h !! root = Some r) (Hnew : h !! new = Some n).
Context (Hrse : res_start r <= res_end r) (Hpar : res_parent n = 0) (Hch : res_child n = 0) (Hup : ¬ up h new root).
Context (size min max align : Z) (alignf : alignfn) (Hf : alignf_ok alignf).
Context (Hsize : 0 < size < 2 ^ 32) (Hmin : 0 <= min < 2 ^ 32) (Hmax : 0 <= max < 2 ^ 32).

Lemma span_inv s e : 0 <= s < 2 ^ 32 → 0 <= e < 2 ^ 32 → res_inv (<[new := set_span s e n]> h) K.
Proof. intros Hs He. by eapply inv_assign. Qed.

Lemma alloc_root_new : root ≠ new.
Proof. intros ->. apply Hup. constructor. Qed.

Lemma find_resource_run :
  ∃ err s e, find_resource root new size min max align alignf h = Some (err, <[new := set_span s e n]> h) ∧
    0 <= s < 2 ^ 32 ∧ 0 <= e < 2 ^ 32 ∧
    (err = 0 ∧ found size min max align (res_end r) alignf s e ∨ err = - EBUSY).
Proof.
  pose proof alloc_root_new as Hrn. destruct (ri_fits _ _ Hinv _ _ Hroot) as [Hrs Hre].
  pose proof (span_inv (res_start r) (res_end n) Hrs (proj2 (ri_fits _ _ Hinv _ _ Hnew))) as Hi.
  set (n1 := set_span (res_start r) (res_end n) n) in Hi.
  assert (<[new := n1]> h !! root = Some r) as Hr1 by by rewrite lookup_insert_ne.
  pose proof (ri_kids _ _ Hi _ _ Hr1) as Hk. pose proof (kids_size _ _ _ _ _ _ Hk) as Hsz.
  unfold find_resource. erewrite es_bind by by apply rd_run. erewrite es_bind by by apply wr_insert. erewrite es_bind by done.
  replace (set_res_start (res_start r) n) with n1 by by destruct n.
  destruct (find_hole_loop_run size min max align alignf Hf Hsize Hmin Hmax (S (base.size (<[new := n1]> h)))
    (<[new := n1]> h) root r (K root) _ _ (res_child r) new n1 Hk) as (err & s & e & Hrun & Hs & He & Hres).
  - apply (ri_null _ _ Hi).
  - apply (ri_fits _ _ Hi).
  - done.
  - done.
  - done.
  - intros Hin. destruct (inv_kid h K Hinv root new Hin) as (x & _ & Hx & _ & Hp & Hp0 & _). congruence.
  - apply lookup_insert_eq.
  - cbn. lia.
  - lia.
  - exists err, s, e. split; [|done]. rewrite Hrun, insert_insert_eq. by destruct n.
Qed.

(** [allocate_resource] either links [new] at a place that was free and meets the
    constraints, or fails with [-EBUSY] and changes nothing but the range it
    leaves in [new]. *)
Lemma allocate_resource_run : ∃ s e, 0 <= s < 2 ^ 32 ∧ 0 <= e < 2 ^ 32 ∧
  ((found size min max align (res_end r) alignf s e ∧ vacant (<[new := set_span s e n]> h) root r s e ∧
    ∃ l1 l2, K root = l1 ++ l2 ∧ allocate_resource root new size min max align alignf h =
      Some (0, link_at (s_after root l1) (next_of l2) new root (<[new := set_span s e n]> h)) ∧
      res_inv (link_at (s_after root l1) (next_of l2) new root (<[new := set_span s e n]> h)) (<[root := l1 ++ new :: l2]> K)) ∨
   allocate_resource root new size min max align alignf h = Some (- EBUSY, <[new := set_span s e n]> h)).
Proof.
  destruct find_resource_run as (err & s & e & Hrun & Hs & He & Hres). exists s, e. split; [done|]. split; [done|].
  unfold allocate_resource. erewrite es_bind by done. destruct Hres as [[-> Hfd]| ->]; cbn [Z.geb Z.compare EBUSY Z.opp]; [|by right].
  pose proof (span_inv s e Hs He) as Hi. pose proof alloc_root_new as Hrn.
  destruct (request_run (<[new := set_span s e n]> h) root new r (set_span s e n) (K root)) as
    [(l1 & l2 & HK & Hg & Hse & Hin & Hreq)|(x & Hx & Href & Hreq)].
  - apply (ri_kids _ _ Hi). by rewrite lookup_insert_ne.
  - apply (ri_null _ _ Hi).
  - by rewrite lookup_insert_ne.
  - apply lookup_insert_eq.
  - left. split; [done|]. split; [eapply (gap_vacant _ K Hi); [by rewrite lookup_insert_ne|done..]|].
    exists l1, l2. split; [done|]. erewrite es_bind by done. split; [done|]. destruct Hg, Hin.
    apply (inv_link _ K Hi root new r (set_span s e n)); try done; [by rewrite lookup_insert_ne|apply lookup_insert_eq|].
    intros Hu. apply Hup. by apply (up_assign h new n (set_span s e n)).
  - right. erewrite es_bind by done. by destruct (Z.eqb_spec x 0).
Qed.
End allocate.

(** Drivers at work on the resource tree: sequences of calls that follow the
    rules of the interface, and what holds after each. *)

(** * The calls *)

Inductive rop :=
  | RNew (p : Z) (name : option string) (start end_ flags : Z)
  | RFree (p : Z)
  | RRequest (root new : Z)
  | RRelease (old : Z)
  | RCheck (tmp : Z) (garbage : resource) (root start len : Z)
  | RAllocate (root new size min max align : Z) (alignf : alignfn)
  | RRequestRegion (parent start n : Z) (name : option string)
  | RCheckRegion (parent start n : Z)
  | RReleaseRegion (parent start n : Z).

(** [RNew] and [RFree] are what a driver does with a structure of its own. *)
Definition exec_rop `{ResAlloc} (op : rop) : RM Z :=
  match op with
  | RNew p name start end_ flags => place p (mk_resource name start end_ flags 0 0 0);; mret 0
  | RFree p => kfree p;; mret 0
  | RRequest root new => request_resource root new
  | RRelease old => release_resource old
  | RCheck tmp garbage root start len => check_resource tmp garbage root start len
  | RAllocate root new size min max align alignf => allocate_resource root new size min max align alignf
  | RRequestRegion parent start n name => __request_region parent start n name
  | RCheckRegion parent start n => __check_region parent start n
  | RReleaseRegion parent start n => b ← __release_region parent start n; mret (if b : bool then 0 else - EINVAL)
  end.

Definition u32_range (z : Z) : Prop := 0 <= z < 2 ^ 32.

(** Unlinked, and not above the resource it is to go under. *)
Definition unlinked (h : gmap Z resource) (root new : Z) (n : resource) : Prop :=
  h !! new = Some n ∧ res_parent n = 0 ∧ ¬ up h new root.

(** What the interface asks of its callers: live structures, only unlinked
    ones to link and only linked ones to release, and no busy region to be
    released by range while it has children. *)
Definition legal (h : gmap Z resource) (op : rop) : Prop :=
  match op with
  | RNew p _ start end_ _ => p ≠ 0 ∧ h !! p = None ∧ u32_range start ∧ u32_range end_
  | RFree p => p ≠ ioport_resource ∧ p ≠ iomem_resource ∧ ∃ x, h !! p = Some x ∧ res_parent x = 0 ∧ res_child x = 0
  | RRequest root new => is_Some (h !! root) ∧ ∃ n, unlinked h root new n
  | RRelease old => ∃ o, h !! old = Some o ∧ res_parent o ≠ 0
  | RCheck tmp _ root start _ => is_Some (h !! root) ∧ tmp ≠ 0 ∧ h !! tmp = None ∧ u32_range start
  | RAllocate root new size min max align alignf =>
      (∃ r, h !! root = Some r ∧ res_start r <= res_end r) ∧ (∃ n, unlinked h root new n ∧ res_child n = 0) ∧
      alignf_ok alignf ∧ 0 < size < 2 ^ 32 ∧ u32_range min ∧ u32_range max
  | RRequestRegion parent start _ _ | RCheckRegion parent start _ => is_Some (h !! parent) ∧ u32_range start
  | RReleaseRegion parent start n => is_Some (h !! parent) ∧
      ∀ q x, up h parent q → h !! q = Some x → is_busy x = true → res_start x = start →
        res_end x = u32 (start + n - 1) → res_child x = 0
  end.

Inductive rstep `{ResAlloc} (h h' : gmap Z resource) : Prop :=
  | rstep_op op x : legal h op → exec_rop op h = Some (x, h') → rstep h h'.

(** The heaps that calls by the rules can lead to. *)
Definition reachable `{ResAlloc} (h : gmap Z resource) : Prop := rtc rstep resource_init h.

(** * The invariant *)

Lemma init_inv : res_inv resource_init (λ _, []).
Proof.
  assert (∀ p x, resource_init !! p = Some x → res_parent x = 0 ∧ res_child x = 0 ∧ res_fits x) as Hall.
  { intros p x Hx. unfold resource_init in Hx. apply lookup_insert_Some in Hx as [[_ <-]|[_ Hx]]; [by split_and!|].
    apply lookup_singleton_Some in Hx as [_ <-]. by split_and!. }
  split; [done|by intros p x (_ & _ & ?)%Hall|by intros p x (_ & ? & _)%Hall|done|by intros p x (? & _)%Hall|].
  intros p [x Hx]. eapply rooted_top; [done|]. by apply Hall in Hx as [? _].
Qed.

Lemma way_up h K s e q p : res_inv h K → way h K s e q p → up h p q.
Proof. intros Hinv. induction 1 as [|p x rx Hx _ _ _ _ IH]; [constructor|]. eapply up_trans; [|done]. by eapply kid_up. Qed.

(** A call by the rules returns and keeps the tree in order. *)
Lemma exec_inv `{ResAlloc} h K op :
  res_inv h K → legal h op → ∃ x h' K', exec_rop op h = Some (x, h') ∧ res_inv h' K'.
Proof.
  intros Hinv. destruct op as [p name s e f|p|root new|old|tmp g root s len|root new size mn mx al af|p s n name|p s n|p s n]; cbn [legal exec_rop].
  - intros (Hp & Hfree & Hs & He). eexists _, _, K. split; [by erewrite es_bind by done|]. by apply inv_place.
  - intros (_ & _ & x & Hx & Hpar & Hch). eexists _, _, K. split; [by erewrite es_bind by done|]. by eapply inv_delete.
  - intros ([r Hr] & n & Hn & Hpar & Hup).
    destruct (request_resource_run h K root new r n) as [(_ & l1 & l2 & _ & Hrun & Hi)|[_ Hrun]]; [done..| |]; by eauto.
  - intros (o & Ho & Hp). destruct (release_resource_run h K old o) as (l1 & l2 & _ & Hrun & Hi); [done..|]. by eauto.
  - intros ([r Hr] & Ht0 & Ht & Hs). eexists _, _, K. split; [by eapply check_resource_run|done].
  - intros ((r & Hr & Hrse) & (n & (Hn & Hpar & Hup) & Hch) & Haf & Hsz & Hmn & Hmx).
    destruct (allocate_resource_run h K Hinv root new r n Hr Hn Hrse Hpar Hch Hup size mn mx al af Haf Hsz Hmn Hmx)
      as (s & e & Hs & He & [(_ & _ & l1 & l2 & _ & Hrun & Hi)|Hrun]); [by eauto|].
    eexists _, _, K. split; [done|]. by apply (span_inv h K Hinv root new r n).
  - intros ([r Hr] & Hs). pose proof (request_region_run h K Hinv p r Hr s n name Hs) as Hrun.
    destruct (kmalloc_res h) as [new|] eqn:Ha; [|by eauto].
    destruct Hrun as [[_ (q & rq & l1 & l2 & Hw & Hq & HK & Hg & Hse & Hin & Hrun)]|[_ Hrun]]; [|by eauto].
    eexists _, _, _. split; [done|]. by eapply (granted_inv h K Hinv p r Hr s n name Hs new q rq).
  - intros ([r Hr] & Hs). destruct (check_region_run h K p r s n Hinv Hr Hs) as (x & Hrun & _). by eauto.
  - intros ([r Hr] & Hch). destruct (release_region_searched h K p r s n Hinv Hr) as [(P & q & rq & l1 & l2 & Ht & HK & Hrun)|[_ Hrun]];
      erewrite es_bind by exact Hrun; [|by eauto]. eexists _, _, _. split; [done|]. eapply release_region_inv; [done..|].
    destruct Ht as (Hw & Hq & Hrq & Hb & Hs & He). apply (Hch q rq); try done.
    eapply up_trans; [by eapply way_up|by eapply kid_up].
Qed.

Lemma reachable_inv `{ResAlloc} h : reachable h → ∃ K, res_inv h K.
Proof.
  intros Hr. assert (∃ K, res_inv resource_init K) as Hi by (eexists; apply init_inv). revert Hi.
  induction Hr as [h|h1 h2 h3 Hstep _ IH]; [done|]. intros [K Hi]. apply IH. destruct Hstep as [op x Hl Hx].
  destruct (exec_inv h1 K op Hi Hl) as (y & h' & K' & Hy & Hi'). exists K'. congruence.
Qed.

(** Two resources of one tree that share an address are one above the other. *)
Lemma tree_nested h K n : res_inv h K → ∀ t p q x y,
  shallow K n t → is_Some (h !! t) → up h t p → up h t q → h !! p = Some x → h !! q = Some y →
  overlaps x (res_start y) (res_end y) → up h p q ∨ up h q p.
Proof.
  intros Hinv. induction n as [|n IH]; intros t p q x y Hsh Ht Hp Hq Hx Hy Hov; [done|].
  destruct (decide (p = t)) as [->|Hpt]; [by left|]. destruct (decide (q = t)) as [->|Hqt]; [by right|].
  destruct (up_child h K Hinv t p Hp Hpt Ht) as (a & Ha & Hap). destruct (up_child h K Hinv t q Hq Hqt Ht) as (b & Hb & Hbq).
  destruct (inv_kid h K Hinv t a Ha) as (ra & ra' & Hra & _ & _ & _ & Hoa & _).
  destruct (inv_kid h K Hinv t b Hb) as (rb & rb' & Hrb & _ & _ & _ & Hob & _).
  destruct (decide (a = b)) as [->|Hab]; [by apply (IH b p q x y); [apply Hsh|eexists|..]|]. exfalso. apply Hab.
  assert (res_start ra <= res_start x ∧ res_end x <= res_end ra) as [? ?].
  { destruct (decide (p = a)) as [->|]; [replace ra with x by congruence; lia|]. by apply (up_inside h K Hinv a p). }
  assert (res_start rb <= res_start y ∧ res_end y <= res_end rb) as [? ?].
  { destruct (decide (q = b)) as [->|]; [replace rb with y by congruence; lia|]. by apply (up_inside h K Hinv b q). }
  destruct Hov. apply (kids_meet h K Hinv t a b ra rb (Z.max (res_start ra) (res_start rb))); try done; lia.
Qed.
