(* ===== verification/ResourceThms.v ===== *)
(** What is shown of the resource tree: the properties of kernel/resource.c. *)
From stdpp Require Import functions relations.
From S2P Require Import Prelude Resource ResourceProofs ResourceOps ResourceRegion ResourceCalls.
From stdpp Require Import list options.
#[local] Set Default Proof Using "Type*".
Open Scope cint_scope.
Open Scope Z_scope.

(** An allocator that hands out the next address, for the examples. *)
Definition next_address (h : gmap Z resource) : Z := 1 + map_fold (λ k _ m, Z.max k m) 0 h.

Lemma next_address_above h k x : h !! k = Some x → k < next_address h.
Proof.
  unfold next_address. intros Hk. enough (k <= map_fold (λ k _ m, Z.max k m) 0 h) by lia. revert k x Hk.
  apply (map_fold_weak_ind (λ m h, ∀ k x, h !! k = Some x → k <= m)); [by intros k x Hk|].
  intros i y m r _ IH k x [[-> _]|[_ Hk]]%lookup_insert_Some; [lia|]. specialize (IH _ _ Hk). lia.
Qed.

Lemma next_address_pos h : 0 < next_address h.
Proof.
  unfold next_address. enough (0 <= map_fold (λ k _ m, Z.max k m) 0 h) by lia.
  apply (map_fold_weak_ind (λ m _, 0 <= m)); [done|]. intros. lia.
Qed.

#[export] Program Instance next_alloc : ResAlloc := {| kmalloc_res h := Some (next_address h) |}.
Next Obligation.
  intros h a [= <-]. pose proof (next_address_pos h). split; [lia|].
  destruct (h !! next_address h) eqn:E; [|done]. apply next_address_above in E. lia.
Qed.

Lemma unlinked_owner h K root new n l1 l2 :
  res_inv h K → unlinked h root new n → K root = l1 ++ l2 → owner (s_after root l1) ≠ new.
Proof.
  intros Hinv (Hn & Hpar & Hup) HK. destruct (owner_slot_after (ChildOf root) l1) as [->|Hin].
  - intros Heq. cbn in Heq. apply Hup. rewrite Heq. constructor.
  - intros Heq. rewrite Heq in Hin. destruct (inv_kid h K Hinv root new) as (x & _ & Hx & _ & Hp & Hp0 & _);
      [rewrite HK; apply elem_of_app; by left|]. congruence.
Qed.

(** Requests undo: the released resource differs in its stale [sibling] only. *)
Lemma request_release h K root new r n h' :
  res_inv h K → h !! root = Some r → unlinked h root new n → request_resource root new h = Some (0, h') →
  ∃ sib, release_resource new h' = Some (0, <[new := set_res_sibling sib n]> h).
Proof.
  intros Hinv Hroot (Hn & Hpar & Hup) Hreq.
  destruct (request_resource_run h K root new r n) as [(_ & l1 & l2 & HK & Hrun & Hi)|[_ Hrun]]; [done..| |rewrite Hreq in Hrun; discriminate].
  rewrite Hreq in Hrun. injection Hrun as ->.
  pose proof (ri_kids _ _ Hinv _ _ Hroot) as Hk. rewrite HK in Hk.
  destruct (kids_slot h (ChildOf root) _ _ _ _ l1 l2 Hk) as (w & Hw & Hg); [by exists r|].
  assert (owner (s_after root l1) ≠ new) as Hne by (by apply (unlinked_owner h K root new n l1 l2); [|split_and!|]).
  pose proof (link_lookup_new (s_after root l1) (next_of l2) new root h n Hn Hne) as Hn'.
  destruct (release_resource_run _ _ new _ Hi Hn') as (k1 & k2 & HK' & Hrun & _).
  { cbn. apply (inv_nonzero h K Hinv). by eexists. }
  cbn in HK', Hrun. rewrite fn_lookup_insert in HK'. assert (l1 = k1) as <-.
  { eapply (nodup_split new); [|exact HK']. pose proof (inv_nodup _ _ Hi root) as Hnd. by rewrite fn_lookup_insert in Hnd. }
  exists (next_of l2). rewrite Hrun. do 2 f_equal. rewrite <-Hg, (unlink_link _ _ w new root n) by done.
  f_equal. destruct n. cbn in Hpar. by subst.
Qed.

(** * The properties *)

(** C32: from the state at boot, along any sequence of calls by the rules of the
    interface, every call returns: it follows no wild pointer and every loop
    ends. A linked resource is a range within its parent, the pointers spell out
    the lists of children, and two resources of one tree share an address only
    if one is above the other. *)
Theorem resource_tree_sound `{ResAlloc} h :
  reachable h →
  (∀ op, legal h op → is_Some (exec_rop op h)) ∧
  (∃ K, res_inv h K) ∧
  (∀ p x, h !! p = Some x → res_parent x ≠ 0 → ∃ y, h !! res_parent x = Some y ∧
     res_start x <= res_end x ∧ inside y (res_start x) (res_end x)) ∧
  (∀ t p q x y, is_Some (h !! t) → up h t p → up h t q → h !! p = Some x → h !! q = Some y →
     overlaps x (res_start y) (res_end y) → up h p q ∨ up h q p).
Proof.
  intros Hr. destruct (reachable_inv h Hr) as [K Hinv]. split_and!.
  - intros op Hl. destruct (exec_inv h K op Hinv Hl) as (x & h' & _ & Hx & _). by eexists.
  - by exists K.
  - intros p x Hx Hp. pose proof (ri_parent _ _ Hinv _ _ Hx Hp) as Hin.
    destruct (inv_kid h K Hinv _ _ Hin) as (x' & y & Hx' & Hy & _ & _ & ? & ?). replace x' with x in * by congruence.
    exists y. unfold inside. split_and!; [done|lia..].
  - intros t p q x y Ht Hp Hq Hx Hy Hov. eapply (tree_nested h K); [done|by eapply shallow_live|done..].
Qed.

(** A region is granted exactly when memory is there, the range lies in the
    parent, and of the resources below it only idle ones that contain the range
    share an address with it; a refusal changes nothing. The region is then
    linked as busy below the parent, every other resource keeps its range, flags
    and place, and releasing the range gives the old heap back. Checking the
    range changes nothing and gives the same answer. *)
Theorem request_region_correct `{ResAlloc} h p r start n name :
  reachable h → h !! p = Some r → u32_range start →
  let e := u32 (start + n - 1) in
  ∃ new h', __request_region p start n name h = Some (new, h') ∧
    (new ≠ 0 ↔ is_Some (kmalloc_res h) ∧ grantable h p r start e) ∧
    (new = 0 → h' = h) ∧
    (new ≠ 0 → (∃ x, h' !! new = Some x ∧ stable x = (name, start, e, IORESOURCE_BUSY) ∧ up h p (res_parent x)) ∧
       (∀ q y, h !! q = Some y → ∃ y', h' !! q = Some y' ∧ stable y' = stable y ∧ res_parent y' = res_parent y) ∧
       __release_region p start n h' = Some (true, h)) ∧
    __check_region p start n h = Some (if new =? 0 then - EBUSY else 0, h).
Proof.
  intros Hr Hp Hs e. destruct (reachable_inv h Hr) as [K Hinv].
  pose proof (request_region_run h K Hinv p r Hp start n name Hs) as Hrun.
  destruct (check_region_run h K p r start n Hinv Hp Hs) as (x & Hchk & Hx).
  destruct (kmalloc_res h) as [a|] eqn:Ha.
  2:{ exists 0, h. destruct Hx as [(_ & [? ?] & _)|[-> _]]; [done|]. split_and!; [done|by split; [|intros [[? ?] _]]|done|done|done]. }
  destruct (kmalloc_res_fresh _ _ Ha) as [Ha0 _].
  destruct Hrun as [[Hg (q & rq & l1 & l2 & Hw & Hq & HK & Hgap & Hse & Hin & Hrun)]|[Hg Hrun]].
  - exists a, (granted h start n name a q l1 l2). split; [done|]. split; [by split; [split|]|]. split; [done|]. split.
    + intros _. split_and!.
      * eexists. split; [by eapply (granted_new h K Hinv p r Hp start n name Hs a q rq)|]. split; [done|]. cbn. by eapply way_up.
      * intros z y Hz. by eapply (granted_old h K Hinv p r Hp start n name Hs a q rq).
      * by eapply (region_back h K Hinv p r Hp start n name Hs a).
    + destruct Hx as [(-> & _)|[_ [|]]]; [|done..]. by destruct (Z.eqb_spec a 0).
  - exists 0, h. destruct Hx as [(_ & _ & ?)|[-> _]]; [done|]. split_and!; [done|by split; [|intros [_ ?]]|done..].
Qed.

(** [request_resource] links a resource exactly when its range is one, lies
    in the parent and meets none of the parent's children, and answers [-EBUSY]
    without a change otherwise; releasing it undoes the request but for a stale
    [sibling] pointer. [check_resource] gives the answer for a range and changes
    nothing, whatever the stack holds. *)
Theorem request_resource_correct `{ResAlloc} h root r :
  reachable h → h !! root = Some r →
  (∀ new n, unlinked h root new n →
    (∃ h' sib x, request_resource root new h = Some (0, h') ∧ vacant h root r (res_start n) (res_end n) ∧
       h' !! new = Some x ∧ res_parent x = root ∧ stable x = stable n ∧
       release_resource new h' = Some (0, <[new := set_res_sibling sib n]> h)) ∨
    (request_resource root new h = Some (- EBUSY, h) ∧ ¬ vacant h root r (res_start n) (res_end n))) ∧
  (∀ tmp garbage start len, tmp ≠ 0 → h !! tmp = None → u32_range start →
    check_resource tmp garbage root start len h =
      Some (if decide (vacant h root r start (u32 (start + len - 1))) then 0 else - EBUSY, h)).
Proof.
  intros Hr Hroot. destruct (reachable_inv h Hr) as [K Hinv]. split; [|intros; by eapply check_resource_run].
  intros new n Hun. pose proof Hun as (Hn & Hpar & Hup).
  destruct (request_resource_run h K root new r n) as [(Hv & l1 & l2 & HK & Hrun & _)|[Hv Hrun]]; [done..|left|by right].
  destruct (request_release h K root new r n _ Hinv Hroot Hun Hrun) as [sib Hrel].
  eexists _, sib, _. split_and!; [done|done| | | |done].
  - apply link_lookup_new; [done|by eapply unlinked_owner].
  - done.
  - done.
Qed.

(** C29: [allocate_resource] either links the new resource at a place that was
    vacant, of the size asked for, not beyond [max] and, where rounding up
    cannot wrap, aligned and not below [min]; or it answers [-EBUSY] and changes
    nothing but the range left in the new resource. *)
Theorem allocate_resource_correct `{ResAlloc} h root r new n size min max align alignf :
  reachable h → h !! root = Some r → res_start r <= res_end r → unlinked h root new n → res_child n = 0 →
  alignf_ok alignf → 0 < size < 2 ^ 32 → u32_range min → u32_range max →
  ∃ err h' s e, allocate_resource root new size min max align alignf h = Some (err, h') ∧
    let placed := <[new := set_span s e n]> h in
    (err = - EBUSY ∧ h' = placed ∨
     err = 0 ∧ vacant placed root r s e ∧ e = s + size - 1 ∧ e <= max ∧
     (alignf = None → ∀ k, 0 <= k → align = 2 ^ k → res_end r + align < 2 ^ 32 → min + align <= 2 ^ 32 →
       min <= s ∧ s mod align = 0) ∧
     (∃ x, h' !! new = Some x ∧ res_parent x = root ∧ res_start x = s ∧ res_end x = e) ∧ ∃ K, res_inv h' K).
Proof.
  intros Hr Hroot Hrse Hun Hch Haf Hsz Hmn Hmx. destruct (reachable_inv h Hr) as [K Hinv]. pose proof Hun as (Hn & Hpar & Hup).
  destruct (allocate_resource_run h K Hinv root new r n Hroot Hn Hrse Hpar Hch Hup size min max align alignf Haf Hsz Hmn Hmx)
    as (s & e & Hs & He & [((_ & Hse & Hem & Hal) & Hv & l1 & l2 & HK & Hrun & Hi)|Hrun]).
  - eexists 0, _, s, e. split; [done|]. right. split_and!; [done..| |by eexists].
    eexists. split; [apply link_lookup_new; [apply lookup_insert_eq|]|by destruct n].
    by apply (unlinked_owner h K root new n l1 l2).
  - eexists (- EBUSY), _, s, e. split; [done|]. by left.
Qed.

(** * Examples *)

Definition after (op : rop) (h : gmap Z resource) : gmap Z resource :=
  match exec_rop op h with Some (_, h') => h' | None => h end.

Definition boot1 : gmap Z resource := after (RRequestRegion ioport_resource 0x60 16 (Some "keyboard"%string)) resource_init.
Definition boot2 : gmap Z resource := after (RNew 100 (Some "disk"%string) 0x1f0 0x1f7 0) boot1.

Lemma boot1_reachable : reachable boot1.
Proof.
  apply rtc_once. apply (rstep_op _ _ (RRequestRegion ioport_resource 0x60 16 (Some "keyboard"%string)) 3); [|by vm_compute].
  split; [by eexists|unfold u32_range; lia].
Qed.

Lemma boot2_reachable : reachable boot2.
Proof.
  eapply rtc_r; [apply boot1_reachable|].
  apply (rstep_op _ _ (RNew 100 (Some "disk"%string) 0x1f0 0x1f7 0) 0); [|by vm_compute].
  split_and!; [done|by vm_compute|unfold u32_range; lia..].
Qed.

Lemma boot2_unlinked : unlinked boot2 ioport_resource 100 (mk_resource (Some "disk"%string) 0x1f0 0x1f7 0 0 0 0).
Proof.
  split; [by vm_compute|]. split; [done|]. intros Hup. inversion Hup as [|? x Hx Hup']. vm_compute in Hx. simplify_eq.
  inversion Hup' as [|? x Hx']. by vm_compute in Hx'.
Qed.

Lemma resource_tree_sound_witness : is_Some (exec_rop (RCheckRegion ioport_resource 0x64 1) boot1).
Proof.
  destruct (resource_tree_sound boot1 boot1_reachable) as [Hex _]. apply Hex.
  split; [by eexists|unfold u32_range; lia].
Defined.

Lemma request_region_correct_witness :
  ∃ new h', __request_region ioport_resource 0x3f8 8 None boot1 = Some (new, h') ∧ new = 4 ∧
    __release_region ioport_resource 0x3f8 8 h' = Some (true, boot1).
Proof.
  destruct (request_region_correct boot1 ioport_resource (mk_resource (Some "PCI IO"%string) 0 IO_SPACE_LIMIT IORESOURCE_IO 0 0 3)
    0x3f8 8 None boot1_reachable) as (new & h' & Hrun & _ & _ & Hrel & _); [by vm_compute|unfold u32_range; lia|].
  exists new, h'. assert (new = 4) as ->.
  { assert ((λ x, x.1) <$> __request_region ioport_resource 0x3f8 8 None boot1 = Some 4) as He by by vm_compute.
    rewrite Hrun in He. cbn in He. congruence. }
  split; [done|]. split; [done|]. by apply Hrel.
Defined.

Lemma request_resource_correct_witness :
  (∃ h', request_resource ioport_resource 100 boot2 = Some (0, h')) ∧
  check_resource 200 (mk_resource None 1 2 3 4 5 6) ioport_resource 0x68 4 boot2 = Some (- EBUSY, boot2).
Proof.
  destruct (request_resource_correct boot2 ioport_resource (mk_resource (Some "PCI IO"%string) 0 IO_SPACE_LIMIT IORESOURCE_IO 0 0 3)
    boot2_reachable) as [Hreq Hchk]; [by vm_compute|]. split.
  - destruct (Hreq _ _ boot2_unlinked) as [(h' & _ & _ & Hrun & _)|[Hrun _]]; [by exists h'|].
    assert ((λ x, x.1) <$> request_resource ioport_resource 100 boot2 = Some 0) as He by by vm_compute.
    rewrite Hrun in He. by vm_compute in He.
  - rewrite Hchk; [|done|by vm_compute|unfold u32_range; lia]. by vm_compute.
Defined.

Lemma allocate_resource_correct_witness :
  ∃ h' s, allocate_resource ioport_resource 100 8 0x1000 IO_SPACE_LIMIT 8 None boot2 = Some (0, h') ∧ 0x1000 <= s ∧ s mod 8 = 0.
Proof.
  destruct (allocate_resource_correct boot2 ioport_resource (mk_resource (Some "PCI IO"%string) 0 IO_SPACE_LIMIT IORESOURCE_IO 0 0 3)
    100 (mk_resource (Some "disk"%string) 0x1f0 0x1f7 0 0 0 0) 8 0x1000 IO_SPACE_LIMIT 8 None boot2_reachable) as (err & h' & s & e & Hrun & Hor);
    [by vm_compute|by vm_compute|apply boot2_unlinked|done|done|unfold IO_SPACE_LIMIT, u32_range; lia..|].
  assert ((λ x, x.1) <$> allocate_resource ioport_resource 100 8 0x1000 IO_SPACE_LIMIT 8 None boot2 = Some 0) as He by by vm_compute.
  rewrite Hrun in He. cbn in He. injection He as ->.
  destruct Hor as [[? _]|(_ & _ & _ & _ & Hal & _)]; [done|]. exists h', s. split; [done|].
  apply (Hal eq_refl 3); [lia|done|cbn; unfold IO_SPACE_LIMIT; lia|lia].
Defined.

(** ** What [allocate_resource] does not find

    Each hole is taken to reach up to the start of the next resource, one
    address too far. A hole one short of the size is tried, conflicts, and ends
    the call although a later hole would do. *)
Lemma allocate_misses_room :
  ∃ h, reachable h ∧ (λ x, x.1) <$> allocate_resource ioport_resource 100 5 0 0xff 1 None h = Some (- EBUSY) ∧
    vacant h ioport_resource (mk_resource (Some "PCI IO"%string) 0 IO_SPACE_LIMIT IORESOURCE_IO 0 0 3) 8 12.
Proof.
  exists (after (RNew 100 None 0 0 0) (after (RRequestRegion ioport_resource 4 4 None) resource_init)).
  split; [|split; [by vm_compute|by apply (bool_decide_eq_true_1 (vacant _ _ _ _ _)); vm_compute]].
  eapply rtc_l; [apply (rstep_op _ _ (RRequestRegion ioport_resource 4 4 None) 3)|].
  { split; [by eexists|unfold u32_range; lia]. }
  { by vm_compute. }
  apply rtc_once. apply (rstep_op _ _ (RNew 100 None 0 0 0) 0); [|by vm_compute].
  split_and!; [done|by vm_compute|unfold u32_range; lia..].
Qed.

(** A hole that is the whole space has 2^32 addresses, which count as none. *)
Lemma allocate_whole_space :
  ∃ h, reachable h ∧ (λ x, x.1) <$> allocate_resource iomem_resource 100 0x1000 0 0xffffffff 0x1000 None h = Some (- EBUSY) ∧
    vacant h iomem_resource (mk_resource (Some "PCI mem"%string) 0 0xffffffff IORESOURCE_MEM 0 0 0) 0 0xfff.
Proof.
  exists (after (RNew 100 None 0 0 0) resource_init).
  split; [|split; [by vm_compute|by apply (bool_decide_eq_true_1 (vacant _ _ _ _ _)); vm_compute]].
  apply rtc_once. apply (rstep_op _ _ (RNew 100 None 0 0 0) 0); [|by vm_compute].
  split_and!; [done|by vm_compute|unfold u32_range; lia..].
Qed.

(** Rounding up may wrap, and the place found lies below the minimum. *)
Lemma allocate_below_min :
  ∃ h, reachable h ∧
    (λ x, (x.1, res_start <$> x.2 !! 100)) <$> allocate_resource iomem_resource 100 0x1000 0xfffff001 0xffffffff 0x1000 None h =
      Some (0, Some 0).
Proof.
  exists (after (RNew 100 None 0 0 0) (after (RRequestRegion iomem_resource 0x10000000 0x10000000 None) resource_init)).
  split; [|by vm_compute].
  eapply rtc_l; [apply (rstep_op _ _ (RRequestRegion iomem_resource 0x10000000 0x10000000 None) 3)|].
  { split; [by eexists|unfold u32_range; lia]. }
  { by vm_compute. }
  apply rtc_once. apply (rstep_op _ _ (RNew 100 None 0 0 0) 0); [|by vm_compute].
  split_and!; [done|by vm_compute|unfold u32_range; lia..].
Qed.
