(* ===== verification/Format.v ===== *)
(** Number formatting and parsing (lib/vsprintf.c): character classes
    (lib/ctype.c), [simple_strtoul] and its variants, [number] and [vsnprintf].
    A C string is the list of its characters up to the NUL, each an unsigned
    byte. *)
From Stdlib Require Import Ascii.
From S2P Require Import Prelude.
From stdpp Require Import list options.
Open Scope cint_scope.
Open Scope Z_scope.

(** * Characters *)

(** A character of the source, and a string literal. *)
Definition ch (a : ascii) : Z := Z.of_N (N_of_ascii a).
Fixpoint cs (s : string) : list Z :=
  match s with
  | EmptyString => []
  | String a s => ch a :: cs s
  end.

Definition _U : Z := 0x01.
Definition _L : Z := 0x02.
Definition _D : Z := 0x04.
Definition _C : Z := 0x08.
Definition _P : Z := 0x10.
Definition _S : Z := 0x20.
Definition _X : Z := 0x40.
Definition _SP : Z := 0x80.

Definition _ctype : list Z :=
  let CS := Z.lor _C _S in let UX := Z.lor _U _X in let LX := Z.lor _L _X in
  replicate 9 _C ++ replicate 5 CS ++ replicate 18 _C ++
  [Z.lor _S _SP] ++ replicate 15 _P ++ replicate 10 _D ++ replicate 7 _P ++
  replicate 6 UX ++ replicate 20 _U ++ replicate 6 _P ++
  replicate 6 LX ++ replicate 20 _L ++ replicate 4 _P ++ [_C] ++
  replicate 32 0 ++ [Z.lor _S _SP] ++ replicate 31 _P ++
  replicate 23 _U ++ [_P] ++ replicate 7 _U ++ [_L] ++
  replicate 23 _L ++ [_P] ++ replicate 8 _L.

Definition __ismask (c : Z) : Z := nth (Z.to_nat (u8 c)) _ctype 0.
Definition isdigit (c : Z) : bool := __ismask c & _D.
Definition islower (c : Z) : bool := __ismask c & _L.
Definition isspace (c : Z) : bool := __ismask c & _S.
Definition isxdigit (c : Z) : bool := __ismask c & Z.lor _D _X.
Definition toupper (c : Z) : Z := if islower c then u8 (c - (97 - 65)) else c.

(** [*cp] *)
Definition deref (cp : list Z) : Z := hd 0 cp.

(** * Parsing numbers *)

(** The value of a hexadecimal digit. *)
Definition digit_value (c : Z) : Z := if isdigit c then c - 48 else toupper c - 65 + 10.

(** The loop of the parsers; [wrap] is the wrap-around of the type of the
    result. The second component is what is left of the string. *)
Fixpoint strtoul_loop (wrap : Z → Z) (cp : list Z) (base result : Z) : Z * list Z :=
  match cp with
  | [] => (result, [])
  | c :: cp' =>
      if isxdigit c && (digit_value c <? base) then
        strtoul_loop wrap cp' base (wrap (result * base + digit_value c))
      else (result, cp)
  end%bool.

(** The prefixes that select a base when it is 0. *)
Definition strtoul_base (cp : list Z) (base : Z) : Z * list Z :=
  if base =? 0 then
    if deref cp =? ch "0" then
      let cp := tl cp in
      if (deref cp =? ch "x") && isxdigit (deref (tl cp)) then (16, tl cp) else (8, cp)
    else (10, cp)
  else (base, cp).

Definition simple_strtoul (cp : list Z) (base : Z) : Z * list Z :=
  let '(base, cp) := strtoul_base cp base in strtoul_loop u32 cp base 0.

Definition simple_strtol (cp : list Z) (base : Z) : Z * list Z :=
  if deref cp =? ch "-" then
    let '(r, endp) := simple_strtoul (tl cp) base in (s32 (- r), endp)
  else let '(r, endp) := simple_strtoul cp base in (s32 r, endp).

Definition u64 (z : Z) : Z := z mod 2 ^ 64.

Definition simple_strtoull (cp : list Z) (base : Z) : Z * list Z :=
  let '(base, cp) := strtoul_base cp base in strtoul_loop u64 cp base 0.

Definition simple_strtoll (cp : list Z) (base : Z) : Z * list Z :=
  if deref cp =? ch "-" then
    let '(r, endp) := simple_strtoull (tl cp) base in (s64 (- r), endp)
  else let '(r, endp) := simple_strtoull cp base in (s64 r, endp).

Fixpoint skip_atoi_loop (s : list Z) (i : Z) : Z * list Z :=
  match s with
  | [] => (i, [])
  | c :: s' => if isdigit c then skip_atoi_loop s' (s32 (i * 10 + c - 48)) else (i, s)
  end.
Definition skip_atoi (s : list Z) : Z * list Z := skip_atoi_loop s 0.

(** * Output

    [str] walks over the buffer; a character is stored only up to [end]. What
    [%n] stores is kept in order. *)

(** An argument as [va_arg] finds it: a word, a [long long] or a string. *)
Inductive varg :=
  | VWord (z : Z)
  | VLong (z : Z)
  | VStr (s : option (list Z)).

Record ostate := mk_ostate {
  o_str : Z;
  o_mem : gmap Z Z;
  o_args : list varg;
  o_count : list Z
}.

Notation OM := (ES ostate).

Definition put (end_ c : Z) : OM unit := λ s,
  Some (tt, mk_ostate (u32 (o_str s + 1))
    (if o_str s <=? end_ then <[o_str s := c]> (o_mem s) else o_mem s) (o_args s) (o_count s)).

(** [while (lim < n--) put(c)], with the value [n] has afterwards. *)
Fixpoint pad_loop (fuel : nat) (end_ lim n c : Z) : OM Z :=
  match fuel with
  | O => λ _, None
  | S fuel => if lim <? n then put end_ c;; pad_loop fuel end_ lim (s32 (n - 1)) c else mret (s32 (n - 1))
  end.
Definition pad (end_ lim n c : Z) : OM Z := pad_loop (S (Z.to_nat (n - lim))) end_ lim n c.

Definition ZEROPAD : Z := 1.
Definition SIGN : Z := 2.
Definition PLUS : Z := 4.
Definition SPACE : Z := 8.
Definition LEFT : Z := 16.
Definition SPECIAL : Z := 32.
Definition LARGE : Z := 64.

Definition small_digits : list Z := cs "0123456789abcdefghijklmnopqrstuvwxyz".
Definition large_digits : list Z := cs "0123456789ABCDEFGHIJKLMNOPQRSTUVWXYZ".

(** The macro of include/asm-i386/div64.h: a 64 bit number divided by a 32 bit
    one in two steps of [divl]; quotient and remainder. *)
Definition do_div (n base : Z) : Z * Z :=
  let low := n mod 2 ^ 32 in
  let high := n / 2 ^ 32 in
  let upper := if negb (high =? 0) then high mod base else high in
  let high := if negb (high =? 0) then high / base else high in
  let low' := upper * 2 ^ 32 + low in
  (high * 2 ^ 32 + low' / base, low' mod base).

(** [while (num != 0) tmp[i++] = digits[do_div(num,base)]]; 64 digits are enough
    for 64 bits. *)
Fixpoint digits_loop (fuel : nat) (digits : list Z) (num base : Z) : list Z :=
  match fuel with
  | O => []
  | S fuel =>
      if num =? 0 then []
      else let '(q, r) := do_div num base in
           nth (Z.to_nat r) digits 0 :: digits_loop fuel digits q base
  end.

(** Sign, absolute value and the width that is left. *)
Definition number_sign (num size type : Z) : Z * Z * Z :=
  if type & SIGN then
    if num <? 0 then (ch "-", s64 (- num), s32 (size - 1))
    else if type & PLUS then (ch "+", num, s32 (size - 1))
    else if type & SPACE then (ch " ", num, s32 (size - 1))
    else (0, num, size)
  else (0, num, size).

Fixpoint put_list (end_ : Z) (l : list Z) : OM unit :=
  match l with
  | [] => mret tt
  | c :: l => put end_ c;; put_list end_ l
  end.

Definition number (end_ num base size precision type : Z) : OM unit :=
  let digits := if type & LARGE then large_digits else small_digits in
  let type := if type & LEFT then type &~ ZEROPAD else type in
  if (base <? 2) || (base >? 36) then (λ s, Some (tt, mk_ostate 0 (o_mem s) (o_args s) (o_count s)))
  else
    let c := if type & ZEROPAD then ch "0" else ch " " in
    let '(sign, num, size) := number_sign num size type in
    let size := if type & SPECIAL then
                  if base =? 16 then s32 (size - 2) else if base =? 8 then s32 (size - 1) else size
                else size in
    let tmp := if num =? 0 then [ch "0"] else digits_loop 64 digits (u64 num) base in
    let i := Z.of_nat (length tmp) in
    let precision := if i >? precision then i else precision in
    let size := s32 (size - precision) in
    size ← (if negb (type & (ZEROPAD + LEFT)) then pad end_ 0 size (ch " ") else mret size);
    (if negb (sign =? 0) then put end_ sign else mret tt);;
    (if type & SPECIAL then
       if base =? 8 then put end_ (ch "0")
       else if base =? 16 then put end_ (ch "0");; put end_ (nth 33 digits 0)
       else mret tt
     else mret tt);;
    size ← (if negb (type & LEFT) then pad end_ 0 size c else mret size);
    _ ← pad end_ i precision (ch "0");
    put_list end_ (rev tmp);;
    _ ← pad end_ 0 size (ch " ");
    mret tt.

(** * [vsnprintf] *)

(** One conversion of the format. *)
Record fspec := mk_fspec {
  f_flags : Z;
  f_width : Z;
  f_precision : Z;
  f_qualifier : Z;
  f_conv : Z;          (* 0 at the end of the format *)
  f_rest : list Z
}.

(** What follows the percent sign: flags, *)
Fixpoint parse_flags (fmt : list Z) (flags : Z) : Z * list Z :=
  match fmt with
  | [] => (flags, [])
  | c :: fmt' =>
      if c =? ch "-" then parse_flags fmt' (Z.lor flags LEFT)
      else if c =? ch "+" then parse_flags fmt' (Z.lor flags PLUS)
      else if c =? ch " " then parse_flags fmt' (Z.lor flags SPACE)
      else if c =? ch "#" then parse_flags fmt' (Z.lor flags SPECIAL)
      else if c =? ch "0" then parse_flags fmt' (Z.lor flags ZEROPAD)
      else (flags, fmt)
  end.

(** an [int] of the arguments, *)
Definition va_int (args : list varg) : option (Z * list varg) :=
  match args with
  | VWord z :: args => Some (s32 z, args)
  | _ => None
  end.

(** the field width, *)
Definition parse_width (fmt : list Z) (flags : Z) (args : list varg) : option (Z * Z * list Z * list varg) :=
  if isdigit (deref fmt) then
    let '(w, fmt) := skip_atoi fmt in Some (w, flags, fmt, args)
  else if deref fmt =? ch "*" then
    '(w, args) ← va_int args;
    Some (if w <? 0 then (s32 (- w), Z.lor flags LEFT, tl fmt, args) else (w, flags, tl fmt, args))
  else Some (-1, flags, fmt, args).

(** the precision, *)
Definition parse_precision (fmt : list Z) (args : list varg) : option (Z * list Z * list varg) :=
  if deref fmt =? ch "." then
    let fmt := tl fmt in
    '(p, fmt, args) ←
      (if isdigit (deref fmt) then let '(p, fmt) := skip_atoi fmt in Some (p, fmt, args)
       else if deref fmt =? ch "*" then '(p, args) ← va_int args; Some (p, tl fmt, args)
       else Some (-1, fmt, args));
    Some (if p <? 0 then 0 else p, fmt, args)
  else Some (-1, fmt, args).

(** and the qualifier. *)
Definition parse_qualifier (fmt : list Z) : Z * list Z :=
  let c := deref fmt in
  if (c =? ch "h") || (c =? ch "l") || (c =? ch "L") || (c =? ch "Z") then
    let fmt := tl fmt in
    if (c =? ch "l") && (deref fmt =? ch "l") then (ch "L", tl fmt) else (c, fmt)
  else (-1, fmt)%bool.

Definition parse_spec (fmt : list Z) (args : list varg) : option (fspec * list varg) :=
  let '(flags, fmt) := parse_flags fmt 0 in
  '(width, flags, fmt, args) ← parse_width fmt flags args;
  '(precision, fmt, args) ← parse_precision fmt args;
  let '(qualifier, fmt) := parse_qualifier fmt in
  Some (mk_fspec flags width precision qualifier (deref fmt) (tl fmt), args).

(** The base and the flags of the integer conversions. *)
Definition conv_base (conv : Z) : option (Z * Z) :=
  if conv =? ch "o" then Some (8, 0)
  else if conv =? ch "X" then Some (16, LARGE)
  else if conv =? ch "x" then Some (16, 0)
  else if (conv =? ch "d") || (conv =? ch "i") then Some (10, SIGN)
  else if conv =? ch "u" then Some (10, 0)
  else None%bool.

(** The integer argument in the type the qualifier names. *)
Definition va_num (flags qualifier : Z) (args : list varg) : option (Z * list varg) :=
  if qualifier =? ch "L" then
    match args with VLong z :: args => Some (s64 z, args) | _ => None end
  else match args with
       | VWord z :: args =>
           Some (if qualifier =? ch "l" then (if flags & SIGN then s32 z else u32 z)
                 else if qualifier =? ch "Z" then u32 z
                 else if qualifier =? ch "h" then (if flags & SIGN then s16 (u16 z) else u16 z)
                 else if flags & SIGN then s32 (u32 z) else u32 z, args)
       | _ => None
       end.

(** [strnlen] with the precision as a [size_t]. *)
Definition strnlen (s : list Z) (precision : Z) : Z := Z.min (Z.of_nat (length s)) (u32 precision).

Definition get_args : OM (list varg) := λ s, Some (o_args s, s).
Definition lift_o {A} (o : option (A * list varg)) : OM A := λ s,
  match o with None => None | Some (a, args) => Some (a, mk_ostate (o_str s) (o_mem s) args (o_count s)) end.

(** [while (--field_width > 0)] is [while (1 < field_width--)] shifted by one. *)
Definition conv_c (end_ : Z) (f : fspec) : OM unit :=
  w ← (if negb (f_flags f & LEFT) then pad end_ 1 (f_width f) (ch " ") else mret (f_width f));
  args ← get_args;
  c ← lift_o (va_int args);
  put end_ (u8 c);;
  _ ← pad end_ 1 w (ch " ");
  mret tt.

Definition conv_s (end_ : Z) (f : fspec) : OM unit :=
  args ← get_args;
  s ← lift_o (match args with VStr s :: args => Some (default (cs "<NULL>") s, args) | _ => None end);
  let len := strnlen s (f_precision f) in
  w ← (if negb (f_flags f & LEFT) then pad end_ len (f_width f) (ch " ") else mret (f_width f));
  put_list end_ (take (Z.to_nat len) s);;
  _ ← pad end_ len w (ch " ");
  mret tt.

Definition conv_p (end_ : Z) (f : fspec) : OM unit :=
  args ← get_args;
  v ← lift_o (va_int args);
  if f_width f =? -1 then number end_ (u32 v) 16 8 (f_precision f) (Z.lor (f_flags f) ZEROPAD)
  else number end_ (u32 v) 16 (f_width f) (f_precision f) (f_flags f).

(** [%n] stores the count through a pointer argument. *)
Definition note_count (buf : Z) : OM unit := λ s,
  Some (tt, mk_ostate (o_str s) (o_mem s) (o_args s) (o_count s ++ [s32 (o_str s - buf)])).

Definition conv_n (buf : Z) : OM unit :=
  args ← get_args;
  _ ← lift_o (va_int args);
  note_count buf.

(** An unknown conversion is copied. *)
Definition conv_other (end_ : Z) (f : fspec) : OM unit :=
  put end_ (ch "%");;
  if negb (f_conv f =? 0) then put end_ (f_conv f) else mret tt.

Definition convert (buf end_ : Z) (f : fspec) : OM unit :=
  if f_conv f =? ch "c" then conv_c end_ f
  else if f_conv f =? ch "s" then conv_s end_ f
  else if f_conv f =? ch "p" then conv_p end_ f
  else if f_conv f =? ch "n" then conv_n buf
  else if f_conv f =? ch "%" then put end_ (ch "%")
  else match conv_base (f_conv f) with
       | None => conv_other end_ f
       | Some (base, fl) =>
           let flags := Z.lor (f_flags f) fl in
           args ← get_args;
           num ← lift_o (va_num flags (f_qualifier f) args);
           number end_ num base (f_width f) (f_precision f) flags
       end.

(** The loop over the format; each round takes at least one character of it. *)
Fixpoint format_loop (fuel : nat) (buf end_ : Z) (fmt : list Z) : OM unit :=
  match fuel with
  | O => λ _, None
  | S fuel =>
      match fmt with
      | [] => mret tt
      | c :: fmt =>
          if negb (c =? ch "%") then put end_ c;; format_loop fuel buf end_ fmt
          else
            args ← get_args;
            f ← lift_o (parse_spec fmt args);
            convert buf end_ f;;
            format_loop fuel buf end_ (f_rest f)
      end
  end.

(** The result, the memory, and what [%n] stored. *)
Definition vsnprintf (buf size : Z) (fmt : list Z) (args : list varg) (mem : gmap Z Z) : option (Z * gmap Z Z * list Z) :=
  let end_ := u32 (buf + size - 1) in
  let '(end_, size) := if end_ <? u32 (buf - 1) then (0xffffffff, u32 (0xffffffff - buf + 1)) else (end_, size) in
  '(_, s) ← format_loop (S (length fmt)) buf end_ fmt (mk_ostate buf mem args []);
  let mem := if o_str s <=? end_ then <[o_str s := 0]> (o_mem s)
             else if size >? 0 then <[end_ := 0]> (o_mem s) else o_mem s in
  Some (s32 (o_str s - buf), mem, o_count s).

Definition snprintf (buf size : Z) (fmt : list Z) (args : list varg) (mem : gmap Z Z) := vsnprintf buf size fmt args mem.
Definition vsprintf (buf : Z) (fmt : list Z) (args : list varg) (mem : gmap Z Z) := vsnprintf buf 0xffffffff fmt args mem.
Definition sprintf (buf : Z) (fmt : list Z) (args : list varg) (mem : gmap Z Z) := vsprintf buf fmt args mem.
