(* ===== verification/FormatProofs.v ===== *)
(** Formatting (Format.v) against a reference: what [number] and [vsnprintf]
    print as plain text, and the clipping to the buffer. *)
From Stdlib Require Import Ascii.
From S2P Require Import Prelude Format.
From stdpp Require Import list options.
#[local] Set Default Proof Using "Type*".
Open Scope cint_scope.
Open Scope Z_scope.

(** * Emitting text *)

Definition emit1 (end_ c : Z) (s : ostate) : ostate :=
  mk_ostate (u32 (o_str s + 1)) (if o_str s <=? end_ then <[o_str s := c]> (o_mem s) else o_mem s) (o_args s) (o_count s).
Fixpoint emits (end_ : Z) (l : list Z) (s : ostate) : ostate :=
  match l with
  | [] => s
  | c :: l => emits end_ l (emit1 end_ c s)
  end.

Lemma emits_app end_ l k s : emits end_ (l ++ k) s = emits end_ k (emits end_ l s).
Proof. revert s. induction l as [|c l IH]; intros s; [done|]. cbn [app emits]. apply IH. Qed.

Lemma emits_args end_ l s : o_args (emits end_ l s) = o_args s.
Proof. revert s. induction l as [|c l IH]; intros s; [done|]. cbn [emits]. by rewrite IH. Qed.

Lemma emits_count end_ l s : o_count (emits end_ l s) = o_count s.
Proof. revert s. induction l as [|c l IH]; intros s; [done|]. cbn [emits]. by rewrite IH. Qed.

Lemma put_run end_ c s : put end_ c s = Some (tt, emits end_ [c] s).
Proof. done. Qed.

Lemma put_list_run end_ l s : put_list end_ l s = Some (tt, emits end_ l s).
Proof. revert s. induction l as [|c l IH]; intros s; [done|]. cbn [put_list emits]. erewrite es_bind by apply put_run. apply IH. Qed.

Lemma pad_loop_run fuel end_ lim n c s :
  - 2 ^ 30 <= lim → - 2 ^ 30 <= n < 2 ^ 31 → (Z.to_nat (n - lim) < fuel)%nat →
  pad_loop fuel end_ lim n c s = Some (Z.min n lim - 1, emits end_ (replicate (Z.to_nat (n - lim)) c) s).
Proof.
  intros Hl. revert n s. induction fuel as [|fuel IH]; intros n s Hn Hf; [lia|]. cbn [pad_loop].
  destruct (Z.ltb_spec lim n).
  - erewrite es_bind by apply put_run. rewrite s32_small by (change 2147483648 with (2 ^ 31); lia). rewrite IH by lia.
    replace (Z.to_nat (n - lim)) with (S (Z.to_nat (n - 1 - lim))) by lia. cbn [replicate emits].
    do 2 f_equal. lia.
  - replace (Z.to_nat (n - lim)) with 0%nat by lia. cbn [replicate emits].
    rewrite s32_small by (change 2147483648 with (2 ^ 31); lia). unfold mret, ES_ret. do 2 f_equal. lia.
Qed.

Lemma pad_run end_ lim n c s :
  - 2 ^ 30 <= lim → - 2 ^ 30 <= n < 2 ^ 31 →
  pad end_ lim n c s = Some (Z.min n lim - 1, emits end_ (replicate (Z.to_nat (n - lim)) c) s).
Proof. intros Hl Hn. apply pad_loop_run; [done|done|lia]. Qed.

(** * Digits *)

Lemma do_div_correct n base : 0 <= n < 2 ^ 64 → 0 < base → do_div n base = (n / base, n mod base).
Proof.
  intros Hn Hb. unfold do_div. set (low := n mod 2 ^ 32). set (high := n / 2 ^ 32).
  assert (n = high * 2 ^ 32 + low) as Hsplit by (unfold high, low; rewrite (Z.div_mod n (2 ^ 32)) at 1 by lia; lia).
  assert (0 <= low < 2 ^ 32) as Hlow by (apply Z.mod_pos_bound; lia).
  assert (0 <= high) as Hhigh by (apply Z.div_pos; lia).
  assert ((if negb (high =? 0) then high mod base else high) = high mod base) as ->.
  { destruct (Z.eqb_spec high 0) as [->|]; [|done]. by rewrite Z.mod_0_l by lia. }
  assert ((if negb (high =? 0) then high / base else high) = high / base) as ->.
  { destruct (Z.eqb_spec high 0) as [->|]; [|done]. by rewrite Z.div_0_l by lia. }
  clearbody low high. assert (n = (high / base * 2 ^ 32) * base + (high mod base * 2 ^ 32 + low)) as ->.
  { rewrite Hsplit at 1. rewrite (Z.div_mod high base) at 1 by lia. lia. }
  f_equal; [by rewrite Z.div_add_l by lia|]. by rewrite (Z.add_comm (_ * base)), Z.mod_add by lia.
Qed.

(** The digits of a number, the most significant first: the reference. *)
Fixpoint to_digits (fuel : nat) (base n : Z) (acc : list Z) : list Z :=
  match fuel with
  | O => acc
  | S fuel => if n =? 0 then acc else to_digits fuel base (n / base) (n mod base :: acc)
  end.
Definition num_digits (base n : Z) : list Z := if n =? 0 then [0] else to_digits 64 base n [].

Definition digit_char (digits : list Z) (d : Z) : Z := nth (Z.to_nat d) digits 0.

Lemma digits_loop_run fuel digits n base acc :
  0 <= n < 2 ^ 64 → 1 < base →
  rev (digits_loop fuel digits n base) ++ map (digit_char digits) acc = map (digit_char digits) (to_digits fuel base n acc).
Proof.
  intros Hn Hb. revert n Hn acc. induction fuel as [|fuel IH]; intros n Hn acc; [done|]. cbn [digits_loop to_digits].
  destruct (n =? 0) eqn:E; [done|]. rewrite do_div_correct by lia. cbn [rev]. rewrite <-app_assoc. cbn [app].
  rewrite <-IH; [done|]. split; [apply Z.div_pos; lia|]. apply Z.div_lt_upper_bound; nia.
Qed.

Lemma tmp_digits digits n base :
  0 <= n < 2 ^ 64 → 1 < base → digit_char digits 0 = ch "0" →
  rev (if n =? 0 then [ch "0"] else digits_loop 64 digits n base) = map (digit_char digits) (num_digits base n).
Proof.
  intros Hn Hb H0. unfold num_digits. destruct (n =? 0); [cbn; by rewrite H0|].
  rewrite <-digits_loop_run by done. by rewrite app_nil_r.
Qed.

(** * Numbers *)

Definition spaces (n : Z) : list Z := replicate (Z.to_nat n) (ch " ").
Definition zeros (n : Z) : list Z := replicate (Z.to_nat n) (ch "0").

(** What [number] is to print. *)
Definition num_text (num base size precision type : Z) : list Z :=
  let alphabet := if type & LARGE then large_digits else small_digits in
  let sign := if type & SIGN then
                if num <? 0 then [ch "-"] else if type & PLUS then [ch "+"] else if type & SPACE then [ch " "] else []
              else [] in
  let value := if type & SIGN then Z.abs num else u64 num in
  let prefix := if type & SPECIAL then
                  if base =? 8 then [ch "0"] else if base =? 16 then [ch "0"; nth 33 alphabet 0] else []
                else [] in
  let ds := map (digit_char alphabet) (num_digits base value) in
  let body := zeros (precision - Z.of_nat (length ds)) ++ ds in
  let room := size - Z.of_nat (length (sign ++ prefix ++ body)) in
  if type & LEFT then sign ++ prefix ++ body ++ spaces room
  else if type & ZEROPAD then sign ++ prefix ++ zeros room ++ body
  else spaces room ++ sign ++ prefix ++ body.

Lemma length_num_digits base n : (length (num_digits base n) <= 64)%nat.
Proof.
  assert (∀ fuel m acc, length (to_digits fuel base m acc) <= fuel + length acc)%nat as Hl.
  { induction fuel as [|fuel IH]; intros m acc; cbn [to_digits]; [lia|]. destruct (m =? 0); [lia|].
    specialize (IH (m / base) (m mod base :: acc)). cbn [length] in IH. lia. }
  unfold num_digits. destruct (n =? 0); [cbn; lia|]. specialize (Hl 64%nat n []). cbn [length] in Hl. lia.
Qed.

(** The sign part of the code. *)
Definition sign_list (sign : Z) : list Z := if sign =? 0 then [] else [sign].

Lemma u64_s64 x : u64 (s64 x) = u64 x.
Proof.
  unfold u64, s64. rewrite Zminus_mod_idemp_l. f_equal. lia.
Qed.

Lemma s64_small x : - 2 ^ 63 <= x < 2 ^ 63 → s64 x = x.
Proof. intros Hx. unfold s64. rewrite Z.mod_small by lia. lia. Qed.

Lemma u64_small x : 0 <= x < 2 ^ 64 → u64 x = x.
Proof. intros. unfold u64. by apply Z.mod_small. Qed.

Lemma u64_zero x : - 2 ^ 63 <= x < 2 ^ 63 → (u64 x =? 0) = (x =? 0).
Proof.
  intros Hx. destruct (decide (0 <= x)); [by rewrite u64_small by lia|].
  assert (u64 x = x + 2 ^ 64) as -> by (unfold u64; rewrite <-(Z.mod_add x 1) by lia; rewrite Z.mod_small; lia).
  destruct (Z.eqb_spec (x + 2 ^ 64) 0), (Z.eqb_spec x 0); lia.
Qed.

Lemma number_sign_run num size type :
  - 2 ^ 63 <= num < 2 ^ 63 → -1 <= size < 2 ^ 30 →
  let sign := if type & SIGN then
                if num <? 0 then [ch "-"] else if type & PLUS then [ch "+"] else if type & SPACE then [ch " "] else []
              else [] in
  let value := if type & SIGN then Z.abs num else u64 num in
  ∃ c num', number_sign num size type = (c, num', size - Z.of_nat (length sign)) ∧ sign_list c = sign ∧ u64 num' = value ∧
    (num' =? 0) = (value =? 0).
Proof.
  intros Hn Hs sign value. unfold number_sign, sign, value. clear sign value.
  assert (s32 (size - 1) = size - 1) as -> by (apply s32_small; lia).
  destruct (type & SIGN) eqn:E.
  2:{ exists 0, num. rewrite u64_zero by done. split_and!; [cbn; f_equal; lia|done..]. }
  destruct (Z.ltb_spec num 0).
  - exists (ch "-"), (s64 (- num)). rewrite u64_s64. split_and!; [done|done|rewrite u64_small; lia|].
    destruct (Z.eqb_spec (Z.abs num) 0); [lia|]. apply Z.eqb_neq. destruct (decide (num = - 2 ^ 63)) as [->|]; [done|].
    rewrite s64_small by lia. lia.
  - assert (u64 num = Z.abs num ∧ (num =? 0) = (Z.abs num =? 0)) as [Hu Hz] by (rewrite u64_small, Z.abs_eq by lia; done).
    destruct (type & PLUS); [|destruct (type & SPACE)].
    + by exists (ch "+"), num.
    + by exists (ch " "), num.
    + exists 0, num. split_and!; [cbn; f_equal; lia|done..].
Qed.

(** ** Flags *)

Lemma flag_lor x a b : (x & Z.lor a b) = (x & a) || (x & b).
Proof.
  unfold flag. rewrite Z.land_lor_distr_r. destruct (Z.eqb_spec (Z.lor (Z.land x a) (Z.land x b)) 0) as [H|H].
  - apply Z.lor_eq_0_iff in H as [-> ->]. done.
  - destruct (Z.eqb_spec (Z.land x a) 0) as [Ha|]; [|done]. destruct (Z.eqb_spec (Z.land x b) 0) as [Hb|]; [|done].
    by rewrite Ha, Hb in H.
Qed.

Lemma flag_clear x a m : Z.land (Z.lnot a) m = m → ((x &~ a) & m) = (x & m).
Proof. intros H. unfold flag, clear_bits. by rewrite <-Z.land_assoc, H. Qed.

Lemma flag_clear_self x a : ((x &~ a) & a) = false.
Proof. unfold flag, clear_bits. rewrite <-Z.land_assoc, (Z.land_comm (Z.lnot a)), Z.land_lnot_diag, Z.land_0_r. done. Qed.

(** The output part of [number]: padding, sign, prefix and digits. *)
Lemma layout_run end_ (left zero : bool) (sign prefix ds : list Z) (m_sign m_prefix : OM unit) size precision s :
  (∀ s, m_sign s = Some (tt, emits end_ sign s)) → (∀ s, m_prefix s = Some (tt, emits end_ prefix s)) →
  - 2 ^ 10 <= size < 2 ^ 28 → Z.of_nat (length ds) <= precision < 2 ^ 28 →
  let room := size - precision in
  (size' ← (if negb (zero || left) then pad end_ 0 room (ch " ") else mret room);
   m_sign;;
   m_prefix;;
   size' ← (if negb left then pad end_ 0 size' (if zero then ch "0" else ch " ") else mret size');
   _ ← pad end_ (Z.of_nat (length ds)) precision (ch "0");
   put_list end_ ds;;
   _ ← pad end_ 0 size' (ch " ");
   mret tt) s =
  Some (tt, emits end_
    (let body := zeros (precision - Z.of_nat (length ds)) ++ ds in
     if left then sign ++ prefix ++ body ++ spaces room
     else if zero then sign ++ prefix ++ zeros room ++ body
     else spaces room ++ sign ++ prefix ++ body) s).
Proof.
  intros Hsign Hprefix Hs Hp room. unfold room. clear room.
  destruct left; [rewrite orb_true_r|destruct zero; cbn [orb negb]]; cbn [negb].
  - do 1 (erewrite es_bind by reflexivity). erewrite es_bind by apply Hsign. erewrite es_bind by apply Hprefix.
    erewrite es_bind by reflexivity. erewrite es_bind by (apply pad_run; lia). erewrite es_bind by apply put_list_run.
    erewrite es_bind by (apply pad_run; lia). unfold mret, ES_ret. rewrite <-!emits_app. unfold spaces, zeros.
    by rewrite Z.sub_0_r, <-!app_assoc.
  - erewrite es_bind by reflexivity. erewrite es_bind by apply Hsign. erewrite es_bind by apply Hprefix.
    erewrite es_bind by (apply pad_run; lia). erewrite es_bind by (apply pad_run; lia). erewrite es_bind by apply put_list_run.
    erewrite es_bind by (apply pad_run; lia). unfold mret, ES_ret. rewrite <-!emits_app. unfold spaces, zeros.
    replace (Z.to_nat (Z.min (size - precision) 0 - 1 - 0)) with 0%nat by lia. rewrite Z.sub_0_r. cbn [replicate].
    by rewrite ?app_nil_r, <-?app_assoc.
  - erewrite es_bind by (apply pad_run; lia). erewrite es_bind by apply Hsign. erewrite es_bind by apply Hprefix.
    erewrite es_bind by (apply pad_run; lia). erewrite es_bind by (apply pad_run; lia). erewrite es_bind by apply put_list_run.
    erewrite es_bind by (apply pad_run; lia). unfold mret, ES_ret. rewrite <-!emits_app. unfold spaces, zeros.
    replace (Z.to_nat (Z.min (size - precision) 0 - 1 - 0)) with 0%nat by lia.
    replace (Z.to_nat (Z.min (Z.min (size - precision) 0 - 1) 0 - 1 - 0)) with 0%nat by lia. rewrite Z.sub_0_r. cbn [replicate].
    by rewrite ?app_nil_r, <-?app_assoc.
Qed.

Definition in_width (z : Z) : Prop := -1 <= z < 2 ^ 28.

Lemma width_left (special : bool) size base alphabet (sign : list Z) :
  -1 <= size < 2 ^ 28 → (length sign <= 1)%nat →
  let prefix := if special then
         if base =? 8 then [ch "0"] else if base =? 16 then [ch "0"; nth 33 alphabet 0] else [] else [] in
  let W := size - Z.of_nat (length sign) - Z.of_nat (length prefix) in
  - 2 ^ 10 <= W < 2 ^ 28 ∧
  (if special then if base =? 16 then s32 (size - Z.of_nat (length sign) - 2)
      else if base =? 8 then s32 (size - Z.of_nat (length sign) - 1) else size - Z.of_nat (length sign)
    else size - Z.of_nat (length sign)) = W.
Proof.
  intros Hs Hl prefix W. unfold W, prefix. destruct special; [|cbn; lia].
  destruct (Z.eqb_spec base 16) as [->|]; [cbn; rewrite s32_small; lia|].
  destruct (base =? 8); cbn; [rewrite s32_small; lia|lia].
Qed.

Lemma number_run end_ num base size precision type s :
  - 2 ^ 63 <= num < 2 ^ 63 → 2 <= base <= 36 → in_width size → in_width precision →
  number end_ num base size precision type s = Some (tt, emits end_ (num_text num base size precision type) s).
Proof.
  intros Hn Hb Hs Hp. unfold number, num_text. cbv zeta.
  set (alphabet := if type & LARGE then large_digits else small_digits).
  set (type' := if type & LEFT then type &~ ZEROPAD else type).
  assert (∀ m, Z.land (Z.lnot ZEROPAD) m = m → (type' & m) = (type & m)) as Hflag.
  { intros m Hm. unfold type'. destruct (type & LEFT); [by apply flag_clear|done]. }
  assert (Hz : (type' & ZEROPAD) = (negb (type & LEFT) && (type & ZEROPAD))%bool).
  { unfold type'. destruct (type & LEFT); [apply flag_clear_self|done]. }
  change (ZEROPAD + LEFT) with (Z.lor ZEROPAD LEFT). rewrite flag_lor, Hz, !Hflag by done.
  destruct ((base <? 2) || (base >? 36))%bool eqn:Hbad; [apply orb_prop in Hbad as [?|?]; to_prop; lia|clear Hbad].
  assert (number_sign num size type' = number_sign num size type) as -> by (unfold number_sign; rewrite !Hflag by done; done).
  destruct (number_sign_run num size type Hn) as (c & num' & -> & Hsign & Hval & Hzero); [unfold in_width in Hs; lia|].
  match type of Hsign with _ = ?l => set (sign := l) in * end.
  match type of Hval with _ = ?v => set (value := v) in * end.
  set (prefix := if type & SPECIAL then
         if base =? 8 then [ch "0"] else if base =? 16 then [ch "0"; nth 33 alphabet 0] else [] else []).
  set (tmp := if num' =? 0 then [ch "0"] else digits_loop 64 alphabet (u64 num') base).
  set (ds := map (digit_char alphabet) (num_digits base value)).
  assert (0 <= value < 2 ^ 64) as Hv by (rewrite <-Hval; apply Z.mod_pos_bound; lia).
  assert (rev tmp = ds) as Hds.
  { unfold tmp. rewrite Hzero, Hval. apply tmp_digits; [done|lia|]. unfold alphabet. by destruct (type & LARGE). }
  assert (length tmp = length ds) as -> by (by rewrite <-Hds, length_rev).
  assert (length ds <= 64)%nat as Hlen by (unfold ds; rewrite length_map; apply length_num_digits).
  set (P := Z.max (Z.of_nat (length ds)) precision).
  assert ((if Z.of_nat (length ds) >? precision then Z.of_nat (length ds) else precision) = P) as ->.
  { unfold P. rewrite Z.gtb_ltb. destruct (Z.ltb_spec precision (Z.of_nat (length ds))); lia. }
  assert (zeros (precision - Z.of_nat (length ds)) = zeros (P - Z.of_nat (length ds))) as -> by (unfold zeros; f_equal; lia).
  assert (length sign <= 1)%nat as Hsl by (rewrite <-Hsign; unfold sign_list; destruct (c =? 0); cbn; lia).
  set (W := size - Z.of_nat (length sign) - Z.of_nat (length prefix)). unfold in_width in *.
  assert (- 2 ^ 10 <= W < 2 ^ 28 ∧ (if type & SPECIAL then if base =? 16 then s32 (size - Z.of_nat (length sign) - 2)
      else if base =? 8 then s32 (size - Z.of_nat (length sign) - 1) else size - Z.of_nat (length sign)
    else size - Z.of_nat (length sign)) = W) as [HW ->] by (by apply width_left).
  assert (s32 (W - P) = W - P) as -> by (apply s32_small; lia).
  assert (size - Z.of_nat (length (sign ++ prefix ++ zeros (P - Z.of_nat (length ds)) ++ ds)) = W - P) as ->.
  { rewrite !length_app. unfold zeros. rewrite length_replicate. lia. }
  rewrite Hds.
  assert (∀ s, (if negb (c =? 0) then put end_ c else mret tt) s = Some (tt, emits end_ sign s)) as Hms.
  { intros s'. rewrite <-Hsign. unfold sign_list. by destruct (c =? 0). }
  assert (∀ s, (if type & SPECIAL then if base =? 8 then put end_ (ch "0")
     else if base =? 16 then put end_ (ch "0");; put end_ (nth 33 alphabet 0) else mret tt else mret tt) s =
     Some (tt, emits end_ prefix s)) as Hmp.
  { intros s'. unfold prefix. destruct (type & SPECIAL); [|done]. destruct (base =? 8); [done|]. by destruct (base =? 16). }
  destruct (type & LEFT) eqn:El, (type & ZEROPAD) eqn:Ez; cbn [negb andb orb].
  - by apply (layout_run end_ true true sign prefix ds); [..|lia].
  - by apply (layout_run end_ true false sign prefix ds); [..|lia].
  - by apply (layout_run end_ false true sign prefix ds); [..|lia].
  - by apply (layout_run end_ false false sign prefix ds); [..|lia].
Qed.

(** * Conversions *)

Definition with_args (args : list varg) (s : ostate) : ostate := mk_ostate (o_str s) (o_mem s) args (o_count s).
Definition add_counts (k : list Z) (s : ostate) : ostate := mk_ostate (o_str s) (o_mem s) (o_args s) (o_count s ++ k).

Lemma emits_with_args end_ l args s : emits end_ l (with_args args s) = with_args args (emits end_ l s).
Proof. revert s. induction l as [|c l IH]; intros s; [done|]. cbn [emits]. by rewrite <-IH. Qed.

Lemma emits_add_counts end_ l k s : emits end_ l (add_counts k s) = add_counts k (emits end_ l s).
Proof. revert s. induction l as [|c l IH]; intros s; [done|]. cbn [emits]. by rewrite <-IH. Qed.

(** Text in a field. *)
Definition justify (flags width : Z) (t : list Z) : list Z :=
  let room := width - Z.of_nat (length t) in
  if flags & LEFT then t ++ spaces room else spaces room ++ t.

(** The text of one conversion, and the arguments left. *)
Definition conv_text (f : fspec) (args : list varg) : option (list Z * list varg) :=
  if f_conv f =? ch "c" then
    '(c, args) ← va_int args; Some (justify (f_flags f) (f_width f) [u8 c], args)
  else if f_conv f =? ch "s" then
    match args with
    | VStr s :: args =>
        let s := default (cs "<NULL>") s in
        Some (justify (f_flags f) (f_width f) (take (Z.to_nat (strnlen s (f_precision f))) s), args)
    | _ => None
    end
  else if f_conv f =? ch "p" then
    '(v, args) ← va_int args;
    Some (if f_width f =? -1 then num_text (u32 v) 16 8 (f_precision f) (Z.lor (f_flags f) ZEROPAD)
          else num_text (u32 v) 16 (f_width f) (f_precision f) (f_flags f), args)
  else if f_conv f =? ch "n" then
    '(_, args) ← va_int args; Some ([], args)
  else if f_conv f =? ch "%" then Some ([ch "%"], args)
  else match conv_base (f_conv f) with
       | None => Some (ch "%" :: (if negb (f_conv f =? 0) then [f_conv f] else []), args)
       | Some (base, fl) =>
           let flags := Z.lor (f_flags f) fl in
           '(num, args) ← va_num flags (f_qualifier f) args;
           Some (num_text num base (f_width f) (f_precision f) flags, args)
       end.

Lemma conv_c_run end_ f s c args' :
  in_width (f_width f) → va_int (o_args s) = Some (c, args') →
  conv_c end_ f s = Some (tt, emits end_ (justify (f_flags f) (f_width f) [u8 c]) (with_args args' s)).
Proof.
  intros Hw Hc. unfold conv_c, justify. unfold in_width in Hw. cbn [length].
  assert (∀ s, lift_o (va_int (o_args s)) s = match va_int (o_args s) with None => None | Some (c, a) => Some (c, with_args a s) end) as Hlift.
  { intros s'. unfold lift_o. by destruct (va_int (o_args s')) as [[]|]. }
  destruct (f_flags f & LEFT); cbn [negb].
  - erewrite es_bind by reflexivity. erewrite es_bind by reflexivity.
    erewrite es_bind by (rewrite Hlift, Hc; reflexivity). erewrite es_bind by apply put_run.
    erewrite es_bind by (apply pad_run; lia). unfold mret, ES_ret. by rewrite <-emits_app.
  - erewrite es_bind by (apply pad_run; lia). erewrite es_bind by reflexivity.
    erewrite es_bind by (rewrite Hlift, emits_args, Hc; reflexivity). erewrite es_bind by apply put_run.
    erewrite es_bind by (apply pad_run; lia). unfold mret, ES_ret.
    replace (Z.to_nat (Z.min (f_width f) 1 - 1 - 1)) with 0%nat by lia. cbn [replicate].
    rewrite <-emits_with_args, <-!emits_app, app_nil_r. done.
Qed.

Lemma conv_s_run end_ f s str args' :
  in_width (f_width f) → Z.of_nat (length (default (cs "<NULL>") str)) < 2 ^ 28 → o_args s = VStr str :: args' →
  conv_s end_ f s = Some (tt, emits end_ (let t := default (cs "<NULL>") str in
    justify (f_flags f) (f_width f) (take (Z.to_nat (strnlen t (f_precision f))) t)) (with_args args' s)).
Proof.
  intros Hw Hl Ha. unfold conv_s, justify. unfold in_width in Hw. cbv zeta. set (t := default (cs "<NULL>") str) in *.
  pose proof (u32_bound (f_precision f)) as Hb.
  assert (0 <= strnlen t (f_precision f) < 2 ^ 28) as Hn by (unfold strnlen; lia).
  assert (Z.of_nat (length (take (Z.to_nat (strnlen t (f_precision f))) t)) = strnlen t (f_precision f)) as ->.
  { rewrite length_take. unfold strnlen in *. lia. }
  erewrite es_bind by reflexivity. rewrite Ha. erewrite es_bind by reflexivity. fold t.
  change (mk_ostate (o_str s) (o_mem s) args' (o_count s)) with (with_args args' s).
  destruct (f_flags f & LEFT); cbn [negb].
  - erewrite es_bind by reflexivity. erewrite es_bind by apply put_list_run.
    erewrite es_bind by (apply pad_run; lia). unfold mret, ES_ret. by rewrite <-emits_app.
  - erewrite es_bind by (apply pad_run; lia). erewrite es_bind by apply put_list_run.
    erewrite es_bind by (apply pad_run; lia). unfold mret, ES_ret.
    replace (Z.to_nat (Z.min (f_width f) (strnlen t (f_precision f)) - 1 - strnlen t (f_precision f))) with 0%nat by lia.
    cbn [replicate]. by rewrite <-!emits_app, app_nil_r.
Qed.

(** The reference covers fields and strings of less than 2^28 characters; the
    widths of the code are [int]s, which longer ones could overflow. *)
Definition fits (f : fspec) (args : list varg) : bool :=
  (-1 <=? f_width f) && (f_width f <? 2 ^ 28) && (-1 <=? f_precision f) && (f_precision f <? 2 ^ 28) &&
  match args with VStr (Some s) :: _ => Z.of_nat (length s) <? 2 ^ 28 | _ => true end.

(** What [%n] adds when [n] characters are out. *)
Definition conv_counts (f : fspec) (n : Z) : list Z := if f_conv f =? ch "n" then [s32 n] else [].

Lemma lift_o_run {A} (o : option (A * list varg)) s :
  lift_o o s = match o with None => None | Some (a, args) => Some (a, with_args args s) end.
Proof. unfold lift_o. by destruct o as [[]|]. Qed.

Lemma va_num_bound flags q args num args' : va_num flags q args = Some (num, args') → - 2 ^ 63 <= num < 2 ^ 63.
Proof.
  assert (∀ z, - 2 ^ 63 <= s64 z < 2 ^ 63) as H64.
  { intros z. unfold s64. pose proof (Z.mod_pos_bound (z + 2 ^ 63) (2 ^ 64)). lia. }
  unfold va_num. destruct (q =? ch "L").
  - destruct args as [|[]]; [done..|intros [= <- <-]; apply H64|done].
  - destruct args as [|[z| |]]; [done| |done..]. intros [= <- <-].
    pose proof (s32_bound z). pose proof (u32_bound z). pose proof (s32_bound (u32 z)). pose proof (u16_bound z).
    assert (- 2 ^ 15 <= s16 (u16 z) < 2 ^ 15) by (unfold s16; pose proof (Z.mod_pos_bound (u16 z + 2 ^ 15) (2 ^ 16)); lia).
    repeat destruct (_ =? _); destruct (flags & SIGN); lia.
Qed.

Lemma conv_base_bound c base fl : conv_base c = Some (base, fl) → 2 <= base <= 36.
Proof. unfold conv_base. intros H. repeat case_match; simplify_eq; lia. Qed.

Lemma no_counts f n s : f_conv f ≠ ch "n" → add_counts (conv_counts f n) s = s.
Proof. intros Hc. unfold conv_counts. destruct (Z.eqb_spec (f_conv f) (ch "n")); [done|]. destruct s. unfold add_counts. cbn. by rewrite app_nil_r. Qed.

(** Every conversion prints its text. *)
Lemma convert_run buf end_ f s t args' :
  fits f (o_args s) = true → conv_text f (o_args s) = Some (t, args') →
  convert buf end_ f s = Some (tt, add_counts (conv_counts f (o_str s - buf)) (emits end_ t (with_args args' s))).
Proof.
  intros Hfits Ht. unfold fits in Hfits. apply andb_prop in Hfits as [Hfits Hstr]. to_prop.
  assert (in_width (f_width f)) as Hw by (split; lia). assert (in_width (f_precision f)) as Hp by (split; lia).
  unfold convert, conv_text in *.
  destruct (Z.eqb_spec (f_conv f) (ch "c")) as [Hc|_].
  { rewrite no_counts by by rewrite Hc. destruct (va_int (o_args s)) as [[c a]|] eqn:Ev; simplify_eq/=. by apply conv_c_run. }
  destruct (Z.eqb_spec (f_conv f) (ch "s")) as [Hc|_].
  { rewrite no_counts by by rewrite Hc. destruct (o_args s) as [|[| |str] a] eqn:Ea; simplify_eq/=. apply conv_s_run; [done| |done].
    destruct str as [str|]; cbn; [by apply Z.ltb_lt|lia]. }
  destruct (Z.eqb_spec (f_conv f) (ch "p")) as [Hc|_].
  { rewrite no_counts by by rewrite Hc. unfold conv_p.
    destruct (va_int (o_args s)) as [[v a]|] eqn:Ev; simplify_eq/=.
    erewrite es_bind by reflexivity. erewrite es_bind by (rewrite lift_o_run, Ev; reflexivity).
    pose proof (u32_bound v). destruct (f_width f =? -1); apply number_run; (lia || done || (split; lia)). }
  destruct (Z.eqb_spec (f_conv f) (ch "n")) as [Hc|Hc].
  { unfold conv_n, conv_counts. rewrite Hc, Z.eqb_refl. destruct (va_int (o_args s)) as [[v a]|] eqn:Ev; simplify_eq/=.
    erewrite es_bind by reflexivity. erewrite es_bind by (rewrite lift_o_run, Ev; reflexivity). done. }
  rewrite no_counts by done. destruct (Z.eqb_spec (f_conv f) (ch "%")) as [_|_].
  { simplify_eq/=. by destruct s. }
  destruct (conv_base (f_conv f)) as [[base fl]|] eqn:Eb.
  - destruct (va_num (Z.lor (f_flags f) fl) (f_qualifier f) (o_args s)) as [[num a]|] eqn:Ev; simplify_eq/=.
    erewrite es_bind by reflexivity. erewrite es_bind by (rewrite lift_o_run, Ev; reflexivity).
    apply number_run; [by eapply va_num_bound|by eapply conv_base_bound|done|done].
  - simplify_eq. unfold conv_other. erewrite es_bind by apply put_run. destruct s.
    destruct (negb (f_conv f =? 0)); done.
Qed.

(** * The loop over the format *)

Lemma length_tl {A} (l : list A) : (length (tl l) <= length l)%nat.
Proof. destruct l; cbn; lia. Qed.

Lemma parse_flags_length fmt flags x r : parse_flags fmt flags = (x, r) → (length r <= length fmt)%nat.
Proof.
  revert flags. induction fmt as [|c fmt IH]; intros flags H; cbn in H; [by simplify_eq|].
  repeat case_match; try (apply IH in H; cbn; lia). by simplify_eq.
Qed.

Lemma skip_atoi_length s i x r : skip_atoi_loop s i = (x, r) → (length r <= length s)%nat.
Proof.
  revert i. induction s as [|c s IH]; intros i H; cbn in H; [by simplify_eq|].
  destruct (isdigit c); [apply IH in H; cbn; lia|by simplify_eq].
Qed.

Lemma parse_width_length fmt flags args x y r a : parse_width fmt flags args = Some (x, y, r, a) → (length r <= length fmt)%nat.
Proof.
  unfold parse_width. pose proof (length_tl fmt). destruct (isdigit (deref fmt)).
  - destruct (skip_atoi fmt) as [w r'] eqn:E. apply skip_atoi_length in E. intros. by simplify_eq.
  - destruct (deref fmt =? ch "*"); [|intros; by simplify_eq]. destruct (va_int args) as [[w a']|]; [|done]. cbn.
    destruct (w <? 0); intros; by simplify_eq.
Qed.

Lemma parse_precision_length fmt args x r a : parse_precision fmt args = Some (x, r, a) → (length r <= length fmt)%nat.
Proof.
  unfold parse_precision. pose proof (length_tl fmt). pose proof (length_tl (tl fmt)).
  destruct (deref fmt =? ch "."); [|intros; by simplify_eq]. destruct (isdigit (deref (tl fmt))).
  - destruct (skip_atoi (tl fmt)) as [w r'] eqn:E. apply skip_atoi_length in E. cbn. intros. simplify_eq. lia.
  - destruct (deref (tl fmt) =? ch "*"); cbn; [|intros; by simplify_eq].
    destruct (va_int args) as [[w a']|]; [|done]. cbn. intros. simplify_eq. lia.
Qed.

Lemma parse_spec_length fmt args f a : parse_spec fmt args = Some (f, a) → (length (f_rest f) <= length fmt)%nat.
Proof.
  unfold parse_spec. destruct (parse_flags fmt 0) as [flags r1] eqn:E1. apply parse_flags_length in E1.
  destruct (parse_width r1 flags args) as [[[[w fl] r2] a2]|] eqn:E2; [|done]. apply parse_width_length in E2. cbn.
  destruct (parse_precision r2 a2) as [[[p r3] a3]|] eqn:E3; [|done]. apply parse_precision_length in E3. cbn.
  unfold parse_qualifier. pose proof (length_tl r3). pose proof (length_tl (tl r3)). pose proof (length_tl (tl (tl r3))).
  repeat case_match; intros; simplify_eq; cbn; lia.
Qed.

(** The reference: the text of a format, and what [%n] stores, [n] characters
    being out already. *)
Fixpoint format_text (fuel : nat) (n : Z) (fmt : list Z) (args : list varg) : option (list Z * list Z) :=
  match fuel with
  | O => None
  | S fuel =>
      match fmt with
      | [] => Some ([], [])
      | c :: fmt =>
          if negb (c =? ch "%") then
            '(t, k) ← format_text fuel (n + 1) fmt args; Some (c :: t, k)
          else
            '(f, args) ← parse_spec fmt args;
            if fits f args then
              '(t, args) ← conv_text f args;
              '(t', k) ← format_text fuel (n + Z.of_nat (length t)) (f_rest f) args;
              Some (t ++ t', conv_counts f n ++ k)
            else None
      end
  end.

Definition text_of (fmt : list Z) (args : list varg) : option (list Z * list Z) := format_text (S (length fmt)) 0 fmt args.

Lemma emits_str end_ l s : 0 <= o_str s < 2 ^ 32 → o_str (emits end_ l s) = u32 (o_str s + Z.of_nat (length l)).
Proof.
  revert s. induction l as [|c l IH]; intros s Hs; cbn [emits length].
  - rewrite Z.add_0_r, u32_small; [done|]. change 4294967296 with (2 ^ 32). lia.
  - rewrite IH by (cbn; apply u32_bound). cbn. rewrite u32_add. f_equal. lia.
Qed.

Lemma conv_counts_shift f buf n : conv_counts f (u32 (buf + n) - buf) = conv_counts f n.
Proof.
  unfold conv_counts. destruct (_ =? _); [|done]. f_equal.
  replace (u32 (buf + n) - buf) with (- buf + u32 (buf + n)) by lia. rewrite s32_u32. f_equal. lia.
Qed.

Lemma emits_twice end_ t1 t2 k1 k2 a0 a1 a s :
  with_args a (add_counts k2 (emits end_ t2 (add_counts k1 (emits end_ t1 (with_args a1 (with_args a0 s)))))) =
  with_args a (add_counts (k1 ++ k2) (emits end_ (t1 ++ t2) s)).
Proof.
  rewrite emits_add_counts, !emits_with_args, emits_app. destruct (emits end_ t2 (emits end_ t1 s)).
  unfold with_args, add_counts. cbn. by rewrite app_assoc.
Qed.

Lemma format_loop_run fuel buf end_ fmt n s t k :
  0 <= buf < 2 ^ 32 → o_str s = u32 (buf + n) → format_text fuel n fmt (o_args s) = Some (t, k) →
  ∃ args, format_loop fuel buf end_ fmt s = Some (tt, with_args args (add_counts k (emits end_ t s))).
Proof.
  intros Hbuf. revert n fmt s t k. induction fuel as [|fuel IH]; intros n fmt s t k Hs Ht; [done|].
  destruct fmt as [|c fmt]; cbn [format_loop format_text] in *.
  { simplify_eq. exists (o_args s). destruct s. unfold add_counts, with_args. cbn. by rewrite app_nil_r. }
  pose proof (u32_bound (buf + n)) as Hb. rewrite <-Hs in Hb.
  destruct (negb (c =? ch "%")).
  - destruct (format_text fuel (n + 1) fmt (o_args s)) as [[t' k']|] eqn:E; [|done]. cbn in Ht. simplify_eq.
    erewrite es_bind by apply put_run. apply (IH (n + 1) fmt (emit1 end_ c s)); [|done]. cbn. rewrite Hs, u32_add. f_equal. lia.
  - destruct (parse_spec fmt (o_args s)) as [[f a]|] eqn:Ep; [|done]. cbn in Ht.
    destruct (fits f a) eqn:Ef; [|done]. destruct (conv_text f a) as [[t1 a1]|] eqn:Ec; [|done]. cbn in Ht.
    destruct (format_text fuel (n + Z.of_nat (length t1)) (f_rest f) a1) as [[t2 k2]|] eqn:E; [|done]. cbn in Ht. simplify_eq.
    erewrite es_bind by reflexivity. erewrite es_bind by (rewrite lift_o_run, Ep; reflexivity).
    erewrite es_bind by by apply (convert_run buf end_ f (with_args a s) t1 a1).
    set (s1 := add_counts _ _).
    destruct (IH (n + Z.of_nat (length t1)) (f_rest f) s1 t2 k2) as [args Hrun].
    + unfold s1. cbn. rewrite emits_str by (cbn; change 4294967296 with (2 ^ 32) in Hb; lia). cbn.
      rewrite Hs, u32_add. f_equal. lia.
    + unfold s1. cbn. by rewrite emits_args.
    + exists args. rewrite Hrun. do 2 f_equal. unfold s1. cbn [o_str with_args]. rewrite Hs, conv_counts_shift. apply emits_twice.
Qed.
