(* ===== verification/Scan.v ===== *)
(** Parsing text: [vsscanf] of lib/vsprintf.c and the option parsers of
    lib/cmdline.c. *)
From Stdlib Require Import Ascii.
From S2P Require Import Prelude Format.
From stdpp Require Import list options.
Open Scope cint_scope.
Open Scope Z_scope.

(** * [vsscanf] *)

(** What is stored through a pointer argument: characters without a NUL, a
    string with it, or a number in the type of the conversion. *)
Inductive sval :=
  | SvChars (l : list Z)
  | SvStr (l : list Z)
  | SvNum (z : Z).

Record sstate := mk_sstate {
  s_fmt : list Z;
  s_str : list Z;
  s_width : Z;          (* field_width, not reset between conversions *)
  s_num : Z;            (* conversions done *)
  s_out : list sval     (* what was stored, in order *)
}.

Fixpoint skip_while (p : Z → bool) (s : list Z) : list Z :=
  match s with
  | [] => []
  | c :: s' => if p c then skip_while p s' else s
  end.

(** The copy of [%c], which tests the width after each character; with the width
    left and what was copied. *)
Fixpoint copy_chars (str : list Z) (w : Z) : list Z * list Z * Z :=
  match str with
  | [] => ([], [], w)
  | c :: str' =>
      if w >? 0 then
        match str' with
        | [] => ([c], [], s32 (w - 1))
        | _ => let '(l, r, w') := copy_chars str' (s32 (w - 1)) in (c :: l, r, w')
        end
      else ([c], str', s32 (w - 1))
  end.

(** The copy of a word. *)
Fixpoint copy_word (str : list Z) (w : Z) : list Z * list Z * Z :=
  match str with
  | [] => ([], [], w)
  | c :: str' =>
      if isspace c then ([], str, w)
      else if w =? 0 then ([], str, s32 (w - 1))
      else let '(l, r, w') := copy_word str' (s32 (w - 1)) in (c :: l, r, w')
  end.

(** The number at the start of [str] in the type the qualifier names. *)
Definition scan_num (qualifier base : Z) (is_sign : bool) (str : list Z) : Z * list Z :=
  if qualifier =? ch "h" then
    if is_sign then let '(v, next) := simple_strtol str base in (s16 v, next)
    else let '(v, next) := simple_strtoul str base in (u16 v, next)
  else if qualifier =? ch "l" then
    if is_sign then simple_strtol str base else simple_strtoul str base
  else if qualifier =? ch "L" then
    if is_sign then simple_strtoll str base else simple_strtoull str base
  else if qualifier =? ch "Z" then simple_strtoul str base
  else if is_sign then simple_strtol str base else simple_strtoul str base.

(** The qualifier of a conversion; unlike [vsnprintf] it knows no [ll]. *)
Definition scan_qualifier (fmt : list Z) : Z * list Z :=
  let c := deref fmt in
  if (c =? ch "h") || (c =? ch "l") || (c =? ch "L") || (c =? ch "Z") then (c, tl fmt) else (-1, fmt)%bool.

(** How a round of the loop ends: the scan goes on, or it is over with the
    number of conversions. *)
Inductive round :=
  | Again (s : sstate)
  | Over (num : Z) (out : list sval).

Definition scan_convert (buf : list Z) (qualifier w : Z) (fmt str : list Z) (s : sstate) : round :=
  let c := deref fmt in
  let fmt := tl fmt in
  if c =? ch "c" then
    let '(l, str, w) := copy_chars str (if w =? -1 then 1 else w) in
    Again (mk_sstate fmt str w (s_num s + 1) (s_out s ++ [SvChars l]))
  else if c =? ch "s" then
    let '(l, str, w) := copy_word (skip_while isspace str) (if w =? -1 then 0x7fffffff else w) in
    Again (mk_sstate fmt str w (s_num s + 1) (s_out s ++ [SvStr l]))
  else if c =? ch "n" then
    Again (mk_sstate fmt str w (s_num s) (s_out s ++ [SvNum (Z.of_nat (length buf) - Z.of_nat (length str))]))
  else if c =? ch "%" then
    if negb (deref str =? ch "%") then Over (s_num s) (s_out s)
    else Again (mk_sstate fmt (tl str) w (s_num s) (s_out s))
  else
    match (if c =? ch "o" then Some (8, false)
           else if (c =? ch "x") || (c =? ch "X") then Some (16, false)
           else if (c =? ch "d") || (c =? ch "i") then Some (10, true)
           else if c =? ch "u" then Some (10, false) else None)%bool with
    | None => Over (s_num s) (s_out s)
    | Some (base, is_sign) =>
        let str := skip_while isspace str in
        if (deref str =? 0) || negb (isdigit (deref str)) then Over (s_num s) (s_out s)
        else let '(v, next) := scan_num qualifier base is_sign str in
             Again (mk_sstate fmt next w (s_num s + 1) (s_out s ++ [SvNum v]))
    end%bool.

Definition scan_round (buf : list Z) (s : sstate) : round :=
  let '(fmt, str) := if isspace (deref (s_fmt s)) then (skip_while isspace (s_fmt s), skip_while isspace (s_str s))
                     else (s_fmt s, s_str s) in
  if negb (deref fmt =? ch "%") && negb (deref fmt =? 0) then
    if negb (deref fmt =? deref str) then Over (s_num s) (s_out s)
    else Again (mk_sstate (tl fmt) (tl str) (s_width s) (s_num s) (s_out s))
  else if deref fmt =? 0 then Over (s_num s) (s_out s)
  else
    let fmt := tl fmt in
    if deref fmt =? ch "*" then
      let to_space := λ c, negb (isspace c) in
      Again (mk_sstate (skip_while to_space fmt) (skip_while to_space str) (s_width s) (s_num s) (s_out s))
    else
      let '(w, fmt) := if isdigit (deref fmt) then skip_atoi fmt else (s_width s, fmt) in
      let '(qualifier, fmt) := scan_qualifier fmt in
      if (deref fmt =? 0) || (deref str =? 0) then Over (s_num s) (s_out s)
      else scan_convert buf qualifier w fmt str s.

(** Until the format or the string ends; each round takes a character of the format. *)
Fixpoint scan_loop (fuel : nat) (buf : list Z) (s : sstate) : option (Z * list sval) :=
  match fuel with
  | O => None
  | S fuel =>
      if (deref (s_fmt s) =? 0) || (deref (s_str s) =? 0) then Some (s_num s, s_out s)
      else match scan_round buf s with
           | Over num out => Some (num, out)
           | Again s => scan_loop fuel buf s
           end
  end%bool.

Definition vsscanf (buf fmt : list Z) : option (Z * list sval) :=
  scan_loop (S (length fmt)) buf (mk_sstate fmt buf (-1) 0 []).
Definition sscanf (buf fmt : list Z) : option (Z * list sval) := vsscanf buf fmt.

(** * Options *)

(** The result, the [int] stored if one was, and the string left. *)
Definition get_option (str : list Z) : Z * option Z * list Z :=
  if deref str =? 0 then (0, None, str)
  else
    let '(v, str') := simple_strtol str 0 in
    if Nat.eqb (length str') (length str) then (0, Some v, str')
    else if deref str' =? ch "," then (2, Some v, tl str')
    else (1, Some v, str').

(** [ints] is the caller's array, [fuel] its size. *)
Fixpoint get_options_loop (fuel : nat) (str : list Z) (i nints : Z) (ints : list Z) : Z * list Z * list Z :=
  match fuel with
  | O => (i, ints, str)
  | S fuel =>
      if i <? nints then
        let '(res, v, str) := get_option str in
        let ints := match v with Some v => <[Z.to_nat i := v]> ints | None => ints end in
        if res =? 0 then (i, ints, str)
        else if res =? 1 then (i + 1, ints, str)
        else get_options_loop fuel str (i + 1) nints ints
      else (i, ints, str)
  end.

Definition get_options (str : list Z) (nints : Z) (ints : list Z) : list Z * list Z :=
  let '(i, ints, str) := get_options_loop (Z.to_nat nints) str 1 nints ints in
  (str, <[0%nat := i - 1]> ints).

Definition memparse (ptr : list Z) : Z * list Z :=
  let '(ret, retptr) := simple_strtoull ptr 0 in
  let c := deref retptr in
  if (c =? ch "G") || (c =? ch "g") then (u64 (Z.shiftl (u64 (Z.shiftl (u64 (Z.shiftl ret 10)) 10)) 10), tl retptr)
  else if (c =? ch "M") || (c =? ch "m") then (u64 (Z.shiftl (u64 (Z.shiftl ret 10)) 10), tl retptr)
  else if (c =? ch "K") || (c =? ch "k") then (u64 (Z.shiftl ret 10), tl retptr)
  else (ret, retptr)%bool.
