(* ===== verification/ScanProofs.v ===== *)
(** Parsing what was printed: digits and numbers back and forth (Format.v,
    Scan.v). *)
From Stdlib Require Import Ascii.
From S2P Require Import Prelude Format FormatProofs Scan.
From stdpp Require Import list options.
#[local] Set Default Proof Using "Type*".
Open Scope cint_scope.
Open Scope Z_scope.

(** * The value of digits *)

Fixpoint dval (base : Z) (ds : list Z) (acc : Z) : Z :=
  match ds with
  | [] => acc
  | d :: ds => dval base ds (acc * base + d)
  end.

Lemma to_digits_val fuel base n acc :
  1 < base → 0 <= n < base ^ Z.of_nat fuel → dval base (to_digits fuel base n acc) 0 = dval base acc n.
Proof.
  intros Hb. revert n acc. induction fuel as [|fuel IH]; intros n acc Hn; cbn [to_digits].
  - assert (n = 0) as -> by (cbn in Hn; lia). done.
  - destruct (Z.eqb_spec n 0) as [->|Hne]; [done|]. rewrite IH.
    + cbn [dval]. f_equal. rewrite (Z.div_mod n base) at 3 by lia. lia.
    + split; [apply Z.div_pos; lia|]. apply Z.div_lt_upper_bound; [lia|].
      replace (base * base ^ Z.of_nat fuel) with (base ^ Z.of_nat (S fuel)); [lia|].
      rewrite Nat2Z.inj_succ, Z.pow_succ_r by lia. lia.
Qed.

Lemma num_digits_val base n : 1 < base → 0 <= n < 2 ^ 64 → dval base (num_digits base n) 0 = n.
Proof.
  intros Hb Hn. unfold num_digits. destruct (Z.eqb_spec n 0) as [->|]; [done|]. rewrite to_digits_val; [done|done|].
  split; [lia|]. eapply Z.lt_le_trans; [apply Hn|]. apply Z.pow_le_mono_l. lia.
Qed.

Lemma to_digits_bound fuel base n acc :
  1 < base → Forall (λ d, 0 <= d < base) acc → Forall (λ d, 0 <= d < base) (to_digits fuel base n acc).
Proof.
  intros Hb. revert n acc. induction fuel as [|fuel IH]; intros n acc Ha; cbn [to_digits]; [done|].
  destruct (n =? 0); [done|]. apply IH. constructor; [apply Z.mod_pos_bound; lia|done].
Qed.

Lemma num_digits_bound base n : 1 < base → Forall (λ d, 0 <= d < base) (num_digits base n).
Proof.
  intros Hb. unfold num_digits. destruct (n =? 0); [repeat constructor; lia|]. by apply to_digits_bound.
Qed.

(** No leading zeros. *)
Lemma to_digits_head fuel base n acc :
  1 < base → 0 < n < base ^ Z.of_nat fuel → ∃ d ds, to_digits fuel base n acc = d :: ds ∧ 0 < d < base.
Proof.
  intros Hb. revert n acc. induction fuel as [|fuel IH]; intros n acc Hn; [cbn in Hn; lia|]. cbn [to_digits].
  destruct (Z.eqb_spec n 0) as [|_]; [lia|]. pose proof (Z.mod_pos_bound n base).
  destruct (decide (n / base = 0)) as [H0|H0].
  - rewrite H0. rewrite Z.mod_eq, H0 by lia. exists (n - base * 0), acc. split; [by destruct fuel|].
    apply Z.div_small_iff in H0; lia.
  - apply IH. assert (0 <= n / base) by (apply Z.div_pos; lia). split; [lia|]. apply Z.div_lt_upper_bound; [lia|].
    replace (base * base ^ Z.of_nat fuel) with (base ^ Z.of_nat (S fuel)); [lia|].
    rewrite Nat2Z.inj_succ, Z.pow_succ_r by lia. lia.
Qed.

Lemma num_digits_head base n :
  1 < base → 0 < n < 2 ^ 64 → ∃ d ds, num_digits base n = d :: ds ∧ 0 < d < base.
Proof.
  intros Hb Hn. unfold num_digits. destruct (Z.eqb_spec n 0); [lia|]. apply to_digits_head; [done|].
  split; [lia|]. eapply Z.lt_le_trans; [apply Hn|]. apply Z.pow_le_mono_l. lia.
Qed.

(** * Characters *)

Lemma digit_char_ok d : 0 <= d < 16 →
  isxdigit (digit_char small_digits d) = true ∧ digit_value (digit_char small_digits d) = d.
Proof.
  intros Hd.
  pose proof (check_below 16 (λ d, isxdigit (digit_char small_digits d) && (digit_value (digit_char small_digits d) =? d))%bool
    ltac:(by vm_compute) d ltac:(lia)) as H. cbv beta in H.
  apply andb_prop in H as [H1 H2]. to_prop. done.
Qed.

(** A decimal digit is none of the characters the parsers look for. *)
Lemma decimal_char_ok d : 0 <= d < 10 →
  isdigit (digit_char small_digits d) = true ∧ isspace (digit_char small_digits d) = false ∧
  digit_char small_digits d ≠ ch "-" ∧ digit_char small_digits d ≠ 0 ∧ (digit_char small_digits d = ch "0" → d = 0).
Proof.
  intros Hd. pose proof (check_below 10 (λ d, let c := digit_char small_digits d in
    isdigit c && negb (isspace c) && negb (c =? ch "-") && negb (c =? 0) && (negb (c =? ch "0") || (d =? 0)))%bool
    ltac:(by vm_compute) d ltac:(lia)) as H. cbv zeta beta in H. repeat (apply andb_prop in H as [H ?]). to_prop. split_and!; try done.
  intros Heq. apply orb_prop in H0 as [H0|H0]; to_prop; done.
Qed.

(** * Parsing digits *)

(** What follows a number does not continue it. *)
Definition stops (rest : list Z) (base : Z) : Prop :=
  (isxdigit (deref rest) && (digit_value (deref rest) <? base))%bool = false.

Lemma strtoul_loop_digits (wrap : Z → Z) m ds base acc rest :
  (∀ x, wrap x = x mod m) → 0 < m → base <= 16 → Forall (λ d, 0 <= d < base) ds → stops rest base →
  strtoul_loop wrap (map (digit_char small_digits) ds ++ rest) base (wrap acc) = (wrap (dval base ds acc), rest).
Proof.
  intros Hw Hm Hb Hds Hrest. revert acc. induction Hds as [|d ds Hd Hds IH]; intros acc; cbn [map app strtoul_loop dval].
  - destruct rest as [|c rest]; cbn [strtoul_loop]; [done|]. unfold stops in Hrest. cbn [deref hd] in Hrest. by rewrite Hrest.
  - destruct (digit_char_ok d) as [-> ->]; [lia|]. destruct (Z.ltb_spec d base); [|lia]. cbn [andb].
    rewrite <-IH. f_equal. rewrite !Hw. rewrite <-Zplus_mod_idemp_l, Zmult_mod_idemp_l, Zplus_mod_idemp_l. done.
Qed.

(** * Printed numbers *)

Definition print_nat (base n : Z) : list Z := map (digit_char small_digits) (num_digits base n).
Definition print_int (z : Z) : list Z := (if z <? 0 then [ch "-"] else []) ++ print_nat 10 (Z.abs z).

(** Without a width and a precision [number] prints nothing but the number. *)
Lemma num_text_plain num base type :
  (type & LEFT) = false → (type & ZEROPAD) = false → (type & LARGE) = false → (type & (Z.lor PLUS SPACE)) = false →
  num_text num base (-1) (-1) type =
    (if (type & SIGN) && (num <? 0) then [ch "-"] else []) ++
    (if type & SPECIAL then if base =? 8 then [ch "0"] else if base =? 16 then cs "0x" else [] else []) ++
    print_nat base (if type & SIGN then Z.abs num else u64 num).
Proof.
  intros Hl Hz Hu Hp. rewrite flag_lor in Hp. apply orb_false_elim in Hp as [Hp1 Hp2].
  unfold num_text. cbv zeta. rewrite Hl, Hz, Hu, Hp1, Hp2. fold (print_nat base (if type & SIGN then Z.abs num else u64 num)).
  unfold spaces, zeros. rewrite (Z2Nat.nonpos (-1 - Z.of_nat _)) by lia. rewrite (Z2Nat.nonpos (-1 - Z.of_nat _)) by lia.
  cbn [replicate app]. by destruct (type & SIGN), (num <? 0).
Qed.

Lemma text_spec fmt args f args' t :
  parse_spec fmt args = Some (f, args') → fits f args' = true → f_rest f = [] → conv_counts f 0 = [] →
  conv_text f args' = Some (t, []) → text_of (ch "%" :: fmt) args = Some (t, []).
Proof.
  intros Hp Hf Hr Hc Ht. unfold text_of. cbn [length format_text]. change (ch "%" =? ch "%") with true. cbn [negb].
  rewrite Hp. cbn. rewrite Hf, Ht. cbn. rewrite Hr, Hc. cbn. by rewrite app_nil_r.
Qed.

(** The conversions as calls of [number]. *)
Lemma text_number fmt args f num base type t :
  parse_spec fmt args = Some (f, args) → fits f args = true → f_rest f = [] → conv_counts f 0 = [] →
  conv_text f args = Some (num_text num base (-1) (-1) type, []) → num_text num base (-1) (-1) type = t →
  text_of (ch "%" :: fmt) args = Some (t, []).
Proof. intros Hp Hf Hr Hc Ht <-. by eapply text_spec. Qed.

Lemma text_u z : text_of (cs "%u") [VWord z] = Some (print_nat 10 (u32 z), []).
Proof.
  eapply (text_number _ _ _ (u32 z) 10 0); [reflexivity..|]. rewrite num_text_plain by done. pose proof (u32_bound z). cbn -[print_nat u64 u32].
  by rewrite u64_small by lia.
Qed.

Lemma text_x z : text_of (cs "%x") [VWord z] = Some (print_nat 16 (u32 z), []).
Proof.
  eapply (text_number _ _ _ (u32 z) 16 0); [reflexivity..|]. rewrite num_text_plain by done. pose proof (u32_bound z). cbn -[print_nat u64 u32].
  by rewrite u64_small by lia.
Qed.

Lemma text_sharp_x z : text_of (cs "%#x") [VWord z] = Some (cs "0x" ++ print_nat 16 (u32 z), []).
Proof.
  eapply (text_number _ _ _ (u32 z) 16 SPECIAL); [reflexivity..|]. rewrite num_text_plain by done. pose proof (u32_bound z). cbn -[print_nat u64 u32].
  by rewrite u64_small by lia.
Qed.

Lemma text_sharp_o z : text_of (cs "%#o") [VWord z] = Some (ch "0" :: print_nat 8 (u32 z), []).
Proof.
  eapply (text_number _ _ _ (u32 z) 8 SPECIAL); [reflexivity..|]. rewrite num_text_plain by done. pose proof (u32_bound z). cbn -[print_nat u64 u32].
  by rewrite u64_small by lia.
Qed.

Lemma text_d z : text_of (cs "%d") [VWord z] = Some (print_int (s32 z), []).
Proof.
  assert (s32 (u32 z) = s32 z) as Hz by (exact (s32_u32 0 z)).
  eapply (text_number _ _ _ (s32 (u32 z)) 10 SIGN); [reflexivity..|]. rewrite num_text_plain by done. rewrite Hz. done.
Qed.

(** * Parsing them back *)

Lemma strtoul_stop wrap base acc rest : stops rest base → strtoul_loop wrap rest base acc = (acc, rest).
Proof. unfold stops. destruct rest as [|c rest]; [done|]. cbn. by intros ->. Qed.

(** The parsers differ in the type of the result. *)
Definition wraps (wrap : Z → Z) (m : Z) : Prop := (∀ x, wrap x = x mod m) ∧ 0 < m <= 2 ^ 64.

Lemma wraps_u32 : wraps u32 (2 ^ 32).
Proof. split; [done|lia]. Qed.

Lemma wraps_u64 : wraps u64 (2 ^ 64).
Proof. split; [done|lia]. Qed.

Lemma parse_digits wrap m base n rest :
  wraps wrap m → 1 < base <= 16 → 0 <= n < m → stops rest base → strtoul_loop wrap (print_nat base n ++ rest) base 0 = (n, rest).
Proof.
  intros [Hw Hm] Hb Hn Hr. replace 0 with (wrap 0) by (rewrite Hw; apply Z.mod_0_l; lia). unfold print_nat.
  rewrite (strtoul_loop_digits wrap m) by (try done; try lia; apply num_digits_bound; lia).
  rewrite num_digits_val by lia. by rewrite Hw, Z.mod_small.
Qed.

Lemma strtoul_print base n rest :
  1 < base <= 16 → 0 <= n < 2 ^ 32 → stops rest base → simple_strtoul (print_nat base n ++ rest) base = (n, rest).
Proof.
  intros Hb Hn Hr. unfold simple_strtoul, strtoul_base. destruct (Z.eqb_spec base 0); [lia|]. by apply (parse_digits u32 (2 ^ 32) _ _ _ wraps_u32).
Qed.

(** A rest that number_ends a number of any base. *)
Definition number_ends (rest : list Z) : Prop := isxdigit (deref rest) = false ∧ deref rest ≠ ch "x".

Lemma number_ends_stops rest base : number_ends rest → stops rest base.
Proof. intros [H _]. unfold stops. by rewrite H. Qed.

Lemma print_nat_zero base : print_nat base 0 = [ch "0"].
Proof. done. Qed.

Lemma print_nat_head base n :
  1 < base <= 10 → 0 <= n < 2 ^ 64 → ∃ c l, print_nat base n = c :: l ∧
    isdigit c = true ∧ isspace c = false ∧ c ≠ ch "-" ∧ c ≠ 0 ∧ (c = ch "0" → n = 0).
Proof.
  intros Hb Hn. destruct (decide (n = 0)) as [->|].
  - eexists _, []. split; [apply print_nat_zero|]. by split_and!.
  - destruct (num_digits_head base n) as (d & ds & Hd & Hlt); [lia|lia|]. unfold print_nat. rewrite Hd.
    destruct (decimal_char_ok d) as (H1 & H2 & H3 & H4 & H5); [lia|].
    eexists _, _. split; [done|]. split_and!; [done..|]. intros Hc. apply H5 in Hc. lia.
Qed.

(** Base 0 finds the base: decimal, with [0x], or with a leading 0. *)
Definition auto_parse (wrap : Z → Z) (cp : list Z) : Z * list Z :=
  let '(base, cp) := strtoul_base cp 0 in strtoul_loop wrap cp base 0.

Lemma auto_parse_print wrap m n rest : wraps wrap m → 0 <= n < m → number_ends rest →
  auto_parse wrap (print_nat 10 n ++ rest) = (n, rest) ∧
  auto_parse wrap (cs "0x" ++ print_nat 16 n ++ rest) = (n, rest) ∧
  auto_parse wrap (ch "0" :: print_nat 8 n ++ rest) = (n, rest).
Proof.
  intros Hw Hn Hr. destruct (proj2 Hw) as [Hm0 Hm1]. unfold auto_parse, strtoul_base. cbn [Z.eqb]. split_and!.
  - destruct (print_nat_head 10 n) as (c & l & Hc & Hd & _ & _ & _ & H0); [lia|lia|]. rewrite Hc. cbn [app deref hd].
    destruct (Z.eqb_spec c (ch "0")) as [Heq|_].
    + rewrite (H0 Heq) in Hc |- *. rewrite print_nat_zero in Hc. simplify_eq. cbn [app tl]. destruct Hr as [Hx Hne].
      destruct (Z.eqb_spec (deref rest) (ch "x")); [done|]. cbn [andb].
      apply strtoul_stop. by apply number_ends_stops.
    + change (c :: l ++ rest) with ((c :: l) ++ rest). rewrite <-Hc. apply (parse_digits wrap m); [done|lia|done|by apply number_ends_stops].
  - change (deref (cs "0x" ++ print_nat 16 n ++ rest) =? ch "0") with true. cbv iota.
    change (tl (cs "0x" ++ print_nat 16 n ++ rest)) with (ch "x" :: print_nat 16 n ++ rest). change (deref (ch "x" :: print_nat 16 n ++ rest)) with (ch "x"). cbn [tl]. rewrite Z.eqb_refl.
    assert (isxdigit (deref (print_nat 16 n ++ rest)) = true) as ->.
    { unfold print_nat. pose proof (num_digits_bound 16 n ltac:(lia)) as Hb. destruct (num_digits 16 n) as [|d ds] eqn:E.
      - pose proof (num_digits_val 16 n ltac:(lia) ltac:(lia)) as Hv. rewrite E in Hv. cbn in Hv. by subst n.
      - inversion Hb. cbn. by apply digit_char_ok. }
    cbn [andb]. apply (parse_digits wrap m); [done|lia|done|by apply number_ends_stops].
  - change (deref (ch "0" :: print_nat 8 n ++ rest) =? ch "0") with true. cbv iota. cbn [tl].
    destruct (print_nat_head 8 n) as (c & l & Hc & Hd & _); [lia|lia|].
    assert ((deref (print_nat 8 n ++ rest) =? ch "x") = false) as ->.
    { rewrite Hc. cbn. apply Z.eqb_neq. intros ->. by vm_compute in Hd. }
    cbn [andb]. apply (parse_digits wrap m); [done|lia|done|by apply number_ends_stops].
Qed.

Lemma strtoul_auto n rest : 0 <= n < 2 ^ 32 → number_ends rest →
  simple_strtoul (print_nat 10 n ++ rest) 0 = (n, rest) ∧
  simple_strtoul (cs "0x" ++ print_nat 16 n ++ rest) 0 = (n, rest) ∧
  simple_strtoul (ch "0" :: print_nat 8 n ++ rest) 0 = (n, rest).
Proof. exact (auto_parse_print u32 (2 ^ 32) n rest wraps_u32). Qed.

Lemma strtoull_auto n rest : 0 <= n < 2 ^ 64 → number_ends rest → simple_strtoull (print_nat 10 n ++ rest) 0 = (n, rest).
Proof. intros Hn Hr. by destruct (auto_parse_print u64 (2 ^ 64) n rest wraps_u64 Hn Hr) as [? _]. Qed.

Lemma number_ends_nil : number_ends [].
Proof. by split. Qed.

Lemma strtol_print z rest base : - 2 ^ 31 <= z < 2 ^ 31 → number_ends rest → base = 0 ∨ base = 10 →
  simple_strtol (print_int z ++ rest) base = (z, rest).
Proof.
  intros Hz Hr Hb. assert (0 <= Z.abs z < 2 ^ 32) as Ha by lia.
  assert (simple_strtoul (print_nat 10 (Z.abs z) ++ rest) base = (Z.abs z, rest)) as Hu.
  { destruct Hb as [->| ->]; [by apply strtoul_auto|]. apply strtoul_print; [lia|done|by apply number_ends_stops]. }
  unfold print_int, simple_strtol. destruct (Z.ltb_spec z 0); cbn [app].
  - change (deref (ch "-" :: print_nat 10 (Z.abs z) ++ rest) =? ch "-") with true. cbv iota. cbn [tl]. rewrite Hu. f_equal.
    rewrite s32_small by (change 2147483648 with (2 ^ 31); lia). lia.
  - destruct (print_nat_head 10 (Z.abs z)) as (c & l & Hc & _ & _ & Hm & _); [lia|lia|].
    assert ((deref (print_nat 10 (Z.abs z) ++ rest) =? ch "-") = false) as -> by (rewrite Hc; cbn; by apply Z.eqb_neq).
    rewrite Hu. f_equal. rewrite s32_small by (change 2147483648 with (2 ^ 31); lia). lia.
Qed.

Definition scan_number (conv : list Z → Z * list Z) (str : list Z) : round :=
  let str := skip_while isspace str in
  if (deref str =? 0) || negb (isdigit (deref str)) then Over 0 []
  else let '(v, next) := conv str in Again (mk_sstate [] next (-1) 1 [SvNum v])%bool.

Lemma scan_round_u buf str : (deref str =? 0) = false →
  scan_round buf (mk_sstate (cs "%u") str (-1) 0 []) = scan_number (λ s, simple_strtoul s 10) str.
Proof.
  intros H. transitivity (if (deref str =? 0)%Z then Over 0 [] else scan_number (λ s, simple_strtoul s 10) str); [reflexivity|by rewrite H].
Qed.

Lemma scan_round_d buf str : (deref str =? 0) = false →
  scan_round buf (mk_sstate (cs "%d") str (-1) 0 []) = scan_number (λ s, simple_strtol s 10) str.
Proof.
  intros H. transitivity (if (deref str =? 0)%Z then Over 0 [] else scan_number (λ s, simple_strtol s 10) str); [reflexivity|by rewrite H].
Qed.

(** [sscanf] reads a number that is not negative. *)
Lemma sscanf_print (sgn : bool) n :
  0 <= n < 2 ^ 31 → sscanf (print_nat 10 n) (cs (if sgn then "%d" else "%u")) = Some (1, [SvNum n]).
Proof.
  intros Hn. destruct (print_nat_head 10 n) as (c & l & Hc & Hd & Hs & Hm & H0 & _); [lia|lia|].
  assert (simple_strtoul (print_nat 10 n) 10 = (n, [])) as Hu.
  { rewrite <-(app_nil_r (print_nat 10 n)). apply strtoul_print; [lia|lia|done]. }
  assert (simple_strtol (print_nat 10 n) 10 = (n, [])) as Hl.
  { rewrite <-(app_nil_r (print_nat 10 n)). rewrite <-(strtol_print n [] 10) by (lia || apply number_ends_nil || by right).
    unfold print_int. destruct (Z.ltb_spec n 0); [lia|]. by rewrite Z.abs_eq by lia. }
  assert (skip_while isspace (print_nat 10 n) = print_nat 10 n) as Hsk by (rewrite Hc; cbn; by rewrite Hs).
  assert (deref (print_nat 10 n) = c) as Hde by by rewrite Hc.
  assert ((c =? 0) = false) as Hc0 by by apply Z.eqb_neq.
  unfold sscanf, vsscanf. destruct sgn; cbn [length cs scan_loop s_fmt s_str]; rewrite Hde, Hc0;
    [rewrite scan_round_d by by rewrite Hde|rewrite scan_round_u by by rewrite Hde]; unfold scan_number; cbv zeta; rewrite Hsk, Hde, Hc0, Hd; cbn [negb orb].
  - rewrite Hl. done.
  - rewrite Hu. done.
Qed.

(** * Options *)

(** A list of numbers as an option string has it. *)
Fixpoint opts (l : list Z) : list Z :=
  match l with
  | [] => []
  | [x] => print_int x
  | x :: l => print_int x ++ ch "," :: opts l
  end.

Lemma get_option_print x rest :
  - 2 ^ 31 <= x < 2 ^ 31 → number_ends rest →
  get_option (print_int x ++ rest) =
    if deref rest =? ch "," then (2, Some x, tl rest) else (1, Some x, rest).
Proof.
  intros Hx Hr. unfold get_option. rewrite strtol_print by (done || by left).
  destruct (print_nat_head 10 (Z.abs x)) as (c & l & Hc & _ & _ & _ & H0 & _); [lia|lia|].
  assert ((deref (print_int x ++ rest) =? 0) = false) as ->.
  { apply Z.eqb_neq. unfold print_int. destruct (x <? 0); [done|]. by rewrite Hc. }
  assert ((length rest =? length (print_int x ++ rest))%nat = false) as ->; [|done].
  apply Nat.eqb_neq. unfold print_int. rewrite !length_app, Hc. cbn. lia.
Qed.

Lemma get_options_loop_run xs fuel pre old nints :
  Forall (λ x, - 2 ^ 31 <= x < 2 ^ 31) xs → (length xs < fuel)%nat →
  Z.of_nat (length pre + length xs) < nints + 1 → nints <= Z.of_nat (length pre + length old) →
  get_options_loop fuel (opts xs) (Z.of_nat (length pre)) nints (pre ++ old) =
    (Z.of_nat (length pre + length xs), pre ++ xs ++ drop (length xs) old, []).
Proof.
  intros Hxs. revert fuel pre old. induction Hxs as [|x xs Hx Hxs IH]; intros [|fuel] pre old Hf Hn Ho; cbn [length] in *; try lia.
  - cbn [get_options_loop opts drop app]. rewrite Nat.add_0_r.
    destruct (Z.ltb_spec (Z.of_nat (length pre)) nints); [|done]. done.
  - destruct old as [|o old]; [cbn in *; lia|]. cbn [get_options_loop].
    destruct (Z.ltb_spec (Z.of_nat (length pre)) nints); [|lia].
    assert (<[Z.to_nat (Z.of_nat (length pre)) := x]> (pre ++ o :: old) = (pre ++ [x]) ++ old) as Hins.
    { rewrite Nat2Z.id, insert_app_r_alt, Nat.sub_diag by lia. cbn. by rewrite <-app_assoc. }
    destruct xs as [|y xs].
    + cbn [opts]. rewrite <-(app_nil_r (print_int x)), get_option_print by (done || apply number_ends_nil). cbn [deref hd].
      change (0 =? ch ",") with false. cbv iota beta. cbn [Z.eqb]. rewrite Hins, <-app_assoc.
      repeat f_equal; cbn; lia.
    + change (opts (x :: y :: xs)) with (print_int x ++ ch "," :: opts (y :: xs)).
      rewrite get_option_print by (done || by split). change (deref (ch "," :: opts (y :: xs)) =? ch ",") with true.
      cbv iota beta. change (2 =? 0) with false. change (2 =? 1) with false. cbn [tl]. rewrite Hins.
      replace (Z.of_nat (length pre) + 1) with (Z.of_nat (length (pre ++ [x]))) by (rewrite length_app; cbn; lia).
      rewrite IH by (rewrite ?length_app; cbn [length] in *; lia). rewrite length_app, <-!app_assoc.
      replace (length pre + S (length (y :: xs)))%nat with (length pre + length [x] + length (y :: xs))%nat by (cbn; lia). done.
Qed.
