(* ===== verification/FormatThms.v ===== *)
(** What is shown of lib/vsprintf.c and lib/cmdline.c. *)
From Stdlib Require Import Ascii.
From S2P Require Import Prelude Format FormatProofs Scan ScanProofs.
From stdpp Require Import list options.
#[local] Set Default Proof Using "Type*".
Open Scope cint_scope.
Open Scope Z_scope.

(** * The buffer *)

(** What is in memory after text has been emitted that does not wrap. *)
Lemma emits_mem end_ l s a :
  0 <= o_str s → o_str s + Z.of_nat (length l) < 2 ^ 32 →
  o_mem (emits end_ l s) !! a =
    if decide (o_str s <= a < o_str s + Z.of_nat (length l) ∧ a <= end_) then l !! Z.to_nat (a - o_str s) else o_mem s !! a.
Proof.
  revert s. induction l as [|c l IH]; intros s H0 Hlt; cbn [emits length] in *.
  - rewrite decide_False; [done|]. lia.
  - assert (o_str (emit1 end_ c s) = o_str s + 1) as Hs by (cbn; apply u32_small; change 4294967296 with (2 ^ 32); lia).
    rewrite IH, Hs by (rewrite Hs; lia). cbn [o_mem emit1].
    destruct (decide (o_str s + 1 <= a < o_str s + 1 + Z.of_nat (length l) ∧ a <= end_)).
    + rewrite decide_True by lia. by replace (Z.to_nat (a - o_str s)) with (S (Z.to_nat (a - (o_str s + 1)))) by lia.
    + destruct (decide (a = o_str s)) as [->|Hne].
      * destruct (Z.leb_spec (o_str s) end_).
        -- rewrite lookup_insert_eq, decide_True by lia. by rewrite Z.sub_diag.
        -- by rewrite decide_False by lia.
      * rewrite (decide_False (P := o_str s <= a < _ ∧ _)) by lia.
        destruct (o_str s <=? end_); [|done]. by rewrite lookup_insert_ne.
Qed.

(** [mem] holds the string [l] with its NUL at [buf]. *)
Definition string_at (mem : gmap Z Z) (buf : Z) (l : list Z) : Prop :=
  (∀ i c, l !! i = Some c → mem !! (buf + Z.of_nat i) = Some c) ∧ mem !! (buf + Z.of_nat (length l)) = Some 0.

Lemma vsnprintf_run buf size fmt args mem l k end_ size' :
  0 < buf < 2 ^ 32 → text_of fmt args = Some (l, k) → buf + Z.of_nat (length l) < 2 ^ 32 →
  (if u32 (buf + size - 1) <? u32 (buf - 1) then (0xffffffff, u32 (0xffffffff - buf + 1)) else (u32 (buf + size - 1), size)) = (end_, size') →
  ∃ s, o_str s = buf + Z.of_nat (length l) ∧
    (∀ a, o_mem s !! a = if decide (buf <= a < buf + Z.of_nat (length l) ∧ a <= end_) then l !! Z.to_nat (a - buf) else mem !! a) ∧
    vsnprintf buf size fmt args mem = Some (s32 (Z.of_nat (length l)),
      (if o_str s <=? end_ then <[o_str s := 0]> (o_mem s) else if size' >? 0 then <[end_ := 0]> (o_mem s) else o_mem s), k).
Proof.
  intros Hbuf Ht Hlen He. unfold vsnprintf. rewrite He.
  destruct (format_loop_run (S (length fmt)) buf end_ fmt 0 (mk_ostate buf mem args []) l k) as [args' Hrun];
    [lia|rewrite Z.add_0_r, u32_small; [done|]; change 4294967296 with (2 ^ 32); lia|done|].
  rewrite Hrun. cbn. set (s := emits end_ l (mk_ostate buf mem args [])).
  assert (o_str s = buf + Z.of_nat (length l)) as Hs.
  { unfold s. rewrite emits_str by (cbn; lia). cbn. apply u32_small. change 4294967296 with (2 ^ 32). lia. }
  exists s. split; [done|]. split.
  - intros a. unfold s. rewrite emits_mem by (cbn; lia). done.
  - rewrite Hs. do 3 f_equal; [f_equal; lia|]. unfold s. by rewrite emits_count.
Qed.

Lemma vsnprintf_clipped buf size fmt args mem l k :
  0 < buf → 0 <= size → buf + size <= 2 ^ 32 → buf + Z.of_nat (length l) < 2 ^ 32 →
  text_of fmt args = Some (l, k) →
  ∃ mem', vsnprintf buf size fmt args mem = Some (s32 (Z.of_nat (length l)), mem', k) ∧
    (0 < size → string_at mem' buf (take (Z.to_nat (size - 1)) l)) ∧
    (∀ a, ¬ (buf <= a < buf + size) → mem' !! a = mem !! a).
Proof.
  intros Hbuf Hsize Hend Hlen Ht.
  assert (u32 (buf + size - 1) = buf + size - 1 ∧ u32 (buf - 1) = buf - 1) as [E1 E2].
  { split; apply u32_small; change 4294967296 with (2 ^ 32); lia. }
  destruct (vsnprintf_run buf size fmt args mem l k (buf + size - 1) size) as (s & Hs & Hmem & ->); [lia|done|done| |].
  { rewrite E1, E2. destruct (Z.ltb_spec (buf + size - 1) (buf - 1)); [lia|done]. }
  eexists. split; [done|]. rewrite Hs. split.
  - intros Hpos. unfold string_at. rewrite length_take. destruct (Z.leb_spec (buf + Z.of_nat (length l)) (buf + size - 1)).
    + rewrite take_ge by lia. split; [|by rewrite Nat.min_r, lookup_insert_eq by lia].
      intros i c Hi. pose proof (lookup_lt_Some _ _ _ Hi). rewrite lookup_insert_ne, Hmem, decide_True by lia.
      by replace (Z.to_nat (buf + Z.of_nat i - buf)) with i by lia.
    + destruct (Z.gtb_spec size 0); [|lia]. rewrite Nat.min_l by lia. split.
      * intros i c Hi. apply lookup_take_Some in Hi as [Hi Hlt]. pose proof (lookup_lt_Some _ _ _ Hi).
        rewrite lookup_insert_ne, Hmem, decide_True by lia. by replace (Z.to_nat (buf + Z.of_nat i - buf)) with i by lia.
      * replace (buf + Z.of_nat (Z.to_nat (size - 1))) with (buf + size - 1) by lia. apply lookup_insert_eq.
  - intros a Ha. destruct (Z.leb_spec (buf + Z.of_nat (length l)) (buf + size - 1)).
    + by rewrite lookup_insert_ne, Hmem, decide_False by lia.
    + destruct (Z.gtb_spec size 0); [rewrite lookup_insert_ne by lia|]; by rewrite Hmem, decide_False by lia.
Qed.

Lemma sprintf_whole buf fmt args mem l k :
  0 < buf → buf + Z.of_nat (length l) < 2 ^ 32 → text_of fmt args = Some (l, k) →
  ∃ mem', sprintf buf fmt args mem = Some (s32 (Z.of_nat (length l)), mem', k) ∧
    string_at mem' buf l ∧ (∀ a, ¬ (buf <= a <= buf + Z.of_nat (length l)) → mem' !! a = mem !! a).
Proof.
  intros Hbuf Hlen Ht.
  assert (∃ size', (if u32 (buf + 0xffffffff - 1) <? u32 (buf - 1) then (0xffffffff, u32 (0xffffffff - buf + 1))
    else (u32 (buf + 0xffffffff - 1), 0xffffffff)) = (0xffffffff, size')) as [size' He].
  { assert (u32 (buf - 1) = buf - 1) as -> by (apply u32_small; change 4294967296 with (2 ^ 32); lia).
    destruct (decide (buf = 1)) as [->|]; [by eexists|].
    assert (u32 (buf + 0xffffffff - 1) = buf - 2) as ->.
    { replace (buf + 0xffffffff - 1) with (buf - 2 + 1 * 2 ^ 32) by lia. unfold u32. rewrite Z.mod_add by lia. apply Z.mod_small. lia. }
    destruct (Z.ltb_spec (buf - 2) (buf - 1)); [by eexists|lia]. }
  unfold sprintf, vsprintf. destruct (vsnprintf_run buf 0xffffffff fmt args mem l k _ _ ltac:(lia) Ht Hlen He) as (s & Hs & Hmem & ->).
  eexists. split; [done|]. rewrite Hs. destruct (Z.leb_spec (buf + Z.of_nat (length l)) 0xffffffff); [|lia]. split; [split|].
  - intros i c Hi. pose proof (lookup_lt_Some _ _ _ Hi). rewrite lookup_insert_ne, Hmem, decide_True by lia.
    by replace (Z.to_nat (buf + Z.of_nat i - buf)) with i by lia.
  - apply lookup_insert_eq.
  - intros a Ha. by rewrite lookup_insert_ne, Hmem, decide_False by lia.
Qed.

(** C25: for a buffer below the end of memory and a format whose arguments fit
    its conversions, [vsnprintf] returns the length of the whole text, whatever
    the size; it writes the text cut to [size - 1] characters with its NUL, and
    nothing outside the buffer. [sprintf] writes all of it. *)
Theorem vsnprintf_correct buf size fmt args mem l k :
  0 < buf → 0 <= size → buf + size <= 2 ^ 32 → buf + Z.of_nat (length l) < 2 ^ 32 →
  text_of fmt args = Some (l, k) →
  (∃ mem', vsnprintf buf size fmt args mem = Some (s32 (Z.of_nat (length l)), mem', k) ∧
     (0 < size → string_at mem' buf (take (Z.to_nat (size - 1)) l)) ∧
     (∀ a, ¬ (buf <= a < buf + size) → mem' !! a = mem !! a)) ∧
  (∃ mem', sprintf buf fmt args mem = Some (s32 (Z.of_nat (length l)), mem', k) ∧
     string_at mem' buf l ∧ (∀ a, ¬ (buf <= a <= buf + Z.of_nat (length l)) → mem' !! a = mem !! a)).
Proof.
  intros Hbuf Hsize Hend Hlen Ht. split; [by apply vsnprintf_clipped|by apply sprintf_whole].
Qed.


(** * Examples *)

Lemma vsnprintf_correct_witness :
  (∃ mem', vsnprintf 0x1000 8 (cs "<%5d|%s>") [VWord (-42); VStr (Some (cs "port"))] ∅ = Some (12, mem', []) ∧
     string_at mem' 0x1000 (cs "<  -42|")) ∧
  text_of (cs "<%5d|%s>") [VWord (-42); VStr (Some (cs "port"))] = Some (cs "<  -42|port>", []).
Proof.
  assert (text_of (cs "<%5d|%s>") [VWord (-42); VStr (Some (cs "port"))] = Some (cs "<  -42|port>", [])) as Ht by by vm_compute.
  split; [|exact Ht]. destruct (vsnprintf_correct 0x1000 8 (cs "<%5d|%s>") [VWord (-42); VStr (Some (cs "port"))] ∅ (cs "<  -42|port>") [])
    as [(mem' & Hrun & Hstr & _) _]; [lia|lia|lia|cbn; lia|exact Ht|]. exists mem'. split; [exact Hrun|]. by apply Hstr.
Defined.


(** ** What is not read back

    The scanner wants a decimal digit at the start of every number: negative
    numbers and hexadecimals that start with a letter are refused. *)
Lemma sscanf_refuses :
  sscanf (cs "-5") (cs "%d") = Some (0, []) ∧ sscanf (cs "ff") (cs "%x") = Some (0, []).
Proof. by vm_compute. Qed.

(** [%c] stores two characters. *)
Lemma sscanf_two_chars : sscanf (cs "ab") (cs "%c") = Some (1, [SvChars (cs "ab")]).
Proof. by vm_compute. Qed.

(** A field width stays in force for the conversions that follow. *)
Lemma sscanf_width_stays : sscanf (cs "1 word") (cs "%2d%s") = Some (2, [SvNum 1; SvStr (cs "wo")]).
Proof. by vm_compute. Qed.

(** A size of 0 does not keep a [NULL] buffer from being written. *)
Lemma snprintf_null : (λ x, x.1.2 !! 0) <$> snprintf 0 0 (cs "hi") [] ∅ = Some (Some (ch "h")).
Proof. by vm_compute. Qed.
