(* ===== verification/ResourceList.v ===== *)
(** The listing of the resource tree for /proc/ioports and /proc/iomem, and the
    [reserve=] option (kernel/resource.c), on top of formatting (Format.v) and
    the option parser (Scan.v). *)
From Stdlib Require Import Ascii.
From stdpp Require Import functions.
From S2P Require Import Prelude Format FormatProofs Scan ScanProofs FormatThms Resource ResourceProofs ResourceOps ResourceRegion.
From stdpp Require Import list options.
#[local] Set Default Proof Using "Type*".
Open Scope cint_scope.
Open Scope Z_scope.

(** * The listing *)

Definition wide_format : list Z := cs "        %08lx-%08lx : %s" ++ [10].
Definition narrow_format : list Z := cs "        %04lx-%04lx : %s" ++ [10].

(** The result is where the text ends; the memory it is written to is the state. *)
Fixpoint do_resource_list (fuel : nat) (h : gmap Z resource) (entry : Z) (fmt : list Z) (offset buf end_ : Z) :
    ES (gmap Z Z) Z :=
  match fuel with
  | O => λ _, None
  | S fuel =>
      let offset := if offset <? 0 then 0 else offset in
      if entry =? 0 then mret buf
      else match h !! entry with
           | None => λ _, None
           | Some r =>
               if s32 (end_ - buf) <? 80 then mret buf
               else
                 let name := default "<BAD>"%string (res_name r) in
                 n ← (λ mem, '(n, mem, _) ← sprintf buf (drop (Z.to_nat offset) fmt)
                                [VWord (res_start r); VWord (res_end r); VStr (Some (cs name))] mem; Some (n, mem));
                 buf ← (if negb (res_child r =? 0) then do_resource_list fuel h (res_child r) fmt (offset - 2) (u32 (buf + n)) end_
                        else mret (u32 (buf + n)));
                 do_resource_list fuel h (res_sibling r) fmt offset buf end_
           end
  end.

Definition get_resource_list (h : gmap Z resource) (root buf size : Z) : ES (gmap Z Z) Z := λ mem,
  match h !! root with
  | None => None
  | Some r =>
      let fmt := if res_end r <? 0x10000 then narrow_format else wide_format in
      '(endp, mem) ← do_resource_list (S (base.size h) * S (base.size h)) h (res_child r) fmt 8 buf (u32 (buf + size)) mem;
      Some (s32 (endp - buf), mem)
  end.

(** ** One line *)

Lemma format_text_char fuel n c fmt args t k :
  (c =? ch "%") = false → format_text fuel (n + 1) fmt args = Some (t, k) →
  format_text (S fuel) n (c :: fmt) args = Some (c :: t, k).
Proof. intros Hc Ht. cbn [format_text]. rewrite Hc. cbn [negb]. by rewrite Ht. Qed.

Lemma format_text_conv fuel n fmt args f args1 t args2 t' k :
  parse_spec fmt args = Some (f, args1) → fits f args1 = true → conv_text f args1 = Some (t, args2) →
  conv_counts f n = [] →
  format_text fuel (n + Z.of_nat (length t)) (f_rest f) args2 = Some (t', k) →
  format_text (S fuel) n (ch "%" :: fmt) args = Some (t ++ t', k).
Proof.
  intros Hp Hf Ht Hc Ht'. cbn [format_text]. change (ch "%" =? ch "%") with true. cbn [negb]. rewrite Hp. cbn.
  rewrite Hf, Ht. cbn. rewrite Ht', Hc. done.
Qed.

(** A range in hexadecimal, zero-padded to [w] digits. *)
Definition hex (w z : Z) : list Z := num_text (u32 z) 16 w (-1) ZEROPAD.

Lemma core_text w fuel n s e nm :
  w = 8 ∨ w = 4 → Z.of_nat (length nm) < 2 ^ 28 →
  format_text (10 + fuel) n (if w =? 8 then cs "%08lx-%08lx : %s" ++ [10] else cs "%04lx-%04lx : %s" ++ [10])
    [VWord s; VWord e; VStr (Some nm)] =
  Some (hex w s ++ cs "-" ++ hex w e ++ cs " : " ++ justify 0 (-1) (take (Z.to_nat (strnlen nm (-1))) nm) ++ [10], []).
Proof.
  intros Hw Hl.
  assert (∀ f, f_width f = -1 → f_precision f = -1 → fits f [VStr (Some nm)] = true) as Hfit.
  { intros f H1 H2. unfold fits. rewrite H1, H2. cbn. by apply Z.ltb_lt. }
  destruct Hw as [->| ->]; cbn [Z.eqb Pos.eqb].
  all: eapply format_text_conv; [reflexivity..|].
  all: eapply format_text_char; [reflexivity|].
  all: eapply format_text_conv; [reflexivity..|].
  all: do 3 (eapply format_text_char; [reflexivity|]).
  all: eapply format_text_conv; [reflexivity|by apply Hfit|reflexivity|reflexivity|].
  all: eapply format_text_char; [reflexivity|].
  all: reflexivity.
Qed.

Lemma spaces_text m fuel n fmt args t k :
  (∀ n', format_text fuel n' fmt args = Some (t, k)) →
  format_text (m + fuel) n (replicate m (ch " ") ++ fmt) args = Some (replicate m (ch " ") ++ t, k).
Proof. intros Ht. revert n. induction m as [|m IH]; intros n; [apply Ht|]. apply format_text_char; [reflexivity|apply IH]. Qed.

(** The text of a line, and its length. *)
Definition res_line (w o s e : Z) (nm : list Z) : list Z :=
  replicate (Z.to_nat (8 - o)) (ch " ") ++
  hex w s ++ cs "-" ++ hex w e ++ cs " : " ++ justify 0 (-1) (take (Z.to_nat (strnlen nm (-1))) nm) ++ [10].

Lemma line_text w o s e nm :
  w = 8 ∨ w = 4 → 0 <= o <= 8 → Z.of_nat (length nm) < 2 ^ 28 →
  text_of (drop (Z.to_nat o) (if w =? 8 then wide_format else narrow_format)) [VWord s; VWord e; VStr (Some nm)] =
    Some (res_line w o s e nm, []).
Proof.
  intros Hw Ho Hl.
  assert (drop (Z.to_nat o) (if w =? 8 then wide_format else narrow_format) = replicate (Z.to_nat (8 - o)) (ch " ") ++
    (if w =? 8 then cs "%08lx-%08lx : %s" ++ [10] else cs "%04lx-%04lx : %s" ++ [10])) as ->.
  { replace (Z.to_nat (8 - o)) with (8 - Z.to_nat o)%nat by lia. assert (Z.to_nat o <= 8)%nat as Hn by lia. revert Hn.
    generalize (Z.to_nat o). intros m Hm. destruct Hw as [->| ->]; cbn [Z.eqb Pos.eqb];
    do 9 (destruct m as [|m]; [reflexivity|]); lia. }
  unfold text_of. rewrite length_app, length_replicate.
  replace (S (Z.to_nat (8 - o) + length (if w =? 8 then cs "%08lx-%08lx : %s" ++ [10] else cs "%04lx-%04lx : %s" ++ [10])))
    with (Z.to_nat (8 - o) + (10 + 8))%nat by (destruct Hw as [->| ->]; cbn; lia).
  apply spaces_text. intros n'. by apply core_text.
Qed.

Lemma to_digits_length base fuel (k : nat) m acc :
  1 < base → 0 <= m < base ^ Z.of_nat k → (length (to_digits fuel base m acc) <= k + length acc)%nat.
Proof.
  intros Hb. revert k m acc. induction fuel as [|fuel IH]; intros k m acc Hm; cbn [to_digits]; [lia|].
  destruct (Z.eqb_spec m 0) as [->|Hm0]; [lia|]. destruct k as [|k]; [cbn in Hm; lia|].
  rewrite Nat2Z.inj_succ, Z.pow_succ_r in Hm by lia.
  assert (0 <= m / base < base ^ Z.of_nat k) as Hd by (split; [apply Z.div_pos; lia|apply Z.div_lt_upper_bound; nia]).
  pose proof (IH k (m / base) (m mod base :: acc) Hd) as Hl. cbn [length] in Hl. lia.
Qed.

Lemma num_digits_length base n (k : nat) : 1 < base → (1 <= k)%nat → 0 <= n < base ^ Z.of_nat k → (length (num_digits base n) <= k)%nat.
Proof.
  intros Hb Hk Hn. unfold num_digits. destruct (n =? 0); [done|].
  pose proof (to_digits_length base 64 k n [] Hb Hn) as Hl. cbn [length] in Hl. lia.
Qed.

Lemma hex_length w z : w = 8 ∨ w = 4 → (length (hex w z) <= 8)%nat.
Proof.
  intros Hw. unfold hex, num_text. cbv zeta. change (ZEROPAD & SIGN) with false. change (ZEROPAD & LEFT) with false.
  change (ZEROPAD & SPECIAL) with false. change (ZEROPAD & ZEROPAD) with true. change (ZEROPAD & LARGE) with false.
  cbv iota. cbn [app]. pose proof (u32_bound z). rewrite u64_small by lia.
  assert (length (num_digits 16 (u32 z)) <= 8)%nat as Hl by (apply num_digits_length; cbn; lia).
  unfold zeros. rewrite !length_app, !length_replicate, !length_map. destruct Hw; subst; lia.
Qed.

Lemma res_line_length w o s e nm :
  w = 8 ∨ w = 4 → 0 <= o <= 8 → (length (res_line w o s e nm) <= 29 + length nm)%nat.
Proof.
  intros Hw Ho. unfold res_line, justify, spaces. change (0 & LEFT) with false. cbv iota.
  pose proof (hex_length w s Hw). pose proof (hex_length w e Hw).
  repeat rewrite ?length_app, ?length_replicate, ?length_take. cbn [length]. change (length (cs "-")) with 1%nat.
  change (length (cs " : ")) with 3%nat. lia.
Qed.

(** ** The buffer is kept *)

(** Names that fit the 80 characters the code asks for. *)
Definition short_names (h : gmap Z resource) : Prop :=
  ∀ p r, h !! p = Some r → (length (cs (default "<BAD>"%string (res_name r))) <= 50)%nat.

(** Printing one line. *)
Lemma line_run w o r buf end_ mem :
  w = 8 ∨ w = 4 → 0 <= o <= 8 → (length (cs (default "<BAD>"%string (res_name r))) <= 50)%nat →
  0 < buf → end_ < 2 ^ 32 → 80 <= end_ - buf →
  ∃ n mem', sprintf buf (drop (Z.to_nat o) (if w =? 8 then wide_format else narrow_format))
      [VWord (res_start r); VWord (res_end r); VStr (Some (cs (default "<BAD>"%string (res_name r))))] mem = Some (n, mem', []) ∧
    0 <= n < 80 ∧ (∀ a, ¬ (buf <= a < buf + 80) → mem' !! a = mem !! a).
Proof.
  intros Hw Ho Hn Hbuf Hend Hroom. set (nm := cs _) in *.
  pose proof (res_line_length w o (res_start r) (res_end r) nm Hw Ho) as Hl.
  destruct (sprintf_whole buf (drop (Z.to_nat o) (if w =? 8 then wide_format else narrow_format))
    [VWord (res_start r); VWord (res_end r); VStr (Some nm)] mem (res_line w o (res_start r) (res_end r) nm) []) as (mem' & Hrun & _ & Hout);
    [done|lia|apply line_text; [done..|]; change (2 ^ 28) with 268435456; lia|].
  rewrite s32_small in Hrun by lia. do 2 eexists. split; [exact Hrun|]. split; [lia|]. intros a Ha. apply Hout. lia.
Qed.

Section list.
Context (h : gmap Z resource) (K : Z → list Z) (Hinv : res_inv h K) (Hnames : short_names h).

(** The list ends before the buffer does, and only the buffer is written. *)
Definition listed (buf end_ : Z) (mem : gmap Z Z) (out : option (Z * gmap Z Z)) : Prop :=
  ∃ buf' mem', out = Some (buf', mem') ∧ buf <= buf' <= end_ ∧ (∀ a, ¬ (buf <= a < end_) → mem' !! a = mem !! a).

Lemma listed_step buf buf1 end_ mem mem1 out :
  buf <= buf1 → (∀ a, ¬ (buf <= a < end_) → mem1 !! a = mem !! a) → listed buf1 end_ mem1 out → listed buf end_ mem out.
Proof.
  intros Hb Hm (buf' & mem' & -> & ? & Hm'). exists buf', mem'. split; [done|]. split; [lia|].
  intros a Ha. rewrite Hm' by lia. by apply Hm.
Qed.

Lemma do_resource_list_run w n : w = 8 ∨ w = 4 → ∀ l fuel p lo hi entry o buf end_ mem,
  kids h p lo hi entry l → (∀ x, x ∈ l → shallow K n x) → o <= 8 →
  0 < buf <= end_ → end_ < 2 ^ 32 → end_ - buf < 2 ^ 31 → (length l + n * S (base.size h) < fuel)%nat →
  listed buf end_ mem (do_resource_list fuel h entry (if w =? 8 then wide_format else narrow_format) o buf end_ mem).
Proof.
  intros Hw. induction n as [|n IHn]; induction l as [|x l IHl]; intros [|fuel] p lo hi entry o buf end_ mem Hk Hsh Ho Hbuf Hend Hsize Hf;
    try (cbn in Hf; lia); cbn [do_resource_list]; cbv zeta.
  1,3: cbn in Hk; subst entry; cbn [Z.eqb]; exists buf, mem; split; [done|]; split; [lia|done].
  { destruct (Hsh x). left. }
  destruct Hk as (-> & r & Hr & Hp & Hlo & Hhi & Hk).
  destruct (Z.eqb_spec x 0) as [->|_]; [by rewrite (ri_null _ _ Hinv) in Hr|]. rewrite Hr, s32_small by (change 2147483648 with (2 ^ 31); lia).
  destruct (Z.ltb_spec (end_ - buf) 80); [exists buf, mem; split; [done|]; split; [lia|done]|].
  assert (0 <= (if o <? 0 then 0 else o) <= 8) as Ho' by (destruct (Z.ltb_spec o 0); lia).
  destruct (line_run w _ r buf end_ mem Hw Ho' (Hnames x r Hr)) as (m & mem1 & Hrun & Hm & Hout); [lia..|].
  erewrite es_bind by (by rewrite Hrun). rewrite u32_small by (change 4294967296 with (2 ^ 32); lia).
  assert (∀ buf2 mem2, buf + m <= buf2 <= end_ → listed buf2 end_ mem2
    (do_resource_list fuel h (res_sibling r) (if w =? 8 then wide_format else narrow_format) (if o <? 0 then 0 else o) buf2 end_ mem2)) as Hrest.
  { intros buf2 mem2 Hb. apply (IHl fuel p _ _ _ _ _ _ _ Hk); [intros y Hy; apply Hsh; by right|lia..|cbn in Hf; lia]. }
  apply (listed_step buf (buf + m) end_ mem mem1); [lia|intros a Ha; apply Hout; lia|].
  destruct (res_child r =? 0); cbn [negb].
  - erewrite es_bind by done. by apply Hrest; lia.
  - pose proof (ri_kids _ _ Hinv _ _ Hr) as Hkx. pose proof (kids_size _ _ _ _ _ _ Hkx) as Hsz.
    destruct (IHn (K x) fuel x _ _ _ ((if o <? 0 then 0 else o) - 2) (buf + m) end_ mem1 Hkx) as (buf2 & mem2 & Hc & Hb2 & Hm2);
      [intros y Hy; apply (Hsh x); [left|done]|lia..|cbn [length] in Hf; lia|].
    erewrite es_bind by exact Hc. apply (listed_step (buf + m) buf2 end_ mem1 mem2); [lia|exact Hm2|]. apply Hrest. lia.
Qed.

Lemma get_resource_list_run root r buf size mem :
  h !! root = Some r → 0 < buf → 0 <= size < 2 ^ 31 → buf + size < 2 ^ 32 →
  ∃ n mem', get_resource_list h root buf size mem = Some (n, mem') ∧ 0 <= n <= size ∧
    (∀ a, ¬ (buf <= a < buf + size) → mem' !! a = mem !! a).
Proof.
  intros Hr Hbuf Hsize Hend. unfold get_resource_list. rewrite Hr, u32_small by (change 4294967296 with (2 ^ 32); lia).
  pose proof (shallow_live h K Hinv root (mk_is_Some _ _ Hr)) as Hsh. pose proof (ri_kids _ _ Hinv _ _ Hr) as Hk.
  pose proof (kids_size _ _ _ _ _ _ Hk) as Hsz.
  set (fmt := if res_end r <? _ then narrow_format else wide_format).
  assert (∃ w, (w = 8 ∨ w = 4) ∧ fmt = if w =? 8 then wide_format else narrow_format) as (w & Hw & ->).
  { unfold fmt. destruct (res_end r <? 0x10000); [exists 4|exists 8]; auto. }
  destruct (do_resource_list_run w (base.size h) Hw (K root) (S (base.size h) * S (base.size h)) root _ _ _ 8 buf (buf + size) mem Hk)
    as (buf' & mem' & -> & Hb & Hm); [done|lia..|]. cbn. eexists _, _. split; [done|]. rewrite s32_small by (change 2147483648 with (2 ^ 31); lia).
  split; [lia|exact Hm].
Qed.
End list.

(** * The reserve= option *)

Definition MAXRESERVE : Z := 4.

(** One entry: the static array is the [MAXRESERVE] structures from [reserve]
    on. The result is the new value of the static counter [reserved]. *)
Definition reserve_one (reserve io_start io_num reserved : Z) : RM Z :=
  let x := reserved in
  if x <? MAXRESERVE then
    let res := reserve + x in
    wr res (λ r, mk_resource (Some "reserved"%string) (u32 io_start) (u32 (io_start + io_num - 1))
                   IORESOURCE_BUSY (res_parent r) (res_sibling r) 0);;
    n ← rd res;
    err ← request_resource (if res_start n >=? 0x10000 then iomem_resource else ioport_resource) res;
    mret (if err =? 0 then x + 1 else reserved)
  else mret reserved.

(** Every round consumes a character of the string; a call of [get_option] that
    does not return 0 has set its number. *)
Fixpoint reserve_loop (fuel : nat) (reserve : Z) (str : list Z) (reserved : Z) : RM Z :=
  match fuel with
  | O => no_fuel
  | S fuel =>
      let '(c, io_start, str) := get_option str in
      if negb (c =? 2) then mret reserved
      else
        let '(c, io_num, str) := get_option str in
        if c =? 0 then mret reserved
        else reserved ← reserve_one reserve (default 0 io_start) (default 0 io_num) reserved;
             reserve_loop fuel reserve str reserved
  end.

(** The result is what [reserve_setup] returns and the counter it leaves. *)
Definition reserve_setup (reserve : Z) (str : list Z) (reserved : Z) : RM (Z * Z) :=
  reserved ← reserve_loop (S (length str)) reserve str reserved;
  mret (1, reserved).

(** ** Parsing consumes the string *)

Lemma strtoul_loop_length wrap cp base acc : (length (strtoul_loop wrap cp base acc).2 <= length cp)%nat.
Proof.
  revert acc. induction cp as [|c cp IH]; intros acc; cbn [strtoul_loop]; [done|].
  repeat case_match; cbn [snd length]; try lia. all: etrans; [apply IH|lia].
Qed.

Lemma simple_strtol_length cp base : (length (simple_strtol cp base).2 <= length cp)%nat.
Proof.
  assert (∀ cp, length (simple_strtoul cp base).2 <= length cp)%nat as Hu.
  { intros l. unfold simple_strtoul, strtoul_base. pose proof (length_tl l). pose proof (length_tl (tl l)).
    repeat case_match; simplify_eq; (etrans; [apply strtoul_loop_length|lia]). }
  unfold simple_strtol. destruct (deref cp =? ch "-").
  - specialize (Hu (tl cp)). destruct (simple_strtoul (tl cp) base). cbn in *. pose proof (length_tl cp). lia.
  - specialize (Hu cp). destruct (simple_strtoul cp base). done.
Qed.

(** A number followed by a comma is shorter without them. *)
Lemma get_option_length str c v rest : get_option str = (c, v, rest) →
  (length rest <= length str)%nat ∧ (c = 2 → (length rest < length str)%nat).
Proof.
  unfold get_option. pose proof (simple_strtol_length str 0) as Hl. destruct (simple_strtol str 0) as [x str']. cbn [snd] in Hl.
  repeat case_match; intros [= <- <- <-]; (split; [pose proof (length_tl str'); lia|]); intros ?; try done.
  destruct str' as [|y str']; [done|]. cbn in *. lia.
Qed.

(** ** The slots *)

Section reserve.
Context (reserve : Z).

Definition spare (r : resource) : Prop := res_parent r = 0 ∧ res_child r = 0.

(** The slots not used yet are structures that are not linked. *)
Definition slots_free (h : gmap Z resource) (reserved : Z) : Prop :=
  ∀ x, reserved <= x < MAXRESERVE →
    reserve + x ≠ iomem_resource ∧ reserve + x ≠ ioport_resource ∧ ∃ r, h !! (reserve + x) = Some r ∧ spare r.

Lemma up_spare h K p x q : res_inv h K → h !! p = Some x → spare x → up h p q → q = p.
Proof.
  intros Hinv Hp [Hpar Hch]. induction 1 as [|q y Hy Hup IH]; [done|].
  pose proof (ri_kids _ _ Hinv _ _ Hp) as HK. rewrite Hch in HK.
  destruct (decide (res_parent y = 0)) as [H0|H0].
  - rewrite <-IH, H0, (ri_null _ _ Hinv) in Hp. done.
  - pose proof (ri_parent _ _ Hinv _ _ Hy H0) as Hk. rewrite IH in Hk. destruct (K p) as [|z l]; [by apply elem_of_nil in Hk|].
    destruct HK as (<- & rz & Hz & _). by rewrite (ri_null _ _ Hinv) in Hz.
Qed.

(** Linking one structure leaves those that are not linked as they are. *)
Lemma link_other h K root new l1 l2 y ry :
  res_inv h K → K root = l1 ++ l2 → h !! y = Some ry → res_parent ry = 0 → y ≠ new → y ≠ root →
  link_at (s_after root l1) (next_of l2) new root h !! y = Some ry.
Proof.
  intros Hinv HK Hy Hp Hn Hr. unfold link_at. rewrite !lookup_alter_ne; [done|done| |done].
  destruct (owner_slot_after (ChildOf root) l1) as [->|Hin]; [done|]. intros <-.
  destruct (inv_kid h K Hinv root (owner (s_after root l1))) as (x & _ & Hx & _ & Hp' & Hp0 & _);
    [rewrite HK; apply elem_of_app; by left|]. congruence.
Qed.

(** What a step of the option keeps. *)
Definition keeps (h : gmap Z resource) (reserved : Z) (out : option (Z * gmap Z resource)) : Prop :=
  ∃ reserved' h' K', out = Some (reserved', h') ∧ res_inv h' K' ∧
    reserved <= reserved' <= MAXRESERVE ∧ slots_free h' reserved' ∧ (∀ p, is_Some (h !! p) → is_Some (h' !! p)).

Lemma reserve_one_run h K io_start io_num reserved :
  res_inv h K → is_Some (h !! ioport_resource) → is_Some (h !! iomem_resource) →
  0 <= reserved <= MAXRESERVE → slots_free h reserved → keeps h reserved (reserve_one reserve io_start io_num reserved h).
Proof.
  intros Hinv Hio Hmem Hres Hfree. unfold reserve_one. cbv zeta.
  destruct (Z.ltb_spec reserved MAXRESERVE) as [Hlt|_]; [|exists reserved, h, K; split_and!; (done || lia)].
  destruct (Hfree reserved) as (N1 & N2 & r & Hr & Hp & Hc); [lia|].
  set (n := mk_resource (Some "reserved"%string) (u32 io_start) (u32 (io_start + io_num - 1)) IORESOURCE_BUSY (res_parent r) (res_sibling r) 0).
  set (h1 := <[reserve + reserved := n]> h).
  erewrite es_bind by (unfold wr; by rewrite Hr). fold n h1.
  assert (h1 !! (reserve + reserved) = Some n) as Hn by apply lookup_insert_eq.
  erewrite es_bind by by apply rd_run.
  set (root := if res_start n >=? _ then _ else _).
  assert (root ≠ reserve + reserved ∧ is_Some (h !! root)) as [Hne [rr Hrr]] by (unfold root; case_match; split; done).
  assert (h1 !! root = Some rr) as Hrr1 by (unfold h1; by rewrite lookup_insert_ne).
  assert (res_inv h1 K) as Hinv1.
  { eapply inv_assign; [done|done|done|done| |done|done]. pose proof (u32_bound io_start). pose proof (u32_bound (io_start + io_num - 1)).
    split; cbn; lia. }
  assert (∀ x, reserved < x < MAXRESERVE → reserve + x ≠ root ∧ ∃ r, h1 !! (reserve + x) = Some r ∧ spare r) as Hothers.
  { intros x Hx. destruct (Hfree x) as (N1' & N2' & r' & Hr' & Hs'); [lia|]. split; [unfold root; by case_match|].
    exists r'. unfold h1. by rewrite lookup_insert_ne by lia. }
  assert (∀ p, is_Some (h !! p) → is_Some (h1 !! p)) as Hlive.
  { intros p Hp'. unfold h1. destruct (decide (reserve + reserved = p)) as [->|]; [by rewrite lookup_insert_eq|by rewrite lookup_insert_ne]. }
  destruct (request_resource_run h1 K root (reserve + reserved) rr n Hinv1 Hrr1 Hn Hp) as [(_ & l1 & l2 & HK & Hrun & Hi)|[_ Hrun]].
  { intros Hup. apply Hne. by apply (up_spare h1 K _ n root Hinv1 Hn (conj Hp eq_refl)). }
  - erewrite es_bind by exact Hrun. cbn [Z.eqb]. eexists _, _, _. split; [done|]. split; [exact Hi|]. split; [lia|]. split.
    + intros x Hx. destruct (Hothers x) as (Hxr & r' & Hr' & Hs'); [lia|]. destruct (Hfree x) as (? & ? & _); [lia|].
      split_and!; [done..|]. exists r'. split; [|done]. apply (link_other h1 K); [done|done|done|apply Hs'|lia|done].
    + intros p Hp'. unfold link_at. by repeat apply alter_live; apply Hlive.
  - erewrite es_bind by exact Hrun. exists reserved, h1, K. split_and!; [done|done|lia|lia| |done].
    intros x Hx. destruct (Hfree x) as (? & ? & r' & Hr' & Hs'); [lia|]. split_and!; [done..|]. unfold h1.
    destruct (decide (reserved = x)) as [<-|]; [exists n; by rewrite lookup_insert_eq|exists r'; by rewrite lookup_insert_ne by lia].
Qed.

Lemma reserve_loop_run fuel : ∀ h K str reserved,
  res_inv h K → is_Some (h !! ioport_resource) → is_Some (h !! iomem_resource) →
  0 <= reserved <= MAXRESERVE → slots_free h reserved → (length str < fuel)%nat →
  keeps h reserved (reserve_loop fuel reserve str reserved h).
Proof.
  induction fuel as [|fuel IH]; intros h K str reserved Hinv Hio Hmem Hres Hfree Hf; [lia|]. cbn [reserve_loop].
  assert (keeps h reserved (Some (reserved, h))) as Hstop by (exists reserved, h, K; split_and!; (done || lia)).
  destruct (get_option str) as [[c1 v1] str1] eqn:E1. destruct (get_option_length _ _ _ _ E1) as [L1 M1].
  destruct (Z.eqb_spec c1 2) as [->|]; cbn [negb]; [|exact Hstop].
  destruct (get_option str1) as [[c2 v2] str2] eqn:E2. destruct (get_option_length _ _ _ _ E2) as [L2 _].
  destruct (c2 =? 0); [exact Hstop|].
  destruct (reserve_one_run h K (default 0 v1) (default 0 v2) reserved) as (r1 & h1 & K1 & Hrun & Hinv1 & Hr1 & Hfree1 & Hl1); [done..|].
  erewrite es_bind by exact Hrun. specialize (M1 eq_refl).
  destruct (IH h1 K1 str2 r1) as (r2 & h2 & K2 & Hrun2 & Hinv2 & Hr2 & Hfree2 & Hl2); [done|auto|auto|lia|done|lia|].
  exists r2, h2, K2. split_and!; (done || lia || auto).
Qed.

(** The option returns and keeps the tree in order. *)
Lemma reserve_setup_run h K str reserved :
  res_inv h K → is_Some (h !! ioport_resource) → is_Some (h !! iomem_resource) →
  0 <= reserved <= MAXRESERVE → slots_free h reserved →
  ∃ reserved' h' K', reserve_setup reserve str reserved h = Some ((1, reserved'), h') ∧ res_inv h' K' ∧
    reserved <= reserved' <= MAXRESERVE ∧ slots_free h' reserved'.
Proof.
  intros Hinv Hio Hmem Hres Hfree. destruct (reserve_loop_run (S (length str)) h K str reserved) as (r & h' & K' & Hrun & ? & ? & ? & _); [done..|lia|].
  exists r, h', K'. split_and!; [|done|lia|lia|done]. unfold reserve_setup. by erewrite es_bind by exact Hrun.
Qed.
End reserve.

(** ** Names the check does not cover

    A name of more than 50 characters makes the last line run past the end of
    the buffer: the code asks for 80 free characters and prints the whole name. *)
Definition long_name : string := String.string_of_list_ascii (replicate 70 "n"%char).
Definition long_tree : gmap Z resource :=
  <[ioport_resource := mk_resource (Some "PCI IO"%string) 0 0xffff IORESOURCE_IO 0 0 3]>
    (<[3 := mk_resource (Some long_name) 0x60 0x6f IORESOURCE_BUSY ioport_resource 0 0]> resource_init).

Lemma list_overruns :
  (λ x, (x.1, x.2 !! (0x1000 + 80))) <$> get_resource_list long_tree ioport_resource 0x1000 80 ∅ = Some (83, Some (ch "n")).
Proof. by vm_compute. Qed.
