(* ===== verification/RbTree.v ===== *)
(** Red-black trees (lib/rbtree.c, include/linux/rbtree.h): nodes linked by
    [rb_parent], [rb_left] and [rb_right] pointers in an explicit heap, and the
    root. An access through a pointer to no live node makes the whole call
    [None]. The caller's keys do not occur: a node is its address. *)
From S2P Require Import Prelude.
From stdpp Require Import list options.
Open Scope cint_scope.
Open Scope Z_scope.

(** * Data *)

Record rb_node := mk_rb_node {
  rb_parent : Z;
  rb_color : Z;
  rb_right : Z;
  rb_left : Z
}.

Definition RB_RED : Z := 0.
Definition RB_BLACK : Z := 1.

(** The nodes that are live, and the [rb_root_t] of the call. *)
Record rb_state := mk_rb_state {
  rb_heap : gmap Z rb_node;
  rb_root : Z
}.

Notation RBM := (ES rb_state).

Definition set_rb_parent (x : Z) (n : rb_node) : rb_node := mk_rb_node x (rb_color n) (rb_right n) (rb_left n).
Definition set_rb_color (x : Z) (n : rb_node) : rb_node := mk_rb_node (rb_parent n) x (rb_right n) (rb_left n).
Definition set_rb_right (x : Z) (n : rb_node) : rb_node := mk_rb_node (rb_parent n) (rb_color n) x (rb_left n).
Definition set_rb_left (x : Z) (n : rb_node) : rb_node := mk_rb_node (rb_parent n) (rb_color n) (rb_right n) x.

(** * Access through pointers *)

Definition ld (p : Z) : RBM rb_node := λ s,
  match rb_heap s !! p with None => None | Some n => Some (n, s) end.
Definition st (p : Z) (f : rb_node → rb_node) : RBM unit := λ s,
  match rb_heap s !! p with None => None | Some n => Some (tt, mk_rb_state (<[p := f n]> (rb_heap s)) (rb_root s)) end.
Definition ld_root : RBM Z := λ s, Some (rb_root s, s).
Definition st_root (p : Z) : RBM unit := λ s, Some (tt, mk_rb_state (rb_heap s) p).

(** [if (p) p->...] *)
Definition unless_null (p : Z) (m : RBM unit) : RBM unit := if p =? 0 then mret tt else m.

(** A path down the tree meets each live node at most once. *)
Definition path_fuel : RBM nat := λ s, Some (S (size (rb_heap s)), s).
Definition stuck {A} : RBM A := λ _, None.

(** * Rotations *)

Definition __rb_rotate_left (node : Z) : RBM unit :=
  n ← ld node;
  let right := rb_right n in
  r ← ld right;
  st node (set_rb_right (rb_left r));;
  unless_null (rb_left r) (st (rb_left r) (set_rb_parent node));;
  st right (set_rb_left node);;
  n ← ld node;
  st right (set_rb_parent (rb_parent n));;
  (if negb (rb_parent n =? 0) then
     p ← ld (rb_parent n);
     if node =? rb_left p then st (rb_parent n) (set_rb_left right)
     else st (rb_parent n) (set_rb_right right)
   else st_root right);;
  st node (set_rb_parent right).

Definition __rb_rotate_right (node : Z) : RBM unit :=
  n ← ld node;
  let left := rb_left n in
  l ← ld left;
  st node (set_rb_left (rb_right l));;
  unless_null (rb_right l) (st (rb_right l) (set_rb_parent node));;
  st left (set_rb_right node);;
  n ← ld node;
  st left (set_rb_parent (rb_parent n));;
  (if negb (rb_parent n =? 0) then
     p ← ld (rb_parent n);
     if node =? rb_right p then st (rb_parent n) (set_rb_right left)
     else st (rb_parent n) (set_rb_left left)
   else st_root left);;
  st node (set_rb_parent left).

(** * Insertion *)

(** What [rb_link] points to. *)
Inductive rb_slot :=
  | RootSlot
  | LeftOf (p : Z)
  | RightOf (p : Z).

Definition st_slot (s : rb_slot) (x : Z) : RBM unit :=
  match s with
  | RootSlot => st_root x
  | LeftOf p => st p (set_rb_left x)
  | RightOf p => st p (set_rb_right x)
  end.

Definition rb_link_node (node parent : Z) (rb_link : rb_slot) : RBM unit :=
  st node (λ n, mk_rb_node parent RB_RED 0 0);;
  st_slot rb_link node.

(** [p && p->rb_color == RB_RED] *)
Definition is_red (p : Z) : RBM bool :=
  if p =? 0 then mret false else n ← ld p; mret (rb_color n =? RB_RED).

(** One round where [parent] is the left child: the next [node]. *)
Definition insert_left (node parent gparent : Z) : RBM Z :=
  g ← ld gparent;
  let uncle := rb_right g in
  red ← is_red uncle;
  if (red : bool) then
    st uncle (set_rb_color RB_BLACK);;
    st parent (set_rb_color RB_BLACK);;
    st gparent (set_rb_color RB_RED);;
    mret gparent
  else
    p ← ld parent;
    '(parent, node) ←
      (if rb_right p =? node then __rb_rotate_left parent;; mret (node, parent) else mret (parent, node));
    st parent (set_rb_color RB_BLACK);;
    st gparent (set_rb_color RB_RED);;
    __rb_rotate_right gparent;;
    mret node.

(** And where it is the right one. *)
Definition insert_right (node parent gparent : Z) : RBM Z :=
  g ← ld gparent;
  let uncle := rb_left g in
  red ← is_red uncle;
  if (red : bool) then
    st uncle (set_rb_color RB_BLACK);;
    st parent (set_rb_color RB_BLACK);;
    st gparent (set_rb_color RB_RED);;
    mret gparent
  else
    p ← ld parent;
    '(parent, node) ←
      (if rb_left p =? node then __rb_rotate_right parent;; mret (node, parent) else mret (parent, node));
    st parent (set_rb_color RB_BLACK);;
    st gparent (set_rb_color RB_RED);;
    __rb_rotate_left gparent;;
    mret node.

Fixpoint insert_color_loop (fuel : nat) (node : Z) : RBM unit :=
  match fuel with
  | O => stuck
  | S fuel =>
      n ← ld node;
      let parent := rb_parent n in
      red ← is_red parent;
      if negb (red : bool) then mret tt
      else
        p ← ld parent;
        let gparent := rb_parent p in
        g ← ld gparent;
        node ← (if parent =? rb_left g then insert_left node parent gparent else insert_right node parent gparent);
        insert_color_loop fuel node
  end.

Definition rb_insert_color (node : Z) : RBM unit :=
  fuel ← path_fuel;
  insert_color_loop fuel node;;
  root ← ld_root;
  st root (set_rb_color RB_BLACK).

(** * Removal *)

(** [!p || p->rb_color == RB_BLACK] *)
Definition is_black (p : Z) : RBM bool :=
  if p =? 0 then mret true else n ← ld p; mret (rb_color n =? RB_BLACK).

(** One round where [node] is the left child of [parent]: the next [node] and
    [parent], or the [node] after the [break]. *)
Definition erase_left (parent : Z) : RBM (Z * Z + Z) :=
  p ← ld parent;
  let other := rb_right p in
  o ← ld other;
  other ← (if rb_color o =? RB_RED then
             st other (set_rb_color RB_BLACK);;
             st parent (set_rb_color RB_RED);;
             __rb_rotate_left parent;;
             p ← ld parent;
             mret (rb_right p)
           else mret other);
  o ← ld other;
  black ← is_black (rb_left o);
  black ← (if (black : bool) then is_black (rb_right o) else mret false);
  if (black : bool) then
    st other (set_rb_color RB_RED);;
    p ← ld parent;
    mret (inl (parent, rb_parent p))
  else
    black ← is_black (rb_right o);
    other ← (if (black : bool) then
               unless_null (rb_left o) (st (rb_left o) (set_rb_color RB_BLACK));;
               st other (set_rb_color RB_RED);;
               __rb_rotate_right other;;
               p ← ld parent;
               mret (rb_right p)
             else mret other);
    p ← ld parent;
    st other (set_rb_color (rb_color p));;
    st parent (set_rb_color RB_BLACK);;
    o ← ld other;
    unless_null (rb_right o) (st (rb_right o) (set_rb_color RB_BLACK));;
    __rb_rotate_left parent;;
    root ← ld_root;
    mret (inr root).

(** And where it is the right one. *)
Definition erase_right (parent : Z) : RBM (Z * Z + Z) :=
  p ← ld parent;
  let other := rb_left p in
  o ← ld other;
  other ← (if rb_color o =? RB_RED then
             st other (set_rb_color RB_BLACK);;
             st parent (set_rb_color RB_RED);;
             __rb_rotate_right parent;;
             p ← ld parent;
             mret (rb_left p)
           else mret other);
  o ← ld other;
  black ← is_black (rb_left o);
  black ← (if (black : bool) then is_black (rb_right o) else mret false);
  if (black : bool) then
    st other (set_rb_color RB_RED);;
    p ← ld parent;
    mret (inl (parent, rb_parent p))
  else
    black ← is_black (rb_left o);
    other ← (if (black : bool) then
               unless_null (rb_right o) (st (rb_right o) (set_rb_color RB_BLACK));;
               st other (set_rb_color RB_RED);;
               __rb_rotate_left other;;
               p ← ld parent;
               mret (rb_left p)
             else mret other);
    p ← ld parent;
    st other (set_rb_color (rb_color p));;
    st parent (set_rb_color RB_BLACK);;
    o ← ld other;
    unless_null (rb_left o) (st (rb_left o) (set_rb_color RB_BLACK));;
    __rb_rotate_right parent;;
    root ← ld_root;
    mret (inr root).

Fixpoint erase_color_loop (fuel : nat) (node parent : Z) : RBM Z :=
  match fuel with
  | O => stuck
  | S fuel =>
      black ← is_black node;
      root ← ld_root;
      if (black : bool) && negb (node =? root) then
        p ← ld parent;
        r ← (if rb_left p =? node then erase_left parent else erase_right parent);
        match r with
        | inl (node, parent) => erase_color_loop fuel node parent
        | inr node => mret node
        end
      else mret node
  end%bool.

Definition __rb_erase_color (node parent : Z) : RBM unit :=
  fuel ← path_fuel;
  node ← erase_color_loop fuel node parent;
  unless_null node (st node (set_rb_color RB_BLACK)).

(** [while ((left = node->rb_left)) node = left;] *)
Fixpoint leftmost_loop (fuel : nat) (node : Z) : RBM Z :=
  match fuel with
  | O => stuck
  | S fuel =>
      n ← ld node;
      if rb_left n =? 0 then mret node else leftmost_loop fuel (rb_left n)
  end.

(** [child] takes the place of [node] below [parent]. *)
Definition rb_replace (node child parent : Z) : RBM unit :=
  unless_null child (st child (set_rb_parent parent));;
  if negb (parent =? 0) then
    p ← ld parent;
    if rb_left p =? node then st parent (set_rb_left child) else st parent (set_rb_right child)
  else st_root child.

(** The successor [node] takes the place and the colour of [old]. *)
Definition rb_take_place (old node : Z) : RBM unit :=
  o ← ld old;
  st node (set_rb_parent (rb_parent o));;
  st node (set_rb_color (rb_color o));;
  st node (set_rb_right (rb_right o));;
  st node (set_rb_left (rb_left o));;
  (if negb (rb_parent o =? 0) then
     p ← ld (rb_parent o);
     if rb_left p =? old then st (rb_parent o) (set_rb_left node) else st (rb_parent o) (set_rb_right node)
   else st_root node);;
  o ← ld old;
  st (rb_left o) (set_rb_parent node);;
  unless_null (rb_right o) (st (rb_right o) (set_rb_parent node)).

Definition rb_erase (node : Z) : RBM unit :=
  n ← ld node;
  if negb (rb_left n =? 0) && negb (rb_right n =? 0) then
    let old := node in
    fuel ← path_fuel;
    node ← leftmost_loop fuel (rb_right n);
    n ← ld node;
    let child := rb_right n in
    let parent := rb_parent n in
    let color := rb_color n in
    rb_replace node child parent;;
    n ← ld node;
    let parent := if rb_parent n =? old then node else parent in
    rb_take_place old node;;
    if color =? RB_BLACK then __rb_erase_color child parent else mret tt
  else
    let child := if rb_left n =? 0 then rb_right n else rb_left n in
    let parent := rb_parent n in
    let color := rb_color n in
    rb_replace node child parent;;
    if color =? RB_BLACK then __rb_erase_color child parent else mret tt.
