(* ===== verification/RbShape.v ===== *)
(** Trees behind the pointers of lib/rbtree.c: what it means that a heap holds a
    tree, contexts with a hole, and the two rotations as one. *)
From S2P Require Import Prelude RbTree.
From stdpp Require Import list options.
#[local] Set Default Proof Using "Type*".
Open Scope cint_scope.
Open Scope Z_scope.

(** * Trees and contexts *)

Inductive color := Red | Black.
Definition cz (c : color) : Z := match c with Red => RB_RED | Black => RB_BLACK end.

(** A node is its address. *)
Inductive tree :=
  | Leaf
  | Node (c : color) (l : tree) (x : Z) (r : tree).

Definition ptr (t : tree) : Z := match t with Leaf => 0 | Node _ _ x _ => x end.

Fixpoint inorder (t : tree) : list Z :=
  match t with Leaf => [] | Node _ l x r => inorder l ++ x :: inorder r end.

(** The two sides, so that mirror images are one case. *)
Inductive side := SL | SR.
#[export] Instance side_eq_dec : EqDecision side.
Proof. solve_decision. Defined.
Definition opp (d : side) : side := match d with SL => SR | SR => SL end.

(** The node with [t] on the side [d] and [s] on the other. *)
Definition bin (d : side) (c : color) (t : tree) (x : Z) (s : tree) : tree :=
  match d with SL => Node c t x s | SR => Node c s x t end.

(** A context, from the hole outwards: the hole is on the side [d] of [x]. *)
Inductive frame := Fr (d : side) (c : color) (x : Z) (s : tree).
Definition fill (f : frame) (t : tree) : tree := let '(Fr d c x s) := f in bin d c t x s.
Fixpoint plug (k : list frame) (t : tree) : tree :=
  match k with [] => t | f :: k => plug k (fill f t) end.

(** The address above the hole, and that of the whole. *)
Definition cpar (par : Z) (k : list frame) : Z := match k with [] => par | Fr _ _ x _ :: _ => x end.
Fixpoint cptr (k : list frame) (p : Z) : Z := match k with [] => p | Fr _ _ x _ :: k => cptr k x end.

(** ** The fields of a side *)

Definition child (d : side) (n : rb_node) : Z := match d with SL => rb_left n | SR => rb_right n end.
Definition set_child (d : side) (x : Z) (n : rb_node) : rb_node :=
  match d with SL => set_rb_left x n | SR => set_rb_right x n end.
Definition mkn (par : Z) (c : color) (d : side) (p q : Z) : rb_node :=
  match d with SL => mk_rb_node par (cz c) q p | SR => mk_rb_node par (cz c) p q end.

Section fields.
Context (par : Z) (c : color) (d : side) (p q : Z).

Lemma mkn_opp : mkn par c (opp d) p q = mkn par c d q p.
Proof. by destruct d. Qed.
Lemma child_mkn : child d (mkn par c d p q) = p.
Proof. by destruct d. Qed.
Lemma child_mkn_opp : child (opp d) (mkn par c d p q) = q.
Proof. by destruct d. Qed.
Lemma set_child_mkn v : set_child d v (mkn par c d p q) = mkn par c d v q.
Proof. by destruct d. Qed.
Lemma set_child_mkn_opp v : set_child (opp d) v (mkn par c d p q) = mkn par c d p v.
Proof. by destruct d. Qed.
Lemma parent_mkn : rb_parent (mkn par c d p q) = par.
Proof. by destruct d. Qed.
Lemma color_mkn : rb_color (mkn par c d p q) = cz c.
Proof. by destruct d. Qed.
Lemma set_parent_mkn v : set_rb_parent v (mkn par c d p q) = mkn v c d p q.
Proof. by destruct d. Qed.
Lemma set_color_mkn c' : set_rb_color (cz c') (mkn par c d p q) = mkn par c' d p q.
Proof. by destruct d. Qed.
End fields.

Lemma opp_opp d : opp (opp d) = d.
Proof. by destruct d. Qed.
Lemma bin_opp d c t x s : bin (opp d) c t x s = bin d c s x t.
Proof. by destruct d. Qed.
Lemma ptr_bin d c t x s : ptr (bin d c t x s) = x.
Proof. by destruct d. Qed.

(** * Counting occurrences *)

Definition one (x z : Z) : nat := if decide (x = z) then 1 else 0.
Fixpoint cnt (t : tree) (z : Z) : nat :=
  match t with Leaf => 0 | Node _ l x r => cnt l z + one x z + cnt r z end.
Fixpoint cctx (k : list frame) (z : Z) : nat :=
  match k with [] => 0 | Fr _ _ x s :: k => one x z + cnt s z + cctx k z end.

Lemma one_eq x z : x = z → one x z = 1%nat.
Proof. intros ->. unfold one. by rewrite decide_True. Qed.
Lemma cnt_bin d c t x s z : cnt (bin d c t x s) z = (cnt t z + one x z + cnt s z)%nat.
Proof. destruct d; cbn; lia. Qed.
Lemma cnt_plug k t z : cnt (plug k t) z = (cctx k z + cnt t z)%nat.
Proof. revert t. induction k as [|[d c x s] k IH]; intros t; cbn [plug cctx fill]; [done|]. rewrite IH, cnt_bin. lia. Qed.
Lemma cnt_ptr t : t ≠ Leaf → (1 <= cnt t (ptr t))%nat.
Proof. destruct t as [|c l x r]; [done|]. intros _. cbn. rewrite (one_eq x x) by done. lia. Qed.
Lemma cnt_inorder t z : cnt t z = count_occ Z.eq_dec (inorder t) z.
Proof.
  induction t as [|c l IHl x r IHr]; [done|]. cbn [cnt inorder]. rewrite count_occ_app, IHl, IHr. cbn [count_occ].
  unfold one. destruct (decide (x = z)), (Z.eq_dec x z); (done || lia).
Qed.
Lemma cnt_elem t z : z ∈ inorder t ↔ (1 <= cnt t z)%nat.
Proof. rewrite cnt_inorder, list_elem_of_In, (count_occ_In Z.eq_dec). lia. Qed.

Lemma inorder_plug k t t' : inorder t = inorder t' → inorder (plug k t) = inorder (plug k t').
Proof.
  revert t t'. induction k as [|[d c x s] k IH]; intros t t' Heq; cbn [plug fill]; [done|]. apply IH.
  destruct d; cbn; by rewrite Heq.
Qed.

(** No address occurs twice. *)
Definition distinct (t : tree) : Prop := ∀ z, (cnt t z <= 1)%nat.

(** * The heap holds a tree *)

Fixpoint shape (h : gmap Z rb_node) (par : Z) (t : tree) : Prop :=
  match t with
  | Leaf => True
  | Node c l x r => x ≠ 0 ∧ h !! x = Some (mk_rb_node par (cz c) (ptr r) (ptr l)) ∧ shape h x l ∧ shape h x r
  end.

Fixpoint cshape (h : gmap Z rb_node) (par : Z) (k : list frame) (p : Z) : Prop :=
  match k with
  | [] => True
  | Fr d c x s :: k => x ≠ 0 ∧ h !! x = Some (mkn (cpar par k) c d p (ptr s)) ∧ shape h x s ∧ cshape h par k x
  end.

(** The whole tree, from the root pointer. *)
Definition rb_holds (s : rb_state) (t : tree) : Prop :=
  rb_root s = ptr t ∧ shape (rb_heap s) 0 t ∧ distinct t.

Section shape.
Implicit Types (h : gmap Z rb_node) (t : tree) (k : list frame).

Lemma shape_bin h par d c t x s :
  shape h par (bin d c t x s) ↔ x ≠ 0 ∧ h !! x = Some (mkn par c d (ptr t) (ptr s)) ∧ shape h x t ∧ shape h x s.
Proof. destruct d; cbn; tauto. Qed.

Lemma shape_null h par t : shape h par t → ptr t = 0 → t = Leaf.
Proof. destruct t; [done|]. cbn. intros (? & _) ?. done. Qed.

Lemma shape_ptr h par t : shape h par t → ptr t ≠ 0 → (1 <= cnt t (ptr t))%nat.
Proof. intros Ht Hp. apply cnt_ptr. by intros ->. Qed.

Lemma shape_live h par t z : shape h par t → (1 <= cnt t z)%nat → z ≠ 0 ∧ is_Some (h !! z).
Proof.
  revert par. induction t as [|c l IHl x r IHr]; intros par; cbn; [lia|]. intros (Hx & Hh & Hl & Hr) Hz. unfold one in Hz.
  destruct (decide (x = z)) as [<-|]; [by eauto|]. assert (1 <= cnt l z ∨ 1 <= cnt r z)%nat as [?|?] by lia; [by eapply IHl|by eapply IHr].
Qed.

Lemma shape_agree h h' par t : (∀ z, (1 <= cnt t z)%nat → h' !! z = h !! z) → shape h par t → shape h' par t.
Proof.
  revert par. induction t as [|c l IHl x r IHr]; intros par Ha; cbn; [done|]. intros (Hx & Hh & Hl & Hr). cbn in Ha. split_and!.
  - done.
  - rewrite Ha; [done|]. rewrite (one_eq x x) by done. lia.
  - apply IHl; [|done]. intros z Hz. apply Ha. lia.
  - apply IHr; [|done]. intros z Hz. apply Ha. lia.
Qed.

Lemma cshape_agree h h' par k p : (∀ z, (1 <= cctx k z)%nat → h' !! z = h !! z) → cshape h par k p → cshape h' par k p.
Proof.
  revert p. induction k as [|[d c x s] k IH]; intros p Ha; cbn; [done|]. intros (Hx & Hh & Hs & Hk). cbn in Ha. split_and!.
  - done.
  - rewrite Ha; [done|]. rewrite (one_eq x x) by done. lia.
  - eapply shape_agree; [|done]. intros z Hz. apply Ha. lia.
  - apply IH; [|done]. intros z Hz. apply Ha. lia.
Qed.

Lemma shape_plug h par k t : shape h par (plug k t) ↔ cshape h par k (ptr t) ∧ shape h (cpar par k) t.
Proof.
  revert t. induction k as [|[d c x s] k IH]; intros t; cbn [plug cshape cpar fill]; [tauto|].
  rewrite IH, ptr_bin, shape_bin. tauto.
Qed.

Lemma ptr_plug k t : ptr (plug k t) = cptr k (ptr t).
Proof. revert t. induction k as [|[d c x s] k IH]; intros t; cbn [plug cptr fill]; [done|]. by rewrite IH, ptr_bin. Qed.

Lemma plug_app k1 k2 t : plug (k1 ++ k2) t = plug k2 (plug k1 t).
Proof. revert t. induction k1 as [|f k1 IH]; intros t; cbn [plug app]; [done|]. apply IH. Qed.

Lemma cctx_app k1 k2 z : cctx (k1 ++ k2) z = (cctx k1 z + cctx k2 z)%nat.
Proof. induction k1 as [|[d c x s] k1 IH]; cbn [cctx app]; [done|]. rewrite IH. lia. Qed.
End shape.

(** * Writing through pointers *)

Section heap.
Implicit Types (h : gmap Z rb_node) (t : tree) (k : list frame).

(** The parent field of a tree, and the pointer to the hole of a context. *)
Definition reparent (q : Z) (t : tree) (h : gmap Z rb_node) : gmap Z rb_node :=
  match t with Leaf => h | Node _ _ z _ => alter (set_rb_parent q) z h end.
Definition chup (k : list frame) (v : Z) (h : gmap Z rb_node) : gmap Z rb_node :=
  match k with [] => h | Fr d _ x _ :: _ => alter (set_child d v) x h end.
Definition root_up (k : list frame) (v r : Z) : Z := match k with [] => v | _ => r end.

Lemma root_up_cptr k v p : root_up k v (cptr k p) = cptr k v.
Proof. by destruct k as [|[d c x s] k]. Qed.

Lemma ld_run p h r n : h !! p = Some n → ld p (mk_rb_state h r) = Some (n, mk_rb_state h r).
Proof. intros Hp. unfold ld. cbn. by rewrite Hp. Qed.

Lemma st_run p f h r : is_Some (h !! p) → st p f (mk_rb_state h r) = Some (tt, mk_rb_state (alter f p h) r).
Proof.
  intros [n Hp]. unfold st. cbn. rewrite Hp. do 3 f_equal. apply map_eq. intros z. rewrite lookup_alter.
  destruct (decide (p = z)) as [<-|Hz]; [by rewrite lookup_insert_eq, Hp|by rewrite lookup_insert_ne].
Qed.

Lemma reparent_other q t h z : cnt t z = 0%nat → reparent q t h !! z = h !! z.
Proof.
  destruct t as [|c l x r]; cbn; [done|]. intros Hz. rewrite lookup_alter_ne; [done|]. intros Hx. rewrite (one_eq _ _ Hx) in Hz. lia.
Qed.

Lemma reparent_agree q t h h' z : h !! z = h' !! z → reparent q t h !! z = reparent q t h' !! z.
Proof.
  intros Hz. destruct t as [|c l x r]; cbn; [exact Hz|].
  destruct (decide (x = z)) as [<-|]; [by rewrite !lookup_alter_eq, Hz|by rewrite !lookup_alter_ne].
Qed.

Lemma reparent_shape h par q t : distinct t → shape h par t → shape (reparent q t h) q t.
Proof.
  destruct t as [|c l x r]; [done|]. intros D (Hx & Hh & Hl & Hr). cbn [reparent shape].
  assert (∀ z, (1 <= cnt l z + cnt r z)%nat → x ≠ z) as Hne.
  { intros z Hz Heq. pose proof (D z) as Dz. cbn in Dz. rewrite (one_eq _ _ Heq) in Dz. lia. }
  split_and!; [done|by rewrite lookup_alter_eq, Hh|..].
  all: eapply shape_agree; [|done]; intros z Hz; apply lookup_alter_ne, Hne; lia.
Qed.

Lemma reparent_run q t h r par :
  shape h par t →
  unless_null (ptr t) (st (ptr t) (set_rb_parent q)) (mk_rb_state h r) = Some (tt, mk_rb_state (reparent q t h) r).
Proof.
  unfold unless_null. destruct t as [|c l x r']; [done|]. intros (Hx & Hh & _). cbn [ptr reparent].
  destruct (Z.eqb_spec x 0); [done|]. apply st_run. by rewrite Hh.
Qed.

Lemma chup_other k v h z : cctx k z = 0%nat → chup k v h !! z = h !! z.
Proof.
  destruct k as [|[d c x s] k]; cbn; [done|]. intros Hz. rewrite lookup_alter_ne; [done|]. intros Hx.
  rewrite (one_eq _ _ Hx) in Hz. lia.
Qed.

Lemma chup_cshape h par k p v : (∀ z, (cctx k z <= 1)%nat) → cshape h par k p → cshape (chup k v h) par k v.
Proof.
  destruct k as [|[d c x s] k]; [done|]. intros D (Hx & Hh & Hs & Hk). cbn [chup cshape].
  assert (∀ z, (1 <= cnt s z + cctx k z)%nat → x ≠ z) as Hne.
  { intros z Hz Heq. pose proof (D z) as Dz. cbn in Dz. rewrite (one_eq _ _ Heq) in Dz. lia. }
  split_and!; [done|by rewrite lookup_alter_eq, Hh; cbn; rewrite set_child_mkn|..].
  - eapply shape_agree; [|done]. intros z Hz. apply lookup_alter_ne, Hne. lia.
  - eapply cshape_agree; [|done]. intros z Hz. apply lookup_alter_ne, Hne. lia.
Qed.

(** The code that redirects the pointer to the hole; it looks for the old
    pointer on the side [d]. *)
Definition redirect (d : side) (parent old new : Z) : RBM unit :=
  if negb (parent =? 0) then
    p ← ld parent;
    if old =? child d p then st parent (set_child d new) else st parent (set_child (opp d) new)
  else st_root new.

Lemma redirect_run d k old new h r :
  cshape h 0 k old → old ≠ 0 → cctx k old = 0%nat →
  redirect d (cpar 0 k) old new (mk_rb_state h r) = Some (tt, mk_rb_state (chup k new h) (root_up k new r)).
Proof.
  intros Hk Hold Hc. unfold redirect. destruct k as [|[d' c x s] k]; [done|]. destruct Hk as (Hx & Hh & Hs & _).
  cbn [cpar chup root_up]. destruct (Z.eqb_spec x 0); [done|]. cbn [negb]. erewrite es_bind by by apply ld_run.
  assert (ptr s ≠ old) as Hne.
  { intros Heq. destruct s as [|c' l y r']; [cbn in Heq; congruence|]. cbn in Heq, Hc. rewrite (one_eq _ _ Heq) in Hc. lia. }
  destruct (decide (d = d')) as [<-|Hd].
  - rewrite child_mkn, Z.eqb_refl. apply st_run. by rewrite Hh.
  - assert (d = opp d') as -> by (by destruct d, d'). rewrite child_mkn_opp, opp_opp.
    destruct (Z.eqb_spec old (ptr s)); [congruence|]. apply st_run. by rewrite Hh.
Qed.
End heap.


(** [apart D] proves that an address is not another one, or does not occur
    somewhere, from the fact [D] that addresses do not repeat. *)
Ltac apart D :=
  lazymatch goal with
  | |- ?x ≠ ?y =>
      let H := fresh in intros H; generalize (D y); rewrite ?cnt_plug, ?cnt_bin; cbn [cnt cctx];
      rewrite ?(one_eq x y H), ?(one_eq y y eq_refl); lia
  | |- cnt _ ?z = 0%nat => generalize (D z); rewrite ?cnt_plug, ?cnt_bin; cbn [cnt cctx]; rewrite ?(one_eq z z eq_refl); lia
  | |- cctx _ ?z = 0%nat => generalize (D z); rewrite ?cnt_plug, ?cnt_bin; cbn [cnt cctx]; rewrite ?(one_eq z z eq_refl); lia
  end.
Ltac apart_le D :=
  lazymatch goal with
  | |- (_ ?z <= 1)%nat => generalize (D z); rewrite ?cnt_plug, ?cnt_bin; cbn [cnt cctx]; rewrite ?cnt_bin; lia
  | |- (_ _ ?z <= 1)%nat => generalize (D z); rewrite ?cnt_plug, ?cnt_bin; cbn [cnt cctx]; rewrite ?cnt_bin; lia
  end.
(** The reads of a heap after writes elsewhere. *)
Ltac skip_writes D :=
  repeat first [rewrite lookup_alter_ne by (apart D || (apply not_eq_sym; apart D)) | rewrite reparent_other by apart D | rewrite chup_other by apart D].

(** What a piece of code that only rearranges the tree keeps: the order of the
    nodes, and the heap outside the tree. *)
Definition moves (s : rb_state) (t : tree) (s' : rb_state) (t' : tree) : Prop :=
  rb_holds s' t' ∧ inorder t' = inorder t ∧ (∀ z, cnt t z = 0%nat → rb_heap s' !! z = rb_heap s !! z).

Lemma moves_refl s t : rb_holds s t → moves s t s t.
Proof. by split. Qed.

Lemma moves_trans s t s1 t1 s2 t2 : moves s t s1 t1 → moves s1 t1 s2 t2 → moves s t s2 t2.
Proof.
  intros (H1 & C1 & U1) (H2 & C2 & U2). split_and!; [done|by rewrite C2|]. intros z Hz.
  rewrite U2 by (by rewrite cnt_inorder, C1, <-cnt_inorder). by apply U1.
Qed.

(** ** Reads and recolouring *)

Section holds.
Implicit Types (k : list frame) (s : rb_state).

Lemma holds_plug s k t : rb_holds s (plug k t) ↔
  rb_root s = cptr k (ptr t) ∧ cshape (rb_heap s) 0 k (ptr t) ∧ shape (rb_heap s) (cpar 0 k) t ∧ distinct (plug k t).
Proof. unfold rb_holds. rewrite ptr_plug, shape_plug. tauto. Qed.

Lemma ld_holds s k d c a x b : rb_holds s (plug k (bin d c a x b)) → ld x s = Some (mkn (cpar 0 k) c d (ptr a) (ptr b), s).
Proof.
  rewrite holds_plug, shape_bin. destruct s as [h r]. intros (_ & _ & (_ & Hx & _) & _). by apply ld_run.
Qed.

Lemma holds_nonzero s k d c a x b : rb_holds s (plug k (bin d c a x b)) → x ≠ 0.
Proof. rewrite holds_plug, shape_bin. tauto. Qed.

Lemma recolor_run s k d c a x b c' : rb_holds s (plug k (bin d c a x b)) →
  ∃ s', st x (set_rb_color (cz c')) s = Some (tt, s') ∧ moves s (plug k (bin d c a x b)) s' (plug k (bin d c' a x b)).
Proof.
  intros Hs. pose proof Hs as (Hr & Hk & Hx & D)%holds_plug. rewrite ptr_bin in Hr, Hk. apply shape_bin in Hx as (H0 & Hx & Ha & Hb).
  destruct s as [h r]. cbn in *. eexists. split; [apply st_run; by rewrite Hx|]. split; [|split].
  - rewrite holds_plug, shape_bin, ptr_bin. cbn. split_and!; [done| |done|by rewrite lookup_alter_eq, Hx; cbn; rewrite set_color_mkn|..].
    + eapply cshape_agree; [|done]. intros z Hz. by skip_writes D.
    + eapply shape_agree; [|done]. intros z Hz. by skip_writes D.
    + eapply shape_agree; [|done]. intros z Hz. by skip_writes D.
    + intros z. specialize (D z). rewrite cnt_plug, cnt_bin in *. lia.
  - apply inorder_plug. by destruct d.
  - intros z Hz. cbn. apply lookup_alter_ne. intros Heq. rewrite cnt_plug, cnt_bin, (one_eq x z Heq) in Hz. lia.
Qed.
End holds.

(** * The rotations as one *)

Definition turn (d : side) (node : Z) : RBM unit :=
  n ← ld node;
  let up := child (opp d) n in
  u ← ld up;
  st node (set_child (opp d) (child d u));;
  unless_null (child d u) (st (child d u) (set_rb_parent node));;
  st up (set_child d node);;
  n ← ld node;
  st up (set_rb_parent (rb_parent n));;
  redirect d (rb_parent n) node up;;
  st node (set_rb_parent up).

Lemma rotate_left : __rb_rotate_left = turn SL.
Proof. reflexivity. Qed.
Lemma rotate_right : __rb_rotate_right = turn SR.
Proof. reflexivity. Qed.

Section rotation.
Context (s : rb_state) (k : list frame) (d : side) (c c' : color) (a b e : tree) (x y : Z).

Lemma turn_run : rb_holds s (plug k (bin d c a x (bin d c' b y e))) →
  ∃ s', turn d x s = Some (tt, s') ∧
    moves s (plug k (bin d c a x (bin d c' b y e))) s' (plug k (bin d c' (bin d c a x b) y e)).
Proof.
  intros Hs. pose proof Hs as (Hr & Hk & Hx & D)%holds_plug. rewrite ptr_bin in Hr, Hk.
  apply shape_bin in Hx as (Hx0 & Hx & Ha & Hy). rewrite ptr_bin in Hx. apply shape_bin in Hy as (Hy0 & Hy & Hb & He).
  destruct s as [h r]. cbn in *. unfold turn.
  erewrite es_bind by by apply ld_run. cbv zeta. rewrite child_mkn_opp. erewrite es_bind by by apply ld_run. rewrite child_mkn.
  erewrite es_bind by (apply st_run; by rewrite Hx).
  assert (shape (alter (set_child (opp d) (ptr b)) x h) y b) as Hb1.
  { eapply shape_agree; [|done]. intros z Hz. by skip_writes D. }
  erewrite es_bind by by apply (reparent_run x b _ r y).
  erewrite es_bind by (apply st_run; by skip_writes D; rewrite Hy).
  erewrite es_bind by (apply ld_run; skip_writes D; rewrite lookup_alter_eq, Hx; cbn; by rewrite set_child_mkn_opp).
  rewrite parent_mkn. erewrite es_bind by (apply st_run; rewrite lookup_alter_eq; skip_writes D; by rewrite Hy).
  erewrite es_bind.
  2: { apply (redirect_run d k x y); [|done|apart D]. eapply cshape_agree; [|done]. intros z Hz. by skip_writes D. }
  eexists. split; [apply st_run; skip_writes D; rewrite lookup_alter_eq, Hx; by eexists|]. split; [|split].
  - rewrite holds_plug, !shape_bin, !ptr_bin. cbn. split_and!.
    + by rewrite Hr, root_up_cptr.
    + eapply cshape_agree; [intros z Hz; by rewrite lookup_alter_ne by apart D|].
      eapply chup_cshape; [intros z; apart_le D|]. eapply cshape_agree; [|done]. intros z Hz. by skip_writes D.
    + done.
    + skip_writes D. rewrite lookup_alter_eq, lookup_alter_eq. skip_writes D. rewrite Hy. cbn. by rewrite set_child_mkn, set_parent_mkn.
    + done.
    + rewrite lookup_alter_eq. skip_writes D. rewrite lookup_alter_eq, Hx. cbn. by rewrite set_child_mkn_opp, set_parent_mkn.
    + eapply shape_agree; [|done]. intros z Hz. by skip_writes D.
    + eapply shape_agree; [|eapply (reparent_shape h y x b); [intros z; apart_le D|done]]. intros z Hz. skip_writes D.
      rewrite (reparent_agree x b _ h); [done|]. apply lookup_alter_ne. apart D.
    + eapply shape_agree; [|done]. intros z Hz. by skip_writes D.
    + intros z. apart_le D.
  - apply inorder_plug. destruct d; cbn; by rewrite <-app_assoc.
  - intros z Hz. assert (x ≠ z ∧ y ≠ z ∧ cnt b z = 0%nat ∧ cctx k z = 0%nat) as (? & ? & ? & ?).
    { rewrite cnt_plug, !cnt_bin in Hz. split_and!; [intros Hq..| |]; try (rewrite (one_eq _ _ Hq) in Hz); lia. }
    cbn. rewrite lookup_alter_ne, chup_other, !lookup_alter_ne, reparent_other, lookup_alter_ne by done. done.
Qed.
End rotation.
