(* ===== verification/RbInsert.v ===== *)
(** Red-black trees, and [rb_insert_color] on them (lib/rbtree.c). *)
From S2P Require Import Prelude RbTree RbShape.
From stdpp Require Import list options.
#[local] Set Default Proof Using "Type*".
Open Scope cint_scope.
Open Scope Z_scope.

(** * Red-black trees *)

Definition redb (t : tree) : bool := match t with Node Red _ _ _ => true | _ => false end.
Definition black (t : tree) : Prop := redb t = false.

(** [rb n t]: no red node has a red child, and every path down passes [n] black
    nodes. *)
Fixpoint rb (n : nat) (t : tree) : Prop :=
  match t with
  | Leaf => n = O
  | Node Red l _ r => black l ∧ black r ∧ rb n l ∧ rb n r
  | Node Black l _ r => match n with O => False | S n => rb n l ∧ rb n r end
  end.

Definition red_black (t : tree) : Prop := black t ∧ ∃ n, rb n t.

(** The same of a context, for a hole of black height [n]. *)
Definition black_top (k : list frame) : Prop := match k with Fr _ Black _ _ :: _ => True | _ => False end.
Fixpoint crb (n : nat) (k : list frame) : Prop :=
  match k with
  | [] => True
  | Fr _ Red _ s :: k => black s ∧ rb n s ∧ black_top k ∧ crb n k
  | Fr _ Black _ s :: k => rb n s ∧ crb (S n) k
  end.

Lemma rb_bin n d c t x s : rb n (bin d c t x s) ↔
  match c with
  | Red => black t ∧ black s ∧ rb n t ∧ rb n s
  | Black => match n with O => False | S n => rb n t ∧ rb n s end
  end.
Proof. destruct d, c, n; cbn; tauto. Qed.

Lemma redb_bin d c t x s : redb (bin d c t x s) = match c with Red => true | Black => false end.
Proof. by destruct d, c. Qed.

Lemma bin_turn d d' c t x s : ∃ t' s', bin d c t x s = bin d' c t' x s' ∧ (t' = t ∧ s' = s ∨ t' = s ∧ s' = t).
Proof. destruct d, d'; eexists _, _; cbn; auto. Qed.

Lemma plug_rb k : ∀ n t, crb n k → rb n t → black t ∨ black_top k →
  (∃ m, rb m (plug k t)) ∧ (black t ∨ k ≠ [] → black (plug k t)).
Proof.
  induction k as [|[d c x s] k IH]; intros n t Hk Ht Hb; cbn [plug fill].
  - split; [by exists n|]. by intros [?|].
  - destruct c; cbn in Hk.
    + destruct Hk as (Hs & Hsn & Htop & Hk). destruct Hb as [Hb|[]].
      destruct (IH n (bin d Red t x s) Hk) as [Hm Hbl]; [by rewrite rb_bin|by right|]. split; [done|]. intros _. apply Hbl. right.
      by destruct k.
    + destruct Hk as (Hsn & Hk). assert (black (bin d Black t x s)) as Hbb by (unfold black; by rewrite redb_bin).
      destruct (IH (S n) (bin d Black t x s) Hk) as [Hm Hbl]; [by rewrite rb_bin|by left|]. split; [done|]. intros _. apply Hbl. by left.
Qed.

(** Taking a red-black tree apart. *)
Lemma rb_plug k : ∀ t m, black (plug k t) → rb m (plug k t) → ∃ n, crb n k ∧ rb n t ∧ (black t ∨ black_top k).
Proof.
  induction k as [|[d c x s] k IH]; intros t m Hb Hm; cbn [plug fill] in *.
  - exists m. split_and!; [done|done|by left].
  - destruct (IH _ _ Hb Hm) as (n & Hk & Ht & Htop). rewrite rb_bin in Ht. unfold black in Htop at 1. rewrite redb_bin in Htop.
    destruct c.
    + destruct Ht as (? & ? & ? & ?), Htop as [|Htop]; [done|]. exists n. cbn. split_and!; auto.
    + destruct n as [|n]; [done|]. destruct Ht. exists n. cbn. auto.
Qed.

(** A tree that becomes red-black when its root is painted black. *)
Definition nearly (t : tree) : Prop := ∃ d c l x r m, t = bin d c l x r ∧ rb m l ∧ rb m r.

Lemma plug_nearly k n d a x b : crb n k → black_top k → rb n (bin d Red a x b) → nearly (plug k (bin d Red a x b)).
Proof.
  intros Hk Htop Ht. destruct (plug_rb k n (bin d Red a x b) Hk Ht (or_intror Htop)) as [[m Hm] Hb].
  assert (black (plug k (bin d Red a x b))) as Hbl by (apply Hb; right; by destruct k).
  destruct (plug k (bin d Red a x b)) as [|c l y r] eqn:E.
  - exfalso. pose proof (ptr_plug k (bin d Red a x b)) as Hp. rewrite ptr_bin, E in Hp.
    pose proof (cnt_plug k (bin d Red a x b) x) as Hc. rewrite E, cnt_bin, (one_eq x x) in Hc by done. cbn in Hc. lia.
  - unfold black in Hbl. destruct c; [done|]. destruct m as [|m]; [done|]. exists SL, Black, l, y, r, m. split; [done|exact Hm].
Qed.

(** * Reading colours *)

Section colours.
Context (s : rb_state).

Lemma is_red_run k t : rb_holds s (plug k t) → is_red (ptr t) s = Some (redb t, s).
Proof.
  intros Hs. unfold is_red. destruct t as [|c l x r]; [done|]. change (Node c l x r) with (bin SL c l x r) in *.
  pose proof (holds_nonzero _ _ _ _ _ _ _ Hs) as Hx. rewrite ptr_bin. destruct (Z.eqb_spec x 0); [done|].
  erewrite es_bind by (by apply ld_holds in Hs). rewrite color_mkn, redb_bin. by destruct c.
Qed.

Lemma is_black_run k t : rb_holds s (plug k t) → is_black (ptr t) s = Some (negb (redb t), s).
Proof.
  intros Hs. unfold is_black. destruct t as [|c l x r]; [done|]. change (Node c l x r) with (bin SL c l x r) in *.
  pose proof (holds_nonzero _ _ _ _ _ _ _ Hs) as Hx. rewrite ptr_bin. destruct (Z.eqb_spec x 0); [done|].
  erewrite es_bind by (by apply ld_holds in Hs). rewrite color_mkn, redb_bin. by destruct c.
Qed.

(** The other child as the focus. *)
Lemma other_side k d c t x r : plug k (bin d c t x r) = plug (Fr (opp d) c x t :: k) r.
Proof. cbn [plug fill]. by rewrite bin_opp. Qed.

Lemma distinct_child k d c t x r d' : rb_holds s (plug k (bin d c t x r)) → t ≠ Leaf →
  (child d' (mkn (cpar 0 k) c d (ptr t) (ptr r)) =? ptr t) = bool_decide (d' = d).
Proof.
  intros Hs Ht. pose proof (cnt_ptr t Ht) as Hc. apply holds_plug in Hs as (_ & _ & (_ & _ & Hst & Hsr)%shape_bin & D).
  destruct (shape_live _ _ _ _ Hst Hc) as [H0 _].
  assert (ptr r ≠ ptr t) as Hne.
  { intros Heq. destruct r as [|c' l y r']; [cbn in Heq; congruence|]. pose proof (D (ptr t)) as Dz. rewrite cnt_plug, cnt_bin in Dz.
    pose proof (cnt_ptr (Node c' l y r') ltac:(done)) as Hcr. rewrite Heq in Hcr. lia. }
  destruct (decide (d' = d)) as [->|Hd].
  - rewrite child_mkn, bool_decide_true by done. by apply Z.eqb_eq.
  - assert (d' = opp d) as -> by (by destruct d, d'). rewrite child_mkn_opp, bool_decide_false by (by destruct d). by apply Z.eqb_neq.
Qed.
End colours.

(** * One round, on either side *)

Lemma es_seq3 {S A} (m1 m2 m3 : ES S unit) (a : A) s s' :
  (m1;; m2;; m3) s = Some (tt, s') → (m1;; m2;; m3;; mret a) s = Some (a, s').
Proof.
  unfold mbind, ES_bind. destruct (m1 s) as [[_ s1]|]; [|done]. destruct (m2 s1) as [[_ s2]|]; [|done]. by intros ->.
Qed.

Definition insert_side (d : side) (node parent gparent : Z) : RBM Z :=
  g ← ld gparent;
  let uncle := child (opp d) g in
  red ← is_red uncle;
  if (red : bool) then
    st uncle (set_rb_color RB_BLACK);;
    st parent (set_rb_color RB_BLACK);;
    st gparent (set_rb_color RB_RED);;
    mret gparent
  else
    p ← ld parent;
    '(parent, node) ←
      (if child (opp d) p =? node then turn d parent;; mret (node, parent) else mret (parent, node));
    st parent (set_rb_color RB_BLACK);;
    st gparent (set_rb_color RB_RED);;
    turn (opp d) gparent;;
    mret node.

Lemma insert_left_side : insert_left = insert_side SL.
Proof. reflexivity. Qed.
Lemma insert_right_side : insert_right = insert_side SR.
Proof. reflexivity. Qed.

Section round.
Context (s : rb_state) (k : list frame) (d1 d : side) (X u v : tree) (p g : Z).

(** A red uncle: colours move up. *)
Lemma insert_recolor d3 v1 y v2 node : v = bin d3 Red v1 y v2 →
  rb_holds s (plug k (bin d1 Black (bin d Red X p u) g v)) →
  ∃ s', insert_side d1 node p g s = Some (g, s') ∧
    moves s (plug k (bin d1 Black (bin d Red X p u) g v)) s'
      (plug k (bin d1 Red (bin d Black X p u) g (bin d3 Black v1 y v2))).
Proof.
  intros -> Hs. unfold insert_side. erewrite es_bind by by eapply ld_holds. cbv zeta. rewrite child_mkn_opp, ptr_bin.
  rewrite other_side in Hs. pose proof (is_red_run _ _ _ Hs) as Hred. rewrite ptr_bin, redb_bin in Hred.
  erewrite es_bind by exact Hred. cbv iota.
  destruct (recolor_run _ _ _ _ _ _ _ Black Hs) as (s1 & Hr1 & M1). erewrite es_bind by exact Hr1.
  rewrite <-!other_side in M1. destruct (recolor_run s1 (Fr d1 Black g (bin d3 Black v1 y v2) :: k) d Red X p u Black (proj1 M1)) as (s2 & Hr2 & M2).
  erewrite es_bind by exact Hr2.
  destruct (recolor_run s2 k d1 Black (bin d Black X p u) g (bin d3 Black v1 y v2) Red (proj1 M2)) as (s3 & Hr3 & M3).
  erewrite es_bind by exact Hr3. exists s3. split; [done|]. eapply moves_trans; [exact M1|]. eapply moves_trans; [exact M2|exact M3].
Qed.

(** A black uncle and the grandparent's turn. *)
Lemma insert_turn_run :
  rb_holds s (plug k (bin d1 Black (bin d1 Red X p u) g v)) →
  ∃ s', (st p (set_rb_color RB_BLACK);; st g (set_rb_color RB_RED);; turn (opp d1) g) s = Some (tt, s') ∧
    moves s (plug k (bin d1 Black (bin d1 Red X p u) g v)) s' (plug k (bin d1 Black X p (bin d1 Red u g v))).
Proof.
  intros Hs. destruct (recolor_run s (Fr d1 Black g v :: k) d1 Red X p u Black Hs) as (s2 & Hr2 & M2). erewrite es_bind by exact Hr2.
  destruct (recolor_run s2 k d1 Black (bin d1 Black X p u) g v Red (proj1 M2)) as (s3 & Hr3 & M3). erewrite es_bind by exact Hr3.
  pose proof (turn_run s3 k (opp d1) Red Black v u X g p) as Hrot. rewrite !bin_opp in Hrot.
  destruct (Hrot (proj1 M3)) as (s4 & Hr4 & M4). exists s4. split; [exact Hr4|].
  eapply moves_trans; [exact M2|]. eapply moves_trans; [exact M3|exact M4].
Qed.
End round.

Section turning.
Context (s : rb_state) (k : list frame) (d1 : side) (u v : tree) (p g : Z).

Lemma insert_black_start X node : redb v = false → rb_holds s (plug k (bin d1 Black X g v)) →
  insert_side d1 node p g s = (
    p' ← ld p;
    '(parent, node) ← (if child (opp d1) p' =? node then turn d1 p;; mret (node, p) else mret (p, node));
    st parent (set_rb_color RB_BLACK);; st g (set_rb_color RB_RED);; turn (opp d1) g;; mret node) s.
Proof.
  intros Hv Hs. unfold insert_side. erewrite es_bind by by eapply ld_holds. cbv zeta. rewrite child_mkn_opp.
  rewrite other_side in Hs. pose proof (is_red_run _ _ _ Hs) as Hred. erewrite es_bind by exact Hred. by rewrite Hv.
Qed.

(** The node is on the outer side of its parent. *)
Lemma insert_outer X node : redb v = false → ptr X = node → X ≠ Leaf →
  rb_holds s (plug k (bin d1 Black (bin d1 Red X p u) g v)) →
  ∃ s', insert_side d1 node p g s = Some (node, s') ∧
    moves s (plug k (bin d1 Black (bin d1 Red X p u) g v)) s' (plug k (bin d1 Black X p (bin d1 Red u g v))).
Proof.
  intros Hv Hn HX Hs. erewrite insert_black_start by done.
  erewrite es_bind by by apply (ld_holds s (Fr d1 Black g v :: k)).
  pose proof (distinct_child s (Fr d1 Black g v :: k) d1 Red X p u (opp d1) Hs HX) as Hc. rewrite Hn, bool_decide_false in Hc by (by destruct d1).
  rewrite Hn, Hc. erewrite es_bind by done. cbv beta iota.
  destruct (insert_turn_run s k d1 X u v p g Hs) as (s' & Hr & M). exists s'. split; [|done].
  by apply es_seq3.
Qed.

(** And on the inner one: its parent turns first. *)
Lemma insert_inner a node b : redb v = false →
  rb_holds s (plug k (bin d1 Black (bin (opp d1) Red (bin d1 Red a node b) p u) g v)) →
  ∃ s', insert_side d1 node p g s = Some (p, s') ∧
    moves s (plug k (bin d1 Black (bin (opp d1) Red (bin d1 Red a node b) p u) g v)) s'
      (plug k (bin d1 Black (bin d1 Red u p a) node (bin d1 Red b g v))).
Proof.
  intros Hv Hs. erewrite insert_black_start by done.
  erewrite es_bind by by apply (ld_holds s (Fr d1 Black g v :: k)).
  assert (bin d1 Red a node b ≠ Leaf) as HX by by destruct d1.
  pose proof (distinct_child s (Fr d1 Black g v :: k) (opp d1) Red (bin d1 Red a node b) p u (opp d1) Hs HX) as Hc.
  rewrite ptr_bin, bool_decide_true in Hc by done. rewrite ptr_bin, Hc. rewrite bin_opp in *.
  destruct (turn_run s (Fr d1 Black g v :: k) d1 Red Red u a b p node Hs) as (s1 & Hr1 & M1).
  erewrite es_bind by (erewrite es_bind by exact Hr1; done). cbv beta iota.
  destruct (insert_turn_run s1 k d1 (bin d1 Red u p a) b v node g (proj1 M1)) as (s' & Hr & M). exists s'.
  split; [|by eapply moves_trans]. by apply es_seq3.
Qed.
End turning.

(** * The loop *)

Definition on_path (k : list frame) : list Z := map (λ '(Fr _ _ x _), x) k.

Lemma on_path_cnt k z : (count_occ Z.eq_dec (on_path k) z <= cctx k z)%nat.
Proof.
  unfold on_path. induction k as [|[d c x s] k IH]; cbn; [done|]. destruct (Z.eq_dec x z) as [Heq|]; [rewrite (one_eq x z Heq)|]; lia.
Qed.

Lemma cshape_live h par k p z : cshape h par k p → z ∈ on_path k → is_Some (h !! z).
Proof.
  revert p. induction k as [|[d c x s] k IH]; intros p; cbn; [intros _ Hz; by apply elem_of_nil in Hz|].
  intros (_ & Hh & _ & Hk) [->|Hz]%elem_of_cons; [by rewrite Hh|by eapply IH].
Qed.

(** The fuel of the loops is enough. *)
Lemma path_length s k t : rb_holds s (plug k t) → (length k <= size (rb_heap s))%nat.
Proof.
  intros (_ & Hk & _ & D)%holds_plug. rewrite <-(length_map (λ '(Fr _ _ x _), x) k). apply nodup_size.
  - apply NoDup_ListNoDup, (NoDup_count_occ Z.eq_dec). intros z. pose proof (on_path_cnt k z). pose proof (D z) as Dz.
    rewrite cnt_plug in Dz. unfold on_path in *. lia.
  - intros z. by eapply cshape_live.
Qed.

(** The branch for the side the parent is on. *)
Lemma branch_side s k d c a x b {A} (f g : RBM A) : rb_holds s (plug k (bin d c a x b)) → a ≠ Leaf →
  (if ptr a =? child SL (mkn (cpar 0 k) c d (ptr a) (ptr b)) then f else g) = match d with SL => f | SR => g end.
Proof.
  intros Hs Ha. rewrite Z.eqb_sym, (distinct_child s k d c a x b SL Hs Ha). by destruct d.
Qed.

Lemma insert_loop_run : ∀ fuel k s d a x b n,
  rb_holds s (plug k (bin d Red a x b)) → crb n k → rb n (bin d Red a x b) → (length k < fuel)%nat →
  ∃ s' t', insert_color_loop fuel x s = Some (tt, s') ∧ moves s (plug k (bin d Red a x b)) s' t' ∧ nearly t'.
Proof.
  induction fuel as [|fuel IH]; intros k s d a x b n Hs Hk Hx Hf; [lia|]. cbn [insert_color_loop].
  erewrite es_bind by by eapply ld_holds. cbv zeta. rewrite parent_mkn.
  destruct k as [|[d0 c p u] k1]; cbn [cpar].
  - erewrite es_bind by done. cbn. exists s, (bin d Red a x b). split; [done|]. split; [by apply moves_refl|].
    exists d, Red, a, x, b, n. rewrite rb_bin in Hx. tauto.
  - pose proof (is_red_run s k1 (bin d0 c (bin d Red a x b) p u) Hs) as Hred. rewrite ptr_bin, redb_bin in Hred.
    erewrite es_bind by exact Hred. destruct c; cbn [negb].
    2: { exists s, (plug (Fr d0 Black p u :: k1) (bin d Red a x b)). split; [done|]. split; [by apply moves_refl|]. by apply (plug_nearly _ n). }
    destruct Hk as (Hu & Hun & Htop & Hk1). destruct k1 as [|[d1 [] g v] k]; [done|done|]. destruct Hk1 as (Hvn & Hk).
    erewrite es_bind by by apply (ld_holds s (Fr d1 Black g v :: k)). rewrite parent_mkn. cbn [cpar].
    assert (rb_holds s (plug k (bin d1 Black (bin d0 Red (bin d Red a x b) p u) g v))) as Hs1 by exact Hs.
    erewrite es_bind by by eapply ld_holds.
    pose proof (branch_side s k d1 Black _ g v (insert_left x p g) (insert_right x p g) Hs1 ltac:(by destruct d0)) as Hb.
    rewrite ptr_bin in Hb. rewrite ptr_bin. unfold child in Hb. rewrite Hb. clear Hb.
    assert (match d1 with SL => insert_left x p g | SR => insert_right x p g end = insert_side d1 x p g) as -> by (by destruct d1).
    destruct (redb v) eqn:Hv.
    + destruct v as [|[] v1 y v2]; [done| |done]. change (Node Red v1 y v2) with (bin SL Red v1 y v2) in *.
      destruct (insert_recolor s k d1 d0 _ u _ p g SL v1 y v2 x eq_refl Hs1) as (s1 & Hr1 & M1). erewrite es_bind by exact Hr1.
      destruct (IH k s1 d1 _ g _ (S n) (proj1 M1) Hk) as (s2 & t2 & Hr2 & M2 & N2); [| cbn in Hf; lia |].
      { rewrite rb_bin in *. unfold black. rewrite !redb_bin, !rb_bin. tauto. }
      exists s2, t2. split; [done|]. split; [|done]. by eapply moves_trans.
    + destruct (decide (d0 = d1)) as [->|Hd].
      * destruct (insert_outer s k d1 u v p g (bin d Red a x b) x Hv (ptr_bin _ _ _ _ _) ltac:(by destruct d) Hs1) as (s1 & Hr1 & M1).
        erewrite es_bind by exact Hr1.
        destruct (IH (Fr d1 Black p (bin d1 Red u g v) :: k) s1 d a x b n (proj1 M1)) as (s2 & t2 & Hr2 & M2 & N2); [|done|cbn in *; lia|].
        { cbn. rewrite rb_bin. tauto. }
        exists s2, t2. split; [done|]. split; [|done]. by eapply moves_trans.
      * assert (d0 = opp d1) as -> by (by destruct d0, d1). destruct (bin_turn d d1 Red a x b) as (a' & b' & Heq & Hab). rewrite Heq in *.
        destruct (insert_inner s k d1 u v p g a' x b' Hv Hs1) as (s1 & Hr1 & M1). erewrite es_bind by exact Hr1.
        rewrite rb_bin in Hx.
        destruct (IH (Fr d1 Black x (bin d1 Red b' g v) :: k) s1 d1 u p a' n (proj1 M1)) as (s2 & t2 & Hr2 & M2 & N2);
          [cbn; rewrite rb_bin; tauto|rewrite rb_bin; tauto|cbn in *; lia|].
        exists s2, t2. split; [done|]. split; [|done]. by eapply moves_trans.
Qed.

Lemma insert_color_run k s d a x b n :
  rb_holds s (plug k (bin d Red a x b)) → crb n k → rb n (bin d Red a x b) →
  ∃ s' t', rb_insert_color x s = Some (tt, s') ∧ moves s (plug k (bin d Red a x b)) s' t' ∧ red_black t'.
Proof.
  intros Hs Hk Hx. unfold rb_insert_color. erewrite es_bind by done.
  destruct (insert_loop_run (S (size (rb_heap s))) k s d a x b n Hs Hk Hx) as (s1 & t1 & Hr1 & M1 & (d1 & c & l & y & r & m & -> & Hl & Hr)).
  { pose proof (path_length s k _ Hs). lia. }
  erewrite es_bind by exact Hr1. destruct M1 as (H1 & M1). erewrite es_bind by done. cbv beta.
  assert (rb_root s1 = y) as -> by (destruct H1 as [-> _]; apply ptr_bin).
  destruct (recolor_run s1 [] d1 c l y r Black H1) as (s2 & Hr2 & M2). exists s2, (bin d1 Black l y r). split; [exact Hr2|]. split.
  - eapply moves_trans; [split; [exact H1|exact M1]|exact M2].
  - split; [by unfold black; rewrite redb_bin|]. exists (S m). by rewrite rb_bin.
Qed.

(** * Linking a new leaf *)

(** The pointer to the hole, and the nodes before and after it. *)
Definition hole_slot (k : list frame) : rb_slot :=
  match k with [] => RootSlot | Fr SL _ p _ :: _ => LeftOf p | Fr SR _ p _ :: _ => RightOf p end.

Fixpoint before_hole (k : list frame) : list Z :=
  match k with
  | [] => []
  | Fr SL _ _ _ :: k => before_hole k
  | Fr SR _ x s :: k => before_hole k ++ inorder s ++ [x]
  end.
Fixpoint after_hole (k : list frame) : list Z :=
  match k with
  | [] => []
  | Fr SL _ x s :: k => x :: inorder s ++ after_hole k
  | Fr SR _ _ _ :: k => after_hole k
  end.

Lemma inorder_context k t : inorder (plug k t) = before_hole k ++ inorder t ++ after_hole k.
Proof.
  revert t. induction k as [|[d c x s] k IH]; intros t; cbn [plug fill before_hole after_hole]; [by rewrite app_nil_r|].
  rewrite IH. destruct d; cbn; by rewrite <-!app_assoc.
Qed.

(** Every gap in the order is a leaf. *)
Lemma gap_leaf t l1 l2 : inorder t = l1 ++ l2 → ∃ k, t = plug k Leaf ∧ before_hole k = l1 ∧ after_hole k = l2.
Proof.
  enough (∀ k l1 l2, inorder t = l1 ++ l2 → ∃ k', plug k t = plug k' Leaf ∧ before_hole k' = before_hole k ++ l1 ∧ after_hole k' = l2 ++ after_hole k) as Hgen.
  { intros Hl. destruct (Hgen [] l1 l2 Hl) as (k & Ht & Hb & Ha). exists k. split; [done|]. cbn in Hb, Ha. by rewrite app_nil_r in Ha. }
  clear l1 l2. induction t as [|c l IHl x r IHr]; intros k l1 l2 Hl; cbn in Hl.
  - symmetry in Hl. apply app_eq_nil in Hl as [-> ->]. exists k. by rewrite app_nil_r.
  - apply app_eq_app in Hl as (l3 & [[Hl Hl2]|[-> Hl]]).
    + (* the gap is left of the root, or at its end *)
      subst l2. destruct (IHl (Fr SL c x r :: k) l1 l3 Hl) as (k' & Ht & Hb & Ha). exists k'. split; [exact Ht|]. split; [exact Hb|].
      rewrite Ha. cbn. by rewrite <-app_assoc.
    + destruct l3 as [|y l3]; cbn in Hl.
      * subst l2. destruct (IHl (Fr SL c x r :: k) (inorder l) []) as (k' & Ht & Hb & Ha); [by rewrite app_nil_r|]. exists k'.
        split; [exact Ht|]. rewrite app_nil_r. split; [exact Hb|]. rewrite Ha. done.
      * injection Hl as <- Hl. destruct (IHr (Fr SR c x l :: k) l3 l2 Hl) as (k' & Ht & Hb & Ha). exists k'. split; [exact Ht|].
        rewrite Hb, Ha. cbn. by rewrite <-!app_assoc.
Qed.

Lemma st_slot_run k h r x p : cshape h 0 k p →
  st_slot (hole_slot k) x (mk_rb_state h r) = Some (tt, mk_rb_state (chup k x h) (root_up k x r)).
Proof.
  destruct k as [|[[] c y t] k]; [done|..]; intros (_ & Hy & _); cbn [hole_slot st_slot chup root_up]; apply st_run; by rewrite Hy.
Qed.

Lemma link_leaf_run s k x : rb_holds s (plug k Leaf) → x ≠ 0 → is_Some (rb_heap s !! x) → cnt (plug k Leaf) x = 0%nat →
  ∃ s', rb_link_node x (cpar 0 k) (hole_slot k) s = Some (tt, s') ∧ rb_holds s' (plug k (bin SL Red Leaf x Leaf)) ∧
    (∀ z, cnt (plug k Leaf) z = 0%nat → x ≠ z → rb_heap s' !! z = rb_heap s !! z) ∧ size (rb_heap s') = size (rb_heap s).
Proof.
  intros (Hr & Hk & _ & D)%holds_plug Hx0 [n Hx] Hc. destruct s as [h r]. cbn in Hr, Hk, Hx. unfold rb_link_node.
  assert (cctx k x = 0%nat) as Hkx by (rewrite cnt_plug in Hc; lia).
  erewrite es_bind by (apply st_run; by rewrite Hx).
  set (h1 := alter _ x h). assert (cshape h1 0 k 0) as Hk1.
  { eapply cshape_agree; [|done]. intros z Hz. apply lookup_alter_ne. intros ->. lia. }
  eexists. split; [by eapply st_slot_run|]. split.
  - rewrite holds_plug, shape_bin, ptr_bin. cbn. split_and!.
    + by rewrite Hr, root_up_cptr.
    + eapply chup_cshape; [|done]. intros z. specialize (D z). rewrite cnt_plug in D. lia.
    + done.
    + rewrite chup_other by done. unfold h1. by rewrite lookup_alter_eq, Hx.
    + done.
    + done.
    + intros z. specialize (D z). rewrite cnt_plug in *. cbn in *. unfold one. destruct (decide (x = z)) as [<-|]; lia.
  - split.
    + intros z Hz Hne. cbn. rewrite cnt_plug in Hz. rewrite chup_other by lia. by apply lookup_alter_ne.
    + cbn. unfold h1. destruct k as [|[d c y t] k]; cbn [chup]; rewrite <-!size_dom, ?dom_alter_L; done.
Qed.

(** The whole insertion. *)
Lemma insert_run s k x : rb_holds s (plug k Leaf) → red_black (plug k Leaf) →
  x ≠ 0 → is_Some (rb_heap s !! x) → x ∉ inorder (plug k Leaf) →
  ∃ s' t', (rb_link_node x (cpar 0 k) (hole_slot k);; rb_insert_color x) s = Some (tt, s') ∧
    rb_holds s' t' ∧ red_black t' ∧ inorder t' = before_hole k ++ x :: after_hole k ∧
    (∀ z, z ∉ inorder t' → rb_heap s' !! z = rb_heap s !! z).
Proof.
  intros Hs [Hbl [m Hm]] Hx0 Hx Hni. assert (cnt (plug k Leaf) x = 0%nat) as Hc by (rewrite cnt_elem in Hni; lia).
  destruct (link_leaf_run s k x Hs Hx0 Hx Hc) as (s1 & Hr1 & H1 & U1 & _). erewrite es_bind by exact Hr1.
  destruct (rb_plug k Leaf m Hbl Hm) as (n & Hk & Hl & _). cbn in Hl. subst n.
  destruct (insert_color_run k s1 SL Leaf x Leaf 0 H1 Hk) as (s2 & t2 & Hr2 & (H2 & I2 & U2) & R2); [by cbn|].
  exists s2, t2. split; [exact Hr2|]. rewrite inorder_context in I2. cbn in I2. split_and!; [done..|].
  intros z Hz. rewrite I2, elem_of_app, elem_of_cons in Hz.
  assert (cctx k z = 0%nat ∧ x ≠ z) as [Hkz Hxz].
  { split; [|set_solver]. pose proof (cnt_plug k Leaf z) as Hcz. pose proof (inorder_context k Leaf) as Hin.
    assert (z ∉ inorder (plug k Leaf)) as Hn by (rewrite Hin; cbn; rewrite elem_of_app; tauto). rewrite cnt_elem in Hn. lia. }
  rewrite U2, U1; [done|rewrite cnt_plug; cbn; lia|done|]. rewrite cnt_plug, cnt_bin. cbn. unfold one. rewrite decide_False by done. lia.
Qed.
