(* ===== verification/RbErase.v ===== *)
(** [rb_erase] on red-black trees (lib/rbtree.c). *)
From S2P Require Import Prelude RbTree RbShape RbInsert.
From stdpp Require Import list options.
#[local] Set Default Proof Using "Type*".
Open Scope cint_scope.
Open Scope Z_scope.

(** * One round, on either side *)

(** From the sibling [other], which is black, on. *)
Definition erase_rest (d : side) (parent other : Z) : RBM (Z * Z + Z) :=
  o ← ld other;
  black ← is_black (rb_left o);
  black ← (if (black : bool) then is_black (rb_right o) else mret false);
  if (black : bool) then
    st other (set_rb_color RB_RED);;
    p ← ld parent;
    mret (inl (parent, rb_parent p))
  else
    black ← is_black (child (opp d) o);
    other ← (if (black : bool) then
               unless_null (child d o) (st (child d o) (set_rb_color RB_BLACK));;
               st other (set_rb_color RB_RED);;
               turn (opp d) other;;
               p ← ld parent;
               mret (child (opp d) p)
             else mret other);
    p ← ld parent;
    st other (set_rb_color (rb_color p));;
    st parent (set_rb_color RB_BLACK);;
    o ← ld other;
    unless_null (child (opp d) o) (st (child (opp d) o) (set_rb_color RB_BLACK));;
    turn d parent;;
    root ← ld_root;
    mret (inr root).

Definition erase_side (d : side) (parent : Z) : RBM (Z * Z + Z) :=
  p ← ld parent;
  let other := child (opp d) p in
  o ← ld other;
  other ← (if rb_color o =? RB_RED then
             st other (set_rb_color RB_BLACK);;
             st parent (set_rb_color RB_RED);;
             turn d parent;;
             p ← ld parent;
             mret (child (opp d) p)
           else mret other);
  erase_rest d parent other.

Lemma erase_left_side : erase_left = erase_side SL.
Proof. reflexivity. Qed.
Lemma erase_right_side : erase_right = erase_side SR.
Proof. reflexivity. Qed.

Definition blacken (t : tree) : tree := match t with Leaf => Leaf | Node _ l x r => Node Black l x r end.

Lemma blacken_bin d c t x s : blacken (bin d c t x s) = bin d Black t x s.
Proof. by destruct d. Qed.

Lemma blacken_run s k t : rb_holds s (plug k t) →
  ∃ s', unless_null (ptr t) (st (ptr t) (set_rb_color RB_BLACK)) s = Some (tt, s') ∧ moves s (plug k t) s' (plug k (blacken t)).
Proof.
  intros Hs. destruct t as [|c l x r]; [exists s; split; [done|by apply moves_refl]|].
  change (Node c l x r) with (bin SL c l x r) in *. rewrite ptr_bin, blacken_bin. unfold unless_null.
  pose proof (holds_nonzero _ _ _ _ _ _ _ Hs). destruct (Z.eqb_spec x 0); [done|]. exact (recolor_run s k SL c l x r Black Hs).
Qed.

Lemma is_black_child s k d c a x b d' : rb_holds s (plug k (bin d c a x b)) →
  is_black (child d' (mkn (cpar 0 k) c d (ptr a) (ptr b))) s = Some (negb (redb (if decide (d' = d) then a else b)), s).
Proof.
  intros Hs. destruct (decide (d' = d)) as [->|Hd].
  - rewrite child_mkn. by apply (is_black_run s (Fr d c x b :: k)).
  - assert (d' = opp d) as -> by (by destruct d, d'). rewrite child_mkn_opp. rewrite other_side in Hs. by eapply is_black_run.
Qed.

Section rest.
Context (s : rb_state) (k : list frame) (d : side) (c : color) (t b e : tree) (p o : Z).
Context (Hs : rb_holds s (plug k (bin d c t p (bin d Black b o e)))).

Lemma sibling_focus : rb_holds s (plug (Fr (opp d) c p t :: k) (bin d Black b o e)).
Proof. by rewrite <-other_side. Qed.

Lemma both_black {A} (f : bool → RBM A) :
  (black ← is_black (rb_left (mkn p Black d (ptr b) (ptr e)));
   black ← (if (black : bool) then is_black (rb_right (mkn p Black d (ptr b) (ptr e))) else mret false); f black) s =
  f (negb (redb b) && negb (redb e))%bool s.
Proof.
  pose proof (is_black_child s _ d Black b o e SL sibling_focus) as H1.
  pose proof (is_black_child s _ d Black b o e SR sibling_focus) as H2. cbn [cpar] in H1, H2.
  destruct d; [rewrite decide_True in H1 by done; rewrite decide_False in H2 by done|rewrite decide_False in H1 by done; rewrite decide_True in H2 by done];
    erewrite es_bind by exact H1.
  - destruct (redb b); cbn [negb]; [by erewrite es_bind by done|]. erewrite es_bind by exact H2. done.
  - destruct (redb e); cbn [negb]; [erewrite es_bind by done; by rewrite andb_false_r|]. erewrite es_bind by exact H2. by rewrite andb_true_r.
Qed.

(** No red nephew: the sibling turns red. *)
Lemma rest_black : redb b = false → redb e = false →
  ∃ s', erase_rest d p o s = Some (inl (p, cpar 0 k), s') ∧
    moves s (plug k (bin d c t p (bin d Black b o e))) s' (plug k (bin d c t p (bin d Red b o e))).
Proof.
  intros Hb He. unfold erase_rest. erewrite es_bind by apply (ld_holds _ _ _ _ _ _ _ sibling_focus). cbn [cpar].
  rewrite both_black, Hb, He. cbn [negb andb].
  destruct (recolor_run _ _ _ _ _ _ _ Red sibling_focus) as (s1 & Hr1 & M1). erewrite es_bind by exact Hr1.
  rewrite <-!other_side in M1. erewrite es_bind by apply (ld_holds _ _ _ _ _ _ _ (proj1 M1)). rewrite parent_mkn. by exists s1.
Qed.

(** What follows once the sibling is [y] with a red child on the far side. *)
Lemma rest_turn y b' e' : rb_holds s (plug k (bin d c t p (bin d Black b' y e'))) → redb e' = true →
  ∃ s', (p' ← ld p; st y (set_rb_color (rb_color p'));; st p (set_rb_color RB_BLACK);;
         o' ← ld y; unless_null (child (opp d) o') (st (child (opp d) o') (set_rb_color RB_BLACK));;
         turn d p;; root ← ld_root; mret (inr root : Z * Z + Z)) s =
      Some (inr (cptr k y), s') ∧
    moves s (plug k (bin d c t p (bin d Black b' y e'))) s' (plug k (bin d c (bin d Black t p b') y (blacken e'))).
Proof using s k d c t p.
  clear Hs. intros Hs He. erewrite es_bind by by eapply ld_holds. rewrite color_mkn.
  pose proof Hs as Hf. rewrite other_side in Hf. destruct (recolor_run _ _ _ _ _ _ _ c Hf) as (s1 & Hr1 & M1).
  erewrite es_bind by exact Hr1. rewrite <-!other_side in M1.
  destruct (recolor_run _ _ _ _ _ _ _ Black (proj1 M1)) as (s2 & Hr2 & M2). erewrite es_bind by exact Hr2.
  pose proof (proj1 M2) as Hf2. rewrite other_side in Hf2. erewrite es_bind by apply (ld_holds _ _ _ _ _ _ _ Hf2).
  cbn [cpar]. rewrite child_mkn_opp. rewrite other_side in Hf2.
  destruct (blacken_run _ _ _ Hf2) as (s3 & Hr3 & M3). erewrite es_bind by exact Hr3. rewrite <-!other_side in M3.
  destruct (turn_run s3 k d Black c t b' (blacken e') p y (proj1 M3)) as (s4 & Hr4 & M4). erewrite es_bind by exact Hr4.
  erewrite es_bind by done. exists s4. split.
  - do 3 f_equal. destruct (proj1 M4) as [-> _]. by rewrite ptr_plug, ptr_bin.
  - eapply moves_trans; [exact M1|]. eapply moves_trans; [exact M2|]. eapply moves_trans; [exact M3|exact M4].
Qed.

(** The far nephew is red. *)
Lemma rest_far : redb e = true →
  ∃ s', erase_rest d p o s = Some (inr (cptr k o), s') ∧
    moves s (plug k (bin d c t p (bin d Black b o e))) s' (plug k (bin d c (bin d Black t p b) o (blacken e))).
Proof.
  intros He. unfold erase_rest. erewrite es_bind by apply (ld_holds _ _ _ _ _ _ _ sibling_focus). cbn [cpar].
  rewrite both_black, He. cbn [negb]. rewrite andb_false_r.
  pose proof (is_black_child s _ d Black b o e (opp d) sibling_focus) as H1. cbn [cpar] in H1.
  rewrite decide_False, He in H1 by by destruct d. erewrite es_bind by exact H1. cbn [negb]. erewrite es_bind by done.
  by apply rest_turn.
Qed.
End rest.

Section near.
Context (s : rb_state) (k : list frame) (d : side) (c : color) (t b1 b2 e : tree) (p o y : Z).
Context (Hs : rb_holds s (plug k (bin d c t p (bin d Black (bin d Red b1 y b2) o e)))).

(** Only the near nephew is red: it takes the place of the sibling. *)
Lemma rest_near : redb e = false →
  ∃ s', erase_rest d p o s = Some (inr (cptr k y), s') ∧
    moves s (plug k (bin d c t p (bin d Black (bin d Red b1 y b2) o e))) s'
      (plug k (bin d c (bin d Black t p b1) y (bin d Black b2 o e))).
Proof.
  intros He. pose proof (sibling_focus _ _ _ _ _ _ _ _ _ Hs) as Hf.
  unfold erase_rest. erewrite es_bind by apply (ld_holds _ _ _ _ _ _ _ Hf). cbn [cpar].
  erewrite both_black by exact Hs. rewrite redb_bin, He. cbn [negb andb].
  pose proof (is_black_child s _ d Black _ o e (opp d) Hf) as H1. cbn [cpar] in H1.
  rewrite decide_False, He in H1 by by destruct d. erewrite es_bind by exact H1. cbn [negb]. rewrite child_mkn.
  set (k' := Fr (opp d) c p t :: k) in *.
  destruct (blacken_run s (Fr d Black o e :: k') (bin d Red b1 y b2) Hf) as (s1 & Hr1 & M1). rewrite blacken_bin in M1.
  assert (rb_holds s1 (plug k' (bin d Black (bin d Black b1 y b2) o e))) as H1' by exact (proj1 M1).
  destruct (recolor_run _ _ _ _ _ _ _ Red H1') as (s2 & Hr2 & M2).
  pose proof (turn_run s2 k' (opp d) Red Black e b2 b1 o y) as Ht. rewrite !bin_opp in Ht.
  destruct (Ht (proj1 M2)) as (s3 & Hr3 & M3). unfold k' in M3. rewrite <-!other_side in M3.
  assert (moves s (plug k (bin d c t p (bin d Black (bin d Red b1 y b2) o e))) s3 (plug k (bin d c t p (bin d Black b1 y (bin d Red b2 o e))))) as M.
  { rewrite (other_side k d c t p (bin d Black (bin d Red b1 y b2) o e)). eapply moves_trans; [exact M1|].
    eapply moves_trans; [exact M2|]. unfold k'. rewrite <-!other_side. exact M3. }
  erewrite es_bind.
  2: { erewrite es_bind by exact Hr1. erewrite es_bind by exact Hr2. erewrite es_bind by exact Hr3.
       erewrite es_bind by apply (ld_holds _ _ _ _ _ _ _ (proj1 M3)). by rewrite child_mkn_opp, ptr_bin. }
  destruct (rest_turn s3 k d c t p y b1 (bin d Red b2 o e) (proj1 M3)) as (s4 & Hr4 & M4); [by rewrite redb_bin|].
  rewrite blacken_bin in M4. exists s4. split; [exact Hr4|]. by eapply moves_trans.
Qed.
End near.

(** * The loop *)

(** A tree that lacks a black node to have the height [S n]. *)
Definition deficient (n : nat) (t : tree) : Prop :=
  (redb t = false ∧ rb n t) ∨ (∃ d a x b, t = bin d Red a x b ∧ rb n a ∧ rb n b).

Lemma blacken_red_black n t : rb n t → red_black (blacken t).
Proof.
  destruct t as [|[] l x r]; cbn; intros Hn; (split; [done|]); [by exists 0%nat|exists (S n)|by exists n]. cbn. tauto.
Qed.

(** What is asked of the context of a node of colour [c] with height [S n] below. *)
Definition above (c : color) (n : nat) (k : list frame) : Prop :=
  match c with Red => black_top k ∧ crb n k | Black => crb (S n) k end.

(** How a round ends: with the next deficient tree, or for good. *)
Definition round_ok (len : nat) (s : rb_state) (T : tree) (out : option ((Z * Z + Z) * rb_state)) : Prop :=
  (∃ s' k' t' n', out = Some (inl (ptr t', cpar 0 k'), s') ∧ moves s T s' (plug k' t') ∧
     crb (S n') k' ∧ deficient n' t' ∧ (redb t' = true ∨ (length k' <= len)%nat)) ∨
  (∃ s' t', out = Some (inr (ptr t'), s') ∧ moves s T s' t' ∧ red_black (blacken t')).

Lemma round_ok_moves len s T s1 T1 out : moves s T s1 T1 → round_ok len s1 T1 out → round_ok len s T out.
Proof.
  intros M [(s' & k' & t' & n' & -> & M' & ? & ? & ?)|(s' & t' & -> & M' & ?)]; [left|right].
  - exists s', k', t', n'. split_and!; [done|by eapply moves_trans|done..].
  - exists s', t'. split_and!; [done|by eapply moves_trans|done].
Qed.

Lemma round_ok_mono len len' s T out : (len <= len')%nat → round_ok len s T out → round_ok len' s T out.
Proof.
  intros Hle [(s' & k' & t' & n' & -> & M' & ? & ? & Hor)|?]; [left|by right]. exists s', k', t', n'. split_and!; [done..|].
  destruct Hor; [by left|right; lia].
Qed.

Lemma round_done len s T s' k c n d a x b :
  moves s T s' (plug k (bin d c a x b)) → above c (S n) k → black a → black b → rb (S n) a → rb (S n) b →
  round_ok len s T (Some (inr (cptr k x), s')).
Proof.
  intros M Hk Ha Hb Han Hbn. right. exists s', (plug k (bin d c a x b)). rewrite ptr_plug, ptr_bin. split_and!; [done..|].
  assert (∃ m, rb m (plug k (bin d c a x b))) as [m Hm]; [|by eapply blacken_red_black].
  destruct c; [destruct Hk as [Htop Hk]|]; eapply plug_rb; try done; try (by right); rewrite ?rb_bin; try done.
  left. unfold black. by rewrite redb_bin.
Qed.

Section round.
Context (s : rb_state) (k : list frame) (d : side) (c : color) (t b e : tree) (p o : Z) (n : nat).
Context (Ht : redb t = false) (Htn : rb n t).

(** The sibling is black. *)
Lemma rest_run : rb_holds s (plug k (bin d c t p (bin d Black b o e))) → above c (S n) k → rb n b → rb n e →
  round_ok (match c with Red => 0 | Black => length k end) s (plug k (bin d c t p (bin d Black b o e))) (erase_rest d p o s).
Proof.
  intros Hs Hk Hb He.
  assert (rb (S n) (bin d Black t p b) ∧ redb (bin d Black t p b) = false) as [Hl1 Hl2] by (by rewrite rb_bin, redb_bin).
  destruct (redb e) eqn:Ee; [|destruct (redb b) eqn:Eb].
  - destruct (rest_far s k d c t b e p o Hs Ee) as (s' & -> & M).
    destruct e as [|[] e1 x e2]; [done| |done]. cbn [blacken] in M. cbn in He.
    eapply round_done; [exact M|exact Hk|done|done|done|cbn; tauto].
  - destruct b as [|[] b1 y b2]; [done| |done]. destruct (bin_turn SL d Red b1 y b2) as (b3 & b4 & Heq & Hb34). cbn [bin] in Heq.
    rewrite Heq in *. destruct (rest_near s k d c t b3 b4 e p o y Hs Ee) as (s' & -> & M). rewrite rb_bin in Hb.
    eapply round_done; [exact M|exact Hk|unfold black; by rewrite redb_bin..|rewrite rb_bin; tauto|rewrite rb_bin; tauto].
  - destruct (rest_black s k d c t b e p o Hs Eb Ee) as (s' & -> & M). left.
    exists s', k, (bin d c t p (bin d Red b o e)). rewrite ptr_bin, redb_bin. destruct c.
    + exists n. split_and!; [done|done|apply Hk| |by left]. right. exists d, t, p, (bin d Red b o e).
      split_and!; [done|done|by rewrite rb_bin].
    + exists (S n). split_and!; [done|done|exact Hk| |by right]. left. rewrite redb_bin, rb_bin, rb_bin. by split_and!.
Qed.

End round.

(** Any sibling. *)
Lemma side_run s k d c t p n w : redb t = false → rb n t → rb_holds s (plug k (bin d c t p w)) → crb (S n) (Fr d c p w :: k) →
  round_ok (length k) s (plug k (bin d c t p w)) (erase_side d p s).
Proof.
  intros Ht Htn Hs Hk. unfold erase_side. erewrite es_bind by by eapply ld_holds. cbv zeta. rewrite child_mkn_opp.
  assert (∃ cw b' o' e', w = bin d cw b' o' e') as (cw & b' & o' & e' & ->).
  { destruct w as [|cw l x r]; [|destruct (bin_turn SL d cw l x r) as (l' & r' & Heq & _); by eauto].
    exfalso. destruct c; cbn in Hk; [destruct Hk as (_ & ? & _)|destruct Hk]; done. }
  rewrite ptr_bin. pose proof Hs as Hf. rewrite other_side in Hf. erewrite es_bind by apply (ld_holds _ _ _ _ _ _ _ Hf).
  rewrite color_mkn. destruct cw; cbn [cz]; [change (RB_RED =? RB_RED) with true|change (RB_BLACK =? RB_RED) with false]; cbv iota.
  - destruct c; cbn in Hk; rewrite rb_bin in Hk; [unfold black in Hk; rewrite redb_bin in Hk; by destruct Hk|].
    destruct Hk as ((Hb & He & Hbn & Hen) & Hk).
    destruct (recolor_run _ _ _ _ _ _ _ Black Hf) as (s1 & Hr1 & M1). rewrite <-!other_side in M1.
    destruct (recolor_run _ _ _ _ _ _ _ Red (proj1 M1)) as (s2 & Hr2 & M2).
    destruct (turn_run s2 k d Red Black t b' e' p o' (proj1 M2)) as (s3 & Hr3 & M3).
    assert (∃ b1 x1 b2, b' = bin d Black b1 x1 b2) as (b1 & x1 & b2 & ->).
    { destruct b' as [|[] l x r]; [done|done|]. destruct (bin_turn SL d Black l x r) as (l' & r' & Heq & _). by eauto. }
    pose proof (ld_holds s3 (Fr d Black o' e' :: k) d Red t p (bin d Black b1 x1 b2) (proj1 M3)) as Hp.
    erewrite es_bind.
    2: { erewrite es_bind by exact Hr1. erewrite es_bind by exact Hr2. erewrite es_bind by exact Hr3.
         erewrite es_bind by exact Hp. by rewrite child_mkn_opp, ptr_bin. }
    rewrite rb_bin in Hbn.
    eapply round_ok_moves; [eapply moves_trans; [exact M1|]; eapply moves_trans; [exact M2|exact M3]|].
    apply (round_ok_mono 0); [lia|]. apply (rest_run s3 (Fr d Black o' e' :: k) d Red t b1 b2 p x1 n Ht Htn (proj1 M3)); [|tauto..].
    cbn. tauto.
  - erewrite es_bind by done. destruct c; cbn in Hk; rewrite rb_bin in Hk.
    + apply (round_ok_mono 0); [lia|]. apply (rest_run s k d Red t b' e' p o' n Ht Htn Hs); cbn; tauto.
    + apply (rest_run s k d Black t b' e' p o' n Ht Htn Hs); cbn; tauto.
Qed.

(** The branch for the side the node is on; the node may be [NULL]. *)
Lemma erase_branch s k d c t p w {A} (f g : RBM A) : rb_holds s (plug k (bin d c t p w)) → w ≠ Leaf →
  (if rb_left (mkn (cpar 0 k) c d (ptr t) (ptr w)) =? ptr t then f else g) = match d with SL => f | SR => g end.
Proof.
  intros Hs Hw. change (rb_left (mkn (cpar 0 k) c d (ptr t) (ptr w))) with (child SL (mkn (cpar 0 k) c d (ptr t) (ptr w))).
  destruct d; [by rewrite child_mkn, Z.eqb_refl|]. change SL with (opp SR). rewrite child_mkn_opp.
  rewrite other_side in Hs. cbn [plug fill opp] in Hs. pose proof (distinct_child s k SL c w p t SR Hs Hw) as Hd.
  rewrite bool_decide_false in Hd by done. change SR with (opp SL) in Hd. rewrite child_mkn_opp in Hd.
  by rewrite Z.eqb_sym, Hd.
Qed.

(** The node below a context is not the root. *)
Lemma below_root s f k t : rb_holds s (plug (f :: k) t) → (ptr t =? rb_root s) = false.
Proof.
  intros Hs. apply Z.eqb_neq. intros Heq. destruct f as [d c x w].
  pose proof Hs as (Hr & Hk & Ht & D)%holds_plug.
  assert (∀ k p q, cshape (rb_heap s) p k q → q ≠ 0 → cptr k q ≠ 0 ∧ (cptr k q = q ∨ 1 <= cctx k (cptr k q))%nat) as Hout.
  { clear. induction k as [|[d c x w] k IH]; intros p q; cbn; [auto|]. intros (Hx & _ & _ & Hk) _.
    destruct (IH p x Hk Hx) as [H0 [Heq|Hc]]; (split; [done|]); right; [rewrite Heq, (one_eq x x) by done|]; lia. }
  destruct Hk as (Hx & _ & _ & Hk). cbn [cptr] in Hr. destruct (Hout k 0 x Hk Hx) as [H0 Hor]. rewrite <-Hr, <-Heq in *.
  pose proof (shape_ptr _ _ _ Ht H0) as Hc. pose proof (D (ptr t)) as Dz. rewrite cnt_plug in Dz. cbn [cctx] in Dz.
  destruct Hor as [Hxt|Hcc]; [rewrite (one_eq x (ptr t)) in Dz by done|]; lia.
Qed.

Lemma erase_loop_run : ∀ fuel s k t n,
  rb_holds s (plug k t) → crb (S n) k → deficient n t → (0 < fuel)%nat → redb t = true ∨ (length k < fuel)%nat →
  ∃ s' k' t', erase_color_loop fuel (ptr t) (cpar 0 k) s = Some (ptr t', s') ∧
    moves s (plug k t) s' (plug k' t') ∧ red_black (plug k' (blacken t')).
Proof.
  induction fuel as [|fuel IH]; intros s k t n Hs Hk Hd Hf0 Hf; [lia|]. cbn [erase_color_loop].
  erewrite es_bind by by eapply is_black_run. erewrite es_bind by done. cbv beta.
  destruct Hd as [[Hb Hn]|(d & a & x & b & -> & Ha & Hbn)].
  - rewrite Hb. cbn [negb andb]. destruct k as [|[d c p w] k].
    + destruct Hs as (Hr & Hs). rewrite Hr, Z.eqb_refl. cbn [negb]. exists s, [], t. split; [done|].
      split; [by apply moves_refl|]. by eapply blacken_red_black.
    + rewrite (below_root s (Fr d c p w) k t Hs). cbn [negb cpar]. destruct Hf as [Hf|Hf]; [congruence|]. cbn in Hf.
      assert (w ≠ Leaf) as Hw by (intros ->; destruct c; cbn in Hk; [destruct Hk as (_ & ? & _)|destruct Hk]; done).
      assert (rb_holds s (plug k (bin d c t p w))) as Hs' by exact Hs.
      erewrite es_bind by by eapply ld_holds. rewrite (erase_branch s k d c t p w) by done.
      assert (match d with SL => erase_left p | SR => erase_right p end = erase_side d p) as -> by (by destruct d).
      destruct (side_run s k d c t p n w Hb Hn Hs' Hk) as [(s1 & k1 & t1 & n1 & Hr1 & M1 & Hk1 & Hd1 & Hor)|(s1 & t1 & Hr1 & M1 & Hrb)];
        erewrite es_bind by exact Hr1; cbv beta iota.
      * destruct (IH s1 k1 t1 n1 (proj1 M1) Hk1 Hd1) as (s2 & k2 & t2 & Hr2 & M2 & R2); [lia| |].
        { destruct Hor as [?|?]; [by left|right; lia]. }
        exists s2, k2, t2. split; [exact Hr2|]. split; [by eapply moves_trans|done].
      * exists s1, [], t1. by split_and!.
  - rewrite redb_bin. cbn [negb andb]. exists s, k, (bin d Red a x b). split; [done|]. split; [by apply moves_refl|].
    rewrite blacken_bin. destruct (plug_rb k (S n) (bin d Black a x b) Hk) as [[m Hm] Hbl].
    + rewrite rb_bin. tauto.
    + left. unfold black. by rewrite redb_bin.
    + split; [apply Hbl; left; unfold black; by rewrite redb_bin|by exists m].
Qed.

Lemma erase_color_run s k t n : rb_holds s (plug k t) → crb (S n) k → deficient n t →
  ∃ s' t', __rb_erase_color (ptr t) (cpar 0 k) s = Some (tt, s') ∧ moves s (plug k t) s' t' ∧ red_black t'.
Proof.
  intros Hs Hk Hd. unfold __rb_erase_color. erewrite es_bind by done. cbv beta.
  destruct (erase_loop_run (S (size (rb_heap s))) s k t n Hs Hk Hd) as (s1 & k1 & t1 & Hr1 & M1 & R1); [lia|right; pose proof (path_length _ _ _ Hs); lia|].
  erewrite es_bind by exact Hr1. destruct (blacken_run s1 k1 t1 (proj1 M1)) as (s2 & Hr2 & M2).
  exists s2, (plug k1 (blacken t1)). split; [exact Hr2|]. split; [by eapply moves_trans|done].
Qed.

(** * Taking the node out *)

(** The first node of a tree, and the loop that finds it. *)
Definition on_left (f : frame) : Prop := let '(Fr d _ _ _) := f in d = SL.

Lemma leftmost t : t ≠ Leaf → ∃ k c y r, t = plug k (bin SL c Leaf y r) ∧ Forall on_left k.
Proof.
  intros Ht. enough (∀ k, Forall on_left k → ∃ k' c y r, plug k t = plug k' (bin SL c Leaf y r) ∧ Forall on_left k') as Hgen by exact (Hgen [] (Forall_nil_2 _)).
  induction t as [|c l IHl x r _]; [done|]. intros k Hk. destruct l as [|cl ll xl rl]; [by exists k, c, x, r|].
  destruct (IHl ltac:(done) (Fr SL c x r :: k)) as (k' & c' & y & r' & Heq & Hk'); [by constructor|]. by exists k', c', y, r'.
Qed.

Lemma plug_bin_leaf k d c a x b : plug k (bin d c a x b) ≠ Leaf.
Proof.
  intros Heq. pose proof (cnt_plug k (bin d c a x b) x) as Hc. rewrite Heq, cnt_bin, (one_eq x x) in Hc by done. cbn in Hc. lia.
Qed.

Lemma cptr_last k d c x t p : cptr (k ++ [Fr d c x t]) p = x.
Proof. revert p. induction k as [|[] k IH]; intros p; cbn; [done|apply IH]. Qed.

Lemma before_left k : Forall on_left k → before_hole k = [].
Proof. induction 1 as [|[d c x s] k Hd _ IH]; [done|]. cbn in Hd. subst d. exact IH. Qed.

Lemma before_app k1 k2 : before_hole (k1 ++ k2) = before_hole k2 ++ before_hole k1.
Proof. induction k1 as [|[[] c x s] k1 IH]; cbn; [by rewrite app_nil_r|done|]. by rewrite IH, <-app_assoc. Qed.

Lemma leftmost_rev l : Forall on_left l → ∀ s k0 c y r fuel,
  rb_holds s (plug k0 (plug (rev l) (bin SL c Leaf y r))) → (length l < fuel)%nat →
  leftmost_loop fuel (cptr (rev l) y) s = Some (y, s).
Proof.
  induction 1 as [|[d cx x s'] l Hd _ IH]; intros s k0 c y r fuel Hs Hf;
    (destruct fuel as [|fuel]; [cbn in Hf; lia|]); cbn [leftmost_loop rev] in *.
  - cbn [cptr plug] in *. by erewrite es_bind by by eapply ld_holds.
  - cbn in Hd. subst d. rewrite plug_app in Hs. cbn [plug fill] in Hs. set (t := plug (rev l) _) in *.
    assert (cptr (rev l ++ [Fr SL cx x s']) y = x) as -> by apply cptr_last.
    erewrite es_bind by by eapply ld_holds. cbn [mkn rb_left].
    assert (ptr t = cptr (rev l) y) as Hp by (unfold t; by rewrite ptr_plug, ptr_bin).
    assert (t ≠ Leaf) as Ht by apply plug_bin_leaf.
    pose proof Hs as (_ & _ & (_ & _ & Hst & _)%shape_bin & _)%holds_plug.
    destruct (shape_live _ _ _ _ Hst (cnt_ptr t Ht)) as [H0 _].
    destruct (Z.eqb_spec (ptr t) 0); [done|]. rewrite Hp.
    apply (IH s (Fr SL cx x s' :: k0) c y r fuel Hs). cbn in Hf. lia.
Qed.

Lemma leftmost_run s k0 k c y r fuel : Forall on_left k → rb_holds s (plug k0 (plug k (bin SL c Leaf y r))) → (length k < fuel)%nat →
  leftmost_loop fuel (cptr k y) s = Some (y, s).
Proof.
  intros Hk. rewrite <-(rev_involutive k), length_rev. apply leftmost_rev. rewrite Forall_forall in *.
  intros f Hf. apply Hk. by apply list_elem_of_In, in_rev, list_elem_of_In.
Qed.

Lemma redirect_flip d parent old new s :
  redirect d parent old new s =
    (if negb (parent =? 0) then
       p ← ld parent;
       if child d p =? old then st parent (set_child d new) else st parent (set_child (opp d) new)
     else st_root new) s.
Proof.
  unfold redirect. destruct (negb (parent =? 0)); [|done]. unfold mbind, ES_bind. destruct (ld parent s) as [[p s']|]; [|done].
  by rewrite Z.eqb_sym.
Qed.

(** [y] with the only child [r] leaves its place to it. *)
Lemma replace_run s k d c y r : rb_holds s (plug k (bin d c Leaf y r)) →
  ∃ s', rb_replace y (ptr r) (cpar 0 k) s = Some (tt, s') ∧ rb_holds s' (plug k r) ∧
    (∀ z, cnt (plug k r) z = 0%nat → rb_heap s' !! z = rb_heap s !! z).
Proof.
  intros (Hr & Hk & (Hy0 & Hy & _ & Hc)%shape_bin & D)%holds_plug. rewrite ptr_bin in *. destruct s as [h ro]. cbn in Hr, Hk, Hy, Hc.
  unfold rb_replace. erewrite es_bind by by eapply reparent_run.
  eexists. split; [|split].
  - rewrite <-(redirect_flip SL). eapply redirect_run; [|done|apart D]. eapply cshape_agree; [|done]. intros z Hz. by skip_writes D.
  - rewrite holds_plug. cbn. split_and!.
    + by rewrite Hr, root_up_cptr.
    + eapply chup_cshape; [intros z; apart_le D|]. eapply cshape_agree; [|done]. intros z Hz. by skip_writes D.
    + eapply shape_agree; [|eapply reparent_shape; [intros z; apart_le D|done]]. intros z Hz. by skip_writes D.
    + intros z. apart_le D.
  - intros z Hz. rewrite cnt_plug in Hz. cbn. by rewrite chup_other, reparent_other by lia.
Qed.

(** ** The successor takes the place of the node *)

Lemma take_place_run s k c D x A y :
  rb_holds s (plug k (bin SR c D x A)) → A ≠ Leaf → y ≠ 0 → is_Some (rb_heap s !! y) → cnt (plug k (bin SR c D x A)) y = 0%nat →
  ∃ s', rb_take_place x y s = Some (tt, s') ∧ rb_holds s' (plug k (bin SR c D y A)) ∧
    (∀ z, cnt (plug k (bin SR c D x A)) z = 0%nat → y ≠ z → rb_heap s' !! z = rb_heap s !! z).
Proof.
  intros (Hr & Hk & (Hx0 & Hx & HD & HA)%shape_bin & Dx)%holds_plug HAne Hy0 Hy Hcy. rewrite ptr_bin in *.
  destruct s as [h ro]. cbn in Hr, Hk, Hx, HA, HD, Hy.
  assert (∀ z, cctx k z + (cnt D z + one x z + cnt A z) + one y z <= 1)%nat as E.
  { intros z. specialize (Dx z). rewrite cnt_plug, cnt_bin in Dx, Hcy. destruct (decide (y = z)) as [<-|Hne].
    - rewrite (one_eq y y) by done. lia.
    - unfold one at 2. rewrite decide_False by done. lia. }
  unfold rb_take_place. erewrite es_bind by by apply ld_run. cbn [mkn rb_parent rb_color rb_right rb_left].
  do 4 (erewrite es_bind by (apply st_run; repeat apply alter_live; done)).
  set (h1 := alter (set_rb_left (ptr A)) y _).
  assert (∀ z, y ≠ z → h1 !! z = h !! z) as Hh1 by (intros z Hz; unfold h1; by rewrite !lookup_alter_ne).
  assert (h1 !! y = Some (mkn (cpar 0 k) c SR (ptr D) (ptr A))) as Hh1y.
  { unfold h1. destruct Hy as [n Hy]. by rewrite !lookup_alter_eq, Hy. }
  erewrite es_bind.
  2: { rewrite <-(redirect_flip SL). eapply redirect_run; [|done|apart E]. eapply cshape_agree; [|done]. intros z Hz. apply Hh1. apart E. }
  set (h2 := chup k y h1).
  assert (h2 !! x = Some (mkn (cpar 0 k) c SR (ptr D) (ptr A))) as Hx2.
  { unfold h2. rewrite chup_other by apart E. by rewrite Hh1 by apart E. }
  assert (∀ q t, (∀ z, (1 <= cnt t z)%nat → cctx k z = 0%nat ∧ y ≠ z) → shape h q t → shape h2 q t) as Hsh2.
  { intros q t Hz. apply shape_agree. intros z Hz'. destruct (Hz z Hz'). unfold h2. rewrite chup_other by done. by apply Hh1. }
  assert (shape h2 x A ∧ shape h2 x D) as [HA2 HD2] by (split; (apply Hsh2; [|done]); intros z Hz; split; apart E).
  erewrite es_bind by by apply ld_run. cbn [mkn rb_left rb_right].
  erewrite es_bind.
  2: { pose proof (reparent_run y A h2 (root_up k y ro) x HA2) as Hra. unfold unless_null in Hra.
       destruct (shape_live _ _ _ _ HA2 (cnt_ptr A HAne)) as [HA0 _]. destruct (Z.eqb_spec (ptr A) 0); [done|exact Hra]. }
  eexists. split; [|split].
  - eapply (reparent_run y D _ _ x). eapply shape_agree; [|done]. intros z Hz. by skip_writes E.
  - rewrite holds_plug, shape_bin, ptr_bin. cbn [rb_heap rb_root]. split_and!.
    + by rewrite Hr, root_up_cptr.
    + eapply cshape_agree with (h := h2); [intros z Hz; by skip_writes E|]. unfold h2.
      eapply chup_cshape; [intros z; apart_le E|]. eapply cshape_agree; [|done]. intros z Hz. apply Hh1. apart E.
    + done.
    + skip_writes E. unfold h2. by rewrite chup_other by apart E.
    + eapply shape_agree; [|eapply (reparent_shape h2 x y D); [intros z; apart_le E|done]].
      intros z Hz. apply reparent_agree. by skip_writes E.
    + eapply shape_agree; [|eapply (reparent_shape h2 x y A); [intros z; apart_le E|done]]. intros z Hz. by skip_writes E.
    + intros z. rewrite cnt_plug, cnt_bin. generalize (E z). lia.
  - intros z Hz Hne. rewrite cnt_plug, cnt_bin in Hz. cbn. rewrite !reparent_other by lia. unfold h2. rewrite chup_other by lia. by apply Hh1.
Qed.

(** ** The whole removal *)

Lemma top_rename k1 d c x y A k2 : black_top (k1 ++ Fr d c x A :: k2) → black_top (k1 ++ Fr d c y A :: k2).
Proof. destruct k1 as [|[? c' ? ?] k]; [by destruct c|by destruct c']. Qed.

Lemma crb_rename k1 d c x y A k2 n : crb n (k1 ++ Fr d c x A :: k2) → crb n (k1 ++ Fr d c y A :: k2).
Proof.
  revert n. induction k1 as [|[d' [] z B] k1 IH]; intros n; cbn; [by destruct c| |].
  - intros (? & ? & ? & ?). split_and!; [done|done|by eapply top_rename|auto].
  - intros (? & ?). auto.
Qed.

(** Once the place has been given up: the colour decides whether there is more
    to do. *)
Definition erase_end (c child parent : Z) : RBM unit :=
  if c =? RB_BLACK then __rb_erase_color child parent else mret tt.

Lemma erase_end_run s k d c y r n : rb_holds s (plug k r) → crb n k → rb n (bin d c Leaf y r) →
  black (bin d c Leaf y r) ∨ black_top k →
  ∃ s' t', erase_end (cz c) (ptr r) (cpar 0 k) s = Some (tt, s') ∧ moves s (plug k r) s' t' ∧ red_black t'.
Proof.
  intros Hs Hk Hy Htop. rewrite rb_bin in Hy. unfold erase_end. destruct c; cbn [cz].
  - destruct Hy as (_ & Hr & _ & Hrn). exists s, (plug k r). split; [done|]. split; [by apply moves_refl|].
    destruct (plug_rb k n r Hk Hrn (or_introl Hr)) as [Hm Hbl]. split; [apply Hbl; by left|done].
  - destruct n as [|n]; [done|]. destruct Hy as [Hl Hrn]. cbn in Hl. subst n.
    apply (erase_color_run s k r 0 Hs Hk). destruct r as [|[] r1 z r2]; [by left| |by left].
    right. exists SL, r1, z, r2. cbn in Hrn. split; [done|tauto].
Qed.

Lemma focus t x : x ∈ inorder t → ∃ k c a b, t = plug k (bin SR c b x a).
Proof.
  enough (∀ k, x ∈ inorder t → ∃ k' c a b, plug k t = plug k' (bin SR c b x a)) as Hgen by exact (Hgen []).
  induction t as [|c l IHl y r IHr]; intros k; cbn; [intros Hx; by apply elem_of_nil in Hx|].
  intros [Hx|[->|Hx]%elem_of_cons]%elem_of_app; [exact (IHl (Fr SL c y r :: k) Hx)|by exists k, c, l, r|exact (IHr (Fr SR c y l :: k) Hx)].
Qed.

(** What is left of the order, and of the heap. *)
Definition erased (s : rb_state) (t : tree) (x : Z) (out : option (unit * rb_state)) : Prop :=
  ∃ s' t' l1 l2, out = Some (tt, s') ∧ rb_holds s' t' ∧ red_black t' ∧ inorder t = l1 ++ x :: l2 ∧ inorder t' = l1 ++ l2 ∧
    (∀ z, z ∉ inorder t → rb_heap s' !! z = rb_heap s !! z).

(** One child or none. *)
Lemma erase_one s k c y r d : rb_holds s (plug k (bin d c Leaf y r)) → red_black (plug k (bin d c Leaf y r)) →
  erased s (plug k (bin d c Leaf y r)) y (rb_erase y s).
Proof.
  intros Hs [Hbl [m Hm]]. destruct (rb_plug k _ m Hbl Hm) as (n & Hk & Hn & Htop).
  assert (rb n (bin SL c Leaf y r) ∧ (black (bin SL c Leaf y r) ∨ black_top k)) as [Hn' Htop'].
  { unfold black in *. rewrite rb_bin, redb_bin in *. done. }
  unfold rb_erase. erewrite es_bind by by eapply ld_holds.
  set (N := mkn (cpar 0 k) c d (ptr Leaf) (ptr r)).
  assert (negb (rb_left N =? 0) && negb (rb_right N =? 0) = false)%bool as -> by (destruct d; cbn; by rewrite ?andb_false_r).
  assert ((if rb_left N =? 0 then rb_right N else rb_left N) = ptr r) as -> by (destruct d; cbn; [done|by destruct (Z.eqb_spec (ptr r) 0)]).
  unfold N. rewrite parent_mkn, color_mkn. cbv zeta. destruct (replace_run s k d c y r Hs) as (s1 & Hr1 & H1 & U1).
  erewrite es_bind by exact Hr1. change (if cz c =? RB_BLACK then __rb_erase_color (ptr r) (cpar 0 k) else mret tt) with (erase_end (cz c) (ptr r) (cpar 0 k)).
  destruct (erase_end_run s1 k d c y r n H1 Hk Hn Htop) as (s2 & t2 & Hr2 & (H2 & I2 & U2) & R2).
  exists s2, t2, (match d with SL => before_hole k | SR => before_hole k ++ inorder r end), (match d with SL => inorder r ++ after_hole k | SR => after_hole k end).
  split_and!; [exact Hr2|done|done|rewrite inorder_context; by destruct d; cbn; rewrite <-?app_assoc|
    rewrite I2, inorder_context; by destruct d; cbn; rewrite <-?app_assoc|].
  intros z Hz. rewrite cnt_elem, cnt_plug, cnt_bin in Hz. rewrite U2, U1 by (rewrite cnt_plug; lia). done.
Qed.

(** Two children: the successor takes over. *)
Lemma erase_two s k c A x B : rb_holds s (plug k (bin SR c B x A)) → red_black (plug k (bin SR c B x A)) → A ≠ Leaf → B ≠ Leaf →
  erased s (plug k (bin SR c B x A)) x (rb_erase x s).
Proof.
  intros Hs [Hbl [m Hm]] HA HB. destruct (leftmost B HB) as (kb & cy & y & r & -> & Hleft).
  set (K := kb ++ Fr SR c x A :: k). set (K' := kb ++ Fr SR c y A :: k).
  assert (∀ t, plug k (bin SR c (plug kb t) x A) = plug K t) as HK by (intros t; unfold K; by rewrite plug_app).
  assert (∀ t, plug k (bin SR c (plug kb t) y A) = plug K' t) as HK' by (intros t; unfold K'; by rewrite plug_app).
  pose proof Hs as HsK. rewrite HK in Hbl, Hm, HsK. destruct (rb_plug K _ m Hbl Hm) as (n & Hk & Hn & Htop).
  pose proof HsK as (_ & _ & (Hy0 & Hy & _)%shape_bin & D)%holds_plug.
  unfold rb_erase. erewrite es_bind by by eapply ld_holds. cbn [mkn rb_left rb_right].
  assert (∀ t, t ≠ Leaf → (1 <= cnt t (ptr t))%nat) as Hpt by apply cnt_ptr.
  pose proof Hs as (_ & _ & (_ & _ & HshB & HshA)%shape_bin & _)%holds_plug.
  destruct (shape_live _ _ _ _ HshA (Hpt _ HA)) as [HA0 _]. destruct (shape_live _ _ _ _ HshB (Hpt _ HB)) as [HB0 _].
  destruct (Z.eqb_spec (ptr A) 0); [done|]. destruct (Z.eqb_spec (ptr (plug kb (bin SL cy Leaf y r))) 0); [done|]. cbn [negb andb].
  erewrite es_bind by done. cbv beta zeta. rewrite ptr_plug, ptr_bin.
  erewrite es_bind.
  2: { apply (leftmost_run s (Fr SR c x A :: k) kb cy y r); [done|exact Hs|]. pose proof (path_length s K _ HsK) as Hl.
       unfold K in Hl. rewrite length_app in Hl. lia. }
  erewrite es_bind by by eapply ld_holds. cbv beta zeta. rewrite parent_mkn, color_mkn. change (rb_right (mkn (cpar 0 K) cy SL (ptr Leaf) (ptr r))) with (ptr r).
  destruct (replace_run s K SL cy y r HsK) as (s1 & Hr1 & H1 & U1). erewrite es_bind by exact Hr1.
  assert (cnt (plug K r) y = 0%nat) as Hcy by apart D.
  erewrite es_bind by (unfold ld; rewrite U1 by done; by rewrite Hy). rewrite parent_mkn.
  rewrite <-HK in H1, Hcy. destruct (take_place_run s1 k c (plug kb r) x A y H1 HA Hy0) as (s2 & Hr2 & H2 & U2).
  { rewrite U1, Hy by (by rewrite <-HK). by eexists. }
  { done. }
  erewrite es_bind by exact Hr2. rewrite HK' in H2.
  assert ((if cpar 0 K =? x then y else cpar 0 K) = cpar 0 K') as ->.
  { unfold K, K'. destruct kb as [|[d0 c0 z0 t0] kb]; cbn [app cpar]; [by rewrite Z.eqb_refl|].
    destruct (Z.eqb_spec z0 x) as [Hzx|]; [|done]. exfalso. revert Hzx. unfold K in D. cbn [app] in D.
    pose proof (D x) as Dx. rewrite cnt_plug in Dx. cbn [cctx] in Dx. rewrite cctx_app in Dx. cbn [cctx] in Dx.
    intros Hzx. rewrite (one_eq z0 x Hzx), (one_eq x x) in Dx by done. lia. }
  change (if cz cy =? RB_BLACK then __rb_erase_color (ptr r) (cpar 0 K') else mret tt) with (erase_end (cz cy) (ptr r) (cpar 0 K')).
  destruct (erase_end_run s2 K' SL cy y r n H2) as (s3 & t3 & Hr3 & (H3 & I3 & U3) & R3);
    [by apply (crb_rename _ _ _ x)|done|destruct Htop; [by left|right; by apply (top_rename _ _ _ x)]|].
  exists s3, t3, (before_hole k ++ inorder A), (inorder (plug kb (bin SL cy Leaf y r)) ++ after_hole k).
  split_and!; [exact Hr3|done|done| | |].
  - rewrite inorder_context. cbn [bin inorder]. by rewrite <-!app_assoc.
  - rewrite I3, <-HK', inorder_context. cbn [bin inorder]. rewrite !inorder_context, (before_left kb Hleft). cbn [bin inorder app].
    rewrite <-!app_assoc. cbn [app]. by rewrite <-!app_assoc.
  - intros z Hz. rewrite cnt_elem, HK, cnt_plug, cnt_bin in Hz. unfold K in Hz. rewrite cctx_app in Hz. cbn [cctx cnt] in Hz.
    assert (one y z = 0%nat ∧ one x z = 0%nat ∧ cnt r z = 0%nat ∧ cctx kb z = 0%nat ∧ cnt A z = 0%nat ∧ cctx k z = 0%nat) as (E1 & E2 & E3 & E4 & E5 & E6) by lia.
    assert (y ≠ z) as Hyz by (intros Heq; by rewrite (one_eq y z Heq) in E1).
    rewrite U3, U2, U1; [done|..|done|].
    + unfold K. rewrite cnt_plug, cctx_app. cbn [cctx]. lia.
    + rewrite !cnt_plug, cnt_bin, cnt_plug. lia.
    + unfold K'. rewrite cnt_plug, cctx_app. cbn [cctx]. lia.
Qed.

Lemma erase_run s t x : rb_holds s t → red_black t → x ∈ inorder t → erased s t x (rb_erase x s).
Proof.
  intros Hs Hrb Hx. destruct (focus t x Hx) as (k & c & A & B & ->).
  destruct A as [|ca la xa ra]; [|destruct B as [|cb lb xb rb']].
  - by apply (erase_one s k c x B SL).
  - by apply (erase_one s k c x _ SR).
  - by apply erase_two.
Qed.

(** * Live nodes *)

(** None of the operations makes a node live or dead. *)
Section live.
Definition keeps {A} (m : RBM A) : Prop := ∀ s a s', m s = Some (a, s') → dom (rb_heap s') = dom (rb_heap s).

Lemma keeps_ret {A} (a : A) : keeps (mret a).
Proof. by intros s b s' [= -> ->]. Qed.

Lemma keeps_bind {A B} (m : RBM A) (f : A → RBM B) : keeps m → (∀ a, keeps (f a)) → keeps (m ≫= f).
Proof.
  intros Hm Hf s b s'. unfold mbind, ES_bind. destruct (m s) as [[a s1]|] eqn:Hs; [|done]. intros Hb.
  by rewrite (Hf _ _ _ _ Hb), (Hm _ _ _ Hs).
Qed.

Lemma keeps_stuck {A} : keeps (stuck : RBM A).
Proof. done. Qed.

Lemma keeps_ld p : keeps (ld p).
Proof. intros s a s'. unfold ld. destruct (_ !! p); [|done]. by intros [= _ ->]. Qed.

Lemma keeps_st p f : keeps (st p f).
Proof.
  intros s a s'. unfold st. destruct (_ !! p) eqn:Hp; [|done]. intros [= _ <-]. cbn. rewrite dom_insert_L.
  apply elem_of_dom_2 in Hp. set_solver.
Qed.

Lemma keeps_ld_root : keeps ld_root.
Proof. by intros s a s' [= _ ->]. Qed.
Lemma keeps_st_root p : keeps (st_root p).
Proof. by intros s a s' [= _ <-]. Qed.
Lemma keeps_fuel : keeps path_fuel.
Proof. by intros s a s' [= _ ->]. Qed.
End live.

Ltac keeps_tac :=
  repeat first
    [ apply keeps_bind; [|intros ?] | apply keeps_ret | apply keeps_stuck | apply keeps_ld | apply keeps_st | apply keeps_ld_root
    | apply keeps_st_root | apply keeps_fuel | progress unfold unless_null, is_red, is_black | progress cbv beta zeta | case_match | solve [eauto with keeps] ].
Create HintDb keeps.

Lemma keeps_rotate_left p : keeps (__rb_rotate_left p).
Proof. unfold __rb_rotate_left. keeps_tac. Qed.
Lemma keeps_rotate_right p : keeps (__rb_rotate_right p).
Proof. unfold __rb_rotate_right. keeps_tac. Qed.
#[local] Hint Resolve keeps_rotate_left keeps_rotate_right : keeps.

Lemma keeps_insert_loop fuel x : keeps (insert_color_loop fuel x).
Proof.
  revert x. induction fuel as [|fuel IH]; intros x; cbn [insert_color_loop]; unfold insert_left, insert_right; keeps_tac.
Qed.

Lemma keeps_erase_loop fuel x p : keeps (erase_color_loop fuel x p).
Proof.
  revert x p. induction fuel as [|fuel IH]; intros x p; cbn [erase_color_loop]; unfold erase_left, erase_right; keeps_tac.
Qed.

Lemma keeps_leftmost fuel x : keeps (leftmost_loop fuel x).
Proof. revert x. induction fuel as [|fuel IH]; intros x; cbn [leftmost_loop]; keeps_tac. Qed.
#[local] Hint Resolve keeps_insert_loop keeps_erase_loop keeps_leftmost : keeps.

Lemma keeps_insert x p sl : keeps (rb_link_node x p sl;; rb_insert_color x).
Proof. unfold rb_link_node, st_slot, rb_insert_color. keeps_tac. Qed.

Lemma keeps_erase x : keeps (rb_erase x).
Proof. unfold rb_erase, rb_replace, rb_take_place, __rb_erase_color. keeps_tac. Qed.
