(* ===== verification/RbThms.v ===== *)
(** What is shown of lib/rbtree.c. *)
From S2P Require Import Prelude RbTree RbShape RbInsert RbErase.
From stdpp Require Import list options.
#[local] Set Default Proof Using "Type*".
Open Scope cint_scope.
Open Scope Z_scope.

(** * Balance *)

(** The longest way down. *)
Fixpoint height (t : tree) : nat :=
  match t with Leaf => 0 | Node _ l _ r => S (Nat.max (height l) (height r)) end.

Lemma rb_height t n : rb n t → (height t <= 2 * n + if redb t then 1 else 0)%nat.
Proof.
  revert n. induction t as [|[] l IHl x r IHr]; intros n; cbn [rb height redb]; [lia|..].
  - intros (Hl & Hr & Hln & Hrn). specialize (IHl n Hln). specialize (IHr n Hrn). rewrite Hl in IHl. rewrite Hr in IHr. lia.
  - destruct n as [|n]; [done|]. intros [Hln Hrn]. specialize (IHl n Hln). specialize (IHr n Hrn).
    destruct (redb l), (redb r); lia.
Qed.

Lemma rb_size t n : rb n t → (2 ^ n <= S (length (inorder t)))%nat.
Proof.
  revert n. induction t as [|[] l IHl x r IHr]; intros n; cbn [rb inorder]; rewrite ?length_app; cbn [length].
  - by intros ->.
  - intros (_ & _ & Hln & Hrn). specialize (IHl n Hln). lia.
  - destruct n as [|n]; [done|]. intros [Hln Hrn]. specialize (IHl n Hln). specialize (IHr n Hrn). cbn [Nat.pow]. lia.
Qed.

(** No way down is longer than twice the logarithm of the number of nodes. *)
Definition balanced (t : tree) : Prop := (height t <= 2 * Nat.log2 (S (length (inorder t))))%nat.

Lemma red_black_balanced t : red_black t → balanced t.
Proof.
  intros [Hb [n Hn]]. unfold balanced. pose proof (rb_height t n Hn) as Hh. rewrite Hb in Hh. pose proof (rb_size t n Hn) as Hs.
  apply Nat.log2_le_mono in Hs. rewrite Nat.log2_pow2 in Hs by lia. lia.
Qed.

(** * The properties *)

(** C30: linking a node at any gap of a red-black tree and calling
    [rb_insert_color] ends with a red-black tree, so a balanced one, whose order
    has the node in that gap; pointers, colours and parents are those of the
    tree, and nothing outside the tree has changed. *)
Theorem rb_insert_correct s t x l1 l2 :
  rb_holds s t → red_black t → inorder t = l1 ++ l2 → x ≠ 0 → is_Some (rb_heap s !! x) → x ∉ inorder t →
  ∃ k s' t', t = plug k Leaf ∧ before_hole k = l1 ∧ after_hole k = l2 ∧
    (rb_link_node x (cpar 0 k) (hole_slot k);; rb_insert_color x) s = Some (tt, s') ∧
    rb_holds s' t' ∧ red_black t' ∧ balanced t' ∧ inorder t' = l1 ++ x :: l2 ∧
    (∀ z, z ∉ inorder t' → rb_heap s' !! z = rb_heap s !! z).
Proof.
  intros Hs Hrb Hl Hx0 Hx Hni. destruct (gap_leaf t l1 l2 Hl) as (k & -> & Hb & Ha).
  destruct (insert_run s k x Hs Hrb Hx0 Hx Hni) as (s' & t' & Hrun & H' & R' & I' & U'). rewrite Hb, Ha in I'.
  exists k, s', t'. split_and!; [done..|by apply red_black_balanced|done|done].
Qed.

(** C20: [rb_erase] of a node of a red-black tree ends with a red-black tree
    whose order is the old one without the node; pointers, colours and parents
    are those of the tree, and nothing outside the old tree has changed. *)
Theorem rb_erase_correct s t x :
  rb_holds s t → red_black t → x ∈ inorder t →
  ∃ s' t' l1 l2, rb_erase x s = Some (tt, s') ∧ rb_holds s' t' ∧ red_black t' ∧ balanced t' ∧
    inorder t = l1 ++ x :: l2 ∧ inorder t' = l1 ++ l2 ∧
    (∀ z, z ∉ inorder t → rb_heap s' !! z = rb_heap s !! z).
Proof.
  intros Hs Hrb Hx. destruct (erase_run s t x Hs Hrb Hx) as (s' & t' & l1 & l2 & ? & ? & ? & ? & ? & ?).
  exists s', t', l1, l2. split_and!; [done|done|done|by apply red_black_balanced|done..].
Qed.

(** * Examples *)

(** Seven nodes in a balanced tree, and an eighth that is live but not linked. *)
Definition tree7 : tree :=
  Node Black (Node Red (Node Black Leaf 1 Leaf) 2 (Node Black Leaf 3 Leaf)) 4 (Node Black (Node Red Leaf 5 Leaf) 6 Leaf).
Definition state7 : rb_state := mk_rb_state
  {[ 1 := mk_rb_node 2 RB_BLACK 0 0; 2 := mk_rb_node 4 RB_RED 3 1; 3 := mk_rb_node 2 RB_BLACK 0 0; 4 := mk_rb_node 0 RB_BLACK 6 2;
     5 := mk_rb_node 6 RB_RED 0 0; 6 := mk_rb_node 4 RB_BLACK 0 5; 8 := mk_rb_node 9 9 9 9 ]} 4.

Lemma state7_holds : rb_holds state7 tree7.
Proof.
  split_and!; [done|cbn; split_and!; done|]. intros z. rewrite cnt_inorder. cbn [tree7 inorder app].
  apply (proj1 (NoDup_count_occ Z.eq_dec _)). apply NoDup_ListNoDup. apply (bool_decide_unpack _). by vm_compute.
Qed.

Lemma tree7_red_black : red_black tree7.
Proof. split; [done|]. exists 2%nat. cbn. unfold black. by split_and!. Qed.

Lemma rb_insert_correct_witness : ∃ k s' t',
  (rb_link_node 8 (cpar 0 k) (hole_slot k);; rb_insert_color 8) state7 = Some (tt, s') ∧ inorder t' = [1; 2; 3; 4; 8; 5; 6].
Proof.
  destruct (rb_insert_correct state7 tree7 8 [1; 2; 3; 4] [5; 6]) as (k & s' & t' & _ & _ & _ & Hr & _ & _ & _ & Hi & _);
    [exact state7_holds|exact tree7_red_black|done|done|by eexists|apply (bool_decide_unpack _); by vm_compute|].
  by exists k, s', t'.
Defined.

Lemma rb_erase_correct_witness : ∃ s' t', rb_erase 4 state7 = Some (tt, s') ∧ rb_holds s' t' ∧ inorder t' = [1; 2; 3; 5; 6].
Proof.
  destruct (rb_erase_correct state7 tree7 4) as (s' & t' & l1 & l2 & Hr & Hs & _ & _ & Hi & Hi' & _);
    [exact state7_holds|exact tree7_red_black|apply (bool_decide_unpack _); by vm_compute|].
  exists s', t'. split; [exact Hr|]. split; [exact Hs|]. rewrite Hi'. cbn in Hi.
  repeat (destruct l1 as [|? l1]; cbn in Hi; [injection Hi as ?; subst; (done || discriminate)|injection Hi as <- Hi]).
  by destruct l1.
Defined.
