(* ===== verification/Vma.v ===== *)
(** Address spaces (mm/mmap.c): the [vm_area]s of one [mm_struct], linked in a
    list and in a red-black tree, the searches and the insertion and removal of
    areas; mapping and unmapping are in [VmaCalls]. The [vm_rb] node of an area
    has the address of the area. An access through a pointer to no live area, a
    [BUG()] and the use of an uninitialised variable make the whole call [None].
    [mmap_sem] and [page_table_lock] make each call atomic. *)
From S2P Require Import Prelude RbTree.
From stdpp Require Import list options.
Open Scope cint_scope.
Open Scope Z_scope.

(** * Constants of the i386 *)

Definition PAGE_SHIFT : Z := 12.
Definition PAGE_SIZE : Z := 4096.
Definition TASK_SIZE : Z := 0xC0000000.
Definition TASK_UNMAPPED_BASE : Z := TASK_SIZE / 3.
Definition PGDIR_SHIFT : Z := 22.
Definition PGDIR_SIZE : Z := 4194304.
Definition PTRS_PER_PGD : Z := 1024.
Definition USER_PTRS_PER_PGD : Z := TASK_SIZE / PGDIR_SIZE.

(** [addr & PAGE_MASK] and [PAGE_ALIGN(addr)] *)
Definition page_floor (addr : Z) : Z := Z.land addr (Z.lnot (PAGE_SIZE - 1)).
Definition PAGE_ALIGN (addr : Z) : Z := page_floor (u32 (addr + PAGE_SIZE - 1)).
(** [addr & ~PAGE_MASK] as a condition. *)
Definition off_page (addr : Z) : bool := addr & (PAGE_SIZE - 1).
Definition pages (len : Z) : Z := Z.shiftr len PAGE_SHIFT.

Definition VM_READ : Z := 0x1.
Definition VM_WRITE : Z := 0x2.
Definition VM_EXEC : Z := 0x4.
Definition VM_SHARED : Z := 0x8.
Definition VM_MAYREAD : Z := 0x10.
Definition VM_MAYWRITE : Z := 0x20.
Definition VM_MAYEXEC : Z := 0x40.
Definition VM_MAYSHARE : Z := 0x80.
Definition VM_GROWSDOWN : Z := 0x100.
Definition VM_GROWSUP : Z := 0x200.
Definition VM_DENYWRITE : Z := 0x800.
Definition VM_EXECUTABLE : Z := 0x1000.
Definition VM_LOCKED : Z := 0x2000.

(** * Data *)

Record vm_area := mk_vm_area {
  vm_start : Z;
  vm_end : Z;
  vm_next : Z;
  vm_page_prot : Z;
  vm_flags : Z;
  vm_ops : Z;
  vm_pgoff : Z;
  vm_file : Z;
  vm_raend : Z;
  vm_private_data : Z
}.

Definition set_vm_start (x : Z) (v : vm_area) : vm_area :=
  mk_vm_area x (vm_end v) (vm_next v) (vm_page_prot v) (vm_flags v) (vm_ops v) (vm_pgoff v) (vm_file v) (vm_raend v) (vm_private_data v).
Definition set_vm_end (x : Z) (v : vm_area) : vm_area :=
  mk_vm_area (vm_start v) x (vm_next v) (vm_page_prot v) (vm_flags v) (vm_ops v) (vm_pgoff v) (vm_file v) (vm_raend v) (vm_private_data v).
Definition set_vm_next (x : Z) (v : vm_area) : vm_area :=
  mk_vm_area (vm_start v) (vm_end v) x (vm_page_prot v) (vm_flags v) (vm_ops v) (vm_pgoff v) (vm_file v) (vm_raend v) (vm_private_data v).
Definition set_vm_pgoff (x : Z) (v : vm_area) : vm_area :=
  mk_vm_area (vm_start v) (vm_end v) (vm_next v) (vm_page_prot v) (vm_flags v) (vm_ops v) x (vm_file v) (vm_raend v) (vm_private_data v).

Definition set_vm_raend (x : Z) (v : vm_area) : vm_area :=
  mk_vm_area (vm_start v) (vm_end v) (vm_next v) (vm_page_prot v) (vm_flags v) (vm_ops v) (vm_pgoff v) (vm_file v) x (vm_private_data v).

(** What the calls do to other parts of the kernel, in order: the lists of areas
    of a file and its count of writers, the operations of the area, references
    to files, page tables. *)
Inductive vm_event :=
  | EvLinkFile (vma : Z)                 (* __vma_link_file *)
  | EvUnlinkFile (vma : Z)               (* __remove_shared_vm_struct *)
  | EvWriteCount (file delta : Z)        (* i_writecount of the inode *)
  | EvOpen (vma : Z)                     (* vm_ops->vopen *)
  | EvClose (vma : Z)                    (* vm_ops->vclose *)
  | EvGetFile (file : Z)
  | EvPutFile (file : Z)
  | EvZap (start size : Z)               (* zap_page_range *)
  | EvClearPageTables (first nr : Z)     (* clear_page_tables *)
  | EvMakePresent (start end_ : Z)       (* make_pages_present *)
  | EvProtect (start end_ prot : Z).     (* change_protection *)

(** The part of [mm_struct] the calls use. *)
Record mm := mk_mm {
  mm_areas : gmap Z vm_area;
  mm_rb : rb_state;
  mm_mmap : Z;
  mmap_cache : Z;
  map_count : Z;
  total_vm : Z;
  locked_vm : Z;
  mm_def_flags : Z;
  mm_brk : Z;
  mm_end_code : Z;
  mm_start_data : Z;
  mm_log : list vm_event
}.

Definition set_mm_areas (x : gmap Z vm_area) (s : mm) : mm :=
  mk_mm x (mm_rb s) (mm_mmap s) (mmap_cache s) (map_count s) (total_vm s) (locked_vm s) (mm_def_flags s) (mm_brk s) (mm_end_code s) (mm_start_data s) (mm_log s).
Definition set_mm_rb (x : rb_state) (s : mm) : mm :=
  mk_mm (mm_areas s) x (mm_mmap s) (mmap_cache s) (map_count s) (total_vm s) (locked_vm s) (mm_def_flags s) (mm_brk s) (mm_end_code s) (mm_start_data s) (mm_log s).
Definition set_mm_mmap (x : Z) (s : mm) : mm :=
  mk_mm (mm_areas s) (mm_rb s) x (mmap_cache s) (map_count s) (total_vm s) (locked_vm s) (mm_def_flags s) (mm_brk s) (mm_end_code s) (mm_start_data s) (mm_log s).
Definition set_mmap_cache (x : Z) (s : mm) : mm :=
  mk_mm (mm_areas s) (mm_rb s) (mm_mmap s) x (map_count s) (total_vm s) (locked_vm s) (mm_def_flags s) (mm_brk s) (mm_end_code s) (mm_start_data s) (mm_log s).
Definition set_map_count (x : Z) (s : mm) : mm :=
  mk_mm (mm_areas s) (mm_rb s) (mm_mmap s) (mmap_cache s) x (total_vm s) (locked_vm s) (mm_def_flags s) (mm_brk s) (mm_end_code s) (mm_start_data s) (mm_log s).
Definition set_total_vm (x : Z) (s : mm) : mm :=
  mk_mm (mm_areas s) (mm_rb s) (mm_mmap s) (mmap_cache s) (map_count s) x (locked_vm s) (mm_def_flags s) (mm_brk s) (mm_end_code s) (mm_start_data s) (mm_log s).
Definition set_locked_vm (x : Z) (s : mm) : mm :=
  mk_mm (mm_areas s) (mm_rb s) (mm_mmap s) (mmap_cache s) (map_count s) (total_vm s) x (mm_def_flags s) (mm_brk s) (mm_end_code s) (mm_start_data s) (mm_log s).
Definition set_mm_brk (x : Z) (s : mm) : mm :=
  mk_mm (mm_areas s) (mm_rb s) (mm_mmap s) (mmap_cache s) (map_count s) (total_vm s) (locked_vm s) (mm_def_flags s) x (mm_end_code s) (mm_start_data s) (mm_log s).
Definition set_mm_log (x : list vm_event) (s : mm) : mm :=
  mk_mm (mm_areas s) (mm_rb s) (mm_mmap s) (mmap_cache s) (map_count s) (total_vm s) (locked_vm s) (mm_def_flags s) (mm_brk s) (mm_end_code s) (mm_start_data s) x.

Notation VM := (ES mm).

(** * Access *)

Definition getm {A} (f : mm → A) : VM A := λ s, Some (f s, s).
Definition setm (f : mm → mm) : VM unit := λ s, Some (tt, f s).
Definition bug {A} : VM A := λ _, None.
Definition emit_vm (e : vm_event) : VM unit := setm (λ s, set_mm_log (mm_log s ++ [e]) s).

(** [*p] and [p->... = ...] for an area *)
Definition ga (p : Z) : VM vm_area := λ s,
  match mm_areas s !! p with None => None | Some v => Some (v, s) end.
Definition wa (p : Z) (f : vm_area → vm_area) : VM unit := λ s,
  match mm_areas s !! p with None => None | Some v => Some (tt, set_mm_areas (<[p := f v]> (mm_areas s)) s) end.

(** A call of lib/rbtree.c on [mm_rb]. *)
Definition on_tree {A} (m : RBM A) : VM A := λ s,
  match m (mm_rb s) with None => None | Some (a, t) => Some (a, set_mm_rb t s) end.

(** A way down the tree, and a way along the list, meet each area at most once. *)
Definition vm_fuel : VM nat := getm (λ s, S (size (mm_areas s))).

(** * Searches *)

(** The loop of [find_vma]: the last area on the way down that ends above
    [addr]. *)
Fixpoint find_vma_loop (fuel : nat) (addr node vma : Z) : VM Z :=
  match fuel with
  | O => bug
  | S fuel =>
      if node =? 0 then mret vma
      else
        v ← ga node;
        n ← on_tree (ld node);
        if vm_end v >? addr then
          if vm_start v <=? addr then mret node
          else find_vma_loop fuel addr (rb_left n) node
        else find_vma_loop fuel addr (rb_right n) vma
  end.

Definition find_vma (addr : Z) : VM Z :=
  vma ← getm mmap_cache;
  hit ← (if vma =? 0 then mret false else v ← ga vma; mret ((vm_end v >? addr) && (vm_start v <=? addr)));
  if (hit : bool) then mret vma
  else
    root ← getm (λ s, rb_root (mm_rb s));
    fuel ← vm_fuel;
    vma ← find_vma_loop fuel addr root 0;
    (if negb (vma =? 0) then setm (set_mmap_cache vma) else mret tt);;
    mret vma.

(** With [rb_last_right] and [rb_prev]; the result is [vma] and [rb_prev]. *)
Fixpoint find_prev_loop (fuel : nat) (addr node last_right prev vma : Z) : VM (Z * Z) :=
  match fuel with
  | O => bug
  | S fuel =>
      if node =? 0 then mret (vma, prev)
      else
        v ← ga node;
        n ← on_tree (ld node);
        if vm_end v >? addr then
          if vm_start v <=? addr then mret (node, last_right)
          else find_prev_loop fuel addr (rb_left n) last_right last_right node
        else find_prev_loop fuel addr (rb_right n) node prev vma
  end.

(** [while (rb_prev->rb_right) rb_prev = rb_prev->rb_right;] *)
Fixpoint rightmost_loop (fuel : nat) (node : Z) : VM Z :=
  match fuel with
  | O => bug
  | S fuel =>
      n ← on_tree (ld node);
      if rb_right n =? 0 then mret node else rightmost_loop fuel (rb_right n)
  end.

(** The result and [*pprev]. *)
Definition find_vma_prev (addr : Z) : VM (Z * Z) :=
  root ← getm (λ s, rb_root (mm_rb s));
  fuel ← vm_fuel;
  '(vma, prev) ← find_prev_loop fuel addr root 0 0 0;
  if negb (vma =? 0) then
    n ← on_tree (ld vma);
    prev ← (if negb (rb_left n =? 0) then rightmost_loop fuel (rb_left n) else mret prev);
    next ← (if negb (prev =? 0) then p ← ga prev; mret (vm_next p) else getm mm_mmap);
    if negb (next =? vma) then bug else mret (vma, prev)
  else mret (0, 0).

(** [*__rb_link] *)
Definition ld_slot (slot : rb_slot) : RBM Z :=
  match slot with
  | RootSlot => ld_root
  | LeftOf p => n ← ld p; mret (rb_left n)
  | RightOf p => n ← ld p; mret (rb_right n)
  end.

(** The result, and where it is set [*pprev], [*rb_link] and [*rb_parent]. *)
Fixpoint prepare_loop (fuel : nat) (addr : Z) (rb_link : rb_slot) (rb_parent rb_prev vma : Z) :
    VM (Z * option (Z * rb_slot * Z)) :=
  match fuel with
  | O => bug
  | S fuel =>
      node ← on_tree (ld_slot rb_link);
      if node =? 0 then mret (vma, Some (rb_prev, rb_link, rb_parent))
      else
        v ← ga node;
        if vm_end v >? addr then
          if vm_start v <=? addr then mret (node, None)
          else prepare_loop fuel addr (LeftOf node) node rb_prev node
        else prepare_loop fuel addr (RightOf node) node node vma
  end.

Definition find_vma_prepare (addr : Z) : VM (Z * option (Z * rb_slot * Z)) :=
  fuel ← vm_fuel;
  prepare_loop fuel addr RootSlot 0 0 0.

(** * Linking and unlinking *)

Definition __vma_link_list (vma prev rb_parent : Z) : VM unit :=
  if negb (prev =? 0) then
    p ← ga prev;
    wa vma (set_vm_next (vm_next p));;
    wa prev (set_vm_next vma)
  else
    setm (set_mm_mmap vma);;
    wa vma (set_vm_next (if negb (rb_parent =? 0) then rb_parent else 0)).

Definition __vma_link_rb (vma : Z) (rb_link : rb_slot) (rb_parent : Z) : VM unit :=
  on_tree (rb_link_node vma rb_parent rb_link);;
  on_tree (rb_insert_color vma).

Definition __vma_link_file (vma : Z) : VM unit :=
  v ← ga vma;
  if negb (vm_file v =? 0) then emit_vm (EvLinkFile vma) else mret tt.

Definition __vma_link (vma prev : Z) (rb_link : rb_slot) (rb_parent : Z) : VM unit :=
  __vma_link_list vma prev rb_parent;;
  __vma_link_rb vma rb_link rb_parent;;
  __vma_link_file vma.

Definition count_up : VM unit := setm (λ s, set_map_count (s32 (map_count s + 1)) s).
Definition count_down : VM unit := setm (λ s, set_map_count (s32 (map_count s - 1)) s).

Definition vma_link (vma prev : Z) (rb_link : rb_slot) (rb_parent : Z) : VM unit :=
  __vma_link vma prev rb_link rb_parent;;
  count_up.

(** Both [__insert_vm_struct] and [insert_vm_struct]. *)
Definition insert_vm_struct (vma : Z) : VM unit :=
  v ← ga vma;
  '(next, place) ← find_vma_prepare (vm_start v);
  clash ← (if negb (next =? 0) then w ← ga next; mret (vm_start w <? vm_end v) else mret false);
  if (clash : bool) then bug
  else match place with
       | None => bug
       | Some (prev, rb_link, rb_parent) => vma_link vma prev rb_link rb_parent
       end.

(** [*npp], where 0 stands for [&mm->mmap] and an area for its [vm_next]. *)
Definition ld_next (npp : Z) : VM Z := if npp =? 0 then getm mm_mmap else p ← ga npp; mret (vm_next p).
Definition st_next (npp x : Z) : VM unit := if npp =? 0 then setm (set_mm_mmap x) else wa npp (set_vm_next x).

Definition __vma_unlink (vma prev : Z) : VM unit :=
  v ← ga vma;
  wa prev (set_vm_next (vm_next v));;
  on_tree (rb_erase vma);;
  cache ← getm mmap_cache;
  if cache =? vma then setm (set_mmap_cache prev) else mret tt.

(** [kmem_cache_free]: the area and its node are gone. *)
Definition free_area (p : Z) : VM unit :=
  setm (λ s, set_mm_areas (delete p (mm_areas s))
    (set_mm_rb (mk_rb_state (delete p (rb_heap (mm_rb s))) (rb_root (mm_rb s))) s)).

Definition can_vma_merge (v : vm_area) (flags : Z) : bool := (vm_file v =? 0) && (vm_flags v =? flags).

(** The [merge_next] part. *)
Definition merge_next (prev addr end_ flags : Z) : VM bool :=
  p ← ga prev;
  if negb (can_vma_merge p flags) then mret false
  else if end_ =? vm_start p then wa prev (set_vm_start addr);; mret true
  else mret false.

Definition vma_merge (prev rb_parent addr end_ flags : Z) : VM bool :=
  if prev =? 0 then merge_next rb_parent addr end_ flags
  else
    p ← ga prev;
    if (vm_end p =? addr) && can_vma_merge p flags then
      wa prev (set_vm_end end_);;
      let next := vm_next p in
      join ← (if negb (next =? 0) then n ← ga next; mret ((end_ =? vm_start n) && can_vma_merge n flags) else mret false);
      if (join : bool) then
        n ← ga next;
        wa prev (set_vm_end (vm_end n));;
        __vma_unlink next prev;;
        count_down;;
        free_area next;;
        mret true
      else mret true
    else
      let prev := vm_next p in
      if negb (prev =? 0) then merge_next prev addr end_ flags else mret false.
