(* ===== verification/VmaCalls.v ===== *)
(** Address spaces (mm/mmap.c): free ranges, mapping, unmapping and the program
    break, on the searches and links of [Vma]. *)
From S2P Require Import Prelude RbTree Vma.
From stdpp Require Import list options.
Open Scope cint_scope.
Open Scope Z_scope.

(** * What the calls depend on *)

(** The counters [vm_enough_memory] reads, and the sizes of two structures. *)
Record vm_counters := mk_vm_counters {
  sysctl_overcommit_memory : Z;
  page_cache_size : Z;
  nr_free_pages : Z;
  nr_swap_pages : Z;
  swapper_nrpages : Z;
  dentry_unused : Z;
  inode_unused : Z;
  sizeof_dentry : Z;
  sizeof_inode : Z
}.

(** The slab allocator, which fails or returns an area that is not live with
    whatever it holds; counters and limits; the page protections of the
    architecture; the operations of areas and files. *)
Class VmEnv := {
  vm_alloc : mm → option (Z * vm_area * rb_node);
  vm_alloc_fresh s p v n : vm_alloc s = Some (p, v, n) → p ≠ 0 ∧ mm_areas s !! p = None ∧ rb_heap (mm_rb s) !! p = None;
  vm_counters_now : mm → vm_counters;
  max_map_count : Z;
  rlim_as : Z;
  rlim_data : Z;
  rlim_stack : Z;
  rlim_memlock : Z;
  num_physpages : Z;
  protection_map : Z → Z;
  has_vopen : Z → bool;
  has_vclose : Z → bool;
  file_has_mmap : Z → bool;
  file_mode : Z → Z;
  file_append : Z → bool;
  file_locked : mm → Z → bool;
  file_deny_write : mm → Z → Z;
  file_get_unmapped_area : Z → option (mm → Z → Z → Z → Z → Z);
  file_mmap : mm → Z → vm_area → Z * vm_area;
  shmem_zero_setup : mm → vm_area → Z * vm_area
}.

Section calls.
Context `{VmEnv}.

Definition kmem_cache_alloc : VM Z := λ s,
  match vm_alloc s with
  | None => Some (0, s)
  | Some (p, v, n) =>
      Some (p, set_mm_areas (<[p := v]> (mm_areas s))
        (set_mm_rb (mk_rb_state (<[p := n]> (rb_heap (mm_rb s))) (rb_root (mm_rb s))) s))
  end.

Definition vm_enough_memory (npages : Z) : VM bool := λ s,
  let c := vm_counters_now s in
  Some (if negb (sysctl_overcommit_memory c =? 0) then true
        else
          let free := u32 (page_cache_size c) in
          let free := u32 (free + nr_free_pages c) in
          let free := u32 (free + nr_swap_pages c) in
          let free := u32 (free + swapper_nrpages c) in
          let free := u32 (free + Z.shiftr (u32 (dentry_unused c * sizeof_dentry c)) PAGE_SHIFT) in
          let free := u32 (free + Z.shiftr (u32 (inode_unused c * sizeof_inode c)) PAGE_SHIFT) in
          free >? u32 npages, s).

(** * Free ranges *)

(** From the area [vma] on, the first hole of [len] bytes at or above [addr]. *)
Fixpoint unmapped_loop (fuel : nat) (vma addr len : Z) : VM Z :=
  match fuel with
  | O => bug
  | S fuel =>
      if u32 (TASK_SIZE - len) <? addr then mret (u32 (- ENOMEM))
      else if vma =? 0 then mret addr
      else
        v ← ga vma;
        if u32 (addr + len) <=? vm_start v then mret addr
        else unmapped_loop fuel (vm_next v) (vm_end v) len
  end.

Definition arch_get_unmapped_area (addr len : Z) : VM Z :=
  if len >? TASK_SIZE then mret (u32 (- ENOMEM))
  else
    hint ← (if negb (addr =? 0) then
              let addr := PAGE_ALIGN addr in
              vma ← find_vma addr;
              if u32 (TASK_SIZE - len) >=? addr then
                if vma =? 0 then mret (Some addr)
                else v ← ga vma; mret (if u32 (addr + len) <=? vm_start v then Some addr else None)
              else mret None
            else mret None);
    match hint with
    | Some addr => mret addr
    | None =>
        let addr := PAGE_ALIGN TASK_UNMAPPED_BASE in
        vma ← find_vma addr;
        fuel ← vm_fuel;
        unmapped_loop fuel vma addr len
    end.

Definition MAP_SHARED : Z := 0x01.
Definition MAP_PRIVATE : Z := 0x02.
Definition MAP_TYPE : Z := 0x0f.
Definition MAP_FIXED : Z := 0x10.
Definition MAP_GROWSDOWN : Z := 0x0100.
Definition MAP_DENYWRITE : Z := 0x0800.
Definition MAP_EXECUTABLE : Z := 0x1000.
Definition MAP_NORESERVE : Z := 0x4000.

Definition get_unmapped_area (file addr len pgoff flags : Z) : VM Z :=
  if flags & MAP_FIXED then
    if addr >? u32 (TASK_SIZE - len) then mret (u32 (- ENOMEM))
    else if off_page addr then mret (u32 (- EINVAL))
    else mret addr
  else match (if negb (file =? 0) then file_get_unmapped_area file else None) with
       | Some f => λ s, Some (f s addr len pgoff flags, s)
       | None => arch_get_unmapped_area addr len
       end.

Definition find_vma_intersection (start_addr end_addr : Z) : VM Z :=
  vma ← find_vma start_addr;
  if vma =? 0 then mret 0
  else v ← ga vma; mret (if end_addr <=? vm_start v then 0 else vma).

(** * Unmapping *)

Definition add_total (n : Z) : VM unit := setm (λ s, set_total_vm (u32 (total_vm s + n)) s).
Definition add_locked (n : Z) : VM unit := setm (λ s, set_locked_vm (u32 (locked_vm s + n)) s).

(** The first lines of [unmap_fixup], for the area [a]. *)
Definition account_unmapped (a : vm_area) (len : Z) : VM unit :=
  add_total (- pages len);;
  if vm_flags a & VM_LOCKED then add_locked (- pages len) else mret tt.

(** Unmapping the whole area, an end of it, its start, or a hole. *)
Definition fixup_area (area : Z) (a : vm_area) (addr end_ extra : Z) : VM Z :=
  if (addr =? vm_start a) && (end_ =? vm_end a) then
    (if negb (vm_ops a =? 0) && has_vclose (vm_ops a) then emit_vm (EvClose area) else mret tt);;
    (if negb (vm_file a =? 0) then emit_vm (EvPutFile (vm_file a)) else mret tt);;
    free_area area;;
    mret extra
  else if end_ =? vm_end a then
    wa area (set_vm_end addr);;
    insert_vm_struct area;;
    mret extra
  else if addr =? vm_start a then
    wa area (set_vm_pgoff (u32 (vm_pgoff a + pages (u32 (end_ - vm_start a)))));;
    wa area (set_vm_start end_);;
    insert_vm_struct area;;
    mret extra
  else
    let mpnt := extra in
    wa mpnt (λ m, mk_vm_area end_ (vm_end a) (vm_next m) (vm_page_prot a) (vm_flags a) (vm_ops a)
      (u32 (vm_pgoff a + pages (u32 (end_ - vm_start a)))) (vm_file a) 0 (vm_private_data a));;
    (if negb (vm_file a =? 0) then emit_vm (EvGetFile (vm_file a)) else mret tt);;
    (if negb (vm_ops a =? 0) && has_vopen (vm_ops a) then emit_vm (EvOpen mpnt) else mret tt);;
    wa area (set_vm_end addr);;
    insert_vm_struct mpnt;;
    insert_vm_struct area;;
    mret 0.

(** An area of which [addr, addr + len) has been unmapped, and which is in no
    list. The result is the spare area if it has not been used. *)
Definition unmap_fixup (area addr len extra : Z) : VM Z :=
  let end_ := u32 (addr + len) in
  a ← ga area;
  account_unmapped a len;;
  fixup_area area a addr end_ extra.

Definition pgd_index (address : Z) : Z := Z.land (Z.shiftr address PGDIR_SHIFT) (PTRS_PER_PGD - 1).

(** The loop over the areas from [prev] on: [first] and [last]. *)
Fixpoint pgtables_loop (fuel : nat) (prev start first last : Z) : VM (Z * Z) :=
  match fuel with
  | O => bug
  | S fuel =>
      p ← ga prev;
      let next := vm_next p in
      let found last := mret (if vm_end p >? first then u32 (vm_end p + PGDIR_SIZE - 1) else first, last) in
      if negb (next =? 0) then
        n ← ga next;
        if vm_start n <? start then pgtables_loop fuel next start first last
        else found (if last >? vm_start n then vm_start n else last)
      else found last
  end.

Definition free_pgtables (prev start end_ : Z) : VM unit :=
  let first := Z.land start (Z.lnot (PGDIR_SIZE - 1)) in
  let last := u32 (end_ + PGDIR_SIZE - 1) in
  mmap ← getm mm_mmap;
  fuel ← vm_fuel;
  '(first, last) ←
    (if prev =? 0 then
       let prev := mmap in
       if prev =? 0 then mret (first, last)
       else
         p ← ga prev;
         if vm_end p >? start then mret (first, if last >? vm_start p then vm_start p else last)
         else pgtables_loop fuel prev start first last
     else pgtables_loop fuel prev start first last);
  let start_index := pgd_index first in
  let end_index := pgd_index last in
  if end_index >? start_index then emit_vm (EvClearPageTables start_index (end_index - start_index)) else mret tt.

(** The areas that start below [limit] go to the list [free]. *)
Fixpoint detach_loop (fuel : nat) (npp mpnt free limit : Z) : VM Z :=
  match fuel with
  | O => bug
  | S fuel =>
      if mpnt =? 0 then mret free
      else
        m ← ga mpnt;
        if negb (vm_start m <? limit) then mret free
        else
          st_next npp (vm_next m);;
          wa mpnt (set_vm_next free);;
          on_tree (rb_erase mpnt);;
          next ← ld_next npp;
          detach_loop fuel npp next mpnt limit
  end.

(** The list [free] is unmapped area by area; the result is the spare area. *)
Fixpoint unmap_loop (fuel : nat) (addr len free extra : Z) : VM Z :=
  match fuel with
  | O => bug
  | S fuel =>
      if free =? 0 then mret extra
      else
        let mpnt := free in
        m ← ga mpnt;
        let free := vm_next m in
        let st := if addr <? vm_start m then vm_start m else addr in
        let end_ := u32 (addr + len) in
        let end_ := if end_ >? vm_end m then vm_end m else end_ in
        let size := u32 (end_ - st) in
        let file := if (vm_flags m & VM_DENYWRITE) && (negb (st =? vm_start m) || negb (end_ =? vm_end m)) then vm_file m else 0 in
        (if negb (file =? 0) then emit_vm (EvWriteCount file (-1)) else mret tt);;
        (if negb (vm_file m =? 0) then emit_vm (EvUnlinkFile mpnt) else mret tt);;
        count_down;;
        emit_vm (EvZap st size);;
        extra ← unmap_fixup mpnt st size extra;
        (if negb (file =? 0) then emit_vm (EvWriteCount file 1) else mret tt);;
        unmap_loop fuel addr len free extra
  end.

Definition do_munmap (addr len : Z) : VM Z :=
  if off_page addr || (addr >? TASK_SIZE) || (len >? TASK_SIZE - addr) then mret (- EINVAL)
  else
    let len := PAGE_ALIGN len in
    if len =? 0 then mret (- EINVAL)
    else
      '(mpnt, prev) ← find_vma_prev addr;
      if mpnt =? 0 then mret 0
      else
        m ← ga mpnt;
        if vm_start m >=? u32 (addr + len) then mret 0
        else
          count ← getm map_count;
          if (vm_start m <? addr) && (vm_end m >? u32 (addr + len)) && (count >=? max_map_count) then mret (- ENOMEM)
          else
            extra ← kmem_cache_alloc;
            if extra =? 0 then mret (- ENOMEM)
            else
              fuel ← vm_fuel;
              free ← detach_loop fuel prev mpnt 0 (u32 (addr + len));
              setm (set_mmap_cache 0);;
              extra ← unmap_loop fuel addr len free extra;
              (if negb (extra =? 0) then free_area extra else mret tt);;
              free_pgtables prev addr (u32 (addr + len));;
              mret 0.

Definition sys_munmap (addr len : Z) : VM Z := do_munmap addr len.

(** * Mapping *)

(** From [munmap_back]: what was in the way is unmapped, which takes one round;
    the result is the place for the new area, or nothing if that has failed. *)
Fixpoint clear_range (fuel : nat) (addr len : Z) : VM (option (Z * rb_slot * Z)) :=
  match fuel with
  | O => bug
  | S fuel =>
      '(vma, place) ← find_vma_prepare addr;
      clash ← (if negb (vma =? 0) then v ← ga vma; mret (vm_start v <? u32 (addr + len)) else mret false);
      if (clash : bool) then
        err ← do_munmap addr len;
        if negb (err =? 0) then mret None else clear_range fuel addr len
      else match place with None => bug | Some place => mret (Some place) end
  end.

(** [mm->locked_vm] and the new range against the limit. *)
Definition too_locked (s : mm) (len : Z) : bool := u32 (Z.shiftl (locked_vm s) PAGE_SHIFT + len) >? rlim_memlock.
(** The address space and the new range against the limit. *)
Definition too_large (s : mm) (len : Z) : bool := u32 (Z.shiftl (total_vm s) PAGE_SHIFT + len) >? rlim_as.

(** The accounting at [out]. *)
Definition mapped (addr len flags : Z) : VM Z :=
  add_total (pages len);;
  (if flags & VM_LOCKED then
     add_locked (pages len);;
     emit_vm (EvMakePresent addr (u32 (addr + len)))
   else mret tt);;
  mret addr.

Definition VM_DATA_DEFAULT_FLAGS : Z := 0x77.

Definition do_brk (addr len : Z) : VM Z :=
  let len := PAGE_ALIGN len in
  if len =? 0 then mret addr
  else
    def ← getm mm_def_flags;
    locked ← getm (λ s, too_locked s len);
    if (def & VM_LOCKED) && locked then mret (u32 (- EAGAIN))
    else
      place ← clear_range 2 addr len;
      match place with
      | None => mret (u32 (- ENOMEM))
      | Some (prev, rb_link, rb_parent) =>
          large ← getm (λ s, too_large s len);
          count ← getm map_count;
          enough ← vm_enough_memory (pages len);
          if (large : bool) then mret (u32 (- ENOMEM))
          else if count >? max_map_count then mret (u32 (- ENOMEM))
          else if negb enough then mret (u32 (- ENOMEM))
          else
            let flags := Z.lor VM_DATA_DEFAULT_FLAGS def in
            merged ← (if negb (rb_parent =? 0) then vma_merge prev rb_parent addr (u32 (addr + len)) flags else mret false);
            if (merged : bool) then mapped addr len flags
            else
              vma ← kmem_cache_alloc;
              if vma =? 0 then mret (u32 (- ENOMEM))
              else
                wa vma (λ v, mk_vm_area addr (u32 (addr + len)) (vm_next v) (protection_map (Z.land flags 0x0f)) flags 0 0 0
                  (vm_raend v) 0);;
                vma_link vma prev rb_link rb_parent;;
                mapped addr len flags
      end.

Definition sys_brk (brk : Z) : VM Z :=
  let set_brk := setm (set_mm_brk brk);; mret brk in
  let out := getm mm_brk in
  end_code ← getm mm_end_code;
  if brk <? end_code then out
  else
    old ← getm mm_brk;
    let newbrk := PAGE_ALIGN brk in
    let oldbrk := PAGE_ALIGN old in
    if oldbrk =? newbrk then set_brk
    else if brk <=? old then
      err ← do_munmap newbrk (u32 (oldbrk - newbrk));
      if err =? 0 then set_brk else out
    else
      start_data ← getm mm_start_data;
      if (rlim_data <? 0xffffffff) && (u32 (brk - start_data) >? rlim_data) then out
      else
        vma ← find_vma_intersection oldbrk (u32 (newbrk + PAGE_SIZE));
        if negb (vma =? 0) then out
        else
          enough ← vm_enough_memory (pages (u32 (newbrk - oldbrk)));
          if negb enough then out
          else
            r ← do_brk oldbrk (u32 (newbrk - oldbrk));
            if negb (r =? oldbrk) then out else set_brk.
End calls.
