(* ===== verification/VmaMmap.v ===== *)
(** New mappings, stacks that grow, and the end of an address space (mm/mmap.c,
    include/linux/mm.h), on [Vma] and [VmaCalls]. *)
From S2P Require Import Prelude RbTree Vma VmaCalls.
From stdpp Require Import list options.
Open Scope cint_scope.
Open Scope Z_scope.

Definition PROT_READ : Z := 0x1.
Definition PROT_WRITE : Z := 0x2.
Definition PROT_EXEC : Z := 0x4.
Definition FMODE_READ : Z := 1.
Definition FMODE_WRITE : Z := 2.
Definition ENODEV : Z := 19.

(** * do_mmap_pgoff *)

Definition _trans (x bit1 bit2 : Z) : Z :=
  if bit1 =? bit2 then Z.land x bit1 else if x & bit1 then bit2 else 0.

Definition calc_vm_flags (prot flags : Z) : Z :=
  let prot_bits := Z.lor (Z.lor (_trans prot PROT_READ VM_READ) (_trans prot PROT_WRITE VM_WRITE)) (_trans prot PROT_EXEC VM_EXEC) in
  let flag_bits := Z.lor (Z.lor (_trans flags MAP_GROWSDOWN VM_GROWSDOWN) (_trans flags MAP_DENYWRITE VM_DENYWRITE))
    (_trans flags MAP_EXECUTABLE VM_EXECUTABLE) in
  Z.lor prot_bits flag_bits.

Definition set_vm_file (x : Z) (v : vm_area) : vm_area :=
  mk_vm_area (vm_start v) (vm_end v) (vm_next v) (vm_page_prot v) (vm_flags v) (vm_ops v) (vm_pgoff v) x (vm_raend v) (vm_private_data v).

Section mmap.
Context `{VmEnv}.

(** The [switch]es on the type of mapping: an error, or the flags of the area. *)
Definition map_type (s : mm) (file prot flags vm_flags : Z) : Z + Z :=
  let type := Z.land flags MAP_TYPE in
  if negb (file =? 0) then
    if type =? MAP_SHARED then
      if (prot & PROT_WRITE) && negb (file_mode file & FMODE_WRITE) then inl EACCES
      else if file_append file && (file_mode file & FMODE_WRITE) then inl EACCES
      else if file_locked s file then inl EAGAIN
      else
        let vm_flags := Z.lor vm_flags (Z.lor VM_SHARED VM_MAYSHARE) in
        let vm_flags := if negb (file_mode file & FMODE_WRITE) then vm_flags &~ Z.lor VM_MAYWRITE VM_SHARED else vm_flags in
        if negb (file_mode file & FMODE_READ) then inl EACCES else inr vm_flags
    else if type =? MAP_PRIVATE then
      if negb (file_mode file & FMODE_READ) then inl EACCES else inr vm_flags
    else inl EINVAL
  else
    let vm_flags := Z.lor vm_flags (Z.lor VM_SHARED VM_MAYSHARE) in
    if type =? MAP_PRIVATE then inr (vm_flags &~ Z.lor VM_SHARED VM_MAYSHARE)
    else if type =? MAP_SHARED then inr vm_flags
    else inl EINVAL.

(** The area is given to the file or to the shared memory file system: an error
    of the call, or [correct_wcount]. *)
Definition map_object (file flags vm_flags vma : Z) : VM (Z + bool) :=
  let fail error := free_area vma;; mret (inl error) in
  if negb (file =? 0) then
    if vm_flags & Z.lor VM_GROWSDOWN VM_GROWSUP then fail (- EINVAL)
    else
      error ← getm (λ s, if vm_flags & VM_DENYWRITE then file_deny_write s file else 0);
      if negb (error =? 0) then fail error
      else
        let correct_wcount := vm_flags & VM_DENYWRITE in
        (if (correct_wcount : bool) then emit_vm (EvWriteCount file (-1)) else mret tt);;
        wa vma (set_vm_file file);;
        emit_vm (EvGetFile file);;
        v ← ga vma;
        '(error, v) ← getm (λ s, file_mmap s file v);
        wa vma (λ _, v);;
        if negb (error =? 0) then
          (if (correct_wcount : bool) then emit_vm (EvWriteCount file 1) else mret tt);;
          wa vma (set_vm_file 0);;
          emit_vm (EvPutFile file);;
          emit_vm (EvZap (vm_start v) (u32 (vm_end v - vm_start v)));;
          fail error
        else mret (inr correct_wcount)
  else if flags & MAP_SHARED then
    v ← ga vma;
    '(error, v) ← getm (λ s, shmem_zero_setup s v);
    wa vma (λ _, v);;
    if negb (error =? 0) then fail error else mret (inr false)
  else mret (inr false).

(** [vm_enough_memory] is asked for a private writable mapping. *)
Definition mmap_enough (vm_flags flags len : Z) : VM bool :=
  if (Z.land vm_flags (Z.lor VM_SHARED VM_WRITE) =? VM_WRITE) && negb (flags & MAP_NORESERVE) then vm_enough_memory (pages len)
  else mret true.

(** The driver may have moved the area: the place is looked for again. *)
Definition replace_area (addr vma : Z) (place : Z * rb_slot * Z) : VM (Z * (Z * rb_slot * Z)) :=
  v ← ga vma;
  if addr =? vm_start v then mret (addr, place)
  else
    '(stale, place) ← find_vma_prepare (vm_start v);
    clash ← (if negb (stale =? 0) then w ← ga stale; mret (vm_start w <? vm_end v) else mret false);
    if (clash : bool) then bug
    else match place with None => bug | Some place => mret (vm_start v, place) end.

(** From the end of [munmap_back] on. *)
Definition mmap_place (file addr len flags pgoff vm_flags : Z) (place : Z * rb_slot * Z) : VM Z :=
  let '(prev, rb_link, rb_parent) := place in
  large ← getm (λ s, too_large s len);
  if (large : bool) then mret (u32 (- ENOMEM))
  else
    enough ← mmap_enough vm_flags flags len;
    if negb enough then mret (u32 (- ENOMEM))
    else
      merged ← (if (file =? 0) && negb (vm_flags & VM_SHARED) && negb (rb_parent =? 0)
                then vma_merge prev rb_parent addr (u32 (addr + len)) vm_flags else mret false);
      if (merged : bool) then mapped addr len vm_flags
      else
        vma ← kmem_cache_alloc;
        if vma =? 0 then mret (u32 (- ENOMEM))
        else
          wa vma (λ v, mk_vm_area addr (u32 (addr + len)) (vm_next v) (protection_map (Z.land vm_flags 0x0f)) vm_flags 0 pgoff 0 0 0);;
          r ← map_object file flags vm_flags vma;
          match r with
          | inl error => mret (u32 error)
          | inr correct_wcount =>
              '(addr, (prev, rb_link, rb_parent)) ← replace_area addr vma place;
              vma_link vma prev rb_link rb_parent;;
              (if (correct_wcount : bool) then emit_vm (EvWriteCount file 1) else mret tt);;
              mapped addr len vm_flags
          end.

Definition do_mmap_pgoff (file addr len prot flags pgoff : Z) : VM Z :=
  if negb (file =? 0) && negb (file_has_mmap file) then mret (u32 (- ENODEV))
  else
    let len := PAGE_ALIGN len in
    if len =? 0 then mret addr
    else if len >? TASK_SIZE then mret (u32 (- EINVAL))
    else if u32 (pgoff + pages len) <? pgoff then mret (u32 (- EINVAL))
    else
      count ← getm map_count;
      if count >? max_map_count then mret (u32 (- ENOMEM))
      else
        addr ← get_unmapped_area file addr len pgoff flags;
        if off_page addr then mret addr
        else
          def ← getm mm_def_flags;
          let vm_flags := Z.lor (Z.lor (calc_vm_flags prot flags) def) (Z.lor (Z.lor VM_MAYREAD VM_MAYWRITE) VM_MAYEXEC) in
          locked ← getm (λ s, too_locked s len);
          if (vm_flags & VM_LOCKED) && locked then mret (u32 (- EAGAIN))
          else
            type ← getm (λ s, map_type s file prot flags vm_flags);
            match type with
            | inl e => mret (u32 (- e))
            | inr vm_flags =>
                place ← clear_range 2 addr len;
                match place with
                | None => mret (u32 (- ENOMEM))
                | Some place => mmap_place file addr len flags pgoff vm_flags place
                end
            end.

(** * Stacks *)

(** 0, or [-ENOMEM]. *)
Definition expand_stack (vma address : Z) : VM Z :=
  let address := page_floor address in
  v ← ga vma;
  let grow := pages (u32 (vm_start v - address)) in
  total ← getm total_vm;
  if (u32 (vm_end v - address) >? rlim_stack) || (u32 (Z.shiftl (u32 (total + grow)) PAGE_SHIFT) >? rlim_as) then mret (- ENOMEM)
  else
    wa vma (set_vm_start address);;
    wa vma (set_vm_pgoff (u32 (vm_pgoff v - grow)));;
    add_total grow;;
    (if vm_flags v & VM_LOCKED then add_locked grow else mret tt);;
    mret 0.

Definition find_extend_vma (addr : Z) : VM Z :=
  let addr := page_floor addr in
  vma ← find_vma addr;
  if vma =? 0 then mret 0
  else
    v ← ga vma;
    if vm_start v <=? addr then mret vma
    else if negb (vm_flags v & VM_GROWSDOWN) then mret 0
    else
      let start := vm_start v in
      err ← expand_stack vma addr;
      if negb (err =? 0) then mret 0
      else
        (if vm_flags v & VM_LOCKED then emit_vm (EvMakePresent addr start) else mret tt);;
        mret vma.

(** * The whole address space *)

Fixpoint exit_loop (fuel : nat) (mpnt : Z) : VM unit :=
  match fuel with
  | O => bug
  | S fuel =>
      if mpnt =? 0 then mret tt
      else
        m ← ga mpnt;
        let next := vm_next m in
        (if negb (vm_ops m =? 0) && has_vclose (vm_ops m) then emit_vm (EvClose mpnt) else mret tt);;
        count_down;;
        (if negb (vm_file m =? 0) then emit_vm (EvUnlinkFile mpnt) else mret tt);;
        emit_vm (EvZap (vm_start m) (u32 (vm_end m - vm_start m)));;
        (if negb (vm_file m =? 0) then emit_vm (EvPutFile (vm_file m)) else mret tt);;
        free_area mpnt;;
        exit_loop fuel next
  end.

Definition exit_mmap : VM unit :=
  mpnt ← getm mm_mmap;
  fuel ← vm_fuel;
  setm (set_mm_mmap 0);;
  setm (set_mmap_cache 0);;
  on_tree (st_root 0);;
  setm (set_total_vm 0);;
  setm (set_locked_vm 0);;
  exit_loop fuel mpnt;;
  count ← getm map_count;
  if negb (count =? 0) then bug
  else emit_vm (EvClearPageTables 0 USER_PTRS_PER_PGD).

Fixpoint build_loop (fuel : nat) (vma : Z) (rb_link : rb_slot) (rb_parent : Z) : VM unit :=
  match fuel with
  | O => bug
  | S fuel =>
      if vma =? 0 then mret tt
      else
        __vma_link_rb vma rb_link rb_parent;;
        v ← ga vma;
        build_loop fuel (vm_next v) (RightOf vma) vma
  end.

Definition build_mmap_rb : VM unit :=
  on_tree (st_root 0);;
  vma ← getm mm_mmap;
  fuel ← vm_fuel;
  build_loop fuel vma RootSlot 0.
End mmap.
