(* ===== verification/VmaProt.v ===== *)
(** Locked and protected ranges of an address space (mm/mlock.c, mm/mprotect.c),
    on [Vma] and [VmaCalls]. The new parts of an area that is split are made by
    [split_start], [split_end] and [split_middle], whose code the two files
    share. *)
From S2P Require Import Prelude RbTree Vma VmaCalls VmaMmap.
From stdpp Require Import list options.
Open Scope cint_scope.
Open Scope Z_scope.

Definition MCL_CURRENT : Z := 1.
Definition MCL_FUTURE : Z := 2.

(** [vm_flags = newflags], and in mm/mprotect.c [vm_page_prot = prot]. *)
Definition relabel (newflags : Z) (prot : option Z) (v : vm_area) : vm_area :=
  mk_vm_area (vm_start v) (vm_end v) (vm_next v) (default (vm_page_prot v) prot) newflags (vm_ops v) (vm_pgoff v) (vm_file v)
    (vm_raend v) (vm_private_data v).

(** [vm_start = x] with the offset in the file that goes with it. *)
Definition move_start (x : Z) (v : vm_area) : vm_area :=
  set_vm_start x (set_vm_pgoff (u32 (vm_pgoff v + pages (u32 (x - vm_start v)))) v).

Section prot.
Context `{VmEnv}.

(** * Splitting an area *)

(** [*n = *vma], with changes. *)
Definition copy_area (n vma : Z) (f : vm_area → vm_area) : VM unit :=
  v ← ga vma;
  node ← on_tree (ld vma);
  wa n (λ _, f v);;
  on_tree (st n (λ _, node)).

(** [get_file] and [vopen] for a new part of [v]. *)
Definition get_part (v : vm_area) : VM unit := if negb (vm_file v =? 0) then emit_vm (EvGetFile (vm_file v)) else mret tt.
Definition open_part (v : vm_area) (n : Z) : VM unit := if negb (vm_ops v =? 0) && has_vopen (vm_ops v) then emit_vm (EvOpen n) else mret tt.

(** The part up to [end_] gets an area of its own with the new label. *)
Definition split_start (vma end_ newflags : Z) (prot : option Z) (error : Z) : VM Z :=
  n ← kmem_cache_alloc;
  if n =? 0 then mret (- error)
  else
    v ← ga vma;
    copy_area n vma (λ v, set_vm_raend 0 (relabel newflags prot (set_vm_end end_ v)));;
    get_part v;;
    open_part v n;;
    wa vma (move_start end_);;
    insert_vm_struct n;;
    mret 0.

(** The part from [start] on; the result is the error and the new area. *)
Definition split_end (vma start newflags : Z) (prot : option Z) (error : Z) : VM (Z * Z) :=
  n ← kmem_cache_alloc;
  if n =? 0 then mret (- error, 0)
  else
    v ← ga vma;
    copy_area n vma (λ v, set_vm_raend 0 (relabel newflags prot (move_start start v)));;
    get_part v;;
    open_part v n;;
    wa vma (set_vm_end start);;
    insert_vm_struct n;;
    mret (0, n).

(** The part from [start] to [end_] keeps the area; the result is the error and
    the area behind. *)
Definition split_middle (vma start end_ newflags : Z) (prot : option Z) (error : Z) : VM (Z * Z) :=
  left ← kmem_cache_alloc;
  if left =? 0 then mret (- error, 0)
  else
    right ← kmem_cache_alloc;
    if right =? 0 then free_area left;; mret (- error, 0)
    else
      v ← ga vma;
      copy_area left vma (λ v, set_vm_raend 0 (set_vm_end start v));;
      copy_area right vma (λ v, set_vm_raend 0 (move_start end_ v));;
      get_part v;;
      get_part v;;
      open_part v left;;
      open_part v right;;
      wa vma (λ v, set_vm_raend 0 (relabel newflags prot (set_vm_end end_ (move_start start v))));;
      insert_vm_struct left;;
      insert_vm_struct right;;
      mret (0, right).

(** * mlock *)

Definition mlock_fixup_all (vma newflags : Z) : VM Z := wa vma (relabel newflags None);; mret 0.
Definition mlock_fixup_start (vma end_ newflags : Z) : VM Z := split_start vma end_ newflags None EAGAIN.
Definition mlock_fixup_end (vma start newflags : Z) : VM Z := '(error, _) ← split_end vma start newflags None EAGAIN; mret error.
Definition mlock_fixup_middle (vma start end_ newflags : Z) : VM Z := '(error, _) ← split_middle vma start end_ newflags None EAGAIN; mret error.

Definition mlock_fixup (vma start end_ newflags : Z) : VM Z :=
  v ← ga vma;
  if newflags =? vm_flags v then mret 0
  else
    retval ←
      (if start =? vm_start v then
         if end_ =? vm_end v then mlock_fixup_all vma newflags else mlock_fixup_start vma end_ newflags
       else
         if end_ =? vm_end v then mlock_fixup_end vma start newflags else mlock_fixup_middle vma start end_ newflags);
    if retval =? 0 then
      let n := pages (u32 (end_ - start)) in
      (if newflags & VM_LOCKED then emit_vm (EvMakePresent start end_);; add_locked n else add_locked (- n));;
      mret retval
    else mret retval.

(** The flags an area gets. *)
Definition lock_flags (on : bool) (flags : Z) : Z :=
  let newflags := Z.lor flags VM_LOCKED in
  if on then newflags else newflags &~ VM_LOCKED.

Fixpoint mlock_loop (fuel : nat) (vma nstart end_ : Z) (on : bool) : VM Z :=
  match fuel with
  | O => bug
  | S fuel =>
      v ← ga vma;
      let newflags := lock_flags on (vm_flags v) in
      if vm_end v >=? end_ then mlock_fixup vma nstart end_ newflags
      else
        let tmp := vm_end v in
        let next := vm_next v in
        error ← mlock_fixup vma nstart tmp newflags;
        if negb (error =? 0) then mret error
        else if next =? 0 then mret (- ENOMEM)
        else
          n ← ga next;
          if negb (vm_start n =? tmp) then mret (- ENOMEM) else mlock_loop fuel next tmp end_ on
  end.

(** [can] is the answer of [capable(CAP_IPC_LOCK)]. *)
Definition do_mlock (can : bool) (start len : Z) (on : bool) : VM Z :=
  if on && negb can then mret (- EPERM)
  else
    let len := PAGE_ALIGN len in
    let end_ := u32 (start + len) in
    if end_ <? start then mret (- EINVAL)
    else if end_ =? start then mret 0
    else
      vma ← find_vma start;
      if vma =? 0 then mret (- ENOMEM)
      else
        v ← ga vma;
        if vm_start v >? start then mret (- ENOMEM)
        else fuel ← vm_fuel; mlock_loop fuel vma start end_ on.

Definition lock_limit : Z := Z.shiftr rlim_memlock PAGE_SHIFT.
Definition page_offset (start : Z) : Z := Z.land start (PAGE_SIZE - 1).

Definition sys_mlock (can : bool) (start len : Z) : VM Z :=
  let len := PAGE_ALIGN (u32 (len + page_offset start)) in
  let start := page_floor start in
  held ← getm locked_vm;
  let locked := u32 (pages len + held) in
  if locked >? lock_limit then mret (- ENOMEM)
  else if locked >? num_physpages / 2 then mret (- ENOMEM)
  else do_mlock can start len true.

Definition sys_munlock (can : bool) (start len : Z) : VM Z :=
  let len := PAGE_ALIGN (u32 (len + page_offset start)) in
  let start := page_floor start in
  do_mlock can start len false.

Fixpoint mlockall_loop (fuel : nat) (vma flags : Z) : VM Z :=
  match fuel with
  | O => bug
  | S fuel =>
      if vma =? 0 then mret 0
      else
        v ← ga vma;
        error ← mlock_fixup vma (vm_start v) (vm_end v) (lock_flags (flags & MCL_CURRENT) (vm_flags v));
        if negb (error =? 0) then mret error
        else v ← ga vma; mlockall_loop fuel (vm_next v) flags
  end.

Definition set_def_flags (x : Z) (s : mm) : mm :=
  mk_mm (mm_areas s) (mm_rb s) (mm_mmap s) (mmap_cache s) (map_count s) (total_vm s) (locked_vm s) x (mm_brk s) (mm_end_code s) (mm_start_data s) (mm_log s).

Definition do_mlockall (can : bool) (flags : Z) : VM Z :=
  if negb can then mret (- EPERM)
  else
    setm (set_def_flags (if flags & MCL_FUTURE then VM_LOCKED else 0));;
    vma ← getm mm_mmap;
    fuel ← vm_fuel;
    mlockall_loop fuel vma flags.

Definition sys_mlockall (can : bool) (flags : Z) : VM Z :=
  if (flags =? 0) || negb (flags &~ Z.lor MCL_CURRENT MCL_FUTURE =? 0) then mret (- EINVAL)
  else
    total ← getm total_vm;
    if total >? lock_limit then mret (- ENOMEM)
    else if total >? num_physpages / 2 then mret (- ENOMEM)
    else do_mlockall can flags.

Definition sys_munlockall (can : bool) : VM Z := do_mlockall can 0.

(** * mprotect *)

Definition change_protection (start end_ newprot : Z) : VM unit :=
  if start >=? end_ then bug else emit_vm (EvProtect start end_ newprot).

(** [prev] ends where the anonymous private area [v] starts, and has the flags. *)
Definition can_join (prev : Z) (v : vm_area) (newflags : Z) : VM bool :=
  if prev =? 0 then mret false
  else
    p ← ga prev;
    mret ((vm_end p =? vm_start v) && can_vma_merge p newflags && (vm_file v =? 0) && negb (vm_flags v & VM_SHARED)).

(** [vma] goes to the area before it. *)
Definition absorb (prev vma : Z) : VM unit :=
  v ← ga vma;
  wa prev (set_vm_end (vm_end v));;
  __vma_unlink vma prev;;
  free_area vma;;
  count_down.

(** These give the error and the new [*pprev]. *)
Definition mprotect_fixup_all (vma prev newflags prot : Z) : VM (Z * Z) :=
  v ← ga vma;
  join ← can_join prev v newflags;
  if (join : bool) then absorb prev vma;; mret (0, prev)
  else wa vma (relabel newflags (Some prot));; mret (0, vma).

Definition mprotect_fixup_start (vma prev end_ newflags prot : Z) : VM (Z * Z) :=
  v ← ga vma;
  join ← can_join prev v newflags;
  if (join : bool) then
    wa prev (set_vm_end end_);;
    wa vma (set_vm_start end_);;
    mret (0, vma)
  else error ← split_start vma end_ newflags (Some prot) ENOMEM; mret (error, vma).

Definition mprotect_fixup_end (vma prev start newflags prot : Z) : VM (Z * Z) :=
  '(error, n) ← split_end vma start newflags (Some prot) ENOMEM;
  mret (error, if error =? 0 then n else prev).

Definition mprotect_fixup_middle (vma prev start end_ newflags prot : Z) : VM (Z * Z) :=
  '(error, rest) ← split_middle vma start end_ newflags (Some prot) ENOMEM;
  mret (error, if error =? 0 then rest else prev).

Definition mprotect_fixup (vma prev start end_ newflags : Z) : VM (Z * Z) :=
  v ← ga vma;
  if newflags =? vm_flags v then mret (0, vma)
  else
    let newprot := protection_map (Z.land newflags 0xf) in
    '(error, prev) ←
      (if start =? vm_start v then
         if end_ =? vm_end v then mprotect_fixup_all vma prev newflags newprot else mprotect_fixup_start vma prev end_ newflags newprot
       else if end_ =? vm_end v then mprotect_fixup_end vma prev start newflags newprot
       else mprotect_fixup_middle vma prev start end_ newflags newprot);
    if negb (error =? 0) then mret (error, prev)
    else change_protection start end_ newprot;; mret (0, prev).

Definition prot_flags (prot flags : Z) : Z := Z.lor prot (flags &~ Z.lor (Z.lor PROT_READ PROT_WRITE) PROT_EXEC).
(** [(newflags & ~(newflags >> 4)) & 0xf] *)
Definition not_allowed (newflags : Z) : bool := (newflags &~ Z.shiftr newflags 4) & 0xf.

(** The loop: an error, or [prev] and [next] after the last area. *)
Fixpoint mprotect_loop (fuel : nat) (vma prev nstart end_ prot : Z) : VM (Z + Z * Z) :=
  match fuel with
  | O => bug
  | S fuel =>
      v ← ga vma;
      let newflags := prot_flags prot (vm_flags v) in
      if not_allowed newflags then mret (inl (- EACCES))
      else if vm_end v >? end_ then '(error, _) ← mprotect_fixup vma prev nstart end_ newflags; mret (inl error)
      else
        let last := vm_end v =? end_ in
        let tmp := vm_end v in
        let next := vm_next v in
        '(error, prev) ← mprotect_fixup vma prev nstart tmp newflags;
        if negb (error =? 0) then mret (inl error)
        else if last then mret (inr (prev, next))
        else if next =? 0 then mret (inl (- ENOMEM))
        else
          n ← ga next;
          if negb (vm_start n =? tmp) then mret (inl (- ENOMEM)) else mprotect_loop fuel next prev tmp end_ prot
  end.

(** The last area of the range may now go together with the next one. *)
Definition join_next (prev next : Z) : VM unit :=
  if next =? 0 then mret tt
  else
    p ← ga prev;
    n ← ga next;
    if (vm_end p =? vm_start n) && can_vma_merge n (vm_flags p) && (vm_file p =? 0) && negb (vm_flags p & VM_SHARED) then absorb prev next
    else mret tt.

Definition sys_mprotect (start len prot : Z) : VM Z :=
  if off_page start then mret (- EINVAL)
  else
    let len := PAGE_ALIGN len in
    let end_ := u32 (start + len) in
    if end_ <? start then mret (- EINVAL)
    else if negb (prot &~ Z.lor (Z.lor PROT_READ PROT_WRITE) PROT_EXEC =? 0) then mret (- EINVAL)
    else if end_ =? start then mret 0
    else
      '(vma, prev) ← find_vma_prev start;
      if vma =? 0 then mret (- ENOMEM)
      else
        v ← ga vma;
        if vm_start v >? start then mret (- ENOMEM)
        else
          fuel ← vm_fuel;
          r ← mprotect_loop fuel vma prev start end_ prot;
          match r with
          | inl error => mret error
          | inr (prev, next) => join_next prev next;; mret 0
          end.
End prot.
