(* ===== verification/VmaShape.v ===== *)
(** What it means that an address space is in order, and what its searches
    find (mm/mmap.c). *)
From S2P Require Import Prelude RbTree RbShape RbInsert RbErase Vma.
From stdpp Require Import list options.
#[local] Set Default Proof Using "Type*".
Open Scope cint_scope.
Open Scope Z_scope.

(** * The areas of an address space *)

(** The areas in order, each with its address and its contents; [vm_next] is
    left to the list. *)
Notation vdata := (list (Z * vm_area)).

Definition hd0 (l : list Z) : Z := hd 0 l.
Definition last0 (l : list Z) : Z := List.last l 0.

(** The list from the pointer [p] through the areas up to the pointer [q]. *)
Fixpoint vseg (A : gmap Z vm_area) (p : Z) (D : vdata) (q : Z) : Prop :=
  match D with
  | [] => p = q
  | (x, g) :: D => p = x ∧ ∃ nx, A !! x = Some (set_vm_next nx g) ∧ vseg A nx D q
  end.

Definition aligned (z : Z) : Prop := z mod PAGE_SIZE = 0.

(** Not empty, whole pages, in ascending order without overlap from [lo] on, up
    to [hi]. *)
Fixpoint laid (lo hi : Z) (D : vdata) : Prop :=
  match D with
  | [] => lo <= hi
  | (_, g) :: D => lo <= vm_start g ∧ vm_start g < vm_end g ∧ aligned (vm_start g) ∧ aligned (vm_end g) ∧ laid (vm_end g) hi D
  end.

Record vm_core (s : mm) (D : vdata) (t : tree) : Prop := {
  vc_list : vseg (mm_areas s) (mm_mmap s) D 0;
  vc_laid : laid 0 (2 ^ 32 - 1) D;
  vc_tree : rb_holds (mm_rb s) t;
  vc_balanced : red_black t;
  vc_order : inorder t = D.*1;
  vc_nodes p : is_Some (mm_areas s !! p) ↔ is_Some (rb_heap (mm_rb s) !! p);
  vc_null : mm_areas s !! 0 = None
}.

(** What [mmap_cache] may be. *)
Definition cached (s : mm) (D : vdata) : Prop := mmap_cache s = 0 ∨ mmap_cache s ∈ D.*1.

(** ** Lists of areas *)

Lemma vseg_head A p D : vseg A p D 0 → p = hd0 D.*1.
Proof. destruct D as [|[x g] D]; [done|]. by intros (-> & _). Qed.

Lemma vseg_elem A p D q x g : vseg A p D q → (x, g) ∈ D → ∃ nx, A !! x = Some (set_vm_next nx g).
Proof.
  revert p. induction D as [|[y h] D IH]; intros p; [intros _ H; by apply elem_of_nil in H|].
  intros (-> & nx & Hy & Hl) [[= -> ->]|Hx]%elem_of_cons; [by eexists|by eapply IH].
Qed.

Lemma vseg_agree A A' p D q : (∀ x, x ∈ D.*1 → A' !! x = A !! x) → vseg A p D q → vseg A' p D q.
Proof.
  revert p. induction D as [|[y h] D IH]; intros p Ha; [done|]. intros (-> & nx & Hy & Hl). split; [done|]. exists nx.
  rewrite Ha by (cbn; left). split; [done|]. apply IH; [|done]. intros x Hx. apply Ha. by right.
Qed.

Lemma vseg_app A p D1 D2 q : vseg A p (D1 ++ D2) q ↔ ∃ m, vseg A p D1 m ∧ vseg A m D2 q.
Proof.
  revert p. induction D1 as [|[x g] D1 IH]; intros p; cbn.
  - split; [by exists p|by intros (m & -> & ?)].
  - split.
    + intros (-> & nx & Hx & (m & Hm & H2)%IH). exists m. split; [|done]. split; [done|]. by exists nx.
    + intros (m & (-> & nx & Hx & Hm) & H2). split; [done|]. exists nx. split; [done|]. apply IH. by exists m.
Qed.

(** The last pointer redirected. *)
Lemma vseg_redirect A p D x g q q' : x ∉ D.*1 → vseg A p (D ++ [(x, g)]) q →
  vseg (<[x := set_vm_next q' g]> A) p (D ++ [(x, g)]) q'.
Proof.
  intros Hx. rewrite !vseg_app. intros (m & Hm & -> & nx & Hnx & _). exists x. split.
  - eapply vseg_agree; [|done]. intros y Hy. apply lookup_insert_ne. by intros ->.
  - split; [done|]. exists q'. by rewrite lookup_insert_eq.
Qed.

Lemma laid_weaken lo lo' hi hi' D : lo' <= lo → hi <= hi' → laid lo hi D → laid lo' hi' D.
Proof.
  revert lo lo'. induction D as [|[x g] D IH]; intros lo lo' Hlo Hhi; cbn; [lia|].
  intros (? & ? & ? & ? & ?). split_and!; [lia|done|done|done|]. by eapply IH; [reflexivity|..].
Qed.

Lemma laid_bounds lo hi D : laid lo hi D → lo <= hi.
Proof. revert lo. induction D as [|[x g] D IH]; intros lo; cbn; [done|]. intros (? & ? & _ & _ & ?%IH). lia. Qed.

Lemma laid_app lo hi D1 D2 : laid lo hi (D1 ++ D2) ↔ ∃ mid, laid lo mid D1 ∧ laid mid hi D2.
Proof.
  revert lo. induction D1 as [|[x g] D1 IH]; intros lo; cbn.
  - split; [intros Hl; exists lo; split; [lia|done]|]. intros (mid & Hle & Hl). eapply laid_weaken; [exact Hle|reflexivity|done].
  - split.
    + intros (? & ? & ? & ? & (mid & ? & ?)%IH). by exists mid.
    + intros (mid & (? & ? & ? & ? & ?) & ?). split_and!; [done..|]. apply IH. by exists mid.
Qed.

Lemma laid_elem lo hi D x g : laid lo hi D → (x, g) ∈ D →
  lo <= vm_start g ∧ vm_start g < vm_end g ∧ vm_end g <= hi ∧ aligned (vm_start g) ∧ aligned (vm_end g).
Proof.
  revert lo. induction D as [|[y h] D IH]; intros lo; [intros _ H; by apply elem_of_nil in H|].
  intros (? & ? & ? & ? & Hl) [[= -> ->]|Hx]%elem_of_cons.
  - pose proof (laid_bounds _ _ _ Hl). by split_and!.
  - destruct (IH _ Hl Hx) as (? & ? & ? & ? & ?). split_and!; (done || lia).
Qed.

(** What lies on both sides of an area. *)
Lemma laid_mid lo hi D1 x g D2 : laid lo hi (D1 ++ (x, g) :: D2) →
  laid lo (vm_start g) D1 ∧ laid (vm_end g) hi D2 ∧ vm_start g < vm_end g ∧ aligned (vm_start g) ∧ aligned (vm_end g).
Proof.
  intros (mid & H1 & (? & ? & ? & ? & ?))%laid_app. split_and!; [|done..]. eapply laid_weaken; [reflexivity|done|done].
Qed.

Section core.
Context (s : mm) (D : vdata) (t : tree) (C : vm_core s D t).

Lemma vc_area x g : (x, g) ∈ D → ∃ nx, mm_areas s !! x = Some (set_vm_next nx g).
Proof. apply (vseg_elem _ _ _ _ _ _ (vc_list _ _ _ C)). Qed.

Lemma vc_nodup : NoDup D.*1.
Proof.
  rewrite <-(vc_order _ _ _ C). apply NoDup_ListNoDup, (NoDup_count_occ Z.eq_dec). intros z. rewrite <-cnt_inorder.
  apply (vc_tree _ _ _ C).
Qed.

Lemma vc_length : (length D <= base.size (mm_areas s))%nat.
Proof.
  rewrite <-(length_fmap fst D). apply nodup_size; [apply vc_nodup|]. intros x ([y g] & -> & Hx)%list_elem_of_fmap.
  destruct (vc_area _ _ Hx) as [nx Hnx]. by eexists.
Qed.

Lemma vc_nonzero x g : (x, g) ∈ D → x ≠ 0.
Proof. intros Hx ->. destruct (vc_area _ _ Hx) as [nx Hnx]. by rewrite (vc_null _ _ _ C) in Hnx. Qed.
End core.

Lemma set_mmap_cache_same s : set_mmap_cache (mmap_cache s) s = s.
Proof. by destruct s. Qed.

(** * Searches *)

(** All of [D1] ends at or below [addr], all of [D2] starts above. *)
Definition ends_below (addr : Z) (D : vdata) : Prop := ∀ x g, (x, g) ∈ D → vm_end g <= addr.
Definition starts_above (addr : Z) (D : vdata) : Prop := ∀ x g, (x, g) ∈ D → addr < vm_start g.

Section search.
Context (s : mm) (D : vdata) (T : tree) (C : vm_core s D T) (addr : Z).

(** The hole of [k] is where an area at [addr] belongs. *)
Definition gap_at (k : list frame) (D1 D2 : vdata) : Prop :=
  T = plug k Leaf ∧ D = D1 ++ D2 ∧ D1.*1 = before_hole k ∧ D2.*1 = after_hole k ∧ ends_below addr D1 ∧ starts_above addr D2.

(** The area [x] contains [addr]. *)
Definition hit_at (k : list frame) (c : color) (l : tree) (x : Z) (r : tree) (g : vm_area) (D1 D2 : vdata) : Prop :=
  T = plug k (Node c l x r) ∧ D = D1 ++ (x, g) :: D2 ∧ D1.*1 = before_hole k ++ inorder l ∧ D2.*1 = inorder r ++ after_hole k ∧
  vm_start g <= addr < vm_end g.

Lemma fst_app_split (E : vdata) (l1 l2 : list Z) : E.*1 = l1 ++ l2 → ∃ E1 E2, E = E1 ++ E2 ∧ E1.*1 = l1 ∧ E2.*1 = l2.
Proof.
  revert E. induction l1 as [|x l1 IH]; intros E HE; [by exists [], E|].
  destruct E as [|[y g] E]; [done|]. injection HE as -> HE. destruct (IH E HE) as (E1 & E2 & -> & <- & <-). by exists ((x, g) :: E1), E2.
Qed.

(** All the searches take the same way down. *)
Lemma search_ind (P : list frame → tree → Prop) :
  (∀ k D1 D2, gap_at k D1 D2 → P k Leaf) →
  (∀ k c l x r g D1 D2, hit_at k c l x r g D1 D2 → P k (Node c l x r)) →
  (∀ k c l x r g, T = plug k (Node c l x r) → (x, g) ∈ D → addr < vm_start g → P (Fr SL c x r :: k) l → P k (Node c l x r)) →
  (∀ k c l x r g, T = plug k (Node c l x r) → (x, g) ∈ D → vm_end g <= addr → P (Fr SR c x l :: k) r → P k (Node c l x r)) →
  P [] T.
Proof.
  intros Hleaf Hhit Hleft Hright.
  enough (∀ t k D1 Dt D2, T = plug k t → D = D1 ++ Dt ++ D2 → D1.*1 = before_hole k → Dt.*1 = inorder t → D2.*1 = after_hole k →
    ends_below addr D1 → starts_above addr D2 → P k t) as Hgen.
  { apply (Hgen T [] [] D []); [done|by rewrite app_nil_r|done|by rewrite (vc_order _ _ _ C)|done|..]; intros x g Hx; by apply elem_of_nil in Hx. }
  induction t as [|c l IHl x r IHr]; intros k D1 Dt D2 HT HD H1 Ht H2 E1 E2.
  - cbn in Ht. apply fmap_nil_inv in Ht as ->. apply (Hleaf k D1 D2). by split_and!.
  - cbn in Ht. apply fst_app_split in Ht as (Dl & Dr & -> & Hl & Hr). destruct Dr as [|[y g] Dr]; [done|]. injection Hr as -> Hr. change (Dr.*1 = inorder r) in Hr.
    assert (D = (D1 ++ Dl) ++ (x, g) :: Dr ++ D2) as HD' by (rewrite HD; by rewrite <-!app_assoc).
    assert ((x, g) ∈ D) as Hx by (rewrite HD', elem_of_app, elem_of_cons; auto).
    pose proof (vc_laid _ _ _ C) as Hlaid. rewrite HD' in Hlaid. apply laid_mid in Hlaid as (L1 & L2 & ? & _).
    destruct (decide (vm_end g <= addr)) as [He|He].
    + apply (Hright k c l x r g HT Hx He). apply (IHr _ (D1 ++ Dl ++ [(x, g)]) Dr D2); [exact HT|rewrite HD'; by rewrite <-!app_assoc| |done|done| |done].
      * by rewrite !fmap_app, H1, Hl.
      * intros z w Hz. rewrite app_assoc, elem_of_app, list_elem_of_singleton in Hz. destruct Hz as [Hz|[= -> ->]]; [|done].
        destruct (laid_elem _ _ _ _ _ L1 Hz). lia.
    + destruct (decide (vm_start g <= addr)) as [Hs|Hs].
      * apply (Hhit k c l x r g (D1 ++ Dl) (Dr ++ D2)). split_and!; [done|done|by rewrite fmap_app, H1, Hl|by rewrite fmap_app, Hr, H2|done|lia].
      * apply (Hleft k c l x r g HT Hx); [lia|]. apply (IHl _ D1 Dl ((x, g) :: Dr ++ D2)); [exact HT|by rewrite HD', <-app_assoc|done|done| |done|].
        -- cbn. by rewrite fmap_app, Hr, H2.
        -- intros z w [[= -> ->]|Hz]%elem_of_cons; [lia|]. destruct (laid_elem _ _ _ _ _ L2 Hz). lia.
Qed.

(** What a loop reads at a node. *)
Lemma ga_run x g : (x, g) ∈ D → ∃ nx, ga x s = Some (set_vm_next nx g, s).
Proof. intros Hx. destruct (vc_area s D T C x g Hx) as [nx Hnx]. exists nx. unfold ga. by rewrite Hnx. Qed.

Lemma node_run k c l x r : T = plug k (Node c l x r) →
  on_tree (ld x) s = Some (mk_rb_node (cpar 0 k) (cz c) (ptr r) (ptr l), s).
Proof.
  intros HT. pose proof (vc_tree _ _ _ C) as Ht. rewrite HT in Ht. change (Node c l x r) with (bin SL c l x r) in Ht.
  apply ld_holds in Ht. unfold on_tree. rewrite Ht. by destruct s.
Qed.

Lemma node_nonzero k c l x r : T = plug k (Node c l x r) → x ≠ 0.
Proof.
  intros HT. pose proof (vc_tree _ _ _ C) as Ht. rewrite HT in Ht. change (Node c l x r) with (bin SL c l x r) in Ht. by eapply holds_nonzero.
Qed.

(** The first area that ends above [addr]. *)
Definition first_above (E : vdata) : Z :=
  match list_find (λ xg, addr < vm_end xg.2) E with Some (_, (x, _)) => x | None => 0 end.

Lemma first_above_skip D1 D2 : ends_below addr D1 → first_above (D1 ++ D2) = first_above D2.
Proof.
  unfold first_above. induction D1 as [|[x g] D1 IH]; intros H1; [done|]. cbn. rewrite decide_False.
  - rewrite <-IH; [|intros y h Hy; apply (H1 y h); by right]. by destruct (list_find _ (D1 ++ D2)) as [[? [? ?]]|].
  - pose proof (H1 x g ltac:(left)). lia.
Qed.

Lemma gap_first k D1 D2 : gap_at k D1 D2 → first_above D = hd0 (after_hole k).
Proof.
  intros (_ & -> & _ & <- & H1 & H2). rewrite first_above_skip by done. destruct D2 as [|[x g] D2]; [done|]. unfold first_above. cbn.
  rewrite decide_True; [done|]. pose proof (H2 x g ltac:(left)). pose proof (vc_laid _ _ _ C) as (? & _ & (? & ? & _))%laid_app. lia.
Qed.

Lemma hit_below k c l x r g D1 D2 : hit_at k c l x r g D1 D2 → ends_below addr D1.
Proof.
  intros (_ & HD & _ & _ & Hs & _) y h Hy. pose proof (vc_laid _ _ _ C) as Hl. rewrite HD in Hl. apply laid_mid in Hl as (L1 & _).
  destruct (laid_elem _ _ _ _ _ L1 Hy). lia.
Qed.

Lemma hit_first k c l x r g D1 D2 : hit_at k c l x r g D1 D2 → first_above D = x.
Proof.
  intros Hh. pose proof (hit_below _ _ _ _ _ _ _ _ Hh). destruct Hh as (_ & -> & _ & _ & ?).
  rewrite first_above_skip by done. unfold first_above. cbn. by rewrite decide_True by lia.
Qed.

(** The reads at a node on the way. *)
Ltac at_node HT Hx :=
  cbn [find_vma_loop find_prev_loop prepare_loop ptr];
  let nx := fresh "nx" in let Hga := fresh in
  destruct (ga_run _ _ Hx) as [nx Hga];
  match type of HT with _ = plug ?k (Node _ _ ?x _) =>
    destruct (Z.eqb_spec x 0); [by apply node_nonzero in HT|] end;
  erewrite es_bind by exact Hga; try erewrite es_bind by (eapply node_run; exact HT);
  cbn [set_vm_next vm_end vm_start rb_left rb_right].

Lemma hit_elem k c l x r g D1 D2 : hit_at k c l x r g D1 D2 → (x, g) ∈ D.
Proof. intros (_ & -> & _). apply elem_of_app. right. left. Qed.

Lemma find_vma_loop_run fuel : (length (inorder T) < fuel)%nat → find_vma_loop fuel addr (ptr T) 0 s = Some (first_above D, s).
Proof.
  revert fuel. apply (search_ind (λ k t, ∀ fuel, (length (inorder t) < fuel)%nat →
    find_vma_loop fuel addr (ptr t) (hd0 (after_hole k)) s = Some (first_above D, s))).
  - intros k D1 D2 Hg [|fuel] Hf; [lia|]. cbn. by rewrite (gap_first k D1 D2).
  - intros k c l x r g D1 D2 Hh [|fuel] Hf; [lia|]. pose proof (hit_elem _ _ _ _ _ _ _ _ Hh) as Hx.
    rewrite (hit_first _ _ _ _ _ _ _ _ Hh). destruct Hh as (HT & _ & _ & _ & Hs & He). at_node HT Hx.
    destruct (Z.gtb_spec (vm_end g) addr), (Z.leb_spec (vm_start g) addr); (done || lia).
  - intros k c l x r g HT Hx Hs IH [|fuel] Hf; [lia|]. cbn in Hf. rewrite length_app in Hf. cbn in Hf. at_node HT Hx.
    destruct (laid_elem _ _ _ _ _ (vc_laid _ _ _ C) Hx) as (_ & ? & _).
    destruct (Z.gtb_spec (vm_end g) addr); [|lia]. destruct (Z.leb_spec (vm_start g) addr); [lia|]. apply IH. lia.
  - intros k c l x r g HT Hx He IH [|fuel] Hf; [lia|]. cbn in Hf. rewrite length_app in Hf. cbn in Hf. at_node HT Hx.
    destruct (Z.gtb_spec (vm_end g) addr); [lia|]. apply IH. lia.
Qed.

(** Where [rb_prev] stands when the way passed [v]. *)
Definition prev_ok (v pv : Z) : Prop := ∃ k c l r, T = plug k (Node c l v r) ∧ pv = last0 (before_hole k).

Lemma last0_app l x : last0 (l ++ [x]) = x.
Proof. apply last_last. Qed.

Lemma last0_more l1 l2 : l2 ≠ [] → last0 (l1 ++ l2) = last0 l2.
Proof. intros H2. destruct (exists_last H2) as (l3 & y & ->). by rewrite app_assoc, !last0_app. Qed.

Lemma find_prev_loop_run fuel prev : (length (inorder T) < fuel)%nat →
  ∃ pv, find_prev_loop fuel addr (ptr T) 0 prev 0 s = Some ((first_above D, pv), s) ∧ (first_above D ≠ 0 → prev_ok (first_above D) pv).
Proof.
  revert fuel prev. enough (∀ fuel prev, (length (inorder T) < fuel)%nat → (hd0 (after_hole []) ≠ 0 → prev_ok (hd0 (after_hole [])) prev) →
    ∃ pv, find_prev_loop fuel addr (ptr T) (last0 (before_hole [])) prev (hd0 (after_hole [])) s = Some ((first_above D, pv), s) ∧
      (first_above D ≠ 0 → prev_ok (first_above D) pv)) as Hgen by (intros fuel prev Hf; by apply Hgen).
  apply (search_ind (λ k t, ∀ fuel prev, (length (inorder t) < fuel)%nat → (hd0 (after_hole k) ≠ 0 → prev_ok (hd0 (after_hole k)) prev) →
    ∃ pv, find_prev_loop fuel addr (ptr t) (last0 (before_hole k)) prev (hd0 (after_hole k)) s = Some ((first_above D, pv), s) ∧
      (first_above D ≠ 0 → prev_ok (first_above D) pv))).
  - intros k D1 D2 Hg [|fuel] prev Hf Hp; [lia|]. cbn. rewrite (gap_first k D1 D2) by done. by exists prev.
  - intros k c l x r g D1 D2 Hh [|fuel] prev Hf Hp; [lia|]. pose proof (hit_elem _ _ _ _ _ _ _ _ Hh) as Hx.
    rewrite (hit_first _ _ _ _ _ _ _ _ Hh). destruct Hh as (HT & _ & _ & _ & Hs & He). at_node HT Hx.
    destruct (Z.gtb_spec (vm_end g) addr); [|lia]. destruct (Z.leb_spec (vm_start g) addr); [|lia].
    exists (last0 (before_hole k)). split; [done|]. intros _. by exists k, c, l, r.
  - intros k c l x r g HT Hx Hs IH [|fuel] prev Hf Hp; [lia|]. cbn in Hf. rewrite length_app in Hf. cbn in Hf. at_node HT Hx.
    destruct (laid_elem _ _ _ _ _ (vc_laid _ _ _ C) Hx) as (_ & ? & _).
    destruct (Z.gtb_spec (vm_end g) addr); [|lia]. destruct (Z.leb_spec (vm_start g) addr); [lia|].
    apply IH; [lia|]. intros _. cbn. by exists k, c, l, r.
  - intros k c l x r g HT Hx He IH [|fuel] prev Hf Hp; [lia|]. cbn in Hf. rewrite length_app in Hf. cbn in Hf. at_node HT Hx.
    destruct (Z.gtb_spec (vm_end g) addr); [lia|]. cbn [before_hole] in IH. rewrite app_assoc, last0_app in IH. apply IH; [lia|done].
Qed.

Lemma ld_slot_run k t : T = plug k t → on_tree (ld_slot (hole_slot k)) s = Some (ptr t, s).
Proof.
  intros HT. destruct k as [|[[] c x w] k]; cbn [hole_slot ld_slot].
  - pose proof (vc_tree _ _ _ C) as (Hr & _). cbn in HT. subst t. unfold on_tree, ld_root. rewrite <-Hr. by destruct s.
  - cbn [plug fill bin] in HT. pose proof (node_run _ _ _ _ _ HT) as Hn. unfold on_tree in *. unfold mbind, ES_bind.
    destruct (ld x (mm_rb s)) as [[n tr]|]; [|done]. injection Hn as -> Hn. cbn. by rewrite Hn.
  - cbn [plug fill bin] in HT. pose proof (node_run _ _ _ _ _ HT) as Hn. unfold on_tree in *. unfold mbind, ES_bind.
    destruct (ld x (mm_rb s)) as [[n tr]|]; [|done]. injection Hn as -> Hn. cbn. by rewrite Hn.
Qed.

(** How [find_vma_prepare] answers. *)
Definition prepared (out : option ((Z * option (Z * rb_slot * Z)) * mm)) : Prop :=
  (∃ k D1 D2, gap_at k D1 D2 ∧
     out = Some ((hd0 (after_hole k), Some (last0 (before_hole k), hole_slot k, cpar 0 k)), s)) ∨
  (∃ k c l x r g D1 D2, hit_at k c l x r g D1 D2 ∧ out = Some ((x, None), s)).

Lemma prepare_loop_run fuel : (length (inorder T) < fuel)%nat → prepared (prepare_loop fuel addr RootSlot 0 0 0 s).
Proof.
  revert fuel. apply (search_ind (λ k t, ∀ fuel, (length (inorder t) < fuel)%nat →
    prepared (prepare_loop fuel addr (hole_slot k) (cpar 0 k) (last0 (before_hole k)) (hd0 (after_hole k)) s))).
  - intros k D1 D2 Hg [|fuel] Hf; [lia|]. pose proof Hg as (HT & _). cbn [prepare_loop].
    erewrite es_bind by by eapply ld_slot_run. left. by exists k, D1, D2.
  - intros k c l x r g D1 D2 Hh [|fuel] Hf; [lia|]. pose proof (hit_elem _ _ _ _ _ _ _ _ Hh) as Hx. pose proof Hh as (HT & _ & _ & _ & Hs & He).
    cbn [prepare_loop]. erewrite es_bind by by eapply ld_slot_run. at_node HT Hx.
    destruct (Z.gtb_spec (vm_end g) addr); [|lia]. destruct (Z.leb_spec (vm_start g) addr); [|lia].
    right. by exists k, c, l, x, r, g, D1, D2.
  - intros k c l x r g HT Hx Hs IH [|fuel] Hf; [lia|]. cbn in Hf. rewrite length_app in Hf. cbn in Hf.
    cbn [prepare_loop]. erewrite es_bind by by eapply ld_slot_run. at_node HT Hx.
    destruct (laid_elem _ _ _ _ _ (vc_laid _ _ _ C) Hx) as (_ & ? & _).
    destruct (Z.gtb_spec (vm_end g) addr); [|lia]. destruct (Z.leb_spec (vm_start g) addr); [lia|]. apply IH. lia.
  - intros k c l x r g HT Hx He IH [|fuel] Hf; [lia|]. cbn in Hf. rewrite length_app in Hf. cbn in Hf.
    cbn [prepare_loop]. erewrite es_bind by by eapply ld_slot_run. at_node HT Hx.
    destruct (Z.gtb_spec (vm_end g) addr); [lia|]. cbn [before_hole] in IH. rewrite app_assoc, last0_app in IH. apply IH. lia.
Qed.

Lemma vm_fuel_enough : (length (inorder T) < S (base.size (mm_areas s)))%nat.
Proof. rewrite (vc_order _ _ _ C), length_fmap. pose proof (vc_length s D T C). lia. Qed.

Lemma find_vma_prepare_run : prepared (find_vma_prepare addr s).
Proof. unfold find_vma_prepare, vm_fuel, getm. apply prepare_loop_run, vm_fuel_enough. Qed.

Lemma first_split : (first_above D = 0 ∧ ends_below addr D) ∨
  ∃ D1 x g D2, D = D1 ++ (x, g) :: D2 ∧ first_above D = x ∧ ends_below addr D1 ∧ addr < vm_end g.
Proof using.
  unfold first_above. destruct (list_find _ D) as [[i [x g]]|] eqn:Hl.
  - apply list_find_Some in Hl as (Hi & Hg & Hlt). right. pose proof (take_drop_middle _ _ _ Hi) as HD.
    exists (take i D), x, g, (drop (S i) D). split_and!; [done|done| |done]. intros y h Hy.
    apply list_elem_of_lookup in Hy as [j Hj]. apply lookup_take_Some in Hj as [Hj Hji]. specialize (Hlt j _ Hj Hji). cbn in Hlt. lia.
  - apply list_find_None in Hl. left. split; [done|]. intros x g Hx. rewrite Forall_forall in Hl. specialize (Hl _ Hx). cbn in Hl. lia.
Qed.

Lemma rightmost_run t : ∀ k fuel, T = plug k t → t ≠ Leaf → (length (inorder t) < fuel)%nat →
  rightmost_loop fuel (ptr t) s = Some (last0 (inorder t), s).
Proof.
  induction t as [|c l _ x r IHr]; intros k [|fuel] HT Hne Hf; [done|done|lia|]. cbn [rightmost_loop ptr].
  erewrite es_bind by by eapply node_run. cbn [rb_right]. cbn in Hf. rewrite length_app in Hf. cbn in Hf. destruct r as [|cr lr xr rr].
  - cbn [ptr inorder]. change (0 =? 0) with true. cbv beta iota. by rewrite last0_app.
  - assert (xr ≠ 0) by exact (node_nonzero (Fr SR c x l :: k) cr lr xr rr HT). cbn [ptr]. destruct (Z.eqb_spec xr 0); [done|].
    erewrite (IHr (Fr SR c x l :: k)) by (done || lia). cbn [inorder].
    by rewrite (cons_middle x), app_assoc, (last0_more (inorder l ++ [x])) by by destruct (inorder lr).
Qed.

Lemma vseg_last A p E y h q : vseg A p (E ++ [(y, h)]) q → A !! y = Some (set_vm_next q h).
Proof. rewrite vseg_app. by intros (m & _ & _ & nx & Hy & ->). Qed.

Lemma last0_snoc (E : vdata) y h : last0 (E ++ [(y, h)]).*1 = y.
Proof. rewrite fmap_app. apply last0_app. Qed.

(** [find_vma_prev] finds it with the area before it. *)
Lemma find_vma_prev_run :
  (ends_below addr D ∧ find_vma_prev addr s = Some ((0, 0), s)) ∨
  ∃ D1 x g D2, D = D1 ++ (x, g) :: D2 ∧ ends_below addr D1 ∧ addr < vm_end g ∧
    find_vma_prev addr s = Some ((x, last0 D1.*1), s).
Proof.
  destruct (find_prev_loop_run (S (base.size (mm_areas s))) 0 vm_fuel_enough) as (pv & Hrun & Hpv).
  unfold find_vma_prev. erewrite es_bind by done. erewrite es_bind by done. destruct (vc_tree _ _ _ C) as [-> _].
  erewrite es_bind by exact Hrun. cbv beta iota.
  destruct first_split as [[H0 He]|(D1 & x & g & D2 & HD & Hf & He & Hg)]; [left; by rewrite H0|right].
  exists D1, x, g, D2. split_and!; [done..|]. rewrite Hf in *.
  assert ((x, g) ∈ D) as Hin by (rewrite HD; apply elem_of_app; right; left). pose proof (vc_nonzero s D T C x g Hin) as Hx0.
  destruct (Hpv Hx0) as (k & c & l & r & HT & ->). destruct (Z.eqb_spec x 0); [done|]. cbn [negb].
  erewrite es_bind by by eapply node_run. cbn [rb_left].
  assert (before_hole k ++ inorder l = D1.*1) as HD1.
  { pose proof (vc_order _ _ _ C) as Ho. rewrite HT, inorder_context, HD, fmap_app in Ho. cbn in Ho. rewrite <-app_assoc in Ho. cbn in Ho.
    rewrite app_assoc in Ho. eapply (nodup_split x); [|exact Ho].
    pose proof (vc_nodup s D T C) as Hnd. rewrite HD, fmap_app in Hnd. cbn in Hnd. by rewrite Ho. }
  assert ((if negb (ptr l =? 0) then rightmost_loop (S (base.size (mm_areas s))) (ptr l) else mret (last0 (before_hole k))) s
    = Some (last0 D1.*1, s)) as Hprev.
  { destruct l as [|cl ll xl rl]; [cbn in HD1; rewrite app_nil_r in HD1; cbn; by rewrite HD1|].
    assert (xl ≠ 0) by exact (node_nonzero (Fr SL c x r :: k) cl ll xl rl HT). cbn [ptr]. destruct (Z.eqb_spec xl 0); [done|]. cbn [negb].
    pose proof vm_fuel_enough as Hfuel. rewrite HT, inorder_context in Hfuel. rewrite length_app in Hfuel. cbn in Hfuel.
    rewrite !length_app in Hfuel. cbn in Hfuel. change xl with (ptr (Node cl ll xl rl)).
    erewrite (rightmost_run _ (Fr SL c x r :: k)) by (done || (cbn [inorder]; rewrite ?length_app; cbn; lia)). rewrite <-HD1. do 2 f_equal.
    rewrite last0_more; [done|]. cbn. by destruct (inorder ll). }
  erewrite es_bind by exact Hprev. pose proof (vc_list _ _ _ C) as Hl. rewrite HD in Hl.
  assert ((if negb (last0 D1.*1 =? 0) then p ← ga (last0 D1.*1); mret (vm_next p) else getm mm_mmap) s = Some (x, s)) as Hnext.
  { destruct D1 as [|[y h] D1 _] using rev_ind; [cbn; by destruct Hl as (<- & _)|]. rewrite last0_snoc.
    assert ((y, h) ∈ D) as Hy by (rewrite HD, !elem_of_app; left; right; left). pose proof (vc_nonzero s D T C y h Hy).
    destruct (Z.eqb_spec y 0); [done|]. cbn [negb]. apply vseg_app in Hl as (m & Hl & <- & _). apply vseg_last in Hl.
    unfold mbind, ES_bind, ga. by rewrite Hl. }
  erewrite es_bind by exact Hnext. by rewrite Z.eqb_refl.
Qed.

(** [find_vma] finds the first area that ends above [addr]; only the cache
    changes. *)
Definition found (out : option (Z * mm)) : Prop :=
  ∃ c, out = Some (first_above D, set_mmap_cache c s) ∧ (c = 0 ∨ c ∈ D.*1).
Context (Hcache : cached s D).

Lemma find_miss_run : found ((root ← getm (λ s, rb_root (mm_rb s)); fuel ← vm_fuel; vma ← find_vma_loop fuel addr root 0;
    (if negb (vma =? 0) then setm (set_mmap_cache vma) else mret tt);; mret vma) s).
Proof.
  erewrite es_bind by done. erewrite es_bind by done. cbv beta. destruct (vc_tree _ _ _ C) as [-> _].
  erewrite es_bind by apply find_vma_loop_run, vm_fuel_enough. destruct (Z.eqb_spec (first_above D) 0) as [H0|H0]; cbn [negb].
  - exists (mmap_cache s). split; [by rewrite set_mmap_cache_same|exact Hcache].
  - exists (first_above D). split; [done|]. right. unfold first_above in *. destruct (list_find _ D) as [[i [x g]]|] eqn:Hl; [|done].
    apply list_find_Some in Hl as (Hl & _ & _). apply list_elem_of_fmap. exists (x, g). split; [done|]. by eapply list_elem_of_lookup_2.
Qed.

Lemma hit_cached x g : (x, g) ∈ D → vm_start g <= addr < vm_end g → first_above D = x.
Proof.
  intros Hin Hs. apply list_elem_of_split in Hin as (D1 & D2 & HD). pose proof (vc_laid _ _ _ C) as Hl. rewrite HD in Hl.
  apply laid_mid in Hl as (L1 & _). rewrite HD, first_above_skip.
  - unfold first_above. cbn. by rewrite decide_True by lia.
  - intros y h Hy. destruct (laid_elem _ _ _ _ _ L1 Hy). lia.
Qed.

Lemma find_vma_run : found (find_vma addr s).
Proof.
  unfold find_vma. erewrite es_bind by done. destruct (Z.eqb_spec (mmap_cache s) 0) as [H0|H0].
  - erewrite es_bind by done. exact find_miss_run.
  - destruct Hcache as [|Hc]; [done|]. apply list_elem_of_fmap in Hc as ([x g] & Hx & Hin). cbn in Hx.
    destruct (ga_run x g Hin) as [nx Hga]. rewrite <-Hx in Hga. erewrite es_bind by (erewrite es_bind by exact Hga; done).
    cbn [set_vm_next vm_end vm_start].
    destruct (Z.gtb_spec (vm_end g) addr), (Z.leb_spec (vm_start g) addr); cbn [andb]; [|exact find_miss_run..].
    exists (mmap_cache s). rewrite (hit_cached x g Hin) by lia. split; [by rewrite set_mmap_cache_same, Hx|exact Hcache].
Qed.
End search.
