(* ===== verification/VmaLink.v ===== *)
(** Linking and unlinking an area keeps an address space in order
    (mm/mmap.c). *)
From S2P Require Import Prelude RbTree RbShape RbInsert RbErase Vma VmaShape.
From stdpp Require Import list options.
#[local] Set Default Proof Using "Type*".
Open Scope cint_scope.
Open Scope Z_scope.

(** * What a call leaves alone *)

(** No area outside [xs] has changed, and the same areas are live. *)
Record others (xs : list Z) (s s' : mm) : Prop := {
  ot_areas y : y ∉ xs → mm_areas s' !! y = mm_areas s !! y;
  ot_live y : is_Some (mm_areas s' !! y) ↔ is_Some (mm_areas s !! y)
}.

(** The fields that are not links, counts or events. *)
Record same_fields (s s' : mm) : Prop := {
  sf_def_flags : mm_def_flags s' = mm_def_flags s;
  sf_brk : mm_brk s' = mm_brk s;
  sf_end_code : mm_end_code s' = mm_end_code s;
  sf_start_data : mm_start_data s' = mm_start_data s
}.

#[export] Instance same_fields_preorder : PreOrder same_fields.
Proof.
  split; [by intros s; split|]. intros s1 s2 s3 [] []. split; congruence.
Qed.

(** The same accounting and cache, too. *)
Record same_rest (s s' : mm) : Prop := {
  sr_fields : same_fields s s';
  sr_cache : mmap_cache s' = mmap_cache s;
  sr_total : total_vm s' = total_vm s;
  sr_locked : locked_vm s' = locked_vm s
}.

#[export] Instance same_rest_preorder : PreOrder same_rest.
Proof.
  split; [by intros s; split|]. intros s1 s2 s3 [H1] [H2]. split; [by etrans|congruence..].
Qed.

Lemma others_refl xs s : others xs s s.
Proof. by split. Qed.

Lemma others_trans xs s1 s2 s3 : others xs s1 s2 → others xs s2 s3 → others xs s1 s3.
Proof.
  intros [A1 L1] [A2 L2]. split; [intros y Hy; by rewrite A2, A1|]. intros y. by rewrite L2, L1.
Qed.

Lemma others_mono xs ys s s' : (∀ x, x ∈ xs → x ∈ ys) → others xs s s' → others ys s s'.
Proof. intros Hsub [Ha Hl]. split; [|done]. intros y Hy. apply Ha. naive_solver. Qed.

(** * Areas that are in no list *)

Lemma ga_live x g s : mm_areas s !! x = Some g → ga x s = Some (g, s).
Proof. intros Hx. unfold ga. by rewrite Hx. Qed.

Lemma wa_live x f g s : mm_areas s !! x = Some g → wa x f s = Some (tt, set_mm_areas (<[x := f g]> (mm_areas s)) s).
Proof. intros Hx. unfold wa. by rewrite Hx. Qed.

Lemma live_insert {A} (h : gmap Z A) x v y : is_Some (h !! x) → is_Some (<[x := v]> h !! y) ↔ is_Some (h !! y).
Proof. intros Hx. rewrite lookup_insert_is_Some'. naive_solver. Qed.

Lemma others_wa x v s s' : is_Some (mm_areas s !! x) → mm_areas s' = <[x := v]> (mm_areas s) → others [x] s s'.
Proof.
  intros Hx Hs. split; rewrite Hs.
  - intros y Hy. rewrite lookup_insert_ne; [done|]. intros ->. apply Hy. left.
  - intros y. by apply live_insert.
Qed.

(** What is needed of the areas and nodes that are linked. *)
Lemma vm_core_agree s s' D T : vm_core s D T →
  (∀ x, x ∈ D.*1 → mm_areas s' !! x = mm_areas s !! x) → (∀ x, x ∈ D.*1 → rb_heap (mm_rb s') !! x = rb_heap (mm_rb s) !! x) →
  (∀ p, is_Some (mm_areas s' !! p) ↔ is_Some (rb_heap (mm_rb s') !! p)) → mm_areas s' !! 0 = None →
  mm_mmap s' = mm_mmap s → rb_root (mm_rb s') = rb_root (mm_rb s) → vm_core s' D T.
Proof.
  intros C Ha Hh Hn H0 Hm Hr. pose proof (vc_order _ _ _ C) as Ho. split; [|exact (vc_laid _ _ _ C)| |exact (vc_balanced _ _ _ C)|done..].
  - rewrite Hm. eapply vseg_agree; [exact Ha|exact (vc_list _ _ _ C)].
  - destruct (vc_tree _ _ _ C) as (Hroot & Hs & Hd). split_and!; [by rewrite Hr|eapply shape_agree; [|exact Hs]|done].
    intros z Hz. apply Hh. rewrite <-Ho. by apply cnt_elem.
Qed.

Lemma vm_core_wa s D T x v : vm_core s D T → x ∉ D.*1 → is_Some (mm_areas s !! x) →
  vm_core (set_mm_areas (<[x := v]> (mm_areas s)) s) D T.
Proof.
  intros C Hx Hl. apply (vm_core_agree s); cbn; [exact C|..|done|done].
  - intros y Hy. apply lookup_insert_ne. by intros ->.
  - done.
  - intros p. rewrite live_insert by done. apply (vc_nodes _ _ _ C).
  - rewrite lookup_insert_ne; [exact (vc_null _ _ _ C)|]. intros ->. rewrite (vc_null _ _ _ C) in Hl. by destruct Hl.
Qed.

Lemma vm_core_free s D T x : vm_core s D T → x ∉ D.*1 →
  vm_core (set_mm_areas (delete x (mm_areas s)) (set_mm_rb (mk_rb_state (delete x (rb_heap (mm_rb s))) (rb_root (mm_rb s))) s)) D T.
Proof.
  intros C Hx. apply (vm_core_agree s); cbn; [exact C|..|done|done].
  - intros y Hy. apply lookup_delete_ne. by intros ->.
  - intros y Hy. apply lookup_delete_ne. by intros ->.
  - intros p. rewrite !lookup_delete_is_Some. by rewrite (vc_nodes _ _ _ C).
  - rewrite lookup_delete_None. right. exact (vc_null _ _ _ C).
Qed.

(** * Linking *)

Lemma on_tree_bind {A B} (m : RBM A) (f : A → RBM B) a t2 s : (m ≫= f) (mm_rb s) = Some (a, t2) →
  (x ← on_tree m; on_tree (f x)) s = Some (a, set_mm_rb t2 s).
Proof.
  unfold on_tree, mbind, ES_bind. destruct (m (mm_rb s)) as [[b t1]|]; [|done]. cbn. intros ->. by destruct s.
Qed.

(** With nothing before the gap, the parent is the next area. *)
Lemma cpar_first k : before_hole k = [] → cpar 0 k = hd0 (after_hole k).
Proof. destruct k as [|[[] c x s] k]; [done..|]. cbn. intros [_ H]%app_nil. by destruct (inorder s). Qed.

Lemma vseg_nil_last (D : vdata) : D = [] ∨ ∃ D' y h, D = D' ++ [(y, h)].
Proof. destruct D as [|[y h] D' _] using rev_ind; [by left|right; by eauto]. Qed.

Section link.
Context (s : mm) (D1 D2 : vdata) (x nx0 : Z) (g : vm_area).
Context (Hx : mm_areas s !! x = Some (set_vm_next nx0 g)) (Hx0 : x ≠ 0) (Hni : x ∉ (D1 ++ D2).*1).

Lemma link_list_run par : vseg (mm_areas s) (mm_mmap s) (D1 ++ D2) 0 → mm_areas s !! 0 = None → NoDup (D1 ++ D2).*1 →
  (D1 = [] → par = hd0 D2.*1) →
  ∃ A m, __vma_link_list x (last0 D1.*1) par s = Some (tt, set_mm_areas A (set_mm_mmap m s)) ∧
    vseg A m (D1 ++ (x, g) :: D2) 0 ∧ others (x :: (D1 ++ D2).*1) s (set_mm_areas A (set_mm_mmap m s)).
Proof.
  intros Hl H0 Hnd Hpar. assert (is_Some (mm_areas s !! x)) as Hlx by by eexists. unfold __vma_link_list.
  destruct (vseg_nil_last D1) as [->|(D' & y & h & ->)].
  - cbn. unfold mbind, ES_bind. cbn. erewrite wa_live by exact Hx. rewrite Hpar by done.
    eexists _, x. split; [reflexivity|]. split.
    + cbn. split; [done|]. exists (hd0 D2.*1). rewrite lookup_insert_eq. split; [by destruct (Z.eqb_spec (hd0 D2.*1) 0) as [->|]|].
      cbn in Hl, Hni. pose proof (vseg_head _ _ _ Hl) as <-. eapply vseg_agree; [|exact Hl]. intros z Hz. apply lookup_insert_ne. by intros ->.
    + eapply others_mono; [|eapply others_wa; [exact Hlx|done]]. intros z ->%list_elem_of_singleton. left.
  - rewrite last0_snoc. rewrite <-app_assoc in *. cbn [app] in *.
    apply vseg_app in Hl as (m & Hl1 & -> & nx & Hy & Hl2).
    assert (y ≠ 0) as Hy0 by (intros ->; by rewrite H0 in Hy). destruct (Z.eqb_spec y 0); [done|]. cbn [negb].
    assert (x ≠ y) as Hxy by (intros ->; apply Hni; rewrite fmap_app; apply elem_of_app; right; left).
    erewrite es_bind by by apply ga_live. erewrite es_bind by by apply wa_live. erewrite wa_live by (cbn; by rewrite lookup_insert_ne).
    eexists _, (mm_mmap s). split; [by destruct s|]. cbn. split.
    + rewrite fmap_app in Hni, Hnd. cbn in Hni, Hnd. apply NoDup_app in Hnd as (_ & Hnd1 & Hnd2). apply list.NoDup_cons in Hnd2 as [Hnd2 _].
      apply vseg_app. exists y. split.
      * eapply vseg_agree; [|exact Hl1]. intros z Hz. rewrite !lookup_insert_ne; [done|..]; intros <-.
        -- apply Hni, elem_of_app. by left.
        -- apply (Hnd1 y Hz). left.
      * split; [done|]. exists x. rewrite lookup_insert_eq. split; [done|]. split; [done|]. exists nx.
        rewrite lookup_insert_ne, lookup_insert_eq by done. split; [done|]. eapply vseg_agree; [|exact Hl2].
        intros z Hz. rewrite !lookup_insert_ne; [done|..]; intros <-.
        -- apply Hni, elem_of_app. right. by right.
        -- done.
    + assert (is_Some (mm_areas s !! y)) by by eexists. split; cbn.
      * intros z Hz. rewrite !fmap_app in Hz. rewrite !lookup_insert_ne; [done|..]; intros <-; apply Hz; set_solver.
      * intros z. rewrite live_insert by (by apply live_insert). by apply live_insert.
Qed.

(** What [vma_link] adds to the log. *)
Definition link_events : list vm_event := if vm_file g =? 0 then [] else [EvLinkFile x].

Lemma vma_link_run k T : vm_core s (D1 ++ D2) T → T = plug k Leaf → D1.*1 = before_hole k → D2.*1 = after_hole k →
  laid 0 (2 ^ 32 - 1) (D1 ++ (x, g) :: D2) →
  ∃ s' T', vma_link x (last0 (before_hole k)) (hole_slot k) (cpar 0 k) s = Some (tt, s') ∧
    vm_core s' (D1 ++ (x, g) :: D2) T' ∧ others (x :: (D1 ++ D2).*1) s s' ∧ same_rest s s' ∧
    map_count s' = s32 (map_count s + 1) ∧ mm_log s' = mm_log s ++ link_events.
Proof.
  intros C HT H1 H2 Hl. pose proof (vc_tree _ _ _ C) as Ht. pose proof (vc_balanced _ _ _ C) as Hb. pose proof (vc_order _ _ _ C) as Ho.
  destruct (link_list_run (cpar 0 k) (vc_list _ _ _ C) (vc_null _ _ _ C) (vc_nodup _ _ _ C)) as (A & m & Hll & Hseg & Hot).
  { intros ->. rewrite H2. by apply cpar_first. }
  subst T. assert (is_Some (rb_heap (mm_rb s) !! x)) as Hnx by (rewrite <-(vc_nodes _ _ _ C); by eexists).
  destruct (insert_run (mm_rb s) k x Ht Hb Hx0 Hnx) as (tr & T' & Hins & Ht' & Hb' & Ho' & _); [by rewrite Ho|].
  pose proof (keeps_insert _ _ _ _ _ _ Hins) as Hdom.
  rewrite H1 in Hll. set (s1 := set_mm_areas A (set_mm_mmap m s)) in *. set (s2 := set_mm_rb tr s1).
  assert (vm_core s2 (D1 ++ (x, g) :: D2) T') as C2.
  { split; cbn; [done..|by rewrite Ho', fmap_app, H1; cbn; rewrite H2| |].
    - intros p. change A with (mm_areas s1). rewrite (ot_live _ _ _ Hot), (vc_nodes _ _ _ C), <-!elem_of_dom. by rewrite Hdom.
    - change A with (mm_areas s1). apply eq_None_not_Some. rewrite (ot_live _ _ _ Hot), (vc_null _ _ _ C). by intros []. }
  destruct (ga_run s2 _ T' C2 x g) as [nx Hga]; [apply elem_of_app; right; left|].
  exists (set_map_count (s32 (map_count s + 1)) (set_mm_log (mm_log s ++ link_events) s2)), T'. split_and!.
  - unfold vma_link, __vma_link, __vma_link_rb. rewrite (es_bind _ _ _ tt (set_mm_log (mm_log s ++ link_events) s2)); [done|]. erewrite es_bind by exact Hll.
    erewrite es_bind by (apply on_tree_bind; exact Hins). fold s2. unfold __vma_link_file. erewrite es_bind by exact Hga.
    unfold link_events. cbn. destruct (vm_file g =? 0); cbn; [|done]. rewrite app_nil_r. by destruct s.
  - by apply (vm_core_agree s2); cbn; try apply C2.
  - split; cbn; apply Hot.
  - by split; [split|..].
  - done.
  - done.
Qed.
End link.

(** * Where an area belongs *)

Lemma ends_below_app a D1 D2 : ends_below a (D1 ++ D2) ↔ ends_below a D1 ∧ ends_below a D2.
Proof. unfold ends_below. setoid_rewrite elem_of_app. naive_solver. Qed.

Lemma starts_above_app a D1 D2 : starts_above a (D1 ++ D2) ↔ starts_above a D1 ∧ starts_above a D2.
Proof. unfold starts_above. setoid_rewrite elem_of_app. naive_solver. Qed.

(** The areas that end at or below [a]. *)
Definition below (a : Z) (D : vdata) : vdata := filter (λ xg, vm_end xg.2 <= a) D.

Lemma filter_all {A} (P : A → Prop) `{!∀ x, Decision (P x)} (l : list A) : (∀ x, x ∈ l → P x) → filter P l = l.
Proof.
  induction l as [|x l IH]; intros Hl; [done|]. rewrite filter_cons_True by (apply Hl; left). rewrite IH; [done|].
  intros y Hy. apply Hl. by right.
Qed.

Lemma filter_none {A} (P : A → Prop) `{!∀ x, Decision (P x)} (l : list A) : (∀ x, x ∈ l → ¬ P x) → filter P l = [].
Proof.
  induction l as [|x l IH]; intros Hl; [done|]. rewrite filter_cons_False by (apply Hl; left). apply IH. intros y Hy. apply Hl. by right.
Qed.

Lemma below_split a lo hi D1 D2 : laid lo hi (D1 ++ D2) → ends_below a D1 → starts_above a D2 → below a (D1 ++ D2) = D1.
Proof.
  intros (m & _ & Hl)%laid_app H1 H2. unfold below. rewrite filter_app, filter_all, filter_none.
  - by rewrite app_nil_r.
  - intros [x g] Hx. pose proof (H2 x g Hx). destruct (laid_elem _ _ _ _ _ Hl Hx). cbn. lia.
  - intros [x g] Hx. exact (H1 x g Hx).
Qed.

Lemma gap_unique a lo hi D1 D2 E1 E2 : laid lo hi (D1 ++ D2) → D1 ++ D2 = E1 ++ E2 →
  ends_below a D1 → starts_above a D2 → ends_below a E1 → starts_above a E2 → E1 = D1 ∧ E2 = D2.
Proof.
  intros Hl Heq H1 H2 H3 H4. assert (E1 = D1) as ->.
  { rewrite <-(below_split a lo hi D1 D2) by done. rewrite Heq. symmetry. apply (below_split a lo hi); [by rewrite <-Heq|done..]. }
  by apply app_inv_head in Heq.
Qed.

Lemma laid_gap lo hi D1 x g D2 : laid lo hi (D1 ++ (x, g) :: D2) →
  laid lo hi (D1 ++ D2) ∧ ends_below (vm_start g) D1 ∧ (∀ y h, (y, h) ∈ D2 → vm_end g <= vm_start h) ∧ starts_above (vm_start g) D2.
Proof.
  intros Hl. pose proof (laid_mid _ _ _ _ _ _ Hl) as (L1 & L2 & ? & _). split_and!.
  - apply laid_app. exists (vm_start g). split; [done|]. eapply laid_weaken; [|reflexivity|exact L2]. lia.
  - intros y h Hy. by destruct (laid_elem _ _ _ _ _ L1 Hy) as (_ & _ & ? & _).
  - intros y h Hy. by destruct (laid_elem _ _ _ _ _ L2 Hy).
  - intros y h Hy. destruct (laid_elem _ _ _ _ _ L2 Hy). lia.
Qed.

Lemma insert_vm_struct_run s D1 D2 T x nx0 g : vm_core s (D1 ++ D2) T → mm_areas s !! x = Some (set_vm_next nx0 g) → x ∉ (D1 ++ D2).*1 →
  laid 0 (2 ^ 32 - 1) (D1 ++ (x, g) :: D2) →
  ∃ s' T', insert_vm_struct x s = Some (tt, s') ∧
    vm_core s' (D1 ++ (x, g) :: D2) T' ∧ others (x :: (D1 ++ D2).*1) s s' ∧ same_rest s s' ∧
    map_count s' = s32 (map_count s + 1) ∧ mm_log s' = mm_log s ++ link_events x g.
Proof.
  intros C Hx Hni Hl. assert (x ≠ 0) as Hx0 by (intros ->; by rewrite (vc_null _ _ _ C) in Hx).
  destruct (laid_gap _ _ _ _ _ _ Hl) as (L & E1 & E2 & S2). unfold insert_vm_struct. erewrite es_bind by by apply ga_live.
  destruct (find_vma_prepare_run s (D1 ++ D2) T C (vm_start g)) as [(k & F1 & F2 & Hg & Hp)|(k & c & l & y & r & h & F1 & F2 & Hh & _)].
  - erewrite es_bind by exact Hp. cbv beta iota. destruct Hg as (HT & HF & HF1 & HF2 & G1 & G2).
    destruct (gap_unique _ _ _ _ _ _ _ L HF E1 S2 G1 G2) as [-> ->].
    assert ((if negb (hd0 (after_hole k) =? 0) then w ← ga (hd0 (after_hole k)); mret (vm_start w <? vm_end g) else mret false) s = Some (false, s)) as Hc.
    { rewrite <-HF2. destruct D2 as [|[y h] D2]; [done|]. cbn [fmap list_fmap hd0 hd fst].
      destruct (ga_run s _ T C y h) as [nx Hga]; [apply elem_of_app; right; left|]. destruct (negb _); [|done].
      erewrite es_bind by exact Hga. cbn. pose proof (E2 y h ltac:(left)). by destruct (Z.ltb_spec (vm_start h) (vm_end g)); [lia|]. }
    erewrite es_bind by exact Hc. by apply (vma_link_run s D1 D2 x nx0 g Hx Hx0 Hni k T).
  - exfalso. destruct Hh as (_ & HF & _ & _ & Hs). assert ((y, h) ∈ D1 ++ D2) as [Hy|Hy]%elem_of_app by (rewrite HF; apply elem_of_app; right; left).
    + pose proof (E1 y h Hy). lia.
    + pose proof (S2 y h Hy). lia.
Qed.

(** * Unlinking *)

Section unlink.
Context (s : mm) (D1 D2 : vdata) (x : Z) (g : vm_area) (T : tree) (C : vm_core s (D1 ++ (x, g) :: D2) T).

Lemma unlinked_nodup : NoDup (D1 ++ D2).*1 ∧ x ∉ (D1 ++ D2).*1.
Proof.
  pose proof (vc_nodup _ _ _ C) as Hnd. rewrite fmap_app in *. cbn in Hnd. apply NoDup_app in Hnd as (N1 & N2 & [N3 N4]%list.NoDup_cons).
  split; [apply NoDup_app; split_and!; [done| |done]|set_solver]. intros y Hy1 Hy2. apply (N2 y Hy1). by right.
Qed.

(** The pointer to [x] is redirected to what follows. *)
Lemma unlink_list_run : ∃ A m, st_next (last0 D1.*1) (hd0 D2.*1) s = Some (tt, set_mm_areas A (set_mm_mmap m s)) ∧
  vseg A m (D1 ++ D2) 0 ∧ others D1.*1 s (set_mm_areas A (set_mm_mmap m s)) ∧
  mm_areas s !! x = Some (set_vm_next (hd0 D2.*1) g).
Proof.
  pose proof (vc_list _ _ _ C) as (m & Hl1 & -> & nx & Hx & Hl2)%vseg_app. pose proof (vseg_head _ _ _ Hl2) as ->.
  destruct unlinked_nodup as [Hnd Hni]. unfold st_next. destruct (vseg_nil_last D1) as [->|(D' & y & h & ->)].
  - exists (mm_areas s), (hd0 D2.*1). split_and!; [by destruct s|done|by split|done].
  - rewrite last0_snoc. pose proof (vseg_last _ _ _ _ _ _ Hl1) as Hy.
    assert (y ≠ 0) as Hy0 by (intros ->; by rewrite (vc_null _ _ _ C) in Hy). destruct (Z.eqb_spec y 0); [done|].
    erewrite wa_live by exact Hy. change (set_vm_next _ (set_vm_next x h)) with (set_vm_next (hd0 D2.*1) h). eexists _, (mm_mmap s). split; [by destruct s|]. cbn. rewrite fmap_app in Hnd. apply NoDup_app in Hnd as (N1 & N2 & _).
    rewrite fmap_app in N1. apply NoDup_app in N1 as (_ & N1 & _). split_and!; [| |done].
    + apply vseg_app. exists (hd0 D2.*1). split.
      * apply (vseg_redirect _ _ _ _ _ x); [|done]. intros Hy'. apply (N1 y Hy'). left.
      * eapply vseg_agree; [|exact Hl2]. intros z Hz. apply lookup_insert_ne. intros ->. apply (N2 z); [|done]. rewrite fmap_app. set_solver.
    + eapply others_mono; [|eapply (others_wa y); [by eexists|done]]. intros z ->%list_elem_of_singleton. rewrite fmap_app. set_solver.
Qed.

(** The node is taken out of the tree when the list has been redirected; the
    areas that stay may have changed their bounds. *)
Lemma unlink_rb_run s1 E : mm_rb s1 = mm_rb s → vseg (mm_areas s1) (mm_mmap s1) E 0 → E.*1 = (D1 ++ D2).*1 → laid 0 (2 ^ 32 - 1) E →
  (∀ p, is_Some (mm_areas s1 !! p) ↔ is_Some (mm_areas s !! p)) →
  ∃ tr T', on_tree (rb_erase x) s1 = Some (tt, set_mm_rb tr s1) ∧ vm_core (set_mm_rb tr s1) E T'.
Proof.
  intros Htr Hl HE Hlaid Hlive. pose proof (vc_order _ _ _ C) as Ho. rewrite fmap_app in Ho. cbn in Ho.
  destruct (erase_run (mm_rb s) T x (vc_tree _ _ _ C) (vc_balanced _ _ _ C)) as (tr & T' & l1 & l2 & He & Ht & Hb & Hi & Hi' & _).
  { rewrite Ho. apply elem_of_app. right. left. }
  exists tr, T'. split; [unfold on_tree; by rewrite Htr, He|]. pose proof (keeps_erase _ _ _ _ He) as Hdom.
  pose proof (vc_nodup _ _ _ C) as Hnd. rewrite fmap_app in Hnd. cbn in Hnd. rewrite Ho in Hi. pose proof (nodup_split _ _ _ _ _ Hnd Hi) as <-.
  apply app_inv_head in Hi. injection Hi as <-. split; cbn; [done..| | |].
  - by rewrite Hi', HE, fmap_app.
  - intros p. rewrite Hlive, (vc_nodes _ _ _ C), <-!elem_of_dom. by rewrite Hdom.
  - apply eq_None_not_Some. rewrite Hlive, (vc_null _ _ _ C). by intros [].
Qed.
End unlink.
