(* ===== verification/VmaUnmap.v ===== *)
(** Unmapping (mm/mmap.c): which page directory entries [free_pgtables] clears,
    none that an area still needs, and how the areas in the way leave the list
    and the tree. *)
From S2P Require Import Prelude RbTree RbShape RbInsert RbErase Vma VmaCalls VmaShape VmaLink.
From stdpp Require Import list options.
#[local] Set Default Proof Using "Type*".
Open Scope cint_scope.
Open Scope Z_scope.

Lemma pgd_index_div a : 0 <= a < 2 ^ 32 → pgd_index a = a / PGDIR_SIZE.
Proof.
  intros Ha. unfold pgd_index. rewrite Z.shiftr_div_pow2 by done. change (PTRS_PER_PGD - 1) with (Z.ones 10). rewrite Z.land_ones by done.
  change (2 ^ PGDIR_SHIFT) with PGDIR_SIZE. apply Z.mod_small. unfold PGDIR_SIZE. Z.div_mod_to_equations. lia.
Qed.

Lemma pgd_floor a : Z.land a (Z.lnot (PGDIR_SIZE - 1)) = PGDIR_SIZE * (a / PGDIR_SIZE).
Proof.
  change (PGDIR_SIZE - 1) with (Z.ones 22). rewrite <-Z.ldiff_land, Z.ldiff_ones_r by done. rewrite Z.shiftl_mul_pow2, Z.shiftr_div_pow2 by done.
  change (2 ^ 22) with PGDIR_SIZE. lia.
Qed.

(** Entries [first, first + nr) are those of no page of an area. *)
Definition spares_areas (D : vdata) (first nr : Z) : Prop :=
  ∀ x g a, (x, g) ∈ D → vm_start g <= a < vm_end g → ¬ (first <= pgd_index a < first + nr).

Section pgtables.
Context (s : mm) (D : vdata) (T : tree) (C : vm_core s D T) (lo hi : Z).
Context (Hout : ∀ x g, (x, g) ∈ D → vm_end g <= lo ∨ hi <= vm_start g) (Hlo : 0 <= lo < hi) (Hhi : hi <= TASK_SIZE).

(** What the addresses [first] and [last] have to satisfy. *)
Definition entries_ok (first last : Z) : Prop := 0 <= first < 2 ^ 32 ∧ 0 <= last < 2 ^ 32 ∧
  ∀ x g a, (x, g) ∈ D → vm_start g <= a < vm_end g → a / PGDIR_SIZE < first / PGDIR_SIZE ∨ last / PGDIR_SIZE <= a / PGDIR_SIZE.

Lemma area_bound x g : (x, g) ∈ D → 0 <= vm_start g ∧ vm_start g < vm_end g ∧ vm_end g < 2 ^ 32.
Proof. intros Hx. destruct (laid_elem _ _ _ _ _ (vc_laid _ _ _ C) Hx). lia. Qed.

Notation first0 := (PGDIR_SIZE * (lo / PGDIR_SIZE)).
Notation last0' := (hi + PGDIR_SIZE - 1).

(** Between the last area below and the first one above. *)
Lemma entries_between (p n : Z) : 0 <= p <= lo → hi <= n → (∀ x g, (x, g) ∈ D → vm_end g <= p ∨ n <= vm_start g) →
  entries_ok (if p >? first0 then u32 (p + PGDIR_SIZE - 1) else first0) (if last0' >? n then n else last0').
Proof.
  intros Hp Hn Hb. unfold entries_ok, TASK_SIZE, PGDIR_SIZE in *. change (2 ^ 32) with 4294967296. split_and!.
  - destruct (Z.gtb_spec p (4194304 * (lo / 4194304))); [rewrite u32_small by lia; lia|Z.div_mod_to_equations; lia].
  - destruct (Z.gtb_spec p (4194304 * (lo / 4194304))); [rewrite u32_small by lia; lia|Z.div_mod_to_equations; lia].
  - destruct (Z.gtb_spec (hi + 4194304 - 1) n); lia.
  - destruct (Z.gtb_spec (hi + 4194304 - 1) n); lia.
  - intros x g a Hx Ha. destruct (Hb x g Hx).
    + left. destruct (Z.gtb_spec p (4194304 * (lo / 4194304))); [rewrite u32_small by lia|]; Z.div_mod_to_equations; lia.
    + right. destruct (Z.gtb_spec (hi + 4194304 - 1) n); Z.div_mod_to_equations; lia.
Qed.

Lemma split_bound A p gp B : D = A ++ (p, gp) :: B → vm_end gp <= lo → ∀ x g, (x, g) ∈ D → vm_end g <= vm_end gp ∨ (x, g) ∈ B.
Proof.
  intros HD Hp x g Hx. pose proof (vc_laid _ _ _ C) as Hl. rewrite HD in *. apply elem_of_app in Hx as [Hx|[[= -> ->]|Hx]%elem_of_cons]; [|lia|by right].
  apply laid_mid in Hl as (L1 & _ & ? & _). destruct (laid_elem _ _ _ _ _ L1 Hx). lia.
Qed.

Lemma ga_next A p gp B : D = A ++ (p, gp) :: B → ga p s = Some (set_vm_next (hd0 B.*1) gp, s).
Proof.
  intros HD. pose proof (vc_list _ _ _ C) as Hl. rewrite HD in Hl. apply vseg_app in Hl as (m & _ & -> & nx & Hp & Hl).
  rewrite (vseg_head _ _ _ Hl) in Hp. by apply ga_live.
Qed.

(** The loop ends at the last area below. *)
Lemma pgtables_loop_run B : ∀ A p gp fuel, D = A ++ (p, gp) :: B → vm_end gp <= lo → (length B < fuel)%nat →
  ∃ first last, pgtables_loop fuel p lo first0 last0' s = Some ((first, last), s) ∧ entries_ok first last.
Proof.
  induction B as [|[n gn] B IH]; intros A p gp [|fuel] HD Hp Hf; [cbn in Hf; lia| |cbn in Hf; lia|];
    assert ((p, gp) ∈ D) as Hin by (rewrite HD; apply elem_of_app; right; left); pose proof (area_bound _ _ Hin);
    cbn [pgtables_loop]; erewrite es_bind by (by eapply ga_next); cbn [set_vm_next vm_next vm_end fmap list_fmap hd0 hd fst].
  - eexists _, _. split; [done|]. assert (last0' = if last0' >? last0' then last0' else last0') as -> by by destruct (_ >? _).
    apply entries_between; [lia|unfold PGDIR_SIZE; lia|]. intros x g Hx. destruct (split_bound A p gp [] HD Hp x g Hx) as [?|Hx']; [by left|by apply elem_of_nil in Hx'].
  - assert (D = (A ++ [(p, gp)]) ++ (n, gn) :: B) as HD' by by rewrite <-app_assoc.
    assert ((n, gn) ∈ D) as Hn by (rewrite HD'; apply elem_of_app; right; left). pose proof (area_bound _ _ Hn).
    pose proof (vc_nonzero s D T C n gn Hn). destruct (Z.eqb_spec n 0); [done|]. cbn [negb].
    erewrite es_bind by by eapply ga_next. cbn [set_vm_next vm_start].
    destruct (Hout n gn Hn), (Z.ltb_spec (vm_start gn) lo); try lia.
    + apply (IH (A ++ [(p, gp)]) n gn); [done|done|cbn in Hf; lia].
    + eexists _, _. split; [done|]. apply entries_between; [lia|done|]. intros x g Hx.
      destruct (split_bound A p gp ((n, gn) :: B) HD Hp x g Hx) as [?|[[= -> ->]|Hx']%elem_of_cons]; [by left|by right|right].
      pose proof (vc_laid _ _ _ C) as Hl. rewrite HD' in Hl. apply laid_mid in Hl as (_ & L2 & _). destruct (laid_elem _ _ _ _ _ L2 Hx'). lia.
Qed.

(** The directory entries of an area stay. *)
Lemma entries_spared first last : entries_ok first last → spares_areas D (pgd_index first) (pgd_index last - pgd_index first).
Proof.
  intros (H1 & H2 & Ho) x g a Hx Ha. pose proof (area_bound _ _ Hx). rewrite !pgd_index_div by lia. destruct (Ho x g a Hx Ha); lia.
Qed.

Definition tables_event (es : list vm_event) : Prop := es = [] ∨ ∃ first nr, es = [EvClearPageTables first nr] ∧ spares_areas D first nr.

Lemma first_area p gp B : D = (p, gp) :: B → hi <= vm_start gp → entries_ok first0 (if last0' >? vm_start gp then vm_start gp else last0').
Proof.
  intros HD Hp. assert (first0 = if first0 >? first0 then u32 (first0 + PGDIR_SIZE - 1) else first0) as Hf by (destruct (Z.gtb_spec first0 first0); [lia|done]).
  rewrite Hf at 1. apply entries_between; [unfold PGDIR_SIZE; Z.div_mod_to_equations; lia|done|]. intros x g Hx. right. rewrite HD in Hx.
  apply elem_of_cons in Hx as [[= -> ->]|Hx]; [done|]. pose proof (vc_laid _ _ _ C) as Hl. rewrite HD in Hl. destruct Hl as (_ & ? & _ & _ & Hl).
  destruct (laid_elem _ _ _ _ _ Hl Hx). lia.
Qed.

Lemma loop_from A p gp B : D = A ++ (p, gp) :: B → vm_end gp <= lo →
  ∃ first last, pgtables_loop (S (base.size (mm_areas s))) p lo first0 last0' s = Some ((first, last), s) ∧ entries_ok first last.
Proof.
  intros HD Hp. apply (pgtables_loop_run B A p gp); [done|done|]. pose proof (vc_length s D T C) as Hlen. rewrite HD, length_app in Hlen. cbn in Hlen. lia.
Qed.

(** Where the loop starts, or that it does not. *)
Definition pick (prev : Z) : VM (Z * Z) :=
  if prev =? 0 then
    if mm_mmap s =? 0 then mret (first0, last0')
    else
      p ← ga (mm_mmap s);
      if vm_end p >? lo then mret (first0, if last0' >? vm_start p then vm_start p else last0')
      else pgtables_loop (S (base.size (mm_areas s))) (mm_mmap s) lo first0 last0'
  else pgtables_loop (S (base.size (mm_areas s))) prev lo first0 last0'.

Lemma pick_run L P : D = L ++ P → ends_below lo L → ∃ first last, pick (last0 L.*1) s = Some ((first, last), s) ∧ entries_ok first last.
Proof.
  intros HD HL. unfold pick. destruct (vseg_nil_last L) as [->|(L' & y & h & ->)].
  - cbn [fmap list_fmap last0 List.last]. rewrite Z.eqb_refl, (vseg_head _ _ _ (vc_list _ _ _ C)). cbn [app] in HD. destruct P as [|[p gp] B]; rewrite HD.
    + exists first0, last0'. split; [done|]. unfold entries_ok, TASK_SIZE, PGDIR_SIZE in *. change (2 ^ 32) with 4294967296.
      split_and!; [Z.div_mod_to_equations; lia..|]. intros x g a Hx. rewrite HD in Hx. by apply elem_of_nil in Hx.
    + cbn [fmap list_fmap hd0 hd fst]. assert ((p, gp) ∈ D) as Hp by (rewrite HD; left). pose proof (vc_nonzero s D T C p gp Hp).
      destruct (Z.eqb_spec p 0); [done|]. erewrite es_bind by (by apply (ga_next [])). cbn [set_vm_next vm_end vm_start].
      destruct (Hout p gp Hp), (Z.gtb_spec (vm_end gp) lo); try (pose proof (area_bound _ _ Hp); lia); [by apply (loop_from [] p gp B)|].
      eexists _, _. split; [done|]. by apply (first_area p gp B).
  - rewrite last0_snoc. rewrite <-app_assoc in HD. assert ((y, h) ∈ D) as Hy by (rewrite HD; apply elem_of_app; right; left).
    pose proof (vc_nonzero s D T C y h Hy). destruct (Z.eqb_spec y 0); [done|]. apply (loop_from L' y h P); [done|].
    apply (HL y h). apply elem_of_app. right. left.
Qed.

Lemma free_pgtables_run L P : D = L ++ P → ends_below lo L →
  ∃ es, free_pgtables (last0 L.*1) lo hi s = Some (tt, set_mm_log (mm_log s ++ es) s) ∧ tables_event es.
Proof.
  intros HD HL. destruct (pick_run L P HD HL) as (first & last & Hrun & Hok).
  unfold free_pgtables. rewrite pgd_floor. rewrite (u32_small last0') by (unfold PGDIR_SIZE, TASK_SIZE in *; lia).
  erewrite es_bind by done. erewrite es_bind by done. erewrite es_bind by exact Hrun. pose proof (entries_spared _ _ Hok) as Hsp.
  cbv beta zeta iota. destruct (Z.gtb_spec (pgd_index last) (pgd_index first)).
  - exists [EvClearPageTables (pgd_index first) (pgd_index last - pgd_index first)]. split; [done|]. right. eexists _, _. split; [done|exact Hsp].

  - exists []. split; [rewrite app_nil_r; by destruct s|by left].
Qed.
End pgtables.

(** Unmapping (mm/mmap.c): the areas in the way leave the list and the tree,
    and come back as what is left of them. *)

(** No area outside [xs] has changed; others may have been freed. *)
Definition untouched (xs : list Z) (s s' : mm) : Prop := ∀ y, y ∉ xs → mm_areas s' !! y = mm_areas s !! y.

Lemma others_untouched xs s s' : others xs s s' → untouched xs s s'.
Proof. intros H y. apply H. Qed.

Lemma untouched_trans xs s1 s2 s3 : untouched xs s1 s2 → untouched xs s2 s3 → untouched xs s1 s3.
Proof. intros H1 H2 y Hy. by rewrite H2, H1. Qed.

Lemma untouched_mono xs ys s s' : (∀ x, x ∈ xs → x ∈ ys) → untouched xs s s' → untouched ys s s'.
Proof. intros Hsub H y Hy. apply H. naive_solver. Qed.

Lemma not_elem_of_cons_2 (y x e : Z) l : y ∉ x :: [e] ++ l → y ≠ x ∧ y ≠ e ∧ y ∉ l.
Proof. set_solver. Qed.

Lemma notin_mid y (D1 D2 : vdata) z g : y ∉ (D1 ++ (z, g) :: D2).*1 ↔ y ≠ z ∧ y ∉ (D1 ++ D2).*1.
Proof. rewrite !fmap_app. set_solver. Qed.

(** * The areas in the way leave the list *)

(** The list that [F] starts, with nothing left of the order in the address space. *)
Definition chain (s : mm) (F : vdata) : Prop := vseg (mm_areas s) (hd0 F.*1) F 0.

Lemma ld_next_run s L D2 T : vm_core s (L ++ D2) T → ld_next (last0 L.*1) s = Some (hd0 D2.*1, s).
Proof.
  intros C. pose proof (vc_list _ _ _ C) as (m & Hl1 & Hl2)%vseg_app. rewrite <-(vseg_head _ _ _ Hl2). unfold ld_next.
  destruct (vseg_nil_last L) as [->|(L' & y & h & ->)]; [by cbn in *; subst|]. rewrite last0_snoc. pose proof (vseg_last _ _ _ _ _ _ Hl1) as Hy.
  assert (y ≠ 0) as Hy0 by (intros ->; by rewrite (vc_null _ _ _ C) in Hy). destruct (Z.eqb_spec y 0); [done|].
  by erewrite es_bind by by apply ga_live.
Qed.

Record detached (s : mm) (L M R F : vdata) (s' : mm) (T' : tree) : Prop := {
  dt_core : vm_core s' (L ++ R) T';
  dt_chain : chain s' (reverse M ++ F);
  dt_others : others (L ++ M).*1 s s';
  dt_rest : same_rest s s';
  dt_count : map_count s' = map_count s;
  dt_log : mm_log s' = mm_log s
}.

(** One area. *)
Lemma detach_one s L x g D2 F T : vm_core s (L ++ (x, g) :: D2) T → chain s F → (∀ y, y ∈ F.*1 → y ∉ (L ++ (x, g) :: D2).*1) →
  ∃ s1 T1, (∀ B (K : VM B), (st_next (last0 L.*1) (hd0 D2.*1);; wa x (set_vm_next (hd0 F.*1));; on_tree (rb_erase x);; K) s = K s1) ∧
    detached s L [(x, g)] D2 F s1 T1.
Proof.
  intros C Hc HF. destruct (unlink_list_run s L D2 x g T C) as (A & m & Hst & Hl & Ho & Hx). destruct (unlinked_nodup _ _ _ _ _ _ C) as [Hnd Hni].
  set (s0 := set_mm_areas A (set_mm_mmap m s)) in *.
  assert (mm_areas s0 !! x = Some (set_vm_next (hd0 D2.*1) g)) as Hx0.
  { rewrite (ot_areas _ _ _ Ho); [done|]. rewrite fmap_app in Hni. set_solver. }
  set (s1 := set_mm_areas (<[x := set_vm_next (hd0 F.*1) g]> A) s0).
  assert (others [x] s0 s1) as Ho1 by (eapply others_wa; [by eexists|done]).
  destruct (unlink_rb_run s L D2 x g T C s1 (L ++ D2)) as (tr & T1 & He & C1); [done| |done|by eapply laid_gap, C| |].
  { cbn. eapply vseg_agree; [|exact Hl]. intros z Hz. apply lookup_insert_ne. by intros ->. }
  { intros p. by rewrite (ot_live _ _ _ Ho1), (ot_live _ _ _ Ho). }
  exists (set_mm_rb tr s1), T1. split.
  - intros B K. erewrite es_bind by exact Hst. erewrite es_bind by by apply wa_live. by erewrite es_bind by exact He.
  - split; [exact C1| | |by split; [split|..]|done|done].
    + cbn. split; [done|]. exists (hd0 F.*1). rewrite lookup_insert_eq. split; [done|]. eapply vseg_agree; [|exact Hc].
      intros z Hz. specialize (HF z Hz). rewrite fmap_app in HF. cbn in HF. rewrite lookup_insert_ne by (intros ->; set_solver).
      apply (ot_areas _ _ _ Ho). set_solver.
    + eapply (others_trans _ _ s0), (others_trans _ _ s1); [eapply others_mono; [|exact Ho]|eapply others_mono; [|exact Ho1]|by split].
      * intros z Hz. rewrite fmap_app. set_solver.
      * intros z Hz. rewrite fmap_app. set_solver.
Qed.

Lemma detach_run L R limit M : ∀ F s T fuel, vm_core s (L ++ M ++ R) T → chain s F → (∀ y, y ∈ F.*1 → y ∉ (L ++ M ++ R).*1) →
  (∀ x g, (x, g) ∈ M → vm_start g < limit) → (∀ x g, (x, g) ∈ R → limit <= vm_start g) → (length M < fuel)%nat →
  ∃ s' T', detach_loop fuel (last0 L.*1) (hd0 (M ++ R).*1) (hd0 F.*1) limit s = Some (hd0 (reverse M ++ F).*1, s') ∧ detached s L M R F s' T'.
Proof.
  induction M as [|[x g] M IH]; intros F s T [|fuel] C Hc HF HM HR Hf; [cbn in Hf; lia| |cbn in Hf; lia|].
  - exists s, T. split; [|by split; [done|done|apply others_refl|..]]. cbn [detach_loop app reverse]. destruct R as [|[y h] R]; [done|]. cbn [fmap list_fmap hd0 hd fst].
    assert ((y, h) ∈ L ++ (y, h) :: R) as Hy by (apply elem_of_app; right; left). pose proof (vc_nonzero s _ T C y h Hy). destruct (Z.eqb_spec y 0); [done|].
    destruct (ga_run s _ T C y h Hy) as [nx Hga]. erewrite es_bind by exact Hga. cbn. pose proof (HR y h ltac:(left)).
    by destruct (Z.ltb_spec (vm_start h) limit); [lia|].
  - change (((x, g) :: M) ++ R) with ((x, g) :: (M ++ R)) in *. cbn [detach_loop fmap list_fmap hd0 hd fst]. assert ((x, g) ∈ L ++ (x, g) :: M ++ R) as Hx by (apply elem_of_app; right; left).
    pose proof (vc_nonzero s _ T C x g Hx). destruct (Z.eqb_spec x 0); [done|].
    pose proof (unlink_list_run s L (M ++ R) x g T C) as (_ & _ & _ & _ & _ & Hga). erewrite es_bind by by apply ga_live. cbn [set_vm_next vm_start vm_next].
    destruct (Z.ltb_spec (vm_start g) limit) as [_|Hge]; [|specialize (HM x g ltac:(left)); lia]. cbn [negb].
    destruct (detach_one s L x g (M ++ R) F T C Hc HF) as (s1 & T1 & Hrun & [C1 H1 O1 R1 N1 G1]).
    destruct (unlinked_nodup _ _ _ _ _ _ C) as [Hnd Hni].
    destruct (IH ((x, g) :: F) s1 T1 fuel) as (s' & T' & Hrun' & [C2 H2 O2 R2 N2 G2]); [done|exact H1| | |done|cbn in Hf; lia|].
    { intros y [->|Hy]%elem_of_cons; [done|]. intros Hy'. apply (HF y Hy). rewrite fmap_app in *. set_solver. }
    { intros y h Hy. apply (HM y h). by right. }
    exists s', T'. rewrite reverse_cons, <-app_assoc. split.
    + rewrite Hrun. by erewrite es_bind by (by eapply ld_next_run).
    + split; [done|by rewrite reverse_cons, <-app_assoc| |etrans; [exact R1|exact R2]|by rewrite N2, N1|by rewrite G2, G1].
      eapply others_trans; (eapply others_mono; [|eassumption]); intros z; rewrite !fmap_app; set_solver.
Qed.

(** * What is left of an area *)

(** The part from [hi] on, with its offset in the file. *)
Definition right_area (hi : Z) (g : vm_area) : vm_area :=
  set_vm_start hi (set_vm_pgoff (u32 (vm_pgoff g + pages (u32 (hi - vm_start g)))) g).

Definition hole (lo hi : Z) (g : vm_area) : bool := (vm_start g <? lo) && (hi <? vm_end g).

(** What is left of [x] without [lo, hi): the part behind a hole is in the spare
    area [e]. *)
Definition cut_area (lo hi e : Z) (xg : Z * vm_area) : vdata :=
  let '(x, g) := xg in
  (if vm_start g <? lo then [(x, set_vm_end lo g)] else []) ++
  (if hi <? vm_end g then [if vm_start g <? lo then (e, set_vm_raend 0 (right_area hi g)) else (x, right_area hi g)] else []).

(** Events that are neither of pages nor of page tables. *)
Definition quiet (e : vm_event) : Prop := match e with EvZap _ _ | EvClearPageTables _ _ => False | _ => True end.

Definition quietly (s s' : mm) : Prop := ∃ l, mm_log s' = mm_log s ++ l ∧ Forall quiet l.

#[export] Instance quietly_preorder : PreOrder quietly.
Proof.
  split; [intros s; exists []; by rewrite app_nil_r|].
  intros s1 s2 s3 (l1 & H1 & Q1) (l2 & H2 & Q2). exists (l1 ++ l2). rewrite H2, H1, app_assoc. split; [done|]. apply Forall_app. by split.
Qed.

Lemma quiet_same s s' : mm_log s' = mm_log s → quietly s s'.
Proof. intros Hl. exists []. by rewrite app_nil_r. Qed.

Lemma link_quiet x g : Forall quiet (link_events x g).
Proof. unfold link_events. destruct (vm_file g =? 0); by repeat constructor. Qed.

Lemma quietly_emit e s : quiet e → quietly s (set_mm_log (mm_log s ++ [e]) s).
Proof. intros He. exists [e]. split; [done|]. by constructor. Qed.

(** Nothing but a quiet event. *)
Record calm (s s' : mm) : Prop := {
  cm_log : quietly s s';
  cm_areas : mm_areas s' = mm_areas s;
  cm_tree : mm_rb s' = mm_rb s;
  cm_mmap : mm_mmap s' = mm_mmap s;
  cm_rest : same_rest s s';
  cm_count : map_count s' = map_count s
}.

#[export] Instance calm_preorder : PreOrder calm.
Proof.
  split; [by intros s; split|]. intros s1 s2 s3 [] []. split; (congruence || by etrans).
Qed.

Lemma emit_if (b : bool) e s : quiet e → ∃ s', (if b then emit_vm e else mret tt) s = Some (tt, s') ∧ calm s s'.
Proof.
  intros He. destruct b; [|by exists s]. eexists. split; [done|]. split; try done. by apply quietly_emit.
Qed.

Lemma vm_core_same s s' D T : mm_areas s' = mm_areas s → mm_rb s' = mm_rb s → mm_mmap s' = mm_mmap s → vm_core s D T → vm_core s' D T.
Proof.
  intros Ha Ht Hm C. apply (vm_core_agree s); rewrite ?Ha, ?Ht; try done; [apply (vc_nodes _ _ _ C)|apply (vc_null _ _ _ C)].
Qed.

Lemma vm_core_calm s s' D T : calm s s' → vm_core s D T → vm_core s' D T.
Proof. intros [] . by apply vm_core_same. Qed.

Section fixup.
Context `{VmEnv} (s : mm) (D1 D2 : vdata) (T : tree) (x nx : Z) (g : vm_area) (lo hi e : Z).
Context (C : vm_core s (D1 ++ D2) T) (Hx : mm_areas s !! x = Some (set_vm_next nx g)) (Hni : x ∉ (D1 ++ D2).*1).
Context (Hlo : lo < vm_end g) (Hhi : vm_start g < hi) (Hl : laid 0 (2 ^ 32 - 1) (D1 ++ cut_area lo hi e (x, g) ++ D2)).
Context (Hc : 0 <= map_count s < 2 ^ 31 - 2).

Record fixed (s' : mm) (T' : tree) : Prop := {
  fx_core : vm_core s' (D1 ++ cut_area lo hi e (x, g) ++ D2) T';
  fx_untouched : untouched (x :: (if hole lo hi g then [e] else []) ++ (D1 ++ D2).*1) s s';
  fx_rest : same_rest s s';
  fx_count : map_count s' = map_count s + Z.of_nat (length (cut_area lo hi e (x, g)));
  fx_quiet : quietly s s'
}.

(** An area that has been changed comes back. *)
Lemma back_run s1 nx' g' : others [x] s s1 → mm_areas s1 !! x = Some (set_vm_next nx' g') → vm_core s1 (D1 ++ D2) T → same_rest s s1 →
  map_count s1 = map_count s → quietly s s1 → laid 0 (2 ^ 32 - 1) (D1 ++ (x, g') :: D2) →
  ∃ s' T', insert_vm_struct x s1 = Some (tt, s') ∧ vm_core s' (D1 ++ (x, g') :: D2) T' ∧ untouched (x :: (D1 ++ D2).*1) s s' ∧
    same_rest s s' ∧ map_count s' = map_count s + 1 ∧ quietly s s'.
Proof using Hc Hni.
  clear C Hx Hlo Hhi Hl.
  intros Ho Hx' C1 Hr1 Hc1 Hq1 Hl'. destruct (insert_vm_struct_run s1 D1 D2 T x nx' g' C1 Hx' Hni Hl') as (s' & T' & Hrun & C' & Ho' & Hr' & Hc' & Hlog).
  exists s', T'. split_and!; [done|done| |by etrans| |].
  - eapply untouched_trans; apply others_untouched; [|exact Ho']. eapply others_mono; [|exact Ho]. set_solver.
  - rewrite Hc', Hc1. apply s32_small. lia.
  - etrans; [exact Hq1|]. eexists. split; [exact Hlog|apply link_quiet].
Qed.

Notation fixup st en := (fixup_area x (set_vm_next nx g) st en e s).

Lemma fixup_whole : lo <= vm_start g → vm_end g <= hi → ∃ s' T', fixup (vm_start g) (vm_end g) = Some (e, s') ∧ fixed s' T'.
Proof.
  intros H1 H2. unfold fixup_area. cbn [vm_start vm_end set_vm_next]. rewrite !Z.eqb_refl. cbn [andb].
  destruct (emit_if (negb (vm_ops g =? 0) && has_vclose (vm_ops g)) (EvClose x) s I) as (s1 & E1 & M1).
  destruct (emit_if (negb (vm_file g =? 0)) (EvPutFile (vm_file g)) s1 I) as (s2 & E2 & M2). pose proof (transitivity M1 M2) as M.
  eexists _, T. split; [erewrite es_bind by exact E1; by erewrite es_bind by exact E2|].
  assert (cut_area lo hi e (x, g) = []) as Hcut.
  { cbn. destruct (Z.ltb_spec (vm_start g) lo), (Z.ltb_spec hi (vm_end g)); (lia || done). }
  split; rewrite ?Hcut; cbn.
  - apply vm_core_free; [by eapply vm_core_calm|done].
  - intros y Hy. cbn. rewrite lookup_delete_ne by set_solver. by rewrite (cm_areas _ _ M).
  - split; [split|..]; cbn; apply M.
  - rewrite (cm_count _ _ M). lia.
  - apply M.
Qed.

(** [wa] on the area itself. *)
Lemma wa_back f s1 v : calm s s1 → mm_areas s1 !! x = Some v →
  wa x f s1 = Some (tt, set_mm_areas (<[x := f v]> (mm_areas s1)) s1) ∧ others [x] s (set_mm_areas (<[x := f v]> (mm_areas s1)) s1) ∧
  vm_core (set_mm_areas (<[x := f v]> (mm_areas s1)) s1) (D1 ++ D2) T.
Proof using C Hni.
  clear Hx Hl Hlo Hhi Hc. intros M Hv. assert (is_Some (mm_areas s1 !! x)) as Hlx by by eexists. split_and!; [by apply wa_live| |].
  - eapply others_wa; [by rewrite <-(cm_areas _ _ M)|]. cbn. by rewrite (cm_areas _ _ M).
  - apply vm_core_wa; [by eapply vm_core_calm|done|done].
Qed.

Lemma fixup_tail : vm_start g < lo → vm_end g <= hi → ∃ s' T', fixup lo (vm_end g) = Some (e, s') ∧ fixed s' T'.
Proof.
  intros H1 H2. unfold fixup_area. cbn [vm_start vm_end set_vm_next]. rewrite Z.eqb_refl. destruct (Z.eqb_spec lo (vm_start g)); [lia|]. cbn [andb].
  assert (cut_area lo hi e (x, g) = [(x, set_vm_end lo g)]) as Hcut.
  { cbn. destruct (Z.ltb_spec (vm_start g) lo), (Z.ltb_spec hi (vm_end g)); (lia || done). }
  rewrite Hcut in Hl. destruct (wa_back (set_vm_end lo) s _ (reflexivity s) Hx) as (Hw & Ho & C1).
  destruct (back_run _ nx (set_vm_end lo g) Ho) as (s' & T' & Hrun & C' & U' & R' & N' & Q'); [cbn; by rewrite lookup_insert_eq|exact C1|by split; [split|..]|done|by apply quiet_same|exact Hl|].
  exists s', T'. split; [erewrite es_bind by exact Hw; by erewrite es_bind by exact Hrun|].
  split; rewrite ?Hcut; [done| |done|done|done]. eapply untouched_mono; [|exact U']. set_solver.
Qed.

Lemma fixup_head : lo <= vm_start g → hi < vm_end g → ∃ s' T', fixup (vm_start g) hi = Some (e, s') ∧ fixed s' T'.
Proof.
  intros H1 H2. unfold fixup_area. cbn [vm_start vm_end set_vm_next]. rewrite Z.eqb_refl. destruct (Z.eqb_spec hi (vm_end g)); [lia|]. cbn [andb].
  assert (cut_area lo hi e (x, g) = [(x, right_area hi g)]) as Hcut.
  { cbn. destruct (Z.ltb_spec (vm_start g) lo), (Z.ltb_spec hi (vm_end g)); (lia || done). }
  rewrite Hcut in Hl. set (p := u32 _). destruct (wa_back (λ v, set_vm_start hi (set_vm_pgoff p v)) s _ (reflexivity s) Hx) as (_ & Ho & C1).
  destruct (back_run _ nx (right_area hi g) Ho) as (s' & T' & Hrun & C' & U' & R' & N' & Q'); [cbn; by rewrite lookup_insert_eq|exact C1|by split; [split|..]|done|by apply quiet_same|exact Hl|].
  exists s', T'. split.
  - erewrite es_bind by by apply wa_live. erewrite es_bind by (apply wa_live; cbn; by rewrite lookup_insert_eq). cbn [set_mm_areas mm_areas].
    rewrite insert_insert_eq. by erewrite es_bind by exact Hrun.
  - split; rewrite ?Hcut; [done| |done|done|done]. eapply untouched_mono; [|exact U']. set_solver.
Qed.

Lemma fixup_hole ve : vm_start g < lo → hi < vm_end g → mm_areas s !! e = Some ve → e ≠ x → e ∉ (D1 ++ D2).*1 →
  ∃ s' T', fixup lo hi = Some (0, s') ∧ fixed s' T'.
Proof.
  intros H1 H2 He Hex Hei. unfold fixup_area. cbn [vm_start vm_end set_vm_next]. destruct (Z.eqb_spec lo (vm_start g)); [lia|].
  destruct (Z.eqb_spec hi (vm_end g)); [lia|]. cbn [andb].
  assert (hole lo hi g = true ∧ cut_area lo hi e (x, g) = [(x, set_vm_end lo g); (e, set_vm_raend 0 (right_area hi g))]) as [Hh Hcut].
  { unfold hole. cbn. destruct (Z.ltb_spec (vm_start g) lo), (Z.ltb_spec hi (vm_end g)); (lia || done). }
  rewrite Hcut in Hl. cbn [app] in Hl. pose proof (laid_gap _ _ _ _ _ _ Hl) as (Hl' & _).
  erewrite es_bind by by apply wa_live. set (s1 := set_mm_areas _ s).
  edestruct (emit_if (negb (vm_file g =? 0)) (EvGetFile (vm_file g)) s1 I) as (s2 & E2 & M2). erewrite es_bind by exact E2.
  edestruct (emit_if (negb (vm_ops g =? 0) && has_vopen (vm_ops g)) (EvOpen e) s2 I) as (s3 & E3 & M3). erewrite es_bind by exact E3.
  pose proof (transitivity M2 M3) as M. pose proof (cm_areas _ _ M) as A3. assert (mm_areas s3 !! x = Some (set_vm_next nx g)) as Hx3.
  { rewrite A3. cbn. by rewrite lookup_insert_ne. }
  erewrite es_bind by by apply wa_live. set (s4 := set_mm_areas _ s3).
  assert (vm_core s4 (D1 ++ D2) T) as C4.
  { apply vm_core_wa; [|done|by eexists]. eapply vm_core_calm; [exact M|]. apply vm_core_wa; [done..|by eexists]. }
  assert (mm_areas s4 !! e = Some (set_vm_next (vm_next ve) (set_vm_raend 0 (right_area hi g)))) as He4.
  { cbn. rewrite lookup_insert_ne, A3 by done. cbn. by rewrite lookup_insert_eq. }
  destruct (insert_vm_struct_run s4 D1 D2 T e _ _ C4 He4 Hei Hl') as (s5 & T5 & E5 & C5 & O5 & R5 & N5 & G5). erewrite es_bind by exact E5.
  assert (x ∉ (D1 ++ (e, set_vm_raend 0 (right_area hi g)) :: D2).*1) as Hx5 by by apply notin_mid.
  assert (mm_areas s5 !! x = Some (set_vm_next nx (set_vm_end lo g))) as Hx6.
  { rewrite (ot_areas _ _ _ O5) by set_solver. cbn. by rewrite lookup_insert_eq. }
  destruct (insert_vm_struct_run s5 D1 _ T5 x _ _ C5 Hx6 Hx5 Hl) as (s6 & T6 & E6 & C6 & O6 & R6 & N6 & G6). erewrite es_bind by exact E6.
  exists s6, T6. split; [done|]. pose proof (cm_rest _ _ M) as MR. pose proof (cm_count _ _ M) as MN. split; rewrite ?Hcut, ?Hh.
  - done.
  - intros y (Hyx & Hye & Hyd)%not_elem_of_cons_2. rewrite (ot_areas _ _ _ O6), (ot_areas _ _ _ O5) by by rewrite not_elem_of_cons, ?notin_mid. cbn.
    rewrite lookup_insert_ne, A3 by done. cbn. by rewrite lookup_insert_ne.
  - etrans; [|exact R6]. etrans; [|exact R5]. transitivity s3; [|by split; [split|..]]. etrans; [|exact MR]. by split; [split|..].
  - rewrite N6, N5. cbn. rewrite MN. cbn. rewrite !s32_small by (rewrite ?s32_small; lia). lia.
  - etrans; [|exists (link_events x (set_vm_end lo g)); split; [exact G6|apply link_quiet]].
    etrans; [|eexists; split; [exact G5|apply link_quiet]].
    etrans; [exact (quiet_same s s1 eq_refl)|]. etrans; [exact (cm_log _ _ M)|]. by apply quiet_same.
Qed.
End fixup.
