(* ===== verification/VmaCount.v ===== *)
(** What the counts of an address space stand for (mm/mmap.c): pages and areas
    that are mapped, and what each page is mapped to. *)
From S2P Require Import Prelude RbTree Vma VmaShape VmaLink VmaCalls VmaUnmap.
From stdpp Require Import list options.
#[local] Set Default Proof Using "Type*".
Open Scope cint_scope.
Open Scope Z_scope.

(** * Whole pages *)

Lemma pages_div z : pages z = z / PAGE_SIZE.
Proof. unfold pages. by rewrite Z.shiftr_div_pow2. Qed.

Lemma aligned_times z : aligned z ↔ ∃ k, z = PAGE_SIZE * k.
Proof.
  unfold aligned, PAGE_SIZE. split.
  - intros Hz. exists (z / 4096). Z.div_mod_to_equations. lia.
  - intros [k ->]. Z.div_mod_to_equations. lia.
Qed.

(** An area counts the pages from [a] to [b]. *)
Lemma pages_split a b c : aligned a → aligned b → pages (c - a) = pages (b - a) + pages (c - b).
Proof. rewrite !pages_div. unfold aligned, PAGE_SIZE. Z.div_mod_to_equations. lia. Qed.

Lemma pages_pos a b : aligned a → aligned b → a < b → 1 <= pages (b - a).
Proof. rewrite pages_div. unfold aligned, PAGE_SIZE. Z.div_mod_to_equations. lia. Qed.

(** * Counts *)

Definition page_count (g : vm_area) : Z := pages (vm_end g - vm_start g).
Definition locked_count (g : vm_area) : Z := if vm_flags g & VM_LOCKED then page_count g else 0.
Definition sum_of (f : vm_area → Z) (D : vdata) : Z := foldr (λ xg n, f xg.2 + n) 0 D.

Lemma sum_of_app f D1 D2 : sum_of f (D1 ++ D2) = sum_of f D1 + sum_of f D2.
Proof. unfold sum_of. induction D1 as [|[x g] D1 IH]; cbn; [done|]. rewrite IH. lia. Qed.

Lemma laid_pages lo hi D : laid lo hi D → aligned lo → Z.of_nat (length D) <= sum_of page_count D <= pages (hi - lo).
Proof.
  revert lo. induction D as [|[x g] D IH]; intros lo; cbn [laid length sum_of foldr snd].
  - intros Hle Ha. rewrite pages_div. unfold PAGE_SIZE. Z.div_mod_to_equations. lia.
  - intros (H1 & H2 & H3 & H4 & Hl) Ha. specialize (IH _ Hl H4). fold (sum_of page_count D). unfold page_count at 1 3.
    pose proof (pages_pos _ _ H3 H4 H2). pose proof (pages_split (vm_start g) (vm_end g) hi H3 H4).
    pose proof (pages_split lo (vm_start g) hi Ha H3). assert (0 <= pages (vm_start g - lo)); [|lia].
    rewrite pages_div. unfold PAGE_SIZE. Z.div_mod_to_equations. lia.
Qed.

(** The part of [lo, hi) that is in an area. *)
Definition zap_start (lo : Z) (g : vm_area) : Z := Z.max lo (vm_start g).
Definition zap_end (hi : Z) (g : vm_area) : Z := Z.min hi (vm_end g).

Definition overlaps (lo hi : Z) (g : vm_area) : Prop := lo < vm_end g ∧ vm_start g < hi.
Definition proper (g : vm_area) : Prop := vm_start g < vm_end g ∧ aligned (vm_start g) ∧ aligned (vm_end g).

Lemma cut_pages lo hi e x g : aligned lo → aligned hi → lo < hi → overlaps lo hi g → proper g →
  page_count g = sum_of page_count (cut_area lo hi e (x, g)) + pages (zap_end hi g - zap_start lo g).
Proof.
  intros Al Ah Hlh [H1 H2] (H3 & A1 & A2). unfold zap_end, zap_start, page_count. cbn.
  destruct (Z.ltb_spec (vm_start g) lo), (Z.ltb_spec hi (vm_end g)); cbn [app sum_of foldr snd vm_start vm_end set_vm_end set_vm_start set_vm_raend right_area set_vm_pgoff].
  - rewrite Z.max_l, Z.min_l by lia. rewrite (pages_split (vm_start g) lo), (pages_split lo hi (vm_end g)) by done. lia.
  - rewrite Z.max_l, Z.min_r by lia. rewrite (pages_split (vm_start g) lo) by done. lia.
  - rewrite Z.max_r, Z.min_l by lia. rewrite (pages_split (vm_start g) hi) by done. lia.
  - rewrite Z.max_r, Z.min_r by lia. lia.
Qed.

Lemma cut_flags lo hi e x g y h : (y, h) ∈ cut_area lo hi e (x, g) → vm_flags h = vm_flags g.
Proof. cbn. destruct (_ <? _), (_ <? _); rewrite ?elem_of_app, ?list_elem_of_singleton, ?elem_of_nil; naive_solver. Qed.

Lemma locked_cut D (b : bool) : (∀ x g, (x, g) ∈ D → (vm_flags g & VM_LOCKED) = b) →
  sum_of locked_count D = if b then sum_of page_count D else 0.
Proof.
  induction D as [|[x g] D IH]; intros Hb; cbn; [by destruct b|]. unfold sum_of in IH. rewrite IH; [|intros y h Hy; apply (Hb y); by right].
  unfold locked_count. rewrite (Hb x g ltac:(left)). by destruct b.
Qed.

(** * What a page is mapped to *)

Record mapping := mk_mapping {
  mp_flags : Z;
  mp_prot : Z;
  mp_ops : Z;
  mp_private : Z;
  mp_file : option (Z * Z)    (* the file and the page in it *)
}.

Definition page_mapping (g : vm_area) (a : Z) : mapping :=
  mk_mapping (vm_flags g) (vm_page_prot g) (vm_ops g) (vm_private_data g)
    (if vm_file g =? 0 then None else Some (vm_file g, u32 (vm_pgoff g + pages (a - vm_start g)))).

Definition in_range (lo hi a : Z) : bool := (lo <=? a) && (a <? hi).

Fixpoint at_page (D : vdata) (a : Z) : option mapping :=
  match D with
  | [] => None
  | (_, g) :: D => if in_range (vm_start g) (vm_end g) a then Some (page_mapping g a) else at_page D a
  end.

Lemma in_range_spec lo hi a : BoolSpec (lo <= a < hi) (¬ (lo <= a < hi)) (in_range lo hi a).
Proof. unfold in_range. destruct (Z.leb_spec lo a), (Z.ltb_spec a hi); constructor; lia. Qed.

Lemma at_page_app D1 D2 a : at_page (D1 ++ D2) a = match at_page D1 a with Some m => Some m | None => at_page D2 a end.
Proof. induction D1 as [|[x g] D1 IH]; cbn; [done|]. by destruct (in_range _ _ _). Qed.

Lemma at_page_none D a : (∀ x g, (x, g) ∈ D → in_range (vm_start g) (vm_end g) a = false) → at_page D a = None.
Proof.
  induction D as [|[x g] D IH]; intros Hn; cbn; [done|]. rewrite (Hn x g ltac:(left)). apply IH. intros y h Hy. apply (Hn y). by right.
Qed.

(** The page of a file does not change when its area loses its start. *)
Lemma right_mapping hi g a : aligned hi → aligned (vm_start g) → 0 <= vm_start g → vm_start g <= hi → hi < 2 ^ 32 →
  page_mapping (right_area hi g) a = page_mapping g a.
Proof.
  intros A1 A2 H1 H2 H3. unfold page_mapping. cbn. f_equal. destruct (vm_file g =? 0); [done|]. do 2 f_equal.
  rewrite (u32_small (hi - vm_start g)) by lia. rewrite u32_add. f_equal. rewrite (pages_split (vm_start g) hi a) by done. lia.
Qed.

Section cut.
Context (lo hi e : Z) (Al : aligned lo) (Ah : aligned hi) (Hlh : 0 <= lo < hi) (Hhi : hi < 2 ^ 32).

Lemma cut_page x g a : proper g → overlaps lo hi g → 0 <= vm_start g →
  at_page (cut_area lo hi e (x, g)) a = if in_range lo hi a then None else at_page [(x, g)] a.
Proof.
  intros (P1 & P2 & P3) [O1 O2] H0. unfold cut_area. rewrite at_page_app. cbn [at_page].
  destruct (Z.ltb_spec (vm_start g) lo), (Z.ltb_spec hi (vm_end g)); cbn [at_page vm_start vm_end set_vm_end set_vm_start right_area set_vm_raend set_vm_pgoff];
    try change (page_mapping (set_vm_raend 0 (right_area hi g)) a) with (page_mapping (right_area hi g) a); rewrite ?right_mapping by (done || lia);
    change (page_mapping (set_vm_end lo g) a) with (page_mapping g a);
    repeat match goal with |- context [in_range ?p ?q a] => destruct (in_range_spec p q a) end; (done || lia).
Qed.

Lemma cut_pages_all M a : (∀ x g, (x, g) ∈ M → proper g ∧ overlaps lo hi g ∧ 0 <= vm_start g) →
  at_page (M ≫= cut_area lo hi e) a = if in_range lo hi a then None else at_page M a.
Proof.
  induction M as [|[x g] M IH]; intros HM; [by destruct (in_range lo hi a)|]. rewrite bind_cons, at_page_app, IH.
  - destruct (HM x g ltac:(left)) as (? & ? & ?). rewrite cut_page by done. cbn [at_page].
    destruct (in_range lo hi a); [done|]. by destruct (in_range (vm_start g) (vm_end g) a).
  - intros y h Hy. apply (HM y h). by right.
Qed.

(** Exactly the pages of the range are gone. *)
Lemma cut_at_page L M R a : (∀ x g, (x, g) ∈ M → proper g ∧ overlaps lo hi g ∧ 0 <= vm_start g) → ends_below lo L →
  (∀ x g, (x, g) ∈ R → hi <= vm_start g) →
  at_page (L ++ (M ≫= cut_area lo hi e) ++ R) a = if in_range lo hi a then None else at_page (L ++ M ++ R) a.
Proof.
  intros HM HL HR. rewrite !at_page_app, cut_pages_all by done. destruct (in_range_spec lo hi a); [|done].
  rewrite !at_page_none; [done|..].
  - intros x g Hx. specialize (HR x g Hx). destruct (in_range_spec (vm_start g) (vm_end g) a); [lia|done].
  - intros x g Hx. specialize (HL x g Hx). destruct (in_range_spec (vm_start g) (vm_end g) a); [lia|done].
Qed.

(** What is left is in order. *)
Lemma laid_cut_one p q x g : proper g → overlaps lo hi g → p <= vm_start g → vm_end g <= q → laid p q (cut_area lo hi e (x, g)).
Proof.
  intros (P1 & P2 & P3) [O1 O2] H1 H2. cbn. destruct (Z.ltb_spec (vm_start g) lo), (Z.ltb_spec hi (vm_end g)); cbn; split_and?; (done || lia).
Qed.

Lemma laid_cut p q D1 x g D2 : overlaps lo hi g → laid p q (D1 ++ (x, g) :: D2) → laid p q (D1 ++ cut_area lo hi e (x, g) ++ D2).
Proof.
  intros Ho Hl. pose proof (laid_mid _ _ _ _ _ _ Hl) as (L1 & L2 & P1 & P2 & P3). apply laid_app. exists (vm_start g). split; [done|].
  apply laid_app. exists (vm_end g). split; [|done]. by apply laid_cut_one.
Qed.
End cut.

Lemma laid_drop p q D1 E D2 : laid p q (D1 ++ E ++ D2) → laid p q (D1 ++ D2).
Proof.
  intros (m & L1 & (n & L2 & L3)%laid_app)%laid_app. apply laid_app. exists m. split; [done|]. eapply laid_weaken; [|reflexivity|exact L3].
  exact (laid_bounds _ _ _ L2).
Qed.

(** * The counts of an address space *)

Record tally (s : mm) (D : vdata) : Prop := {
  ta_count : map_count s = Z.of_nat (length D);
  ta_total : total_vm s = sum_of page_count D;
  ta_locked : locked_vm s = sum_of locked_count D
}.

Lemma sum_locked_bound D : (∀ x g, (x, g) ∈ D → 0 <= page_count g) → 0 <= sum_of locked_count D <= sum_of page_count D.
Proof.
  unfold sum_of. induction D as [|[x g] D IH]; intros Hp; cbn; [done|]. destruct IH as [I1 I2]; [intros y h Hy; apply (Hp y); by right|].
  specialize (Hp x g ltac:(left)). unfold locked_count at 1 3. destruct (vm_flags g & VM_LOCKED); lia.
Qed.

(** None of the counts overflows. *)
Lemma laid_tally D : laid 0 (2 ^ 32 - 1) D →
  Z.of_nat (length D) <= sum_of page_count D < 2 ^ 20 ∧ 0 <= sum_of locked_count D <= sum_of page_count D.
Proof.
  intros Hl. destruct (laid_pages _ _ _ Hl eq_refl) as [H1 H2]. change (pages (2 ^ 32 - 1 - 0)) with 1048575 in H2. split; [lia|].
  apply sum_locked_bound. intros x g Hx. destruct (laid_elem _ _ _ _ _ Hl Hx) as (_ & H & _ & H0 & H3). unfold page_count.
  pose proof (pages_pos (vm_start g) (vm_end g) H0 H3 H). lia.
Qed.
