(* ===== verification/VmaMunmap.v ===== *)
(** Unmapping a range (mm/mmap.c): every area in the way is cut, the counts
    follow, and the page tables of what is left stay. *)
From S2P Require Import Prelude RbTree RbShape RbInsert RbErase Vma VmaCalls VmaShape VmaLink VmaUnmap VmaCount.
From stdpp Require Import list options.
#[local] Set Default Proof Using "Type*".
Open Scope cint_scope.
Open Scope Z_scope.

(** * Events *)

Definition is_loud (e : vm_event) : bool := match e with EvZap _ _ | EvClearPageTables _ _ => true | _ => false end.

(** The events of pages and page tables, in order. *)
Definition loud (l : list vm_event) : list vm_event := List.filter is_loud l.

(** [s'] has logged [es] and perhaps quiet events. *)
Definition logged (es : list vm_event) (s s' : mm) : Prop := ∃ l, mm_log s' = mm_log s ++ l ∧ loud l = es.

Lemma loud_quiet l : Forall quiet l → loud l = [].
Proof. induction 1 as [|[] l Hq _ IH]; cbn; (done || by rewrite IH). Qed.

Lemma logged_quiet s s' : quietly s s' → logged [] s s'.
Proof. intros (l & Hl & Hq). exists l. split; [done|by apply loud_quiet]. Qed.

Lemma logged_trans es1 es2 s1 s2 s3 : logged es1 s1 s2 → logged es2 s2 s3 → logged (es1 ++ es2) s1 s3.
Proof.
  intros (l1 & H1 & <-) (l2 & H2 & <-). exists (l1 ++ l2). split; [by rewrite H2, H1, app_assoc|]. unfold loud. by rewrite List.filter_app.
Qed.

Lemma logged_emit e s : is_loud e = true → logged [e] s (set_mm_log (mm_log s ++ [e]) s).
Proof. intros He. exists [e]. split; [done|]. unfold loud. cbn. by rewrite He. Qed.

(** * Accounting *)

(** [n] pages of an area like [g] have gone. *)
Record accounted (g : vm_area) (n : Z) (s s' : mm) : Prop := {
  ac_areas : mm_areas s' = mm_areas s;
  ac_tree : mm_rb s' = mm_rb s;
  ac_mmap : mm_mmap s' = mm_mmap s;
  ac_fields : same_fields s s';
  ac_cache : mmap_cache s' = mmap_cache s;
  ac_count : map_count s' = map_count s;
  ac_log : mm_log s' = mm_log s;
  ac_total : total_vm s' = u32 (total_vm s - n);
  ac_locked : locked_vm s' = if vm_flags g & VM_LOCKED then u32 (locked_vm s - n) else locked_vm s
}.

Lemma account_run g len s : ∃ s', account_unmapped g len s = Some (tt, s') ∧ accounted g (pages len) s s'.
Proof.
  unfold account_unmapped. destruct (vm_flags g & VM_LOCKED) eqn:Hf; eexists; (split; [done|]); split; cbn; rewrite ?Hf; (done || by split).
Qed.

Lemma vm_core_accounted g n s s' D T : accounted g n s s' → vm_core s D T → vm_core s' D T.
Proof. intros []. by apply vm_core_same. Qed.

Section unmap_one.
Context `{VmEnv} (s : mm) (D1 D2 : vdata) (T : tree) (x nx : Z) (g : vm_area) (lo hi e : Z).
Context (C : vm_core s (D1 ++ D2) T) (Hx : mm_areas s !! x = Some (set_vm_next nx g)) (Hni : x ∉ (D1 ++ D2).*1).
Context (Ho : overlaps lo hi g) (Hl : laid 0 (2 ^ 32 - 1) (D1 ++ cut_area lo hi e (x, g) ++ D2)).
Context (Hc : 0 <= map_count s < 2 ^ 31 - 2) (Hlo : 0 <= lo < hi) (Hhi : hi < 2 ^ 32) (Hg : 0 <= vm_start g < vm_end g) (Hg' : vm_end g < 2 ^ 32).
Context (He : hole lo hi g = true → ∃ ve, mm_areas s !! e = Some ve ∧ e ≠ x ∧ e ∉ (D1 ++ D2).*1).

Lemma unmap_fixup_run : ∃ s0 s' T',
  unmap_fixup x (zap_start lo g) (zap_end hi g - zap_start lo g) e s = Some (if hole lo hi g then 0 else e, s') ∧
  accounted g (pages (zap_end hi g - zap_start lo g)) s s0 ∧ fixed s0 D1 D2 x g lo hi e s' T'.
Proof.
  destruct Ho as [O1 O2]. destruct (account_run (set_vm_next nx g) (zap_end hi g - zap_start lo g) s) as (s0 & Hrun & Hac).
  assert (accounted g (pages (zap_end hi g - zap_start lo g)) s s0) as Hac' by by destruct Hac.
  pose proof (vm_core_accounted _ _ _ _ _ _ Hac C) as C0. exists s0. unfold unmap_fixup. erewrite es_bind by by apply ga_live. erewrite es_bind by exact Hrun.
  replace (zap_start lo g + (zap_end hi g - zap_start lo g)) with (zap_end hi g) by lia. rewrite u32_small by (unfold zap_end; lia).
  assert (mm_areas s0 !! x = Some (set_vm_next nx g)) as Hx0 by by rewrite (ac_areas _ _ _ _ Hac).
  assert (0 <= map_count s0 < 2 ^ 31 - 2) as Hc0 by by rewrite (ac_count _ _ _ _ Hac).
  enough (∃ s' T', fixup_area x (set_vm_next nx g) (zap_start lo g) (zap_end hi g) e s0 = Some (if hole lo hi g then 0 else e, s') ∧
    fixed s0 D1 D2 x g lo hi e s' T') as (s' & T' & ? & ?) by by exists s', T'.
  unfold zap_start, zap_end, hole in *. destruct (Z.ltb_spec (vm_start g) lo), (Z.ltb_spec hi (vm_end g)); cbn [andb].
  - rewrite Z.max_l, Z.min_l by lia. destruct He as (ve & Hv & ? & ?); [done|]. rewrite <-(ac_areas _ _ _ _ Hac) in Hv. by eapply fixup_hole.
  - rewrite Z.max_l, Z.min_r by lia. by eapply fixup_tail.
  - rewrite Z.max_r, Z.min_l by lia. by eapply fixup_head.
  - rewrite Z.max_r, Z.min_r by lia. by eapply fixup_whole.
Qed.
End unmap_one.

(** * The areas come back *)

Section release.
Context `{VmEnv} (L : vdata) (lo hi e0 : Z).
Context (Al : aligned lo) (Ah : aligned hi) (Hlo : 0 <= lo < hi) (Hhi : hi < 2 ^ 32).

(** The areas [M], in reverse, still have to be cut; [P] follows them, and [e]
    is the spare area if it has not been used. *)
Record releasing (s : mm) (M P : vdata) (e : Z) (T : tree) : Prop := {
  rl_core : vm_core s (L ++ P) T;
  rl_laid : laid 0 (2 ^ 32 - 1) (L ++ M ++ P);
  rl_chain : chain s (reverse M);
  rl_sep : NoDup (L ++ M ++ P).*1;
  rl_over x g : (x, g) ∈ M → overlaps lo hi g;
  rl_spare : (e = e0 ∧ is_Some (mm_areas s !! e) ∧ e ∉ (L ++ M ++ P).*1) ∨ (e = 0 ∧ ∀ x g, (x, g) ∈ M → hole lo hi g = false);
  rl_tally : tally s (L ++ M ++ P)
}.

Definition zap_event (g : vm_area) : vm_event := EvZap (zap_start lo g) (zap_end hi g - zap_start lo g).

(** What one round does to an area, up to the call of [unmap_fixup]. *)
Lemma release_head (s : mm) (file x : Z) g : ∃ s', (∀ B (K : VM B),
  ((if negb (file =? 0) then emit_vm (EvWriteCount file (-1)) else mret tt);;
   (if negb (vm_file g =? 0) then emit_vm (EvUnlinkFile x) else mret tt);;
   count_down;; emit_vm (zap_event g);; K) s = K s') ∧
  logged [zap_event g] s s' ∧ mm_areas s' = mm_areas s ∧ mm_rb s' = mm_rb s ∧ mm_mmap s' = mm_mmap s ∧ same_rest s s' ∧
  map_count s' = s32 (map_count s - 1).
Proof using.
  destruct (emit_if (negb (file =? 0)) (EvWriteCount file (-1)) s I) as (s1 & E1 & M1).
  destruct (emit_if (negb (vm_file g =? 0)) (EvUnlinkFile x) s1 I) as (s2 & E2 & M2). pose proof (transitivity M1 M2) as [Q1 Q2 Q3 Q4 Q5 Q6].
  eexists. split; [intros B K; erewrite es_bind by exact E1; erewrite es_bind by exact E2; erewrite es_bind by done; by erewrite es_bind by done|].
  split_and!; cbn; [|done..|by destruct Q5 as [[] ]; split; [split|..]|by rewrite Q6].
  eapply (logged_trans [] _ s s2); [by apply logged_quiet|]. exists [zap_event g]. by split.
Qed.

Lemma tally_cut s s' D1 x g D2 : laid 0 (2 ^ 32 - 1) (D1 ++ (x, g) :: D2) → overlaps lo hi g → tally s (D1 ++ (x, g) :: D2) →
  map_count s' = map_count s - 1 + Z.of_nat (length (cut_area lo hi e0 (x, g))) →
  total_vm s' = u32 (total_vm s - pages (zap_end hi g - zap_start lo g)) →
  locked_vm s' = (if vm_flags g & VM_LOCKED then u32 (locked_vm s - pages (zap_end hi g - zap_start lo g)) else locked_vm s) →
  tally s' (D1 ++ cut_area lo hi e0 (x, g) ++ D2).
Proof.
  intros Hl Ho [T1 T2 T3] Hc Ht Hk. pose proof (laid_mid _ _ _ _ _ _ Hl) as (_ & _ & Hp).
  pose proof (cut_pages lo hi e0 x g Al Ah ltac:(lia) Ho Hp) as Hcut.
  destruct (laid_tally _ (laid_cut lo hi e0 Al Ah Hlo Hhi _ _ _ _ _ _ Ho Hl)) as [B1 B2].
  assert (sum_of locked_count (cut_area lo hi e0 (x, g)) = if vm_flags g & VM_LOCKED then sum_of page_count (cut_area lo hi e0 (x, g)) else 0) as Hlk.
  { apply locked_cut. intros y h Hy. by rewrite (cut_flags _ _ _ _ _ _ _ Hy). }
  rewrite !sum_of_app in *. cbn [sum_of foldr snd] in *. fold (sum_of page_count D2) (sum_of locked_count D2) in *.
  unfold locked_count at 2 in T3. split.
  - rewrite Hc, T1, !length_app. cbn [length]. lia.
  - rewrite Ht, !sum_of_app, u32_small; lia.
  - rewrite Hk, !sum_of_app, T3, Hlk in *. destruct (vm_flags g & VM_LOCKED); [rewrite u32_small; lia|lia].
Qed.

Lemma cut_spare e x g : hole lo hi g = false → cut_area lo hi e (x, g) = cut_area lo hi e0 (x, g).
Proof using. unfold hole. cbn. by destruct (vm_start g <? lo), (hi <? vm_end g). Qed.

(** A hole is in the only area there is to cut. *)
Lemma hole_alone p q M x g P : laid p q (M ++ (x, g) :: P) → hole lo hi g = true → (∀ y h, (y, h) ∈ M → overlaps lo hi h) → M = [].
Proof.
  intros Hl Hh HM. destruct M as [|[y h] M]; [done|]. apply laid_mid in Hl as (L1 & _). unfold hole in Hh.
  destruct (laid_elem _ _ _ _ _ L1 ltac:(by left)) as (_ & _ & ? & _). destruct (HM y h ltac:(left)).
  destruct (Z.ltb_spec (vm_start g) lo); [lia|done].
Qed.

Lemma zap_start_eq g : (if lo <? vm_start g then vm_start g else lo) = zap_start lo g.
Proof. unfold zap_start. destruct (Z.ltb_spec lo (vm_start g)); lia. Qed.
Lemma zap_end_eq g : (if hi >? vm_end g then vm_end g else hi) = zap_end hi g.
Proof. unfold zap_end. destruct (Z.gtb_spec hi (vm_end g)); lia. Qed.

Lemma cut_names x g y : y ∈ (cut_area lo hi e0 (x, g)).*1 → y = x ∨ (y = e0 ∧ hole lo hi g = true).
Proof. unfold hole. cbn. destruct (vm_start g <? lo), (hi <? vm_end g); cbn; set_solver. Qed.

Lemma nodup_mid (l1 l2 l3 : list Z) : NoDup (l1 ++ l3) → NoDup l2 → (∀ y, y ∈ l2 → y ∉ l1 ++ l3) → NoDup (l1 ++ l2 ++ l3).
Proof using.
  intros H1 H2 H3. rewrite (Permutation_app_swap_app l1 l2 l3). by apply NoDup_app.
Qed.

Lemma nodup_parts (x : Z) (l1 l2 l3 : list Z) : NoDup (l1 ++ l2 ++ x :: l3) →
  NoDup l2 ∧ x ∉ l1 ++ l2 ++ l3 ∧ ∀ y, y ∈ l2 → y ∉ l1 ++ l3.
Proof using.
  intros Hnd. assert (l1 ++ l2 ++ x :: l3 ≡ₚ x :: l2 ++ (l1 ++ l3)) as Hp.
  { rewrite <-(Permutation_middle l2), (Permutation_app_swap_app l2 l1 l3). by rewrite <-Permutation_middle. }
  rewrite Hp in Hnd. apply list.NoDup_cons in Hnd as [Hx (? & ? & _)%NoDup_app]. split_and!; [done| |done].
  by rewrite Permutation_app_swap_app.
Qed.

(** What the next round needs. *)
Lemma release_next s M x g P e T s' T' : releasing s (M ++ [(x, g)]) P e T → vm_core s' (L ++ cut_area lo hi e0 (x, g) ++ P) T' →
  laid 0 (2 ^ 32 - 1) (L ++ M ++ cut_area lo hi e0 (x, g) ++ P) → untouched (x :: (if hole lo hi g then [e] else []) ++ (L ++ P).*1) s s' →
  tally s' (L ++ M ++ cut_area lo hi e0 (x, g) ++ P) → releasing s' M (cut_area lo hi e0 (x, g) ++ P) (if hole lo hi g then 0 else e) T'.
Proof.
  intros [C Hl Hch Hs Hov Hsp Hta] C' Hl' Hu Hta'. rewrite <-!app_assoc in *. cbn [app] in *.
  assert (NoDup M.*1 ∧ x ∉ (L ++ M ++ P).*1 ∧ ∀ y, y ∈ M.*1 → y ∉ (L ++ P).*1) as (N1 & N2 & N3).
  { rewrite !fmap_app in *. cbn in Hs. by apply nodup_parts. }
  assert (hole lo hi g = true → M = []) as Hal.
  { intros Hh. eapply (hole_alone 0 (2 ^ 32 - 1) M x g P); [|done|].
    - apply laid_app in Hl as (m & B & Hl). eapply laid_weaken; [|reflexivity|exact Hl]. by apply laid_bounds in B.
    - intros y h Hy. apply (Hov y h). apply elem_of_app. by left. }
  split; [done|done| | | | |done].
  - unfold chain in *. rewrite reverse_snoc in Hch. cbn in Hch. destruct Hch as (_ & nx & _ & Hch). pose proof (vseg_head _ _ _ Hch) as ->.
    eapply vseg_agree; [|exact Hch]. intros y Hy. rewrite fmap_reverse, elem_of_reverse in Hy. apply Hu. specialize (N3 y Hy).
    destruct (hole lo hi g); [rewrite Hal in Hy by done; by apply elem_of_nil in Hy|]. rewrite !fmap_app in N2. set_solver.
  - rewrite !fmap_app. apply nodup_mid; [|done|].
    + pose proof (vc_nodup _ _ _ C') as Hnd. by rewrite !fmap_app in Hnd.
    + intros y Hy Hin. rewrite !elem_of_app in Hin. destruct Hin as [Hin|[[->|[-> Hh]]%cut_names|Hin]].
      * apply (N3 y Hy). rewrite fmap_app. set_solver.
      * apply N2. rewrite !fmap_app. set_solver.
      * rewrite Hal in Hy by done. by apply elem_of_nil in Hy.
      * apply (N3 y Hy). rewrite fmap_app. set_solver.
  - intros y h Hy. apply (Hov y h), elem_of_app. by left.
  - destruct (hole lo hi g) eqn:Hh; [right; split; [done|]; rewrite Hal by done; intros y h Hy; by apply elem_of_nil in Hy|].
    destruct Hsp as [(-> & Hv & He)|[-> Hn]]; [left|right; split; [done|]; intros y h Hy; apply (Hn y h), elem_of_app; by left].
    rewrite !fmap_app in He. cbn in He. split_and!; [done| |].
    + rewrite Hu; [done|]. rewrite fmap_app. set_solver.
    + rewrite !fmap_app. intros Hin. rewrite !elem_of_app in Hin. destruct Hin as [Hin|[Hin|[[->|[_ ?]]%cut_names|Hin]]];
        apply He; rewrite !elem_of_app, elem_of_cons; (tauto || congruence).
Qed.

Lemma release_one s M x g P e T fuel : releasing s (M ++ [(x, g)]) P e T → ∃ e' s' T',
  unmap_loop (S fuel) lo (hi - lo) x e s = unmap_loop fuel lo (hi - lo) (hd0 (reverse M).*1) e' s' ∧
  releasing s' M (cut_area lo hi e0 (x, g) ++ P) e' T' ∧ logged [zap_event g] s s' ∧ same_fields s s' ∧ mmap_cache s' = mmap_cache s.
Proof.
  intros Hr. pose proof Hr as [C Hl Hch Hs Hov Hsp Hta]. rewrite <-app_assoc in *. cbn [app] in *.
  assert (overlaps lo hi g) as Ho by (apply (Hov x); apply elem_of_app; right; left).
  unfold chain in Hch. rewrite reverse_snoc in Hch. cbn in Hch. destruct Hch as (_ & nx & Hx & Hch).
  pose proof (vseg_head _ _ _ Hch) as ->. set (nx := hd0 (reverse M).*1) in *.
  assert (x ≠ 0) as Hx0 by (intros ->; by rewrite (vc_null _ _ _ C) in Hx).
  assert (laid 0 (2 ^ 32 - 1) (L ++ cut_area lo hi e0 (x, g) ++ P)) as Hl'.
  { rewrite app_assoc in Hl. pose proof (laid_cut lo hi e0 Al Ah Hlo Hhi _ _ _ _ _ _ Ho Hl) as Hl'. rewrite <-app_assoc in Hl'. by apply laid_drop in Hl'. }
  assert ((x, g) ∈ L ++ M ++ (x, g) :: P) as Hin by (rewrite !elem_of_app; right; right; left).
  destruct (laid_elem _ _ _ _ _ Hl Hin) as (G1 & G2 & G3 & G4 & G5).
  cbn [unmap_loop]. destruct (Z.eqb_spec x 0); [done|]. erewrite es_bind by by apply ga_live. cbn [set_vm_next vm_next vm_start vm_end vm_flags vm_file].
  replace (lo + (hi - lo)) with hi by lia. rewrite (u32_small hi), zap_start_eq, zap_end_eq by lia.
  rewrite (u32_small (zap_end hi g - zap_start lo g)) by (destruct Ho; unfold zap_end, zap_start; lia).
  set (file := if _ && _ then vm_file g else 0). change (EvZap (zap_start lo g) (zap_end hi g - zap_start lo g)) with (zap_event g).
  destruct (release_head s file x g) as (s1 & Hhead & G & A1 & T1 & M1 & R1 & N1). rewrite Hhead.
  pose proof (vm_core_same s s1 _ _ A1 T1 M1 C) as C1. rewrite <-A1 in Hx.
  assert (cut_area lo hi e (x, g) = cut_area lo hi e0 (x, g) ∧ (hole lo hi g = true → ∃ ve, mm_areas s1 !! e = Some ve ∧ e ≠ x ∧ e ∉ (L ++ P).*1)) as [Hcut Hh].
  { rewrite A1. destruct Hsp as [(-> & [ve Hve] & He)|[-> Hn]].
    - split; [done|]. intros _. exists ve. split; [done|]. rewrite !fmap_app, !elem_of_app in *. cbn in He. rewrite elem_of_cons in He. tauto.
    - assert (hole lo hi g = false) as Hf by (apply (Hn x g), elem_of_app; right; left). split; [by apply cut_spare|by rewrite Hf]. }
  destruct (laid_tally _ Hl) as [B1 B2]. pose proof (ta_count _ _ Hta) as Hc.
  assert (map_count s1 = map_count s - 1) as N1'.
  { rewrite N1. rewrite !length_app in *. cbn [length] in *. apply s32_small. lia. }
  destruct (unmap_fixup_run s1 L P T x nx g lo hi e C1 Hx) as (s2 & s3 & T3 & Hrun & Hac & Hfx).
  { rewrite !fmap_app in *. cbn in Hs. apply nodup_parts in Hs as (_ & Hs & _). rewrite !elem_of_app in *. tauto. }
  { done. } { by rewrite Hcut. } { rewrite !length_app in *. cbn [length] in *. lia. } { done. } { done. } { lia. } { lia. } { done. }
  erewrite es_bind by exact Hrun.
  destruct (emit_if (negb (file =? 0)) (EvWriteCount file 1) s3 I) as (s4 & E4 & M4). erewrite es_bind by exact E4.
  exists (if hole lo hi g then 0 else e), s4, T3. split; [done|]. destruct Hfx as [F1 F2 F3 F4 F5]. rewrite Hcut in F1, F4. split_and!.
  - apply (release_next s M x g P e T); [exact Hr|by eapply vm_core_calm| | |].
    + rewrite (app_assoc L M) in Hl |- *. by apply laid_cut.
    + intros y Hy. by rewrite (cm_areas _ _ M4), (F2 y Hy), (ac_areas _ _ _ _ Hac), A1.
    + rewrite (app_assoc L M) in Hl, Hta |- *. apply (tally_cut s); [done..| | |].
      * rewrite (cm_count _ _ M4), F4, (ac_count _ _ _ _ Hac), N1'. done.
      * by rewrite (sr_total _ _ (cm_rest _ _ M4)), (sr_total _ _ F3), (ac_total _ _ _ _ Hac), (sr_total _ _ R1).
      * by rewrite (sr_locked _ _ (cm_rest _ _ M4)), (sr_locked _ _ F3), (ac_locked _ _ _ _ Hac), (sr_locked _ _ R1).
  - rewrite <-(app_nil_r [zap_event g]). eapply logged_trans; [exact G|]. apply logged_quiet. etrans; [apply quiet_same, Hac|]. etrans; [exact F5|apply M4].
  - etrans; [apply R1|]. etrans; [apply Hac|]. etrans; [apply F3|apply M4].
  - by rewrite (sr_cache _ _ (cm_rest _ _ M4)), (sr_cache _ _ F3), (ac_cache _ _ _ _ Hac), (sr_cache _ _ R1).
Qed.

Lemma release_run M : ∀ s P e T fuel, releasing s M P e T → (length M < fuel)%nat → ∃ e' s' T',
  unmap_loop fuel lo (hi - lo) (hd0 (reverse M).*1) e s = Some (e', s') ∧
  releasing s' [] ((M ≫= cut_area lo hi e0) ++ P) e' T' ∧ logged (zap_event <$> reverse M.*2) s s' ∧ same_fields s s' ∧ mmap_cache s' = mmap_cache s.
Proof.
  induction M as [|[x g] M IH] using rev_ind; intros s P e T fuel Hr Hf; (destruct fuel as [|fuel]; [lia|]).
  - exists e, s, T. by split_and!; [|done|exists []; split; [by rewrite app_nil_r|]|..].
  - rewrite length_app in Hf. cbn in Hf. rewrite reverse_snoc. cbn [fmap list_fmap hd0 hd fst].
    destruct (release_one s M x g P e T fuel Hr) as (e1 & s1 & T1 & E1 & R1 & G1 & F1 & K1).
    destruct (IH s1 _ e1 T1 fuel R1) as (e2 & s2 & T2 & E2 & R2 & G2 & F2 & K2); [lia|]. exists e2, s2, T2. split_and!.
    + by rewrite E1.
    + by rewrite bind_app, <-app_assoc, bind_singleton.
    + rewrite fmap_app, reverse_app. cbn. eapply (logged_trans [_]); [exact G1|exact G2].
    + by etrans.
    + by rewrite K2.
Qed.
End release.

(** * A range *)

Lemma off_page_false z : off_page z = false ↔ aligned z.
Proof.
  unfold off_page, flag, aligned. change (PAGE_SIZE - 1) with (Z.ones 12). rewrite Z.land_ones by done. change (2 ^ 12) with PAGE_SIZE.
  destruct (Z.eqb_spec (z mod PAGE_SIZE) 0); cbn; naive_solver.
Qed.

Lemma page_floor_div z : page_floor z = PAGE_SIZE * (z / PAGE_SIZE).
Proof.
  unfold page_floor. change (PAGE_SIZE - 1) with (Z.ones 12). rewrite <-Z.ldiff_land, Z.ldiff_ones_r by done. rewrite Z.shiftl_mul_pow2, Z.shiftr_div_pow2 by done.
  change (2 ^ 12) with PAGE_SIZE. lia.
Qed.

Lemma page_align_spec len : 0 <= len <= TASK_SIZE → aligned (PAGE_ALIGN len) ∧ len <= PAGE_ALIGN len < len + PAGE_SIZE.
Proof.
  intros Hl. unfold PAGE_ALIGN. rewrite page_floor_div. unfold aligned, TASK_SIZE, PAGE_SIZE in *. rewrite u32_small by lia. split; Z.div_mod_to_equations; lia.
Qed.

Lemma page_align_id len : aligned len → 0 <= len <= TASK_SIZE → PAGE_ALIGN len = len.
Proof. intros Al Hl. destruct (page_align_spec len Hl) as [A B]. unfold aligned, PAGE_SIZE in *. Z.div_mod_to_equations. lia. Qed.

(** Where a range of an address space starts and ends among the areas. *)
Lemma starts_split hi p q E : laid p q E → ∃ M R, E = M ++ R ∧ (∀ x g, (x, g) ∈ M → vm_start g < hi) ∧ (∀ x g, (x, g) ∈ R → hi <= vm_start g).
Proof.
  revert p. induction E as [|[x g] E IH]; intros p Hl.
  - exists [], []. split_and!; [done|..]; intros x g Hx; by apply elem_of_nil in Hx.
  - destruct (decide (vm_start g < hi)) as [Hs|Hs].
    + destruct Hl as (_ & _ & _ & _ & Hl). destruct (IH _ Hl) as (M & R & -> & HM & HR). exists ((x, g) :: M), R. split_and!; [done| |done].
      intros y h [[= -> ->]|Hy]%elem_of_cons; [done|by apply (HM y)].
    + exists [], ((x, g) :: E). split_and!; [done|intros y h Hy; by apply elem_of_nil in Hy|]. destruct Hl as (_ & ? & _ & _ & Hl).
      intros y h [[= -> ->]|Hy]%elem_of_cons; [lia|]. destruct (laid_elem _ _ _ _ _ Hl Hy). lia.
Qed.

(** The areas that a range overlaps. *)
#[export] Instance overlaps_dec lo hi g : Decision (overlaps lo hi g).
Proof. unfold overlaps. apply _. Defined.
Definition overlapping (lo hi : Z) (D : vdata) : vdata := filter (λ xg, overlaps lo hi xg.2) D.

Lemma overlapping_mid lo hi L M R : ends_below lo L → (∀ x g, (x, g) ∈ M → overlaps lo hi g) → (∀ x g, (x, g) ∈ R → hi <= vm_start g) →
  overlapping lo hi (L ++ M ++ R) = M.
Proof.
  intros HL HM HR. unfold overlapping. rewrite !filter_app, (filter_none _ L), (filter_all _ M), (filter_none _ R); [by rewrite app_nil_r|..].
  - intros [x g] Hx [_ Ho]. cbn in Ho. specialize (HR x g Hx). lia.
  - intros [x g] Hx. exact (HM x g Hx).
  - intros [x g] Hx [Ho _]. cbn in Ho. specialize (HL x g Hx). lia.
Qed.

(** * do_munmap *)

(** An address space in order, with its cache and its counts. *)
Record vm_space (s : mm) (D : vdata) : Prop := {
  vs_core : ∃ T, vm_core s D T;
  vs_cached : cached s D;
  vs_tally : tally s D
}.

Section munmap.
Context `{VmEnv} (L M R : vdata) (lo hi e : Z).
Context (Al : aligned lo) (Ah : aligned hi) (Hlo : 0 <= lo < hi) (Hhi : hi <= TASK_SIZE).
Context (HL : ends_below lo L) (HM : ∀ x g, (x, g) ∈ M → overlaps lo hi g) (HR : ∀ x g, (x, g) ∈ R → hi <= vm_start g).

Lemma cut_outside D : (∀ x g, (x, g) ∈ D → overlaps lo hi g) → ∀ x g, (x, g) ∈ D ≫= cut_area lo hi e → vm_end g <= lo ∨ hi <= vm_start g.
Proof using.
  intros HD x g ([y h] & Hx & Hy)%list_elem_of_bind. cbn in Hx. apply elem_of_app in Hx as [Hx|Hx].
  - destruct (vm_start h <? lo); [|by apply elem_of_nil in Hx]. apply list_elem_of_singleton in Hx as [= -> ->]. by left.
  - destruct (hi <? vm_end h); [|by apply elem_of_nil in Hx]. right. destruct (vm_start h <? lo); by apply list_elem_of_singleton in Hx as [= -> ->].
Qed.

Definition commit (fuel : nat) : VM Z :=
  free ← detach_loop fuel (last0 L.*1) (hd0 (M ++ R).*1) 0 hi;
  setm (set_mmap_cache 0);;
  extra ← unmap_loop fuel lo (hi - lo) free e;
  (if negb (extra =? 0) then free_area extra else mret tt);;
  free_pgtables (last0 L.*1) lo hi;;
  mret 0.

(** The spare area goes unless it has been used. *)
Lemma spare_run s P e' T : releasing L lo hi e s [] P e' T → ∃ s', (if negb (e' =? 0) then free_area e' else mret tt) s = Some (tt, s') ∧
  vm_core s' (L ++ P) T ∧ tally s' (L ++ P) ∧ logged [] s s' ∧ same_fields s s' ∧ mmap_cache s' = mmap_cache s.
Proof using.
  intros [C _ _ _ _ Hsp Hta]. cbn [app] in *. assert (logged [] s s) as Hlog by by exists []; rewrite app_nil_r.
  destruct (Z.eqb_spec e' 0) as [->|He]; [by exists s|]. destruct Hsp as [(-> & _ & Hni)|[? _]]; [|done]. eexists. split; [done|].
  split_and!; [by apply vm_core_free|by destruct Hta; split|exact Hlog|by split|done].
Qed.

Lemma commit_run s T fuel : vm_core s (L ++ M ++ R) T → tally s (L ++ M ++ R) → is_Some (mm_areas s !! e) → e ∉ (L ++ M ++ R).*1 →
  (length M < fuel)%nat → ∃ s' es, commit fuel s = Some (0, s') ∧ vm_space s' (L ++ (M ≫= cut_area lo hi e) ++ R) ∧
    logged ((zap_event lo hi <$> reverse M.*2) ++ es) s s' ∧ tables_event (L ++ (M ≫= cut_area lo hi e) ++ R) es ∧ same_fields s s' ∧ mmap_cache s' = 0.
Proof.
  intros C Hta He Hni Hf. unfold commit.
  destruct (detach_run L R hi M [] s T fuel C) as (s1 & T1 & E1 & [C1 H1 O1 R1 N1 G1]); [done| |by intros x g Hx; destruct (HM x g Hx)|done|done|].
  { intros y Hy. by apply elem_of_nil in Hy. }
  cbn in E1. rewrite app_nil_r in E1, H1. erewrite es_bind by exact E1. erewrite es_bind by done. set (s2 := set_mmap_cache 0 s1).
  assert (releasing L lo hi e s2 M R e T1) as Hr.
  { split; [by apply (vm_core_same s1)|exact (vc_laid _ _ _ C)|exact H1|exact (vc_nodup _ _ _ C)|done| |].
    - left. split_and!; [done| |done]. cbn. by rewrite (ot_live _ _ _ O1).
    - destruct Hta. split; cbn; rewrite ?N1, ?(sr_total _ _ R1), ?(sr_locked _ _ R1); done. }
  destruct (release_run L lo hi e Al Ah Hlo ltac:(unfold TASK_SIZE in *; lia) M s2 R e T1 fuel Hr Hf) as (e' & s3 & T3 & E3 & R3 & G3 & F3 & K3).
  erewrite es_bind by exact E3. destruct (spare_run s3 _ e' T3 R3) as (s4 & E4 & C4 & T4 & G4 & F4 & K4). erewrite es_bind by exact E4.
  destruct (free_pgtables_run s4 _ T3 C4 lo hi) with (L := L) (P := (M ≫= cut_area lo hi e) ++ R) as (es & E5 & Hes); [|done|done|done|done|].
  { intros x g. rewrite !elem_of_app. intros [Hx|[Hx|Hx]]; [left; by apply (HL x)|by eapply cut_outside|right; by apply (HR x)]. }
  erewrite es_bind by exact E5. eexists _, es. split; [done|]. split_and!; [| |done| |cbn; by rewrite K4, K3].
  - split; [exists T3; by apply (vm_core_same s4)| |by destruct T4; split]. left. cbn. by rewrite K4, K3.
  - eapply (logged_trans _ es s s4); [|exists es; split; [done|by destruct Hes as [->|(? & ? & -> & _)]]].
    rewrite <-(app_nil_r (zap_event lo hi <$> _)). eapply logged_trans; [|exact G4]. eapply (logged_trans [] _ s s2); [|exact G3].
    exists []. by rewrite app_nil_r.
  - etrans; [apply R1|]. transitivity s2; [by split|]. etrans; [exact F3|]. etrans; [exact F4|]. by split.
Qed.
End munmap.

(** What the allocator gives is in no list. *)
Record spare (s s1 : mm) (D : vdata) (T : tree) (e : Z) (v : vm_area) : Prop := {
  sp_null : e ≠ 0;
  sp_new : e ∉ D.*1;
  sp_area : mm_areas s1 !! e = Some v;
  sp_core : vm_core s1 D T;
  sp_rest : same_rest s s1;
  sp_count : map_count s1 = map_count s;
  sp_log : mm_log s1 = mm_log s
}.

Lemma alloc_run `{VmEnv} s D T : vm_core s D T →
  (vm_alloc s = None ∧ kmem_cache_alloc s = Some (0, s)) ∨
  ∃ e v n s1, vm_alloc s = Some (e, v, n) ∧ kmem_cache_alloc s = Some (e, s1) ∧ spare s s1 D T e v.
Proof.
  intros C. unfold kmem_cache_alloc. destruct (vm_alloc s) as [[[e v] n]|] eqn:Hal; [right|by left].
  destruct (vm_alloc_fresh _ _ _ _ Hal) as (He0 & Hea & Hen). exists e, v, n. eexists. split; [done|]. split; [done|].
  assert (e ∉ D.*1) as Hni.
  { intros ([y g] & -> & Hy)%list_elem_of_fmap. destruct (vc_area s D T C y g Hy) as [nx Hx]. cbn in Hea. by rewrite Hx in Hea. }
  split; cbn; [done|done|by rewrite lookup_insert_eq| |by split; [split|..]|done|done].
  apply (vm_core_agree s); cbn; [done|..|done|done].
  - intros y Hy. apply lookup_insert_ne. by intros ->.
  - intros y Hy. apply lookup_insert_ne. by intros ->.
  - intros p. rewrite !lookup_insert_is_Some'. by rewrite (vc_nodes _ _ _ C).
  - rewrite lookup_insert_ne by done. exact (vc_null _ _ _ C).
Qed.

Section do_munmap.
Context `{VmEnv} (s : mm) (D : vdata) (V : vm_space s D) (addr len : Z).

(** Why the call fails, or 0. *)
Definition munmap_error : Z :=
  if off_page addr || (addr >? TASK_SIZE) || (len >? TASK_SIZE - addr) || (len =? 0) then EINVAL
  else match overlapping addr (addr + PAGE_ALIGN len) D with
       | [] => 0
       | (_, g) :: _ =>
           if hole addr (addr + PAGE_ALIGN len) g && (map_count s >=? max_map_count) then ENOMEM
           else match vm_alloc s with None => ENOMEM | Some _ => 0 end
       end.

(** What is left of [h]. *)
Definition piece_of (h g : vm_area) : Prop :=
  vm_start h <= vm_start g ∧ vm_end g <= vm_end h ∧ vm_flags g = vm_flags h ∧ vm_page_prot g = vm_page_prot h ∧ vm_ops g = vm_ops h ∧
  vm_file g = vm_file h ∧ vm_private_data g = vm_private_data h.

Lemma piece_refl g : piece_of g g.
Proof using. unfold piece_of. split_and!; (done || lia). Qed.

(** The range is not mapped any more, everything else is as it was. *)
Record unmapped (s' : mm) (D' : vdata) : Prop := {
  um_space : vm_space s' D';
  um_pages a : at_page D' a = if in_range addr (addr + PAGE_ALIGN len) a then None else at_page D a;
  um_pieces x g : (x, g) ∈ D' → ∃ y h, (y, h) ∈ D ∧ piece_of h g;
  um_fields : same_fields s s';
  um_log : ∃ es, tables_event D' es ∧
    logged ((zap_event addr (addr + PAGE_ALIGN len) <$> reverse (overlapping addr (addr + PAGE_ALIGN len) D).*2) ++ es) s s'
}.

Definition munmapped (out : option (Z * mm)) : Prop :=
  ∃ s', out = Some (- munmap_error, s') ∧ (munmap_error ≠ 0 → s' = s) ∧ (munmap_error = 0 → ∃ D', unmapped s' D').

Lemma unmapped_same : overlapping addr (addr + PAGE_ALIGN len) D = [] → unmapped s D.
Proof.
  intros Hno. split; [done| |intros x g Hx; exists x, g; split; [done|apply piece_refl]|done|].
  - intros a. destruct (in_range_spec addr (addr + PAGE_ALIGN len) a); [|done]. apply at_page_none. intros x g Hx.
    destruct (in_range_spec (vm_start g) (vm_end g) a); [|done]. exfalso. pose proof (filter_nil_not_elem_of _ _ (x, g) Hno) as Hn. apply Hn; [|done].
    split; cbn; lia.
  - exists []. split; [by left|]. rewrite Hno. exists []. by rewrite app_nil_r.
Qed.

(** The range lies below [TASK_SIZE]. *)
Lemma range_end : aligned addr → 0 <= addr → 0 < len → len <= TASK_SIZE - addr →
  aligned (addr + PAGE_ALIGN len) ∧ addr < addr + PAGE_ALIGN len <= TASK_SIZE.
Proof using.
  intros A Ha Hl Ht. destruct (page_align_spec len) as [Al [H1 H2]]; [lia|]. unfold aligned, PAGE_SIZE, TASK_SIZE in *. split; Z.div_mod_to_equations; lia.
Qed.

Lemma cut_pieces L M R lo hi e y h : (∀ x g, (x, g) ∈ M → overlaps lo hi g) → (y, h) ∈ L ++ (M ≫= cut_area lo hi e) ++ R →
  ∃ x g, (x, g) ∈ L ++ M ++ R ∧ piece_of g h.
Proof using.
  intros HM. rewrite !elem_of_app. intros [Hy|[([x g] & Hy & Hx)%list_elem_of_bind|Hy]]; [exists y, h; rewrite !elem_of_app; split; [auto|apply piece_refl]| |exists y, h; rewrite !elem_of_app; split; [auto|apply piece_refl]].
  exists x, g. rewrite !elem_of_app. split; [auto|]. destruct (HM x g Hx). revert Hy. cbn.
  destruct (Z.ltb_spec (vm_start g) lo), (Z.ltb_spec hi (vm_end g)); cbn; rewrite ?elem_of_cons, ?elem_of_nil; intros Hy;
    repeat (destruct Hy as [Hy|Hy]; [injection Hy as -> ->; unfold piece_of; cbn; split_and!; (done || lia)|]); done.
Qed.

(** When an area is in the way. *)
Lemma munmap_way L x g M R : D = L ++ ((x, g) :: M) ++ R → ends_below addr L → (∀ y h, (y, h) ∈ (x, g) :: M → overlaps addr (addr + PAGE_ALIGN len) h) →
  (∀ y h, (y, h) ∈ R → addr + PAGE_ALIGN len <= vm_start h) → aligned addr → 0 <= addr → 0 < len → len <= TASK_SIZE - addr →
  munmapped ((count ← getm map_count;
    if (vm_start g <? addr) && (vm_end g >? addr + PAGE_ALIGN len) && (count >=? max_map_count) then mret (- ENOMEM)
    else
      extra ← kmem_cache_alloc;
      if extra =? 0 then mret (- ENOMEM)
      else
        fuel ← vm_fuel;
        free ← detach_loop fuel (last0 L.*1) x 0 (addr + PAGE_ALIGN len);
        setm (set_mmap_cache 0);;
        extra ← unmap_loop fuel addr (PAGE_ALIGN len) free extra;
        (if negb (extra =? 0) then free_area extra else mret tt);;
        free_pgtables (last0 L.*1) addr (addr + PAGE_ALIGN len);;
        mret 0) s).
Proof.
  intros HD HL HM HR A Ha Hl Ht. destruct (range_end A Ha Hl Ht) as [Ah Hhi]. set (hi := addr + PAGE_ALIGN len) in *.
  assert (munmap_error = if hole addr hi g && (map_count s >=? max_map_count) then ENOMEM else match vm_alloc s with None => ENOMEM | Some _ => 0 end) as Herr.
  { unfold munmap_error. fold hi. rewrite (proj2 (off_page_false addr) A). destruct (Z.gtb_spec addr TASK_SIZE); [lia|].
    destruct (Z.gtb_spec len (TASK_SIZE - addr)); [lia|]. destruct (Z.eqb_spec len 0); [lia|]. cbn [orb]. rewrite HD, overlapping_mid by done. done. }
  unfold munmapped. rewrite Herr. erewrite es_bind by done. unfold hole. rewrite Z.gtb_ltb.
  destruct (_ && _ && _); [by exists s|]. destruct V as [[T C] _ Hta].
  destruct (alloc_run s D T C) as [[-> Hrun]|(e & v & n & s1 & -> & Hrun & [S1 S2 S3 S4 S5 S6 S7])]; erewrite es_bind by exact Hrun; [by exists s|].
  destruct (Z.eqb_spec e 0); [done|]. erewrite es_bind by done. rewrite HD in S2, S4, Hta.
  destruct (commit_run L ((x, g) :: M) R addr hi e A Ah ltac:(lia) ltac:(lia) HL HM HR s1 T (S (base.size (mm_areas s1))) S4) as (s2 & es & E2 & V2 & G2 & T2 & F2 & K2).
  { by destruct Hta; split; rewrite ?S6, ?(sr_total _ _ S5), ?(sr_locked _ _ S5). }
  { by eexists. }
  { done. }
  { pose proof (vc_length _ _ _ S4) as Hlen. rewrite !length_app in Hlen. lia. }
  exists s2. split_and!; [by replace (PAGE_ALIGN len) with (hi - addr) by lia|done|].
  intros _. eexists. split; [exact V2| | |by etrans; [apply S5|]|].
  - intros a. rewrite HD. apply cut_at_page; try done; [lia|unfold TASK_SIZE in *; lia|].
    intros y h Hy. destruct (laid_elem 0 (2 ^ 32 - 1) (L ++ ((x, g) :: M) ++ R) y h (vc_laid _ _ _ S4)) as (? & ? & ? & ? & ?); [rewrite !elem_of_app; auto|].
    split; [by split|]. split; [by apply (HM y)|lia].
  - intros y h Hy. rewrite HD. by eapply cut_pieces.
  - exists es. split; [done|]. rewrite HD, overlapping_mid by done. destruct G2 as (l & Hl2 & Hl3). exists l. by rewrite Hl2, S7.
Qed.

(** The search finds the first area in the way, if there is one. *)
Lemma do_munmap_run : 0 <= addr < 2 ^ 32 → 0 <= len < 2 ^ 32 → munmapped (do_munmap addr len s).
Proof.
  intros Ha Hl. assert (munmap_error = EINVAL → munmapped (Some (- EINVAL, s))) as Hbad by (intros He; exists s; by rewrite He).
  assert (munmap_error = 0 → overlapping addr (addr + PAGE_ALIGN len) D = [] → munmapped (Some (0, s))) as Hnone.
  { intros He Ho. exists s. rewrite He. split_and!; [done|done|]. intros _. exists D. by apply unmapped_same. }
  revert Hbad Hnone. unfold munmap_error at 1 2, do_munmap. cbv zeta. destruct (off_page addr) eqn:Hoff; [by intros Hbad _; apply Hbad|]. apply off_page_false in Hoff.
  destruct (Z.gtb_spec addr TASK_SIZE); [by intros Hbad _; apply Hbad|]. destruct (Z.gtb_spec len (TASK_SIZE - addr)); [by intros Hbad _; apply Hbad|]. cbn [orb].
  destruct (Z.eqb_spec len 0) as [->|Hlen0]; [by intros Hbad _; apply Hbad|]. intros _ Hnone. destruct (range_end Hoff ltac:(lia) ltac:(lia) ltac:(lia)) as [Ah Hhi].
  destruct (Z.eqb_spec (PAGE_ALIGN len) 0); [lia|]. rewrite (u32_small (addr + PAGE_ALIGN len)) by (unfold TASK_SIZE in *; lia).
  destruct V as [[T C] _ _].
  assert (∀ L R, D = L ++ R → ends_below addr L → (∀ y h, (y, h) ∈ R → addr + PAGE_ALIGN len <= vm_start h) → munmapped (Some (0, s))) as Hnone'.
  { intros L R HD HL HR. assert (overlapping addr (addr + PAGE_ALIGN len) D = []) as Ho.
    { rewrite HD. apply (overlapping_mid _ _ L [] R); [done| |done]. intros y h Hy. by apply elem_of_nil in Hy. }
    apply Hnone; [by rewrite Ho|done]. }
  destruct (find_vma_prev_run s D T C addr) as [[HL Hrun]|(L & x & g & D2 & HD & HL & Hg & Hrun)]; rewrite (es_bind _ _ _ _ _ Hrun); cbv beta iota.
  { apply (Hnone' D []); [by rewrite app_nil_r|done|]. intros y h Hy. by apply elem_of_nil in Hy. }
  pose proof (vc_laid _ _ _ C) as Hlaid. rewrite HD in Hlaid. pose proof (laid_mid _ _ _ _ _ _ Hlaid) as (_ & L2 & ? & _).
  assert ((x, g) ∈ D) as Hx by (rewrite HD; apply elem_of_app; right; left). pose proof (vc_nonzero s D T C x g Hx). destruct (Z.eqb_spec x 0); [done|].
  destruct (ga_run s D T C x g Hx) as [nx Hga]. erewrite es_bind by exact Hga. cbn [set_vm_next vm_start vm_end].
  apply laid_app in Hlaid as (m & _ & Hlaid). destruct (starts_split (addr + PAGE_ALIGN len) _ _ _ Hlaid) as (M & R & HE & HM & HR).
  destruct M as [|[y h] M]; [cbn in HE; subst R|injection HE as <- <- HE]; destruct (Z.geb_spec (vm_start g) (addr + PAGE_ALIGN len)) as [Hge|Hge].
  - by apply (Hnone' L ((x, g) :: D2)).
  - specialize (HR x g ltac:(left)). lia.
  - specialize (HM x g ltac:(left)). lia.
  - apply (munmap_way L x g M R); [by rewrite HD, HE|done| |done..|lia|lia|lia].
    intros y h Hy. split; [|by apply (HM y)]. apply elem_of_cons in Hy as [[= -> ->]|Hy]; [done|].
    assert ((y, h) ∈ D2) as Hy2 by (rewrite HE; apply elem_of_app; by left). destruct (laid_elem _ _ _ _ _ L2 Hy2). lia.
Qed.
End do_munmap.
