(* ===== verification/VmaMerge.v ===== *)
(** Growing an area instead of making a new one (mm/mmap.c). *)
From S2P Require Import Prelude RbTree RbShape RbInsert RbErase Vma VmaCalls VmaShape VmaLink VmaUnmap VmaCount VmaMunmap.
From stdpp Require Import list options.
#[local] Set Default Proof Using "Type*".
Open Scope cint_scope.
Open Scope Z_scope.

(** * An area with new bounds *)

Section resize.
Context (s : mm) (D1 D2 : vdata) (x : Z) (g g' : vm_area) (T : tree) (C : vm_core s (D1 ++ (x, g) :: D2) T).

(** The list with the area replaced, and what follows it. *)
Lemma vseg_replace E : vseg (mm_areas s) (hd0 E.*1) E 0 → x ∉ E.*1 →
  vseg (<[x := set_vm_next (hd0 E.*1) g']> (mm_areas s)) (mm_mmap s) (D1 ++ (x, g') :: E) 0.
Proof using C.
  intros HE Hx. pose proof (vc_list _ _ _ C) as (m & Hl1 & -> & _)%vseg_app. destruct (unlinked_nodup _ _ _ _ _ _ C) as [_ Hni].
  rewrite fmap_app in Hni. apply vseg_app. exists x. split.
  - eapply vseg_agree; [|exact Hl1]. intros y Hy. apply lookup_insert_ne. intros ->. set_solver.
  - split; [done|]. exists (hd0 E.*1). split; [by rewrite lookup_insert_eq|]. eapply vseg_agree; [|exact HE].
    intros y Hy. apply lookup_insert_ne. by intros ->.
Qed.

Lemma tail_list : vseg (mm_areas s) (hd0 D2.*1) D2 0 ∧ x ∉ D2.*1 ∧ mm_areas s !! x = Some (set_vm_next (hd0 D2.*1) g).
Proof.
  pose proof (vc_list _ _ _ C) as (m & _ & -> & nx & Hx & Hl)%vseg_app. destruct (unlinked_nodup _ _ _ _ _ _ C) as [_ Hni].
  rewrite fmap_app in Hni. pose proof (vseg_head _ _ _ Hl) as ->. set_solver.
Qed.

Lemma resize_core : laid 0 (2 ^ 32 - 1) (D1 ++ (x, g') :: D2) →
  vm_core (set_mm_areas (<[x := set_vm_next (hd0 D2.*1) g']> (mm_areas s)) s) (D1 ++ (x, g') :: D2) T.
Proof.
  intros Hl. destruct tail_list as (H2 & Hni & Hx). split; cbn; [by apply vseg_replace|done|apply C|apply C| | |].
  - rewrite (vc_order _ _ _ C), !fmap_app. done.
  - intros p. rewrite live_insert by by eexists. apply (vc_nodes _ _ _ C).
  - rewrite lookup_insert_ne; [apply (vc_null _ _ _ C)|]. intros ->. by rewrite (vc_null _ _ _ C) in Hx.
Qed.
End resize.

(** * Anonymous pages *)

Section grow.
Context `{VmEnv} (addr end_ flags : Z).

(** What a new anonymous page is mapped to. *)
Definition anon_mapping : mapping := mk_mapping flags (protection_map (Z.land flags 0x0f)) 0 0 None.

(** What is in no file has no operations, and its protection is that of its
    flags. *)
Definition plain_area (g : vm_area) : Prop :=
  vm_file g = 0 → vm_ops g = 0 ∧ vm_private_data g = 0 ∧ vm_page_prot g = protection_map (Z.land (vm_flags g) 0x0f).
Definition plain (D : vdata) : Prop := ∀ x g, (x, g) ∈ D → plain_area g.

(** [D'] has [addr, end_) mapped to anonymous pages, and is [D] elsewhere. *)
Record grown (D D' : vdata) : Prop := {
  gr_pages a : at_page D' a = if in_range addr end_ a then Some anon_mapping else at_page D a;
  gr_total : sum_of page_count D' = sum_of page_count D + pages (end_ - addr);
  gr_locked : sum_of locked_count D' = sum_of locked_count D + (if flags & VM_LOCKED then pages (end_ - addr) else 0);
  gr_plain : plain D → plain D'
}.

Lemma plain_app D1 D2 : plain (D1 ++ D2) ↔ plain D1 ∧ plain D2.
Proof. unfold plain. setoid_rewrite elem_of_app. naive_solver. Qed.

Lemma plain_one x g : plain [(x, g)] ↔ plain_area g.
Proof.
  unfold plain. split; [intros Hp; apply (Hp x); left|]. intros Hg y h [= -> ->]%list_elem_of_singleton. done.
Qed.

Lemma grown_mid E1 M M' E2 : (∀ x g, (x, g) ∈ E1 → vm_end g <= addr) → grown M M' → grown (E1 ++ M ++ E2) (E1 ++ M' ++ E2).
Proof.
  intros H1 [G1 G2 G3 G4]. split.
  - intros a. rewrite !at_page_app, G1. destruct (in_range_spec addr end_ a); [|done]. rewrite at_page_none; [done|].
    intros x g Hx. specialize (H1 x g Hx). destruct (in_range_spec (vm_start g) (vm_end g) a); [lia|done].
  - rewrite !sum_of_app, G2. lia.
  - rewrite !sum_of_app, G3. lia.
  - rewrite !plain_app. naive_solver.
Qed.

(** One area that grows at either end, or that joins two others. *)
Lemma can_merge_anon g a : plain_area g → can_vma_merge g flags = true → page_mapping g a = anon_mapping.
Proof.
  unfold can_vma_merge. intros Hp [Hf%Z.eqb_eq Hfl%Z.eqb_eq]%andb_true_iff. destruct (Hp Hf) as (Ho & Hpr & Hprot).
  unfold page_mapping, anon_mapping. by rewrite Hf, Ho, Hpr, Hprot, Hfl.
Qed.

Lemma can_merge_locked g : can_vma_merge g flags = true → (vm_flags g & VM_LOCKED) = (flags & VM_LOCKED).
Proof. unfold can_vma_merge. by intros [_ ->%Z.eqb_eq]%andb_true_iff. Qed.

(** [g'] is [g] with other bounds. *)
Definition rebound (b e : Z) (g : vm_area) : vm_area := set_vm_end e (set_vm_start b g).

Context (Ha : aligned addr) (He : aligned end_) (Hae : addr < end_).

Lemma grown_left x g : plain_area g → can_vma_merge g flags = true → proper g → vm_end g = addr →
  grown [(x, g)] [(x, set_vm_end end_ g)].
Proof.
  intros Hp Hm (P1 & P2 & P3) Heq. pose proof (pages_split (vm_start g) addr end_ P2 Ha) as Hs. split.
  - intros a. cbn [at_page vm_start vm_end set_vm_end]. change (page_mapping (set_vm_end end_ g) a) with (page_mapping g a).
    rewrite (can_merge_anon g a) by done. destruct (in_range_spec (vm_start g) end_ a), (in_range_spec addr end_ a), (in_range_spec (vm_start g) (vm_end g) a); (done || lia).
  - cbn. unfold page_count. cbn. rewrite ?Heq. lia.
  - cbn. unfold locked_count, page_count. cbn. rewrite ?Heq, (can_merge_locked g Hm). destruct (flags & VM_LOCKED); lia.
  - intros _. by apply plain_one.
Qed.

Lemma grown_right x g : plain_area g → can_vma_merge g flags = true → proper g → vm_start g = end_ →
  grown [(x, g)] [(x, set_vm_start addr g)].
Proof.
  intros Hp Hm (P1 & P2 & P3) Heq. pose proof (pages_split addr end_ (vm_end g) Ha He) as Hs. split.
  - intros a. cbn [at_page vm_start vm_end set_vm_start].
    assert (page_mapping (set_vm_start addr g) a = anon_mapping) as -> by (apply can_merge_anon; [exact Hp|exact Hm]).
    rewrite (can_merge_anon g a) by done. destruct (in_range_spec addr (vm_end g) a), (in_range_spec addr end_ a), (in_range_spec (vm_start g) (vm_end g) a); (done || lia).
  - cbn. unfold page_count. cbn. rewrite ?Heq. lia.
  - cbn. unfold locked_count, page_count. cbn. rewrite ?Heq, (can_merge_locked g Hm). destruct (flags & VM_LOCKED); lia.
  - intros _. by apply plain_one.
Qed.

Lemma grown_join x g y h : plain_area g → plain_area h → can_vma_merge g flags = true → can_vma_merge h flags = true → proper g → proper h →
  vm_end g = addr → vm_start h = end_ → grown [(x, g); (y, h)] [(x, set_vm_end (vm_end h) g)].
Proof.
  intros Hp Hq Hm Hn (P1 & P2 & P3) (Q1 & Q2 & Q3) Heq Heq'.
  pose proof (pages_split (vm_start g) addr (vm_end h) P2 Ha) as Hs. pose proof (pages_split addr end_ (vm_end h) Ha He) as Ht. split.
  - intros a. cbn [at_page vm_start vm_end set_vm_end]. change (page_mapping (set_vm_end (vm_end h) g) a) with (page_mapping g a).
    rewrite (can_merge_anon g a), (can_merge_anon h a) by done.
    destruct (in_range_spec (vm_start g) (vm_end h) a), (in_range_spec addr end_ a), (in_range_spec (vm_start g) (vm_end g) a), (in_range_spec (vm_start h) (vm_end h) a); (done || lia).
  - cbn. unfold page_count. cbn. rewrite ?Heq, ?Heq'. lia.
  - cbn. unfold locked_count, page_count. cbn. rewrite ?Heq, ?Heq', (can_merge_locked g Hm), (can_merge_locked h Hn). destruct (flags & VM_LOCKED); lia.
  - intros _. by apply plain_one.
Qed.

Lemma grown_new x g : vm_start g = addr → vm_end g = end_ → vm_flags g = flags → (∀ a, page_mapping g a = anon_mapping) → plain_area g →
  grown [] [(x, g)].
Proof.
  intros H1 H2 H3 Hm Hp. split.
  - intros a. cbn [at_page]. by rewrite H1, H2, Hm.
  - cbn. unfold page_count. rewrite H1, H2. lia.
  - cbn. unfold locked_count, page_count. rewrite H1, H2, H3. destruct (flags & VM_LOCKED); lia.
  - intros _. by apply plain_one.
Qed.
End grow.

(** * vma_merge *)

Lemma laid_upto lo hi m D : laid lo hi D → ends_below m D → lo <= m → laid lo m D.
Proof.
  revert lo. induction D as [|[x g] D IH]; intros lo; [done|]. intros (? & ? & ? & ? & Hl) He _. split_and!; [done..|]. apply IH; [done| |].
  - intros y h Hy. apply (He y h). by right.
  - apply (He x g). left.
Qed.

Lemma laid_from lo hi m D : laid lo hi D → (∀ x g, (x, g) ∈ D → m <= vm_start g) → m <= hi → laid m hi D.
Proof.
  destruct D as [|[x g] D]; [done|]. intros (? & ? & ? & ? & Hl) Hs _. split_and!; [|done..]. apply (Hs x g). left.
Qed.

(** * An area goes to the one before it *)

(** The list is another, everything else that counts is as it was. *)
Record altered (s s' : mm) (D' : vdata) : Prop := {
  al_core : ∃ T, vm_core s' D' T;
  al_cached : cached s' D';
  al_count : map_count s' = Z.of_nat (length D');
  al_fields : same_fields s s';
  al_total : total_vm s' = total_vm s;
  al_locked : locked_vm s' = locked_vm s
}.

Section joined.
Context `{VmEnv} (s : mm) (E F : vdata) (p n : Z) (gp gn gp' : vm_area) (T : tree).
Context (C : vm_core s (E ++ (p, gp) :: (n, gn) :: F) T) (Hl : laid 0 (2 ^ 32 - 1) (E ++ (p, gp') :: F)).

Lemma joined_names : p ≠ n ∧ p ∉ F.*1 ∧ n ∉ (E ++ (p, gp') :: F).*1.
Proof using C.
  clear Hl. pose proof (vc_nodup _ _ _ C) as Hnd. rewrite fmap_app in *. cbn in *. apply NoDup_app in Hnd as (_ & N1 & [N2 [N3 _]%list.NoDup_cons]%list.NoDup_cons).
  split_and!; [set_solver..|]. rewrite elem_of_app, elem_of_cons. intros [He'|[->|?]]; [|set_solver..]. apply (N1 n He'). set_solver.
Qed.

(** The tree and the list without [n], which may be the cached area. *)
Lemma unlink_joined : cached s (E ++ (p, gp) :: (n, gn) :: F) → map_count s = Z.of_nat (length (E ++ (p, gp) :: (n, gn) :: F)) →
  let s1 := set_mm_areas (<[p := set_vm_next n gp']> (mm_areas s)) s in
  ∃ s', (∀ B (K : VM B), (__vma_unlink n p;; count_down;; free_area n;; K) s1 = K s') ∧
    (∀ B (K : VM B), (__vma_unlink n p;; free_area n;; count_down;; K) s1 = K s') ∧ altered s s' (E ++ (p, gp') :: F) ∧ mm_log s' = mm_log s.
Proof.
  intros Hk Hc s1. destruct joined_names as (Hpn & Hpi & Hni). destruct (tail_list _ _ _ _ _ _ C) as (_ & _ & Hxp).
  pose proof C as C'. rewrite cons_middle, app_assoc in C'. destruct (tail_list _ _ _ _ _ _ C') as (HF & _ & Hxn).
  set (s2 := set_mm_areas (<[p := set_vm_next (hd0 F.*1) gp']> (mm_areas s)) s).
  destruct (unlink_rb_run s (E ++ [(p, gp)]) F n gn T C' s2 (E ++ (p, gp') :: F)) as (tr & T' & He' & C3).
  { done. } { by apply (vseg_replace s E _ p gp gp' T C). } { by rewrite !fmap_app; cbn; rewrite <-app_assoc. } { done. }
  { intros y. cbn. apply live_insert. by eexists. }
  set (s3 := if mmap_cache s =? n then set_mmap_cache p (set_mm_rb tr s2) else set_mm_rb tr s2).
  assert (__vma_unlink n p s1 = Some (tt, s3)) as Hun.
  { unfold __vma_unlink, s1. erewrite es_bind by (apply ga_live; cbn; by rewrite lookup_insert_ne).
    erewrite es_bind by (apply wa_live; cbn; by rewrite lookup_insert_eq). cbn [set_mm_areas mm_areas]. rewrite insert_insert_eq.
    erewrite es_bind by exact He'. erewrite es_bind by done. unfold s3. cbn. by destruct (mmap_cache s =? n). }
  assert (mm_areas s3 = mm_areas s2 ∧ mm_rb s3 = tr ∧ mm_mmap s3 = mm_mmap s ∧ map_count s3 = map_count s ∧ total_vm s3 = total_vm s ∧
    locked_vm s3 = locked_vm s ∧ mm_log s3 = mm_log s ∧ same_fields s s3) as (A1 & A2 & A3 & A4 & A5 & A6 & A7 & A8).
  { unfold s3. by destruct (mmap_cache s =? n). }
  eexists. split_and!; [intros B K; erewrite es_bind by exact Hun; erewrite es_bind by done; by erewrite es_bind by done
    |intros B K; erewrite es_bind by exact Hun; erewrite es_bind by done; by erewrite es_bind by done| |done].
  split; [| | |by destruct A8; split|done..].
  - exists T'. apply (vm_core_free (set_map_count (s32 (map_count s3 - 1)) s3)); [|done]. by apply (vm_core_same (set_mm_rb tr s2)).
  - assert (mmap_cache s3 = 0 ∨ mmap_cache s3 ∈ (E ++ (p, gp') :: F).*1) as Hc3; [|exact Hc3]. unfold s3. rewrite fmap_app. cbn.
    destruct (Z.eqb_spec (mmap_cache s) n) as [Hcn|Hcn]; cbn; [right; apply elem_of_app; right; left|].
    destruct Hk as [Hk'|Hk']; [by left|right]. rewrite fmap_app in Hk'. cbn in Hk'. rewrite elem_of_app, !elem_of_cons in *. tauto.
  - cbn. rewrite A4, Hc. destruct (laid_tally _ (vc_laid _ _ _ C)) as [B1 _]. rewrite !length_app in *. cbn in *. rewrite s32_small; lia.
Qed.
End joined.

Section merge.
Context `{VmEnv} (s : mm) (D1 D2 : vdata) (T : tree) (addr end_ flags : Z).
Context (C : vm_core s (D1 ++ D2) T) (Hp : plain (D1 ++ D2)) (Hk : cached s (D1 ++ D2)).
Context (Ha : aligned addr) (He : aligned end_) (Hae : 0 <= addr < end_) (Hend : end_ < 2 ^ 32).
Context (H1 : ends_below addr D1) (H2 : ∀ x g, (x, g) ∈ D2 → end_ <= vm_start g).
Context (Hc : map_count s = Z.of_nat (length (D1 ++ D2))).

(** The new range is in an area of [D']. *)
Record merged (s' : mm) (D' : vdata) : Prop := {
  mg_core : ∃ T', vm_core s' D' T';
  mg_grown : grown addr end_ flags (D1 ++ D2) D';
  mg_cached : cached s' D';
  mg_count : map_count s' = Z.of_nat (length D');
  mg_fields : same_fields s s';
  mg_total : total_vm s' = total_vm s;
  mg_locked : locked_vm s' = locked_vm s;
  mg_log : mm_log s' = mm_log s
}.

Definition merge_result (out : option (bool * mm)) : Prop :=
  ∃ b s', out = Some (b, s') ∧ if (b : bool) then ∃ D', merged s' D' else s' = s.

Lemma area_ok x g : (x, g) ∈ D1 ++ D2 → proper g ∧ plain_area g.
Proof.
  intros Hx. destruct (laid_elem _ _ _ _ _ (vc_laid _ _ _ C) Hx) as (_ & ? & _ & ? & ?). split; [by split|by apply (Hp x)].
Qed.

(** Areas before and after the range, in order. *)
Lemma sides_laid : laid 0 addr D1 ∧ laid end_ (2 ^ 32 - 1) D2.
Proof.
  pose proof (vc_laid _ _ _ C) as (m & L1 & L2)%laid_app. split; [eapply laid_upto; [exact L1|done|lia]|]. eapply laid_from; [exact L2|done|lia].
Qed.

(** Growing one area in place. *)
Lemma resized x g g' E1 E2 : D1 ++ D2 = E1 ++ (x, g) :: E2 → laid 0 (2 ^ 32 - 1) (E1 ++ (x, g') :: E2) →
  grown addr end_ flags (D1 ++ D2) (E1 ++ (x, g') :: E2) →
  merged (set_mm_areas (<[x := set_vm_next (hd0 E2.*1) g']> (mm_areas s)) s) (E1 ++ (x, g') :: E2).
Proof.
  intros HD Hl Hg. pose proof C as C'. rewrite HD in C'. split; [exists T; by apply (resize_core s E1 E2 x g)|done| | |by split|done..].
  - assert ((D1 ++ D2).*1 = (E1 ++ (x, g') :: E2).*1) as Hn by by rewrite HD, !fmap_app. unfold cached in *. by rewrite <-Hn.
  - cbn. rewrite Hc, HD, !length_app. done.
Qed.

Lemma merge_next_run n gn E : D2 = (n, gn) :: E → merge_result (merge_next n addr end_ flags s).
Proof.
  intros HD. assert ((n, gn) ∈ D1 ++ D2) as Hn by (rewrite HD; apply elem_of_app; right; left). destruct (area_ok n gn Hn) as [Hpr Hpl].
  pose proof C as C'. rewrite HD in C'. destruct (tail_list _ _ _ _ _ _ C') as (_ & _ & Hx). destruct sides_laid as [L1 L2].
  unfold merge_next. erewrite es_bind by by apply ga_live. cbn [vm_start set_vm_next].
  destruct (can_vma_merge _ flags) eqn:Hm; [|by exists false, s]. cbn [negb]. change (can_vma_merge gn flags = true) in Hm.
  destruct (Z.eqb_spec end_ (vm_start gn)) as [Heq|]; [|by exists false, s]. erewrite es_bind by by apply wa_live.
  eexists true, _. split; [done|]. exists (D1 ++ (n, set_vm_start addr gn) :: E). rewrite HD in L2. destruct L2 as (_ & ? & _ & ? & L2).
  refine (resized n gn (set_vm_start addr gn) D1 E _ _ _); [by rewrite HD| |].
  - apply laid_app. exists addr. split; [done|]. split_and!; cbn; (done || lia).
  - rewrite HD. apply (grown_mid addr end_ flags D1 [(n, gn)] [(n, set_vm_start addr gn)] E); [done|]. apply grown_right; (done || lia).
Qed.

(** The area before grows. *)
Lemma merge_left E p gp : D1 = E ++ [(p, gp)] → vm_end gp = addr → can_vma_merge gp flags = true →
  merged (set_mm_areas (<[p := set_vm_next (hd0 D2.*1) (set_vm_end end_ gp)]> (mm_areas s)) s) (E ++ (p, set_vm_end end_ gp) :: D2).
Proof.
  intros HD Heq Hm. assert (D1 ++ D2 = E ++ (p, gp) :: D2) as HD' by (rewrite HD; by rewrite <-app_assoc).
  assert ((p, gp) ∈ D1 ++ D2) as Hin by (rewrite HD'; apply elem_of_app; right; left). destruct (area_ok p gp Hin) as [Hpr Hpl].
  destruct sides_laid as [L1 L2]. pose proof (vc_laid _ _ _ C) as Hl. rewrite HD' in Hl. apply laid_mid in Hl as (L0 & _ & ? & ? & ?).
  apply (resized p gp); [done| |].
  - apply laid_app. exists (vm_start gp). split; [done|]. split_and!; cbn; (done || lia).
  - rewrite HD'. apply (grown_mid addr end_ flags E [(p, gp)] [(p, set_vm_end end_ gp)] D2); [|apply grown_left; (done || lia)].
    intros y h Hy. apply (H1 y h). rewrite HD. apply elem_of_app. by left.
Qed.

(** It also takes the area that follows. *)
Section join.
Context (E F : vdata) (p n : Z) (gp gn : vm_area) (HD1 : D1 = E ++ [(p, gp)]) (HD2 : D2 = (n, gn) :: F).
Context (Heq : vm_end gp = addr) (Heq' : vm_start gn = end_) (Hm : can_vma_merge gp flags = true) (Hn : can_vma_merge gn flags = true).

Notation gp' := (set_vm_end (vm_end gn) gp).
Notation D' := (E ++ (p, gp') :: F).

Lemma join_split : D1 ++ D2 = (E ++ [(p, gp)]) ++ (n, gn) :: F ∧ p ≠ n.
Proof using C HD1 HD2.
  assert (D1 ++ D2 = E ++ (p, gp) :: (n, gn) :: F) as HD by (rewrite HD1, HD2; by rewrite <-app_assoc). pose proof C as C'. rewrite HD in C'.
  split; [by rewrite HD, <-app_assoc|]. apply (joined_names s E F p n gp gn gp T C').
Qed.

Lemma join_grown : laid 0 (2 ^ 32 - 1) D' ∧ grown addr end_ flags (D1 ++ D2) D'.
Proof.
  destruct join_split as (HD & _). assert ((p, gp) ∈ D1 ++ D2) as Hin by (rewrite HD, !elem_of_app; left; right; left). destruct (area_ok p gp Hin) as [Hpr Hpl].
  assert ((n, gn) ∈ D1 ++ D2) as Hin2 by (rewrite HD; apply elem_of_app; right; left). destruct (area_ok n gn Hin2) as [Hpr2 Hpl2].
  pose proof (vc_laid _ _ _ C) as Hl. rewrite HD in Hl. pose proof (laid_mid _ _ _ _ _ _ Hl) as (L1 & L2 & ? & ? & ?).
  apply laid_mid in L1 as (L1 & _ & ? & ? & ?). split.
  - apply laid_app. exists (vm_start gp). split; [done|]. split_and!; cbn; (done || lia).
  - rewrite HD, <-app_assoc. apply (grown_mid addr end_ flags E [(p, gp); (n, gn)] [(p, gp')] F); [|by apply grown_join; (done || lia)].
    intros y h Hy. apply (H1 y h). rewrite HD1. apply elem_of_app. by left.
Qed.

Lemma merge_join : ∃ s', (∀ B (K : VM B), (__vma_unlink n p;; count_down;; free_area n;; K)
    (set_mm_areas (<[p := set_vm_next n gp']> (mm_areas s)) s) = K s') ∧ merged s' D'.
Proof.
  destruct join_grown as [Hlaid Hgrown]. assert (D1 ++ D2 = E ++ (p, gp) :: (n, gn) :: F) as HD by (rewrite HD1, HD2; by rewrite <-app_assoc).
  pose proof C as C'. pose proof Hk as Hk'. pose proof Hc as Hc'. rewrite HD in C', Hk', Hc'.
  destruct (unlink_joined s E F p n gp gn gp' T C' Hlaid Hk' Hc') as (s' & Hrun & _ & [] & Hlog). exists s'. by split.
Qed.
End join.

Lemma vdata_head (D : vdata) : D = [] ∨ ∃ x g E, D = (x, g) :: E.
Proof using. destruct D as [|[x g] E]; [by left|right; by eauto]. Qed.

(** Not with the area before, so perhaps with the one after. *)
Lemma merge_after : merge_result ((if negb (hd0 D2.*1 =? 0) then merge_next (hd0 D2.*1) addr end_ flags else mret false) s).
Proof.
  destruct (vdata_head D2) as [->|(n & gn & E & HD)]; [by exists false, s|]. rewrite HD. cbn [fmap list_fmap hd0 hd fst]. destruct (negb _); [by eapply merge_next_run|by exists false, s].
Qed.

Lemma vma_merge_run par : (D1 = [] → par = hd0 D2.*1 ∧ D2 ≠ []) → merge_result (vma_merge (last0 D1.*1) par addr end_ flags s).
Proof.
  intros Hpar. unfold vma_merge. destruct (vseg_nil_last D1) as [HD|(E & p & gp & HD)].
  - destruct (Hpar HD) as [-> Hne]. rewrite HD. cbn [fmap list_fmap last0 List.last]. rewrite Z.eqb_refl. destruct (vdata_head D2) as [?|(n & gn & F & HD2)]; [done|]. rewrite HD2.
    cbn [fmap list_fmap hd0 hd fst]. by eapply merge_next_run.
  - pose proof C as C'. rewrite HD, <-app_assoc in C'. cbn [app] in C'. destruct (tail_list _ _ _ _ _ _ C') as (_ & _ & Hxp).
    assert (p ≠ 0) as Hp0 by (intros ->; by rewrite (vc_null _ _ _ C) in Hxp). rewrite HD, last0_snoc. destruct (Z.eqb_spec p 0) as [|_]; [done|].
    erewrite es_bind by by apply ga_live. cbn [set_vm_next vm_end vm_next]. change (can_vma_merge (set_vm_next _ gp) flags) with (can_vma_merge gp flags).
    destruct (Z.eqb_spec (vm_end gp) addr) as [Heq|]; cbn [andb]; [|exact merge_after].
    destruct (can_vma_merge gp flags) eqn:Hm; [|exact merge_after]. erewrite es_bind by by apply wa_live.
    pose proof (merge_left E p gp HD Heq Hm) as Hleft.
    assert (merge_result ((mret true : VM bool) (set_mm_areas (<[p := set_vm_end end_ (set_vm_next (hd0 D2.*1) gp)]> (mm_areas s)) s))) as Hstop.
    { eexists true, _. split; [done|]. by eexists. }
    destruct (vdata_head D2) as [HD2|(n & gn & F & HD2)]; [rewrite HD2 in *; by erewrite es_bind by done|].
    destruct (join_split E F p n gp gn HD HD2) as (HDj & Hpn). pose proof C as C2. rewrite HDj in C2. destruct (tail_list _ _ _ _ _ _ C2) as (_ & _ & Hxn).
    assert (n ≠ 0) as Hn0 by (intros ->; by rewrite (vc_null _ _ _ C) in Hxn). rewrite HD2 in Hstop |- *. cbn [fmap list_fmap hd0 hd fst] in Hstop |- *.
    destruct (Z.eqb_spec n 0); [done|]. cbn [negb]. clear Hleft. set (s1 := set_mm_areas _ s) in *.
    assert (ga n s1 = Some (set_vm_next (hd0 F.*1) gn, s1)) as Hgn by (apply ga_live; cbn; by rewrite lookup_insert_ne).
    erewrite es_bind by (erewrite es_bind by exact Hgn; done). cbn [set_vm_next vm_start].
    change (can_vma_merge (set_vm_next _ gn) flags) with (can_vma_merge gn flags).
    destruct (Z.eqb_spec end_ (vm_start gn)) as [Heq'|]; cbn [andb]; [|exact Hstop]. destruct (can_vma_merge gn flags) eqn:Hn; [|exact Hstop].
    erewrite es_bind by exact Hgn. erewrite es_bind by (apply wa_live; cbn; by rewrite lookup_insert_eq). cbn [set_mm_areas mm_areas s1]. rewrite insert_insert_eq.
    destruct (merge_join E F p n gp gn HD HD2 Heq (eq_sym Heq') Hm Hn) as (s' & Hrun & Hmg). exists true, s'. split; [by apply Hrun|]. by eexists.
Qed.
End merge.
