(* ===== verification/VmaBrk.v ===== *)
(** Making room for a range, and the program break (mm/mmap.c). *)
From S2P Require Import Prelude RbTree RbShape RbInsert RbErase Vma VmaCalls VmaShape VmaLink VmaUnmap VmaCount VmaMunmap VmaMerge.
From stdpp Require Import list options.
#[local] Set Default Proof Using "Type*".
Open Scope cint_scope.
Open Scope Z_scope.

(** * Free ranges *)

Lemma at_page_some D x g a : (x, g) ∈ D → vm_start g <= a < vm_end g → at_page D a ≠ None.
Proof.
  induction D as [|[y h] D IH]; intros Hx Ha; [by apply elem_of_nil in Hx|]. cbn. destruct (in_range_spec (vm_start h) (vm_end h) a) as [|Hn]; [done|].
  apply elem_of_cons in Hx as [[= -> ->]|Hx]; [done|by apply IH].
Qed.

Lemma overlapping_none lo hi D : overlapping lo hi D = [] → ∀ x g, (x, g) ∈ D → vm_end g <= lo ∨ hi <= vm_start g.
Proof.
  intros Hno x g Hx. pose proof (filter_nil_not_elem_of _ _ (x, g) Hno) as Hn. destruct (decide (overlaps lo hi g)) as [Ho|Ho]; [by destruct (Hn Ho)|].
  unfold overlaps in Ho. lia.
Qed.

(** A range with no page mapped has no area in the way. *)
Lemma free_overlapping lo hi D : lo < hi → (∀ x g, (x, g) ∈ D → vm_start g < vm_end g) → (∀ a, lo <= a < hi → at_page D a = None) → overlapping lo hi D = [].
Proof.
  intros Hlh Hp Hn. apply filter_none. intros [x g] Hx [H1 H2]. cbn in *. specialize (Hp x g Hx).
  apply (at_page_some D x g (Z.max lo (vm_start g)) Hx); [lia|]. apply Hn. lia.
Qed.

Section place.
Context `{VmEnv} (s : mm) (D : vdata) (T : tree) (C : vm_core s D T) (addr hi : Z) (Hr : addr < hi).

(** The gap of a free range, as [find_vma_prepare] gives it. *)
Record gap (k : list frame) (D1 D2 : vdata) : Prop := {
  gp_at : gap_at D T addr k D1 D2;
  gp_after x g : (x, g) ∈ D2 → hi <= vm_start g
}.

Definition place_of (k : list frame) : Z * rb_slot * Z := (last0 (before_hole k), hole_slot k, cpar 0 k).

(** The test for an area in the way. *)
Definition clash (vma : Z) : VM bool := if negb (vma =? 0) then v ← ga vma; mret (vm_start v <? hi) else mret false.

Lemma clash_area x g : (x, g) ∈ D → clash x s = Some (vm_start g <? hi, s).
Proof.
  intros Hx. pose proof (vc_nonzero s D T C x g Hx). unfold clash. destruct (Z.eqb_spec x 0); [done|]. cbn [negb]. destruct (ga_run s D T C x g Hx) as [nx Hga].
  by erewrite es_bind by exact Hga.
Qed.

Lemma prepare_free : overlapping addr hi D = [] → ∃ k D1 D2 next, gap k D1 D2 ∧ find_vma_prepare addr s = Some ((next, Some (place_of k)), s) ∧
  clash next s = Some (false, s).
Proof.
  intros Hno. pose proof (overlapping_none _ _ _ Hno) as Hout. destruct (find_vma_prepare_run s D T C addr) as [(k & D1 & D2 & Hg & Hp)|(k & c & l & x & r & g & D1 & D2 & Hh & _)].
  - pose proof Hg as (_ & HD & _ & HD2 & G1 & G2). assert (∀ x g, (x, g) ∈ D2 → hi <= vm_start g) as Haf.
    { intros x g Hx. assert ((x, g) ∈ D) as Hx' by (rewrite HD; apply elem_of_app; by right). pose proof (G2 x g Hx).
      destruct (laid_elem _ _ _ _ _ (vc_laid _ _ _ C) Hx'). destruct (Hout x g Hx'); lia. }
    exists k, D1, D2, (hd0 (after_hole k)). split; [by split|]. split; [done|]. rewrite <-HD2. destruct D2 as [|[x g] D2]; [done|].
    cbn [fmap list_fmap hd0 hd fst]. rewrite (clash_area x g) by (rewrite HD; apply elem_of_app; right; left). pose proof (Haf x g ltac:(left)).
    by destruct (Z.ltb_spec (vm_start g) hi); [lia|].
  - exfalso. destruct Hh as (_ & HD & _ & _ & Hs). assert ((x, g) ∈ D) as Hx by (rewrite HD; apply elem_of_app; right; left). destruct (Hout x g Hx); lia.
Qed.

Lemma prepare_clash : overlapping addr hi D ≠ [] → ∃ next pl, find_vma_prepare addr s = Some ((next, pl), s) ∧ clash next s = Some (true, s).
Proof.
  intros Ho. assert (∃ x g, (x, g) ∈ D ∧ overlaps addr hi g) as (x & g & Hx & Hxo).
  { destruct (overlapping addr hi D) as [|[x g] E] eqn:Hov; [done|]. exists x, g. assert ((x, g) ∈ overlapping addr hi D) as Hin by (rewrite Hov; left).
    by apply list_elem_of_filter in Hin as []. }
  destruct (find_vma_prepare_run s D T C addr) as [(k & D1 & D2 & Hg & Hp)|(k & c & l & y & r & h & D1 & D2 & Hh & Hp)].
  - eexists _, _. split; [done|]. destruct Hg as (_ & HD & _ & <- & G1 & G2). destruct Hxo as [O1 O2]. assert (Hx' := Hx). rewrite HD in Hx'.
    apply elem_of_app in Hx' as [Hx'|Hx']; [specialize (G1 x g Hx'); lia|]. destruct D2 as [|[y h] D2]; [by apply elem_of_nil in Hx'|].
    cbn [fmap list_fmap hd0 hd fst]. rewrite (clash_area y h) by (rewrite HD; apply elem_of_app; right; left).
    assert (vm_start h <= vm_start g). { pose proof (vc_laid _ _ _ C) as Hl. rewrite HD in Hl. apply laid_mid in Hl as (_ & L2 & ? & _).
      apply elem_of_cons in Hx' as [[= -> ->]|Hx']; [lia|]. destruct (laid_elem _ _ _ _ _ L2 Hx'). lia. }
    by destruct (Z.ltb_spec (vm_start h) hi); [|lia].
  - eexists _, _. split; [done|]. destruct Hh as (_ & HD & _ & _ & Hs). rewrite (clash_area y h) by (rewrite HD; apply elem_of_app; right; left).
    by destruct (Z.ltb_spec (vm_start h) hi); [|lia].
Qed.
End place.

(** * Making room *)

Section clear.
Context `{VmEnv} (s : mm) (D : vdata) (V : vm_space s D) (addr n : Z).
Context (Ha : aligned addr) (Hn : aligned n) (H0 : 0 <= addr) (H1 : 0 < n) (H2 : addr + n <= TASK_SIZE).

(** [D1] and [D2] are left, below and above the range. *)
Record cleared (s' : mm) (k : list frame) (D1 D2 : vdata) (T : tree) : Prop := {
  cl_core : vm_core s' (D1 ++ D2) T;
  cl_space : vm_space s' (D1 ++ D2);
  cl_gap : gap (D1 ++ D2) T addr (addr + n) k D1 D2;
  cl_pages a : at_page (D1 ++ D2) a = if in_range addr (addr + n) a then None else at_page D a;
  cl_pieces x g : (x, g) ∈ D1 ++ D2 → ∃ y h, (y, h) ∈ D ∧ piece_of h g;
  cl_fields : same_fields s s';
  cl_same : overlapping addr (addr + n) D = [] → s' = s ∧ D1 ++ D2 = D
}.

Definition clears (out : option (option (Z * rb_slot * Z) * mm)) : Prop :=
  (overlapping addr (addr + n) D ≠ [] ∧ munmap_error s D addr n ≠ 0 ∧ out = Some (None, s)) ∨
  ∃ s' k D1 D2 T, out = Some (Some (place_of k), s') ∧ cleared s' k D1 D2 T.

Lemma gap_split E T k D1 D2 : gap E T addr (addr + n) k D1 D2 → E = D1 ++ D2.
Proof using. intros [Hg _]. by destruct Hg as (_ & ? & _). Qed.

Lemma clear_step fuel st : clear_range (S fuel) addr n st = (
  '(vma, place) ← find_vma_prepare addr;
  b ← clash (addr + n) vma;
  if (b : bool) then
    err ← do_munmap addr n;
    if negb (err =? 0) then mret None else clear_range fuel addr n
  else match place with None => bug | Some place => mret (Some place) end) st.
Proof. cbn [clear_range]. by rewrite (u32_small (addr + n)) by (unfold TASK_SIZE in *; lia). Qed.

(** Nothing is in the way. *)
Lemma clear_free s' E fuel : vm_space s' E → overlapping addr (addr + n) E = [] →
  (∀ a, at_page E a = if in_range addr (addr + n) a then None else at_page D a) → (∀ x g, (x, g) ∈ E → ∃ y h, (y, h) ∈ D ∧ piece_of h g) →
  same_fields s s' → (overlapping addr (addr + n) D = [] → s' = s ∧ E = D) → clears (clear_range (S fuel) addr n s').
Proof.
  intros VE Ho Hp Hpc Hf Hs. destruct (vs_core _ _ VE) as [T C]. destruct (prepare_free s' E T C addr (addr + n) ltac:(lia) Ho) as (k & D1 & D2 & next & Hg & Hrun & Hcl).
  pose proof (gap_split _ _ _ _ _ Hg). subst E. right. exists s', k, D1, D2, T. split; [|by split].
  rewrite clear_step. erewrite es_bind by exact Hrun. cbv beta iota. by erewrite es_bind by exact Hcl.
Qed.

Lemma clear_range_run : clears (clear_range 2 addr n s).
Proof.
  destruct (decide (overlapping addr (addr + n) D = [])) as [Ho|Ho].
  - apply (clear_free s D); [done|done| |intros x g Hx; exists x, g; split; [done|apply piece_refl]|done|done].
    intros a. destruct (in_range_spec addr (addr + n) a); [|done]. apply at_page_none. intros x g Hx.
    destruct (overlapping_none _ _ _ Ho x g Hx), (in_range_spec (vm_start g) (vm_end g) a); (done || lia).
  - destruct (vs_core _ _ V) as [T C]. destruct (prepare_clash s D T C addr (addr + n) ltac:(lia) Ho) as (next & pl & Hrun & Hcl).
    destruct (do_munmap_run s D V addr n) as (s' & Hmun & Hsame & Hok); [unfold TASK_SIZE in *; lia..|].
    rewrite clear_step. erewrite es_bind by exact Hrun. cbv beta iota.
    erewrite es_bind by exact Hcl. cbv beta iota. erewrite es_bind by exact Hmun. destruct (Z.eqb_spec (- munmap_error s D addr n) 0) as [He|He]; cbn [negb].
    + destruct Hok as [D' [U1 U2 U3 U4 _]]; [lia|]. rewrite page_align_id in U2 by (done || lia). destruct (vs_core _ _ U1) as [T' C'].
      apply (clear_free s' D'); [done| |done|done|done|by intros ?].
      apply free_overlapping; [lia| |].
      * intros x g Hx. by destruct (laid_elem _ _ _ _ _ (vc_laid _ _ _ C') Hx) as (_ & ? & _).
      * intros a Hra. rewrite U2. by destruct (in_range_spec addr (addr + n) a).
    + left. split; [done|]. split; [lia|]. rewrite Hsame by lia. done.
Qed.
End clear.

(** * A new range *)

(** An area in no list, otherwise [s1] is like [s]. *)
Record loose (s s1 : mm) (D : vdata) (T : tree) (e : Z) (v : vm_area) : Prop := {
  lo_null : e ≠ 0;
  lo_new : e ∉ D.*1;
  lo_area : mm_areas s1 !! e = Some v;
  lo_core : vm_core s1 D T;
  lo_rest : same_rest s s1;
  lo_count : map_count s1 = map_count s
}.

(** What the allocator gives is filled in, or changed later. *)
Lemma loose_wa s s1 D T e v f : loose s s1 D T e v → ∃ s2, wa e f s1 = Some (tt, s2) ∧ loose s s2 D T e (f v) ∧ mm_log s2 = mm_log s1.
Proof.
  intros [S1 S2 S3 S4 S5 S6]. eexists. split; [by apply wa_live|]. split; [|done]. split; try done.
  - cbn. by rewrite lookup_insert_eq.
  - apply vm_core_wa; [done..|by eexists].
  - etrans; [exact S5|]. by split; [split|..].
Qed.

Lemma spare_loose s s1 D T e v : spare s s1 D T e v → loose s s1 D T e v.
Proof. by intros []. Qed.

Section place_range.
Context `{VmEnv} (s : mm) (D1 D2 : vdata) (T : tree) (k : list frame) (addr n flags : Z).
Context (C : vm_core s (D1 ++ D2) T) (V : vm_space s (D1 ++ D2)) (Hg : gap (D1 ++ D2) T addr (addr + n) k D1 D2) (Hp : plain (D1 ++ D2)).
Context (Ha : aligned addr) (Hn : aligned n) (H0 : 0 <= addr) (H1 : 0 < n) (H2 : addr + n <= TASK_SIZE).

Lemma end_aligned : aligned (addr + n).
Proof using Ha Hn. clear C V Hg Hp H0 H1 H2. unfold aligned, PAGE_SIZE in *. Z.div_mod_to_equations. lia. Qed.

Lemma gap_sides : ends_below addr D1 ∧ laid 0 addr D1 ∧ laid (addr + n) (2 ^ 32 - 1) D2.
Proof.
  destruct Hg as [(_ & _ & _ & _ & G1 & _) G2]. pose proof (vc_laid _ _ _ C) as (m & L1 & L2)%laid_app. split_and!; [done| |].
  - eapply laid_upto; [exact L1|done|lia].
  - eapply laid_from; [exact L2|done|unfold TASK_SIZE in *; lia].
Qed.

(** The accounting makes the counts those of the new areas. *)
Lemma mapped_run s' D' : sum_of page_count D' = sum_of page_count (D1 ++ D2) + pages n →
  sum_of locked_count D' = sum_of locked_count (D1 ++ D2) + (if flags & VM_LOCKED then pages n else 0) →
  (∃ T', vm_core s' D' T') → cached s' D' → map_count s' = Z.of_nat (length D') → same_fields s s' →
  total_vm s' = total_vm s → locked_vm s' = locked_vm s →
  ∃ s2, mapped addr n flags s' = Some (addr, s2) ∧ vm_space s2 D' ∧ same_fields s s2.
Proof using V.
  intros G2 G3 [T' C'] Hk Hc Hf Ht Hl. destruct (laid_tally _ (vc_laid _ _ _ C')) as [B1 B2]. destruct (vs_tally _ _ V) as [_ T2 T3].
  rewrite <-T2, <-Ht in G2. rewrite <-T3, <-Hl in G3.
  unfold mapped. erewrite es_bind by done. destruct (flags & VM_LOCKED).
  - eexists. split; [done|]. split; [|by destruct Hf; split]. split; [exists T'; by apply (vm_core_same s')|done|].
    split; cbn; [done|rewrite u32_small; lia|rewrite u32_small; lia].
  - eexists. split; [done|]. split; [|by destruct Hf; split]. split; [exists T'; by apply (vm_core_same s')|done|].
    split; cbn; [done|rewrite u32_small; lia|lia].
Qed.

(** An area that is in no list is linked where it belongs. *)
Lemma link_loose_run s1 e v : loose s s1 (D1 ++ D2) T e v → vm_start v = addr → vm_end v = addr + n →
  ∃ s' T', (∀ B (K : VM B), (vma_link e (last0 (before_hole k)) (hole_slot k) (cpar 0 k);; K) s1 = K s') ∧
    vm_core s' (D1 ++ (e, v) :: D2) T' ∧ same_rest s s' ∧ map_count s' = Z.of_nat (length (D1 ++ (e, v) :: D2)) ∧ cached s' (D1 ++ (e, v) :: D2).
Proof.
  intros [S1 S2 S3 S4 S5 S6] Hs He. destruct gap_sides as (_ & L1 & L2). pose proof end_aligned as Hea. pose proof Hg as [(HT & _ & G1 & G2 & _ & _) _].
  assert (mm_areas s1 !! e = Some (set_vm_next (vm_next v) v)) as S3' by (by rewrite S3; destruct v).
  destruct (vma_link_run s1 D1 D2 e (vm_next v) v S3' S1 S2 k T S4 HT G1 G2) as (s' & T' & Hrun & C' & O' & R' & N' & L').
  { apply laid_app. exists addr. split; [done|]. cbn. rewrite Hs, He. split_and!; (done || lia). }
  exists s', T'. split_and!; [|done|by etrans| |].
  - intros B K. by erewrite es_bind by exact Hrun.
  - rewrite N', S6, (ta_count _ _ (vs_tally _ _ V)). destruct (laid_tally _ (vc_laid _ _ _ C)) as [B1 _]. rewrite !length_app in *. cbn in *. rewrite s32_small; lia.
  - unfold cached. rewrite (sr_cache _ _ R'), (sr_cache _ _ S5). destruct (vs_cached _ _ V) as [Hk|Hk]; [by left|right].
    rewrite fmap_app in *. cbn. rewrite !elem_of_app, !elem_of_cons in *. tauto.
Qed.
End place_range.

(** * do_brk *)

Section do_brk.
Context `{VmEnv}.

(** The limits [do_brk] checks when the range is free. *)
Definition enough (n : Z) (s : mm) : bool := match vm_enough_memory (pages n) s with Some (b, _) => b | None => false end.
Definition within_limits (n : Z) (s : mm) : bool := negb (too_large s n) && negb (map_count s >? max_map_count) && enough n s.

(** What follows [munmap_back] in [do_brk]. *)
Definition brk_tail (addr n flags : Z) (place : Z * rb_slot * Z) : VM Z :=
  let '(prev, rb_link, rb_parent) := place in
  large ← getm (λ s, too_large s n);
  count ← getm map_count;
  enough ← vm_enough_memory (pages n);
  if (large : bool) then mret (u32 (- ENOMEM))
  else if count >? max_map_count then mret (u32 (- ENOMEM))
  else if negb enough then mret (u32 (- ENOMEM))
  else
    merged ← (if negb (rb_parent =? 0) then vma_merge prev rb_parent addr (u32 (addr + n)) flags else mret false);
    if (merged : bool) then mapped addr n flags
    else
      vma ← kmem_cache_alloc;
      if vma =? 0 then mret (u32 (- ENOMEM))
      else
        wa vma (λ v, mk_vm_area addr (u32 (addr + n)) (vm_next v) (protection_map (Z.land flags 0x0f)) flags 0 0 0 (vm_raend v) 0);;
        vma_link vma prev rb_link rb_parent;;
        mapped addr n flags.

Section tail.
Context (s : mm) (D1 D2 : vdata) (T : tree) (k : list frame) (addr n flags : Z).
Context (C : vm_core s (D1 ++ D2) T) (V : vm_space s (D1 ++ D2)) (Hg : gap (D1 ++ D2) T addr (addr + n) k D1 D2) (Hp : plain (D1 ++ D2)).
Context (Ha : aligned addr) (Hn : aligned n) (H0 : 0 <= addr) (H1 : 0 < n) (H2 : addr + n <= TASK_SIZE).

(** Either the range is there, or nothing has happened. *)
Definition placed (out : option (Z * mm)) : Prop :=
  (∃ s' D', out = Some (addr, s') ∧ within_limits n s = true ∧ vm_space s' D' ∧ grown addr (addr + n) flags (D1 ++ D2) D' ∧ same_fields s s') ∨
  (out = Some (u32 (- ENOMEM), s) ∧ (within_limits n s = false ∨ vm_alloc s = None)).

Lemma merge_try : merge_result s D1 D2 addr (addr + n) flags
  ((if negb (cpar 0 k =? 0) then vma_merge (last0 (before_hole k)) (cpar 0 k) addr (addr + n) flags else mret false) s).
Proof.
  destruct gap_sides with (s := s) (D1 := D1) (D2 := D2) (T := T) (k := k) (addr := addr) (n := n) as (G1 & _); [done..|].
  destruct (Z.eqb_spec (cpar 0 k) 0) as [|Hk]; [by exists false, s|]. cbn [negb]. pose proof Hg as [(HT & _ & G3 & G4 & _ & _) G2].
  rewrite <-G3. eapply vma_merge_run; try done; [apply (vs_cached _ _ V)|by apply end_aligned|lia|unfold TASK_SIZE in *; lia|by apply (vs_tally _ _ V)|].
  intros HD1. rewrite HD1 in G3. rewrite G4. rewrite cpar_first in * by done. split; [done|]. intros ->. by rewrite <-G4 in Hk.
Qed.

(** [mapped_run] for anonymous pages. *)
Lemma grown_run s' D' : grown addr (addr + n) flags (D1 ++ D2) D' → (∃ T', vm_core s' D' T') → cached s' D' → map_count s' = Z.of_nat (length D') →
  same_fields s s' → total_vm s' = total_vm s → locked_vm s' = locked_vm s →
  ∃ s2, mapped addr n flags s' = Some (addr, s2) ∧ vm_space s2 D' ∧ same_fields s s2.
Proof using V. intros [_ G2 G3 _]. replace (addr + n - addr) with n in * by lia. by apply mapped_run with (D1 := D1) (D2 := D2). Qed.

Lemma brk_new : within_limits n s = true → placed ((vma ← kmem_cache_alloc;
  if vma =? 0 then mret (u32 (- ENOMEM))
  else
    wa vma (λ v, mk_vm_area addr (addr + n) (vm_next v) (protection_map (Z.land flags 0x0f)) flags 0 0 0 (vm_raend v) 0);;
    vma_link vma (last0 (before_hole k)) (hole_slot k) (cpar 0 k);;
    mapped addr n flags) s).
Proof.
  intros Hlim. destruct (alloc_run s (D1 ++ D2) T C) as [[Hal Hrun]|(e & v & nd & s1 & Hal & Hrun & S)]; erewrite es_bind by exact Hrun; [right; split; [done|by right]|].
  destruct (Z.eqb_spec e 0); [by destruct S|]. set (f := λ v, mk_vm_area addr _ _ _ _ _ _ _ _ _).
  destruct gap_sides with (s := s) (D1 := D1) (D2 := D2) (T := T) (k := k) (addr := addr) (n := n) as (G1 & _); [done..|].
  destruct (loose_wa _ _ _ _ _ _ f (spare_loose _ _ _ _ _ _ S)) as (s2 & Hw & S2 & _). erewrite es_bind by exact Hw.
  destruct (link_loose_run s D1 D2 T k addr n C V Hg Hp Ha Hn H0 H1 H2 s2 e (f v) S2 eq_refl eq_refl) as (s3 & T3 & Hrun3 & C3 & R3 & N3 & K3).
  rewrite Hrun3. assert (grown addr (addr + n) flags (D1 ++ D2) (D1 ++ (e, f v) :: D2)) as Hgr.
  { apply (grown_mid addr (addr + n) flags D1 [] [(e, f v)] D2 G1). apply grown_new; try done; [by apply end_aligned|lia]. }
  destruct R3. destruct (grown_run s3 _ Hgr) as (s4 & Hrun4 & V4 & F4); [by exists T3|done..|].
  left. exists s4, (D1 ++ (e, f v) :: D2). by split_and!.
Qed.

Lemma tail_run : placed (brk_tail addr n flags (place_of k) s).
Proof.
  unfold placed. destruct (within_limits n s) eqn:Hlim.
  - assert (Hl := Hlim). unfold within_limits, enough in Hl. unfold brk_tail, place_of. erewrite es_bind by done. erewrite es_bind by done.
    destruct (vm_enough_memory (pages n) s) as [[b s0]|] eqn:Hen; [|by rewrite andb_false_r in Hl].
    assert (s0 = s) as -> by by injection Hen. erewrite es_bind by exact Hen.
    destruct (too_large s n); [done|]. destruct (map_count s >? max_map_count); [done|]. destruct b; [|done]. cbn [negb andb].
    rewrite (u32_small (addr + n)) by (unfold TASK_SIZE in *; lia). destruct merge_try as ([] & s' & Hrun & Hm); erewrite es_bind by exact Hrun; cbv iota.
    + destruct Hm as [D' M]. destruct (grown_run s' D') as (s2 & Hrun2 & V2 & F2); [apply M..|]. pose proof (mg_grown _ _ _ _ _ _ _ _ M).
      left. exists s2, D'. by split_and!.
    + subst s'. pose proof (brk_new Hlim) as Hnew. unfold placed in Hnew. by rewrite Hlim in Hnew.
  - right. split; [|by left]. unfold within_limits, enough in Hlim. unfold brk_tail, place_of. erewrite es_bind by done. erewrite es_bind by done.
    destruct (vm_enough_memory (pages n) s) as [[b s0]|] eqn:Hen; [|done]. assert (s0 = s) as -> by by injection Hen. erewrite es_bind by exact Hen.
    destruct (too_large s n); [done|]. destruct (map_count s >? max_map_count); [done|]. by destruct b.
Qed.
End tail.

Section brk.
Context (s : mm) (D : vdata) (V : vm_space s D) (Hp : plain D) (addr len : Z).
Context (Ha : aligned addr) (H0 : 0 <= addr) (Hl : 0 < len) (H2 : addr + PAGE_ALIGN len <= TASK_SIZE) (H3 : len <= TASK_SIZE).

Notation n := (PAGE_ALIGN len).
Definition brk_flags : Z := Z.lor VM_DATA_DEFAULT_FLAGS (mm_def_flags s).
Definition brk_allowed : bool := negb ((mm_def_flags s & VM_LOCKED) && too_locked s n) && within_limits n s.

(** The pages of the range are anonymous and writable, the others as they were. *)
Definition brk_done (out : option (Z * mm)) : Prop :=
  ∃ s' D', out = Some (addr, s') ∧ vm_space s' D' ∧ plain D' ∧ same_fields s s' ∧
    (∀ a, at_page D' a = if in_range addr (addr + n) a then Some (anon_mapping brk_flags) else at_page D a) ∧
    (overlapping addr (addr + n) D = [] → brk_allowed = true).

(** Nothing has been mapped; what was in the way may be gone. *)
Definition brk_failed (out : option (Z * mm)) : Prop :=
  ∃ e s' D', out = Some (u32 (- e), s') ∧ (e = EAGAIN ∨ e = ENOMEM) ∧ vm_space s' D' ∧ plain D' ∧ same_fields s s' ∧
    (∀ a, at_page D' a = at_page D a ∨ (in_range addr (addr + n) a = true ∧ at_page D' a = None)) ∧
    (overlapping addr (addr + n) D = [] → s' = s ∧ (brk_allowed = false ∨ vm_alloc s = None)).

Lemma plain_pieces D' : (∀ x g, (x, g) ∈ D' → ∃ y h, (y, h) ∈ D ∧ piece_of h g) → plain D'.
Proof using Hp.
  intros Hpc x g Hx. destruct (Hpc x g Hx) as (y & h & Hy & _ & _ & F1 & F2 & F3 & F4 & F5). unfold plain_area. rewrite F1, F2, F3, F4, F5. by apply (Hp y).
Qed.

Lemma do_brk_run : brk_done (do_brk addr len s) ∨ brk_failed (do_brk addr len s).
Proof.
  destruct (page_align_spec len) as [An [Hn1 Hn2]]; [lia|]. unfold do_brk. destruct (Z.eqb_spec n 0) as [|_]; [lia|].
  erewrite es_bind by done. erewrite es_bind by done. destruct ((mm_def_flags s & VM_LOCKED) && too_locked s n) eqn:Hlk.
  { right. exists EAGAIN, s, D. split_and!; [done|by left|done..|by left|]. intros _. split; [done|left]. unfold brk_allowed. by rewrite Hlk. }
  destruct (clear_range_run s D V addr n Ha An H0 ltac:(lia) H2) as [(Ho & _ & Hrun)|(s1 & k & D1 & D2 & T & Hrun & [C1 V1 G1 P1 Q1 F1 S1])]; erewrite es_bind by exact Hrun.
  { right. exists ENOMEM, s, D. split_and!; [done|by right|done..|by left|done]. }
  pose proof (plain_pieces _ Q1) as Hp1.
  destruct (tail_run s1 D1 D2 T k addr n brk_flags C1 V1 G1 Hp1 Ha An H0 ltac:(lia) H2) as [(s2 & D' & Hrun2 & L2 & V2 & [P2 _ _ Q2] & F2)|[Hrun2 L2]];
    change (brk_tail addr n brk_flags (place_of k) s1) with
      ((let '(prev, rb_link, rb_parent) := place_of k in brk_tail addr n brk_flags (prev, rb_link, rb_parent)) s1) in Hrun2.
  - left. exists s2, D'. split; [exact Hrun2|]. split_and!; [done|by apply Q2|by etrans| |].
    + intros a. rewrite P2, P1. by destruct (in_range addr (addr + n) a).
    + intros Ho. destruct (S1 Ho) as [-> _]. unfold brk_allowed. by rewrite Hlk, L2.
  - right. exists ENOMEM, s1, (D1 ++ D2). split; [exact Hrun2|]. split_and!; [by right|done..| |].
    + intros a. rewrite P1. destruct (in_range addr (addr + n) a) eqn:Hr; [by right|by left].
    + intros Ho. destruct (S1 Ho) as [-> _]. split; [done|]. unfold brk_allowed. rewrite Hlk. cbn. tauto.
Qed.
End brk.
End do_brk.
