(* ===== verification/VmaSys.v ===== *)
(** Free ranges and the program break (mm/mmap.c): what [arch_get_unmapped_area]
    and [sys_brk] do, on the lemmas of [VmaBrk]. *)
From S2P Require Import Prelude RbTree RbShape RbInsert RbErase Vma VmaCalls VmaShape VmaLink VmaUnmap VmaCount VmaMunmap VmaMerge VmaBrk.
From stdpp Require Import list options.
#[local] Set Default Proof Using "Type*".
Open Scope cint_scope.
Open Scope Z_scope.

(** * The cache *)

Lemma space_cache s D c : vm_space s D → c = 0 ∨ c ∈ D.*1 → vm_space (set_mmap_cache c s) D.
Proof. intros [[T C] _ Hta] Hc. split; [exists T; by apply (vm_core_same s)|done|by destruct Hta]. Qed.

Lemma find_vma_space s D addr : vm_space s D → ∃ s', find_vma addr s = Some (first_above addr D, s') ∧ vm_space s' D ∧ ∃ c, s' = set_mmap_cache c s.
Proof.
  intros V. destruct (vs_core _ _ V) as [T C]. destruct (find_vma_run s D T C addr (vs_cached _ _ V)) as (c & Hrun & Hc).
  eexists. split; [exact Hrun|]. split; [by apply space_cache|by exists c].
Qed.

(** * find_vma_intersection *)

Lemma intersection_run s D lo hi : vm_space s D → lo < hi → ∃ s' r, find_vma_intersection lo hi s = Some (r, s') ∧ vm_space s' D ∧
  (∃ c, s' = set_mmap_cache c s) ∧ (r = 0 ↔ overlapping lo hi D = []).
Proof.
  intros V Hr. destruct (find_vma_space s D lo V) as (s1 & Hrun & V1 & Hc). destruct (vs_core _ _ V1) as [T C].
  unfold find_vma_intersection. erewrite es_bind by exact Hrun. destruct (first_split D lo) as [[-> Hb]|(D1 & x & g & D2 & HD & -> & Hb & Hg)].
  - exists s1, 0. split_and!; [done..|]. split; [intros _|done]. apply filter_none. intros [x g] Hx [H1 H2]. cbn in *. specialize (Hb x g Hx). lia.
  - assert ((x, g) ∈ D) as Hx by (rewrite HD; apply elem_of_app; right; left). pose proof (vc_nonzero s1 D T C x g Hx) as Hx0.
    destruct (Z.eqb_spec x 0); [done|]. destruct (ga_run s1 D T C x g Hx) as [nx Hga]. erewrite es_bind by exact Hga. cbn [set_vm_next vm_start].
    pose proof (vc_laid _ _ _ C) as Hl. rewrite HD in Hl. pose proof (laid_mid _ _ _ _ _ _ Hl) as (_ & L2 & _).
    eexists s1, _. split; [done|]. split_and!; [done..|]. destruct (Z.leb_spec hi (vm_start g)).
    + split; [intros _|done]. rewrite HD. apply (overlapping_mid lo hi D1 [] ((x, g) :: D2)); [done|intros y h Hy; by apply elem_of_nil in Hy|].
      intros y h [[= -> ->]|Hy]%elem_of_cons; [done|]. destruct (laid_elem _ _ _ _ _ L2 Hy). destruct (laid_mid _ _ _ _ _ _ Hl) as (_ & _ & ? & _). lia.
    + split; [done|]. intros Hno. destruct (overlapping_none _ _ _ Hno x g Hx); lia.
Qed.

(** * arch_get_unmapped_area *)

(** [len] bytes at [a] are free. *)
Definition free_at (D : vdata) (len a : Z) : Prop := a + len <= TASK_SIZE ∧ ∀ x g, (x, g) ∈ D → vm_end g <= a ∨ a + len <= vm_start g.

(** [r] is the first free place from [base] on, or there is none. *)
Definition first_fit (D : vdata) (len base r : Z) : Prop :=
  (r = u32 (- ENOMEM) ∧ ∀ b, base <= b → ¬ free_at D len b) ∨
  (base <= r ∧ aligned r ∧ free_at D len r ∧ ∀ b, base <= b < r → ¬ free_at D len b).

Section fit.
Context `{VmEnv} (s : mm) (D : vdata) (T : tree) (C : vm_core s D T) (len : Z) (Hl : 0 < len <= TASK_SIZE).

(** A hole that is too small, and the area behind it. *)
Lemma fit_skip x g base r : (x, g) ∈ D → vm_start g < base + len → base <= vm_end g → first_fit D len (vm_end g) r → first_fit D len base r.
Proof using.
  intros Hx Hs He Hf. assert (∀ b, base <= b < vm_end g → ¬ free_at D len b) as Hno by (intros b Hb [_ Hfree]; destruct (Hfree x g Hx); lia).
  destruct Hf as [[-> Hn]|(H1 & H2 & H3 & H4)].
  - left. split; [done|]. intros b Hb. destruct (decide (b < vm_end g)); [apply Hno; lia|apply Hn; lia].
  - right. split_and!; [lia|done|done|]. intros b Hb. destruct (decide (b < vm_end g)); [apply Hno; lia|apply H4; lia].
Qed.

Lemma unmapped_loop_run E : ∀ D1 base fuel, D = D1 ++ E → ends_below base D1 → (∀ x g, (x, g) ∈ E → base < vm_end g) → aligned base → 0 <= base < 2 ^ 32 →
  (length E < fuel)%nat → ∃ r, unmapped_loop fuel (hd0 E.*1) base len s = Some (r, s) ∧ first_fit D len base r.
Proof.
  assert (u32 (TASK_SIZE - len) = TASK_SIZE - len) as Hu by (apply u32_small; unfold TASK_SIZE in *; lia).
  induction E as [|[x g] E IH]; intros D1 base [|fuel] HD Hb Ha Hal H0 Hf; [cbn in Hf; lia| |cbn in Hf; lia|]; cbn [unmapped_loop]; rewrite Hu;
    (destruct (Z.ltb_spec (TASK_SIZE - len) base); [eexists; split; [done|]; left; split; [done|]; intros b Hbb [? _]; lia|]).
  - exists base. split; [done|]. right. split_and!; [lia|done| |lia]. split; [lia|]. intros x g Hx. left. rewrite HD, app_nil_r in Hx. by apply (Hb x g).
  - cbn [fmap list_fmap hd0 hd fst]. assert ((x, g) ∈ D) as Hx by (rewrite HD; apply elem_of_app; right; left). pose proof (vc_nonzero s D T C x g Hx).
    destruct (Z.eqb_spec x 0); [done|]. pose proof C as C'. rewrite HD in C'. destruct (tail_list _ _ _ _ _ _ C') as (_ & _ & Hga).
    erewrite es_bind by by apply ga_live. cbn [set_vm_next vm_start vm_end vm_next]. rewrite u32_small by (unfold TASK_SIZE in *; lia).
    pose proof (laid_gap _ _ _ _ _ _ (vc_laid _ _ _ C')) as (_ & _ & E2 & _). destruct (laid_elem _ _ _ _ _ (vc_laid _ _ _ C) Hx) as (B1 & B2 & B3 & B4 & B5).
    destruct (Z.leb_spec (base + len) (vm_start g)).
    + exists base. split; [done|]. right. split_and!; [lia|done| |lia]. split; [lia|]. intros y h Hy. rewrite HD in Hy. apply elem_of_app in Hy as [Hy|[[= -> ->]|Hy]%elem_of_cons].
      * left. by apply (Hb y h).
      * by right.
      * right. specialize (E2 y h Hy). lia.
    + destruct (IH (D1 ++ [(x, g)]) (vm_end g) fuel) as (r & Hrun & Hfit); [by rewrite HD, <-app_assoc| | |done|lia|cbn in Hf; lia|].
      * apply ends_below_app. split; [intros y h Hy; specialize (Hb y h Hy); specialize (Ha x g ltac:(left)); lia|]. intros y h [= -> ->]%list_elem_of_singleton. lia.
      * intros y h Hy. specialize (E2 y h Hy). assert ((y, h) ∈ D) as Hy' by (rewrite HD; apply elem_of_app; right; by right).
        destruct (laid_elem _ _ _ _ _ (vc_laid _ _ _ C) Hy'). lia.
      * exists r. split; [exact Hrun|]. eapply fit_skip; [exact Hx|lia| |exact Hfit]. specialize (Ha x g ltac:(left)). lia.
Qed.
End fit.

Lemma first_tail s D T base : vm_core s D T → ∃ D1 E, D = D1 ++ E ∧ first_above base D = hd0 E.*1 ∧ ends_below base D1 ∧ ∀ x g, (x, g) ∈ E → base < vm_end g.
Proof.
  intros C. destruct (first_split D base) as [[-> Hb]|(D1 & x & g & D2 & HD & -> & Hb & Hg)].
  - exists D, []. split_and!; [by rewrite app_nil_r|done|done|]. intros x g Hx. by apply elem_of_nil in Hx.
  - exists D1, ((x, g) :: D2). split_and!; [done..|]. pose proof (vc_laid _ _ _ C) as Hl. rewrite HD in Hl. apply laid_mid in Hl as (_ & L2 & ? & _).
    intros y h [[= -> ->]|Hy]%elem_of_cons; [done|]. destruct (laid_elem _ _ _ _ _ L2 Hy). lia.
Qed.

(** The test of a hint. *)
Lemma fits_at s D T base len vma : vm_core s D T → vma = first_above base D → 0 < len <= TASK_SIZE → 0 <= base < 2 ^ 32 → base <= TASK_SIZE - len →
  ∃ b, (if vma =? 0 then mret (Some base) else v ← ga vma; mret (if u32 (base + len) <=? vm_start v then Some base else None)) s
    = Some (if (b : bool) then Some base else None, s) ∧ (b = true ↔ free_at D len base).
Proof.
  intros C -> Hl H0 Hb. destruct (first_tail s D T base C) as (D1 & E & HD & -> & H1 & H2). destruct E as [|[x g] E].
  - exists true. split; [done|]. split; [intros _|done]. split; [lia|]. intros x g Hx. left. rewrite HD, app_nil_r in Hx. by apply (H1 x g).
  - cbn [fmap list_fmap hd0 hd fst]. assert ((x, g) ∈ D) as Hx by (rewrite HD; apply elem_of_app; right; left). pose proof (vc_nonzero s D T C x g Hx).
    destruct (Z.eqb_spec x 0); [done|]. destruct (ga_run s D T C x g Hx) as [nx Hga]. erewrite es_bind by exact Hga. cbn [set_vm_next vm_start].
    rewrite u32_small by (unfold TASK_SIZE in *; lia). exists (base + len <=? vm_start g). split; [by destruct (_ <=? _)|].
    destruct (Z.leb_spec (base + len) (vm_start g)) as [Hle|Hlt]; split; try done.
    + intros _. split; [lia|]. pose proof (vc_laid _ _ _ C) as Hl'. rewrite HD in Hl'. pose proof (laid_gap _ _ _ _ _ _ Hl') as (_ & _ & E2 & _).
      apply laid_mid in Hl' as (_ & _ & ? & _). intros y h Hy. rewrite HD in Hy. apply elem_of_app in Hy as [Hy|[[= -> ->]|Hy]%elem_of_cons].
      * left. by apply (H1 y h).
      * by right.
      * right. specialize (E2 y h Hy). lia.
    + intros [_ Hfree]. specialize (H2 x g ltac:(left)). destruct (Hfree x g Hx); lia.
Qed.

Definition unmapped_base : Z := PAGE_ALIGN TASK_UNMAPPED_BASE.

(** A hint that is free is taken, and otherwise the first place that is. *)
Definition area_choice (D : vdata) (addr len r : Z) : Prop :=
  (addr ≠ 0 ∧ free_at D len (PAGE_ALIGN addr) ∧ r = PAGE_ALIGN addr) ∨
  ((addr = 0 ∨ ¬ free_at D len (PAGE_ALIGN addr)) ∧ first_fit D len unmapped_base r).

Lemma page_align_bound z : 0 <= PAGE_ALIGN z < 2 ^ 32.
Proof.
  unfold PAGE_ALIGN. rewrite page_floor_div. pose proof (u32_bound (z + PAGE_SIZE - 1)). change (2 ^ 32) with 4294967296. unfold PAGE_SIZE in *. Z.div_mod_to_equations. lia.
Qed.

(** The search from the fixed base. *)
Lemma base_run s D len : vm_space s D → 0 < len <= TASK_SIZE →
  ∃ s' r, (let addr := PAGE_ALIGN TASK_UNMAPPED_BASE in vma ← find_vma addr; fuel ← vm_fuel; unmapped_loop fuel vma addr len) s = Some (r, s') ∧
    vm_space s' D ∧ (∃ c, s' = set_mmap_cache c s) ∧ first_fit D len unmapped_base r.
Proof.
  intros V Hl. destruct (find_vma_space s D unmapped_base V) as (s1 & Hrun & V1 & Hc). destruct (vs_core _ _ V1) as [T C].
  destruct (first_tail s1 D T unmapped_base C) as (D1 & E & HD & Hf & H1 & H2).
  destruct (unmapped_loop_run s1 D T C len Hl E D1 unmapped_base (S (base.size (mm_areas s1)))) as (r & Hrun2 & Hfit); [done..| |].
  { pose proof (vc_length s1 D T C) as Hlen. rewrite HD, length_app in Hlen. lia. }
  exists s1, r. split; [|done]. cbv zeta. erewrite es_bind by exact Hrun. erewrite es_bind by done. by rewrite Hf.
Qed.

Lemma unmapped_area_run s D addr len : vm_space s D → 0 <= addr < 2 ^ 32 → 0 < len < 2 ^ 32 →
  ∃ s' r, arch_get_unmapped_area addr len s = Some (r, s') ∧ vm_space s' D ∧ (∃ c, s' = set_mmap_cache c s) ∧
    (if len >? TASK_SIZE then r = u32 (- ENOMEM) else area_choice D addr len r).
Proof.
  intros V Ha Hl. unfold arch_get_unmapped_area. destruct (Z.gtb_spec len TASK_SIZE) as [|Hlt].
  { exists s, (u32 (- ENOMEM)). split_and!; [done..| |done]. exists (mmap_cache s). by rewrite set_mmap_cache_same. }
  assert (∀ s1 c, vm_space s1 D → s1 = set_mmap_cache c s → (addr = 0 ∨ ¬ free_at D len (PAGE_ALIGN addr)) → ∃ s' r,
    (let addr := PAGE_ALIGN TASK_UNMAPPED_BASE in vma ← find_vma addr; fuel ← vm_fuel; unmapped_loop fuel vma addr len) s1 = Some (r, s') ∧
    vm_space s' D ∧ (∃ c, s' = set_mmap_cache c s) ∧ area_choice D addr len r) as Hbase.
  { intros s1 c V1 -> Hno. destruct (base_run _ D len V1 ltac:(lia)) as (s2 & r & Hrun & V2 & [c' ->] & Hfit). eexists _, r. split; [exact Hrun|].
    split_and!; [done|by eexists|by right]. }
  destruct (Z.eqb_spec addr 0) as [H0|H0]; cbn [negb]; [erewrite es_bind by done; apply (Hbase s (mmap_cache s)); [done|by rewrite set_mmap_cache_same|by left]|].
  destruct (find_vma_space s D (PAGE_ALIGN addr) V) as (s1 & Hrun & V1 & [c Hc]). destruct (vs_core _ _ V1) as [T C].
  assert (u32 (TASK_SIZE - len) = TASK_SIZE - len) as Hu by (apply u32_small; unfold TASK_SIZE in *; lia).
  destruct (Z.geb_spec (TASK_SIZE - len) (PAGE_ALIGN addr)) as [Hge|Hge].
  - destruct (fits_at s1 D T (PAGE_ALIGN addr) len _ C eq_refl ltac:(lia) (page_align_bound _) ltac:(lia)) as (b & Hb & Hfree).
    erewrite es_bind by (cbv zeta; erewrite es_bind by exact Hrun; rewrite Hu; destruct (Z.geb_spec (TASK_SIZE - len) (PAGE_ALIGN addr)); [exact Hb|lia]).
    destruct b.
    + exists s1, (PAGE_ALIGN addr). split_and!; [done..|by exists c|]. left. split_and!; [done|by apply Hfree|done].
    + apply (Hbase s1 c); [done..|]. right. intros Hf. by apply Hfree in Hf.
  - erewrite es_bind by (cbv zeta; erewrite es_bind by exact Hrun; rewrite Hu; destruct (Z.geb_spec (TASK_SIZE - len) (PAGE_ALIGN addr)); [lia|done]).
    apply (Hbase s1 c); [done..|]. right. intros [? _]. lia.
Qed.

(** * sys_brk *)

Section brk.
Context `{VmEnv} (s : mm) (D : vdata) (V : vm_space s D) (Hp : plain D) (brk : Z).
Context (Hb : 0 <= brk <= TASK_SIZE) (Ho : 0 <= mm_brk s <= TASK_SIZE).

Notation newbrk := (PAGE_ALIGN brk).
Notation oldbrk := (PAGE_ALIGN (mm_brk s)).

(** The pages between the old and the new break. *)
Definition brk_pages (a : Z) : option mapping :=
  if in_range newbrk oldbrk a then None
  else if in_range oldbrk newbrk a then Some (anon_mapping (brk_flags s))
  else at_page D a.

(** The break is where it was asked for, with the pages up to it and no others,
    and only free pages have been taken; or nothing has happened. *)
Definition brk_set (out : option (Z * mm)) : Prop :=
  ∃ s' D', out = Some (mm_brk s', s') ∧ vm_space s' D' ∧ plain D' ∧ mm_def_flags s' = mm_def_flags s ∧
    ((mm_brk s' = brk ∧ (∀ a, at_page D' a = brk_pages a) ∧ (oldbrk < newbrk → overlapping oldbrk (newbrk + PAGE_SIZE) D = [])) ∨
     (mm_brk s' = mm_brk s ∧ ∀ a, at_page D' a = at_page D a)).

Lemma space_brk s' D' b : vm_space s' D' → vm_space (set_mm_brk b s') D'.
Proof using. intros [[T C] Hk Hta]. split; [exists T; by apply (vm_core_same s')|done|by destruct Hta]. Qed.

Lemma brk_same s' : vm_space s' D → same_fields s s' → brk_set (Some (mm_brk s, s')).
Proof. intros V' [F1 F2 _ _]. exists s', D. rewrite F2. split_and!; [done..|]. by right. Qed.

Lemma brk_to s' D' : vm_space s' D' → plain D' → same_fields s s' → (∀ a, at_page D' a = brk_pages a) →
  (oldbrk < newbrk → overlapping oldbrk (newbrk + PAGE_SIZE) D = []) → brk_set (Some (brk, set_mm_brk brk s')).
Proof. intros V' P' [F1 _ _ _] Hpg Hfree. exists (set_mm_brk brk s'), D'. split_and!; [done|by apply space_brk|done..|]. by left. Qed.

Lemma page_align_mono a b : 0 <= a <= b → b <= TASK_SIZE → PAGE_ALIGN a <= PAGE_ALIGN b.
Proof using.
  intros Hab Hb'. destruct (page_align_spec a) as [A1 A2]; [lia|]. destruct (page_align_spec b) as [B1 B2]; [lia|].
  unfold aligned, PAGE_SIZE in *. Z.div_mod_to_equations. lia.
Qed.

Lemma error_above e : e = EAGAIN ∨ e = ENOMEM → TASK_SIZE < u32 (- e) ∧ u32 (- e) < 2 ^ 32.
Proof using. intros [->| ->]; by vm_compute. Qed.

Lemma aligned_bounds z : 0 <= z <= TASK_SIZE → aligned (PAGE_ALIGN z) ∧ z <= PAGE_ALIGN z <= TASK_SIZE.
Proof using. intros Hz. destruct (page_align_spec z Hz) as [A B]. split; [done|]. unfold aligned, PAGE_SIZE, TASK_SIZE in *. Z.div_mod_to_equations. lia. Qed.

(** Shrinking. *)
Lemma brk_down : newbrk < oldbrk → brk_set ((err ← do_munmap newbrk (u32 (oldbrk - newbrk));
  if err =? 0 then setm (set_mm_brk brk);; mret brk else getm mm_brk) s).
Proof.
  intros Hlt. destruct (aligned_bounds brk Hb) as [An Bn]. destruct (aligned_bounds (mm_brk s) Ho) as [Ao Bo].
  rewrite u32_small by (unfold TASK_SIZE in *; lia).
  destruct (do_munmap_run s D V newbrk (oldbrk - newbrk)) as (s' & Hrun & Hsame & Hok); [unfold TASK_SIZE in *; lia..|].
  erewrite es_bind by exact Hrun. destruct (Z.eqb_spec (- munmap_error s D newbrk (oldbrk - newbrk)) 0).
  - destruct Hok as [D' [U1 U2 U3 U4 _]]; [lia|]. assert (aligned (oldbrk - newbrk)) as Ad by (unfold aligned, PAGE_SIZE in *; Z.div_mod_to_equations; lia).
    rewrite (page_align_id (oldbrk - newbrk)) in U2 by (done || lia).
    apply brk_to with (D' := D'); [done|by eapply plain_pieces|done| |lia]. intros a. rewrite U2. unfold brk_pages. replace (newbrk + (oldbrk - newbrk)) with oldbrk by lia.
    destruct (in_range_spec newbrk oldbrk a), (in_range_spec oldbrk newbrk a); (done || lia).
  - rewrite Hsame by lia. by apply brk_same.
Qed.

(** Growing, when nothing is in the way. *)
Lemma brk_up s1 c : s1 = set_mmap_cache c s → vm_space s1 D → oldbrk < newbrk → overlapping oldbrk (newbrk + PAGE_SIZE) D = [] →
  brk_set ((r ← do_brk oldbrk (u32 (newbrk - oldbrk)); if negb (r =? oldbrk) then getm mm_brk else setm (set_mm_brk brk);; mret brk) s1).
Proof.
  intros Hs1 V1 Hlt Hfree. destruct (aligned_bounds brk Hb) as [An Bn]. destruct (aligned_bounds (mm_brk s) Ho) as [Ao Bo].
  rewrite u32_small by (unfold TASK_SIZE in *; lia).
  assert (aligned (newbrk - oldbrk)) as Ad by (unfold aligned, PAGE_SIZE in *; Z.div_mod_to_equations; lia).
  assert (PAGE_ALIGN (newbrk - oldbrk) = newbrk - oldbrk) as Hn by (apply page_align_id; [done|lia]).
  destruct (do_brk_run s1 D V1 Hp oldbrk (newbrk - oldbrk)) as [(s2 & D' & Hrun & V2 & P2 & F2 & Hpg & _)|(e & s2 & D' & Hrun & He & V2 & P2 & F2 & Hpg & Hs)]; [done|lia|lia|lia|lia|..];
    erewrite es_bind by exact Hrun; rewrite Hn in *; replace (oldbrk + (newbrk - oldbrk)) with newbrk in * by lia.
  - rewrite Z.eqb_refl. cbn [negb]. apply brk_to with (D' := D'); [done..| | |done].
    + transitivity s1; [subst s1; by split|exact F2].
    + intros a. rewrite Hpg. unfold brk_pages. subst s1. destruct (in_range_spec newbrk oldbrk a), (in_range_spec oldbrk newbrk a); (done || lia).
  - assert (u32 (- e) ≠ oldbrk) as Hne by (destruct (error_above e He); lia).
    destruct (Z.eqb_spec (u32 (- e)) oldbrk); [done|]. cbn [negb]. destruct Hs as [-> _].
    + apply filter_none. intros [x g] Hx [O1 O2]. cbn in *. destruct (overlapping_none _ _ _ Hfree x g Hx); unfold PAGE_SIZE in *; lia.
    + unfold getm. subst s1. by apply brk_same.
Qed.

Lemma sys_brk_run : brk_set (sys_brk brk s).
Proof.
  pose proof (aligned_bounds brk Hb) as [An Bn]. pose proof (aligned_bounds (mm_brk s) Ho) as [Ao Bo]. unfold sys_brk.
  assert (brk_set (getm mm_brk s)) as Hout by by apply brk_same.
  erewrite es_bind by done. destruct (brk <? mm_end_code s); [done|]. erewrite es_bind by done. cbv zeta.
  destruct (Z.eqb_spec oldbrk newbrk) as [Heq|Hne].
  { apply (brk_to s D); [done..| |lia]. intros a. unfold brk_pages. rewrite Heq. by destruct (in_range_spec newbrk newbrk a); [lia|]. }
  destruct (Z.leb_spec brk (mm_brk s)) as [Hle|Hlt]; [apply brk_down; pose proof (page_align_mono brk (mm_brk s)); lia|].
  pose proof (page_align_mono (mm_brk s) brk ltac:(lia) ltac:(lia)).
  erewrite es_bind by done. destruct (_ && _); [done|]. assert (u32 (newbrk + PAGE_SIZE) = newbrk + PAGE_SIZE) as -> by (apply u32_small; unfold TASK_SIZE, PAGE_SIZE in *; lia).
  destruct (intersection_run s D oldbrk (newbrk + PAGE_SIZE) V) as (s1 & r & Hrun & V1 & [c Hc] & Hr); [unfold PAGE_SIZE; lia|].
  erewrite es_bind by exact Hrun. destruct (Z.eqb_spec r 0) as [Hr0|Hr0]; cbn [negb]; [|subst s1; by apply brk_same].
  destruct (vm_enough_memory (pages (u32 (newbrk - oldbrk))) s1) as [[b s2]|] eqn:Hen; [|done].
  assert (s2 = s1) as -> by by injection Hen. erewrite es_bind by exact Hen. destruct b; cbn [negb]; [|subst s1; by apply brk_same].
  apply (brk_up s1 c); [done|done| |by apply Hr]. lia.
Qed.
End brk.
