(* ===== verification/VmaNew.v ===== *)
(** New mappings (mm/mmap.c): the object of a new mapping, the place it gets, and
    what [do_mmap_pgoff] does. *)
From S2P Require Import Prelude RbTree RbShape RbInsert RbErase Vma VmaCalls VmaMmap VmaShape VmaLink VmaUnmap VmaCount VmaMunmap VmaMerge VmaBrk VmaSys.
From stdpp Require Import list options.
#[local] Set Default Proof Using "Type*".
Open Scope cint_scope.
Open Scope Z_scope.

(** * What is asked of files *)

(** The answer of an operation that maps the area [v]: an error, or an area of
    the same size in a file, perhaps moved to a range that is free. *)
Record object_answer (s : mm) (v : vm_area) (error : Z) (g : vm_area) : Prop := {
  oa_error : error = 0 ∨ off_page (u32 error) = true;
  oa_file : error = 0 → vm_file g ≠ 0;
  oa_size : error = 0 → vm_end g - vm_start g = vm_end v - vm_start v;
  oa_locked : error = 0 → (vm_flags g & VM_LOCKED) = (vm_flags v & VM_LOCKED);
  oa_place : error = 0 → vm_start g ≠ vm_start v → aligned (vm_start g) ∧ 0 <= vm_start g ∧ vm_end g <= TASK_SIZE ∧
    ∀ D T, vm_core s D T → overlapping (vm_start g) (vm_end g) D = []
}.

(** The operations of files: [mmap], [get_unmapped_area], [deny_write_access],
    and [shmem_zero_setup]. *)
Class VmObjects `{VmEnv} := {
  mmap_answers s f v : vm_file v ≠ 0 → object_answer s v (file_mmap s f v).1 (file_mmap s f v).2;
  shmem_answers s v : object_answer s v (shmem_zero_setup s v).1 (shmem_zero_setup s v).2;
  area_answers f g s addr len pgoff flags : file_get_unmapped_area f = Some g →
    0 <= g s addr len pgoff flags ∧ (off_page (g s addr len pgoff flags) = true ∨ g s addr len pgoff flags + len <= TASK_SIZE);
  deny_answers s f : file_deny_write s f = 0 ∨ off_page (u32 (file_deny_write s f)) = true
}.

Section objects.
Context `{VE : VmEnv} `{VO : !VmObjects}.

(** * get_unmapped_area *)

(** The address a new mapping gets, or an error. *)
Definition chosen (D : vdata) (s : mm) (file addr len pgoff flags r : Z) : Prop :=
  if flags & MAP_FIXED then r = (if addr >? TASK_SIZE - len then u32 (- ENOMEM) else if off_page addr then u32 (- EINVAL) else addr)
  else match (if negb (file =? 0) then file_get_unmapped_area file else None) with
       | Some f => r = f s addr len pgoff flags
       | None => area_choice D addr len r
       end.

Lemma get_unmapped_run s D file addr len pgoff flags : vm_space s D → 0 <= addr < 2 ^ 32 → 0 < len <= TASK_SIZE →
  ∃ s' r, get_unmapped_area file addr len pgoff flags s = Some (r, s') ∧ vm_space s' D ∧ (∃ c, s' = set_mmap_cache c s) ∧
    chosen D s file addr len pgoff flags r.
Proof.
  intros V Ha Hl. assert (∃ c, s = set_mmap_cache c s) as Hs by (exists (mmap_cache s); by rewrite set_mmap_cache_same).
  unfold get_unmapped_area, chosen. destruct (flags & MAP_FIXED).
  - rewrite u32_small by (unfold TASK_SIZE in *; lia). destruct (addr >? TASK_SIZE - len); [by eexists _, _|]. destruct (off_page addr); by eexists _, _.
  - destruct (if negb (file =? 0) then file_get_unmapped_area file else None) as [f|]; [by eexists _, _|].
    destruct (unmapped_area_run s D addr len V Ha ltac:(unfold TASK_SIZE in *; lia)) as (s' & r & Hrun & V' & Hc & Hr). exists s', r.
    destruct (Z.gtb_spec len TASK_SIZE); [lia|]. by split_and!.
Qed.

Lemma chosen_ok D s file addr len pgoff flags r : chosen D s file addr len pgoff flags r → 0 <= addr → off_page r = false →
  aligned r ∧ 0 <= r ∧ r + len <= TASK_SIZE.
Proof.
  unfold chosen. intros Hc Ha Hr. split; [by apply off_page_false|]. destruct (flags & MAP_FIXED).
  - destruct (Z.gtb_spec addr (TASK_SIZE - len)); [by subst|]. destruct (off_page addr); subst; [done|lia].
  - destruct (if negb (file =? 0) then file_get_unmapped_area file else None) as [f|] eqn:Hf.
    + destruct (negb (file =? 0)); [|done]. destruct (area_answers file f s addr len pgoff flags Hf) as [? [?|?]]; subst; [congruence|lia].
    + destruct Hc as [(_ & [? _] & ->)|(_ & [[-> _]|(Hb & _ & [? _] & _)])]; [|done|].
      * split; [apply page_align_bound|lia].
      * split; [|lia]. etrans; [|exact Hb]. apply page_align_bound.
Qed.

(** * map_object *)

Section map.
Context (s : mm) (D : vdata) (T : tree).

Lemma loose_free s1 e v : loose s s1 D T e v → ∃ s2, free_area e s1 = Some (tt, s2) ∧ vm_core s2 D T ∧ same_rest s s2 ∧ map_count s2 = map_count s.
Proof using.
  intros [S1 S2 S3 S4 S5 S6]. eexists. split; [done|]. split_and!; [by apply vm_core_free| |done]. etrans; [exact S5|]. by split; [split|..].
Qed.

Lemma loose_log s1 e v l : loose s s1 D T e v → loose s (set_mm_log l s1) D T e v.
Proof using.
  intros [S1 S2 S3 S4 S5 S6]. split; try done; [by apply (vm_core_same s1)|]. etrans; [exact S5|]. by split; [split|..].
Qed.

Lemma loose_emit (b : bool) ev s1 e v : loose s s1 D T e v → ∃ s2, (if b then emit_vm ev else mret tt) s1 = Some (tt, s2) ∧ loose s s2 D T e v.
Proof using. intros S. destruct b; [|by exists s1]. eexists. split; [done|]. by apply loose_log. Qed.

(** The area [g] the object gives for [v]. *)
Definition made (file flags vf : Z) (v g : vm_area) : Prop :=
  if negb (file =? 0) then
    (vf & Z.lor VM_GROWSDOWN VM_GROWSUP) = false ∧ ∃ s0, file_mmap s0 file (set_vm_file file v) = (0, g)
  else if flags & MAP_SHARED then ∃ s0, shmem_zero_setup s0 v = (0, g)
  else g = v.

(** What has to hold of it for the area to be linked. *)
Definition usable (v g : vm_area) : Prop :=
  vm_end g - vm_start g = vm_end v - vm_start v ∧ (vm_flags g & VM_LOCKED) = (vm_flags v & VM_LOCKED) ∧
  (vm_start g ≠ vm_start v → aligned (vm_start g) ∧ 0 <= vm_start g ∧ vm_end g <= TASK_SIZE ∧ overlapping (vm_start g) (vm_end g) D = []).

Definition mapped_object (file flags vf e : Z) (v : vm_area) (out : option ((Z + bool) * mm)) : Prop :=
  (∃ err s2, out = Some (inl err, s2) ∧ off_page (u32 err) = true ∧ vm_core s2 D T ∧ same_rest s s2 ∧ map_count s2 = map_count s) ∨
  (∃ cw s2 g, out = Some (inr cw, s2) ∧ loose s s2 D T e g ∧ made file flags vf v g ∧ usable v g ∧ (g = v ∨ vm_file g ≠ 0)).

Lemma map_fail file flags vf e v s1 v1 err : loose s s1 D T e v1 → off_page (u32 err) = true →
  mapped_object file flags vf e v ((free_area e;; mret (inl err)) s1).
Proof using.
  intros S He. destruct (loose_free s1 e v1 S) as (s2 & Hrun & ? & ? & ?). left. exists err, s2. split; [by erewrite es_bind by exact Hrun|done].
Qed.

Lemma answer_usable s0 v g : object_answer s0 v 0 g → vm_core s0 D T → usable v g ∧ vm_file g ≠ 0.
Proof using. intros [_ A2 A3 A4 A5] C. split; [|by apply A2]. split_and!; [by apply A3|by apply A4|]. intros Hne. destruct (A5 eq_refl Hne) as (? & ? & ? & Ho). split_and!; try done. by apply (Ho D T). Qed.

(** [f_op->mmap] answers. *)
Lemma map_file_run file flags vf e v s1 (cw : bool) : loose s s1 D T e v → file ≠ 0 → (vf & Z.lor VM_GROWSDOWN VM_GROWSUP) = false →
  mapped_object file flags vf e v (((if cw then emit_vm (EvWriteCount file (-1)) else mret tt);;
    wa e (set_vm_file file);;
    emit_vm (EvGetFile file);;
    v ← ga e;
    '(error, v) ← getm (λ s, file_mmap s file v);
    wa e (λ _, v);;
    if negb (error =? 0) then
      (if cw then emit_vm (EvWriteCount file 1) else mret tt);;
      wa e (set_vm_file 0);;
      emit_vm (EvPutFile file);;
      emit_vm (EvZap (vm_start v) (u32 (vm_end v - vm_start v)));;
      free_area e;; mret (inl error)
    else mret (inr cw)) s1).
Proof.
  intros S Hf Hgrow. destruct (loose_emit cw (EvWriteCount file (-1)) s1 e v S) as (s2 & E2 & S2). erewrite es_bind by exact E2.
  destruct (loose_wa _ _ _ _ _ _ (set_vm_file file) S2) as (s3 & E3 & S3 & _). erewrite es_bind by exact E3.
  erewrite es_bind by done. pose proof (loose_log _ _ _ (mm_log s3 ++ [EvGetFile file]) S3) as S4. set (s4 := set_mm_log _ s3) in *.
  erewrite es_bind by apply (ga_live _ _ _ (lo_area _ _ _ _ _ _ S4)). pose proof (mmap_answers s4 file (set_vm_file file v) Hf) as Hans.
  destruct (file_mmap s4 file (set_vm_file file v)) as [error g] eqn:Hm. cbn [fst snd] in Hans.
  erewrite es_bind by (unfold getm; rewrite Hm; done). cbv beta iota. destruct (loose_wa _ _ _ _ _ _ (λ _, g) S4) as (s5 & E5 & S5 & _). erewrite es_bind by exact E5.
  destruct (Z.eqb_spec error 0) as [->|He]; cbn [negb].
  - right. exists cw, s5, g. destruct (answer_usable _ _ _ Hans (lo_core _ _ _ _ _ _ S4)) as [Hu Hg]. split_and!; [done|done| |done|by right].
    unfold made. destruct (Z.eqb_spec file 0); [done|]. split; [done|]. by exists s4.
  - destruct (loose_emit cw (EvWriteCount file 1) s5 e g S5) as (s6 & E6 & S6). erewrite es_bind by exact E6.
    destruct (loose_wa _ _ _ _ _ _ (set_vm_file 0) S6) as (s7 & E7 & S7 & _). erewrite es_bind by exact E7.
    erewrite es_bind by done. erewrite es_bind by done. eapply map_fail; [do 2 apply loose_log; exact S7|]. destruct (oa_error _ _ _ _ Hans); [done|done].
Qed.

Lemma map_object_run file flags vf e v s1 : loose s s1 D T e v → mapped_object file flags vf e v (map_object file flags vf e s1).
Proof.
  intros S. unfold map_object. destruct (Z.eqb_spec file 0) as [Hf|Hf]; cbn [negb].
  - destruct (flags & MAP_SHARED) eqn:Hsh.
    + erewrite es_bind by apply (ga_live _ _ _ (lo_area _ _ _ _ _ _ S)). pose proof (shmem_answers s1 v) as Hans.
      destruct (shmem_zero_setup s1 v) as [error g] eqn:Hm. cbn [fst snd] in Hans. erewrite es_bind by (unfold getm; rewrite Hm; done). cbv beta iota.
      destruct (loose_wa _ _ _ _ _ _ (λ _, g) S) as (s2 & E2 & S2 & _). erewrite es_bind by exact E2. destruct (Z.eqb_spec error 0) as [->|He]; cbn [negb].
      * right. exists false, s2, g. destruct (answer_usable _ _ _ Hans (lo_core _ _ _ _ _ _ S)) as [Hu Hg]. split_and!; [done|done| |done|by right].
        unfold made. rewrite Hsh. subst file. by exists s1.
      * eapply map_fail; [exact S2|]. by destruct (oa_error _ _ _ _ Hans).
    + right. exists false, s1, v. split_and!; [done|done| |by split_and!|by left]. unfold made. rewrite Hsh. by subst file.
  - destruct (vf & Z.lor VM_GROWSDOWN VM_GROWSUP) eqn:Hgrow; [by apply (map_fail _ _ _ _ _ s1 v)|].
    destruct (Z.eqb_spec (if vf & VM_DENYWRITE then file_deny_write s1 file else 0) 0) as [Hz|Hz].
    + rewrite (es_bind _ _ _ _ _ (eq_refl : getm (λ s, if vf & VM_DENYWRITE then file_deny_write s file else 0) s1 = _)). rewrite Hz. by apply map_file_run.
    + rewrite (es_bind _ _ _ _ _ (eq_refl : getm (λ s, if vf & VM_DENYWRITE then file_deny_write s file else 0) s1 = _)).
      destruct (Z.eqb_spec (if vf & VM_DENYWRITE then file_deny_write s1 file else 0) 0); [done|]. cbn [negb]. apply (map_fail _ _ _ _ _ s1 v); [done|].
      destruct (vf & VM_DENYWRITE); [|done]. by destruct (deny_answers s1 file).
Qed.
End map.
End objects.

(** New mappings (mm/mmap.c): what [do_mmap_pgoff] does. *)

Section new.
Context `{VE : VmEnv} `{VO : !VmObjects}.

(** * What is mapped *)

Definition enough_for (vf flags n : Z) (s : mm) : bool := match mmap_enough vf flags n s with Some (b, _) => b | None => false end.

Lemma enough_run vf flags n s : mmap_enough vf flags n s = Some (enough_for vf flags n s, s).
Proof using. unfold enough_for, mmap_enough. by destruct (_ && _). Qed.

(** The area as it is filled in. *)
Definition fresh_area (addr n vf pgoff nx : Z) : vm_area := mk_vm_area addr (addr + n) nx (protection_map (Z.land vf 0x0f)) vf 0 pgoff 0 0 0.

(** What the pages of the new mapping at [a] are mapped to: anonymous pages, or
    those of an area its object has set up. *)
Definition contents (file flags vf pgoff addr n a : Z) (m : Z → mapping) : Prop :=
  (file = 0 ∧ (flags & MAP_SHARED) = false ∧ a = addr ∧ ∀ p, m p = anon_mapping vf) ∨
  (∃ nx g, made file flags vf (fresh_area addr n vf pgoff nx) g ∧ (file ≠ 0 ∨ (flags & MAP_SHARED) = true) ∧ a = vm_start g ∧ ∀ p, m p = page_mapping g p).

(** One area more. *)
Lemma added_page E1 E2 e g p : ends_below (vm_start g) E1 →
  at_page (E1 ++ (e, g) :: E2) p = if in_range (vm_start g) (vm_end g) p then Some (page_mapping g p) else at_page (E1 ++ E2) p.
Proof using.
  intros H1. rewrite !at_page_app. cbn [at_page]. destruct (in_range_spec (vm_start g) (vm_end g) p); [|done]. rewrite at_page_none; [done|].
  intros x h Hx. specialize (H1 x h Hx). destruct (in_range_spec (vm_start h) (vm_end h) p); [lia|done].
Qed.

Lemma added_count E1 E2 e g n : vm_end g = vm_start g + n →
  sum_of page_count (E1 ++ (e, g) :: E2) = sum_of page_count (E1 ++ E2) + pages n ∧
  sum_of locked_count (E1 ++ (e, g) :: E2) = sum_of locked_count (E1 ++ E2) + (if vm_flags g & VM_LOCKED then pages n else 0).
Proof using.
  intros He. assert (page_count g = pages n) as Hpc by (unfold page_count; f_equal; lia).
  assert (locked_count g = if vm_flags g & VM_LOCKED then pages n else 0) as Hlc by (unfold locked_count; by rewrite Hpc).
  rewrite !sum_of_app. cbn. fold (sum_of page_count E2) (sum_of locked_count E2). rewrite Hpc, Hlc. lia.
Qed.

(** * From the end of [munmap_back] on *)

Section place.
Context (s : mm) (D1 D2 : vdata) (T : tree) (k : list frame) (addr n flags vf file pgoff : Z).
Context (C : vm_core s (D1 ++ D2) T) (V : vm_space s (D1 ++ D2)) (Hg : gap (D1 ++ D2) T addr (addr + n) k D1 D2) (Hp : plain (D1 ++ D2)).
Context (Ha : aligned addr) (Hn : aligned n) (H0 : 0 <= addr) (H1 : 0 < n) (H2 : addr + n <= TASK_SIZE).
Context (Hsh : file = 0 → (vf & VM_SHARED) = (flags & MAP_SHARED)).

(** The range is mapped, or nothing has happened, for a reason. *)
Inductive place_refused : Z → Prop :=
  | TooLarge : too_large s n = true → place_refused (u32 (- ENOMEM))
  | NotEnough : enough_for vf flags n s = false → place_refused (u32 (- ENOMEM))
  | NoArea : vm_alloc s = None → place_refused (u32 (- ENOMEM))
  | NoObject r : file ≠ 0 ∨ (flags & MAP_SHARED) = true → off_page r = true → place_refused r.

Definition placed_at (out : option (Z * mm)) : Prop :=
  (∃ a s' D' m, out = Some (a, s') ∧ vm_space s' D' ∧ plain D' ∧ same_fields s s' ∧ contents file flags vf pgoff addr n a m ∧
     aligned a ∧ 0 <= a ∧ a + n <= TASK_SIZE ∧ ∀ p, at_page D' p = if in_range a (a + n) p then Some (m p) else at_page (D1 ++ D2) p) ∨
  (∃ r s', out = Some (r, s') ∧ place_refused r ∧ vm_space s' (D1 ++ D2) ∧ same_fields s s').

Lemma refused_off r : place_refused r → off_page r = true.
Proof using. by intros [| | |]. Qed.

(** The place of an area that may have moved. *)
Lemma moved_run s1 e v g : loose s s1 (D1 ++ D2) T e g → vm_start v = addr → vm_end v = addr + n → usable (D1 ++ D2) v g →
  ∃ k' E1 E2, replace_area addr e (place_of k) s1 = Some ((vm_start g, place_of k'), s1) ∧ D1 ++ D2 = E1 ++ E2 ∧
    gap (D1 ++ D2) T (vm_start g) (vm_start g + n) k' E1 E2 ∧ aligned (vm_start g) ∧ 0 <= vm_start g ∧ vm_start g + n <= TASK_SIZE ∧
    vm_end g = vm_start g + n.
Proof.
  intros S Hs He (Hsize & _ & Hplace). unfold replace_area. erewrite es_bind by apply (ga_live _ _ _ (lo_area _ _ _ _ _ _ S)).
  assert (vm_end g = vm_start g + n) as Hend by lia. destruct (Z.eqb_spec addr (vm_start g)) as [Heq|Hne].
  - exists k, D1, D2. rewrite <-Heq in *. by split_and!.
  - destruct Hplace as (P1 & P2 & P3 & P4); [lia|]. pose proof (lo_core _ _ _ _ _ _ S) as C1.
    destruct (prepare_free s1 _ T C1 (vm_start g) (vm_end g) ltac:(lia) P4) as (k' & E1 & E2 & next & Hg' & Hrun & Hcl).
    rewrite Hend in Hg', P3. pose proof (gap_split (vm_start g) n _ _ _ _ _ Hg') as HE. exists k', E1, E2.
    erewrite es_bind by exact Hrun. cbv beta iota. erewrite es_bind by exact Hcl. by split_and!.
Qed.

Lemma placed_new s1 e v g : loose s s1 (D1 ++ D2) T e g → v = fresh_area addr n vf pgoff (vm_next v) → made file flags vf v g → usable (D1 ++ D2) v g →
  (g = v ∨ vm_file g ≠ 0) → ∀ cw : bool, placed_at ((
  '(addr, (prev, rb_link, rb_parent)) ← replace_area addr e (place_of k);
  vma_link e prev rb_link rb_parent;;
  (if cw then emit_vm (EvWriteCount file 1) else mret tt);;
  mapped addr n vf) s1).
Proof.
  intros S Hv Hmade Hu Hfile cw. destruct (moved_run s1 e v g S) as (k' & E1 & E2 & Hrun & HE & Hg' & A1 & A2 & A3 & A4); [by rewrite Hv..|done|].
  erewrite es_bind by exact Hrun. cbv beta iota. unfold place_of at 1. rewrite HE in *.
  destruct (link_loose_run s E1 E2 T k' (vm_start g) n C V Hg' Hp A1 Hn A2 H1 A3 s1 e g S eq_refl A4) as (s2 & T2 & Hrun2 & C2 & R2 & N2 & K2).
  rewrite Hrun2. assert (∃ s3, (if cw then emit_vm (EvWriteCount file 1) else mret tt) s2 = Some (tt, s3) ∧ calm s2 s3) as (s3 & Hrun3 & M3) by by apply emit_if.
  erewrite es_bind by exact Hrun3. pose proof (vm_core_calm _ _ _ _ M3 C2) as C3. destruct (transitivity R2 (cm_rest _ _ M3)) as [F3 K3 T3 L3].
  destruct (added_count E1 E2 e g n A4) as [G1 G2]. assert ((vm_flags g & VM_LOCKED) = (vf & VM_LOCKED)) as Hlk.
  { destruct Hu as (_ & -> & _). by rewrite Hv. }
  rewrite Hlk in G2. destruct (mapped_run s E1 E2 (vm_start g) n vf V s3 _ G1 G2) as (s4 & Hrun4 & V4 & F4);
    [by exists T2|by unfold cached; rewrite (sr_cache _ _ (cm_rest _ _ M3))|by rewrite (cm_count _ _ M3)|done..|].
  left. exists (vm_start g), s4, (E1 ++ (e, g) :: E2), (page_mapping g).
  pose proof Hg' as [(_ & _ & _ & _ & Hbelow & _) _]. split_and!; [done|done| |by etrans| |done..|].
  - apply plain_app in Hp as [P1 P2]. apply plain_app. split; [done|]. change ((e, g) :: E2) with ([(e, g)] ++ E2). apply plain_app. split; [|done].
    apply plain_one. intros Hg0. destruct Hfile as [->|]; [|done]. by rewrite Hv.
  - unfold contents. unfold made in Hmade. rewrite Hv in Hmade. destruct (Z.eqb_spec file 0) as [Hf0|Hf0]; cbn [negb] in Hmade.
    + destruct (flags & MAP_SHARED) eqn:Hfl; [right|left].
      * exists (vm_next v), g. unfold made. rewrite Hfl. subst file. by split_and!; [|right|..].
      * subst g. by split_and!.
    + right. exists (vm_next v), g. unfold made. destruct (Z.eqb_spec file 0); [done|]. by split_and!; [|left|..].
  - intros p. rewrite added_page by done. by rewrite A4, HE.
Qed.

(** [mmap_place] when there is no area to grow. *)
Lemma place_new : placed_at ((vma ← kmem_cache_alloc;
  if vma =? 0 then mret (u32 (- ENOMEM))
  else
    wa vma (λ v, mk_vm_area addr (u32 (addr + n)) (vm_next v) (protection_map (Z.land vf 0x0f)) vf 0 pgoff 0 0 0);;
    r ← map_object file flags vf vma;
    match r with
    | inl error => mret (u32 error)
    | inr correct_wcount =>
        '(addr, (prev, rb_link, rb_parent)) ← replace_area addr vma (place_of k);
        vma_link vma prev rb_link rb_parent;;
        (if correct_wcount : bool then emit_vm (EvWriteCount file 1) else mret tt);;
        mapped addr n vf
    end) s).
Proof.
  destruct (alloc_run s (D1 ++ D2) T C) as [[Hal Hrun]|(e & v & nd & s1 & Hal & Hrun & S)]; erewrite es_bind by exact Hrun.
  { right. eexists _, s. split_and!; [done|by apply NoArea|done..]. }
  destruct (Z.eqb_spec e 0); [by destruct S|]. rewrite (u32_small (addr + n)) by (unfold TASK_SIZE in *; lia).
  set (f := λ v, mk_vm_area _ _ _ _ _ _ _ _ _ _). destruct (loose_wa _ _ _ _ _ _ f (spare_loose _ _ _ _ _ _ S)) as (s2 & Hw & S2 & _). erewrite es_bind by exact Hw.
  destruct (map_object_run s _ T file flags vf e (f v) s2 S2) as [(err & s3 & Hobj & Herr & C3 & R3 & N3)|(cw & s3 & g & Hobj & S3 & M3 & U3 & F3)]; erewrite es_bind by exact Hobj; cbv beta iota.
  - right. eexists _, s3. split_and!; [done| | |by apply R3].
    + apply NoObject; [|done]. destruct (Z.eqb_spec file 0) as [Hf|Hf]; [right|by left]. destruct (flags & MAP_SHARED) eqn:Hfl; [done|].
      unfold map_object in Hobj. by rewrite Hfl, Hf in Hobj.
    + destruct R3 as [_ K3 T3 L3], V as [_ VK [V1 V2 V3]]. split; [by exists T|by unfold cached; rewrite K3|]. split; congruence.
  - eapply (placed_new s3 e (f v) g); done.
Qed.

Lemma merge_at : ∃ b s', (if (file =? 0) && negb (vf & VM_SHARED) && negb (cpar 0 k =? 0)
  then vma_merge (last0 (before_hole k)) (cpar 0 k) addr (addr + n) vf else mret false) s = Some (b, s') ∧
  if (b : bool) then file = 0 ∧ (flags & MAP_SHARED) = false ∧ ∃ D', merged s D1 D2 addr (addr + n) vf s' D' else s' = s.
Proof.
  destruct (merge_try s D1 D2 T k addr n vf C V Hg Hp Ha Hn H0 H1 H2) as (b & s' & Hrun & Hm). destruct (Z.eqb_spec file 0) as [Hf|]; [|by exists false, s].
  rewrite <-(Hsh Hf). destruct (vf & VM_SHARED); [by exists false, s|]. exists b, s'. split; [exact Hrun|]. by destruct b.
Qed.

Lemma mmap_place_run : placed_at (mmap_place file addr n flags pgoff vf (place_of k) s).
Proof.
  unfold mmap_place, place_of. erewrite es_bind by done. destruct (too_large s n) eqn:Hlarge.
  { right. eexists _, s. split_and!; [done|by apply TooLarge|done..]. }
  erewrite es_bind by apply enough_run. destruct (enough_for vf flags n s) eqn:Hen; cbn [negb].
  2:{ right. eexists _, s. split_and!; [done|by apply NotEnough|done..]. }
  rewrite (u32_small (addr + n)) at 1 by (unfold TASK_SIZE in *; lia).
  destruct merge_at as ([] & s' & Hrun & Hm); erewrite es_bind by exact Hrun; cbv iota; [|subst s'; exact place_new].
  destruct Hm as (Hf & Hfl & D' & M). pose proof (mg_grown _ _ _ _ _ _ _ _ M) as [P1 _ _ P4].
  destruct (grown_run s D1 D2 addr n vf V s' D') as (s2 & Hrun2 & V2 & F2); [apply M..|].
  left. exists addr, s2, D', (λ _, anon_mapping vf). split_and!; [done|done|by apply P4|done| |done..]. by left.
Qed.
End place.

(** * do_mmap_pgoff *)

(** The flags of the area before the type of mapping is looked at. *)
Definition mmap_flags (s : mm) (prot flags : Z) : Z :=
  Z.lor (Z.lor (calc_vm_flags prot flags) (mm_def_flags s)) (Z.lor (Z.lor VM_MAYREAD VM_MAYWRITE) VM_MAYEXEC).

Lemma map_type_error s file prot flags vf e : map_type s file prot flags vf = inl e → off_page (u32 (- e)) = true.
Proof using. unfold map_type. repeat case_match; intros [= <-]; by vm_compute. Qed.

(** Without a file, the areas that are shared are those that were asked to be. *)
Lemma map_type_shared s prot flags vf0 vf : map_type s 0 prot flags vf0 = inr vf → (vf & VM_SHARED) = (flags & MAP_SHARED).
Proof using.
  unfold map_type. cbn [Z.eqb negb]. assert (Z.land flags MAP_SHARED = Z.land (Z.land flags MAP_TYPE) 1) as Hfl by by rewrite <-Z.land_assoc.
  unfold flag. rewrite Hfl. destruct (Z.eqb_spec (Z.land flags MAP_TYPE) MAP_PRIVATE) as [->|Hp].
  - intros [= <-]. unfold clear_bits. rewrite <-Z.land_assoc. change (Z.land (Z.lnot _) VM_SHARED) with 0. by rewrite Z.land_0_r.
  - destruct (Z.eqb_spec (Z.land flags MAP_TYPE) MAP_SHARED) as [->|]; [|done]. intros [= <-]. rewrite Z.land_lor_distr_l.
    change (Z.land (Z.lor VM_SHARED VM_MAYSHARE) VM_SHARED) with 8. change (Z.land MAP_SHARED 1) with 1. cbn.
    destruct (Z.eqb_spec (Z.lor (Z.land vf0 VM_SHARED) 8) 0) as [[_ Hz]%Z.lor_eq_0_iff|]; done.
Qed.
Section do_mmap.
Context (s : mm) (D : vdata) (V : vm_space s D) (Hp : plain D) (file addr len prot flags pgoff : Z).
Context (Ha : 0 <= addr < 2 ^ 32) (Hl : 0 <= len < 2 ^ 32).

Notation n := (PAGE_ALIGN len).
Notation at_address := (chosen D s file addr n pgoff flags).

(** The reasons for which a call fails, with what it returns. *)
Inductive mmap_refused : Z → Prop :=
  | NoMmap : file ≠ 0 → file_has_mmap file = false → mmap_refused (u32 (- ENODEV))
  | TooLong : TASK_SIZE < n → mmap_refused (u32 (- EINVAL))
  | PastEnd : u32 (pgoff + pages n) < pgoff → mmap_refused (u32 (- EINVAL))
  | TooMany : max_map_count < map_count s → mmap_refused (u32 (- ENOMEM))
  | NoAddress b : at_address b → off_page b = true → mmap_refused b
  | TooLocked : (mmap_flags s prot flags & VM_LOCKED) = true → too_locked s n = true → mmap_refused (u32 (- EAGAIN))
  | BadType s1 e : map_type s1 file prot flags (mmap_flags s prot flags) = inl e → mmap_refused (u32 (- e))
  | NoRoom b s1 : at_address b → overlapping b (b + n) D ≠ [] → munmap_error s1 D b n ≠ 0 → mmap_refused (u32 (- ENOMEM))
  | NoPlace s1 vf r : place_refused s1 n flags vf file r → mmap_refused r.

(** A call fails for a reason, and then no page has been mapped, and at most what
    was at the address is gone. *)
Definition mmap_failed (r : Z) (D' : vdata) : Prop :=
  mmap_refused r ∧ off_page r = true ∧
  ((∀ p, at_page D' p = at_page D p) ∨
   ∃ b, at_address b ∧ overlapping b (b + n) D ≠ [] ∧ ∀ p, at_page D' p = if in_range b (b + n) p then None else at_page D p).

(** What was at the address [b] is gone, and the new mapping is at [r]. *)
Definition mmap_done (r : Z) (D' : vdata) : Prop :=
  ∃ b s1 vf m, at_address b ∧ map_type s1 file prot flags (mmap_flags s prot flags) = inr vf ∧ contents file flags vf pgoff b n r m ∧
    0 < n ∧ aligned r ∧ 0 <= r ∧ r + n <= TASK_SIZE ∧
    ∀ p, at_page D' p = if in_range r (r + n) p then Some (m p) else if in_range b (b + n) p then None else at_page D p.

Definition mmapped (out : option (Z * mm)) : Prop :=
  ∃ r s' D', out = Some (r, s') ∧ vm_space s' D' ∧ plain D' ∧ same_fields s s' ∧
    (mmap_failed r D' ∨ mmap_done r D' ∨ (n = 0 ∧ r = addr ∧ s' = s ∧ D' = D)).

Lemma mmap_refuse r s' : mmap_refused r → off_page r = true → vm_space s' D → same_fields s s' → mmapped (Some (r, s')).
Proof using Hp. intros Hr Ho V' F. exists r, s', D. split_and!; [done..|]. left. split_and!; [done..|by left]. Qed.

Lemma mmap_len : n ≠ 0 → n <= TASK_SIZE → aligned n ∧ 0 < n.
Proof using Hl.
  clear V Hp Ha. intros Hn Ht. pose proof (page_align_bound len). split; [|lia]. unfold PAGE_ALIGN. rewrite page_floor_div.
  unfold aligned, PAGE_SIZE. Z.div_mod_to_equations. lia.
Qed.

(** From the type of mapping on, at the address [b]. *)
Lemma mmap_at s1 b : vm_space s1 D → same_fields s s1 → at_address b → off_page b = false → n ≠ 0 → n <= TASK_SIZE →
  mmapped ((type ← getm (λ s, map_type s file prot flags (mmap_flags s1 prot flags));
    match type with
    | inl e => mret (u32 (- e))
    | inr vm_flags =>
        place ← clear_range 2 b n;
        match place with
        | None => mret (u32 (- ENOMEM))
        | Some place => mmap_place file b n flags pgoff vm_flags place
        end
    end) s1).
Proof.
  intros V1 F1 Hb Hoff Hn0 Hn1. destruct (mmap_len Hn0 Hn1) as [An Hn]. destruct (chosen_ok _ _ _ _ _ _ _ _ Hb ltac:(lia) Hoff) as (Ab & B1 & B2).
  assert (mmap_flags s1 prot flags = mmap_flags s prot flags) as -> by (unfold mmap_flags; by rewrite (sf_def_flags _ _ F1)).
  erewrite es_bind by done. destruct (map_type s1 file prot flags (mmap_flags s prot flags)) as [e|vf] eqn:Htype.
  { apply mmap_refuse; [by eapply BadType|by eapply map_type_error|done..]. }
  destruct (clear_range_run s1 D V1 b n Ab An B1 Hn B2) as [(Ho & He & Hrun)|(s2 & k & D1 & D2 & T & Hrun & [C2 V2 G2 P2 Q2 F2 S2])]; erewrite es_bind by exact Hrun.
  { apply mmap_refuse; [by eapply NoRoom|done..]. }
  pose proof (plain_pieces D Hp _ Q2) as Hp2. pose proof (transitivity F1 F2) as F12.
  assert (file = 0 → (vf & VM_SHARED) = (flags & MAP_SHARED)) as Hsh by (intros ->; by eapply map_type_shared).
  destruct (mmap_place_run s2 D1 D2 T k b n flags vf file pgoff C2 V2 G2 Hp2 Ab An B1 Hn B2 Hsh) as
    [(a & s3 & D' & m & Hrun3 & V3 & P3 & F3 & Hm & A3 & A4 & A5 & Hpg)|(r & s3 & Hrun3 & Hr & V3 & F3)].
  - exists a, s3, D'. split_and!; [exact Hrun3|done|done|by etrans|]. right. left. exists b, s1, vf, m. split_and!; [done..|].
    intros p. by rewrite Hpg, P2.
  - exists r, s3, (D1 ++ D2). split_and!; [exact Hrun3|done|done|by etrans|]. left. split_and!; [by eapply NoPlace|by eapply refused_off|].
    destruct (decide (overlapping b (b + n) D = [])) as [Ho|Ho]; [left; by destruct (S2 Ho) as [_ ->]|right; by exists b].
Qed.

Lemma do_mmap_run : mmapped (do_mmap_pgoff file addr len prot flags pgoff s).
Proof.
  unfold do_mmap_pgoff. destruct (negb (file =? 0) && negb (file_has_mmap file)) eqn:Hm.
  { apply andb_true_iff in Hm as [Hf%negb_true_iff Hm%negb_true_iff]. apply Z.eqb_neq in Hf. by apply mmap_refuse; [apply NoMmap|..]. }
  destruct (Z.eqb_spec n 0) as [Hn0|Hn0]; [exists addr, s, D; split_and!; [done..|by right; right]|].
  destruct (Z.gtb_spec n TASK_SIZE) as [Hn1|Hn1]; [by apply mmap_refuse; [apply TooLong|..]|].
  destruct (Z.ltb_spec (u32 (pgoff + pages n)) pgoff) as [Hpast|_]; [by apply mmap_refuse; [apply PastEnd|..]|].
  erewrite es_bind by done. destruct (Z.gtb_spec (map_count s) max_map_count) as [Hmany|_]; [by apply mmap_refuse; [apply TooMany|..]|].
  destruct (mmap_len Hn0 Hn1) as [_ Hn]. destruct (get_unmapped_run s D file addr n pgoff flags V Ha ltac:(lia)) as (s1 & b & Hrun & V1 & [c ->] & Hb).
  assert (same_fields s (set_mmap_cache c s)) as F1 by by split.
  erewrite es_bind by exact Hrun. destruct (off_page b) eqn:Hoff; [by apply mmap_refuse; [apply NoAddress|..]|].
  erewrite es_bind by done. erewrite es_bind by done. cbv zeta.
  change (Z.lor (Z.lor (calc_vm_flags prot flags) (mm_def_flags (set_mmap_cache c s))) _) with (mmap_flags (set_mmap_cache c s) prot flags).
  destruct ((mmap_flags (set_mmap_cache c s) prot flags & VM_LOCKED) && too_locked (set_mmap_cache c s) n) eqn:Hlk; [apply andb_true_iff in Hlk as [Hlk1 Hlk2]; by apply mmap_refuse; [apply TooLocked|..]|].
  by apply (mmap_at _ b V1 F1 Hb Hoff).
Qed.
End do_mmap.
End new.
