(* ===== verification/VmaEnd.v ===== *)
(** Stacks that grow, the tree of a copied address space, and the end of an
    address space (mm/mmap.c). *)
From S2P Require Import Prelude RbTree RbShape RbInsert RbErase Vma VmaCalls VmaMmap VmaShape VmaLink VmaUnmap VmaCount VmaMunmap VmaMerge VmaBrk VmaSys.
From stdpp Require Import list options.
#[local] Set Default Proof Using "Type*".
Open Scope cint_scope.
Open Scope Z_scope.

(** * Stacks *)

Section extend.
Context `{VmEnv} (s : mm) (D : vdata) (V : vm_space s D) (Hp : plain D).

(** [g] with [grow] pages more at its start. *)
Definition grown_down (start : Z) (g : vm_area) : vm_area :=
  set_vm_pgoff (u32 (vm_pgoff g - pages (vm_start g - start))) (set_vm_start start g).

(** Why the stack may not grow to [start]. *)
Definition stack_refused (start : Z) (g : vm_area) : bool :=
  (vm_end g - start >? rlim_stack) || (u32 (Z.shiftl (total_vm s + pages (vm_start g - start)) PAGE_SHIFT) >? rlim_as).

Context (D1 D2 : vdata) (x : Z) (g : vm_area) (HD : D = D1 ++ (x, g) :: D2).
Context (start : Z) (Hs : aligned start) (Hs0 : 0 <= start < vm_start g) (Hb : ends_below start D1).

Lemma area_bounds : proper g ∧ 0 <= vm_start g ∧ vm_end g < 2 ^ 32.
Proof.
  destruct (vs_core _ _ V) as [T C]. destruct (laid_elem _ _ D x g (vc_laid _ _ _ C)) as (? & ? & ? & ? & ?); [rewrite HD; apply elem_of_app; right; left|].
  split_and!; [by split|done|lia].
Qed.

Lemma grown_down_page p : page_mapping (grown_down start g) p = page_mapping g p.
Proof.
  destruct area_bounds as ((_ & A & _) & _). unfold page_mapping, grown_down. cbn. f_equal. destruct (vm_file g =? 0); [done|]. do 2 f_equal.
  rewrite u32_add, (pages_split start (vm_start g) p) by done. f_equal. lia.
Qed.

Lemma grown_down_core T : vm_core s D T →
  vm_core (set_mm_areas (<[x := set_vm_next (hd0 D2.*1) (grown_down start g)]> (mm_areas s)) s) (D1 ++ (x, grown_down start g) :: D2) T.
Proof.
  intros C. destruct area_bounds as ((P1 & P2 & P3) & _). rewrite HD in C. apply (resize_core s D1 D2 x g); [done|].
  pose proof (vc_laid _ _ _ C) as Hl. apply laid_mid in Hl as (L1 & L2 & _). apply laid_app. exists start. split; [eapply laid_upto; [exact L1|done|lia]|].
  cbn. split_and!; (done || lia).
Qed.

(** What a stack that has grown to [start] is. *)
Record extended (s' : mm) (D' : vdata) : Prop := {
  ex_space : vm_space s' D';
  ex_pages p : at_page D' p = if in_range start (vm_end g) p then Some (page_mapping g p) else at_page D p;
  ex_plain : plain D';
  ex_fields : same_fields s s'
}.

Lemma extended_page p : at_page (D1 ++ (x, grown_down start g) :: D2) p = if in_range start (vm_end g) p then Some (page_mapping g p) else at_page D p.
Proof.
  rewrite HD, !at_page_app. cbn [at_page]. rewrite grown_down_page. cbn [grown_down set_vm_pgoff set_vm_start vm_start vm_end].
  destruct (in_range_spec start (vm_end g) p) as [Hin|Hout].
  - rewrite at_page_none; [done|]. intros y h Hy. specialize (Hb y h Hy). destruct (in_range_spec (vm_start h) (vm_end h) p); [lia|done].
  - destruct (in_range_spec (vm_start g) (vm_end g) p); [lia|done].
Qed.

Lemma extended_plain : plain (D1 ++ (x, grown_down start g) :: D2).
Proof.
  intros y h Hy. rewrite elem_of_app, elem_of_cons in Hy. destruct Hy as [Hy|[[= -> ->]|Hy]].
  - apply (Hp y). rewrite HD. apply elem_of_app. by left.
  - apply (Hp x g). rewrite HD. apply elem_of_app. right. left.
  - apply (Hp y). rewrite HD. apply elem_of_app. right. by right.
Qed.

Lemma extended_tally :
  sum_of page_count (D1 ++ (x, grown_down start g) :: D2) = sum_of page_count D + pages (vm_start g - start) ∧
  sum_of locked_count (D1 ++ (x, grown_down start g) :: D2) = sum_of locked_count D + (if vm_flags g & VM_LOCKED then pages (vm_start g - start) else 0).
Proof.
  destruct area_bounds as ((P1 & P2 & P3) & _). assert (page_count (grown_down start g) = page_count g + pages (vm_start g - start)) as Hc.
  { unfold page_count. cbn. rewrite (pages_split start (vm_start g) (vm_end g)) by done. lia. }
  assert (locked_count (grown_down start g) = locked_count g + (if vm_flags g & VM_LOCKED then pages (vm_start g - start) else 0)) as Hk.
  { unfold locked_count. rewrite Hc. cbn. destruct (vm_flags g & VM_LOCKED); lia. }
  rewrite HD, !sum_of_app. cbn. fold (sum_of page_count D2) (sum_of locked_count D2). lia.
Qed.

Lemma expand_stack_run address : page_floor address = start → 
  (stack_refused start g = true ∧ expand_stack x address s = Some (- ENOMEM, s)) ∨
  (stack_refused start g = false ∧ ∃ s', expand_stack x address s = Some (0, s') ∧ extended s' (D1 ++ (x, grown_down start g) :: D2)).
Proof.
  intros Haddr. destruct (vs_core _ _ V) as [T C]. destruct area_bounds as ((P1 & P2 & P3) & B1 & B2). pose proof (grown_down_core T C) as C'.
  destruct extended_tally as [T1 T2]. destruct (laid_tally _ (vc_laid _ _ _ C')) as [N1 N2]. destruct (laid_tally _ (vc_laid _ _ _ C)) as [M1 M2].
  destruct (vs_tally _ _ V) as [K1 K2 K3]. pose proof C as C2. rewrite HD in C2. destruct (tail_list _ _ _ _ _ _ C2) as (_ & _ & Hx).
  unfold expand_stack. rewrite Haddr. erewrite es_bind by by apply ga_live. erewrite es_bind by done. cbn [set_vm_next vm_start vm_end vm_pgoff vm_flags].
  rewrite (u32_small (vm_start g - start)), (u32_small (vm_end g - start)), (u32_small (total_vm s + pages (vm_start g - start))) by lia.
  change (_ || _) with (stack_refused start g). destruct (stack_refused start g); [by left|right; split; [done|]].
  erewrite es_bind by by apply wa_live. erewrite es_bind by (apply wa_live; cbn; by rewrite lookup_insert_eq).
  cbn [set_mm_areas mm_areas]. rewrite insert_insert_eq. erewrite es_bind by done. destruct (vm_flags g & VM_LOCKED) eqn:Hlk.
  - eexists. split; [by erewrite es_bind by done|]. split; [|exact extended_page|exact extended_plain|by split]. split; [exists T; by eapply vm_core_same, C'|..].
    + destruct (vs_cached _ _ V) as [Hk|Hk]; [by left|right]. cbn. rewrite HD in Hk. by rewrite fmap_app in *.
    + split; cbn; [rewrite K1, HD, !length_app; done|rewrite u32_small; lia|rewrite u32_small; lia].
  - eexists. split; [by erewrite es_bind by done|]. split; [|exact extended_page|exact extended_plain|by split]. split; [exists T; by eapply vm_core_same, C'|..].
    + destruct (vs_cached _ _ V) as [Hk|Hk]; [by left|right]. cbn. rewrite HD in Hk. by rewrite fmap_app in *.
    + split; cbn; [rewrite K1, HD, !length_app; done|rewrite u32_small; lia|lia].
Qed.
End extend.

Lemma space_log s D l : vm_space s D → vm_space (set_mm_log l s) D.
Proof. intros [[T C] Hk [T1 T2 T3]]. split; [exists T; by apply (vm_core_same s)|done|by split]. Qed.

(** The first area that ends above [addr]. *)
Definition area_above (addr : Z) (D : vdata) : option (Z * vm_area) := head (filter (λ xg, addr < vm_end xg.2) D).

Lemma area_above_none addr D : ends_below addr D → area_above addr D = None.
Proof. intros He. unfold area_above. rewrite filter_none; [done|]. intros [x g] Hx. specialize (He x g Hx). cbn. lia. Qed.

Lemma area_above_some addr D1 x g D2 : ends_below addr D1 → addr < vm_end g → area_above addr (D1 ++ (x, g) :: D2) = Some (x, g).
Proof.
  intros He Hg. unfold area_above. rewrite filter_app, filter_none, filter_cons_True by (cbn; done || (intros [y h] Hy; specialize (He y h Hy); cbn; lia)). done.
Qed.

Section find_extend.
Context `{VmEnv} (s : mm) (D : vdata) (V : vm_space s D) (Hp : plain D) (addr : Z) (Ha : 0 <= addr).
Notation start := (page_floor addr).

(** The area at [addr], grown if it is a stack that may grow. *)
Definition extends (r : Z) (D' : vdata) : Prop :=
  match area_above start D with
  | None => r = 0 ∧ D' = D
  | Some (x, g) =>
      if vm_start g <=? start then r = x ∧ D' = D
      else if negb (vm_flags g & VM_GROWSDOWN) || stack_refused s start g then r = 0 ∧ D' = D
      else r = x ∧ ∀ p, at_page D' p = if in_range start (vm_end g) p then Some (page_mapping g p) else at_page D p
  end.

Definition found_or_extended (out : option (Z * mm)) : Prop :=
  ∃ r s' D', out = Some (r, s') ∧ vm_space s' D' ∧ plain D' ∧ same_fields s s' ∧ extends r D'.

Lemma find_extend_run : found_or_extended (find_extend_vma addr s).
Proof.
  assert (aligned start ∧ 0 <= start) as [As S0] by (rewrite page_floor_div; unfold aligned, PAGE_SIZE; split; Z.div_mod_to_equations; lia).
  destruct (find_vma_space s D start V) as (s1 & Hrun & V1 & [c ->]). set (s1 := set_mmap_cache c s) in *.
  unfold find_extend_vma. erewrite es_bind by exact Hrun.
  assert (∀ r, extends r D → found_or_extended (Some (r, s1))) as Hsame by (intros r Hr; by exists r, s1, D).
  destruct (first_split D start) as [[-> Hb]|(D1 & x & g & D2 & HD & -> & Hb & Hg)].
  { apply Hsame. unfold extends. by rewrite area_above_none. }
  assert (area_above start D = Some (x, g)) as Hab by (rewrite HD; by apply area_above_some). unfold extends in Hsame. rewrite Hab in Hsame.
  destruct (vs_core _ _ V1) as [T C]. assert ((x, g) ∈ D) as Hx by (rewrite HD; apply elem_of_app; right; left). pose proof (vc_nonzero s1 D T C x g Hx).
  destruct (Z.eqb_spec x 0); [done|]. destruct (ga_run s1 D T C x g Hx) as [nx Hga]. erewrite es_bind by exact Hga. cbn [set_vm_next vm_start vm_flags].
  destruct (Z.leb_spec (vm_start g) start) as [|Hlt]; [by apply Hsame|]. destruct (vm_flags g & VM_GROWSDOWN) eqn:Hgrow; cbn [negb orb] in *; [|by apply Hsame].
  destruct (expand_stack_run s1 D V1 Hp D1 D2 x g HD start As ltac:(lia) Hb start) as [[Href Hrun2]|[Href (s2 & Hrun2 & [V2 P2 Q2 F2])]].
  { unfold page_floor. by rewrite <-Z.land_assoc, Z.land_diag. }
  - erewrite es_bind by exact Hrun2. apply Hsame. change (stack_refused s1 start g) with (stack_refused s start g) in Href. by rewrite Href.
  - erewrite es_bind by exact Hrun2. change (stack_refused s1 start g) with (stack_refused s start g) in Href. cbn [Z.eqb negb Z.opp].
    assert (∃ s3, (if vm_flags g & VM_LOCKED then emit_vm (EvMakePresent start (vm_start g)) else mret tt) s2 = Some (tt, s3) ∧ vm_space s3 (D1 ++ (x, grown_down start g) :: D2) ∧ same_fields s s3) as (s3 & Hrun3 & V3 & F3).
    { destruct (vm_flags g & VM_LOCKED); eexists; (split; [done|]); [split; [by apply space_log|by destruct F2; split]|split; [exact V2|by destruct F2; split]]. }
    exists x, s3, (D1 ++ (x, grown_down start g) :: D2). split; [by erewrite es_bind by exact Hrun3|].
    assert (∀ p, at_page (D1 ++ (x, grown_down start g) :: D2) p = if in_range start (vm_end g) p then Some (page_mapping g p) else at_page D p) as P2' by exact P2.
    unfold extends. rewrite Hab, Hgrow, Href. destruct (Z.leb_spec (vm_start g) start); [lia|]. cbn [negb orb].
    by split_and!.
Qed.
End find_extend.

(** * The end of an address space *)

Section exit.
Context `{VmEnv}.

(** What is done for each area, in order. *)
Definition exit_events (xg : Z * vm_area) : list vm_event :=
  let '(x, g) := xg in
  (if negb (vm_ops g =? 0) && has_vclose (vm_ops g) then [EvClose x] else []) ++
  (if negb (vm_file g =? 0) then [EvUnlinkFile x] else []) ++
  [EvZap (vm_start g) (vm_end g - vm_start g)] ++
  (if negb (vm_file g =? 0) then [EvPutFile (vm_file g)] else []).

Lemma emit_exact (b : bool) e s : (if b then emit_vm e else mret tt) s = Some (tt, set_mm_log (mm_log s ++ if b then [e] else []) s).
Proof using. destruct b; [done|]. rewrite app_nil_r. by destruct s. Qed.

(** Nothing but areas, nodes, the number of areas and the log has changed. *)
Record freed (D : vdata) (s s' : mm) : Prop := {
  fr_gone x : x ∈ D.*1 → mm_areas s' !! x = None ∧ rb_heap (mm_rb s') !! x = None;
  fr_others x : x ∉ D.*1 → mm_areas s' !! x = mm_areas s !! x ∧ rb_heap (mm_rb s') !! x = rb_heap (mm_rb s) !! x;
  fr_root : rb_root (mm_rb s') = rb_root (mm_rb s);
  fr_mmap : mm_mmap s' = mm_mmap s;
  fr_rest : same_rest s s';
  fr_count : map_count s' = map_count s - Z.of_nat (length D);
  fr_log : mm_log s' = mm_log s ++ (D ≫= exit_events)
}.

Lemma exit_one s x g : -2 ^ 31 < map_count s < 2 ^ 31 → ∃ s1, (∀ B (K : VM B), (
    (if negb (vm_ops g =? 0) && has_vclose (vm_ops g) then emit_vm (EvClose x) else mret tt);;
    count_down;;
    (if negb (vm_file g =? 0) then emit_vm (EvUnlinkFile x) else mret tt);;
    emit_vm (EvZap (vm_start g) (vm_end g - vm_start g));;
    (if negb (vm_file g =? 0) then emit_vm (EvPutFile (vm_file g)) else mret tt);;
    free_area x;; K) s = K s1) ∧ freed [(x, g)] s s1.
Proof.
  intros Hc. eexists. split.
  - intros B K. do 6 (erewrite es_bind by first [apply emit_exact|done]). done.
  - split; cbn.
    + intros y ->%list_elem_of_singleton. by rewrite !lookup_delete_eq.
    + intros y Hy. rewrite !lookup_delete_ne; [done|..]; intros ->; apply Hy; left.
    + done.
    + done.
    + by split; [split|..].
    + rewrite s32_small; lia.
    + rewrite app_nil_r. cbn. by rewrite <-!app_assoc.
Qed.

Lemma freed_trans D1 D2 s1 s2 s3 : freed D1 s1 s2 → freed D2 s2 s3 → (∀ x, x ∈ D1.*1 → x ∉ D2.*1) → freed (D1 ++ D2) s1 s3.
Proof using.
  intros [A1 A2 A3 A4 A5 A6 A7] [B1 B2 B3 B4 B5 B6 B7] Hd. split.
  - intros x Hx. rewrite fmap_app, elem_of_app in Hx. destruct (decide (x ∈ D2.*1)) as [H2|H2]; [by apply B1|]. destruct Hx as [Hx|]; [|done].
    destruct (B2 x H2) as [-> ->]. by apply A1.
  - intros x Hx. rewrite fmap_app, elem_of_app in Hx. destruct (B2 x ltac:(tauto)) as [-> ->]. apply A2. tauto.
  - congruence.
  - congruence.
  - by etrans.
  - rewrite B6, A6, length_app. lia.
  - by rewrite B7, A7, bind_app, app_assoc.
Qed.

Lemma exit_loop_run D : ∀ s p fuel, vseg (mm_areas s) p D 0 → 0 ∉ D.*1 → NoDup D.*1 → (length D < fuel)%nat →
  (∀ x g, (x, g) ∈ D → 0 <= vm_start g <= vm_end g ∧ vm_end g < 2 ^ 32) → Z.of_nat (length D) <= map_count s < 2 ^ 31 →
  ∃ s', exit_loop fuel p s = Some (tt, s') ∧ freed D s s'.
Proof.
  induction D as [|[x g] D IH]; intros s p [|fuel] Hl H0 Hnd Hf Hb Hc; [cbn in Hf; lia| |cbn in Hf; lia|].
  - cbn in Hl. subst p. exists s. split; [done|]. split; [intros x Hx; by apply elem_of_nil in Hx|done..| |].
    + cbn. lia.
    + by rewrite app_nil_r.
  - destruct Hl as (-> & nx & Hx & Hl). cbn in H0, Hnd, Hf, Hc. apply not_elem_of_cons in H0 as [Hx0 H0]. apply list.NoDup_cons in Hnd as [Hni Hnd].
    destruct (Hb x g ltac:(left)) as [B1 B2]. cbn [exit_loop]. destruct (Z.eqb_spec x 0); [done|].
    erewrite es_bind by by apply ga_live. cbn [set_vm_next vm_next vm_ops vm_file vm_start vm_end]. cbv zeta.
    rewrite (u32_small (vm_end g - vm_start g)) by lia. destruct (exit_one s x g ltac:(lia)) as (s1 & Hrun & F1). rewrite Hrun.
    assert (∀ y, y ∈ D.*1 → y ∉ [(x, g)].*1) as Hni' by (intros y Hy ->%list_elem_of_singleton; done).
    destruct (IH s1 nx fuel) as (s2 & Hrun2 & F2); [|done|done|lia|intros y h Hy; apply (Hb y h); by right|rewrite (fr_count _ _ _ F1); cbn; lia|].
    + eapply vseg_agree; [|exact Hl]. intros y Hy. by apply F1, Hni'.
    + exists s2. split; [exact Hrun2|]. apply (freed_trans [(x, g)] D s s1 s2 F1 F2). intros y Hy Hy2. by apply (Hni' y).
Qed.

(** Every area goes, and the address space is empty. *)
Lemma exit_mmap_run s D : vm_space s D → ∃ s', exit_mmap s = Some (tt, s') ∧ vm_space s' [] ∧
  (∀ x, mm_areas s' !! x = if decide (x ∈ D.*1) then None else mm_areas s !! x) ∧
  mm_log s' = mm_log s ++ (D ≫= exit_events) ++ [EvClearPageTables 0 USER_PTRS_PER_PGD].
Proof.
  intros V. destruct (vs_core _ _ V) as [T C]. destruct (vs_tally _ _ V) as [K1 _ _]. destruct (laid_tally _ (vc_laid _ _ _ C)) as [N1 _].
  set (s1 := set_locked_vm 0 (set_total_vm 0 (set_mm_rb (mk_rb_state (rb_heap (mm_rb s)) 0) (set_mmap_cache 0 (set_mm_mmap 0 s))))).
  destruct (exit_loop_run D s1 (mm_mmap s) (S (base.size (mm_areas s)))) as (s2 & Hrun & [G1 G2 G3 G4 [F5 C5 T5 L5] G6 G7]).
  { exact (vc_list _ _ _ C). }
  { intros ([x g] & Hx & Hin)%list_elem_of_fmap. cbn in Hx. subst. by apply (vc_nonzero s D T C 0 g). }
  { exact (vc_nodup _ _ _ C). }
  { pose proof (vc_length _ _ _ C). lia. }
  { intros x g Hx. destruct (laid_elem _ _ _ _ _ (vc_laid _ _ _ C) Hx) as (? & ? & ? & _). lia. }
  { cbn. lia. }
  assert (exit_mmap s = Some (tt, set_mm_log (mm_log s2 ++ [EvClearPageTables 0 USER_PTRS_PER_PGD]) s2)) as ->.
  { unfold exit_mmap. do 2 erewrite es_bind by done. do 5 erewrite es_bind by done. erewrite es_bind by exact Hrun. erewrite es_bind by done.
    rewrite G6. cbn. rewrite K1, Z.sub_diag. done. }
  eexists. split; [done|].
  assert (∀ x, mm_areas s2 !! x = if decide (x ∈ D.*1) then None else mm_areas s !! x) as Ha by (intros x; destruct (decide (x ∈ D.*1)); [by apply G1|by apply G2]).
  split_and!; [|exact Ha|by rewrite G7, app_assoc].
  split; [exists Leaf; split|by left; cbn; rewrite C5|split; cbn; [rewrite G6; cbn; lia|by rewrite T5|by rewrite L5]]; cbn.
  - by rewrite G4.
  - done.
  - split_and!; [by rewrite G3|done|intros z; cbn; lia].
  - by split; [|exists 0%nat].
  - done.
  - intros p. rewrite Ha. destruct (decide (p ∈ D.*1)) as [Hp|Hp]; [destruct (G1 p Hp) as [_ ->]; done|]. destruct (G2 p Hp) as [_ ->]. apply (vc_nodes _ _ _ C).
  - rewrite Ha, (vc_null _ _ _ C). by destruct (decide _).
Qed.
End exit.

(** * The tree of a copied list *)

(** The hole at the right end of a tree. *)
Lemma right_hole t : ∀ k, after_hole k = [] → ∃ k', plug k t = plug k' Leaf ∧ after_hole k' = [] ∧
  (t = Leaf → k' = k) ∧ (t ≠ Leaf → hole_slot k' = RightOf (last0 (inorder t)) ∧ cpar 0 k' = last0 (inorder t)).
Proof.
  induction t as [|c l _ x r IH]; intros k Hk; [by exists k|]. destruct (IH (Fr SR c x l :: k) Hk) as (k' & H1 & H2 & H3 & H4).
  exists k'. split_and!; [done|done|done|]. intros _. destruct r as [|cr lr xr rr].
  - rewrite H3 by done. cbn [hole_slot cpar inorder]. by rewrite last0_app.
  - destruct (H4 ltac:(done)) as [-> ->]. assert (last0 (inorder (Node c l x (Node cr lr xr rr))) = last0 (inorder (Node cr lr xr rr))) as ->; [|done].
    cbn [inorder]. rewrite (cons_middle x), app_assoc, (last0_more (inorder l ++ [x])); [done|]. by destruct (inorder lr).
Qed.

Section build.
Context (A : gmap Z vm_area).

(** The first areas are in the tree. *)
Record building (s : mm) (D : vdata) (T : tree) : Prop := {
  bd_tree : rb_holds (mm_rb s) T;
  bd_balanced : red_black T;
  bd_order : inorder T = D.*1;
  bd_areas : mm_areas s = A;
  bd_nodes p : is_Some (A !! p) ↔ is_Some (rb_heap (mm_rb s) !! p)
}.

Lemma build_loop_run E : ∀ s D1 T p link par fuel, building s D1 T → vseg A p E 0 → NoDup (D1 ++ E).*1 → 0 ∉ E.*1 → (length E < fuel)%nat →
  (D1 = [] → link = RootSlot ∧ par = 0) → (D1 ≠ [] → link = RightOf (last0 D1.*1) ∧ par = last0 D1.*1) →
  ∃ s' T', build_loop fuel p link par s = Some (tt, s') ∧ building s' (D1 ++ E) T' ∧ ∃ r, s' = set_mm_rb r s.
Proof.
  induction E as [|[x g] E IH]; intros s D1 T p link par [|fuel] B Hl Hnd H0 Hf Hnil Hcons; [cbn in Hf; lia| |cbn in Hf; lia|].
  - cbn in Hl. subst p. exists s, T. rewrite app_nil_r. split_and!; [done|done|]. exists (mm_rb s). by destruct s.
  - destruct Hl as (-> & nx & Hx & Hl). cbn in H0, Hf. apply not_elem_of_cons in H0 as [Hx0 H0]. destruct B as [Ht Hb Ho HA Hn].
    destruct (right_hole T [] eq_refl) as (k & HT & Hk & Hk1 & Hk2). cbn [plug] in HT.
    assert (before_hole k = D1.*1) as Hbef by (rewrite <-Ho, HT, inorder_context, Hk; by rewrite !app_nil_r).
    assert (link = hole_slot k ∧ par = cpar 0 k) as [-> ->].
    { destruct T as [|c l y r]; [rewrite Hk1 by done; apply Hnil; by destruct D1|]. destruct (Hk2 ltac:(done)) as [-> ->].
      rewrite Ho. apply Hcons. intros ->. cbn in Ho. by destruct (inorder l). }
    assert (x ∉ D1.*1) as Hni by (rewrite fmap_app in Hnd; apply NoDup_app in Hnd as (_ & Hnd & _); intros Hin; apply (Hnd x Hin); left).
    rewrite HT in Ht, Hb. destruct (insert_run (mm_rb s) k x Ht Hb (not_eq_sym Hx0)) as (tr & T' & Hins & Ht' & Hb' & Ho' & _).
    { apply Hn. by eexists. } { rewrite <-HT, Ho. done. }
    pose proof (keeps_insert _ _ _ _ _ _ Hins) as Hdom. cbn [build_loop]. destruct (Z.eqb_spec x 0); [done|].
    unfold __vma_link_rb. erewrite es_bind by (apply on_tree_bind; exact Hins). set (s1 := set_mm_rb tr s).
    erewrite es_bind by (apply ga_live; cbn; rewrite HA; exact Hx). cbn [set_vm_next vm_next].
    destruct (IH s1 (D1 ++ [(x, g)]) T' nx (RightOf x) x fuel) as (s2 & T2 & Hrun2 & B2 & r & ->).
    + split; cbn; [done|done|by rewrite Ho', Hk, fmap_app, Hbef|done|]. intros q. rewrite Hn, <-!elem_of_dom. by rewrite Hdom.
    + done.
    + by rewrite <-app_assoc.
    + done.
    + lia.
    + intros Hnil'. by destruct D1.
    + intros _. by rewrite last0_snoc.
    + exists (set_mm_rb r s1), T2. rewrite <-app_assoc in B2. split_and!; [exact Hrun2|exact B2|by exists r].
Qed.
End build.

(** A list of areas in order, with whatever tree. *)
Record vm_listed (s : mm) (D : vdata) : Prop := {
  li_list : vseg (mm_areas s) (mm_mmap s) D 0;
  li_laid : laid 0 (2 ^ 32 - 1) D;
  li_apart : NoDup D.*1;
  li_nodes p : is_Some (mm_areas s !! p) ↔ is_Some (rb_heap (mm_rb s) !! p);
  li_null : mm_areas s !! 0 = None
}.

Lemma build_mmap_run s D : vm_listed s D → ∃ r T, build_mmap_rb s = Some (tt, set_mm_rb r s) ∧ vm_core (set_mm_rb r s) D T.
Proof.
  intros [L1 L2 L3 L4 L5]. set (s1 := set_mm_rb (mk_rb_state (rb_heap (mm_rb s)) 0) s).
  destruct (build_loop_run (mm_areas s) D s1 [] Leaf (mm_mmap s) RootSlot 0 (S (base.size (mm_areas s)))) as (s2 & T & Hrun & [B1 B2 B3 B4 B5] & r & ->).
  - split; [split_and!; [done|done|intros z; cbn; lia]|by split; [|exists 0%nat]|done..].
  - exact L1.
  - exact L3.
  - intros ([x g] & Hx & Hin)%list_elem_of_fmap. cbn in Hx. subst x. destruct (vseg_elem _ _ _ _ _ _ L1 Hin) as [nx Hnx]. by rewrite L5 in Hnx.
  - rewrite <-(length_fmap fst D). apply Nat.lt_succ_r, nodup_size; [done|]. intros x ([y g] & -> & Hx)%list_elem_of_fmap.
    destruct (vseg_elem _ _ _ _ _ _ L1 Hx) as [nx Hnx]. by eexists.
  - done.
  - done.
  - exists r, T. cbn [app] in *. split; [|by split]. unfold build_mmap_rb. do 3 erewrite es_bind by done. exact Hrun.
Qed.
