(* ===== verification/VmaSplit.v ===== *)
(** Splitting an area into parts with different labels (mm/mlock.c,
    mm/mprotect.c). *)
From S2P Require Import Prelude RbTree RbShape RbInsert RbErase Vma VmaCalls VmaMmap VmaProt VmaShape VmaLink VmaUnmap VmaCount VmaMunmap VmaMerge VmaBrk VmaSys VmaNew.
From stdpp Require Import list options.
#[local] Set Default Proof Using "Type*".
Open Scope cint_scope.
Open Scope Z_scope.

(** * Labels of pages *)

Definition relabel_page (fl : Z) (pr : option Z) (m : mapping) : mapping :=
  mk_mapping fl (default (mp_prot m) pr) (mp_ops m) (mp_private m) (mp_file m).

Definition locked_by (fl n : Z) : Z := if fl & VM_LOCKED then n else 0.

Section labels.
Context `{VmEnv} (lo hi fl : Z) (pr : option Z).

(** The pages of [lo, hi) have a new label, the others are as they were; where
    they had the flags [fl0]. *)
Record relabelled (fl0 : Z) (D D' : vdata) : Prop := {
  rw_pages a : at_page D' a = if in_range lo hi a then relabel_page fl pr <$> at_page D a else at_page D a;
  rw_total : sum_of page_count D' = sum_of page_count D;
  rw_locked : sum_of locked_count D' = sum_of locked_count D + locked_by fl (pages (hi - lo)) - locked_by fl0 (pages (hi - lo));
  rw_plain : plain D → plain D'
}.

Definition in_gap (E1 E2 : vdata) : Prop := (∀ x g, (x, g) ∈ E1 → vm_end g <= lo) ∧ (∀ x g, (x, g) ∈ E2 → hi <= vm_start g).

Lemma relabelled_mid fl0 E1 M M' E2 : in_gap E1 E2 → relabelled fl0 M M' → relabelled fl0 (E1 ++ M ++ E2) (E1 ++ M' ++ E2).
Proof using.
  intros [H1 H2] [G1 G2 G3 G4]. split.
  - intros a. rewrite !at_page_app, G1. destruct (in_range_spec lo hi a) as [Hr|Hr]; [|done].
    rewrite (at_page_none E1); [rewrite (at_page_none E2); [by destruct (at_page M a)|]|].
    + intros x g Hx. specialize (H2 x g Hx). destruct (in_range_spec (vm_start g) (vm_end g) a); [lia|done].
    + intros x g Hx. specialize (H1 x g Hx). destruct (in_range_spec (vm_start g) (vm_end g) a); [lia|done].
  - rewrite !sum_of_app, G2. lia.
  - rewrite !sum_of_app, G3. lia.
  - rewrite !plain_app. naive_solver.
Qed.

(** ** The parts of one area *)

Context (g : vm_area) (Hg : proper g) (Hg0 : 0 <= vm_start g) (Hge : vm_end g < 2 ^ 32) (Al : aligned lo) (Ah : aligned hi).

Lemma right_page x a : aligned x → vm_start g <= x <= vm_end g → page_mapping (right_area x g) a = page_mapping g a.
Proof. intros Ax Hx. destruct Hg as (_ & ? & _). apply right_mapping; (done || lia). Qed.

Lemma right_relabel x a : aligned x → vm_start g <= x <= vm_end g → page_mapping (relabel fl pr (right_area x g)) a = relabel_page fl pr (page_mapping g a).
Proof. intros Ax Hx. by rewrite <-(right_page x a) by done. Qed.

(** The parts are plain if the area is, and so is the area with the new label. *)
Definition label_ok : Prop := plain_area g → plain_area (relabel fl pr g).

(** What the page [a] is mapped to, and the counts. *)
Ltac parts :=
  split; [intros a; cbn [at_page vm_start vm_end set_vm_end set_vm_start set_vm_raend set_vm_pgoff relabel right_area];
      repeat match goal with |- context [in_range ?p ?q a] => destruct (in_range_spec p q a) end; cbn [fmap option_fmap option_map];
      first [done|lia|apply (f_equal Some); first [apply right_relabel|apply right_page]; (done || lia)]
    |cbn; unfold page_count; cbn
    |cbn; unfold locked_count, locked_by, page_count; cbn
    |rewrite ?plain_app, ?plain_one].

Lemma relabel_all x : label_ok → lo = vm_start g → hi = vm_end g → relabelled (vm_flags g) [(x, g)] [(x, relabel fl pr g)].
Proof.
  intros Hp H1 H2. parts; rewrite ?H1, ?H2; [done|lia|done].
Qed.

Lemma relabel_start x n : label_ok → lo = vm_start g → lo < hi < vm_end g →
  relabelled (vm_flags g) [(x, g)] ([(n, set_vm_raend 0 (relabel fl pr (set_vm_end hi g)))] ++ [(x, right_area hi g)]).
Proof.
  intros Hp H1 H2. pose proof (pages_split (vm_start g) hi (vm_end g) ltac:(apply Hg) Ah) as Hs. cbn [app]. parts; rewrite ?H1.
  - lia.
  - destruct (fl & VM_LOCKED), (vm_flags g & VM_LOCKED); lia.
  - intros Hpl. apply (plain_app [_] [_]). rewrite !plain_one. split; [exact (Hp Hpl)|exact Hpl].
Qed.

Lemma relabel_end x n : label_ok → hi = vm_end g → vm_start g < lo < hi →
  relabelled (vm_flags g) [(x, g)] ([(x, set_vm_end lo g)] ++ [(n, set_vm_raend 0 (relabel fl pr (right_area lo g)))]).
Proof.
  intros Hp H1 H2. pose proof (pages_split (vm_start g) lo (vm_end g) ltac:(apply Hg) Al) as Hs. cbn [app]. parts; rewrite ?H1.
  - lia.
  - destruct (fl & VM_LOCKED), (vm_flags g & VM_LOCKED); lia.
  - intros Hpl. apply (plain_app [_] [_]). rewrite !plain_one. split; [exact Hpl|exact (Hp Hpl)].
Qed.

Lemma relabel_middle x l r : label_ok → vm_start g < lo → lo < hi → hi < vm_end g →
  relabelled (vm_flags g) [(x, g)] ([(l, set_vm_raend 0 (set_vm_end lo g))] ++ [(x, set_vm_raend 0 (relabel fl pr (set_vm_end hi (right_area lo g))))] ++
    [(r, set_vm_raend 0 (right_area hi g))]).
Proof.
  intros Hp H1 H2 H3. pose proof (pages_split (vm_start g) lo (vm_end g) ltac:(apply Hg) Al) as Hs. pose proof (pages_split lo hi (vm_end g) Al Ah) as Ht.
  cbn [app]. parts.
  - lia.
  - destruct (fl & VM_LOCKED), (vm_flags g & VM_LOCKED); lia.
  - intros Hpl. apply (plain_app [_] [_; _]). split; [by apply plain_one|]. apply (plain_app [_] [_]). rewrite !plain_one. split; [exact (Hp Hpl)|exact Hpl].
Qed.
End labels.

(** * Areas in no list *)

Section loose.
Context `{VmEnv} (s : mm).

(** Another loose area is still there. *)
Lemma loose_frame s1 s2 D T e v : loose s s1 D T e v → vm_core s2 D T → mm_areas s2 !! e = mm_areas s1 !! e → same_rest s1 s2 →
  map_count s2 = map_count s1 → loose s s2 D T e v.
Proof using. intros [S1 S2 S3 S4 S5 S6] C Ha R N. split; [done|done|by rewrite Ha|done|by etrans|by rewrite N]. Qed.

(** [*e = *x], with changes. *)
Lemma copy_run s1 D T e v x g f : loose s s1 D T e v → (x, g) ∈ D → ∃ s2 nx, copy_area e x f s1 = Some (tt, s2) ∧ loose s s2 D T e (f (set_vm_next nx g)) ∧
  vm_core s2 D T ∧ (∀ y, y ≠ e → mm_areas s2 !! y = mm_areas s1 !! y) ∧ same_rest s1 s2 ∧ map_count s2 = map_count s1.
Proof using.
  intros S Hx. pose proof S as [S1 S2 S3 S4 S5 S6]. destruct (ga_run s1 D T S4 x g Hx) as [nx Hga]. unfold copy_area. erewrite es_bind by exact Hga.
  assert (is_Some (rb_heap (mm_rb s1) !! x)) as [nd Hnd].
  { destruct (vc_area s1 D T S4 x g Hx) as [nx' Hx']. apply (vc_nodes _ _ _ S4). by eexists. }
  assert (on_tree (ld x) s1 = Some (nd, s1)) as Hld by (unfold on_tree, ld; rewrite Hnd; by destruct s1). erewrite es_bind by exact Hld.
  destruct (loose_wa _ _ _ _ _ _ (λ _, f (set_vm_next nx g)) S) as (s2 & Hw & S' & _). erewrite es_bind by exact Hw.
  assert (s2 = set_mm_areas (<[e := f (set_vm_next nx g)]> (mm_areas s1)) s1) as -> by (rewrite (wa_live _ _ _ _ S3) in Hw; by injection Hw).
  assert (is_Some (rb_heap (mm_rb s1) !! e)) as [ne Hne] by (apply (vc_nodes _ _ _ S4); by eexists).
  set (s3 := set_mm_rb (mk_rb_state (<[e := nd]> (rb_heap (mm_rb s1))) (rb_root (mm_rb s1))) (set_mm_areas (<[e := f (set_vm_next nx g)]> (mm_areas s1)) s1)).
  assert (vm_core s3 D T) as C3.
  { apply (vm_core_agree (set_mm_areas (<[e := f (set_vm_next nx g)]> (mm_areas s1)) s1)); cbn; [apply S'|done|..|done|done].
    - intros y Hy. apply lookup_insert_ne. by intros ->.
    - intros p. rewrite !live_insert by by eexists. apply (vc_nodes _ _ _ S4).
    - apply (vc_null _ _ _ (lo_core _ _ _ _ _ _ S')). }
  exists s3, nx. split_and!; [unfold on_tree, st; cbn; by rewrite Hne| |exact C3| |by split; [split|..]|done].
  - split; [done|done|cbn; by rewrite lookup_insert_eq|exact C3|etrans; [exact S5|by split; [split|..]]|done].
  - intros y Hy. cbn. by rewrite lookup_insert_ne.
Qed.

(** The area [x] gets other bounds. *)
Lemma resize_run s1 D1 D2 T x g g' f e v : loose s s1 (D1 ++ (x, g) :: D2) T e v → laid 0 (2 ^ 32 - 1) (D1 ++ (x, g') :: D2) →
  (∀ nx, f (set_vm_next nx g) = set_vm_next nx g') → ∃ s2, wa x f s1 = Some (tt, s2) ∧ vm_core s2 (D1 ++ (x, g') :: D2) T ∧
    loose s s2 (D1 ++ (x, g') :: D2) T e v ∧ (∀ y, y ≠ x → mm_areas s2 !! y = mm_areas s1 !! y) ∧ same_rest s1 s2 ∧ map_count s2 = map_count s1.
Proof using.
  intros [S1 S2 S3 S4 S5 S6] Hl Hf. destruct (tail_list _ _ _ _ _ _ S4) as (_ & _ & Hx). pose proof (resize_core _ _ _ _ _ g' _ S4 Hl) as C2.
  eexists. split; [apply wa_live; exact Hx|]. rewrite Hf. assert (x ≠ e) by (intros ->; apply S2; rewrite fmap_app; apply elem_of_app; right; left).
  split_and!; [exact C2| |intros y Hy; by apply lookup_insert_ne|by split; [split|..]|done].
  split; [done|by rewrite fmap_app in *|cbn; by rewrite lookup_insert_ne|exact C2|etrans; [exact S5|by split; [split|..]]|done].
Qed.

(** A loose area gets its place. *)
Lemma insert_run_loose s1 E1 E2 T e nx v : loose s s1 (E1 ++ E2) T e (set_vm_next nx v) → laid 0 (2 ^ 32 - 1) (E1 ++ (e, v) :: E2) → cached s (E1 ++ E2) →
  map_count s = Z.of_nat (length (E1 ++ E2)) → ∃ s2 T', insert_vm_struct e s1 = Some (tt, s2) ∧ vm_core s2 (E1 ++ (e, v) :: E2) T' ∧
    altered s s2 (E1 ++ (e, v) :: E2) ∧ others (e :: (E1 ++ E2).*1) s1 s2.
Proof using.
  intros [S1 S2 S3 S4 S5 S6] Hl Hk Hc. destruct (insert_vm_struct_run s1 E1 E2 T e _ v S4 S3 S2 Hl) as (s2 & T' & Hrun & C2 & O2 & R2 & N2 & _). exists s2, T'. split_and!; [done..| |done].
  pose proof (transitivity S5 R2) as [F3 K3 T3 L3]. split; [by exists T'| | |done..].
  - unfold cached in *. rewrite K3. destruct Hk as [Hk|Hk]; [by left|right]. rewrite fmap_app in *. cbn. rewrite !elem_of_app, !elem_of_cons in *. tauto.
  - rewrite N2, S6, Hc. destruct (laid_tally _ Hl) as [B1 _]. rewrite !length_app in *. cbn in *. rewrite s32_small; lia.
Qed.

(** The allocator leaves what is live alone. *)
Lemma alloc_keeps s1 e s2 y : kmem_cache_alloc s1 = Some (e, s2) → e ≠ 0 → is_Some (mm_areas s1 !! y) → y ≠ e ∧ mm_areas s2 !! y = mm_areas s1 !! y.
Proof using.
  unfold kmem_cache_alloc. destruct (vm_alloc s1) as [[[p v] n]|] eqn:Hal; [|by intros [= <-]]. intros [= -> <-] _ [g Hy].
  destruct (vm_alloc_fresh _ _ _ _ Hal) as (_ & Hf & _). assert (y ≠ e) by (intros ->; congruence). split; [done|]. cbn. by rewrite lookup_insert_ne.
Qed.

Lemma loose_calm s1 s2 D T e v : loose s s1 D T e v → calm s1 s2 → loose s s2 D T e v.
Proof using.
  intros S M. eapply loose_frame; [exact S|eapply vm_core_calm; [exact M|apply S]|by rewrite (cm_areas _ _ M)|apply M|apply M].
Qed.

Lemma altered_trans s1 s2 D1 D2 : altered s s1 D1 → same_fields s1 s2 → total_vm s2 = total_vm s1 → locked_vm s2 = locked_vm s1 →
  (∃ T, vm_core s2 D2 T) → cached s2 D2 → map_count s2 = Z.of_nat (length D2) → altered s s2 D2.
Proof using. intros [_ _ _ F1 T1 L1] F T L C K N. split; [done..|by etrans|congruence|congruence]. Qed.

(** The quiet events of a new part. *)
Lemma part_events s1 D T e v g n : loose s s1 D T e v → ∃ s2, (∀ B (K : VM B), (get_part g;; open_part g n;; K) s1 = K s2) ∧ loose s s2 D T e v ∧ calm s1 s2.
Proof.
  intros S. destruct (emit_if (negb (vm_file g =? 0)) (EvGetFile (vm_file g)) s1 I) as (s2 & E2 & M2).
  destruct (emit_if (negb (vm_ops g =? 0) && has_vopen (vm_ops g)) (EvOpen n) s2 I) as (s3 & E3 & M3). pose proof (transitivity M2 M3) as M.
  exists s3. split_and!; [intros B K; unfold get_part, open_part; erewrite es_bind by exact E2; by erewrite es_bind by exact E3| |exact M].
  by eapply loose_calm.
Qed.
End loose.

(** * The three splits *)

Section split.
Context `{VmEnv} (s : mm) (D1 D2 : vdata) (x : Z) (g : vm_area) (T : tree).
Context (C : vm_core s (D1 ++ (x, g) :: D2) T) (V : vm_space s (D1 ++ (x, g) :: D2)).
Context (fl : Z) (pr : option Z) (lo hi : Z) (Al : aligned lo) (Ah : aligned hi).

Lemma split_bounds : proper g ∧ 0 <= vm_start g ∧ vm_end g < 2 ^ 32 ∧ laid 0 (vm_start g) D1 ∧ laid (vm_end g) (2 ^ 32 - 1) D2.
Proof.
  pose proof (laid_mid _ _ _ _ _ _ (vc_laid _ _ _ C)) as (L1 & L2 & P). destruct (laid_elem _ _ _ x g (vc_laid _ _ _ C)) as (? & ? & ? & _).
  { apply elem_of_app. right. left. }
  split_and!; (done || lia).
Qed.

Lemma split_start_run error : lo = vm_start g → lo < hi < vm_end g →
  (vm_alloc s = None ∧ split_start x hi fl pr error s = Some (- error, s)) ∨
  ∃ n s', split_start x hi fl pr error s = Some (0, s') ∧
    altered s s' (D1 ++ [(n, set_vm_raend 0 (relabel fl pr (set_vm_end hi g))); (x, right_area hi g)] ++ D2).
Proof.
  intros Hlo Hhi. destruct split_bounds as ((P1 & P2 & P3) & B1 & B2 & L1 & L2). unfold split_start.
  destruct (alloc_run s _ T C) as [[Hal Hrun]|(e & v & nd & s1 & Hal & Hrun & S)]; erewrite es_bind by exact Hrun; [by left|right].
  destruct (Z.eqb_spec e 0); [by destruct S|]. pose proof (spare_loose _ _ _ _ _ _ S) as S1.
  assert ((x, g) ∈ D1 ++ (x, g) :: D2) as Hx by (apply elem_of_app; right; left).
  destruct (ga_run s1 _ T (lo_core _ _ _ _ _ _ S1) x g Hx) as [nx Hga]. erewrite es_bind by exact Hga.
  destruct (copy_run s s1 _ T e v x g (λ v, set_vm_raend 0 (relabel fl pr (set_vm_end hi v))) S1 Hx) as (s2 & nx2 & Hc & S2 & _). erewrite es_bind by exact Hc.
  destruct (part_events s s2 _ T e _ (set_vm_next nx g) e S2) as (s3 & Hev & S3 & _). rewrite Hev.
  destruct (resize_run s s3 D1 D2 T x g (right_area hi g) (move_start hi) e _ S3) as (s4 & Hw & _ & S4 & _); [|done|].
  { apply laid_app. exists (vm_start g). split; [done|]. cbn. split_and!; (done || lia). }
  erewrite es_bind by exact Hw. destruct (insert_run_loose s s4 D1 ((x, right_area hi g) :: D2) T e nx2 (set_vm_raend 0 (relabel fl pr (set_vm_end hi g))) S4) as
    (s5 & T5 & Hins & _ & A5 & _).
  { apply laid_app. exists (vm_start g). split; [done|]. cbn. split_and!; (done || lia). }
  { pose proof (vs_cached _ _ V) as Hk. unfold cached in *. by rewrite fmap_app in *. }
  { destruct (vs_tally _ _ V) as [-> _ _]. by rewrite !length_app. }
  exists e, s5. split; [by erewrite es_bind by exact Hins|]. exact A5.
Qed.

Lemma split_end_run error : hi = vm_end g → vm_start g < lo < hi →
  (vm_alloc s = None ∧ split_end x lo fl pr error s = Some ((- error, 0), s)) ∨
  ∃ n s', split_end x lo fl pr error s = Some ((0, n), s') ∧
    altered s s' (D1 ++ [(x, set_vm_end lo g); (n, set_vm_raend 0 (relabel fl pr (right_area lo g)))] ++ D2).
Proof.
  intros Hhi Hlo. destruct split_bounds as ((P1 & P2 & P3) & B1 & B2 & L1 & L2). unfold split_end.
  destruct (alloc_run s _ T C) as [[Hal Hrun]|(e & v & nd & s1 & Hal & Hrun & S)]; erewrite es_bind by exact Hrun; [by left|right].
  destruct (Z.eqb_spec e 0); [by destruct S|]. pose proof (spare_loose _ _ _ _ _ _ S) as S1.
  assert ((x, g) ∈ D1 ++ (x, g) :: D2) as Hx by (apply elem_of_app; right; left).
  destruct (ga_run s1 _ T (lo_core _ _ _ _ _ _ S1) x g Hx) as [nx Hga]. erewrite es_bind by exact Hga.
  destruct (copy_run s s1 _ T e v x g (λ v, set_vm_raend 0 (relabel fl pr (move_start lo v))) S1 Hx) as (s2 & nx2 & Hc & S2 & _). erewrite es_bind by exact Hc.
  destruct (part_events s s2 _ T e _ (set_vm_next nx g) e S2) as (s3 & Hev & S3 & _). rewrite Hev.
  destruct (resize_run s s3 D1 D2 T x g (set_vm_end lo g) (set_vm_end lo) e _ S3) as (s4 & Hw & _ & S4 & _); [|done|].
  { apply laid_app. exists (vm_start g). split; [done|]. cbn. split_and!; try (done || lia). eapply laid_weaken; [|done|exact L2]. lia. }
  erewrite es_bind by exact Hw. change (D1 ++ (x, set_vm_end lo g) :: D2) with (D1 ++ [(x, set_vm_end lo g)] ++ D2) in S4. rewrite app_assoc in S4.
  destruct (insert_run_loose s s4 (D1 ++ [(x, set_vm_end lo g)]) D2 T e nx2 (set_vm_raend 0 (relabel fl pr (right_area lo g))) S4) as
    (s5 & T5 & Hins & _ & A5 & _).
  { rewrite <-app_assoc. apply laid_app. exists (vm_start g). split; [done|]. cbn. rewrite Hhi in *. split_and!; (done || lia). }
  { pose proof (vs_cached _ _ V) as Hk. unfold cached in *. rewrite <-app_assoc. by rewrite fmap_app in *. }
  { destruct (vs_tally _ _ V) as [-> _ _]. rewrite <-app_assoc. by rewrite !length_app. }
  exists e, s5. split; [by erewrite es_bind by exact Hins|]. by rewrite <-app_assoc in A5.
Qed.

(** Two areas in no list. *)
Definition loose2 (s1 : mm) (D : vdata) (l : Z) (vl : vm_area) (r : Z) (vr : vm_area) : Prop :=
  loose s s1 D T l vl ∧ loose s s1 D T r vr ∧ l ≠ r.

Lemma alloc2_run :
  (∃ l s1, kmem_cache_alloc s = Some (l, s1) ∧ ((l = 0 ∧ s1 = s) ∨ (l ≠ 0 ∧ kmem_cache_alloc s1 = Some (0, s1) ∧
    ∃ s2, free_area l s1 = Some (tt, s2) ∧ vm_core s2 (D1 ++ (x, g) :: D2) T ∧ same_rest s s2 ∧ map_count s2 = map_count s))) ∨
  ∃ l s1 r s2 vl vr, kmem_cache_alloc s = Some (l, s1) ∧ kmem_cache_alloc s1 = Some (r, s2) ∧ l ≠ 0 ∧ r ≠ 0 ∧ loose2 s2 (D1 ++ (x, g) :: D2) l vl r vr.
Proof using C.
  destruct (alloc_run s _ T C) as [[_ Hrun]|(l & vl & nl & s1 & _ & Hrun & S)]; [left; exists 0, s; split; [done|by left]|].
  pose proof (spare_loose _ _ _ _ _ _ S) as S1. pose proof (lo_null _ _ _ _ _ _ S1) as Hl0.
  destruct (alloc_run s1 _ T (lo_core _ _ _ _ _ _ S1)) as [[_ Hrun2]|(r & vr & nr & s2 & _ & Hrun2 & S')].
  - left. exists l, s1. split; [done|]. right. destruct (loose_free s _ T s1 l vl S1) as (s2 & ? & ? & ? & ?). split_and!; [done..|by exists s2].
  - right. exists l, s1, r, s2, vl, vr. pose proof (spare_loose _ _ _ _ _ _ S') as [R1 R2 R3 R4 R5 R6].
    destruct (alloc_keeps s1 r s2 l Hrun2 R1) as [Hne Hk]; [rewrite (lo_area _ _ _ _ _ _ S1); by eexists|].
    split_and!; [done..|]. split_and!; [|split; try done|done].
    + by eapply loose_frame.
    + etrans; [apply S1|done].
    + rewrite R6. apply S1.
Qed.

(** Both are filled in. *)
Lemma copy2_run s2 l vl r vr fl' fr : loose2 s2 (D1 ++ (x, g) :: D2) l vl r vr → ∃ s4 nl nr,
  (∀ B (K : VM B), (copy_area l x fl';; copy_area r x fr;; K) s2 = K s4) ∧
  loose2 s4 (D1 ++ (x, g) :: D2) l (fl' (set_vm_next nl g)) r (fr (set_vm_next nr g)).
Proof using.
  intros (L & R & Hne). assert ((x, g) ∈ D1 ++ (x, g) :: D2) as Hx by (apply elem_of_app; right; left).
  destruct (copy_run s s2 _ T l vl x g fl' L Hx) as (s3 & nl & E3 & L3 & C3 & A3 & R3 & N3).
  assert (loose s s3 (D1 ++ (x, g) :: D2) T r vr) as Rr by (eapply loose_frame; [exact R|done|by apply A3|done|done]).
  destruct (copy_run s s3 _ T r vr x g fr Rr Hx) as (s4 & nr & E4 & R4 & C4 & A4 & Q4 & N4). exists s4, nl, nr. split.
  - intros B K. erewrite es_bind by exact E3. by erewrite es_bind by exact E4.
  - split_and!; [|done|done]. eapply loose_frame; [exact L3|done|by apply A4|done|done].
Qed.

Lemma loose2_calm s1 s2 D l vl r vr : loose2 s1 D l vl r vr → calm s1 s2 → loose2 s2 D l vl r vr.
Proof using. intros (L & R & Hne) M. split_and!; [by eapply loose_calm|by eapply loose_calm|done]. Qed.

(** The area in the middle gets its bounds, and the parts their places. *)
Lemma insert2_run s5 l nl vl r nr vr g' f : loose2 s5 (D1 ++ (x, g) :: D2) l (set_vm_next nl vl) r (set_vm_next nr vr) →
  laid 0 (2 ^ 32 - 1) (D1 ++ [(l, vl); (x, g'); (r, vr)] ++ D2) → (∀ nx, f (set_vm_next nx g) = set_vm_next nx g') →
  ∃ s8, (∀ B (K : VM B), (wa x f;; insert_vm_struct l;; insert_vm_struct r;; K) s5 = K s8) ∧ altered s s8 (D1 ++ [(l, vl); (x, g'); (r, vr)] ++ D2).
Proof using V.
  intros (L & R & Hne) Hl Hf. cbn [app] in *. pose proof (laid_gap _ _ _ _ _ _ Hl) as (Hl1 & _).
  pose proof Hl1 as Hl2. rewrite (cons_middle (x, g')), app_assoc in Hl2. apply laid_gap in Hl2 as (Hl2 & _). rewrite <-app_assoc in Hl2. cbn [app] in Hl2.
  pose proof Hl as Hl3. rewrite (cons_middle (l, vl)), app_assoc, (cons_middle (x, g')), app_assoc in Hl3. apply laid_gap in Hl3 as (Hl3 & _). rewrite <-!app_assoc in Hl3. cbn [app] in Hl3.
  destruct (resize_run s s5 D1 D2 T x g g' f l _ L Hl2 Hf) as (s6 & Hw & C6 & L6 & _).
  destruct (resize_run s s5 D1 D2 T x g g' f r _ R Hl2 Hf) as (s6' & Hw' & _ & R6 & _). rewrite Hw in Hw'. injection Hw' as <-.
  pose proof (vs_cached _ _ V) as Hk. destruct (vs_tally _ _ V) as [Hn _ _].
  destruct (insert_run_loose s s6 D1 ((x, g') :: D2) T l nl vl L6) as (s7 & T7 & E7 & C7 & A7 & O7).
  { exact Hl3. }
  { unfold cached in *. by rewrite fmap_app in *. }
  { rewrite Hn. by rewrite !length_app. }
  pose proof (lo_new _ _ _ _ _ _ R6) as Hr. assert (r ∉ (D1 ++ (l, vl) :: (x, g') :: D2).*1) as Hr'.
  { rewrite !fmap_app in *. cbn in *. rewrite !elem_of_app, !elem_of_cons in *. naive_solver. }
  assert (loose s7 s7 ((D1 ++ [(l, vl); (x, g')]) ++ D2) T7 r (set_vm_next nr vr)) as R7.
  { rewrite <-app_assoc. split; [apply R6|exact Hr'| |exact C7|done|done]. rewrite (ot_areas _ _ _ O7); [apply R6|]. apply not_elem_of_cons. by split. }
  destruct (insert_run_loose s7 s7 (D1 ++ [(l, vl); (x, g')]) D2 T7 r nr vr R7) as (s8 & T8 & E8 & C8 & A8 & _).
  { by rewrite <-app_assoc. }
  { rewrite <-app_assoc. apply A7. }
  { rewrite <-app_assoc. apply A7. }
  rewrite <-app_assoc in A8. exists s8. split.
  - intros B K. erewrite es_bind by exact Hw. erewrite es_bind by exact E7. by erewrite es_bind by exact E8.
  - destruct A8 as [K1 K2 K3 K4 K5 K6]. by eapply altered_trans.
Qed.

Lemma split_middle_run error : vm_start g < lo → lo < hi → hi < vm_end g →
  (∃ s', split_middle x lo hi fl pr error s = Some ((- error, 0), s') ∧ vm_space s' (D1 ++ (x, g) :: D2) ∧ same_fields s s') ∨
  ∃ l r s', split_middle x lo hi fl pr error s = Some ((0, r), s') ∧
    altered s s' (D1 ++ [(l, set_vm_raend 0 (set_vm_end lo g)); (x, set_vm_raend 0 (relabel fl pr (set_vm_end hi (right_area lo g))));
      (r, set_vm_raend 0 (right_area hi g))] ++ D2).
Proof.
  intros H1 H2 H3. destruct split_bounds as ((P1 & P2 & P3) & B1 & B2 & L1 & L2). unfold split_middle.
  destruct alloc2_run as [(l & s1 & Hl & [[-> ->]|(Hl0 & Hr & s2 & Hf & C2 & R2 & N2)])|(l & s1 & r & s2 & vl & vr & Hl & Hr & Hl0 & Hr0 & P)];
    erewrite es_bind by exact Hl; [left; by exists s|..]; (destruct (Z.eqb_spec l 0); [done|]); erewrite es_bind by exact Hr.
  { left. exists s2. rewrite Z.eqb_refl. split; [by erewrite es_bind by exact Hf|]. destruct R2 as [F2 K2 T2 L2']. split; [|done]. destruct V as [_ VK [V1 V2 V3]].
    split; [by exists T|unfold cached in *; by rewrite K2|split; congruence]. }
  right. destruct (Z.eqb_spec r 0); [done|]. destruct P as (PL & PR & Hne). assert ((x, g) ∈ D1 ++ (x, g) :: D2) as Hx by (apply elem_of_app; right; left).
  destruct (ga_run s2 _ T (lo_core _ _ _ _ _ _ PL) x g Hx) as [nx Hga]. erewrite es_bind by exact Hga.
  destruct (copy2_run s2 l vl r vr (λ v, set_vm_raend 0 (set_vm_end lo v)) (λ v, set_vm_raend 0 (move_start hi v)) (conj PL (conj PR Hne))) as (s3 & nl & nr & Hc & P3').
  rewrite Hc. set (v := set_vm_next nx g).
  destruct (emit_if (negb (vm_file v =? 0)) (EvGetFile (vm_file v)) s3 I) as (s4 & E4 & M4). destruct (emit_if (negb (vm_file v =? 0)) (EvGetFile (vm_file v)) s4 I) as (s5 & E5 & M5).
  destruct (emit_if (negb (vm_ops v =? 0) && has_vopen (vm_ops v)) (EvOpen l) s5 I) as (s6 & E6 & M6). destruct (emit_if (negb (vm_ops v =? 0) && has_vopen (vm_ops v)) (EvOpen r) s6 I) as (s7 & E7 & M7).
  unfold get_part, open_part. erewrite es_bind by exact E4. erewrite es_bind by exact E5. erewrite es_bind by exact E6. erewrite es_bind by exact E7.
  pose proof (loose2_calm _ _ _ _ _ _ _ P3' (transitivity M4 (transitivity M5 (transitivity M6 M7)))) as P7.
  destruct (insert2_run s7 l nl (set_vm_raend 0 (set_vm_end lo g)) r nr (set_vm_raend 0 (right_area hi g)) (set_vm_raend 0 (relabel fl pr (set_vm_end hi (right_area lo g)))) 
    (λ v, set_vm_raend 0 (relabel fl pr (set_vm_end hi (move_start lo v)))) P7) as (s8 & Hi & A8); [|done|].
  { apply laid_app. exists (vm_start g). split; [done|]. cbn. split_and!; (done || lia). }
  exists l, r, s8. split; [by rewrite Hi|exact A8].
Qed.
(** ** The outcomes *)

Context (Hlab : label_ok fl pr g).

Definition unparted (s' : mm) : Prop := vm_space s' (D1 ++ (x, g) :: D2) ∧ same_fields s s'.
Definition parted (P : vdata) (s' : mm) : Prop := altered s s' (D1 ++ P ++ D2) ∧ relabelled lo hi fl pr (vm_flags g) [(x, g)] P.

Lemma all_parts : lo = vm_start g → hi = vm_end g → ∃ s', wa x (relabel fl pr) s = Some (tt, s') ∧ parted [(x, relabel fl pr g)] s'.
Proof.
  intros Hlo Hhi. destruct split_bounds as (P & B1 & B2 & L1 & L2). destruct (tail_list _ _ _ _ _ _ C) as (_ & _ & Hx). pose proof P as (P1 & P2 & P3).
  pose proof V as [_ Hk [Hn _ _]]. eexists. split; [by apply wa_live|]. split; [|by apply relabel_all].
  split; [exists T; apply (resize_core s D1 D2 x g (relabel fl pr g) T C)| | |by split|done..].
  - apply laid_app. exists (vm_start g). split; [done|]. cbn. split_and!; (done || lia).
  - unfold cached in *. by rewrite fmap_app in *.
  - cbn. rewrite Hn. by rewrite !length_app.
Qed.

Lemma start_parts error : lo = vm_start g → lo < hi < vm_end g → ∃ r s', split_start x hi fl pr error s = Some (r, s') ∧
  ((r = - error ∧ unparted s') ∨ (r = 0 ∧ ∃ P, parted P s')).
Proof.
  intros H1 H2. destruct split_bounds as (P & B1 & B2 & _). destruct (split_start_run error H1 H2) as [[_ Hrun]|(n & s' & Hrun & A)]; eexists _, _; (split; [exact Hrun|]).
  - left. by split.
  - right. split; [done|]. eexists. split; [exact A|]. by apply relabel_start.
Qed.

Lemma end_parts error : hi = vm_end g → vm_start g < lo < hi → ∃ r n s', split_end x lo fl pr error s = Some ((r, n), s') ∧
  ((r = - error ∧ unparted s') ∨ (r = 0 ∧ ∃ Q h, parted (Q ++ [(n, h)]) s' ∧ vm_end h = hi)).
Proof.
  intros H1 H2. destruct split_bounds as (P & B1 & B2 & _). destruct (split_end_run error H1 H2) as [[_ Hrun]|(n & s' & Hrun & A)]; eexists _, _, _; (split; [exact Hrun|]).
  - left. by split.
  - right. split; [done|]. exists [(x, set_vm_end lo g)], (set_vm_raend 0 (relabel fl pr (right_area lo g))). split; [|done]. split; [exact A|]. by apply relabel_end.
Qed.

Lemma middle_parts error : vm_start g < lo → lo < hi → hi < vm_end g → ∃ r n s', split_middle x lo hi fl pr error s = Some ((r, n), s') ∧
  ((r = - error ∧ unparted s') ∨ (r = 0 ∧ ∃ P, parted P s')).
Proof.
  intros H1 H2 H3. destruct split_bounds as (P & B1 & B2 & _). destruct (split_middle_run error H1 H2 H3) as [(s' & Hrun & V' & F)|(l & r & s' & Hrun & A)];
    eexists _, _, _; (split; [exact Hrun|]).
  - left. by split.
  - right. split; [done|]. eexists. split; [exact A|]. by apply relabel_middle.
Qed.
End split.
