(* ===== verification/VmaLock.v ===== *)
(** Lemmas on the calls of mm/mlock.c. *)
From S2P Require Import Prelude RbTree RbShape Vma VmaCalls VmaMmap VmaProt VmaShape VmaLink VmaUnmap VmaCount VmaMunmap VmaMerge VmaBrk VmaSys VmaSplit.
From stdpp Require Import list options.
#[local] Set Default Proof Using "Type*".
Open Scope cint_scope.
Open Scope Z_scope.

(** * Ranges of pages that change *)

Definition changed (lo hi : Z) (ch : mapping → mapping) (D D' : vdata) : Prop :=
  ∀ a, at_page D' a = if in_range lo hi a then ch <$> at_page D a else at_page D a.

Definition covered (lo hi : Z) (D : vdata) : Prop := ∀ a, lo <= a < hi → is_Some (at_page D a).

Lemma changed_none lo ch D : changed lo lo ch D D.
Proof. intros a. by destruct (in_range_spec lo lo a) as [?|_]; [lia|]. Qed.

Lemma changed_trans lo mid hi ch D D1 D2 : lo <= mid <= hi → changed lo mid ch D D1 → changed mid hi ch D1 D2 → changed lo hi ch D D2.
Proof.
  intros Hm H1 H2 a. rewrite H2, H1. destruct (in_range_spec lo mid a), (in_range_spec mid hi a), (in_range_spec lo hi a); (done || lia).
Qed.

(** Between [lo] and [hi] nothing but [M]. *)
Lemma changed_mid lo hi ch E1 E2 M P : in_gap lo hi E1 E2 → changed lo hi ch M P → changed lo hi ch (E1 ++ M ++ E2) (E1 ++ P ++ E2).
Proof.
  intros [H1 H2] Hch a. rewrite !at_page_app, Hch. destruct (in_range_spec lo hi a) as [Hr|Hr]; [|done].
  rewrite (at_page_none E1); [rewrite (at_page_none E2); [by destruct (at_page M a)|]|].
  - intros y h Hy. specialize (H2 y h Hy). destruct (in_range_spec (vm_start h) (vm_end h) a); [lia|done].
  - intros y h Hy. specialize (H1 y h Hy). destruct (in_range_spec (vm_start h) (vm_end h) a); [lia|done].
Qed.

(** The pages of an area that get the same label. *)
Lemma relabelled_changed `{VmEnv} lo hi fl pr fl0 ch M P : relabelled lo hi fl pr fl0 M P →
  (∀ a m, lo <= a < hi → at_page M a = Some m → ch m = relabel_page fl pr m) → changed lo hi ch M P.
Proof.
  intros [Hp _ _ _] Hch a. rewrite Hp. destruct (in_range_spec lo hi a) as [Hr|]; [|done]. destruct (at_page M a) as [m|] eqn:Hm; [|done]. cbn. by rewrite (Hch a m).
Qed.

Lemma one_page x g a m : at_page [(x, g)] a = Some m → m = page_mapping g a.
Proof. cbn [at_page]. destruct (in_range _ _ a); [by intros [= <-]|done]. Qed.

(** An area that is to have the label it has. *)
Lemma unchanged lo hi ch x g : (∀ a, ch (page_mapping g a) = page_mapping g a) → changed lo hi ch [(x, g)] [(x, g)].
Proof.
  intros Hch a. cbn [at_page]. destruct (in_range lo hi a), (in_range (vm_start g) _ a); (done || cbn; by rewrite Hch).
Qed.

Lemma covered_one lo hi D1 x g D2 : vm_start g <= lo → hi <= vm_end g → covered lo hi (D1 ++ (x, g) :: D2).
Proof.
  intros Hlo Hhi a Ha. rewrite at_page_app. destruct (at_page D1 a); [by eexists|]. cbn. destruct (in_range_spec (vm_start g) (vm_end g) a); [by eexists|lia].
Qed.

(** What is mapped stays mapped. *)
Lemma covered_changed p q lo hi ch D D' : changed lo hi ch D D' → covered p q D' → covered p q D.
Proof. intros Hch Hc a Ha. specialize (Hc a Ha). rewrite Hch in Hc. destruct (in_range lo hi a); [|done]. by destruct (at_page D a). Qed.

Lemma covered_join lo mid hi D : covered lo mid D → covered mid hi D → covered lo hi D.
Proof. intros H1 H2 a Ha. destruct (Z.lt_ge_cases a mid); [apply H1|apply H2]; lia. Qed.

(** * Flags *)

(** What [mlock] and [munlock] do to a page. *)
Definition lock_page (on : bool) (m : mapping) : mapping := relabel_page (lock_flags on (mp_flags m)) None m.

Lemma flag_bit x : x & VM_LOCKED = Z.testbit x 13.
Proof.
  unfold flag, VM_LOCKED. change 0x2000 with (2 ^ 13). rewrite Z.land_comm. destruct (Z.testbit x 13) eqn:Hb.
  - destruct (Z.eqb_spec (Z.land (2 ^ 13) x) 0) as [H0|]; [|done]. apply (f_equal (λ z, Z.testbit z 13)) in H0. rewrite Z.land_spec, Hb in H0. done.
  - destruct (Z.eqb_spec (Z.land (2 ^ 13) x) 0) as [|H0]; [done|]. exfalso. apply H0. apply Z.bits_inj_0. intros n. rewrite Z.land_spec.
    destruct (Z.eq_dec n 13) as [->|Hn]; [by rewrite Hb, andb_false_r|]. by rewrite Z.pow2_bits_false by done.
Qed.

Lemma lock_flags_bit on fl n : 0 <= n → Z.testbit (lock_flags on fl) n = if n =? 13 then on else Z.testbit fl n.
Proof.
  intros Hn. unfold lock_flags, clear_bits, VM_LOCKED. change 0x2000 with (2 ^ 13). destruct on; rewrite ?Z.land_spec, ?Z.lnot_spec by done; rewrite Z.lor_spec, Z.pow2_bits_eqb by done;
    rewrite (Z.eqb_sym 13); destruct (n =? 13), (Z.testbit fl n); done.
Qed.

Lemma lock_flags_locked on fl : lock_flags on fl & VM_LOCKED = on.
Proof. by rewrite flag_bit, lock_flags_bit. Qed.

Lemma lock_flags_changed on fl : lock_flags on fl ≠ fl → fl & VM_LOCKED = negb on.
Proof.
  rewrite flag_bit. intros Hne. destruct (Z.testbit fl 13) eqn:Hb, on; try done; exfalso; apply Hne, Z.bits_inj'; intros n Hn; rewrite lock_flags_bit by done;
    destruct (Z.eqb_spec n 13) as [->|]; done.
Qed.

Lemma lock_flags_low on fl : Z.land (lock_flags on fl) 0x0f = Z.land fl 0x0f.
Proof.
  apply Z.bits_inj'. intros n Hn. rewrite !Z.land_spec, lock_flags_bit by done. destruct (Z.eqb_spec n 13) as [->|]; [|done]. by rewrite !andb_false_r.
Qed.

Lemma lock_label `{VmEnv} on g : label_ok (lock_flags on (vm_flags g)) None g.
Proof. intros Hp Hf. specialize (Hp Hf). cbn. by rewrite lock_flags_low. Qed.

Lemma lock_page_area on g a : lock_page on (page_mapping g a) = relabel_page (lock_flags on (vm_flags g)) None (page_mapping g a).
Proof. done. Qed.

Lemma lock_page_same on g a : lock_flags on (vm_flags g) = vm_flags g → lock_page on (page_mapping g a) = page_mapping g a.
Proof. intros Heq. unfold lock_page, relabel_page, page_mapping. cbn. by rewrite Heq. Qed.

Lemma pages_nonneg z : 0 <= z → 0 <= pages z.
Proof. intros Hz. rewrite pages_div. unfold PAGE_SIZE. by apply Z.div_pos. Qed.

Lemma same_locked s s' D : vm_space s D → vm_space s' D → locked_vm s' = locked_vm s.
Proof. intros [_ _ [_ _ H1]] [_ _ [_ _ H2]]. congruence. Qed.

Section lock.
Context `{VmEnv} (on : bool).

Notation fl g := (lock_flags on (vm_flags g)).

(** * One area *)

(** The count of locked pages after an area got its flags. *)
Lemma locked_after s s1 D D' lo hi g : vm_space s D → altered s s1 D' → relabelled lo hi (fl g) None (vm_flags g) D D' → fl g ≠ vm_flags g →
  0 <= lo < hi → hi < 2 ^ 32 → let n := pages (u32 (hi - lo)) in
  ∃ s2, (∀ B (K : VM B), ((if fl g & VM_LOCKED then emit_vm (EvMakePresent lo hi);; add_locked n else add_locked (- n));; K) s1 = K s2) ∧
    vm_space s2 D' ∧ same_fields s s2 ∧ locked_vm s2 = locked_vm s + if on then pages (hi - lo) else - pages (hi - lo).
Proof.
  intros [_ _ [_ Ht Hl]] [[T C] K N F T1 L1] [_ R2 R3 _] Hne Hr Hhi n. pose proof (lock_flags_changed _ _ Hne) as Hold. pose proof (laid_tally _ (vc_laid _ _ _ C)) as [B1 B2].
  assert (n = pages (hi - lo)) as Hn by (unfold n; rewrite u32_small; (done || lia)). unfold locked_by in R3. rewrite lock_flags_locked, Hold in R3.
  assert (locked_vm s1 + (if on then n else - n) = sum_of locked_count D') as Hsum by (destruct on; cbn [negb] in R3; lia).
  assert (∀ s2, vm_core s2 D' T → cached s2 D' → map_count s2 = map_count s1 → total_vm s2 = total_vm s1 → locked_vm s2 = u32 (locked_vm s1 + if on then n else - n) → vm_space s2 D') as Hsp.
  { intros s2 C2 K2 N2 T2 L2. split; [by exists T|done|]. rewrite Hsum, u32_small in L2 by lia. split; congruence. }
  rewrite lock_flags_locked. destruct on; eexists; (split; [done|]); (split; [apply Hsp; try done; by apply (vm_core_same s1)|]); (split; [by destruct F; split|]); cbn; rewrite Hsum, u32_small; lia.
Qed.

Record lock_step (lo hi : Z) (s : mm) (D : vdata) (r : Z) (s' : mm) (D' : vdata) : Prop := {
  ls_space : vm_space s' D';
  ls_plain : plain D';
  ls_fields : same_fields s s';
  ls_locked : locked_vm s' <= locked_vm s + pages (hi - lo);
  ls_error : (r = - EAGAIN ∧ D' = D ∧ locked_vm s' = locked_vm s) ∨ (r = 0 ∧ changed lo hi (lock_page on) D D')
}.

Lemma area_gap lo hi s D1 x g D2 T : vm_core s (D1 ++ (x, g) :: D2) T → vm_start g <= lo → hi <= vm_end g → in_gap lo hi D1 D2.
Proof.
  intros C Hlo Hhi. destruct (laid_mid _ _ _ _ _ _ (vc_laid _ _ _ C)) as (L1 & L2 & _). split; intros y h Hy.
  - destruct (laid_elem _ _ _ _ _ L1 Hy) as (_ & _ & ? & _). lia.
  - destruct (laid_elem _ _ _ _ _ L2 Hy) as (? & _). lia.
Qed.

(** The parts have the new label. *)
Lemma lock_parts s D1 x g D2 T lo hi P s1 : vm_core s (D1 ++ (x, g) :: D2) T → vm_space s (D1 ++ (x, g) :: D2) → plain (D1 ++ (x, g) :: D2) →
  vm_start g <= lo → lo < hi → hi <= vm_end g → fl g ≠ vm_flags g → parted s D1 D2 x g (fl g) None lo hi P s1 →
  let n := pages (u32 (hi - lo)) in
  ∃ s2, (∀ B (K : VM B), ((if fl g & VM_LOCKED then emit_vm (EvMakePresent lo hi);; add_locked n else add_locked (- n));; K) s1 = K s2) ∧
    lock_step lo hi s (D1 ++ (x, g) :: D2) 0 s2 (D1 ++ P ++ D2).
Proof.
  intros C V Hp Hlo Hlt Hhi Hne [A R] n. destruct (split_bounds s D1 D2 x g T C V) as (_ & B1 & B2 & _). pose proof (area_gap lo hi _ _ _ _ _ _ C Hlo Hhi) as Hg.
  pose proof (relabelled_mid _ _ _ _ _ D1 _ _ D2 Hg R) as R'.
  destruct (locked_after s s1 _ _ lo hi g V A R' Hne) as (s2 & Hrun & V2 & F2 & L2); [lia..|]. exists s2. split; [exact Hrun|]. split; [done| |done| |right; split; [done|]].
  - by apply (rw_plain _ _ _ _ _ _ _ R').
  - pose proof (pages_nonneg (hi - lo) ltac:(lia)). destruct on; lia.
  - apply (changed_mid lo hi _ D1 D2 [(x, g)] P Hg). eapply relabelled_changed; [exact R|]. intros a m _ ->%one_page. apply lock_page_area.
Qed.

Lemma mlock_fixup_run s D1 x g D2 lo hi : vm_space s (D1 ++ (x, g) :: D2) → plain (D1 ++ (x, g) :: D2) → aligned lo → aligned hi →
  vm_start g <= lo → lo < hi → hi <= vm_end g →
  ∃ r s' P, mlock_fixup x lo hi (fl g) s = Some (r, s') ∧ lock_step lo hi s (D1 ++ (x, g) :: D2) r s' (D1 ++ P ++ D2).
Proof.
  intros V Hp Al Ah Hlo Hlt Hhi. destruct (vs_core _ _ V) as [T C]. destruct (tail_list _ _ _ _ _ _ C) as (_ & _ & Hx). unfold mlock_fixup.
  erewrite es_bind by by apply ga_live. cbn [vm_flags vm_start vm_end set_vm_next]. destruct (Z.eqb_spec (fl g) (vm_flags g)) as [Heq|Hne].
  { exists 0, s, [(x, g)]. split; [done|]. split; [done..|pose proof (pages_nonneg (hi - lo) ltac:(lia)); lia|]. right. split; [done|]. pose proof (area_gap lo hi _ _ _ _ _ _ C Hlo Hhi) as Hg.
    apply (changed_mid lo hi _ D1 D2 [(x, g)] [(x, g)] Hg). apply unchanged. intros a. by apply lock_page_same. }
  assert (∃ r s1, (if lo =? vm_start g then if hi =? vm_end g then mlock_fixup_all x (fl g) else mlock_fixup_start x hi (fl g)
      else if hi =? vm_end g then mlock_fixup_end x lo (fl g) else mlock_fixup_middle x lo hi (fl g)) s = Some (r, s1) ∧
    ((r = - EAGAIN ∧ unparted s D1 D2 x g s1) ∨ (r = 0 ∧ ∃ P, parted s D1 D2 x g (fl g) None lo hi P s1))) as (r & s1 & Hrun & Hor).
  { destruct (Z.eqb_spec lo (vm_start g)) as [Hs|Hs], (Z.eqb_spec hi (vm_end g)) as [He|He].
    - destruct (all_parts s D1 D2 x g T C V (fl g) None lo hi Al Ah (lock_label on g) Hs He) as (s1 & Hw & P). exists 0, s1.
      split; [unfold mlock_fixup_all; by erewrite es_bind by exact Hw|]. right. split; [done|by eexists].
    - destruct (start_parts s D1 D2 x g T C V (fl g) None lo hi Al Ah (lock_label on g) EAGAIN Hs) as (r & s1 & Hw & P); [lia|]. by exists r, s1.
    - destruct (end_parts s D1 D2 x g T C V (fl g) None lo hi Al Ah (lock_label on g) EAGAIN He) as (r & n & s1 & Hw & P); [lia|]. exists r, s1.
      split; [unfold mlock_fixup_end; by erewrite es_bind by exact Hw|]. destruct P as [P|(Hr & Q & h & P & _)]; [by left|right]. split; [done|by eexists].
    - destruct (middle_parts s D1 D2 x g T C V (fl g) None lo hi Al Ah (lock_label on g) EAGAIN) as (r & n & s1 & Hw & P); [lia..|]. exists r, s1.
      split; [unfold mlock_fixup_middle; by erewrite es_bind by exact Hw|done]. }
  erewrite es_bind by exact Hrun. destruct Hor as [(-> & V1 & F1)|(-> & P & HP)].
  - exists (- EAGAIN), s1, [(x, g)]. split; [done|]. pose proof (same_locked _ _ _ V V1). split; [done..| |by left]. pose proof (pages_nonneg (hi - lo) ltac:(lia)). lia.
  - destruct (lock_parts s D1 x g D2 T lo hi P s1 C V Hp Hlo Hlt Hhi Hne HP) as (s2 & H2 & L). exists 0, s2, P. split; [cbn; by rewrite H2|done].
Qed.

(** * A range *)

(** The pages up to [stop] have changed; there is a reason to stop early. *)
Record lock_result (lo hi : Z) (s : mm) (D : vdata) (r : Z) (s' : mm) (D' : vdata) (stop : Z) : Prop := {
  lr_space : vm_space s' D';
  lr_plain : plain D';
  lr_fields : same_fields s s';
  lr_locked : locked_vm s' <= locked_vm s + pages (stop - lo);
  lr_stop : lo <= stop <= hi;
  lr_changed : changed lo stop (lock_page on) D D';
  lr_covered : covered lo stop D;
  lr_error : (r = 0 ∧ stop = hi) ∨ (r = - EAGAIN ∧ stop < hi ∧ is_Some (at_page D stop)) ∨ (r = - ENOMEM ∧ stop < hi ∧ at_page D stop = None)
}.

Lemma lock_result_last lo hi s D1 x g D2 r s' D' : vm_start g <= lo → lo < hi → hi <= vm_end g →
  lock_step lo hi s (D1 ++ (x, g) :: D2) r s' D' → ∃ stop, lock_result lo hi s (D1 ++ (x, g) :: D2) r s' D' stop.
Proof.
  intros Hlo Hlt Hhi [S1 S2 S3 S5 [(-> & -> & S6)|[-> S4]]]; [exists lo|exists hi]; split; try done; try lia.
  - rewrite Z.sub_diag. change (pages 0) with 0. lia.
  - apply changed_none.
  - intros a Ha. lia.
  - right. left. split_and!; [done|lia|]. by apply (covered_one lo hi D1 x g D2 Hlo Hhi); lia.
  - by apply covered_one.
Qed.

(** The first part is done, the rest follows. *)
Lemma lock_result_next lo mid hi s D s1 D1 r s' D' stop : lo <= mid → lock_step lo mid s D 0 s1 D1 → covered lo mid D →
  lock_result mid hi s1 D1 r s' D' stop → lock_result lo hi s D r s' D' stop.
Proof.
  intros Hm [_ _ F1 L1 [[? _]|[_ S4]]] Hc [R1 R2 R3 R8 R4 R5 R6 R7]; [done|]. assert (at_page D1 stop = at_page D stop) as Hstop.
  { rewrite S4. by destruct (in_range_spec lo mid stop); [lia|]. }
  assert (pages (mid - lo) + pages (stop - mid) <= pages (stop - lo)) by (rewrite !pages_div; unfold PAGE_SIZE; Z.div_mod_to_equations; lia).
  split; [done|done|by etrans|lia..|eapply changed_trans; [|exact S4|exact R5]; lia| |by rewrite <-Hstop].
  eapply covered_join; [exact Hc|]. by eapply covered_changed.
Qed.

(** The end of an area that nothing follows at once. *)
Lemma gap_after s D1 x g D2 T : vm_core s (D1 ++ (x, g) :: D2) T → (∀ n h, hd_error D2 = Some (n, h) → vm_start h ≠ vm_end g) →
  at_page (D1 ++ (x, g) :: D2) (vm_end g) = None.
Proof using.
  intros C Hn. destruct (laid_mid _ _ _ _ _ _ (vc_laid _ _ _ C)) as (L1 & L2 & P & _). apply at_page_none. intros y h Hy.
  destruct (in_range_spec (vm_start h) (vm_end h) (vm_end g)) as [Hr|]; [exfalso|done]. apply elem_of_app in Hy as [Hy|[[= -> ->]|Hy]%elem_of_cons]; [|lia|].
  - destruct (laid_elem _ _ _ _ _ L1 Hy) as (_ & _ & ? & _). lia.
  - destruct D2 as [|[n k] D2]; [by apply elem_of_nil in Hy|]. specialize (Hn n k eq_refl). destruct L2 as (? & ? & _ & _ & L2).
    apply elem_of_cons in Hy as [[= -> ->]|Hy]; [lia|]. destruct (laid_elem _ _ _ _ _ L2 Hy) as (? & _). lia.
Qed.

Lemma lock_result_gap lo hi s D1 x g D2 s1 D' : vm_space s (D1 ++ (x, g) :: D2) → vm_start g <= lo → lo < vm_end g → vm_end g < hi →
  lock_step lo (vm_end g) s (D1 ++ (x, g) :: D2) 0 s1 D' → (∀ n h, hd_error D2 = Some (n, h) → vm_start h ≠ vm_end g) →
  lock_result lo hi s (D1 ++ (x, g) :: D2) (- ENOMEM) s1 D' (vm_end g).
Proof.
  intros V Hlo Hlt Hhi [S1 S2 S3 S5 [[? _]|[_ S4]]] Hn; [done|]. destruct (vs_core _ _ V) as [T C]. split; [done..|lia|done|by apply covered_one|].
  right. right. split_and!; [done|done|by eapply gap_after].
Qed.

Lemma mlock_loop_run D2 fuel s D1 x g lo hi : (length D2 < fuel)%nat → vm_space s (D1 ++ (x, g) :: D2) → plain (D1 ++ (x, g) :: D2) →
  aligned lo → aligned hi → vm_start g <= lo → lo < vm_end g → lo < hi →
  ∃ r s' D' stop, mlock_loop fuel x lo hi on s = Some (r, s') ∧ lock_result lo hi s (D1 ++ (x, g) :: D2) r s' D' stop.
Proof.
  revert fuel s D1 x g lo. induction D2 as [|[n h] D2 IH]; intros [|fuel] s D1 x g lo Hf V Hp Al Ah Hlo Hlt Hhi; cbn in Hf; try lia;
    destruct (vs_core _ _ V) as [T C]; destruct (tail_list _ _ _ _ _ _ C) as (_ & _ & Hx); destruct (split_bounds s D1 _ x g T C V) as ((_ & _ & Ae) & _ & _ & _ & L2);
    cbn [mlock_loop]; erewrite es_bind by (by apply ga_live); cbn [set_vm_next vm_flags vm_end vm_next]; rewrite Z.geb_leb; destruct (Z.leb_spec hi (vm_end g)) as [He|He].
  1, 3: destruct (mlock_fixup_run s D1 x g _ lo hi V Hp Al Ah Hlo Hhi He) as (r & s' & P & Hrun & L);
    destruct (lock_result_last lo hi s D1 x g _ r s' _ Hlo Hhi He L) as [stop R]; eexists r, s', _, stop; by split.
  all: destruct (mlock_fixup_run s D1 x g _ lo (vm_end g) V Hp Al Ae Hlo Hlt ltac:(done)) as (r & s1 & P & Hrun & L); erewrite es_bind by exact Hrun;
    destruct (Z.eqb_spec r 0) as [->|Hr]; cbn [negb];
    [|destruct L as [S1 S2 S3 S5 [(-> & S4 & S6)|[-> S4]]]; [|done]; exists (- EAGAIN), s1; eexists _, lo; split; [done|]; split; [done..|rewrite Z.sub_diag; change (pages 0) with 0; lia|lia|rewrite S4; apply changed_none|intros a Ha; lia|];
      right; left; split_and!; [done|lia|]; by apply (covered_one lo (vm_end g)); [|lia..]].
  - exists (- ENOMEM), s1. eexists _, (vm_end g). split; [done|]. by apply lock_result_gap.
  - cbn [fmap list_fmap hd0 hd fst]. destruct (Z.eqb_spec n 0) as [->|_]; [exfalso; apply (vc_nonzero s _ T C 0 h); [apply elem_of_app; right; right; left|done]|].
    pose proof L as [V1 P1 F1 _ _]. destruct (vs_core _ _ V1) as [T1 C1]. assert ((n, h) ∈ D1 ++ P ++ (n, h) :: D2) as Hn by (rewrite !elem_of_app; right; right; left).
    destruct (ga_run s1 _ T1 C1 n h Hn) as [nx Hga]. erewrite es_bind by exact Hga. cbn [set_vm_next vm_start]. destruct (Z.eqb_spec (vm_start h) (vm_end g)) as [Heq|Hneq]; cbn [negb].
    + rewrite app_assoc in *. destruct L2 as (_ & Hlth & _). 
      destruct (IH fuel s1 (D1 ++ P) n h (vm_end g)) as (r & s' & D' & stop & H2 & R); [lia|done|done|done|done|lia|lia|done|].
      exists r, s', D', stop. split; [exact H2|]. eapply lock_result_next; [|exact L|by apply covered_one|exact R]. lia.
    + exists (- ENOMEM), s1. eexists _, (vm_end g). split; [done|]. apply lock_result_gap; [done..|]. by intros ?? [= <- <-].
Qed.

(** * The calls *)

Lemma page_align_aligned z : aligned (PAGE_ALIGN z).
Proof using. unfold PAGE_ALIGN. rewrite page_floor_div. unfold aligned, PAGE_SIZE. Z.div_mod_to_equations. lia. Qed.

Lemma page_align_self z : aligned z → 0 <= z < 2 ^ 32 → PAGE_ALIGN z = z.
Proof using.
  intros Az Hz. unfold PAGE_ALIGN. rewrite page_floor_div. unfold aligned, PAGE_SIZE in *. rewrite u32_small; Z.div_mod_to_equations; lia.
Qed.

Lemma aligned_sum a b : aligned a → aligned b → aligned (u32 (a + b)).
Proof using. unfold aligned, u32, PAGE_SIZE. intros Ha Hb. Z.div_mod_to_equations. lia. Qed.

(** What [do_mlock] does with the range. *)
Definition lock_outcome (can : bool) (start len : Z) (s : mm) (D : vdata) (r : Z) (s' : mm) (D' : vdata) : Prop :=
  let end_ := u32 (start + PAGE_ALIGN len) in
  if on && negb can then r = - EPERM ∧ s' = s ∧ D' = D
  else if end_ <? start then r = - EINVAL ∧ s' = s ∧ D' = D
  else if end_ =? start then r = 0 ∧ s' = s ∧ D' = D
  else ∃ stop, lock_result start end_ s D r s' D' stop.

(** No area at the start. *)
Lemma lock_result_none lo hi s D c : vm_space (set_mmap_cache c s) D → plain D → lo < hi → at_page D lo = None →
  lock_result lo hi s D (- ENOMEM) (set_mmap_cache c s) D lo.
Proof.
  intros V Hp Hlt Hn. split; [done|done|done| |lia|apply changed_none|intros a Ha; lia|by right; right].
  rewrite Z.sub_diag. change (pages 0) with 0. cbn. lia.
Qed.

Lemma do_mlock_run s D can start len : vm_space s D → plain D → aligned start → 0 <= start < 2 ^ 32 →
  ∃ r s' D', do_mlock can start len on s = Some (r, s') ∧ vm_space s' D' ∧ plain D' ∧ same_fields s s' ∧ lock_outcome can start len s D r s' D'.
Proof.
  intros V Hp Al Hs. unfold do_mlock, lock_outcome. destruct (on && negb can); [by exists (- EPERM), s, D|]. cbv zeta. set (end_ := u32 (start + PAGE_ALIGN len)).
  destruct (Z.ltb_spec end_ start); [by exists (- EINVAL), s, D|]. destruct (Z.eqb_spec end_ start); [by exists 0, s, D|].
  assert (aligned end_) as Ah by (apply aligned_sum; [done|apply page_align_aligned]).
  assert (∀ r s' D' stop, lock_result start end_ s D r s' D' stop → vm_space s' D' ∧ plain D' ∧ same_fields s s' ∧ ∃ stop, lock_result start end_ s D r s' D' stop) as Hres.
  { intros r s' D' stop R. split_and!; [apply R..|by exists stop]. }
  destruct (find_vma_space s D start V) as (s1 & Hrun & V1 & c & ->). erewrite es_bind by exact Hrun. destruct (vs_core _ _ V1) as [T C].
  destruct (first_split D start) as [[-> Hb]|(D1 & x & g & D2 & HD & -> & Hb & Hg)].
  - exists (- ENOMEM), (set_mmap_cache c s), D. split; [done|]. eapply Hres. apply lock_result_none; [done|done|lia|]. apply at_page_none. intros y h Hy. specialize (Hb y h Hy).
    by destruct (in_range_spec (vm_start h) (vm_end h) start); [lia|].
  - subst D. assert ((x, g) ∈ D1 ++ (x, g) :: D2) as Hx by (apply elem_of_app; right; left). destruct (Z.eqb_spec x 0) as [->|_]; [exfalso; by apply (vc_nonzero _ _ T C 0 g)|].
    destruct (ga_run _ _ T C x g Hx) as [nx Hga]. erewrite es_bind by exact Hga. cbn [set_vm_next vm_start]. rewrite Z.gtb_ltb. destruct (Z.ltb_spec start (vm_start g)).
    + exists (- ENOMEM), (set_mmap_cache c s), (D1 ++ (x, g) :: D2). split; [done|]. eapply Hres. apply lock_result_none; [done|done|lia|]. apply at_page_none. intros y h Hy.
      destruct (in_range_spec (vm_start h) (vm_end h) start); [exfalso|done]. apply elem_of_app in Hy as [Hy|Hy]; [specialize (Hb y h Hy); lia|].
      destruct (laid_mid _ _ _ _ _ _ (vc_laid _ _ _ C)) as (_ & L2 & _). apply elem_of_cons in Hy as [[= -> ->]|Hy]; [lia|]. destruct (laid_elem _ _ _ _ _ L2 Hy) as (? & _). lia.
    + erewrite es_bind by done. destruct (mlock_loop_run D2 (S (base.size (mm_areas (set_mmap_cache c s)))) (set_mmap_cache c s) D1 x g start end_) as (r & s' & D' & stop & H2 & R);
        [|done|done|done|done|lia|lia|lia|].
      { pose proof (vm_fuel_enough _ _ _ C) as Hf. rewrite (vc_order _ _ _ C), length_fmap, length_app in Hf. cbn in *. lia. }
      exists r, s', D'. split; [exact H2|]. apply (Hres _ _ _ stop). destruct R as [R1 R2 [] R4 R5 R6 R7 R8]. by split.
Qed.
End lock.

(** * From bytes to pages *)

Lemma page_align_below z : 0 <= z → PAGE_ALIGN z < z + PAGE_SIZE.
Proof.
  intros Hz. unfold PAGE_ALIGN. rewrite page_floor_div. assert (u32 (z + PAGE_SIZE - 1) <= z + PAGE_SIZE - 1) by (unfold u32, PAGE_SIZE in *; Z.div_mod_to_equations; lia).
  unfold PAGE_SIZE in *. Z.div_mod_to_equations. lia.
Qed.

Lemma page_align_above z : 0 <= z → z + PAGE_SIZE <= 2 ^ 32 → z <= PAGE_ALIGN z.
Proof. intros Hz Hle. unfold PAGE_ALIGN. rewrite page_floor_div. unfold PAGE_SIZE in *. rewrite u32_small by lia. Z.div_mod_to_equations. lia. Qed.

Lemma page_offset_floor z : 0 <= page_offset z < PAGE_SIZE ∧ page_floor z = z - page_offset z ∧ aligned (page_floor z).
Proof.
  unfold page_offset. change (PAGE_SIZE - 1) with (Z.ones 12). rewrite Z.land_ones by done. change (2 ^ 12) with PAGE_SIZE. rewrite page_floor_div.
  unfold aligned, PAGE_SIZE. split_and!; Z.div_mod_to_equations; lia.
Qed.

(** The length [sys_mlock] makes of its argument. *)
Definition whole_pages (start len : Z) : Z := PAGE_ALIGN (u32 (len + page_offset start)).

Section bytes.
Context `{VmEnv} (on : bool).

(** The pages that [start, start + len) touches have changed up to [stop]. *)
Record range_result (start len : Z) (s : mm) (D : vdata) (r : Z) (s' : mm) (D' : vdata) (stop : Z) : Prop := {
  rr_changed : changed (page_floor start) stop (lock_page on) D D';
  rr_covered : covered (page_floor start) stop D;
  rr_within : page_floor start <= stop < start + len + PAGE_SIZE;
  rr_done : r = 0 → start + len + PAGE_SIZE <= 2 ^ 32 → start + len <= stop;
  rr_locked : locked_vm s' <= locked_vm s + pages (whole_pages start len)
}.

Definition lock_error (can : bool) (r : Z) : Prop := r = 0 ∨ (r = - EPERM ∧ can = false) ∨ r ∈ [- EINVAL; - ENOMEM; - EAGAIN].

Lemma range_none start len s D r : 0 <= start → 0 <= len → (r = 0 → start + len + PAGE_SIZE <= 2 ^ 32 → start + len <= page_floor start) →
  range_result start len s D r s D (page_floor start).
Proof.
  intros Hs Hl Hr. destruct (page_offset_floor start) as (Ho & Hf & _). split; [apply changed_none|intros a Ha; lia|unfold PAGE_SIZE in *; lia|done|].
  pose proof (page_align_bound (u32 (len + page_offset start))). pose proof (pages_nonneg (whole_pages start len)). unfold whole_pages in *. lia.
Qed.

Lemma range_run s D can start len : vm_space s D → plain D → 0 <= start < 2 ^ 32 → 0 <= len < 2 ^ 32 →
  ∃ r s' D' stop, do_mlock can (page_floor start) (whole_pages start len) on s = Some (r, s') ∧ vm_space s' D' ∧ plain D' ∧ same_fields s s' ∧
    lock_error can r ∧ range_result start len s D r s' D' stop.
Proof.
  intros V Hp Hs Hl. destruct (page_offset_floor start) as (Ho & Hf & Af). pose proof (page_align_bound (u32 (len + page_offset start))) as Hb.
  pose proof (u32_bound (len + page_offset start)) as Hu. pose proof (page_align_below (u32 (len + page_offset start)) ltac:(lia)) as Hlt.
  assert (0 <= page_floor start) as H0 by (rewrite page_floor_div; unfold PAGE_SIZE; Z.div_mod_to_equations; lia).
  destruct (do_mlock_run on s D can (page_floor start) (whole_pages start len) V Hp Af ltac:(lia)) as (r & s' & D' & Hrun & V' & P' & F' & Hout).
  exists r, s', D'. unfold lock_outcome in Hout. rewrite page_align_self in Hout by (done || apply page_align_aligned). unfold whole_pages in *.
  set (n := PAGE_ALIGN (u32 (len + page_offset start))) in *. set (lo := page_floor start) in *.
  assert (u32 (len + page_offset start) <= len + page_offset start) as Hu' by (unfold u32; Z.div_mod_to_equations; lia).
  assert (u32 (lo + n) <= lo + n) as Hn' by (unfold u32; Z.div_mod_to_equations; lia).
  assert (start + len + PAGE_SIZE <= 2 ^ 32 → start + len <= u32 (lo + n)) as Hfull.
  { intros Hle. assert (u32 (len + page_offset start) = len + page_offset start) as Heq by (apply u32_small; unfold PAGE_SIZE in *; lia).
    pose proof (page_align_above (u32 (len + page_offset start)) ltac:(lia)) as Ha. fold n in Ha. rewrite Heq in *. rewrite u32_small; unfold PAGE_SIZE in *; lia. }
  destruct (on && negb can) eqn:Hcan.
  { destruct Hout as (-> & -> & ->). exists lo. split_and!; [done..|right; left; by destruct on, can|]. apply range_none; [lia..|done]. }
  destruct (Z.ltb_spec (u32 (lo + n)) lo); [destruct Hout as (-> & -> & ->); exists lo; split_and!; [done..|right; right; set_solver|apply range_none; [lia..|done]]|].
  destruct (Z.eqb_spec (u32 (lo + n)) lo); [destruct Hout as (-> & -> & ->); exists lo; split_and!; [done..|by left|apply range_none; [lia..|]; fold lo; lia]|].
  destruct Hout as [stop [R1 R2 R3 R4 R5 R6 R7 R8]]. exists stop. split_and!; [done..| |].
  - destruct R8 as [[-> _]|[[-> _]|[-> _]]]; [by left|right; right; set_solver..].
  - split; [done|done|fold lo; lia|fold lo; intros ->; destruct R8 as [[_ ->]|[[? _]|[? _]]]; done|].
    assert (pages (stop - lo) <= pages n); [|unfold whole_pages; fold n; lia]. rewrite !pages_div. apply Z.div_le_mono; [done|lia].
Qed.
End bytes.

Section calls.
Context `{VmEnv}.

(** Locks are taken within the limits. *)
Lemma sys_mlock_run s D can start len : vm_space s D → plain D → 0 <= start < 2 ^ 32 → 0 <= len < 2 ^ 32 →
  ∃ r s' D' stop, sys_mlock can start len s = Some (r, s') ∧ vm_space s' D' ∧ plain D' ∧ same_fields s s' ∧ lock_error can r ∧
    range_result true start len s D r s' D' stop ∧ (locked_vm s' <= locked_vm s ∨ (locked_vm s' <= lock_limit ∧ locked_vm s' <= num_physpages / 2)).
Proof.
  intros V Hp Hs Hl. unfold sys_mlock. cbv zeta. fold (whole_pages start len). erewrite es_bind by done.
  destruct (vs_core _ _ V) as [T C]. destruct (laid_tally _ (vc_laid _ _ _ C)) as [B1 B2]. pose proof (ta_locked _ _ (vs_tally _ _ V)) as Hlk.
  pose proof (page_align_bound (u32 (len + page_offset start))) as Hb. fold (whole_pages start len) in Hb.
  assert (0 <= pages (whole_pages start len) < 2 ^ 20) as Hpg by (rewrite pages_div; unfold PAGE_SIZE; Z.div_mod_to_equations; lia). rewrite u32_small by lia.
  assert (range_result true start len s D (- ENOMEM) s D (page_floor start)) as Hno by (apply range_none; [lia..|done]).
  assert (lock_error can (- ENOMEM)) as He by (right; right; set_solver).
  rewrite !Z.gtb_ltb. destruct (Z.ltb_spec lock_limit (pages (whole_pages start len) + locked_vm s)); [exists (- ENOMEM), s, D, (page_floor start); split_and!; (done || by left)|].
  destruct (Z.ltb_spec (num_physpages / 2) (pages (whole_pages start len) + locked_vm s)); [exists (- ENOMEM), s, D, (page_floor start); split_and!; (done || by left)|].
  destruct (range_run true s D can start len V Hp Hs Hl) as (r & s' & D' & stop & Hrun & V' & P' & F' & E' & R). exists r, s', D', stop.
  split_and!; [done..|]. right. pose proof (rr_locked _ _ _ _ _ _ _ _ _ R). lia.
Qed.

Lemma sys_munlock_run s D can start len : vm_space s D → plain D → 0 <= start < 2 ^ 32 → 0 <= len < 2 ^ 32 →
  ∃ r s' D' stop, sys_munlock can start len s = Some (r, s') ∧ vm_space s' D' ∧ plain D' ∧ same_fields s s' ∧ lock_error can r ∧
    range_result false start len s D r s' D' stop.
Proof. intros V Hp Hs Hl. unfold sys_munlock. cbv zeta. by apply range_run. Qed.
End calls.

(** * Every area *)

Section every.
Context `{VmEnv} (on : bool).

Definition relock (g : vm_area) : vm_area := relabel (lock_flags on (vm_flags g)) None g.
Definition relock_all (D : vdata) : vdata := prod_map id relock <$> D.

Lemma relock_pages D a : at_page (relock_all D) a = lock_page on <$> at_page D a.
Proof. induction D as [|[x g] D IH]; [done|]. cbn. by destruct (in_range (vm_start g) (vm_end g) a). Qed.

Lemma relock_counts D : sum_of page_count (relock_all D) = sum_of page_count D ∧ sum_of locked_count (relock_all D) = if on then sum_of page_count D else 0.
Proof.
  induction D as [|[x g] D [I1 I2]]; [by destruct on|]. change (relock_all ((x, g) :: D)) with ((x, relock g) :: relock_all D).
  unfold sum_of in *. cbn [foldr snd]. rewrite I1, I2. unfold locked_count, page_count, relock. cbn [vm_flags vm_start vm_end relabel].
  rewrite lock_flags_locked. by destruct on.
Qed.

Lemma mlock_fixup_whole s D1 x g D2 : vm_space s (D1 ++ (x, g) :: D2) → plain (D1 ++ (x, g) :: D2) →
  ∃ s', mlock_fixup x (vm_start g) (vm_end g) (lock_flags on (vm_flags g)) s = Some (0, s') ∧ vm_space s' (D1 ++ (x, relock g) :: D2) ∧
    plain (D1 ++ (x, relock g) :: D2) ∧ same_fields s s'.
Proof.
  intros V Hp. destruct (vs_core _ _ V) as [T C]. destruct (tail_list _ _ _ _ _ _ C) as (_ & _ & Hx). destruct (split_bounds s D1 D2 x g T C V) as (Hpr & B1 & B2 & _).
  unfold mlock_fixup. erewrite es_bind by by apply ga_live. cbn [vm_flags vm_start vm_end set_vm_next].
  destruct (Z.eqb_spec (lock_flags on (vm_flags g)) (vm_flags g)) as [Heq|Hne].
  { exists s. split; [done|]. replace (relock g) with g; [done|]. unfold relock. rewrite Heq. by destruct g. }
  rewrite !Z.eqb_refl. destruct Hpr as (Hlt & As & Ae).
  destruct (all_parts s D1 D2 x g T C V (lock_flags on (vm_flags g)) None _ _ As Ae (lock_label on g) eq_refl eq_refl) as (s1 & Hw & P).
  destruct (lock_parts on s D1 x g D2 T _ _ _ s1 C V Hp (Z.le_refl _) Hlt (Z.le_refl _) Hne P) as (s2 & H2 & [V2 P2 F2 _ _]).
  exists s2. split; [|done]. unfold mlock_fixup_all. erewrite es_bind by (by erewrite es_bind by exact Hw). cbn [Z.eqb]. by rewrite H2.
Qed.

Lemma mlockall_loop_run flags : (flags & MCL_CURRENT) = on → ∀ D2 fuel s D1, (length D2 < fuel)%nat → vm_space s (D1 ++ D2) → plain (D1 ++ D2) →
  ∃ s', mlockall_loop fuel (hd0 D2.*1) flags s = Some (0, s') ∧ vm_space s' (D1 ++ relock_all D2) ∧ plain (D1 ++ relock_all D2) ∧ same_fields s s'.
Proof.
  intros Hon D2. induction D2 as [|[x g] D2 IH]; intros [|fuel] s D1 Hf V Hp; cbn in Hf; try lia; cbn [mlockall_loop fmap list_fmap hd0 hd fst]; [by exists s|].
  destruct (vs_core _ _ V) as [T C]. assert ((x, g) ∈ D1 ++ (x, g) :: D2) as Hin by (apply elem_of_app; right; left).
  destruct (Z.eqb_spec x 0) as [->|_]; [exfalso; by apply (vc_nonzero _ _ T C 0 g)|]. destruct (ga_run _ _ T C x g Hin) as [nx Hga]. erewrite es_bind by exact Hga.
  cbn [set_vm_next vm_start vm_end vm_flags]. rewrite Hon. destruct (mlock_fixup_whole s D1 x g D2 V Hp) as (s1 & Hrun & V1 & P1 & F1). erewrite es_bind by exact Hrun.
  cbn [Z.eqb negb]. destruct (vs_core _ _ V1) as [T1 C1]. destruct (tail_list _ _ _ _ _ _ C1) as (_ & _ & Hx). erewrite es_bind by by apply ga_live. cbn [set_vm_next vm_next].
  rewrite cons_middle, app_assoc in V1, P1. destruct (IH fuel s1 (D1 ++ [(x, relock g)]) ltac:(lia) V1 P1) as (s' & H2 & V2 & P2 & F2). exists s'.
  rewrite <-app_assoc in V2, P2. split_and!; [exact H2|done|done|by etrans].
Qed.

Lemma do_mlockall_run s D flags : vm_space s D → plain D → (flags & MCL_CURRENT) = on →
  ∃ s', do_mlockall true flags s = Some (0, s') ∧ vm_space s' (relock_all D) ∧ plain (relock_all D) ∧
    mm_def_flags s' = (if flags & MCL_FUTURE then VM_LOCKED else 0) ∧ mm_brk s' = mm_brk s ∧ locked_vm s' = if on then total_vm s else 0.
Proof.
  intros V Hp Hon. unfold do_mlockall. cbn [negb]. erewrite es_bind by done. set (s1 := set_def_flags _ s).
  assert (vm_space s1 D) as V1 by (destruct V as [[T C] K [N T1 L]]; split; [exists T; by apply (vm_core_same s)|done|by split]).
  destruct (vs_core _ _ V1) as [T C]. do 2 erewrite es_bind by done.
  assert (mm_mmap s1 = hd0 D.*1) as -> by (pose proof (vc_list _ _ _ C) as Hl; destruct D as [|[x g] D]; [exact Hl|by destruct Hl]).
  destruct (mlockall_loop_run flags Hon D (S (base.size (mm_areas s1))) s1 []) as (s' & Hrun & V' & P' & [F1 F2 _ _]); [|done|done|].
  { pose proof (vm_fuel_enough _ _ _ C) as Hf. by rewrite (vc_order _ _ _ C), length_fmap in Hf. }
  exists s'. split_and!; [exact Hrun|done|done|by rewrite F1|by rewrite F2|]. rewrite (ta_locked _ _ (vs_tally _ _ V')), (ta_total _ _ (vs_tally _ _ V)).
  apply relock_counts.
Qed.
End every.

Lemma sys_mlockall_run `{VmEnv} s D can flags : vm_space s D → plain D →
  ∃ r s' D', sys_mlockall can flags s = Some (r, s') ∧ vm_space s' D' ∧ plain D' ∧ mm_brk s' = mm_brk s ∧
    ((r ≠ 0 ∧ s' = s ∧ D' = D) ∨
     (r = 0 ∧ can = true ∧ total_vm s <= lock_limit ∧ total_vm s <= num_physpages / 2 ∧ D' = relock_all (flags & MCL_CURRENT) D ∧
      mm_def_flags s' = (if flags & MCL_FUTURE then VM_LOCKED else 0) ∧ locked_vm s' = if flags & MCL_CURRENT then total_vm s else 0)).
Proof.
  intros V Hp. unfold sys_mlockall. destruct (_ || _); [exists (- EINVAL), s, D; split_and!; (done || by left)|]. erewrite es_bind by done.
  rewrite !Z.gtb_ltb. destruct (Z.ltb_spec lock_limit (total_vm s)); [exists (- ENOMEM), s, D; split_and!; (done || by left)|].
  destruct (Z.ltb_spec (num_physpages / 2) (total_vm s)); [exists (- ENOMEM), s, D; split_and!; (done || by left)|].
  destruct can; [|exists (- EPERM), s, D; split_and!; (done || by left)].
  destruct (do_mlockall_run _ s D flags V Hp eq_refl) as (s' & Hrun & V' & P' & F1 & F2 & L). exists 0, s', (relock_all (flags & MCL_CURRENT) D).
  split_and!; [done..|]. by right.
Qed.

Lemma sys_munlockall_run `{VmEnv} s D can : vm_space s D → plain D →
  ∃ r s' D', sys_munlockall can s = Some (r, s') ∧ vm_space s' D' ∧ plain D' ∧ mm_brk s' = mm_brk s ∧
    ((can = false ∧ r = - EPERM ∧ s' = s ∧ D' = D) ∨ (can = true ∧ r = 0 ∧ D' = relock_all false D ∧ mm_def_flags s' = 0 ∧ locked_vm s' = 0)).
Proof.
  intros V Hp. unfold sys_munlockall. destruct can; [|exists (- EPERM), s, D; split_and!; (done || by left)].
  destruct (do_mlockall_run false s D 0 V Hp eq_refl) as (s' & Hrun & V' & P' & F1 & F2 & L). exists 0, s', (relock_all false D). split_and!; [done..|]. by right.
Qed.
