(* ===== verification/VmaProtect.v ===== *)
(** The steps of mm/mprotect.c, the loop of [sys_mprotect] and the call. *)
From S2P Require Import Prelude RbTree RbShape Vma VmaCalls VmaMmap VmaProt VmaShape VmaLink VmaUnmap VmaCount VmaMunmap VmaMerge VmaBrk VmaSys VmaSplit VmaLock.
From stdpp Require Import list options.
#[local] Set Default Proof Using "Type*".
Open Scope cint_scope.
Open Scope Z_scope.

(** * Flags *)

Section flags.
Context `{VmEnv}.

Definition new_prot (fl : Z) : option Z := Some (protection_map (Z.land fl 0xf)).

(** What [mprotect] does to a page. *)
Definition reprotect (prot : Z) (m : mapping) : mapping :=
  let newflags := prot_flags prot (mp_flags m) in
  if newflags =? mp_flags m then m else relabel_page newflags (new_prot newflags) m.

Definition prot_word (prot : Z) : Prop := 0 <= prot < 8.

Lemma prot_word_bits prot : 0 <= prot → prot &~ Z.lor (Z.lor PROT_READ PROT_WRITE) PROT_EXEC = 0 → prot_word prot.
Proof.
  unfold clear_bits. change (Z.lor _ PROT_EXEC) with (Z.ones 3). rewrite <-Z.ldiff_land, Z.ldiff_ones_r by done. rewrite Z.shiftl_mul_pow2, Z.shiftr_div_pow2 by done.
  change (2 ^ 3) with 8. unfold prot_word. intros. Z.div_mod_to_equations. lia.
Qed.

Lemma prot_locked prot fl : prot_word prot → prot_flags prot fl & VM_LOCKED = fl & VM_LOCKED.
Proof.
  intros Hp. rewrite !flag_bit. unfold prot_flags, clear_bits. rewrite Z.lor_spec, Z.land_spec, Z.lnot_spec by done. change (Z.testbit (Z.lor _ PROT_EXEC) 13) with false.
  rewrite (Z.bits_above_log2 prot 13); [by rewrite andb_true_r|apply Hp|]. unfold prot_word in Hp. destruct (Z.eq_dec prot 0) as [->|]; [done|].
  apply Z.log2_lt_pow2; [lia|]. change (2 ^ 13) with 8192. lia.
Qed.

Lemma new_label fl g : label_ok fl (new_prot fl) g.
Proof. intros Hp Hf. specialize (Hp Hf). cbn. naive_solver. Qed.

Lemma reprotect_area prot g a : prot_flags prot (vm_flags g) ≠ vm_flags g →
  reprotect prot (page_mapping g a) = relabel_page (prot_flags prot (vm_flags g)) (new_prot (prot_flags prot (vm_flags g))) (page_mapping g a).
Proof. intros Hne. unfold reprotect. cbn [mp_flags page_mapping]. by destruct (Z.eqb_spec (prot_flags prot (vm_flags g)) (vm_flags g)). Qed.

Lemma reprotect_same prot g a : prot_flags prot (vm_flags g) = vm_flags g → reprotect prot (page_mapping g a) = page_mapping g a.
Proof. intros Heq. unfold reprotect. cbn [mp_flags page_mapping]. by rewrite Heq, Z.eqb_refl. Qed.

(** * Two areas that meet *)

(** A page of an anonymous area is what its flags say. *)
Definition anon_page (fl : Z) : mapping := mk_mapping fl (protection_map (Z.land fl 0xf)) 0 0 None.

Lemma anon_area g a : plain_area g → vm_file g = 0 → page_mapping g a = anon_page (vm_flags g).
Proof. intros Hp Hf. destruct (Hp Hf) as (Ho & Hd & Hprot). unfold page_mapping, anon_page. by rewrite Hf, Ho, Hd, Hprot. Qed.

Lemma anon_relabel g a fl : plain_area g → vm_file g = 0 → relabel_page fl (new_prot fl) (page_mapping g a) = anon_page fl.
Proof. intros Hp Hf. rewrite anon_area by done. done. Qed.

Section meet.
Context (p x : Z) (gp g : vm_area) (Hp : plain_area gp) (Hq : plain_area g) (Fp : vm_file gp = 0) (Fq : vm_file g = 0).
Context (Pp : proper gp) (Pq : proper g) (Heq : vm_end gp = vm_start g) (Hlk : vm_flags gp & VM_LOCKED = vm_flags g & VM_LOCKED).

Notation fl := (vm_flags gp).

Ltac meet a :=
  intros a; cbn [at_page vm_start vm_end set_vm_end set_vm_start];
  repeat match goal with |- context [in_range ?u ?v a] => destruct (in_range_spec u v a) end; cbn [fmap option_fmap option_map]; try lia; try done;
  first [rewrite anon_relabel by done; by apply (f_equal Some), anon_area|by apply (f_equal Some); rewrite !anon_area by done].

(** The first takes the second, or its front. *)
Lemma meet_all : relabelled (vm_start g) (vm_end g) fl (new_prot fl) (vm_flags g) [(p, gp); (x, g)] [(p, set_vm_end (vm_end g) gp)].
Proof.
  destruct Pp as (? & A1 & A2), Pq as (? & A3 & A4). pose proof (pages_split (vm_start gp) (vm_start g) (vm_end g) A1 A3) as Hs. split.
  - meet a.
  - cbn. unfold page_count. cbn. rewrite Heq. lia.
  - cbn. unfold locked_count, locked_by, page_count. cbn. rewrite Heq, Hlk. destruct (vm_flags g & VM_LOCKED); lia.
  - intros _. by apply plain_one.
Qed.

Lemma meet_start hi : aligned hi → vm_start g < hi < vm_end g →
  relabelled (vm_start g) hi fl (new_prot fl) (vm_flags g) [(p, gp); (x, g)] [(p, set_vm_end hi gp); (x, set_vm_start hi g)].
Proof.
  intros Ah Hr. destruct Pp as (? & A1 & A2), Pq as (? & A3 & A4). pose proof (pages_split (vm_start gp) (vm_start g) hi A1 A3) as Hs.
  pose proof (pages_split (vm_start g) hi (vm_end g) A3 Ah) as Ht. split.
  - meet a.
  - cbn. unfold page_count. cbn. rewrite Heq. lia.
  - cbn. unfold locked_count, locked_by, page_count. cbn. rewrite Heq, Hlk. destruct (vm_flags g & VM_LOCKED); lia.
  - intros _. apply (plain_app [_] [_]). split; by apply plain_one.
Qed.
End meet.
End flags.

(** * The steps that join areas *)

Section joins.
Context `{VmEnv} (s : mm) (E D2 : vdata) (p x : Z) (gp g : vm_area) (T : tree).
Context (C : vm_core s (E ++ (p, gp) :: (x, g) :: D2) T) (V : vm_space s (E ++ (p, gp) :: (x, g) :: D2)) (Heq : vm_end gp = vm_start g).

Lemma meet_bounds : laid 0 (vm_start gp) E ∧ proper gp ∧ proper g ∧ laid (vm_end g) (2 ^ 32 - 1) D2 ∧ 0 <= vm_start gp ∧ vm_end g < 2 ^ 32.
Proof using C.
  pose proof (laid_mid _ _ _ _ _ _ (vc_laid _ _ _ C)) as (L1 & L2 & P). destruct L2 as (? & ? & ? & ? & L2). assert (0 <= vm_start gp ∧ vm_end g < 2 ^ 32) as [? ?].
  { destruct (laid_elem _ _ _ p gp (vc_laid _ _ _ C)) as (? & _); [apply elem_of_app; right; left|].
    destruct (laid_elem _ _ _ x g (vc_laid _ _ _ C)) as (_ & _ & ? & _); [apply elem_of_app; right; right; left|]. lia. }
  split_and!; (done || by split).
Qed.

Lemma absorb_run : ∃ s', absorb p x s = Some (tt, s') ∧ altered s s' (E ++ (p, set_vm_end (vm_end g) gp) :: D2).
Proof.
  destruct meet_bounds as (L1 & (P1 & P2 & P3) & (Q1 & Q2 & Q3) & L2 & B1 & B2). destruct (tail_list _ _ _ _ _ _ C) as (_ & _ & Hp).
  pose proof C as C'. rewrite cons_middle, app_assoc in C'. destruct (tail_list _ _ _ _ _ _ C') as (_ & _ & Hx). cbn [fmap list_fmap hd0 hd fst] in Hp.
  destruct (unlink_joined s E D2 p x gp g (set_vm_end (vm_end g) gp) T C) as (s' & _ & Hrun & A & _); [|apply V|apply (vs_tally _ _ V)|].
  { apply laid_app. exists (vm_start gp). split; [done|]. cbn. split_and!; (done || lia). }
  exists s'. split; [|done]. unfold absorb. erewrite es_bind by by apply ga_live. cbn [set_vm_next vm_end]. erewrite es_bind by (by apply wa_live).
  exact (Hrun unit (mret tt)).
Qed.

(** The front of [x] goes to [p]. *)
Lemma shift_run hi : vm_start g < hi < vm_end g → aligned hi → ∃ s', (∀ B (K : VM B), (wa p (set_vm_end hi);; wa x (set_vm_start hi);; K) s = K s') ∧
  altered s s' (E ++ (p, set_vm_end hi gp) :: (x, set_vm_start hi g) :: D2).
Proof.
  intros Hr Ah. destruct meet_bounds as (L1 & (P1 & P2 & P3) & (Q1 & Q2 & Q3) & L2 & B1 & B2). destruct (tail_list _ _ _ _ _ _ C) as (_ & _ & Hp).
  destruct (joined_names s E D2 p x gp g gp T C) as (Hne & _). pose proof C as C'. rewrite cons_middle, app_assoc in C'. destruct (tail_list _ _ _ _ _ _ C') as (_ & _ & Hx).
  cbn [fmap list_fmap hd0 hd fst] in Hp. pose proof (resize_core s (E ++ [(p, gp)]) D2 x g (set_vm_start hi g) T C') as C1. rewrite <-app_assoc in C1. cbn [app] in C1.
  specialize (C1 ltac:(apply laid_app; exists (vm_start gp); split; [done|]; cbn; split_and!; (done || lia))).
  pose proof (resize_core _ E _ p gp (set_vm_end hi gp) T C1) as C2. cbn [fmap list_fmap hd0 hd fst set_mm_areas mm_areas] in C2.
  specialize (C2 ltac:(apply laid_app; exists (vm_start gp); split; [done|]; cbn; split_and!; (done || lia))). rewrite insert_insert_ne in C2 by done.
  eexists. split; [intros B K; erewrite es_bind by (by apply wa_live); erewrite es_bind by (apply wa_live; cbn; by rewrite lookup_insert_ne); reflexivity|].
  split; [exists T; exact C2| | |by split|done..].
  - pose proof (vs_cached _ _ V) as Hk. unfold cached in *. by rewrite fmap_app in *.
  - cbn. rewrite (ta_count _ _ (vs_tally _ _ V)), !length_app. done.
Qed.
End joins.

(** * One area *)

Section fixup.
Context `{VmEnv} (prot : Z) (Hprot : prot_word prot).

Record prot_step (lo hi : Z) (s : mm) (D : vdata) (s' : mm) (D' : vdata) : Prop := {
  ps_space : vm_space s' D';
  ps_plain : plain D';
  ps_fields : same_fields s s';
  ps_changed : changed lo hi (reprotect prot) D D'
}.

(** The counts are as they were. *)
Lemma prot_space lo hi fl pr fl0 s s1 e D D' : vm_space s D → altered s s1 D' → relabelled lo hi fl pr fl0 D D' → fl & VM_LOCKED = fl0 & VM_LOCKED →
  ∃ s', emit_vm e s1 = Some (tt, s') ∧ vm_space s' D' ∧ same_fields s s'.
Proof using.
  intros [_ _ [_ Ht Hl]] [[T C] K N F T1 L1] [_ R2 R3 _] Hlk. unfold locked_by in R3. rewrite Hlk in R3. eexists. split; [done|]. split; [|by destruct F; split].
  split; [exists T; by apply (vm_core_same s1)|done|]. split; [done|cbn; lia|cbn; destruct (fl0 & VM_LOCKED); lia].
Qed.

Context (s : mm) (D1 D2 : vdata) (x : Z) (g : vm_area) (T : tree) (lo hi prev : Z).
Context (C : vm_core s (D1 ++ (x, g) :: D2) T) (V : vm_space s (D1 ++ (x, g) :: D2)) (Hp : plain (D1 ++ (x, g) :: D2)).
Context (Al : aligned lo) (Ah : aligned hi) (Hlo : vm_start g <= lo) (Hlt : lo < hi) (Hhi : hi <= vm_end g) (Hprev : prev = last0 D1.*1).

Notation nf := (prot_flags prot (vm_flags g)).
Notation D := (D1 ++ (x, g) :: D2).

Context (Hne : nf ≠ vm_flags g).

(** What the four cases come to. *)
Definition fixed (r pv : Z) (s1 : mm) : Prop :=
  (r = - ENOMEM ∧ unparted s D1 D2 x g s1) ∨
  (r = 0 ∧ ∃ D', altered s s1 D' ∧ relabelled lo hi nf (new_prot nf) (vm_flags g) D D' ∧ changed lo hi (reprotect prot) D D' ∧
    (hi = vm_end g → ∃ E h, D' = E ++ (pv, h) :: D2)).

Lemma parts_fixed P s1 : parted s D1 D2 x g nf (new_prot nf) lo hi P s1 →
  altered s s1 (D1 ++ P ++ D2) ∧ relabelled lo hi nf (new_prot nf) (vm_flags g) D (D1 ++ P ++ D2) ∧ changed lo hi (reprotect prot) D (D1 ++ P ++ D2).
Proof.
  intros [A R]. pose proof (area_gap lo hi _ _ _ _ _ _ C Hlo Hhi) as Hg. split_and!; [done|by apply (relabelled_mid lo hi _ _ _ D1 [(x, g)])|].
  apply (changed_mid lo hi _ D1 D2 [(x, g)] P Hg). eapply relabelled_changed; [exact R|]. intros a m _ ->%one_page. by apply reprotect_area.
Qed.

(** The area goes, or its front goes, to the one before. *)
Lemma meet_fixed E p gp P s1 : D1 = E ++ [(p, gp)] → lo = vm_start g → vm_end gp = vm_start g → vm_flags gp = nf →
  altered s s1 (E ++ P ++ D2) → relabelled lo hi (vm_flags gp) (new_prot (vm_flags gp)) (vm_flags g) [(p, gp); (x, g)] P →
  relabelled lo hi nf (new_prot nf) (vm_flags g) D (E ++ P ++ D2) ∧ changed lo hi (reprotect prot) D (E ++ P ++ D2).
Proof.
  intros HD Hs Heq Hfl A R. rewrite Hfl in R. assert (D = E ++ [(p, gp); (x, g)] ++ D2) as HD' by (rewrite HD; by rewrite <-app_assoc).
  assert (in_gap lo hi E D2) as Hg.
  { destruct (area_gap lo hi _ _ _ _ _ _ C Hlo Hhi) as [G1 G2]. split; [|done]. intros y h Hy. apply (G1 y h). rewrite HD. apply elem_of_app. by left. }
  rewrite HD'. split; [by apply relabelled_mid|]. apply changed_mid; [done|]. eapply relabelled_changed; [exact R|]. intros a m Ha. cbn [at_page].
  destruct (in_range_spec (vm_start gp) (vm_end gp) a); [lia|]. destruct (in_range _ (vm_end g) a); [|done]. intros [= <-]. by apply reprotect_area.
Qed.

(** What [can_join] has found. *)
Lemma can_join_run : ∃ b, can_join prev (set_vm_next (hd0 D2.*1) g) nf s = Some (b, s) ∧
  (b = true → ∃ E p gp, D1 = E ++ [(p, gp)] ∧ prev = p ∧ vm_end gp = vm_start g ∧ vm_flags gp = nf ∧ vm_file gp = 0 ∧ vm_file g = 0).
Proof.
  unfold can_join. rewrite Hprev. destruct (vseg_nil_last D1) as [->|(E & p & gp & HD)]; [by exists false|]. rewrite HD, last0_snoc.
  assert ((p, gp) ∈ D) as Hin by (rewrite HD, !elem_of_app; left; right; left). destruct (Z.eqb_spec p 0) as [|_]; [by exists false|].
  destruct (ga_run _ _ T C p gp Hin) as [nx Hga]. erewrite es_bind by exact Hga. cbn [set_vm_next vm_end vm_start vm_file vm_flags]. eexists. split; [done|].
  unfold can_vma_merge. cbn [set_vm_next vm_file vm_flags]. rewrite !andb_true_iff, !Z.eqb_eq. intros [[[H1 [H2 H3]] H4] _]. by exists E, p, gp.
Qed.

Lemma fixup_all_run : lo = vm_start g → hi = vm_end g → ∃ r pv s1, mprotect_fixup_all x prev nf (protection_map (Z.land nf 0xf)) s = Some ((r, pv), s1) ∧ fixed r pv s1.
Proof.
  intros Hs He. destruct (tail_list _ _ _ _ _ _ C) as (_ & _ & Hx). unfold mprotect_fixup_all. erewrite es_bind by by apply ga_live.
  destruct can_join_run as (b & Hb & Hor). erewrite es_bind by exact Hb. destruct b.
  - destruct (Hor eq_refl) as (E & p & gp & HD & Hpv & Heq & Hfl & Fp & Fq). rewrite Hpv. pose proof C as C'. pose proof V as V'. pose proof Hp as Hp'. rewrite HD, <-app_assoc in C', V', Hp'.
    cbn [app] in C', V', Hp'. destruct (absorb_run s E D2 p x gp g T C' V' Heq) as (s1 & Hrun & A). erewrite es_bind by exact Hrun. exists 0, p, s1. split; [done|]. right. split; [done|].
    destruct (meet_bounds s E D2 p x gp g T C') as (_ & Pp & Pq & _). assert (plain_area gp ∧ plain_area g) as [Hpp Hpq].
    { split; [apply (Hp' p)|apply (Hp' x)]; apply elem_of_app; right; [left|right; left]. }
    destruct (meet_fixed E p gp [(p, set_vm_end (vm_end g) gp)] s1 HD Hs Heq Hfl A) as [R Hc].
    { rewrite Hs, He. apply meet_all; try done. rewrite Hfl. by apply prot_locked. }
    eexists. split_and!; [exact A|exact R|exact Hc|]. intros _. by eexists _, _.
  - destruct (all_parts s D1 D2 x g T C V nf (new_prot nf) lo hi Al Ah (new_label nf g) Hs He) as (s1 & Hw & P).
    change (new_prot nf) with (Some (protection_map (Z.land nf 0xf))) in Hw. erewrite es_bind by exact Hw. exists 0, x, s1. split; [done|]. right. split; [done|].
    destruct (parts_fixed _ _ P) as (A & R & Hc). eexists. split_and!; [exact A|exact R|exact Hc|]. intros _. by eexists _, _.
Qed.

Lemma fixup_start_run : lo = vm_start g → hi < vm_end g → ∃ r pv s1, mprotect_fixup_start x prev hi nf (protection_map (Z.land nf 0xf)) s = Some ((r, pv), s1) ∧ fixed r pv s1.
Proof.
  intros Hs He. destruct (tail_list _ _ _ _ _ _ C) as (_ & _ & Hx). unfold mprotect_fixup_start. erewrite es_bind by by apply ga_live.
  destruct can_join_run as (b & Hb & Hor). erewrite es_bind by exact Hb. destruct b.
  - destruct (Hor eq_refl) as (E & p & gp & HD & Hpv & Heq & Hfl & Fp & Fq). rewrite Hpv. pose proof C as C'. pose proof V as V'. pose proof Hp as Hp'. rewrite HD, <-app_assoc in C', V', Hp'.
    cbn [app] in C', V', Hp'. destruct (shift_run s E D2 p x gp g T C' V' Heq hi) as (s1 & Hrun & A); [lia|done|]. rewrite Hrun. exists 0, x, s1. split; [done|]. right. split; [done|].
    destruct (meet_bounds s E D2 p x gp g T C') as (_ & Pp & Pq & _). assert (plain_area gp ∧ plain_area g) as [Hpp Hpq].
    { split; [apply (Hp' p)|apply (Hp' x)]; apply elem_of_app; right; [left|right; left]. }
    destruct (meet_fixed E p gp [(p, set_vm_end hi gp); (x, set_vm_start hi g)] s1 HD Hs Heq Hfl A) as [R Hc].
    { rewrite Hs. apply meet_start; try done; [rewrite Hfl; by apply prot_locked|lia]. }
    eexists. split_and!; [exact A|exact R|exact Hc|lia].
  - destruct (start_parts s D1 D2 x g T C V nf (new_prot nf) lo hi Al Ah (new_label nf g) ENOMEM Hs) as (r & s1 & Hw & P); [lia|].
    change (new_prot nf) with (Some (protection_map (Z.land nf 0xf))) in Hw. erewrite es_bind by exact Hw. exists r, x, s1. split; [done|].
    destruct P as [P|(-> & P & HP)]; [by left|]. right. split; [done|]. destruct (parts_fixed _ _ HP) as (A & R & Hc). eexists. split_and!; [exact A|exact R|exact Hc|lia].
Qed.

Lemma fixup_end_run : vm_start g < lo → hi = vm_end g → ∃ r pv s1, mprotect_fixup_end x prev lo nf (protection_map (Z.land nf 0xf)) s = Some ((r, pv), s1) ∧ fixed r pv s1.
Proof.
  intros Hs He. destruct (end_parts s D1 D2 x g T C V nf (new_prot nf) lo hi Al Ah (new_label nf g) ENOMEM He) as (r & n & s1 & Hw & P); [lia|]. unfold mprotect_fixup_end.
  change (new_prot nf) with (Some (protection_map (Z.land nf 0xf))) in Hw. erewrite es_bind by exact Hw. eexists r, _, s1. split; [done|].
  destruct P as [P|(-> & Q & h & HP & _)]; [by left|]. right. split; [done|]. destruct (parts_fixed _ _ HP) as (A & R & Hc). eexists. split_and!; [exact A|exact R|exact Hc|].
  intros _. exists (D1 ++ Q), h. by rewrite <-!app_assoc.
Qed.

Lemma fixup_middle_run : vm_start g < lo → hi < vm_end g → ∃ r pv s1, mprotect_fixup_middle x prev lo hi nf (protection_map (Z.land nf 0xf)) s = Some ((r, pv), s1) ∧ fixed r pv s1.
Proof.
  intros Hs He. destruct (middle_parts s D1 D2 x g T C V nf (new_prot nf) lo hi Al Ah (new_label nf g) ENOMEM Hs Hlt He) as (r & n & s1 & Hw & P). unfold mprotect_fixup_middle.
  change (new_prot nf) with (Some (protection_map (Z.land nf 0xf))) in Hw. erewrite es_bind by exact Hw. eexists r, _, s1. split; [done|].
  destruct P as [P|(-> & P & HP)]; [by left|]. right. split; [done|]. destruct (parts_fixed _ _ HP) as (A & R & Hc). eexists. split_and!; [exact A|exact R|exact Hc|lia].
Qed.

Lemma cases_run : ∃ r pv s1, (if lo =? vm_start g then
    if hi =? vm_end g then mprotect_fixup_all x prev nf (protection_map (Z.land nf 0xf)) else mprotect_fixup_start x prev hi nf (protection_map (Z.land nf 0xf))
  else if hi =? vm_end g then mprotect_fixup_end x prev lo nf (protection_map (Z.land nf 0xf))
  else mprotect_fixup_middle x prev lo hi nf (protection_map (Z.land nf 0xf))) s = Some ((r, pv), s1) ∧ fixed r pv s1.
Proof.
  destruct (Z.eqb_spec lo (vm_start g)), (Z.eqb_spec hi (vm_end g)).
  - by apply fixup_all_run.
  - apply fixup_start_run; lia.
  - apply fixup_end_run; lia.
  - apply fixup_middle_run; lia.
Qed.
End fixup.

Section steps.
Context `{VmEnv} (prot : Z) (Hprot : prot_word prot).

Lemma mprotect_fixup_run s D1 x g D2 lo hi : vm_space s (D1 ++ (x, g) :: D2) → plain (D1 ++ (x, g) :: D2) → aligned lo → aligned hi →
  vm_start g <= lo → lo < hi → hi <= vm_end g →
  ∃ r pv s', mprotect_fixup x (last0 D1.*1) lo hi (prot_flags prot (vm_flags g)) s = Some ((r, pv), s') ∧
    ((r = - ENOMEM ∧ unparted s D1 D2 x g s') ∨
     (r = 0 ∧ ∃ D', prot_step prot lo hi s (D1 ++ (x, g) :: D2) s' D' ∧ (hi = vm_end g → ∃ E h, D' = E ++ (pv, h) :: D2))).
Proof.
  intros V Hp Al Ah Hlo Hlt Hhi. destruct (vs_core _ _ V) as [T C]. destruct (tail_list _ _ _ _ _ _ C) as (_ & _ & Hx). unfold mprotect_fixup.
  erewrite es_bind by by apply ga_live. cbn [vm_flags vm_start vm_end set_vm_next].
  destruct (Z.eqb_spec (prot_flags prot (vm_flags g)) (vm_flags g)) as [Heq|Hne].
  { exists 0, x, s. split; [done|]. right. split; [done|]. eexists. split; [|intros _; by eexists _, _]. split; [done..|].
    apply (changed_mid lo hi _ D1 D2 [(x, g)] [(x, g)]); [by eapply area_gap|]. apply unchanged. intros a. by apply reprotect_same. }
  destruct (cases_run prot Hprot s D1 D2 x g T lo hi _ C V Hp Al Ah Hlo Hlt Hhi eq_refl Hne) as (r & pv & s1 & Hrun & Hf). cbv zeta. erewrite es_bind by exact Hrun.
  destruct Hf as [[-> U]|(-> & D' & A & R & Hc & Hend)]; [exists (- ENOMEM), pv, s1; split; [done|by left]|].
  destruct (prot_space lo hi _ _ _ s s1 (EvProtect lo hi (protection_map (Z.land (prot_flags prot (vm_flags g)) 0xf))) _ D' V A R (prot_locked prot _ Hprot)) as (s' & Hev & V' & F').
  exists 0, pv, s'. split.
  - cbn [Z.eqb negb]. unfold change_protection. rewrite Z.geb_leb. destruct (Z.leb_spec hi lo); [lia|]. by erewrite es_bind by exact Hev.
  - right. split; [done|]. exists D'. split; [|done]. split; [done|by apply (rw_plain _ _ _ _ _ _ _ R)|done|done].
Qed.
End steps.

(** Lemmas on the loop of [sys_mprotect] and on the call. *)

Section loop.
Context `{VmEnv} (prot : Z) (Hprot : prot_word prot).

Notation nf g := (prot_flags prot (vm_flags g)).

(** The [VM_MAY*] flags allow what the page is to have. *)
Definition page_allowed (m : mapping) : Prop := not_allowed (prot_flags prot (mp_flags m)) = false.
Definition all_allowed (lo hi : Z) (D : vdata) : Prop := ∀ a m, lo <= a < hi → at_page D a = Some m → page_allowed m.

(** The pages up to [stop] have changed, and none was to have more than it may. *)
Record prot_result (lo hi : Z) (s : mm) (D : vdata) (s' : mm) (D' : vdata) (stop : Z) : Prop := {
  pr_space : vm_space s' D';
  pr_plain : plain D';
  pr_fields : same_fields s s';
  pr_stop : lo <= stop <= hi;
  pr_changed : changed lo stop (reprotect prot) D D';
  pr_covered : covered lo stop D;
  pr_allowed : all_allowed lo stop D
}.

(** Why the loop has stopped. *)
Definition prot_why (hi : Z) (D : vdata) (stop : Z) (e : Z) : Prop :=
  (e = 0 ∧ stop = hi) ∨ (stop < hi ∧ (e = - ENOMEM ∨ (e = - EACCES ∧ ∃ m, at_page D stop = Some m ∧ ¬ page_allowed m))).

Definition loop_result (lo hi : Z) (s : mm) (D : vdata) (out : Z + Z * Z) (s' : mm) (D' : vdata) (stop : Z) : Prop :=
  prot_result lo hi s D s' D' stop ∧
  match out with
  | inl e => prot_why hi D stop e
  | inr (pv, n) => stop = hi ∧ ∃ E h F, D' = E ++ (pv, h) :: F ∧ n = hd0 F.*1
  end.

Lemma prot_result_none lo hi s D : vm_space s D → plain D → lo <= hi → prot_result lo hi s D s D lo.
Proof. intros V Hp Hle. split; [done..|lia|apply changed_none|intros a Ha; lia|intros a m Ha; lia]. Qed.

Lemma prot_result_one lo hi s D1 x g D2 s' D' stop : vm_start g <= lo → stop <= vm_end g → lo <= stop <= hi → page_allowed (page_mapping g lo) →
  vm_space s (D1 ++ (x, g) :: D2) → prot_step prot lo stop s (D1 ++ (x, g) :: D2) s' D' → prot_result lo hi s (D1 ++ (x, g) :: D2) s' D' stop.
Proof.
  intros Hlo Hst Hle Ha V [S1 S2 S3 S4]. destruct (vs_core _ _ V) as [T C]. split; [done..|by apply covered_one|]. intros a m Hr Hm.
  destruct (area_gap lo stop _ _ _ _ _ _ C Hlo Hst) as [G1 G2]. rewrite at_page_app, at_page_none in Hm.
  - cbn [at_page] in Hm. destruct (in_range_spec (vm_start g) (vm_end g) a); [by injection Hm as <-|lia].
  - intros y h Hy. specialize (G1 y h Hy). destruct (in_range_spec (vm_start h) (vm_end h) a); [lia|done].
Qed.

Lemma prot_result_next lo mid hi s D s1 D1 s' D' stop : prot_result lo mid s D s1 D1 mid → prot_result mid hi s1 D1 s' D' stop → prot_result lo hi s D s' D' stop.
Proof.
  intros [_ _ F1 L1 C1 V1 A1] [S2 P2 F2 L2 C2 V2 A2]. split; [done|done|by etrans|lia|eapply changed_trans; [|exact C1|exact C2]; lia| |].
  - eapply covered_join; [exact V1|]. by eapply covered_changed.
  - intros a m Ha Hm. destruct (Z.lt_ge_cases a mid); [apply (A1 a); [lia|done]|]. apply (A2 a); [lia|]. rewrite C1. by destruct (in_range_spec lo mid a); [lia|].
Qed.

Lemma why_next lo mid hi D D1 stop e : changed lo mid (reprotect prot) D D1 → mid <= stop → prot_why hi D1 stop e → prot_why hi D stop e.
Proof.
  intros Hc Hm [[-> ->]|[Hlt [->|(-> & m & Ha & Hn)]]]; [by left|right; split; [done|by left]|]. right. split; [done|right]. split; [done|]. exists m. split; [|done].
  rewrite Hc in Ha. by destruct (in_range_spec lo mid stop); [lia|].
Qed.

Lemma mprotect_loop_run D2 fuel s D1 x g lo hi : (length D2 < fuel)%nat → vm_space s (D1 ++ (x, g) :: D2) → plain (D1 ++ (x, g) :: D2) →
  aligned lo → aligned hi → vm_start g <= lo → lo < vm_end g → lo < hi →
  ∃ out s' D' stop, mprotect_loop fuel x (last0 D1.*1) lo hi prot s = Some (out, s') ∧ loop_result lo hi s (D1 ++ (x, g) :: D2) out s' D' stop.
Proof.
  revert fuel s D1 x g lo. induction D2 as [|[n k] D2 IH]; intros [|fuel] s D1 x g lo Hf V Hp Al Ah Hlo Hlt Hhi; cbn in Hf; try lia;
    destruct (vs_core _ _ V) as [T C]; destruct (tail_list _ _ _ _ _ _ C) as (_ & _ & Hx); destruct (split_bounds s D1 _ x g T C V) as ((_ & _ & Ae) & _ & _ & _ & L2);
    cbn [mprotect_loop]; erewrite es_bind by (by apply ga_live); cbn [set_vm_next vm_flags vm_end vm_next]; destruct (not_allowed (nf g)) eqn:Hna.
  1, 3: eexists _, s, _, lo; split; [done|]; split; [apply prot_result_none; (done || lia)|]; right; split; [done|right]; split; [done|]; exists (page_mapping g lo); split;
    [|unfold page_allowed; cbn; by rewrite Hna]; destruct (area_gap lo (vm_end g) _ _ _ _ _ _ C Hlo (Z.le_refl _)) as [G1 _]; rewrite at_page_app, at_page_none;
    [cbn [at_page]; by destruct (in_range_spec (vm_start g) (vm_end g) lo); [|lia]|intros y h Hy; specialize (G1 y h Hy); by destruct (in_range_spec (vm_start h) (vm_end h) lo); [lia|]].
  all: rewrite Z.gtb_ltb; destruct (Z.ltb_spec hi (vm_end g)) as [He|He].
  1, 3: destruct (mprotect_fixup_run prot Hprot s D1 x g _ lo hi V Hp Al Ah Hlo Hhi ltac:(lia)) as (r & pv & s' & Hrun & [[-> [V' F']]|(-> & D' & S & _)]); erewrite es_bind by exact Hrun;
    [eexists _, s', _, lo; split; [done|]; split; [destruct (prot_result_none lo hi s' _ V' Hp ltac:(lia)); by split|right; split; [done|by left]]
    |eexists _, s', D', hi; split; [done|]; split; [apply prot_result_one; (done || lia)|by left]].
  all: destruct (mprotect_fixup_run prot Hprot s D1 x g _ lo (vm_end g) V Hp Al Ae Hlo Hlt ltac:(done)) as (r & pv & s1 & Hrun & [[-> [V' F']]|(-> & D' & S & Hend)]); erewrite es_bind by exact Hrun;
    [eexists _, s1, _, lo; split; [done|]; split; [destruct (prot_result_none lo hi s1 _ V' Hp ltac:(lia)); by split|right; split; [done|by left]]|cbn [Z.eqb negb]];
    destruct (Hend eq_refl) as (E & h & HD');
    (destruct (Z.eqb_spec (vm_end g) hi) as [Hl|Hl]; [eexists _, s1, D', hi; split; [done|]; split; [apply prot_result_one; (done || lia || by rewrite <-Hl)|]; split; [done|by eexists E, h, _]|]).
  - eexists _, s1, D', (vm_end g). split; [done|]. split; [apply prot_result_one; (done || lia)|]. right. split; [lia|by left].
  - cbn [fmap list_fmap hd0 hd fst]. destruct (Z.eqb_spec n 0) as [->|_]; [exfalso; apply (vc_nonzero s _ T C 0 k); [apply elem_of_app; right; right; left|done]|].
    pose proof S as [V1 P1 F1 Hc]. destruct (vs_core _ _ V1) as [T1 C1]. assert ((n, k) ∈ D') as Hn by (rewrite HD', elem_of_app; right; right; left).
    destruct (ga_run s1 _ T1 C1 n k Hn) as [nx Hga]. erewrite es_bind by exact Hga. cbn [set_vm_next vm_start]. destruct (Z.eqb_spec (vm_start k) (vm_end g)) as [Heq|Hneq]; cbn [negb].
    + destruct L2 as (_ & Hltk & _). rewrite HD', cons_middle, app_assoc in V1, P1. 
      destruct (IH fuel s1 (E ++ [(pv, h)]) n k (vm_end g)) as (out & s' & D'' & stop & H2 & R & W); [lia|done|done|done|done|lia|lia|lia|]. rewrite <-app_assoc in R, W.
      rewrite last0_snoc in H2. exists out, s', D'', stop. split; [exact H2|]. cbn [app] in R, W. rewrite <-HD' in R, W. split.
      * eapply prot_result_next; [|exact R]. apply prot_result_one; (done || lia).
      * destruct out as [e|[pv' n']]; [|done]. eapply why_next; [exact Hc|apply R|exact W].
    + eexists _, s1, D', (vm_end g). split; [done|]. split; [apply prot_result_one; (done || lia)|]. right. split; [lia|by left].
Qed.

(** * The area behind the range *)

Lemma join_next_run s E pv h F : vm_space s (E ++ (pv, h) :: F) → plain (E ++ (pv, h) :: F) →
  ∃ s' D', join_next pv (hd0 F.*1) s = Some (tt, s') ∧ vm_space s' D' ∧ plain D' ∧ same_fields s s' ∧ ∀ a, at_page D' a = at_page (E ++ (pv, h) :: F) a.
Proof.
  intros V Hp. unfold join_next. destruct F as [|[n k] F]; [by eexists _, _|]. cbn [fmap list_fmap hd0 hd fst]. destruct (Z.eqb_spec n 0); [by eexists _, _|].
  destruct (vs_core _ _ V) as [T C]. assert ((pv, h) ∈ E ++ (pv, h) :: (n, k) :: F) as Hh by (apply elem_of_app; right; left).
  assert ((n, k) ∈ E ++ (pv, h) :: (n, k) :: F) as Hk by (apply elem_of_app; right; right; left). destruct (ga_run _ _ T C _ _ Hh) as [nx Hga]. destruct (ga_run _ _ T C _ _ Hk) as [ny Hgb].
  erewrite es_bind by exact Hga. erewrite es_bind by exact Hgb. unfold can_vma_merge. cbn [set_vm_next vm_end vm_start vm_file vm_flags].
  destruct (_ && _ && _ && _) eqn:Hc; [|by eexists _, _]. rewrite !andb_true_iff, !Z.eqb_eq in Hc. destruct Hc as [[[Heq [Fk Hfl]] Fh] _].
  destruct (absorb_run s E F pv n h k T C V Heq) as (s1 & Hrun & [[T1 C1] K1 N1 F1 T2 L2]). destruct (meet_bounds s E F pv n h k T C) as (L1 & Ph & Pk & L3 & _).
  pose proof (meet_all pv n h k (Hp _ _ Hh) (Hp _ _ Hk) Fh Fk Ph Pk Heq ltac:(by rewrite Hfl)) as R. assert (in_gap (vm_start k) (vm_end k) E F) as Hg.
  { destruct Ph as (Ph & _). split; intros y g Hy; [destruct (laid_elem _ _ _ _ _ L1 Hy) as (_ & _ & ? & _)|destruct (laid_elem _ _ _ _ _ L3 Hy) as (? & _)]; lia. }
  pose proof (relabelled_mid _ _ _ _ _ E [(pv, h); (n, k)] _ F Hg R) as [_ R2 R3 R4]. cbn [app] in *. unfold locked_by in R3. rewrite Hfl in R3. destruct V as [_ _ [_ Ht Hl]].
  exists s1, (E ++ (pv, set_vm_end (vm_end k) h) :: F). split_and!; [exact Hrun| |by apply R4|done|].
  - split; [by exists T1|done|]. split; [done|lia|]. destruct (vm_flags h & VM_LOCKED); lia.
  - intros a. assert (changed (vm_start k) (vm_end k) id (E ++ [(pv, h); (n, k)] ++ F) (E ++ [(pv, set_vm_end (vm_end k) h)] ++ F)) as Hch; [|cbn [app] in Hch; rewrite Hch; destruct (in_range _ _ a); [apply option_fmap_id|done]].
    apply changed_mid; [done|]. eapply relabelled_changed; [exact R|]. intros b m Hb. cbn [at_page]. destruct (in_range_spec (vm_start h) (vm_end h) b); [lia|].
    destruct (in_range_spec (vm_start k) (vm_end k) b); [|lia]. intros [= <-]. rewrite <-Hfl, anon_relabel by (done || by eapply Hp). apply anon_area; [by eapply Hp|done].
Qed.

(** * The call *)

Lemma prot_result_pages lo hi s D s1 D1 stop s' D' : prot_result lo hi s D s1 D1 stop → vm_space s' D' → plain D' → same_fields s1 s' →
  (∀ a, at_page D' a = at_page D1 a) → prot_result lo hi s D s' D' stop.
Proof. intros [_ _ F1 L1 C1 V1 A1] V P F Ha. split; [done|done|by etrans|done|by intros a; rewrite Ha|done|done]. Qed.

(** What follows the checks of the arguments. *)
Lemma mprotect_areas s D start end_ : vm_space s D → plain D → aligned start → aligned end_ → start < end_ →
  ∃ r s' D' stop, ('(vma, prev) ← find_vma_prev start;
      if vma =? 0 then mret (- ENOMEM)
      else
        v ← ga vma;
        if vm_start v >? start then mret (- ENOMEM)
        else
          fuel ← vm_fuel;
          r ← mprotect_loop fuel vma prev start end_ prot;
          match r with
          | inl error => mret error
          | inr (prev, next) => join_next prev next;; mret 0
          end) s = Some (r, s') ∧ prot_result start end_ s D s' D' stop ∧ prot_why end_ D stop r.
Proof.
  intros V Hp Al Ah Hlt. destruct (vs_core _ _ V) as [T C]. assert (prot_why end_ D start (- ENOMEM)) as Hno by (right; split; [done|by left]).
  destruct (find_vma_prev_run s D T C start) as [[Hb Hrun]|(D1 & x & g & D2 & HD & Hb & Hg & Hrun)]; erewrite es_bind by exact Hrun.
  { eexists _, s, D, start. split; [done|]. split; [apply prot_result_none; (done || lia)|done]. }
  subst D. assert ((x, g) ∈ D1 ++ (x, g) :: D2) as Hx by (apply elem_of_app; right; left). destruct (Z.eqb_spec x 0) as [->|_]; [exfalso; by apply (vc_nonzero _ _ T C 0 g)|].
  destruct (ga_run _ _ T C x g Hx) as [nx Hga]. erewrite es_bind by exact Hga. cbn [set_vm_next vm_start]. rewrite Z.gtb_ltb. destruct (Z.ltb_spec start (vm_start g)).
  { eexists _, s, _, start. split; [done|]. split; [apply prot_result_none; (done || lia)|done]. }
  erewrite es_bind by done. destruct (mprotect_loop_run D2 (S (base.size (mm_areas s))) s D1 x g start end_) as (out & s1 & D' & stop & H2 & R & W); [|done|done|done|done|lia|lia|lia|].
  { pose proof (vm_fuel_enough _ _ _ C) as Hf. rewrite (vc_order _ _ _ C), length_fmap, length_app in Hf. cbn in Hf. lia. }
  erewrite es_bind by exact H2. destruct out as [e|[pv n]]; [by exists e, s1, D', stop|]. destruct W as (-> & E & h & F & -> & ->).
  destruct (join_next_run s1 E pv h F) as (s' & D'' & Hj & V' & P' & F' & Ha); [apply R..|]. exists 0, s', D'', end_. split; [by erewrite es_bind by exact Hj|].
  split; [by eapply prot_result_pages|by left].
Qed.
End loop.

Section calls.
Context `{VmEnv}.

(** The flags are within the [VM_MAY*] flags. *)
Definition may_ok (D : vdata) : Prop := ∀ a m, at_page D a = Some m → not_allowed (mp_flags m) = false.

Lemma may_preserved prot lo stop D D' : changed lo stop (reprotect prot) D D' → all_allowed prot lo stop D → may_ok D → may_ok D'.
Proof.
  intros Hc Ha Hm a m. rewrite Hc. destruct (in_range_spec lo stop a) as [Hr|Hr]; [|by apply Hm]. destruct (at_page D a) as [m0|] eqn:H0; [|done]. intros [= <-].
  specialize (Ha a m0 Hr H0). unfold page_allowed in Ha. unfold reprotect. destruct (Z.eqb_spec (prot_flags prot (mp_flags m0)) (mp_flags m0)) as [Heq|]; [by rewrite Heq in Ha|done].
Qed.

(** The arguments [sys_mprotect] refuses. *)
Definition mprotect_refused (start len prot : Z) : Prop :=
  ¬ aligned start ∨ u32 (start + PAGE_ALIGN len) < start ∨ prot &~ Z.lor (Z.lor PROT_READ PROT_WRITE) PROT_EXEC ≠ 0.

Definition mprotect_outcome (start len prot : Z) (s : mm) (D : vdata) (r : Z) (s' : mm) (D' : vdata) : Prop :=
  (mprotect_refused start len prot ∧ r = - EINVAL ∧ s' = s ∧ D' = D) ∨
  (PAGE_ALIGN len = 0 ∧ r = 0 ∧ s' = s ∧ D' = D) ∨
  (start + PAGE_ALIGN len < 2 ^ 32 ∧ ∃ stop, prot_result prot start (start + PAGE_ALIGN len) s D s' D' stop ∧ prot_why prot (start + PAGE_ALIGN len) D stop r).

Lemma sys_mprotect_run s D start len prot : vm_space s D → plain D → 0 <= start < 2 ^ 32 → 0 <= prot →
  ∃ r s' D', sys_mprotect start len prot s = Some (r, s') ∧ vm_space s' D' ∧ plain D' ∧ same_fields s s' ∧ mprotect_outcome start len prot s D r s' D'.
Proof.
  intros V Hp Hs Hprot. unfold sys_mprotect, mprotect_outcome, mprotect_refused. cbv zeta. pose proof (page_align_bound len) as Hb. set (n := PAGE_ALIGN len) in *.
  destruct (off_page start) eqn:Hoff.
  { exists (- EINVAL), s, D. split_and!; [done..|]. left. split_and!; [left|done..]. intros Al%off_page_false. congruence. }
  apply off_page_false in Hoff. destruct (Z.ltb_spec (u32 (start + n)) start) as [Hw|Hw]; [exists (- EINVAL), s, D; split_and!; [done..|]; left; split_and!; [by right; left|done..]|].
  destruct (Z.eqb_spec (prot &~ Z.lor (Z.lor PROT_READ PROT_WRITE) PROT_EXEC) 0) as [Hz|Hz]; cbn [negb];
    [|exists (- EINVAL), s, D; split_and!; [done..|]; left; split_and!; [by right; right|done..]].
  assert (start + n < 2 ^ 32 ∧ u32 (start + n) = start + n) as [Hsum ->].
  { destruct (Z.lt_ge_cases (start + n) (2 ^ 32)); [split; [done|apply u32_small; lia]|]. exfalso. unfold u32 in Hw. revert Hw. Z.div_mod_to_equations. lia. }
  destruct (Z.eqb_spec (start + n) start) as [He|He]; [exists 0, s, D; split_and!; [done..|]; right; left; split_and!; [lia|done..]|].
  assert (aligned (start + n)) as Ah.
  { pose proof (page_align_aligned len) as An. fold n in An. unfold aligned, PAGE_SIZE in *. Z.div_mod_to_equations. lia. }
  destruct (mprotect_areas prot (prot_word_bits prot Hprot Hz) s D start (start + n) V Hp Hoff Ah ltac:(lia)) as (r & s' & D' & stop & Hrun & R & W).
  exists r, s', D'. split_and!; [exact Hrun|apply R|apply R|apply R|]. right. right. split; [done|by exists stop].
Qed.
End calls.
