(* ===== verification/VmaThms.v ===== *)
(** What is shown of mm/mmap.c, mm/mlock.c and mm/mprotect.c. *)
From S2P Require Import Prelude RbTree RbShape RbInsert RbErase Vma VmaCalls VmaMmap VmaProt VmaShape VmaLink VmaUnmap VmaCount VmaMunmap VmaMerge VmaBrk VmaSys VmaNew VmaEnd VmaSplit VmaLock VmaProtect.
From stdpp Require Import list options.
#[local] Set Default Proof Using "Type*".
Open Scope cint_scope.
Open Scope Z_scope.

(** * Sequences of calls *)

(** The calls of one process, with arguments as it passes them. *)
Inductive vm_call :=
  | CallMunmap (addr len : Z)
  | CallBrk (brk : Z)
  | CallFind (addr : Z)
  | CallUnmappedArea (addr len : Z)
  | CallMmap (file addr len prot flags pgoff : Z)
  | CallExtend (addr : Z)
  | CallMlock (can : bool) (start len : Z)
  | CallMunlock (can : bool) (start len : Z)
  | CallMlockall (can : bool) (flags : Z)
  | CallMunlockall (can : bool)
  | CallMprotect (start len prot : Z).

Section calls.
Context `{VE : VmEnv}.

Definition run_call (c : vm_call) : VM Z :=
  match c with
  | CallMunmap addr len => sys_munmap addr len
  | CallBrk brk => sys_brk brk
  | CallFind addr => find_vma addr
  | CallUnmappedArea addr len => arch_get_unmapped_area addr len
  | CallMmap file addr len prot flags pgoff => do_mmap_pgoff file addr len prot flags pgoff
  | CallExtend addr => find_extend_vma addr
  | CallMlock can start len => sys_mlock can start len
  | CallMunlock can start len => sys_munlock can start len
  | CallMlockall can flags => sys_mlockall can flags
  | CallMunlockall can => sys_munlockall can
  | CallMprotect start len prot => sys_mprotect start len prot
  end.

Fixpoint run_calls (l : list vm_call) : VM unit :=
  match l with
  | [] => mret tt
  | c :: l => run_call c;; run_calls l
  end.

Definition word (z : Z) : Prop := 0 <= z < 2 ^ 32.

(** A break up to the end of the address space, a length that is not zero. *)
Definition vm_call_ok (c : vm_call) : Prop :=
  match c with
  | CallMunmap addr len => word addr ∧ word len
  | CallBrk brk => 0 <= brk <= TASK_SIZE
  | CallFind addr => word addr
  | CallUnmappedArea addr len => word addr ∧ word len ∧ 0 < len
  | CallMmap file addr len prot flags pgoff => word addr ∧ word len
  | CallExtend addr => word addr
  | CallMlock _ start len | CallMunlock _ start len => word start ∧ word len
  | CallMlockall _ _ | CallMunlockall _ => True
  | CallMprotect start _ prot => word start ∧ 0 <= prot
  end.

(** A well-formed address space: areas in order, disjoint, not empty and of whole
    pages, in the list and in a red-black tree, with exact counts, a cache that
    is one of them, and anonymous areas with the protection of their flags. *)
Definition space_ok (s : mm) : Prop := ∃ D, vm_space s D ∧ plain D ∧ 0 <= mm_brk s <= TASK_SIZE.

Context `{VO : !VmObjects}.

Lemma run_call_ok c s : space_ok s → vm_call_ok c → ∃ r s', run_call c s = Some (r, s') ∧ space_ok s'.
Proof.
  intros (D & V & Hp & Hb). destruct c as [addr len|brk|addr|addr len|file addr len prot flags pgoff|addr|can start len|can start len|can flags|can|start len prot]; cbn [run_call vm_call_ok].
  - intros [Ha Hl]. destruct (do_munmap_run s D V addr len Ha Hl) as (s' & Hrun & Hsame & Hok). exists (- munmap_error s D addr len), s'.
    split; [exact Hrun|]. destruct (decide (munmap_error s D addr len = 0)) as [He|He]; [|rewrite Hsame by done; by exists D].
    destruct (Hok He) as [D' [U1 _ U3 [_ U4 _ _] _]]. exists D'. rewrite U4. split_and!; [done|by eapply plain_pieces|lia..].
  - intros Hbrk. destruct (sys_brk_run s D V Hp brk Hbrk Hb) as (s' & D' & Hrun & V' & P' & _ & Hor). exists (mm_brk s'), s'. split; [done|].
    exists D'. split_and!; [done..| |]; destruct Hor as [(-> & _)|(-> & _)]; lia.
  - intros Ha. destruct (find_vma_space s D addr V) as (s' & Hrun & V' & [c ->]). eexists _, _. split; [exact Hrun|]. by exists D.
  - intros (Ha & Hl & H0). destruct (unmapped_area_run s D addr len V Ha) as (s' & r & Hrun & V' & [c ->] & _); [unfold word in Hl; lia|].
    eexists _, _. split; [exact Hrun|]. by exists D.
  - intros [Ha Hl]. destruct (do_mmap_run s D V Hp file addr len prot flags pgoff Ha Hl) as (r & s' & D' & Hrun & V' & P' & [_ Hb' _ _] & _).
    eexists _, _. split; [exact Hrun|]. exists D'. by rewrite Hb'.
  - intros Ha. destruct (find_extend_run s D V Hp addr ltac:(apply Ha)) as (r & s' & D' & Hrun & V' & P' & [_ Hb' _ _] & _).
    eexists _, _. split; [exact Hrun|]. exists D'. by rewrite Hb'.
  - intros [Hs Hl]. destruct (sys_mlock_run s D can start len V Hp Hs Hl) as (r & s' & D' & stop & Hrun & V' & P' & [_ Hb' _ _] & _).
    eexists _, _. split; [exact Hrun|]. exists D'. by rewrite Hb'.
  - intros [Hs Hl]. destruct (sys_munlock_run s D can start len V Hp Hs Hl) as (r & s' & D' & stop & Hrun & V' & P' & [_ Hb' _ _] & _).
    eexists _, _. split; [exact Hrun|]. exists D'. by rewrite Hb'.
  - intros _. destruct (sys_mlockall_run s D can flags V Hp) as (r & s' & D' & Hrun & V' & P' & Hb' & _). eexists _, _. split; [exact Hrun|]. exists D'. by rewrite Hb'.
  - intros _. destruct (sys_munlockall_run s D can V Hp) as (r & s' & D' & Hrun & V' & P' & Hb' & _). eexists _, _. split; [exact Hrun|]. exists D'. by rewrite Hb'.
  - intros [Hs Hpr]. destruct (sys_mprotect_run s D start len prot V Hp Hs Hpr) as (r & s' & D' & Hrun & V' & P' & [_ Hb' _ _] & _).
    eexists _, _. split; [exact Hrun|]. exists D'. by rewrite Hb'.
Qed.

(** * The properties *)



End calls.

Section unmapping.
Context `{VE : VmEnv}.

(** C10: [do_munmap] of a range it does not refuse leaves exactly the pages of
    the range without a mapping: every other page keeps its flags, protection,
    operations and offset in its file, and the areas and counts stay exact. *)
Theorem do_munmap_correct s D addr len : vm_space s D → word addr → word len → munmap_error s D addr len = 0 →
  ∃ s' D', do_munmap addr len s = Some (0, s') ∧ vm_space s' D' ∧
    (∀ a, at_page D' a = if in_range addr (addr + PAGE_ALIGN len) a then None else at_page D a).
Proof.
  intros V Ha Hl He. destruct (do_munmap_run s D V addr len Ha Hl) as (s' & Hrun & _ & Hok). destruct (Hok He) as [D' [U1 U2 _ _ _]].
  exists s', D'. rewrite He in Hrun. by split_and!.
Qed.


(** C5: [do_munmap] frees the pages of exactly the parts of areas in the range,
    and clears no page directory entry that covers a page of an area that is
    left. *)
Theorem munmap_spares_the_rest s D addr len : vm_space s D → word addr → word len → munmap_error s D addr len = 0 →
  let hi := addr + PAGE_ALIGN len in
  ∃ s' D' tables, do_munmap addr len s = Some (0, s') ∧ vm_space s' D' ∧
    logged ((zap_event addr hi <$> reverse (overlapping addr hi D).*2) ++ tables) s s' ∧
    (tables = [] ∨ ∃ first nr, tables = [EvClearPageTables first nr] ∧ spares_areas D' first nr).
Proof.
  intros V Ha Hl He hi. destruct (do_munmap_run s D V addr len Ha Hl) as (s' & Hrun & _ & Hok). destruct (Hok He) as [D' [U1 _ _ _ (es & Hes & Hlog)]].
  exists s', D', es. rewrite He in Hrun. by split_and!.
Qed.

(** [sys_brk] returns the break it leaves: where it was asked for, with the
    pages up to it mapped, those above gone, and no page taken that was in use;
    or the old one, with nothing changed. *)
Theorem sys_brk_correct s D brk : vm_space s D → plain D → 0 <= brk <= TASK_SIZE → 0 <= mm_brk s <= TASK_SIZE →
  ∃ s' D', sys_brk brk s = Some (mm_brk s', s') ∧ vm_space s' D' ∧
    ((mm_brk s' = brk ∧ (∀ a, at_page D' a = brk_pages s D brk a) ∧
      (PAGE_ALIGN (mm_brk s) < PAGE_ALIGN brk → overlapping (PAGE_ALIGN (mm_brk s)) (PAGE_ALIGN brk + PAGE_SIZE) D = [])) ∨
     (mm_brk s' = mm_brk s ∧ ∀ a, at_page D' a = at_page D a)).
Proof. intros V Hp Hb Ho. destruct (sys_brk_run s D V Hp brk Hb Ho) as (s' & D' & Hrun & V' & _ & _ & Hor). by exists s', D'. Qed.

(** C3: [exit_mmap] closes, zaps and frees every area exactly once, in order,
    never finds its count wrong, and leaves an empty address space. *)
Theorem exit_mmap_releases s D : vm_space s D → ∃ s', exit_mmap s = Some (tt, s') ∧ vm_space s' [] ∧
  (∀ x, mm_areas s' !! x = if decide (x ∈ D.*1) then None else mm_areas s !! x) ∧
  mm_log s' = mm_log s ++ (D ≫= exit_events) ++ [EvClearPageTables 0 USER_PTRS_PER_PGD].
Proof. intros V. by apply exit_mmap_run. Qed.

(** C7: [sys_mprotect] of pages that are all mapped gives them the protection it
    was asked for and leaves everything else of them, and all other pages, as it
    was, however the areas are split and joined; if it fails or meets a hole it
    has done so up to some page. It never gives a page a right its [VM_MAY*]
    flags do not allow. *)
Theorem sys_mprotect_correct s D start len prot : vm_space s D → plain D → word start → 0 <= prot →
  ∃ r s' D', sys_mprotect start len prot s = Some (r, s') ∧ vm_space s' D' ∧ plain D' ∧ (may_ok D → may_ok D') ∧
    mprotect_outcome start len prot s D r s' D'.
Proof.
  intros V Hp Hs Hpr. destruct (sys_mprotect_run s D start len prot V Hp Hs Hpr) as (r & s' & D' & Hrun & V' & P' & _ & Hout). exists r, s', D'.
  split_and!; [done..| |done]. destruct Hout as [(_ & _ & _ & ->)|[(_ & _ & _ & ->)|(_ & stop & R & _)]]; [done..|]. eapply may_preserved; apply R.
Qed.


(** [find_extend_vma] finds the area at an address, and lets a stack grow to it
    within its limits. *)
Theorem find_extend_correct s D addr : vm_space s D → plain D → word addr →
  ∃ r s' D', find_extend_vma addr s = Some (r, s') ∧ vm_space s' D' ∧ plain D' ∧ extends s D addr r D'.
Proof. intros V Hp Ha. destruct (find_extend_run s D V Hp addr ltac:(apply Ha)) as (r & s' & D' & Hrun & V' & P' & _ & Hx). by exists r, s', D'. Qed.

(** C19: [arch_get_unmapped_area] takes the hint if it is free, and otherwise the
    lowest free address from the base on, or reports that there is none. *)
Theorem unmapped_area_first_fit s D addr len : vm_space s D → word addr → 0 < len < 2 ^ 32 →
  ∃ s' r, arch_get_unmapped_area addr len s = Some (r, s') ∧ vm_space s' D ∧
    (if len >? TASK_SIZE then r = u32 (- ENOMEM) else area_choice D addr len r).
Proof. intros V Ha Hl. destruct (unmapped_area_run s D addr len V Ha Hl) as (s' & r & ? & ? & _ & ?). by exists s', r. Qed.
End unmapping.

(** * Examples *)

(** An allocator with a few areas to give, memory without end and no limits. *)
Definition demo_free (s : mm) (p : Z) : Prop := p ≠ 0 ∧ mm_areas s !! p = None ∧ rb_heap (mm_rb s) !! p = None.
Definition demo_alloc (s : mm) : option (Z * vm_area * rb_node) :=
  match list_find (demo_free s) [4; 5; 6; 7] with
  | Some (_, p) => Some (p, mk_vm_area 9 9 9 9 9 9 9 9 9 9, mk_rb_node 9 9 9 9)
  | None => None
  end.

Lemma demo_alloc_fresh s p v n : demo_alloc s = Some (p, v, n) → demo_free s p.
Proof.
  unfold demo_alloc. destruct (list_find _ _) as [[i q]|] eqn:Hf; [|done]. intros [= -> _ _]. by apply list_find_Some in Hf as (_ & ? & _).
Qed.

Definition demo_env : VmEnv := {|
  vm_alloc := demo_alloc;
  vm_alloc_fresh := demo_alloc_fresh;
  vm_counters_now _ := mk_vm_counters 1 0 0 0 0 0 0 0 0;
  max_map_count := 65536;
  rlim_as := 0xffffffff;
  rlim_data := 0xffffffff;
  rlim_stack := 0xffffffff;
  rlim_memlock := 0xffffffff;
  num_physpages := 0x40000;
  protection_map z := z;
  has_vopen _ := false;
  has_vclose _ := false;
  file_has_mmap _ := true;
  file_mode _ := 3;
  file_append _ := false;
  file_locked _ _ := false;
  file_deny_write _ _ := 0;
  file_get_unmapped_area _ := None;
  file_mmap _ _ v := (0, v);
  shmem_zero_setup _ v := (0, set_vm_file 9 v)
|}.

Lemma demo_answer s v g : vm_file g ≠ 0 → vm_start g = vm_start v → vm_end g = vm_end v → vm_flags g = vm_flags v → object_answer s v 0 g.
Proof. intros Hf Hs He Hfl. split; [by left|done|by rewrite Hs, He|by rewrite Hfl|by rewrite Hs]. Qed.

Instance demo_objects : @VmObjects demo_env.
Proof.
  split; cbn.
  - intros s f v Hf. by apply demo_answer.
  - intros s v. by apply demo_answer.
  - done.
  - intros s f. by left.
Qed.

(** Text of a file, anonymous data up to the break, and a stack. *)
Definition text : vm_area := mk_vm_area 0x08048000 0x08050000 0 5 0x1875 0 0 7 0 0.
Definition heap : vm_area := mk_vm_area 0x08050000 0x08053000 0 7 0x77 0 0 0 0 0.
Definition stack : vm_area := mk_vm_area 0xbfff0000 0xc0000000 0 7 0x177 0 0 0 0 0.
Definition demo_areas : vdata := [(1, text); (2, heap); (3, stack)].

Definition demo_mm : mm := mk_mm
  {[ 1 := set_vm_next 2 text; 2 := set_vm_next 3 heap; 3 := set_vm_next 0 stack ]}
  (mk_rb_state {[ 1 := mk_rb_node 2 RB_RED 0 0; 2 := mk_rb_node 0 RB_BLACK 3 1; 3 := mk_rb_node 2 RB_RED 0 0 ]} 2)
  1 0 3 27 0 0 0x08052800 0x08048000 0x08050000 [].

Definition demo_tree : tree := Node Black (Node Red Leaf 1 Leaf) 2 (Node Red Leaf 3 Leaf).

Lemma demo_holds : rb_holds (mm_rb demo_mm) demo_tree.
Proof.
  split_and!; [done|cbn; split_and!; done|]. intros z. rewrite cnt_inorder. cbn [demo_tree inorder app].
  apply (proj1 (NoDup_count_occ Z.eq_dec _)). apply NoDup_ListNoDup. apply (bool_decide_unpack _). by vm_compute.
Qed.

Lemma demo_core : vm_core demo_mm demo_areas demo_tree.
Proof.
  split; [|by cbn; split_and!|exact demo_holds|by split; [|exists 1%nat; cbn; unfold black; split_and!]|done| |done].
  - by cbn; repeat (split; [done|]; eexists; split; [done|]).
  - intros p. assert (dom (mm_areas demo_mm) =@{gset Z} dom (rb_heap (mm_rb demo_mm))) as Hd by (apply (bool_decide_unpack _); by vm_compute).
    by rewrite <-!(elem_of_dom (D := gset Z)), Hd.
Qed.

Lemma demo_space : vm_space demo_mm demo_areas.
Proof. split; [eexists; exact demo_core|by left|by split]. Qed.

Lemma demo_plain : @plain demo_env demo_areas.
Proof.
  intros x g. unfold demo_areas. rewrite !elem_of_cons. intros [[= -> ->]|[[= -> ->]|[[= -> ->]|Hx]]]; [done| | |by apply elem_of_nil in Hx]; by intros _.
Qed.

Lemma demo_ok : @space_ok demo_env demo_mm.
Proof. exists demo_areas. split; [exact demo_space|]. split; [exact demo_plain|done]. Qed.



(** A length that rounds up to 0 is reported as mapped. *)
Example mmap_rounds_to_nothing : @do_mmap_pgoff demo_env 0 0x10000000 0xfffff001 PROT_READ MAP_PRIVATE 0 demo_mm = Some (0x10000000, demo_mm).
Proof. reflexivity. Qed.

Lemma sys_mprotect_correct_witness : ∃ s' D', @sys_mprotect demo_env 0x0804f000 0x2000 PROT_READ demo_mm = Some (0, s') ∧ vm_space s' D' ∧
  at_page D' 0x08050000 = Some (mk_mapping 0x71 1 0 0 None) ∧ map_count s' = 5.
Proof.
  destruct (@sys_mprotect_correct demo_env demo_mm demo_areas 0x0804f000 0x2000 PROT_READ demo_space demo_plain) as (r & s' & D' & Hrun & V & _ & _ & Hor); [by split|done|].
  assert (r = 0 ∧ map_count s' = 5) as [-> Hn] by (clear Hor; revert Hrun; vm_compute; intros [= <- <-]; done).
  destruct Hor as [(_ & ? & _)|[(Hz & _)|(_ & stop & R & [[_ Hst]|[_ [?|[? _]]]])]]; [done|by vm_compute in Hz| |done..].
  exists s', D'. split_and!; [exact Hrun|exact V| |done]. rewrite (pr_changed _ _ _ _ _ _ _ _ R), Hst. by vm_compute.
Defined.


(** A length that rounds up to 0: success, and nothing is locked or protected. *)
Example mlock_rounds_to_nothing : @sys_mlock demo_env true 0x08050000 0xfffff001 demo_mm = Some (0, demo_mm).
Proof. reflexivity. Qed.

Example mprotect_rounds_to_nothing : @sys_mprotect demo_env 0x08050000 0xfffff001 PROT_READ demo_mm = Some (0, demo_mm).
Proof. reflexivity. Qed.

Lemma exit_mmap_releases_witness : ∃ s', @exit_mmap demo_env demo_mm = Some (tt, s') ∧
  mm_log s' = [EvUnlinkFile 1; EvZap 0x08048000 0x8000; EvPutFile 7; EvZap 0x08050000 0x3000; EvZap 0xbfff0000 0x10000; EvClearPageTables 0 768].
Proof.
  destruct (@exit_mmap_releases demo_env demo_mm demo_areas demo_space) as (s' & Hrun & _ & _ & Hlog). exists s'. split; [exact Hrun|].
  rewrite Hlog. by vm_compute.
Defined.

Lemma do_munmap_correct_witness : ∃ s' D', @do_munmap demo_env 0x0804a000 0x2000 demo_mm = Some (0, s') ∧ vm_space s' D' ∧
  at_page D' 0x0804b000 = None ∧ at_page D' 0x0804c000 = Some (mk_mapping 0x1875 5 0 0 (Some (7, 4))).
Proof.
  destruct (@do_munmap_correct demo_env demo_mm demo_areas 0x0804a000 0x2000 demo_space) as (s' & D' & Hrun & V & Hpg); [by split; [|by vm_compute]..|by vm_compute|].
  exists s', D'. rewrite !Hpg. split_and!; [exact Hrun|exact V|by vm_compute..].
Defined.


Lemma munmap_spares_the_rest_witness : ∃ s' tables, @do_munmap demo_env 0x08040000 0x10000000 demo_mm = Some (0, s') ∧
  logged ([EvZap 0x08050000 0x3000; EvZap 0x08048000 0x8000] ++ tables) demo_mm s'.
Proof.
  destruct (@munmap_spares_the_rest demo_env demo_mm demo_areas 0x08040000 0x10000000 demo_space) as (s' & D' & tables & Hrun & _ & Hlog & _);
    [by split; [|by vm_compute]..|by vm_compute|]. exists s', tables. split; [exact Hrun|exact Hlog].
Defined.

Lemma sys_brk_correct_witness : ∃ s' D', @sys_brk demo_env 0x08056123 demo_mm = Some (mm_brk s', s') ∧ vm_space s' D'.
Proof.
  destruct (@sys_brk_correct demo_env demo_mm demo_areas 0x08056123 demo_space demo_plain) as (s' & D' & Hrun & V & _); [done..|].
  exists s', D'. by split.
Defined.

Lemma unmapped_area_first_fit_witness : ∃ s' r, arch_get_unmapped_area 0 0x5000 demo_mm = Some (r, s') ∧ area_choice demo_areas 0 0x5000 r.
Proof.
  destruct (unmapped_area_first_fit demo_mm demo_areas 0 0x5000 demo_space) as (s' & r & Hrun & _ & Hc); [done..|]. exists s', r. by split.
Defined.

(** [do_brk] has no check against [TASK_SIZE]: it maps kernel addresses. *)
Example brk_kernel_range : ∃ s', @do_brk demo_env 0xc0000000 0x1000 demo_mm = Some (0xc0000000, s') ∧
  (vm_start <$> mm_areas s' !! 4) = Some 0xc0000000 ∧ (vm_end <$> mm_areas s' !! 4) = Some 0xc0001000.
Proof. eexists. split; [by vm_compute|]. by split; vm_compute. Qed.

(** Nor has [sys_brk], where rounding the last page up gives 0: the area before
    the break then ends at 0, below its start. *)
Example brk_wraps_around : ∃ s', @sys_brk demo_env 0xffffffff demo_mm = Some (0xffffffff, s') ∧
  (vm_start <$> mm_areas s' !! 2) = Some 0x08050000 ∧ (vm_end <$> mm_areas s' !! 2) = Some 0.
Proof. eexists. split; [by vm_compute|]. by split; vm_compute. Qed.
