(* ===== verification/Locks.v ===== *)
(** File locks (fs/locks.c): the locks of an inode, waiting for a lock, and the
    two kinds of lock, [FL_POSIX] for ranges of bytes and [FL_FLOCK] for whole
    files. A lock is a structure in an explicit heap. Then the operations on a
    list of locks: conflicts, the search for deadlocks and [posix_lock_file]. *)
From S2P Require Import Prelude.
From stdpp Require Import list options.
Open Scope cint_scope.
Open Scope Z_scope.

Definition EDEADLK : Z := 35.
Definition ENOLCK : Z := 37.
Definition EBADF : Z := 9.
Definition EOVERFLOW : Z := 75.
Definition ERESTARTSYS : Z := 512.

Definition F_RDLCK : Z := 0.
Definition F_WRLCK : Z := 1.
Definition F_UNLCK : Z := 2.
Definition F_INPROGRESS : Z := 16.
Definition LOCK_SH : Z := 1.
Definition LOCK_EX : Z := 2.
Definition LOCK_NB : Z := 4.
Definition LOCK_UN : Z := 8.
Definition LOCK_MAND : Z := 32.
Definition LOCK_READ : Z := 64.
Definition LOCK_WRITE : Z := 128.
Definition LOCK_RW : Z := 192.
Definition FL_POSIX : Z := 1.
Definition FL_FLOCK : Z := 2.
Definition FL_ACCESS : Z := 8.
Definition FL_LEASE : Z := 32.

(** The largest [loff_t] and [off_t] *)
Definition OFFSET_MAX : Z := 2 ^ 63 - 1.
Definition OFFT_OFFSET_MAX : Z := 2 ^ 31 - 1.

(** [fl_block] of a lock is the queue of those that wait for it, and [fl_next]
    of one that waits is the lock it waits for; the locks of an inode, which
    [fl_next] links in the code, are the lists of [lk_inodes] below. *)
Record file_lock := mk_file_lock {
  fl_next : Z;
  fl_block : list Z;
  fl_owner : Z;
  fl_pid : Z;
  fl_file : Z;
  fl_flags : Z;
  fl_type : Z;
  fl_start : Z;
  fl_end : Z;
  fl_notify : Z;
  fl_insert : Z;
  fl_remove : Z;
  fl_break_time : Z
}.

Definition set_fl_wait (next : Z) (block : list Z) (f : file_lock) : file_lock :=
  mk_file_lock next block (fl_owner f) (fl_pid f) (fl_file f) (fl_flags f) (fl_type f) (fl_start f) (fl_end f)
    (fl_notify f) (fl_insert f) (fl_remove f) (fl_break_time f).
Definition set_fl_type (x : Z) (f : file_lock) : file_lock :=
  mk_file_lock (fl_next f) (fl_block f) (fl_owner f) (fl_pid f) (fl_file f) (fl_flags f) x (fl_start f) (fl_end f)
    (fl_notify f) (fl_insert f) (fl_remove f) (fl_break_time f).
Definition set_fl_range (start end_ : Z) (f : file_lock) : file_lock :=
  mk_file_lock (fl_next f) (fl_block f) (fl_owner f) (fl_pid f) (fl_file f) (fl_flags f) (fl_type f) start end_
    (fl_notify f) (fl_insert f) (fl_remove f) (fl_break_time f).
Definition set_fl_start (x : Z) (f : file_lock) : file_lock := set_fl_range x (fl_end f) f.
Definition set_fl_end (x : Z) (f : file_lock) : file_lock := set_fl_range (fl_start f) x f.
Definition set_fl_break_time (x : Z) (f : file_lock) : file_lock :=
  mk_file_lock (fl_next f) (fl_block f) (fl_owner f) (fl_pid f) (fl_file f) (fl_flags f) (fl_type f) (fl_start f) (fl_end f)
    (fl_notify f) (fl_insert f) (fl_remove f) x.

(** What is called outside: the wake-up of a waiter, the callbacks of a lock, the
    signals and the [f_owner] of a lease. *)
Inductive lk_event :=
  | EvNotify (waiter : Z)
  | EvWakeUp (waiter : Z)
  | EvInsert (fl : Z)
  | EvRemove (fl : Z)
  | EvKillFasync (fl : Z)
  | EvSetOwner (filp pid : Z).

Record lk := mk_lk {
  lk_locks : gmap Z file_lock;
  lk_inodes : gmap Z (list Z);    (* [i_flock] *)
  file_lock_list : list Z;
  blocked_list : list Z;
  task_locks : gmap Z Z;          (* [locks] of each task *)
  lk_log : list lk_event
}.

Definition set_lk_locks (x : gmap Z file_lock) (s : lk) : lk := mk_lk x (lk_inodes s) (file_lock_list s) (blocked_list s) (task_locks s) (lk_log s).
Definition set_lk_inodes (x : gmap Z (list Z)) (s : lk) : lk := mk_lk (lk_locks s) x (file_lock_list s) (blocked_list s) (task_locks s) (lk_log s).
Definition set_file_lock_list (x : list Z) (s : lk) : lk := mk_lk (lk_locks s) (lk_inodes s) x (blocked_list s) (task_locks s) (lk_log s).
Definition set_blocked_list (x : list Z) (s : lk) : lk := mk_lk (lk_locks s) (lk_inodes s) (file_lock_list s) x (task_locks s) (lk_log s).
Definition set_task_locks (x : gmap Z Z) (s : lk) : lk := mk_lk (lk_locks s) (lk_inodes s) (file_lock_list s) (blocked_list s) x (lk_log s).
Definition set_lk_log (x : list lk_event) (s : lk) : lk := mk_lk (lk_locks s) (lk_inodes s) (file_lock_list s) (blocked_list s) (task_locks s) x.

Definition i_flock (inode : Z) (s : lk) : list Z := default [] (lk_inodes s !! inode).
Definition set_i_flock (inode : Z) (l : list Z) (s : lk) : lk := set_lk_inodes (<[inode := l]> (lk_inodes s)) s.

(** The running task. *)
Record lk_task := mk_lk_task {
  lt_files : Z;
  lt_pid : Z;
  lt_rlim_locks : Z
}.

(** An open file, as a call finds it. [f_lock] is the answer of its file system to
    a call of [f_op->lock], for a command and a lock. *)
Record lk_file := mk_lk_file {
  lf_filp : Z;
  lf_inode : Z;
  lf_pos : Z;
  lf_size : Z;
  lf_mode : Z;
  lf_nonblock : bool;
  lf_mandatory : bool;        (* [IS_MANDLOCK], setgid without group execution *)
  lf_mmap_shared : bool
}.

Class LockEnv := {
  lk_alloc : lk → option (Z * file_lock);
  lk_alloc_fresh s p f : lk_alloc s = Some (p, f) → p ≠ 0 ∧ lk_locks s !! p = None;
  lk_alloc_clean s p f : lk_alloc s = Some (p, f) → fl_next f = 0 ∧ fl_block f = [];
  file_op_lock : Z → option (Z → file_lock → Z * file_lock)
}.

Notation LK := (ES lk).

Definition getl {A} (f : lk → A) : LK A := λ s, Some (f s, s).
Definition setl (f : lk → lk) : LK unit := λ s, Some (tt, f s).
(** [BUG()], [panic()] and searches without end. *)
Definition lbug {A} : LK A := λ _, None.
Definition emitl (e : lk_event) : LK unit := setl (λ s, set_lk_log (lk_log s ++ [e]) s).
Definition gl (p : Z) : LK file_lock := λ s, match lk_locks s !! p with None => None | Some f => Some (f, s) end.
Definition wl (p : Z) (f : file_lock → file_lock) : LK unit := λ s,
  match lk_locks s !! p with None => None | Some v => Some (tt, set_lk_locks (<[p := f v]> (lk_locks s)) s) end.

(** [error = f(fl)] for a function that changes the lock. *)
Definition apply_lock (p : Z) (f : file_lock → Z * file_lock) : LK Z :=
  v ← gl p;
  wl p (λ _, (f v).2);;
  mret (f v).1.

Definition rem (x : Z) (l : list Z) : list Z := filter (λ y, y ≠ x) l.

Section locks.
Context `{LockEnv}.

(** * Structures *)

Definition count_locks (pid d : Z) : LK unit := setl (λ s, set_task_locks (<[pid := u32 (default 0 (task_locks s !! pid) + d)]> (task_locks s)) s).

(** [kmem_cache_alloc(filelock_cache, SLAB_KERNEL)] *)
Definition filelock_cache_alloc : LK Z := λ s,
  match lk_alloc s with
  | None => Some (0, s)
  | Some (p, f) => Some (p, set_lk_locks (<[p := f]> (lk_locks s)) s)
  end.

Definition locks_alloc_lock (cur : lk_task) (account : bool) : LK Z :=
  held ← getl (λ s, default 0 (task_locks s !! lt_pid cur));
  if account && (held >=? lt_rlim_locks cur) then mret 0
  else
    fl ← filelock_cache_alloc;
    (if negb (fl =? 0) then count_locks (lt_pid cur) 1 else mret tt);;
    mret fl.

Definition list_empty (f : file_lock) : bool := (fl_next f =? 0) && bool_decide (fl_block f = []).

Definition locks_free_lock (cur : lk_task) (fl : Z) : LK unit :=
  if fl =? 0 then lbug
  else
    count_locks (lt_pid cur) (-1);;
    f ← gl fl;
    if negb (list_empty f) then lbug
    else
      linked ← getl (λ s, bool_decide (fl ∈ file_lock_list s ++ blocked_list s));
      if (linked : bool) then lbug else setl (λ s, set_lk_locks (delete fl (lk_locks s)) s).

Definition locks_copy_lock (new fl : Z) : LK unit :=
  f ← gl fl;
  wl new (λ n, mk_file_lock (fl_next n) (fl_block n) (fl_owner f) (fl_pid f) (fl_file f) (fl_flags f) (fl_type f) (fl_start f) (fl_end f)
    (fl_notify f) (fl_insert f) (fl_remove f) (fl_break_time n)).

(** A structure filled in, as the functions that make a lock do. *)
Definition fill_lock (owner pid filp flags type start end_ : Z) (n : file_lock) : file_lock :=
  mk_file_lock (fl_next n) (fl_block n) owner pid filp flags type start end_ 0 0 0 (fl_break_time n).

Definition flock_make_lock (cur : lk_task) (filp type : Z) : LK Z :=
  fl ← locks_alloc_lock cur true;
  if fl =? 0 then mret 0
  else wl fl (fill_lock 0 (lt_pid cur) filp FL_FLOCK type 0 OFFSET_MAX);; mret fl.

Definition assign_type (type : Z) (f : file_lock) : Z * file_lock :=
  if (type =? F_RDLCK) || (type =? F_WRLCK) || (type =? F_UNLCK) then (0, set_fl_type type f) else (- EINVAL, f).

(** [struct flock] and [struct flock64] *)
Record flock := mk_flock { l_type : Z; l_whence : Z; l_start : Z; l_len : Z; l_pid : Z }.

(** Where the range starts from. *)
Definition whence (f : lk_file) (l : flock) : option Z :=
  if l_whence l =? 0 then Some 0
  else if l_whence l =? 1 then Some (lf_pos f)
  else if l_whence l =? 2 then Some (lf_size f)
  else None.

(** The two are one function with a width of [off_t] ([w = s32]) or [loff_t]
    ([w = s64]). *)
Definition flock_range (w : Z → Z) (f : lk_file) (l : flock) : Z + Z * Z :=
  match whence f l with
  | None => inl (- EINVAL)
  | Some start =>
      let start := w (w start + l_start l) in
      if (start <? 0) || (l_len l <? 0) then inl (- EINVAL)
      else
        let end_ := w (start + l_len l - 1) in
        if (l_len l >? 0) && (end_ <? 0) then inl (- EOVERFLOW)
        else inr (start, if l_len l =? 0 then OFFSET_MAX else end_)
  end.

Definition to_posix_lock (w : Z → Z) (cur : lk_task) (f : lk_file) (l : flock) (n : file_lock) : Z * file_lock :=
  match flock_range w f l with
  | inl e => (e, n)
  | inr (start, end_) => assign_type (l_type l) (fill_lock (lt_files cur) (lt_pid cur) (lf_filp f) FL_POSIX (fl_type n) start end_ n)
  end.
Definition flock_to_posix_lock : lk_task → lk_file → flock → file_lock → Z * file_lock := to_posix_lock s32.
Definition flock64_to_posix_lock : lk_task → lk_file → flock → file_lock → Z * file_lock := to_posix_lock s64.

Definition locks_overlap (fl1 fl2 : file_lock) : bool := (fl_end fl1 >=? fl_start fl2) && (fl_end fl2 >=? fl_start fl1).
Definition locks_same_owner (fl1 fl2 : file_lock) : bool := (fl_owner fl1 =? fl_owner fl2) && (fl_pid fl1 =? fl_pid fl2).

(** * Waiting *)

Definition locks_delete_block (waiter : Z) : LK unit :=
  w ← gl waiter;
  (if negb (fl_next w =? 0) then wl (fl_next w) (λ b, set_fl_wait (fl_next b) (rem waiter (fl_block b)) b) else mret tt);;
  setl (λ s, set_blocked_list (rem waiter (blocked_list s)) s);;
  wl waiter (λ w, set_fl_wait 0 (fl_block w) w).

Definition locks_insert_block (blocker waiter : Z) : LK unit :=
  w ← gl waiter;
  (if negb (list_empty w) then locks_delete_block waiter else mret tt);;
  wl blocker (λ b, set_fl_wait (fl_next b) (fl_block b ++ [waiter]) b);;
  wl waiter (λ w, set_fl_wait blocker (fl_block w) w);;
  setl (λ s, set_blocked_list (waiter :: blocked_list s) s).

Definition locks_notify_blocked (waiter : Z) : LK unit :=
  w ← gl waiter;
  emitl (if negb (fl_notify w =? 0) then EvNotify waiter else EvWakeUp waiter).

(** [locks_wake_up_blocks(blocker, 0)] *)
Fixpoint wake_loop (fuel : nat) (blocker : Z) : LK unit :=
  match fuel with
  | O => lbug
  | S fuel =>
      b ← gl blocker;
      match fl_block b with
      | [] => mret tt
      | waiter :: _ =>
          locks_delete_block waiter;;
          locks_notify_blocked waiter;;
          wake_loop fuel blocker
      end
  end.

Definition locks_wake_up_blocks (blocker : Z) : LK unit :=
  b ← gl blocker;
  wake_loop (S (length (fl_block b))) blocker.

(** [locks_wake_up_blocks(blocker, 1)] up to its [yield()]: whether it is done. *)
Definition locks_wake_up_wait (blocker : Z) : LK bool :=
  b ← gl blocker;
  match fl_block b with
  | [] => mret true
  | waiter :: _ => locks_notify_blocked waiter;; mret false
  end.

(** * The list of an inode

    A [struct file_lock **] is a position in the list. *)

Definition at_pos (inode : Z) (pos : nat) : LK Z := getl (λ s, nth pos (i_flock inode s) 0).

Definition locks_insert_lock (inode : Z) (pos : nat) (fl : Z) : LK unit :=
  setl (λ s, set_file_lock_list (fl :: file_lock_list s) s);;
  setl (λ s, set_i_flock inode (take pos (i_flock inode s) ++ fl :: drop pos (i_flock inode s)) s);;
  f ← gl fl;
  if negb (fl_insert f =? 0) then emitl (EvInsert fl) else mret tt.

Definition _unhash_lock (inode : Z) (pos : nat) : LK unit :=
  fl ← at_pos inode pos;
  setl (λ s, set_i_flock inode (take pos (i_flock inode s) ++ drop (S pos) (i_flock inode s)) s);;
  setl (λ s, set_file_lock_list (rem fl (file_lock_list s)) s).

Definition remove_hook (fl : Z) : LK unit :=
  f ← gl fl;
  if negb (fl_remove f =? 0) then emitl (EvRemove fl) else mret tt.

Definition _delete_lock (cur : lk_task) (fl : Z) : LK unit :=
  remove_hook fl;;
  locks_wake_up_blocks fl;;
  locks_free_lock cur fl.

(** [locks_delete_lock(before, 0)] *)
Definition locks_delete_lock (cur : lk_task) (inode : Z) (pos : nat) : LK unit :=
  fl ← at_pos inode pos;
  _unhash_lock inode pos;;
  _delete_lock cur fl.

Definition locks_unlock_delete (cur : lk_task) (inode : Z) (pos : nat) : LK unit :=
  fl ← at_pos inode pos;
  _unhash_lock inode pos;;
  f ← gl fl;
  (match file_op_lock (fl_file f) with
   | Some lock =>
       wl fl (set_fl_type F_UNLCK);;
       wl fl (λ f, set_fl_wait (fl_next f) (fl_block f) (lock 6 f).2)
   | None => mret tt
   end);;
  _delete_lock cur fl.
End locks.

(** Conflicts, the search for deadlocks, [posix_lock_file] and the calls that use
    it, cut where they sleep. *)

Section calls.
Context `{LockEnv}.

(** * Conflicts *)

Definition locks_conflict (caller_fl sys_fl : file_lock) : bool :=
  if fl_type caller_fl =? F_RDLCK then fl_type sys_fl =? F_WRLCK
  else if fl_type caller_fl =? F_WRLCK then true
  else false.

Definition posix_locks_conflict (caller_fl sys_fl : file_lock) : bool :=
  if negb (fl_flags sys_fl & FL_POSIX) || locks_same_owner caller_fl sys_fl then false
  else if negb (locks_overlap caller_fl sys_fl) then false
  else locks_conflict caller_fl sys_fl.

Definition flock_locks_conflict (caller_fl sys_fl : file_lock) : bool :=
  if negb (fl_flags sys_fl & FL_FLOCK) || (fl_file caller_fl =? fl_file sys_fl) then false
  else if (fl_type caller_fl & LOCK_MAND) || (fl_type sys_fl & LOCK_MAND) then false
  else locks_conflict caller_fl sys_fl.

(** The first lock of a list that passes a test, or 0. *)
Fixpoint first_lock (test : file_lock → bool) (l : list Z) : LK Z :=
  match l with
  | [] => mret 0
  | fl :: l => f ← gl fl; if test f then mret fl else first_lock test l
  end.

(** The conflict tests of [posix_test_lock] and of [posix_lock_file] differ in
    the order of their arguments. *)
Definition posix_test_lock (inode : Z) (c : file_lock) : LK Z :=
  l ← getl (i_flock inode);
  first_lock (λ cfl, (fl_flags cfl & FL_POSIX) && posix_locks_conflict cfl c) l.

Definition posix_conflict (inode caller : Z) : LK Z :=
  c ← gl caller;
  l ← getl (i_flock inode);
  first_lock (λ fl, (fl_flags fl & FL_POSIX) && posix_locks_conflict c fl) l.

(** Each round is one [next_task]. *)
Fixpoint deadlock_loop (fuel : nat) (caller_owner caller_pid blocked_owner blocked_pid : Z) : LK bool :=
  match fuel with
  | O => lbug
  | S fuel =>
      if (caller_owner =? blocked_owner) && (caller_pid =? blocked_pid) then mret true
      else
        l ← getl blocked_list;
        fl ← first_lock (λ f, (fl_owner f =? blocked_owner) && (fl_pid f =? blocked_pid)) l;
        if fl =? 0 then mret false
        else
          f ← gl fl;
          b ← gl (fl_next f);
          deadlock_loop fuel caller_owner caller_pid (fl_owner b) (fl_pid b)
  end.

(** More rounds than there are waiters come only from a cycle of waiters: then
    the search has no end. *)
Definition posix_locks_deadlock (caller_fl block_fl : Z) : LK bool :=
  c ← gl caller_fl;
  b ← gl block_fl;
  fuel ← getl (λ s, S (length (blocked_list s)));
  deadlock_loop fuel (fl_owner c) (fl_pid c) (fl_owner b) (fl_pid b).

(** * Ranges of bytes *)

Fixpoint skip_others (fuel : nat) (inode : Z) (before : nat) (caller : Z) : LK nat :=
  match fuel with
  | O => lbug
  | S fuel =>
      fl ← at_pos inode before;
      if fl =? 0 then mret before
      else
        f ← gl fl;
        c ← gl caller;
        if negb (fl_flags f & FL_POSIX) || negb (locks_same_owner c f) then skip_others fuel inode (S before) caller else mret before
  end.

(** The variables of the loop over the locks of the owner. *)
Record own := mk_own { o_before : nat; o_caller : Z; o_added : bool; o_left : Z; o_right : Z }.

Fixpoint own_loop (fuel : nat) (cur : lk_task) (inode : Z) (o : own) : LK own :=
  match fuel with
  | O => lbug
  | S fuel =>
      let '(mk_own before caller added lft rgt) := o in
      let next_lock caller added lft := own_loop fuel cur inode (mk_own (S before) caller added lft rgt) in
      fl ← at_pos inode before;
      if fl =? 0 then mret o
      else
        f ← gl fl;
        c ← gl caller;
        if negb (locks_same_owner c f) then mret o
        else if fl_type c =? fl_type f then
          if fl_end f <? s64 (fl_start c - 1) then next_lock caller added lft
          else if fl_start f >? s64 (fl_end c + 1) then mret o
          else
            (if fl_start f >? fl_start c then wl fl (set_fl_start (fl_start c)) else wl caller (set_fl_start (fl_start f)));;
            (if fl_end f <? fl_end c then wl fl (set_fl_end (fl_end c)) else wl caller (set_fl_end (fl_end f)));;
            if added then
              locks_delete_lock cur inode before;;
              own_loop fuel cur inode o
            else next_lock fl true lft
        else
          if fl_end f <? fl_start c then next_lock caller added lft
          else if fl_start f >? fl_end c then mret o
          else
            let added := if fl_type c =? F_UNLCK then true else added in
            let lft := if fl_start f <? fl_start c then fl else lft in
            if fl_end f >? fl_end c then mret (mk_own before caller added lft fl)
            else if fl_start f >=? fl_start c then
              if added then
                locks_delete_lock cur inode before;;
                own_loop fuel cur inode (mk_own before caller added lft rgt)
              else
                locks_wake_up_blocks fl;;
                wl fl (λ f, set_fl_type (fl_type c) (set_fl_range (fl_start c) (fl_end c) f));;
                next_lock fl true lft
            else next_lock caller added lft
  end.

(** The rest of a lock behind the range and of one before it; the result is what
    is left of the second new structure. *)
Definition own_edges (inode : Z) (before : nat) (caller lft rgt new_fl2 : Z) : LK Z :=
  '(lft, new_fl2) ←
    (if negb (rgt =? 0) then
       '(lft, new_fl2) ←
         (if lft =? rgt then
            locks_copy_lock new_fl2 rgt;;
            locks_insert_lock inode before new_fl2;;
            mret (new_fl2, 0)
          else mret (lft, new_fl2));
       c ← gl caller;
       wl rgt (set_fl_start (s64 (fl_end c + 1)));;
       locks_wake_up_blocks rgt;;
       mret (lft, new_fl2)
     else mret (lft, new_fl2));
  (if negb (lft =? 0) then
     c ← gl caller;
     wl lft (set_fl_end (s64 (fl_start c - 1)));;
     locks_wake_up_blocks lft
   else mret tt);;
  mret new_fl2.

(** What follows the loop. The result are the new structures that are left. *)
Definition own_finish (inode : Z) (o : own) (new_fl new_fl2 : Z) : LK (Z * Z) :=
  let '(mk_own before caller added lft rgt) := o in
  c ← gl caller;
  if negb added && (fl_type c =? F_UNLCK) then mret (new_fl, new_fl2)
  else
    new_fl ← (if negb added then locks_copy_lock new_fl caller;; locks_insert_lock inode before new_fl;; mret 0 else mret new_fl);
    new_fl2 ← own_edges inode before caller lft rgt new_fl2;
    mret (new_fl, new_fl2).

Definition posix_apply (cur : lk_task) (inode caller new_fl new_fl2 : Z) : LK (Z * Z) :=
  fuel ← getl (λ s, S (length (i_flock inode s)));
  before ← skip_others fuel inode 0 caller;
  o ← own_loop fuel cur inode (mk_own before caller false 0 0);
  own_finish inode o new_fl new_fl2.

Definition free_unused (cur : lk_task) (new_fl new_fl2 : Z) : LK unit :=
  (if negb (new_fl =? 0) then locks_free_lock cur new_fl else mret tt);;
  (if negb (new_fl2 =? 0) then locks_free_lock cur new_fl2 else mret tt).

(** A call that is done, or that sleeps until its lock is woken, with the two
    structures it holds. *)
Inductive posix_out :=
  | PxDone (error : Z)
  | PxSleep (new_fl new_fl2 : Z).

(** From [repeat] on. *)
Definition posix_attempt (cur : lk_task) (inode caller : Z) (wait : bool) (new_fl new_fl2 : Z) : LK posix_out :=
  c ← gl caller;
  fl ← (if negb (fl_type c =? F_UNLCK) then posix_conflict inode caller else mret 0);
  if negb (fl =? 0) then
    if negb wait then free_unused cur new_fl new_fl2;; mret (PxDone (- EAGAIN))
    else
      dead ← posix_locks_deadlock caller fl;
      if (dead : bool) then free_unused cur new_fl new_fl2;; mret (PxDone (- EDEADLK))
      else locks_insert_block fl caller;; mret (PxSleep new_fl new_fl2)
  else
    '(new_fl, new_fl2) ← posix_apply cur inode caller new_fl new_fl2;
    free_unused cur new_fl new_fl2;;
    mret (PxDone 0).

Definition posix_lock_file (cur : lk_task) (inode caller : Z) (wait : bool) : LK posix_out :=
  new_fl ← locks_alloc_lock cur false;
  new_fl2 ← locks_alloc_lock cur false;
  if (new_fl =? 0) || (new_fl2 =? 0) then free_unused cur new_fl new_fl2;; mret (PxDone (- ENOLCK))
  else posix_attempt cur inode caller wait new_fl new_fl2.

(** The rest of the call when the task runs again, perhaps for a signal. *)
Definition posix_wakeup (cur : lk_task) (inode caller : Z) (signal : bool) (new_fl new_fl2 : Z) : LK posix_out :=
  locks_delete_block caller;;
  if signal then free_unused cur new_fl new_fl2;; mret (PxDone (- ERESTARTSYS))
  else posix_attempt cur inode caller true new_fl new_fl2.
End calls.
