(* ===== verification/LocksUser.v ===== *)
(** Leases on a file, and the calls on file locks (fs/locks.c): mandatory locks,
    fcntl, flock and close. *)
From S2P Require Import Prelude Locks.
From stdpp Require Import list options.
Open Scope cint_scope.
Open Scope Z_scope.

Definition lease_break_time : Z := 45.

Definition time_before (a b : Z) : bool := s32 (a - b) <? 0.

Section leases.
Context `{LockEnv} (jiffies : Z).

Definition lease_alloc (cur : lk_task) (filp type : Z) : LK (Z + Z) :=
  fl ← locks_alloc_lock cur true;
  if fl =? 0 then mret (inl (- ENOMEM))
  else
    wl fl (λ n, mk_file_lock (fl_next n) (fl_block n) (lt_files cur) (lt_pid cur) filp FL_LEASE (fl_type n) (fl_start n) (fl_end n)
      (fl_notify n) (fl_insert n) (fl_remove n) (fl_break_time n));;
    error ← apply_lock fl (assign_type type);
    if negb (error =? 0) then locks_free_lock cur fl;; mret (inl (- EINVAL))
    else wl fl (λ n, fill_lock (fl_owner n) (fl_pid n) (fl_file n) (fl_flags n) (fl_type n) 0 OFFSET_MAX n);; mret (inr fl).

Definition lease_modify (cur : lk_task) (inode : Z) (pos : nat) (arg : Z) : LK Z :=
  fl ← at_pos inode pos;
  error ← apply_lock fl (assign_type arg);
  if negb (error =? 0) then mret error
  else
    locks_wake_up_blocks fl;;
    if arg =? F_UNLCK then
      f ← gl fl;
      emitl (EvSetOwner (fl_file f) 0);;
      locks_delete_lock cur inode pos;;
      mret 0
    else mret 0.

Fixpoint time_out_loop (fuel : nat) (cur : lk_task) (inode : Z) (before : nat) : LK unit :=
  match fuel with
  | O => lbug
  | S fuel =>
      fl ← at_pos inode before;
      if fl =? 0 then mret tt
      else
        f ← gl fl;
        if negb ((fl_flags f & FL_LEASE) && (fl_type f & F_INPROGRESS)) then mret tt
        else if (fl_break_time f =? 0) || time_before jiffies (fl_break_time f) then time_out_loop fuel cur inode (S before)
        else
          lease_modify cur inode before (fl_type f &~ F_INPROGRESS);;
          now ← at_pos inode before;
          time_out_loop fuel cur inode (if fl =? now then S before else before)
  end.

Definition time_out_leases (cur : lk_task) (inode : Z) : LK unit :=
  fuel ← getl (λ s, S (length (i_flock inode s)));
  time_out_loop fuel cur inode 0.

(** The leases at the front of the list. *)
Fixpoint lease_prefix (l : list Z) : LK (list Z) :=
  match l with
  | [] => mret []
  | fl :: l =>
      f ← gl fl;
      if fl_flags f & FL_LEASE then rest ← lease_prefix l; mret (fl :: rest) else mret []
  end.

Fixpoint break_leases (l : list Z) (future break_time : Z) : LK unit :=
  match l with
  | [] => mret tt
  | fl :: l =>
      f ← gl fl;
      (if negb (fl_type f =? future) then
         wl fl (λ f, set_fl_break_time break_time (set_fl_type future f));;
         emitl (EvKillFasync fl)
       else mret tt);;
      break_leases l future break_time
  end.

(** A call that is done or sleeps on the lease [flock] for so many ticks (0: until
    it is woken), with its own structure, 0 if there is none. *)
Inductive lease_out :=
  | LxDone (error : Z)
  | LxSleep (new_fl timeout : Z).

Definition free_breaker (cur : lk_task) (new_fl : Z) : LK unit := if negb (new_fl =? 0) then locks_free_lock cur new_fl else mret tt.

(** From [restart] to the sleep. *)
Definition lease_sleep (flock new_fl : Z) : LK lease_out :=
  f ← gl flock;
  let break_time := fl_break_time f in
  let timeout := if negb (break_time =? 0) then (let t := u32 (break_time - jiffies) in if t =? 0 then 1 else t) else 0 in
  locks_insert_block flock new_fl;;
  mret (LxSleep new_fl timeout).

(** A call without a structure to wait with comes to its sleep only if the
    allocation has failed for a task that has the lease, and that does not
    wait. [future] as in the code. *)
Definition __get_lease (cur : lk_task) (inode : Z) (write nonblock : bool) : LK lease_out :=
  alloc ← lease_alloc cur 0 (if write then F_WRLCK else F_RDLCK);
  let new_fl := match alloc with inl _ => 0 | inr fl => fl end in
  time_out_leases cur inode;;
  l ← getl (i_flock inode);
  leases ← lease_prefix l;
  match leases with
  | [] => free_breaker cur new_fl;; mret (LxDone 0)
  | flock :: _ =>
      mine ← first_lock (λ f, fl_owner f =? lt_files cur) leases;
      let i_have_this_lease := negb (mine =? 0) in
      f ← gl flock;
      let future :=
        if write then Some (Z.lor F_UNLCK F_INPROGRESS)
        else if fl_type f & F_INPROGRESS then Some (fl_type f)
        else if fl_type f & F_WRLCK then Some (Z.lor F_RDLCK F_INPROGRESS)
        else None in
      match future with
      | None => free_breaker cur new_fl;; mret (LxDone 0)
      | Some future =>
          match alloc, i_have_this_lease, nonblock with
          | inl error, false, false => mret (LxDone error)
          | _, _, _ =>
              let t := u32 (jiffies + lease_break_time * HZ) in
              break_leases leases future (if t =? 0 then 1 else t);;
              if i_have_this_lease || nonblock then free_breaker cur new_fl;; mret (LxDone (- EAGAIN))
              else lease_sleep flock new_fl
          end
      end
  end.

(** The task runs again: the time is over, or it was woken ([rest] ticks are
    left), or there is a signal. *)
Definition lease_wakeup (cur : lk_task) (inode : Z) (signal : bool) (rest : Z) (new_fl : Z) : LK lease_out :=
  locks_delete_block new_fl;;
  if signal then free_breaker cur new_fl;; mret (LxDone (- ERESTARTSYS))
  else
    (if rest =? 0 then time_out_leases cur inode else mret tt);;
    l ← getl (i_flock inode);
    leases ← lease_prefix l;
    flock ← first_lock (λ f, fl_type f & F_INPROGRESS) leases;
    if flock =? 0 then free_breaker cur new_fl;; mret (LxDone 0)
    else lease_sleep flock new_fl.

Definition lease_get_mtime (inode now mtime : Z) : LK Z :=
  flock ← at_pos inode 0;
  if flock =? 0 then mret mtime
  else f ← gl flock; mret (if (fl_flags f & FL_LEASE) && (fl_type f & F_WRLCK) then now else mtime).

Definition fcntl_getlease (cur : lk_task) (f : lk_file) : LK Z :=
  time_out_leases cur (lf_inode f);;
  l ← getl (i_flock (lf_inode f));
  leases ← lease_prefix l;
  fl ← first_lock (λ fl, fl_file fl =? lf_filp f) leases;
  if fl =? 0 then mret F_UNLCK else v ← gl fl; mret (fl_type v &~ F_INPROGRESS).

(** What [fcntl_setlease] counts: its own position, leases that are broken for a
    writer, others. *)
Fixpoint count_leases (l : list Z) (pos : nat) (filp : Z) : LK (option nat * Z * Z) :=
  match l with
  | [] => mret (None, 0, 0)
  | fl :: l =>
      f ← gl fl;
      '(mine, wr, rd) ← count_leases l (S pos) filp;
      mret (if fl_file f =? filp then (Some (default pos mine), wr, rd)
            else if fl_type f =? Z.lor F_INPROGRESS F_UNLCK then (mine, wr + 1, rd)
            else (mine, wr, rd + 1))
  end.

(** [busy]: someone else has the file open; [may]: the task owns the file or has
    [CAP_LEASE]. *)
Definition fcntl_setlease (cur : lk_task) (f : lk_file) (may regular busy leases_enable : bool) (fasync arg : Z) : LK Z :=
  if negb may then mret (- EACCES)
  else if negb regular then mret (- EINVAL)
  else
    time_out_leases cur (lf_inode f);;
    if (arg =? F_WRLCK) && busy then mret (- EAGAIN)
    else
      l ← getl (i_flock (lf_inode f));
      leases ← lease_prefix l;
      '(mine, wrlease_count, rdlease_count) ← count_leases leases 0 (lf_filp f);
      if ((arg =? F_RDLCK) && (wrlease_count >? 0)) || ((arg =? F_WRLCK) && (rdlease_count + wrlease_count >? 0)) then mret (- EAGAIN)
      else
        match mine with
        | Some pos => lease_modify cur (lf_inode f) pos arg
        | None =>
            if arg =? F_UNLCK then mret 0
            else if negb leases_enable then mret (- EINVAL)
            else
              alloc ← lease_alloc cur (lf_filp f) arg;
              match alloc with
              | inl error => mret error
              | inr fl =>
                  if fasync <? 0 then locks_free_lock cur fl;; mret fasync
                  else
                    let pos := length leases in
                    setl (λ s, set_i_flock (lf_inode f) (take pos (i_flock (lf_inode f) s) ++ fl :: drop pos (i_flock (lf_inode f) s)) s);;
                    setl (λ s, set_file_lock_list (fl :: file_lock_list s) s);;
                    emitl (EvSetOwner (lf_filp f) (lt_pid cur));;
                    mret fasync
              end
        end.
End leases.

(** File locks: [flock_lock_file] and the system calls (fs/locks.c). *)

Definition F_GETLK : Z := 5.
Definition F_SETLK : Z := 6.
Definition F_SETLKW : Z := 7.
Definition F_SETLK64 : Z := 13.
Definition F_SETLKW64 : Z := 14.
Definition LOCK_USE_CLNT : Z := 1.

Section user.
Context `{LockEnv}.

(** * Whole files *)

(** A call that is done, that sleeps until its lock is woken, or that waits for
    the last waiters of a lock it has replaced. *)
Inductive flock_out :=
  | FxDone (error : Z)
  | FxSleep (new_fl : Z)
  | FxDrain (fl new_fl : Z).

(** The first locks of the list, as far as they are [FL_FLOCK]: the one of the
    file, with its position. *)
Fixpoint flock_scan (l : list Z) (pos : nat) (filp : Z) : LK (option (nat * Z)) :=
  match l with
  | [] => mret None
  | fl :: l =>
      f ← gl fl;
      if negb (fl_flags f & FL_FLOCK) then mret None
      else if filp =? fl_file f then mret (Some (pos, fl))
      else flock_scan l (S pos) filp
  end.

Fixpoint flock_conflict (l : list Z) (c : file_lock) : LK Z :=
  match l with
  | [] => mret 0
  | fl :: l =>
      f ← gl fl;
      if negb (fl_flags f & FL_FLOCK) then mret 0
      else if flock_locks_conflict c f then mret fl
      else flock_conflict l c
  end.

Definition free_flock (cur : lk_task) (new_fl error : Z) : LK flock_out :=
  (if negb (new_fl =? 0) then locks_free_lock cur new_fl else mret tt);;
  mret (FxDone error).

(** From [repeat] on. *)
Definition flock_repeat (cur : lk_task) (inode : Z) (wait : bool) (new_fl : Z) : LK flock_out :=
  c ← gl new_fl;
  l ← getl (i_flock inode);
  fl ← flock_conflict l c;
  if fl =? 0 then locks_insert_lock inode 0 new_fl;; mret (FxDone 0)
  else if negb wait then free_flock cur new_fl (- EAGAIN)
  else locks_insert_block fl new_fl;; mret (FxSleep new_fl).

(** From [search] on. *)
Fixpoint flock_search (fuel : nat) (cur : lk_task) (inode filp lock_type : Z) (wait : bool) (new_fl : Z) : LK flock_out :=
  match fuel with
  | O => lbug
  | S fuel =>
      let unlock := lock_type =? F_UNLCK in
      l ← getl (i_flock inode);
      found ← flock_scan l 0 filp;
      match found with
      | Some (before, fl) =>
          f ← gl fl;
          if lock_type =? fl_type f then free_flock cur new_fl 0
          else if unlock then locks_delete_lock cur inode before;; free_flock cur new_fl 0
          else
            _unhash_lock inode before;;
            remove_hook fl;;
            done ← locks_wake_up_wait fl;
            if (done : bool) then locks_free_lock cur fl;; flock_search fuel cur inode filp lock_type wait new_fl
            else mret (FxDrain fl new_fl)
      | None => if unlock then free_flock cur new_fl 0 else flock_repeat cur inode wait new_fl
      end
  end.

Definition flock_from_search (cur : lk_task) (inode filp lock_type : Z) (wait : bool) (new_fl : Z) : LK flock_out :=
  fuel ← getl (λ s, S (length (i_flock inode s)));
  flock_search fuel cur inode filp lock_type wait new_fl.

Definition flock_lock_file (cur : lk_task) (inode filp lock_type : Z) (wait : bool) : LK flock_out :=
  if lock_type =? F_UNLCK then flock_from_search cur inode filp lock_type wait 0
  else
    new_fl ← flock_make_lock cur filp lock_type;
    if new_fl =? 0 then mret (FxDone (- ENOLCK))
    else flock_from_search cur inode filp lock_type wait new_fl.

(** The task runs again after its [yield()], and after its sleep. *)
Definition flock_drained (cur : lk_task) (inode filp lock_type : Z) (wait : bool) (fl new_fl : Z) : LK flock_out :=
  done ← locks_wake_up_wait fl;
  if (done : bool) then locks_free_lock cur fl;; flock_from_search cur inode filp lock_type wait new_fl
  else mret (FxDrain fl new_fl).

Definition flock_wakeup (cur : lk_task) (inode : Z) (signal : bool) (new_fl : Z) : LK flock_out :=
  locks_delete_block new_fl;;
  if signal then free_flock cur new_fl (- ERESTARTSYS) else flock_repeat cur inode true new_fl.

Definition flock_translate_cmd (cmd : Z) : Z :=
  if cmd & LOCK_MAND then Z.land cmd (Z.lor LOCK_MAND LOCK_RW)
  else
    let cmd := cmd &~ LOCK_NB in
    if cmd =? LOCK_SH then F_RDLCK else if cmd =? LOCK_EX then F_WRLCK else if cmd =? LOCK_UN then F_UNLCK else - EINVAL.

(** [fget] gives the file, if there is one. *)
Definition sys_flock (cur : lk_task) (file : option lk_file) (cmd : Z) : LK flock_out :=
  match file with
  | None => mret (FxDone (- EBADF))
  | Some f =>
      let type := flock_translate_cmd cmd in
      if type <? 0 then mret (FxDone type)
      else if negb (type =? F_UNLCK) && negb (type & LOCK_MAND) && negb (lf_mode f & 3) then mret (FxDone (- EBADF))
      else flock_lock_file cur (lf_inode f) (lf_filp f) type (negb (cmd & Z.lor LOCK_UN LOCK_NB))
  end.

(** * Mandatory locks *)

Definition locks_mandatory_locked (cur : lk_task) (inode : Z) : LK Z :=
  l ← getl (i_flock inode);
  fl ← first_lock (λ f, (fl_flags f & FL_POSIX) && negb (fl_owner f =? lt_files cur)) l;
  mret (if fl =? 0 then 0 else - EAGAIN).

Inductive area_out :=
  | AxDone (error : Z)
  | AxSleep (new_fl : Z).

Fixpoint area_conflict (l : list Z) (c : file_lock) : LK Z :=
  match l with
  | [] => mret 0
  | fl :: l =>
      f ← gl fl;
      if negb (fl_flags f & FL_POSIX) then area_conflict l c
      else if fl_start f >? fl_end c then mret 0
      else if posix_locks_conflict c f then mret fl
      else area_conflict l c
  end.

(** From [repeat] on. *)
Definition area_attempt (cur : lk_task) (inode : Z) (nonblock : bool) (new_fl : Z) : LK area_out :=
  c ← gl new_fl;
  l ← getl (i_flock inode);
  fl ← area_conflict l c;
  if fl =? 0 then locks_free_lock cur new_fl;; mret (AxDone 0)
  else if nonblock then locks_free_lock cur new_fl;; mret (AxDone (- EAGAIN))
  else
    dead ← posix_locks_deadlock new_fl fl;
    if (dead : bool) then locks_free_lock cur new_fl;; mret (AxDone (- EDEADLK))
    else locks_insert_block fl new_fl;; mret (AxSleep new_fl).

(** [filp] may be 0. *)
Definition locks_mandatory_area (cur : lk_task) (write : bool) (inode filp : Z) (nonblock : bool) (offset count : Z) : LK area_out :=
  new_fl ← locks_alloc_lock cur false;
  if new_fl =? 0 then mret (AxDone (- ENOMEM))
  else
    wl new_fl (λ n, mk_file_lock (fl_next n) (fl_block n) (lt_files cur) (lt_pid cur) filp (Z.lor FL_POSIX FL_ACCESS)
      (if write then F_WRLCK else F_RDLCK) offset (s64 (offset + count - 1)) (fl_notify n) (fl_insert n) (fl_remove n) (fl_break_time n));;
    area_attempt cur inode (negb (filp =? 0) && nonblock) new_fl.

Definition area_wakeup (cur : lk_task) (inode : Z) (signal mandatory : bool) (new_fl : Z) : LK area_out :=
  locks_delete_block new_fl;;
  if signal then locks_free_lock cur new_fl;; mret (AxDone (- ERESTARTSYS))
  else if negb mandatory then locks_free_lock cur new_fl;; mret (AxDone 0)
  else area_attempt cur inode false new_fl.

(** * fcntl *)

(** The answer of [F_GETLK]: the error and what the caller's structure becomes.
    [narrow]: positions of 32 bits. *)
Definition getlk (w : Z → Z) (narrow : bool) (cur : lk_task) (file : option lk_file) (user : option flock) (n : file_lock) : LK (Z * option flock) :=
  match user with
  | None => mret (- EFAULT, None)
  | Some l =>
      if negb (l_type l =? F_RDLCK) && negb (l_type l =? F_WRLCK) then mret (- EINVAL, None)
      else
        match file with
        | None => mret (- EBADF, None)
        | Some f =>
            let '(error, n) := to_posix_lock w cur f l n in
            if negb (error =? 0) then mret (error, None)
            else
              let test : LK (option file_lock) := fl ← posix_test_lock (lf_inode f) n; if fl =? 0 then mret None else v ← gl fl; mret (Some v) in
              found ←
                match file_op_lock (lf_filp f) with
                | Some lock =>
                    let '(error, n) := lock F_GETLK n in
                    if error <? 0 then mret (inl error)
                    else if error =? LOCK_USE_CLNT then v ← test; mret (inr v)
                    else mret (inr (if fl_type n =? F_UNLCK then None else Some n))
                | None => v ← test; mret (inr v)
                end;
              match found with
              | inl error => mret (error, None)
              | inr None => mret (0, Some (mk_flock F_UNLCK (l_whence l) (l_start l) (l_len l) (l_pid l)))
              | inr (Some v) =>
                  if narrow && ((fl_start v >? OFFT_OFFSET_MAX) || (negb (fl_end v =? OFFSET_MAX) && (fl_end v >? OFFT_OFFSET_MAX))) then
                    mret (- EOVERFLOW, None)
                  else mret (0, Some (mk_flock (fl_type v) 0 (fl_start v) (if fl_end v =? OFFSET_MAX then 0 else w (fl_end v - fl_start v + 1)) (fl_pid v)))
              end
        end
  end.
Definition fcntl_getlk : lk_task → option lk_file → option flock → file_lock → LK (Z * option flock) := getlk s32 true.
Definition fcntl_getlk64 : lk_task → option lk_file → option flock → file_lock → LK (Z * option flock) := getlk s64 false.

(** A call that is done, or that sleeps with its three structures. *)
Inductive setlk_out :=
  | SxDone (error : Z)
  | SxSleep (file_lock new_fl new_fl2 : Z).

(** The end of the call. *)
Definition setlk_result (cur : lk_task) (file_lock : Z) (out : posix_out) : LK setlk_out :=
  match out with
  | PxDone error => locks_free_lock cur file_lock;; mret (SxDone error)
  | PxSleep new_fl new_fl2 => mret (SxSleep file_lock new_fl new_fl2)
  end.

Definition setlk (w : Z → Z) (setlkw : Z) (cur : lk_task) (file : option lk_file) (cmd : Z) (user : option flock) : LK setlk_out :=
  file_lock ← locks_alloc_lock cur false;
  if file_lock =? 0 then mret (SxDone (- ENOLCK))
  else
    let out error := setlk_result cur file_lock (PxDone error) in
    match user, file with
    | None, _ => out (- EFAULT)
    | Some _, None => out (- EBADF)
    | Some l, Some f =>
        if lf_mandatory f && lf_mmap_shared f then out (- EAGAIN)
        else
          error ← apply_lock file_lock (to_posix_lock w cur f l);
          if negb (error =? 0) then out error
          else if (l_type l =? F_RDLCK) && negb (lf_mode f & 1) then out (- EBADF)
          else if (l_type l =? F_WRLCK) && negb (lf_mode f & 2) then out (- EBADF)
          else
            error ←
              match file_op_lock (lf_filp f) with
              | Some lock => apply_lock file_lock (λ v, let '(e, n) := lock cmd v in (e, set_fl_wait (fl_next v) (fl_block v) n))
              | None => mret 0
              end;
            if error <? 0 then out error
            else
              r ← posix_lock_file cur (lf_inode f) file_lock (cmd =? setlkw);
              setlk_result cur file_lock r
    end.
Definition fcntl_setlk : lk_task → option lk_file → Z → option flock → LK setlk_out := setlk s32 F_SETLKW.
Definition fcntl_setlk64 : lk_task → option lk_file → Z → option flock → LK setlk_out := setlk s64 F_SETLKW64.

Definition setlk_wakeup (cur : lk_task) (inode : Z) (signal : bool) (file_lock new_fl new_fl2 : Z) : LK setlk_out :=
  r ← posix_wakeup cur inode file_lock signal new_fl new_fl2;
  setlk_result cur file_lock r.

(** * The end of a file *)

Fixpoint remove_posix_loop (fuel : nat) (cur : lk_task) (inode owner : Z) (before : nat) : LK unit :=
  match fuel with
  | O => lbug
  | S fuel =>
      fl ← at_pos inode before;
      if fl =? 0 then mret tt
      else
        f ← gl fl;
        if (fl_flags f & FL_POSIX) && (fl_owner f =? owner) then
          locks_unlock_delete cur inode before;;
          remove_posix_loop fuel cur inode owner 0
        else remove_posix_loop fuel cur inode owner (S before)
  end.

(** Each of [n] locks is passed at most once between two that go. *)
Definition locks_remove_posix (cur : lk_task) (inode owner : Z) : LK unit :=
  n ← getl (λ s, length (i_flock inode s));
  remove_posix_loop (S n * S n) cur inode owner 0.

Fixpoint remove_flock_loop (fuel : nat) (cur : lk_task) (inode filp : Z) (before : nat) : LK unit :=
  match fuel with
  | O => lbug
  | S fuel =>
      fl ← at_pos inode before;
      if fl =? 0 then mret tt
      else
        f ← gl fl;
        if (fl_file f =? filp) && (fl_flags f & FL_FLOCK) then locks_delete_lock cur inode before;; remove_flock_loop fuel cur inode filp before
        else if (fl_file f =? filp) && (fl_flags f & FL_LEASE) then
          lease_modify cur inode before F_UNLCK;;
          remove_flock_loop fuel cur inode filp before
        else remove_flock_loop fuel cur inode filp (S before)
  end.

Definition locks_remove_flock (cur : lk_task) (inode filp : Z) : LK unit :=
  fuel ← getl (λ s, S (length (i_flock inode s)));
  remove_flock_loop fuel cur inode filp 0.

(** * For lockd and knfsd *)

Definition posix_block_lock (blocker waiter : Z) : LK unit := locks_insert_block blocker waiter.

Definition posix_unblock_lock (waiter : Z) : LK unit :=
  w ← gl waiter;
  if negb (list_empty w) then locks_delete_block waiter else mret tt.

(** Whether a lock keeps knfsd from a range. *)
Definition keeps_from (write : bool) (start len : Z) (f : file_lock) : bool :=
  if fl_flags f =? FL_POSIX then
    if negb write && (fl_type f =? F_RDLCK) then false
    else negb ((fl_end f <? start) || (fl_start f >? s64 (start + len)))
  else if fl_flags f =? FL_FLOCK then (fl_type f & LOCK_MAND) && negb (fl_type f & (if write then LOCK_WRITE else LOCK_READ))
  else false.

Definition lock_may_read (inode start len : Z) : LK bool :=
  l ← getl (i_flock inode);
  fl ← first_lock (keeps_from false start len) l;
  mret (fl =? 0).

Definition lock_may_write (inode start len : Z) : LK bool :=
  l ← getl (i_flock inode);
  fl ← first_lock (keeps_from true start len) l;
  mret (fl =? 0).
End user.
