(* ===== verification/LocksOk.v ===== *)
(** Lemmas on file locks: which structures are live, linked and waiting, and
    what setting a range does to sorted ranges and to each byte. *)
From S2P Require Import Prelude Locks.
From stdpp Require Import list options.
#[local] Set Default Proof Using "Type*".
Open Scope cint_scope.
Open Scope Z_scope.

(** A lock that waits for nothing, whoever waits for it. *)
Definition has (s : lk) (x : Z) (f : file_lock) : Prop := ∃ b, lk_locks s !! x = Some (set_fl_wait 0 b f).

(** The locks of an inode. *)
Notation fdata := (list (Z * file_lock)).
Definition at_inode (s : lk) (inode : Z) (D : fdata) : Prop := i_flock inode s = D.*1 ∧ ∀ x f, (x, f) ∈ D → has s x f.

(** Queues, [fl_next] and the list of waiters agree. *)
Record waits_ok (s : lk) : Prop := {
  wt_null : lk_locks s !! 0 = None;
  wt_queue b f w : lk_locks s !! b = Some f → w ∈ fl_block f → ∃ g, lk_locks s !! w = Some g ∧ fl_next g = b;
  wt_nodup b f : lk_locks s !! b = Some f → NoDup (fl_block f);
  wt_next w g : lk_locks s !! w = Some g → fl_next g ≠ 0 → ∃ f, lk_locks s !! fl_next g = Some f ∧ w ∈ fl_block f;
  wt_blocked w : w ∈ blocked_list s ↔ ∃ g, lk_locks s !! w = Some g ∧ fl_next g ≠ 0
}.

(** The lists of the inodes hold locks that do not wait, each once, and what is
    on [file_lock_list] is in one of them. *)
Record lists_ok (s : lk) : Prop := {
  li_nodup i : NoDup (i_flock i s);
  li_held i x : x ∈ i_flock i s → ∃ f, has s x f;
  li_one i j x : x ∈ i_flock i s → x ∈ i_flock j s → i = j;
  li_links x : x ∈ file_lock_list s → ∃ i, x ∈ i_flock i s
}.

Record lk_ok (s : lk) : Prop := {
  ok_waits : waits_ok s;
  ok_lists : lists_ok s
}.

(** A structure in no list and with nobody waiting for it. *)
Definition idle (s : lk) (x : Z) (f : file_lock) : Prop := lk_locks s !! x = Some (set_fl_wait 0 [] f) ∧ ∀ i, x ∉ i_flock i s.

(** ** Frames *)

(** Locks other than [xs] keep their values; they may cease to wait and lose
    waiters. *)
Record kept (xs : list Z) (s s' : lk) : Prop := {
  kp_locks y f : y ∉ xs → lk_locks s !! y = Some f → ∃ nx b, lk_locks s' !! y = Some (set_fl_wait nx b f) ∧
    (fl_next f = 0 → nx = 0) ∧ (fl_block f = [] → b = [])
}.

Lemma set_wait_self f : set_fl_wait (fl_next f) (fl_block f) f = f.
Proof. by destruct f. Qed.

Lemma kept_refl xs s : kept xs s s.
Proof. split. intros y f _ Hy. exists (fl_next f), (fl_block f). by rewrite set_wait_self. Qed.

Lemma kept_trans xs s1 s2 s3 : kept xs s1 s2 → kept xs s2 s3 → kept xs s1 s3.
Proof.
  intros [K1] [K2]. split. intros y f Hy Hf. destruct (K1 y f Hy Hf) as (nx & b & H1 & N1 & B1). destruct (K2 y _ Hy H1) as (nx' & b' & H2 & N2 & B2).
  exists nx', b'. cbn in *. split_and!; [exact H2|auto..].
Qed.

Lemma kept_mono xs ys s s' : (∀ x, x ∈ xs → x ∈ ys) → kept xs s s' → kept ys s s'.
Proof. intros Hs [K]. split. intros y f Hy. apply K. naive_solver. Qed.

Lemma kept_has xs s s' x f : kept xs s s' → x ∉ xs → has s x f → has s' x f.
Proof. intros [K] Hx [b Hb]. destruct (K x _ Hx Hb) as (nx & b' & H1 & N & _). rewrite (N eq_refl) in H1. by exists b'. Qed.

Lemma kept_idle xs s s' x f : kept xs s s' → x ∉ xs → (∀ i, x ∉ i_flock i s') → idle s x f → idle s' x f.
Proof. intros [K] Hx Hl [Hb _]. destruct (K x _ Hx Hb) as (nx & b' & H1 & N & B). rewrite (N eq_refl), (B eq_refl) in H1. by split. Qed.

Lemma idle_has s x f : idle s x f → has s x f.
Proof. intros [Hb _]. by exists []. Qed.

Lemma gl_has s x f : has s x f → ∃ b, gl x s = Some (set_fl_wait 0 b f, s).
Proof. intros [b Hb]. exists b. unfold gl. by rewrite Hb. Qed.

Lemma has_nonzero s x f : waits_ok s → has s x f → x ≠ 0.
Proof. intros W [b Hb] ->. by rewrite (wt_null _ W) in Hb. Qed.

Lemma has_inj s x f f' : has s x f → has s x f' → set_fl_wait 0 [] f = set_fl_wait 0 [] f'.
Proof. intros [b H1] [b' H2]. rewrite H1 in H2. injection H2. intros. unfold set_fl_wait. congruence. Qed.

(** ** Who waits for what *)

Definition okey (f : file_lock) : Z * Z := (fl_owner f, fl_pid f).

(** The lock that is waited for may only have grown. *)
Record covers (g' g : file_lock) : Prop := {
  cv_key : okey g' = okey g;
  cv_flags : fl_flags g' = fl_flags g;
  cv_type : fl_type g' = fl_type g;
  cv_start : fl_start g' <= fl_start g;
  cv_end : fl_end g <= fl_end g'
}.

Definition blocks_on (b : Z) (s s' : lk) : Prop :=
  (∀ g', lk_locks s' !! b = Some g' → ∃ g, lk_locks s !! b = Some g ∧ covers g' g) ∧ ∀ j, b ∈ i_flock j s → b ∈ i_flock j s'.

(** Who waits has waited before, for the same lock; [xs] are locks that may have
    changed in other ways. *)
Definition edges (xs : list Z) (s s' : lk) : Prop := ∀ w f', lk_locks s' !! w = Some f' → fl_next f' ≠ 0 →
  ∃ f, lk_locks s !! w = Some f ∧ fl_next f = fl_next f' ∧ set_fl_wait 0 [] f = set_fl_wait 0 [] f' ∧ (fl_next f' ∉ xs → blocks_on (fl_next f') s s').

Lemma covers_refl g : covers g g.
Proof. by split. Qed.

Lemma covers_trans g1 g2 g3 : covers g1 g2 → covers g2 g3 → covers g1 g3.
Proof. intros [A1 A2 A3 A4 A5] [B1 B2 B3 B4 B5]. split; (congruence || lia). Qed.

Lemma blocks_trans b s1 s2 s3 : blocks_on b s1 s2 → blocks_on b s2 s3 → blocks_on b s1 s3.
Proof. intros [A1 A2] [B1 B2]. split; [|auto]. intros g3 H3. destruct (B1 g3 H3) as (g2 & H2 & C2). destruct (A1 g2 H2) as (g1 & H1 & C1). exists g1. split; [done|by eapply covers_trans]. Qed.

Lemma edges_refl xs s : edges xs s s.
Proof. intros w f Hf Hn. exists f. split_and!; try done. intros _. split; [|done]. intros g Hg. exists g. split; [done|apply covers_refl]. Qed.

Lemma edges_trans xs s1 s2 s3 : edges xs s1 s2 → edges xs s2 s3 → edges xs s1 s3.
Proof.
  intros A B w f3 H3 N3. destruct (B w f3 H3 N3) as (f2 & H2 & E2 & V2 & C2). destruct (A w f2 H2) as (f1 & H1 & E1 & V1 & C1); [congruence|]. exists f1.
  split_and!; [done|congruence|congruence|]. intros Hx. rewrite E2 in C1. eapply blocks_trans; [by apply C1|by apply C2].
Qed.

Lemma edges_mono xs ys s s' : (∀ x, x ∈ xs → x ∈ ys) → edges xs s s' → edges ys s s'.
Proof. intros Hs A w f Hw Hn. destruct (A w f Hw Hn) as (f0 & H1 & H2 & H3 & H4). exists f0. split_and!; auto. Qed.

(** Nobody waits for [x]. *)
Definition unwaited (s : lk) (x : Z) : Prop := ∀ f, lk_locks s !! x = Some f → fl_block f = [].

Lemma edges_drop xs s s' : waits_ok s' → (∀ x, x ∈ xs → unwaited s' x) → edges xs s s' → edges [] s s'.
Proof.
  intros W Hx A w f Hw Hn. destruct (A w f Hw Hn) as (f0 & H1 & H2 & H3 & H4). exists f0. split_and!; try done. intros _. apply H4. intros Hin.
  destruct (wt_next _ W w f Hw Hn) as (b & Hb & Hwb). rewrite (Hx _ Hin b Hb) in Hwb. by apply elem_of_nil in Hwb.
Qed.

(** ** Changing a value *)

(** The wait fields of all locks are as they were. *)
Definition same_waits (s s' : lk) : Prop := blocked_list s' = blocked_list s ∧
  ∀ y, (λ f, (fl_next f, fl_block f)) <$> lk_locks s' !! y = (λ f, (fl_next f, fl_block f)) <$> lk_locks s !! y.

Lemma same_waits_lookup s s' y f : same_waits s s' → lk_locks s' !! y = Some f → ∃ g, lk_locks s !! y = Some g ∧ fl_next g = fl_next f ∧ fl_block g = fl_block f.
Proof. intros [_ Hs] Hy. specialize (Hs y). rewrite Hy in Hs. destruct (lk_locks s !! y) as [g|]; [|done]. injection Hs as ? ?. by exists g. Qed.

Lemma same_waits_sym s s' : same_waits s s' → same_waits s' s.
Proof. intros [H1 H2]. by split; [|intros y; rewrite H2]. Qed.

Lemma waits_same s s' : same_waits s s' → waits_ok s → waits_ok s'.
Proof.
  intros S [W0 W1 W2 W3 W4]. pose proof (same_waits_sym _ _ S) as S'. split.
  - destruct (lk_locks s' !! 0) as [f|] eqn:Hf; [|done]. destruct (same_waits_lookup _ _ _ _ S Hf) as (g & Hg & _). congruence.
  - intros b f w Hb Hw. destruct (same_waits_lookup _ _ _ _ S Hb) as (g & Hg & _ & Hbl). rewrite <-Hbl in Hw. destruct (W1 b g w Hg Hw) as (v & Hv & Hn).
    destruct (same_waits_lookup _ _ _ _ S' Hv) as (v' & Hv' & Hn' & _). exists v'. split; [done|congruence].
  - intros b f Hb. destruct (same_waits_lookup _ _ _ _ S Hb) as (g & Hg & _ & <-). by apply (W2 b).
  - intros w g Hw Hn. destruct (same_waits_lookup _ _ _ _ S Hw) as (v & Hv & Hn' & _). rewrite <-Hn' in *. destruct (W3 w v Hv Hn) as (f & Hf & Hin).
    destruct (same_waits_lookup _ _ _ _ S' Hf) as (f' & Hf' & _ & Hb'). exists f'. split; [done|]. by rewrite Hb'.
  - intros w. rewrite (proj1 S), W4. split; intros (g & Hg & Hn).
    + destruct (same_waits_lookup _ _ _ _ S' Hg) as (v & Hv & Hn' & _). exists v. split; [done|congruence].
    + destruct (same_waits_lookup _ _ _ _ S Hg) as (v & Hv & Hn' & _). exists v. split; [done|congruence].
Qed.

Lemma lists_kept s s' : lk_inodes s' = lk_inodes s → file_lock_list s' = file_lock_list s →
  (∀ i x f, x ∈ i_flock i s → has s x f → ∃ f', has s' x f') → lists_ok s → lists_ok s'.
Proof.
  intros Hi Hl K [L1 L2 L3 L4]. assert (∀ i, i_flock i s' = i_flock i s) as He by (intros i; unfold i_flock; by rewrite Hi). split.
  - intros i. by rewrite He.
  - intros i x. rewrite He. intros Hx. destruct (L2 i x Hx) as [f Hf]. by eapply K.
  - intros i j x. rewrite !He. apply L3.
  - intros x. rewrite Hl. intros Hx. destruct (L4 x Hx) as [i Hix]. exists i. by rewrite He.
Qed.

(** [p->... = ...] *)
Lemma wl_run s x f f' g : lk_ok s → has s x f → (∀ b, g (set_fl_wait 0 b f) = set_fl_wait 0 b f') →
  ∃ s', wl x g s = Some (tt, s') ∧ lk_ok s' ∧ has s' x f' ∧ kept [x] s s' ∧ lk_inodes s' = lk_inodes s ∧ file_lock_list s' = file_lock_list s ∧
    (idle s x f → idle s' x f') ∧ edges [x] s s' ∧ (unwaited s x → unwaited s' x).
Proof.
  intros [W L] [b Hb] Hg. set (s' := set_lk_locks (<[x := set_fl_wait 0 b f']> (lk_locks s)) s). exists s'.
  assert (wl x g s = Some (tt, s')) as Hrun by (unfold wl; by rewrite Hb, Hg). assert (has s' x f') as Hx by (exists b; cbn; by rewrite lookup_insert_eq).
  assert (kept [x] s s') as K.
  { split. intros y h Hy Hh. exists (fl_next h), (fl_block h). rewrite set_wait_self. split; [|done]. cbn. rewrite lookup_insert_ne; [done|]. intros ->. by apply Hy; left. }
  split_and!; [done| |done|done|done|done| | |].
  - split.
    + apply (waits_same s); [|done]. split; [done|]. intros y. cbn. destruct (decide (y = x)) as [->|]; [by rewrite lookup_insert_eq, Hb|by rewrite lookup_insert_ne].
    + apply (lists_kept s); try done. intros i y h _ Hy. destruct (decide (y = x)) as [->|Hne]; [by exists f'|]. exists h. eapply kept_has; [exact K| |exact Hy]. set_solver.
  - intros [Hi Hl]. rewrite Hb in Hi. injection Hi as ?. split; [cbn; rewrite lookup_insert_eq|done]. f_equal. unfold set_fl_wait in *. congruence.
  - intros w h Hw Hn. cbn in Hw. destruct (decide (w = x)) as [->|Hwx]; [rewrite lookup_insert_eq in Hw; by injection Hw as <-|]. rewrite lookup_insert_ne in Hw by done.
    exists h. split_and!; try done. intros Hx'. split; [|done]. intros g' Hg'. cbn in Hg'. rewrite lookup_insert_ne in Hg' by (intros Heq; apply Hx'; rewrite Heq; by left).
    exists g'. split; [done|apply covers_refl].
  - intros Hu h Hh. cbn in Hh. rewrite lookup_insert_eq in Hh. injection Hh as <-. cbn. by specialize (Hu _ Hb).
Qed.

(** ** A waiter stops to wait *)

Lemma elem_of_rem x y l : x ∈ rem y l ↔ x ≠ y ∧ x ∈ l.
Proof. unfold rem. by rewrite list_elem_of_filter. Qed.

Lemma rem_notin x l : x ∉ l → rem x l = l.
Proof.
  unfold rem. induction l as [|y l IH]; [done|]. rewrite elem_of_cons, filter_cons. intros Hx. destruct (decide (y ≠ x)) as [|Hn]; [by rewrite IH by tauto|].
  exfalso. apply Hn. intros ->. tauto.
Qed.

Definition unwait (w y : Z) (f : file_lock) : file_lock := set_fl_wait (if decide (y = w) then 0 else fl_next f) (rem w (fl_block f)) f.

(** Everything but the wait fields is as it was. *)
Record woken (s s' : lk) : Prop := {
  wk_ok : waits_ok s';
  wk_kept : kept [] s s';
  wk_edges : edges [] s s';
  wk_live y : is_Some (lk_locks s' !! y) ↔ is_Some (lk_locks s !! y);
  wk_inodes : lk_inodes s' = lk_inodes s;
  wk_links : file_lock_list s' = file_lock_list s;
  wk_tasks : task_locks s' = task_locks s
}.

Lemma woken_trans s1 s2 s3 : woken s1 s2 → woken s2 s3 → woken s1 s3.
Proof. intros [A1 A2 Ae A3 A4 A5 A6] [B1 B2 Be B3 B4 B5 B6]. split; [done|by eapply kept_trans|by eapply edges_trans|intros y; by rewrite B3|congruence..]. Qed.

Lemma unwait_woken s s' w : waits_ok s → (∀ y, lk_locks s' !! y = unwait w y <$> lk_locks s !! y) → blocked_list s' = rem w (blocked_list s) →
  lk_inodes s' = lk_inodes s → file_lock_list s' = file_lock_list s → task_locks s' = task_locks s → woken s s'.
Proof.
  intros [W0 W1 W2 W3 W4] Hy Hb Hi Hl Ht. split; [|split| |intros y; rewrite Hy; by destruct (lk_locks s !! y)|done..].
  - split.
    + by rewrite Hy, W0.
    + intros b f v. rewrite Hy. destruct (lk_locks s !! b) as [f0|] eqn:Hf; [|done]. intros [= <-]. cbn. rewrite elem_of_rem. intros [Hv Hin].
      destruct (W1 b f0 v Hf Hin) as (g & Hg & Hn). exists (unwait w v g). rewrite Hy, Hg. split; [done|]. cbn. by destruct (decide (v = w)).
    + intros b f. rewrite Hy. destruct (lk_locks s !! b) as [f0|] eqn:Hf; [|done]. intros [= <-]. cbn. apply list.NoDup_filter. by apply (W2 b).
    + intros v g. rewrite Hy. destruct (lk_locks s !! v) as [g0|] eqn:Hg; [|done]. intros [= <-]. cbn. destruct (decide (v = w)) as [|Hne]; [done|]. intros Hn.
      destruct (W3 v g0 Hg Hn) as (f & Hf & Hin). exists (unwait w (fl_next g0) f). rewrite Hy, Hf. split; [done|]. cbn. by rewrite elem_of_rem.
    + intros v. rewrite Hb, elem_of_rem, W4. split.
      * intros (Hne & g & Hg & Hn). exists (unwait w v g). rewrite Hy, Hg. split; [done|]. cbn. by destruct (decide (v = w)).
      * intros (g & Hg & Hn). rewrite Hy in Hg. destruct (lk_locks s !! v) as [g0|]; [|done]. injection Hg as <-. cbn in Hn. destruct (decide (v = w)) as [|Hne]; [done|].
        split; [done|]. by exists g0.
  - intros y f _ Hf. exists (fl_next (unwait w y f)), (fl_block (unwait w y f)). rewrite Hy, Hf. cbn. split; [done|]. split; [by destruct (decide (y = w))|by intros ->].
  - intros v g. rewrite Hy. destruct (lk_locks s !! v) as [g0|] eqn:Hg; [|done]. intros [= <-]. cbn. destruct (decide (v = w)) as [|Hne]; [done|]. intros Hn. exists g0. split_and!; try done.
    intros _. split; [|intros j; unfold i_flock; by rewrite Hi]. intros g'. rewrite Hy. destruct (lk_locks s !! fl_next g0) as [h|]; [|done]. intros [= <-]. exists h. split; [done|]. by split.
Qed.

Lemma delete_block_run s w g : waits_ok s → lk_locks s !! w = Some g → ∃ s', locks_delete_block w s = Some (tt, s') ∧ woken s s' ∧
  lk_locks s' !! w = Some (unwait w w g) ∧ ∀ y, lk_locks s' !! y = unwait w y <$> lk_locks s !! y.
Proof.
  intros W Hw. unfold locks_delete_block. assert (gl w s = Some (g, s)) as Hg by (unfold gl; by rewrite Hw). erewrite es_bind by exact Hg.
  assert (∀ b f, b ≠ fl_next g → lk_locks s !! b = Some f → w ∉ fl_block f) as Hout.
  { intros b f Hb Hf Hin. destruct (wt_queue _ W b f w Hf Hin) as (g' & Hg' & Hn). congruence. }
  assert (∀ s1, lk_inodes s1 = lk_inodes s → file_lock_list s1 = file_lock_list s → task_locks s1 = task_locks s → blocked_list s1 = blocked_list s →
    (∀ y, lk_locks s1 !! y = (λ f, set_fl_wait (fl_next f) (rem w (fl_block f)) f) <$> lk_locks s !! y) →
    ∃ s', (setl (λ s, set_blocked_list (rem w (blocked_list s)) s);; wl w (λ w, set_fl_wait 0 (fl_block w) w)) s1 = Some (tt, s') ∧ woken s s' ∧
      lk_locks s' !! w = Some (unwait w w g) ∧ ∀ y, lk_locks s' !! y = unwait w y <$> lk_locks s !! y) as Hend.
  { intros s1 H1 H2 H3 H4 H5. eexists. split; [erewrite es_bind by done; unfold wl; cbn; rewrite H5, Hw; done|].
    match goal with |- woken s ?s' ∧ _ => assert (∀ y, lk_locks s' !! y = unwait w y <$> lk_locks s !! y) as Hy end.
    { intros y. cbn. unfold unwait. destruct (decide (y = w)) as [->|]; [by rewrite lookup_insert_eq, Hw|by rewrite lookup_insert_ne, H5 by done]. }
    split_and!; [|rewrite Hy; by rewrite Hw|done]. apply (unwait_woken s _ w W Hy); cbn; congruence. }
  destruct (Z.eqb_spec (fl_next g) 0) as [H0|H0]; cbn [negb].
  - erewrite es_bind by done. apply Hend; try done. intros y. destruct (lk_locks s !! y) as [f|] eqn:Hf; [|done]. cbn. rewrite rem_notin; [by rewrite set_wait_self|].
    intros Hin. destruct (wt_queue _ W y f w Hf Hin) as (g' & Hg' & Hn). assert (y = 0) as -> by congruence. by rewrite (wt_null _ W) in Hf.
  - destruct (wt_next _ W w g Hw H0) as (f & Hf & Hin). erewrite es_bind by (unfold wl; by rewrite Hf). apply Hend; try done. intros y. cbn.
    destruct (decide (y = fl_next g)) as [->|Hne]; [by rewrite lookup_insert_eq, Hf|]. rewrite lookup_insert_ne by done. destruct (lk_locks s !! y) as [h|] eqn:Hh; [|done]. cbn.
    rewrite rem_notin by (by eapply Hout). by rewrite set_wait_self.
Qed.

Lemma woken_refl s : waits_ok s → woken s s.
Proof. intros W. split; (done || apply kept_refl || apply edges_refl). Qed.

Lemma woken_log s l : waits_ok s → woken s (set_lk_log l s).
Proof. intros W. split; try done; [apply (waits_same s); [by split|done]| |apply (edges_refl [] s)]. split. intros y f _ Hf. exists (fl_next f), (fl_block f). by rewrite set_wait_self. Qed.

Lemma notify_run s w g : waits_ok s → lk_locks s !! w = Some g → ∃ s', locks_notify_blocked w s = Some (tt, s') ∧ woken s s' ∧ lk_locks s' = lk_locks s.
Proof.
  intros W Hw. unfold locks_notify_blocked. assert (gl w s = Some (g, s)) as Hg by (unfold gl; by rewrite Hw). erewrite es_bind by exact Hg.
  eexists. split; [done|]. split; [by apply woken_log|done].
Qed.

Lemma wake_loop_run fuel s b f : waits_ok s → lk_locks s !! b = Some f → (length (fl_block f) < fuel)%nat →
  ∃ s', wake_loop fuel b s = Some (tt, s') ∧ woken s s' ∧ ∃ nx, lk_locks s' !! b = Some (set_fl_wait nx [] f).
Proof.
  revert s f. induction fuel as [|fuel IH]; intros s f W Hb Hf; [lia|]. cbn [wake_loop]. assert (gl b s = Some (f, s)) as Hg by (unfold gl; by rewrite Hb). erewrite es_bind by exact Hg.
  destruct (fl_block f) as [|w q] eqn:Hq.
  { exists s. split; [done|]. split; [by apply woken_refl|]. exists (fl_next f). by rewrite <-Hq, set_wait_self. }
  destruct (wt_queue _ W b f w Hb) as (g & Hw & _); [rewrite Hq; by left|]. destruct (delete_block_run s w g W Hw) as (s1 & H1 & W1 & Hw1 & Hy). erewrite es_bind by exact H1.
  destruct (notify_run s1 w _ (wk_ok _ _ W1) Hw1) as (s2 & H2 & W2 & L2). erewrite es_bind by exact H2.
  destruct (IH s2 (unwait w b f) (wk_ok _ _ W2)) as (s' & H3 & W3 & nx & Hnx); [by rewrite L2, Hy, Hb| |].
  - cbn. rewrite Hq. unfold rem. rewrite filter_cons_False by naive_solver. pose proof (length_filter (λ y, y ≠ w) q) as Hle. cbn in Hf. lia.
  - exists s'. split; [exact H3|]. split; [by eapply woken_trans; [eapply woken_trans|]|]. by exists nx.
Qed.

Lemma wake_up_run s b f : waits_ok s → lk_locks s !! b = Some f → ∃ s', locks_wake_up_blocks b s = Some (tt, s') ∧ woken s s' ∧ ∃ nx, lk_locks s' !! b = Some (set_fl_wait nx [] f).
Proof.
  intros W Hb. unfold locks_wake_up_blocks. assert (gl b s = Some (f, s)) as Hg by (unfold gl; by rewrite Hb). erewrite es_bind by exact Hg. apply wake_loop_run; (done || lia).
Qed.

Lemma woken_lists s s' : woken s s' → lists_ok s → lists_ok s'.
Proof.
  intros [_ K _ _ Hi Hl _]. apply lists_kept; [done..|]. intros i x f _ Hx. exists f. eapply kept_has; [exact K|apply not_elem_of_nil|exact Hx].
Qed.

Lemma woken_ok s s' : woken s s' → lk_ok s → lk_ok s'.
Proof. intros Wk [W L]. split; [apply Wk|by eapply woken_lists]. Qed.

Lemma woken_flock s s' i : woken s s' → i_flock i s' = i_flock i s.
Proof. intros Wk. unfold i_flock. by rewrite (wk_inodes _ _ Wk). Qed.

Lemma woken_listed s s' i D : woken s s' → at_inode s i D → at_inode s' i D.
Proof.
  intros Wk [H1 H2]. split; [by rewrite (woken_flock _ _ _ Wk)|]. intros x f Hx. eapply kept_has; [apply Wk|apply not_elem_of_nil|by apply H2].
Qed.

(** ** Steps on the list of one inode *)

Record moves_on (i : Z) (xs : list Z) (s s' : lk) : Prop := {
  st_ok : lk_ok s';
  st_kept : kept xs s s';
  st_edges : edges [] s s';
  st_other j : j ≠ i → i_flock j s' = i_flock j s;
  st_members y : y ∈ i_flock i s' → y ∈ i_flock i s ∨ y ∈ xs
}.

Lemma step_refl i xs s : lk_ok s → moves_on i xs s s.
Proof. intros H. split; [done|apply kept_refl|apply edges_refl|done|by left]. Qed.

Lemma step_trans i xs s1 s2 s3 : moves_on i xs s1 s2 → moves_on i xs s2 s3 → moves_on i xs s1 s3.
Proof. intros [A1 A2 Ae A3 A4] [B1 B2 Be B3 B4]. split; [done|by eapply kept_trans|by eapply edges_trans| |]; [intros j Hj; by rewrite B3, A3|]. intros y [Hy|Hy]%B4; [by apply A4|by right]. Qed.

Lemma step_mono i xs ys s s' : (∀ x, x ∈ xs → x ∈ ys) → moves_on i xs s s' → moves_on i ys s s'.
Proof. intros Hs [A B E C M]. split; [done|by eapply kept_mono|done|done|]. intros y [Hy|Hy]%M; [by left|right; by apply Hs]. Qed.

Lemma step_same i xs s s' : lk_ok s' → kept xs s s' → edges [] s s' → lk_inodes s' = lk_inodes s → moves_on i xs s s'.
Proof. intros Ok K E Hi. assert (∀ j, i_flock j s' = i_flock j s) as He by (intros j; unfold i_flock; by rewrite Hi). split; [done|done|done|done|]. intros y. rewrite He. by left. Qed.

Lemma idle_step i xs s s' y f : moves_on i xs s s' → y ∉ xs → idle s y f → idle s' y f.
Proof.
  intros [A B E C M] Hy Hi. eapply kept_idle; [exact B|done| |done]. intros j Hj. destruct (decide (j = i)) as [->|Hji].
  - destruct (M y Hj) as [Hm|?]; [by apply (proj2 Hi i)|done].
  - rewrite C in Hj by done. by apply (proj2 Hi j).
Qed.

Lemma woken_step i xs s s' : lk_ok s → woken s s' → moves_on i xs s s'.
Proof.
  intros Ok Wk. apply step_same; [by eapply woken_ok| |apply Wk..]. eapply kept_mono; [|apply Wk]. intros x Hx. by apply elem_of_nil in Hx.
Qed.

Lemma not_waiting s x b f : waits_ok s → lk_locks s !! x = Some (set_fl_wait 0 b f) → x ∉ blocked_list s.
Proof. intros W Hx Hb. apply (wt_blocked _ W) in Hb as (g & Hg & Hn). rewrite Hx in Hg. injection Hg as <-. done. Qed.

(** A structure that is freed. *)
Lemma free_run cur s x f : lk_ok s → x ≠ 0 → idle s x f →
  ∃ s', locks_free_lock cur x s = Some (tt, s') ∧ lk_ok s' ∧ kept [x] s s' ∧ lk_inodes s' = lk_inodes s ∧ lk_locks s' !! x = None ∧
    file_lock_list s' = file_lock_list s ∧ blocked_list s' = blocked_list s ∧ edges [] s s'.
Proof.
  intros [W L] H0 [Hx Hi]. unfold locks_free_lock. destruct (Z.eqb_spec x 0); [done|]. erewrite es_bind by done. erewrite es_bind by (unfold gl; cbn; by rewrite Hx).
  unfold list_empty. cbn [fl_next fl_block set_fl_wait]. rewrite bool_decide_eq_true_2 by done. cbn [andb negb Z.eqb].
  assert (x ∉ file_lock_list s) as Hf by (intros Hin; destruct (li_links _ L x Hin) as [i Hix]; by apply (Hi i)). pose proof (not_waiting _ _ _ _ W Hx) as Hb.
  erewrite es_bind by done. cbn [file_lock_list blocked_list set_task_locks]. rewrite bool_decide_eq_false_2 by (rewrite elem_of_app; tauto).
  eexists. split; [done|]. assert (∀ s1, lk_locks s1 = delete x (lk_locks s) → kept [x] s s1) as K.
  { intros s1 H1. split. intros y h Hy Hh. exists (fl_next h), (fl_block h). rewrite set_wait_self. split; [|done]. rewrite H1, lookup_delete_ne; [done|]. intros ->. by apply Hy; left. }
  split_and!; [|by apply K|done|cbn; apply lookup_delete_eq|done|done|].
  - split; [destruct W as [W0 W1 W2 W3 W4]; split; cbn|].
    + destruct (decide (x = 0)) as [->|]; [done|by rewrite lookup_delete_ne].
    + intros b h w [Hbx Hbh]%lookup_delete_Some Hw. destruct (W1 b h w Hbh Hw) as (g & Hg & Hn). exists g. split; [|done]. apply lookup_delete_Some. split; [|done].
      intros ->. rewrite Hx in Hg. injection Hg as <-. cbn in Hn. rewrite <-Hn in Hbh. by rewrite W0 in Hbh.
    + intros b h [_ Hbh]%lookup_delete_Some. by apply (W2 b).
    + intros w g [Hwx Hg]%lookup_delete_Some Hn. destruct (W3 w g Hg Hn) as (h & Hh & Hin). exists h. split; [|done]. apply lookup_delete_Some. split; [|done].
      intros Heq. rewrite <-Heq, Hx in Hh. injection Hh as <-. by apply elem_of_nil in Hin.
    + intros w. rewrite W4. split; [intros (g & Hg & Hn)|intros (g & [_ Hg]%lookup_delete_Some & Hn); by exists g]. exists g. split; [|done]. apply lookup_delete_Some.
      split; [|done]. intros ->. rewrite Hx in Hg. injection Hg as <-. by cbn in Hn.
    + apply (lists_kept s); try done. intros i y h Hy Hh. exists h. eapply (kept_has [x]); [by apply K| |exact Hh]. intros ->%list_elem_of_singleton. by apply (Hi i).
  - intros w g. cbn. intros [_ Hg]%lookup_delete_Some Hn. exists g. split_and!; try done. intros _. split; [|done]. intros b. cbn. intros [_ Hb']%lookup_delete_Some. exists b. split; [done|apply covers_refl].
Qed.

Lemma listed_pos s i A x f B : at_inode s i (A ++ (x, f) :: B) → at_pos i (length A) s = Some (x, s) ∧ i_flock i s = A.*1 ++ x :: B.*1.
Proof.
  intros [Hl _]. unfold at_pos, getl. rewrite Hl, fmap_app. cbn. split; [|done]. f_equal. f_equal. rewrite app_nth2 by (rewrite length_fmap; lia). by rewrite length_fmap, Nat.sub_diag.
Qed.

Lemma listed_end s i A : at_inode s i A → at_pos i (length A) s = Some (0, s).
Proof. intros [Hl _]. unfold at_pos, getl. rewrite Hl. by rewrite nth_overflow by by rewrite length_fmap. Qed.

Lemma cut_list (A B : list Z) x : take (length A) (A ++ x :: B) ++ drop (S (length A)) (A ++ x :: B) = A ++ B.
Proof. rewrite take_app_length. f_equal. rewrite (cons_middle x A B), app_assoc. apply drop_app_length'. rewrite length_app. cbn. lia. Qed.

Lemma set_flock_other i j l s : j ≠ i → i_flock j (set_i_flock i l s) = i_flock j s.
Proof. intros Hj. unfold i_flock. cbn. by rewrite lookup_insert_ne. Qed.

Lemma set_flock_same i l s : i_flock i (set_i_flock i l s) = l.
Proof. unfold i_flock. cbn. by rewrite lookup_insert_eq. Qed.

(** [_unhash_lock] *)
Lemma unhash_run s i A x f B : lk_ok s → at_inode s i (A ++ (x, f) :: B) → ∃ s', _unhash_lock i (length A) s = Some (tt, s') ∧ lk_ok s' ∧
  at_inode s' i (A ++ B) ∧ has s' x f ∧ (∀ j, x ∉ i_flock j s') ∧ (∀ j, j ≠ i → i_flock j s' = i_flock j s) ∧ lk_locks s' = lk_locks s.
Proof.
  intros [W L] Hl. destruct (listed_pos _ _ _ _ _ _ Hl) as [Hp Hd]. unfold _unhash_lock. erewrite es_bind by exact Hp. erewrite es_bind by done.
  set (s1 := set_i_flock i (take (length A) (i_flock i s) ++ drop (S (length A)) (i_flock i s)) s). set (s' := set_file_lock_list (rem x (file_lock_list s)) s1).
  exists s'. split; [done|]. pose proof (li_nodup _ L i) as Hnd. rewrite Hd in Hnd. apply NoDup_app in Hnd as (N1 & N2 & [N3 N4]%list.NoDup_cons).
  assert (i_flock i s' = A.*1 ++ B.*1) as Hnew.
  { change (i_flock i s') with (i_flock i s1). unfold s1. rewrite set_flock_same, Hd, <-(length_fmap fst A). apply cut_list. }
  assert (∀ j, j ≠ i → i_flock j s' = i_flock j s) as Hoth by (intros j Hj; change (i_flock j s') with (i_flock j s1); by apply set_flock_other).
  assert (∀ j, x ∉ i_flock j s') as Hout.
  { intros j Hj. destruct (decide (j = i)) as [->|Hji].
    - rewrite Hnew, elem_of_app in Hj. destruct Hj as [Hj|Hj]; [apply (N2 x Hj); by left|done].
    - rewrite Hoth in Hj by done. apply Hji. apply (li_one _ L j i x Hj). rewrite Hd. apply elem_of_app. right. by left. }
  assert (∀ j y, y ∈ i_flock j s' → y ∈ i_flock j s) as Hsub.
  { intros j y Hy. destruct (decide (j = i)) as [->|Hji]; [|by rewrite Hoth in Hy]. rewrite Hnew in Hy. rewrite Hd. rewrite elem_of_app in *. rewrite elem_of_cons. tauto. }
  split_and!; [split; [apply (waits_same s); [by split|done]|split]| | |done|done|done].
  - intros j. destruct (decide (j = i)) as [->|Hji]; [|rewrite Hoth by done; apply L]. rewrite Hnew. apply NoDup_app. split_and!; [done| |done].
    intros y Hy Hy'. apply (N2 y Hy). by right.
  - intros j y Hy. apply (li_held _ L j y). by apply Hsub.
  - intros j k y Hj Hk. by apply (li_one _ L j k y); apply Hsub.
  - intros y. change (file_lock_list s') with (rem x (file_lock_list s)). rewrite elem_of_rem. intros [Hyx Hy]. destruct (li_links _ L y Hy) as [j Hj]. exists j.
    destruct (decide (j = i)) as [->|Hji]; [|by rewrite Hoth]. rewrite Hnew. rewrite Hd in Hj. rewrite elem_of_app, elem_of_cons in Hj. rewrite elem_of_app. tauto.
  - split; [by rewrite fmap_app|]. intros y h Hy. apply (proj2 Hl). rewrite elem_of_app in *. rewrite elem_of_cons. tauto.
  - apply (proj2 Hl). apply elem_of_app. right. by left.
Qed.

Lemma unhash_edges s s1 i A x f B : at_inode s i (A ++ (x, f) :: B) → at_inode s1 i (A ++ B) → (∀ j, j ≠ i → i_flock j s1 = i_flock j s) → lk_locks s1 = lk_locks s → edges [x] s s1.
Proof.
  intros Hl Hl1 Ho Hk w g Hg Hn. rewrite Hk in Hg. exists g. split_and!; try done. intros Hx. split; [rewrite Hk; intros h Hh; exists h; split; [done|apply covers_refl]|].
  intros j. destruct (decide (j = i)) as [->|Hj]; [|by rewrite Ho]. rewrite (proj1 Hl), (proj1 Hl1), !fmap_app, !elem_of_app. cbn. rewrite elem_of_cons.
  intros [?|[Heq|?]]; [by left| |by right]. destruct Hx. rewrite Heq. by left.
Qed.

(** [locks_delete_lock] *)
Lemma delete_lock_run cur s i A x f B : lk_ok s → at_inode s i (A ++ (x, f) :: B) → ∃ s', locks_delete_lock cur i (length A) s = Some (tt, s') ∧
  moves_on i [x] s s' ∧ at_inode s' i (A ++ B) ∧ lk_locks s' !! x = None.
Proof.
  intros Ok Hl. destruct (listed_pos _ _ _ _ _ _ Hl) as [Hp _]. unfold locks_delete_lock. erewrite es_bind by exact Hp.
  destruct (unhash_run s i A x f B Ok Hl) as (s1 & H1 & Ok1 & Hl1 & Hx1 & Hout & Hoth & Hlk). erewrite es_bind by exact H1. unfold _delete_lock.
  assert (∃ s2, remove_hook x s1 = Some (tt, s2) ∧ woken s1 s2 ∧ lk_locks s2 = lk_locks s1) as (s2 & H2 & W2 & L2).
  { destruct (gl_has s1 x f Hx1) as [b Hb]. unfold remove_hook. erewrite es_bind by exact Hb. pose proof (ok_waits _ Ok1).
    destruct (negb _); eexists; (split; [done|]); (split; [|done]); [by apply woken_log|by apply woken_refl]. }
  erewrite es_bind by exact H2. destruct Hx1 as [b Hb]. rewrite <-L2 in Hb. destruct (wake_up_run s2 x _ (wk_ok _ _ W2) Hb) as (s3 & H3 & W3 & nx & Hnx). erewrite es_bind by exact H3.
  pose proof (woken_trans _ _ _ W2 W3) as W23. destruct (kp_locks _ _ _ (wk_kept _ _ W3) x _ (not_elem_of_nil x) Hb) as (nx' & b' & Hx3 & N3 & _). rewrite (N3 eq_refl) in Hx3.
  rewrite Hnx in Hx3. assert (lk_locks s3 !! x = Some (set_fl_wait 0 [] f)) as Hx by (rewrite Hnx; assert (nx = 0) as -> by (by injection Hx3); done).
  assert (∀ j, x ∉ i_flock j s3) as Hout3 by (intros j; by rewrite (woken_flock _ _ _ W23)). pose proof (woken_ok _ _ W23 Ok1) as Ok3.
  assert (x ≠ 0) as H0 by (intros ->; by rewrite (wt_null _ (ok_waits _ Ok3)) in Hx).
  destruct (free_run cur s3 x f Ok3 H0 (conj Hx Hout3)) as (s4 & H4 & Ok4 & K4 & I4 & D4 & _ & _ & E4). exists s4. split; [exact H4|].
  assert (kept [x] s s4) as K.
  { eapply kept_trans; [|exact K4]. eapply kept_trans; [|eapply kept_mono; [|apply W23]]; [|intros y Hy; by apply elem_of_nil in Hy].
    split. intros y h _ Hh. exists (fl_next h), (fl_block h). by rewrite set_wait_self, Hlk. }
  assert (edges [] s s4) as E.
  { apply (edges_drop [x]); [apply Ok4|intros y ->%list_elem_of_singleton g Hg; congruence|]. eapply edges_trans; [|eapply edges_mono; [|exact E4]; intros ? ?%elem_of_nil; done].
    eapply edges_trans; [|eapply edges_mono; [|apply W23]; intros ? ?%elem_of_nil; done]. by eapply (unhash_edges s s1 i A x f B). }
  split_and!; [split; [done|done|done|..]| |done].
  - intros j Hj. rewrite <-Hoth by done. unfold i_flock. by rewrite I4, (wk_inodes _ _ W23).
  - intros y Hy. left. unfold i_flock in Hy at 1. rewrite I4, (wk_inodes _ _ W23) in Hy. change (y ∈ i_flock i s1) in Hy. rewrite (proj1 Hl1) in Hy. rewrite (proj1 Hl).
    rewrite !fmap_app in *. cbn. rewrite elem_of_app in *. rewrite elem_of_cons. tauto.
  - destruct (woken_listed _ _ _ _ W23 Hl1) as [Hd Hh]. split; [unfold i_flock in *; by rewrite I4|]. intros y h Hy. eapply kept_has; [exact K4| |by apply Hh].
    intros ->%list_elem_of_singleton. apply (Hout3 i). rewrite Hd. apply list_elem_of_fmap. by exists (x, h).
Qed.

Lemma in_list s i D x : at_inode s i D → x ∈ i_flock i s → ∃ f, (x, f) ∈ D.
Proof. intros [Hl _]. rewrite Hl, list_elem_of_fmap. intros ([y f] & -> & Hy). by exists f. Qed.

Lemma listed_nodup s i D : lk_ok s → at_inode s i D → NoDup D.*1.
Proof. intros [_ L] [<- _]. apply L. Qed.

(** A member gets another value. *)
Lemma change_raw s i A x f f' B g : lk_ok s → at_inode s i (A ++ (x, f) :: B) → (∀ b, g (set_fl_wait 0 b f) = set_fl_wait 0 b f') →
  ∃ s', wl x g s = Some (tt, s') ∧ lk_ok s' ∧ kept [x] s s' ∧ edges [x] s s' ∧ at_inode s' i (A ++ (x, f') :: B) ∧ lk_inodes s' = lk_inodes s ∧ (unwaited s x → unwaited s' x).
Proof.
  intros Ok Hl Hg. pose proof (listed_nodup _ _ _ Ok Hl) as Hnd. destruct (wl_run s x f f' g Ok) as (s' & Hrun & Ok' & Hx & K & Hi & Hf & _ & E & U); [|done|].
  { apply (proj2 Hl). apply elem_of_app. right. by left. }
  exists s'. split_and!; [done|done|done|done| |done|done]. destruct Hl as [Hd Hh]. split; [unfold i_flock in *; rewrite Hi, Hd; by rewrite !fmap_app|].
  rewrite fmap_app in Hnd. apply NoDup_app in Hnd as (_ & N1 & [N2 _]%list.NoDup_cons). intros y h Hy.
  assert (y = x ∧ h = f' ∨ y ≠ x ∧ (y, h) ∈ A ++ (x, f) :: B) as [[-> ->]|[Hne Hin]]; [|done|eapply kept_has; [exact K|set_solver|by apply Hh]].
  rewrite elem_of_app, elem_of_cons in *. destruct Hy as [Hy|[[= -> ->]|Hy]]; [right|by left|right].
  - split; [|by left]. intros ->. apply (N1 x); [apply list_elem_of_fmap; by exists (x, h)|by left].
  - split; [|by right; right]. intros ->. apply N2. apply list_elem_of_fmap. by exists (x, h).
Qed.

(** It only grows, or nobody waits for it. *)
Lemma change_run s i A x f f' B g : lk_ok s → at_inode s i (A ++ (x, f) :: B) → (∀ b, g (set_fl_wait 0 b f) = set_fl_wait 0 b f') → covers f' f ∨ unwaited s x →
  ∃ s', wl x g s = Some (tt, s') ∧ moves_on i [x] s s' ∧ at_inode s' i (A ++ (x, f') :: B) ∧ lk_inodes s' = lk_inodes s.
Proof.
  intros Ok Hl Hg Hc. destruct (change_raw s i A x f f' B g Ok Hl Hg) as (s' & H1 & Ok' & K & E & Hl' & I & U). exists s'. split_and!; try done; [|apply Hl'..].
  apply step_same; try done. destruct Hc as [Hc|Hu].
  - intros w h Hw Hn. destruct (E w h Hw Hn) as (h0 & E1 & E2 & E3 & E4). exists h0. split_and!; try done. intros _. destruct (decide (fl_next h = x)) as [->|Hne].
    + split; [|intros j; unfold i_flock; by rewrite I]. intros g' Hg'. destruct (proj2 Hl x f) as [b Hb]; [apply elem_of_app; right; left|].
      destruct (proj2 Hl' x f') as [b' Hb']; [apply elem_of_app; right; left|]. exists (set_fl_wait 0 b f). split; [done|]. rewrite Hb' in Hg'. injection Hg' as <-. destruct Hc. by split.
    + apply E4. by intros Hx%list_elem_of_singleton.
  - apply (edges_drop [x]); [apply Ok'| |done]. intros y ->%list_elem_of_singleton. by apply U.
Qed.

(** A structure that is filled in from another and gets a place in the list. *)
Lemma put_lock_run s i A B n v x f f' : lk_ok s → at_inode s i (A ++ B) → idle s n v → has s x f →
  f' = mk_file_lock (fl_next v) (fl_block v) (fl_owner f) (fl_pid f) (fl_file f) (fl_flags f) (fl_type f) (fl_start f) (fl_end f)
    (fl_notify f) (fl_insert f) (fl_remove f) (fl_break_time v) →
  ∃ s', (∀ C (K : LK C), (locks_copy_lock n x;; locks_insert_lock i (length A) n;; K) s = K s') ∧ moves_on i [n] s s' ∧ at_inode s' i (A ++ (n, f') :: B).
Proof.
  intros Ok Hl Hn Hx Hf'. unfold locks_copy_lock. destruct (gl_has s x f Hx) as [b Hb].
  destruct (wl_run s n v f' (λ n, mk_file_lock (fl_next n) (fl_block n) (fl_owner f) (fl_pid f) (fl_file f) (fl_flags f) (fl_type f) (fl_start f) (fl_end f)
    (fl_notify f) (fl_insert f) (fl_remove f) (fl_break_time n)) Ok (idle_has _ _ _ Hn)) as (s1 & H1 & Ok1 & Hn1 & K1 & I1 & L1 & Hid & E1 & U1); [by subst f'|].
  destruct (Hid Hn) as [Hn2 Hout]. assert (∀ j, i_flock j s1 = i_flock j s) as Hfl by (intros j; unfold i_flock; by rewrite I1).
  set (s2 := set_i_flock i (take (length A) (i_flock i s1) ++ n :: drop (length A) (i_flock i s1)) (set_file_lock_list (n :: file_lock_list s1) s1)).
  assert (i_flock i s2 = A.*1 ++ n :: B.*1) as Hnew.
  { unfold s2. rewrite set_flock_same, Hfl, (proj1 Hl), fmap_app, <-(length_fmap fst A), take_app_length, drop_app_length. done. }
  assert (∀ j, j ≠ i → i_flock j s2 = i_flock j s) as Hoth by (intros j Hj; unfold s2; by rewrite set_flock_other, <-Hfl).
  assert (∀ j y, y ∈ i_flock j s2 ↔ (j = i ∧ y = n) ∨ y ∈ i_flock j s1) as Hmem.
  { intros j y. rewrite Hfl. destruct (decide (j = i)) as [->|Hj]; [|rewrite Hoth by done; naive_solver]. rewrite Hnew, (proj1 Hl), fmap_app, !elem_of_app, elem_of_cons. tauto. }
  assert (lk_ok s2) as Ok2.
  { destruct Ok1 as [W [G1 G2 G3 G4]]. split; [apply (waits_same s1); [by split|done]|]. split.
    - intros j. destruct (decide (j = i)) as [->|Hj]; [|rewrite Hoth, <-Hfl by done; apply G1]. rewrite Hnew. specialize (G1 i). rewrite Hfl, (proj1 Hl), fmap_app in G1.
      assert (n ∉ A.*1 ++ B.*1) as Hni by (rewrite <-fmap_app, <-(proj1 Hl), <-Hfl; apply Hout). rewrite not_elem_of_app in Hni. apply NoDup_app in G1 as (N1 & N2 & N3).
      apply NoDup_app. split_and!; [done| |apply list.NoDup_cons; by split; [apply Hni|]]. intros y Hy. rewrite elem_of_cons. intros [->|?]; [tauto|by apply (N2 y)].
    - intros j y [[-> ->]|Hy]%Hmem; [by exists f'|by apply (G2 j)].
    - intros j k y [[-> ->]|Hj]%Hmem [[-> ?]|Hk]%Hmem; try done; [by apply Hout in Hk|subst y; by apply Hout in Hj|by eapply G3].
    - intros y. change (file_lock_list s2) with (n :: file_lock_list s1). intros [->|Hy]%elem_of_cons; [exists i; apply Hmem; by left|]. destruct (G4 y Hy) as [j Hj]. exists j. apply Hmem. by right. }
  assert (gl n s2 = Some (set_fl_wait 0 [] f', s2)) as Hg by (unfold gl; change (lk_locks s2) with (lk_locks s1); by rewrite Hn2).
  assert (∃ s3, (if negb (fl_insert f' =? 0) then emitl (EvInsert n) else mret tt) s2 = Some (tt, s3) ∧ woken s2 s3) as (s3 & H3 & W3).
  { pose proof (ok_waits _ Ok2). destruct (negb _); eexists; (split; [done|]); [by apply woken_log|by apply woken_refl]. }
  exists s3. split_and!.
  - intros C K. erewrite es_bind by (erewrite es_bind by exact Hb; exact H1). erewrite es_bind; [done|]. unfold locks_insert_lock. do 2 erewrite es_bind by done.
    fold s2. erewrite es_bind by exact Hg. exact H3.
  - eapply step_trans; [|by apply woken_step]. split; [done|destruct K1 as [K1]; split; exact K1| |done|].
    { apply (edges_drop [n]); [apply Ok2| |].
      - intros y ->%list_elem_of_singleton. apply U1. intros g Hg'. destruct Hn as [Hn _]. rewrite Hn in Hg'. by injection Hg' as <-.
      - intros w h Hw Hwn. destruct (E1 w h Hw Hwn) as (h0 & E2 & E3 & E4 & E5). exists h0. split_and!; try done. intros Hni. destruct (E5 Hni) as [E6 E7].
        split; [exact E6|]. intros j Hj. apply Hmem. right. by apply E7. }
    intros y [[_ ->]|Hy]%Hmem; [right; by left|left; by rewrite <-Hfl].
  - apply (woken_listed _ _ _ _ W3). split; [by rewrite fmap_app|]. intros y h Hy. change (has s2 y h) with (has s1 y h).
    rewrite elem_of_app, elem_of_cons in Hy. assert ((y, h) = (n, f') ∨ (y, h) ∈ A ++ B) as [[= -> ->]|Hin] by (rewrite elem_of_app; tauto); [done|].
    eapply kept_has; [exact K1| |by apply (proj2 Hl)]. intros ->%list_elem_of_singleton. apply (Hout i). rewrite Hfl, (proj1 Hl). apply list_elem_of_fmap. by exists (n, h).
Qed.

(** Ranges of bytes with a type of lock: what setting a range does to a sorted
    list of them, and to the bytes. *)

Record seg := mk_seg { sg_type : Z; sg_start : Z; sg_end : Z }.

Definition seg_of (f : file_lock) : seg := mk_seg (fl_type f) (fl_start f) (fl_end f).

Definition within (lo hi b : Z) : bool := (lo <=? b) && (b <=? hi).

Lemma within_spec lo hi b : BoolSpec (lo <= b <= hi) (¬ (lo <= b <= hi)) (within lo hi b).
Proof. unfold within. destruct (Z.leb_spec lo b), (Z.leb_spec b hi); constructor; lia. Qed.

(** The type of lock a byte has. *)
Fixpoint at_byte (R : list seg) (b : Z) : option Z :=
  match R with
  | [] => None
  | g :: R => if within (sg_start g) (sg_end g) b then Some (sg_type g) else at_byte R b
  end.

(** In order from [lo] on, disjoint, not empty, and none that continues the one
    before; [pt] is the type of what ends just below [lo]. *)
Fixpoint sorted (lo : Z) (pt : option Z) (R : list seg) : Prop :=
  match R with
  | [] => True
  | g :: R => lo <= sg_start g ∧ (sg_start g = lo → pt ≠ Some (sg_type g)) ∧ sg_start g <= sg_end g <= OFFSET_MAX ∧
      sorted (sg_end g + 1) (Some (sg_type g)) R
  end.

Lemma sorted_below lo pt R b : sorted lo pt R → b < lo → at_byte R b = None.
Proof.
  revert lo pt. induction R as [|g R IH]; intros lo pt Hs Hb; [done|]. destruct Hs as (H1 & _ & H2 & Hs). cbn. destruct (within_spec (sg_start g) (sg_end g) b); [lia|].
  eapply IH; [exact Hs|lia].
Qed.

Lemma sorted_weaken lo pt lo' pt' R : sorted lo pt R → lo' <= lo → (lo' = lo → pt' = pt) → sorted lo' pt' R.
Proof.
  destruct R as [|g R]; [done|]. intros (H1 & H2 & H3 & Hs) Hle Hpt. split_and!; try done; try lia. intros Heq. rewrite Hpt by lia. apply H2. lia.
Qed.

Lemma sorted_elem lo pt R g : sorted lo pt R → g ∈ R → lo <= sg_start g ∧ sg_start g <= sg_end g <= OFFSET_MAX.
Proof.
  revert lo pt. induction R as [|h R IH]; intros lo pt Hs; [by intros ?%elem_of_nil|]. destruct Hs as (H1 & _ & H2 & Hs). intros [->|Hin]%elem_of_cons; [done|].
  destruct (IH _ _ Hs Hin). lia.
Qed.

(** * Setting a range *)

(** From the range on: what it covers goes, what continues it joins it. *)
Fixpoint take_in (t s e : Z) (R : list seg) : list seg :=
  match R with
  | [] => [mk_seg t s e]
  | g :: R' =>
      if t =? sg_type g then if sg_start g >? e + 1 then mk_seg t s e :: R else take_in t s (Z.max e (sg_end g)) R'
      else if sg_start g >? e then mk_seg t s e :: R
      else if sg_end g >? e then mk_seg t s e :: mk_seg (sg_type g) (e + 1) (sg_end g) :: R'
      else take_in t s e R'
  end.

(** Past what is before the range. *)
Fixpoint put_range (t s e : Z) (R : list seg) : list seg :=
  match R with
  | [] => [mk_seg t s e]
  | g :: R' =>
      if t =? sg_type g then
        if sg_end g <? s - 1 then g :: put_range t s e R'
        else if sg_start g >? e + 1 then mk_seg t s e :: R
        else take_in t (Z.min s (sg_start g)) (Z.max e (sg_end g)) R'
      else if sg_end g <? s then g :: put_range t s e R'
      else if sg_start g <? s then mk_seg (sg_type g) (sg_start g) (s - 1) :: take_in t s e (if sg_end g >? e then mk_seg (sg_type g) (e + 1) (sg_end g) :: R' else R')
      else take_in t s e R
  end.

(** Without the range. *)
Fixpoint clear (s e : Z) (R : list seg) : list seg :=
  match R with
  | [] => []
  | g :: R' =>
      if sg_end g <? s then g :: clear s e R'
      else if sg_start g >? e then R
      else (if sg_start g <? s then [mk_seg (sg_type g) (sg_start g) (s - 1)] else []) ++
        (if sg_end g >? e then mk_seg (sg_type g) (e + 1) (sg_end g) :: R' else clear s e R')
  end.

Definition set_range (t s e : Z) (R : list seg) : list seg := if t =? F_UNLCK then clear s e R else put_range t s e R.

Ltac bytes :=
  repeat match goal with
  | |- context [within ?p ?q ?b] => destruct (within_spec p q b)
  | H : context [within ?p ?q ?b] |- _ => destruct (within_spec p q b)
  end.

Lemma absorb_ok t R : ∀ lo pt s e lo0 pt0, sorted lo pt R → s <= lo → s <= e <= OFFSET_MAX → lo0 <= s → (s = lo0 → pt0 ≠ Some t) →
  sorted lo0 pt0 (take_in t s e R) ∧ ∀ b, at_byte (take_in t s e R) b = if within s e b then Some t else at_byte R b.
Proof.
  induction R as [|g R IH]; intros lo pt s e lo0 pt0 Hs Hlo He H0 Hpt; [by split_and!|]. cbn [take_in]. pose proof Hs as (H1 & H2 & H3 & H4).
  destruct (Z.eqb_spec t (sg_type g)) as [Ht|Ht].
  - destruct (Z.gtb_spec (sg_start g) (e + 1)) as [Hg|Hg]; [by split_and!; cbn; try done; try lia; split_and!; (done || lia)|].
    destruct (IH (sg_end g + 1) (Some (sg_type g)) s (Z.max e (sg_end g)) lo0 pt0 H4) as [A B]; [lia..|done|]. split; [done|]. intros b. rewrite B. cbn. rewrite <-Ht. bytes; (done || lia).
  - destruct (Z.gtb_spec (sg_start g) e) as [Hg|Hg]; [split; [|done]; split_and!; cbn; try done; try lia; split_and!; try done; try lia; intros _ [=]; congruence|].
    destruct (Z.gtb_spec (sg_end g) e) as [Hg'|Hg'].
    + split; [split_and!; cbn; try done; try lia; split_and!; try done; try lia; intros _ [=]; congruence|]. intros b. cbn. bytes; (done || lia).
    + destruct (IH (sg_end g + 1) (Some (sg_type g)) s e lo0 pt0 H4) as [A B]; [lia..|done|]. split; [done|]. intros b. rewrite B. cbn. bytes; (done || lia).
Qed.

Lemma sorted_cons lo pt t s e R : lo <= s → (s = lo → pt ≠ Some t) → s <= e <= OFFSET_MAX → sorted (e + 1) (Some t) R → sorted lo pt (mk_seg t s e :: R).
Proof. intros. do 3 (split; [done|]). done. Qed.

Lemma put_range_ok t s e R : ∀ lo pt, sorted lo pt R → lo <= s → (s = lo → pt ≠ Some t) → s <= e <= OFFSET_MAX →
  sorted lo pt (put_range t s e R) ∧ ∀ b, at_byte (put_range t s e R) b = if within s e b then Some t else at_byte R b.
Proof.
  induction R as [|g R IH]; intros lo pt Hs Hlo Hpt He; [by split_and!|]. cbn [put_range]. pose proof Hs as (H1 & H2 & H3 & H4).
  destruct (Z.eqb_spec t (sg_type g)) as [Ht|Ht].
  - destruct (Z.ltb_spec (sg_end g) (s - 1)) as [Hg|Hg].
    { destruct (IH (sg_end g + 1) (Some (sg_type g)) H4) as [A B]; [lia..|done|]. split; [by do 3 (split; [done|])|]. intros b. cbn. rewrite B. bytes; (done || lia). }
    destruct (Z.gtb_spec (sg_start g) (e + 1)) as [Hg'|Hg'].
    { split; [|done]. apply sorted_cons; try done; try lia. split_and!; try done; lia. }
    destruct (absorb_ok t R (sg_end g + 1) (Some (sg_type g)) (Z.min s (sg_start g)) (Z.max e (sg_end g)) lo pt H4) as [A B]; [lia..| |].
    { intros Hm. destruct (Z.min_spec s (sg_start g)) as [[_ Hm']|[_ Hm']]; [apply Hpt; lia|rewrite Ht; apply H2; lia]. }
    split; [done|]. intros b. rewrite B. cbn. rewrite <-Ht. bytes; (done || lia).
  - destruct (Z.ltb_spec (sg_end g) s) as [Hg|Hg].
    { destruct (IH (sg_end g + 1) (Some (sg_type g)) H4) as [A B]; [lia|intros _ [=]; congruence|done|]. split; [by do 3 (split; [done|])|]. intros b. cbn. rewrite B. bytes; (done || lia). }
    destruct (Z.ltb_spec (sg_start g) s) as [Hl|Hl].
    + set (R' := if sg_end g >? e then mk_seg (sg_type g) (e + 1) (sg_end g) :: R else R).
      assert (sorted s None R') as Hs'.
      { unfold R'. destruct (Z.gtb_spec (sg_end g) e); [apply sorted_cons; (done || lia)|]. eapply sorted_weaken; [exact H4|lia|lia]. }
      destruct (absorb_ok t R' s None s e s (Some (sg_type g)) Hs') as [A B]; [lia..|intros _ [=]; congruence|]. split.
      * apply sorted_cons; try done; try lia. by replace (s - 1 + 1) with s by lia.
      * intros b. cbn. rewrite B. unfold R'. destruct (Z.gtb_spec (sg_end g) e); cbn; bytes; (done || lia).
    + apply (absorb_ok t (g :: R) s None s e lo pt); try done; try lia.
Qed.

Lemma clear_ok s e R : ∀ lo pt, sorted lo pt R → s <= e →
  sorted lo pt (clear s e R) ∧ ∀ b, at_byte (clear s e R) b = if within s e b then None else at_byte R b.
Proof.
  induction R as [|g R IH]; intros lo pt Hs He; [split; [done|]; intros b; by destruct (within s e b)|]. cbn [clear]. pose proof Hs as (H1 & H2 & H3 & H4).
  destruct (Z.ltb_spec (sg_end g) s) as [Hg|Hg].
  { destruct (IH (sg_end g + 1) (Some (sg_type g)) H4 He) as [A B]. split; [by do 3 (split; [done|])|]. intros b. cbn. rewrite B. bytes; (done || lia). }
  destruct (Z.gtb_spec (sg_start g) e) as [Hg'|Hg'].
  { split; [done|]. intros b. destruct (within_spec s e b) as [Hb|]; [|done]. apply (sorted_below (sg_start g) None); [|lia]. by do 3 (split; [done|]). }
  destruct (IH (sg_end g + 1) (Some (sg_type g)) H4 He) as [A B].
  destruct (Z.ltb_spec (sg_start g) s), (Z.gtb_spec (sg_end g) e); cbn [app]; (split; [|intros b; pose proof (sorted_below _ _ _ b H4); cbn; rewrite ?B; bytes; first [done|lia|naive_solver lia]]).
  - apply sorted_cons; try done; try lia. apply sorted_cons; (done || lia).
  - apply sorted_cons; try done; try lia. eapply sorted_weaken; [exact A|lia|lia].
  - apply sorted_cons; (done || lia).
  - eapply sorted_weaken; [exact A|lia|lia].
Qed.

Lemma set_range_ok t s e R lo pt : sorted lo pt R → lo <= s → (s = lo → pt ≠ Some t) → s <= e <= OFFSET_MAX →
  sorted lo pt (set_range t s e R) ∧ ∀ b, at_byte (set_range t s e R) b = if within s e b then (if t =? F_UNLCK then None else Some t) else at_byte R b.
Proof. intros Hs Hlo Hpt He. unfold set_range. destruct (t =? F_UNLCK); [apply clear_ok; (done || lia)|by apply put_range_ok]. Qed.
