(* ===== verification/LocksApply.v ===== *)
(** The loop of [posix_lock_file] changes the locks of its owner as [set_range]
    says: each step, then the loop and what follows it. *)
From S2P Require Import Prelude Locks LocksOk.
From stdpp Require Import list options.
#[local] Set Default Proof Using "Type*".
Open Scope cint_scope.
Open Scope Z_scope.

Definition posix (f : file_lock) : Prop := fl_flags f & FL_POSIX = true.
Definition mine (k : Z * Z) (f : file_lock) : Prop := okey f = k ∧ posix f.
Definition segs (R : fdata) : list seg := (λ xf, seg_of xf.2) <$> R.

Lemma same_owner_spec c f : BoolSpec (okey f = okey c) (okey f ≠ okey c) (locks_same_owner c f).
Proof. unfold locks_same_owner, okey. destruct (Z.eqb_spec (fl_owner c) (fl_owner f)), (Z.eqb_spec (fl_pid c) (fl_pid f)); cbn; constructor; congruence. Qed.

Lemma loff_small z : - 2 ^ 63 <= z < 2 ^ 63 → s64 z = z.
Proof. intros Hz. unfold s64. rewrite Z.mod_small by lia. lia. Qed.

Section apply.
Context `{LockEnv} (cur : lk_task) (i : Z).

(** A lock loses an end, and those that wait for it are woken. *)
Lemma trim_run s A x f f' B g : lk_ok s → at_inode s i (A ++ (x, f) :: B) → (∀ b, g (set_fl_wait 0 b f) = set_fl_wait 0 b f') →
  ∃ s', (wl x g;; locks_wake_up_blocks x) s = Some (tt, s') ∧ (∀ C (K : LK C), (wl x g;; locks_wake_up_blocks x;; K) s = K s') ∧
    moves_on i [x] s s' ∧ at_inode s' i (A ++ (x, f') :: B) ∧ lk_inodes s' = lk_inodes s.
Proof using.
  intros Ok Hl Hg. destruct (change_raw s i A x f f' B g Ok Hl Hg) as (s1 & H1 & Ok1 & K1 & E1 & L1 & I1 & _). destruct (proj2 L1 x f') as [b Hb]; [apply elem_of_app; right; left|].
  destruct (wake_up_run s1 x _ (ok_waits _ Ok1) Hb) as (s2 & H2 & W2 & nx & Hx). exists s2. split_and!.
  - by erewrite es_bind by exact H1.
  - intros C K. erewrite es_bind by exact H1. by erewrite es_bind by exact H2.
  - apply step_same; [by eapply woken_ok| | |by rewrite (wk_inodes _ _ W2)].
    + eapply kept_trans; [exact K1|]. eapply kept_mono; [|apply W2]. by intros y ?%elem_of_nil.
    + apply (edges_drop [x]); [apply W2| |eapply edges_trans; [exact E1|eapply edges_mono; [|apply W2]; by intros y ?%elem_of_nil]].
      intros y ->%list_elem_of_singleton g' Hg'. rewrite Hx in Hg'. by injection Hg' as <-.
  - by eapply woken_listed.
  - by rewrite (wk_inodes _ _ W2).
Qed.

Lemma member_nonzero s A x f B : lk_ok s → at_inode s i (A ++ (x, f) :: B) → x ≠ 0.
Proof using. intros Ok Hl. eapply has_nonzero; [apply Ok|]. apply (proj2 Hl x f). apply elem_of_app. right. left. Qed.

(** The rest of a lock behind the range, and the rest before it. *)
Lemma right_run s A x f B e caller c : lk_ok s → at_inode s i (A ++ (x, f) :: B) → has s caller c → fl_end c = e → 0 <= e < OFFSET_MAX →
  ∃ s', (∀ C (K : LK C), (c ← gl caller; wl x (set_fl_start (s64 (fl_end c + 1)));; locks_wake_up_blocks x;; K) s = K s') ∧
    moves_on i [x] s s' ∧ at_inode s' i (A ++ (x, set_fl_start (e + 1) f) :: B) ∧ lk_inodes s' = lk_inodes s.
Proof using.
  intros Ok Hl Hc He Hm. destruct (gl_has s caller c Hc) as [b Hb].
  destruct (trim_run s A x f (set_fl_start (e + 1) f) B (set_fl_start (s64 (fl_end c + 1))) Ok Hl) as (s' & _ & Hrun & S').
  { intros b'. rewrite He, loff_small by (unfold OFFSET_MAX in *; lia). done. }
  exists s'. split; [|done]. intros C K. erewrite es_bind by exact Hb. apply Hrun.
Qed.

Definition cut_left (lft t : Z) (D D' : fdata) : Prop :=
  (lft = 0 ∧ D' = D) ∨ ∃ A f B, D = A ++ (lft, f) :: B ∧ D' = A ++ (lft, set_fl_end (t - 1) f) :: B.

Lemma left_run s D D' lft t caller c : lk_ok s → at_inode s i D → cut_left lft t D D' → has s caller c → fl_start c = t → 0 <= t <= OFFSET_MAX →
  ∃ s', (if negb (lft =? 0) then c ← gl caller; wl lft (set_fl_end (s64 (fl_start c - 1)));; locks_wake_up_blocks lft else mret tt) s = Some (tt, s') ∧
    moves_on i [lft] s s' ∧ at_inode s' i D' ∧ lk_inodes s' = lk_inodes s.
Proof using.
  intros Ok Hl Hcut Hc He Hm. destruct Hcut as [[-> ->]|(A & f & B & -> & ->)]; [exists s; split_and!; [done|by apply step_refl|done..]|].
  pose proof (member_nonzero _ _ _ _ _ Ok Hl) as H0. destruct (Z.eqb_spec lft 0); [done|]. cbn [negb]. destruct (gl_has s caller c Hc) as [b Hb].
  destruct (trim_run s A lft f (set_fl_end (t - 1) f) B (set_fl_end (s64 (fl_start c - 1))) Ok Hl) as (s' & Hrun & _ & S').
  { intros b'. rewrite He, loff_small by (unfold OFFSET_MAX in *; lia). done. }
  exists s'. split; [|done]. erewrite es_bind by exact Hb. exact Hrun.
Qed.

(** ** The edges *)

Lemma edges_run s D D' p caller c lft n2 : lk_ok s → at_inode s i D → cut_left lft (fl_start c) D D' → has s caller c → 0 <= fl_start c <= OFFSET_MAX →
  ∃ s', own_edges i p caller lft 0 n2 s = Some (n2, s') ∧ moves_on i [lft] s s' ∧ at_inode s' i D' ∧ lk_inodes s' = lk_inodes s.
Proof using.
  intros Ok Hl Hcut Hc Hs. unfold own_edges. cbn [Z.eqb negb]. erewrite es_bind by done. cbv beta iota.
  destruct (left_run s D D' lft (fl_start c) caller c Ok Hl Hcut Hc eq_refl Hs) as (s' & Hrun & S'). exists s'. split; [|done]. by erewrite es_bind by exact Hrun.
Qed.

Lemma edges_right_run s A x f B D' p caller c lft n2 : lk_ok s → at_inode s i (A ++ (x, f) :: B) → cut_left lft (fl_start c) (A ++ (x, set_fl_start (fl_end c + 1) f) :: B) D' →
  has s caller c → caller ≠ x → lft ≠ x → 0 <= fl_start c <= OFFSET_MAX → 0 <= fl_end c < OFFSET_MAX →
  ∃ s', own_edges i p caller lft x n2 s = Some (n2, s') ∧ moves_on i [lft; x] s s' ∧ at_inode s' i D' ∧ lk_inodes s' = lk_inodes s.
Proof using.
  intros Ok Hl Hcut Hc Hne Hlx Hs He. unfold own_edges. pose proof (member_nonzero _ _ _ _ _ Ok Hl). destruct (Z.eqb_spec x 0); [done|]. cbn [negb].
  destruct (Z.eqb_spec lft x); [done|]. destruct (right_run s A x f B (fl_end c) caller c Ok Hl Hc eq_refl He) as (s1 & H1 & S1 & L1 & I1).
  erewrite es_bind by (erewrite es_bind by done; cbv beta iota; by rewrite H1). cbv beta iota.
  destruct (left_run s1 _ D' lft (fl_start c) caller c (st_ok _ _ _ _ S1) L1 Hcut) as (s' & Hrun & S' & L' & I'); [|done|done|].
  { eapply kept_has; [apply S1|set_solver|done]. }
  exists s'. split; [by erewrite es_bind by exact Hrun|]. split_and!; [|done|congruence].
  eapply step_trans; (eapply step_mono; [|done]); set_solver.
Qed.

(** A copy of [f] in the structure [v]. *)
Definition copy_of (v f : file_lock) : file_lock :=
  mk_file_lock (fl_next v) (fl_block v) (fl_owner f) (fl_pid f) (fl_file f) (fl_flags f) (fl_type f) (fl_start f) (fl_end f)
    (fl_notify f) (fl_insert f) (fl_remove f) (fl_break_time v).

(** The lock goes on at both sides. *)
Lemma edges_both_run s A I x f B caller c n2 v2 : lk_ok s → at_inode s i (A ++ I ++ (x, f) :: B) → idle s n2 v2 → has s caller c → caller ≠ x → caller ≠ n2 → n2 ≠ x →
  0 <= fl_start c <= OFFSET_MAX → 0 <= fl_end c < OFFSET_MAX →
  ∃ s', own_edges i (length A) caller x x n2 s = Some (0, s') ∧ moves_on i [n2; x] s s' ∧
    at_inode s' i (A ++ (n2, set_fl_end (fl_start c - 1) (copy_of v2 f)) :: I ++ (x, set_fl_start (fl_end c + 1) f) :: B).
Proof using.
  intros Ok Hl Hid Hc Hne Hne2 Hnx Hs He. unfold own_edges. assert (has s x f) as Hx by (apply (proj2 Hl); rewrite !elem_of_app; right; right; left).
  pose proof (has_nonzero _ _ _ (ok_waits _ Ok) Hx). destruct (Z.eqb_spec x 0); [done|]. rewrite Z.eqb_refl. cbn [negb].
  destruct (put_lock_run s i A (I ++ (x, f) :: B) n2 v2 x f (copy_of v2 f) Ok Hl Hid Hx eq_refl) as (s1 & H1 & S1 & L1).
  assert (has s1 caller c) as Hc1 by (eapply kept_has; [apply S1|set_solver|done]).
  pose proof L1 as L1'. rewrite (cons_middle _ A), (app_assoc _ I), (app_assoc A) in L1'.
  destruct (right_run s1 _ x f B (fl_end c) caller c (st_ok _ _ _ _ S1) L1' Hc1 eq_refl He) as (s2 & H2 & S2 & L2 & _). rewrite <-!app_assoc in L2. cbn [app] in L2.
  assert (has s2 caller c) as Hc2 by (eapply kept_has; [apply S2|set_solver|done]).
  pose proof (member_nonzero _ _ _ _ _ (st_ok _ _ _ _ S2) L2) as Hn0.
  destruct (left_run s2 _ (A ++ (n2, set_fl_end (fl_start c - 1) (copy_of v2 f)) :: I ++ (x, set_fl_start (fl_end c + 1) f) :: B) n2 (fl_start c) caller c
    (st_ok _ _ _ _ S2) L2) as (s3 & H3 & S3 & L3 & _); [by right; eexists _, _, _|done..|].
  exists s3. split_and!; [|eapply step_trans; [|eapply step_trans]; (eapply step_mono; [|done]); set_solver|done].
  erewrite es_bind by (erewrite es_bind by (rewrite H1; done); cbv beta iota; by rewrite H2). cbv beta iota. by erewrite es_bind by exact H3.
Qed.

(** ** The loop *)

Definition others_next (k : Z * Z) (O2 : fdata) : Prop := ∀ y f O, O2 = (y, f) :: O → okey f ≠ k.

Lemma loop_stop fuel s P O2 caller c a l r : lk_ok s → at_inode s i (P ++ O2) → has s caller c → others_next (okey c) O2 →
  own_loop (S fuel) cur i (mk_own (length P) caller a l r) s = Some (mk_own (length P) caller a l r, s).
Proof using.
  intros Ok Hl Hc Hst. cbn [own_loop]. destruct O2 as [|[y f] O].
  - rewrite app_nil_r in Hl. by erewrite es_bind by by apply listed_end.
  - destruct (listed_pos _ _ _ _ _ _ Hl) as [Hp _]. erewrite es_bind by exact Hp. pose proof (member_nonzero _ _ _ _ _ Ok Hl). destruct (Z.eqb_spec y 0); [done|].
    destruct (proj2 Hl y f) as [b Hb]; [apply elem_of_app; right; left|]. destruct (gl_has s caller c Hc) as [b' Hb'].
    erewrite es_bind by (unfold gl; by rewrite Hb). erewrite es_bind by exact Hb'.
    change (locks_same_owner (set_fl_wait 0 b' c) (set_fl_wait 0 b f)) with (locks_same_owner c f).
    destruct (same_owner_spec c f) as [Heq|_]; [|done]. by destruct (Hst y f O eq_refl).
Qed.

Lemma same_owner_mine k c f : okey c = k → mine k f → locks_same_owner c f = true.
Proof using. intros Hc [Hf _]. destruct (same_owner_spec c f); [done|congruence]. Qed.

(** What the loop reads at a lock of its owner. *)
Lemma loop_step fuel s P y f R O2 k caller c o : lk_ok s → at_inode s i (P ++ (y, f) :: R ++ O2) → has s caller c → okey c = k → mine k f → o_before o = length P → o_caller o = caller →
  own_loop (S fuel) cur i o s =
  (let '(mk_own before caller added lft rgt) := o in
   let next_lock caller added lft := own_loop fuel cur i (mk_own (S before) caller added lft rgt) in
   if fl_type c =? fl_type f then
     if fl_end f <? s64 (fl_start c - 1) then next_lock caller added lft
     else if fl_start f >? s64 (fl_end c + 1) then mret o
     else
       (if fl_start f >? fl_start c then wl y (set_fl_start (fl_start c)) else wl caller (set_fl_start (fl_start f)));;
       (if fl_end f <? fl_end c then wl y (set_fl_end (fl_end c)) else wl caller (set_fl_end (fl_end f)));;
       if added then locks_delete_lock cur i before;; own_loop fuel cur i o else next_lock y true lft
   else
     if fl_end f <? fl_start c then next_lock caller added lft
     else if fl_start f >? fl_end c then mret o
     else
       let added := if fl_type c =? F_UNLCK then true else added in
       let lft := if fl_start f <? fl_start c then y else lft in
       if fl_end f >? fl_end c then mret (mk_own before caller added lft y)
       else if fl_start f >=? fl_start c then
         if added then locks_delete_lock cur i before;; own_loop fuel cur i (mk_own before caller added lft rgt)
         else locks_wake_up_blocks y;; wl y (λ f, set_fl_type (fl_type c) (set_fl_range (fl_start c) (fl_end c) f));; next_lock y true lft
       else next_lock caller added lft) s.
Proof using.
  intros Ok Hl Hc Hk Hf Hb Hcal. destruct o as [p cl a l r]. cbn in Hb, Hcal. subst p cl. cbn [own_loop]. destruct (listed_pos _ _ _ _ _ _ Hl) as [Hp _]. erewrite es_bind by exact Hp.
  pose proof (member_nonzero _ _ _ _ _ Ok Hl). destruct (Z.eqb_spec y 0); [done|].
  destruct (proj2 Hl y f) as [b Hby]; [apply elem_of_app; right; left|]. destruct (gl_has s caller c Hc) as [b' Hb'].
  erewrite es_bind by (unfold gl; by rewrite Hby). erewrite es_bind by exact Hb'.
  change (locks_same_owner (set_fl_wait 0 b' c) (set_fl_wait 0 b f)) with (locks_same_owner c f). rewrite (same_owner_mine k) by done. reflexivity.
Qed.

(** *** The new lock is in the list *)

Section phases.
Context (n1 n2 : Z) (v1 v2 : file_lock).

Lemma cut_left_app lft t D D' B : cut_left lft t D D' → cut_left lft t (D ++ B) (D' ++ B).
Proof using. intros [[-> ->]|(A & f & C & -> & ->)]; [by left|right]. exists A, f, (C ++ B). by rewrite <-!app_assoc. Qed.

Lemma cut_left_names lft t D D' : cut_left lft t D D' → D'.*1 = D.*1 ∧ (lft = 0 ∨ lft ∈ D.*1).
Proof using.
  intros [[-> ->]|(A & f & C & -> & ->)]; [split; [done|by left]|]. rewrite !fmap_app. split; [done|right]. apply elem_of_app. right. by left.
Qed.

(** The names of a list are different, and not 0. *)
Lemma names_differ s A y f B z : lk_ok s → at_inode s i (A ++ (y, f) :: B) → z = 0 ∨ z ∈ A.*1 ∨ z ∈ B.*1 → z ≠ y.
Proof using.
  intros Ok Hl Hz ->. destruct Hz as [->|Hz]; [by apply (member_nonzero _ _ _ _ _ Ok Hl)|]. pose proof (listed_nodup _ _ _ Ok Hl) as Hnd. rewrite fmap_app in Hnd. cbn in Hnd.
  apply NoDup_app in Hnd as (_ & N1 & [N2 _]%list.NoDup_cons). destruct Hz as [Hz|Hz]; [|done]. apply (N1 y Hz). by left.
Qed.

Lemma finish_added s L L' x c R lft p : lk_ok s → at_inode s i (L ++ (x, c) :: R) → cut_left lft (fl_start c) L L' → 0 <= fl_start c <= OFFSET_MAX →
  ∃ s', own_finish i (mk_own p x true lft 0) n1 n2 s = Some ((n1, n2), s') ∧ moves_on i [lft] s s' ∧ at_inode s' i (L' ++ (x, c) :: R).
Proof using.
  intros Ok Hl Hcut Hs. assert (has s x c) as Hc by (apply (proj2 Hl); apply elem_of_app; right; left). destruct (gl_has s x c Hc) as [b Hb].
  unfold own_finish. erewrite es_bind by exact Hb. cbn [negb andb]. erewrite es_bind by done.
  destruct (edges_run s _ (L' ++ (x, c) :: R) p x c lft n2 Ok Hl) as (s' & Hrun & S' & Hl' & _); [by apply cut_left_app|done..|].
  exists s'. split; [by erewrite es_bind by exact Hrun|done].
Qed.

Lemma finish_added_right s L L' x c y f R lft p : lk_ok s → at_inode s i (L ++ (x, c) :: (y, f) :: R) → cut_left lft (fl_start c) L L' → 0 <= fl_start c <= OFFSET_MAX →
  0 <= fl_end c < OFFSET_MAX →
  ∃ s', own_finish i (mk_own p x true lft y) n1 n2 s = Some ((n1, n2), s') ∧ moves_on i [lft; y] s s' ∧ at_inode s' i (L' ++ (x, c) :: (y, set_fl_start (fl_end c + 1) f) :: R).
Proof using.
  intros Ok Hl Hcut Hs He. assert (has s x c) as Hc by (apply (proj2 Hl); apply elem_of_app; right; left). destruct (gl_has s x c Hc) as [b Hb].
  unfold own_finish. erewrite es_bind by exact Hb. cbn [negb andb]. erewrite es_bind by done. pose proof Hl as Hl0. rewrite cons_middle, app_assoc in Hl.
  destruct (cut_left_names _ _ _ _ Hcut) as [_ Hlft].
  destruct (edges_right_run s (L ++ [(x, c)]) y f R (L' ++ (x, c) :: (y, set_fl_start (fl_end c + 1) f) :: R) p x c lft n2 Ok Hl) as (s' & Hrun & S' & Hl' & _); try done.
  { rewrite <-app_assoc. by apply cut_left_app. }
  { eapply names_differ; [exact Ok|exact Hl|]. right. left. rewrite fmap_app. apply elem_of_app. right. by left. }
  { eapply names_differ; [exact Ok|exact Hl|]. destruct Hlft as [?|Hlft]; [by left|right; left]. rewrite fmap_app. apply elem_of_app. by left. }
  exists s'. split; [by erewrite es_bind by exact Hrun|done].
Qed.

(** A lock of the same type behind joins the new one and goes. *)
Lemma absorb_step s L x c y f R : lk_ok s → at_inode s i (L ++ (x, c) :: (y, f) :: R) → fl_start c < fl_start f →
  ∃ s', (∀ C (K : LK C), ((if fl_start f >? fl_start c then wl y (set_fl_start (fl_start c)) else wl x (set_fl_start (fl_start f)));;
      (if fl_end f <? fl_end c then wl y (set_fl_end (fl_end c)) else wl x (set_fl_end (fl_end f)));; locks_delete_lock cur i (S (length L));; K) s = K s') ∧
    moves_on i [x; y] s s' ∧ at_inode s' i (L ++ (x, set_fl_end (Z.max (fl_end c) (fl_end f)) c) :: R).
Proof using.
  intros Ok Hl Hlt. rewrite Z.gtb_ltb. destruct (Z.ltb_spec (fl_start c) (fl_start f)) as [_|]; [|lia]. pose proof Hl as Hl0. rewrite (cons_middle _ L), app_assoc in Hl0.
  destruct (change_run s i _ y f (set_fl_start (fl_start c) f) R (set_fl_start (fl_start c)) Ok Hl0) as (s1 & H1 & S1 & L1 & _); [done|left; split; cbn; lia || done|].
  assert (∃ s2 f2, (if fl_end f <? fl_end c then wl y (set_fl_end (fl_end c)) else wl x (set_fl_end (fl_end f))) s1 = Some (tt, s2) ∧ moves_on i [x; y] s1 s2 ∧
    at_inode s2 i ((L ++ [(x, set_fl_end (Z.max (fl_end c) (fl_end f)) c)]) ++ (y, f2) :: R)) as (s2 & f2 & H2 & S2 & L2).
  { destruct (Z.ltb_spec (fl_end f) (fl_end c)) as [Hfe|Hfe].
    - destruct (change_run s1 i _ y _ (set_fl_range (fl_start c) (fl_end c) f) R (set_fl_end (fl_end c)) (st_ok _ _ _ _ S1) L1) as (s2 & H2 & S2 & L2 & _); [done|left; split; cbn; lia || done|].
      exists s2. eexists. split; [exact H2|]. split; [eapply step_mono; [|exact S2]; set_solver|]. rewrite Z.max_l by lia. replace (set_fl_end (fl_end c) c) with c by by destruct c. exact L2.
    - rewrite <-app_assoc in L1. destruct (change_run s1 i _ x _ (set_fl_end (fl_end f) c) _ (set_fl_end (fl_end f)) (st_ok _ _ _ _ S1) L1) as (s2 & H2 & S2 & L2 & _); [done|left; split; cbn; lia || done|].
      exists s2. eexists. split; [exact H2|]. split; [eapply step_mono; [|exact S2]; set_solver|]. rewrite Z.max_r by lia. rewrite <-app_assoc. exact L2. }
  destruct (delete_lock_run cur s2 i _ y f2 R (st_ok _ _ _ _ S2) L2) as (s3 & H3 & S3 & L3 & _). rewrite length_app, Nat.add_1_r in H3. rewrite <-app_assoc in L3.
  exists s3. split_and!; [|eapply step_trans; [|eapply step_trans]; (eapply step_mono; [|done]); set_solver|exact L3].
  intros C K. erewrite es_bind by exact H1. erewrite es_bind by exact H2. by erewrite es_bind by exact H3.
Qed.
Context (k : Z * Z) (O2 : fdata) (Hst : others_next k O2).

Definition all_mine (R : fdata) : Prop := ∀ y f, (y, f) ∈ R → mine k f.

(** No range that continues beyond the largest offset. *)
Definition no_wrap (t s e : Z) (R : fdata) : Prop := e = OFFSET_MAX → ∀ y f, (y, f) ∈ R → fl_type f = t → fl_end f < s - 1.

Definition loop_and_finish (fuel : nat) (o : own) : LK (Z * Z) := o ← own_loop fuel cur i o; own_finish i o n1 n2.

Definition loop_outcome (xs : list Z) (s : lk) (m : option ((Z * Z) * lk)) (r : Z * Z) (D : fdata) (R : list seg) (R' : fdata) : Prop :=
  ∃ s' Q, m = Some (r, s') ∧ moves_on i xs s s' ∧ at_inode s' i (D ++ Q ++ O2) ∧ segs Q = R ∧ all_mine Q ∧ (∀ y, y ∈ Q.*1 → y ∈ xs).

Lemma all_mine_cons y f R : all_mine ((y, f) :: R) ↔ mine k f ∧ all_mine R.
Proof using. unfold all_mine. split; [intros Ha; split; [apply (Ha y); left|intros z h Hz; apply (Ha z); by right]|]. intros [H1 H2] z h [[= -> ->]|Hz]%elem_of_cons; [done|by apply (H2 z)]. Qed.


Lemma outcome_ok xs s m r D R R' s' Q : m = Some (r, s') → moves_on i xs s s' → at_inode s' i (D ++ Q ++ O2) → segs Q = R → all_mine Q → (∀ y, y ∈ Q.*1 → y ∈ xs) → loop_outcome xs s m r D R R'.
Proof using. intros. exists s', Q. by split_and!. Qed.

(** After some steps of the same loop. *)
Lemma outcome_step xs s s1 m r D R R' ys : moves_on i xs s s1 → (∀ y, y ∈ ys → y ∈ xs) → loop_outcome ys s1 m r D R R' → loop_outcome xs s m r D R R'.
Proof using.
  intros S1 Hs (s' & Q & -> & S2 & L & H2 & H3 & H4). exists s', Q. split_and!; [done| |done..|auto]. eapply step_trans; [exact S1|]. by eapply step_mono.
Qed.

Lemma no_wrap_tail t s e y f R : no_wrap t s e ((y, f) :: R) → no_wrap t s e R.
Proof using. intros Hw He z h Hz. apply (Hw He z h). by right. Qed.

Lemma run_loop_done fuel o o' s s1 : own_loop fuel cur i o s = Some (o', s1) → loop_and_finish fuel o s = own_finish i o' n1 n2 s1.
Proof using. intros Hr. unfold loop_and_finish. by erewrite es_bind by exact Hr. Qed.

Lemma run_loop_next f1 f2 o1 o2 s s1 : own_loop f1 cur i o1 s = own_loop f2 cur i o2 s1 → loop_and_finish f1 o1 s = loop_and_finish f2 o2 s1.
Proof using. intros Hr. unfold loop_and_finish, mbind, ES_bind. by rewrite Hr. Qed.

(** The loop stops with the new lock in the list and nothing behind it to cut. *)
Lemma added_stop fuel s L L' x c R lft xs : lk_ok s → at_inode s i (L ++ (x, c) :: R ++ O2) → mine k c → all_mine R → cut_left lft (fl_start c) L L' → 0 <= fl_start c <= OFFSET_MAX →
  own_loop fuel cur i (mk_own (S (length L)) x true lft 0) s = Some (mk_own (S (length L)) x true lft 0, s) → (∀ z, z ∈ lft :: x :: R.*1 → z ∈ xs) →
  loop_outcome xs s (loop_and_finish fuel (mk_own (S (length L)) x true lft 0) s) (n1, n2) L' (seg_of c :: segs R) R.
Proof using.
  intros Ok Hl Hc HR Hcut Hs Hrun Hxs. destruct (finish_added s L L' x c (R ++ O2) lft (S (length L)) Ok Hl Hcut Hs) as (s' & Er & S1 & L1).
  rewrite (run_loop_done _ _ _ _ _ Hrun). eapply (outcome_ok _ _ _ _ _ _ _ s' ((x, c) :: R)); [exact Er| |exact L1|done|by apply all_mine_cons|].
  - eapply step_mono; [|exact S1]. intros z ->%list_elem_of_singleton. apply Hxs. left.
  - intros z Hz. apply Hxs. by right.
Qed.

Lemma added_run R : ∀ fuel s L L' x c lft lo pt, lk_ok s → at_inode s i (L ++ (x, c) :: R ++ O2) → mine k c → all_mine R → fl_type c ≠ F_UNLCK →
  sorted lo pt (segs R) → fl_start c < lo → 0 <= fl_start c → fl_start c <= fl_end c <= OFFSET_MAX → no_wrap (fl_type c) (fl_start c) (fl_end c) R →
  (length R < fuel)%nat → cut_left lft (fl_start c) L L' →
  loop_outcome (lft :: x :: R.*1) s (loop_and_finish fuel (mk_own (S (length L)) x true lft 0) s) (n1, n2) L' (take_in (fl_type c) (fl_start c) (fl_end c) (segs R)) R.
Proof.
  induction R as [|[y f] R IH]; intros [|fuel] s L L' x c lft lo pt Ok Hl Hc HR Ht Hs Hlo H0 He Hw Hf Hcut; cbn [length] in Hf; try lia;
    (assert (has s x c) as Hx by (apply (proj2 Hl); apply elem_of_app; right; left)); pose proof Hl as Hl0; cbn [app] in Hl0; rewrite (cons_middle _ L), app_assoc in Hl0.
  - pose proof (loop_stop fuel s _ O2 x c true lft 0 Ok Hl0 Hx ltac:(by rewrite (proj1 Hc))) as Hrun. rewrite length_app, Nat.add_1_r in Hrun.
    by apply (added_stop (S fuel) s L L' x c [] lft _ Ok Hl Hc HR Hcut ltac:(lia) Hrun).
  - pose proof HR as [Hy HR']%all_mine_cons.
    pose proof (loop_step fuel s _ y f R O2 k x c (mk_own (S (length L)) x true lft 0) Ok Hl0 Hx (proj1 Hc) Hy) as Hrun. specialize (Hrun ltac:(cbn; rewrite length_app; cbn; lia) eq_refl). cbv beta zeta iota in Hrun.
    destruct Hs as (B1 & B2 & B3 & B4). cbn [segs fmap list_fmap snd seg_of sg_start sg_end sg_type take_in] in B1, B2, B3, B4 |- *.
    assert (∀ z, z ∈ lft :: x :: ((y, f) :: R).*1 → z ∈ lft :: x :: y :: R.*1) as Hsub by done.
    destruct (Z.eqb_spec (fl_type c) (fl_type f)) as [Htf|Htf].
    + rewrite loff_small in Hrun by (unfold OFFSET_MAX in *; lia). destruct (Z.ltb_spec (fl_end f) (fl_start c - 1)); [lia|].
      assert (fl_end c < OFFSET_MAX) as Hm. { destruct (Z.eq_dec (fl_end c) OFFSET_MAX) as [Hm|]; [|lia]. specialize (Hw Hm y f ltac:(left) (eq_sym Htf)). lia. }
      rewrite loff_small in Hrun by (unfold OFFSET_MAX in *; lia). destruct (Z.gtb_spec (fl_start f) (fl_end c + 1)).
      * apply (added_stop (S fuel) s L L' x c ((y, f) :: R) lft _ Ok Hl Hc HR Hcut ltac:(lia) Hrun Hsub).
      * destruct (absorb_step s L x c y f (R ++ O2) Ok Hl) as (s1 & E1 & S1 & L1); [lia|]. rewrite E1 in Hrun. rewrite (run_loop_next _ _ _ _ _ _ Hrun).
        eapply (outcome_step _ s s1 _ _ _ _ _ (lft :: x :: R.*1)); [eapply step_mono; [|exact S1]; set_solver|set_solver|].
        apply (IH fuel s1 L L' x (set_fl_end (Z.max (fl_end c) (fl_end f)) c) lft (fl_end f + 1) (Some (fl_type f))); try done; cbn; try lia; [apply S1|].
        intros Hmax z h Hz. exfalso. destruct (sorted_elem _ _ _ (seg_of h) B4); [|cbn in *; lia]. apply list_elem_of_fmap. by exists (z, h).
    + destruct (Z.ltb_spec (fl_end f) (fl_start c)); [lia|]. destruct (Z.gtb_spec (fl_start f) (fl_end c)).
      * apply (added_stop (S fuel) s L L' x c ((y, f) :: R) lft _ Ok Hl Hc HR Hcut ltac:(lia) Hrun Hsub).
      * destruct (Z.eqb_spec (fl_type c) F_UNLCK); [done|]. destruct (Z.ltb_spec (fl_start f) (fl_start c)); [lia|].
        destruct (Z.gtb_spec (fl_end f) (fl_end c)).
        -- destruct (finish_added_right s L L' x c y f (R ++ O2) lft (S (length L)) Ok Hl Hcut) as (s' & Er & S1 & L1); [lia..|].
           rewrite (run_loop_done _ _ _ _ _ Hrun). eapply (outcome_ok _ _ _ _ _ _ _ s' ((x, c) :: (y, set_fl_start (fl_end c + 1) f) :: R)); [exact Er| |exact L1|done| |].
           ++ eapply step_mono; [|exact S1]. set_solver.
           ++ rewrite !all_mine_cons. done.
           ++ cbn. set_solver.
        -- rewrite Z.geb_leb in Hrun. destruct (Z.leb_spec (fl_start c) (fl_start f)); [|lia].
           destruct (delete_lock_run cur s i _ y f (R ++ O2) Ok Hl0) as (s1 & E1 & S1 & L1 & _). rewrite length_app, Nat.add_1_r in E1. rewrite <-app_assoc in L1.
           erewrite es_bind in Hrun by exact E1. rewrite (run_loop_next _ _ _ _ _ _ Hrun).
           eapply (outcome_step _ s s1 _ _ _ _ _ (lft :: x :: R.*1)); [eapply step_mono; [|exact S1]; set_solver|set_solver|].
           apply (IH fuel s1 L L' x c lft (fl_end f + 1) (Some (fl_type f))); try done; try lia; [apply S1|]. by eapply no_wrap_tail.
Qed.
End phases.
End apply.

(** The loop of [posix_lock_file] on the locks of its owner does [set_range]. *)

Section put_range.
Context `{LockEnv} (cur : lk_task) (i n1 n2 : Z) (v1 v2 : file_lock) (caller : Z) (k : Z * Z) (O2 : fdata) (xs : list Z).
Context (Hst : others_next k O2) (H12 : n1 ≠ n2) (Hc1 : caller ≠ n1) (Hc2 : caller ≠ n2) (Hxs : ∀ z, z ∈ [0; caller; n1; n2] → z ∈ xs).

(** The caller's lock and the two new structures are in no list. *)
Record ready (s : lk) (c : file_lock) : Prop := {
  rd_ok : lk_ok s;
  rd_caller : idle s caller c;
  rd_new1 : idle s n1 v1;
  rd_new2 : idle s n2 v2;
  rd_names z : z ∈ i_flock i s → z ∈ xs;
  rd_mine : mine k c
}.

Definition left_over (s' : lk) (r : Z * Z) : Prop :=
  (r.1 = 0 ∨ r.1 = n1 ∧ idle s' n1 v1) ∧ (r.2 = 0 ∨ r.2 = n2 ∧ idle s' n2 v2) ∧ ∃ c, idle s' caller c.

(** What ends with [D], locks with the segments [R], and [O2] in the list. *)
Definition result (s : lk) (m : option ((Z * Z) * lk)) (D : fdata) (R : list seg) : Prop :=
  ∃ r s' Q, m = Some (r, s') ∧ moves_on i xs s s' ∧ at_inode s' i (D ++ Q ++ O2) ∧ segs Q = R ∧ all_mine k Q ∧ left_over s' r.

Lemma ready_out s c D z : ready s c → at_inode s i D → z ∈ D.*1 → z ≠ caller ∧ z ≠ n1 ∧ z ≠ n2.
Proof using.
  intros [_ A B C _ _] [Hl _]. rewrite <-Hl. intros Hz. split_and!; intros ->; [by apply (proj2 A i)|by apply (proj2 B i)|by apply (proj2 C i)].
Qed.

Lemma idle_nonzero s z f : lk_ok s → idle s z f → z ≠ 0.
Proof using. intros Ok Hi. eapply has_nonzero; [apply Ok|by apply idle_has]. Qed.

Lemma not_idle s c z f : ready s c → z = 0 ∨ z ∈ i_flock i s → idle s z f → False.
Proof using. intros Hr [->|Hz] Hi; [by apply (idle_nonzero s 0 f); [apply Hr|..]|by apply (proj2 Hi i)]. Qed.

(** Steps on members of the list. *)
Definition members_only (s : lk) (ys : list Z) : Prop := ∀ z, z ∈ ys → z = 0 ∨ z ∈ i_flock i s.

Lemma ready_step s s' c ys : ready s c → members_only s ys → moves_on i ys s s' → ready s' c ∧ moves_on i xs s s'.
Proof.
  intros [Ok A B C N M] Hys Hs. assert (∀ z, z ∈ ys → z ∈ xs) as Hsub.
  { intros z [->|?]%Hys; [apply Hxs; by left|by apply N]. }
  assert (∀ z f, idle s z f → z ∉ ys) as Hout. { intros z f Hz [->|Hin]%Hys; [by eapply idle_nonzero|]. by apply (proj2 Hz i). }
  split; [|by eapply step_mono]. split; [apply Hs|..|done]; [eapply idle_step; eauto..|].
  intros z Hz. destruct (st_members _ _ _ _ Hs z Hz); auto.
Qed.

Lemma result_step s s1 m D R : moves_on i xs s s1 → result s1 m D R → result s m D R.
Proof using. intros S1 (r & s' & Q & H1 & H2 & H3). exists r, s', Q. split; [done|]. split; [by eapply step_trans|done]. Qed.

Lemma result_cons s m D y f R : mine k f → result s m (D ++ [(y, f)]) R → result s m D (seg_of f :: R).
Proof using.
  intros Hf (r & s' & Q & H1 & H2 & H3 & H4 & H5 & H6). exists r, s', ((y, f) :: Q). rewrite <-app_assoc in H3. split_and!; try done; [cbn; by rewrite <-H4|by apply all_mine_cons].
Qed.

(** From where the new lock is in the list. *)
Lemma result_added s c m L' R R' ys : ready s c → members_only s ys → loop_outcome i k O2 ys s m (n1, n2) L' R R' → result s m L' R.
Proof.
  intros Hr Hys (s' & Q & -> & H1 & H2 & H3 & H4 & _). destruct (ready_step s s' c ys Hr Hys H1) as [Hr' S']. exists (n1, n2), s', Q. unfold left_over. split_and!; try done.
  - right. split; [done|apply Hr'].
  - right. split; [done|apply Hr'].
  - exists c. apply Hr'.
Qed.

(** ** The new lock gets a place of its own *)

Lemma finish_new s L B c lft rgt : ready s c → at_inode s i (L ++ B) → fl_type c ≠ F_UNLCK →
  ∃ s1, own_finish i (mk_own (length L) caller false lft rgt) n1 n2 s = (r ← own_edges i (length L) caller lft rgt n2; mret (0, r)) s1 ∧
    moves_on i [n1] s s1 ∧ at_inode s1 i (L ++ (n1, copy_of v1 c) :: B) ∧ idle s1 caller c ∧ idle s1 n2 v2.
Proof.
  intros [Ok A B1 C N M] Hl Ht. destruct (put_lock_run s i L B n1 v1 caller c (copy_of v1 c) Ok Hl B1 (idle_has _ _ _ A) eq_refl) as (s1 & H1 & S1 & L1).
  exists s1. split_and!; [|done|done|eapply idle_step; [done| |done]; set_solver..].
  unfold own_finish. destruct (gl_has s caller c (idle_has _ _ _ A)) as [b Hb]. erewrite es_bind by exact Hb. cbn [negb andb fl_type set_fl_wait].
  destruct (Z.eqb_spec (fl_type c) F_UNLCK); [done|]. erewrite es_bind; [done|]. rewrite H1. done.
Qed.

(** The list after a new lock [n1], and perhaps [n2], is in it. *)
Lemma result_new s s1 s2 ys m D Q R r c : lk_ok s → m = Some ((0, r), s2) → moves_on i [n1] s s1 → moves_on i ys s1 s2 → (∀ z, z ∈ ys → z = 0 ∨ z = n2 ∨ z ∈ i_flock i s) →
  (∀ z, z ∈ i_flock i s → z ∈ xs) → idle s1 caller c → (∀ z, z ∈ ys → z ≠ caller) → r = 0 ∨ (r = n2 ∧ n2 ∉ ys ∧ idle s1 n2 v2) →
  at_inode s2 i (D ++ Q ++ O2) → segs Q = R → all_mine k Q → result s m D R.
Proof.
  intros Ok Hm S1 S2 Hys Hn Hc Hcy Hr Hl Hq Ha. exists (0, r), s2, Q. unfold left_over. split_and!; try done.
  - eapply step_trans; [eapply step_mono; [|exact S1]|eapply step_mono; [|exact S2]].
    + intros z ->%list_elem_of_singleton. apply Hxs. set_solver.
    + intros z [->|[->|?]]%Hys; [apply Hxs; set_solver..|by apply Hn].
  - by left.
  - destruct Hr as [->|(-> & Hn2 & Hi)]; [by left|right]. split; [done|]. by eapply idle_step.
  - exists c. eapply idle_step; [exact S2| |done]. intros Hin. by apply (Hcy _ Hin).
Qed.

Lemma cut_left_in s lft t L L' B : cut_left lft t L L' → at_inode s i (L ++ B) → lft = 0 ∨ lft ∈ i_flock i s.
Proof using. intros Hcut [Hl _]. destruct (cut_left_names _ _ _ _ Hcut) as [_ [?|?]]; [by left|right]. rewrite Hl, fmap_app. apply elem_of_app. by left. Qed.

Lemma new_stop s L L' R c lft : ready s c → at_inode s i (L ++ R ++ O2) → fl_type c ≠ F_UNLCK → cut_left lft (fl_start c) L L' → all_mine k R → 0 <= fl_start c <= OFFSET_MAX →
  result s (own_finish i (mk_own (length L) caller false lft 0) n1 n2 s) L' (seg_of c :: segs R).
Proof.
  intros Hr Hl Ht Hcut HR Hs. destruct (finish_new s L _ c lft 0 Hr Hl Ht) as (s1 & -> & S1 & L1 & I1 & I2).
  destruct (edges_run i s1 _ (L' ++ (n1, copy_of v1 c) :: R ++ O2) (length L) caller c lft n2 (st_ok _ _ _ _ S1) L1 (cut_left_app _ _ _ _ _ Hcut) (idle_has _ _ _ I1) Hs) as (s2 & H2 & S2 & L2 & _).
  erewrite es_bind by exact H2. pose proof (cut_left_in s _ _ _ _ _ Hcut Hl) as Hlft.
  eapply (result_new s s1 s2 [lft] _ L' ((n1, copy_of v1 c) :: R) _ n2 c); try done; [apply Hr|set_solver|apply Hr| | |].
  - intros z ->%list_elem_of_singleton ->. by eapply not_idle; [exact Hr|exact Hlft|apply Hr].
  - right. split; [done|]. split; [|done]. intros <-%list_elem_of_singleton. by eapply not_idle; [exact Hr|exact Hlft|apply Hr].
  - apply all_mine_cons. split; [apply Hr|done].
Qed.

Lemma new_right s L L' y f R c lft : ready s c → at_inode s i (L ++ (y, f) :: R ++ O2) → fl_type c ≠ F_UNLCK → cut_left lft (fl_start c) L L' → mine k f → all_mine k R → 0 <= fl_start c <= OFFSET_MAX →
  0 <= fl_end c < OFFSET_MAX →
  result s (own_finish i (mk_own (length L) caller false lft y) n1 n2 s) L' (seg_of c :: mk_seg (fl_type f) (fl_end c + 1) (fl_end f) :: segs R).
Proof.
  intros Hr Hl Ht Hcut Hf HR Hs He. destruct (finish_new s L _ c lft y Hr Hl Ht) as (s1 & -> & S1 & L1 & I1 & I2).
  pose proof L1 as L1'. rewrite (cons_middle _ L), app_assoc in L1'. pose proof (cut_left_in s _ _ _ _ _ Hcut Hl) as Hlft.
  assert (y ∈ i_flock i s) as Hy by (rewrite (proj1 Hl), fmap_app; apply elem_of_app; right; by left).
  destruct (edges_right_run i s1 _ y f (R ++ O2) (L' ++ (n1, copy_of v1 c) :: (y, set_fl_start (fl_end c + 1) f) :: R ++ O2) (length L) caller c lft n2 (st_ok _ _ _ _ S1) L1') as (s2 & H2 & S2 & L2 & _); try done.
  { rewrite <-app_assoc. by apply cut_left_app. }
  { by apply idle_has. }
  { intros <-. eapply not_idle; [exact Hr|by right|apply Hr]. }
  { eapply names_differ; [apply Hr|exact Hl|]. destruct (cut_left_names _ _ _ _ Hcut) as [_ [?|?]]; [by left|by right; left]. }
  erewrite es_bind by exact H2.
  eapply (result_new s s1 s2 [lft; y] _ L' ((n1, copy_of v1 c) :: (y, set_fl_start (fl_end c + 1) f) :: R) _ n2 c); try done; [apply Hr|set_solver|apply Hr| | |].
  - intros z Hz ->. assert (caller = 0 ∨ caller ∈ i_flock i s) by set_solver. eapply not_idle; [exact Hr|eassumption|apply Hr].
  - right. split; [done|]. split; [|done]. intros Hz. assert (n2 = 0 ∨ n2 ∈ i_flock i s) by set_solver. eapply not_idle; [exact Hr|eassumption|apply Hr].
  - rewrite !all_mine_cons. split; [apply Hr|done].
Qed.

Lemma new_both s L y f R c : ready s c → at_inode s i (L ++ (y, f) :: R ++ O2) → fl_type c ≠ F_UNLCK → mine k f → all_mine k R → 0 <= fl_start c <= OFFSET_MAX →
  0 <= fl_end c < OFFSET_MAX →
  result s (own_finish i (mk_own (length L) caller false y y) n1 n2 s) L
    (mk_seg (fl_type f) (fl_start f) (fl_start c - 1) :: seg_of c :: mk_seg (fl_type f) (fl_end c + 1) (fl_end f) :: segs R).
Proof.
  intros Hr Hl Ht Hf HR Hs He. destruct (finish_new s L _ c y y Hr Hl Ht) as (s1 & -> & S1 & L1 & I1 & I2).
  assert (y ∈ i_flock i s) as Hy by (rewrite (proj1 Hl), fmap_app; apply elem_of_app; right; by left).
  destruct (edges_both_run i s1 L [(n1, copy_of v1 c)] y f (R ++ O2) caller c n2 v2 (st_ok _ _ _ _ S1) L1 I2) as (s2 & H2 & S2 & L2); try done.
  { by apply idle_has. }
  { intros Heq. subst y. by apply (not_idle s c caller c Hr); [right|apply Hr]. }
  { intros Heq. subst y. by apply (not_idle s c n2 v2 Hr); [right|apply Hr]. }
  erewrite es_bind by exact H2.
  eapply (result_new s s1 s2 [n2; y] _ L ((n2, set_fl_end (fl_start c - 1) (copy_of v2 f)) :: (n1, copy_of v1 c) :: (y, set_fl_start (fl_end c + 1) f) :: R) _ 0 c);
    try done; [apply Hr|set_solver|apply Hr| |by left|].
  - intros z [->| ->%list_elem_of_singleton]%elem_of_cons; [done|]. intros Heq. subst y. by apply (not_idle s c caller c Hr); [right|apply Hr].
  - rewrite !all_mine_cons. split_and!; try done. apply Hr.
Qed.

(** ** An old lock takes the range over *)

Lemma member_names s c D y : ready s c → at_inode s i D → y ∈ D.*1 → y ∈ i_flock i s ∧ y ∉ [caller].
Proof using. intros Hr Hl Hy. split; [by rewrite (proj1 Hl)|]. intros ->%list_elem_of_singleton. by destruct (ready_out s c D caller Hr Hl Hy). Qed.

(** [caller->... = ...] *)
Lemma caller_run s c c' g D : ready s c → at_inode s i D → (∀ b, g (set_fl_wait 0 b c) = set_fl_wait 0 b c') → okey c' = okey c → fl_flags c' = fl_flags c →
  ∃ s', wl caller g s = Some (tt, s') ∧ ready s' c' ∧ at_inode s' i D ∧ moves_on i xs s s'.
Proof.
  intros Hr Hl Hg Hk Hf. pose proof Hr as [Ok A B C N M]. destruct (wl_run s caller c c' g Ok (idle_has _ _ _ A) Hg) as (s' & H1 & Ok' & _ & K & I' & _ & Hid & E' & U').
  assert (moves_on i [caller] s s') as S'.
  { apply step_same; try done. apply (edges_drop [caller]); [apply Ok'| |done]. intros y ->%list_elem_of_singleton. apply U'. intros h Hh. rewrite (proj1 A) in Hh. by injection Hh as <-. }
  exists s'. split_and!; [done|split; [done|by apply Hid|eapply idle_step; [done| |done]; set_solver..| |]| |].
  - intros z. unfold i_flock. rewrite I'. apply N.
  - destruct M as [<- Mf]. split; [done|]. unfold posix. by rewrite Hf.
  - split; [unfold i_flock; rewrite I'; apply Hl|]. intros y f Hy. eapply kept_has; [exact K| |by apply (proj2 Hl)].
    eapply (member_names s c D y Hr Hl). apply list_elem_of_fmap. by exists (y, f).
  - eapply step_mono; [|exact S']. intros z ->%list_elem_of_singleton. apply Hxs. set_solver.
Qed.

(** [fl->... = ...] *)
Lemma member_run s c A y f f' B g : ready s c → at_inode s i (A ++ (y, f) :: B) → (∀ b, g (set_fl_wait 0 b f) = set_fl_wait 0 b f') → covers f' f ∨ unwaited s y →
  ∃ s', wl y g s = Some (tt, s') ∧ ready s' c ∧ at_inode s' i (A ++ (y, f') :: B) ∧ moves_on i xs s s'.
Proof.
  intros Hr Hl Hg Hcv. destruct (change_run s i A y f f' B g (rd_ok _ _ Hr) Hl Hg Hcv) as (s' & H1 & S1 & L1 & _). exists s'. destruct (ready_step s s' c [y] Hr) as [Hr' S']; try done.
  intros z ->%list_elem_of_singleton. right. rewrite (proj1 Hl), fmap_app. apply elem_of_app. right. by left.
Qed.

Lemma merge_step s L y f B c : ready s c → at_inode s i (L ++ (y, f) :: B) →
  ∃ s' c', (∀ C (K : LK C), ((if fl_start f >? fl_start c then wl y (set_fl_start (fl_start c)) else wl caller (set_fl_start (fl_start f)));;
      (if fl_end f <? fl_end c then wl y (set_fl_end (fl_end c)) else wl caller (set_fl_end (fl_end f)));; K) s = K s') ∧
    moves_on i xs s s' ∧ ready s' c' ∧ at_inode s' i (L ++ (y, set_fl_range (Z.min (fl_start c) (fl_start f)) (Z.max (fl_end c) (fl_end f)) f) :: B).
Proof.
  intros Hr Hl.
  assert (∃ s1 c1, (if fl_start f >? fl_start c then wl y (set_fl_start (fl_start c)) else wl caller (set_fl_start (fl_start f))) s = Some (tt, s1) ∧ ready s1 c1 ∧
    at_inode s1 i (L ++ (y, set_fl_start (Z.min (fl_start c) (fl_start f)) f) :: B) ∧ moves_on i xs s s1) as (s1 & c1 & E1 & R1 & L1 & S1).
  { destruct (Z.gtb_spec (fl_start f) (fl_start c)) as [Hg|Hg].
    - rewrite Z.min_l by lia. destruct (member_run s c L y f (set_fl_start (fl_start c) f) B (set_fl_start (fl_start c)) Hr Hl) as (s1 & HH); [done|left; split; cbn; lia || done|]. by exists s1, c.
    - rewrite Z.min_r by lia. replace (set_fl_start (fl_start f) f) with f by by destruct f.
      destruct (caller_run s c (set_fl_start (fl_start f) c) (set_fl_start (fl_start f)) _ Hr Hl) as (s1 & HH); [done..|]. by exists s1, (set_fl_start (fl_start f) c). }
  assert (∃ s2 c2, (if fl_end f <? fl_end c then wl y (set_fl_end (fl_end c)) else wl caller (set_fl_end (fl_end f))) s1 = Some (tt, s2) ∧ ready s2 c2 ∧
    at_inode s2 i (L ++ (y, set_fl_range (Z.min (fl_start c) (fl_start f)) (Z.max (fl_end c) (fl_end f)) f) :: B) ∧ moves_on i xs s1 s2) as (s2 & c2 & E2 & R2 & L2 & S2).
  { destruct (Z.ltb_spec (fl_end f) (fl_end c)) as [Hg|Hg].
    - rewrite Z.max_l by lia. destruct (member_run s1 c1 L y _ (set_fl_range (Z.min (fl_start c) (fl_start f)) (fl_end c) f) B (set_fl_end (fl_end c)) R1 L1) as (s2 & HH); [done|left; split; cbn; lia || done|]. by exists s2, c1.
    - rewrite Z.max_r by lia. change (set_fl_range ?a (fl_end f) f) with (set_fl_start a f).
      destruct (caller_run s1 c1 (set_fl_end (fl_end f) c1) (set_fl_end (fl_end f)) _ R1 L1) as (s2 & HH); [done..|]. by exists s2, (set_fl_end (fl_end f) c1). }
  exists s2, c2. split_and!; [|by eapply step_trans|done..]. intros C K. erewrite es_bind by exact E1. by erewrite es_bind by exact E2.
Qed.

Lemma replace_step s L y f B c : ready s c → at_inode s i (L ++ (y, f) :: B) →
  ∃ s', (∀ C (K : LK C), (locks_wake_up_blocks y;; wl y (λ f, set_fl_type (fl_type c) (set_fl_range (fl_start c) (fl_end c) f));; K) s = K s') ∧
    moves_on i xs s s' ∧ ready s' c ∧ at_inode s' i (L ++ (y, set_fl_type (fl_type c) (set_fl_range (fl_start c) (fl_end c) f)) :: B).
Proof.
  intros Hr Hl. destruct (proj2 Hl y f) as [b Hb]; [apply elem_of_app; right; left|]. pose proof (rd_ok _ _ Hr) as Ok.
  destruct (wake_up_run s y _ (ok_waits _ Ok) Hb) as (s1 & H1 & W1 & nx & Hx). pose proof (woken_step i [] s s1 Ok W1) as S1. pose proof (woken_listed _ _ _ _ W1 Hl) as L1.
  destruct (ready_step s s1 c [] Hr) as [Hr1 S1']; [by intros z ?%elem_of_nil|done|].
  destruct (member_run s1 c L y f (set_fl_type (fl_type c) (set_fl_range (fl_start c) (fl_end c) f)) B
    (λ f, set_fl_type (fl_type c) (set_fl_range (fl_start c) (fl_end c) f)) Hr1 L1 (λ b, eq_refl)) as (s2 & H2 & R2 & L2 & S2);
    [right; intros h Hh; rewrite Hx in Hh; by injection Hh as <-|].
  exists s2. split_and!; [|by eapply step_trans|done..]. intros C K. erewrite es_bind by exact H1. by erewrite es_bind by exact H2.
Qed.

(** ** The loop *)

Definition run_from (fuel : nat) (L : fdata) (lft : Z) (s : lk) : option ((Z * Z) * lk) :=
  loop_and_finish cur i n1 n2 fuel (mk_own (length L) caller false lft 0) s.

Lemma listed_inside s L R : at_inode s i (L ++ R ++ O2) → members_only s (R.*1) ∧ ∀ y, y ∈ L.*1 → y ∈ i_flock i s.
Proof using. intros [Hl _]. unfold members_only. rewrite Hl, !fmap_app. setoid_rewrite elem_of_app. setoid_rewrite elem_of_app. split; [tauto|]. intros y Hy. by left. Qed.

(** After the old lock [y] has taken the range over. *)
Lemma taken_over fuel s L L' y f R lft lo pt c : ready s c → at_inode s i (L ++ (y, f) :: R ++ O2) → mine k f → all_mine k R → fl_type f ≠ F_UNLCK →
  sorted lo pt (segs R) → fl_start f < lo → 0 <= fl_start f → fl_start f <= fl_end f <= OFFSET_MAX → no_wrap (fl_type f) (fl_start f) (fl_end f) R →
  (length R < fuel)%nat → cut_left lft (fl_start f) L L' →
  result s (loop_and_finish cur i n1 n2 fuel (mk_own (S (length L)) y true lft 0) s) L' (take_in (fl_type f) (fl_start f) (fl_end f) (segs R)).
Proof.
  intros Hr Hl Hf HR Ht Hs Hlo H0 He Hw Hfu Hcut. destruct (listed_inside s L ((y, f) :: R) Hl) as [Hin HL]. eapply (result_added s c _ _ _ R (lft :: y :: R.*1)); [done| |].
  - intros z [->|Hz]%elem_of_cons; [|by apply Hin]. destruct (cut_left_names _ _ _ _ Hcut) as [_ [?|?]]; [by left|right; by apply HL].
  - eapply (added_run cur i n1 n2 k O2 Hst); eauto. apply Hr.
Qed.

(** The wrap of [fl_end + 1] is out of the way. *)
Lemma no_wrap_joins lo pt t s e y f R : no_wrap t s e ((y, f) :: R) → fl_type f = t → s - 1 <= fl_end f → e <= OFFSET_MAX → sorted lo pt (segs R) → fl_end f < lo →
  e < OFFSET_MAX ∧ ∀ t' s', no_wrap t' s' (Z.max e (fl_end f)) R.
Proof using.
  clear H12 Hc1 Hc2. intros Hw Ht He Hm Hs Hlo. assert (e < OFFSET_MAX) as Hlt. { destruct (Z.eq_dec e OFFSET_MAX) as [Heq|]; [|lia]. specialize (Hw Heq y f ltac:(left) Ht). lia. }
  split; [done|]. intros t' s' Hmax z h Hz. exfalso. destruct (sorted_elem _ _ _ (seg_of h) Hs); [|cbn in *; lia]. apply list_elem_of_fmap. by exists (z, h).
Qed.

Lemma loop_at fuel s L y f R lft c : ready s c → at_inode s i (L ++ (y, f) :: R ++ O2) → mine k f →
  own_loop (S fuel) cur i (mk_own (length L) caller false lft 0) s =
  (let next_lock caller added lft := own_loop fuel cur i (mk_own (S (length L)) caller added lft 0) in
   if fl_type c =? fl_type f then
     if fl_end f <? s64 (fl_start c - 1) then next_lock caller false lft
     else if fl_start f >? s64 (fl_end c + 1) then mret (mk_own (length L) caller false lft 0)
     else
       (if fl_start f >? fl_start c then wl y (set_fl_start (fl_start c)) else wl caller (set_fl_start (fl_start f)));;
       (if fl_end f <? fl_end c then wl y (set_fl_end (fl_end c)) else wl caller (set_fl_end (fl_end f)));;
       next_lock y true lft
   else
     if fl_end f <? fl_start c then next_lock caller false lft
     else if fl_start f >? fl_end c then mret (mk_own (length L) caller false lft 0)
     else
       let added := if fl_type c =? F_UNLCK then true else false in
       let lft := if fl_start f <? fl_start c then y else lft in
       if fl_end f >? fl_end c then mret (mk_own (length L) caller added lft y)
       else if fl_start f >=? fl_start c then
         if added then locks_delete_lock cur i (length L);; own_loop fuel cur i (mk_own (length L) caller added lft 0)
         else locks_wake_up_blocks y;; wl y (λ f, set_fl_type (fl_type c) (set_fl_range (fl_start c) (fl_end c) f));; next_lock y true lft
       else next_lock caller added lft) s.
Proof. intros Hr Hl Hf. by rewrite (loop_step cur i fuel s L y f R O2 k caller c _ (rd_ok _ _ Hr) Hl (idle_has _ _ _ (rd_caller _ _ Hr)) (proj1 (rd_mine _ _ Hr)) Hf). Qed.

Lemma loop_end fuel s L lft c : ready s c → at_inode s i (L ++ O2) → own_loop (S fuel) cur i (mk_own (length L) caller false lft 0) s = Some (mk_own (length L) caller false lft 0, s).
Proof. intros Hr Hl. apply (loop_stop cur i fuel s L O2 caller c); [apply Hr|done|apply idle_has, Hr|]. by rewrite (proj1 (rd_mine _ _ Hr)). Qed.

(** What the range starts with is behind: the new lock is not in the list, and
    [lft] perhaps loses its end. *)
Lemma pending_run R fuel s L L' c lft lo pt : ready s c → at_inode s i (L ++ R ++ O2) → all_mine k R → fl_type c ≠ F_UNLCK → sorted lo pt (segs R) → fl_start c <= lo →
  0 <= fl_start c → fl_start c <= fl_end c <= OFFSET_MAX → no_wrap (fl_type c) (fl_start c) (fl_end c) R → (length R < fuel)%nat → cut_left lft (fl_start c) L L' →
  result s (run_from fuel L lft s) L' (take_in (fl_type c) (fl_start c) (fl_end c) (segs R)).
Proof.
  intros Hr Hl HR Ht Hs Hlo H0 He Hw Hf Hcut. unfold run_from. destruct fuel as [|fuel]; [lia|]. assert (0 <= fl_start c <= OFFSET_MAX) as Hs0 by lia. destruct R as [|[y f] R].
  - rewrite (run_loop_done _ _ _ _ _ _ _ _ _ (loop_end fuel s L lft c Hr Hl)). by apply (new_stop s L L' [] c lft).
  - pose proof (proj1 (all_mine_cons _ _ _ _) HR) as [Hy HR']. pose proof (loop_at fuel s L y f R lft c Hr Hl Hy) as Hrun. cbv beta zeta iota in Hrun.
    destruct Hs as (B1 & B2 & B3 & B4). cbn [segs fmap list_fmap snd seg_of sg_start sg_end sg_type take_in length] in B1, B2, B3, B4, Hf |- *.
    rewrite (loff_small (fl_start c - 1)) in Hrun by (unfold OFFSET_MAX in *; lia). destruct (Z.eqb_spec (fl_type c) (fl_type f)) as [Htf|Htf].
    + destruct (Z.ltb_spec (fl_end f) (fl_start c - 1)); [lia|]. destruct (no_wrap_joins _ _ _ _ _ y f R Hw (eq_sym Htf) ltac:(lia) ltac:(lia) B4 ltac:(lia)) as [Hm Hw'].
      rewrite loff_small in Hrun by (unfold OFFSET_MAX in *; lia). destruct (Z.gtb_spec (fl_start f) (fl_end c + 1)).
      * rewrite (run_loop_done _ _ _ _ _ _ _ _ _ Hrun). by apply (new_stop s L L' ((y, f) :: R) c lft).
      * destruct (merge_step s L y f (R ++ O2) c Hr Hl) as (s1 & c1 & E1 & S1 & R1 & L1). rewrite E1 in Hrun. rewrite (run_loop_next _ _ _ _ _ _ _ _ _ _ Hrun).
        apply (result_step s s1); [done|]. rewrite Z.min_l in L1 by lia.
        pose proof (taken_over fuel s1 L L' y _ R lft (fl_end f + 1) (Some (fl_type f)) c1 R1 L1 Hy HR') as Hend. cbn in Hend. rewrite Htf. apply Hend; try done; try lia.
    + destruct (Z.ltb_spec (fl_end f) (fl_start c)); [lia|]. destruct (Z.gtb_spec (fl_start f) (fl_end c)).
      * rewrite (run_loop_done _ _ _ _ _ _ _ _ _ Hrun). by apply (new_stop s L L' ((y, f) :: R) c lft).
      * destruct (Z.eqb_spec (fl_type c) F_UNLCK); [done|]. destruct (Z.ltb_spec (fl_start f) (fl_start c)); [lia|]. destruct (Z.gtb_spec (fl_end f) (fl_end c)).
        -- rewrite (run_loop_done _ _ _ _ _ _ _ _ _ Hrun). apply new_right; (done || lia).
        -- rewrite Z.geb_leb in Hrun. destruct (Z.leb_spec (fl_start c) (fl_start f)); [|lia].
           destruct (replace_step s L y f (R ++ O2) c Hr Hl) as (s1 & E1 & S1 & R1 & L1). rewrite E1 in Hrun. rewrite (run_loop_next _ _ _ _ _ _ _ _ _ _ Hrun).
           apply (result_step s s1); [done|].
           pose proof (taken_over fuel s1 L L' y _ R lft (fl_end f + 1) (Some (fl_type f)) c R1 L1 Hy HR') as Hend. cbn in Hend. apply Hend; try done; try lia. by eapply no_wrap_tail.
Qed.

(** A lock that ends before the range stays. *)
Lemma next_run fuel fuel' s L y f R lft o : own_loop (S fuel) cur i o s = own_loop fuel' cur i (mk_own (S (length L)) caller false lft 0) s →
  mine k f → result s (run_from fuel' (L ++ [(y, f)]) lft s) (L ++ [(y, f)]) R → result s (loop_and_finish cur i n1 n2 (S fuel) o s) L (seg_of f :: R).
Proof.
  intros Hrun Hf Hr. rewrite (run_loop_next _ _ _ _ _ _ _ _ _ _ Hrun). apply (result_cons _ _ _ y); [done|]. unfold run_from in Hr. by rewrite length_app, Nat.add_1_r in Hr.
Qed.

Lemma listed_shift s L y f R : at_inode s i (L ++ (y, f) :: R ++ O2) → at_inode s i ((L ++ [(y, f)]) ++ R ++ O2).
Proof using. by rewrite <-app_assoc. Qed.

Lemma place_run R : ∀ fuel s L c lo pt, ready s c → at_inode s i (L ++ R ++ O2) → all_mine k R → fl_type c ≠ F_UNLCK → sorted lo pt (segs R) → 0 <= lo →
  0 <= fl_start c → fl_start c <= fl_end c <= OFFSET_MAX → no_wrap (fl_type c) (fl_start c) (fl_end c) R → (length R < fuel)%nat →
  result s (run_from fuel L 0 s) L (put_range (fl_type c) (fl_start c) (fl_end c) (segs R)).
Proof.
  induction R as [|[y f] R IH]; intros fuel s L c lo pt Hr Hl HR Ht Hs Hp H0 He Hw Hf; (destruct fuel as [|fuel]; [cbn in Hf; lia|]); (assert (0 <= fl_start c <= OFFSET_MAX) as Hs0 by lia).
  - unfold run_from. rewrite (run_loop_done _ _ _ _ _ _ _ _ _ (loop_end fuel s L 0 c Hr Hl)). apply (new_stop s L L [] c 0); try done. by left.
  - pose proof (proj1 (all_mine_cons _ _ _ _) HR) as [Hy HR']. pose proof (loop_at fuel s L y f R 0 c Hr Hl Hy) as Hrun. cbv beta zeta iota in Hrun. pose proof Hs as Hs'.
    destruct Hs as (B1 & B2 & B3 & B4). cbn [segs fmap list_fmap snd seg_of sg_start sg_end sg_type put_range length] in B1, B2, B3, B4, Hf |- *.
    rewrite (loff_small (fl_start c - 1)) in Hrun by (unfold OFFSET_MAX in *; lia). pose proof (no_wrap_tail _ _ _ _ _ _ Hw) as Hwt. destruct (Z.eqb_spec (fl_type c) (fl_type f)) as [Htf|Htf].
    + destruct (Z.ltb_spec (fl_end f) (fl_start c - 1)).
      { apply (next_run fuel fuel s L y f _ 0); [exact Hrun|done|]. apply (IH fuel s (L ++ [(y, f)]) c (fl_end f + 1) (Some (fl_type f))); try done; [by apply listed_shift|lia..]. }
      destruct (no_wrap_joins _ _ _ _ _ y f R Hw (eq_sym Htf) ltac:(lia) ltac:(lia) B4 ltac:(lia)) as [Hm Hw'].
      rewrite loff_small in Hrun by (unfold OFFSET_MAX in *; lia). unfold run_from. destruct (Z.gtb_spec (fl_start f) (fl_end c + 1)).
      * rewrite (run_loop_done _ _ _ _ _ _ _ _ _ Hrun). apply (new_stop s L L ((y, f) :: R) c 0); try done. by left.
      * destruct (merge_step s L y f (R ++ O2) c Hr Hl) as (s1 & c1 & E1 & S1 & R1 & L1). rewrite E1 in Hrun. rewrite (run_loop_next _ _ _ _ _ _ _ _ _ _ Hrun).
        apply (result_step s s1); [done|].
        pose proof (taken_over fuel s1 L L y _ R 0 (fl_end f + 1) (Some (fl_type f)) c1 R1 L1 Hy HR') as Hend. cbn in Hend. rewrite Htf.
        apply Hend; try done; try lia; [by left].
    + destruct (Z.ltb_spec (fl_end f) (fl_start c)).
      { apply (next_run fuel fuel s L y f _ 0); [exact Hrun|done|]. apply (IH fuel s (L ++ [(y, f)]) c (fl_end f + 1) (Some (fl_type f))); try done; [by apply listed_shift|lia..]. }
      destruct (Z.ltb_spec (fl_start f) (fl_start c)) as [Hlt|Hge].
      2:{ apply (pending_run ((y, f) :: R) (S fuel) s L L c 0 (fl_start f) None); try done. by left. }
      destruct (Z.gtb_spec (fl_start f) (fl_end c)); [lia|]. destruct (Z.eqb_spec (fl_type c) F_UNLCK); [done|]. destruct (Z.gtb_spec (fl_end f) (fl_end c)).
      * unfold run_from. rewrite (run_loop_done _ _ _ _ _ _ _ _ _ Hrun). cbn [take_in sg_type sg_start sg_end]. destruct (Z.eqb_spec (fl_type c) (fl_type f)); [done|].
        destruct (Z.gtb_spec (fl_end c + 1) (fl_end c)); [|lia]. apply new_both; (done || lia).
      * rewrite Z.geb_leb in Hrun. destruct (Z.leb_spec (fl_start c) (fl_start f)); [lia|].
        pose proof (pending_run R fuel s (L ++ [(y, f)]) (L ++ [(y, set_fl_end (fl_start c - 1) f)]) c y (fl_end f + 1) (Some (fl_type f)) Hr (listed_shift _ _ _ _ _ Hl) HR' Ht B4) as Hend.
        unfold run_from in *. rewrite (run_loop_next _ _ _ _ _ _ _ _ _ _ Hrun). rewrite length_app, Nat.add_1_r in Hend.
        apply (result_cons _ _ L y (set_fl_end (fl_start c - 1) f)); [done|]. apply Hend; try done; try lia. right. by eexists L, f, [].
Qed.

(** ** Unlocking *)

Lemma result_clear s s' ys m D Q R r c : ready s c → m = Some ((n1, r), s') → moves_on i ys s s' → (∀ z, z ∈ ys → z = 0 ∨ z = n2 ∨ z ∈ i_flock i s) →
  r = 0 ∨ (r = n2 ∧ n2 ∉ ys) → at_inode s' i (D ++ Q ++ O2) → segs Q = R → all_mine k Q → result s m D R.
Proof.
  intros Hr Hm S1 Hys Hn2 Hl Hq Ha. exists (n1, r), s', Q. pose proof Hr as [Ok A B C N M].
  assert (∀ z f, idle s z f → z ≠ n2 → z ∉ ys) as Hout.
  { intros z f Hz Hne Hin. destruct (Hys z Hin) as [Hz0|[?|?]]; [|done|]; eapply (not_idle s c z f); eauto. }
  unfold left_over. split_and!; try done.
  - eapply step_mono; [|exact S1]. intros z [->|[->|?]]%Hys; [apply Hxs; set_solver..|by apply N].
  - right. split; [done|]. eapply idle_step; [exact S1| |done]. by eapply Hout.
  - destruct Hn2 as [->|[-> Hy]]; [by left|right]. split; [done|]. by eapply idle_step.
  - exists c. eapply idle_step; [exact S1| |done]. by eapply Hout.
Qed.

Lemma finish_clear c o s : ready s c → fl_type c = F_UNLCK → o_caller o = caller →
  own_finish i o n1 n2 s = (if o_added o then r ← own_edges i (o_before o) caller (o_left o) (o_right o) n2; mret (n1, r) else mret (n1, n2)) s.
Proof.
  intros Hr Ht Hc. destruct o as [p cl a l r]. cbn in Hc. subst cl. destruct (gl_has s caller c (idle_has _ _ _ (rd_caller _ _ Hr))) as [b Hb]. unfold own_finish.
  erewrite es_bind by exact Hb. change (fl_type (set_fl_wait 0 b c)) with (fl_type c). rewrite Ht. by destruct a.
Qed.

Lemma clear_stop s L L' R c a lft : ready s c → at_inode s i (L ++ R ++ O2) → fl_type c = F_UNLCK → all_mine k R → 0 <= fl_start c <= OFFSET_MAX →
  (a = true ∧ cut_left lft (fl_start c) L L') ∨ (a = false ∧ lft = 0 ∧ L' = L) →
  result s (own_finish i (mk_own (length L) caller a lft 0) n1 n2 s) L' (segs R).
Proof.
  intros Hr Hl Ht HR Hs Hcase. rewrite (finish_clear c) by done. cbn [o_added o_before o_left o_right]. destruct Hcase as [[-> Hcut]|(-> & -> & ->)].
  - destruct (edges_run i s _ (L' ++ R ++ O2) (length L) caller c lft n2 (rd_ok _ _ Hr) Hl (cut_left_app _ _ _ _ _ Hcut) (idle_has _ _ _ (rd_caller _ _ Hr)) Hs) as (s2 & H2 & S2 & L2 & _).
    pose proof (cut_left_in s _ _ _ _ _ Hcut Hl) as Hlft. eapply (result_clear s s2 [lft] _ L' R _ n2 c); try done; [by erewrite es_bind by exact H2| |].
    + intros z ->%list_elem_of_singleton. tauto.
    + right. split; [done|]. intros <-%list_elem_of_singleton. eapply not_idle; [exact Hr|exact Hlft|apply Hr].
  - eapply (result_clear s s [] _ L R _ n2 c); try done; [by apply step_refl, Hr|by intros z ?%elem_of_nil|right]. split; [done|apply not_elem_of_nil].
Qed.

Lemma clear_right s L L' y f R c lft : ready s c → at_inode s i (L ++ (y, f) :: R ++ O2) → fl_type c = F_UNLCK → cut_left lft (fl_start c) L L' → mine k f → all_mine k R →
  0 <= fl_start c <= OFFSET_MAX → 0 <= fl_end c < OFFSET_MAX →
  result s (own_finish i (mk_own (length L) caller true lft y) n1 n2 s) L' (mk_seg (fl_type f) (fl_end c + 1) (fl_end f) :: segs R).
Proof.
  intros Hr Hl Ht Hcut Hf HR Hs He. rewrite (finish_clear c) by done. cbn [o_added o_before o_left o_right]. pose proof (cut_left_in s _ _ _ _ _ Hcut Hl) as Hlft.
  assert (y ∈ i_flock i s) as Hy by (rewrite (proj1 Hl), fmap_app; apply elem_of_app; right; by left).
  destruct (edges_right_run i s L y f (R ++ O2) (L' ++ (y, set_fl_start (fl_end c + 1) f) :: R ++ O2) (length L) caller c lft n2 (rd_ok _ _ Hr) Hl) as (s2 & H2 & S2 & L2 & _); try done.
  { by apply cut_left_app. }
  { apply idle_has, Hr. }
  { intros Heq. subst y. by apply (not_idle s c caller c Hr); [right|apply Hr]. }
  { eapply names_differ; [apply Hr|exact Hl|]. destruct (cut_left_names _ _ _ _ Hcut) as [_ [?|?]]; [by left|by right; left]. }
  eapply (result_clear s s2 [lft; y] _ L' ((y, set_fl_start (fl_end c + 1) f) :: R) _ n2 c); try done; [by erewrite es_bind by exact H2| | |].
  - intros z [->| ->%list_elem_of_singleton]%elem_of_cons; tauto.
  - right. split; [done|]. intros Hz. assert (n2 = 0 ∨ n2 ∈ i_flock i s) as Hz' by set_solver. eapply not_idle; [exact Hr|exact Hz'|apply Hr].
  - by apply all_mine_cons.
Qed.

Lemma clear_both s L y f R c : ready s c → at_inode s i (L ++ (y, f) :: R ++ O2) → fl_type c = F_UNLCK → mine k f → all_mine k R → 0 <= fl_start c <= OFFSET_MAX →
  0 <= fl_end c < OFFSET_MAX →
  result s (own_finish i (mk_own (length L) caller true y y) n1 n2 s) L
    (mk_seg (fl_type f) (fl_start f) (fl_start c - 1) :: mk_seg (fl_type f) (fl_end c + 1) (fl_end f) :: segs R).
Proof.
  intros Hr Hl Ht Hf HR Hs He. rewrite (finish_clear c) by done. cbn [o_added o_before o_left o_right].
  assert (y ∈ i_flock i s) as Hy by (rewrite (proj1 Hl), fmap_app; apply elem_of_app; right; by left).
  destruct (edges_both_run i s L [] y f (R ++ O2) caller c n2 v2 (rd_ok _ _ Hr) Hl (rd_new2 _ _ Hr)) as (s2 & H2 & S2 & L2); try done.
  { apply idle_has, Hr. }
  { intros Heq. subst y. by apply (not_idle s c caller c Hr); [right|apply Hr]. }
  { intros Heq. subst y. by apply (not_idle s c n2 v2 Hr); [right|apply Hr]. }
  eapply (result_clear s s2 [n2; y] _ L ((n2, set_fl_end (fl_start c - 1) (copy_of v2 f)) :: (y, set_fl_start (fl_end c + 1) f) :: R) _ 0 c); try done;
    [by erewrite es_bind by exact H2| |by left|by rewrite !all_mine_cons].
  intros z [->| ->%list_elem_of_singleton]%elem_of_cons; tauto.
Qed.

(** What the loop reads at a lock when the range is unlocked. *)
Lemma clear_at fuel s L y f R a lft c : ready s c → at_inode s i (L ++ (y, f) :: R ++ O2) → fl_type c = F_UNLCK → mine k f → fl_type f ≠ F_UNLCK →
  own_loop (S fuel) cur i (mk_own (length L) caller a lft 0) s =
  (if fl_end f <? fl_start c then own_loop fuel cur i (mk_own (S (length L)) caller a lft 0)
   else if fl_start f >? fl_end c then mret (mk_own (length L) caller a lft 0)
   else
     let lft := if fl_start f <? fl_start c then y else lft in
     if fl_end f >? fl_end c then mret (mk_own (length L) caller true lft y)
     else if fl_start f >=? fl_start c then locks_delete_lock cur i (length L);; own_loop fuel cur i (mk_own (length L) caller true lft 0)
     else own_loop fuel cur i (mk_own (S (length L)) caller true lft 0)) s.
Proof.
  intros Hr Hl Ht Hf Htf. rewrite (loop_step cur i fuel s L y f R O2 k caller c _ (rd_ok _ _ Hr) Hl (idle_has _ _ _ (rd_caller _ _ Hr)) (proj1 (rd_mine _ _ Hr)) Hf) by done.
  cbv beta zeta iota. rewrite Ht. destruct (Z.eqb_spec F_UNLCK (fl_type f)); [congruence|]. done.
Qed.

Definition no_unlck (R : fdata) : Prop := ∀ y f, (y, f) ∈ R → fl_type f ≠ F_UNLCK.

Lemma clear_run R : ∀ fuel s L L' c a lft lo pt, ready s c → at_inode s i (L ++ R ++ O2) → all_mine k R → fl_type c = F_UNLCK → no_unlck R → sorted lo pt (segs R) → 0 <= lo →
  0 <= fl_start c → fl_start c <= fl_end c <= OFFSET_MAX → (length R < fuel)%nat →
  (a = true ∧ fl_start c <= lo ∧ cut_left lft (fl_start c) L L') ∨ (a = false ∧ lft = 0 ∧ L' = L) →
  result s (loop_and_finish cur i n1 n2 fuel (mk_own (length L) caller a lft 0) s) L' (clear (fl_start c) (fl_end c) (segs R)).
Proof.
  induction R as [|[y f] R IH]; intros fuel s L L' c a lft lo pt Hr Hl HR Ht Hnu Hs Hp H0 He Hf Hcase; (destruct fuel as [|fuel]; [cbn in Hf; lia|]);
    (assert (0 <= fl_start c <= OFFSET_MAX) as Hs0 by lia); (assert (a = true ∧ cut_left lft (fl_start c) L L' ∨ a = false ∧ lft = 0 ∧ L' = L) as Hcase' by tauto).
  - assert (own_loop (S fuel) cur i (mk_own (length L) caller a lft 0) s = Some (mk_own (length L) caller a lft 0, s)) as Hrun.
    { apply (loop_stop cur i fuel s L O2 caller c); [apply Hr|done|apply idle_has, Hr|]. by rewrite (proj1 (rd_mine _ _ Hr)). }
    rewrite (run_loop_done _ _ _ _ _ _ _ _ _ Hrun). by apply (clear_stop s L L' [] c).
  - pose proof (proj1 (all_mine_cons _ _ _ _) HR) as [Hy HR']. assert (no_unlck R) as Hnu' by (intros z h Hz; apply (Hnu z h); by right).
    pose proof (clear_at fuel s L y f R a lft c Hr Hl Ht Hy (Hnu y f ltac:(left))) as Hrun. cbv beta zeta iota in Hrun.
    destruct Hs as (B1 & B2 & B3 & B4). cbn [segs fmap list_fmap snd seg_of sg_start sg_end sg_type clear length] in B1, B2, B3, B4, Hf |- *.
    destruct (Z.ltb_spec (fl_end f) (fl_start c)).
    { destruct Hcase as [(-> & ? & _)|(-> & -> & ->)]; [lia|]. rewrite (run_loop_next _ _ _ _ _ _ _ _ _ _ Hrun). apply (result_cons _ _ L y f); [done|].
      pose proof (IH fuel s (L ++ [(y, f)]) (L ++ [(y, f)]) c false 0 _ _ Hr (listed_shift _ _ _ _ _ Hl) HR' Ht Hnu' B4) as Hend. rewrite length_app, Nat.add_1_r in Hend. apply Hend; try done; try lia. by right. }
    destruct (Z.gtb_spec (fl_start f) (fl_end c)); [rewrite (run_loop_done _ _ _ _ _ _ _ _ _ Hrun); by apply (clear_stop s L L' ((y, f) :: R) c)|].
    assert (fl_start c <= fl_start f → cut_left lft (fl_start c) L L') as Hkeep.
    { intros _. destruct Hcase' as [[_ ?]|(_ & -> & ->)]; [done|by left]. }
    assert (fl_start f < fl_start c → L' = L) as Hlf.
    { intros Hlt. destruct Hcase as [(_ & ? & _)|(_ & _ & ->)]; [lia|done]. }
    destruct (Z.ltb_spec (fl_start f) (fl_start c)) as [Hlt|Hge], (Z.gtb_spec (fl_end f) (fl_end c)) as [Hgt|Hle]; cbn [app].
    + rewrite (run_loop_done _ _ _ _ _ _ _ _ _ Hrun), (Hlf Hlt). apply clear_both; (done || lia).
    + rewrite Z.geb_leb in Hrun. destruct (Z.leb_spec (fl_start c) (fl_start f)); [lia|]. rewrite (run_loop_next _ _ _ _ _ _ _ _ _ _ Hrun), (Hlf Hlt).
      apply (result_cons _ _ L y (set_fl_end (fl_start c - 1) f)); [done|].
      pose proof (IH fuel s (L ++ [(y, f)]) (L ++ [(y, set_fl_end (fl_start c - 1) f)]) c true y _ _ Hr (listed_shift _ _ _ _ _ Hl) HR' Ht Hnu' B4) as Hend.
      rewrite length_app, Nat.add_1_r in Hend. apply Hend; try done; try lia. left. split_and!; [done|lia|]. right. by eexists L, f, [].
    + rewrite (run_loop_done _ _ _ _ _ _ _ _ _ Hrun). apply clear_right; try done; try lia. by apply Hkeep.
    + rewrite Z.geb_leb in Hrun. destruct (Z.leb_spec (fl_start c) (fl_start f)); [|lia].
      destruct (delete_lock_run cur s i L y f (R ++ O2) (rd_ok _ _ Hr) Hl) as (s1 & E1 & S1 & L1 & _). erewrite es_bind in Hrun by exact E1. rewrite (run_loop_next _ _ _ _ _ _ _ _ _ _ Hrun).
      destruct (ready_step s s1 c [y] Hr) as [Hr1 S1']; [|done|].
      { intros z ->%list_elem_of_singleton. right. rewrite (proj1 Hl), fmap_app. apply elem_of_app. right. by left. }
      apply (result_step s s1); [done|]. apply (IH fuel s1 L L' c true lft (fl_end f + 1) (Some (fl_type f))); try done; try lia. left. split_and!; [done|lia|by apply Hkeep].
Qed.

(** The loop and what follows it set the range. *)
Lemma set_run fuel s L R c : ready s c → at_inode s i (L ++ R ++ O2) → all_mine k R → no_unlck R → sorted 0 None (segs R) →
  0 <= fl_start c → fl_start c <= fl_end c <= OFFSET_MAX → no_wrap (fl_type c) (fl_start c) (fl_end c) R → (length R < fuel)%nat →
  result s (run_from fuel L 0 s) L (set_range (fl_type c) (fl_start c) (fl_end c) (segs R)).
Proof.
  intros Hr Hl HR Hnu Hs H0 He Hw Hf. unfold set_range. destruct (Z.eqb_spec (fl_type c) F_UNLCK) as [Ht|Ht].
  - unfold run_from. eapply clear_run; try done. by right.
  - eapply place_run; (done || lia).
Qed.
End put_range.
