(* ===== verification/LocksPosix.v ===== *)
(** The locks of an inode on ranges of bytes: whose they are, byte by byte, what
    [posix_lock_file] changes, and the tables that result from it and from
    [fcntl_setlk]. *)
From S2P Require Import Prelude Locks LocksOk LocksApply.
From stdpp Require Import list options.
#[local] Set Default Proof Using "Type*".
Open Scope cint_scope.
Open Scope Z_scope.

#[global] Instance mine_dec k f : Decision (mine k f).
Proof. unfold mine, posix. apply _. Defined.

(** * What the list means *)

Definition theirs (k : Z * Z) (D : fdata) : fdata := filter (λ xf, mine k xf.2) D.

(** The type of lock an owner has on a byte. *)
Definition held (D : fdata) (k : Z * Z) (b : Z) : option Z := at_byte (segs (theirs k D)) b.

(** Locks of other kinds first, then those of one owner after those of another,
    in the order of their ranges. *)
Record group_ok (k : Z * Z) (R : fdata) : Prop := {
  gr_mine : all_mine k R;
  gr_types x f : (x, f) ∈ R → fl_type f = F_RDLCK ∨ fl_type f = F_WRLCK;
  gr_sorted : sorted 0 None (segs R)
}.

Notation groups := (list ((Z * Z) * fdata)).

Record arranged_as (N : fdata) (G : groups) (D : fdata) : Prop := {
  ar_split : D = N ++ concat G.*2;
  ar_others x f : (x, f) ∈ N → ¬ posix f;
  ar_keys : NoDup G.*1;
  ar_groups k R : (k, R) ∈ G → group_ok k R
}.

Definition arranged (D : fdata) : Prop := ∃ N G, arranged_as N G D.

Lemma theirs_app k A B : theirs k (A ++ B) = theirs k A ++ theirs k B.
Proof. apply filter_app. Qed.

Lemma theirs_none k D : (∀ x f, (x, f) ∈ D → ¬ mine k f) → theirs k D = [].
Proof.
  unfold theirs. intros Hn. induction D as [|[x f] D IH]; [done|]. rewrite filter_cons. destruct (decide _) as [Hm|]; [destruct (Hn x f); [left|done]|]. apply IH. intros y g Hy. apply (Hn y g). by right.
Qed.

Lemma theirs_all k D : all_mine k D → theirs k D = D.
Proof.
  unfold theirs. induction D as [|[x f] D IH]; [done|]. intros [Hf HD]%all_mine_cons. rewrite filter_cons. destruct (decide _) as [|Hn]; [by rewrite IH|done].
Qed.

Lemma theirs_elem k D x f : (x, f) ∈ theirs k D ↔ mine k f ∧ (x, f) ∈ D.
Proof. unfold theirs. by rewrite list_elem_of_filter. Qed.

Lemma group_elem (G : groups) x f : (x, f) ∈ concat G.*2 ↔ ∃ k R, (k, R) ∈ G ∧ (x, f) ∈ R.
Proof.
  induction G as [|[k R] G IH]; cbn; [split; [by intros ?%elem_of_nil|by intros (? & ? & ?%elem_of_nil & _)]|]. rewrite elem_of_app, IH. setoid_rewrite elem_of_cons. split.
  - intros [Hx|(k' & R' & Hk & Hx)]; [exists k, R; by split; [left|]|exists k', R'; by split; [right|]].
  - intros (k' & R' & [[= -> ->]|Hk] & Hx); [by left|right]. by exists k', R'.
Qed.

(** Where the locks of an owner are. *)
Lemma arranged_at k N G D : arranged_as N G D →
  ∃ G1 R G2, (G = G1 ++ (k, R) :: G2 ∨ G = G1 ∧ R = [] ∧ G2 = []) ∧ D = (N ++ concat G1.*2) ++ R ++ concat G2.*2 ∧ group_ok k R ∧
    (∀ k' R', (k', R') ∈ G1 ++ G2 → k' ≠ k) ∧ (∀ x f, (x, f) ∈ N ++ concat G1.*2 → ¬ mine k f) ∧ (∀ x f, (x, f) ∈ concat G2.*2 → okey f ≠ k).
Proof.
  intros [-> HN Hk HG]. destruct (decide (k ∈ G.*1)) as [Hin|Hout].
  - apply list_elem_of_fmap in Hin as ([k' R] & -> & Hin). cbn. apply list_elem_of_split in Hin as (G1 & G2 & ->). exists G1, R, G2.
    rewrite fmap_app in Hk. cbn in Hk. apply NoDup_app in Hk as (_ & K1 & [K2 _]%list.NoDup_cons).
    assert (∀ k R', (k, R') ∈ G1 ++ G2 → k ≠ k') as Hne.
    { intros k R' [Hk|Hk]%elem_of_app ->; [apply (K1 k'); [|by left]|apply K2]; apply list_elem_of_fmap; by exists (k', R'). }
    split_and!; [by left|by rewrite fmap_app, concat_app, <-!app_assoc|apply HG, elem_of_app; right; left|done| |].
    + intros x f [Hx|Hx]%elem_of_app [M1 M2]; [by apply (HN x f)|]. apply group_elem in Hx as (k & R' & Hg & Hx). destruct (HG k R') as [Hm _ _]; [apply elem_of_app; by left|].
      apply (Hne k R'); [apply elem_of_app; by left|]. rewrite <-M1. symmetry. apply (Hm x f Hx).
    + intros x f Hx M1. apply group_elem in Hx as (k & R' & Hg & Hx). destruct (HG k R') as [Hm _ _]; [apply elem_of_app; right; by right|].
      apply (Hne k R'); [apply elem_of_app; by right|]. rewrite <-M1. symmetry. apply (Hm x f Hx).
  - exists G, [], []. cbn. assert (∀ k' R', (k', R') ∈ G → k' ≠ k) as Hne by (intros k' R' Hg ->; apply Hout, list_elem_of_fmap; by exists (k, R')).
    split_and!; [by right|by rewrite app_nil_r| | | |by intros ? ? ?%elem_of_nil].
    + split; [by intros ? ? ?%elem_of_nil|by intros ? ? ?%elem_of_nil|done].
    + intros k' R'. rewrite app_nil_r. apply Hne.
    + intros x f [Hx|Hx]%elem_of_app [M1 M2]; [by apply (HN x f)|]. apply group_elem in Hx as (k' & R' & Hg & Hx). apply (Hne k' R' Hg). rewrite <-M1. symmetry. apply (HG k' R' Hg) with x. done.
Qed.

(** Another range of locks in the place of an owner's. *)
Lemma arranged_with k N G D G1 R G2 Q : arranged_as N G D → (G = G1 ++ (k, R) :: G2 ∨ G = G1 ∧ R = [] ∧ G2 = []) → (∀ k' R', (k', R') ∈ G1 ++ G2 → k' ≠ k) → group_ok k Q →
  arranged_as N (G1 ++ (k, Q) :: G2) ((N ++ concat G1.*2) ++ Q ++ concat G2.*2).
Proof.
  intros [-> HN Hk HG] Hcase Hne HQ.
  assert (NoDup (G1 ++ G2).*1 ∧ ∀ k' R', (k', R') ∈ G1 ++ G2 → group_ok k' R') as [HD Hgr].
  { destruct Hcase as [->|(-> & -> & ->)]; [|by rewrite app_nil_r]. rewrite !fmap_app in *. cbn in Hk. apply NoDup_app in Hk as (K0 & K1 & [K2 K3]%list.NoDup_cons). split.
    - apply NoDup_app. split_and!; [done| |done]. intros x Hx Hx'. apply (K1 x Hx). by right.
    - intros k' R' Hx. apply HG. rewrite elem_of_app in *. rewrite elem_of_cons. tauto. }
  split; [by rewrite fmap_app, concat_app, <-!app_assoc|done| |].
  - rewrite !fmap_app in *. cbn. apply NoDup_app in HD as (K0 & K1 & K2). assert (∀ k', k' ∈ G1.*1 ∨ k' ∈ G2.*1 → k' ≠ k) as Hk'.
    { intros k' Hx. assert (k' ∈ (G1 ++ G2).*1) as Hx' by (rewrite fmap_app; by apply elem_of_app). apply list_elem_of_fmap in Hx' as ([k2 R'] & -> & Hx'). by apply (Hne k2 R'). }
    apply NoDup_app. split_and!; [done| |].
    + intros x Hx [->|Hx']%elem_of_cons; [by apply (Hk' k); [left|]|by apply (K1 x)].
    + apply list.NoDup_cons. split; [|done]. intros Hx. by apply (Hk' k); [right|].
  - intros k' R' [Hx|[[= -> ->]|Hx]%elem_of_cons]%elem_of_app; [|done|]; apply Hgr, elem_of_app; tauto.
Qed.

(** * The bytes of a list in order *)

Lemma at_byte_elem R : ∀ lo pt g b, sorted lo pt R → g ∈ R → within (sg_start g) (sg_end g) b = true → at_byte R b = Some (sg_type g).
Proof.
  induction R as [|h R IH]; intros lo pt g b Hs; [by intros ?%elem_of_nil|]. destruct Hs as (B1 & _ & B3 & B4). cbn. intros [->|Hg]%elem_of_cons Hb; [by rewrite Hb|].
  pose proof (sorted_elem _ _ _ _ B4 Hg). destruct (within_spec (sg_start g) (sg_end g) b); [|done]. destruct (within_spec (sg_start h) (sg_end h) b); [lia|].
  eapply IH; [exact B4|exact Hg|]. by destruct (within_spec (sg_start g) (sg_end g) b).
Qed.

Lemma at_byte_some R b t : at_byte R b = Some t → ∃ g, g ∈ R ∧ within (sg_start g) (sg_end g) b = true ∧ sg_type g = t.
Proof.
  induction R as [|h R IH]; cbn; [done|]. destruct (within (sg_start h) (sg_end h) b) eqn:Hw; [intros [= <-]; exists h; by split; [left|]|].
  intros (g & Hg & Hb)%IH. exists g. by split; [right|].
Qed.

Lemma theirs_group k N G D : arranged_as N G D → group_ok k (theirs k D).
Proof.
  intros Ha. destruct (arranged_at k _ _ _ Ha) as (G1 & R & G2 & _ & -> & HR & _ & HL & HO). rewrite theirs_app, (theirs_none k _ HL), theirs_app, (theirs_all k R), (theirs_none k (concat G2.*2)), app_nil_r; [done| |apply HR].
  intros x f Hx [Hm _]. by apply (HO x f).
Qed.

Lemma held_some k N G D b t : arranged_as N G D → held D k b = Some t ↔ ∃ x f, (x, f) ∈ D ∧ mine k f ∧ within (fl_start f) (fl_end f) b = true ∧ fl_type f = t.
Proof.
  intros Ha. pose proof (theirs_group k _ _ _ Ha) as [_ _ Hs]. unfold held. split.
  - intros ([t' s e] & Hg & Hb & Ht)%at_byte_some. apply list_elem_of_fmap in Hg as ([x f] & [= -> -> ->] & Hx). apply theirs_elem in Hx as [Hm Hx]. by exists x, f.
  - intros (x & f & Hx & Hm & Hb & <-). apply (at_byte_elem _ _ _ (seg_of f) b Hs); [|done]. apply list_elem_of_fmap. exists (x, f). split; [done|]. by apply theirs_elem.
Qed.

(** A lock with sense: a type and a range. *)
Record lock_ok (c : file_lock) : Prop := {
  lo_type : fl_type c = F_RDLCK ∨ fl_type c = F_WRLCK ∨ fl_type c = F_UNLCK;
  lo_start : 0 <= fl_start c;
  lo_range : fl_start c <= fl_end c <= OFFSET_MAX
}.

(** What the owner [k] has after it sets a range. *)
Definition set_held (k : Z * Z) (t s e : Z) (h : Z * Z → Z → option Z) (k' : Z * Z) (b : Z) : option Z :=
  if bool_decide (k' = k) && within s e b then (if t =? F_UNLCK then None else Some t) else h k' b.

Lemma set_range_types t s e R : (∀ g, g ∈ R → sg_type g = F_RDLCK ∨ sg_type g = F_WRLCK) → t = F_RDLCK ∨ t = F_WRLCK ∨ t = F_UNLCK →
  ∀ g, g ∈ set_range t s e R → sg_type g = F_RDLCK ∨ sg_type g = F_WRLCK.
Proof.
  unfold set_range. intros HR Ht. destruct (Z.eqb_spec t F_UNLCK) as [Hu|Hu].
  - clear Ht Hu. induction R as [|h R IH]; cbn [clear]; [by intros g ?%elem_of_nil|]. assert (∀ g, g ∈ R → sg_type g = F_RDLCK ∨ sg_type g = F_WRLCK) as HR' by (intros; apply HR; by right).
    assert (sg_type h = F_RDLCK ∨ sg_type h = F_WRLCK) as Hh by (apply HR; left). specialize (IH HR'). intros g. repeat case_match; rewrite ?elem_of_app, ?elem_of_cons, ?elem_of_nil; naive_solver.
  - assert (∀ R s e, (∀ g, g ∈ R → sg_type g = F_RDLCK ∨ sg_type g = F_WRLCK) → ∀ g, g ∈ take_in t s e R → sg_type g = F_RDLCK ∨ sg_type g = F_WRLCK) as Habs.
    { clear R HR s e. induction R as [|h R IH]; intros s e HR g; cbn [take_in]; [rewrite list_elem_of_singleton; naive_solver|].
      assert (∀ g, g ∈ R → sg_type g = F_RDLCK ∨ sg_type g = F_WRLCK) as HR' by (intros; apply HR; by right). assert (sg_type h = F_RDLCK ∨ sg_type h = F_WRLCK) as Hh by (apply HR; left).
      repeat case_match; rewrite ?elem_of_cons; naive_solver. }
    induction R as [|h R IH]; cbn [put_range]; [intros g; rewrite list_elem_of_singleton; naive_solver|].
    assert (∀ g, g ∈ R → sg_type g = F_RDLCK ∨ sg_type g = F_WRLCK) as HR' by (intros; apply HR; by right). assert (sg_type h = F_RDLCK ∨ sg_type h = F_WRLCK) as Hh by (apply HR; left).
    specialize (IH HR'). intros g. destruct (t =? sg_type h); [repeat case_match; rewrite ?elem_of_cons; naive_solver|]. case_match; [rewrite elem_of_cons; naive_solver|].
    case_match; [|by apply Habs]. intros [->|Hg]%elem_of_cons; [done|]. revert Hg. apply Habs. intros g'. case_match; [rewrite elem_of_cons; naive_solver|apply HR'].
Qed.

(** Without owners that have nothing. *)
Lemma arranged_trim N G D : arranged_as N G D → ∃ G', arranged_as N G' D ∧ ∀ k R, (k, R) ∈ G' → R ≠ [].
Proof.
  intros [-> HN Hk HG]. exists (filter (λ g, g.2 ≠ []) G). assert (∀ k R, (k, R) ∈ filter (λ g, g.2 ≠ []) G → R ≠ [] ∧ (k, R) ∈ G) as Hf by (intros k R; by rewrite list_elem_of_filter).
  split; [|intros k R Hg; by destruct (Hf k R Hg)]. split; [f_equal|done| |intros k R Hg; by apply HG, Hf].
  - clear. induction G as [|[k R] G IH]; [done|]. rewrite filter_cons. cbn. destruct (decide (R ≠ [])) as [|Hn]; cbn; [by rewrite IH|]. destruct R; [by rewrite <-IH|by destruct Hn].
  - clear -Hk. induction G as [|[k R] G IH]; [done|]. cbn in Hk. apply list.NoDup_cons in Hk as [H1 H2]. rewrite filter_cons. destruct (decide _); [|by apply IH].
    cbn. apply list.NoDup_cons. split; [|by apply IH]. intros ([k' R'] & -> & [_ Hin]%list_elem_of_filter)%list_elem_of_fmap. apply H1, list_elem_of_fmap. by exists (k', R').
Qed.

Section posix.
Context `{LockEnv} (cur : lk_task) (i : Z).

Definition at_mine (k : Z * Z) (B : fdata) : Prop := B = [] ∨ ∃ y f B', B = (y, f) :: B' ∧ mine k f.

Lemma skip_run A : ∀ fuel s P B caller c k, lk_ok s → at_inode s i (P ++ A ++ B) → has s caller c → okey c = k → (∀ x f, (x, f) ∈ A → ¬ mine k f) → at_mine k B → (length A < fuel)%nat →
  skip_others fuel i (length P) caller s = Some (length (P ++ A), s).
Proof using.
  induction A as [|[y f] A IH]; intros [|fuel] s P B caller c k Ok Hl Hc Hk HA HB Hf; cbn [length] in Hf; try lia; cbn [skip_others].
  - rewrite app_nil_r. destruct HB as [->|(y & f & B' & -> & Hm)].
    + rewrite !app_nil_r in Hl. by erewrite es_bind by by apply listed_end.
    + destruct (listed_pos _ _ _ _ _ _ Hl) as [Hp _]. erewrite es_bind by exact Hp. pose proof (member_nonzero _ _ _ _ _ _ Ok Hl). destruct (Z.eqb_spec y 0); [done|].
      destruct (gl_has s y f) as [b Hb]; [apply (proj2 Hl); apply elem_of_app; right; left|]. destruct (gl_has s caller c Hc) as [b' Hb'].
      erewrite es_bind by exact Hb. erewrite es_bind by exact Hb'. change (fl_flags (set_fl_wait 0 b f)) with (fl_flags f). rewrite (proj2 Hm).
      change (locks_same_owner (set_fl_wait 0 b' c) (set_fl_wait 0 b f)) with (locks_same_owner c f). by rewrite (same_owner_mine k).
  - destruct (listed_pos _ _ _ _ _ _ Hl) as [Hp _]. erewrite es_bind by exact Hp. pose proof (member_nonzero _ _ _ _ _ _ Ok Hl). destruct (Z.eqb_spec y 0); [done|].
    destruct (gl_has s y f) as [b Hb]; [apply (proj2 Hl); apply elem_of_app; right; left|]. destruct (gl_has s caller c Hc) as [b' Hb'].
    erewrite es_bind by exact Hb. erewrite es_bind by exact Hb'. change (fl_flags (set_fl_wait 0 b f)) with (fl_flags f).
    change (locks_same_owner (set_fl_wait 0 b' c) (set_fl_wait 0 b f)) with (locks_same_owner c f).
    assert (negb (fl_flags f & FL_POSIX) || negb (locks_same_owner c f) = true) as ->.
    { assert (¬ mine k f) as Hn by (apply (HA y f); left). unfold mine, posix in Hn. destruct (same_owner_spec c f) as [He|He]; [|by rewrite orb_true_r].
      destruct (fl_flags f & FL_POSIX); [|done]. exfalso. apply Hn. by rewrite He. }
    rewrite (IH fuel s (P ++ [(y, f)]) B caller c k) || (pose proof (IH fuel s (P ++ [(y, f)]) B caller c k) as Hend; rewrite length_app, Nat.add_1_r, <-!app_assoc in Hend; cbn [app] in Hend; apply Hend); try done; [|lia].
    intros x g Hx. apply (HA x g). by right.
Qed.

(** [posix_lock_file] from where nothing conflicts. *)
Lemma apply_run n1 n2 v1 v2 caller c s D xs : n1 ≠ n2 → caller ≠ n1 → caller ≠ n2 → (∀ z, z ∈ [0; caller; n1; n2] → z ∈ xs) → ready i n1 n2 v1 v2 caller (okey c) xs s c → at_inode s i D → arranged D →
  lock_ok c → no_wrap (fl_type c) (fl_start c) (fl_end c) (theirs (okey c) D) →
  ∃ r s' D', posix_apply cur i caller n1 n2 s = Some (r, s') ∧ moves_on i xs s s' ∧ at_inode s' i D' ∧ arranged D' ∧ left_over n1 n2 v1 v2 caller s' r ∧
    ∀ k b, held D' k b = set_held (okey c) (fl_type c) (fl_start c) (fl_end c) (held D) k b.
Proof using.
  intros H12 Hc1 Hc2 Hxs Hr Hl (N & G & Ha) [Ht H0 He] Hw. apply arranged_trim in Ha as (G' & Ha & Hne). clear G.
  destruct (arranged_at (okey c) _ _ _ Ha) as (G1 & R & G2 & Hcase & HD & HR & Hks & HL & HO). set (L := N ++ concat G1.*2) in *. set (O2 := concat G2.*2) in *.
  assert (theirs (okey c) D = R) as HDR.
  { rewrite HD. rewrite theirs_app, (theirs_none _ _ HL), theirs_app, (theirs_all _ R), (theirs_none _ O2), app_nil_r; [done| |apply HR]. intros x f Hx [Hm _]. by apply (HO x f). }
  assert (at_mine (okey c) (R ++ O2)) as Hat.
  { destruct R as [|[y f] R]; [|right; exists y, f, (R ++ O2); split; [done|]; apply (gr_mine _ _ HR y); left]. left. destruct Hcase as [->|(_ & _ & ->)]; [|done].
    exfalso. apply (Hne (okey c) []); [apply elem_of_app; right; left|done]. }
  assert (others_next (okey c) O2) as Hst by (intros y f O Heq; apply (HO y); rewrite Heq; left).
  pose proof Hl as Hl0. rewrite HD in Hl0. assert (length (i_flock i s) = (length L + (length R + length O2))%nat) as Hlen by (rewrite (proj1 Hl0), length_fmap, !length_app; done).
  unfold posix_apply. erewrite es_bind by done. erewrite es_bind.
  2:{ apply (skip_run L _ s [] (R ++ O2) caller c (okey c)); try done; [apply Hr|apply idle_has, Hr|lia]. }
  cbn [app]. destruct (set_run cur i n1 n2 v1 v2 caller (okey c) O2 xs Hst H12 Hc1 Hc2 Hxs (S (length (i_flock i s))) s L R c Hr Hl0) as (r & s' & Q & Hrun & S1 & L1 & HQ & HQm & Hlo); try done; try lia.
  { apply HR. }
  { intros y f Hy Hu. destruct (gr_types _ _ HR y f Hy) as [Hu'|Hu']; rewrite Hu in Hu'; done. }
  { apply HR. }
  { by rewrite <-HDR. }
  destruct (set_range_ok (fl_type c) (fl_start c) (fl_end c) (segs R) 0 None (gr_sorted _ _ HR)) as [HS HB]; [lia|done|lia|].
  assert (group_ok (okey c) Q) as HgQ.
  { split; [done| |by rewrite HQ]. intros y f Hy. apply (set_range_types (fl_type c) (fl_start c) (fl_end c) (segs R)) with (g := seg_of f); [|done|].
    - intros g ([y' f'] & -> & Hy')%list_elem_of_fmap. by apply (gr_types _ _ HR y').
    - rewrite <-HQ. apply list_elem_of_fmap. by exists (y, f). }
  exists r, s', (L ++ Q ++ O2). split_and!; [exact Hrun|done|done| |done|].
  - exists N, (G1 ++ (okey c, Q) :: G2). by eapply arranged_with.
  - intros k b. unfold set_held, held. destruct (bool_decide_reflect (k = okey c)) as [->|Hk]; cbn [andb].
    + rewrite HDR, theirs_app, (theirs_none _ _ HL), theirs_app, (theirs_all _ Q), (theirs_none _ O2), app_nil_l, app_nil_r, HQ; [apply HB| |done]. intros x f Hx [Hm _]. by apply (HO x f).
    + assert (∀ T, all_mine (okey c) T → theirs k T = []) as Hno by (intros T HT; apply theirs_none; intros x f Hx [Hm _]; destruct (HT x f Hx); congruence).
      rewrite HD, !theirs_app, (Hno Q), (Hno R); [done|apply HR|done].
Qed.

(** ** Conflicts *)

Definition conflicts (D : fdata) (c : file_lock) : Prop :=
  ∃ k b t, k ≠ okey c ∧ within (fl_start c) (fl_end c) b = true ∧ held D k b = Some t ∧ (fl_type c = F_WRLCK ∨ t = F_WRLCK).

Lemma first_run s test D : lk_ok s → (∀ b f, test (set_fl_wait 0 b f) = test f) → (∀ x f, (x, f) ∈ D → has s x f) →
  ∃ r, first_lock test D.*1 s = Some (r, s) ∧ (r = 0 ∧ (∀ x f, (x, f) ∈ D → test f = false) ∨ r ≠ 0 ∧ ∃ f, (r, f) ∈ D ∧ test f = true).
Proof using.
  intros Ok Ht. induction D as [|[x f] D IH]; intros Hh; cbn [first_lock fmap list_fmap fst].
  - exists 0. split; [done|left]. split; [done|]. by intros x f ?%elem_of_nil.
  - destruct (gl_has s x f) as [b Hb]; [apply Hh; left|]. erewrite es_bind by exact Hb. rewrite Ht. destruct (test f) eqn:Hf.
    + exists x. split; [done|right]. split; [eapply has_nonzero; [apply Ok|apply Hh; left]|]. exists f. by split; [left|].
    + destruct IH as (r & Hr & Hcase); [intros y g Hy; apply Hh; by right|]. exists r. split; [done|]. destruct Hcase as [[-> Hn]|(H0 & g & Hg & Htg)]; [left|right].
      * split; [done|]. intros y g [[= -> ->]|Hy]%elem_of_cons; [done|by apply (Hn y)].
      * split; [done|]. exists g. by split; [right|].
Qed.

Lemma locks_conflict_spec c f : lock_ok c → fl_type c ≠ F_UNLCK → fl_type f = F_RDLCK ∨ fl_type f = F_WRLCK →
  locks_conflict c f = true ↔ fl_type c = F_WRLCK ∨ fl_type f = F_WRLCK.
Proof using.
  intros [Ht _ _] Hu Hf. unfold locks_conflict, F_RDLCK, F_WRLCK, F_UNLCK in *.
  destruct (Z.eqb_spec (fl_type c) 0), (Z.eqb_spec (fl_type c) 1), (Z.eqb_spec (fl_type f) 1); try lia; split; intros; done || lia || tauto.
Qed.

Lemma posix_conflict_unfold c f : posix_locks_conflict c f = (fl_flags f & FL_POSIX) && negb (locks_same_owner c f) && locks_overlap c f && locks_conflict c f.
Proof using. unfold posix_locks_conflict. destruct (fl_flags f & FL_POSIX), (locks_same_owner c f); try done. cbn. by destruct (locks_overlap c f). Qed.

Lemma entry_types D x f : arranged D → (x, f) ∈ D → posix f → fl_type f = F_RDLCK ∨ fl_type f = F_WRLCK.
Proof using. intros (N & G & Ha) Hx Hp. pose proof (theirs_group (okey f) _ _ _ Ha) as [_ Hty _]. apply (Hty x f). by apply theirs_elem. Qed.

(** A lock that is in the way is so on some byte. *)
Lemma conflict_bytes D c r f : arranged D → lock_ok c → fl_type c ≠ F_UNLCK → (r, f) ∈ D → posix_locks_conflict c f = true →
  okey f ≠ okey c ∧ ∃ b, within (fl_start c) (fl_end c) b = true ∧ held D (okey f) b = Some (fl_type f) ∧ (fl_type c = F_WRLCK ∨ fl_type f = F_WRLCK).
Proof using.
  intros Har Hco Hu Hf Ht. rewrite posix_conflict_unfold in Ht. destruct (fl_flags f & FL_POSIX) eqn:Hp; [|done]. destruct (same_owner_spec c f) as [|Hne]; [done|]. cbn in Ht.
  apply andb_true_iff in Ht as [Hov Hlc]. pose proof (entry_types D r f Har Hf Hp) as Hty. destruct Har as (N & G & Ha). split; [done|].
  unfold locks_overlap in Hov. apply andb_true_iff in Hov as [Ho1 Ho2]. apply Z.geb_le in Ho1, Ho2. pose proof Hco as [_ Hc2 Hc3].
  assert (group_ok (okey f) (theirs (okey f) D)) as [_ _ Hso] by by eapply theirs_group. destruct (sorted_elem _ _ _ (seg_of f) Hso) as [Hf1 Hf2].
  { apply list_elem_of_fmap. exists (r, f). split; [done|]. by apply theirs_elem. }
  cbn in Hf1, Hf2. exists (Z.max (fl_start c) (fl_start f)). split_and!.
  - destruct (within_spec (fl_start c) (fl_end c) (Z.max (fl_start c) (fl_start f))); [done|lia].
  - eapply held_some; [exact Ha|]. exists r, f. split; [done|]. split; [by split|]. split; [|done]. destruct (within_spec (fl_start f) (fl_end f) (Z.max (fl_start c) (fl_start f))); [done|lia].
  - by apply locks_conflict_spec in Hlc.
Qed.

Lemma posix_conflict_run s D caller c : lk_ok s → at_inode s i D → arranged D → has s caller c → lock_ok c → fl_type c ≠ F_UNLCK →
  ∃ r, posix_conflict i caller s = Some (r, s) ∧ (r = 0 ∧ ¬ conflicts D c ∨ r ≠ 0 ∧ conflicts D c ∧ ∃ f, (r, f) ∈ D ∧ posix_locks_conflict c f = true).
Proof using.
  intros Ok Hl Har Hc Hco Hu. pose proof Har as (N & G & Ha). unfold posix_conflict. destruct (gl_has s caller c Hc) as [b Hb]. erewrite es_bind by exact Hb. erewrite es_bind by done. rewrite (proj1 Hl).
  destruct (first_run s (λ fl, (fl_flags fl & FL_POSIX) && posix_locks_conflict (set_fl_wait 0 b c) fl) D Ok) as (r & Hr & Hcase); [done|apply Hl|]. exists r. split; [exact Hr|].
  destruct Hcase as [[-> Hn]|(H0 & f & Hf & Ht)]; [left|right].
  - split; [done|]. intros (k & z & t & Hk & Hz & Hh & Hw). apply (held_some k _ _ _ _ _ Ha) in Hh as (x & f & Hx & [Hm Hp] & Hin & <-). specialize (Hn x f Hx). cbn in Hn.
    change (posix_locks_conflict (set_fl_wait 0 b c) f) with (posix_locks_conflict c f) in Hn. rewrite posix_conflict_unfold in Hn.
    rewrite Hp in Hn. destruct (same_owner_spec c f) as [He|_]; [congruence|]. cbn in Hn. unfold posix in Hp.
    assert (locks_overlap c f = true) as Hov.
    { unfold locks_overlap. destruct (within_spec (fl_start c) (fl_end c) z); [|done]. destruct (within_spec (fl_start f) (fl_end f) z); [|done].
      apply andb_true_intro. split; apply Z.geb_le; lia. }
    rewrite Hov in Hn. rewrite (proj2 (locks_conflict_spec c f Hco Hu (entry_types D x f Har Hx Hp)) Hw) in Hn. done.
  - assert (posix_locks_conflict c f = true) as Hpl by (by apply andb_true_iff in Ht as [_ Ht]). destruct (conflict_bytes D c r f Har Hco Hu Hf Hpl) as (Hne & z & Hz & Hh & Hw).
    split; [done|]. split; [|by exists f]. exists (okey f), z, (fl_type f). by split_and!.
Qed.
End posix.

(** [posix_lock_file] and the calls of [fcntl] that set a lock. *)

Section setlk.
Context `{LockEnv} (cur : lk_task) (i : Z).

(** ** Structures *)

Lemma clean_self f : fl_next f = 0 → fl_block f = [] → set_fl_wait 0 [] f = f.
Proof using. intros Hn Hb. destruct f. cbn in *. by subst. Qed.

(** A new structure. *)
Lemma fresh_ok s p v : lk_ok s → p ≠ 0 → lk_locks s !! p = None → fl_next v = 0 → fl_block v = [] →
  let s' := set_lk_locks (<[p := v]> (lk_locks s)) s in lk_ok s' ∧ kept [] s s' ∧ idle s' p v ∧ edges [] s s'.
Proof using.
  intros [[W0 W1 W2 W3 W4] L] H0 Hp Hn Hb s'. assert (kept [] s s') as K.
  { split. intros y h _ Hh. exists (fl_next h), (fl_block h). rewrite set_wait_self. split; [|done]. cbn. rewrite lookup_insert_ne; [done|]. intros ->. congruence. }
  assert (∀ y h, lk_locks s !! y = Some h → lk_locks s' !! y = Some h) as Hold by (intros y h Hh; cbn; rewrite lookup_insert_ne; [done|intros ->; congruence]).
  assert (∀ y h, lk_locks s' !! y = Some h → (y = p ∧ h = v) ∨ lk_locks s !! y = Some h) as Hnew.
  { intros y h Hy. cbn in Hy. destruct (decide (y = p)) as [->|]; [rewrite lookup_insert_eq in Hy; left; by injection Hy|rewrite lookup_insert_ne in Hy by done; by right]. }
  split_and!; [split; [split|]|done| |].
  - destruct (lk_locks s' !! 0) eqn:Hz; [|done]. apply Hnew in Hz as [[? _]|Hz]; [congruence|by rewrite W0 in Hz].
  - intros b f w [[-> ->]|Hf]%Hnew Hw; [rewrite Hb in Hw; by apply elem_of_nil in Hw|]. destruct (W1 b f w Hf Hw) as (g & Hg & Hgn). exists g. split; [by apply Hold|done].
  - intros b f [[-> ->]|Hf]%Hnew; [rewrite Hb; apply NoDup_nil_2|by apply (W2 b)].
  - intros w g [[-> ->]|Hg]%Hnew Hgn; [done|]. destruct (W3 w g Hg Hgn) as (f & Hf & Hin). exists f. split; [by apply Hold|done].
  - intros w. change (blocked_list s') with (blocked_list s). rewrite W4. split; intros (g & Hg & Hgn); [exists g; split; [by apply Hold|done]|].
    apply Hnew in Hg as [[_ ->]|Hg]; [done|by exists g].
  - apply (lists_kept s); try done. intros j x f _ Hx. exists f. eapply kept_has; [exact K|apply not_elem_of_nil|exact Hx].
  - split; [cbn; by rewrite lookup_insert_eq, clean_self|]. intros j Hj. destruct (li_held _ L j p Hj) as (f & b & Hf). congruence.
  - intros w g [[-> ->]|Hg]%Hnew Hgn; [done|]. exists g. split_and!; try done. intros _. split; [|done]. intros h [[Heq ->]|Hh]%Hnew; [|exists h; split; [done|apply covers_refl]].
    destruct (W3 w g Hg Hgn) as (f & Hf & _). congruence.
Qed.

Lemma same_but_tasks s s' : lk_ok s → lk_locks s' = lk_locks s → lk_inodes s' = lk_inodes s → file_lock_list s' = file_lock_list s → blocked_list s' = blocked_list s → lk_ok s' ∧ kept [] s s' ∧ edges [] s s'.
Proof using.
  intros [W L] Hl Hi Hf Hb. split_and!; [split| |].
  - apply (waits_same s); [|done]. split; [done|]. intros y. by rewrite Hl.
  - apply (lists_kept s); try done. intros j x f _ [b Hx]. exists f, b. by rewrite Hl.
  - split. intros y h _ Hh. exists (fl_next h), (fl_block h). by rewrite set_wait_self, Hl.
  - intros w g. rewrite Hl. intros Hg Hn. exists g. split_and!; try done. intros _. split; [|intros j; unfold i_flock; by rewrite Hi].
    rewrite Hl. intros h Hh. exists h. split; [done|apply covers_refl].
Qed.

(** What a call does with structures of its own. *)
Record quiet (ys : list Z) (s s' : lk) : Prop := {
  qt_ok : lk_ok s';
  qt_kept : kept ys s s';
  qt_edges : edges [] s s';
  qt_inodes : lk_inodes s' = lk_inodes s
}.

Lemma quiet_refl ys s : lk_ok s → quiet ys s s.
Proof using. intros Ok. split; [done|apply kept_refl|apply edges_refl|done]. Qed.

Lemma quiet_trans ys s1 s2 s3 : quiet ys s1 s2 → quiet ys s2 s3 → quiet ys s1 s3.
Proof using. intros [A1 A2 Ae A3] [B1 B2 Be B3]. split; [done|by eapply kept_trans|by eapply edges_trans|congruence]. Qed.

Lemma quiet_mono ys zs s s' : (∀ x, x ∈ ys → x ∈ zs) → quiet ys s s' → quiet zs s s'.
Proof using. intros Hs [A B E C]. split; [done|by eapply kept_mono|done|done]. Qed.

Lemma quiet_step ys s s' j : quiet ys s s' → moves_on j ys s s'.
Proof using. intros [A B E C]. by apply step_same. Qed.

Lemma quiet_listed ys s s' j D : quiet ys s s' → (∀ y, y ∈ ys → y ∉ i_flock j s) → at_inode s j D → at_inode s' j D.
Proof using.
  intros [A B E C] Hy [Hl Hh]. split; [unfold i_flock in *; by rewrite C|]. intros x f Hx. eapply kept_has; [exact B| |by apply Hh].
  intros Hin. apply (Hy x Hin). rewrite Hl. apply list_elem_of_fmap. by exists (x, f).
Qed.

Lemma quiet_idle ys s s' y f : quiet ys s s' → y ∉ ys → idle s y f → idle s' y f.
Proof using. intros Hq. eapply (idle_step 0); by apply quiet_step. Qed.

Lemma lock_alloc_run account s : lk_ok s → ∃ p s', locks_alloc_lock cur account s = Some (p, s') ∧ quiet [] s s' ∧
  (p = 0 ∧ (lk_alloc s = None ∨ account = true ∧ default 0 (task_locks s !! lt_pid cur) >= lt_rlim_locks cur) ∨ lk_locks s !! p = None ∧ ∃ v, idle s' p v).
Proof using.
  intros Ok. unfold locks_alloc_lock. erewrite es_bind by done. destruct (account && _) eqn:Ha.
  { apply andb_true_iff in Ha as [-> Ha]. apply Z.geb_le in Ha. exists 0, s. split_and!; [done|by apply quiet_refl|left]. split; [done|]. right. split; [done|lia]. }
  destruct (lk_alloc s) as [[p v]|] eqn:Hal.
  - destruct (lk_alloc_fresh s p v Hal) as [H0 Hp]. destruct (lk_alloc_clean s p v Hal) as [Hn Hb]. destruct (fresh_ok s p v Ok H0 Hp Hn Hb) as (Ok1 & K1 & I1 & E1).
    set (s1 := set_lk_locks (<[p := v]> (lk_locks s)) s) in *. assert (filelock_cache_alloc s = Some (p, s1)) as Hfa by (unfold filelock_cache_alloc; by rewrite Hal).
    erewrite es_bind by exact Hfa. destruct (Z.eqb_spec p 0); [done|]. cbn [negb]. unfold count_locks, setl. erewrite es_bind by done. eexists p, _. split; [done|].
    destruct (same_but_tasks s1 (set_task_locks (<[lt_pid cur := u32 (default 0 (task_locks s1 !! lt_pid cur) + 1)]> (task_locks s1)) s1) Ok1) as (Ok2 & K2 & E2); [done..|].
    split; [split; [done|by eapply kept_trans|by eapply edges_trans|done]|right]. split; [done|]. by exists v.
  - assert (filelock_cache_alloc s = Some (0, s)) as Hfa by (unfold filelock_cache_alloc; by rewrite Hal). erewrite es_bind by exact Hfa. cbn [Z.eqb negb]. erewrite es_bind by done.
    exists 0, s. split_and!; [done|by apply quiet_refl|left]. split; [done|by left].
Qed.

Lemma idle_free s x f : lk_ok s → idle s x f → ∃ s', locks_free_lock cur x s = Some (tt, s') ∧ quiet [x] s s'.
Proof using.
  intros Ok Hi. destruct (free_run cur s x f Ok) as (s' & H1 & Ok' & K & I' & _ & _ & _ & E); [by eapply idle_nonzero|done|]. exists s'. split; [done|by split].
Qed.

(** The structures that are left go. *)
Lemma free_one s r n v : lk_ok s → r = 0 ∨ r = n ∧ idle s n v →
  ∃ s' ys, (if negb (r =? 0) then locks_free_lock cur r else mret tt) s = Some (tt, s') ∧ quiet ys s s' ∧ ∀ y, y ∈ ys → y = n ∧ idle s n v.
Proof using.
  intros Ok [->|[-> Hi]]; [exists s, []; split_and!; [done|by apply quiet_refl|by intros ? ?%elem_of_nil]|].
  destruct (Z.eqb_spec n 0) as [->|]; [by apply idle_nonzero in Hi|]. destruct (idle_free s n v Ok Hi) as (s' & H1 & Q). exists s', [n]. split_and!; [done|done|]. by intros y ->%list_elem_of_singleton.
Qed.

Lemma free_unused_run s r1 r2 n1 n2 v1 v2 : lk_ok s → n1 ≠ n2 → r1 = 0 ∨ r1 = n1 ∧ idle s n1 v1 → r2 = 0 ∨ r2 = n2 ∧ idle s n2 v2 →
  ∃ s' ys, free_unused cur r1 r2 s = Some (tt, s') ∧ quiet ys s s' ∧ ∀ y, y ∈ ys → (y = n1 ∨ y = n2) ∧ ∀ j, y ∉ i_flock j s.
Proof using.
  intros Ok Hne H1 H2. unfold free_unused. destruct (free_one s r1 n1 v1 Ok H1) as (s1 & y1 & E1 & Q1 & Y1). erewrite es_bind by exact E1.
  assert (r2 = 0 ∨ r2 = n2 ∧ idle s1 n2 v2) as H2'.
  { destruct H2 as [?|[? Hi]]; [by left|right]. split; [done|]. eapply quiet_idle; [exact Q1| |done]. intros Hy. by destruct (Y1 _ Hy). }
  destruct (free_one s1 r2 n2 v2 (qt_ok _ _ _ Q1) H2') as (s2 & y2 & E2 & Q2 & Y2). exists s2, (y1 ++ y2). split_and!; [exact E2| |].
  - eapply quiet_trans; (eapply quiet_mono; [|done]); set_solver.
  - intros y [Hy|Hy]%elem_of_app; [destruct (Y1 y Hy) as (-> & _ & Hi); by split; [left|]|destruct (Y2 y Hy) as (-> & _ & Hi)]. split; [by right|].
    intros j. specialize (Hi j). unfold i_flock in *. by rewrite (qt_inodes _ _ _ Q1) in Hi.
Qed.

(** ** [posix_lock_file] *)

(** A request: the lock the caller filled in, the two new structures and the
    locks of the inode. *)
Record request (s : lk) (caller : Z) (c : file_lock) (D : fdata) : Prop := {
  rq_ok : lk_ok s;
  rq_caller : idle s caller c;
  rq_posix : posix c;
  rq_lock : lock_ok c;
  rq_listed : at_inode s i D;
  rq_arranged : arranged D;
  rq_no_wrap : no_wrap (fl_type c) (fl_start c) (fl_end c) (theirs (okey c) D)
}.

Lemma request_quiet ys s s' caller c D : request s caller c D → quiet ys s s' → (∀ y, y ∈ ys → y ∉ i_flock i s ∧ y ≠ caller) → request s' caller c D.
Proof using.
  intros [Ok Hc Hp Hlo Hl Ha Hw] Hq Hy. split; try done; [apply Hq|eapply quiet_idle; [exact Hq| |done]; intros Hin; by destruct (Hy _ Hin)|].
  eapply quiet_listed; [exact Hq| |done]. intros y Hin. by apply Hy.
Qed.

Definition may_have (c : file_lock) (D : fdata) : Prop := fl_type c = F_UNLCK ∨ ¬ conflicts D c.

(** The lock is set. *)
Lemma attempt_granted s caller c D n1 n2 v1 v2 wait : request s caller c D → idle s n1 v1 → idle s n2 v2 → n1 ≠ n2 → caller ≠ n1 → caller ≠ n2 → may_have c D →
  ∃ s' D', posix_attempt cur i caller wait n1 n2 s = Some (PxDone 0, s') ∧ moves_on i (0 :: caller :: n1 :: n2 :: i_flock i s) s s' ∧ at_inode s' i D' ∧ arranged D' ∧ (∃ c', idle s' caller c') ∧
    ∀ k b, held D' k b = set_held (okey c) (fl_type c) (fl_start c) (fl_end c) (held D) k b.
Proof using.
  intros [Ok Hc Hp Hlo Hl Ha Hw] I1 I2 H12 Hc1 Hc2 Hgr. unfold posix_attempt. destruct (gl_has s caller c (idle_has _ _ _ Hc)) as [b Hb]. erewrite es_bind by exact Hb.
  change (fl_type (set_fl_wait 0 b c)) with (fl_type c). erewrite es_bind.
  2:{ destruct (Z.eqb_spec (fl_type c) F_UNLCK); [done|]. destruct (posix_conflict_run i s D caller c Ok Hl Ha (idle_has _ _ _ Hc) Hlo) as (r & Hr & [[-> _]|(_ & Hcf & _)]); [done|exact Hr|].
      by destruct Hgr. }
  cbn [Z.eqb negb]. set (xs := 0 :: caller :: n1 :: n2 :: i_flock i s).
  destruct (apply_run cur i n1 n2 v1 v2 caller c s D xs) as (r & s1 & D' & H1 & S1 & L1 & A1 & (O1 & O2 & c' & O3) & B1); try done.
  { intros z. unfold xs. rewrite !elem_of_cons. intros [|[|[|[|?%elem_of_nil]]]]; tauto. }
  { split; try done. intros z Hz. unfold xs. rewrite !elem_of_cons. tauto. }
  erewrite es_bind by exact H1. destruct r as [r1 r2]. cbn [fst snd] in *.
  destruct (free_unused_run s1 r1 r2 n1 n2 v1 v2 (st_ok _ _ _ _ S1) H12 O1 O2) as (s2 & ys & H2 & Q2 & Y2). erewrite es_bind by exact H2. exists s2, D'. split_and!; try done.
  - eapply step_trans; [exact S1|]. eapply step_mono; [|by apply quiet_step]. intros y Hy. unfold xs. rewrite !elem_of_cons. destruct (Y2 y Hy) as [[->| ->] _]; tauto.
  - eapply quiet_listed; [exact Q2| |done]. intros y Hy. by apply Y2.
  - exists c'. eapply quiet_idle; [exact Q2| |done]. intros Hy. by destruct (Y2 _ Hy) as [[?|?] _].
Qed.

(** Another owner has a lock in the way. *)
Lemma attempt_conflict s caller c D : request s caller c D → ¬ may_have c D →
  ∃ r f, (∀ n1 n2 wait, posix_attempt cur i caller wait n1 n2 s =
    (if negb wait then free_unused cur n1 n2;; mret (PxDone (- EAGAIN))
     else
       dead ← posix_locks_deadlock caller r;
       if (dead : bool) then free_unused cur n1 n2;; mret (PxDone (- EDEADLK))
       else locks_insert_block r caller;; mret (PxSleep n1 n2)) s) ∧ (r, f) ∈ D ∧ posix_locks_conflict c f = true.
Proof using.
  intros [Ok Hc Hp Hlo Hl Ha Hw] Hgr. destruct (gl_has s caller c (idle_has _ _ _ Hc)) as [b Hb].
  assert (fl_type c ≠ F_UNLCK) as Hu by (intros Hu; apply Hgr; by left).
  destruct (posix_conflict_run i s D caller c Ok Hl Ha (idle_has _ _ _ Hc) Hlo Hu) as (r & Hr & [[-> Hn]|(H0 & Hcf & f & Hf & Hpl)]); [by destruct Hgr; right|].
  exists r, f. split; [|done]. intros n1 n2 wait. unfold posix_attempt. erewrite es_bind by exact Hb. change (fl_type (set_fl_wait 0 b c)) with (fl_type c).
  destruct (Z.eqb_spec (fl_type c) F_UNLCK); [done|]. cbn [negb]. erewrite es_bind by exact Hr. destruct (Z.eqb_spec r 0); [done|]. reflexivity.
Qed.

End setlk.

(** The locks that the structures of an inode stand for, and when they are in
    order. *)

(** * The table of an inode *)

Definition alone (f : file_lock) : file_lock := set_fl_wait 0 [] f.

Definition entries (s : lk) (i : Z) : fdata := omap (λ x, (λ f, (x, alone f)) <$> lk_locks s !! x) (i_flock i s).

(** The type of lock an owner has on a byte of an inode. *)
Definition type_at (s : lk) (i : Z) : Z * Z → Z → option Z := held (entries s i).

Definition bare (D : fdata) : fdata := (λ xf, (xf.1, alone xf.2)) <$> D.

Lemma listed_entries s i D : at_inode s i D → entries s i = bare D.
Proof.
  intros [Hl Hh]. unfold entries, bare. rewrite Hl. clear Hl. induction D as [|[x f] D IH]; [done|]. cbn. destruct (Hh x f) as [b Hb]; [left|]. rewrite Hb. cbn.
  f_equal. apply IH. intros y g Hy. apply Hh. by right.
Qed.

Lemma plain_elem x f D : (x, f) ∈ D → (x, alone f) ∈ bare D.
Proof. intros Hx. apply list_elem_of_fmap. by exists (x, f). Qed.

Lemma plain_inv x f D : (x, f) ∈ bare D → ∃ f0, f = alone f0 ∧ (x, f0) ∈ D.
Proof. intros ([y g] & [= -> ->] & Hy)%list_elem_of_fmap. by exists g. Qed.

Lemma plain_segs D : segs (bare D) = segs D.
Proof. unfold segs, bare. rewrite <-list_fmap_compose. by apply list_fmap_ext. Qed.

Lemma plain_theirs k D : theirs k (bare D) = bare (theirs k D).
Proof.
  unfold theirs, bare. induction D as [|[x f] D IH]; [done|]. cbn [fmap list_fmap fst snd]. rewrite !filter_cons. cbn [snd]. 
  destruct (decide (mine k f)) as [Hm|Hm].
  - destruct (decide (mine k (alone f))) as [_|Hn]; [cbn; by rewrite IH|by destruct Hn].
  - destruct (decide (mine k (alone f))) as [Hn|_]; [by destruct Hm|exact IH].
Qed.

Lemma plain_held D k b : held (bare D) k b = held D k b.
Proof. unfold held. by rewrite plain_theirs, plain_segs. Qed.

Lemma plain_arranged D : arranged D → arranged (bare D).
Proof.
  intros (N & G & [-> HN Hk HG]). exists (bare N), ((λ g, (g.1, bare g.2)) <$> G). split.
  - unfold bare. rewrite fmap_app. f_equal. clear. induction G as [|[k R] G IH]; [done|]. cbn. by rewrite fmap_app, IH.
  - intros x f (f0 & -> & Hx)%plain_inv. by apply (HN x f0).
  - rewrite <-list_fmap_compose. by erewrite list_fmap_ext.
  - intros k R ([k' R'] & [= -> ->] & Hg)%list_elem_of_fmap. destruct (HG k' R' Hg) as [A B C]. split; [|intros x f (f0 & -> & Hx)%plain_inv; by apply (B x f0)|by rewrite plain_segs].
    intros x f (f0 & -> & Hx)%plain_inv. by apply (A x f0).
Qed.

Lemma entries_listed s i : lk_ok s → at_inode s i (entries s i).
Proof.
  intros [_ L]. assert (∀ l, (∀ x, x ∈ l → ∃ f, has s x f) → (omap (λ x, (λ f, (x, alone f)) <$> lk_locks s !! x) l).*1 = l ∧
    ∀ x f, (x, f) ∈ omap (λ x, (λ f, (x, alone f)) <$> lk_locks s !! x) l → has s x f) as Hgo.
  { induction l as [|x l IH]; intros Hl; [by split; [|intros ? ? ?%elem_of_nil]|]. destruct (Hl x) as (f & b & Hf); [left|]. destruct IH as [I1 I2]; [intros y Hy; apply Hl; by right|].
    cbn. rewrite Hf. cbn. split; [by rewrite I1|]. intros y g [[= -> ->]|Hy]%elem_of_cons; [|by apply I2]. exists b. by rewrite Hf. }
  destruct (Hgo (i_flock i s)) as [G1 G2]; [apply (li_held _ L)|]. by split.
Qed.

Lemma entries_kept ys s s' j : lk_ok s → lk_ok s' → i_flock j s' = i_flock j s → kept ys s s' → (∀ y, y ∈ ys → y ∉ i_flock j s) → entries s' j = entries s j.
Proof.
  intros Ok Ok' Hj K Hy. pose proof (entries_listed s j Ok) as [Hl Hh]. rewrite (listed_entries s' j (entries s j)).
  - unfold bare, entries. rewrite list_fmap_omap. apply list_omap_ext. clear. induction (i_flock j s) as [|x l IH]; constructor; [by destruct (lk_locks s !! x)|done].
  - split; [by rewrite Hj|]. intros x f Hx. eapply kept_has; [exact K| |by apply Hh]. intros Hin. apply (Hy x Hin). rewrite Hl. apply list_elem_of_fmap. by exists (x, f).
Qed.

(** * No two owners are in each other's way *)

Definition compatible (h : Z * Z → Z → option Z) : Prop := ∀ k k' b t t', k ≠ k' → h k b = Some t → h k' b = Some t' → t = F_RDLCK ∧ t' = F_RDLCK.

Record table_ok (s : lk) (i : Z) : Prop := {
  tb_arranged : arranged (entries s i);
  tb_compatible : compatible (type_at s i)
}.

Lemma held_type D k b t : arranged D → held D k b = Some t → t = F_RDLCK ∨ t = F_WRLCK.
Proof.
  intros (N & G & Ha) Hh. pose proof Hh as Hh'. apply (held_some k N G D b t Ha) in Hh as (x & f & Hx & Hm & _ & <-).
  apply (gr_types _ _ (theirs_group k _ _ _ Ha) x). by apply theirs_elem.
Qed.

Lemma set_compatible D c : arranged D → compatible (held D) → lock_ok c → fl_type c = F_UNLCK ∨ ¬ conflicts D c →
  compatible (set_held (okey c) (fl_type c) (fl_start c) (fl_end c) (held D)).
Proof.
  intros Ha Hc Hlo Hg.
  assert (∀ k b t, k ≠ okey c → within (fl_start c) (fl_end c) b = true → fl_type c ≠ F_UNLCK → held D k b = Some t → fl_type c = F_RDLCK ∧ t = F_RDLCK) as Hfree.
  { intros k b t Hk Hb Hu Ht. destruct Hg as [?|Hn]; [done|]. pose proof (held_type _ _ _ _ Ha Ht) as Htt. pose proof (lo_type _ Hlo) as Htc.
    assert (¬ (fl_type c = F_WRLCK ∨ t = F_WRLCK)) as Hnw; [|tauto]. intros Hw. apply Hn. by exists k, b, t. }
  intros k k' b t t' Hne. unfold set_held. destruct (bool_decide_reflect (k = okey c)) as [->|Hk], (bool_decide_reflect (k' = okey c)) as [->|Hk']; cbn [andb]; try done.
  - destruct (within _ _ b) eqn:Hb; [|by apply Hc]. destruct (Z.eqb_spec (fl_type c) F_UNLCK) as [|Hu]; [done|]. intros [= <-]. by apply Hfree.
  - destruct (within _ _ b) eqn:Hb; [|by apply Hc]. destruct (Z.eqb_spec (fl_type c) F_UNLCK) as [|Hu]; [done|]. intros Ht [= <-]. destruct (Hfree k b t Hk Hb Hu Ht). done.
  - by apply Hc.
Qed.
