(* ===== verification/LocksWorld.v ===== *)
(** The search of [posix_locks_deadlock], who waits for whom, and the states of
    all tasks with their sleepers. *)
From S2P Require Import Prelude Locks LocksOk LocksApply LocksPosix LocksUser.
From stdpp Require Import list relations options.
#[local] Set Default Proof Using "Type*".
Open Scope cint_scope.
Open Scope Z_scope.

(** * Who waits for whom *)

(** Whom the first waiter of an owner in [blocked_list] waits for. *)
Definition waits_for (s : lk) (k : Z * Z) : option (Z * Z) :=
  '(_, w) ← list_find (λ w, (okey <$> lk_locks s !! w) = Some k) (blocked_list s);
  f ← lk_locks s !! w;
  b ← lk_locks s !! fl_next f;
  Some (okey b).

Definition waits (s : lk) (k k' : Z * Z) : Prop := waits_for s k = Some k'.

Section wait.
Context `{LockEnv} (s : lk) (Ok : lk_ok s).

Lemma blocked_live w : w ∈ blocked_list s → ∃ f b, lk_locks s !! w = Some f ∧ lk_locks s !! fl_next f = Some b.
Proof. intros (f & Hf & Hn)%(wt_blocked _ (ok_waits _ Ok)). destruct (wt_next _ (ok_waits _ Ok) w f Hf Hn) as (b & Hb & _). by exists f, b. Qed.

Definition is_waiter (k : Z * Z) (f : file_lock) : bool := (fl_owner f =? k.1) && (fl_pid f =? k.2).

Lemma is_waiter_spec k f : is_waiter k f = bool_decide (okey f = k).
Proof using.
  unfold is_waiter, okey. destruct k as [o p]. cbn. destruct (Z.eqb_spec (fl_owner f) o), (Z.eqb_spec (fl_pid f) p); cbn; symmetry;
    (apply bool_decide_eq_true || apply bool_decide_eq_false); congruence.
Qed.

Lemma first_waiter k l : (∀ w, w ∈ l → is_Some (lk_locks s !! w) ∧ w ≠ 0) →
  first_lock (is_waiter k) l s = Some (match list_find (λ w, (okey <$> lk_locks s !! w) = Some k) l with Some (_, w) => w | None => 0 end, s).
Proof using.
  induction l as [|w l IH]; intros Hl; [done|]. cbn [first_lock list_find]. destruct (Hl w) as [[f Hf] _]; [left|]. erewrite es_bind by (unfold gl; by rewrite Hf).
  rewrite is_waiter_spec, Hf. cbn. destruct (bool_decide_reflect (okey f = k)) as [Hk|Hk].
  - rewrite decide_True by congruence. done.
  - rewrite decide_False by congruence. rewrite IH by (intros; apply Hl; by right). by destruct (list_find _ l) as [[]|].
Qed.

(** A round of the loop. *)
Lemma loop_round fuel k k0 : deadlock_loop (S fuel) k.1 k.2 k0.1 k0.2 s =
  if decide (k = k0) then Some (true, s) else match waits_for s k0 with None => Some (false, s) | Some k1 => deadlock_loop fuel k.1 k.2 k1.1 k1.2 s end.
Proof.
  cbn [deadlock_loop]. destruct k as [o p], k0 as [o0 p0]. cbn [fst snd]. destruct (Z.eqb_spec o o0), (Z.eqb_spec p p0); cbn [andb]; subst; try (by rewrite decide_True).
  all: rewrite decide_False by congruence.
  all: erewrite es_bind by done.
  all: assert (∀ w, w ∈ blocked_list s → is_Some (lk_locks s !! w) ∧ w ≠ 0) as Hl by (intros w Hw; destruct (blocked_live w Hw) as (f & _ & Hf & _);
         split; [by eexists|]; intros ->; by rewrite (wt_null _ (ok_waits _ Ok)) in Hf).
  all: erewrite es_bind by apply (first_waiter (o0, p0) _ Hl).
  all: unfold waits_for; destruct (list_find _ (blocked_list s)) as [[j w]|] eqn:Hfind; [|done].
  all: apply list_find_Some in Hfind as (Hj & _ & _); apply list_elem_of_lookup_2 in Hj; destruct (Hl w Hj) as [_ H0]; destruct (Z.eqb_spec w 0); [done|].
  all: destruct (blocked_live w Hj) as (f & b & Hf & Hb).
  all: erewrite es_bind by (unfold gl; by rewrite Hf); erewrite es_bind by (unfold gl; by rewrite Hb).
  all: by cbn; rewrite Hf; cbn; rewrite Hb.
Qed.

(** ** How long it takes *)

Lemma waiters_bound V : NoDup V → (∀ v, v ∈ V → is_Some (waits_for s v)) → (length V <= length (blocked_list s))%nat.
Proof using.
  intros Hnd HV. assert (∀ v, v ∈ V → ∃ w, w ∈ blocked_list s ∧ (okey <$> lk_locks s !! w) = Some v) as Hw.
  { intros v Hv. destruct (HV v Hv) as [k Hk]. unfold waits_for in Hk. destruct (list_find _ _) as [[j w]|] eqn:Hf; [|done]. apply list_find_Some in Hf as (Hj & Hkey & _).
    exists w. split; [by apply list_elem_of_lookup_2 in Hj|done]. }
  rewrite <-(length_fmap (λ w, okey <$> lk_locks s !! w) (blocked_list s)), <-(length_fmap Some V). apply submseteq_length, NoDup_submseteq; [by apply NoDup_fmap_2; [apply _|]|].
  intros x (v & -> & Hv)%list_elem_of_fmap. destruct (Hw v Hv) as (w & Hin & Hk). apply list_elem_of_fmap. by exists w.
Qed.

(** ** What it finds *)

Notation waits_rtc := (rtc (waits s)).
Notation waits_tc := (tc (waits s)).

(** Where the search ends. *)
Definition search_ends (k k' : Z * Z) : Prop := k' = k ∨ waits_for s k' = None.

Lemma waits_det k k1 k2 : waits s k k1 → waits s k k2 → k1 = k2.
Proof using. unfold waits. congruence. Qed.

Lemma rtc_next k0 k1 k' : waits s k0 k1 → waits_rtc k0 k' → k' = k0 ∨ waits_rtc k1 k'.
Proof using. intros H1 Hr. inversion Hr as [|? k2 ? H2 Hr']; subst; [by left|right]. by rewrite (waits_det _ _ _ H1 H2). Qed.

Lemma rtc_stuck k0 k' : waits_for s k0 = None → waits_rtc k0 k' → k' = k0.
Proof using. intros H1 Hr. inversion Hr as [|? k2 ? H2 Hr']; subst; [done|]. unfold waits in H2. congruence. Qed.

(** What an answer means. *)
Lemma loop_sound fuel k : ∀ k0 b s', deadlock_loop fuel k.1 k.2 k0.1 k0.2 s = Some (b, s') →
  s' = s ∧ if (b : bool) then waits_rtc k0 k else ¬ waits_rtc k0 k ∧ ∃ k', waits_rtc k0 k' ∧ waits_for s k' = None.
Proof.
  induction fuel as [|fuel IH]; [done|]. intros k0 b s'. rewrite (loop_round _ k k0). destruct (decide (k = k0)) as [<-|Hne].
  { intros [= <- <-]. split; [done|]. apply rtc_refl. }
  destruct (waits_for s k0) as [k1|] eqn:Hk.
  - intros (-> & Hb)%IH. split; [done|]. destruct b; [by eapply rtc_l|]. destruct Hb as [Hn (k' & Hr & Hs)]. split; [|exists k'; split; [by eapply rtc_l|done]].
    intros Hr0. destruct (rtc_next k0 k1 k Hk Hr0) as [?|?]; [congruence|done].
  - intros [= <- <-]. split; [done|]. split; [|exists k0; split; [apply rtc_refl|done]]. intros Hr. apply Hne. by apply (rtc_stuck k0).
Qed.

(** The owners passed: each waits for the next, the last for [k0]. *)
Record passed (k : Z * Z) (V : list (Z * Z)) (k0 : Z * Z) : Prop := {
  ps_nodup : NoDup V;
  ps_next v : v ∈ V → ∃ v', waits s v v' ∧ (v' ∈ V ∨ v' = k0);
  ps_here v : v ∈ V → waits_tc v k0;
  ps_other : k ∉ V
}.

Lemma passed_next k V k0 k1 : passed k V k0 → k ≠ k0 → waits s k0 k1 → k0 ∉ V → passed k (k0 :: V) k1.
Proof using.
  intros [A B C D] Hne H1 Hin. split; [by apply list.NoDup_cons| | |by rewrite not_elem_of_cons].
  - intros v [->|Hv]%elem_of_cons; [exists k1; split; [done|by right]|]. destruct (B v Hv) as (v' & Hw & Hv'). exists v'. split; [done|]. left. rewrite elem_of_cons. tauto.
  - intros v [->|Hv]%elem_of_cons; [by apply tc_once|]. by eapply tc_r; [apply C|].
Qed.

Lemma passed_closed k V k0 k' : passed k V k0 → k0 ∈ V → waits_rtc k0 k' → k' ∈ V.
Proof using.
  intros P Hin Hr. assert (∀ v, v ∈ V → waits_rtc v k' → k' ∈ V) as Hgo; [|by apply (Hgo k0)]. clear Hr. intros v Hv Hvr. induction Hvr as [|x y z Hxy Hyz IH]; [done|]. apply IH.
  destruct (ps_next _ _ _ P x Hv) as (y' & Hw & Hy'). rewrite (waits_det _ _ _ Hxy Hw). by destruct Hy' as [?| ->].
Qed.

(** The search ends where there is an end, and where no owner waits for itself. *)
Lemma loop_ends fuel k : ∀ V k0, passed k V k0 → (length (blocked_list s) < length V + fuel)%nat →
  (∃ k', waits_rtc k0 k' ∧ search_ends k k') ∨ (∀ k', waits_rtc k0 k' → ¬ waits_tc k' k') → ∃ b s', deadlock_loop fuel k.1 k.2 k0.1 k0.2 s = Some (b, s').
Proof.
  induction fuel as [|fuel IH]; intros V k0 P Hf Hend.
  { pose proof (waiters_bound V (ps_nodup _ _ _ P)) as Hb. exfalso. assert (length V <= length (blocked_list s))%nat; [|lia]. apply Hb. intros v Hv.
    destruct (ps_next _ _ _ P v Hv) as (v' & Hw & _). by exists v'. }
  rewrite (loop_round _ k k0). destruct (decide (k = k0)) as [<-|Hne]; [by eauto|]. destruct (waits_for s k0) as [k1|] eqn:Hk; [|by eauto].
  assert (k0 ∉ V) as Hin.
  { intros Hin. destruct Hend as [(k' & Hr & Hs)|Hac]; [|apply (Hac k0); [apply rtc_refl|by apply (ps_here _ _ _ P)]].
    pose proof (passed_closed _ _ _ _ P Hin Hr) as Hv. destruct Hs as [->|Hs]; [by apply (ps_other _ _ _ P)|]. destruct (ps_next _ _ _ P k' Hv) as (v' & Hw & _). unfold waits in Hw. congruence. }
  apply (IH (k0 :: V)); [by apply passed_next|cbn; lia|]. destruct Hend as [(k' & Hr & Hs)|Hac].
  - left. destruct (rtc_next k0 k1 k' Hk Hr) as [->|Hr']; [|by exists k']. destruct Hs as [?|?]; congruence.
  - right. intros k' Hr. apply Hac. by eapply rtc_l.
Qed.

Lemma deadlock_unfold caller block c b : lk_locks s !! caller = Some c → lk_locks s !! block = Some b →
  posix_locks_deadlock caller block s = deadlock_loop (S (length (blocked_list s))) (okey c).1 (okey c).2 (okey b).1 (okey b).2 s.
Proof using.
  intros Hc Hb. unfold posix_locks_deadlock. erewrite es_bind by (unfold gl; by rewrite Hc). erewrite es_bind by (unfold gl; by rewrite Hb). by erewrite es_bind by done.
Qed.

Lemma passed_nil k k0 : passed k [] k0.
Proof using. split; [apply NoDup_nil_2|by intros ? ?%elem_of_nil..|apply not_elem_of_nil]. Qed.

(** The search as a whole. *)
Lemma deadlock_exact caller block c b : lk_locks s !! caller = Some c → lk_locks s !! block = Some b →
  ∀ r, posix_locks_deadlock caller block s = Some (r, s) ↔
    if r then waits_rtc (okey b) (okey c) else ¬ waits_rtc (okey b) (okey c) ∧ ∃ k', waits_rtc (okey b) k' ∧ waits_for s k' = None.
Proof.
  intros Hc Hb r. rewrite (deadlock_unfold _ _ _ _ Hc Hb). split; [intros Hr; by destruct (loop_sound _ _ _ _ _ Hr)|].
  intros Hr. destruct (loop_ends (S (length (blocked_list s))) (okey c) [] (okey b)) as (r' & s' & Hrun); [apply passed_nil|cbn; lia|left|].
  { destruct r; [by exists (okey c); split; [|left]|]. destruct Hr as [_ (k' & Hk & Hs)]. by exists k'; split; [|right]. }
  rewrite Hrun. destruct (loop_sound _ _ _ _ _ Hrun) as [-> Hs]. destruct r, r'; (done || by destruct Hs) || by destruct Hr.
Qed.
End wait.

(** All the calls of [fcntl] that set locks, those that sleep included. *)

(** A task that sleeps in [posix_lock_file], with its three structures. *)
Record sleeper := mk_sleeper {
  sl_task : lk_task;
  sl_inode : Z;
  sl_lock : Z;
  sl_new : Z;
  sl_new2 : Z
}.

Definition sl_names (z : sleeper) : list Z := [sl_lock z; sl_new z; sl_new2 z].
Definition task_key (t : lk_task) : Z * Z := (lt_files t, lt_pid t).
Definition sl_key (z : sleeper) : Z * Z := task_key (sl_task z).

(** It waits, if it does, for a lock of the inode that is in its way. *)
Definition waits_well (s : lk) (i x : Z) (c : file_lock) : Prop := ∀ f, lk_locks s !! x = Some f → fl_next f ≠ 0 →
  fl_next f ∈ i_flock i s ∧ ∃ g, lk_locks s !! fl_next f = Some g ∧ posix_locks_conflict c g = true.

Record sleeper_ok (s : lk) (z : sleeper) : Prop := {
  so_lock : ∃ nx c, lk_locks s !! sl_lock z = Some (set_fl_wait nx [] c) ∧ (∀ j, sl_lock z ∉ i_flock j s) ∧ posix c ∧ lock_ok c ∧ okey c = sl_key z ∧
    waits_well s (sl_inode z) (sl_lock z) c;
  so_new : ∃ v, idle s (sl_new z) v;
  so_new2 : ∃ v, idle s (sl_new2 z) v
}.

(** Who waits for whom, through whichever lock. *)
Definition awaits (s : lk) (k k' : Z * Z) : Prop := ∃ w f g, lk_locks s !! w = Some f ∧ fl_next f ≠ 0 ∧ lk_locks s !! fl_next f = Some g ∧ okey f = k ∧ okey g = k'.

Record world_ok (s : lk) (Z : list sleeper) : Prop := {
  wo_ok : lk_ok s;
  wo_tables i : table_ok s i;
  wo_sleepers z : z ∈ Z → sleeper_ok s z;
  wo_names : NoDup (Z ≫= sl_names);
  wo_keys : NoDup (sl_key <$> Z);
  wo_blocked w : w ∈ blocked_list s → w ∈ sl_lock <$> Z;
  wo_acyclic k : ¬ tc (awaits s) k k
}.

Section world.
Context `{LockEnv}.

(** ** What a call does to the others *)

Lemma step_awaits i xs s s' k k' : moves_on i xs s s' → awaits s' k k' → awaits s k k'.
Proof using.
  intros S (w & f & g & Hf & Hn & Hg & <- & <-). destruct (st_edges _ _ _ _ S w f Hf Hn) as (f0 & Hf0 & En & Ef & Hb). destruct (Hb (not_elem_of_nil _)) as [Hb' _].
  destruct (Hb' g Hg) as (g0 & Hg0 & Hc). exists w, f0, g0. split_and!; [done|congruence|by rewrite En| |symmetry; apply Hc]. unfold okey. injection Ef. congruence.
Qed.

Lemma awaits_acyclic s s' : (∀ k k', awaits s' k k' → awaits s k k') → (∀ k, ¬ tc (awaits s) k k) → ∀ k, ¬ tc (awaits s') k k.
Proof using.
  intros Hs Ha k Ht. apply (Ha k). assert (∀ a b, tc (awaits s') a b → tc (awaits s) a b) as Hm; [|by apply Hm].
  intros a b Hab. induction Hab as [x y Hxy|x y z Hxy Hyz IH]; [by apply tc_once, Hs|eapply tc_l; [by apply Hs|done]].
Qed.

Lemma conflict_covers c g' g : covers g' g → posix_locks_conflict c g = true → posix_locks_conflict c g' = true.
Proof using.
  intros [Hk Hf Ht Hs He]. injection Hk as Ho Hp. unfold posix_locks_conflict, locks_same_owner, locks_overlap, locks_conflict. rewrite Hf, Ho, Hp, Ht.
  destruct (negb (fl_flags g & FL_POSIX) || _); [done|]. intros Hc. destruct (fl_end c >=? fl_start g) eqn:E1, (fl_end g >=? fl_start c) eqn:E2; try done. apply Z.geb_le in E1, E2.
  rewrite (proj2 (Z.geb_le (fl_end c) (fl_start g'))) by lia. by rewrite (proj2 (Z.geb_le (fl_end g') (fl_start c))) by lia.
Qed.

Lemma sleeper_step i xs s s' z : moves_on i xs s s' → (∀ y, y ∈ sl_names z → y ∉ xs) → sleeper_ok s z → sleeper_ok s' z.
Proof using.
  intros S Hy [(nx & c & Hx & Hl & Hp & Hlo & Hk & Hw) (v1 & I1) (v2 & I2)].
  assert (sl_lock z ∉ xs ∧ sl_new z ∉ xs ∧ sl_new2 z ∉ xs) as (Y0 & Y1 & Y2) by (split_and!; apply Hy; unfold sl_names; rewrite !elem_of_cons; tauto).
  split; [|exists v1; by eapply idle_step|exists v2; by eapply idle_step]. destruct (kp_locks _ _ _ (st_kept _ _ _ _ S) _ _ Y0 Hx) as (nx' & b & Hx' & _ & Hb).
  rewrite (Hb eq_refl) in Hx'. exists nx', c. split_and!; try done.
  - intros j Hj. apply (Hl j). destruct (decide (j = i)) as [->|Hj']; [by destruct (st_members _ _ _ _ S _ Hj)|]. by rewrite (st_other _ _ _ _ S j Hj') in Hj.
  - intros f Hf Hn. destruct (st_edges _ _ _ _ S _ f Hf Hn) as (f0 & Hf0 & En & _ & Hb'). destruct (Hb' (not_elem_of_nil _)) as [Hc' Hm]. rewrite <-En in Hn, Hm, Hc'.
    destruct (Hw f0 Hf0 Hn) as (Hin & g0 & Hg0 & Hc0). rewrite <-En. split; [by apply Hm|].
    assert (∃ g', lk_locks s' !! fl_next f0 = Some g') as [g' Hg'] by (rewrite En; destruct (wt_next _ (ok_waits _ (st_ok _ _ _ _ S)) _ f Hf) as (g' & Hg' & _); [congruence|by exists g']).
    exists g'. split; [done|]. destruct (Hc' g' Hg') as (g1 & Hg1 & Hcv). rewrite Hg0 in Hg1. injection Hg1 as <-. by eapply conflict_covers.
Qed.

Lemma blocked_step i xs s s' w : moves_on i xs s s' → lk_ok s → w ∈ blocked_list s' → w ∈ blocked_list s.
Proof using.
  intros S Ok (f & Hf & Hn)%(wt_blocked _ (ok_waits _ (st_ok _ _ _ _ S))). apply (wt_blocked _ (ok_waits _ Ok)). destruct (st_edges _ _ _ _ S w f Hf Hn) as (f0 & Hf0 & En & _).
  exists f0. split; [done|congruence].
Qed.

(** ** Going to sleep *)

(** No lock has changed. *)
Definition same_table (s s' : lk) : Prop := ∀ j, entries s' j = entries s j.

Lemma insert_block_run s i D b g w c : lk_ok s → at_inode s i D → (b, g) ∈ D → idle s w c →
  ∃ s' q, locks_insert_block b w s = Some (tt, s') ∧ lk_locks s !! b = Some (set_fl_wait 0 q g) ∧
    (∀ y, lk_locks s' !! y = if decide (y = w) then Some (set_fl_wait b [] c) else if decide (y = b) then Some (set_fl_wait 0 (q ++ [w]) g) else lk_locks s !! y) ∧
    lk_inodes s' = lk_inodes s ∧ file_lock_list s' = file_lock_list s ∧ blocked_list s' = w :: blocked_list s.
Proof using.
  intros Ok Hl Hb [Hw Ho]. destruct (proj2 Hl b g Hb) as [q Hq]. assert (b ≠ w) as Hne.
  { intros ->. apply (Ho i). rewrite (proj1 Hl). apply list_elem_of_fmap. by exists (w, g). }
  unfold locks_insert_block. erewrite es_bind by (unfold gl; by rewrite Hw). unfold list_empty. cbn [fl_next fl_block set_fl_wait]. rewrite bool_decide_eq_true_2 by done. cbn [andb negb Z.eqb].
  erewrite es_bind by done. erewrite es_bind by (unfold wl; by rewrite Hq). erewrite es_bind by (unfold wl; cbn; rewrite lookup_insert_ne by done; by rewrite Hw).
  eexists _, q. split; [done|]. split_and!; try done. intros y. cbn. destruct (decide (y = w)) as [->|]; [by rewrite lookup_insert_eq|rewrite lookup_insert_ne by done].
  destruct (decide (y = b)) as [->|]; [by rewrite lookup_insert_eq|by rewrite lookup_insert_ne].
Qed.

Lemma insert_block_ok s s' b g w c q : lk_ok s → lk_locks s !! b = Some (set_fl_wait 0 q g) → idle s w c → b ≠ w →
  (∀ y, lk_locks s' !! y = if decide (y = w) then Some (set_fl_wait b [] c) else if decide (y = b) then Some (set_fl_wait 0 (q ++ [w]) g) else lk_locks s !! y) →
  lk_inodes s' = lk_inodes s → file_lock_list s' = file_lock_list s → blocked_list s' = w :: blocked_list s → lk_ok s'.
Proof using.
  intros [[W0 W1 W2 W3 W4] L] Hb [Hw Ho] Hne Hy Hi Hf Hbl. assert (w ∉ q) as Hwq.
  { intros Hin. destruct (W1 b _ w Hb Hin) as (f & Hf' & Hn). rewrite Hw in Hf'. injection Hf' as <-. cbn in Hn. rewrite <-Hn in Hb. by rewrite W0 in Hb. }
  assert (w ≠ 0 ∧ b ≠ 0) as [Hw0 Hb0] by (split; intros Heq; [rewrite Heq in Hw|rewrite Heq in Hb]; congruence).
  assert (∀ y f, lk_locks s !! y = Some f → y ≠ w → ∃ q', lk_locks s' !! y = Some (set_fl_wait (fl_next f) q' f) ∧ ∀ x, x ∈ fl_block f → x ∈ q') as Hold.
  { intros y f Hf' Hyw. rewrite Hy, decide_False by done. destruct (decide (y = b)) as [->|]; [|exists (fl_block f); by rewrite set_wait_self].
    rewrite Hb in Hf'. injection Hf' as <-. exists (q ++ [w]). split; [done|]. intros x Hx. cbn in Hx. apply elem_of_app. by left. }
  split; [split|].
  - rewrite Hy, !decide_False by done. done.
  - intros y f x. rewrite Hy. destruct (decide (y = w)) as [->|Hyw]; [intros [= <-] Hx; by apply elem_of_nil in Hx|]. destruct (decide (y = b)) as [->|Hyb].
    + intros [= <-]. cbn. rewrite elem_of_app, list_elem_of_singleton. intros [Hx| ->]; [|exists (set_fl_wait b [] c); by rewrite Hy, decide_True].
      destruct (W1 b _ x Hb Hx) as (f & Hf' & Hn). destruct (Hold x f Hf') as (q' & Hq' & _); [intros ->; done|]. by exists (set_fl_wait (fl_next f) q' f).
    + intros Hf' Hx. destruct (W1 y f x Hf' Hx) as (h & Hh & Hn). destruct (Hold x h Hh) as (q' & Hq' & _); [|by exists (set_fl_wait (fl_next h) q' h)].
      intros ->. rewrite Hw in Hh. injection Hh as <-. cbn in Hn. subst y. by rewrite W0 in Hf'.
  - intros y f. rewrite Hy. destruct (decide (y = w)) as [->|Hyw]; [intros [= <-]; apply NoDup_nil_2|]. destruct (decide (y = b)) as [->|Hyb]; [|by apply W2].
    intros [= <-]. cbn. apply NoDup_app. split_and!; [by apply (W2 b _ Hb)| |apply NoDup_singleton]. intros x Hx ->%list_elem_of_singleton. done.
  - intros y f. rewrite Hy at 1. destruct (decide (y = w)) as [->|Hyw].
    + intros [= <-] _. cbn. exists (set_fl_wait 0 (q ++ [w]) g). rewrite Hy, decide_False, decide_True by done. split; [done|]. cbn. apply elem_of_app. right. by left.
    + intros Hf' Hn. assert (∃ f0, lk_locks s !! y = Some f0 ∧ fl_next f0 = fl_next f) as (f0 & Hf0 & En).
      { destruct (decide (y = b)) as [->|]; [|by exists f]. injection Hf' as <-. by exists (set_fl_wait 0 q g). }
      destruct (W3 y f0 Hf0) as (h & Hh & Hin); [congruence|]. rewrite En in Hh. destruct (Hold (fl_next f) h Hh) as (q' & Hq' & Hsub); [|exists (set_fl_wait (fl_next h) q' h); split; [done|by apply Hsub]].
      intros Heq. rewrite Heq, Hw in Hh. injection Hh as <-. by apply elem_of_nil in Hin.
  - intros y. rewrite Hbl, elem_of_cons, W4. split.
    + intros [->|(f & Hf' & Hn)]; [exists (set_fl_wait b [] c); by rewrite Hy, decide_True|]. destruct (decide (y = w)) as [->|Hyw]; [exists (set_fl_wait b [] c); by rewrite Hy, decide_True|].
      destruct (Hold y f Hf' Hyw) as (q' & Hq' & _). by exists (set_fl_wait (fl_next f) q' f).
    + intros (f & Hf' & Hn). rewrite Hy in Hf'. destruct (decide (y = w)) as [->|Hyw]; [by left|right]. destruct (decide (y = b)) as [->|]; [|by exists f]. injection Hf' as <-. done.
  - apply (lists_kept s); try done. intros j x f Hx [b' Hx']. assert (x ≠ w) as Hxw by (intros ->; by apply (Ho j)). destruct (Hold x _ Hx' Hxw) as (q' & Hq' & _). exists f, q'. exact Hq'.
Qed.

(** A call of a task that does not sleep: what it works with. *)
Record caller_ok (s : lk) (Z0 : list sleeper) (cur : lk_task) (i x n1 n2 : Z) (c v1 v2 : file_lock) : Prop := {
  ca_request : request i s x c (entries s i);
  ca_new : idle s n1 v1;
  ca_new2 : idle s n2 v2;
  ca_key : okey c = task_key cur;
  ca_names : NoDup ([x; n1; n2] ++ (Z0 ≫= sl_names));
  ca_one : task_key cur ∉ sl_key <$> Z0
}.

Definition asleep (cur : lk_task) (i x n1 n2 : Z) : sleeper := mk_sleeper cur i x n1 n2.

Lemma names_elem (Z0 : list sleeper) z y : z ∈ Z0 → y ∈ sl_names z → y ∈ Z0 ≫= sl_names.
Proof using. intros Hz Hy. apply list_elem_of_bind. by exists z. Qed.

Lemma blocked_key s Z0 w : world_ok s Z0 → w ∈ blocked_list s → ∃ z f, z ∈ Z0 ∧ w = sl_lock z ∧ lk_locks s !! w = Some f ∧ okey f = sl_key z.
Proof using.
  intros Wo Hw. apply (wo_blocked _ _ Wo) in Hw as (z & -> & Hz)%list_elem_of_fmap. destruct (so_lock _ _ (wo_sleepers _ _ Wo z Hz)) as (nx & c & Hx & _ & _ & _ & Hk & _).
  exists z, (set_fl_wait nx [] c). by split_and!.
Qed.

Lemma key_inj (Z0 : list sleeper) z z' : NoDup (sl_key <$> Z0) → z ∈ Z0 → z' ∈ Z0 → sl_key z = sl_key z' → z = z'.
Proof using.
  induction Z0 as [|y Z0 IH]; [by intros _ ?%elem_of_nil|]. cbn. intros [Hy Hnd]%list.NoDup_cons. rewrite !elem_of_cons. intros [->|Hz] [->|Hz'] Heq; try done; [| |by apply IH].
  - destruct Hy. rewrite Heq. apply list_elem_of_fmap. by exists z'.
  - destruct Hy. rewrite <-Heq. apply list_elem_of_fmap. by exists z.
Qed.

(** The search follows those who wait. *)
Lemma awaits_waits s Z0 k k' : world_ok s Z0 → awaits s k k' ↔ waits s k k'.
Proof using.
  intros Wo. split.
  - intros (w & f & g & Hf & Hn & Hg & <- & <-). assert (w ∈ blocked_list s) as Hw by (apply (wt_blocked _ (ok_waits _ (wo_ok _ _ Wo))); by exists f).
    unfold waits, waits_for. destruct (list_find _ (blocked_list s)) as [[j w']|] eqn:Hfind.
    + apply list_find_Some in Hfind as (Hj & Hk & _). apply list_elem_of_lookup_2 in Hj. destruct (blocked_key s Z0 w Wo Hw) as (z & f1 & Hz & -> & Hf1 & K1).
      destruct (blocked_key s Z0 w' Wo Hj) as (z' & f2 & Hz' & -> & Hf2 & K2). rewrite Hf in Hf1. injection Hf1 as <-. rewrite Hf2 in Hk. cbn in Hk. injection Hk as Hk1 Hk2.
      assert (z' = z) as -> by (apply (key_inj Z0); [apply Wo|done|done|rewrite <-K1, <-K2; unfold okey; congruence]). cbn. rewrite Hf. cbn. by rewrite Hg.
    + apply list_find_None in Hfind. rewrite Forall_forall in Hfind. destruct (Hfind w Hw). by rewrite Hf.
  - unfold waits, waits_for. destruct (list_find _ (blocked_list s)) as [[j w]|] eqn:Hfind; [|done]. cbn. apply list_find_Some in Hfind as (Hj & Hk & _). apply list_elem_of_lookup_2 in Hj.
    destruct (lk_locks s !! w) as [f|] eqn:Hf; [|done]. cbn. destruct (lk_locks s !! fl_next f) as [g|] eqn:Hg; [|done]. intros [= <-]. injection Hk as <-. exists w, f, g. split_and!; try done.
    apply (wt_blocked _ (ok_waits _ (wo_ok _ _ Wo))) in Hj as (f' & Hf' & Hn). congruence.
Qed.

(** The search for a deadlock always ends, with the right answer. *)
Lemma deadlock_run s Z0 x b c g : world_ok s Z0 → has s x c → has s b g →
  ∃ r, posix_locks_deadlock x b s = Some (r, s) ∧ if (r : bool) then rtc (awaits s) (okey g) (okey c) else ¬ rtc (awaits s) (okey g) (okey c).
Proof.
  intros Wo [q Hx] [q' Hb]. pose proof (wo_ok _ _ Wo) as Ok. rewrite (deadlock_unfold s x b _ _ Hx Hb). change (okey (set_fl_wait 0 q c)) with (okey c). change (okey (set_fl_wait 0 q' g)) with (okey g).
  assert (∀ a a', rtc (awaits s) a a' ↔ rtc (waits s) a a') as Hrtc.
  { intros a a'. split; (induction 1; [apply rtc_refl|]; eapply rtc_l; [|done]; by apply (awaits_waits s Z0)). }
  destruct (loop_ends s Ok (S (length (blocked_list s))) (okey c) [] (okey g)) as (r & s' & Hrun); [by apply passed_nil|cbn; lia|right|].
  { intros k' _ Ht. apply (wo_acyclic _ _ Wo k'). assert (∀ a a', tc (waits s) a a' → tc (awaits s) a a') as Hm; [|by apply Hm].
    intros a a' Ha. induction Ha as [p q0 Hpq|p q0 p' Hpq Hqp IH]; [by apply tc_once, (awaits_waits s Z0)|eapply tc_l; [by apply (awaits_waits s Z0)|done]]. }
  destruct (loop_sound s Ok _ _ _ _ _ Hrun) as [-> Hs]. exists r. split; [exact Hrun|]. destruct r; [by apply Hrtc|]. rewrite Hrtc. apply Hs.
Qed.

(** One more edge, to where there is no way back from. *)
Lemma acyclic_more {A} (R R' : A → A → Prop) a b : (∀ x y, R' x y → R x y ∨ x = a ∧ y = b) → (∀ x, ¬ tc R x x) → ¬ rtc R b a → ∀ x, ¬ tc R' x x.
Proof using.
  intros Hs Ha Hn. assert (∀ x y, tc R' x y → tc R x y ∨ rtc R x a ∧ rtc R b y) as Hp.
  { induction 1 as [x y [Hxy|[-> ->]]%Hs|x y z [Hxy|[-> ->]]%Hs Hyz IH]; [left; by apply tc_once|right; split; apply rtc_refl| |].
    - destruct IH as [IH|[I1 I2]]; [left; by eapply tc_l|right]. split; [by eapply rtc_l|done].
    - right. split; [apply rtc_refl|]. destruct IH as [IH|[I1 _]]; [by apply tc_rtc|done]. }
  intros x Hx. destruct (Hp x x Hx) as [?|[H1 H2]]; [by apply (Ha x)|]. apply Hn. by etrans.
Qed.

(** What [locks_insert_block] changes. *)
Record put_to_sleep (s s' : lk) (x b : Z) (c g : file_lock) (q : list Z) : Prop := {
  ps_blocker : lk_locks s !! b = Some (set_fl_wait 0 q g);
  ps_waiter : idle s x c;
  ps_ne : b ≠ x;
  ps_locks y : lk_locks s' !! y = if decide (y = x) then Some (set_fl_wait b [] c) else if decide (y = b) then Some (set_fl_wait 0 (q ++ [x]) g) else lk_locks s !! y;
  ps_inodes : lk_inodes s' = lk_inodes s;
  ps_list : blocked_list s' = x :: blocked_list s
}.

Lemma sleep_flock s s' x b c g q j : put_to_sleep s s' x b c g q → i_flock j s' = i_flock j s.
Proof using. intros P. unfold i_flock. by rewrite (ps_inodes _ _ _ _ _ _ _ P). Qed.

Lemma sleep_entries s s' x b c g q : put_to_sleep s s' x b c g q → same_table s s'.
Proof using.
  intros P j. unfold entries. rewrite (sleep_flock _ _ _ _ _ _ _ j P). apply list_omap_ext.
  assert (∀ y, y ∈ i_flock j s → y ≠ x) as Hj by (intros y Hj ->; by apply (proj2 (ps_waiter _ _ _ _ _ _ _ P) j)). revert Hj. generalize (i_flock j s) as l.
  induction l as [|y l IH]; intros Hj; constructor; [|apply IH; intros; apply Hj; by right]. rewrite (ps_locks _ _ _ _ _ _ _ P), decide_False by (apply Hj; left).
  destruct (decide (y = b)) as [->|]; [by rewrite (ps_blocker _ _ _ _ _ _ _ P)|done].
Qed.

Lemma sleep_acyclic s s' x b c g q : lk_ok s → put_to_sleep s s' x b c g q → (∀ k, ¬ tc (awaits s) k k) → ¬ rtc (awaits s) (okey g) (okey c) → ∀ k, ¬ tc (awaits s') k k.
Proof using.
  intros Ok [Hbq Hx Hbx Hy _ _] Wa Hno. apply (acyclic_more (awaits s) _ (okey c) (okey g)); [|done|done].
  intros k k' (w & f & h & Hw & Hn & Hh & <- & <-). rewrite Hy in Hw. destruct (decide (w = x)) as [->|Hwx].
  - injection Hw as <-. right. split; [done|]. cbn in Hh. rewrite Hy, decide_False, decide_True in Hh by done. by injection Hh as <-.
  - left. assert (∃ f0, lk_locks s !! w = Some f0 ∧ fl_next f0 = fl_next f ∧ okey f0 = okey f) as (f0 & Hf0 & En & Ek).
    { destruct (decide (w = b)) as [->|]; [|by exists f]. injection Hw as <-. by exists (set_fl_wait 0 q g). }
    rewrite Hy in Hh. destruct (decide (fl_next f = x)) as [Heq|Hnx].
    { destruct (wt_next _ (ok_waits _ Ok) w f0 Hf0) as (h0 & Hh0 & Hin); [congruence|]. rewrite En, Heq, (proj1 Hx) in Hh0. injection Hh0 as <-. by apply elem_of_nil in Hin. }
    destruct (decide (fl_next f = b)) as [Heq|Hnb]; [injection Hh as <-; exists w, f0, (set_fl_wait 0 q g)|exists w, f0, h]; split_and!; try done; congruence.
Qed.

Lemma sleep_idle s s' i x b c g q y f : put_to_sleep s s' x b c g q → b ∈ i_flock i s → y ≠ x → idle s y f → idle s' y f.
Proof using.
  intros P Hb Hyx [Ha Hl]. split; [rewrite (ps_locks _ _ _ _ _ _ _ P), decide_False, decide_False; [done|intros ->; by apply (Hl i)|done]|].
  intros j. by rewrite (sleep_flock _ _ _ _ _ _ _ j P).
Qed.

(** The other sleepers do not notice. *)
Lemma sleep_others s s' i x b c g q z : put_to_sleep s s' x b c g q → b ∈ i_flock i s → (∀ y, y ∈ sl_names z → y ≠ x) → sleeper_ok s z → sleeper_ok s' z.
Proof using.
  intros P Hb Hzx [(nx & c' & Hc & Hcl & Hp & Hlo & Hk' & Hw) (u1 & J1) (u2 & J2)]. pose proof P as [Hbq Hx Hbx Hy _ _].
  assert (sl_lock z ≠ x ∧ sl_new z ≠ x ∧ sl_new2 z ≠ x) as (X0 & X1 & X2) by (split_and!; apply Hzx; unfold sl_names; rewrite !elem_of_cons; tauto).
  split; [|exists u1; by eapply sleep_idle|exists u2; by eapply sleep_idle].
  assert (lk_locks s' !! sl_lock z = lk_locks s !! sl_lock z) as Hsame by (rewrite Hy, decide_False, decide_False; [done|intros Heq; apply (Hcl i); by rewrite Heq|done]).
  exists nx, c'. rewrite Hsame. split_and!; try done; [intros j; by rewrite (sleep_flock _ _ _ _ _ _ _ j P)|]. intros f Hf' Hn. rewrite Hsame in Hf'. destruct (Hw f Hf' Hn) as (Hin & g' & Hg' & Hcc).
  rewrite (sleep_flock _ _ _ _ _ _ _ _ P). split; [done|]. assert (fl_next f ≠ x) as Hfx by (intros Heq; rewrite Heq in Hin; by apply (proj2 Hx (sl_inode z))). rewrite Hy, decide_False by done.
  destruct (decide (fl_next f = b)) as [Heq|]; [|by exists g']. rewrite Heq, Hbq in Hg'. injection Hg' as <-. by exists (set_fl_wait 0 (q ++ [x]) g).
Qed.

(** The new sleeper waits for a lock that is in its way. *)
Lemma sleep_new s s' i cur x n1 n2 b c g q v1 v2 : put_to_sleep s s' x b c g q → b ∈ i_flock i s → posix_locks_conflict c g = true → posix c → lock_ok c → okey c = task_key cur →
  n1 ≠ x → n2 ≠ x → idle s n1 v1 → idle s n2 v2 → sleeper_ok s' (asleep cur i x n1 n2).
Proof using.
  intros P Hb Hcf Hp Hlo Hk X1 X2 I1 I2. pose proof P as [Hbq Hx Hbx Hy _ _]. split; cbn; [|exists v1; by eapply sleep_idle|exists v2; by eapply sleep_idle].
  exists b, c. rewrite Hy, decide_True by done. split_and!; try done; [intros j; rewrite (sleep_flock _ _ _ _ _ _ _ j P); apply Hx|]. intros f Hf' _. rewrite Hy, decide_True in Hf' by done. injection Hf' as <-. cbn.
  rewrite (sleep_flock _ _ _ _ _ _ _ i P). split; [done|]. exists (set_fl_wait 0 (q ++ [x]) g). by rewrite Hy, decide_False, decide_True.
Qed.

Lemma sleep_world s Z0 cur i x n1 n2 c v1 v2 b g : world_ok s Z0 → caller_ok s Z0 cur i x n1 n2 c v1 v2 → (b, g) ∈ entries s i → posix_locks_conflict c g = true →
  ¬ rtc (awaits s) (okey g) (okey c) → ∃ s', locks_insert_block b x s = Some (tt, s') ∧ world_ok s' (asleep cur i x n1 n2 :: Z0) ∧ same_table s s'.
Proof using.
  intros Wo [Rq I1 I2 Hk Hnd Hone] Hb Hcf Hno. pose proof (wo_ok _ _ Wo) as Ok. pose proof (rq_caller _ _ _ _ _ Rq) as Hx. pose proof (rq_listed _ _ _ _ _ Rq) as Hl.
  destruct (insert_block_run s i (entries s i) b g x c Ok Hl Hb Hx) as (s' & q & Hrun & Hbq & Hy & Hi & Hf & Hbl). assert (b ∈ i_flock i s) as Hbi by (rewrite (proj1 Hl); apply list_elem_of_fmap; by exists (b, g)).
  assert (b ≠ x) as Hbx by (intros ->; by apply (proj2 Hx i)). assert (put_to_sleep s s' x b c g q) as P by by split. pose proof (sleep_entries _ _ _ _ _ _ _ P) as Hent.
  cbn in Hnd. pose proof Hnd as [Hn0 _]%list.NoDup_cons. rewrite !not_elem_of_cons in Hn0. destruct Hn0 as (N1 & N2 & N3).
  exists s'. split_and!; [done| |done]. destruct Wo as [_ Wt Ws Wn Wk Wb Wa]. split; [by eapply insert_block_ok| | |exact Hnd|by apply list.NoDup_cons| |by eapply sleep_acyclic].
  - intros j. destruct (Wt j) as [T1 T2]. split; [by rewrite Hent|]. unfold type_at in *. by rewrite Hent.
  - intros z [->|Hz]%elem_of_cons; [eapply sleep_new; eauto; apply Rq|]. eapply sleep_others; [done|done| |by apply Ws]. intros y Hin ->. apply N3. by apply (names_elem Z0 z).
  - intros w. rewrite Hbl. cbn. rewrite !elem_of_cons. intros [->|Hw]; [by left|right]. by apply Wb.
Qed.

(** ** [posix_lock_file] among sleepers *)

Lemma step_world s s' Z0 i xs : world_ok s Z0 → moves_on i xs s s' → (∀ z y, z ∈ Z0 → y ∈ sl_names z → y ∉ xs) → (∀ j, table_ok s' j) → world_ok s' Z0.
Proof using.
  intros [Ok Wt Ws Wn Wk Wb Wa] S Hy Ht. split; try done; [apply S|intros z Hz; eapply sleeper_step; [exact S|intros y; by apply Hy|by apply Ws]| |].
  - intros w Hw. apply Wb. by eapply blocked_step.
  - eapply awaits_acyclic; [|exact Wa]. intros k k'. by eapply step_awaits.
Qed.

Lemma names_out s Z0 z y : world_ok s Z0 → z ∈ Z0 → y ∈ sl_names z → y ≠ 0 ∧ ∀ j, y ∉ i_flock j s.
Proof using.
  intros Wo Hz Hy. pose proof (wo_ok _ _ Wo) as Ok. destruct (wo_sleepers _ _ Wo z Hz) as [(nx & c & Hc & Hcl & _) (u1 & J1) (u2 & J2)].
  unfold sl_names in Hy. rewrite !elem_of_cons in Hy. destruct Hy as [->|[->|[->|?%elem_of_nil]]]; [|split; [by eapply idle_nonzero|apply J1]|split; [by eapply idle_nonzero|apply J2]|done].
  split; [|done]. intros Heq. rewrite Heq in Hc. by rewrite (wt_null _ (ok_waits _ Ok)) in Hc.
Qed.

Lemma caller_apart s Z0 cur i x n1 n2 c v1 v2 z y : world_ok s Z0 → caller_ok s Z0 cur i x n1 n2 c v1 v2 → z ∈ Z0 → y ∈ sl_names z → y ∉ 0 :: x :: n1 :: n2 :: i_flock i s.
Proof using.
  intros Wo Ca Hz Hy. destruct (names_out s Z0 z y Wo Hz Hy) as [H0 Hl]. pose proof (ca_names _ _ _ _ _ _ _ _ _ _ Ca) as Hnd. apply NoDup_app in Hnd as (_ & Hd & _).
  assert (y ∉ [x; n1; n2]) as Hyn. { intros Hin. apply (Hd y Hin). by apply (names_elem Z0 z). }
  rewrite !not_elem_of_cons in Hyn. destruct Hyn as (? & ? & ? & _). by rewrite !not_elem_of_cons.
Qed.

Lemma compatible_ext (h h' : Z * Z → Z → option Z) : (∀ k b, h k b = h' k b) → compatible h' → compatible h.
Proof using. intros He Hc k k' b t t'. rewrite !He. apply Hc. Qed.

(** Only the table of the inode may have changed. *)
Lemma other_entries s s' i xs j : lk_ok s → moves_on i xs s s' → j ≠ i → (∀ y, y ∈ xs → y ∉ i_flock j s) → entries s' j = entries s j.
Proof using. intros Ok S Hj Hy. eapply entries_kept; [done|apply S|by apply (st_other _ _ _ _ S)|apply S|exact Hy]. Qed.

(** No structure has gone. *)
Definition lives (s s' : lk) : Prop := ∀ y, is_Some (lk_locks s !! y) → is_Some (lk_locks s' !! y).

(** There is no memory for one more structure. *)
Definition no_memory (s : lk) : Prop := ∃ s0, lives s s0 ∧ lk_alloc s0 = None.

(** What a call that is done, or sleeps, has done to the locks. *)
Inductive answer (s s' : lk) (i : Z) (c : file_lock) (wait : bool) : posix_out → Prop :=
  | An_granted : may_have c (entries s i) → (∀ k b, type_at s' i k b = set_held (okey c) (fl_type c) (fl_start c) (fl_end c) (type_at s i) k b) →
      (∀ j, j ≠ i → entries s' j = entries s j) → answer s s' i c wait (PxDone 0)
  | An_again : ¬ may_have c (entries s i) → wait = false → same_table s s' → answer s s' i c wait (PxDone (- EAGAIN))
  | An_deadlock k : ¬ may_have c (entries s i) → wait = true → same_table s s' →
      (∃ b t, k ≠ okey c ∧ type_at s i k b = Some t ∧ within (fl_start c) (fl_end c) b = true ∧ (fl_type c = F_WRLCK ∨ t = F_WRLCK)) → rtc (awaits s) k (okey c) → answer s s' i c wait (PxDone (- EDEADLK))
  | An_no_memory : no_memory s → same_table s s' → answer s s' i c wait (PxDone (- ENOLCK))
  | An_sleep n1 n2 : ¬ may_have c (entries s i) → wait = true → same_table s s' → answer s s' i c wait (PxSleep n1 n2).

(** The sleepers after a call. *)
Definition next_sleepers (cur : lk_task) (i x : Z) (out : posix_out) (Z0 : list sleeper) : list sleeper :=
  match out with PxDone _ => Z0 | PxSleep n1 n2 => asleep cur i x n1 n2 :: Z0 end.

Definition caller_left (s' : lk) (x : Z) (out : posix_out) : Prop :=
  match out with PxDone _ => ∃ c', idle s' x c' | PxSleep _ _ => True end.

Lemma granted_world s Z0 cur i x n1 n2 c v1 v2 wait : world_ok s Z0 → caller_ok s Z0 cur i x n1 n2 c v1 v2 → may_have c (entries s i) →
  ∃ s', posix_attempt cur i x wait n1 n2 s = Some (PxDone 0, s') ∧ world_ok s' Z0 ∧ (∃ c', idle s' x c') ∧ answer s s' i c wait (PxDone 0).
Proof using.
  intros Wo Ca Hg. pose proof Ca as [Rq I1 I2 Hk Hnd Hone]. pose proof (wo_ok _ _ Wo) as Ok. apply NoDup_app in Hnd as (Hnd & _ & _). rewrite !list.NoDup_cons, !not_elem_of_cons in Hnd.
  destruct Hnd as ((N1 & N2 & _) & (N3 & _) & _).
  destruct (attempt_granted cur i s x c (entries s i) n1 n2 v1 v2 wait Rq I1 I2 N3 N1 N2 Hg) as (s' & D' & Hrun & S & L & A & Hx & Hh). exists s'.
  assert (∀ j, j ≠ i → entries s' j = entries s j) as Hoth.
  { intros j Hj. eapply other_entries; [done|exact S|done|]. intros y. rewrite !elem_of_cons. intros [->|[->|[->|[->|Hy]]]] Hin.
    - destruct (li_held _ (ok_lists _ Ok) j 0 Hin) as (f & b & Hf). by rewrite (wt_null _ (ok_waits _ Ok)) in Hf.
    - by apply (proj2 (rq_caller _ _ _ _ _ Rq) j).
    - by apply (proj2 I1 j).
    - by apply (proj2 I2 j).
    - apply Hj. by apply (li_one _ (ok_lists _ Ok) j i y). }
  assert (∀ k b, type_at s' i k b = set_held (okey c) (fl_type c) (fl_start c) (fl_end c) (type_at s i) k b) as Hty.
  { intros k b. unfold type_at at 1. rewrite (listed_entries _ _ _ L), plain_held. apply Hh. }
  split_and!; [exact Hrun| |exact Hx|by apply An_granted]. eapply step_world; [exact Wo|exact S|intros z y; by eapply caller_apart|].
  intros j. destruct (decide (j = i)) as [->|Hj].
  - split; [rewrite (listed_entries _ _ _ L); by apply plain_arranged|]. eapply compatible_ext; [exact Hty|]. destruct (wo_tables _ _ Wo i) as [T1 T2]. apply set_compatible; try done. apply Rq.
  - destruct (wo_tables _ _ Wo j) as [T1 T2]. split; [by rewrite Hoth|]. unfold type_at in *. by rewrite Hoth.
Qed.

(** A call that changes nothing but structures of its own. *)
Lemma quiet_entries ys s s' : lk_ok s → quiet ys s s' → (∀ y j, y ∈ ys → y ∉ i_flock j s) → same_table s s'.
Proof using. intros Ok [Ok' K E Hi] Hy j. eapply entries_kept; [done|done|unfold i_flock; by rewrite Hi|exact K|]. intros y Hin. by apply Hy. Qed.

Lemma quiet_world ys s s' Z0 : world_ok s Z0 → quiet ys s s' → (∀ y j, y ∈ ys → y ∉ i_flock j s) → (∀ z y, z ∈ Z0 → y ∈ sl_names z → y ∉ ys) → world_ok s' Z0 ∧ same_table s s'.
Proof using.
  intros Wo Q Hy Hz. pose proof (quiet_entries ys s s' (wo_ok _ _ Wo) Q Hy) as Hu. split; [|done]. eapply step_world; [exact Wo|by apply (quiet_step ys s s' 0)|exact Hz|].
  intros j. destruct (wo_tables _ _ Wo j) as [T1 T2]. split; [by rewrite Hu|]. unfold type_at in *. by rewrite Hu.
Qed.

Lemma free_world s Z0 cur i x n1 n2 c v1 v2 : world_ok s Z0 → caller_ok s Z0 cur i x n1 n2 c v1 v2 →
  ∃ s', free_unused cur n1 n2 s = Some (tt, s') ∧ world_ok s' Z0 ∧ same_table s s' ∧ ∃ c', idle s' x c'.
Proof using.
  intros Wo Ca. pose proof Ca as [Rq I1 I2 Hk Hnd Hone]. apply NoDup_app in Hnd as (Hnd & _ & _). rewrite !list.NoDup_cons, !not_elem_of_cons in Hnd. destruct Hnd as ((N1 & N2 & _) & (N3 & _) & _).
  destruct (free_unused_run cur s n1 n2 n1 n2 v1 v2 (wo_ok _ _ Wo) N3) as (s' & ys & Hrun & Q & Hys); [by right..|].
  destruct (quiet_world ys s s' Z0 Wo Q) as [Wo' Hu].
  - intros y j Hy. by apply Hys.
  - intros z y Hz Hy Hin. pose proof (caller_apart _ _ _ _ _ _ _ _ _ _ z y Wo Ca Hz Hy) as Hap. rewrite !not_elem_of_cons in Hap. destruct (Hys y Hin) as [[->| ->] _]; tauto.
  - exists s'. split_and!; try done. exists c. eapply quiet_idle; [exact Q| |apply Rq]. intros Hin. destruct (Hys x Hin) as [[?|?] _]; done.
Qed.

Lemma attempt_world s Z0 cur i x n1 n2 c v1 v2 wait : world_ok s Z0 → caller_ok s Z0 cur i x n1 n2 c v1 v2 →
  ∃ out s', posix_attempt cur i x wait n1 n2 s = Some (out, s') ∧ world_ok s' (next_sleepers cur i x out Z0) ∧ caller_left s' x out ∧ answer s s' i c wait out ∧
    (∀ a b, out = PxSleep a b → a = n1 ∧ b = n2).
Proof using.
  intros Wo Ca. assert (may_have c (entries s i) ∨ ¬ may_have c (entries s i)) as [Hg|Hg].
  { pose proof (ca_request _ _ _ _ _ _ _ _ _ _ Ca) as [Ok Hc _ Hlo Hl Ha _]. destruct (Z.eq_dec (fl_type c) F_UNLCK) as [|Hu]; [left; by left|].
    destruct (posix_conflict_run i s _ x c Ok Hl Ha (idle_has _ _ _ Hc) Hlo Hu) as (r & _ & [[_ Hn]|(_ & Hcf & _)]); [left; by right|right]. by intros [?|?]. }
  { destruct (granted_world s Z0 cur i x n1 n2 c v1 v2 wait Wo Ca Hg) as (s' & Hrun & Wo' & Hx & Han). by exists (PxDone 0), s'. }
  pose proof (ca_request _ _ _ _ _ _ _ _ _ _ Ca) as Rq. destruct (attempt_conflict cur i s x c _ Rq Hg) as (r & f & Hrun & Hr & Hcf).
  destruct (free_world s Z0 cur i x n1 n2 c v1 v2 Wo Ca) as (s1 & Hfr & Wo1 & Hu & Hx). rewrite Hrun. destruct wait; cbn [negb].
  2:{ exists (PxDone (- EAGAIN)), s1. split; [by erewrite es_bind by exact Hfr|]. split_and!; try done. by apply An_again. }
  destruct (deadlock_run s Z0 x r c f Wo (idle_has _ _ _ (rq_caller _ _ _ _ _ Rq)) (proj2 (rq_listed _ _ _ _ _ Rq) r f Hr)) as (dead & Hd & Hdead). erewrite es_bind by exact Hd.
  assert (fl_type c ≠ F_UNLCK) as Hut by (intros Hut; apply Hg; by left).
  destruct dead.
  - exists (PxDone (- EDEADLK)), s1. split; [by erewrite es_bind by exact Hfr|]. split_and!; try done. apply (An_deadlock _ _ _ _ _ (okey f)); try done.
    destruct (conflict_bytes _ c r f (rq_arranged _ _ _ _ _ Rq) (rq_lock _ _ _ _ _ Rq) Hut Hr Hcf) as (Hne & b & Hb & Hh & Hwr). by exists b, (fl_type f).
  - destruct (sleep_world s Z0 cur i x n1 n2 c v1 v2 r f Wo Ca Hr Hcf Hdead) as (s' & Hs & Wo' & Hu'). exists (PxSleep n1 n2), s'. split; [by erewrite es_bind by exact Hs|].
    split_and!; try done; [by apply An_sleep|by intros a b [= <- <-]..].
Qed.

(** ** The structures of the call *)

Lemma unchanged_trans s1 s2 s3 : same_table s1 s2 → same_table s2 s3 → same_table s1 s3.
Proof using. intros A B j. by rewrite B, A. Qed.

Lemma no_memory_before s s0 : lives s s0 → no_memory s0 → no_memory s.
Proof using. intros Hl (s1 & Hl1 & Hn). exists s1. split; [|done]. intros y Hy. by apply Hl1, Hl. Qed.

Lemma quiet_lives s s' : quiet [] s s' → lives s s'.
Proof using. intros [_ [K] _ _] y [f Hf]. destruct (K y f (not_elem_of_nil y) Hf) as (nx & b & Hy & _). by eexists. Qed.

Lemma answer_before s s0 s' i c wait out : same_table s s0 → lives s s0 → (∀ k k', awaits s0 k k' → awaits s k k') → answer s0 s' i c wait out → answer s s' i c wait out.
Proof using.
  intros Hu Hlv Ha Han. assert (entries s0 i = entries s i) as He by apply Hu. assert (type_at s0 i = type_at s i) as Ht by (unfold type_at; by rewrite He).
  destruct Han as [Hg Hty Ho|Hg Hw Hs|k Hg Hw Hs Hk Hr|Hm Hs|n1 n2 Hg Hw Hs].
  - apply An_granted; [by rewrite <-He|by intros k b; rewrite Hty, Ht|intros j Hj; by rewrite Ho, Hu].
  - apply An_again; [by rewrite <-He|done|by eapply unchanged_trans].
  - apply (An_deadlock _ _ _ _ _ k); [by rewrite <-He|done|by eapply unchanged_trans|by rewrite <-Ht|]. clear -Hr Ha. induction Hr as [|a b d Hab _ IH]; [apply rtc_refl|]. eapply rtc_l; [by apply Ha|done].
  - apply An_no_memory; [by eapply no_memory_before|by eapply unchanged_trans].
  - apply An_sleep; [by rewrite <-He|done|by eapply unchanged_trans].
Qed.

Lemma quiet_awaits ys s s' : quiet ys s s' → ∀ k k', awaits s' k k' → awaits s k k'.
Proof using. intros Q k k'. by apply (step_awaits 0 ys), quiet_step. Qed.

(** A new structure, unlike all others. *)
Lemma alloc_world s Z0 cur account : world_ok s Z0 → ∃ p s', locks_alloc_lock cur account s = Some (p, s') ∧ world_ok s' Z0 ∧ same_table s s' ∧ quiet [] s s' ∧
  (p = 0 ∧ (account = false → lk_alloc s = None) ∨ p ≠ 0 ∧ lk_locks s !! p = None ∧ (∃ v, idle s' p v) ∧ p ∉ Z0 ≫= sl_names).
Proof using.
  intros Wo. pose proof (wo_ok _ _ Wo) as Ok. destruct (lock_alloc_run cur account s Ok) as (p & s' & Hrun & Q & Hp). exists p, s'.
  destruct (quiet_world [] s s' Z0 Wo Q) as [Wo' Hu]; [by intros y j ?%elem_of_nil|by intros z y _ _ ?%elem_of_nil|]. split_and!; try done.
  destruct Hp as [[-> Hn]|(Hnone & v & Hv)]; [left|right].
  - split; [done|]. intros ->. by destruct Hn as [?|[? _]].
  - split; [by eapply idle_nonzero; [apply Q|]|]. split; [done|]. split; [by exists v|]. intros (z & Hpz & Hz)%list_elem_of_bind.
    destruct (wo_sleepers _ _ Wo z Hz) as [(nx & c & Hc & _) (u1 & J1 & _) (u2 & J2 & _)]. unfold sl_names in Hpz. rewrite !elem_of_cons in Hpz.
    destruct Hpz as [->|[->|[->|?%elem_of_nil]]]; congruence.
Qed.

Lemma free_own s Z0 cur x c : world_ok s Z0 → idle s x c → x ∉ Z0 ≫= sl_names → ∃ s', locks_free_lock cur x s = Some (tt, s') ∧ world_ok s' Z0 ∧ same_table s s' ∧ quiet [x] s s'.
Proof using.
  intros Wo Hx Hn. destruct (idle_free cur s x c (wo_ok _ _ Wo) Hx) as (s' & Hrun & Q). exists s'. destruct (quiet_world [x] s s' Z0 Wo Q) as [Wo' Hu]; try done.
  - intros y j ->%list_elem_of_singleton. apply Hx.
  - intros z y Hz Hy ->%list_elem_of_singleton. apply Hn. by apply (names_elem Z0 z).
Qed.

(** What [posix_lock_file] needs of its caller. *)
Record filled_in (s : lk) (Z0 : list sleeper) (cur : lk_task) (i x : Z) (c : file_lock) : Prop := {
  fi_caller : idle s x c;
  fi_posix : posix c;
  fi_lock : lock_ok c;
  fi_key : okey c = task_key cur;
  fi_name : x ∉ Z0 ≫= sl_names;
  fi_one : task_key cur ∉ sl_key <$> Z0;
  fi_no_wrap : no_wrap (fl_type c) (fl_start c) (fl_end c) (theirs (okey c) (entries s i))
}.

Lemma filled_quiet ys s s' Z0 cur i x c : filled_in s Z0 cur i x c → quiet ys s s' → same_table s s' → x ∉ ys → filled_in s' Z0 cur i x c.
Proof using. intros [A B C D E F G] Q Hu Hx. split; try done; [by eapply quiet_idle|]. by rewrite Hu. Qed.

Lemma filled_request s Z0 cur i x c : world_ok s Z0 → filled_in s Z0 cur i x c → request i s x c (entries s i).
Proof using. intros Wo [A B C D E F G]. split; try done; [apply Wo|apply entries_listed, Wo|apply Wo]. Qed.

(** The names that are free for the next call. *)
Definition apart (Z0 : list sleeper) (x : Z) (out : posix_out) : Prop := match out with PxDone _ => x ∉ Z0 ≫= sl_names | PxSleep _ _ => True end.

(** A structure that may be missing. *)
Definition maybe (s : lk) (Z0 : list sleeper) (p : Z) : Prop := p = 0 ∨ p ≠ 0 ∧ (∃ v, idle s p v) ∧ p ∉ Z0 ≫= sl_names.

Lemma free_maybe s Z0 cur x c p : world_ok s Z0 → idle s x c → p ≠ x → maybe s Z0 p →
  ∃ s', (if negb (p =? 0) then locks_free_lock cur p else mret tt) s = Some (tt, s') ∧ world_ok s' Z0 ∧ same_table s s' ∧ idle s' x c.
Proof using.
  intros Wo Hx Hne [->|(H0 & (v & Hv) & Hn)]; [by exists s|]. destruct (Z.eqb_spec p 0); [done|]. destruct (free_own s Z0 cur p v Wo Hv Hn) as (s' & Hr & Wo' & Hu & Q). exists s'.
  split_and!; try done; apply (quiet_idle _ _ _ _ _ Q); try done; by intros ->%list_elem_of_singleton.
Qed.

Lemma no_memory_world s Z0 cur x c p1 p2 : world_ok s Z0 → idle s x c → p1 ≠ x → p2 ≠ x → maybe s Z0 p1 → maybe s Z0 p2 → p1 = 0 ∨ p2 = 0 →
  ∃ s', free_unused cur p1 p2 s = Some (tt, s') ∧ world_ok s' Z0 ∧ same_table s s' ∧ idle s' x c.
Proof using.
  intros Wo Hx H1 H2 M1 M2 Hz. unfold free_unused. destruct (free_maybe s Z0 cur x c p1 Wo Hx H1 M1) as (s1 & E1 & Wo1 & U1 & X1).
  destruct Hz as [->| ->].
  - assert (s1 = s) as -> by (by injection E1). erewrite es_bind by exact E1. by apply (free_maybe s Z0 cur x c).
  - erewrite es_bind by exact E1. by exists s1.
Qed.

Lemma lock_file_world s Z0 cur i x c wait : world_ok s Z0 → filled_in s Z0 cur i x c →
  ∃ out s', posix_lock_file cur i x wait s = Some (out, s') ∧ world_ok s' (next_sleepers cur i x out Z0) ∧ caller_left s' x out ∧ answer s s' i c wait out.
Proof using.
  intros Wo Fi. unfold posix_lock_file. pose proof (filled_request _ _ _ _ _ _ Wo Fi) as Rq.
  destruct (alloc_world s Z0 cur false Wo) as (p1 & s1 & E1 & Wo1 & U1 & Q1 & C1). erewrite es_bind by exact E1. pose proof (filled_quiet _ _ _ _ _ _ _ _ Fi Q1 U1 (not_elem_of_nil x)) as Fi1.
  destruct (alloc_world s1 Z0 cur false Wo1) as (p2 & s2 & E2 & Wo2 & U2 & Q2 & C2). erewrite es_bind by exact E2. pose proof (filled_quiet _ _ _ _ _ _ _ _ Fi1 Q2 U2 (not_elem_of_nil x)) as Fi2.
  pose proof (unchanged_trans _ _ _ U1 U2) as U12. pose proof (quiet_trans _ _ _ _ Q1 Q2) as Q12. pose proof (fi_caller _ _ _ _ _ _ Fi) as X0. pose proof (fi_caller _ _ _ _ _ _ Fi1) as X1. pose proof (fi_caller _ _ _ _ _ _ Fi2) as X2.
  assert (x ≠ 0) as Hx0 by (eapply idle_nonzero; [apply Wo|exact X0]).
  assert (maybe s2 Z0 p1 ∧ p1 ≠ x) as [M1 P1].
  { destruct C1 as [[-> _]|(? & Hno & (v & Hv) & ?)]; [by split; [left|]|split; [right|intros ->; destruct X0; congruence]]. split_and!; try done. exists v. eapply quiet_idle; [exact Q2|apply not_elem_of_nil|done]. }
  assert (maybe s2 Z0 p2 ∧ p2 ≠ x) as [M2 P2].
  { destruct C2 as [[-> _]|(? & Hno & (v & Hv) & ?)]; [by split; [left|]|split; [right|intros ->; destruct X1; congruence]]. split_and!; try done. by exists v. }
  destruct ((p1 =? 0) || (p2 =? 0)) eqn:Hz.
  - assert (p1 = 0 ∨ p2 = 0) as Hz' by (apply orb_true_iff in Hz as [Hz|Hz]; apply Z.eqb_eq in Hz; tauto).
    destruct (no_memory_world s2 Z0 cur x c p1 p2 Wo2 X2 P1 P2 M1 M2 Hz') as (s3 & E3 & Wo3 & U3 & X3). exists (PxDone (- ENOLCK)), s3. split; [by erewrite es_bind by exact E3|].
    split_and!; [done|by exists c|]. assert (no_memory s) as Hnm.
    { destruct Hz' as [->| ->]; [destruct C1 as [[_ Hn]|(? & _)]; [exists s; split; [by intros y|by apply Hn]|done]|].
      destruct C2 as [[_ Hn]|(? & _)]; [exists s1; split; [by apply quiet_lives|by apply Hn]|done]. }
    apply An_no_memory; [done|]. by eapply unchanged_trans.
  - apply orb_false_iff in Hz as [Hz1 Hz2]. apply Z.eqb_neq in Hz1, Hz2. destruct M1 as [?|(_ & (v1 & I1) & N1)]; [done|]. destruct M2 as [?|(_ & (v2 & I2) & N2)]; [done|].
    assert (p1 ≠ p2) as H12.
    { destruct C1 as [[? _]|(_ & _ & (v & Hv) & _)]; [done|]. destruct C2 as [[? _]|(_ & Hno & _)]; [done|]. intros ->. destruct Hv. congruence. }
    assert (caller_ok s2 Z0 cur i x p1 p2 c v1 v2) as Ca.
    { split; try done; [by eapply filled_request|apply Fi| |apply Fi]. pose proof (fi_name _ _ _ _ _ _ Fi) as Nx. cbn. rewrite !list.NoDup_cons, !not_elem_of_cons. split_and!; try done. apply Wo. }
    destruct (attempt_world s2 Z0 cur i x p1 p2 c v1 v2 wait Wo2 Ca) as (out & s3 & Hrun & Wo3 & Hx3 & Han & _). exists out, s3. split_and!; try done.
    eapply answer_before; [exact U12|by apply quiet_lives|by eapply quiet_awaits|done].
Qed.
End world.
