(* ===== verification/LocksFcntl.v ===== *)
(** [fcntl_setlk], whole calls and what follows their sleep, and the closing of a
    file, among all tasks. *)
From S2P Require Import Prelude Locks LocksUser LocksOk LocksApply LocksPosix LocksWorld.
From stdpp Require Import list relations options.
#[local] Set Default Proof Using "Type*".
Open Scope cint_scope.
Open Scope Z_scope.

Section fcntl.
Context `{LockEnv}.

(** ** A sleeper wakes up *)

Lemma sleepers_perm (A B : list sleeper) z : NoDup ((A ++ z :: B) ≫= sl_names) → NoDup (sl_names z ++ ((A ++ B) ≫= sl_names)).
Proof using.
  intros Hnd. assert ((A ++ z :: B) ≫= sl_names ≡ₚ sl_names z ++ ((A ++ B) ≫= sl_names)) as Hp; [|by rewrite <-Hp].
  rewrite !bind_app, bind_cons. rewrite app_assoc, (Permutation_app_comm (A ≫= sl_names)), <-app_assoc. reflexivity.
Qed.

Lemma unsleep s A z B : world_ok s (A ++ z :: B) →
  ∃ s' c v1 v2, locks_delete_block (sl_lock z) s = Some (tt, s') ∧ world_ok s' (A ++ B) ∧ same_table s s' ∧ lives s s' ∧ (∀ k k', awaits s' k k' → awaits s k k') ∧
    idle s' (sl_lock z) c ∧ idle s' (sl_new z) v1 ∧ idle s' (sl_new2 z) v2 ∧ posix c ∧ lock_ok c ∧ okey c = sl_key z ∧ (∃ nx, lk_locks s !! sl_lock z = Some (set_fl_wait nx [] c)).
Proof using.
  intros Wo. pose proof (wo_ok _ _ Wo) as Ok. assert (z ∈ A ++ z :: B) as Hz by (apply elem_of_app; right; left). destruct (wo_sleepers _ _ Wo z Hz) as [(nx & c & Hx & Hl & Hp & Hlo & Hk & Hw) (v1 & I1) (v2 & I2)].
  destruct (delete_block_run s _ _ (ok_waits _ Ok) Hx) as (s' & Hrun & Wk & Hx' & _). pose proof (woken_step 0 [] s s' Ok Wk) as S. pose proof (woken_ok _ _ Wk Ok) as Ok'.
  exists s', c, v1, v2. assert (quiet [] s s') as Q by (split; [done|apply Wk..]).
  assert (same_table s s') as Hu by (apply (quiet_entries [] s s' Ok Q); by intros y j ?%elem_of_nil). unfold unwait in Hx'. rewrite decide_True in Hx' by done. cbn in Hx'.
  assert (idle s' (sl_lock z) c) as Hidle by (split; [done|intros j; by rewrite (woken_flock _ _ _ Wk)]).
  split_and!; try done; [|by apply quiet_lives|by intros k k'; apply (step_awaits 0 [])|by eapply quiet_idle; [|apply not_elem_of_nil|]..|by exists nx].
  pose proof (sleepers_perm A B z (wo_names _ _ Wo)) as Hnd. apply NoDup_app in Hnd as (_ & _ & Hnd). split; [done| | | | | |].
  - intros j. destruct (wo_tables _ _ Wo j) as [T1 T2]. split; [by rewrite Hu|]. unfold type_at in *. by rewrite Hu.
  - intros y Hy. eapply sleeper_step; [exact S|by intros ? _ ?%elem_of_nil|]. apply (wo_sleepers _ _ Wo). rewrite elem_of_app in *. rewrite elem_of_cons. tauto.
  - exact Hnd.
  - pose proof (wo_keys _ _ Wo) as Hks. rewrite fmap_app in *. cbn in Hks. apply NoDup_app in Hks as (K1 & K2 & [K3 K4]%list.NoDup_cons). apply NoDup_app. split_and!; try done. intros k Hk1 Hk2. apply (K2 k Hk1). by right.
  - intros w Hb. pose proof (wo_blocked _ _ Wo w (blocked_step _ _ _ _ _ S Ok Hb)) as Hin. rewrite fmap_app in *. cbn in Hin. rewrite elem_of_app, elem_of_cons in Hin. rewrite elem_of_app.
    destruct Hin as [?|[->|?]]; [by left| |by right]. exfalso. by apply (not_waiting s' (sl_lock z) [] c (ok_waits _ Ok') (proj1 Hidle)).
  - eapply awaits_acyclic; [|apply Wo]. intros k k'. by apply (step_awaits 0 []).
Qed.

Lemma wakeup_world s A z B signal : world_ok s (A ++ z :: B) →
  (∀ f, lk_locks s !! sl_lock z = Some f → no_wrap (fl_type f) (fl_start f) (fl_end f) (theirs (sl_key z) (entries s (sl_inode z)))) →
  ∃ out s', posix_wakeup (sl_task z) (sl_inode z) (sl_lock z) signal (sl_new z) (sl_new2 z) s = Some (out, s') ∧ world_ok s' (next_sleepers (sl_task z) (sl_inode z) (sl_lock z) out (A ++ B)) ∧
    caller_left s' (sl_lock z) out ∧ (∀ a b, out = PxSleep a b → a = sl_new z ∧ b = sl_new2 z) ∧
    if signal then out = PxDone (- ERESTARTSYS) ∧ same_table s s'
    else ∃ nx c, lk_locks s !! sl_lock z = Some (set_fl_wait nx [] c) ∧ answer s s' (sl_inode z) c true out.
Proof using.
  intros Wo Hw. destruct (unsleep s A z B Wo) as (s1 & c & v1 & v2 & Hd & Wo1 & U1 & Lv & Aw & Hx & I1 & I2 & Hp & Hlo & Hk & nx & Hc). unfold posix_wakeup. erewrite es_bind by exact Hd.
  assert (caller_ok s1 (A ++ B) (sl_task z) (sl_inode z) (sl_lock z) (sl_new z) (sl_new2 z) c v1 v2) as Ca.
  { split; try done; [split; try done; [apply Wo1|by apply entries_listed, Wo1|apply Wo1|]|by apply sleepers_perm, Wo|].
    - rewrite Hk, U1. by apply (Hw _ Hc).
    - pose proof (wo_keys _ _ Wo) as Hks. rewrite fmap_app in *. cbn in Hks. apply NoDup_app in Hks as (K1 & K2 & [K3 K4]%list.NoDup_cons). rewrite elem_of_app. intros [Hin|Hin]; [|done].
      apply (K2 _ Hin). by left. }
  destruct signal.
  - destruct (free_world s1 _ _ _ _ _ _ _ _ _ Wo1 Ca) as (s2 & Hf & Wo2 & U2 & Hx2). exists (PxDone (- ERESTARTSYS)), s2. split; [by erewrite es_bind by exact Hf|].
    split_and!; try done. by eapply unchanged_trans.
  - destruct (attempt_world s1 _ _ _ _ _ _ _ _ _ true Wo1 Ca) as (out & s2 & Hr & Wo2 & Hx2 & Han & Hab). exists out, s2. split_and!; try done. exists nx, c. split; [done|]. by eapply answer_before.
Qed.

(** ** The request of a caller *)

Definition of_width (w : Z → Z) : Prop := w = s32 ∨ w = s64.

Lemma flock_range_ok w f l st en : of_width w → w (l_len l) = l_len l → flock_range w f l = inr (st, en) → 0 <= st ∧ st <= en <= OFFSET_MAX.
Proof using.
  intros Hw Hlen. unfold flock_range. destruct (whence f l) as [z|]; [|done]. set (st' := w (w z + l_start l)). destruct (Z.ltb_spec st' 0), (Z.ltb_spec (l_len l) 0); try done. cbn [orb].
  assert (st' <= OFFSET_MAX) as Hst by (unfold st'; destruct Hw as [->| ->]; unfold s32, s64, OFFSET_MAX; Z.div_mod_to_equations; lia).
  assert (w st' = st') as Hfix by (unfold st'; destruct Hw as [->| ->]; unfold s32, s64; Z.div_mod_to_equations; lia). clearbody st'.
  destruct (Z.eqb_spec (l_len l) 0) as [Hz|Hz].
  - rewrite Hz. cbn [Z.gtb Z.compare andb]. intros [= <- <-]. unfold OFFSET_MAX in *. lia.
  - destruct (Z.gtb_spec (l_len l) 0) as [Hg|]; [|lia]. cbn [andb]. destruct (Z.ltb_spec (w (st' + l_len l - 1)) 0); [done|]. intros [= <- <-].
    destruct Hw as [->| ->]; unfold s32, s64, OFFSET_MAX in *; Z.div_mod_to_equations; lia.
Qed.

(** What a request is refused for before the table of locks is looked at. *)
Definition setlk_check (w : Z → Z) (f : lk_file) (l : flock) : Z + Z * Z :=
  if lf_mandatory f && lf_mmap_shared f then inl (- EAGAIN)
  else
    match flock_range w f l with
    | inl e => inl e
    | inr r =>
        if negb ((l_type l =? F_RDLCK) || (l_type l =? F_WRLCK) || (l_type l =? F_UNLCK)) then inl (- EINVAL)
        else if (l_type l =? F_RDLCK) && negb (lf_mode f & 1) then inl (- EBADF)
        else if (l_type l =? F_WRLCK) && negb (lf_mode f & 2) then inl (- EBADF)
        else inr r
    end.

(** The lock that is asked for. *)
Record asks (cur : lk_task) (l : flock) (st en : Z) (c : file_lock) : Prop := {
  as_posix : posix c;
  as_key : okey c = task_key cur;
  as_type : fl_type c = l_type l;
  as_start : fl_start c = st;
  as_end : fl_end c = en
}.

Inductive setlk_answer (w : Z → Z) (s s' : lk) (cur : lk_task) (file : option lk_file) (wait : bool) (user : option flock) : setlk_out → Prop :=
  | Sa_no_memory : no_memory s → same_table s s' → setlk_answer w s s' cur file wait user (SxDone (- ENOLCK))
  | Sa_fault : user = None → same_table s s' → setlk_answer w s s' cur file wait user (SxDone (- EFAULT))
  | Sa_no_file l : user = Some l → file = None → same_table s s' → setlk_answer w s s' cur file wait user (SxDone (- EBADF))
  | Sa_check l f e : user = Some l → file = Some f → setlk_check w f l = inl e → same_table s s' → setlk_answer w s s' cur file wait user (SxDone e)
  | Sa_done l f st en c e : user = Some l → file = Some f → setlk_check w f l = inr (st, en) → asks cur l st en c → answer s s' (lf_inode f) c wait (PxDone e) →
      setlk_answer w s s' cur file wait user (SxDone e)
  | Sa_sleep l f st en c x n1 n2 : user = Some l → file = Some f → setlk_check w f l = inr (st, en) → asks cur l st en c → answer s s' (lf_inode f) c wait (PxSleep n1 n2) →
      setlk_answer w s s' cur file wait user (SxSleep x n1 n2).

(** The sleepers after a call. *)
Definition after_setlk (cur : lk_task) (file : option lk_file) (out : setlk_out) (Z0 : list sleeper) : list sleeper :=
  match out, file with SxSleep x n1 n2, Some f => asleep cur (lf_inode f) x n1 n2 :: Z0 | _, _ => Z0 end.

(** A range to the end of the file does not join locks that the owner has. *)
Definition no_join (w : Z → Z) (s : lk) (cur : lk_task) (file : option lk_file) (user : option flock) : Prop :=
  ∀ l f st en, user = Some l → file = Some f → setlk_check w f l = inr (st, en) → no_wrap (l_type l) st en (theirs (task_key cur) (entries s (lf_inode f))).

Lemma setlk_check_type w f l r : setlk_check w f l = inr r → flock_range w f l = inr r ∧ (l_type l = F_RDLCK ∨ l_type l = F_WRLCK ∨ l_type l = F_UNLCK).
Proof using.
  unfold setlk_check. destruct (lf_mandatory f && lf_mmap_shared f); [done|]. destruct (flock_range w f l) as [|r']; [done|].
  destruct ((l_type l =? F_RDLCK) || (l_type l =? F_WRLCK) || (l_type l =? F_UNLCK)) eqn:Ht; [|done]. cbn [negb]. do 2 (destruct (_ && _); [done|]). intros [= ->]. split; [done|].
  rewrite !orb_true_iff, !Z.eqb_eq in Ht. tauto.
Qed.

(** ** The whole call *)

Lemma apply_lock_world s Z0 p v g v' : world_ok s Z0 → idle s p v → p ∉ Z0 ≫= sl_names → (g (alone v)).2 = alone v' →
  ∃ s', apply_lock p g s = Some ((g (alone v)).1, s') ∧ world_ok s' Z0 ∧ same_table s s' ∧ idle s' p v' ∧ quiet [p] s s'.
Proof using.
  intros Wo Hi Hn Hg. pose proof (wo_ok _ _ Wo) as Ok. destruct (wl_run s p v v' (λ f, set_fl_wait (fl_next f) (fl_block f) v') Ok (idle_has _ _ _ Hi)) as (s' & Hrun & Ok' & _ & K & Hin & _ & Hid & E & U); [done|].
  assert (quiet [p] s s') as Q.
  { split; try done. apply (edges_drop [p]); [apply Ok'| |done]. intros y ->%list_elem_of_singleton. apply U. intros h Hh. rewrite (proj1 Hi) in Hh. by injection Hh as <-. }
  exists s'. destruct (quiet_world [p] s s' Z0 Wo Q) as [Wo' Hu]; [intros y j ->%list_elem_of_singleton; apply Hi|intros z y Hz Hy ->%list_elem_of_singleton; apply Hn; by apply (names_elem Z0 z)|].
  split_and!; [|done|done|by apply Hid|done]. unfold apply_lock. assert (gl p s = Some (alone v, s)) as Hgl by (unfold gl; by rewrite (proj1 Hi)). erewrite es_bind by exact Hgl.
  assert (wl p (λ _, (g (alone v)).2) s = Some (tt, s')) as Hwl; [|by erewrite es_bind by exact Hwl].
  rewrite <-Hrun. unfold wl. rewrite (proj1 Hi). by rewrite Hg.
Qed.

Lemma to_posix_lock_run w cur f l v : of_width w → w (l_len l) = l_len l →
  ∃ e c, to_posix_lock w cur f l (alone v) = (e, alone c) ∧
    match setlk_check w f l with
    | inr (st, en) => e = 0 ∧ asks cur l st en c ∧ lock_ok c ∧ lf_mandatory f && lf_mmap_shared f = false ∧
        (l_type l =? F_RDLCK) && negb (lf_mode f & 1) = false ∧ (l_type l =? F_WRLCK) && negb (lf_mode f & 2) = false
    | inl e' => (lf_mandatory f && lf_mmap_shared f = true ∧ e' = - EAGAIN) ∨ lf_mandatory f && lf_mmap_shared f = false ∧
        ((e ≠ 0 ∧ e' = e) ∨ e = 0 ∧ e' = - EBADF ∧ ((l_type l =? F_RDLCK) && negb (lf_mode f & 1) = true ∨
          (l_type l =? F_RDLCK) && negb (lf_mode f & 1) = false ∧ (l_type l =? F_WRLCK) && negb (lf_mode f & 2) = true))
    end.
Proof using.
  intros Hw Hlen. unfold setlk_check, to_posix_lock. pose proof (flock_range_ok w f l) as Hr. destruct (flock_range w f l) as [e|[st en]] eqn:Hfr.
  - exists e, v. split; [done|]. destruct (lf_mandatory f && lf_mmap_shared f); [by left|right]. split; [done|left]. split; [|done].
    unfold flock_range in Hfr. destruct (whence f l); [|by injection Hfr as <-]. repeat case_match; try done; by injection Hfr as <-.
  - unfold assign_type. destruct ((l_type l =? F_RDLCK) || (l_type l =? F_WRLCK) || (l_type l =? F_UNLCK)) eqn:Ht; cbn [negb].
    + eexists 0, (set_fl_type (l_type l) (fill_lock (lt_files cur) (lt_pid cur) (lf_filp f) FL_POSIX (fl_type v) st en v)). split; [done|].
      destruct (lf_mandatory f && lf_mmap_shared f); [by left|]. destruct ((l_type l =? F_RDLCK) && negb (lf_mode f & 1)) eqn:H1; [right; split; [done|right]; by split_and!; [..|left]|].
      destruct ((l_type l =? F_WRLCK) && negb (lf_mode f & 2)) eqn:H2; [right; split; [done|right]; by split_and!; [..|right]|]. destruct (Hr st en Hw Hlen eq_refl) as [R1 R2].
      split_and!; try done. split; try done. rewrite !orb_true_iff, !Z.eqb_eq in Ht. cbn. tauto.
    + eexists (- EINVAL), (fill_lock (lt_files cur) (lt_pid cur) (lf_filp f) FL_POSIX (fl_type v) st en v). split; [done|].
      destruct (lf_mandatory f && lf_mmap_shared f); [by left|right]. split; [done|]. by left.
Qed.

(** The end of a call that holds only its first structure. *)
Lemma out_world s Z0 cur p c error : world_ok s Z0 → idle s p c → p ∉ Z0 ≫= sl_names →
  ∃ s', setlk_result cur p (PxDone error) s = Some (SxDone error, s') ∧ world_ok s' Z0 ∧ same_table s s'.
Proof using.
  intros Wo Hi Hn. destruct (free_own s Z0 cur p c Wo Hi Hn) as (s' & Hr & Wo' & Hu & _). exists s'. split; [|done]. unfold setlk_result. by erewrite es_bind by exact Hr.
Qed.

Lemma result_world s s0 s' Z0 cur f x w file wait user l st en c out : world_ok s' (next_sleepers cur (lf_inode f) x out Z0) → caller_left s' x out → x ∉ Z0 ≫= sl_names →
  same_table s s0 → lives s s0 → (∀ k k', awaits s0 k k' → awaits s k k') → answer s0 s' (lf_inode f) c wait out → user = Some l → file = Some f → setlk_check w f l = inr (st, en) → asks cur l st en c →
  ∃ r s2, setlk_result cur x out s' = Some (r, s2) ∧ world_ok s2 (after_setlk cur file r Z0) ∧ setlk_answer w s s2 cur file wait user r.
Proof using.
  intros Wo Hx Hn Hu Hlv Ha Han -> -> Hck Has. pose proof (answer_before _ _ _ _ _ _ _ Hu Hlv Ha Han) as Han'. destruct out as [e|n1 n2].
  - destruct Hx as [c' Hx]. destruct (out_world s' Z0 cur x c' e Wo Hx Hn) as (s2 & Hr & Wo2 & U2). exists (SxDone e), s2. split_and!; try done. eapply Sa_done; try done.
    clear -Han' U2. inversion Han'; subst.
    + apply An_granted; [done|intros k b; unfold type_at in *; rewrite U2; auto|intros j Hj; rewrite U2; auto].
    + apply An_again; [done|done|by eapply unchanged_trans].
    + eapply An_deadlock; [done|done|by eapply unchanged_trans|eassumption|eassumption].
    + apply An_no_memory; [done|by eapply unchanged_trans].
  - exists (SxSleep x n1 n2), s'. split_and!; try done. by eapply Sa_sleep.
Qed.

Context (no_lock_op : ∀ filp, file_op_lock filp = None).

Lemma setlk_world w setlkw s Z0 cur file cmd user : world_ok s Z0 → of_width w → (∀ l, user = Some l → w (l_len l) = l_len l) → task_key cur ∉ sl_key <$> Z0 → no_join w s cur file user →
  ∃ out s', setlk w setlkw cur file cmd user s = Some (out, s') ∧ world_ok s' (after_setlk cur file out Z0) ∧ setlk_answer w s s' cur file (cmd =? setlkw) user out.
Proof.
  intros Wo Hw Hlen Hone Hj. unfold setlk. destruct (alloc_world s Z0 cur false Wo) as (p & s1 & E1 & Wo1 & U1 & Q1 & C1). erewrite es_bind by exact E1.
  destruct C1 as [[-> Hnone]|(Hp0 & Hpn & (v & Hv) & Hn)].
  { cbn [Z.eqb]. exists (SxDone (- ENOLCK)), s1. split_and!; try done. apply Sa_no_memory; [|done]. exists s. split; [by intros y|by apply Hnone]. }
  destruct (Z.eqb_spec p 0); [done|]. cbv beta zeta.
  assert (∀ e s2 c2, world_ok s2 Z0 → idle s2 p c2 → same_table s s2 → (∀ s', same_table s s' → setlk_answer w s s' cur file (cmd =? setlkw) user (SxDone e)) →
    ∃ out s', setlk_result cur p (PxDone e) s2 = Some (out, s') ∧ world_ok s' (after_setlk cur file out Z0) ∧ setlk_answer w s s' cur file (cmd =? setlkw) user out) as Hout.
  { intros e s2 c2 Wo2 Hi2 U2 Hsa. destruct (out_world s2 Z0 cur p c2 e Wo2 Hi2 Hn) as (s' & Hr & Wo' & U'). exists (SxDone e), s'. split_and!; [done|by destruct file|]. apply Hsa. by eapply unchanged_trans. }
  destruct user as [l|]; [|apply (Hout _ _ v); try done; intros; by apply Sa_fault]. destruct file as [f|]; [|apply (Hout _ _ v); try done; intros; by eapply Sa_no_file].
  destruct (to_posix_lock_run w cur f l v Hw (Hlen l eq_refl)) as (e & c & Htp & Hck).
  destruct (apply_lock_world s1 Z0 p v (to_posix_lock w cur f l) c Wo1 Hv Hn) as (s2 & E2 & Wo2 & U2 & Hi2 & Q2); [by rewrite Htp|]. rewrite Htp in E2. cbn [fst] in E2.
  pose proof (unchanged_trans _ _ _ U1 U2) as U12.
  destruct (setlk_check w f l) as [e'|[st en]] eqn:Hsc.
  - destruct Hck as [[-> ->]|[-> Hck]]; [apply (Hout _ _ v); try done; intros; by eapply Sa_check|]. erewrite es_bind by exact E2.
    destruct Hck as [[He ->]|(-> & -> & Hck)].
    + destruct (Z.eqb_spec e 0); [done|]. cbn [negb]. apply (Hout _ _ c); try done. intros; by eapply Sa_check.
    + cbn [Z.eqb negb]. destruct Hck as [->|[-> ->]]; (apply (Hout _ _ c); [done..|]; intros; by eapply Sa_check).
  - destruct Hck as (-> & Has & Hlo & -> & Hm1 & Hm2). erewrite es_bind by exact E2. cbn [Z.eqb negb]. rewrite Hm1, Hm2, no_lock_op. erewrite es_bind by done. cbn [Z.ltb Z.compare].
    assert (filled_in s2 Z0 cur (lf_inode f) p c) as Fi.
    { pose proof Has as [A1 A2 A3 A4 A5]. split; try done. rewrite A2, A3, A4, A5, U12. by eapply Hj. }
    destruct (lock_file_world s2 Z0 cur (lf_inode f) p c (cmd =? setlkw) Wo2 Fi) as (out & s3 & E3 & Wo3 & Hx3 & Han). erewrite es_bind by exact E3.
    assert (lives s s2) as Hlv.
    { intros y Hy. destruct (decide (y = p)) as [->|Hyp]; [destruct Hi2 as [Hi2 _]; by eexists|]. apply (quiet_lives s s1 Q1) in Hy as [h Hh].
      destruct (kp_locks _ _ _ (qt_kept _ _ _ Q2) y h) as (nx & b & Hy & _); [by intros ->%list_elem_of_singleton|done|by eexists]. }
    eapply (result_world s s2); try done. intros k k' Hk. eapply quiet_awaits; [exact Q1|]. by eapply quiet_awaits.
Qed.

(** The sleepers after a wake-up. *)
Definition after_wakeup (z : sleeper) (out : setlk_out) (Z0 : list sleeper) : list sleeper :=
  match out with SxSleep x n1 n2 => asleep (sl_task z) (sl_inode z) x n1 n2 :: Z0 | SxDone _ => Z0 end.

(** The same for a sleeper that tries again. *)
Definition no_join_again (s : lk) (z : sleeper) : Prop :=
  ∀ f, lk_locks s !! sl_lock z = Some f → no_wrap (fl_type f) (fl_start f) (fl_end f) (theirs (sl_key z) (entries s (sl_inode z))).

Lemma setlk_wakeup_world s A z B signal : world_ok s (A ++ z :: B) → no_join_again s z →
  ∃ out s', setlk_wakeup (sl_task z) (sl_inode z) signal (sl_lock z) (sl_new z) (sl_new2 z) s = Some (out, s') ∧ world_ok s' (after_wakeup z out (A ++ B)).
Proof using H.
  intros Wo Hw. unfold setlk_wakeup. destruct (wakeup_world s A z B signal Wo Hw) as (out & s1 & E1 & Wo1 & Hx & Hab & _). erewrite es_bind by exact E1. destruct out as [e|n1 n2].
  - destruct Hx as [c' Hx]. destruct (out_world s1 (A ++ B) (sl_task z) (sl_lock z) c' e Wo1 Hx) as (s2 & Hr & Wo2 & _); [|by exists (SxDone e), s2].
    pose proof (sleepers_perm A B z (wo_names _ _ Wo)) as Hnd. cbn in Hnd. apply list.NoDup_cons in Hnd as [Hnd _]. rewrite !not_elem_of_cons in Hnd. tauto.
  - by exists (SxSleep (sl_lock z) n1 n2), s1.
Qed.
End fcntl.

(** [locks_remove_posix] and the answers of [fcntl_getlk]. *)

Definition owned (owner : Z) (xf : Z * file_lock) : Prop := posix xf.2 ∧ fl_owner xf.2 = owner.

#[global] Instance owned_dec owner xf : Decision (owned owner xf).
Proof. unfold owned, posix. apply _. Defined.

Definition without (owner : Z) (D : fdata) : fdata := filter (λ xf, ¬ owned owner xf) D.

Lemma without_elem owner D x f : (x, f) ∈ without owner D ↔ ¬ owned owner (x, f) ∧ (x, f) ∈ D.
Proof. unfold without. by rewrite list_elem_of_filter. Qed.

Lemma without_app owner A B : without owner (A ++ B) = without owner A ++ without owner B.
Proof. apply filter_app. Qed.

Lemma without_all owner D : (∀ xf, xf ∈ D → ¬ owned owner xf) → without owner D = D.
Proof.
  unfold without. induction D as [|g D IH]; [done|]. intros Hn. rewrite filter_cons. destruct (decide _) as [|Hg]; [|destruct Hg; apply Hn; left]. rewrite IH; [done|]. intros; apply Hn; by right.
Qed.

Lemma without_none owner D : (∀ xf, xf ∈ D → owned owner xf) → without owner D = [].
Proof.
  unfold without. induction D as [|g D IH]; [done|]. intros Hn. rewrite filter_cons. destruct (decide _) as [Hg|]; [destruct Hg; apply Hn; left|]. apply IH. intros; apply Hn; by right.
Qed.

Lemma without_theirs owner k D : theirs k (without owner D) = if decide (k.1 = owner) then [] else theirs k D.
Proof.
  destruct (decide (k.1 = owner)) as [Hk|Hk].
  - apply theirs_none. intros x f [Hn _]%without_elem [<- Hp]. apply Hn. by split.
  - unfold theirs, without. rewrite list_filter_filter. apply list_filter_iff. intros [x f]. cbn. split; [by intros [? _]|]. intros Hm. split; [done|]. intros [_ Ho]. apply Hk. destruct Hm as [<- _]. exact Ho.
Qed.

Lemma without_arranged owner D : arranged D → arranged (without owner D).
Proof.
  intros (N & G & [-> HN Hk HG]). exists N, (filter (λ g, g.1.1 ≠ owner) G). split; [|done| |intros k R [_ Hg]%list_elem_of_filter; by apply HG].
  - rewrite without_app, (without_all _ N) by (intros [x f] Hx [Hp _]; by apply (HN x f)). f_equal. clear Hk. induction G as [|[k R] G IH]; [done|]. change (concat ((k, R) :: G).*2) with (R ++ concat G.*2). rewrite without_app, filter_cons. cbn [fst snd].
    rewrite IH by (intros; apply HG; by right). destruct (HG k R) as [Hm _ _]; [left|]. destruct (decide (k.1 ≠ owner)) as [Hne|Heq]; cbn [fmap list_fmap concat snd].
    + rewrite without_all; [done|]. intros [x f] Hx [_ Ho]. apply Hne. destruct (Hm x f Hx) as [<- _]. exact Ho.
    + rewrite without_none; [done|]. intros [x f] Hx. destruct (Hm x f Hx) as [Hkf Hp]. split; [done|]. apply dec_stable in Heq. rewrite <-Heq, <-Hkf. done.
  - clear -Hk. induction G as [|[k R] G IH]; [done|]. cbn in Hk. apply list.NoDup_cons in Hk as [H1 H2]. rewrite filter_cons. destruct (decide _); [|by apply IH].
    cbn. apply list.NoDup_cons. split; [|by apply IH]. intros ([k' R'] & -> & [_ Hin]%list_elem_of_filter)%list_elem_of_fmap. apply H1, list_elem_of_fmap. by exists (k', R').
Qed.

Section close.
Context `{LockEnv} (no_lock_op : ∀ filp, file_op_lock filp = None).

Lemma unlock_delete_run cur s i A x f B : lk_ok s → at_inode s i (A ++ (x, f) :: B) → ∃ s', locks_unlock_delete cur i (length A) s = Some (tt, s') ∧
  moves_on i [x] s s' ∧ at_inode s' i (A ++ B).
Proof.
  intros Ok Hl. destruct (delete_lock_run cur s i A x f B Ok Hl) as (s' & Hrun & S & L & _). exists s'. split_and!; [|done|apply L..].
  destruct (listed_pos _ _ _ _ _ _ Hl) as [Hp _]. destruct (unhash_run s i A x f B Ok Hl) as (s1 & H1 & _ & _ & Hx & _). unfold locks_unlock_delete, locks_delete_lock in *.
  erewrite es_bind in Hrun by exact Hp. erewrite es_bind in Hrun by exact H1. destruct (gl_has s1 x f Hx) as [b Hb].
  erewrite es_bind by exact Hp. erewrite es_bind by exact H1. erewrite es_bind by exact Hb. rewrite no_lock_op. by erewrite es_bind by done.
Qed.

Definition count (owner : Z) (D : fdata) : nat := length (filter (owned owner) D).

Lemma remove_loop_run cur i owner N : ∀ fuel s A B, lk_ok s → at_inode s i (A ++ B) → (∀ xf, xf ∈ A → ¬ owned owner xf) → (length (A ++ B) <= N)%nat →
  (length B + 1 + count owner B * (N + 1) <= fuel)%nat →
  ∃ s', remove_posix_loop fuel cur i owner (length A) s = Some (tt, s') ∧ moves_on i ((A ++ B).*1) s s' ∧ at_inode s' i (without owner (A ++ B)).
Proof.
  induction fuel as [|fuel IH]; intros s A B Ok Hl HA HN Hf; [lia|]. cbn [remove_posix_loop]. destruct B as [|[x f] B].
  - rewrite app_nil_r in *. erewrite es_bind by by apply listed_end. exists s. split_and!; [done|by apply step_refl|by rewrite (without_all _ A)..].
  - destruct (listed_pos _ _ _ _ _ _ Hl) as [Hp _]. erewrite es_bind by exact Hp. pose proof (member_nonzero _ _ _ _ _ _ Ok Hl). destruct (Z.eqb_spec x 0); [done|].
    destruct (gl_has s x f) as [b Hb]; [apply (proj2 Hl); apply elem_of_app; right; left|]. erewrite es_bind by exact Hb.
    change (fl_flags (set_fl_wait 0 b f)) with (fl_flags f). change (fl_owner (set_fl_wait 0 b f)) with (fl_owner f).
    assert ((fl_flags f & FL_POSIX) && (fl_owner f =? owner) = bool_decide (owned owner (x, f))) as ->.
    { destruct (bool_decide_reflect (owned owner (x, f))) as [[Hp' Ho]|Hn]; [unfold posix in Hp'; cbn in Hp', Ho; by rewrite Hp', Ho, Z.eqb_refl|].
      destruct (fl_flags f & FL_POSIX) eqn:Hfl, (Z.eqb_spec (fl_owner f) owner); try done. by destruct Hn. }
    unfold count in Hf. rewrite filter_cons in Hf. rewrite length_app in HN. cbn [length] in Hf, HN. destruct (decide (owned owner (x, f))) as [Ho|Ho].
    + rewrite bool_decide_eq_true_2 by done. cbn [length] in Hf. destruct (unlock_delete_run cur s i A x f B Ok Hl) as (s1 & H1 & S1 & L1). erewrite es_bind by exact H1.
      destruct (IH s1 [] (A ++ B) (st_ok _ _ _ _ S1) L1) as (s' & Hr & S' & L'); [by intros ? ?%elem_of_nil|cbn; rewrite length_app; lia| |].
      { unfold count in *. rewrite filter_app, !length_app. assert (length (filter (owned owner) A) = 0%nat) as ->; [|lia]. clear -HA.
        induction A as [|g A IH]; [done|]. rewrite filter_cons. destruct (decide _) as [Hg|]; [destruct (HA g); [left|done]|]. apply IH. intros; apply HA; by right. }
      exists s'. split_and!; [exact Hr| |].
      * eapply step_trans; (eapply step_mono; [|done]); intros z; rewrite !fmap_app; cbn; rewrite !elem_of_app, ?elem_of_cons; [intros [->|?%elem_of_nil]; tauto|tauto].
      * cbn [app] in L'. rewrite without_app in *. unfold without at 2. rewrite filter_cons. destruct (decide _) as [Hn|_]; [by destruct Hn|]. exact L'.
    + rewrite bool_decide_eq_false_2 by done. cbn [length] in Hf. pose proof (IH s (A ++ [(x, f)]) B Ok) as Hend. rewrite <-!app_assoc, (length_app A [(x, f)]) in Hend. cbn [app length] in Hend. replace (length A + 1)%nat with (S (length A)) in Hend by lia.
      apply Hend; try done; [|rewrite length_app; cbn; lia|unfold count; lia].
      intros g [Hg| ->%list_elem_of_singleton]%elem_of_app; [by apply HA|done].
Qed.

Lemma remove_posix_run cur i owner s D : lk_ok s → at_inode s i D → ∃ s', locks_remove_posix cur i owner s = Some (tt, s') ∧ moves_on i (i_flock i s) s s' ∧ at_inode s' i (without owner D).
Proof.
  intros Ok Hl. unfold locks_remove_posix. erewrite es_bind by done. assert (length (i_flock i s) = length D) as -> by (by rewrite (proj1 Hl), length_fmap).
  destruct (remove_loop_run cur i owner (length D) (S (length D) * S (length D)) s [] D Ok Hl) as (s' & Hr & S & L); [by intros ? ?%elem_of_nil|done| |].
  - unfold count. pose proof (length_filter (owned owner) D). cbn [app]. nia.
  - exists s'. split_and!; [exact Hr| |apply L..]. cbn [app] in S. rewrite (proj1 Hl). exact S.
Qed.

(** What the owner had is free, and nothing else changes. *)
Lemma remove_world cur i owner s Z0 : world_ok s Z0 → ∃ s', locks_remove_posix cur i owner s = Some (tt, s') ∧ world_ok s' Z0 ∧
  (∀ k b, type_at s' i k b = if decide (k.1 = owner) then None else type_at s i k b) ∧ ∀ j, j ≠ i → entries s' j = entries s j.
Proof.
  intros Wo. pose proof (wo_ok _ _ Wo) as Ok. destruct (remove_posix_run cur i owner s _ Ok (entries_listed s i Ok)) as (s' & Hr & S & L). exists s'.
  assert (∀ j, j ≠ i → entries s' j = entries s j) as Ho by (intros j Hj; eapply other_entries; [done|exact S|done|]; intros y Hy Hyj; apply Hj; by apply (li_one _ (ok_lists _ Ok) j i y)).
  assert (∀ k b, type_at s' i k b = if decide (k.1 = owner) then None else type_at s i k b) as Ht.
  { intros k b. unfold type_at. rewrite (listed_entries _ _ _ L), plain_held. unfold held. rewrite without_theirs. by destruct (decide _). }
  split_and!; try done. eapply step_world; [exact Wo|exact S| |].
  - intros z y Hz Hy. by apply (names_out s Z0 z y Wo Hz Hy).
  - intros j. destruct (wo_tables _ _ Wo j) as [T1 T2]. destruct (decide (j = i)) as [->|Hj]; [|split; [by rewrite Ho|unfold type_at in *; by rewrite Ho]].
    split; [rewrite (listed_entries _ _ _ L); by apply plain_arranged, without_arranged|]. intros k k' b t t' Hne. rewrite !Ht. destruct (decide _), (decide _); try done. by apply T2.
Qed.

(** ** [F_GETLK] *)

Lemma conflict_sym c f : posix c → posix f → fl_type c = F_RDLCK ∨ fl_type c = F_WRLCK → fl_type f = F_RDLCK ∨ fl_type f = F_WRLCK →
  posix_locks_conflict f c = posix_locks_conflict c f.
Proof using.
  intros Hc Hf Htc Htf. rewrite !posix_conflict_unfold. rewrite Hc, Hf. cbn [andb].
  assert (locks_same_owner f c = locks_same_owner c f) as -> by (destruct (same_owner_spec c f), (same_owner_spec f c); congruence).
  assert (locks_overlap f c = locks_overlap c f) as -> by apply andb_comm.
  assert (locks_conflict f c = locks_conflict c f) as ->; [|done]. unfold locks_conflict. by destruct Htc as [->| ->], Htf as [->| ->].
Qed.

(** A lock that would be refused to [c], if there is one. *)
Lemma test_lock_run i s c : lk_ok s → table_ok s i → posix c → lock_ok c → fl_type c ≠ F_UNLCK →
  ∃ r, posix_test_lock i c s = Some (r, s) ∧ (r = 0 ∧ may_have c (entries s i) ∨ r ≠ 0 ∧ ∃ f, (r, f) ∈ entries s i ∧ has s r f ∧ posix_locks_conflict c f = true).
Proof using.
  intros Ok [Ha _] Hp Hlo Hu. pose proof (entries_listed s i Ok) as Hl. unfold posix_test_lock. erewrite es_bind by done. rewrite (proj1 Hl).
  assert (fl_type c = F_RDLCK ∨ fl_type c = F_WRLCK) as Htc by (destruct (lo_type _ Hlo) as [?|[?|?]]; tauto).
  destruct (first_run s (λ cfl, (fl_flags cfl & FL_POSIX) && posix_locks_conflict cfl c) (entries s i) Ok) as (r & Hr & Hcase); [done|apply Hl|]. exists r. split; [exact Hr|].
  assert (∀ x f, (x, f) ∈ entries s i → (fl_flags f & FL_POSIX) && posix_locks_conflict f c = posix_locks_conflict c f) as Heq.
  { intros x f Hx. destruct (fl_flags f & FL_POSIX) eqn:Hf; [apply conflict_sym; try done; by apply (entry_types _ x f Ha)|]. unfold posix_locks_conflict. by rewrite Hf. }
  destruct Hcase as [[-> Hn]|(H0 & f & Hf & Ht)]; [left|right].
  - split; [done|right]. intros (k & b & t & Hk & Hb & Hh & Hw). pose proof Ha as (N & G & Haa). apply (held_some k _ _ _ _ _ Haa) in Hh as (x & f & Hx & [Hm Hpf] & Hin & <-).
    specialize (Hn x f Hx). cbv beta in Hn. rewrite (Heq x f Hx) in Hn. rewrite posix_conflict_unfold in Hn. rewrite Hpf in Hn. destruct (same_owner_spec c f) as [He|_]; [congruence|].
    rewrite (proj2 (locks_conflict_spec c f Hlo Hu (entry_types _ x f Ha Hx Hpf)) Hw) in Hn. cbn in Hn. rewrite andb_true_r in Hn. unfold locks_overlap in Hn.
    destruct (within_spec (fl_start c) (fl_end c) b); [|done]. destruct (within_spec (fl_start f) (fl_end f) b); [|done].
    rewrite (proj2 (Z.geb_le (fl_end c) (fl_start f))), (proj2 (Z.geb_le (fl_end f) (fl_start c))) in Hn by lia. done.
  - split; [done|]. exists f. split; [done|]. split; [by apply (proj2 Hl)|]. cbv beta in Ht. by rewrite (Heq r f Hf) in Ht.
Qed.

(** The answer to a request of a caller. *)
Definition described (w : Z → Z) (v : file_lock) : flock := mk_flock (fl_type v) 0 (fl_start v) (if fl_end v =? OFFSET_MAX then 0 else w (fl_end v - fl_start v + 1)) (fl_pid v).

Lemma getlk_run w cur f l n s st en : of_width w → w (l_len l) = l_len l → lk_ok s → table_ok s (lf_inode f) → l_type l = F_RDLCK ∨ l_type l = F_WRLCK → flock_range w f l = inr (st, en) →
  ∃ c, asks cur l st en c ∧
    (may_have c (entries s (lf_inode f)) → getlk w false cur (Some f) (Some l) n s = Some ((0, Some (mk_flock F_UNLCK (l_whence l) (l_start l) (l_len l) (l_pid l))), s)) ∧
    (¬ may_have c (entries s (lf_inode f)) → ∃ x v, (x, v) ∈ entries s (lf_inode f) ∧ posix_locks_conflict c v = true ∧ getlk w false cur (Some f) (Some l) n s = Some ((0, Some (described w v)), s)).
Proof.
  intros Hw Hlen Ok Tb Ht Hr. destruct (flock_range_ok w f l st en Hw Hlen Hr) as [R1 R2].
  set (c := set_fl_type (l_type l) (fill_lock (lt_files cur) (lt_pid cur) (lf_filp f) FL_POSIX (fl_type n) st en n)). exists c. split; [done|].
  assert (fl_type c ≠ F_UNLCK) as Hu by (cbn; destruct Ht as [->| ->]; done). assert (lock_ok c) as Hlo by (split; cbn; [tauto|done|done]).
  destruct (test_lock_run (lf_inode f) s c Ok Tb ltac:(done) Hlo Hu) as (r & Hrun & Hcase).
  assert (to_posix_lock w cur f l n = (0, c)) as Hto.
  { unfold to_posix_lock. rewrite Hr. unfold assign_type, c. by destruct Ht as [Ht|Ht]; rewrite Ht. }
  unfold getlk. assert (negb (l_type l =? F_RDLCK) && negb (l_type l =? F_WRLCK) = false) as -> by (by destruct Ht as [->| ->]). rewrite Hto. cbn [Z.eqb negb]. rewrite no_lock_op.
  destruct Hcase as [[-> Hg]|(H0 & v & Hv & [q Hq] & Hc)].
  - split; [intros _|by intros Hn; destruct Hn].
    assert ((fl ← posix_test_lock (lf_inode f) c; if fl =? 0 then mret None else v ← gl fl; mret (Some v)) s = Some (None, s)) as Ht' by by erewrite es_bind by exact Hrun.
    cbv beta zeta iota. erewrite es_bind by (erewrite es_bind by exact Ht'; reflexivity). reflexivity.
  - split.
    + intros [?|Hn]; [done|]. destruct Hn. destruct (conflict_bytes _ c r v (tb_arranged _ _ Tb) Hlo Hu Hv Hc) as (Hne & b & Hb & Hh & Hwr). by exists (okey v), b, (fl_type v).
    + intros _. exists r, v. split_and!; try done.
      assert ((fl ← posix_test_lock (lf_inode f) c; if fl =? 0 then mret None else v ← gl fl; mret (Some v)) s = Some (Some (set_fl_wait 0 q v), s)) as Ht'.
      { erewrite es_bind by exact Hrun. destruct (Z.eqb_spec r 0); [done|]. by erewrite es_bind by (unfold gl; by rewrite Hq). }
      cbv beta zeta iota. erewrite es_bind by (erewrite es_bind by exact Ht'; reflexivity). reflexivity.
Qed.
End close.
