(* ===== verification/LocksThms.v ===== *)
(** What holds of file locks along any sequence of calls of [fcntl]. *)
From S2P Require Import Prelude Locks LocksUser LocksOk LocksApply LocksPosix LocksWorld LocksFcntl.
From stdpp Require Import list options relations.
#[local] Set Default Proof Using "Type*".
Open Scope cint_scope.
Open Scope Z_scope.

(** * All the tasks of the system *)

(** A call of a task that does not sleep, a wake-up, by a signal or not, and the
    end of a file. *)
Inductive lk_step `{LockEnv} : lk → list sleeper → lk → list sleeper → Prop :=
  | Ls_setlk w setlkw cur file cmd user out s s' Z0 :
      (w, setlkw) ∈ [(s32, F_SETLKW); (s64, F_SETLKW64)] → (∀ l, user = Some l → w (l_len l) = l_len l) → task_key cur ∉ sl_key <$> Z0 → no_join w s cur file user →
      setlk w setlkw cur file cmd user s = Some (out, s') → lk_step s Z0 s' (after_setlk cur file out Z0)
  | Ls_wakeup A z B signal out s s' :
      no_join_again s z → setlk_wakeup (sl_task z) (sl_inode z) signal (sl_lock z) (sl_new z) (sl_new2 z) s = Some (out, s') →
      lk_step s (A ++ z :: B) s' (after_wakeup z out (A ++ B))
  | Ls_close cur i owner s s' Z0 : locks_remove_posix cur i owner s = Some (tt, s') → lk_step s Z0 s' Z0.

Inductive lk_reachable `{LockEnv} : lk → list sleeper → Prop :=
  | Lr_start tasks : lk_reachable (mk_lk ∅ ∅ [] [] tasks []) []
  | Lr_step s Z0 s' Z' : lk_reachable s Z0 → lk_step s Z0 s' Z' → lk_reachable s' Z'.

Lemma width_of w setlkw : (w, setlkw) ∈ [(s32, F_SETLKW); (s64, F_SETLKW64)] → of_width w.
Proof. intros [[= -> ->]|[[= -> ->]|?%elem_of_nil]%elem_of_cons]%elem_of_cons; [by left|by right|done]. Qed.

Lemma start_ok tasks : lk_ok (mk_lk ∅ ∅ [] [] tasks []).
Proof.
  assert (∀ b f, lk_locks (mk_lk ∅ ∅ [] [] tasks []) !! b = Some f → False) as Hno by (intros b f; cbn; by rewrite lookup_empty).
  assert (∀ i x, x ∈ i_flock i (mk_lk ∅ ∅ [] [] tasks []) → False) as Hni by (intros i x; unfold i_flock; cbn; rewrite lookup_empty; apply not_elem_of_nil).
  split; split.
  - apply lookup_empty.
  - intros b f w Hb. by destruct (Hno _ _ Hb).
  - intros b f Hb. by destruct (Hno _ _ Hb).
  - intros w g Hw. by destruct (Hno _ _ Hw).
  - intros w. cbn. split; [by intros ?%elem_of_nil|]. intros (g & Hg & _). by rewrite lookup_empty in Hg.
  - intros i. unfold i_flock. cbn. rewrite lookup_empty. apply NoDup_nil_2.
  - intros i x Hx. by destruct (Hni _ _ Hx).
  - intros i j x Hx. by destruct (Hni _ _ Hx).
  - intros x ?%elem_of_nil. done.
Qed.

Lemma start_world tasks : world_ok (mk_lk ∅ ∅ [] [] tasks []) [].
Proof.
  split; [apply start_ok| |by intros z ?%elem_of_nil|apply NoDup_nil_2|apply NoDup_nil_2|by intros w ?%elem_of_nil|].
  - intros i. assert (entries (mk_lk ∅ ∅ [] [] tasks []) i = []) as He by (unfold entries, i_flock; cbn; by rewrite lookup_empty). split; unfold type_at; rewrite He.
    + exists [], []. split; [done|by intros ? ? ?%elem_of_nil|apply NoDup_nil_2|by intros ? ? ?%elem_of_nil].
    + by intros k k' b t t' _.
  - intros k Hk. assert (∀ a, ¬ awaits (mk_lk ∅ ∅ [] [] tasks []) k a) as Hn; [|by inversion Hk; subst; eapply Hn].
    intros a (w & f & g & Hf & _). cbn in Hf. by rewrite lookup_empty in Hf.
Qed.

Section thms.
Context `{LockEnv} (no_lock_op : ∀ filp, file_op_lock filp = None).

Lemma step_keeps s Z0 s' Z' : world_ok s Z0 → lk_step s Z0 s' Z' → world_ok s' Z'.
Proof.
  intros Wo Hs. revert Wo. destruct Hs as [w setlkw cur file cmd user out s1 s2 Z1 Hw Hl Hk Hj Hr|A z B signal out s1 s2 Hj Hr|cur i owner s1 s2 Z1 Hr]; intros Wo.
  - destruct (setlk_world no_lock_op w setlkw s1 Z1 cur file cmd user Wo (width_of _ _ Hw) Hl Hk Hj) as (out' & s' & Hr' & Wo' & _). rewrite Hr in Hr'. by injection Hr' as <- <-.
  - destruct (setlk_wakeup_world s1 A z B signal Wo Hj) as (out' & s' & Hr' & Wo'). rewrite Hr in Hr'. by injection Hr' as <- <-.
  - destruct (remove_world no_lock_op cur i owner s1 Z1 Wo) as (s' & Hr' & Wo' & _). rewrite Hr in Hr'. by injection Hr' as <-.
Qed.

Lemma reachable_ok s Z0 : lk_reachable s Z0 → world_ok s Z0.
Proof. induction 1 as [tasks|s Z0 s' Z' _ IH Hs]; [apply start_world|by eapply step_keeps]. Qed.




(** The answer of [F_GETLK]: no lock exactly when [F_SETLK] would be granted, and
    otherwise one that is in the way. *)
Theorem fcntl_getlk64_correct s i cur f l n st en : lk_ok s → table_ok s i → lf_inode f = i → s64 (l_len l) = l_len l → l_type l = F_RDLCK ∨ l_type l = F_WRLCK →
  flock_range s64 f l = inr (st, en) → ∃ c, asks cur l st en c ∧
    (may_have c (entries s i) → fcntl_getlk64 cur (Some f) (Some l) n s = Some ((0, Some (mk_flock F_UNLCK (l_whence l) (l_start l) (l_len l) (l_pid l))), s)) ∧
    (¬ may_have c (entries s i) → ∃ x v, (x, v) ∈ entries s i ∧ posix_locks_conflict c v = true ∧ fcntl_getlk64 cur (Some f) (Some l) n s = Some ((0, Some (described s64 v)), s)).
Proof. intros Ok Tb <- Hl Ht Hr. apply getlk_run; try done. by right. Qed.

(** The search for a deadlock answers, when it does, whether the owner of the lock
    waits for the caller; it does answer where it comes to the caller or to an owner
    that does not wait. *)
Theorem posix_locks_deadlock_correct s caller block c b : lk_ok s → lk_locks s !! caller = Some c → lk_locks s !! block = Some b →
  ∀ r, posix_locks_deadlock caller block s = Some (r, s) ↔
    if r then rtc (waits s) (okey b) (okey c) else ¬ rtc (waits s) (okey b) (okey c) ∧ ∃ k, rtc (waits s) (okey b) k ∧ waits_for s k = None.
Proof. intros Ok Hc Hb. by apply deadlock_exact. Qed.
End thms.

(** * A system with one file and three tasks *)

Definition locks_demo_free (s : lk) (p : Z) : Prop := p ≠ 0 ∧ lk_locks s !! p = None.

Definition locks_demo_alloc (s : lk) : option (Z * file_lock) :=
  match list_find (locks_demo_free s) (seqZ 1 20) with
  | Some (_, p) => Some (p, mk_file_lock 0 [] 9 9 9 9 9 9 9 9 9 9 9)
  | None => None
  end.

Lemma locks_demo_fresh s p v : locks_demo_alloc s = Some (p, v) → locks_demo_free s p.
Proof. unfold locks_demo_alloc. destruct (list_find _ _) as [[i q]|] eqn:Hf; [|done]. intros [= -> _]. by apply list_find_Some in Hf as (_ & ? & _). Qed.

Lemma locks_demo_clean s p v : locks_demo_alloc s = Some (p, v) → fl_next v = 0 ∧ fl_block v = [].
Proof. unfold locks_demo_alloc. destruct (list_find _ _) as [[i q]|] eqn:Hf; [|done]. by intros [= _ <-]. Qed.

Definition locks_demo_env : LockEnv := {| lk_alloc := locks_demo_alloc; lk_alloc_fresh := locks_demo_fresh; lk_alloc_clean := locks_demo_clean; file_op_lock _ := None |}.

Module demo.
#[local] Existing Instance locks_demo_env.

Definition no_locks : lk := mk_lk ∅ ∅ [] [] ∅ [].
Definition locks_demo_task (n : Z) : lk_task := mk_lk_task (100 + n) n 100.
Definition file (n : Z) : lk_file := mk_lk_file (70 + n) 5 0 0 3 false false false.
Definition range (type no_locks len : Z) : flock := mk_flock type 0 no_locks len 0.

(** The state after a call. *)
Definition ran {A} (m : LK A) (s : lk) : lk := match m s with Some (_, s') => s' | None => s end.
Definition set_lock (n cmd type no_locks len : Z) : LK setlk_out := fcntl_setlk64 (locks_demo_task n) (Some (file n)) cmd (Some (range type no_locks len)).

(** The first task locks bytes 0 to 9, the second wants 5 to 14 and sleeps, the
    first closes the file, and the second has its lock. *)
Definition s1 : lk := ran (set_lock 1 F_SETLK64 F_WRLCK 0 10) no_locks.
Definition s2 : lk := ran (set_lock 2 F_SETLKW64 F_WRLCK 5 10) s1.
Definition z2 : sleeper := mk_sleeper (locks_demo_task 2) 5 1 3 4.
Definition s3 : lk := ran (locks_remove_posix (locks_demo_task 1) 5 101) s2.
Definition wake2 : LK setlk_out := setlk_wakeup (sl_task z2) (sl_inode z2) false (sl_lock z2) (sl_new z2) (sl_new2 z2).
Definition s4 : lk := ran wake2 s3.

Lemma run_after {A} (m : LK A) s a : fst <$> m s = Some a → m s = Some (a, ran m s).
Proof. unfold ran. destruct (m s) as [[a' s']|]; [|done]. by intros [= ->]. Qed.

Lemma reach1 : lk_reachable s1 [].
Proof.
  eapply (Lr_step no_locks []); [apply Lr_start|]. eapply (Ls_setlk s64 F_SETLKW64 (locks_demo_task 1) (Some (file 1)) F_SETLK64 (Some (range F_WRLCK 0 10)) (SxDone 0)).
  - right. left.
  - by intros l [= <-].
  - apply not_elem_of_nil.
  - intros l f st en [= <-] [= <-] Hc Hm. vm_compute in Hc. injection Hc as <- <-. done.
  - apply (run_after (set_lock 1 F_SETLK64 F_WRLCK 0 10) no_locks). vm_compute. reflexivity.
Qed.

Lemma reach2 : lk_reachable s2 [z2].
Proof.
  eapply (Lr_step s1 []); [apply reach1|]. eapply (Ls_setlk s64 F_SETLKW64 (locks_demo_task 2) (Some (file 2)) F_SETLKW64 (Some (range F_WRLCK 5 10)) (SxSleep 1 3 4)).
  - right. left.
  - by intros l [= <-].
  - apply not_elem_of_nil.
  - intros l f st en [= <-] [= <-] Hc Hm. vm_compute in Hc. injection Hc as <- <-. done.
  - apply (run_after (set_lock 2 F_SETLKW64 F_WRLCK 5 10) s1). vm_compute. reflexivity.
Qed.

Lemma reach4 : lk_reachable s4 [].
Proof.
  eapply (Lr_step s3 [z2]); [eapply (Lr_step s2 [z2]); [apply reach2|]; apply (Ls_close (locks_demo_task 1) 5 101), (run_after (locks_remove_posix (locks_demo_task 1) 5 101) s2); vm_compute; reflexivity|].
  apply (Ls_wakeup [] z2 [] false (SxDone 0)).
  - intros f Hf Hm. vm_compute in Hf. injection Hf as <-. done.
  - apply (run_after wake2 s3). vm_compute. reflexivity.
Qed.
End demo.

Import demo.

Lemma demo_no_op (filp : Z) : @file_op_lock locks_demo_env filp = None.
Proof. done. Qed.

Example demo_table : (type_at s2 5 (101, 1) 9, type_at s2 5 (102, 2) 9, type_at s4 5 (101, 1) 9, type_at s4 5 (102, 2) 9) = (Some F_WRLCK, None, None, Some F_WRLCK).
Proof. vm_compute. reflexivity. Qed.




(** * What goes wrong *)

(** A lock as the list shows it: owner, kind, type and range. *)
Definition demo_locks (s : lk) : list (Z * Z * Z * (Z * Z)) := (λ xf, (fl_owner xf.2, fl_flags xf.2, fl_type xf.2, (fl_start xf.2, fl_end xf.2))) <$> entries s 5.

Section wrong.
#[local] Existing Instance locks_demo_env.

(** [fl_end + 1] wraps for a range to the end of the file: such a lock does not
    join the locks that the owner has, so a file that is locked twice has two
    locks, and what is unlocked later is still locked. *)
Example lock_to_end_twice :
  demo_locks (ran (set_lock 1 F_SETLK64 F_RDLCK 0 0;; set_lock 1 F_SETLK64 F_RDLCK 0 0) no_locks) =
    [(101, FL_POSIX, F_RDLCK, (0, OFFSET_MAX)); (101, FL_POSIX, F_RDLCK, (0, OFFSET_MAX))].
Proof. vm_compute. reflexivity. Qed.

Example unlocked_and_held :
  let s := ran (set_lock 1 F_SETLK64 F_RDLCK 10 11;; set_lock 1 F_SETLK64 F_RDLCK 0 0;; set_lock 1 F_SETLK64 F_UNLCK 10 11) no_locks in type_at s 5 (101, 1) 15 = Some F_RDLCK.
Proof. vm_compute. reflexivity. Qed.

(** [locks_mandatory_area] ends at the first lock behind the range, but the list
    is in the order of owners first: it does not see the lock of the second owner. *)
Example mandatory_area_misses :
  let m := set_lock 1 F_SETLK64 F_WRLCK 100 10;; set_lock 2 F_SETLK64 F_WRLCK 0 10;; locks_mandatory_area (locks_demo_task 3) false 5 73 true 0 5 in
  fst <$> m no_locks = Some (AxDone 0) ∧ type_at (ran m no_locks) 5 (102, 2) 3 = Some F_WRLCK.
Proof. vm_compute. done. Qed.

(** A lease in front of the list hides the locks on whole files behind it: two
    files hold an exclusive one. *)
Definition two_exclusive : LK flock_out :=
  flock_lock_file (locks_demo_task 1) 5 71 F_WRLCK false;;
  fcntl_setlease 0 (locks_demo_task 1) (file 1) true true false true 1 F_WRLCK;;
  flock_lock_file (locks_demo_task 2) 5 72 F_WRLCK false.

Example flock_behind_lease : fst <$> two_exclusive no_locks = Some (FxDone 0) ∧
  length (filter (λ xf, fl_flags xf.2 = FL_FLOCK ∧ fl_type xf.2 = F_WRLCK) (entries (ran two_exclusive no_locks) 5)) = 2%nat.
Proof. vm_compute. done. Qed.

(** A task with a lease waits for a byte, the owner of the byte for the lease:
    that is no deadlock to the search, which then has no end for a third task. *)
Definition waits_in_circle : LK unit :=
  set_lock 1 F_SETLK64 F_WRLCK 0 10;;
  fcntl_setlease 0 (locks_demo_task 2) (file 2) true true false true 1 F_WRLCK;;
  set_lock 2 F_SETLKW64 F_WRLCK 0 10;;
  __get_lease 0 (locks_demo_task 1) 5 true false;;
  mret tt.

Example search_without_end : fst <$> waits_in_circle no_locks = Some tt ∧ set_lock 3 F_SETLKW64 F_WRLCK 0 10 (ran waits_in_circle no_locks) = None.
Proof. vm_compute. done. Qed.
End wrong.
