(* ===== verification/Filter.v ===== *)
(** The Linux socket filter (net/core/filter.c): the BPF machine that runs a
    filter on a packet, the checker that accepts filters, and the filters
    attached to sockets (with the parts of net/core/skbuff.c, net/core/sock.c,
    include/net/sock.h and net/ipv4/tcp_minisocks.c they use). *)
From S2P Require Import Prelude.
From stdpp Require Import list options.
#[local] Set Default Proof Using "Type*".
Open Scope cint_scope.
Open Scope Z_scope.

(** * Instructions (include/linux/filter.h) *)

Record sock_filter := mk_insn {
  code : Z;  (* __u16 *)
  jt : Z;    (* __u8 *)
  jf : Z;    (* __u8 *)
  k : Z      (* __u32 *)
}.

Definition BPF_CLASS (code : Z) : Z := Z.land code 0x07.
Definition BPF_LD : Z := 0x00.
Definition BPF_LDX : Z := 0x01.
Definition BPF_ST : Z := 0x02.
Definition BPF_STX : Z := 0x03.
Definition BPF_ALU : Z := 0x04.
Definition BPF_JMP : Z := 0x05.
Definition BPF_RET : Z := 0x06.
Definition BPF_MISC : Z := 0x07.
Definition BPF_W : Z := 0x00.
Definition BPF_H : Z := 0x08.
Definition BPF_B : Z := 0x10.
Definition BPF_IMM : Z := 0x00.
Definition BPF_ABS : Z := 0x20.
Definition BPF_IND : Z := 0x40.
Definition BPF_MEM : Z := 0x60.
Definition BPF_LEN : Z := 0x80.
Definition BPF_MSH : Z := 0xa0.
Definition BPF_OP (code : Z) : Z := Z.land code 0xf0.
Definition BPF_ADD : Z := 0x00.
Definition BPF_SUB : Z := 0x10.
Definition BPF_MUL : Z := 0x20.
Definition BPF_DIV : Z := 0x30.
Definition BPF_OR : Z := 0x40.
Definition BPF_AND : Z := 0x50.
Definition BPF_LSH : Z := 0x60.
Definition BPF_RSH : Z := 0x70.
Definition BPF_NEG : Z := 0x80.
Definition BPF_JA : Z := 0x00.
Definition BPF_JEQ : Z := 0x10.
Definition BPF_JGT : Z := 0x20.
Definition BPF_JGE : Z := 0x30.
Definition BPF_JSET : Z := 0x40.
Definition BPF_K : Z := 0x00.
Definition BPF_X : Z := 0x08.
Definition BPF_A : Z := 0x10.
Definition BPF_TAX : Z := 0x00.
Definition BPF_TXA : Z := 0x80.
Definition BPF_MAXINSNS : Z := 4096.
Definition BPF_MEMWORDS : Z := 16.
Definition SKF_AD_OFF : Z := -0x1000.
Definition SKF_AD_PROTOCOL : Z := 0.
Definition SKF_AD_PKTTYPE : Z := 4.
Definition SKF_AD_IFINDEX : Z := 8.
Definition SKF_NET_OFF : Z := -0x100000.
Definition SKF_LL_OFF : Z := -0x200000.

(** The case labels of the switch in [sk_run_filter]. *)
Inductive alu_op := ADD | SUB | MUL | DIV | AND | OR | LSH | RSH.
Inductive jmp_op := JGT | JGE | JEQ | JSET.
Inductive operand := SrcX | SrcK.
Inductive insn_case :=
  | CAlu (op : alu_op) (src : operand)
  | CNeg
  | CJa
  | CJmp (op : jmp_op) (src : operand)
  | CLdAbs (size : Z)
  | CLdLen
  | CLdxLen
  | CLdInd (size : Z)
  | CLdxMsh
  | CLdImm
  | CLdxImm
  | CLdMem
  | CLdxMem
  | CTax
  | CTxa
  | CRetK
  | CRetA
  | CSt
  | CStx
  | CDefault.

Definition switch_cases : list (Z * insn_case) :=
  let c := λ a b s, Z.lor (Z.lor a b) s in
  [(c BPF_ALU BPF_ADD BPF_X, CAlu ADD SrcX); (c BPF_ALU BPF_ADD BPF_K, CAlu ADD SrcK);
   (c BPF_ALU BPF_SUB BPF_X, CAlu SUB SrcX); (c BPF_ALU BPF_SUB BPF_K, CAlu SUB SrcK);
   (c BPF_ALU BPF_MUL BPF_X, CAlu MUL SrcX); (c BPF_ALU BPF_MUL BPF_K, CAlu MUL SrcK);
   (c BPF_ALU BPF_DIV BPF_X, CAlu DIV SrcX); (c BPF_ALU BPF_DIV BPF_K, CAlu DIV SrcK);
   (c BPF_ALU BPF_AND BPF_X, CAlu AND SrcX); (c BPF_ALU BPF_AND BPF_K, CAlu AND SrcK);
   (c BPF_ALU BPF_OR BPF_X, CAlu OR SrcX); (c BPF_ALU BPF_OR BPF_K, CAlu OR SrcK);
   (c BPF_ALU BPF_LSH BPF_X, CAlu LSH SrcX); (c BPF_ALU BPF_LSH BPF_K, CAlu LSH SrcK);
   (c BPF_ALU BPF_RSH BPF_X, CAlu RSH SrcX); (c BPF_ALU BPF_RSH BPF_K, CAlu RSH SrcK);
   (Z.lor BPF_ALU BPF_NEG, CNeg);
   (Z.lor BPF_JMP BPF_JA, CJa);
   (c BPF_JMP BPF_JGT BPF_K, CJmp JGT SrcK); (c BPF_JMP BPF_JGE BPF_K, CJmp JGE SrcK);
   (c BPF_JMP BPF_JEQ BPF_K, CJmp JEQ SrcK); (c BPF_JMP BPF_JSET BPF_K, CJmp JSET SrcK);
   (c BPF_JMP BPF_JGT BPF_X, CJmp JGT SrcX); (c BPF_JMP BPF_JGE BPF_X, CJmp JGE SrcX);
   (c BPF_JMP BPF_JEQ BPF_X, CJmp JEQ SrcX); (c BPF_JMP BPF_JSET BPF_X, CJmp JSET SrcX);
   (c BPF_LD BPF_W BPF_ABS, CLdAbs 4); (c BPF_LD BPF_H BPF_ABS, CLdAbs 2);
   (c BPF_LD BPF_B BPF_ABS, CLdAbs 1);
   (c BPF_LD BPF_W BPF_LEN, CLdLen); (c BPF_LDX BPF_W BPF_LEN, CLdxLen);
   (c BPF_LD BPF_W BPF_IND, CLdInd 4); (c BPF_LD BPF_H BPF_IND, CLdInd 2);
   (c BPF_LD BPF_B BPF_IND, CLdInd 1);
   (c BPF_LDX BPF_B BPF_MSH, CLdxMsh);
   (Z.lor BPF_LD BPF_IMM, CLdImm); (Z.lor BPF_LDX BPF_IMM, CLdxImm);
   (Z.lor BPF_LD BPF_MEM, CLdMem); (Z.lor BPF_LDX BPF_MEM, CLdxMem);
   (Z.lor BPF_MISC BPF_TAX, CTax); (Z.lor BPF_MISC BPF_TXA, CTxa);
   (Z.lor BPF_RET BPF_K, CRetK); (Z.lor BPF_RET BPF_A, CRetA);
   (BPF_ST, CSt); (BPF_STX, CStx)].

Fixpoint switch_on (cases : list (Z * insn_case)) (code : Z) : insn_case :=
  match cases with
  | [] => CDefault
  | (c, i) :: cases => if code =? c then i else switch_on cases code
  end.

(** * Packets (include/linux/skbuff.h) *)

(** [skb_frag_t]; the page is its bytes. *)
Record skb_frag := mk_frag { page : list Z; page_offset : Z; frag_size : Z }.

(** The linear area, from [head] to the end of [struct skb_shared_info], is the
    list of its bytes, and pointers into it are offsets from [head]. *)
Inductive sk_buff := mk_skb {
  skb_area : list Z;
  skb_data : Z;
  skb_tail : Z;
  skb_nh_raw : Z;
  skb_mac_raw : Z;
  skb_len : Z;
  skb_data_len : Z;
  skb_frags : list skb_frag;
  skb_frag_list : list sk_buff;
  skb_protocol : Z;
  skb_pkt_type : Z;
  skb_ifindex : Z
}.

Definition skb_headlen (skb : sk_buff) : Z := skb_len skb - skb_data_len skb.

(** The bytes at an offset; [None] when they are not all in the area. *)
Definition read_bytes (area : list Z) (off n : Z) : option (list Z) :=
  if (0 <=? off) && (off + n <=? Z.of_nat (length area))
  then Some (take (Z.to_nat n) (drop (Z.to_nat off) area)) else None.

(** ** skb_copy_bits *)

(** What is still to be copied, and the bytes copied so far. *)
Record copy_state := mk_copy { c_offset : Z; c_len : Z; c_to : list Z }.

(** How a part of the copy ends: a bad access, [goto fault], [return 0], or on
    to the next part. *)
Inductive copy_end :=
  | CopyOob
  | CopyFault
  | CopyDone (to : list Z)
  | CopyMore (c : copy_state).

(** The copy from the part of the packet that ends at [end_]; [src] gives the
    bytes, or [inl true] for a fault and [inl false] for a bad access. *)
Definition copy_part (end_ : Z) (src : Z → Z → bool + list Z) (c : copy_state) : copy_end :=
  let copy := end_ - c_offset c in
  if copy >? 0 then
    let copy := if copy >? c_len c then c_len c else copy in
    match src (c_offset c) copy with
    | inl true => CopyFault
    | inl false => CopyOob
    | inr bytes =>
        if c_len c - copy =? 0 then CopyDone (c_to c ++ bytes)
        else CopyMore (mk_copy (c_offset c + copy) (c_len c - copy) (c_to c ++ bytes))
    end
  else CopyMore c.

Definition from_area (area : list Z) (off n : Z) : bool + list Z :=
  match read_bytes area off n with Some bytes => inr bytes | None => inl false end.

(** The loop over the page fragments; it also returns where the last one ends. *)
Fixpoint copy_frags (frags : list skb_frag) (start : Z) (c : copy_state) : Z * copy_end :=
  match frags with
  | [] => (start, CopyMore c)
  | f :: frags =>
      let end_ := start + frag_size f in
      match copy_part end_ (λ offset copy, from_area (page f) (page_offset f + offset - start) copy) c with
      | CopyMore c => copy_frags frags end_ c
      | e => (end_, e)
      end
  end.

(** 0 with the bytes, [-EFAULT], or [None] when a byte outside the packet's
    memory was accessed. *)
Fixpoint skb_copy_bits (skb : sk_buff) (offset len : Z) : option (Z * list Z) :=
  let start := skb_headlen skb in
  if offset >? skb_len skb - len then Some (-EFAULT, []) else
  let header := copy_part start (λ offset copy, from_area (skb_area skb) (skb_data skb + offset) copy)
                  (mk_copy offset len []) in
  let (start, e) := match header with
                    | CopyMore c => copy_frags (skb_frags skb) start c
                    | e => (start, e)
                    end in
  let e := match e with
           | CopyMore c =>
               (fix copy_list (l : list sk_buff) (start : Z) (c : copy_state) {struct l} : copy_end :=
                  match l with
                  | [] => CopyMore c
                  | skb :: l =>
                      let end_ := start + skb_len skb in
                      match copy_part end_
                              (λ offset copy, match skb_copy_bits skb (offset - start) copy with
                                              | None => inl false
                                              | Some (err, bytes) => if negb (err =? 0) then inl true else inr bytes
                                              end) c with
                      | CopyMore c => copy_list l end_ c
                      | e => e
                      end
                  end) (skb_frag_list skb) start c
           | e => e
           end in
  match e with
  | CopyOob => None
  | CopyFault => Some (-EFAULT, [])
  | CopyDone to => Some (0, to)
  | CopyMore c => if c_len c =? 0 then Some (0, c_to c) else Some (-EFAULT, [])
  end.

(** * The machine *)

(** [ntohl] and [ntohs] of the bytes in memory order. *)
Definition be_value (bytes : list Z) : Z := foldl (λ v b, v * 256 + b) 0 bytes.

Definition htons (v : Z) : Z := Z.lor (Z.land (Z.shiftr v 8) 0xff) (Z.shiftl (Z.land v 0xff) 8).

Definition load_pointer (skb : sk_buff) (k : Z) : option Z :=
  let ptr := if k >=? SKF_NET_OFF then Some (skb_nh_raw skb + k - SKF_NET_OFF)
             else if k >=? SKF_LL_OFF then Some (skb_mac_raw skb + k - SKF_LL_OFF)
             else None in
  match ptr with
  | Some p => if (p >=? 0) && (p <? skb_tail skb) then Some p else None
  | None => None (* NULL is below skb->head *)
  end.

(** A value for the accumulator, [return 0], or a bad access. *)
Inductive loaded :=
  | LoadVal (v : Z)
  | LoadRet0
  | LoadOob.

Definition load_bytes (area : list Z) (off n : Z) : loaded :=
  match read_bytes area off n with Some bytes => LoadVal (be_value bytes) | None => LoadOob end.

(** The switch on [k-SKF_AD_OFF]. *)
Definition load_ancillary (skb : sk_buff) (k : Z) : loaded :=
  let a := k - SKF_AD_OFF in
  if a =? SKF_AD_PROTOCOL then LoadVal (htons (skb_protocol skb))
  else if a =? SKF_AD_PKTTYPE then LoadVal (skb_pkt_type skb)
  else if a =? SKF_AD_IFINDEX then LoadVal (u32 (skb_ifindex skb))
  else LoadRet0.

(** The code at [load_w], [load_h] and [load_b], which differ in the size [n]
    (for one byte, [k + 1 <= len] is [k < len]). *)
Definition load (skb : sk_buff) (n k : Z) : loaded :=
  if (k >=? 0) && (k + n <=? skb_headlen skb) then load_bytes (skb_area skb) (skb_data skb + k) n
  else if k <? 0 then
    if k >=? SKF_AD_OFF then load_ancillary skb k
    else match load_pointer skb k with
         | Some ptr => load_bytes (skb_area skb) ptr n
         | None => LoadRet0
         end
  else match skb_copy_bits skb k n with
       | None => LoadOob
       | Some (err, bytes) => if err =? 0 then LoadVal (be_value bytes) else LoadRet0
       end.

(** [mem] is the scratch memory. *)
Record bpf_state := mk_bpf { pc : Z; reg_A : Z; reg_X : Z; mem : list Z }.

(** How a run ends: with a result, or with an access outside the filter, the
    scratch memory or the packet's memory. *)
Inductive run_result :=
  | Ret (v : Z)
  | OobInsn
  | OobMem
  | OobData
  | OutOfFuel.

Inductive step_result :=
  | Next (st : bpf_state)
  | Stop (r : run_result).

(** [pc++] is the step of the [for] loop. *)
Definition next_A (st : bpf_state) (v : Z) : step_result :=
  Next (mk_bpf (s32 (pc st + 1)) v (reg_X st) (mem st)).
Definition next_X (st : bpf_state) (v : Z) : step_result :=
  Next (mk_bpf (s32 (pc st + 1)) (reg_A st) v (mem st)).
Definition next_mem (st : bpf_state) (k v : Z) : step_result :=
  if k <? BPF_MEMWORDS
  then Next (mk_bpf (s32 (pc st + 1)) (reg_A st) (reg_X st) (<[Z.to_nat k := v]> (mem st)))
  else Stop OobMem.
Definition jump (st : bpf_state) (off : Z) : step_result :=
  Next (mk_bpf (s32 (s32 (pc st + off) + 1)) (reg_A st) (reg_X st) (mem st)).

Definition of_load (st : bpf_state) (l : loaded) : step_result :=
  match l with
  | LoadVal v => next_A st v
  | LoadRet0 => Stop (Ret 0)
  | LoadOob => Stop OobData
  end.

Definition mem_at (st : bpf_state) (k : Z) : option Z :=
  if k <? BPF_MEMWORDS then mem st !! Z.to_nat k else None.

(** A shift count of 32 or more is undefined in C; the i386 instruction takes
    its low five bits. *)
Definition alu (op : alu_op) (a v : Z) : option Z :=
  match op with
  | ADD => Some (u32 (a + v))
  | SUB => Some (u32 (a - v))
  | MUL => Some (u32 (a * v))
  | DIV => if v =? 0 then None else Some (a / v)
  | AND => Some (Z.land a v)
  | OR => Some (Z.lor a v)
  | LSH => Some (u32 (Z.shiftl a (Z.land v 31)))
  | RSH => Some (Z.shiftr a (Z.land v 31))
  end.

Definition jmp_test (op : jmp_op) (a v : Z) : bool :=
  match op with
  | JGT => a >? v
  | JGE => a >=? v
  | JEQ => a =? v
  | JSET => a & v
  end.

Definition step (skb : sk_buff) (st : bpf_state) (fentry : sock_filter) : step_result :=
  let src := λ s, match s with SrcX => reg_X st | SrcK => k fentry end in
  match switch_on switch_cases (code fentry) with
  | CAlu op s => match alu op (reg_A st) (src s) with
                 | Some v => next_A st v
                 | None => Stop (Ret 0)
                 end
  | CNeg => next_A st (u32 (- reg_A st))
  | CJa => jump st (k fentry)
  | CJmp op s => jump st (if jmp_test op (reg_A st) (src s) then jt fentry else jf fentry)
  | CLdAbs n => of_load st (load skb n (s32 (k fentry)))
  | CLdLen => next_A st (u32 (skb_headlen skb))
  | CLdxLen => next_X st (u32 (skb_headlen skb))
  | CLdInd n => of_load st (load skb n (s32 (reg_X st + k fentry)))
  | CLdxMsh =>
      let k := s32 (k fentry) in
      if (k >=? 0) && (k >=? skb_headlen skb) then Stop (Ret 0)
      else match read_bytes (skb_area skb) (skb_data skb + k) 1 with
           | Some bytes => next_X st (Z.shiftl (Z.land (be_value bytes) 0xf) 2)
           | None => Stop OobData
           end
  | CLdImm => next_A st (k fentry)
  | CLdxImm => next_X st (k fentry)
  | CLdMem => match mem_at st (k fentry) with Some v => next_A st v | None => Stop OobMem end
  | CLdxMem => match mem_at st (k fentry) with Some v => next_X st v | None => Stop OobMem end
  | CTax => next_X st (reg_A st)
  | CTxa => next_A st (reg_X st)
  | CRetK => Stop (Ret (s32 (k fentry)))
  | CRetA => Stop (Ret (s32 (reg_A st)))
  | CSt => next_mem st (k fentry) (reg_A st)
  | CStx => next_mem st (k fentry) (reg_X st)
  | CDefault => Stop (Ret 0)
  end.

Fixpoint run_loop (fuel : nat) (skb : sk_buff) (filter : list sock_filter) (st : bpf_state) : run_result :=
  if pc st <? Z.of_nat (length filter) then
    match fuel with
    | O => OutOfFuel
    | S fuel =>
        if pc st <? 0 then OobInsn else
        match filter !! Z.to_nat (pc st) with
        | None => OobInsn
        | Some fentry =>
            match step skb st fentry with
            | Next st => run_loop fuel skb filter st
            | Stop r => r
            end
        end
    end
  else Ret 0.

(** [stack] is what [mem] holds at the start: it is not initialised. *)
Definition sk_run_filter (fuel : nat) (skb : sk_buff) (filter : list sock_filter) (stack : list Z) : run_result :=
  run_loop fuel skb filter (mk_bpf 0 0 0 stack).

(** 1 to toss the packet, or 0 with the length [skb_trim] cuts it to. *)
Definition sk_filter_packet (fuel : nat) (skb : sk_buff) (filter : list sock_filter) (stack : list Z) :
    option (Z * Z) :=
  match sk_run_filter fuel skb filter stack with
  | Ret pkt_len =>
      Some (if pkt_len =? 0 then (1, skb_len skb)
            else (0, if skb_len skb >? u32 pkt_len then u32 pkt_len else skb_len skb))
  | _ => None
  end.

(** * The checker *)

Definition is_mem_op (code : Z) : bool :=
  (code =? BPF_ST) || (code =? BPF_STX) ||
  (code =? Z.lor BPF_LD BPF_MEM) || (code =? Z.lor BPF_LDX BPF_MEM).

(** One turn of the loop: is the instruction accepted? *)
Definition chk_insn (flen pc : Z) (ftest : sock_filter) : bool :=
  let jumps :=
    if BPF_CLASS (code ftest) =? BPF_JMP then
      if BPF_OP (code ftest) =? BPF_JA then negb (k ftest >=? u32 (flen - pc - 1))
      else negb ((pc + jt ftest + 1 >=? flen) || (pc + jf ftest + 1 >=? flen))
    else true in
  if negb jumps then false
  else if k ftest >=? BPF_MEMWORDS then negb (is_mem_op (code ftest)) else true.

Fixpoint chk_loop (flen pc : Z) (filter : list sock_filter) : bool :=
  match filter with
  | [] => true
  | ftest :: filter => if chk_insn flen pc ftest then chk_loop flen (pc + 1) filter else false
  end.

(** [before] is what lies in memory before the filter: the check of the last
    instruction of an empty filter reads it. *)
Definition sk_chk_filter (before : sock_filter) (filter : list sock_filter) : Z :=
  let flen := Z.of_nat (length filter) in
  if flen >=? 0xFFFFFFFF / 8 then - EINVAL
  else if negb (chk_loop flen 0 filter) then - EINVAL
  else if BPF_CLASS (code (List.last filter before)) =? BPF_RET then 0 else - EINVAL.
