(* ===== verification/FilterProofs.v ===== *)
(** Proofs on the socket filter: [skb_copy_bits] reads the bytes of the packet
    whatever their layout, a step of an accepted filter is safe, and so is a
    run. *)
From S2P Require Import Prelude Filter.
From stdpp Require Import list options.
#[local] Set Default Proof Using "Type*".
Open Scope cint_scope.
Open Scope Z_scope.

(** * Ranges of lists *)

(** [n] elements from position [off]. *)
Definition zsub (l : list Z) (off n : Z) : list Z := take (Z.to_nat n) (drop (Z.to_nat off) l).

Definition zlen (l : list Z) : Z := Z.of_nat (length l).

Lemma zsub_split l off n m :
  0 <= off → 0 <= n → 0 <= m → zsub l off (n + m) = zsub l off n ++ zsub l (off + n) m.
Proof.
  intros. unfold zsub. rewrite !Z2Nat.inj_add by done. rewrite <-drop_drop.
  generalize (drop (Z.to_nat off) l). intros k. generalize (Z.to_nat n) (Z.to_nat m). clear.
  intros a b. revert k. induction a as [|a IH]; intros [|x k]; simpl; try done.
  - by rewrite take_nil.
  - by rewrite IH.
Qed.

Lemma zsub_mid pre l post off n :
  zlen pre <= off → 0 <= n → off + n <= zlen pre + zlen l →
  zsub (pre ++ l ++ post) off n = zsub l (off - zlen pre) n.
Proof.
  unfold zlen, zsub. intros H1 H2 H3. rewrite drop_app_ge by lia.
  replace (Z.to_nat off - length pre)%nat with (Z.to_nat (off - Z.of_nat (length pre))) by lia.
  set (o := Z.to_nat (off - Z.of_nat (length pre))).
  rewrite drop_app_le by lia. apply take_app_le. rewrite length_drop. lia.
Qed.

Lemma zsub_zsub l a n off m :
  0 <= a → 0 <= off → 0 <= m → off + m <= n → zsub (zsub l a n) off m = zsub l (a + off) m.
Proof.
  intros. unfold zsub. rewrite Z2Nat.inj_add, <-drop_drop by done.
  generalize (drop (Z.to_nat a) l). intros k.
  replace (Z.to_nat n) with (Z.to_nat off + (Z.to_nat n - Z.to_nat off))%nat by lia.
  rewrite <-take_drop_commute, take_take. f_equal. lia.
Qed.

Lemma zlen_zsub l off n : 0 <= off → 0 <= n → off + n <= zlen l → zlen (zsub l off n) = n.
Proof. unfold zlen, zsub. intros. rewrite length_take, length_drop. lia. Qed.

Lemma zlen_app l k : zlen (l ++ k) = zlen l + zlen k.
Proof. unfold zlen. rewrite length_app. lia. Qed.

Lemma read_bytes_in area off n :
  0 <= off → off + n <= zlen area → read_bytes area off n = Some (zsub area off n).
Proof.
  intros H1 H2. unfold read_bytes. fold (zlen area).
  by rewrite (proj2 (Z.leb_le 0 off)), (proj2 (Z.leb_le (off + n) (zlen area))).
Qed.

Lemma read_bytes_neg area off n : off < 0 → read_bytes area off n = None.
Proof. intros H. unfold read_bytes. by rewrite (proj2 (Z.leb_gt 0 off)). Qed.

(** * Packets *)

(** The bytes of a packet: the linear part, the page fragments, and the packets
    of the fragment list. *)
Definition linear (skb : sk_buff) : list Z := zsub (skb_area skb) (skb_data skb) (skb_headlen skb).
Definition frag_bytes (f : skb_frag) : list Z := zsub (page f) (page_offset f) (frag_size f).

Fixpoint flatten (skb : sk_buff) : list Z :=
  linear skb ++ flat_map frag_bytes (skb_frags skb) ++ flat_map flatten (skb_frag_list skb).

Definition is_byte (b : Z) : bool := (0 <=? b) && (b <? 256).

Definition frag_wf (f : skb_frag) : bool :=
  (0 <=? page_offset f) && (0 <=? frag_size f) && (page_offset f + frag_size f <=? zlen (page f)) &&
  forallb is_byte (page f).

(** The layout of a packet, and the widths of its fields. [tail] is the end of the linear part,
    and [struct skb_shared_info], which is longer than a word, lies behind it in the area. *)
Fixpoint skb_wf (skb : sk_buff) : bool :=
  ((0 <=? skb_data skb) && (0 <=? skb_headlen skb) &&
   (skb_data skb + skb_headlen skb =? skb_tail skb) && (skb_tail skb + 4 <=? zlen (skb_area skb)) &&
   forallb is_byte (skb_area skb) && forallb frag_wf (skb_frags skb) &&
   (skb_len skb =? zlen (flatten skb)) && (skb_len skb <? 2 ^ 31 - 4)) &&
  ((0 <=? skb_protocol skb) && (skb_protocol skb <? 2 ^ 16) && is_byte (skb_pkt_type skb)) &&
  forallb skb_wf (skb_frag_list skb).

Section sk_buff_ind.
Context (P : sk_buff → Prop).
Context (Hmk : ∀ skb, Forall P (skb_frag_list skb) → P skb).

(** Induction through the fragment lists. *)
Fixpoint sk_buff_nested_ind (skb : sk_buff) : P skb :=
  Hmk skb ((fix go (l : list sk_buff) : Forall P l :=
              match l with
              | [] => Forall_nil_2 P
              | x :: l => Forall_cons_2 P x l (sk_buff_nested_ind x) (go l)
              end) (skb_frag_list skb)).
End sk_buff_ind.

(** * skb_copy_bits *)

Section copy.
Context (L : list Z) (off n : Z).
Context (Hoff : 0 <= off) (Hn : 0 <= n) (Hfit : off + n <= zlen L).

(** The parts up to [start] have been copied as far as they are asked for. *)
Definition copied (start : Z) (c : copy_state) : Prop :=
  start <= c_offset c ∧ 0 <= c_len c ∧ off <= c_offset c ∧ c_offset c + c_len c = off + n ∧
  c_to c = zsub L off (c_offset c - off).

Definition copied_end (end_ : Z) (e : copy_end) : Prop :=
  match e with
  | CopyDone to => to = zsub L off n
  | CopyMore c => copied end_ c
  | _ => False
  end.

Lemma copy_part_spec pre B post src c :
  L = pre ++ B ++ post → copied (zlen pre) c →
  (∀ o m, zlen pre <= o → 0 <= m → o + m <= zlen pre + zlen B → src o m = inr (zsub B (o - zlen pre) m)) →
  copied_end (zlen pre + zlen B) (copy_part (zlen pre + zlen B) src c).
Proof.
  intros HL (Hs & Hl & Ho & Hsum & Hto) Hsrc. unfold copy_part. cbv zeta.
  destruct (zlen pre + zlen B - c_offset c >? 0) eqn:Hpos; to_prop;
    [|simpl; unfold copied; split_and!; try done; lia].
  set (copy := if _ >? c_len c then c_len c else _).
  assert (0 <= copy <= c_len c ∧ c_offset c + copy <= zlen pre + zlen B ∧
    (copy = c_len c ∨ c_offset c + copy = zlen pre + zlen B)) as (Hc & Hce & Hcor).
  { subst copy. destruct (_ >? c_len c) eqn:Hgt; to_prop; lia. }
  rewrite Hsrc by lia.
  assert (c_to c ++ zsub B (c_offset c - zlen pre) copy = zsub L off (c_offset c + copy - off)) as Hnew.
  { rewrite Hto. replace (c_offset c + copy - off) with ((c_offset c - off) + copy) by lia.
    rewrite zsub_split by lia. f_equal. rewrite HL. replace (off + (c_offset c - off)) with (c_offset c) by lia.
    by rewrite zsub_mid by lia. }
  destruct (c_len c - copy =? 0) eqn:Hz; to_prop; simpl; rewrite Hnew.
  - f_equal. lia.
  - unfold copied. simpl. split_and!; [lia..|done].
Qed.

Lemma copy_frags_spec frags pre post c :
  L = pre ++ flat_map frag_bytes frags ++ post → forallb frag_wf frags = true →
  copied (zlen pre) c →
  let (start, e) := copy_frags frags (zlen pre) c in
  match e with
  | CopyMore c => start = zlen (pre ++ flat_map frag_bytes frags) ∧ copied start c
  | e => copied_end start e
  end.
Proof.
  revert pre c. induction frags as [|f frags IH]; intros pre c HL Hwf Hc.
  { simpl. by rewrite app_nil_r. }
  simpl in HL, Hwf. apply andb_prop in Hwf as [Hf Hwf]. unfold frag_wf in Hf. to_prop.
  assert (zlen (frag_bytes f) = frag_size f) as Hlen by (apply zlen_zsub; lia).
  cbn [copy_frags]. cbv zeta. rewrite <-Hlen.
  rewrite <-app_assoc in HL.
  assert (copied_end (zlen pre + zlen (frag_bytes f)) (copy_part (zlen pre + zlen (frag_bytes f))
    (λ offset copy, from_area (page f) (page_offset f + offset - zlen pre) copy) c)) as Hp.
  { eapply copy_part_spec; [done|done|]. intros o m Ho Hm Hom. unfold from_area.
    rewrite read_bytes_in by lia. unfold frag_bytes. rewrite zsub_zsub by lia. do 3 f_equal. lia. }
  destruct (copy_part _ _ c) as [| |to|c']; [done..|]. cbn [copied_end] in Hp.
  rewrite <-zlen_app in Hp |- *. specialize (IH (pre ++ frag_bytes f) c').
  rewrite <-!app_assoc in IH. specialize (IH HL Hwf Hp).
  destruct (copy_frags frags (zlen (pre ++ frag_bytes f)) c') as [start e].
  exact IH.
Qed.

(** The loop over the fragment list, with the loop as a function. *)
Fixpoint copy_list (l : list sk_buff) (start : Z) (c : copy_state) : copy_end :=
  match l with
  | [] => CopyMore c
  | skb :: l =>
      match copy_part (start + skb_len skb)
              (λ offset copy, match skb_copy_bits skb (offset - start) copy with
                              | None => inl false
                              | Some (err, bytes) => if negb (err =? 0) then inl true else inr bytes
                              end) c with
      | CopyMore c => copy_list l (start + skb_len skb) c
      | e => e
      end
  end.

(** What [skb_copy_bits] does to a well-formed packet. *)
Definition copies (skb : sk_buff) : Prop :=
  skb_wf skb = true → ∀ o m, 0 <= o → 0 <= m →
  skb_copy_bits skb o m =
    Some (if o + m <=? skb_len skb then (0, zsub (flatten skb) o m) else (- EFAULT, [])).

Lemma skb_wf_len skb : skb_wf skb = true → skb_len skb = zlen (flatten skb).
Proof. destruct skb. cbn [skb_wf]. intros H. to_prop. done. Qed.

Lemma copy_list_spec l pre post c :
  L = pre ++ flat_map flatten l ++ post → Forall copies l → forallb skb_wf l = true →
  copied (zlen pre) c →
  copied_end (zlen (pre ++ flat_map flatten l)) (copy_list l (zlen pre) c).
Proof.
  revert pre c. induction l as [|skb l IH]; intros pre c HL Hall Hwf Hc.
  { simpl. by rewrite app_nil_r. }
  simpl in HL, Hwf. apply andb_prop in Hwf as [Hf Hwf]. apply Forall_cons in Hall as [Hcp Hall].
  pose proof (skb_wf_len skb Hf) as Hlen. cbn [copy_list]. rewrite Hlen.
  rewrite <-app_assoc in HL. set (src := λ offset copy, _).
  assert (copied_end (zlen pre + zlen (flatten skb)) (copy_part (zlen pre + zlen (flatten skb)) src c)) as Hp.
  { eapply copy_part_spec; [done|done|]. intros o m Ho Hm Hom. subst src. cbv beta.
    rewrite (Hcp Hf) by lia. rewrite (proj2 (Z.leb_le _ _)) by lia. done. }
  destruct (copy_part _ _ c) as [| |to|c']; [done..|]. cbn [copied_end] in Hp.
  rewrite <-zlen_app in Hp |- *. specialize (IH (pre ++ flatten skb) c').
  rewrite <-!app_assoc in IH. simpl. apply IH; done.
Qed.
End copy.

Lemma skb_copy_bits_unfold skb o m :
  skb_copy_bits skb o m =
    if o >? skb_len skb - m then Some (- EFAULT, []) else
    let header := copy_part (skb_headlen skb)
      (λ offset copy, from_area (skb_area skb) (skb_data skb + offset) copy) (mk_copy o m []) in
    let (start, e) := match header with
                      | CopyMore c => copy_frags (skb_frags skb) (skb_headlen skb) c
                      | e => (skb_headlen skb, e)
                      end in
    match match e with CopyMore c => copy_list (skb_frag_list skb) start c | e => e end with
    | CopyOob => None
    | CopyFault => Some (- EFAULT, [])
    | CopyDone to => Some (0, to)
    | CopyMore c => if c_len c =? 0 then Some (0, c_to c) else Some (- EFAULT, [])
    end.
Proof. by destruct skb. Qed.

Lemma flatten_unfold skb :
  flatten skb = linear skb ++ flat_map frag_bytes (skb_frags skb) ++ flat_map flatten (skb_frag_list skb).
Proof. by destruct skb. Qed.

(** The layout part of [skb_wf]. *)
Record skb_layout (skb : sk_buff) : Prop := {
  sl_data : 0 <= skb_data skb;
  sl_headlen : 0 <= skb_headlen skb;
  sl_tail : skb_data skb + skb_headlen skb = skb_tail skb;
  sl_area : skb_tail skb + 4 <= zlen (skb_area skb);
  sl_bytes : forallb is_byte (skb_area skb) = true;
  sl_frags : forallb frag_wf (skb_frags skb) = true;
  sl_len : skb_len skb = zlen (flatten skb);
  sl_max : skb_len skb < 2 ^ 31 - 4;
  sl_protocol : 0 <= skb_protocol skb < 2 ^ 16;
  sl_pkt_type : is_byte (skb_pkt_type skb) = true;
  sl_list : forallb skb_wf (skb_frag_list skb) = true
}.

Lemma skb_wf_layout skb : skb_wf skb = true → skb_layout skb.
Proof. destruct skb. cbn [skb_wf]. intros H. to_prop. by split. Qed.

Lemma zlen_linear skb : skb_layout skb → zlen (linear skb) = skb_headlen skb.
Proof. intros [? ? ? ? ? ? ? ? ? ? ?]. apply zlen_zsub; lia. Qed.

Lemma skb_copy_bits_spec skb : copies skb.
Proof.
  induction skb as [skb IH] using sk_buff_nested_ind. intros Hwf o m Ho Hm.
  pose proof (skb_wf_layout skb Hwf) as Hl. pose proof (zlen_linear skb Hl) as Hlin.
  rewrite skb_copy_bits_unfold. destruct (o >? skb_len skb - m) eqn:Hgt; to_prop.
  { by rewrite (proj2 (Z.leb_gt _ _)) by lia. }
  rewrite (proj2 (Z.leb_le _ _)) by lia. rewrite <-Hlin. cbv zeta.
  assert (o + m <= zlen (flatten skb)) as Hfit by (rewrite <-(sl_len _ Hl); lia).
  set (L := flatten skb) in *. pose proof (flatten_unfold skb) as HL. fold L in HL.
  set (src := λ offset copy, _).
  assert (copied L o m (zlen []) (mk_copy o m [])) as H0.
  { unfold copied, zlen. simpl. split_and!; [lia..|]. by rewrite Z.sub_diag. }
  assert (copied_end L o m (zlen [] + zlen (linear skb)) (copy_part (zlen [] + zlen (linear skb)) src (mk_copy o m []))) as Hp.
  { eapply copy_part_spec; [done..|]. intros a b Ha Hb Hab. subst src. cbv beta. unfold from_area.
    change (zlen []) with 0 in *. destruct Hl. rewrite read_bytes_in by lia.
    unfold linear. rewrite zsub_zsub by lia. do 3 f_equal. lia. }
  change (zlen [] + zlen (linear skb)) with (zlen (linear skb)) in Hp.
  destruct (copy_part _ src _) as [| |to|c]; [done..|by rewrite Hp|]. cbn [copied_end] in Hp.
  pose proof (copy_frags_spec L o m Ho Hm Hfit (skb_frags skb) (linear skb) _ c HL (sl_frags _ Hl) Hp) as Hf.
  destruct (copy_frags (skb_frags skb) (zlen (linear skb)) c) as [start e].
  destruct e as [| |to|c1]; [done..|by rewrite Hf|]. destruct Hf as [-> Hc1].
  pose proof (copy_list_spec L o m Ho Hm Hfit (skb_frag_list skb)
    (linear skb ++ flat_map frag_bytes (skb_frags skb)) [] c1) as Hlist.
  rewrite app_nil_r, <-!app_assoc in Hlist. specialize (Hlist HL IH (sl_list _ Hl) Hc1).
  destruct (copy_list _ _ c1) as [| |to|c2]; [done..|by rewrite Hlist|].
  rewrite <-HL in Hlist. destruct Hlist as (? & ? & ? & ? & Hto).
  assert (c_len c2 = 0) as Hz by lia. rewrite Hz. simpl. rewrite Hto. do 3 f_equal. lia.
Qed.

(** Safety of the BPF machine: what a load reads, the tables of instruction
    codes, and the invariant of a run of an accepted filter. *)

Definition is_u32 (v : Z) : Prop := 0 <= v < 2 ^ 32.

(** * Loads *)

Lemma be_value_app l b : be_value (l ++ [b]) = be_value l * 256 + b.
Proof. unfold be_value. by rewrite foldl_app. Qed.

Lemma be_value_bound l :
  forallb is_byte l = true → 0 <= be_value l < 256 ^ zlen l.
Proof.
  induction l as [|b l IH] using rev_ind; [done|]. rewrite forallb_app, be_value_app, zlen_app.
  intros [Hl Hb]%andb_prop. simpl in Hb. rewrite andb_true_r in Hb. unfold is_byte in Hb. to_prop.
  specialize (IH Hl). change (zlen [b]) with 1. rewrite Z.pow_add_r by (unfold zlen; lia).
  change (256 ^ 1) with 256. nia.
Qed.

Lemma forallb_zsub (P : Z → bool) l off n : forallb P l = true → forallb P (zsub l off n) = true.
Proof.
  intros H. rewrite <-(take_drop (Z.to_nat off) l), forallb_app in H. apply andb_prop in H as [_ H].
  rewrite <-(take_drop (Z.to_nat n) (drop _ l)), forallb_app in H. by apply andb_prop in H as [H _].
Qed.

Lemma be_value_u32 l off n :
  forallb is_byte l = true → 0 <= off → 0 <= n <= 4 → off + n <= zlen l → is_u32 (be_value (zsub l off n)).
Proof.
  intros Hl Ho Hn Hfit. pose proof (be_value_bound _ (forallb_zsub _ l off n Hl)) as Hb.
  rewrite zlen_zsub in Hb by lia. unfold is_u32.
  assert (256 ^ n <= 256 ^ 4) by (apply Z.pow_le_mono_r; lia). change (256 ^ 4) with (2 ^ 32) in *. lia.
Qed.

(** The bytes of a packet are bytes. *)
Lemma flatten_bytes skb : skb_wf skb = true → forallb is_byte (flatten skb) = true.
Proof.
  induction skb as [skb IH] using sk_buff_nested_ind. intros Hl%skb_wf_layout.
  rewrite flatten_unfold, !forallb_app. apply andb_true_iff. split; [by apply forallb_zsub, Hl|].
  apply andb_true_iff. split.
  - pose proof (sl_frags _ Hl) as Hf. clear IH. induction (skb_frags skb) as [|f l IHl]; [done|].
    simpl in *. apply andb_prop in Hf as [Hf Hr]. rewrite forallb_app, IHl by done. rewrite andb_true_r.
    unfold frag_wf in Hf. to_prop. by apply forallb_zsub.
  - pose proof (sl_list _ Hl) as Hf. induction (skb_frag_list skb) as [|x l IHl]; [done|].
    apply Forall_cons in IH as [Hx IH]. simpl in *. apply andb_prop in Hf as [Hf Hr].
    by rewrite forallb_app, Hx, IHl.
Qed.

(** A load at an offset that is not negative reads the packet's bytes there,
    whichever part they are in. *)
Lemma load_flat skb n k :
  skb_wf skb = true → 0 <= n → 0 <= k →
  load skb n k = if k + n <=? skb_len skb then LoadVal (be_value (zsub (flatten skb) k n)) else LoadRet0.
Proof.
  intros Hwf Hn Hk. pose proof (skb_wf_layout _ Hwf) as Hl. unfold load.
  rewrite Z.geb_leb, (proj2 (Z.leb_le 0 k)) by done. cbn [andb].
  destruct (Z.leb_spec (k + n) (skb_headlen skb)) as [Hh|Hh].
  - assert (flatten skb = [] ++ linear skb ++
      (flat_map frag_bytes (skb_frags skb) ++ flat_map flatten (skb_frag_list skb))) as HL
      by apply flatten_unfold.
    rewrite (proj2 (Z.leb_le _ _)).
    2:{ rewrite (sl_len _ Hl), HL, !zlen_app, zlen_linear by done. unfold zlen. lia. }
    unfold load_bytes. destruct Hl. rewrite read_bytes_in by lia.
    rewrite HL, zsub_mid; [|unfold zlen; simpl; lia|done|rewrite zlen_linear by (by apply skb_wf_layout); unfold zlen; simpl; lia].
    unfold linear. rewrite zsub_zsub; [|lia|unfold zlen; simpl; lia|done|unfold zlen; simpl; lia].
    unfold zlen. simpl. by rewrite Z.sub_0_r.
  - rewrite (proj2 (Z.ltb_ge k 0)) by done. rewrite (skb_copy_bits_spec skb Hwf) by done.
    by destruct (k + n <=? skb_len skb).
Qed.

Lemma u16_shift a b : 0 <= a < 256 → 0 <= b < 256 → is_u32 (Z.lor a (Z.shiftl b 8)).
Proof.
  intros Ha Hb. unfold is_u32. split; [apply Z.lor_nonneg; split; [lia|apply Z.shiftl_nonneg; lia]|].
  rewrite Z.shiftl_mul_pow2 by done.
  assert (Z.lor a (b * 2 ^ 8) = a + b * 2 ^ 8) as ->; [|lia].
  rewrite Z.add_nocarry_lxor; [symmetry; apply Z.lxor_lor|];
    (apply Z.bits_inj_0; intros i; rewrite Z.land_spec; destruct (decide (0 <= i)); [|by rewrite Z.testbit_neg_r by lia]);
    (destruct (decide (i < 8)); [rewrite Z.mul_pow2_bits_low by lia; by rewrite andb_false_r|]);
    rewrite (Z.bits_above_log2 a); [done|lia| |done|lia|];
    (destruct (decide (a = 0)) as [->|]; [simpl; lia|]); assert (Z.log2 a < 8) by (apply Z.log2_lt_pow2; lia); lia.
Qed.

Lemma land_ff_bound v : 0 <= Z.land v 0xff < 256.
Proof. change 0xff with (Z.ones 8). rewrite Z.land_ones by done. by apply Z.mod_pos_bound. Qed.

Lemma htons_u32 v : is_u32 (htons v).
Proof. apply u16_shift; apply land_ff_bound. Qed.

(** A load yields a value or ends the run with 0; it does not leave the packet's
    memory. *)
Definition load_ok (l : loaded) : Prop :=
  match l with LoadVal v => is_u32 v | LoadRet0 => True | LoadOob => False end.

Lemma load_safe skb n k : skb_wf skb = true → 0 <= n <= 4 → load_ok (load skb n k).
Proof.
  intros Hwf Hn. pose proof (skb_wf_layout _ Hwf) as Hl. destruct (Z.ltb_spec k 0) as [Hk|Hk].
  - unfold load. rewrite Z.geb_leb, (proj2 (Z.leb_gt 0 k)), (proj2 (Z.ltb_lt k 0)) by done. cbn [andb].
    destruct (k >=? SKF_AD_OFF).
    + unfold load_ancillary. cbv zeta. destruct (_ =? _); [apply htons_u32|].
      destruct (_ =? _).
      { pose proof (sl_pkt_type _ Hl) as Hb. unfold is_byte in Hb. to_prop. simpl. unfold is_u32. lia. }
      destruct (_ =? _); [apply u32_bound|done].
    + unfold load_pointer. destruct (if k >=? SKF_NET_OFF then _ else _) as [p|]; [|done].
      destruct ((p >=? 0) && (p <? skb_tail skb)) eqn:Hp; [|done]. to_prop. destruct Hl.
      unfold load_bytes. rewrite read_bytes_in by lia. simpl. apply be_value_u32; [done|lia..].
  - rewrite load_flat by (done || lia). destruct (Z.leb_spec (k + n) (skb_len skb)) as [Hf|]; [|done].
    rewrite (sl_len _ Hl) in Hf. apply be_value_u32; [by apply flatten_bytes|done..].
Qed.

(** * The switch *)

(** What the case of an instruction says about its code. *)
Definition case_code (c : Z) (i : insn_case) : bool :=
  match i with
  | CJa => (BPF_CLASS c =? BPF_JMP) && (BPF_OP c =? BPF_JA)
  | CJmp _ _ => (BPF_CLASS c =? BPF_JMP) && negb (BPF_OP c =? BPF_JA)
  | CLdMem | CLdxMem | CSt | CStx => is_mem_op c
  | CLdAbs n | CLdInd n => (0 <=? n) && (n <=? 4)
  | CLdxMsh => c =? Z.lor (Z.lor BPF_LDX BPF_B) BPF_MSH
  | _ => true
  end.

Lemma switch_case_code c : case_code c (switch_on switch_cases c) = true.
Proof.
  assert (forallb (λ '(c, i), case_code c i) switch_cases = true) as Hall by by vm_compute.
  revert Hall. generalize switch_cases. intros l. induction l as [|[c' i] l IH]; [done|].
  simpl. intros [Hi Hl]%andb_prop. destruct (Z.eqb_spec c c') as [->|]; auto.
Qed.

(** * Runs *)

(** The fields of an instruction have their widths. *)
Definition insn_wf (i : sock_filter) : Prop :=
  0 <= code i < 2 ^ 16 ∧ 0 <= jt i < 256 ∧ 0 <= jf i < 256 ∧ is_u32 (k i).

(** [BPF_LDX|BPF_B|BPF_MSH] with an offset that is negative as an [int]. *)
Definition msh_negative (i : sock_filter) : bool :=
  (code i =? Z.lor (Z.lor BPF_LDX BPF_B) BPF_MSH) && (k i >=? 2 ^ 31).

Record bpf_ok (flen : Z) (st : bpf_state) : Prop := {
  bo_pc : 0 <= pc st <= flen;
  bo_A : is_u32 (reg_A st);
  bo_X : is_u32 (reg_X st);
  bo_len : zlen (mem st) = BPF_MEMWORDS;
  bo_mem : Forall is_u32 (mem st)
}.

Lemma alu_u32 op a v x : is_u32 a → is_u32 v → alu op a v = Some x → is_u32 x.
Proof.
  unfold is_u32. intros Ha Hv. change (2 ^ 32) with 4294967296 in *.
  assert (∀ m, 0 <= m < 4294967296 → Z.log2 m < 32) as Hlog.
  { intros m Hm. destruct (decide (m = 0)) as [->|]; [done|]. apply Z.log2_lt_pow2; [lia|].
    change (2 ^ 32) with 4294967296. lia. }
  assert (∀ m, 0 <= m → Z.log2 m < 32 → 0 <= m < 4294967296) as Hlow.
  { intros m H0 Hm. split; [done|]. destruct (decide (m = 0)) as [->|]; [done|].
    change 4294967296 with (2 ^ 32). apply Z.log2_lt_pow2; lia. }
  destruct op; simpl; try (intros [= <-]; apply u32_bound).
  - destruct (Z.eqb_spec v 0); [done|]. intros [= <-]. split; [apply Z.div_pos; lia|].
    apply Z.div_lt_upper_bound; nia.
  - intros [= <-]. apply Hlow; [apply Z.land_nonneg; lia|].
    pose proof (Z.log2_land a v). pose proof (Hlog a Ha). lia.
  - intros [= <-]. apply Hlow; [apply Z.lor_nonneg; lia|].
    rewrite Z.log2_lor by lia. pose proof (Hlog a Ha). pose proof (Hlog v Hv). lia.
  - intros [= <-]. split; [apply Z.shiftr_nonneg; lia|].
    rewrite Z.shiftr_div_pow2 by (apply Z.land_nonneg; lia).
    assert (0 < 2 ^ Z.land v 31) by (apply Z.pow_pos_nonneg; [done|apply Z.land_nonneg; lia]).
    apply Z.le_lt_trans with a; [|lia]. apply Z.div_le_upper_bound; nia.
Qed.

(** The outcome of a step: further on, within the filter, or a result. *)
Definition step_ok (flen : Z) (st : bpf_state) (r : step_result) : Prop :=
  match r with
  | Next st' => bpf_ok flen st' ∧ pc st < pc st'
  | Stop (Ret v) => -2 ^ 31 <= v < 2 ^ 31
  | Stop _ => False
  end.

Section step.
Context (flen : Z) (Hflen : flen < 0xFFFFFFFF / 8).
Context (st : bpf_state) (Hst : bpf_ok flen st) (Hpc : pc st < flen).

Lemma pc_small : s32 (pc st + 1) = pc st + 1.
Proof. destruct Hst. change (0xFFFFFFFF / 8) with 536870911 in *. apply s32_small. lia. Qed.

Lemma next_A_ok v : is_u32 v → step_ok flen st (next_A st v).
Proof. intros Hv. destruct Hst. simpl. rewrite pc_small. split; [split; simpl; done || lia|lia]. Qed.

Lemma next_X_ok v : is_u32 v → step_ok flen st (next_X st v).
Proof. intros Hv. destruct Hst. simpl. rewrite pc_small. split; [split; simpl; done || lia|lia]. Qed.

Lemma next_mem_ok k v : 0 <= k < BPF_MEMWORDS → is_u32 v → step_ok flen st (next_mem st k v).
Proof.
  intros Hk Hv. destruct Hst. unfold next_mem. rewrite (proj2 (Z.ltb_lt _ _)) by lia. simpl.
  rewrite pc_small. split; [split; simpl; try done; [lia|unfold zlen; by rewrite length_insert|by apply Forall_insert]|lia].
Qed.

Lemma jump_ok off : 0 <= off → pc st + off + 1 < flen → step_ok flen st (jump st off).
Proof.
  intros Ho Hfit. destruct Hst. unfold jump. simpl.
  change (0xFFFFFFFF / 8) with 536870911 in *.
  rewrite (s32_small (pc st + off)), s32_small by lia. split; [split; simpl; done || lia|lia].
Qed.

Lemma of_load_ok l : load_ok l → step_ok flen st (of_load st l).
Proof. destruct l; simpl; [apply next_A_ok|done..]. Qed.

Lemma mem_at_ok k : 0 <= k < BPF_MEMWORDS → ∃ v, mem_at st k = Some v ∧ is_u32 v.
Proof.
  intros Hk. destruct Hst. unfold mem_at. rewrite (proj2 (Z.ltb_lt _ _)) by lia. unfold zlen in *.
  destruct (lookup_lt_is_Some_2 (mem st) (Z.to_nat k)) as [v Hv]; [lia|]. exists v. split; [done|].
  by eapply Forall_lookup_1.
Qed.

Lemma ret_ok v : step_ok flen st (Stop (Ret (s32 v))).
Proof. simpl. pose proof (s32_bound v). lia. Qed.

(** What the checker establishes for one instruction. *)
Lemma chk_jump i off :
  chk_insn flen (pc st) i = true → insn_wf i → 
  (BPF_CLASS (code i) =? BPF_JMP) && (BPF_OP (code i) =? BPF_JA) = true ∧ off = k i ∨
  (BPF_CLASS (code i) =? BPF_JMP) && negb (BPF_OP (code i) =? BPF_JA) = true ∧ (off = jt i ∨ off = jf i) →
  0 <= off ∧ pc st + off + 1 < flen.
Proof.
  intros Hc (_ & Ht & Hf & Hk) Hoff. destruct Hst. unfold chk_insn in Hc. unfold is_u32 in Hk.
  change (0xFFFFFFFF / 8) with 536870911 in *. cbv zeta in Hc.
  destruct Hoff as [[[H1 H2]%andb_prop ->]|[[H1 H2]%andb_prop Hoff]]; rewrite H1 in Hc.
  - rewrite H2 in Hc. destruct (k i >=? u32 (flen - pc st - 1)) eqn:Hge; [done|]. to_prop.
    rewrite u32_small in Hge by lia. lia.
  - apply negb_true_iff in H2. rewrite H2 in Hc.
    destruct ((pc st + jt i + 1 >=? flen) || (pc st + jf i + 1 >=? flen)) eqn:Hge; [done|]. to_prop.
    destruct Hoff as [-> | ->]; lia.
Qed.

Lemma chk_mem i : chk_insn flen (pc st) i = true → is_mem_op (code i) = true → k i < BPF_MEMWORDS.
Proof.
  intros Hc Hm. unfold chk_insn in Hc. cbv zeta in Hc. rewrite Hm in Hc.
  destruct (negb _); [done|]. destruct (k i >=? BPF_MEMWORDS) eqn:Hk; [done|]. by to_prop.
Qed.

Lemma step_safe skb i :
  skb_wf skb = true → insn_wf i → chk_insn flen (pc st) i = true → msh_negative i = false →
  step_ok flen st (step skb st i).
Proof.
  intros Hwf Hi Hc Hmsh. pose proof (switch_case_code (code i)) as Hcase. pose proof Hi as (_ & _ & _ & Hk).
  assert (is_u32 (u32 (skb_headlen skb))) as Hlen by apply u32_bound.
  unfold step. cbv zeta. destruct (switch_on switch_cases (code i)) as
    [op s| | |op s|n| | |n| | | | | | | | | | | | ] eqn:Hsw; cbn [case_code] in Hcase;
    try (apply of_load_ok, load_safe; [done|to_prop; lia]);
    try (by apply next_A_ok); try (by apply next_X_ok); try (by apply ret_ok).
  - destruct (alu op (reg_A st) _) as [v|] eqn:Ha; [|done]. apply next_A_ok.
    eapply alu_u32; [| |exact Ha]; [apply Hst|destruct s; [apply Hst|done]].
  - apply next_A_ok, u32_bound.
  - destruct (chk_jump i (k i)) as [? ?]; [done|done|by left|]. by apply jump_ok.
  - destruct (chk_jump i (if jmp_test op (reg_A st) (match s with SrcX => reg_X st | SrcK => k i end)
      then jt i else jf i)) as [? ?]; [done|done| |by apply jump_ok].
    right. split; [done|]. destruct (jmp_test _ _ _); auto.
  - (* BPF_MSH *)
    pose proof (skb_wf_layout _ Hwf) as Hl. to_prop. unfold msh_negative in Hmsh.
    rewrite Hcase, Z.eqb_refl in Hmsh. cbn [andb] in Hmsh. to_prop. unfold is_u32 in Hk.
    change (2 ^ 31) with 2147483648 in Hmsh. rewrite s32_small by lia.
    destruct (_ && _) eqn:Hge; [done|]. rewrite Z.geb_leb, (proj2 (Z.leb_le 0 (k i))) in Hge by lia.
    cbn [andb] in Hge. to_prop. destruct Hl. rewrite read_bytes_in by lia. apply next_X_ok.
    change 0xf with (Z.ones 4). rewrite Z.land_ones, Z.shiftl_mul_pow2 by done. unfold is_u32.
    pose proof (Z.mod_pos_bound (be_value (zsub (skb_area skb) (skb_data skb + k i) 1)) (2 ^ 4)). lia.
  - destruct (mem_at_ok (k i)) as (v & -> & Hv); [split; [apply Hk|by eapply chk_mem]|]. by apply next_A_ok.
  - destruct (mem_at_ok (k i)) as (v & -> & Hv); [split; [apply Hk|by eapply chk_mem]|]. by apply next_X_ok.
  - apply next_X_ok, Hst.
  - apply next_A_ok, Hst.
  - apply next_mem_ok; [split; [apply Hk|by eapply chk_mem]|apply Hst].
  - apply next_mem_ok; [split; [apply Hk|by eapply chk_mem]|apply Hst].
  - done.
Qed.
End step.

(** The checker has looked at every instruction. *)
Lemma chk_loop_lookup flen n filter i x :
  chk_loop flen n filter = true → filter !! i = Some x → chk_insn flen (n + Z.of_nat i) x = true.
Proof.
  revert n i. induction filter as [|y l IH]; intros n i; [by rewrite lookup_nil|]. simpl.
  destruct (chk_insn flen n y) eqn:Hy; [|done]. intros Hl. destruct i as [|i]; simpl.
  - intros [= <-]. by rewrite Z.add_0_r.
  - intros Hx. specialize (IH (n + 1) i Hl Hx). replace (n + Z.of_nat (S i)) with (n + 1 + Z.of_nat i) by lia. done.
Qed.

Lemma chk_filter_ok before filter :
  sk_chk_filter before filter = 0 →
  Z.of_nat (length filter) < 0xFFFFFFFF / 8 ∧ chk_loop (Z.of_nat (length filter)) 0 filter = true.
Proof.
  unfold sk_chk_filter. cbv zeta. destruct (_ >=? _) eqn:Hlen; [done|].
  destruct (chk_loop _ _ _); [|done]. by to_prop.
Qed.

Lemma run_safe fuel skb filter st :
  let flen := Z.of_nat (length filter) in
  flen < 0xFFFFFFFF / 8 → chk_loop flen 0 filter = true → Forall insn_wf filter →
  forallb (negb ∘ msh_negative) filter = true → skb_wf skb = true → bpf_ok flen st →
  flen - pc st <= Z.of_nat fuel →
  ∃ v, run_loop fuel skb filter st = Ret v ∧ -2 ^ 31 <= v < 2 ^ 31.
Proof.
  intros flen Hlen Hchk Hwf Hmsh Hskb. revert st. induction fuel as [|fuel IH]; intros st Hst Hfuel;
    cbn [run_loop]; fold flen; destruct (Z.ltb_spec (pc st) flen) as [Hpc|Hpc];
    try (by exists 0); [exfalso; lia|].
  pose proof (bo_pc _ _ Hst). rewrite (proj2 (Z.ltb_ge (pc st) 0)) by lia.
  destruct (lookup_lt_is_Some_2 filter (Z.to_nat (pc st))) as [i Hi]; [lia|]. rewrite Hi.
  assert (step_ok flen st (step skb st i)) as Hs.
  { apply step_safe; [done..| | |].
    - by eapply Forall_lookup_1.
    - pose proof (chk_loop_lookup _ _ _ _ _ Hchk Hi) as Hc. rewrite Z.add_0_l, Z2Nat.id in Hc by lia. done.
    - rewrite forallb_forall in Hmsh. apply list_elem_of_lookup_2, list_elem_of_In in Hi.
      specialize (Hmsh _ Hi). simpl in Hmsh. by apply negb_true_iff. }
  destruct (step skb st i) as [st'|r]; simpl in Hs.
  - destruct Hs as [Hst' Hlt]. apply IH; [done|lia].
  - destruct r; [by eexists|done..].
Qed.
