(* ===== verification/SockFilter.v ===== *)
(** Filters attached to sockets: reference counts and the memory charged to
    each socket (net/core/filter.c, net/core/sock.c, include/net/sock.h,
    net/ipv4/tcp_minisocks.c). *)
From S2P Require Import Prelude Filter.
From stdpp Require Import list options.
#[local] Set Default Proof Using "Type*".
Open Scope cint_scope.
Open Scope Z_scope.

(** [len] is the number of instructions. *)
Record sk_filter := mk_filter { refcnt : Z; insns : list sock_filter }.

Record sock := mk_sock {
  sk_filter_ptr : option Z;  (* NULL is None *)
  omem_alloc : Z
}.

(** The filters by address, and the sockets; a freed socket is [None]. *)
Record sock_state := mk_socks { filters : gmap Z sk_filter; socks : list (option sock) }.

Definition set_filters (f : gmap Z sk_filter) (s : sock_state) : sock_state := mk_socks f (socks s).
Definition upd_sock (i : nat) (f : sock → sock) (s : sock_state) : sock_state :=
  mk_socks (filters s) (alter (fmap f) i (socks s)).
Definition get_sock (i : nat) (s : sock_state) : sock := default (mk_sock None 0) (mjoin (socks s !! i)).

Definition sizeof_sock_filter : Z := 8.
Definition sizeof_sk_filter : Z := 8.
Definition sysctl_optmem_max : Z := 4 * (2 * 1024 + 512).

Definition sk_filter_len (fp : sk_filter) : Z :=
  Z.of_nat (length (insns fp)) * sizeof_sock_filter + sizeof_sk_filter.

Definition set_omem (x : Z) (sk : sock) : sock := mk_sock (sk_filter_ptr sk) x.
Definition set_filter_ptr (x : option Z) (sk : sock) : sock := mk_sock x (omem_alloc sk).

Notation F := (ST sock_state).

Definition atomic_add_omem (i : nat) (n : Z) : F unit :=
  modify (upd_sock i (λ sk, set_omem (omem_alloc sk + n) sk)).

(** [mem] is the result of [kmalloc]. *)
Definition sock_kmalloc (i : nat) (size : Z) (mem : option Z) : F (option Z) :=
  sk ← gets (get_sock i);
  if ((u32 size <=? sysctl_optmem_max) && (omem_alloc sk + size <? sysctl_optmem_max))%bool then
    atomic_add_omem i size;;
    match mem with
    | Some a => mret (Some a)
    | None => atomic_add_omem i (- size);; mret None
    end
  else mret None.

Definition sock_kfree_s (i : nat) (a size : Z) : F unit :=
  modify (λ s, set_filters (delete a (filters s)) s);;
  atomic_add_omem i (- size).

Definition sk_filter_release (i : nat) (a : Z) : F unit :=
  s ← gets id;
  match filters s !! a with
  | None => skip
  | Some fp =>
      atomic_add_omem i (- sk_filter_len fp);;
      (* atomic_dec_and_test *)
      if (refcnt fp - 1 =? 0 : bool) then modify (λ s, set_filters (delete a (filters s)) s)
      else modify (λ s, set_filters (<[a := mk_filter (refcnt fp - 1) (insns fp)]> (filters s)) s)
  end.

Definition sk_filter_charge (i : nat) (a : Z) : F unit :=
  s ← gets id;
  match filters s !! a with
  | None => skip
  | Some fp =>
      modify (λ s, set_filters (<[a := mk_filter (refcnt fp + 1) (insns fp)]> (filters s)) s);;
      atomic_add_omem i (sk_filter_len fp)
  end.

(** The bytes of the [refcnt] and [len] fields, which lie before the
    instructions, read as an instruction. *)
Definition header_insn (fp : sk_filter) : sock_filter :=
  mk_insn (u16 (refcnt fp)) (u8 (Z.shiftr (refcnt fp) 16)) (u8 (Z.shiftr (refcnt fp) 24))
    (Z.of_nat (length (insns fp))).

(** [fprog] is the pointer [fprog->filter] ([None] for NULL) with what the copy
    of the instructions leaves ([None] when it faults). *)
Definition sk_attach_filter (i : nat) (len : Z) (fprog : option (option (list sock_filter)))
    (mem : option Z) : F Z :=
  let fsize := u32 (sizeof_sock_filter * len) in
  match fprog with
  | None => mret (-EINVAL)
  | Some copied =>
      if (len >? BPF_MAXINSNS : bool) then mret (-EINVAL) else
      fp ← sock_kmalloc i (fsize + sizeof_sk_filter) mem;
      match (fp : option Z) with
      | None => mret (-ENOMEM)
      | Some a =>
          match copied with
          | None => sock_kfree_s i a (fsize + sizeof_sk_filter);; mret (-EFAULT)
          | Some prog =>
              let fp := mk_filter 1 (take (Z.to_nat len) prog) in
              modify (λ s, set_filters (<[a := fp]> (filters s)) s);;
              let err := sk_chk_filter (header_insn fp) (insns fp) in
              if (err =? 0 : bool) then
                old ← gets (λ s, sk_filter_ptr (get_sock i s));
                modify (upd_sock i (set_filter_ptr (Some a)));;
                match (old : option Z) with
                | Some o => sk_filter_release i o
                | None => skip
                end;;
                mret err
              else sk_filter_release i a;; mret err
          end
      end
  end.

(** [SO_DETACH_FILTER]; the error number is that of the source. *)
Definition ENONET : Z := 64.
Definition sock_detach_filter (i : nat) : F Z :=
  f ← gets (λ s, sk_filter_ptr (get_sock i s));
  match (f : option Z) with
  | Some a => modify (upd_sock i (set_filter_ptr None));; sk_filter_release i a;; mret 0
  | None => mret (-ENONET)
  end.

(** The filter part of [tcp_create_openreq_child], which copies the socket. *)
Definition tcp_clone_sock (i : nat) : F unit :=
  sk ← gets (get_sock i);
  n ← gets (λ s, length (socks s));
  modify (λ s, mk_socks (filters s) (socks s ++ [Some (mk_sock (sk_filter_ptr sk) 0)]));;
  match sk_filter_ptr sk with
  | Some a => sk_filter_charge n a
  | None => skip
  end.

Definition sk_alloc : F unit :=
  modify (λ s, mk_socks (filters s) (socks s ++ [Some (mk_sock None 0)])).

Definition sk_free (i : nat) : F unit :=
  f ← gets (λ s, sk_filter_ptr (get_sock i s));
  match (f : option Z) with
  | Some a => sk_filter_release i a;; modify (upd_sock i (set_filter_ptr None))
  | None => skip
  end;;
  modify (λ s, mk_socks (filters s) (<[i := None]> (socks s))).
