(* ===== verification/SockProofs.v ===== *)
(** Proofs on attached filters: an accounting invariant in which charges and
    references that are under way are explicit, so that each basic step changes
    one of them. *)
From S2P Require Import Prelude Filter FilterProofs SockFilter.
From stdpp Require Import list options.
#[local] Set Default Proof Using "Type*".
Open Scope cint_scope.
Open Scope Z_scope.

(** ** Updates of one socket or one filter *)

Definition ptr_is (a : Z) (o : option sock) : Z :=
  match o with Some sk => if decide (sk_filter_ptr sk = Some a) then 1 else 0 | None => 0 end.

Lemma ptr_is_nonneg a o : 0 <= ptr_is a o.
Proof. destruct o as [sk|]; simpl; [destruct (decide _)|]; lia. Qed.

(** The sockets that point to a filter. *)
Definition refs (a : Z) (s : sock_state) : Z := zsum (ptr_is a) (socks s).

Definition len_at (s : sock_state) (a : Z) : Z := from_option sk_filter_len 0 (filters s !! a).
Definition charge_of (s : sock_state) (o : option Z) : Z := from_option (len_at s) 0 o.

(** A filter the checker has accepted and the memory limit allows. *)
Definition filter_ok (fp : sk_filter) : Prop :=
  insns fp ≠ [] ∧ (∀ before, sk_chk_filter before (insns fp) = 0) ∧ Forall insn_wf (insns fp) ∧
  sk_filter_len fp < sysctl_optmem_max.

Definition live (i : nat) (sk : sock) (s : sock_state) : Prop := socks s !! i = Some (Some sk).

Lemma upd_sock_live i f sk s :
  live i sk s → socks (upd_sock i f s) = <[i := Some (f sk)]> (socks s).
Proof.
  intros Hi. unfold upd_sock. simpl. rewrite list_insert_alter. apply list_alter_ext; [|done].
  intros x Hx. unfold live in Hi. by simplify_eq.
Qed.

Lemma live_upd i j f sk sk' s :
  live i sk s → live j sk' (upd_sock i f s) ↔ if decide (j = i) then sk' = f sk else live j sk' s.
Proof.
  intros Hi. unfold live at 1. rewrite (upd_sock_live _ _ _ _ Hi). destruct (decide (j = i)) as [->|Hne].
  - rewrite list_lookup_insert_eq by (by eapply lookup_lt_Some). split; [by intros [= <-]|by intros ->].
  - by rewrite list_lookup_insert_ne.
Qed.

Lemma refs_upd i f sk s a :
  live i sk s → refs a (upd_sock i f s) = refs a s + ptr_is a (Some (f sk)) - ptr_is a (Some sk).
Proof. intros Hi. unfold refs. rewrite (upd_sock_live _ _ _ _ Hi). by apply zsum_insert. Qed.

Lemma live_get i sk s : live i sk s → get_sock i s = sk.
Proof. unfold live, get_sock. by intros ->. Qed.

Lemma refs_live i sk s a : live i sk s → sk_filter_ptr sk = Some a → 1 <= refs a s.
Proof.
  intros Hi Ha. pose proof (zsum_le (ptr_is a) _ _ _ (ptr_is_nonneg a) Hi) as H. simpl in H.
  rewrite decide_True in H by done. done.
Qed.

(** ** The accounting invariant

    [e] is what a socket is charged beyond its attached filter, [r] the
    references to a filter that no socket holds. *)
Record books (e : nat → Z) (r : Z → Z) (s : sock_state) : Prop := {
  bk_ref a fp : filters s !! a = Some fp → refcnt fp = refs a s + r a ∧ 0 < refcnt fp;
  bk_sock i sk : live i sk s →
    omem_alloc sk = charge_of s (sk_filter_ptr sk) + e i ∧
    ∀ a, sk_filter_ptr sk = Some a → ∃ fp, filters s !! a = Some fp ∧ filter_ok fp
}.

(** One entry more or less. *)
Definition plus {K} `{EqDecision K} (f : K → Z) (i : K) (n : Z) : K → Z :=
  λ j, if decide (j = i) then f j + n else f j.

Lemma books_ext e e' r r' s : (∀ i, e i = e' i) → (∀ a, r a = r' a) → books e r s → books e' r' s.
Proof. intros He Hr [H1 H2]. split; intros; rewrite <-?Hr, <-?He; auto. Qed.

Lemma books_omem e r i n sk s :
  live i sk s → books e r s → books (plus e i n) r (atomic_add_omem i n s).2.
Proof.
  intros Hi [H1 H2]. unfold atomic_add_omem. cbn [modify snd]. set (f := λ sk, _). split.
  - intros a fp Ha. rewrite (refs_upd _ _ _ _ _ Hi). subst f. simpl. specialize (H1 a fp Ha). lia.
  - intros j sk' Hj. apply (live_upd _ _ _ _ _ _ Hi) in Hj. unfold plus.
    destruct (decide (j = i)) as [->|]; [|by apply H2]. subst sk'. destruct (H2 i sk Hi) as [Ho Hp].
    subst f. simpl. split; [|done]. change (charge_of (upd_sock i _ s) ?o) with (charge_of s o). lia.
Qed.

Lemma books_new e r a fp s :
  filters s !! a = None → r a = 0 → refcnt fp = 1 → books e r s →
  books e (plus r a 1) (set_filters (<[a := fp]> (filters s)) s).
Proof.
  intros Hno Hr Hfp [H1 H2].
  assert (∀ j sk, live j sk s → sk_filter_ptr sk ≠ Some a) as Hnp.
  { intros j sk Hj Ha. destruct (H2 j sk Hj) as [_ Hp]. destruct (Hp a Ha) as (fp' & Hf & _). congruence. }
  assert (refs a s = 0) as H0.
  { unfold refs. revert Hnp. unfold live. generalize (socks s). intros l Hl. induction l as [|o l IH]; [done|].
    simpl. rewrite IH by (intros j sk Hj; by apply (Hl (S j))). destruct o as [sk|]; [|done]. simpl.
    rewrite decide_False; [done|]. by apply (Hl 0%nat). }
  split.
  - intros b fp' Hb. change (refs b (set_filters _ s)) with (refs b s). cbn [set_filters filters] in Hb.
    unfold plus. apply lookup_insert_Some in Hb as [[<- <-]|[Hne Hb]].
    + rewrite decide_True by done. lia.
    + rewrite decide_False by done. by apply H1.
  - intros j sk Hj. change (live j sk s) in Hj. destruct (H2 j sk Hj) as [Ho Hp].
    cbn [set_filters filters]. split.
    + rewrite Ho. f_equal. unfold charge_of, len_at. destruct (sk_filter_ptr sk) as [b|] eqn:Hb; [|done].
      simpl. rewrite lookup_insert_ne; [done|]. intros <-. by apply (Hnp j sk Hj).
    + intros b Hb. rewrite lookup_insert_ne; [by apply Hp|]. intros <-. by apply (Hnp j sk Hj).
Qed.

(** Replacing the filter of a socket moves the references and the charges. *)
Lemma books_attach e r i sk o s :
  live i sk s → books e r s →
  (∀ a, o = Some a → ∃ fp, filters s !! a = Some fp ∧ filter_ok fp) →
  books (plus e i (charge_of s (sk_filter_ptr sk) - charge_of s o))
    (λ a, r a + (if decide (sk_filter_ptr sk = Some a) then 1 else 0) - (if decide (o = Some a) then 1 else 0))
    (upd_sock i (set_filter_ptr o) s).
Proof.
  intros Hi [H1 H2] Ho. split.
  - intros a fp Ha. rewrite (refs_upd _ _ _ _ _ Hi). cbn [ptr_is set_filter_ptr sk_filter_ptr].
    specialize (H1 a fp Ha). lia.
  - intros j sk' Hj. apply (live_upd _ _ _ _ _ _ Hi) in Hj. unfold plus.
    destruct (decide (j = i)) as [->|]; [|by apply H2]. subst sk'. destruct (H2 i sk Hi) as [Hom _].
    cbn [set_filter_ptr sk_filter_ptr omem_alloc]. split; [|done].
    change (charge_of (upd_sock i _ s) ?o) with (charge_of s o). lia.
Qed.

(** Another reference count for a filter. *)
Lemma books_count e r a fp n s :
  filters s !! a = Some fp → 0 < refcnt fp + n → books e r s →
  books e (plus r a n) (set_filters (<[a := mk_filter (refcnt fp + n) (insns fp)]> (filters s)) s).
Proof.
  intros Hfp Hn [H1 H2]. set (fp' := mk_filter _ _). set (s' := set_filters _ s).
  assert (∀ b, len_at s' b = len_at s b) as Hlen.
  { intros b. unfold len_at. subst s'. cbn [set_filters filters].
    destruct (decide (b = a)) as [->|]; [by rewrite lookup_insert_eq, Hfp|by rewrite lookup_insert_ne]. }
  split.
  - intros b fb Hb. change (refs b s') with (refs b s). subst s'. cbn [set_filters filters] in Hb. unfold plus.
    apply lookup_insert_Some in Hb as [[<- <-]|[Hne Hb]].
    + rewrite decide_True by done. destruct (H1 a fp Hfp). simpl. lia.
    + rewrite decide_False by done. by apply H1.
  - intros j sk Hj. change (live j sk s) in Hj. destruct (H2 j sk Hj) as [Ho Hp]. split.
    + rewrite Ho. f_equal. unfold charge_of. destruct (sk_filter_ptr sk); [simpl; by rewrite Hlen|done].
    + intros b Hb. subst s'. cbn [set_filters filters]. destruct (Hp b Hb) as (fb & Hfb & Hok).
      destruct (decide (b = a)) as [->|]; [|rewrite lookup_insert_ne by done; eauto].
      rewrite lookup_insert_eq. assert (fb = fp) as -> by congruence. by exists fp'.
Qed.

(** The last reference. *)
Lemma books_last e r a fp s :
  filters s !! a = Some fp → refcnt fp = 1 → 1 <= r a → books e r s →
  books e (plus r a (-1)) (set_filters (delete a (filters s)) s).
Proof.
  intros Hfp Hone Hr [H1 H2]. destruct (H1 a fp Hfp) as [Hc _].
  assert (∀ j sk, live j sk s → sk_filter_ptr sk ≠ Some a) as Hnp.
  { intros j sk Hj Ha. pose proof (refs_live _ _ _ _ Hj Ha). lia. }
  split.
  - intros b fb Hb. cbn [set_filters filters] in Hb. apply lookup_delete_Some in Hb as [Hne Hb].
    unfold plus. rewrite decide_False by done. by apply H1.
  - intros j sk Hj. change (live j sk s) in Hj. destruct (H2 j sk Hj) as [Ho Hp].
    specialize (Hnp j sk Hj). cbn [set_filters filters]. split.
    + rewrite Ho. f_equal. unfold charge_of, len_at. destruct (sk_filter_ptr sk) as [b|] eqn:Hb; [|done].
      simpl. rewrite lookup_delete_ne; [done|]. congruence.
    + intros b Hb. rewrite lookup_delete_ne; [by apply Hp|]. congruence.
Qed.

Lemma books_release e r i sk a fp s :
  live i sk s → filters s !! a = Some fp → 1 <= r a → books e r s →
  books (plus e i (- sk_filter_len fp)) (plus r a (-1)) (sk_filter_release i a s).2.
Proof.
  intros Hi Hfp Hr Hs. unfold sk_filter_release, mbind, ST_bind. unfold gets at 1, id at 1. cbn [fst snd].
  unfold gets, id. cbn [fst snd]. rewrite Hfp.
  pose proof (books_omem _ _ _ (- sk_filter_len fp) _ _ Hi Hs) as Hs1.
  set (s1 := (atomic_add_omem i (- sk_filter_len fp) s).2) in *.
  assert (filters s1 !! a = Some fp) as Hfp1 by done. destruct (bk_ref _ _ _ Hs a fp Hfp) as [_ Hpos].
  destruct (Z.eqb_spec (refcnt fp - 1) 0) as [H0|H0].
  - apply (books_last _ _ _ fp); [done|lia|done|done].
  - apply (books_count _ _ _ fp (-1)); [done|lia|done].
Qed.

Lemma books_charge e r i sk a fp s :
  live i sk s → filters s !! a = Some fp → books e r s →
  books (plus e i (sk_filter_len fp)) (plus r a 1) (sk_filter_charge i a s).2.
Proof.
  intros Hi Hfp Hs. unfold sk_filter_charge, mbind, ST_bind. unfold gets, id. cbn [fst snd]. rewrite Hfp.
  destruct (bk_ref _ _ _ Hs a fp Hfp) as [_ Hpos].
  pose proof (books_count _ _ _ fp 1 _ Hfp ltac:(lia) Hs) as Hs1. cbn [modify snd].
  set (s1 := set_filters _ s) in *. apply (books_omem _ _ _ _ sk); [done|done].
Qed.

(** ** The calls *)

Definition nil_e : nat → Z := λ _, 0.
Definition nil_r : Z → Z := λ _, 0.

Lemma charge_of_some s a fp : filters s !! a = Some fp → charge_of s (Some a) = sk_filter_len fp.
Proof. unfold charge_of, len_at. simpl. by intros ->. Qed.

Lemma books_detach i sk s :
  live i sk s → books nil_e nil_r s → books nil_e nil_r (sock_detach_filter i s).2.
Proof.
  intros Hi Hs. unfold sock_detach_filter, mbind, ST_bind. cbn [gets fst snd]. rewrite (live_get _ _ _ Hi).
  destruct (sk_filter_ptr sk) as [a|] eqn:Ha; [|done]. cbn [modify mret ST_ret fst snd].
  destruct (bk_sock _ _ _ Hs i sk Hi) as [_ Hp]. destruct (Hp a Ha) as (fp & Hfp & _).
  pose proof (books_attach _ _ _ _ None _ Hi Hs) as H1. specialize (H1 ltac:(done)).
  set (s1 := upd_sock i (set_filter_ptr None) s) in *.
  assert (live i (set_filter_ptr None sk) s1) as Hi1 by (apply (live_upd _ _ _ _ _ _ Hi); by rewrite decide_True).
  refine (books_ext _ _ _ _ _ _ _ (books_release _ _ _ _ _ fp _ Hi1 Hfp _ H1)).
  - intros j. unfold plus, nil_e. rewrite Ha, (charge_of_some _ _ _ Hfp). simpl. case_decide; lia.
  - intros b. unfold plus, nil_r. rewrite Ha. repeat case_decide; simplify_eq; try lia; done.
  - rewrite Ha, decide_True, decide_False by done. done.
Qed.

Lemma books_append e r sk s :
  e (length (socks s)) = 0 → omem_alloc sk = 0 → sk_filter_ptr sk = None → books e r s →
  books e r (mk_socks (filters s) (socks s ++ [Some sk])).
Proof.
  intros He Ho Hp [H1 H2]. split.
  - intros a fp Ha. unfold refs. cbn [socks]. rewrite zsum_app. simpl. rewrite Hp, decide_False by done.
    specialize (H1 a fp Ha). unfold refs in H1. lia.
  - intros j sk' Hj. unfold live in Hj. cbn [socks] in Hj. apply lookup_app_Some in Hj as [Hj|[Hl Hj]].
    + by apply H2.
    + apply list_lookup_singleton_Some in Hj as [Hj [= <-]].
      assert (j = length (socks s)) as -> by lia. rewrite Hp, He, Ho. done.
Qed.

(** A socket without filter and charges goes away. *)
Lemma books_remove e r i sk s :
  live i sk s → sk_filter_ptr sk = None → books e r s →
  books e r (mk_socks (filters s) (<[i := None]> (socks s))).
Proof.
  intros Hi Hp [H1 H2]. split.
  - intros a fp Ha. unfold refs. cbn [socks]. rewrite (zsum_insert _ _ _ _ _ Hi). simpl.
    rewrite Hp, decide_False by done. specialize (H1 a fp Ha). unfold refs in H1. lia.
  - intros j sk' Hj. unfold live in Hj. cbn [socks] in Hj. destruct (decide (j = i)) as [->|Hne].
    + by rewrite list_lookup_insert_eq in Hj by (by eapply lookup_lt_Some).
    + rewrite list_lookup_insert_ne in Hj by done. by apply H2.
Qed.


Lemma upd_sock_comm i f g s :
  (∀ sk, f (g sk) = g (f sk)) → upd_sock i f (upd_sock i g s) = upd_sock i g (upd_sock i f s).
Proof.
  intros Hfg. unfold upd_sock. cbn [filters socks]. f_equal. apply list_eq. intros j.
  rewrite !list_lookup_alter. destruct (decide (i = j)); [|done]. case_decide; [|done].
  destruct (socks s !! i) as [[sk|]|]; [|done..]. simpl. by rewrite Hfg.
Qed.

Lemma release_set_ptr i a o s :
  upd_sock i (set_filter_ptr o) (sk_filter_release i a s).2 =
    (sk_filter_release i a (upd_sock i (set_filter_ptr o) s)).2.
Proof.
  unfold sk_filter_release, mbind, ST_bind. unfold gets, id. cbn [fst snd].
  change (filters (upd_sock i _ s)) with (filters s). destruct (filters s !! a) as [fp|]; [|done].
  unfold atomic_add_omem. cbn [modify snd].
  pose proof (upd_sock_comm i (set_filter_ptr o) (λ sk, set_omem (omem_alloc sk + - sk_filter_len fp) sk) s
    ltac:(done)) as Hc. injection Hc as Hc.
  destruct (_ =? 0); unfold set_filters, upd_sock; cbn [modify snd filters socks]; f_equal; exact Hc.
Qed.

Lemma release_live i sk a s :
  live i sk s → ∃ sk', live i sk' (sk_filter_release i a s).2 ∧ sk_filter_ptr sk' = sk_filter_ptr sk.
Proof.
  intros Hi. unfold sk_filter_release, mbind, ST_bind. unfold gets, id. cbn [fst snd].
  destruct (filters s !! a) as [fp|]; [|by exists sk]. exists (set_omem (omem_alloc sk + - sk_filter_len fp) sk).
  split; [|done]. assert (live i (set_omem (omem_alloc sk + - sk_filter_len fp) sk)
    (atomic_add_omem i (- sk_filter_len fp) s).2) as Hl.
  { apply (live_upd _ _ _ _ _ _ Hi). by rewrite decide_True. }
  by destruct (_ =? 0).
Qed.

Lemma books_free i sk s : live i sk s → books nil_e nil_r s → books nil_e nil_r (sk_free i s).2.
Proof.
  intros Hi Hs. pose proof (books_detach i sk s Hi Hs) as Hd. revert Hd.
  unfold sk_free, sock_detach_filter, mbind, ST_bind. cbn [gets fst snd]. rewrite (live_get _ _ _ Hi).
  destruct (sk_filter_ptr sk) as [a|] eqn:Ha; [|intros _; by apply (books_remove _ _ _ sk)].
  cbn [modify mret ST_ret fst snd]. rewrite release_set_ptr. intros Hd.
  set (s1 := upd_sock i (set_filter_ptr None) s) in *.
  destruct (release_live i (set_filter_ptr None sk) a s1) as (sk' & Hl & Hp);
    [apply (live_upd _ _ _ _ _ _ Hi); by rewrite decide_True|].
  by apply (books_remove _ _ _ sk').
Qed.

(** The clone: the new socket first has the pointer without the reference. *)
Lemma books_clone i sk s :
  live i sk s → books nil_e nil_r s → books nil_e nil_r (tcp_clone_sock i s).2.
Proof.
  intros Hi Hs. unfold tcp_clone_sock. unfold mbind, ST_bind. cbn [gets modify fst snd]. rewrite (live_get _ _ _ Hi).
  set (n := length (socks s)). set (s1 := mk_socks (filters s) _).
  destruct (sk_filter_ptr sk) as [a|] eqn:Ha; cbn [skip snd].
  2:{ by apply books_append. }
  destruct (bk_sock _ _ _ Hs i sk Hi) as [_ Hp]. destruct (Hp a Ha) as (fp & Hfp & Hok).
  set (s0 := mk_socks (filters s) (socks s ++ [Some (mk_sock None 0)])).
  assert (books nil_e nil_r s0) as Hs0 by by apply books_append.
  assert (live n (mk_sock None 0) s0) as Hn.
  { unfold live, s0. cbn [socks]. by rewrite lookup_app_r, Nat.sub_diag by done. }
  assert (s1 = upd_sock n (set_filter_ptr (Some a)) s0) as ->.
  { unfold s1, upd_sock, s0. cbn [filters socks]. f_equal. subst n.
    rewrite alter_app_r_alt by done. by rewrite Nat.sub_diag. }
  assert (∀ b, Some a = Some b → ∃ fp, filters s0 !! b = Some fp ∧ filter_ok fp) as Hb
    by (intros b [= <-]; by exists fp).
  pose proof (books_attach _ _ _ _ (Some a) _ Hn Hs0 Hb) as H1. cbn [sk_filter_ptr] in H1.
  set (s2 := upd_sock n _ s0) in *.
  assert (live n (set_filter_ptr (Some a) (mk_sock None 0)) s2) as Hn2
    by (apply (live_upd _ _ _ _ _ _ Hn); by rewrite decide_True).
  assert (filters s2 !! a = Some fp) as Hfp2 by done.
  refine (books_ext _ _ _ _ _ _ _ (books_charge _ _ _ _ _ fp _ Hn2 Hfp2 H1)).
  - intros j. unfold plus, nil_e. rewrite (charge_of_some s0 a fp Hfp). simpl. case_decide; lia.
  - intros b. unfold plus, nil_r. repeat case_decide; simplify_eq; try lia; done.
Qed.

Lemma live_omem i n sk s :
  live i sk s → live i (set_omem (omem_alloc sk + n) sk) (atomic_add_omem i n s).2.
Proof. intros Hi. apply (live_upd _ _ _ _ _ _ Hi). by rewrite decide_True. Qed.

(** A charge that is taken back. *)
Lemma books_back i n sk s :
  live i sk s → books (plus nil_e i n) nil_r s → books nil_e nil_r (atomic_add_omem i (- n) s).2.
Proof.
  intros Hi Hs. refine (books_ext _ _ _ _ _ _ _ (books_omem _ _ _ (- n) _ _ Hi Hs)); [|done].
  intros j. unfold plus, nil_e. case_decide; lia.
Qed.

Lemma charge_nonneg s o : 0 <= charge_of s o.
Proof.
  unfold charge_of, len_at, sk_filter_len, sizeof_sock_filter, sizeof_sk_filter.
  destruct o as [a|]; simpl; [|lia]. destruct (filters s !! a); simpl; lia.
Qed.

Lemma kmalloc_spec i size mem sk s :
  live i sk s → books nil_e nil_r s → 0 <= size < 2 ^ 31 →
  let (r, s') := sock_kmalloc i size mem s in
  match r with
  | None => books nil_e nil_r s' ∧ filters s' = filters s
  | Some a => mem = Some a ∧ s' = (atomic_add_omem i size s).2 ∧ size < sysctl_optmem_max
  end.
Proof.
  intros Hi Hs Hsz. unfold sock_kmalloc, mbind, ST_bind. cbn [gets fst snd]. rewrite (live_get _ _ _ Hi).
  destruct ((u32 size <=? sysctl_optmem_max) && (omem_alloc sk + size <? sysctl_optmem_max)) eqn:Hok;
    [|done]. to_prop.
  destruct (bk_sock _ _ _ Hs i sk Hi) as [Ho _]. pose proof (charge_nonneg s (sk_filter_ptr sk)).
  unfold nil_e in Ho. destruct mem as [a|]; cbn [mret ST_ret fst snd].
  - split_and!; [done|done|lia].
  - split; [|done]. eapply books_back; [by apply live_omem|]. eapply books_omem; done.
Qed.

(** The checker reads what lies before a filter only if the filter is empty. *)
Lemma chk_before before before' l : l ≠ [] → sk_chk_filter before l = sk_chk_filter before' l.
Proof.
  intros Hl. unfold sk_chk_filter. cbv zeta. destruct l as [|x l] using rev_ind; [done|].
  by rewrite !last_last.
Qed.

Lemma chk_header_ok fp :
  refcnt fp = 1 → sk_chk_filter (header_insn fp) (insns fp) = 0 →
  insns fp ≠ [] ∧ ∀ before, sk_chk_filter before (insns fp) = 0.
Proof.
  intros Hc Hok. assert (insns fp ≠ []) as Hne.
  { intros He. rewrite He in Hok. unfold header_insn in Hok. rewrite Hc in Hok. by vm_compute in Hok. }
  split; [done|]. intros before. by rewrite (chk_before before (header_insn fp)).
Qed.

(** The caller's program has the announced length and consists of words of the
    right widths, and the memory allocated is unused. *)
Definition attach_args_ok (len : Z) (fprog : option (option (list sock_filter))) (mem : option Z)
    (s : sock_state) : Prop :=
  0 <= len < 2 ^ 16 ∧
  (∀ prog, fprog = Some (Some prog) → Z.of_nat (length prog) = len ∧ Forall insn_wf prog) ∧
  (∀ a, mem = Some a → filters s !! a = None).

(** The filter is checked and attached, or released. *)
Lemma books_check i sk a fp n s :
  live i sk s → filters s !! a = Some fp → refcnt fp = 1 → Forall insn_wf (insns fp) →
  n = sk_filter_len fp → n < sysctl_optmem_max →
  books (plus nil_e i n) (plus nil_r a 1) s →
  books nil_e nil_r
    ((let err := sk_chk_filter (header_insn fp) (insns fp) in
      if (err =? 0 : bool) then
        old ← gets (λ s, sk_filter_ptr (get_sock i s));
        modify (upd_sock i (set_filter_ptr (Some a)));;
        match (old : option Z) with
        | Some o => sk_filter_release i o
        | None => skip
        end;;
        mret err
      else sk_filter_release i a;; mret err) s).2.
Proof.
  intros Hi Hfp Hc Hwf -> Hmax Hs. cbv zeta.
  destruct (Z.eqb_spec (sk_chk_filter (header_insn fp) (insns fp)) 0) as [Hok|Herr];
    unfold mbind, ST_bind; cbn [gets modify mret ST_ret fst snd].
  2:{ refine (books_ext _ _ _ _ _ _ _ (books_release _ _ _ _ _ fp _ Hi Hfp _ Hs)).
      - intros j. unfold plus, nil_e. case_decide; lia.
      - intros b. unfold plus, nil_r. case_decide; lia.
      - unfold plus, nil_r. by rewrite decide_True. }
  rewrite (live_get _ _ _ Hi).
  assert (∀ b, Some a = Some b → ∃ fp, filters s !! b = Some fp ∧ filter_ok fp) as Hb.
  { intros b [= <-]. exists fp. split; [done|]. destruct (chk_header_ok fp Hc Hok). by split_and!. }
  pose proof (books_attach _ _ _ _ (Some a) _ Hi Hs Hb) as H1. rewrite (charge_of_some _ _ _ Hfp) in H1.
  set (s1 := upd_sock i (set_filter_ptr (Some a)) s) in *.
  assert (live i (set_filter_ptr (Some a) sk) s1) as Hi1 by (apply (live_upd _ _ _ _ _ _ Hi); by rewrite decide_True).
  destruct (sk_filter_ptr sk) as [o|] eqn:Ho; cbn [skip snd].
  - destruct (bk_sock _ _ _ Hs i sk Hi) as [_ Hp]. destruct (Hp o Ho) as (fo & Hfo & _).
    rewrite (charge_of_some _ _ _ Hfo) in H1.
    refine (books_ext _ _ _ _ _ _ _ (books_release _ _ _ _ _ fo _ Hi1 Hfo _ H1)).
    + intros j. unfold plus, nil_e. case_decide; lia.
    + intros b. unfold plus, nil_r. repeat case_decide; simplify_eq; try lia; done.
    + unfold plus, nil_r. repeat case_decide; simplify_eq; try lia; done.
  - refine (books_ext _ _ _ _ _ _ _ H1).
    + intros j. unfold plus, nil_e. simpl. case_decide; lia.
    + intros b. unfold plus, nil_r. repeat case_decide; simplify_eq; try lia; done.
Qed.

Lemma books_attach_filter i len fprog mem sk s :
  live i sk s → attach_args_ok len fprog mem s → books nil_e nil_r s →
  books nil_e nil_r (sk_attach_filter i len fprog mem s).2.
Proof.
  intros Hi (Hlen & Hprog & Hmem) Hs. unfold sk_attach_filter. cbv zeta.
  destruct fprog as [copied|]; [|done]. destruct (len >? BPF_MAXINSNS) eqn:Hmax; [done|].
  unfold BPF_MAXINSNS in Hmax. to_prop.
  assert (u32 (sizeof_sock_filter * len) = 8 * len) as Hfs by (apply u32_small; unfold sizeof_sock_filter; lia).
  rewrite Hfs. unfold mbind at 1, ST_bind at 1. unfold sizeof_sk_filter.
  pose proof (kmalloc_spec i (8 * len + 8) mem sk s Hi Hs ltac:(lia)) as Hk.
  destruct (sock_kmalloc i (8 * len + 8) mem s) as [[a|] s1]; cbn [fst snd]; [|by apply Hk].
  destruct Hk as (-> & -> & Hsz). pose proof (Hmem a eq_refl) as Hno.
  pose proof (books_omem _ _ _ (8 * len + 8) _ _ Hi Hs) as H1.
  pose proof (live_omem i (8 * len + 8) sk s Hi) as Hi1. set (s1 := (atomic_add_omem i (8 * len + 8) s).2) in *.
  destruct copied as [prog|].
  - destruct (Hprog prog eq_refl) as [Hl Hwf]. unfold mbind at 1, ST_bind at 1. cbn [modify fst snd].
    rewrite <-Hl, Nat2Z.id, firstn_all. set (fp := mk_filter 1 prog).
    eapply (books_check _ _ _ fp (8 * len + 8)); [exact Hi1|by apply lookup_insert_eq|done|done| |done|].
    + unfold sk_filter_len, sizeof_sock_filter, sizeof_sk_filter. simpl. lia.
    + by apply books_new.
  - unfold sock_kfree_s, mbind, ST_bind. cbn [modify mret ST_ret fst snd].
    assert (set_filters (delete a (filters s1)) s1 = s1) as ->.
    { unfold set_filters. rewrite delete_id by exact Hno. by destruct s1. }
    by eapply books_back.
Qed.
