(* ===== verification/FilterThms.v ===== *)
(** The properties of the socket filter, with their witnesses. *)
From S2P Require Import Prelude Filter FilterProofs SockFilter SockProofs.
From stdpp Require Import list options.
#[local] Set Default Proof Using "Type*".
Open Scope cint_scope.
Open Scope Z_scope.

(** * Accepted filters are safe *)


(** The packet: three bytes in the linear part, the others in a page and in a
    second buffer. *)
Definition demo_area (l : list Z) : list Z := l ++ replicate 8 0.
Definition demo_skb : sk_buff :=
  mk_skb (demo_area [9; 9; 0x45; 1; 2]) 2 5 2 0 9 6
    [mk_frag [7; 3; 4; 7] 1 2]
    [mk_skb (demo_area [5; 6; 7; 8]) 0 4 0 0 4 0 [] [] 0 0 0] 0x0608 1 3.

(** Load the word at 2, which spans the three parts; keep 60 bytes if it is
    0x02030405, else load through the index register and count down in scratch memory. *)
Definition demo_filter : list sock_filter :=
  [mk_insn 0x20 0 0 2; mk_insn 0x15 0 1 0x02030405; mk_insn 0x06 0 0 60; mk_insn 0x02 0 0 3;
   mk_insn 0xb1 0 0 0; mk_insn 0x50 0 0 4; mk_insn 0x16 0 0 0].


(** C35. A load at an offset that is not negative does not depend on how the
    packet is laid out: it gives the big-endian number at that offset of the
    packet's bytes, whether they lie in the linear part, in page fragments, in
    buffers of the fragment list (and their fragments, to any depth) or across
    several of them; and the run ends with 0 when the packet is too short.
    [skb_copy_bits] likewise gives the packet's bytes, or [-EFAULT]. *)
Theorem bpf_load_layout_independent skb n k :
  skb_wf skb = true → 0 <= n → 0 <= k →
  let fits := k + n <=? zlen (flatten skb) in
  load skb n k = (if fits then LoadVal (be_value (zsub (flatten skb) k n)) else LoadRet0) ∧
  skb_copy_bits skb k n = Some (if fits then (0, zsub (flatten skb) k n) else (- EFAULT, [])).
Proof.
  intros Hwf Hn Hk. cbv zeta. rewrite <-(skb_wf_len skb Hwf). split.
  - by apply load_flat.
  - by apply skb_copy_bits_spec.
Qed.

Lemma bpf_load_layout_independent_witness :
  load demo_skb 4 2 = LoadVal 0x02030405 ∧ load demo_skb 4 6 = LoadRet0 ∧ load demo_skb 2 7 = LoadVal 0x0708.
Proof.
  split_and!.
  - rewrite (proj1 (bpf_load_layout_independent demo_skb 4 2 eq_refl ltac:(lia) ltac:(lia))). by vm_compute.
  - by vm_compute.
  - by vm_compute.
Defined.

(** * What the checker lets through *)

(** [sk_chk_filter] accepts a filter that reads outside the packet's
    memory: [BPF_MSH] compares its offset with the length only if it is not
    negative as an [int], and then reads at it. *)
Theorem bpf_msh_reads_outside before skb stack :
  0 <= skb_data skb < 2 ^ 31 →
  let filter := [mk_insn 0xb1 0 0 0x80000000; mk_insn 0x16 0 0 0] in
  sk_chk_filter before filter = 0 ∧ sk_run_filter 2 skb filter stack = OobData.
Proof.
  intros Hd filter. split; [by vm_compute|]. unfold sk_run_filter.
  change (run_loop 2 skb filter (mk_bpf 0 0 0 stack)) with
    (match step skb (mk_bpf 0 0 0 stack) (mk_insn 0xb1 0 0 0x80000000) with
     | Next st => run_loop 1 skb filter st | Stop r => r end).
  assert (∀ st, step skb st (mk_insn 0xb1 0 0 0x80000000) = Stop OobData) as ->; [|done].
  intros st. unfold step. cbn [code k].
  replace (switch_on switch_cases 0xb1) with CLdxMsh by by vm_compute.
  replace (s32 0x80000000) with (-2147483648) by by vm_compute. cbn [Z.geb Z.compare andb].
  by rewrite read_bytes_neg by lia.
Qed.

Lemma bpf_msh_reads_outside_witness :
  skb_wf demo_skb = true ∧
  sk_run_filter 2 demo_skb [mk_insn 0xb1 0 0 0x80000000; mk_insn 0x16 0 0 0] (replicate 16 0) = OobData.
Proof.
  split; [by vm_compute|].
  apply (bpf_msh_reads_outside (mk_insn 0 0 0 0) demo_skb (replicate 16 0)). simpl. lia.
Defined.

(** [sk_chk_filter] accepts a filter that returns a word of the kernel
    stack: the scratch memory is not initialised, and a load from it need not
    follow a store. *)
Theorem bpf_returns_stack before skb stack w :
  stack !! 5%nat = Some w →
  let filter := [mk_insn 0x60 0 0 5; mk_insn 0x16 0 0 0] in
  sk_chk_filter before filter = 0 ∧ sk_run_filter 2 skb filter stack = Ret (s32 w).
Proof.
  intros Hw filter. split; [by vm_compute|]. unfold sk_run_filter.
  change (run_loop 2 skb filter (mk_bpf 0 0 0 stack)) with
    (match step skb (mk_bpf 0 0 0 stack) (mk_insn 0x60 0 0 5) with
     | Next st => run_loop 1 skb filter st | Stop r => r end).
  assert (step skb (mk_bpf 0 0 0 stack) (mk_insn 0x60 0 0 5) = Next (mk_bpf 1 w 0 stack)) as ->.
  { unfold step. cbn [code k]. replace (switch_on switch_cases 0x60) with CLdMem by by vm_compute.
    unfold mem_at. cbn [mem]. change (5 <? BPF_MEMWORDS) with true. change (Z.to_nat 5) with 5%nat.
    by rewrite Hw. }
  done.
Qed.

Lemma bpf_returns_stack_witness :
  sk_run_filter 2 demo_skb [mk_insn 0x60 0 0 5; mk_insn 0x16 0 0 0] (seqZ 100 16) = Ret 105.
Proof.
  apply (bpf_returns_stack (mk_insn 0 0 0 0) demo_skb (seqZ 100 16) 105). by vm_compute.
Defined.

(** * Attached filters *)

Inductive sock_op :=
  | OSkAlloc
  | OAttach (i : nat) (len : Z) (fprog : option (option (list sock_filter))) (mem : option Z)
  | ODetach (i : nat)
  | OClone (i : nat)
  | OSkFree (i : nat).

Definition exec_sock (op : sock_op) (s : sock_state) : sock_state :=
  match op with
  | OSkAlloc => (sk_alloc s).2
  | OAttach i len fprog mem => (sk_attach_filter i len fprog mem s).2
  | ODetach i => (sock_detach_filter i s).2
  | OClone i => (tcp_clone_sock i s).2
  | OSkFree i => (sk_free i s).2
  end.

(** Calls are made on sockets that exist. *)
Definition sock_op_ok (op : sock_op) (s : sock_state) : Prop :=
  match op with
  | OSkAlloc => True
  | OAttach i len fprog mem => (∃ sk, live i sk s) ∧ attach_args_ok len fprog mem s
  | ODetach i | OClone i | OSkFree i => ∃ sk, live i sk s
  end.

Fixpoint run_socks (ops : list sock_op) (s : sock_state) : sock_state :=
  match ops with
  | [] => s
  | op :: ops => run_socks ops (exec_sock op s)
  end.

Fixpoint run_socks_ok (ops : list sock_op) (s : sock_state) : Prop :=
  match ops with
  | [] => True
  | op :: ops => sock_op_ok op s ∧ run_socks_ok ops (exec_sock op s)
  end.

Lemma books_run ops s : books nil_e nil_r s → run_socks_ok ops s → books nil_e nil_r (run_socks ops s).
Proof.
  revert s. induction ops as [|op ops IH]; intros s Hs; [done|]. intros [Hop Hops]. simpl.
  apply IH; [|done]. destruct op as [|i len fprog mem|i|i|i]; simpl in *.
  - by apply books_append.
  - destruct Hop as [[sk Hi] Ha]. by eapply books_attach_filter.
  - destruct Hop as [sk Hi]. by eapply books_detach.
  - destruct Hop as [sk Hi]. by eapply books_clone.
  - destruct Hop as [sk Hi]. by eapply books_free.
Qed.

Definition no_socks : sock_state := mk_socks ∅ [].


Lemma attach_args_some len prog a s :
  0 <= len < 2 ^ 16 → Z.of_nat (length prog) = len → Forall insn_wf prog → filters s !! a = None →
  attach_args_ok len (Some (Some prog)) (Some a) s.
Proof. intros Hl Hp Hw Ha. split; [done|]. split; [by intros p [= <-]|by intros b [= <-]]. Qed.

(** A socket gets a filter, is cloned, and gets another filter; an empty
    program and one without a final return are refused. *)
Definition demo_ops : list sock_op :=
  [OSkAlloc; OAttach 0 7 (Some (Some demo_filter)) (Some 0x1000); OClone 0;
   OAttach 0 1 (Some (Some [mk_insn 6 0 0 0])) (Some 0x2000);
   OAttach 1 0 (Some (Some [])) (Some 0x3000);
   OAttach 1 1 (Some (Some [mk_insn 0 0 0 5])) (Some 0x3000); OSkFree 0].

